(* ===== verification/_CoqProject ===== *)
-Q . S2P
Prelude.v
U256.v
Params.v
Pow.v
Io.v
Encode.v
HashEngine.v
Sha256.v
Sha256t.v
Ripemd160.v
Sha512.v
Sha1.v
Hmac.v
SipHash.v
BitStream.v
Merkle.v
PartialMerkle.v
Taproot.v
TapTree.v
TapSpend.v
OrdMap.v
Huffman.v
Witness.v
LockTime.v
Amount.v
AmountText.v
Script.v
ScriptKinds.v
Transaction.v
Sigops.v
Validation.v
Sighash.v
Signatures.v
SighashSpec.v
SighashLegacy.v
Block.v
Genesis.v
Bip158.v
CompactBlocks.v
AuxPow.v
Dogecoin.v
Base58.v
Keys.v
WitnessSpend.v
DerivationPath.v
ParseInt.v
U256Text.v
HexText.v
Bip32.v
PsbtRaw.v
TapTreeBytes.v
PsbtFields.v
PsbtMap.v
PsbtOutput.v
PsbtInput.v
Psbt.v
PsbtOps.v
PsbtSign.v
DogeAddress.v
BtcAddress.v
SignMessage.v
P2p.v
P2pMessage.v
Names.v
ScriptAsm.v
