(* ===== verification/Prelude.v ===== *)
(** * rust-dogecoin: a verification development

    rust-dogecoin is a Rust library of Bitcoin and Dogecoin data structures: consensus
    encoding, transactions, blocks, proof of work, merged mining, scripts, keys, addresses
    and peer-to-peer messages.  This library models it and proves it correct.  Paths below are relative
    to [bitcoin/src/] unless they start with the name of another crate of the workspace.

    ** The program and the files

    The parts build on each other in the order of the files.

    - [Prelude]: Rust's outcomes.  [Result E A] is [Result<A, E>]; [run A] is a computation
      that may panic; [comp E A] one that may fail or panic.  [BuildMode] tells a debug build
      (overflow panics) from a release build (overflow wraps); [arith_u], [arith_i] and
      [shl_u] are the plain operators at a width.  A w-bit integer is a [Z] with its range
      ([in_u], [in_i]).  The generic lemmas, tactics and hints are here.
    - [U256]: the two-word 256-bit integer of [pow.rs].  [val] is its value.
    - [Params]: the parameters of the Bitcoin and Dogecoin networks
      ([consensus/params.rs], [dogecoin/params.rs], [network.rs]).
    - [Pow]: [Target], [Work], [CompactTarget], the transition thresholds and the two
      difficulty adjustments ([pow.rs]).
    - [Io]: readers ([io/src/lib.rs]).  The class [Reader] is the interface between the
      readers and everything that decodes.
    - [Encode]: consensus encoding ([consensus/encode.rs], [internal_macros.rs]).  The record
      [Consensus T] holds the encoder and the two decoders of a type; the classes [Codec]
      (round trip, length) and [Canonical] (only encodings are accepted) are what each type
      promises to the types built from it.  All later files discharge these classes.
    - [HashEngine], [Sha256], [Sha256t], [Ripemd160], [Sha512], [Sha1], [Hmac], [SipHash]: the
      buffered hash engine, the hash functions that use it, tagged hashes, HMAC over the
      class [HashFn] of hash functions, and SipHash-2-4, each beside its published
      definition ([hashes/src/]).
    - [Merkle], [PartialMerkle]: merkle roots and partial merkle trees ([merkle_tree/]).
    - [Taproot], [TapTree], [TapSpend], [Huffman]: tagged hashes and leaves, the tree builder,
      spending information and control blocks, and trees from weights ([taproot/]).
    - [OrdMap]: [BTreeMap] as a list ordered by its key, for every type with a total order
      ([TotalCompare]).
    - [Witness], [LockTime], [Amount], [AmountText], [Script], [ScriptKinds], [Transaction],
      [Sigops]: transactions and their parts ([blockdata/], [units/src/]).
    - [Validation]: verification of scripts and transactions through the bitcoinconsensus
      crate, the class [BitcoinConsensus] ([consensus/validation.rs]).
    - [Sighash], [SighashSpec], [SighashLegacy]: the signature hash cache and messages
      ([crypto/sighash.rs]) and the messages of BIP-341, BIP-143 and the legacy rules.
    - [Signatures]: the bytes of ECDSA and Schnorr signatures ([crypto/ecdsa.rs],
      [crypto/taproot.rs], [taproot/serialized_signature.rs]).
    - [Block]: headers, blocks, proof-of-work checks and merkle blocks
      ([blockdata/block.rs], [merkle_tree/block.rs]).
    - [Genesis]: the Bitcoin genesis blocks and chain hashes ([blockdata/constants.rs]).
    - [BitStream], [Bip158]: bit streams and compact filters ([bip158.rs]).
    - [CompactBlocks]: compact blocks ([bip152.rs]).
    - [AuxPow]: merged mining ([dogecoin/auxpow.rs]).
    - [Dogecoin]: Dogecoin headers, blocks and genesis blocks ([dogecoin/mod.rs],
      [dogecoin/constants.rs]).
    - [Base58]: base58check ([base58/src/lib.rs]).
    - [Keys]: public and private keys with their formats ([crypto/key.rs]) and the array
      vector of [internals/src/array_vec.rs].
    - [WitnessSpend]: witnesses from signatures and the taproot accessors of a witness
      ([blockdata/witness.rs]).
    - [DerivationPath], [Bip32]: child numbers, paths, extended keys and derivation
      ([bip32.rs]).
    - [ParseInt], [U256Text], [HexText], [Names]: text.  Integers and hexadecimal numbers with
      their errors ([units/src/parse.rs], [error.rs], lock times, sequences, compact targets);
      the text of [U256] and its conversion to binary64; hashes, outpoints and public keys over
      the hex crate ([HexCrate]); names of networks, magics, service flags, witness versions
      and signature hash types ([network.rs], [p2p/mod.rs] and others).
    - [ScriptAsm]: the names of opcodes and the assembly text of scripts
      ([blockdata/opcodes.rs], [blockdata/script/mod.rs]).
    - [PsbtRaw], [TapTreeBytes], [PsbtFields], [PsbtMap], [PsbtOutput], [PsbtInput], [Psbt],
      [PsbtOps], [PsbtSign]: partially signed transactions ([psbt/]).  Raw pairs; the values a
      field can hold, each with [ValueLaws] or [KeyLaws] for its bytes; what one field writes,
      reads and combines; the output, input and global maps; the PSBT and its bytes; combining,
      fees and extraction; keys and signing.  [PsbtCurve] and [Signer] are the curve.
    - [DogeAddress], [BtcAddress]: addresses ([dogecoin/address/], [address/]).
    - [SignMessage]: signed messages ([sign_message.rs]).
    - [P2p], [P2pMessage]: the data, payloads and frames of the peer-to-peer protocol
      ([p2p/]).

    Definitions keep the names of the source.  Where two functions of the source share a
    name, a Module or a prefix keeps them apart ([Build.push_slice], [doge_block_hash]).

    ** What the theorems show

    - Arithmetic: what each [U256] operation computes, with its overflow flag or panic; division
      terminates and is Euclidean.  The general multiplication is the product modulo [2^256] for
      factors below [2^192]; what it computes beyond is stated exactly.
    - Difficulty: both adjustments, in both builds, compute the clamped and capped target and
      stay within the thresholds, with the one overflow of the Dogecoin timespan named; the compact form truncates by less than
      one part in [2^15]; work is antitone in the target.
    - Encoding: integers, lengths, arrays, vectors and structures composed in any way (the type
      codes [Wire]) have exactly the documented wire format, and [deserialize] succeeds on nothing
      else.  For every type with the two classes it succeeds exactly on the encodings of well-formed
      values, whatever reader is used: transactions, witnesses, headers, blocks, partial merkle
      trees, AuxPow proofs and Dogecoin blocks have them.
    - Hashing and merkle trees: every engine computes its published hash function however the
      input is cut, HMAC is RFC 2104 over any of them; both root algorithms compute the
      level-by-level root; partial merkle trees are complete, and sound for the number of transactions
      they state; merkle branches prove leaves.
    - Taproot: what the builder accepts and builds, that control blocks verify and bind,
      that trees from weights are optimal.
    - Transactions: ids ignore witnesses, sizes and weights are the lengths of the encodings,
      weight prediction is exact; witnesses are a refinement of a stack; lock times;
      signature operation costs agree with the reference client.
    - Signature hashes: the cache is invisible as long as the spent outputs given to it are the
      same, each hash is that of the specified message,
      and equal hashes mean equal signed data or a collision.
    - Partially signed transactions: serialisation round trips, [deserialize] yields only
      well-formed values and never panics; what [combine] does with every field, when it is
      commutative, when it fails and when it panics; the extracted transaction and every outcome of extraction; [sign] treats each
      input as if it were alone; what each key store finds for a request.
    - Amounts: parsing, printing and arithmetic are exact on every input.
    - Scripts: building and iterating are inverse; script numbers are canonical.
    - Genesis: the blocks of all networks are valid and hash to the constants of the code.
    - Blocks, filters and compact blocks: proof-of-work checks, witness commitments and the
      BIP34 height are characterised on every input; filters match exactly; compact blocks
      expand to the block.
    - Merged mining: what [check] accepts, that it never panics, and that one coinbase
      script cannot be used for two blocks of a chain.
    - Keys: derivation is BIP-32's, with every error and panic; public derivation agrees with
      private derivation; the text forms of keys and paths are exact.
    - Addresses: text and script forms round trip exactly; base58 is a bijection.
    - Text: integer, hexadecimal, outpoint and key parsing accept exactly the forms described,
      with the exact value, and what is printed parses back; the conversion of a 256-bit
      integer to a float is rounded to nearest, ties to even.  The assembly text of a script
      shows an error exactly when iterating it ends in one, and otherwise determines the script.
    - Signed messages: serialisation round trips, what [from_slice] accepts, and that the test
      against an address is recovery of a key with its hash; validation: [verify] gives the
      first failure over the inputs in order.
    - Peer-to-peer messages: over any header and block codec, frames round trip and are
      accepted exactly when length, checksum and payload fit.

    Security statements do not assume that a hash function is injective: they conclude that
    a property holds or that two different pairs of nodes that were hashed have one value
    ([collision_between]), naming the lists of pairs.

    ** Bounds and fuel

    [usize] has 64 bits.  Loops over data recurse on the data.  Loops with a count use the
    source's bound (256 steps of [div_rem_loop]) or a fuel that a lemma shows to be enough,
    for example [write_loop] 8 bytes of a 64-bit number, [push_carry] two digits of a byte,
    [merkle_root_r], [input_loop] and [collect_from] the length of their list, which each
    step shortens, [tree_height_loop] the 32 bits of a count, [insert_loop], [huffman_loop] and
    [taptree_loop] the number of nodes, [bit_write_loop] and [bit_read_loop] the bits of a
    field, [decode_map] the [2^64] bytes a reader cannot exceed, [read_to_limit] its limit,
    [read_indices] and [path_loop] the bytes left, [unary_loop] the words of a quotient,
    [words_loop] the length of the message, [asm_loop] the bytes of the script,
    [fmt_decimal_loop] the 78 digits of its buffer, the digit loops of amounts 64.  Theorems about
    these functions state the result, so running out of fuel would falsify them.  Lengths are
    bounded in statements only by what fits a Rust allocation or a consensus limit of the source.

    ** What is not modelled

    External code is a parameter, a class with the documented behaviour that is used as
    its laws: [Scrypt] (the scrypt crate fills its output), [Secp256k1] and [SecpKeys] (the
    curve, with [Secp256k1Laws] and [SecpKeysLaws]), [SecpSigs], [PsbtCurve] and [Signer]
    (signatures, the orders of keys and the operations with secrets, each with its laws),
    [Bech32] (with [Bech32Laws]), [HexCrate] (hexadecimal of byte arrays, with [HexLaws]),
    [SecpRecovery] and [Base64] (with their laws), [BitcoinConsensus] (an arbitrary verifier),
    the Unicode tables of [char] for amounts, and [mem::size_of::<Transaction>()].  Each theorem
    that uses laws has a witness at a concrete instance.

    The base64 form of a PSBT, floating-point difficulty and amounts, serde, [Debug] and the
    formatting of most errors are not modelled.  Schnorr signing is the
    deterministic variant of the feature set without [rand-std]. *)

From Stdlib Require Import ZArith Lia.
From coqutil Require Import Byte Word.LittleEndianList.
From stdpp Require Import base tactics option list numbers.

#[global] Set Default Goal Selector "!".
#[local] Open Scope Z_scope.

(** ** Outcomes: Rust's [Result] and panics *)

(** [Result<T, E>], with the error type first so that [Result E] is a monad. *)
Inductive Result (E A : Type) : Type :=
| Ok (a : A)
| Err (e : E).
Arguments Ok {E A} a.
Arguments Err {E A} e.

(** A computation that may panic (a failed [assert!], an out-of-range index, an
    [expect] on an error, an arithmetic overflow in a build with overflow checks). *)
Inductive run (A : Type) : Type :=
| Ret (a : A)
| Panic.
Arguments Ret {A} a.
Arguments Panic {A}.

#[export] Instance Result_ret {E} : MRet (Result E) := fun _ a => Ok a.
#[export] Instance Result_bind {E} : MBind (Result E) := fun _ _ k m =>
  match m with Ok a => k a | Err e => Err e end.
#[export] Instance Result_fmap {E} : FMap (Result E) := fun _ _ f m =>
  match m with Ok a => Ok (f a) | Err e => Err e end.
#[export] Instance run_ret : MRet run := fun _ a => Ret a.
#[export] Instance run_bind : MBind run := fun _ _ k m =>
  match m with Ret a => k a | Panic => Panic end.
#[export] Instance run_fmap : FMap run := fun _ _ f m =>
  match m with Ret a => Ret (f a) | Panic => Panic end.

(** [Result::map_err] and [Option::ok_or]. *)
Definition map_err {E F A} (f : E -> F) (m : Result E A) : Result F A :=
  match m with Ok a => Ok a | Err e => Err (f e) end.
Definition ok_or {E A} (o : option A) (e : E) : Result E A :=
  match o with Some a => Ok a | None => Err e end.
Definition is_ok {E A} (m : Result E A) : bool :=
  match m with Ok _ => true | Err _ => false end.

#[export] Instance Ok_inj {E A} : Inj (=) (=) (@Ok E A).
Proof. by intros ?? [=]. Qed.
#[export] Instance Err_inj {E A} : Inj (=) (=) (@Err E A).
Proof. by intros ?? [=]. Qed.
#[export] Instance Ret_inj {A} : Inj (=) (=) (@Ret A).
Proof. by intros ?? [=]. Qed.
#[export] Instance Result_eq_dec {E A} `{EqDecision E, EqDecision A} :
  EqDecision (Result E A).
Proof. solve_decision. Defined.
#[export] Instance run_eq_dec {A} `{EqDecision A} : EqDecision (run A).
Proof. solve_decision. Defined.

Lemma bind_Ret {A B} (a : A) (k : A -> run B) : Ret a ≫= k = k a.
Proof. done. Qed.
(** A fallible computation that may also panic: a function returning [Result] in whose
    body some operation can panic. *)
Inductive comp (E A : Type) : Type :=
| Val (a : A)
| Throw (e : E)
| Crash.
Arguments Val {E A} a.
Arguments Throw {E A} e.
Arguments Crash {E A}.

#[export] Instance comp_ret {E} : MRet (comp E) := fun _ a => Val a.
#[export] Instance comp_bind {E} : MBind (comp E) := fun _ _ k m =>
  match m with Val a => k a | Throw e => Throw e | Crash => Crash end.
#[export] Instance comp_eq_dec {E A} `{EqDecision E, EqDecision A} : EqDecision (comp E A).
Proof. solve_decision. Defined.

Definition of_run {E A} (m : run A) : comp E A :=
  match m with Ret a => Val a | Panic => Crash end.
Definition of_result {E A} (m : Result E A) : comp E A :=
  match m with Ok a => Val a | Err e => Throw e end.

Lemma comp_bind_Val {E A B} (m : comp E A) (k : A -> comp E B) (b : B) :
  m ≫= k = Val b <-> exists a, m = Val a /\ k a = Val b.
Proof. destruct m; simpl; naive_solver. Qed.

Lemma bind_Val {E A B} (a : A) (k : A -> comp E B) : Val a ≫= k = k a.
Proof. done. Qed.

(** [v[i]]: a panic out of range. *)
Definition index {A} (l : list A) (i : Z) : run A :=
  if i <? 0 then Panic
  else match l !! Z.to_nat i with Some a => Ret a | None => Panic end.

(** ** The two build modes

    [debug_assertions] selects how arithmetic overflow and [debug_assert!] behave:
    [true] is a build with overflow checks (a panic), [false] a release build
    (two's-complement wrap-around, masked shift counts). *)
Class BuildMode := debug_assertions : bool.

Definition debug_assert {bm : BuildMode} (cond : bool) : run unit :=
  if debug_assertions && negb cond then Panic else Ret tt.

(** [assert!] panics in both builds. *)
Definition assert_ (cond : bool) : run unit := if cond then Ret tt else Panic.

(** ** Machine integers

    A [w]-bit unsigned integer is a [Z] in [0, 2^w), a signed one a [Z] in
    [-2^(w-1), 2^(w-1)). *)
Definition wrap (w z : Z) : Z := z mod 2 ^ w.
Definition swrap (w z : Z) : Z := (z + 2 ^ (w - 1)) mod 2 ^ w - 2 ^ (w - 1).
Definition in_u (w z : Z) : Prop := 0 <= z < 2 ^ w.
Definition in_i (w z : Z) : Prop := - 2 ^ (w - 1) <= z < 2 ^ (w - 1).
Definition in_ub (w z : Z) : bool := (0 <=? z) && (z <? 2 ^ w).
Definition in_ib (w z : Z) : bool := (- 2 ^ (w - 1) <=? z) && (z <? 2 ^ (w - 1)).

(** Plain [+], [-], [*] at width [w]: the mathematical result when it fits,
    otherwise a panic or the wrapped value, according to the build. *)
Definition arith_u {bm : BuildMode} (w z : Z) : run Z :=
  if in_ub w z then Ret z else if debug_assertions then Panic else Ret (wrap w z).
Definition arith_i {bm : BuildMode} (w z : Z) : run Z :=
  if in_ib w z then Ret z else if debug_assertions then Panic else Ret (swrap w z).

(** Plain [<<] at width [w] (a power of two): the shift count overflows when it is
    at least [w]. *)
Definition shl_u {bm : BuildMode} (w z n : Z) : run Z :=
  if n <? w then Ret (wrap w (Z.shiftl z n))
  else if debug_assertions then Panic
  else Ret (wrap w (Z.shiftl z (n mod w))).

Definition shr_u {bm : BuildMode} (w z n : Z) : run Z :=
  if n <? w then Ret (Z.shiftr z n)
  else if debug_assertions then Panic
  else Ret (Z.shiftr z (n mod w)).

(** [leading_zeros] through the bit length. *)
Definition bit_length (z : Z) : Z := if z =? 0 then 0 else Z.log2 z + 1.
Definition leading_zeros (w z : Z) : Z := w - bit_length z.

Definition u8_MAX : Z := 2 ^ 8 - 1.
Definition u16_MAX : Z := 2 ^ 16 - 1.
Definition u32_MAX : Z := 2 ^ 32 - 1.
Definition u64_MAX : Z := 2 ^ 64 - 1.
Definition u128_MAX : Z := 2 ^ 128 - 1.

(** [Ord::clamp] and [cmp::min] on integers. *)
Definition clamp (z lo hi : Z) : Z := if z <? lo then lo else if hi <? z then hi else z.

#[export] Instance in_u_dec w z : Decision (in_u w z).
Proof. unfold in_u; apply _. Defined.
#[export] Instance in_i_dec w z : Decision (in_i w z).
Proof. unfold in_i; apply _. Defined.

#[export] Instance byte_eq_dec : EqDecision byte.
Proof. intros x y. destruct (Byte.byte_eq_dec x y); [by left|by right]. Defined.

Lemma byte_unsigned_of_Z z : 0 <= z < 256 -> byte.unsigned (byte.of_Z z) = z.
Proof. intros. rewrite byte.unsigned_of_Z. by apply Z.mod_small. Qed.

Create HintDb ints.

Lemma index_lookup {A} (l : list A) (i : Z) (a : A) :
  0 <= i -> l !! Z.to_nat i = Some a -> index l i = Ret a.
Proof. intros Hi E. unfold index. rewrite (proj2 (Z.ltb_ge _ _)) by lia. by rewrite E. Qed.

Lemma index_Ret {A} (l : list A) (i : Z) (a : A) :
  index l i = Ret a <-> 0 <= i /\ l !! Z.to_nat i = Some a.
Proof.
  unfold index. destruct (Z.ltb_spec i 0); [split; [done|lia]|].
  destruct (l !! Z.to_nat i); naive_solver.
Qed.

Lemma in_ub_spec w z : in_ub w z = true <-> in_u w z.
Proof. unfold in_ub, in_u. rewrite andb_true_iff, Z.leb_le, Z.ltb_lt. done. Qed.

Lemma in_ib_spec w z : in_ib w z = true <-> in_i w z.
Proof. unfold in_ib, in_i. rewrite andb_true_iff, Z.leb_le, Z.ltb_lt. done. Qed.

Lemma pow2_pos n : 0 <= n -> 0 < 2 ^ n.
Proof. intros. by apply Z.pow_pos_nonneg. Qed.

Lemma wrap_in_u w z : 0 <= w -> in_u w (wrap w z).
Proof. intros. by apply Z.mod_pos_bound, pow2_pos. Qed.

Lemma wrap_small w z : in_u w z -> wrap w z = z.
Proof. intros. by apply Z.mod_small. Qed.

Lemma swrap_in_i w z : 0 < w -> in_i w (swrap w z).
Proof.
  intros. unfold in_i, swrap.
  pose proof (Z.mod_pos_bound (z + 2 ^ (w - 1)) (2 ^ w) ltac:(by apply pow2_pos; lia)).
  assert (2 ^ w = 2 * 2 ^ (w - 1)) as E.
  { rewrite <- Z.pow_succ_r by lia. f_equal; lia. }
  lia.
Qed.

Lemma swrap_small w z : 0 < w -> in_i w z -> swrap w z = z.
Proof.
  unfold in_i, swrap. intros ? ?.
  assert (2 ^ w = 2 * 2 ^ (w - 1)) as E.
  { rewrite <- Z.pow_succ_r by lia. f_equal; lia. }
  rewrite Z.mod_small; lia.
Qed.

Lemma arith_u_small {bm : BuildMode} w z : in_u w z -> arith_u w z = Ret z.
Proof. intros. unfold arith_u. by rewrite (proj2 (in_ub_spec w z)). Qed.

Lemma arith_i_small {bm : BuildMode} w z : in_i w z -> arith_i w z = Ret z.
Proof. intros. unfold arith_i. by rewrite (proj2 (in_ib_spec w z)). Qed.

#[export] Hint Resolve wrap_in_u swrap_in_i : ints.

Lemma bit_length_nonneg z : 0 <= bit_length z.
Proof. unfold bit_length. destruct (Z.eqb_spec z 0); [done|]. pose proof (Z.log2_nonneg z). lia. Qed.

Lemma bit_length_bound z : 0 <= z -> z < 2 ^ bit_length z.
Proof.
  intros. unfold bit_length. destruct (Z.eqb_spec z 0) as [->|]; [done|].
  apply Z.log2_spec. lia.
Qed.

Lemma bit_length_lower z : 0 < z -> 2 ^ (bit_length z - 1) <= z.
Proof.
  intros. unfold bit_length. destruct (Z.eqb_spec z 0); [lia|].
  replace (Z.log2 z + 1 - 1) with (Z.log2 z) by lia. apply Z.log2_spec. lia.
Qed.

Lemma bit_length_le z w : 0 <= w -> 0 <= z < 2 ^ w -> bit_length z <= w.
Proof.
  intros. unfold bit_length. destruct (Z.eqb_spec z 0); [lia|].
  assert (Z.log2 z < w) by (apply Z.log2_lt_pow2; lia). lia.
Qed.

(** Disjoint bits: [lor] is addition. *)
Lemma lor_add_disjoint a b n :
  0 <= n -> 0 <= a < 2 ^ n -> Z.lor a (Z.shiftl b n) = a + b * 2 ^ n.
Proof.
  intros Hn Ha. rewrite Z.shiftl_mul_pow2 by done.
  rewrite <- Z.lxor_lor.
  - rewrite <- Z.add_nocarry_lxor; [done|].
    apply Z.bits_inj'; intros i Hi. rewrite Z.land_spec, Z.bits_0.
    destruct (Z.lt_ge_cases i n).
    + rewrite Z.mul_pow2_bits_low by lia. apply andb_false_r.
    + rewrite <- (Z.mod_small a (2 ^ n)) by lia.
      by rewrite Z.mod_pow2_bits_high by lia.
  - apply Z.bits_inj'; intros i Hi. rewrite Z.land_spec, Z.bits_0.
    destruct (Z.lt_ge_cases i n).
    + rewrite Z.mul_pow2_bits_low by lia. apply andb_false_r.
    + rewrite <- (Z.mod_small a (2 ^ n)) by lia.
      by rewrite Z.mod_pow2_bits_high by lia.
Qed.

Lemma le_combine_cons b (bs : list byte) :
  le_combine (b :: bs) = byte.unsigned b + 256 * le_combine bs.
Proof.
  pose proof (byte.unsigned_range b).
  change (le_combine (b :: bs)) with (Z.lor (byte.unsigned b) (Z.shiftl (le_combine bs) 8)).
  rewrite (lor_add_disjoint _ _ 8) by lia. lia.
Qed.

Lemma le_split_S n z : le_split (S n) z = byte.of_Z z :: le_split n (z / 256).
Proof.
  change (le_split (S n) z) with (byte.of_Z z :: le_split n (Z.shiftr z 8)).
  by rewrite Z.shiftr_div_pow2.
Qed.

Lemma wrap_add w a b : 0 <= w -> in_u w a -> in_u w b ->
  wrap w (a + b) = if 2 ^ w <=? a + b then a + b - 2 ^ w else a + b.
Proof.
  unfold in_u, wrap. intros. destruct (Z.leb_spec (2 ^ w) (a + b)).
  - symmetry. apply Z.mod_unique with 1; lia.
  - apply Z.mod_small. lia.
Qed.

(** Case analysis on every boolean comparison of the goal. *)
Ltac zcases :=
  repeat match goal with
  | |- context [?a <=? ?b] => destruct (Z.leb_spec a b)
  | |- context [?a <? ?b] => destruct (Z.ltb_spec a b)
  | |- context [?a =? ?b] => destruct (Z.eqb_spec a b)
  end.

(** Inclusion of lists built by [::] and [++]. *)
Ltac sublist := let x := fresh in intros x; rewrite ?elem_of_cons, ?elem_of_app; tauto.

Lemma log2_lt w a : 0 < w -> in_u w a -> Z.log2 a < w.
Proof.
  unfold in_u. intros Hw Ha. destruct (Z.eq_dec a 0) as [->|]; [done|].
  apply Z.log2_lt_pow2; lia.
Qed.

Lemma lor_in_u w a b : 0 < w -> in_u w a -> in_u w b -> in_u w (Z.lor a b).
Proof.
  intros Hw Ha Hb. pose proof (log2_lt w a Hw Ha). pose proof (log2_lt w b Hw Hb).
  unfold in_u in *. assert (0 <= Z.lor a b) by (apply Z.lor_nonneg; lia). split; [done|].
  destruct (Z.eq_dec (Z.lor a b) 0) as [->|]; [by apply pow2_pos; lia|].
  apply Z.log2_lt_pow2; [lia|]. rewrite Z.log2_lor by lia. lia.
Qed.

Lemma land_in_u w a b : 0 < w -> in_u w a -> 0 <= b -> in_u w (Z.land a b).
Proof.
  intros Hw Ha Hb. pose proof (log2_lt w a Hw Ha). unfold in_u in *.
  assert (0 <= Z.land a b) by (apply Z.land_nonneg; lia). split; [done|].
  destruct (Z.eq_dec (Z.land a b) 0) as [->|]; [by apply pow2_pos; lia|].
  apply Z.log2_lt_pow2; [lia|]. pose proof (Z.log2_land a b). lia.
Qed.

Lemma land_pow2 x n : 0 <= n -> Z.land x (2 ^ n) = if Z.testbit x n then 2 ^ n else 0.
Proof.
  intros Hn. apply Z.bits_inj'; intros i Hi. rewrite Z.land_spec, Z.pow2_bits_eqb by done.
  destruct (Z.eqb_spec n i) as [->|Hne].
  - destruct (Z.testbit x i); [by rewrite Z.pow2_bits_true|by rewrite Z.bits_0].
  - rewrite andb_false_r. destruct (Z.testbit x n); [|by rewrite Z.bits_0].
    by rewrite Z.pow2_bits_false.
Qed.

(** The top bit of an [(n+1)]-bit value. *)
Lemma testbit_top x n : 0 <= n -> 0 <= x < 2 ^ (n + 1) -> Z.testbit x n = (2 ^ n <=? x).
Proof.
  intros Hn Hx. pose proof (pow2_pos n Hn). rewrite Z.pow_add_r in Hx by lia.
  destruct (Z.leb_spec (2 ^ n) x).
  - apply Z.testbit_true; [done|]. by replace (x / 2 ^ n) with 1
      by (apply Z.div_unique with (x - 2 ^ n); lia).
  - apply Z.testbit_false; [done|]. by rewrite Z.div_small by lia.
Qed.

Lemma bit_length_unique z b : 0 < b -> 2 ^ (b - 1) <= z < 2 ^ b -> bit_length z = b.
Proof.
  intros Hb Hz. pose proof (pow2_pos (b - 1)). unfold bit_length.
  destruct (Z.eqb_spec z 0); [lia|].
  rewrite (Z.log2_unique' z (b - 1) (z - 2 ^ (b - 1))); [lia|lia| |lia].
  split; [lia|]. replace b with (b - 1 + 1) in Hz at 2 by lia.
  rewrite Z.pow_add_r in Hz by lia. lia.
Qed.

Lemma bit_length_pos z : 0 < z -> 0 < bit_length z.
Proof.
  intros. pose proof (bit_length_bound z). pose proof (bit_length_nonneg z).
  destruct (Z.eq_dec (bit_length z) 0) as [E|]; [|lia]. rewrite E in *. lia.
Qed.

(** ** Writing into a slice: [buf[i..i + bs.len()].copy_from_slice(bs)] *)
Definition copy_at {A} (i : nat) (bs buf : list A) : list A :=
  take i buf ++ bs ++ drop (i + length bs) buf.

Lemma copy_at_app {A} i (bs a b c : list A) : length a = i -> length b = length bs ->
  copy_at i bs (a ++ b ++ c) = a ++ bs ++ c.
Proof.
  intros <- Hb. unfold copy_at. rewrite take_app_length. f_equal. f_equal.
  rewrite <- Hb, app_assoc, <- length_app. apply drop_app_length.
Qed.

Lemma copy_at_end {A} i (bs a b : list A) : length a = i -> length b = length bs ->
  copy_at i bs (a ++ b) = a ++ bs.
Proof.
  intros. pose proof (copy_at_app i bs a b []) as E. rewrite !app_nil_r in E. by apply E.
Qed.

(** ** Derived [Ord]: lexicographic comparison *)

Definition then_cmp (c d : comparison) : comparison := match c with Eq => d | _ => c end.

Fixpoint list_compare {A} (cmp : A -> A -> comparison) (l k : list A) : comparison :=
  match l, k with
  | [], [] => Eq
  | [], _ :: _ => Lt
  | _ :: _, [] => Gt
  | x :: l, y :: k => then_cmp (cmp x y) (list_compare cmp l k)
  end.

Definition byte_compare (x y : byte) : comparison := byte.unsigned x ?= byte.unsigned y.
Definition bytes_compare : list byte -> list byte -> comparison := list_compare byte_compare.

(** A comparison that identifies equal values only, and swaps with its arguments. *)
Class LawfulCompare {A} (cmp : A -> A -> comparison) : Prop := {
  compare_eq_iff x y : cmp x y = Eq <-> x = y;
  compare_swap x y : cmp y x = CompOpp (cmp x y);
}.

Lemma then_cmp_Eq c d : then_cmp c d = Eq <-> c = Eq /\ d = Eq.
Proof. destruct c, d; simpl; naive_solver. Qed.
Lemma then_cmp_opp c d : CompOpp (then_cmp c d) = then_cmp (CompOpp c) (CompOpp d).
Proof. by destruct c. Qed.

#[export] Instance byte_compare_lawful : LawfulCompare byte_compare.
Proof.
  split; intros x y; unfold byte_compare; [|apply Z.compare_antisym].
  rewrite Z.compare_eq_iff. split; [|by intros ->].
  intros E. by rewrite <- (byte.of_Z_unsigned x), E, byte.of_Z_unsigned.
Qed.
#[export] Instance list_compare_lawful {A} (cmp : A -> A -> comparison) `{!LawfulCompare cmp} :
  LawfulCompare (list_compare cmp).
Proof.
  split; intros x; induction x as [|a x IH]; intros [|b y]; try done; simpl.
  - rewrite then_cmp_Eq, IH, compare_eq_iff. naive_solver.
  - by rewrite then_cmp_opp, IH, (compare_swap a b).
Qed.
#[export] Instance bytes_compare_lawful : LawfulCompare bytes_compare := list_compare_lawful _.

(** Reduce the monadic plumbing and nothing else. *)
Ltac msimpl :=
  cbn [mbind run_bind fmap run_fmap mret run_ret Result_bind Result_fmap Result_ret].
