(* ===== verification/U256.v ===== *)
(** * The 256-bit integer of [bitcoin/src/pow.rs]

    [U256] is a pair of 128-bit words, high word first.  Every operation below is
    the word-level code of [pow.rs]; the theorems relate it to arithmetic on the
    value [val x = hi * 2^128 + lo].  Operations of the source that can panic
    return a [run]. *)

From Stdlib Require Import ZArith Lia.
From coqutil Require Import Byte Word.LittleEndianList.
From stdpp Require Import base tactics option list numbers.
From S2P Require Import Prelude.
#[local] Open Scope Z_scope.

Record U256 := mkU256 { hi : Z; lo : Z }.

#[export] Instance U256_eq_dec : EqDecision U256.
Proof. solve_decision. Defined.

Definition val (x : U256) : Z := hi x * 2 ^ 128 + lo x.
Definition wf (x : U256) : Prop := in_u 128 (hi x) /\ in_u 128 (lo x).

Module U256.

Definition MAX : U256 := mkU256 u128_MAX u128_MAX.
Definition ZERO : U256 := mkU256 0 0.
Definition ONE : U256 := mkU256 0 1.

(** [impl<T: Into<u128>> From<T> for U256] *)
Definition from (x : Z) : U256 := mkU256 0 x.

(** The derived [PartialOrd]: lexicographic, high word first. *)
Definition ltb (a b : U256) : bool :=
  (hi a <? hi b) || ((hi a =? hi b) && (lo a <? lo b)).
Definition leb (a b : U256) : bool := negb (ltb b a).
Definition eqb (a b : U256) : bool := (hi a =? hi b) && (lo a =? lo b).

Definition is_zero (x : U256) : bool := (hi x =? 0) && (lo x =? 0).
Definition is_one (x : U256) : bool := (hi x =? 0) && (lo x =? 1).
Definition is_max (x : U256) : bool := (hi x =? u128_MAX) && (lo x =? u128_MAX).

Definition low_u128 (x : U256) : Z := lo x.
Definition low_u64 (x : U256) : Z := wrap 64 (low_u128 x).
Definition low_u32 (x : U256) : Z := wrap 32 (low_u128 x).

Definition saturating_to_u128 (x : U256) : Z :=
  if ltb (from u128_MAX) x then u128_MAX else low_u128 x.

Definition bits (x : U256) : Z :=
  if 0 <? hi x then 256 - leading_zeros 128 (hi x) else 128 - leading_zeros 128 (lo x).

(** ** Bytes *)

(** [u128::from_be_bytes] and [to_be_bytes] are the little-endian ones on the
    reversed array. *)
Definition u128_from_le_bytes (b : list byte) : Z := le_combine b.
Definition u128_from_be_bytes (b : list byte) : Z := le_combine (rev b).
Definition u128_to_le_bytes (z : Z) : list byte := le_split 16 z.
Definition u128_to_be_bytes (z : Z) : list byte := rev (le_split 16 z).

Definition split_in_half (a : list byte) : list byte * list byte :=
  (take 16 a, drop 16 a).

Definition from_be_bytes (a : list byte) : U256 :=
  let '(high, low) := split_in_half a in
  mkU256 (u128_from_be_bytes high) (u128_from_be_bytes low).

Definition from_le_bytes (a : list byte) : U256 :=
  let '(high, low) := split_in_half a in
  let little := u128_from_le_bytes high in
  let big := u128_from_le_bytes low in
  mkU256 big little.

Definition to_be_bytes (x : U256) : list byte :=
  u128_to_be_bytes (hi x) ++ u128_to_be_bytes (lo x).

Definition to_le_bytes (x : U256) : list byte :=
  u128_to_le_bytes (lo x) ++ u128_to_le_bytes (hi x).

(** ** Addition, subtraction, negation *)

(** [u128::overflowing_add] *)
Definition u128_overflowing_add (a b : Z) : Z * bool :=
  (wrap 128 (a + b), 2 ^ 128 <=? a + b).

Definition overflowing_add (self rhs : U256) : U256 * bool :=
  let '(high, overflow) := u128_overflowing_add (hi self) (hi rhs) in
  let ret_overflow := overflow in
  let '(low, overflow) := u128_overflowing_add (lo self) (lo rhs) in
  if overflow then
    let '(high, overflow) := u128_overflowing_add high 1 in
    (mkU256 high low, ret_overflow || overflow)
  else (mkU256 high low, ret_overflow).

Definition wrapping_add (self rhs : U256) : U256 := fst (overflowing_add self rhs).

(** [!x] on a [u128] is [2^128 - 1 - x]. *)
Definition not (x : U256) : U256 := mkU256 (u128_MAX - hi x) (u128_MAX - lo x).

Definition overflowing_sub (self rhs : U256) : U256 * bool :=
  let ret := wrapping_add (wrapping_add self (not rhs)) ONE in
  let overflow := ltb self rhs in
  (ret, overflow).

Definition wrapping_sub (self rhs : U256) : U256 := fst (overflowing_sub self rhs).

Definition wrapping_inc (self : U256) : U256 :=
  let l := wrap 128 (lo self + 1) in
  if l =? 0 then mkU256 (wrap 128 (hi self + 1)) l else mkU256 (hi self) l.

(** ** Shifts *)

(** [u128::wrapping_shl] and [wrapping_shr] mask the count to seven bits. *)
Definition u128_wrapping_shl (x n : Z) : Z := wrap 128 (Z.shiftl x (n mod 128)).
Definition u128_wrapping_shr (x n : Z) : Z := Z.shiftr x (n mod 128).

Definition wrapping_shl (self : U256) (rhs : Z) : U256 :=
  let shift := Z.land rhs 255 in
  let word_shift := 128 <=? shift in
  let bit_shift := shift mod 128 in
  if word_shift then mkU256 (wrap 128 (Z.shiftl (lo self) bit_shift)) 0
  else
    let h := wrap 128 (Z.shiftl (hi self) bit_shift) in
    let h := if 0 <? bit_shift then h + u128_wrapping_shr (lo self) (128 - bit_shift) else h in
    mkU256 h (wrap 128 (Z.shiftl (lo self) bit_shift)).

Definition wrapping_shr (self : U256) (rhs : Z) : U256 :=
  let shift := Z.land rhs 255 in
  let word_shift := 128 <=? shift in
  let bit_shift := shift mod 128 in
  if word_shift then mkU256 0 (Z.shiftr (hi self) bit_shift)
  else
    let l := Z.shiftr (lo self) bit_shift in
    let l := if 0 <? bit_shift then l + u128_wrapping_shl (hi self) (128 - bit_shift) else l in
    mkU256 (Z.shiftr (hi self) bit_shift) l.

(** [impl Shl<u32>] and [impl Shr<u32>] *)
Definition shl (self : U256) (shift : Z) : U256 := wrapping_shl self shift.
Definition shr (self : U256) (shift : Z) : U256 := wrapping_shr self shift.

(** ** Multiplication *)

(** The loop of [mul_u64] over the four little-endian 64-bit words. *)
Fixpoint mul_u64_loop (rhs carry : Z) (split_le : list Z) : list Z * Z :=
  match split_le with
  | [] => ([], carry)
  | word :: rest =>
      let n := carry + rhs * word in
      let '(rest', carry') := mul_u64_loop rhs (Z.shiftr n 64) rest in
      (wrap 64 n :: rest', carry')
  end.

Definition mul_u64 (self : U256) (rhs : Z) : U256 * bool :=
  let split_le :=
    [wrap 64 (lo self); wrap 64 (Z.shiftr (lo self) 64);
     wrap 64 (hi self); wrap 64 (Z.shiftr (hi self) 64)] in
  let '(w, carry) := mul_u64_loop rhs 0 split_le in
  let low := Z.lor (nth 0 w 0) (Z.shiftl (nth 1 w 0) 64) in
  let high := Z.lor (nth 2 w 0) (Z.shiftl (nth 3 w 0) 64) in
  (mkU256 high low, negb (carry =? 0)).

(** The loop [for i in 0..3] of [overflowing_mul]. *)
Definition overflowing_mul_step (self rhs : U256) (ret : U256) (i : Z) : U256 :=
  let to_mul := low_u64 (shr rhs (64 * i)) in
  let '(mul_res, _) := mul_u64 self to_mul in
  wrapping_add ret (shl mul_res (64 * i)).

Definition overflowing_mul (self rhs : U256) : U256 * bool :=
  let ret := fold_left (overflowing_mul_step self rhs) [0; 1; 2] ZERO in
  let to_mul := low_u64 (shr rhs 192) in
  let '(mul_res, overflow) := mul_u64 self to_mul in
  let ret_overflow := overflow in
  let '(sum, overflow) := overflowing_add ret mul_res in
  (sum, ret_overflow || overflow).

(** ** Division *)

(** [ret[1 - shift / 128] |= 1 << (shift % 128)], with [ret[0]] the high word. *)
Definition set_ret_bit (ret : U256) (shift : Z) : U256 :=
  if shift / 128 =? 0
  then mkU256 (hi ret) (Z.lor (lo ret) (Z.shiftl 1 (shift mod 128)))
  else mkU256 (Z.lor (hi ret) (Z.shiftl 1 (shift mod 128))) (lo ret).

(** The bitwise long division loop: one iteration for each value of [shift] down to
    zero, so the recursion is on [shift]. *)
Fixpoint div_rem_loop (shift : nat) (sub_copy shift_copy ret : U256) : U256 * U256 :=
  let '(sub_copy, ret) :=
    if leb shift_copy sub_copy
    then (wrapping_sub sub_copy shift_copy, set_ret_bit ret (Z.of_nat shift))
    else (sub_copy, ret) in
  let shift_copy := shr shift_copy 1 in
  match shift with
  | O => (ret, sub_copy)
  | S shift => div_rem_loop shift sub_copy shift_copy ret
  end.

Definition div_rem (self rhs : U256) : run (U256 * U256) :=
  let my_bits := bits self in
  let your_bits := bits rhs in
  if your_bits =? 0 then Panic
  else if my_bits <? your_bits then Ret (ZERO, self)
  else
    let shift := my_bits - your_bits in
    Ret (div_rem_loop (Z.to_nat shift) self (shl rhs shift) ZERO).

(** [impl Div] and [impl Rem] *)
Definition div (self rhs : U256) : run U256 := fst <$> div_rem self rhs.
Definition rem (self rhs : U256) : run U256 := snd <$> div_rem self rhs.

Definition inverse (self : U256) : run U256 :=
  if is_zero self then Ret MAX
  else if is_one self then Ret MAX
  else if is_max self then Ret ONE
  else ret ← div (not self) (wrapping_inc self); Ret (wrapping_inc ret).

(** ** The checked operators [impl Add], [impl Sub], [impl Mul] *)

Section operators.
Context {bm : BuildMode}.

Definition add (self rhs : U256) : run U256 :=
  let '(res, overflow) := overflowing_add self rhs in
  _ ← debug_assert (negb overflow); Ret res.

Definition sub (self rhs : U256) : run U256 :=
  let '(res, overflow) := overflowing_sub self rhs in
  _ ← debug_assert (negb overflow); Ret res.

Definition mul (self rhs : U256) : run U256 :=
  let '(res, overflow) := overflowing_mul self rhs in
  _ ← debug_assert (negb overflow); Ret res.

End operators.
End U256.

(** ** Values *)

Section facts.
Implicit Types a b x y : U256.

Lemma val_range x : wf x -> 0 <= val x < 2 ^ 256.
Proof. unfold wf, in_u, val. intros. change (2 ^ 256) with (2 ^ 128 * 2 ^ 128). nia. Qed.

Lemma val_inj x y : wf x -> wf y -> val x = val y -> x = y.
Proof.
  unfold wf, in_u, val. destruct x, y; simpl. intros.
  assert (hi0 = hi1) by nia. subst. f_equal. lia.
Qed.

Definition of_val (z : Z) : U256 := mkU256 (z / 2 ^ 128) (z mod 2 ^ 128).

Lemma wf_of_val z : 0 <= z < 2 ^ 256 -> wf (of_val z).
Proof.
  intros. unfold wf, in_u, of_val; simpl.
  change (2 ^ 256) with (2 ^ 128 * 2 ^ 128) in *. split.
  - split; [apply Z.div_pos; lia | apply Z.div_lt_upper_bound; lia].
  - apply Z.mod_pos_bound. lia.
Qed.

Lemma ltb_val a b : wf a -> wf b -> U256.ltb a b = (val a <? val b).
Proof.
  unfold wf, in_u, val, U256.ltb. intros.
  destruct (Z.ltb_spec (hi a) (hi b)), (Z.eqb_spec (hi a) (hi b)),
    (Z.ltb_spec (lo a) (lo b)), (Z.ltb_spec (hi a * 2 ^ 128 + lo a) (hi b * 2 ^ 128 + lo b));
    simpl; nia.
Qed.

Lemma leb_val a b : wf a -> wf b -> U256.leb a b = (val a <=? val b).
Proof. intros. unfold U256.leb. rewrite ltb_val by done. by rewrite <- Z.leb_antisym. Qed.

Lemma eqb_val a b : wf a -> wf b -> U256.eqb a b = (val a =? val b).
Proof.
  unfold wf, in_u, val, U256.eqb. intros.
  destruct (Z.eqb_spec (hi a) (hi b)), (Z.eqb_spec (lo a) (lo b)),
    (Z.eqb_spec (hi a * 2 ^ 128 + lo a) (hi b * 2 ^ 128 + lo b)); simpl; nia.
Qed.

Lemma is_zero_val x : wf x -> U256.is_zero x = (val x =? 0).
Proof. intros. by apply (eqb_val x U256.ZERO). Qed.
Lemma is_one_val x : wf x -> U256.is_one x = (val x =? 1).
Proof. intros. by apply (eqb_val x U256.ONE). Qed.
Lemma is_max_val x : wf x -> U256.is_max x = (val x =? 2 ^ 256 - 1).
Proof. intros. by apply (eqb_val x U256.MAX). Qed.

Lemma wf_ZERO : wf U256.ZERO. Proof. done. Qed.
Lemma wf_ONE : wf U256.ONE. Proof. done. Qed.
Lemma wf_MAX : wf U256.MAX. Proof. done. Qed.
Lemma wf_from z : in_u 128 z -> wf (U256.from z).
Proof. done. Qed.
Lemma val_from z : val (U256.from z) = z.
Proof. unfold val; simpl. lia. Qed.

Lemma bits_val x : wf x -> U256.bits x = bit_length (val x).
Proof.
  intros Hwf. unfold U256.bits, leading_zeros.
  destruct x as [h l]; unfold wf, in_u, val, bit_length in *; simpl in *.
  destruct (Z.ltb_spec 0 h).
  - destruct (Z.eqb_spec h 0); [lia|]. destruct (Z.eqb_spec (h * 2 ^ 128 + l) 0); [lia|].
    assert (Z.log2 (h * 2 ^ 128 + l) = Z.log2 h + 128); [|lia].
    apply Z.log2_unique'  with (c := (h * 2 ^ 128 + l) - 2 ^ (Z.log2 h + 128)).
    all: pose proof (Z.log2_spec h ltac:(lia)); pose proof (Z.log2_nonneg h).
    all: rewrite ?Z.pow_add_r in * by lia; rewrite ?Z.pow_succ_r in * by lia; nia.
  - assert (h = 0) as -> by lia. rewrite Z.mul_0_l, Z.add_0_l. lia.
Qed.

(** ** Addition and subtraction *)

Lemma overflowing_add_spec a b : wf a -> wf b ->
  wf (fst (U256.overflowing_add a b)) /\
  val (fst (U256.overflowing_add a b)) = (val a + val b) mod 2 ^ 256 /\
  snd (U256.overflowing_add a b) = (2 ^ 256 <=? val a + val b).
Proof.
  intros Ha Hb. pose proof (val_range a Ha). pose proof (val_range b Hb).
  fold (wrap 256 (val a + val b)). rewrite wrap_add by done.
  unfold U256.overflowing_add, U256.u128_overflowing_add.
  destruct a as [ah al], b as [bh bl]; unfold wf, in_u, val in *; simpl in *.
  destruct Ha as [Ha1 Ha2], Hb as [Hb1 Hb2].
  rewrite (wrap_add 128 ah bh), (wrap_add 128 al bl) by done.
  destruct (Z.leb_spec (2 ^ 128) (al + bl)), (Z.leb_spec (2 ^ 128) (ah + bh)); simpl.
  1,2: rewrite wrap_add by (unfold in_u; lia).
  all: zcases; simpl; repeat split; lia.
Qed.

Lemma wrapping_add_spec a b : wf a -> wf b ->
  wf (U256.wrapping_add a b) /\ val (U256.wrapping_add a b) = (val a + val b) mod 2 ^ 256.
Proof. intros Ha Hb. destruct (overflowing_add_spec a b Ha Hb) as (?&?&?). done. Qed.

Lemma not_spec x : wf x -> wf (U256.not x) /\ val (U256.not x) = 2 ^ 256 - 1 - val x.
Proof. destruct x; unfold wf, in_u, val, U256.not, u128_MAX; simpl. lia. Qed.

Lemma overflowing_sub_spec a b : wf a -> wf b ->
  wf (fst (U256.overflowing_sub a b)) /\
  val (fst (U256.overflowing_sub a b)) = (val a - val b) mod 2 ^ 256 /\
  snd (U256.overflowing_sub a b) = (val a <? val b).
Proof.
  intros Ha Hb. destruct (not_spec b Hb) as [Hn Vn].
  destruct (wrapping_add_spec a _ Ha Hn) as [H1 V1].
  destruct (wrapping_add_spec _ U256.ONE H1 wf_ONE) as [H2 V2].
  unfold U256.overflowing_sub; cbn [fst snd]. split; [done|]. split; [|by apply ltb_val].
  rewrite V2, V1, Vn. change (val U256.ONE) with 1.
  rewrite Z.add_mod_idemp_l by lia.
  replace (val a + (2 ^ 256 - 1 - val b) + 1) with (val a - val b + 1 * 2 ^ 256) by lia.
  by rewrite Z.mod_add by lia.
Qed.

Lemma wrapping_sub_spec a b : wf a -> wf b ->
  wf (U256.wrapping_sub a b) /\ val (U256.wrapping_sub a b) = (val a - val b) mod 2 ^ 256.
Proof. intros Ha Hb. destruct (overflowing_sub_spec a b Ha Hb) as (?&?&?). done. Qed.

Lemma wrapping_inc_spec x : wf x ->
  wf (U256.wrapping_inc x) /\ val (U256.wrapping_inc x) = (val x + 1) mod 2 ^ 256.
Proof.
  intros Hx. pose proof (val_range x Hx).
  fold (wrap 256 (val x + 1)). rewrite wrap_add by done.
  unfold U256.wrapping_inc. destruct x as [h l]; unfold wf, in_u, val in *; simpl in *.
  rewrite !wrap_add by (unfold in_u; lia).
  zcases; simpl; lia.
Qed.

(** ** Shifts *)

Lemma land_255 n : Z.land n 255 = n mod 256.
Proof. change 255 with (Z.ones 8). by rewrite Z.land_ones. Qed.

(** The word arithmetic behind both shifts, with [p * q = 2^128]. *)
Lemma mul_mod_split l p q : 0 <= l -> 0 < p -> 0 < q ->
  l * p = l / q * (p * q) + (l * p) mod (p * q).
Proof.
  intros. replace (l / q) with (l * p / (p * q)).
  - pose proof (Z.div_mod (l * p) (p * q)). nia.
  - rewrite (Z.mul_comm l p). by rewrite Z.div_mul_cancel_l by lia.
Qed.

Lemma mul_mod_gap h l p q : 0 < p -> 0 < q -> 0 <= l < p * q ->
  (h * p) mod (p * q) + l / q < p * q.
Proof.
  intros. rewrite (Z.mul_comm h p), Z.mul_mod_distr_l by lia.
  assert (l / q < p) by (apply Z.div_lt_upper_bound; lia).
  pose proof (Z.mod_pos_bound h q). nia.
Qed.

Lemma wrapping_shl_spec x n : wf x ->
  wf (U256.wrapping_shl x n) /\
  val (U256.wrapping_shl x n) = (val x * 2 ^ (n mod 256)) mod 2 ^ 256.
Proof.
  intros [Hh Hl]. unfold U256.wrapping_shl. rewrite land_255.
  pose proof (Z.mod_pos_bound n 256 ltac:(lia)). set (s := n mod 256) in *.
  destruct x as [h l]; unfold wf, in_u, val, wrap in *; cbn [hi lo] in *.
  destruct (Z.leb_spec 128 s).
  - replace (s mod 128) with (s - 128) by (apply Z.mod_unique with 1; lia).
    rewrite Z.shiftl_mul_pow2 by lia. cbn [hi lo].
    pose proof (Z.mod_pos_bound (l * 2 ^ (s - 128)) (2 ^ 128)). split; [lia|].
    rewrite Z.add_0_r, <- Z.mul_mod_distr_r by lia. change (2 ^ 128 * 2 ^ 128) with (2 ^ 256).
    replace ((h * 2 ^ 128 + l) * 2 ^ s) with
      (l * 2 ^ (s - 128) * 2 ^ 128 + h * 2 ^ (s - 128) * 2 ^ 256).
    + by rewrite Z.mod_add by lia.
    + replace (2 ^ s) with (2 ^ (s - 128) * 2 ^ 128) by (rewrite <- Z.pow_add_r by lia; f_equal; lia).
      change (2 ^ 256) with (2 ^ 128 * 2 ^ 128). lia.
  - rewrite (Z.mod_small s) by lia. rewrite !Z.shiftl_mul_pow2 by lia.
    assert (2 ^ 128 = 2 ^ s * 2 ^ (128 - s)) as E by (rewrite <- Z.pow_add_r by lia; f_equal; lia).
    pose proof (pow2_pos s ltac:(lia)). pose proof (pow2_pos (128 - s) ltac:(lia)).
    assert ((if 0 <? s then (h * 2 ^ s) mod 2 ^ 128 + U256.u128_wrapping_shr l (128 - s)
             else (h * 2 ^ s) mod 2 ^ 128)
            = (h * 2 ^ s) mod 2 ^ 128 + l / 2 ^ (128 - s)) as ->.
    { unfold U256.u128_wrapping_shr. destruct (Z.ltb_spec 0 s).
      - by rewrite (Z.mod_small (128 - s)), Z.shiftr_div_pow2 by lia.
      - assert (s = 0) as -> by lia. rewrite (Z.div_small l) by lia. lia. }
    pose proof (mul_mod_gap h l (2 ^ s) (2 ^ (128 - s))) as G. rewrite <- E in G.
    pose proof (mul_mod_split l (2 ^ s) (2 ^ (128 - s))) as S. rewrite <- E in S.
    pose proof (Z.mod_pos_bound (h * 2 ^ s) (2 ^ 128)).
    pose proof (Z.mod_pos_bound (l * 2 ^ s) (2 ^ 128)).
    pose proof (Z.div_pos l (2 ^ (128 - s))).
    cbn [hi lo]. split; [lia|].
    apply Z.mod_unique with (h * 2 ^ s / 2 ^ 128).
    + change (2 ^ 256) with (2 ^ 128 * 2 ^ 128). nia.
    + pose proof (Z.div_mod (h * 2 ^ s) (2 ^ 128)).
      change (2 ^ 256) with (2 ^ 128 * 2 ^ 128). nia.
Qed.

Lemma wrapping_shr_spec x n : wf x ->
  wf (U256.wrapping_shr x n) /\ val (U256.wrapping_shr x n) = val x / 2 ^ (n mod 256).
Proof.
  intros [Hh Hl]. unfold U256.wrapping_shr. rewrite land_255.
  pose proof (Z.mod_pos_bound n 256 ltac:(lia)). set (s := n mod 256) in *.
  destruct x as [h l]; unfold wf, in_u, val in *; cbn [hi lo] in *.
  destruct (Z.leb_spec 128 s).
  - replace (s mod 128) with (s - 128) by (apply Z.mod_unique with 1; lia).
    rewrite Z.shiftr_div_pow2 by lia. cbn [hi lo].
    pose proof (pow2_pos (s - 128) ltac:(lia)).
    replace (2 ^ s) with (2 ^ 128 * 2 ^ (s - 128)) by (rewrite <- Z.pow_add_r by lia; f_equal; lia).
    rewrite <- Z.div_div by lia. rewrite Z.div_add_l by lia. rewrite (Z.div_small l) by lia.
    rewrite Z.add_0_r. pose proof (Z.div_pos h (2 ^ (s - 128))).
    assert (h / 2 ^ (s - 128) < 2 ^ 128) by (apply Z.div_lt_upper_bound; nia). lia.
  - rewrite (Z.mod_small s) by lia. rewrite !Z.shiftr_div_pow2 by lia.
    assert (2 ^ 128 = 2 ^ s * 2 ^ (128 - s)) as E by (rewrite <- Z.pow_add_r by lia; f_equal; lia).
    pose proof (pow2_pos s ltac:(lia)). pose proof (pow2_pos (128 - s) ltac:(lia)).
    assert ((if 0 <? s then l / 2 ^ s + U256.u128_wrapping_shl h (128 - s) else l / 2 ^ s)
            = l / 2 ^ s + (h mod 2 ^ s) * 2 ^ (128 - s)) as ->.
    { unfold U256.u128_wrapping_shl, wrap. destruct (Z.ltb_spec 0 s).
      - rewrite (Z.mod_small (128 - s)), Z.shiftl_mul_pow2 by lia.
        by rewrite E, Z.mul_mod_distr_r by lia.
      - assert (s = 0) as -> by lia. rewrite Z.mod_1_r. lia. }
    pose proof (Z.mod_pos_bound h (2 ^ s)). pose proof (Z.div_pos h (2 ^ s)).
    pose proof (Z.div_pos l (2 ^ s)).
    assert (l / 2 ^ s < 2 ^ (128 - s)) by (apply Z.div_lt_upper_bound; lia).
    assert (h / 2 ^ s < 2 ^ 128) by (apply Z.div_lt_upper_bound; nia).
    cbn [hi lo]. split; [nia|].
    pose proof (Z.div_mod h (2 ^ s)).
    replace (h * 2 ^ 128 + l) with
      ((h / 2 ^ s * 2 ^ 128 + h mod 2 ^ s * 2 ^ (128 - s)) * 2 ^ s + l) by nia.
    rewrite Z.div_add_l by lia. lia.
Qed.

(** The plain [+=] inside the shifts never overflows the 128-bit word, so the
    release and debug builds agree on them. *)
Lemma shl_small x n : wf x -> 0 <= n < 256 -> val x * 2 ^ n < 2 ^ 256 ->
  wf (U256.shl x n) /\ val (U256.shl x n) = val x * 2 ^ n.
Proof.
  intros Hx Hn Hv. destruct (wrapping_shl_spec x n Hx) as [H1 H2].
  split; [done|]. unfold U256.shl. rewrite H2, (Z.mod_small n) by lia.
  apply Z.mod_small. pose proof (val_range x Hx). pose proof (pow2_pos n). nia.
Qed.

Lemma shr_small x n : wf x -> 0 <= n < 256 ->
  wf (U256.shr x n) /\ val (U256.shr x n) = val x / 2 ^ n.
Proof.
  intros Hx Hn. destruct (wrapping_shr_spec x n Hx) as [H1 H2].
  split; [done|]. unfold U256.shr. by rewrite H2, (Z.mod_small n) by lia.
Qed.

(** ** Multiplication *)

(** The value of a list of little-endian 64-bit words. *)
Fixpoint words_val (ws : list Z) : Z :=
  match ws with [] => 0 | w :: ws => w + 2 ^ 64 * words_val ws end.

Lemma mul_u64_loop_spec rhs ws : in_u 64 rhs -> Forall (in_u 64) ws -> forall carry,
  in_u 64 carry ->
  let '(ws', carry') := U256.mul_u64_loop rhs carry ws in
  length ws' = length ws /\ Forall (in_u 64) ws' /\ in_u 64 carry' /\
  words_val ws' + 2 ^ (64 * Z.of_nat (length ws)) * carry' = carry + rhs * words_val ws.
Proof.
  intros Hr. induction 1 as [|w ws Hw _ IH]; intros carry Hc.
  - simpl. split; [done|]. split; [done|]. split; [done|]. lia.
  - cbn [U256.mul_u64_loop]. set (n := carry + rhs * w).
    assert (0 <= n < 2 ^ 64 * 2 ^ 64) as Hn by (unfold in_u, n in *; nia).
    assert (in_u 64 (Z.shiftr n 64)) as Hs.
    { rewrite Z.shiftr_div_pow2 by lia. unfold in_u.
      split; [apply Z.div_pos; lia | apply Z.div_lt_upper_bound; lia]. }
    specialize (IH _ Hs). destruct (U256.mul_u64_loop _ _ _) as [ws' c'].
    destruct IH as (IHl & IHw & IHc & IHv). cbn [length words_val].
    split; [lia|]. split; [constructor; [apply wrap_in_u; lia|done]|]. split; [done|].
    replace (64 * Z.of_nat (S (length ws))) with (64 + 64 * Z.of_nat (length ws)) by lia.
    rewrite Z.pow_add_r by lia. rewrite Z.shiftr_div_pow2 in IHv by lia.
    pose proof (Z.div_mod n (2 ^ 64)). unfold wrap, n in *. nia.
Qed.

(** [n = carry + rhs * word] fits 128 bits, as the comment in [mul_u64] claims. *)
Lemma lor_words (a b : Z) : in_u 64 a -> in_u 64 b ->
  Z.lor a (Z.shiftl b 64) = a + 2 ^ 64 * b /\ in_u 128 (a + 2 ^ 64 * b).
Proof.
  unfold in_u. intros. rewrite lor_add_disjoint by lia.
  change (2 ^ 128) with (2 ^ 64 * 2 ^ 64). lia.
Qed.

Lemma mul_u64_spec x r : wf x -> in_u 64 r ->
  wf (fst (U256.mul_u64 x r)) /\
  val (fst (U256.mul_u64 x r)) = (val x * r) mod 2 ^ 256 /\
  snd (U256.mul_u64 x r) = (2 ^ 256 <=? val x * r).
Proof.
  intros [Hh Hl] Hr. unfold U256.mul_u64. destruct x as [h l]; cbn [hi lo] in *.
  set (ws := [_; _; _; _]).
  assert (Forall (in_u 64) ws) as Hws.
  { unfold ws. repeat constructor; apply wrap_in_u; lia. }
  assert (words_val ws = h * 2 ^ 128 + l) as Vws.
  { unfold ws, wrap. cbn [words_val]. rewrite !Z.shiftr_div_pow2 by lia.
    unfold in_u in *.
    assert (forall z, 0 <= z < 2 ^ 128 -> z mod 2 ^ 64 + 2 ^ 64 * ((z / 2 ^ 64) mod 2 ^ 64) = z) as W.
    { intros z Hz. rewrite (Z.mod_small (z / 2 ^ 64)).
      - pose proof (Z.div_mod z (2 ^ 64)). lia.
      - split; [apply Z.div_pos; lia|]. apply Z.div_lt_upper_bound; lia. }
    pose proof (W h). pose proof (W l). change (2 ^ 128) with (2 ^ 64 * 2 ^ 64) in *. lia. }
  pose proof (mul_u64_loop_spec r ws Hr Hws 0 ltac:(done)) as L.
  destruct (U256.mul_u64_loop r 0 ws) as [ws' c]. destruct L as (Len & Hw & Hc & V).
  unfold ws in Len; cbn [length] in Len.
  destruct ws' as [|w0 [|w1 [|w2 [|w3 [|]]]]]; try discriminate. cbn [nth].
  apply Forall_cons_iff in Hw as [? Hw]. apply Forall_cons_iff in Hw as [? Hw].
  apply Forall_cons_iff in Hw as [? Hw]. apply Forall_cons_iff in Hw as [? _].
  destruct (lor_words w0 w1) as [-> ?]; [assumption..|].
  destruct (lor_words w2 w3) as [-> ?]; [assumption..|].
  rewrite Vws in V. cbn [words_val length ws] in V.
  change (64 * Z.of_nat (length ws)) with 256 in V. cbn [fst snd].
  split; [done|]. unfold val, in_u in *; cbn [hi lo].
  change (2 ^ 256) with (2 ^ 64 * 2 ^ 64 * 2 ^ 64 * 2 ^ 64) in *.
  change (2 ^ 128) with (2 ^ 64 * 2 ^ 64) in *. split.
  - apply Z.mod_unique with c; lia.
  - zcases; simpl; try done; nia.
Qed.

Lemma low_u64_val x : wf x -> U256.low_u64 x = val x mod 2 ^ 64.
Proof.
  unfold U256.low_u64, U256.low_u128, wrap, val, wf, in_u. intros.
  change (2 ^ 128) with (2 ^ 64 * 2 ^ 64).
  rewrite Z.mul_assoc, Z.add_comm, Z.mod_add; lia.
Qed.

Lemma low_u32_val x : wf x -> U256.low_u32 x = val x mod 2 ^ 32.
Proof.
  unfold U256.low_u32, U256.low_u128, wrap, val, wf, in_u. intros.
  change (2 ^ 128) with (2 ^ 96 * 2 ^ 32).
  rewrite Z.mul_assoc, Z.add_comm, Z.mod_add; lia.
Qed.

(** One iteration of [overflowing_mul] adds [digit_i * 2^(64 i) * self]. *)
Definition digit (z i : Z) : Z := z / 2 ^ (64 * i) mod 2 ^ 64.

Lemma overflowing_mul_step_spec a b r i : wf a -> wf b -> wf r -> 0 <= i < 4 ->
  wf (U256.overflowing_mul_step a b r i) /\
  val (U256.overflowing_mul_step a b r i) =
    (val r + val a * digit (val b) i * 2 ^ (64 * i)) mod 2 ^ 256.
Proof.
  intros Ha Hb Hr Hi. unfold U256.overflowing_mul_step.
  destruct (shr_small b (64 * i) Hb ltac:(lia)) as [Hs Vs].
  rewrite (low_u64_val _ Hs), Vs. fold (digit (val b) i).
  assert (in_u 64 (digit (val b) i)) as Hd by (apply Z.mod_pos_bound; lia).
  destruct (mul_u64_spec a _ Ha Hd) as (Hm & Vm & _).
  destruct (U256.mul_u64 a (digit (val b) i)) as [m o]; cbn [fst] in *.
  destruct (wrapping_shl_spec m (64 * i) Hm) as [Hl Vl].
  destruct (wrapping_add_spec r _ Hr Hl) as [Hf Vf]. split; [done|].
  unfold U256.shl. rewrite Vf, Vl, Vm. rewrite (Z.mod_small (64 * i)) by lia.
  rewrite Z.mul_mod_idemp_l, Z.add_mod_idemp_r by lia. done.
Qed.

Lemma digits_val z : 0 <= z < 2 ^ 256 ->
  z = digit z 0 + digit z 1 * 2 ^ 64 + digit z 2 * 2 ^ 128 + digit z 3 * 2 ^ 192.
Proof.
  intros. unfold digit. change (64 * 0) with 0. change (64 * 1) with 64.
  change (64 * 2) with (64 + 64). change (64 * 3) with (64 + (64 + 64)).
  rewrite !(Z.pow_add_r 2 64) by lia. rewrite <- !Z.div_div by lia. rewrite Z.div_1_r.
  change (2 ^ 192) with (2 ^ 64 * 2 ^ 64 * 2 ^ 64). change (2 ^ 128) with (2 ^ 64 * 2 ^ 64).
  set (z1 := z / 2 ^ 64). set (z2 := z1 / 2 ^ 64). set (z3 := z2 / 2 ^ 64).
  assert (0 <= z3 < 2 ^ 64).
  { unfold z3, z2, z1. rewrite !Z.div_div by lia. split; [apply Z.div_pos; lia|].
    apply Z.div_lt_upper_bound; [lia|].
    change (2 ^ 256) with (2 ^ 64 * 2 ^ 64 * 2 ^ 64 * 2 ^ 64) in *. lia. }
  rewrite (Z.mod_small z3) by lia.
  pose proof (Z.div_mod z (2 ^ 64)). pose proof (Z.div_mod z1 (2 ^ 64)).
  pose proof (Z.div_mod z2 (2 ^ 64)). subst z1 z2 z3. lia.
Qed.

(** The three first rounds of [overflowing_mul], summed modulo [2^256]. *)
Lemma overflowing_mul_rounds a b : wf a -> wf b ->
  wf (fold_left (U256.overflowing_mul_step a b) [0; 1; 2] U256.ZERO) /\
  val (fold_left (U256.overflowing_mul_step a b) [0; 1; 2] U256.ZERO) =
    (val a * (digit (val b) 0 + digit (val b) 1 * 2 ^ 64 + digit (val b) 2 * 2 ^ 128)) mod 2 ^ 256.
Proof.
  intros Ha Hb. cbn [fold_left].
  destruct (overflowing_mul_step_spec a b _ 0 Ha Hb wf_ZERO ltac:(lia)) as [H0 V0].
  destruct (overflowing_mul_step_spec a b _ 1 Ha Hb H0 ltac:(lia)) as [H1 V1].
  destruct (overflowing_mul_step_spec a b _ 2 Ha Hb H1 ltac:(lia)) as [H2 V2].
  split; [done|]. rewrite V2, V1, Z.add_mod_idemp_l, <- Z.add_assoc by lia.
  rewrite V0, Z.add_mod_idemp_l by lia. f_equal. change (val U256.ZERO) with 0.
  change (64 * 0) with 0. change (64 * 1) with 64. change (64 * 2) with 128. lia.
Qed.

(** The top limb of [rhs] is multiplied without its shift by 192 bits: the result is
    the product modulo [2^256] only when [rhs < 2^192]. *)
Lemma overflowing_mul_exact a b : wf a -> wf b ->
  wf (fst (U256.overflowing_mul a b)) /\
  val (fst (U256.overflowing_mul a b)) =
    (val a * (val b mod 2 ^ 192 + val b / 2 ^ 192)) mod 2 ^ 256.
Proof.
  intros Ha Hb. unfold U256.overflowing_mul.
  destruct (overflowing_mul_rounds a b Ha Hb) as [Hr Vr].
  set (r := fold_left _ _ _) in *.
  destruct (shr_small b 192 Hb ltac:(lia)) as [Hs Vs].
  rewrite (low_u64_val _ Hs), Vs. change 192 with (64 * 3). fold (digit (val b) 3).
  assert (in_u 64 (digit (val b) 3)) as Hd by (apply Z.mod_pos_bound; lia).
  destruct (mul_u64_spec a _ Ha Hd) as (Hm & Vm & _).
  destruct (U256.mul_u64 a _) as [m o]; cbn [fst] in *.
  destruct (overflowing_add_spec r m Hr Hm) as (Hf & Vf & _).
  destruct (U256.overflowing_add r m) as [f o']; cbn [fst] in *.
  split; [done|]. rewrite Vf, Vr, Vm, <- Z.add_mod by lia. f_equal.
  pose proof (val_range b Hb). pose proof (digits_val (val b) ltac:(done)) as D.
  assert (forall i, 0 <= digit (val b) i < 2 ^ 64) by (intros; apply Z.mod_pos_bound; lia).
  pose proof (H0 0). pose proof (H0 1). pose proof (H0 2).
  set (t := digit (val b) 0 + digit (val b) 1 * 2 ^ 64 + digit (val b) 2 * 2 ^ 128) in *.
  assert (0 <= t < 2 ^ 192).
  { change (2 ^ 192) with (2 ^ 64 * 2 ^ 64 * 2 ^ 64). subst t.
    change (2 ^ 128) with (2 ^ 64 * 2 ^ 64). lia. }
  replace (val b mod 2 ^ (64 * 3)) with t by (apply Z.mod_unique with (digit (val b) 3); lia).
  replace (val b / 2 ^ (64 * 3)) with (digit (val b) 3)
    by (apply Z.div_unique with t; lia).
  lia.
Qed.

Lemma overflowing_mul_spec a b : wf a -> wf b -> val b < 2 ^ 192 ->
  wf (fst (U256.overflowing_mul a b)) /\
  val (fst (U256.overflowing_mul a b)) = (val a * val b) mod 2 ^ 256.
Proof.
  intros Ha Hb ?. pose proof (val_range b Hb).
  destruct (overflowing_mul_exact a b Ha Hb) as [? ->].
  by rewrite (Z.mod_small (val b)), Z.div_small, Z.add_0_r by lia.
Qed.

(** A factor below [2^192] contributes nothing to the last round, so the overflow
    flag stays false whatever the product is. *)
Lemma overflowing_mul_flag a b : wf a -> wf b -> val b < 2 ^ 192 ->
  snd (U256.overflowing_mul a b) = false.
Proof.
  intros Ha Hb ?. unfold U256.overflowing_mul.
  destruct (overflowing_mul_rounds a b Ha Hb) as [Hr _].
  set (r := fold_left _ _ _) in *. pose proof (val_range b Hb). pose proof (val_range r Hr).
  destruct (shr_small b 192 Hb ltac:(lia)) as [Hs Vs].
  rewrite (low_u64_val _ Hs), Vs, Z.div_small, Z.mod_0_l by lia.
  destruct (mul_u64_spec a 0 Ha ltac:(done)) as (Hm & Vm & Om).
  destruct (U256.mul_u64 a 0) as [m o]; cbn [fst snd] in *.
  destruct (overflowing_add_spec r m Hr Hm) as (_ & _ & Of).
  destruct (U256.overflowing_add r m) as [f o']; cbn [fst snd] in *.
  subst o o'. rewrite Vm, Z.mul_0_r, Z.mod_0_l, Z.add_0_r by lia.
  zcases; simpl; lia.
Qed.

(** ** Division *)

Lemma set_ret_bit_spec ret s : wf ret -> 0 <= s < 256 -> val ret mod 2 ^ (s + 1) = 0 ->
  wf (U256.set_ret_bit ret s) /\ val (U256.set_ret_bit ret s) = val ret + 2 ^ s.
Proof.
  intros [Hh Hl] Hs Hm. unfold U256.set_ret_bit.
  destruct ret as [h l]; unfold wf, in_u, val in *; cbn [hi lo] in *.
  (* a word whose low [n+1] bits are clear, with its bit [n] set *)
  assert (forall w n, 0 <= w < 2 ^ 128 -> 0 <= n < 128 -> w mod 2 ^ (n + 1) = 0 ->
    Z.lor w (Z.shiftl 1 n) = w + 2 ^ n /\ w + 2 ^ n < 2 ^ 128) as B.
  { intros w n Hw Hn Hz.
    pose proof (Z.div_mod w (2 ^ (n + 1)) ltac:(pose proof (pow2_pos (n + 1)); lia)) as Hd.
    rewrite Hz, Z.add_0_r in Hd. set (k := w / 2 ^ (n + 1)) in *.
    rewrite Z.lor_comm, Z.shiftl_1_l, Hd, Z.mul_comm, <- Z.shiftl_mul_pow2 by lia.
    rewrite lor_add_disjoint by (try split; try apply Z.pow_lt_mono_r; try apply Z.pow_nonneg; lia).
    rewrite Z.shiftl_mul_pow2 by lia. split; [lia|].
    assert (2 ^ 128 = 2 ^ (127 - n) * 2 ^ (n + 1)) as E by (rewrite <- Z.pow_add_r by lia; f_equal; lia).
    assert (2 ^ (n + 1) = 2 * 2 ^ n) by (rewrite Z.pow_add_r by lia; lia).
    pose proof (pow2_pos n). pose proof (pow2_pos (127 - n)).
    assert (k < 2 ^ (127 - n)) by nia. nia. }
  destruct (Z.lt_ge_cases s 128).
  - rewrite Z.div_small by lia. cbn [Z.eqb]. rewrite Z.mod_small by lia.
    destruct (B l s) as [-> ?]; [lia..| |cbn [hi lo]; pose proof (pow2_pos s); lia].
    replace (h * 2 ^ 128 + l) with (l + h * 2 ^ (127 - s) * 2 ^ (s + 1)) in Hm.
    + rewrite Z.mod_add in Hm; [done|]. pose proof (pow2_pos (s + 1)). lia.
    + rewrite <- Z.mul_assoc, <- Z.pow_add_r by lia.
      replace (127 - s + (s + 1)) with 128 by lia. lia.
  - replace (s / 128) with 1 by (apply Z.div_unique with (s - 128); lia). cbn [Z.eqb Pos.eqb].
    replace (s mod 128) with (s - 128) by (apply Z.mod_unique with 1; lia).
    assert (2 ^ s = 2 ^ (s - 128) * 2 ^ 128) as E by (rewrite <- Z.pow_add_r by lia; f_equal; lia).
    assert (2 ^ (s + 1) = 2 ^ (s - 128 + 1) * 2 ^ 128) as E1
      by (rewrite <- Z.pow_add_r by lia; f_equal; lia).
    pose proof (pow2_pos (s - 128 + 1)).
    destruct (B h (s - 128)) as [-> ?]; [lia..| |cbn [hi lo]; pose proof (pow2_pos (s - 128)); lia].
    rewrite E1 in Hm. pose proof (Z.div_mod (h * 2 ^ 128 + l) (2 ^ (s - 128 + 1) * 2 ^ 128)) as D.
    rewrite Hm in D. set (k := (_ / _)) in *. symmetry. apply Z.mod_unique with k; [lia|]. nia.
Qed.

(** The loop invariant of the long division: [ret] holds the quotient bits above
    [shift], [shift_copy] is the shifted divisor and [sub_copy] what is left. *)
Lemma div_rem_loop_spec b q0 : wf b -> 0 < val b -> forall shift sub sc ret,
  wf sub -> wf sc -> wf ret -> Z.of_nat shift < 256 ->
  val sc = val b * 2 ^ Z.of_nat shift ->
  val sub < val b * 2 ^ (Z.of_nat shift + 1) ->
  val ret mod 2 ^ (Z.of_nat shift + 1) = 0 ->
  q0 = val ret * val b + val sub ->
  let '(q, r) := U256.div_rem_loop shift sub sc ret in
  wf q /\ wf r /\ q0 = val q * val b + val r /\ 0 <= val r < val b.
Proof.
  intros Hb Hpos. induction shift as [|shift IH]; intros sub sc ret Hsub Hsc Hret Hsh Vsc Vsub Vret Hq;
    cbn [U256.div_rem_loop]; rewrite leb_val by done.
  - destruct (set_ret_bit_spec ret 0 Hret ltac:(lia) Vret) as [Hset Vset].
    destruct (wrapping_sub_spec sub sc Hsub Hsc) as [Hw Vw].
    pose proof (val_range sub Hsub). pose proof (val_range sc Hsc).
    change (2 ^ Z.of_nat 0) with 1 in *. change (2 ^ (Z.of_nat 0 + 1)) with 2 in *.
    change (Z.of_nat 0) with 0. change (2 ^ 0) with 1 in *.
    destruct (Z.leb_spec (val sc) (val sub)).
    + rewrite Vset, Vw, Z.mod_small by lia. split; [done|]. split; [done|]. lia.
    + split; [done|]. split; [done|]. lia.
  - pose proof (val_range sub Hsub). pose proof (val_range sc Hsc).
    destruct (set_ret_bit_spec ret (Z.of_nat (S shift)) Hret ltac:(lia) Vret) as [Hset Vset].
    destruct (wrapping_sub_spec sub sc Hsub Hsc) as [Hw Vw].
    destruct (shr_small sc 1 Hsc ltac:(lia)) as [Hs Vs].
    set (n := Z.of_nat shift) in *.
    replace (Z.of_nat (S shift)) with (n + 1) in * by lia.
    assert (2 ^ (n + 1) = 2 * 2 ^ n) as E1 by (rewrite Z.pow_add_r by lia; lia).
    assert (2 ^ (n + 1 + 1) = 2 * 2 ^ (n + 1)) as E2 by (rewrite Z.pow_add_r by lia; lia).
    assert (val (U256.shr sc 1) = val b * 2 ^ n) as Vs'.
    { rewrite Vs, Vsc, E1. change (2 ^ 1) with 2.
      replace (val b * (2 * 2 ^ n)) with (val b * 2 ^ n * 2) by lia. by rewrite Z.div_mul by lia. }
    pose proof (pow2_pos n ltac:(lia)).
    assert (val ret mod 2 ^ (n + 1) = 0 /\ (val ret + 2 ^ (n + 1)) mod 2 ^ (n + 1) = 0) as [M1 M2].
    { apply Z.mod_divide in Vret as [k Hk]; [|lia].
      split; apply Z.mod_divide; try lia; [exists (2 * k) | exists (2 * k + 1)]; lia. }
    destruct (Z.leb_spec (val sc) (val sub)).
    + apply IH; try done; rewrite ?Vset, ?Vw, ?Z.mod_small by lia; solve [done | nia].
    + apply IH; solve [done | lia | nia].
Qed.

(** Division never returns a wrong quotient, and panics exactly on a zero divisor. *)
Lemma div_rem_spec a b : wf a -> wf b -> 0 < val b -> exists q r,
  U256.div_rem a b = Ret (q, r) /\ wf q /\ wf r /\
  val q = val a / val b /\ val r = val a mod val b.
Proof.
  intros Ha Hb Hpos. pose proof (val_range a Ha). pose proof (val_range b Hb).
  unfold U256.div_rem. rewrite !bits_val by done.
  assert (bit_length (val b) <> 0) as Hnz.
  { pose proof (bit_length_bound (val b)) as B. intros E. rewrite E in B. lia. }
  destruct (Z.eqb_spec (bit_length (val b)) 0); [done|].
  pose proof (bit_length_bound (val a) ltac:(lia)) as Ba.
  pose proof (bit_length_lower (val b) ltac:(lia)) as Bb.
  pose proof (bit_length_nonneg (val b)). pose proof (bit_length_nonneg (val a)).
  pose proof (bit_length_le (val a) 256 ltac:(lia) ltac:(lia)).
  destruct (Z.ltb_spec (bit_length (val a)) (bit_length (val b))).
  - exists U256.ZERO, a. assert (val a < val b).
    { eapply Z.lt_le_trans; [exact Ba|]. etrans; [|exact Bb]. apply Z.pow_le_mono_r; lia. }
    rewrite Z.div_small, Z.mod_small by lia. done.
  - set (s := bit_length (val a) - bit_length (val b)) in *.
    assert (val b * 2 ^ s < 2 ^ 256) as Hfit.
    { pose proof (bit_length_bound (val b) ltac:(lia)).
      apply Z.lt_le_trans with (2 ^ bit_length (val b) * 2 ^ s).
      - apply Z.mul_lt_mono_pos_r; [apply pow2_pos; lia|done].
      - rewrite <- Z.pow_add_r by lia. apply Z.pow_le_mono_r; lia. }
    destruct (shl_small b s Hb ltac:(lia) Hfit) as [Hs Vs].
    pose proof (div_rem_loop_spec b (val a) Hb Hpos (Z.to_nat s) a (U256.shl b s) U256.ZERO) as L.
    rewrite Z2Nat.id in L by lia.
    destruct (U256.div_rem_loop _ _ _ _) as [q r]. destruct L as (Hq & Hr & V & R); try done.
    + lia.
    + eapply Z.lt_le_trans; [exact Ba|].
      replace (bit_length (val a)) with (bit_length (val b) - 1 + (s + 1)) by lia.
      rewrite Z.pow_add_r by lia. apply Z.mul_le_mono_nonneg_r; [apply Z.pow_nonneg; lia|done].
    + exists q, r. split; [done|]. split; [done|]. split; [done|].
      split; [apply Z.div_unique with (val r) | apply Z.mod_unique with (val q)]; lia.
Qed.

Lemma div_rem_zero a b : wf b -> val b = 0 -> U256.div_rem a b = Panic.
Proof. intros Hb V. unfold U256.div_rem. by rewrite bits_val, V by done. Qed.

Lemma div_spec a b : wf a -> wf b -> 0 < val b ->
  exists q, U256.div a b = Ret q /\ wf q /\ val q = val a / val b.
Proof.
  intros Ha Hb Hp. destruct (div_rem_spec a b Ha Hb Hp) as (q & r & E & ?). exists q.
  unfold U256.div. rewrite E. naive_solver.
Qed.

Lemma inverse_spec x : wf x -> exists y,
  U256.inverse x = Ret y /\ wf y /\
  val y = if val x <=? 1 then 2 ^ 256 - 1 else 2 ^ 256 / (val x + 1).
Proof.
  intros Hx. pose proof (val_range x Hx) as Rx. unfold U256.inverse.
  rewrite is_zero_val, is_one_val, is_max_val by done.
  destruct (Z.eqb_spec (val x) 0) as [->|]; [by eexists|].
  destruct (Z.eqb_spec (val x) 1) as [->|]; [by eexists|].
  destruct (Z.eqb_spec (val x) (2 ^ 256 - 1)) as [->|]; [by eexists|].
  destruct (not_spec x Hx) as [Hn Vn]. destruct (wrapping_inc_spec x Hx) as [Hi Vi].
  rewrite Z.mod_small in Vi by lia.
  destruct (div_spec _ _ Hn Hi ltac:(lia)) as (q & E & Hq & Vq). rewrite E; simpl.
  destruct (wrapping_inc_spec q Hq) as [Hr Vr]. eexists. split; [done|]. split; [done|].
  destruct (Z.leb_spec (val x) 1); [lia|]. rewrite Vr, Vq, Vn, Vi.
  replace (2 ^ 256 - 1 - val x) with (2 ^ 256 + (-1) * (val x + 1)) by lia.
  rewrite Z.div_add by lia.
  replace (2 ^ 256 / (val x + 1) + -1 + 1) with (2 ^ 256 / (val x + 1)) by lia.
  apply Z.mod_small. split; [apply Z.div_pos; lia | apply Z.div_lt; lia].
Qed.

(** ** The checked operators *)

Lemma add_spec {bm : BuildMode} a b : wf a -> wf b -> val a + val b < 2 ^ 256 ->
  exists r, U256.add a b = Ret r /\ wf r /\ val r = val a + val b.
Proof.
  intros Ha Hb Hv. destruct (overflowing_add_spec a b Ha Hb) as (Hr & Vr & Or).
  unfold U256.add. destruct (U256.overflowing_add a b) as [r o]; cbn [fst snd] in *.
  pose proof (val_range a Ha). pose proof (val_range b Hb).
  rewrite Z.mod_small in Vr by lia. destruct (Z.leb_spec (2 ^ 256) (val a + val b)); [lia|].
  subst o. exists r. unfold debug_assert. by rewrite andb_false_r.
Qed.

(** An overflowing addition panics in a debug build and wraps in a release build. *)
Lemma add_overflow {bm : BuildMode} a b : wf a -> wf b -> 2 ^ 256 <= val a + val b ->
  if debug_assertions then U256.add a b = Panic
  else exists r, U256.add a b = Ret r /\ wf r /\ val r = val a + val b - 2 ^ 256.
Proof.
  intros Ha Hb Hv. destruct (overflowing_add_spec a b Ha Hb) as (Hr & Vr & Or).
  unfold U256.add. destruct (U256.overflowing_add a b) as [r o]; cbn [fst snd] in *.
  pose proof (val_range a Ha). pose proof (val_range b Hb).
  fold (wrap 256 (val a + val b)) in Vr. rewrite wrap_add in Vr by done.
  destruct (Z.leb_spec (2 ^ 256) (val a + val b)); [|lia].
  subst o. unfold debug_assert. destruct debug_assertions; simpl; [done|]. by exists r.
Qed.

Lemma sub_spec {bm : BuildMode} a b : wf a -> wf b -> val b <= val a ->
  exists r, U256.sub a b = Ret r /\ wf r /\ val r = val a - val b.
Proof.
  intros Ha Hb Hv. destruct (overflowing_sub_spec a b Ha Hb) as (Hr & Vr & Or).
  unfold U256.sub. destruct (U256.overflowing_sub a b) as [r o]; cbn [fst snd] in *.
  pose proof (val_range a Ha). pose proof (val_range b Hb).
  rewrite Z.mod_small in Vr by lia. destruct (Z.ltb_spec (val a) (val b)); [lia|].
  subst o. exists r. unfold debug_assert. by rewrite andb_false_r.
Qed.

(** [Mul] by a factor below [2^192] never trips the [debug_assert]: it returns the
    wrapped product in both builds. *)
Lemma mul_spec {bm : BuildMode} a b : wf a -> wf b -> val b < 2 ^ 192 ->
  exists r, U256.mul a b = Ret r /\ wf r /\ val r = (val a * val b) mod 2 ^ 256.
Proof.
  intros Ha Hb Hv. destruct (overflowing_mul_spec a b Ha Hb Hv) as (Hr & Vr).
  pose proof (overflowing_mul_flag a b Ha Hb Hv) as Or.
  unfold U256.mul. destruct (U256.overflowing_mul a b) as [r o]; cbn [fst snd] in *.
  subst o. exists r. unfold debug_assert. by rewrite andb_false_r.
Qed.

(** A computation that returns an integer, and one whose overflow is checked in debug builds. *)
Definition returns (m : run U256) (v : Z) : Prop := exists x, m = Ret x /\ wf x /\ val x = v.
Definition operator {bm : BuildMode} (m : run U256) (overflow : bool) (v : Z) : Prop :=
  if debug_assertions && overflow then m = Panic else returns m v.

Lemma checked_operator {bm : BuildMode} (res : U256 * bool) overflow v :
  wf (fst res) /\ val (fst res) = v /\ snd res = overflow ->
  operator (let '(res, overflow) := res in _ ← debug_assert (negb overflow); Ret res) overflow v.
Proof.
  destruct res as [x o]; cbn [fst snd]. intros (Hw & Hv & ->). unfold operator, debug_assert. rewrite negb_involutive.
  destruct (debug_assertions && overflow); [done|]. by exists x.
Qed.

Lemma add_operator {bm : BuildMode} a b : wf a -> wf b ->
  operator (U256.add a b) (2 ^ 256 <=? val a + val b) ((val a + val b) mod 2 ^ 256).
Proof. intros Ha Hb. by apply checked_operator, overflowing_add_spec. Qed.

Lemma sub_operator {bm : BuildMode} a b : wf a -> wf b ->
  operator (U256.sub a b) (val a <? val b) ((val a - val b) mod 2 ^ 256).
Proof. intros Ha Hb. by apply checked_operator, overflowing_sub_spec. Qed.

Lemma div_rem_operators a b : wf a -> wf b ->
  if val b =? 0 then U256.div a b = Panic /\ U256.rem a b = Panic
  else returns (U256.div a b) (val a / val b) /\ returns (U256.rem a b) (val a mod val b).
Proof.
  intros Ha Hb. pose proof (val_range b Hb). unfold U256.div, U256.rem. destruct (Z.eqb_spec (val b) 0).
  - by rewrite div_rem_zero.
  - destruct (div_rem_spec a b Ha Hb ltac:(lia)) as (q & r & -> & Hq & Hr & Vq & Vr). split; [by exists q|by exists r].
Qed.

(** ** Bytes *)

Lemma le_combine_range (bs : list byte) n : length bs = n -> in_u (8 * Z.of_nat n) (le_combine bs).
Proof. intros <-. apply le_combine_bound. Qed.

Lemma u128_le_roundtrip z : in_u 128 z -> le_combine (le_split 16 z) = z.
Proof. intros. rewrite le_combine_split. by apply Z.mod_small. Qed.

Lemma from_le_bytes_spec bs : length bs = 32%nat ->
  wf (U256.from_le_bytes bs) /\ val (U256.from_le_bytes bs) = le_combine bs.
Proof.
  intros L. unfold U256.from_le_bytes, U256.split_in_half, U256.u128_from_le_bytes.
  assert (length (take 16 bs) = 16%nat) as L1 by (rewrite length_take; lia).
  assert (length (drop 16 bs) = 16%nat) as L2 by (rewrite length_drop; lia).
  split; [split; by apply (le_combine_range _ 16)|]. unfold val; cbn [hi lo].
  rewrite <- (take_drop 16 bs) at 3. rewrite le_combine_app, L1.
  rewrite lor_add_disjoint; [|lia|by apply (le_combine_range _ 16)].
  change (Z.of_nat 16 * 8) with 128. lia.
Qed.

Lemma from_be_bytes_spec bs : length bs = 32%nat ->
  wf (U256.from_be_bytes bs) /\ val (U256.from_be_bytes bs) = le_combine (rev bs).
Proof.
  intros L. destruct (from_le_bytes_spec (rev bs)) as [? <-]; [by rewrite length_rev|].
  assert (U256.from_be_bytes bs = U256.from_le_bytes (rev bs)) as ->; [|done].
  unfold U256.from_be_bytes, U256.from_le_bytes, U256.split_in_half.
  unfold U256.u128_from_be_bytes, U256.u128_from_le_bytes.
  rewrite List.skipn_rev, List.firstn_rev, L. done.
Qed.

Lemma to_le_bytes_spec x : wf x ->
  length (U256.to_le_bytes x) = 32%nat /\ U256.from_le_bytes (U256.to_le_bytes x) = x.
Proof.
  intros [Hh Hl]. unfold U256.to_le_bytes, U256.u128_to_le_bytes.
  split; [by rewrite length_app, !length_le_split|].
  unfold U256.from_le_bytes, U256.split_in_half, U256.u128_from_le_bytes.
  rewrite take_app_length', drop_app_length' by (by rewrite length_le_split).
  rewrite !u128_le_roundtrip by done. by destruct x.
Qed.

Lemma to_be_bytes_rev x : U256.to_be_bytes x = rev (U256.to_le_bytes x).
Proof. unfold U256.to_be_bytes, U256.to_le_bytes. by rewrite List.rev_app_distr. Qed.

Lemma to_be_bytes_spec x : wf x ->
  length (U256.to_be_bytes x) = 32%nat /\ U256.from_be_bytes (U256.to_be_bytes x) = x.
Proof.
  intros Hx. destruct (to_le_bytes_spec x Hx) as [L E]. rewrite to_be_bytes_rev.
  split; [by rewrite length_rev|].
  destruct (from_be_bytes_spec (rev (U256.to_le_bytes x))) as [Hw V]; [by rewrite length_rev|].
  apply val_inj; [done..|]. rewrite V, List.rev_involutive.
  destruct (from_le_bytes_spec _ L) as [_ <-]. by rewrite E.
Qed.

End facts.

Create HintDb u256.
#[export] Hint Resolve wf_ZERO wf_ONE wf_MAX wf_from wf_of_val val_range : u256.

(** ** Main results *)

(** C34: what the arithmetic of the 256-bit integer of [pow.rs] computes on its pair of
    128-bit words, in both builds.  Addition, subtraction, complement, increment,
    multiplication by a 64-bit factor and both shifts (with the count taken modulo 256) are the
    operations of integers modulo [2^256], with exact overflow flags for the first two and
    [mul_u64]; order and bit length are those of the integer; the operators [+] and [-] panic
    exactly on overflow in a debug build and wrap in a release build; [/] and [%] panic exactly
    on zero and are the Euclidean quotient and remainder; [inverse] is [2^256 / (x + 1)] from
    two on.  The general multiplication does not shift the product with the top limb: it
    computes [a * (b mod 2^192 + b / 2^192)], which for every factor below [2^192] is the product
    modulo [2^256]; for such a factor it never reports an overflow, not even of a product that has
    one, and [*] does not panic. *)
Theorem u256_operations_exact {bm : BuildMode} (a b : U256) (r n : Z) :
  wf a -> wf b -> in_u 64 r ->
  (wf (fst (U256.overflowing_add a b)) /\
   val (fst (U256.overflowing_add a b)) = (val a + val b) mod 2 ^ 256 /\
   snd (U256.overflowing_add a b) = (2 ^ 256 <=? val a + val b)) /\
  (wf (fst (U256.overflowing_sub a b)) /\
   val (fst (U256.overflowing_sub a b)) = (val a - val b) mod 2 ^ 256 /\
   snd (U256.overflowing_sub a b) = (val a <? val b)) /\
  (wf (U256.not a) /\ val (U256.not a) = 2 ^ 256 - 1 - val a) /\
  (wf (U256.wrapping_inc a) /\ val (U256.wrapping_inc a) = (val a + 1) mod 2 ^ 256) /\
  (wf (fst (U256.mul_u64 a r)) /\
   val (fst (U256.mul_u64 a r)) = (val a * r) mod 2 ^ 256 /\
   snd (U256.mul_u64 a r) = (2 ^ 256 <=? val a * r)) /\
  (wf (U256.wrapping_shl a n) /\
   val (U256.wrapping_shl a n) = (val a * 2 ^ (n mod 256)) mod 2 ^ 256) /\
  (wf (U256.wrapping_shr a n) /\ val (U256.wrapping_shr a n) = val a / 2 ^ (n mod 256)) /\
  U256.ltb a b = (val a <? val b) /\
  U256.bits a = bit_length (val a) /\
  operator (U256.add a b) (2 ^ 256 <=? val a + val b) ((val a + val b) mod 2 ^ 256) /\
  operator (U256.sub a b) (val a <? val b) ((val a - val b) mod 2 ^ 256) /\
  (if val b =? 0 then U256.div a b = Panic /\ U256.rem a b = Panic
   else returns (U256.div a b) (val a / val b) /\ returns (U256.rem a b) (val a mod val b)) /\
  returns (U256.inverse a) (if val a <=? 1 then 2 ^ 256 - 1 else 2 ^ 256 / (val a + 1)) /\
  (wf (fst (U256.overflowing_mul a b)) /\
   val (fst (U256.overflowing_mul a b)) = (val a * (val b mod 2 ^ 192 + val b / 2 ^ 192)) mod 2 ^ 256) /\
  (val b < 2 ^ 192 -> snd (U256.overflowing_mul a b) = false /\ returns (U256.mul a b) ((val a * val b) mod 2 ^ 256)).
Proof.
  intros Ha Hb Hr.
  split; [by apply overflowing_add_spec|]. split; [by apply overflowing_sub_spec|].
  split; [by apply not_spec|]. split; [by apply wrapping_inc_spec|].
  split; [by apply mul_u64_spec|]. split; [by apply wrapping_shl_spec|].
  split; [by apply wrapping_shr_spec|]. split; [by apply ltb_val|]. split; [by apply bits_val|].
  split; [by apply add_operator|]. split; [by apply sub_operator|].
  split; [by apply div_rem_operators|]. split; [by apply inverse_spec|].
  split; [by apply overflowing_mul_exact|]. intros Hv. split; [by apply overflowing_mul_flag|by apply mul_spec].
Qed.

Lemma u256_operations_exact_witness :
  U256.add (bm := true) U256.MAX U256.ONE = Panic /\
  returns (U256.rem (mkU256 1 5) (U256.from 7)) (val (mkU256 1 5) mod 7) /\
  val (U256.wrapping_shl (mkU256 1 5) 1) = (val (mkU256 1 5) * 2 ^ (1 mod 256)) mod 2 ^ 256.
Proof.
  split; [|split].
  - apply (u256_operations_exact (bm := true) U256.MAX U256.ONE 7 3); repeat split; done.
  - apply (u256_operations_exact (bm := true) (mkU256 1 5) (U256.from 7) 7 3); repeat split; done.
  - apply (u256_operations_exact (bm := true) (mkU256 1 5) U256.ONE 7 1); repeat split; done.
Defined.

(** C35: [U256::div_rem] terminates for all arguments; it panics exactly on a zero
    divisor and otherwise returns the Euclidean quotient and remainder. *)
Theorem u256_div_rem_correct (a b : U256) : wf a -> wf b ->
  if val b =? 0 then U256.div_rem a b = Panic
  else exists q r, U256.div_rem a b = Ret (q, r) /\ wf q /\ wf r /\
    val q = val a / val b /\ val r = val a mod val b.
Proof.
  intros Ha Hb. pose proof (val_range b Hb). destruct (Z.eqb_spec (val b) 0).
  - by apply div_rem_zero.
  - apply div_rem_spec; [done..|lia].
Qed.

Lemma u256_div_rem_correct_witness :
  exists q r, U256.div_rem (mkU256 9 1) (mkU256 0 7) = Ret (q, r) /\ wf q /\ wf r /\
    val q = val (mkU256 9 1) / 7 /\ val r = val (mkU256 9 1) mod 7.
Proof. apply (u256_div_rem_correct (mkU256 9 1) (mkU256 0 7)); split; done. Defined.

(** What [U256::overflowing_mul] computes: the last round adds the product with
    the top 64 bits of [rhs] without shifting it by 192, so the result is
    [self * (rhs mod 2^192 + rhs / 2^192)] modulo [2^256].  It is the product modulo
    [2^256] for every [rhs] below [2^192], for which the overflow flag is always
    false even when the product does not fit.  Hence [1 * 2^192] is computed as 1
    and [MAX * 2] reports no overflow. *)
Lemma overflowing_mul_top_limb (a b : U256) : wf a -> wf b ->
  val (fst (U256.overflowing_mul a b)) =
    (val a * (val b mod 2 ^ 192 + val b / 2 ^ 192)) mod 2 ^ 256 /\
  (val b < 2 ^ 192 ->
   val (fst (U256.overflowing_mul a b)) = (val a * val b) mod 2 ^ 256 /\
   snd (U256.overflowing_mul a b) = false) /\
  U256.overflowing_mul U256.ONE (mkU256 (2 ^ 64) 0) = (U256.ONE, false) /\
  snd (U256.overflowing_mul U256.MAX (U256.from 2)) = false.
Proof.
  intros Ha Hb. split; [by apply overflowing_mul_exact|].
  split; [intros; split; [by apply overflowing_mul_spec|by apply overflowing_mul_flag]|].
  split; vm_compute; reflexivity.
Qed.

