(* ===== verification/Params.v ===== *)
(** * Networks and consensus parameters

    [bitcoin/src/dogecoin/params.rs], [bitcoin/src/consensus/params.rs], the two
    [Network] enumerations and the [Target] constants the parameters are made of. *)

From Stdlib Require Import ZArith Lia String.
From stdpp Require Import base tactics option list numbers strings.
From S2P Require Import Prelude U256.
#[local] Open Scope Z_scope.

(** [pub struct Target(U256)] and [pub struct Work(U256)], [pub struct CompactTarget(u32)] *)
Record Target := mkTarget { target_u256 : U256 }.
Record Work := mkWork { work_u256 : U256 }.
Record CompactTarget := mkCompact { compact_bits : Z }.

#[export] Instance Target_eq_dec : EqDecision Target.
Proof. solve_decision. Defined.
#[export] Instance Work_eq_dec : EqDecision Work.
Proof. solve_decision. Defined.
#[export] Instance CompactTarget_eq_dec : EqDecision CompactTarget.
Proof. solve_decision. Defined.

(** The constants of [impl Target]; [x << n] on a [u128] constant. *)
Module TargetConst.
Definition ZERO : Target := mkTarget U256.ZERO.
Definition MAX : Target := mkTarget (mkU256 (Z.shiftl 0xFFFF (208 - 128)) 0).
Definition MAX_ATTAINABLE_MAINNET : Target := mkTarget (mkU256 (Z.shiftl 0xFFFF (208 - 128)) 0).
Definition MAX_ATTAINABLE_TESTNET : Target := mkTarget (mkU256 (Z.shiftl 0xFFFF (208 - 128)) 0).
Definition MAX_ATTAINABLE_REGTEST : Target := mkTarget (mkU256 (Z.shiftl 0x7FFFFF00 96) 0).
Definition MAX_ATTAINABLE_SIGNET : Target := mkTarget (mkU256 (Z.shiftl 0x0377ae00 80) 0).
Definition MAX_ATTAINABLE_MAINNET_DOGE : Target :=
  mkTarget (mkU256 (Z.shiftl 0xFFFFF000 (204 - 128)) 0).
Definition MAX_ATTAINABLE_TESTNET_DOGE : Target :=
  mkTarget (mkU256 (Z.shiftl 0xFFFFF000 (204 - 128)) 0).
Definition MAX_ATTAINABLE_REGTEST_DOGE : Target := mkTarget (mkU256 (Z.shiftl 0x7FFFFF00 96) 0).
End TargetConst.

(** ** Dogecoin *)

Module Doge.

Inductive Network := Dogecoin | Testnet | Regtest.

#[global] Instance Network_eq_dec : EqDecision Network.
Proof. solve_decision. Defined.

Definition ONE_SECOND : Z := 1.
Definition ONE_MINUTE : Z := 60.
Definition FOUR_HOURS : Z := 4 * 60 * 60.

Record Params := mkParams {
  network : Network;
  bip16_time : Z;
  bip34_height : Z;
  bip65_height : Z;
  bip66_height : Z;
  rule_change_activation_threshold : Z;
  miner_confirmation_window : Z;
  pow_limit : Target;
  max_attainable_target : Target;
  pow_target_spacing : Z;
  no_pow_retargeting : bool;
  digishield_activation_height : Z;
  auxpow_height : Z;
  strict_chain_id : bool;
  auxpow_chain_id : Z;
}.

Definition MAINNET : Params := {|
  network := Dogecoin;
  bip16_time := 1333238400;
  bip34_height := 1034383;
  bip65_height := 3464751;
  bip66_height := 1034383;
  rule_change_activation_threshold := 9576;
  miner_confirmation_window := 10080;
  pow_limit := TargetConst.MAX_ATTAINABLE_MAINNET_DOGE;
  max_attainable_target := TargetConst.MAX_ATTAINABLE_MAINNET_DOGE;
  pow_target_spacing := ONE_MINUTE;
  no_pow_retargeting := false;
  auxpow_height := 371337;
  strict_chain_id := true;
  auxpow_chain_id := 0x0062;
  digishield_activation_height := 145000;
|}.

Definition TESTNET : Params := {|
  network := Testnet;
  bip16_time := 1333238400;
  bip34_height := 708658;
  bip65_height := 1854705;
  bip66_height := 708658;
  rule_change_activation_threshold := 2880;
  miner_confirmation_window := 10080;
  pow_limit := TargetConst.MAX_ATTAINABLE_TESTNET_DOGE;
  max_attainable_target := TargetConst.MAX_ATTAINABLE_TESTNET_DOGE;
  pow_target_spacing := ONE_MINUTE;
  no_pow_retargeting := false;
  auxpow_height := 158100;
  strict_chain_id := false;
  auxpow_chain_id := 0x0062;
  digishield_activation_height := 145000;
|}.

Definition REGTEST : Params := {|
  network := Regtest;
  bip16_time := 1333238400;
  bip34_height := 100000000;
  bip65_height := 1351;
  bip66_height := 1251;
  rule_change_activation_threshold := 540;
  miner_confirmation_window := 720;
  pow_limit := TargetConst.MAX_ATTAINABLE_REGTEST_DOGE;
  max_attainable_target := TargetConst.MAX_ATTAINABLE_REGTEST_DOGE;
  pow_target_spacing := ONE_SECOND;
  no_pow_retargeting := true;
  auxpow_height := 20;
  strict_chain_id := true;
  auxpow_chain_id := 0x0062;
  digishield_activation_height := 10;
|}.

(** [Params::DOGECOIN] is an alias of [Params::MAINNET]. *)
Definition DOGECOIN : Params := MAINNET.

(** [Params::new] and [Network::params] *)
Definition new (network : Network) : Params :=
  match network with Dogecoin => MAINNET | Testnet => TESTNET | Regtest => REGTEST end.
Definition params (self : Network) : Params :=
  match self with Dogecoin => DOGECOIN | Testnet => TESTNET | Regtest => REGTEST end.

Definition is_digishield_activated (self : Params) (height : Z) : bool :=
  digishield_activation_height self <=? height.

Definition pow_target_timespan (self : Params) (height : Z) : Z :=
  if negb (is_digishield_activated self height) then FOUR_HOURS
  else match network self with
       | Dogecoin => ONE_MINUTE
       | Testnet => ONE_MINUTE
       | Regtest => ONE_SECOND
       end.

(** The match on height ranges [0..=144_999], [145_000..=157_499], [157_500..] is
    tested in order. *)
Definition allow_min_difficulty_blocks (self : Params) (height : Z) : bool :=
  match network self with
  | Dogecoin => false
  | Testnet =>
      if height <=? 144999 then true else if height <=? 157499 then false else true
  | Regtest => true
  end.

Definition allow_legacy_blocks (self : Params) (height : Z) : bool :=
  height <? auxpow_height self.

(** [Network::magic], as the four bytes [Magic::from_bytes] is given. *)
Definition magic (self : Network) : list Z :=
  match self with
  | Dogecoin => [0xC0; 0xC0; 0xC0; 0xC0]
  | Testnet => [0xFC; 0xC1; 0xB7; 0xDC]
  | Regtest => [0xFA; 0xBF; 0xB5; 0xDA]
  end.

(** [impl Display for Network] and [impl FromStr for Network] *)
Definition to_string (self : Network) : string :=
  match self with
  | Dogecoin => "dogecoin" | Testnet => "testnet" | Regtest => "regtest"
  end%string.

Inductive ParseNetworkError := mkParseNetworkError (s : string).

Definition from_str (s : string) : Result ParseNetworkError Network :=
  if (s =? "dogecoin")%string then Ok Dogecoin
  else if (s =? "testnet")%string then Ok Testnet
  else if (s =? "regtest")%string then Ok Regtest
  else Err (mkParseNetworkError s).

End Doge.

(** ** Bitcoin *)

Module Btc.

Inductive Network := Bitcoin | Testnet | Testnet4 | Signet | Regtest.

#[global] Instance Network_eq_dec : EqDecision Network.
Proof. solve_decision. Defined.

Record Params := mkParams {
  network : Network;
  bip16_time : Z;
  bip34_height : Z;
  bip65_height : Z;
  bip66_height : Z;
  rule_change_activation_threshold : Z;
  miner_confirmation_window : Z;
  pow_limit : Target;
  max_attainable_target : Target;
  pow_target_spacing : Z;
  pow_target_timespan : Z;
  allow_min_difficulty_blocks : bool;
  no_pow_retargeting : bool;
}.

Definition MAINNET : Params := {|
  network := Bitcoin;
  bip16_time := 1333238400;
  bip34_height := 227931;
  bip65_height := 388381;
  bip66_height := 363725;
  rule_change_activation_threshold := 1916;
  miner_confirmation_window := 2016;
  pow_limit := TargetConst.MAX_ATTAINABLE_MAINNET;
  max_attainable_target := TargetConst.MAX_ATTAINABLE_MAINNET;
  pow_target_spacing := 10 * 60;
  pow_target_timespan := 14 * 24 * 60 * 60;
  allow_min_difficulty_blocks := false;
  no_pow_retargeting := false;
|}.

Definition TESTNET3 : Params := {|
  network := Testnet;
  bip16_time := 1333238400;
  bip34_height := 21111;
  bip65_height := 581885;
  bip66_height := 330776;
  rule_change_activation_threshold := 1512;
  miner_confirmation_window := 2016;
  pow_limit := TargetConst.MAX_ATTAINABLE_TESTNET;
  max_attainable_target := TargetConst.MAX_ATTAINABLE_TESTNET;
  pow_target_spacing := 10 * 60;
  pow_target_timespan := 14 * 24 * 60 * 60;
  allow_min_difficulty_blocks := true;
  no_pow_retargeting := false;
|}.

Definition TESTNET4 : Params := {|
  network := Testnet4;
  bip16_time := 1333238400;
  bip34_height := 1;
  bip65_height := 1;
  bip66_height := 1;
  rule_change_activation_threshold := 1512;
  miner_confirmation_window := 2016;
  pow_limit := TargetConst.MAX_ATTAINABLE_TESTNET;
  max_attainable_target := TargetConst.MAX_ATTAINABLE_TESTNET;
  pow_target_spacing := 10 * 60;
  pow_target_timespan := 14 * 24 * 60 * 60;
  allow_min_difficulty_blocks := true;
  no_pow_retargeting := false;
|}.

Definition SIGNET : Params := {|
  network := Signet;
  bip16_time := 1333238400;
  bip34_height := 1;
  bip65_height := 1;
  bip66_height := 1;
  rule_change_activation_threshold := 1916;
  miner_confirmation_window := 2016;
  pow_limit := TargetConst.MAX_ATTAINABLE_SIGNET;
  max_attainable_target := TargetConst.MAX_ATTAINABLE_SIGNET;
  pow_target_spacing := 10 * 60;
  pow_target_timespan := 14 * 24 * 60 * 60;
  allow_min_difficulty_blocks := false;
  no_pow_retargeting := false;
|}.

Definition REGTEST : Params := {|
  network := Regtest;
  bip16_time := 1333238400;
  bip34_height := 100000000;
  bip65_height := 1351;
  bip66_height := 1251;
  rule_change_activation_threshold := 108;
  miner_confirmation_window := 144;
  pow_limit := TargetConst.MAX_ATTAINABLE_REGTEST;
  max_attainable_target := TargetConst.MAX_ATTAINABLE_REGTEST;
  pow_target_spacing := 10 * 60;
  pow_target_timespan := 14 * 24 * 60 * 60;
  allow_min_difficulty_blocks := true;
  no_pow_retargeting := true;
|}.

Definition new (network : Network) : Params :=
  match network with
  | Bitcoin => MAINNET
  | Testnet => TESTNET3
  | Testnet4 => TESTNET4
  | Signet => SIGNET
  | Regtest => REGTEST
  end.

(** A [u64] division: a zero spacing panics. *)
Definition difficulty_adjustment_interval (self : Params) : run Z :=
  if pow_target_spacing self =? 0 then Panic
  else Ret (pow_target_timespan self / pow_target_spacing self).

End Btc.

(** ** Facts about the parameters *)

(** The parameter sets a network can have. *)
Inductive doge_params : Doge.Params -> Prop :=
| doge_mainnet : doge_params Doge.MAINNET
| doge_testnet : doge_params Doge.TESTNET
| doge_regtest : doge_params Doge.REGTEST.

Inductive btc_params : Btc.Params -> Prop :=
| btc_mainnet : btc_params Btc.MAINNET
| btc_testnet3 : btc_params Btc.TESTNET3
| btc_testnet4 : btc_params Btc.TESTNET4
| btc_signet : btc_params Btc.SIGNET
| btc_regtest : btc_params Btc.REGTEST.

Lemma doge_new_params n : doge_params (Doge.new n) /\ Doge.params n = Doge.new n.
Proof. destruct n; by repeat constructor. Qed.

Lemma btc_new_params n : btc_params (Btc.new n).
Proof. destruct n; constructor. Qed.

Definition target_val (t : Target) : Z := val (target_u256 t).
Definition target_wf (t : Target) : Prop := wf (target_u256 t).

Lemma doge_max_target p : doge_params p ->
  target_wf (Doge.max_attainable_target p) /\
  0 < target_val (Doge.max_attainable_target p) < 2 ^ 255.
Proof. destruct 1; by repeat split. Qed.

Lemma btc_max_target p : btc_params p ->
  target_wf (Btc.max_attainable_target p) /\
  0 < target_val (Btc.max_attainable_target p) < 2 ^ 255.
Proof. destruct 1; by repeat split. Qed.

Lemma doge_network_from_to_str n : Doge.from_str (Doge.to_string n) = Ok n.
Proof. by destruct n. Qed.
