(* ===== verification/Pow.v ===== *)
(** * Proof-of-work targets and difficulty adjustment

    [Target], [Work] and [CompactTarget] of [bitcoin/src/pow.rs]: the compact
    ("nBits") encoding, the transition thresholds and the two retargeting
    algorithms (Bitcoin's, and Dogecoin's before and after Digishield). *)

From Stdlib Require Import ZArith Lia.
From coqutil Require Import Byte Word.LittleEndianList.
From stdpp Require Import base tactics option list numbers.
From S2P Require Import Prelude U256 Params.
#[local] Open Scope Z_scope.

Module Target.

(** The shift counts [8 * (3 - unshifted_expt)] and [8 * ((bits >> 24) - 3)] are at
    most 24 and 2016, inside their types. *)
Definition from_compact (c : CompactTarget) : Target :=
  let bits := compact_bits c in
  let '(mant, expt) :=
    let unshifted_expt := Z.shiftr bits 24 in
    if unshifted_expt <=? 3
    then (Z.shiftr (Z.land bits 0xFFFFFF) (8 * (3 - unshifted_expt)), 0)
    else (Z.land bits 0xFFFFFF, 8 * (Z.shiftr bits 24 - 3)) in
  if 0x7FFFFF <? mant then TargetConst.ZERO
  else mkTarget (U256.shl (U256.from mant) expt).

Definition to_compact_lossy (self : Target) : CompactTarget :=
  let x := target_u256 self in
  let size := (U256.bits x + 7) / 8 in
  let compact :=
    if size <=? 3 then wrap 32 (wrap 64 (Z.shiftl (U256.low_u64 x) (8 * (3 - size))))
    else U256.low_u32 (U256.shr x (8 * (size - 3))) in
  let '(compact, size) :=
    if negb (Z.land compact 0x00800000 =? 0) then (Z.shiftr compact 8, size + 1)
    else (compact, size) in
  mkCompact (Z.lor compact (wrap 32 (Z.shiftl size 24))).

(** The hash is the 32-byte array of a [BlockHash]. *)
Definition is_met_by (self : Target) (hash : list byte) : bool :=
  let hash := U256.from_le_bytes hash in
  U256.leb hash (target_u256 self).

Definition to_work (self : Target) : run Work := mkWork <$> U256.inverse (target_u256 self).

Definition difficulty (self : Target) (params : Btc.Params) : run Z :=
  _ ← assert_ (negb (U256.eqb (target_u256 self) U256.ZERO));
  let max := Btc.max_attainable_target params in
  d ← U256.div (target_u256 max) (target_u256 self);
  Ret (U256.saturating_to_u128 d).

(** [cmp::min] on the derived order; it returns its first argument on equality. *)
Definition min (a b : Target) : Target :=
  if U256.leb (target_u256 a) (target_u256 b) then a else b.

Definition min_transition_threshold (self : Target) : Target :=
  mkTarget (U256.shr (target_u256 self) 2).

Definition max_transition_threshold_unchecked (self : Target) : Target :=
  mkTarget (U256.shl (target_u256 self) 2).

Definition max_transition_threshold (self : Target) (params : Btc.Params) : Target :=
  let max_attainable := Btc.max_attainable_target params in
  min (max_transition_threshold_unchecked self) max_attainable.

Section dogecoin.
Context {bm : BuildMode}.

Definition min_transition_threshold_dogecoin (self : Target) (params : Doge.Params) (height : Z) :
    run Target :=
  let x := target_u256 self in
  if Doge.is_digishield_activated params height then
    mkTarget <$> U256.sub x (U256.shr x 2)
  else
    Ret (if height <=? 5000 then mkTarget (U256.shr x 4)
         else if height <=? 10000 then mkTarget (U256.shr x 3)
         else mkTarget (U256.shr x 2)).

Definition max_transition_threshold_dogecoin (self : Target) (params : Doge.Params) (height : Z) :
    run Target :=
  let max_attainable := Doge.max_attainable_target params in
  let x := target_u256 self in
  if Doge.is_digishield_activated params height then
    s ← U256.add x (U256.shr x 1); Ret (min (mkTarget s) max_attainable)
  else Ret (min (max_transition_threshold_unchecked self) max_attainable).

End dogecoin.
End Target.

Module Work.
Definition to_target (self : Work) : run Target := mkTarget <$> U256.inverse (work_u256 self).

Section operators.
Context {bm : BuildMode}.
Definition add (self rhs : Work) : run Work := mkWork <$> U256.add (work_u256 self) (work_u256 rhs).
Definition sub (self rhs : Work) : run Work := mkWork <$> U256.sub (work_u256 self) (work_u256 rhs).
End operators.
End Work.

Module Compact.

Definition from_consensus (bits : Z) : CompactTarget := mkCompact bits.
Definition to_consensus (self : CompactTarget) : Z := compact_bits self.

Section retarget.
Context {bm : BuildMode}.

(** [u64] shifts and [u64::clamp]; [clamp] panics when [min > max]. *)
Definition clamp_chk (z lo hi : Z) : run Z := _ ← assert_ (lo <=? hi); Ret (clamp z lo hi).

Definition from_next_work_required (last : CompactTarget) (timespan : Z) (params : Btc.Params) :
    run CompactTarget :=
  if Btc.no_pow_retargeting params then Ret last
  else
    let min_timespan := Z.shiftr (Btc.pow_target_timespan params) 2 in
    let max_timespan := wrap 64 (Z.shiftl (Btc.pow_target_timespan params) 2) in
    actual_timespan ← clamp_chk timespan min_timespan max_timespan;
    let prev_target := Target.from_compact last in
    let maximum_retarget := Target.max_transition_threshold prev_target params in
    let retarget := target_u256 prev_target in
    retarget ← U256.mul retarget (U256.from actual_timespan);
    retarget ← U256.div retarget (U256.from (Btc.pow_target_timespan params));
    if U256.leb (target_u256 maximum_retarget) retarget
    then Ret (Target.to_compact_lossy maximum_retarget)
    else Ret (Target.to_compact_lossy (mkTarget retarget)).

(** The modulated timespan of Digishield: [i64] arithmetic with a division that
    rounds towards zero, then a clamp to [-25%, +50%]. *)
Definition modulated_digishield (retarget_timespan timespan : Z) : run Z :=
  d ← arith_i 64 (timespan - retarget_timespan);
  m ← arith_i 64 (retarget_timespan + Z.quot d 8);
  min_timespan ← arith_i 64 (retarget_timespan - Z.shiftr retarget_timespan 2);
  max_timespan ← arith_i 64 (retarget_timespan + Z.shiftr retarget_timespan 1);
  clamp_chk m min_timespan max_timespan.

(** Before Digishield: a clamp to a factor of four up, and of 16, 8 or 4 down
    according to the height. *)
Definition modulated_pre_digishield (retarget_timespan timespan height : Z) : run Z :=
  let max_timespan := swrap 64 (Z.shiftl retarget_timespan 2) in
  let min_timespan :=
    if height <=? 5000 then Z.shiftr retarget_timespan 4
    else if height <=? 10000 then Z.shiftr retarget_timespan 3
    else Z.shiftr retarget_timespan 2 in
  clamp_chk timespan min_timespan max_timespan.

Definition from_next_work_required_dogecoin
    (last : CompactTarget) (timespan : Z) (params : Doge.Params) (height : Z) :
    run CompactTarget :=
  if Doge.no_pow_retargeting params then Ret last
  else
    let retarget_timespan := Doge.pow_target_timespan params height in
    modulated_timespan ←
      (if Doge.is_digishield_activated params height
       then modulated_digishield retarget_timespan timespan
       else modulated_pre_digishield retarget_timespan timespan height);
    let prev_target := Target.from_compact last in
    maximum_retarget ← Target.max_transition_threshold_dogecoin prev_target params height;
    let retarget := target_u256 prev_target in
    retarget ← U256.mul retarget (U256.from (wrap 64 modulated_timespan));
    retarget ← U256.div retarget (U256.from (wrap 64 retarget_timespan));
    if U256.leb (target_u256 maximum_retarget) retarget
    then Ret (Target.to_compact_lossy maximum_retarget)
    else Ret (Target.to_compact_lossy (mkTarget retarget)).

End retarget.
End Compact.

(** Values from the unit tests of [pow.rs]: [target_from_compact],
    [compact_target_from_upwards_difficulty_adjustment] and the downwards one. *)
Example from_compact_ex :
  (fun c => target_val (Target.from_compact (mkCompact c))) <$>
    [0x01003456; 0x01123456; 0x02008000; 0x05009234; 0x04923456; 0x04123456]
  = [0; 0x12; 0x80; 0x92340000; 0; 0x12345600].
Proof. vm_compute. reflexivity. Qed.

Example from_next_work_required_ex (bm : BuildMode) :
  Compact.from_next_work_required (mkCompact 503543726) (1599332177 - 1598918400) Btc.SIGNET
    = Ret (mkCompact 503394215) /\
  Compact.from_next_work_required (mkCompact 503394215) (1600591200 - 1599332844) Btc.SIGNET
    = Ret (mkCompact 503397348).
Proof. destruct bm; vm_compute; done. Qed.

(** ** The compact encoding *)

(** Exponent and mantissa of an [nBits] value. *)
Definition compact_exp (c : CompactTarget) : Z := compact_bits c / 2 ^ 24.
Definition compact_mant (c : CompactTarget) : Z := compact_bits c mod 2 ^ 24.
Definition compact_wf (c : CompactTarget) : Prop := in_u 32 (compact_bits c).

(** What [from_compact] computes, on values. *)
Definition from_compact_val (e m : Z) : Z :=
  if e <=? 2 then m / 2 ^ (8 * (3 - e))
  else if 0x7FFFFF <? m then 0
  else (m * 2 ^ (8 * (e - 3) mod 256)) mod 2 ^ 256.

Lemma compact_fields c : compact_wf c ->
  0 <= compact_exp c < 256 /\ 0 <= compact_mant c < 2 ^ 24.
Proof.
  unfold compact_wf, in_u, compact_exp, compact_mant. intros. split.
  - split; [apply Z.div_pos; lia | apply Z.div_lt_upper_bound; lia].
  - apply Z.mod_pos_bound; lia.
Qed.

Lemma from_compact_spec c : compact_wf c ->
  target_wf (Target.from_compact c) /\
  target_val (Target.from_compact c) = from_compact_val (compact_exp c) (compact_mant c).
Proof.
  intros Hc. destruct (compact_fields c Hc) as [He Hm].
  unfold Target.from_compact. rewrite Z.shiftr_div_pow2 by lia.
  change 0xFFFFFF with (Z.ones 24). rewrite Z.land_ones by lia.
  fold (compact_exp c) (compact_mant c). set (e := compact_exp c) in *. set (m := compact_mant c) in *.
  unfold target_wf, target_val, from_compact_val.
  destruct (Z.leb_spec e 3).
  - rewrite Z.shiftr_div_pow2 by lia. destruct (Z.leb_spec e 2).
    + assert (m / 2 ^ (8 * (3 - e)) <= m / 2 ^ 8).
      { apply Z.div_le_compat_l; [lia|]. split; [lia|]. apply Z.pow_le_mono_r; lia. }
      assert (m / 2 ^ 8 < 2 ^ 16) by (apply Z.div_lt_upper_bound; lia).
      assert (0 <= m / 2 ^ (8 * (3 - e))) by (apply Z.div_pos; [lia|apply pow2_pos; lia]).
      destruct (Z.ltb_spec 0x7FFFFF (m / 2 ^ (8 * (3 - e)))); [lia|]. cbn [target_u256].
      destruct (shl_small (U256.from (m / 2 ^ (8 * (3 - e)))) 0) as [? ->];
        rewrite ?val_from; [split; done || (unfold in_u; simpl; lia)|lia|lia|].
      split; [done|lia].
    + assert (e = 3) as -> by lia. change (2 ^ (8 * (3 - 3))) with 1. rewrite Z.div_1_r.
      destruct (Z.ltb_spec 0x7FFFFF m); [done|]. cbn [target_u256].
      destruct (wrapping_shl_spec (U256.from m) 0) as [? V]; [split; done || (unfold in_u; simpl; lia)|].
      split; [done|]. unfold U256.shl. by rewrite V, val_from.
  - destruct (Z.leb_spec e 2); [lia|].
    destruct (Z.ltb_spec 0x7FFFFF m); [done|]. cbn [target_u256].
    destruct (wrapping_shl_spec (U256.from m) (8 * (e - 3))) as [? V];
      [split; done || (unfold in_u; simpl; lia)|].
    split; [done|]. unfold U256.shl. by rewrite V, val_from.
Qed.

(** The number of low bits the compact form drops: all but the top two or three
    bytes of the value, the sign bit of the mantissa being kept clear. *)
Definition lossy_bits (v : Z) : Z := 8 * Z.max 0 (bit_length v / 8 - 2).

(** The exponent and mantissa [to_compact_lossy] produces for a value [v]. *)
Definition compact_size (v : Z) : Z := if v =? 0 then 0 else bit_length v / 8 + 1.
Definition compact_mantissa (v : Z) : Z :=
  if compact_size v <=? 3 then v * 2 ^ (8 * (3 - compact_size v))
  else v / 2 ^ (8 * (compact_size v - 3)).

(** [v] scaled to a three-byte mantissa for a size of [s] bytes. *)
Definition scaled (v s : Z) : Z :=
  if s <=? 3 then v * 2 ^ (8 * (3 - s)) else v / 2 ^ (8 * (s - 3)).

Lemma scaled_succ v s : 0 <= s -> 0 <= v -> s < 3 \/ 3 <= s ->
  scaled v s / 2 ^ 8 = scaled v (s + 1).
Proof.
  intros Hs Hv _. unfold scaled.
  destruct (Z.leb_spec s 3), (Z.leb_spec (s + 1) 3); try lia.
  - replace (8 * (3 - s)) with (8 * (3 - (s + 1)) + 8) by lia.
    by rewrite Z.pow_add_r, Z.mul_assoc, Z.div_mul by lia.
  - assert (s = 3) as -> by lia. change (2 ^ (8 * (3 - 3))) with 1. by rewrite Z.mul_1_r.
  - replace (8 * (s + 1 - 3)) with (8 * (s - 3) + 8) by lia.
    rewrite Z.pow_add_r, Z.div_div; [done| | |lia..]; pose proof (pow2_pos (8 * (s - 3))); lia.
Qed.

Lemma scaled_bounds v s : 0 < v -> 0 <= s -> 0 <= bit_length v - 8 * s + 23 ->
  2 ^ (bit_length v - 8 * s + 23) <= scaled v s < 2 ^ (bit_length v - 8 * s + 24).
Proof.
  intros Hv Hs Hb. pose proof (bit_length_bound v ltac:(lia)). pose proof (bit_length_lower v Hv).
  set (b := bit_length v) in *. unfold scaled. destruct (Z.leb_spec s 3).
  - replace (b - 8 * s + 23) with (b - 1 + 8 * (3 - s)) by lia.
    replace (b - 8 * s + 24) with (b + 8 * (3 - s)) by lia.
    pose proof (bit_length_pos v Hv). rewrite !Z.pow_add_r by lia.
    pose proof (pow2_pos (8 * (3 - s))). nia.
  - pose proof (pow2_pos (8 * (s - 3)) ltac:(lia)). split.
    + apply Z.div_le_lower_bound; [done|]. rewrite <- Z.pow_add_r by lia.
      etrans; [|eassumption]. apply Z.pow_le_mono_r; lia.
    + apply Z.div_lt_upper_bound; [done|]. rewrite <- Z.pow_add_r by lia.
      eapply Z.lt_le_trans; [eassumption|]. apply Z.pow_le_mono_r; lia.
Qed.

Lemma compact_mantissa_bounds v : 0 < v -> 2 ^ 15 <= compact_mantissa v < 2 ^ 23.
Proof.
  intros Hv. pose proof (bit_length_pos v Hv).
  pose proof (Z.div_mod (bit_length v) 8 ltac:(lia)). pose proof (Z.mod_pos_bound (bit_length v) 8 ltac:(lia)).
  change (compact_mantissa v) with (scaled v (compact_size v)).
  unfold compact_size. destruct (Z.eqb_spec v 0); [lia|].
  pose proof (scaled_bounds v (bit_length v / 8 + 1) Hv ltac:(lia) ltac:(lia)) as [L U].
  split; [etrans; [|exact L]|eapply Z.lt_le_trans; [exact U|]]; apply Z.pow_le_mono_r; lia.
Qed.

Lemma compact_size_bounds v : 0 <= v < 2 ^ 256 -> 0 <= compact_size v <= 33.
Proof.
  intros Hv. unfold compact_size. destruct (Z.eqb_spec v 0); [lia|].
  pose proof (bit_length_le v 256). pose proof (bit_length_pos v).
  pose proof (Z.div_mod (bit_length v) 8 ltac:(lia)). pose proof (Z.mod_pos_bound (bit_length v) 8 ltac:(lia)). lia.
Qed.

(** The first approximation [compact] of the source, before the sign-bit fix. *)
Lemma to_compact_first t : target_wf t -> 0 < target_val t ->
  let size := (bit_length (target_val t) + 7) / 8 in
  (if size <=? 3
   then wrap 32 (wrap 64 (Z.shiftl (U256.low_u64 (target_u256 t)) (8 * (3 - size))))
   else U256.low_u32 (U256.shr (target_u256 t) (8 * (size - 3)))) = scaled (target_val t) size.
Proof.
  intros Ht Hv size. unfold target_wf, target_val in *.
  set (x := target_u256 t) in *. set (v := val x) in *.
  pose proof (val_range x Ht) as Rv. fold v in Rv.
  pose proof (bit_length_bound v). pose proof (bit_length_pos v).
  pose proof (bit_length_le v 256).
  pose proof (Z.div_mod (bit_length v + 7) 8). pose proof (Z.mod_pos_bound (bit_length v + 7) 8).
  fold size in H2.
  pose proof (scaled_bounds v size ltac:(lia) ltac:(lia) ltac:(lia)) as [L U].
  assert (scaled v size < 2 ^ 24).
  { eapply Z.lt_le_trans; [exact U|]. apply Z.pow_le_mono_r; lia. }
  assert (0 <= scaled v size).
  { etrans; [|exact L]. apply Z.pow_nonneg; lia. }
  unfold scaled in *. destruct (Z.leb_spec size 3).
  - assert (v < 2 ^ 24). { eapply Z.lt_le_trans; [apply H; lia|]. apply Z.pow_le_mono_r; lia. }
    rewrite low_u64_val by done. fold v. rewrite (Z.mod_small v) by lia.
    rewrite Z.shiftl_mul_pow2 by lia. rewrite (wrap_small 64), wrap_small by (unfold in_u; lia). done.
  - destruct (shr_small x (8 * (size - 3)) Ht ltac:(lia)) as [Hs Vs].
    rewrite low_u32_val, Vs by done. fold v. apply Z.mod_small. lia.
Qed.

Lemma to_compact_lossy_bits t : target_wf t ->
  compact_bits (Target.to_compact_lossy t) =
    compact_mantissa (target_val t) + compact_size (target_val t) * 2 ^ 24.
Proof.
  intros Ht. unfold Target.to_compact_lossy. rewrite bits_val by done. fold (target_val t).
  pose proof (val_range _ Ht) as Rv. fold (target_val t) in Rv.
  destruct (Z.eq_dec (target_val t) 0) as [E|Hne].
  { assert (target_u256 t = U256.ZERO) as -> by (apply val_inj; [done..|exact E]).
    rewrite E. reflexivity. }
  rewrite to_compact_first by (done || lia). set (v := target_val t) in *.
  pose proof (bit_length_pos v ltac:(lia)). pose proof (bit_length_le v 256).
  set (b := bit_length v) in *. set (s0 := (b + 7) / 8).
  pose proof (Z.div_mod (b + 7) 8 ltac:(lia)) as D0. fold s0 in D0.
  pose proof (Z.mod_pos_bound (b + 7) 8 ltac:(lia)).
  pose proof (Z.div_mod b 8 ltac:(lia)). pose proof (Z.mod_pos_bound b 8 ltac:(lia)).
  pose proof (scaled_bounds v s0 ltac:(lia) ltac:(lia)) as B. fold b in B.
  specialize (B ltac:(lia)) as [L U].
  assert (0 <= scaled v s0 < 2 ^ 24) as Hs.
  { split; [etrans; [|exact L]; apply Z.pow_nonneg; lia|].
    eapply Z.lt_le_trans; [exact U|]. apply Z.pow_le_mono_r; lia. }
  change 0x00800000 with (2 ^ 23). rewrite land_pow2, testbit_top by lia.
  change (compact_mantissa v) with (scaled v (compact_size v)).
  pose proof (compact_mantissa_bounds v ltac:(lia)) as M.
  change (compact_mantissa v) with (scaled v (compact_size v)) in M.
  pose proof (compact_size_bounds v ltac:(lia)) as S.
  assert (compact_size v = b / 8 + 1) as ES.
  { unfold compact_size. destruct (Z.eqb_spec v 0); [lia|done]. }
  destruct (Z.leb_spec (2 ^ 23) (scaled v s0)) as [G|G]; simpl negb; cbv iota beta zeta.
  - assert (s0 + 1 = compact_size v) as E.
    { rewrite ES. destruct (Z.eq_dec (b - 8 * s0) 0); [lia|].
      assert (scaled v s0 < 2 ^ 23); [|lia].
      eapply Z.lt_le_trans; [exact U|]. apply Z.pow_le_mono_r; lia. }
    rewrite Z.shiftr_div_pow2, scaled_succ, E by lia. cbn [compact_bits].
    rewrite wrap_small by (unfold in_u; rewrite Z.shiftl_mul_pow2; lia).
    rewrite lor_add_disjoint by lia. done.
  - assert (s0 = compact_size v) as E.
    { rewrite ES. destruct (Z.eq_dec (b - 8 * s0) 0) as [Z0|]; [|lia].
      rewrite Z0 in L. change (2 ^ (0 + 23)) with (2 ^ 23) in L. lia. }
    rewrite E in *. cbn [compact_bits].
    rewrite wrap_small by (unfold in_u; rewrite Z.shiftl_mul_pow2; lia).
    rewrite lor_add_disjoint by lia. done.
Qed.

Lemma to_compact_fields t : target_wf t ->
  compact_wf (Target.to_compact_lossy t) /\
  compact_exp (Target.to_compact_lossy t) = compact_size (target_val t) /\
  compact_mant (Target.to_compact_lossy t) = compact_mantissa (target_val t).
Proof.
  intros Ht. pose proof (val_range _ Ht) as Rv. fold (target_val t) in Rv.
  unfold compact_wf, in_u, compact_exp, compact_mant. rewrite to_compact_lossy_bits by done.
  pose proof (compact_size_bounds (target_val t) Rv).
  assert (0 <= compact_mantissa (target_val t) < 2 ^ 23).
  { destruct (Z.eq_dec (target_val t) 0) as [->|]; [done|].
    pose proof (compact_mantissa_bounds (target_val t)). lia. }
  split; [lia|]. split.
  - symmetry. apply Z.div_unique with (compact_mantissa (target_val t)); lia.
  - symmetry. apply Z.mod_unique with (compact_size (target_val t)); lia.
Qed.

Lemma from_compact_val_compact v : 0 <= v < 2 ^ 256 ->
  from_compact_val (compact_size v) (compact_mantissa v) = v / 2 ^ lossy_bits v * 2 ^ lossy_bits v.
Proof.
  intros Hv. destruct (Z.eq_dec v 0) as [->|Hne]; [done|].
  pose proof (compact_mantissa_bounds v ltac:(lia)) as M.
  pose proof (compact_size_bounds v Hv) as S.
  assert (lossy_bits v = 8 * Z.max 0 (compact_size v - 3)) as ->.
  { unfold lossy_bits, compact_size. destruct (Z.eqb_spec v 0); [done|]. f_equal. f_equal. lia. }
  unfold from_compact_val, compact_mantissa in *. set (s := compact_size v) in *.
  destruct (Z.leb_spec s 3).
  - rewrite Z.max_l by lia. change (2 ^ (8 * 0)) with 1. rewrite Z.div_1_r, Z.mul_1_r.
    destruct (Z.leb_spec s 2).
    + apply Z.div_mul. pose proof (pow2_pos (8 * (3 - s))). lia.
    + assert (s = 3) as E by lia. rewrite E in *. change (2 ^ (8 * (3 - 3))) with 1 in *.
      destruct (Z.ltb_spec 0x7FFFFF (v * 1)); [lia|]. rewrite !Z.mul_1_r. by apply Z.mod_small.
  - destruct (Z.leb_spec s 2); [lia|].
    destruct (Z.ltb_spec 0x7FFFFF (v / 2 ^ (8 * (s - 3)))); [lia|].
    rewrite Z.max_r, (Z.mod_small (8 * (s - 3))) by lia. apply Z.mod_small.
    pose proof (pow2_pos (8 * (s - 3)) ltac:(lia)).
    pose proof (Z.mul_div_le v (2 ^ (8 * (s - 3))) ltac:(lia)). nia.
Qed.

Lemma compact_roundtrip_lossy t : target_wf t ->
  target_wf (Target.from_compact (Target.to_compact_lossy t)) /\
  target_val (Target.from_compact (Target.to_compact_lossy t)) =
    target_val t / 2 ^ lossy_bits (target_val t) * 2 ^ lossy_bits (target_val t).
Proof.
  intros Ht. destruct (to_compact_fields t Ht) as (Hc & He & Hm).
  destruct (from_compact_spec _ Hc) as [Hw ->]. split; [done|]. rewrite He, Hm.
  apply from_compact_val_compact, val_range, Ht.
Qed.

(** The dropped bits are below one part in [2^15] of the value. *)
Lemma lossy_bits_small v : 0 < v -> 2 ^ lossy_bits v * 2 ^ 15 <= v \/ lossy_bits v = 0.
Proof.
  intros Hv. unfold lossy_bits. pose proof (bit_length_lower v Hv).
  destruct (Z.le_gt_cases (bit_length v / 8) 2); [right; lia|]. left.
  rewrite <- Z.pow_add_r by lia. etrans; [|eassumption]. apply Z.pow_le_mono_r; [lia|].
  pose proof (Z.div_mod (bit_length v) 8). pose proof (Z.mod_pos_bound (bit_length v) 8). lia.
Qed.

(** A normalised compact value: three mantissa bytes with the sign bit clear and a
    significant top byte (or top bit of the second byte), representing a value
    below [2^256]. *)
Definition compact_canonical (c : CompactTarget) : Prop :=
  compact_wf c /\ 3 <= compact_exp c /\ 2 ^ 15 <= compact_mant c < 2 ^ 23 /\
  compact_mant c * 2 ^ (8 * (compact_exp c - 3)) < 2 ^ 256.

Lemma compact_bits_eq c : compact_wf c -> compact_bits c = compact_mant c + compact_exp c * 2 ^ 24.
Proof. intros. unfold compact_mant, compact_exp. pose proof (Z.div_mod (compact_bits c) (2 ^ 24)). lia. Qed.

Lemma from_compact_canonical c : compact_canonical c ->
  target_val (Target.from_compact c) = compact_mant c * 2 ^ (8 * (compact_exp c - 3)).
Proof.
  intros (Hc & He & Hm & Hv). destruct (from_compact_spec c Hc) as [_ ->].
  assert (compact_exp c < 35).
  { apply Z.nle_gt. intros G. assert (2 ^ 256 <= 2 ^ (8 * (compact_exp c - 3))) by (apply Z.pow_le_mono_r; lia).
    nia. }
  unfold from_compact_val. destruct (Z.leb_spec (compact_exp c) 2); [lia|].
  destruct (Z.ltb_spec 0x7FFFFF (compact_mant c)); [lia|].
  rewrite (Z.mod_small (8 * _)) by lia. apply Z.mod_small.
  pose proof (pow2_pos (8 * (compact_exp c - 3))). nia.
Qed.

Lemma canonical_roundtrip c : compact_canonical c ->
  Target.to_compact_lossy (Target.from_compact c) = c.
Proof.
  intros Hcan. pose proof Hcan as (Hc & He & Hm & Hv).
  pose proof (from_compact_canonical c Hcan) as V.
  destruct (from_compact_spec c Hc) as [Hw _].
  destruct (to_compact_fields _ Hw) as (Hc' & He' & Hm').
  rewrite V in He', Hm'. set (e := compact_exp c) in *. set (m := compact_mant c) in *.
  assert (bit_length (m * 2 ^ (8 * (e - 3))) = bit_length m + 8 * (e - 3)) as B.
  { pose proof (bit_length_pos m ltac:(lia)). pose proof (bit_length_bound m ltac:(lia)).
    pose proof (bit_length_lower m ltac:(lia)). apply bit_length_unique; [lia|].
    pose proof (pow2_pos (8 * (e - 3))).
    replace (bit_length m + 8 * (e - 3) - 1) with (bit_length m - 1 + 8 * (e - 3)) by lia.
    rewrite !Z.pow_add_r by lia. nia. }
  assert (16 <= bit_length m <= 23) as Bm.
  { split; [|apply bit_length_le; lia]. apply Z.nlt_ge. intros G.
    pose proof (bit_length_bound m ltac:(lia)).
    assert (2 ^ bit_length m <= 2 ^ 15) by (apply Z.pow_le_mono_r; lia). lia. }
  assert (compact_size (m * 2 ^ (8 * (e - 3))) = e) as S.
  { unfold compact_size. pose proof (pow2_pos (8 * (e - 3))).
    destruct (Z.eqb_spec (m * 2 ^ (8 * (e - 3))) 0); [nia|]. rewrite B.
    replace (bit_length m + 8 * (e - 3)) with (bit_length m + (e - 3) * 8) by lia.
    rewrite Z.div_add by lia.
    replace (bit_length m / 8) with 2; [lia|]. apply Z.div_unique with (bit_length m - 16); lia. }
  assert (compact_mantissa (m * 2 ^ (8 * (e - 3))) = m) as M.
  { unfold compact_mantissa. rewrite S. destruct (Z.leb_spec e 3).
    - assert (e = 3) as -> by lia. change (2 ^ (8 * (3 - 3))) with 1. lia.
    - apply Z.div_mul. pose proof (pow2_pos (8 * (e - 3))). lia. }
  destruct c as [bits], (Target.to_compact_lossy _) as [bits'] eqn:E. f_equal.
  rewrite S in He'. rewrite M in Hm'.
  pose proof (compact_bits_eq _ Hc). pose proof (compact_bits_eq _ Hc').
  cbn [compact_bits] in *. subst e m. lia.
Qed.

(** ** Retargeting *)

Section retarget_facts.
Context {bm : BuildMode}.

(** The tail shared by both algorithms: scale by [mts / rt] and cap. *)
Lemma scale_and_cap (x maxi : U256) mts rt :
  wf x -> wf maxi -> in_u 64 mts -> in_u 64 rt -> 0 < rt -> val x * mts < 2 ^ 256 ->
  exists y, wf y /\ val y = Z.min (val x * mts / rt) (val maxi) /\
  (r ← U256.mul x (U256.from mts); r ← U256.div r (U256.from rt);
   if U256.leb maxi r then Ret (Target.to_compact_lossy (mkTarget maxi))
   else Ret (Target.to_compact_lossy (mkTarget r))) = Ret (Target.to_compact_lossy (mkTarget y)).
Proof.
  intros Hx Hmax Hm Hr Hpos Hfit. unfold in_u in *.
  destruct (mul_spec x (U256.from mts) Hx) as (r & -> & Hwr & Vr);
    [apply wf_from; unfold in_u; lia|rewrite val_from; lia|].
  rewrite val_from in Vr. pose proof (val_range x Hx). rewrite Z.mod_small in Vr by nia.
  destruct (div_spec r (U256.from rt) Hwr) as (q & Eq & Hq & Vq);
    [apply wf_from; unfold in_u; lia|rewrite val_from; lia|].
  rewrite val_from, Vr in Vq. rewrite <- Vq. simpl. rewrite Eq. simpl. rewrite leb_val by done.
  destruct (Z.leb_spec (val maxi) (val q)); [exists maxi|exists q]; (split; [done|]); (split; [|done]); lia.
Qed.

Lemma min_target_val a b : target_wf a -> target_wf b ->
  target_wf (Target.min a b) /\ target_val (Target.min a b) = Z.min (target_val a) (target_val b).
Proof.
  intros Ha Hb. unfold Target.min. rewrite leb_val by done.
  fold (target_val a) (target_val b). destruct (Z.leb_spec (target_val a) (target_val b)); split; done || lia.
Qed.

Lemma shl2_val t : target_wf t -> target_val t < 2 ^ 254 ->
  target_wf (Target.max_transition_threshold_unchecked t) /\
  target_val (Target.max_transition_threshold_unchecked t) = 4 * target_val t.
Proof.
  intros Ht Hv. unfold Target.max_transition_threshold_unchecked, target_wf, target_val in *.
  cbn [target_u256]. destruct (shl_small (target_u256 t) 2 Ht) as [? ->]; [lia|lia|]. split; [done|lia].
Qed.

(** The two thresholds of [pow.rs], on values. *)
Definition doge_min_threshold (p : Doge.Params) (height v : Z) : Z :=
  if Doge.is_digishield_activated p height then v - v / 4
  else if height <=? 5000 then v / 16 else if height <=? 10000 then v / 8 else v / 4.
Definition doge_max_threshold (p : Doge.Params) (height v : Z) : Z :=
  Z.min (if Doge.is_digishield_activated p height then v + v / 2 else 4 * v)
        (target_val (Doge.max_attainable_target p)).

Lemma min_threshold_doge_spec p height t : target_wf t ->
  exists r, Target.min_transition_threshold_dogecoin t p height = Ret r /\ target_wf r /\
    target_val r = doge_min_threshold p height (target_val t).
Proof.
  intros Ht. unfold Target.min_transition_threshold_dogecoin, doge_min_threshold.
  pose proof (shr_small (target_u256 t) 2 Ht ltac:(lia)) as [H2 V2].
  pose proof (shr_small (target_u256 t) 3 Ht ltac:(lia)) as [H3 V3].
  pose proof (shr_small (target_u256 t) 4 Ht ltac:(lia)) as [H4 V4].
  pose proof (val_range _ Ht). unfold target_val, target_wf in *.
  destruct (Doge.is_digishield_activated p height).
  - destruct (sub_spec (target_u256 t) _ Ht H2) as (r & -> & Hr & Vr).
    { rewrite V2. apply Z.div_le_upper_bound; lia. }
    exists (mkTarget r). split; [done|]. split; [done|]. cbn [target_u256]. by rewrite Vr, V2.
  - zcases; eexists; (split; [done|]); split; done.
Qed.

Lemma max_threshold_doge_spec p height t : doge_params p -> target_wf t ->
  target_val t < 2 ^ 254 ->
  exists r, Target.max_transition_threshold_dogecoin t p height = Ret r /\ target_wf r /\
    target_val r = doge_max_threshold p height (target_val t).
Proof.
  intros Hp Ht Hv. unfold Target.max_transition_threshold_dogecoin, doge_max_threshold.
  destruct (doge_max_target p Hp) as [Hm Rm].
  destruct (Doge.is_digishield_activated p height).
  - pose proof (shr_small (target_u256 t) 1 Ht ltac:(lia)) as [H1 V1].
    change (2 ^ 1) with 2 in V1. fold (target_val t) in V1.
    destruct (add_spec (target_u256 t) _ Ht H1) as (r & -> & Hr & Vr).
    { rewrite V1. fold (target_val t). pose proof (Z.div_le_upper_bound (target_val t) 2 (target_val t)).
      pose proof (val_range _ Ht) as R; fold (target_val t) in R. lia. }
    destruct (min_target_val (mkTarget r) _ Hr Hm) as [? E]. simpl.
    eexists. split; [done|]. split; [done|]. rewrite E. unfold target_val at 1; cbn [target_u256].
    rewrite Vr, V1. done.
  - destruct (shl2_val t Ht Hv) as [Hs Vs]. destruct (min_target_val _ _ Hs Hm) as [? E].
    eexists. split; [done|]. split; [done|]. by rewrite E, Vs.
Qed.

(** The timespan the retarget multiplies by. *)
Definition doge_timespan (p : Doge.Params) (height ts : Z) : Z :=
  let rt := Doge.pow_target_timespan p height in
  if Doge.is_digishield_activated p height
  then clamp (rt + Z.quot (ts - rt) 8) (rt - rt / 4) (rt + rt / 2)
  else clamp ts (if height <=? 5000 then rt / 16 else if height <=? 10000 then rt / 8 else rt / 4) (4 * rt).

Lemma doge_target_timespan p height : doge_params p -> Doge.no_pow_retargeting p = false ->
  Doge.pow_target_timespan p height =
    if Doge.is_digishield_activated p height then 60 else 14400.
Proof.
  destruct 1; intros; try done; unfold Doge.pow_target_timespan;
    by destruct (Doge.is_digishield_activated _ _).
Qed.

Lemma clamp_chk_ret z lo hi : lo <= hi -> Compact.clamp_chk z lo hi = Ret (clamp z lo hi).
Proof. intros. unfold Compact.clamp_chk. destruct (Z.leb_spec lo hi); [done|lia]. Qed.

Lemma clamp_bounds z lo hi : lo <= hi -> lo <= clamp z lo hi <= hi.
Proof. intros. unfold clamp. zcases; lia. Qed.

Lemma doge_modulated_spec p height ts : doge_params p -> Doge.no_pow_retargeting p = false ->
  (Doge.is_digishield_activated p height = true -> in_i 64 (ts - 60)) ->
  (if Doge.is_digishield_activated p height
   then Compact.modulated_digishield (Doge.pow_target_timespan p height) ts
   else Compact.modulated_pre_digishield (Doge.pow_target_timespan p height) ts height)
  = Ret (doge_timespan p height ts).
Proof.
  intros Hp Hn Hts. unfold doge_timespan. rewrite doge_target_timespan by done.
  unfold in_i in *. destruct (Doge.is_digishield_activated p height).
  - specialize (Hts eq_refl). unfold Compact.modulated_digishield. rewrite (arith_i_small 64 (ts - 60)) by done. msimpl.
    pose proof (Z.quot_rem' (ts - 60) 8). pose proof (Z.rem_bound_abs (ts - 60) 8).
    rewrite (arith_i_small 64 (60 + Z.quot (ts - 60) 8)). 2:{ unfold in_i; change (2 ^ (64 - 1)) with (2 ^ 63) in *. lia. }
    msimpl.
    rewrite arith_i_small by done. msimpl. rewrite arith_i_small by done. msimpl.
    by rewrite clamp_chk_ret by done.
  - unfold Compact.modulated_pre_digishield. zcases; by rewrite clamp_chk_ret.
Qed.

Lemma doge_timespan_bounds p height ts : doge_params p -> Doge.no_pow_retargeting p = false ->
  if Doge.is_digishield_activated p height then 45 <= doge_timespan p height ts <= 90
  else (if height <=? 5000 then 900 else if height <=? 10000 then 1800 else 3600)
         <= doge_timespan p height ts <= 57600.
Proof.
  intros Hp Hn. unfold doge_timespan. rewrite doge_target_timespan by done.
  destruct (Doge.is_digishield_activated p height); [by apply clamp_bounds|].
  zcases; by apply clamp_bounds.
Qed.

Lemma doge_max_small p : doge_params p -> Doge.no_pow_retargeting p = false ->
  target_val (Doge.max_attainable_target p) < 2 ^ 236.
Proof. by destruct 1. Qed.

(** The subtraction of the Digishield target timespan overflows for the 60 smallest
    timespans. *)
Definition doge_underflow (p : Doge.Params) (height ts : Z) : bool :=
  Doge.is_digishield_activated p height && (ts <? - 2 ^ 63 + 60).

Lemma doge_modulated_underflow p height ts : doge_params p -> Doge.no_pow_retargeting p = false ->
  in_i 64 ts -> doge_underflow p height ts = true ->
  (if Doge.is_digishield_activated p height
   then Compact.modulated_digishield (Doge.pow_target_timespan p height) ts
   else Compact.modulated_pre_digishield (Doge.pow_target_timespan p height) ts height)
  = if debug_assertions then Panic else Ret 90.
Proof.
  intros Hp Hn Hts Hu. apply andb_true_iff in Hu as [Hd Hu%Z.ltb_lt]. rewrite doge_target_timespan by done. rewrite Hd.
  unfold in_i in Hts. change (2 ^ (64 - 1)) with (2 ^ 63) in Hts. unfold Compact.modulated_digishield.
  assert (arith_i 64 (ts - 60) = if debug_assertions then Panic else Ret (ts - 60 + 2 ^ 64)) as ->.
  { unfold arith_i. destruct (in_ib 64 (ts - 60)) eqn:E.
    { unfold in_ib in E. apply andb_true_iff in E as [E%Z.leb_le _]. change (2 ^ (64 - 1)) with (2 ^ 63) in E. lia. }
    destruct debug_assertions; [done|]. f_equal. unfold swrap. change (2 ^ (64 - 1)) with (2 ^ 63).
    replace (ts - 60 + 2 ^ 63) with (ts - 60 + 2 ^ 63 + 2 ^ 64 + (-1) * 2 ^ 64) by lia.
    rewrite Z.mod_add, Z.mod_small by lia. lia. }
  destruct debug_assertions; [done|]. msimpl.
  pose proof (Z.quot_div_nonneg (ts - 60 + 2 ^ 64) 8 ltac:(lia) ltac:(lia)) as ->.
  pose proof (Z.div_mod (ts - 60 + 2 ^ 64) 8 ltac:(lia)). pose proof (Z.mod_pos_bound (ts - 60 + 2 ^ 64) 8 ltac:(lia)).
  rewrite (arith_i_small 64 (60 + (ts - 60 + 2 ^ 64) / 8)). 2:{ unfold in_i; change (2 ^ (64 - 1)) with (2 ^ 63). lia. }
  msimpl. rewrite arith_i_small by done. msimpl. rewrite arith_i_small by done. msimpl.
  rewrite clamp_chk_ret by done. f_equal. change (60 - Z.shiftr 60 2) with 45. change (60 + Z.shiftr 60 1) with 90. unfold clamp. zcases; lia.
Qed.

(** The timespan used in the release build for every [i64]. *)
Definition doge_timespan_total (p : Doge.Params) (height ts : Z) : Z :=
  if doge_underflow p height ts then 90 else doge_timespan p height ts.

Lemma doge_timespan_total_bounds p height ts : doge_params p -> Doge.no_pow_retargeting p = false ->
  if Doge.is_digishield_activated p height then 45 <= doge_timespan_total p height ts <= 90
  else 900 <= doge_timespan_total p height ts <= 57600.
Proof.
  intros Hp Hn. pose proof (doge_timespan_bounds p height ts Hp Hn) as B. unfold doge_timespan_total, doge_underflow.
  destruct (Doge.is_digishield_activated p height); cbn [andb]; [zcases; lia|]. revert B. zcases; lia.
Qed.

(** The threshold never caps more than the network's maximum does. *)
Lemma doge_cap_redundant p height ts t : doge_params p -> Doge.no_pow_retargeting p = false -> target_wf t ->
  let q := target_val t * doge_timespan_total p height ts / Doge.pow_target_timespan p height in
  Z.min q (doge_max_threshold p height (target_val t)) = Z.min q (target_val (Doge.max_attainable_target p)).
Proof.
  intros Hp Hn Hw q. subst q. pose proof (val_range _ Hw) as R. fold (target_val t) in R.
  pose proof (doge_timespan_total_bounds p height ts Hp Hn) as B. rewrite doge_target_timespan by done. unfold doge_max_threshold.
  set (v := target_val t) in *. set (m := doge_timespan_total p height ts) in *.
  assert (v * m / (if Doge.is_digishield_activated p height then 60 else 14400)
          <= (if Doge.is_digishield_activated p height then v + v / 2 else 4 * v)); [|lia].
  destruct (Doge.is_digishield_activated p height).
  - replace (v + v / 2) with ((v + v * 2) / 2) by (rewrite Z.div_add by lia; lia).
    apply Z.div_le_lower_bound; [lia|]. pose proof (Z.div_mod (v * m) 60).
    pose proof (Z.mod_pos_bound (v * m) 60). nia.
  - apply Z.div_le_upper_bound; [lia|]. nia.
Qed.

(** The retarget once the timespan is known, for any previous target up to the network's
    maximum. *)
Lemma retarget_doge_from p height ts m last :
  doge_params p -> Doge.no_pow_retargeting p = false -> compact_wf last ->
  (if Doge.is_digishield_activated p height
   then Compact.modulated_digishield (Doge.pow_target_timespan p height) ts
   else Compact.modulated_pre_digishield (Doge.pow_target_timespan p height) ts height) = Ret m ->
  0 < m <= 57600 ->
  let v := target_val (Target.from_compact last) in
  v <= target_val (Doge.max_attainable_target p) ->
  exists x, Compact.from_next_work_required_dogecoin last ts p height =
              Ret (Target.to_compact_lossy x) /\ target_wf x /\
    target_val x = Z.min (v * m / Doge.pow_target_timespan p height)
                         (doge_max_threshold p height v).
Proof.
  intros Hp Hn Hl Hm B' v Hv. unfold Compact.from_next_work_required_dogecoin. rewrite Hn, Hm, bind_Ret.
  destruct (from_compact_spec last Hl) as [Hw _].
  pose proof (doge_max_small p Hp Hn). pose proof (val_range _ Hw) as R.
  fold (target_val (Target.from_compact last)) in R. fold v in R.
  destruct (max_threshold_doge_spec p height _ Hp Hw) as (mt & -> & Hmt & Vm); [fold v; lia|]. rewrite bind_Ret.
  assert (0 < Doge.pow_target_timespan p height <= 14400) as Brt.
  { rewrite doge_target_timespan by done. by destruct (Doge.is_digishield_activated _ _). }
  rewrite !wrap_small by (unfold in_u; lia).
  destruct (scale_and_cap (target_u256 (Target.from_compact last)) (target_u256 mt)
    m (Doge.pow_target_timespan p height)) as (y & Hy & Vy & E);
    try done; try (unfold in_u; lia).
  { fold (target_val (Target.from_compact last)). fold v. nia. }
  exists (mkTarget y). destruct mt as [mt]; cbn [target_u256] in *. rewrite E. split; [done|]. split; [done|].
  unfold target_val at 1; cbn [target_u256]. rewrite Vy. unfold target_val in Vm. cbn [target_u256] in *.
  rewrite Vm. done.
Qed.

Lemma retarget_doge_spec p height ts last :
  doge_params p -> Doge.no_pow_retargeting p = false -> compact_wf last ->
  in_i 64 (ts - 60) ->
  let v := target_val (Target.from_compact last) in
  v <= target_val (Doge.max_attainable_target p) ->
  exists x, Compact.from_next_work_required_dogecoin last ts p height =
              Ret (Target.to_compact_lossy x) /\ target_wf x /\
    target_val x = Z.min (v * doge_timespan p height ts / Doge.pow_target_timespan p height)
                         (doge_max_threshold p height v).
Proof.
  intros Hp Hn Hl Hts v Hv. apply retarget_doge_from; try done; [by apply doge_modulated_spec|].
  pose proof (doge_timespan_bounds p height ts Hp Hn) as B.
  revert B. destruct (Doge.is_digishield_activated p height); zcases; lia.
Qed.

End retarget_facts.

Section retarget_btc.
Context {bm : BuildMode}.

Lemma btc_timespan p : btc_params p -> Btc.pow_target_timespan p = 1209600.
Proof. destruct 1; intros; first [done | discriminate]. Qed.

(** On signet the largest product misses [2^256] by less than one part in 200,000. *)
Lemma btc_max_small p : btc_params p -> Btc.no_pow_retargeting p = false ->
  target_val (Btc.max_attainable_target p) * 4838400 < 2 ^ 256.
Proof. destruct 1; intros; first [done | discriminate]. Qed.

Lemma retarget_btc_spec p ts last :
  btc_params p -> Btc.no_pow_retargeting p = false -> compact_wf last ->
  let v := target_val (Target.from_compact last) in
  v <= target_val (Btc.max_attainable_target p) ->
  exists x, Compact.from_next_work_required last ts p = Ret (Target.to_compact_lossy x) /\
    target_wf x /\
    target_val x = Z.min (v * clamp ts 302400 4838400 / 1209600)
                         (Z.min (4 * v) (target_val (Btc.max_attainable_target p))).
Proof.
  intros Hp Hn Hl v Hv. unfold Compact.from_next_work_required. rewrite Hn.
  rewrite btc_timespan by done. rewrite clamp_chk_ret, bind_Ret by done.
  change (wrap 64 (Z.shiftl 1209600 2)) with 4838400. change (Z.shiftr 1209600 2) with 302400.
  destruct (from_compact_spec last Hl) as [Hw _].
  pose proof (btc_max_small p Hp Hn). pose proof (val_range _ Hw) as R.
  fold (target_val (Target.from_compact last)) in R. fold v in R.
  destruct (shl2_val _ Hw) as [Hs Vs]; [fold v; lia|].
  destruct (btc_max_target p Hp) as [Hm _]. destruct (min_target_val _ _ Hs Hm) as [Hx Vx].
  rewrite Vs in Vx. fold (Target.max_transition_threshold (Target.from_compact last) p) in Hx, Vx.
  pose proof (clamp_bounds ts 302400 4838400 ltac:(lia)).
  destruct (scale_and_cap (target_u256 (Target.from_compact last))
    (target_u256 (Target.max_transition_threshold (Target.from_compact last) p))
    (clamp ts 302400 4838400) 1209600) as (y & Hy & Vy & E); try done; try (unfold in_u; lia).
  { fold (target_val (Target.from_compact last)). fold v. nia. }
  exists (mkTarget y). destruct (Target.max_transition_threshold _ p) as [m]; cbn [target_u256] in *.
  rewrite E. split; [done|]. split; [done|]. unfold target_val at 1; cbn [target_u256]. rewrite Vy.
  unfold target_val at 1 in Vx; cbn [target_u256] in Vx. by rewrite Vx.
Qed.

End retarget_btc.

(** * Properties *)

(** [Target::to_work] never panics; the work of a target [t > 1] is
    [2^256 / (t + 1)] rounded down, the targets 0 and 1 have the maximal work, and a
    smaller target never has less work. *)
Lemma to_work_correct (t u : Target) : target_wf t -> target_wf u ->
  exists w x, Target.to_work t = Ret w /\ Target.to_work u = Ret x /\
    val (work_u256 w) = (if target_val t <=? 1 then 2 ^ 256 - 1 else 2 ^ 256 / (target_val t + 1)) /\
    (target_val t <= target_val u -> val (work_u256 x) <= val (work_u256 w)).
Proof.
  intros Ht Hu. unfold Target.to_work.
  destruct (inverse_spec _ Ht) as (w & -> & Hw & Vw), (inverse_spec _ Hu) as (x & -> & Hx & Vx).
  exists (mkWork w), (mkWork x). do 2 (split; [done|]). cbn [work_u256].
  fold (target_val t) in Vw. fold (target_val u) in Vx. split; [done|]. intros Hle.
  pose proof (val_range _ Ht) as R; fold (target_val t) in R.
  rewrite Vw, Vx. zcases; try lia.
  - pose proof (Z.div_le_upper_bound (2 ^ 256) (target_val u + 1) (2 ^ 256 - 1)). lia.
  - apply Z.div_le_compat_l; lia.
Qed.

(** The compact form is a truncation.  Decoding the compact form of any target
    gives back the target with its low [lossy_bits] bits cleared, hence a value not
    above the target and within one part in [2^15] of it; targets below [2^23] and
    targets whose low bytes are clear come back exactly.  In the other direction every
    normalised compact value (mantissa in [2^15, 2^23), exponent at least three, value
    below [2^256]) is a fixed point of decoding and encoding. *)
Lemma compact_encoding_truncates (t : Target) (c : CompactTarget) : target_wf t ->
  let v := target_val t in
  let v' := target_val (Target.from_compact (Target.to_compact_lossy t)) in
  v' = v / 2 ^ lossy_bits v * 2 ^ lossy_bits v /\
  v' <= v /\ 2 ^ 15 * (v - v') <= v /\
  (v < 2 ^ 23 \/ v mod 2 ^ lossy_bits v = 0 -> v' = v) /\
  (compact_canonical c -> Target.to_compact_lossy (Target.from_compact c) = c).
Proof.
  intros Ht v v'. destruct (compact_roundtrip_lossy t Ht) as [_ E]. fold v v' in E.
  pose proof (val_range _ Ht) as R; fold (target_val t) in R; fold v in R.
  assert (0 <= lossy_bits v) by (unfold lossy_bits; lia).
  pose proof (pow2_pos (lossy_bits v) ltac:(lia)) as P.
  pose proof (Z.div_mod v (2 ^ lossy_bits v) ltac:(lia)) as D.
  pose proof (Z.mod_pos_bound v (2 ^ lossy_bits v) P).
  split; [done|]. split; [lia|]. split_and!; [| |apply canonical_roundtrip].
  - destruct (Z.eq_dec v 0); [rewrite e in E; change (v' = 0) in E; lia|].
    destruct (lossy_bits_small v ltac:(lia)) as [L|L]; [lia|].
    rewrite L in E. change (2 ^ 0) with 1 in E. rewrite Z.div_1_r in E. lia.
  - intros [Hs|Hz]; [|lia].
    assert (lossy_bits v = 0) as L.
    { unfold lossy_bits. pose proof (bit_length_le v 23 ltac:(lia) ltac:(lia)).
      pose proof (bit_length_nonneg v). pose proof (Z.div_mod (bit_length v) 8).
      pose proof (Z.mod_pos_bound (bit_length v) 8). lia. }
    rewrite L in E. change (2 ^ 0) with 1 in E. rewrite Z.div_1_r in E. lia.
Qed.

(** C1: the Dogecoin difficulty adjustment, on every network that retargets.  From a
    previous target of at most the network's maximum, for every height and every [i64]
    timespan, it returns without panicking, in both builds, the compact form of
    [min (prev * m / rt) max], where [rt] is the target timespan at the height and [m] the
    damped and clamped (Digishield) or clamped (earlier) timespan.  The exception are the
    timespans below [i64::MIN + 60] under Digishield, whose difference with the target
    timespan overflows: the debug build panics, and the release build wraps around and uses
    the longest timespan, 90 seconds. *)
Theorem dogecoin_retarget_exact {bm : BuildMode} (p : Doge.Params) (height ts : Z) (last : CompactTarget) :
  doge_params p -> Doge.no_pow_retargeting p = false -> compact_wf last -> in_i 64 ts ->
  target_val (Target.from_compact last) <= target_val (Doge.max_attainable_target p) ->
  if doge_underflow p height ts && debug_assertions
  then Compact.from_next_work_required_dogecoin last ts p height = Panic
  else exists x, Compact.from_next_work_required_dogecoin last ts p height =
                   Ret (Target.to_compact_lossy x) /\ target_wf x /\
         target_val x =
           Z.min (target_val (Target.from_compact last) *
                    (if doge_underflow p height ts then 90 else doge_timespan p height ts)
                    / Doge.pow_target_timespan p height)
                 (target_val (Doge.max_attainable_target p)).
Proof.
  intros Hp Hn Hl Hts Hv. destruct (doge_underflow p height ts && debug_assertions) eqn:Eo.
  - apply andb_true_iff in Eo as [Hu Hb]. pose proof (doge_modulated_underflow p height ts Hp Hn Hts Hu) as E.
    rewrite Hb in E. unfold Compact.from_next_work_required_dogecoin. by rewrite Hn, E.
  - fold (doge_timespan_total p height ts). pose proof (doge_timespan_total_bounds p height ts Hp Hn) as B.
    rewrite <- (doge_cap_redundant p height _ _ Hp Hn) by (try done; by apply from_compact_spec).
    apply retarget_doge_from; try done.
    + unfold doge_timespan_total. destruct (doge_underflow p height ts) eqn:Hu.
      * rewrite doge_modulated_underflow by done. cbn [andb] in Eo. by rewrite Eo.
      * apply doge_modulated_spec; try done. intros Hd. unfold doge_underflow in Hu. rewrite Hd in Hu.
        apply Z.ltb_ge in Hu. unfold in_i in *. change (2 ^ (64 - 1)) with (2 ^ 63) in *. lia.
    + revert B. destruct (Doge.is_digishield_activated p height); lia.
Qed.

Lemma dogecoin_retarget_exact_witness :
  (exists x, Compact.from_next_work_required_dogecoin (bm := true) (mkCompact 0x1b0404cb) (-1000)
               Doge.MAINNET 145000 = Ret (Target.to_compact_lossy x) /\ target_wf x /\
     target_val x = Z.min (target_val (Target.from_compact (mkCompact 0x1b0404cb)) * 45 / 60)
                          (target_val TargetConst.MAX_ATTAINABLE_MAINNET_DOGE)) /\
  Compact.from_next_work_required_dogecoin (bm := true) (mkCompact 0x1b0404cb) (- 2 ^ 63) Doge.MAINNET 145000 = Panic.
Proof.
  split.
  - apply (dogecoin_retarget_exact (bm := true) Doge.MAINNET 145000 (-1000) (mkCompact 0x1b0404cb));
      [constructor|vm_compute; intuition congruence..].
  - apply (dogecoin_retarget_exact (bm := true) Doge.MAINNET 145000 (- 2 ^ 63) (mkCompact 0x1b0404cb));
      [constructor|vm_compute; intuition congruence..].
Defined.

(** The transition thresholds bound the Dogecoin adjustment.  The target the
    adjustment computes (before its compact rounding) lies between
    [min_transition_threshold_dogecoin] and [max_transition_threshold_dogecoin] of
    the previous target, both of which return without panicking; under Digishield the
    lower bound needs a previous target divisible by four, which every compact target
    of exponent at least four is. *)
Lemma dogecoin_retarget_within_thresholds {bm : BuildMode}
    (p : Doge.Params) (height ts : Z) (last : CompactTarget) :
  doge_params p -> Doge.no_pow_retargeting p = false -> compact_wf last -> in_i 64 (ts - 60) ->
  let prev := Target.from_compact last in
  target_val prev <= target_val (Doge.max_attainable_target p) ->
  target_val prev mod 4 = 0 ->
  exists lo hi x,
    Target.min_transition_threshold_dogecoin prev p height = Ret lo /\
    Target.max_transition_threshold_dogecoin prev p height = Ret hi /\
    Compact.from_next_work_required_dogecoin last ts p height = Ret (Target.to_compact_lossy x) /\
    target_val lo <= target_val x <= target_val hi.
Proof.
  intros Hp Hn Hl Hts prev Hv Hmod.
  destruct (from_compact_spec last Hl) as [Hw _]. fold prev in Hw. pose proof (val_range _ Hw) as R.
  fold (target_val prev) in R. pose proof (doge_max_small p Hp Hn).
  destruct (min_threshold_doge_spec p height prev Hw) as (lo & Elo & _ & Vlo).
  destruct (max_threshold_doge_spec p height prev Hp Hw ltac:(lia)) as (hi & Ehi & _ & Vhi).
  destruct (retarget_doge_spec p height ts last Hp Hn Hl Hts Hv) as (x & E & _ & V).
  exists lo, hi, x. do 3 (split; [done|]). rewrite Vlo, Vhi, V. fold prev. split; [|lia].
  pose proof (doge_timespan_bounds p height ts Hp Hn) as B. rewrite doge_target_timespan by done.
  unfold doge_min_threshold, doge_max_threshold. set (v := target_val prev) in *.
  set (m := doge_timespan p height ts) in *.
  pose proof (Z.div_mod v 4). pose proof (Z.div_mod v 2). pose proof (Z.mod_pos_bound v 2).
  destruct (Doge.is_digishield_activated p height).
  - assert (v - v / 4 <= v * m / 60) by (apply Z.div_le_lower_bound; nia). lia.
  - pose proof (Z.div_mod v 16). pose proof (Z.mod_pos_bound v 16).
    pose proof (Z.div_mod v 8). pose proof (Z.mod_pos_bound v 8).
    revert B. zcases; intros; apply Z.min_glb; first [lia | apply Z.div_le_lower_bound; nia].
Qed.

(** The Bitcoin adjustment, on every network that retargets: from a previous
    target of at most the maximum it returns, in both builds, the compact form of
    the previous target scaled by the timespan clamped to a factor of four either
    way, capped at four times the previous target and at the maximum. *)
Lemma bitcoin_retarget_exact {bm : BuildMode} (p : Btc.Params) (ts : Z) (last : CompactTarget) :
  btc_params p -> Btc.no_pow_retargeting p = false -> compact_wf last ->
  target_val (Target.from_compact last) <= target_val (Btc.max_attainable_target p) ->
  exists x, Compact.from_next_work_required last ts p = Ret (Target.to_compact_lossy x) /\
    target_wf x /\
    target_val x =
      Z.min (target_val (Target.from_compact last) * clamp ts 302400 4838400 / 1209600)
            (Z.min (4 * target_val (Target.from_compact last))
                   (target_val (Btc.max_attainable_target p))).
Proof. apply retarget_btc_spec. Qed.

(** [Target::from_compact] on every 32-bit value.  From exponent three on, a
    mantissa with its sign bit set gives the zero target and any other is shifted by
    [8 * (exponent - 3)] modulo 256; below exponent three the sign bit is not
    looked at.  Hence the negative compact value [0x01fedcba] decodes to [0xfe], and
    exponents above 34, whose value exceeds 256 bits, wrap around to small targets. *)
Lemma from_compact_exact (c : CompactTarget) : compact_wf c ->
  target_wf (Target.from_compact c) /\
  target_val (Target.from_compact c) = from_compact_val (compact_exp c) (compact_mant c) /\
  target_val (Target.from_compact (mkCompact 0x01fedcba)) = 0xfe /\
  target_val (Target.from_compact (mkCompact 0x23000001)) = 1.
Proof.
  intros Hc. destruct (from_compact_spec c Hc) as [H1 H2].
  split; [exact H1|]. split; [exact H2|]. split; vm_compute; reflexivity.
Qed.

(** The compact rounding can take a Digishield adjustment below
    [min_transition_threshold_dogecoin]: from the compact target [0x1c7fffff] with
    the smallest allowed timespan, the required new compact target decodes to less
    than the threshold of the old one. *)
Lemma retarget_below_min_threshold (bm : BuildMode) :
  exists lo new,
    Target.min_transition_threshold_dogecoin (Target.from_compact (mkCompact 0x1c7fffff))
      Doge.MAINNET 145000 = Ret lo /\
    Compact.from_next_work_required_dogecoin (mkCompact 0x1c7fffff) (-60) Doge.MAINNET 145000
      = Ret new /\
    target_val (Target.from_compact new) < target_val lo.
Proof.
  exists (mkTarget (mkU256 (0x5fffff40 * 2 ^ 64) 0)), (mkCompact 0x1c5fffff).
  destruct bm; vm_compute; done.
Qed.
