(* ===== verification/Io.v ===== *)
(** * Readers ([io/src/lib.rs])

    The [Read] trait and its in-memory implementations: byte slices, [Cursor] and
    the limiting adapter [Take].  The class [Reader] states what an implementation
    promises: the bytes it can still yield ([contents]) and that [read] hands out a
    prefix of them.  [read_exact] is proved once, against the class. *)

From Stdlib Require Import ZArith Lia.
From coqutil Require Import Byte.
From stdpp Require Import base tactics option list numbers.
From S2P Require Import Prelude.

Inductive ErrorKind := UnexpectedEof.

#[export] Instance ErrorKind_eq_dec : EqDecision ErrorKind.
Proof. solve_decision. Defined.

(** [read r n] fills a buffer of [n] bytes as far as it can: it returns the bytes it
    wrote and the advanced reader.  In-memory readers do not fail. *)
Class Reader (R : Type) := {
  read : R -> nat -> list byte * R;
  contents : R -> list byte;
  reader_ok : R -> Prop;
  read_spec : forall r n, reader_ok r ->
    fst (read r n) = take n (contents r) /\
    contents (snd (read r n)) = drop n (contents r) /\
    reader_ok (snd (read r n));
}.

(** ** [impl Read for &[u8]] *)

Definition slice_read (self : list byte) (n : nat) : list byte * list byte :=
  let cnt := Nat.min (length self) n in (take cnt self, drop cnt self).

#[export] Program Instance slice_Reader : Reader (list byte) := {|
  read := slice_read; contents := id; reader_ok := fun _ => True |}.
Next Obligation.
  intros self n _. unfold slice_read, id; simpl.
  destruct (Nat.le_ge_cases (length self) n).
  - rewrite Nat.min_l by done. by rewrite !take_ge, !drop_ge by lia.
  - by rewrite Nat.min_r by done.
Qed.

(** ** [Take] *)

Record Take (R : Type) := mkTake { reader : R; remaining : N }.
Arguments mkTake {R} _ _.
Arguments reader {R} _.
Arguments remaining {R} _.

(** [Read::take] *)
Definition take_reader {R} (self : R) (limit : N) : Take R := mkTake self limit.

Definition Take_read `{Reader R} (self : Take R) (n : nat) : list byte * Take R :=
  let len := N.to_nat (N.min (N.of_nat n) (remaining self)) in
  let '(buf, inner) := read (reader self) len in
  (buf, mkTake inner (remaining self - N.of_nat (length buf))).

#[export] Program Instance Take_Reader `{Reader R} : Reader (Take R) := {|
  read := Take_read;
  contents := fun self => take (N.to_nat (remaining self)) (contents (reader self));
  reader_ok := fun self => reader_ok (reader self) |}.
Next Obligation.
  intros R HR [inner rem] n Hok; simpl in *. unfold Take_read; simpl.
  replace (N.to_nat (N.min (N.of_nat n) rem)) with (Nat.min n (N.to_nat rem)) by lia.
  destruct (read_spec inner (Nat.min n (N.to_nat rem)) Hok) as (Hb & Hc & Hok').
  destruct (read inner (Nat.min n (N.to_nat rem))) as [buf inner']; simpl in *.
  rewrite take_take. split; [done|]. split; [|done].
  rewrite Hc, Hb, length_take.
  rewrite skipn_firstn_comm.
  destruct (Nat.le_ge_cases (Nat.min n (N.to_nat rem)) (length (contents inner))) as [Hl|Hl].
  - replace (N.to_nat (rem - N.of_nat (Nat.min (Nat.min n (N.to_nat rem)) (length (contents inner)))))
      with (N.to_nat rem - Nat.min n (N.to_nat rem)) by lia.
    destruct (Nat.le_ge_cases n (N.to_nat rem)).
    + by rewrite Nat.min_l by done.
    + rewrite Nat.min_r by done. replace (N.to_nat rem - n) with 0 by lia.
      by rewrite Nat.sub_diag.
  - rewrite (drop_ge (contents inner) (Nat.min _ _)) by done. rewrite take_nil.
    destruct (Nat.le_ge_cases n (N.to_nat rem)).
    + rewrite drop_ge by lia. by rewrite take_nil.
    + by replace (N.to_nat rem - n) with 0 by lia.
Qed.

(** ** [Cursor] *)

Record Cursor := mkCursor { inner : list byte; pos : N }.

Definition Cursor_new (inner : list byte) : Cursor := mkCursor inner 0.
Definition position (self : Cursor) : N := pos self.

(** [pos.try_into()] cannot fail on a 64-bit [usize]; [pos] saturates at [u64::MAX].
    The slice expression of the source needs [pos] within the buffer, which
    [reader_ok] of the instance below says and [read] preserves. *)
Definition Cursor_read (self : Cursor) (n : nat) : list byte * Cursor :=
  let start_pos := N.to_nat (pos self) in
  let rd := Nat.min (length (inner self) - start_pos) n in
  (take rd (drop start_pos (inner self)),
   mkCursor (inner self) (N.min (pos self + N.of_nat rd) (2 ^ 64 - 1))).

#[export] Program Instance Cursor_Reader : Reader Cursor := {|
  read := Cursor_read;
  contents := fun self => drop (N.to_nat (pos self)) (inner self);
  reader_ok := fun self =>
    (N.of_nat (length (inner self)) < 2 ^ 64 /\ pos self <= N.of_nat (length (inner self)))%N |}.
Next Obligation.
  intros [bs p] n [Hlen Hp]; simpl in *. unfold Cursor_read; simpl.
  set (s := N.to_nat p). rewrite N.min_l by lia.
  split; [|split; [|lia]].
  - destruct (Nat.le_ge_cases n (length bs - s)).
    + by rewrite Nat.min_r by done.
    + rewrite Nat.min_l by done. by rewrite !take_ge by (rewrite length_drop; lia).
  - rewrite drop_drop. replace (N.to_nat (p + N.of_nat (Nat.min (length bs - s) n)))
      with (s + Nat.min (length bs - s) n) by lia.
    destruct (Nat.le_ge_cases n (length bs - s)).
    + by rewrite Nat.min_r by done.
    + by rewrite !drop_ge by lia.
Qed.

(** ** [Read::read_exact] *)

Section read_exact.
Context `{Reader R}.

(** The loop until the buffer is full; [len] counts the bytes still missing, and an
    iteration that does not stop reads at least one of them. *)
Fixpoint read_exact_loop (fuel : nat) (self : R) (len : nat) (buf : list byte) :
    Result ErrorKind (list byte * R) :=
  if len =? 0 then Ok (buf, self)
  else match fuel with
       | 0 => Err UnexpectedEof
       | S fuel =>
           let '(bs, self') := read self len in
           match bs with
           | [] => Err UnexpectedEof
           | _ => read_exact_loop fuel self' (len - length bs) (buf ++ bs)
           end
       end%nat.

Definition read_exact (self : R) (len : nat) : Result ErrorKind (list byte * R) :=
  read_exact_loop len self len [].

Lemma read_exact_loop_spec fuel : forall self len buf, reader_ok self -> len <= fuel ->
  match read_exact_loop fuel self len buf with
  | Ok (bs, self') =>
      len <= length (contents self) /\ bs = buf ++ take len (contents self) /\
      contents self' = drop len (contents self) /\ reader_ok self'
  | Err _ => length (contents self) < len
  end.
Proof.
  induction fuel as [|fuel IH]; intros self len buf Hok Hf; simpl.
  - destruct (Nat.eqb_spec len 0) as [->|]; [|lia]. rewrite app_nil_r. split; [lia|done].
  - destruct (Nat.eqb_spec len 0) as [->|]; [rewrite app_nil_r; split; [lia|done]|].
    destruct (read_spec self len Hok) as (Hb & Hc & Hok').
    destruct (read self len) as [bs self'] eqn:E; simpl in *.
    assert (length bs = Nat.min len (length (contents self))) as Hl
      by (by rewrite Hb, length_take).
    destruct bs as [|b bs']; [simpl in Hl; lia|].
    assert (1 <= length (b :: bs')) as H1 by (simpl; lia).
    remember (b :: bs') as bs eqn:Ebs. clear Ebs.
    specialize (IH self' (len - length bs) (buf ++ bs) Hok' ltac:(lia)).
    rewrite Hc, length_drop in IH.
    destruct (read_exact_loop fuel self' _ _) as [[out self'']|]; [|lia].
    destruct IH as (Hle & -> & Hc' & Hok'').
    assert (len <= length (contents self)) by lia.
    replace (len - length bs) with 0 in * by lia.
    rewrite take_0, app_nil_r, Hb. rewrite drop_0 in Hc'. done.
Qed.

(** [read_exact] returns exactly the next [len] bytes, or fails when fewer are left;
    it never runs out of iterations. *)
Lemma read_exact_spec self len : reader_ok self ->
  match read_exact self len with
  | Ok (bs, self') =>
      len <= length (contents self) /\ bs = take len (contents self) /\
      contents self' = drop len (contents self) /\ reader_ok self'
  | Err _ => length (contents self) < len
  end.
Proof. intros. by apply (read_exact_loop_spec len self len []). Qed.
End read_exact.
