(* ===== verification/Encode.v ===== *)
(** * Consensus encoding ([consensus/encode.rs], [internal_macros.rs])

    The [Encodable] and [Decodable] traits and their implementations for primitive
    types, [VarInt], byte arrays and vectors.  A decoder is a computation on an
    arbitrary [Reader], as in the source; [Natural] says that its outcome depends only
    on the bytes the reader holds.  The class [Codec] states what an implementation
    promises to the types built from it: the returned length is the number of bytes
    written, decoding inverts encoding, and only the canonical encoding is accepted. *)

From Stdlib Require Import ZArith Lia String.
From coqutil Require Import Byte Word.LittleEndianList.
From stdpp Require Import base tactics option list numbers.
From S2P Require Import Prelude Io.

#[local] Open Scope Z_scope.

(** ** Errors *)

Inductive Error :=
| EIo (e : ErrorKind)
| OversizedVectorAllocation (requested max : Z)
| InvalidChecksum (expected actual : list byte)
| NonMinimalVarInt
| ParseFailed (msg : string)
| UnsupportedSegwitFlag (flag : Z).

#[export] Instance Error_eq_dec : EqDecision Error.
Proof.
  pose proof String.string_dec. intros x y. unfold Decision. decide equality;
    try apply Z.eq_dec; try apply (decide _); try apply list_eq_dec; solve_decision.
Defined.

Definition MAX_VEC_SIZE : Z := 4000000.

(** ** The decoder monad: reader in, value and advanced reader out *)

Definition Decoder (A : Type) : Type :=
  forall R (HR : Reader R), R -> Result Error (A * R).

#[export] Instance Decoder_ret : MRet Decoder := fun A a R HR r => Ok (a, r).
#[export] Instance Decoder_bind : MBind Decoder := fun A B k d R HR r =>
  match d R HR r with Ok (a, r') => k a R HR r' | Err e => Err e end.
#[export] Instance Decoder_fmap : FMap Decoder := fun A B f d R HR r =>
  match d R HR r with Ok (a, r') => Ok (f a, r') | Err e => Err e end.

Definition dfail {A} (e : Error) : Decoder A := fun R HR r => Err e.

(** [ReadExt::read_slice] on a buffer of [n] bytes. *)
Definition read_slice (n : nat) : Decoder (list byte) := fun R HR r =>
  map_err EIo (read_exact r n).

(** [f(&mut reader.take(limit))] *)
Definition with_take {A} (limit : Z) (d : Decoder A) : Decoder A := fun R HR r =>
  match d (Take R) Take_Reader (take_reader r (Z.to_N limit)) with
  | Ok (a, t) => Ok (a, reader t)
  | Err e => Err e
  end.

(** [for _ in 0..n { step }], stopping at the first error.  Binary recursion on the
    trip count, so that evaluation needs as many steps as items are really decoded. *)
Fixpoint for_pos {S} (p : positive) (step : S -> Decoder S) (s : S) : Decoder S :=
  match p with
  | xH => step s
  | xO p => s ← for_pos p step s; for_pos p step s
  | xI p => s ← step s; s ← for_pos p step s; for_pos p step s
  end.

Definition for_ {S} (n : Z) (step : S -> Decoder S) (s : S) : Decoder S :=
  match n with Zpos p => for_pos p step s | _ => mret s end.

(** A [while] loop with early exit: [inl] continues, [inr] leaves the loop. *)
Fixpoint while_pos {S A} (p : positive) (body : S -> Decoder (S + A)) (s : S) :
    Decoder (S + A) :=
  match p with
  | xH => body s
  | xO p => o ← while_pos p body s;
            match o with inl s => while_pos p body s | inr a => mret (inr a) end
  | xI p => o ← body s;
            match o with
            | inl s => o ← while_pos p body s;
                       match o with inl s => while_pos p body s | inr a => mret (inr a) end
            | inr a => mret (inr a)
            end
  end.

(** ** The bytes a decoder sees *)

(** The decoder run on a byte slice. *)
Definition on_slice {A} (d : Decoder A) (bs : list byte) : Result Error (A * list byte) :=
  d (list byte) slice_Reader bs.

(** Two readers that answer every [read] alike, now and ever after. *)
Definition same_reads {R1 R2} (HR1 : Reader R1) (HR2 : Reader R2) (Q : R1 -> R2 -> Prop) :=
  forall r1 r2 n, Q r1 r2 ->
    fst (read r1 n) = fst (read r2 n) /\ Q (snd (read r1 n)) (snd (read r2 n)).

Definition same_outcome {A R1 R2} (Q : R1 -> R2 -> Prop)
    (o1 : Result Error (A * R1)) (o2 : Result Error (A * R2)) : Prop :=
  match o1, o2 with
  | Ok (a1, r1), Ok (a2, r2) => a1 = a2 /\ Q r1 r2
  | Err e1, Err e2 => e1 = e2
  | _, _ => False
  end.

(** A decoder observes its reader through [read] alone. *)
Class Natural {A} (d : Decoder A) : Prop :=
  natural : forall R1 R2 HR1 HR2 (Q : R1 -> R2 -> Prop),
    same_reads HR1 HR2 Q -> forall r1 r2, Q r1 r2 ->
    same_outcome Q (d R1 HR1 r1) (d R2 HR2 r2).

#[export] Instance natural_ret {A} (a : A) : Natural (mret a).
Proof. intros R1 R2 HR1 HR2 Q HQ r1 r2 Hr. done. Qed.

#[export] Instance natural_fail {A} e : Natural (@dfail A e).
Proof. intros R1 R2 HR1 HR2 Q HQ r1 r2 Hr. done. Qed.

#[export] Instance natural_bind {A B} (d : Decoder A) (k : A -> Decoder B) :
  Natural d -> (forall a, Natural (k a)) -> Natural (d ≫= k).
Proof.
  intros Hd Hk R1 R2 HR1 HR2 Q HQ r1 r2 Hr. specialize (Hd _ _ _ _ Q HQ r1 r2 Hr).
  unfold mbind, Decoder_bind.
  destruct (d R1 HR1 r1) as [[a r1']|], (d R2 HR2 r2) as [[a' r2']|]; simpl in Hd; try done.
  destruct Hd as [<- Hr']. by apply Hk.
Qed.

#[export] Instance natural_fmap {A B} (f : A -> B) (d : Decoder A) :
  Natural d -> Natural (f <$> d).
Proof.
  intros Hd R1 R2 HR1 HR2 Q HQ r1 r2 Hr. specialize (Hd _ _ _ _ Q HQ r1 r2 Hr).
  unfold fmap, Decoder_fmap.
  destruct (d R1 HR1 r1) as [[a r1']|], (d R2 HR2 r2) as [[a' r2']|]; simpl in *; try done.
  naive_solver.
Qed.

#[export] Instance natural_if {A} (b : bool) (d1 d2 : Decoder A) :
  Natural d1 -> Natural d2 -> Natural (if b then d1 else d2).
Proof. by destruct b. Qed.

Lemma same_reads_exact {R1 R2} {HR1 : Reader R1} {HR2 : Reader R2} Q fuel :
  same_reads HR1 HR2 Q -> forall r1 r2 len buf, Q r1 r2 ->
  same_outcome Q (map_err EIo (read_exact_loop fuel r1 len buf))
                 (map_err EIo (read_exact_loop fuel r2 len buf)).
Proof.
  intros HQ. induction fuel as [|fuel IH]; intros r1 r2 len buf Hr; simpl.
  - by destruct (len =? 0)%nat.
  - destruct (len =? 0)%nat; [done|]. destruct (HQ r1 r2 len Hr) as [Hf Hs].
    destruct (read r1 len) as [b1 r1'], (read r2 len) as [b2 r2']; simpl in *; subst.
    destruct b2; [done|]. by apply IH.
Qed.

#[export] Instance natural_read_slice n : Natural (read_slice n).
Proof. intros R1 R2 HR1 HR2 Q HQ r1 r2 Hr. by apply same_reads_exact. Qed.

#[export] Instance natural_with_take {A} limit (d : Decoder A) :
  Natural d -> Natural (with_take limit d).
Proof.
  intros Hd R1 R2 HR1 HR2 Q HQ r1 r2 Hr. unfold with_take.
  specialize (Hd (Take R1) (Take R2) _ _
    (fun t1 t2 => Q (reader t1) (reader t2) /\ remaining t1 = remaining t2)).
  specialize (Hd ltac:(
    intros [q1 m1] [q2 m2] n [Hq Hm]; simpl in *; subst; unfold Take_read; simpl;
    destruct (HQ q1 q2 (N.to_nat (N.min (N.of_nat n) m2)) Hq) as [Hf Hs];
    destruct (read q1 _) as [b1 q1'], (read q2 _) as [b2 q2']; simpl in *; by subst)
    (take_reader r1 (Z.to_N limit)) (take_reader r2 (Z.to_N limit)) (conj Hr eq_refl)).
  destruct (d (Take R1) _ _) as [[a t1]|], (d (Take R2) _ _) as [[a' t2]|];
    simpl in *; try done. naive_solver.
Qed.

#[export] Instance natural_for_pos {S} p (step : S -> Decoder S) s :
  (forall s, Natural (step s)) -> Natural (for_pos p step s).
Proof. intros Hs. revert s. induction p; intros s; simpl; apply _. Qed.

#[export] Instance natural_for {S} n (step : S -> Decoder S) s :
  (forall s, Natural (step s)) -> Natural (for_ n step s).
Proof. intros. destruct n; apply _. Qed.

#[export] Instance natural_while_pos {S A} p (body : S -> Decoder (S + A)) s :
  (forall s, Natural (body s)) -> Natural (while_pos p body s).
Proof.
  intros Hb. revert s. induction p; intros s; simpl; [| |apply Hb].
  all: repeat first [apply natural_bind | apply Hb | apply IHp | apply natural_ret | case_match
                    | progress intros ].
Qed.

(** *** What naturality gives *)

(** The decoder on a reader does what it does on the slice of the reader's bytes,
    for every relation between the reader and its bytes that [read] maintains. *)
Lemma natural_contents {A R} {HR : Reader R} (d : Decoder A) `{!Natural d}
    (I : R -> Prop) (r : R) :
  (forall r n, reader_ok r -> I r -> I (snd (read r n))) ->
  reader_ok r -> I r ->
  match d R HR r with
  | Ok (a, r') => on_slice d (contents r) = Ok (a, contents r') /\ reader_ok r' /\ I r'
  | Err e => on_slice d (contents r) = Err e
  end.
Proof.
  intros HI Hok Hr.
  pose proof (natural (d:=d) R (list byte) HR slice_Reader
    (fun r b => b = contents r /\ reader_ok r /\ I r)) as H.
  unshelve epose proof (H _ r (contents r) _) as Ho; [|done|].
  - intros r1 b n (-> & Hok1 & Hi).
    destruct (read_spec r1 n Hok1) as (Hf & Hc & Hok2).
    destruct (@read_spec _ slice_Reader (contents r1) n Logic.I) as (Hf' & Hc' & _).
    simpl in Hf', Hc'. unfold id in Hc', Hf'. simpl. rewrite Hf, Hf', Hc', Hc. auto.
  - unfold on_slice. destruct (d R HR r) as [[a r']|e], (d (list byte) _ _) as [[a' b']|e'];
      simpl in Ho; try done; naive_solver.
Qed.

(** A [Take] adapter exposes the first [limit] bytes and leaves the others alone. *)
Lemma on_slice_with_take {A} (d : Decoder A) `{!Natural d} limit bs :
  on_slice (with_take limit d) bs =
    match on_slice d (take (Z.to_nat limit) bs) with
    | Ok (a, rest) => Ok (a, rest ++ drop (Z.to_nat limit) bs)
    | Err e => Err e
    end.
Proof.
  set (L := Z.to_nat limit). set (s := drop L bs).
  pose proof (natural (d:=d) (Take (list byte)) (list byte) _ slice_Reader
    (fun t b => reader t = b ++ s /\
       (N.to_nat (remaining t) = length b \/ s = [] /\ (length b <= N.to_nat (remaining t))%nat))) as H.
  unshelve epose proof (H _ (take_reader bs (Z.to_N limit)) (take L bs) _) as Ho.
  - intros [q m] b n [Hq Hm]; simpl in *; subst q. unfold Take_read, slice_read; simpl.
    set (k := N.to_nat (N.min (N.of_nat n) m)).
    assert (Nat.min (length (b ++ s)) k = Nat.min (length b) n) as Hk.
    { rewrite length_app. destruct Hm as [Hm|[-> Hm]]; simpl; lia. }
    rewrite Hk. rewrite take_app_le by lia. rewrite drop_app_le by lia.
    split; [done|]. split; [done|].
    rewrite length_take, length_drop.
    destruct Hm as [Hm|[-> Hm]]; [left; lia|right; split; [done|lia]].
  - simpl. split; [symmetry; apply take_drop|]. rewrite length_take.
    replace (N.to_nat (Z.to_N limit)) with L by lia.
    destruct (Nat.le_ge_cases L (length bs)); [left; lia|right].
    split; [by apply drop_ge|lia].
  - unfold with_take, on_slice in *.
    destruct (d (Take (list byte)) _ _) as [[a t]|e], (d (list byte) _ _) as [[a' b']|e'];
      simpl in Ho; try done.
    + by destruct Ho as [-> [-> _]].
    + by subst.
Qed.

Lemma on_slice_read_slice n bs :
  on_slice (read_slice n) bs =
    if (n <=? length bs)%nat then Ok (take n bs, drop n bs) else Err (EIo UnexpectedEof).
Proof.
  unfold on_slice, read_slice.
  pose proof (@read_exact_spec _ slice_Reader bs n Logic.I) as H.
  destruct (read_exact bs n) as [[out r']|e]; simpl in *; unfold id in *.
  - destruct H as (Hl & -> & -> & _). apply Nat.leb_le in Hl. by rewrite Hl.
  - apply Nat.leb_gt in H. rewrite H. by destruct e.
Qed.

Lemma on_slice_bind {A B} (d : Decoder A) (k : A -> Decoder B) bs :
  on_slice (d ≫= k) bs =
    match on_slice d bs with Ok (a, rest) => on_slice (k a) rest | Err e => Err e end.
Proof. done. Qed.

Lemma on_slice_fmap {A B} (f : A -> B) (d : Decoder A) bs :
  on_slice (f <$> d) bs =
    match on_slice d bs with Ok (a, rest) => Ok (f a, rest) | Err e => Err e end.
Proof. done. Qed.

Lemma on_slice_ret {A} (a : A) bs : on_slice (mret a) bs = Ok (a, bs).
Proof. done. Qed.

Lemma on_slice_bind_Ok {A B} (d : Decoder A) (k : A -> Decoder B) bs b rest :
  on_slice (d ≫= k) bs = Ok (b, rest) <->
  exists a bs', on_slice d bs = Ok (a, bs') /\ on_slice (k a) bs' = Ok (b, rest).
Proof.
  rewrite on_slice_bind. destruct (on_slice d bs) as [[a bs']|]; naive_solver.
Qed.

(** ** Loops on slices *)

Fixpoint for_nat {S} (n : nat) (step : S -> Decoder S) (s : S) : Decoder S :=
  match n with O => mret s | Datatypes.S n => s ← step s; for_nat n step s end.

Lemma for_nat_add {S} n m (step : S -> Decoder S) s bs :
  on_slice (for_nat (n + m) step s) bs =
  on_slice (s ← for_nat n step s; for_nat m step s) bs.
Proof.
  revert s bs. induction n as [|n IH]; intros s bs; simpl; [done|].
  rewrite !on_slice_bind. destruct (on_slice (step s) bs) as [[s' bs']|]; [|done].
  by rewrite IH, on_slice_bind.
Qed.

Lemma on_slice_bind_ext {A B} (d d' : Decoder A) (k k' : A -> Decoder B) bs :
  on_slice d bs = on_slice d' bs ->
  (forall a bs', on_slice (k a) bs' = on_slice (k' a) bs') ->
  on_slice (d ≫= k) bs = on_slice (d' ≫= k') bs.
Proof.
  intros Hd Hk. rewrite !on_slice_bind, Hd. destruct (on_slice d' bs) as [[a bs']|]; [|done].
  apply Hk.
Qed.

Lemma for_pos_nat {S} p (step : S -> Decoder S) s bs :
  on_slice (for_pos p step s) bs = on_slice (for_nat (Pos.to_nat p) step s) bs.
Proof.
  revert s bs. induction p as [p IH|p IH|]; intros s bs; cbn [for_pos].
  - rewrite Pos2Nat.inj_xI. cbn [for_nat].
    apply on_slice_bind_ext; [done|]. intros s' bs'.
    replace (2 * Pos.to_nat p)%nat with (Pos.to_nat p + Pos.to_nat p)%nat by lia.
    rewrite for_nat_add. by apply on_slice_bind_ext.
  - rewrite Pos2Nat.inj_xO.
    replace (2 * Pos.to_nat p)%nat with (Pos.to_nat p + Pos.to_nat p)%nat by lia.
    rewrite for_nat_add. by apply on_slice_bind_ext.
  - change (Pos.to_nat 1) with 1%nat. cbn [for_nat]. rewrite on_slice_bind.
    by destruct (on_slice (step s) bs) as [[??]|].
Qed.

Lemma for_spec {S} n (step : S -> Decoder S) s bs :
  on_slice (for_ n step s) bs = on_slice (for_nat (Z.to_nat n) step s) bs.
Proof. destruct n; [done|apply for_pos_nat|done]. Qed.

Fixpoint while_nat {S A} (n : nat) (body : S -> Decoder (S + A)) (s : S) : Decoder (S + A) :=
  match n with
  | O => mret (inl s)
  | Datatypes.S n =>
      o ← body s; match o with inl s => while_nat n body s | inr a => mret (inr a) end
  end.

Lemma while_nat_add {S A} n m (body : S -> Decoder (S + A)) s bs :
  on_slice (while_nat (n + m) body s) bs =
  on_slice (o ← while_nat n body s;
            match o with inl s => while_nat m body s | inr a => mret (inr a) end) bs.
Proof.
  revert s bs. induction n as [|n IH]; intros s bs; simpl; [done|].
  rewrite !on_slice_bind. destruct (on_slice (body s) bs) as [[[s'|a] bs']|]; [|done|done].
  by rewrite IH, on_slice_bind.
Qed.

Lemma while_pos_nat {S A} p (body : S -> Decoder (S + A)) s bs :
  on_slice (while_pos p body s) bs = on_slice (while_nat (Pos.to_nat p) body s) bs.
Proof.
  revert s bs. induction p as [p IH|p IH|]; intros s bs; cbn [while_pos].
  - rewrite Pos2Nat.inj_xI. cbn [while_nat].
    apply on_slice_bind_ext; [done|]. intros [s'|a] bs'; [|done].
    replace (2 * Pos.to_nat p)%nat with (Pos.to_nat p + Pos.to_nat p)%nat by lia.
    rewrite while_nat_add. apply on_slice_bind_ext; [done|]. by intros [].
  - rewrite Pos2Nat.inj_xO.
    replace (2 * Pos.to_nat p)%nat with (Pos.to_nat p + Pos.to_nat p)%nat by lia.
    rewrite while_nat_add. apply on_slice_bind_ext; [done|]. by intros [].
  - change (Pos.to_nat 1) with 1%nat. cbn [while_nat]. rewrite on_slice_bind.
    by destruct (on_slice (body s) bs) as [[[]?]|].
Qed.

(** ** The consensus traits *)

(** A type's [Encodable] and [Decodable] implementations.  [consensus_encode] gives the
    bytes appended to the writer and the length it returns (in-memory writers do not
    fail). *)
Record Consensus (A : Type) := {
  consensus_encode : A -> list byte * Z;
  consensus_decode_from_finite_reader : Decoder A;
  consensus_decode : Decoder A;
}.
Arguments consensus_encode {A} _ _.
Arguments consensus_decode_from_finite_reader {A} _.
Arguments consensus_decode {A} _.

(** The default method bodies: a type that implements only [consensus_decode], and one
    that implements only [consensus_decode_from_finite_reader]. *)
Definition simple {A} (enc : A -> list byte * Z) (dec : Decoder A) : Consensus A :=
  {| consensus_encode := enc; consensus_decode_from_finite_reader := dec;
     consensus_decode := dec |}.
Definition limited {A} (enc : A -> list byte * Z) (dec : Decoder A) : Consensus A :=
  {| consensus_encode := enc; consensus_decode_from_finite_reader := dec;
     consensus_decode := with_take MAX_VEC_SIZE dec |}.

(** [len += x.consensus_encode(w)?]: two writes in sequence, their lengths added. *)
Definition wcat (a b : list byte * Z) : list byte * Z := (fst a ++ fst b, snd a + snd b).
Definition wnil : list byte * Z := ([], 0).
Infix "+++" := wcat (at level 60, right associativity).

Definition bytes_of {A} (c : Consensus A) (a : A) : list byte := fst (consensus_encode c a).

(** What an implementation promises for the values [wf] describes. *)
Class Codec {A} (c : Consensus A) (wf : A -> Prop) : Prop := {
  encode_len : forall a, wf a ->
    snd (consensus_encode c a) = Z.of_nat (length (bytes_of c a));
  finite_natural : Natural (consensus_decode_from_finite_reader c);
  decode_natural : Natural (consensus_decode c);
  finite_roundtrip : forall a rest, wf a ->
    on_slice (consensus_decode_from_finite_reader c) (bytes_of c a ++ rest) = Ok (a, rest);
  decode_roundtrip : forall a rest, wf a ->
    Z.of_nat (length (bytes_of c a)) <= MAX_VEC_SIZE ->
    on_slice (consensus_decode c) (bytes_of c a ++ rest) = Ok (a, rest);
}.
#[export] Existing Instance finite_natural.
#[export] Existing Instance decode_natural.

(** Encodings are prefix-free. *)
Lemma bytes_of_prefix_free {A} (c : Consensus A) wf `{!Codec c wf} a b r r' : wf a -> wf b ->
  bytes_of c a ++ r = bytes_of c b ++ r' -> a = b /\ r = r'.
Proof.
  intros Ha Hb E. pose proof (finite_roundtrip (c:=c) a r Ha) as H. rewrite E in H.
  rewrite (finite_roundtrip (c:=c) b r' Hb) in H. by injection H as -> ->.
Qed.

(** Only the canonical encoding of a value is accepted. *)
Class Canonical {A} (c : Consensus A) (wf : A -> Prop) : Prop := {
  finite_canonical : forall bs a rest,
    on_slice (consensus_decode_from_finite_reader c) bs = Ok (a, rest) ->
    wf a /\ bs = bytes_of c a ++ rest;
  decode_canonical : forall bs a rest,
    on_slice (consensus_decode c) bs = Ok (a, rest) ->
    wf a /\ bs = bytes_of c a ++ rest;
}.

Lemma simple_Codec {A} (enc : A -> list byte * Z) (dec : Decoder A) (wf : A -> Prop) :
  (forall a, wf a -> snd (enc a) = Z.of_nat (length (fst (enc a)))) ->
  Natural dec ->
  (forall a rest, wf a -> on_slice dec (fst (enc a) ++ rest) = Ok (a, rest)) ->
  Codec (simple enc dec) wf.
Proof. intros Hl Hn Hr. split; simpl; try done. intros. by apply Hr. Qed.

Lemma simple_Canonical {A} (enc : A -> list byte * Z) (dec : Decoder A) (wf : A -> Prop) :
  (forall bs a rest, on_slice dec bs = Ok (a, rest) -> wf a /\ bs = fst (enc a) ++ rest) ->
  Canonical (simple enc dec) wf.
Proof. intros Hc. by split. Qed.

Lemma with_take_app {A} limit (dec : Decoder A) `{!Natural dec} (enc : list byte) a rest :
  (forall rest, on_slice dec (enc ++ rest) = Ok (a, rest)) ->
  Z.of_nat (length enc) <= limit ->
  on_slice (with_take limit dec) (enc ++ rest) = Ok (a, rest).
Proof.
  intros Hr Hl. rewrite on_slice_with_take by done.
  rewrite take_app_ge, Hr by lia. rewrite drop_app_ge by lia. by rewrite take_drop.
Qed.

Lemma with_take_roundtrip {A} (dec : Decoder A) `{!Natural dec} (enc : list byte) a rest :
  (forall rest, on_slice dec (enc ++ rest) = Ok (a, rest)) ->
  Z.of_nat (length enc) <= MAX_VEC_SIZE ->
  on_slice (with_take MAX_VEC_SIZE dec) (enc ++ rest) = Ok (a, rest).
Proof. apply with_take_app, _. Qed.

Lemma with_take_canonical {A} (dec : Decoder A) `{!Natural dec} (enc : A -> list byte) (wf : A -> Prop) :
  (forall bs a rest, on_slice dec bs = Ok (a, rest) -> wf a /\ bs = enc a ++ rest) ->
  forall bs a rest, on_slice (with_take MAX_VEC_SIZE dec) bs = Ok (a, rest) ->
    wf a /\ bs = enc a ++ rest.
Proof.
  intros Hc bs a rest. rewrite on_slice_with_take by done.
  destruct (on_slice dec _) as [[a' rest']|] eqn:E; [|done]. intros [= -> <-].
  destruct (Hc _ _ _ E) as [Hwf Hb]. split; [done|].
  by rewrite app_assoc, <- Hb, take_drop.
Qed.

Lemma limited_Codec {A} (enc : A -> list byte * Z) (dec : Decoder A) (wf : A -> Prop) :
  (forall a, wf a -> snd (enc a) = Z.of_nat (length (fst (enc a)))) ->
  Natural dec ->
  (forall a rest, wf a -> on_slice dec (fst (enc a) ++ rest) = Ok (a, rest)) ->
  Codec (limited enc dec) wf.
Proof.
  intros Hl Hn Hr. split; simpl; try done; [apply _|].
  intros a rest Hwf Hlen. apply with_take_roundtrip; try done. intros. by apply Hr.
Qed.

Lemma limited_Canonical {A} (enc : A -> list byte * Z) (dec : Decoder A) (wf : A -> Prop) :
  Natural dec ->
  (forall bs a rest, on_slice dec bs = Ok (a, rest) -> wf a /\ bs = fst (enc a) ++ rest) ->
  Canonical (limited enc dec) wf.
Proof.
  intros Hn Hc. split; simpl; [done|].
  by apply (with_take_canonical dec (fun a => fst (enc a))).
Qed.

(** ** Primitive types *)

Definition u_le (n : nat) : Consensus Z :=
  simple (fun v => (le_split n v, Z.of_nat n))
         (bs ← read_slice n; mret (le_combine bs)).
Definition i_le (n : nat) : Consensus Z :=
  simple (fun v => (le_split n v, Z.of_nat n))
         (bs ← read_slice n; mret (swrap (8 * Z.of_nat n) (le_combine bs))).

Definition u8 := u_le 1.
Definition u16 := u_le 2.
Definition u32 := u_le 4.
Definition u64 := u_le 8.
Definition i8 := i_le 1.
Definition i16 := i_le 2.
Definition i32 := i_le 4.
Definition i64 := i_le 8.

Definition emit_bool (v : bool) : list byte := [byte.of_Z (Z.b2z v)].
Definition read_bool : Decoder bool :=
  bit ← consensus_decode i8; mret (negb (bit =? 0)).
Definition bool_ : Consensus bool := simple (fun v => (emit_bool v, 1)) read_bool.

(** [[u8; n]]; a value is a list of [n] bytes. *)
Definition array (n : nat) : Consensus (list byte) :=
  simple (fun v => (v, Z.of_nat (length v))) (read_slice n).

Lemma on_slice_read_app n (bs rest : list byte) : length bs = n ->
  on_slice (read_slice n) (bs ++ rest) = Ok (bs, rest).
Proof.
  intros <-. rewrite on_slice_read_slice, (proj2 (Nat.leb_le _ _)) by (rewrite length_app; lia).
  by rewrite take_app_length, drop_app_length.
Qed.

Lemma on_slice_read_Ok n bs out rest : on_slice (read_slice n) bs = Ok (out, rest) ->
  length out = n /\ bs = out ++ rest.
Proof.
  rewrite on_slice_read_slice. destruct (Nat.leb_spec n (length bs)); [|done].
  intros [= <- <-]. split; [rewrite length_take; lia|by rewrite take_drop].
Qed.

Lemma le_split_wrap n v : le_split n (swrap (8 * Z.of_nat n) v) = le_split n v.
Proof.
  destruct n as [|n]; [done|].
  apply le_combine_inj; [by rewrite !length_le_split|]. rewrite !le_combine_split.
  unfold swrap. rewrite (Z.mul_comm 8). set (w := Z.of_nat (S n) * 8).
  rewrite Zminus_mod_idemp_l. f_equal. lia.
Qed.

#[export] Instance u_le_Codec n : Codec (u_le n) (in_u (8 * Z.of_nat n)).
Proof.
  apply simple_Codec; [| |]; simpl.
  - intros. by rewrite length_le_split.
  - apply _.
  - intros v rest Hv. rewrite on_slice_bind, on_slice_read_app by apply length_le_split.
    rewrite on_slice_ret, le_combine_split, (Z.mul_comm _ 8). by rewrite Z.mod_small.
Qed.

Lemma le_combine_in_u bs n : length bs = n -> in_u (8 * Z.of_nat n) (le_combine bs).
Proof. intros <-. apply le_combine_bound. Qed.

#[export] Instance u_le_Canonical n : Canonical (u_le n) (in_u (8 * Z.of_nat n)).
Proof.
  apply simple_Canonical. intros bs v rest. rewrite on_slice_bind_Ok.
  intros (b & bs' & (Hl & ->)%on_slice_read_Ok & [= <- <-]).
  split; [by apply le_combine_in_u|]. simpl. by rewrite <- Hl, split_le_combine.
Qed.

#[export] Instance i_le_Codec n : Codec (i_le (S n)) (in_i (8 * Z.of_nat (S n))).
Proof.
  apply simple_Codec; [| |]; simpl fst.
  - intros. by rewrite length_le_split.
  - apply _.
  - intros v rest Hv. rewrite on_slice_bind, on_slice_read_app by apply length_le_split.
    rewrite on_slice_ret, le_combine_split, (Z.mul_comm _ 8).
    unfold swrap. rewrite Zplus_mod_idemp_l. fold (swrap (8 * Z.of_nat (S n)) v).
    by rewrite swrap_small by (done || lia).
Qed.

#[export] Instance i_le_Canonical n : Canonical (i_le (S n)) (in_i (8 * Z.of_nat (S n))).
Proof.
  apply simple_Canonical. intros bs v rest. rewrite on_slice_bind_Ok.
  intros (b & bs' & (Hl & ->)%on_slice_read_Ok & [= <- <-]).
  split; [apply swrap_in_i; lia|]. simpl fst. by rewrite le_split_wrap, <- Hl, split_le_combine.
Qed.

#[export] Instance array_Codec n : Codec (array n) (fun v => length v = n).
Proof.
  apply simple_Codec; [done|apply _|]. intros v rest Hv. by apply on_slice_read_app.
Qed.

#[export] Instance array_Canonical n : Canonical (array n) (fun v => length v = n).
Proof. apply simple_Canonical. intros bs v rest. apply on_slice_read_Ok. Qed.

(** [bool] decodes any non-zero byte as [true], so it is not canonical. *)
#[export] Instance bool_Codec : Codec bool_ (fun _ => True).
Proof.
  apply simple_Codec; [done|unfold read_bool, i8; apply _|].
  intros v rest _. unfold read_bool. rewrite on_slice_bind. simpl fst.
  change (emit_bool v) with (bytes_of (i_le 1) (Z.b2z v)).
  rewrite (finite_roundtrip (c:=i_le 1)) by (by destruct v). by destruct v.
Qed.

(** Decode failures propagate: an [Ok] of a longer program gives the [Ok]s of its parts. *)
Ltac dec_inv :=
  repeat match goal with
  | H : on_slice (_ ≫= _) _ = Ok _ |- _ => rewrite on_slice_bind_Ok in H; destruct H as (? & ? & ? & ?)
  | H : on_slice (mret _) _ = Ok _ |- _ => rewrite on_slice_ret in H; injection H; clear H; intros; subst
  | H : on_slice (dfail _) _ = Ok _ |- _ => discriminate H
  | H : on_slice (_ <$> _) _ = Ok _ |- _ => rewrite on_slice_fmap in H
  | H : context [if ?b then _ else _] |- _ => destruct b eqn:?
  end.

(** ** [VarInt] *)

Definition varint_size (v : Z) : Z :=
  if v <=? 0xFC then 1 else if v <=? 0xFFFF then 3 else if v <=? 0xFFFFFFFF then 5 else 9.

Definition varint_encode (v : Z) : list byte * Z :=
  if v <=? 0xFC then (bytes_of u8 v, 1)
  else if v <=? 0xFFFF then (bytes_of u8 0xFD ++ bytes_of u16 v, 3)
  else if v <=? 0xFFFFFFFF then (bytes_of u8 0xFE ++ bytes_of u32 v, 5)
  else (bytes_of u8 0xFF ++ bytes_of u64 v, 9).

Definition varint_decode : Decoder Z :=
  n ← consensus_decode u8;
  if n =? 0xFF then
    x ← consensus_decode u64;
    if x <? 0x100000000 then dfail NonMinimalVarInt else mret x
  else if n =? 0xFE then
    x ← consensus_decode u32;
    if x <? 0x10000 then dfail NonMinimalVarInt else mret x
  else if n =? 0xFD then
    x ← consensus_decode u16;
    if x <? 0xFD then dfail NonMinimalVarInt else mret x
  else mret n.

Definition VarInt : Consensus Z := simple varint_encode varint_decode.


Lemma u_le_dec n v rest : in_u (8 * Z.of_nat n) v ->
  on_slice (consensus_decode (u_le n)) (bytes_of (u_le n) v ++ rest) = Ok (v, rest).
Proof. apply (finite_roundtrip (c:=u_le n)). Qed.

Lemma u_le_inv n bs v rest : on_slice (consensus_decode (u_le n)) bs = Ok (v, rest) ->
  in_u (8 * Z.of_nat n) v /\ bs = bytes_of (u_le n) v ++ rest.
Proof. apply (finite_canonical (c:=u_le n)). Qed.

Lemma varint_len v : in_u 64 v -> snd (varint_encode v) = varint_size v /\
  Z.of_nat (length (fst (varint_encode v))) = varint_size v.
Proof. intros. unfold varint_encode, varint_size. by zcases. Qed.

#[export] Instance varint_Natural : Natural varint_decode.
Proof. unfold varint_decode, u8, u16, u32, u64. apply _. Qed.

#[export] Instance VarInt_Codec : Codec VarInt (in_u 64).
Proof.
  apply simple_Codec; [|apply _|].
  - intros v Hv. by destruct (varint_len v Hv) as [-> ->].
  - intros v rest Hv. unfold varint_encode, varint_decode, in_u in *.
    unfold u8, u16, u32, u64. zcases; cbn [fst]; rewrite <- ?app_assoc, on_slice_bind,
      u_le_dec by (unfold in_u; simpl; lia).
    + rewrite !(proj2 (Z.eqb_neq v _)) by lia. done.
    + cbn [Z.eqb Pos.eqb]. rewrite on_slice_bind, u_le_dec by (unfold in_u; simpl; lia).
      by rewrite (proj2 (Z.ltb_ge v 0xFD)) by lia.
    + cbn [Z.eqb Pos.eqb]. rewrite on_slice_bind, u_le_dec by (unfold in_u; simpl; lia).
      by rewrite (proj2 (Z.ltb_ge v _)) by lia.
    + cbn [Z.eqb Pos.eqb]. rewrite on_slice_bind, u_le_dec by (unfold in_u; simpl; lia).
      by rewrite (proj2 (Z.ltb_ge v _)) by lia.
Qed.

#[export] Instance VarInt_Canonical : Canonical VarInt (in_u 64).
Proof.
  apply simple_Canonical. intros bs v rest. unfold varint_decode, u8, u16, u32, u64. intros H.
  dec_inv; repeat match goal with
    | H : on_slice (consensus_decode (u_le _)) _ = Ok _ |- _ => apply u_le_inv in H as [? ->]
    end; rewrite ?Z.eqb_eq, ?Z.eqb_neq, ?Z.ltb_lt, ?Z.ltb_ge in *; subst;
    unfold in_u in *; simpl in *; (split; [lia|]); unfold varint_encode.
  - by rewrite !(proj2 (Z.leb_gt _ _)) by lia.
  - by rewrite !(proj2 (Z.leb_gt _ _)), (proj2 (Z.leb_le _ _)) by lia.
  - by rewrite !(proj2 (Z.leb_gt _ _)), (proj2 (Z.leb_le _ _)) by lia.
  - by rewrite (proj2 (Z.leb_le _ _)) by lia.
Qed.

(** ** Vectors *)

(** [impl_vec!]: a length prefix and the items one after the other.  The capacity
    reserved in advance has no effect on the result. *)
Section vec.
Context {T : Type} (c : Consensus T).

Definition vec_encode (v : list T) : list byte * Z :=
  fold_left (fun len x => len +++ consensus_encode c x) v
    (wnil +++ consensus_encode VarInt (Z.of_nat (length v))).

Definition vec_push (ret : list T) : Decoder (list T) :=
  x ← consensus_decode_from_finite_reader c; mret (ret ++ [x]).

Definition vec_decode : Decoder (list T) :=
  len ← consensus_decode_from_finite_reader VarInt; for_ len vec_push [].

Definition vec : Consensus (list T) := limited vec_encode vec_decode.
End vec.

(** [consensus_encode_with_size] *)
Definition consensus_encode_with_size (data : list byte) : list byte * Z :=
  consensus_encode VarInt (Z.of_nat (length data)) +++ (data, Z.of_nat (length data)).

(** [read_bytes_from_finite_reader]: one turn of the loop reads a chunk; [len + 1] turns
    are enough for every non-zero [chunk_size], which both call sites pass. *)
Definition read_chunk (chunk_size : Z) (s : Z * list byte) :
    Decoder ((Z * list byte) + list byte) :=
  let '(len, ret) := s in
  if 0 <? len then
    chunk ← read_slice (Z.to_nat (Z.min len chunk_size));
    mret (inl (len - Z.min len chunk_size, ret ++ chunk))
  else mret (inr ret).

Definition read_bytes_from_finite_reader (len chunk_size : Z) : Decoder (list byte) :=
  o ← while_pos (Z.to_pos (len + 1)) (read_chunk chunk_size) (len, []);
  match o with inr ret => mret ret | inl _ => dfail (ParseFailed "loop bound") end.

Definition byte_vec_decode : Decoder (list byte) :=
  len ← consensus_decode VarInt; read_bytes_from_finite_reader len (128 * 1024).

(** [Vec<u8>] and [Box<[u8]>] *)
Definition byte_vec : Consensus (list byte) := limited consensus_encode_with_size byte_vec_decode.

Lemma wcat_nil_l a : wnil +++ a = a.
Proof. by destruct a. Qed.
(** Chunked reading is one [read_slice]. *)
Lemma read_chunks_spec chunk_size fuel : 0 < chunk_size -> forall len ret bs,
  0 <= len -> (Z.to_nat len < fuel)%nat ->
  on_slice (while_nat fuel (read_chunk chunk_size) (len, ret)) bs =
    match on_slice (read_slice (Z.to_nat len)) bs with
    | Ok (out, rest) => Ok (inr (ret ++ out), rest)
    | Err e => Err e
    end.
Proof.
  intros Hc. induction fuel as [|fuel IH]; intros len ret bs Hl Hf; [lia|]. simpl.
  destruct (Z.ltb_spec 0 len).
  - rewrite !on_slice_bind. set (k := Z.min len chunk_size).
    rewrite !on_slice_read_slice.
    destruct (Nat.leb_spec (Z.to_nat k) (length bs)) as [Hk|Hk].
    + rewrite on_slice_ret, IH by lia. rewrite on_slice_read_slice, length_drop.
      replace (Z.to_nat (len - k)) with (Z.to_nat len - Z.to_nat k)%nat by lia.
      destruct (Nat.leb_spec (Z.to_nat len) (length bs)).
      * rewrite (proj2 (Nat.leb_le _ _)) by lia. rewrite <- app_assoc, drop_drop.
        replace (Z.to_nat k + (Z.to_nat len - Z.to_nat k))%nat with (Z.to_nat len) by lia.
        rewrite take_take_drop.
        by replace (Z.to_nat k + (Z.to_nat len - Z.to_nat k))%nat with (Z.to_nat len) by lia.
      * by rewrite (proj2 (Nat.leb_gt _ _)) by lia.
    + by rewrite (proj2 (Nat.leb_gt _ _)) by lia.
  - replace len with 0 by lia. rewrite on_slice_read_slice. simpl. by rewrite app_nil_r.
Qed.

Lemma read_bytes_spec len chunk_size bs : 0 <= len -> 0 < chunk_size ->
  on_slice (read_bytes_from_finite_reader len chunk_size) bs =
  on_slice (read_slice (Z.to_nat len)) bs.
Proof.
  intros. unfold read_bytes_from_finite_reader.
  rewrite on_slice_bind, while_pos_nat, read_chunks_spec by lia.
  by destruct (on_slice (read_slice _) bs) as [[??]|].
Qed.

#[export] Instance read_bytes_Natural len chunk_size :
  Natural (read_bytes_from_finite_reader len chunk_size).
Proof.
  unfold read_bytes_from_finite_reader.
  apply natural_bind; [|intros []; apply _].
  apply natural_while_pos. intros []. unfold read_chunk. apply _.
Qed.

Lemma varint_dec v rest : in_u 64 v ->
  on_slice (consensus_decode VarInt) (bytes_of VarInt v ++ rest) = Ok (v, rest).
Proof. apply (finite_roundtrip (c:=VarInt)). Qed.

Lemma varint_bytes_length v : in_u 64 v ->
  Z.of_nat (length (bytes_of VarInt v)) = varint_size v.
Proof. apply varint_len. Qed.

Definition byte_vec_wf (v : list byte) : Prop := Z.of_nat (length v) < 2 ^ 64.

#[export] Instance byte_vec_Codec : Codec byte_vec byte_vec_wf.
Proof.
  apply limited_Codec.
  - intros v Hv. unfold consensus_encode_with_size, wcat. cbn [fst snd].
    rewrite (encode_len (c:=VarInt)) by (unfold in_u, byte_vec_wf in *; lia).
    unfold bytes_of. rewrite length_app. lia.
  - unfold byte_vec_decode. apply _.
  - intros v rest Hv. unfold byte_vec_decode, consensus_encode_with_size. cbn [fst wcat].
    rewrite on_slice_bind, <- app_assoc.
    fold (bytes_of VarInt (Z.of_nat (length v))).
    rewrite varint_dec by (unfold in_u, byte_vec_wf in *; lia).
    rewrite read_bytes_spec by lia. apply on_slice_read_app. lia.
Qed.

#[export] Instance byte_vec_Canonical : Canonical byte_vec byte_vec_wf.
Proof.
  apply limited_Canonical; [unfold byte_vec_decode; apply _|].
  intros bs v rest. unfold byte_vec_decode. intros H. dec_inv.
  apply (decode_canonical (c:=VarInt)) in H as [Hv ->]. unfold in_u in Hv.
  rewrite read_bytes_spec in H0 by lia. apply on_slice_read_Ok in H0 as [Hl ->].
  unfold byte_vec_wf, consensus_encode_with_size. cbn [fst wcat].
  assert (Z.of_nat (length v) = x) as -> by lia. split; [lia|]. by rewrite <- app_assoc.
Qed.

Section vec_laws.
Context {T : Type} (c : Consensus T) (wf : T -> Prop) `{!Codec c wf}.

Definition vec_wf (v : list T) : Prop := Forall wf v /\ Z.of_nat (length v) < 2 ^ 64.

Lemma fold_encode v acc :
  fold_left (fun len x => len +++ consensus_encode c x) v acc =
  (fst acc ++ v ≫= bytes_of c,
   snd acc + foldr Z.add 0 (map (fun x => snd (consensus_encode c x)) v)).
Proof.
  revert acc. induction v as [|x v IH]; intros [bs len].
  - simpl. by rewrite app_nil_r, Z.add_0_r.
  - simpl fold_left. rewrite IH. unfold wcat, bytes_of; simpl. by rewrite <- app_assoc, Z.add_assoc.
Qed.

Lemma sum_encode_len v : Forall wf v ->
  foldr Z.add 0 (map (fun x => snd (consensus_encode c x)) v) = Z.of_nat (length (v ≫= bytes_of c)).
Proof.
  induction 1 as [|x v Hx Hf IH]; [done|]. cbn [map foldr].
  rewrite (encode_len (c:=c)) by done. rewrite IH, bind_cons, length_app. lia.
Qed.

Lemma vec_encode_bytes v :
  fst (vec_encode c v) = bytes_of VarInt (Z.of_nat (length v)) ++ v ≫= bytes_of c.
Proof. unfold vec_encode. by rewrite fold_encode, wcat_nil_l. Qed.

Lemma vec_encode_len v : vec_wf v ->
  snd (vec_encode c v) = Z.of_nat (length (fst (vec_encode c v))).
Proof.
  intros [Hf Hl]. rewrite vec_encode_bytes. unfold vec_encode.
  rewrite fold_encode, wcat_nil_l. cbn [snd].
  rewrite (encode_len (c:=VarInt)) by (unfold in_u; lia).
  rewrite length_app, Nat2Z.inj_add. f_equal. by apply sum_encode_len.
Qed.

Lemma vec_push_eq ret bs :
  on_slice (vec_push c ret) bs =
    match on_slice (consensus_decode_from_finite_reader c) bs with
    | Ok (x, rest) => Ok (ret ++ [x], rest)
    | Err e => Err e
    end.
Proof. done. Qed.

Lemma for_push_app v : Forall wf v -> forall ret rest,
  on_slice (for_nat (length v) (vec_push c) ret) ((v ≫= bytes_of c) ++ rest) =
  Ok (ret ++ v, rest).
Proof.
  induction 1 as [|x v Hx Hf IH]; intros ret rest; [simpl; by rewrite app_nil_r|].
  cbn [length for_nat]. 
  rewrite bind_cons, on_slice_bind, <- app_assoc, vec_push_eq, (finite_roundtrip (c:=c)) by done.
  rewrite IH. by rewrite <- app_assoc.
Qed.

#[export] Instance vec_Natural : Natural (vec_decode c).
Proof. unfold vec_decode, vec_push. apply _. Qed.

#[export] Instance vec_Codec : Codec (vec c) vec_wf.
Proof.
  apply limited_Codec; [apply vec_encode_len|apply _|].
  intros v rest [Hf Hl]. rewrite vec_encode_bytes. unfold vec_decode.
  rewrite on_slice_bind, <- app_assoc, (finite_roundtrip (c:=VarInt)) by (unfold in_u; lia).
  rewrite for_spec, Nat2Z.id. by rewrite for_push_app.
Qed.

Context `{!Canonical c wf}.

Lemma for_push_inv n : forall ret bs out rest,
  on_slice (for_nat n (vec_push c) ret) bs = Ok (out, rest) ->
  exists v, length v = n /\ Forall wf v /\ out = ret ++ v /\ bs = (v ≫= bytes_of c) ++ rest.
Proof.
  induction n as [|n IH]; intros ret bs out rest H; simpl in H.
  - injection H as <- <-. exists []. by rewrite app_nil_r.
  - dec_inv. rewrite vec_push_eq in H.
    destruct (on_slice _ bs) as [[y r]|] eqn:E; [|done]. injection H as <- <-.
    apply (finite_canonical (c:=c)) in E as [Hx ->].
    apply IH in H0 as (v & Hl & Hf & -> & ->).
    exists (y :: v). rewrite bind_cons, <- !app_assoc. simpl. rewrite Hl. auto.
Qed.

#[export] Instance vec_Canonical : Canonical (vec c) vec_wf.
Proof.
  apply limited_Canonical; [apply _|]. intros bs v rest. unfold vec_decode. intros H.
  dec_inv. apply (finite_canonical (c:=VarInt)) in H as [Hx ->]. unfold in_u in Hx.
  rewrite for_spec in H0. apply for_push_inv in H0 as (v' & Hl & Hf & -> & ->).
  rewrite vec_encode_bytes. simpl. assert (Z.of_nat (length v') = x) as -> by lia.
  split; [split; [done|lia]|]. by rewrite <- app_assoc.
Qed.
End vec_laws.

(** ** Structures ([impl_consensus_encoding!]) *)

(** Two fields in sequence; a structure of more fields nests. *)
Section fields.
Context {A B : Type} (ca : Consensus A) (cb : Consensus B).

Definition fields : Consensus (A * B) := {|
  consensus_encode := fun p => consensus_encode ca (fst p) +++ consensus_encode cb (snd p);
  consensus_decode_from_finite_reader :=
    a ← consensus_decode_from_finite_reader ca;
    b ← consensus_decode_from_finite_reader cb;
    mret (a, b);
  consensus_decode := a ← consensus_decode ca; b ← consensus_decode cb; mret (a, b);
|}.

Context (wa : A -> Prop) (wb : B -> Prop) `{!Codec ca wa, !Codec cb wb}.
Definition fields_wf (p : A * B) : Prop := wa (fst p) /\ wb (snd p).

Lemma fields_bytes a b : bytes_of fields (a, b) = bytes_of ca a ++ bytes_of cb b.
Proof. done. Qed.

#[export] Instance fields_Codec : Codec fields fields_wf.
Proof.
  split.
  - intros [a b] [Ha Hb]. rewrite fields_bytes, length_app. simpl.
    rewrite (encode_len (c:=ca)), (encode_len (c:=cb)) by done. lia.
  - simpl. apply _.
  - simpl. apply _.
  - intros [a b] rest [Ha Hb]. rewrite fields_bytes, <- app_assoc. simpl.
    rewrite on_slice_bind, (finite_roundtrip (c:=ca)) by done.
    by rewrite on_slice_bind, (finite_roundtrip (c:=cb)) by done.
  - intros [a b] rest [Ha Hb]. rewrite fields_bytes, length_app. intros Hl.
    rewrite <- app_assoc. simpl. rewrite on_slice_bind, (decode_roundtrip (c:=ca)) by (done || lia).
    by rewrite on_slice_bind, (decode_roundtrip (c:=cb)) by (done || lia).
Qed.

Context `{!Canonical ca wa, !Canonical cb wb}.
#[export] Instance fields_Canonical : Canonical fields fields_wf.
Proof.
  split; intros bs [a b] rest H; simpl in H; dec_inv.
  - apply (finite_canonical (c:=ca)) in H as [? ->]. apply (finite_canonical (c:=cb)) in H0 as [? ->].
    split; [done|]. by rewrite fields_bytes, <- app_assoc.
  - apply (decode_canonical (c:=ca)) in H as [? ->]. apply (decode_canonical (c:=cb)) in H0 as [? ->].
    split; [done|]. by rewrite fields_bytes, <- app_assoc.
Qed.
End fields.

(** The macro: the fields through an isomorphism with the structure, [consensus_decode]
    under a [Take] of its own. *)
Definition impl_consensus_encoding {S F} (to : S -> F) (from : F -> S) (c : Consensus F) :
    Consensus S := {|
  consensus_encode := fun s => consensus_encode c (to s);
  consensus_decode_from_finite_reader := from <$> consensus_decode_from_finite_reader c;
  consensus_decode := with_take MAX_VEC_SIZE (from <$> consensus_decode c);
|}.

Section macro_laws.
Context {S F : Type} (to : S -> F) (from : F -> S) (c : Consensus F) (wf : F -> Prop).
Context (from_to : forall s, from (to s) = s).

Lemma impl_bytes s : bytes_of (impl_consensus_encoding to from c) s = bytes_of c (to s).
Proof. done. Qed.

#[export] Instance impl_Codec `{!Codec c wf} :
  Codec (impl_consensus_encoding to from c) (fun s => wf (to s)).
Proof.
  split; simpl; try apply _.
  - intros s Hs. by apply (encode_len (c:=c)).
  - intros s rest Hs. rewrite impl_bytes.
    rewrite on_slice_fmap, (finite_roundtrip (c:=c)) by done. by rewrite from_to.
  - intros s rest Hs Hl. rewrite on_slice_with_take by apply _.
    rewrite impl_bytes in *.
    rewrite take_app_ge, drop_app_ge by lia.
    rewrite on_slice_fmap, (decode_roundtrip (c:=c)) by done.
    rewrite from_to. by rewrite take_drop.
Qed.

Context (to_from : forall f, to (from f) = f).
#[export] Instance impl_Canonical `{!Codec c wf, !Canonical c wf} :
  Canonical (impl_consensus_encoding to from c) (fun s => wf (to s)).
Proof.
  split; simpl.
  - intros bs s rest. rewrite on_slice_fmap.
    destruct (on_slice _ bs) as [[f r]|] eqn:E; [|done]. intros [= <- <-].
    apply (finite_canonical (c:=c)) in E as [Hf ->]. by rewrite impl_bytes, to_from.
  - apply (with_take_canonical _ (fun s => bytes_of (impl_consensus_encoding to from c) s)
      (fun s => wf (to s))).
    intros bs s rest. rewrite on_slice_fmap.
    destruct (on_slice _ bs) as [[f r]|] eqn:E; [|done]. intros [= <- <-].
    apply (decode_canonical (c:=c)) in E as [Hf ->]. by rewrite impl_bytes, to_from.
Qed.
End macro_laws.

(** ** [serialize] and [deserialize] *)

Section serialize.
Context {A : Type} (c : Consensus A).

Definition serialize {bm : BuildMode} (data : A) : run (list byte) :=
  let '(encoder, len) := consensus_encode c data in
  _ ← debug_assert (len =? Z.of_nat (length encoder));
  mret encoder.

Definition deserialize_partial (data : list byte) : Result Error (A * Z) :=
  '(rv, decoder) ← consensus_decode_from_finite_reader c Cursor Cursor_Reader (Cursor_new data);
  mret (rv, Z.of_N (position decoder)).

Definition deserialize (data : list byte) : Result Error A :=
  '(rv, consumed) ← deserialize_partial data;
  if consumed =? Z.of_nat (length data) then Ok rv
  else Err (ParseFailed "data not consumed entirely when explicitly deserializing").
End serialize.

Section serialize_laws.
Context {A : Type} (c : Consensus A) (wf : A -> Prop) `{!Codec c wf}.

Lemma serialize_bytes {bm : BuildMode} a : wf a -> serialize c a = Ret (bytes_of c a).
Proof.
  intros Ha. pose proof (encode_len (c:=c) a Ha) as Hl. unfold serialize, bytes_of in *.
  destruct (consensus_encode c a) as [bs len]; simpl in *. subst len. unfold debug_assert.
  rewrite Z.eqb_refl. by destruct debug_assertions.
Qed.

(** The cursor's position counts the bytes the decoder consumed. *)
Lemma deserialize_partial_slice data : Z.of_nat (length data) < 2 ^ 64 ->
  deserialize_partial c data =
    match on_slice (consensus_decode_from_finite_reader c) data with
    | Ok (a, rest) => Ok (a, Z.of_nat (length data) - Z.of_nat (length rest))
    | Err e => Err e
    end.
Proof.
  intros Hd. unfold deserialize_partial.
  pose proof (natural_contents (consensus_decode_from_finite_reader c)
    (fun cur : Cursor => inner cur = data) (Cursor_new data)) as H.
  specialize (H ltac:(done) ltac:(simpl; lia) eq_refl). simpl contents in H.
  rewrite drop_0 in H.
  destruct (consensus_decode_from_finite_reader c Cursor _ _) as [[a cur]|e]; [|by rewrite H].
  destruct H as (-> & [_ Hp] & Hi). rewrite Hi in Hp. simpl. f_equal. f_equal.
  unfold position. rewrite length_drop, Hi. lia.
Qed.

Lemma deserialize_slice data : Z.of_nat (length data) < 2 ^ 64 -> forall a,
  deserialize c data = Ok a <->
  on_slice (consensus_decode_from_finite_reader c) data = Ok (a, []).
Proof.
  intros Hd a. unfold deserialize. rewrite deserialize_partial_slice by done.
  destruct (on_slice _ data) as [[a' rest]|]; simpl; [|done].
  destruct (Z.eqb_spec (Z.of_nat (length data) - Z.of_nat (length rest)) (Z.of_nat (length data))).
  - destruct rest; simpl in *; [naive_solver|lia].
  - split; [done|]. intros [= -> ->]. simpl in *. lia.
Qed.

Lemma deserialize_roundtrip a : wf a -> Z.of_nat (length (bytes_of c a)) < 2 ^ 64 ->
  deserialize c (bytes_of c a) = Ok a.
Proof.
  intros Ha Hl. apply deserialize_slice; [done|].
  rewrite <- (app_nil_r (bytes_of c a)). by apply finite_roundtrip.
Qed.

Lemma deserialize_canonical `{!Canonical c wf} data a : Z.of_nat (length data) < 2 ^ 64 ->
  deserialize c data = Ok a <-> wf a /\ data = bytes_of c a.
Proof.
  intros Hl. split.
  - intros H%deserialize_slice; [|done]. apply finite_canonical in H as [Ha Hd].
    by rewrite app_nil_r in Hd.
  - intros [Ha ->]. by apply deserialize_roundtrip.
Qed.
End serialize_laws.

(** ** Properties *)

(** *** The consensus types

    Codes of the types that the implementations of this file compose: integers of the four widths,
    [VarInt], byte arrays, byte vectors, vectors, sequences of fields and structures made by the
    macro.  ([bool] is left out: it has 255 encodings of [true].) *)
Inductive Width := W8 | W16 | W32 | W64.
Definition octets (w : Width) : nat := match w with W8 => 1 | W16 => 2 | W32 => 4 | W64 => 8 end.

Inductive Wire :=
| WUint (w : Width)
| WInt (w : Width)
| WVarInt
| WArray (n : nat)
| WBytes
| WVec (item : Wire)
| WFields (first rest : Wire)
| WStruct (fields : Wire).

Fixpoint wire_type (w : Wire) : Type :=
  match w with
  | WUint _ | WInt _ | WVarInt => Z
  | WArray _ | WBytes => list byte
  | WVec item => list (wire_type item)
  | WFields first rest => wire_type first * wire_type rest
  | WStruct fields => wire_type fields
  end.

Fixpoint wire_codec (w : Wire) : Consensus (wire_type w) :=
  match w with
  | WUint w => u_le (octets w)
  | WInt w => i_le (octets w)
  | WVarInt => VarInt
  | WArray n => array n
  | WBytes => byte_vec
  | WVec item => vec (wire_codec item)
  | WFields first rest => fields (wire_codec first) (wire_codec rest)
  | WStruct f => impl_consensus_encoding (fun s => s) (fun s => s) (wire_codec f)
  end.

(** The values of a type: what the Rust type holds. *)
Fixpoint wire_ok (w : Wire) : wire_type w -> Prop :=
  match w with
  | WUint w => fun v => in_u (8 * Z.of_nat (octets w)) v
  | WInt w => fun v => in_i (8 * Z.of_nat (octets w)) v
  | WVarInt => fun v => in_u 64 v
  | WArray n => fun v => length v = n
  | WBytes => fun v => Z.of_nat (length v) < 2 ^ 64
  | WVec item => fun v => Forall (wire_ok item) v /\ Z.of_nat (length v) < 2 ^ 64
  | WFields first rest => fun v => wire_ok first (fst v) /\ wire_ok rest (snd v)
  | WStruct f => wire_ok f
  end.

(** The wire format as documented: little-endian digits, and CompactSize lengths in the shortest of
    their four forms. *)
Definition digits256 (n : nat) (v : Z) : list byte :=
  map (fun i => byte.of_Z (v / 256 ^ Z.of_nat i)) (seq 0 n).
Definition compact_size (v : Z) : list byte :=
  if v <? 253 then digits256 1 v
  else if v <? 2 ^ 16 then byte.of_Z 253 :: digits256 2 v
  else if v <? 2 ^ 32 then byte.of_Z 254 :: digits256 4 v
  else byte.of_Z 255 :: digits256 8 v.

Fixpoint wire_bytes (w : Wire) : wire_type w -> list byte :=
  match w with
  | WUint w | WInt w => digits256 (octets w)
  | WVarInt => compact_size
  | WArray _ => fun v => v
  | WBytes => fun v => compact_size (Z.of_nat (length v)) ++ v
  | WVec item => fun v => compact_size (Z.of_nat (length v)) ++ concat (map (wire_bytes item) v)
  | WFields first rest => fun v => wire_bytes first (fst v) ++ wire_bytes rest (snd v)
  | WStruct f => wire_bytes f
  end.

Lemma digits256_le_split n v : le_split n v = digits256 n v.
Proof.
  unfold digits256. revert v. induction n as [|n IH]; intros v; [done|].
  change (le_split (S n) v) with (byte.of_Z v :: le_split n (Z.shiftr v 8)). cbn [seq map].
  rewrite Z.pow_0_r, Z.div_1_r. f_equal.
  rewrite IH, <- seq_shift, map_map. apply map_ext. intros i. f_equal.
  rewrite Z.shiftr_div_pow2 by lia. rewrite Nat2Z.inj_succ, Z.pow_succ_r by lia.
  by rewrite Z.div_div by lia.
Qed.

Lemma compact_size_bytes v : bytes_of VarInt v = compact_size v.
Proof.
  unfold bytes_of, compact_size, VarInt, varint_encode. cbn [consensus_encode simple].
  rewrite <- !digits256_le_split. change (2 ^ 16) with 65536. change (2 ^ 32) with 4294967296.
  destruct (Z.leb_spec v 0xFC), (Z.ltb_spec v 253); try lia; [done|].
  destruct (Z.leb_spec v 0xFFFF), (Z.ltb_spec v 65536); try lia; [done|].
  destruct (Z.leb_spec v 0xFFFFFFFF), (Z.ltb_spec v 4294967296); try lia; done.
Qed.

#[local] Instance wire_Codec w : Codec (wire_codec w) (wire_ok w).
Proof.
  induction w as [w|w| |n| |item IH|first IH1 rest IH2|f IH]; cbn [wire_codec wire_ok].
  - apply u_le_Codec.
  - destruct w; apply i_le_Codec.
  - apply VarInt_Codec.
  - apply array_Codec.
  - apply byte_vec_Codec.
  - apply (vec_Codec (wire_codec item) (wire_ok item)).
  - apply (fields_Codec _ _ (wire_ok first) (wire_ok rest)).
  - by apply (impl_Codec (fun s => s) (fun s => s) (wire_codec f) (wire_ok f)).
Qed.

#[local] Instance wire_Canonical w : Canonical (wire_codec w) (wire_ok w).
Proof.
  induction w as [w|w| |n| |item IH|first IH1 rest IH2|f IH]; cbn [wire_codec wire_ok].
  - apply u_le_Canonical.
  - destruct w; apply i_le_Canonical.
  - apply VarInt_Canonical.
  - apply array_Canonical.
  - apply byte_vec_Canonical.
  - apply (vec_Canonical (wire_codec item) (wire_ok item)).
  - apply (fields_Canonical _ _ (wire_ok first) (wire_ok rest)).
  - by apply (impl_Canonical (fun s => s) (fun s => s) (wire_codec f) (wire_ok f) ltac:(done)).
Qed.

Lemma wire_bytes_spec w : forall v, bytes_of (wire_codec w) v = wire_bytes w v.
Proof.
  induction w as [w|w| |n| |item IH|first IH1 rest IH2|f IH]; intros v; cbn [wire_codec wire_bytes].
  - apply digits256_le_split.
  - apply digits256_le_split.
  - apply compact_size_bytes.
  - done.
  - by rewrite <- compact_size_bytes.
  - rewrite <- compact_size_bytes. change (bytes_of (vec (wire_codec item)) v) with (fst (vec_encode (wire_codec item) v)).
    rewrite vec_encode_bytes. f_equal.
    induction v as [|x v IHv]; [done|]. rewrite bind_cons. cbn [map concat]. by rewrite IH, IHv.
  - destruct v as [a b]. change (bytes_of (wire_codec first) a ++ bytes_of (wire_codec rest) b =
      wire_bytes first a ++ wire_bytes rest b). by rewrite IH1, IH2.
  - apply IH.
Qed.

(** C5: consensus serialisation of integers, [VarInt]s, arrays, vectors and structures, composed in any
    way, is exactly the documented wire format, in both builds.  [serialize] writes the format's bytes
    and its length assertion holds; [deserialize] returns [v] if and only if the input is the format's
    bytes of [v], so a length that is not in its shortest form is refused, as is a missing or a
    surplus byte, the latter with the error for data not consumed; [deserialize_partial] stops where
    the value ends. *)
Theorem consensus_wire_format {bm : BuildMode} (w : Wire) (data : list byte) (v : wire_type w)
    (Hlen : Z.of_nat (length data) < 2 ^ 64) :
  (wire_ok w v -> serialize (wire_codec w) v = Ret (wire_bytes w v)) /\
  (deserialize (wire_codec w) data = Ok v <-> wire_ok w v /\ data = wire_bytes w v) /\
  (forall n, deserialize_partial (wire_codec w) data = Ok (v, n) <->
     wire_ok w v /\ n = Z.of_nat (length (wire_bytes w v)) /\ exists rest, data = wire_bytes w v ++ rest) /\
  (forall rest, wire_ok w v -> data = wire_bytes w v ++ rest -> rest <> [] ->
     deserialize (wire_codec w) data =
       Err (ParseFailed "data not consumed entirely when explicitly deserializing")).
Proof.
  assert (forall n, deserialize_partial (wire_codec w) data = Ok (v, n) <->
     wire_ok w v /\ n = Z.of_nat (length (wire_bytes w v)) /\ exists rest, data = wire_bytes w v ++ rest) as Hpart.
  { intros n. rewrite <- wire_bytes_spec, (deserialize_partial_slice _ (wire_ok w)) by done. split.
    - destruct (on_slice _ data) as [[a rest]|] eqn:E; [|done]. intros [= -> <-].
      apply finite_canonical in E as [Hv ->]. rewrite length_app. split_and!; [done|lia|eauto].
    - intros (Hv & -> & rest & ->). rewrite (finite_roundtrip (c:=wire_codec w)) by done.
      rewrite length_app. do 2 f_equal. lia. }
  split_and!; [|rewrite <- wire_bytes_spec; by apply (deserialize_canonical (wire_codec w) (wire_ok w))|done|].
  - rewrite <- wire_bytes_spec. by apply (serialize_bytes (wire_codec w) (wire_ok w)).
  - intros rest Hv -> Hr. unfold deserialize. rewrite (proj2 (Hpart _)) by eauto. cbn [mbind Result_bind].
    rewrite length_app, (proj2 (Z.eqb_neq _ _)); [done|]. destruct rest; [done|]. cbn [length]. lia.
Qed.

(** Two items, [7] and nothing, in three bytes and the count. *)
Lemma consensus_wire_format_witness :
  serialize (bm := true) (wire_codec (WVec WBytes)) [[byte.of_Z 7]; []] = Ret (map byte.of_Z [2; 1; 7; 0]) /\
  deserialize (wire_codec (WVec WBytes)) (map byte.of_Z [2; 1; 7; 0]) = Ok [[byte.of_Z 7]; []].
Proof.
  destruct (consensus_wire_format (bm := true) (WVec WBytes) (map byte.of_Z [2; 1; 7; 0]) [[byte.of_Z 7]; []] ltac:(done))
    as (Hs & Hd & _).
  assert (wire_ok (WVec WBytes) [[byte.of_Z 7]; []]) as Hok by (split; [repeat constructor|done]; simpl; lia).
  split; [exact (Hs Hok)|]. apply Hd. split; [exact Hok|reflexivity].
Defined.

(** A length in a longer form than it needs is refused. *)
Example non_minimal_refused :
  deserialize (wire_codec WBytes) (map byte.of_Z [0xFD; 1; 0; 7]) = Err NonMinimalVarInt.
Proof. reflexivity. Qed.

(** Reading a length-prefixed byte string in bounded chunks returns the same bytes,
    the same rest and the same error as one exact read, for every non-zero chunk size. *)
Lemma chunked_read_is_read_exact (len chunk_size : Z) (bs : list byte)
    (Hlen : 0 <= len) (Hchunk : 0 < chunk_size) :
  on_slice (read_bytes_from_finite_reader len chunk_size) bs =
    if (Z.to_nat len <=? length bs)%nat
    then Ok (take (Z.to_nat len) bs, drop (Z.to_nat len) bs)
    else Err (EIo UnexpectedEof).
Proof. rewrite read_bytes_spec by done. apply on_slice_read_slice. Qed.

(** The outcome of decoding a vector depends only on the bytes its reader still
    holds, whatever the reader ([&[u8]], [Cursor], nested [Take]), and the reader is
    advanced by exactly the bytes consumed. *)
Lemma vec_decode_reader_independent {T R} (c : Consensus T) (wf : T -> Prop)
    (Hc : Codec c wf) (HR : Reader R) (r : R) (Hr : reader_ok r) :
  match consensus_decode (vec c) R HR r with
  | Ok (v, r') => on_slice (consensus_decode (vec c)) (contents r) = Ok (v, contents r')
  | Err e => on_slice (consensus_decode (vec c)) (contents r) = Err e
  end.
Proof.
  pose proof (natural_contents (consensus_decode (vec c)) (fun _ : R => True) r) as H.
  specialize (H ltac:(done) Hr ltac:(done)).
  destruct (consensus_decode (vec c) R HR r) as [[v r']|e]; naive_solver.
Qed.

