(* ===== verification/HashEngine.v ===== *)
(** * Block-buffered hash engines ([hashes/src/util.rs], [hashes/src/lib.rs])

    The [engine_input_impl!] macro gives every engine of the crate its [input] method:
    bytes are collected in a block-sized buffer and [process_block] runs when it is
    full.  [represents] is the abstraction relation: an engine stands for the message
    it was fed, however the message was cut into pieces. *)

From Stdlib Require Import ZArith Lia.
From coqutil Require Import Byte.
From stdpp Require Import base tactics option list numbers.
From S2P Require Import Prelude.

Section engine.
Context {H : Type} (BLOCK_SIZE : nat) (process_block : H -> list byte -> H).

Record HashEngine := mkEngine { buffer : list byte; h : H; n_bytes_hashed : nat }.

(** One turn of the [while] loop of [input]: the engine and the input that is left. *)
Definition input_step (self : HashEngine) (inp : list byte) : HashEngine * list byte :=
  let buf_idx := n_bytes_hashed self mod BLOCK_SIZE in
  let rem_len := BLOCK_SIZE - buf_idx in
  let write_len := Nat.min rem_len (length inp) in
  let buf := copy_at buf_idx (take write_len inp) (buffer self) in
  let len := n_bytes_hashed self + write_len in
  let h' := if len mod BLOCK_SIZE =? 0 then process_block (h self) buf else h self in
  (mkEngine buf h' len, drop write_len inp).

(** Every turn consumes at least a byte, so the input's length bounds the turns. *)
Fixpoint input_loop (fuel : nat) (self : HashEngine) (inp : list byte) : HashEngine :=
  match fuel, inp with
  | S fuel, _ :: _ => let '(self, inp) := input_step self inp in input_loop fuel self inp
  | _, _ => self
  end.

Definition input (self : HashEngine) (inp : list byte) : HashEngine :=
  input_loop (length inp) self inp.

(** ** The message an engine stands for *)

(** The state after the first [n] blocks of a message. *)
Fixpoint absorb (n : nat) (st : H) (m : list byte) : H :=
  match n with
  | 0 => st
  | S n => absorb n (process_block st (take BLOCK_SIZE m)) (drop BLOCK_SIZE m)
  end.

Context (h0 : H).

Definition represents (e : HashEngine) (m : list byte) : Prop :=
  length (buffer e) = BLOCK_SIZE /\
  n_bytes_hashed e = length m /\
  h e = absorb (length m / BLOCK_SIZE) h0 m /\
  take (length m mod BLOCK_SIZE) (buffer e) =
    drop (length m / BLOCK_SIZE * BLOCK_SIZE) m.

Context (block_pos : 0 < BLOCK_SIZE).

Lemma absorb_app n : forall st m m', n * BLOCK_SIZE <= length m ->
  absorb n st (m ++ m') = absorb n st m.
Proof.
  induction n as [|n IH]; intros st m m' Hl; simpl; [done|].
  rewrite take_app_le, drop_app_le by lia. apply IH. rewrite length_drop. lia.
Qed.

Lemma absorb_S n : forall st m, S n * BLOCK_SIZE <= length m ->
  absorb (S n) st m =
  process_block (absorb n st m) (take BLOCK_SIZE (drop (n * BLOCK_SIZE) m)).
Proof.
  induction n as [|n IH]; intros st m Hl; [by rewrite drop_0|].
  change (absorb (S (S n)) st m)
    with (absorb (S n) (process_block st (take BLOCK_SIZE m)) (drop BLOCK_SIZE m)).
  rewrite IH by (rewrite length_drop; lia). rewrite drop_drop. simpl. do 3 f_equal.
Qed.

Lemma input_step_represents e m inp : represents e m -> inp <> [] ->
  let '(e', inp') := input_step e inp in
  exists piece, inp = piece ++ inp' /\ piece <> [] /\ represents e' (m ++ piece).
Proof.
  intros (Hb & Hn & Hh & Ht) Hi. unfold input_step. rewrite Hn.
  set (i := length m mod BLOCK_SIZE). set (q := length m / BLOCK_SIZE).
  set (w := Nat.min (BLOCK_SIZE - i) (length inp)).
  assert (length m = q * BLOCK_SIZE + i) as Hm
    by (unfold q, i; rewrite Nat.mul_comm; apply Nat.div_mod; lia).
  assert (i < BLOCK_SIZE) as Hil by (apply Nat.mod_upper_bound; lia).
  assert (0 < length inp) by (destruct inp; [done|simpl; lia]).
  exists (take w inp). split; [by rewrite take_drop|].
  split; [intros E%(f_equal length); rewrite length_take in E; simpl in E; lia|].
  assert (length (take w inp) = w) as Hw by (rewrite length_take; lia).
  assert (take i (buffer e) ++ take w inp = drop (q * BLOCK_SIZE) (m ++ take w inp)) as Hd.
  { rewrite drop_app_le by lia. fold i q in Ht. by rewrite Ht. }
  assert (copy_at i (take w inp) (buffer e) =
          drop (q * BLOCK_SIZE) (m ++ take w inp) ++ drop (i + w) (buffer e)) as Hc.
  { unfold copy_at. rewrite Hw, <- Hd. by rewrite <- app_assoc. }
  assert (length (copy_at i (take w inp) (buffer e)) = BLOCK_SIZE) as Hcl.
  { rewrite Hc, length_app, !length_drop, length_app, Hw, Hb. lia. }
  unfold represents; cbn [buffer h n_bytes_hashed]. rewrite !length_app, Hw.
  split; [done|]. split; [lia|]. rewrite Hm.
  destruct (Nat.eq_dec (i + w) BLOCK_SIZE) as [Hfull|Hpart].
  - replace (q * BLOCK_SIZE + i + w) with (S q * BLOCK_SIZE) by lia.
    rewrite Nat.div_mul, Nat.Div0.mod_mul by lia. simpl (0 =? 0). cbv iota.
    rewrite absorb_S by (rewrite length_app; lia). rewrite absorb_app by lia.
    fold q in Hh. rewrite <- Hh. rewrite Hc, (drop_ge (buffer e)), app_nil_r by lia.
    split; [rewrite (take_ge (drop _ _)) by (rewrite length_drop, length_app; lia); done|].
    rewrite take_0. symmetry. apply drop_ge. rewrite length_app. lia.
  - assert ((q * BLOCK_SIZE + i + w) / BLOCK_SIZE = q) as ->.
    { symmetry. apply Nat.div_unique with (i + w); lia. }
    assert ((q * BLOCK_SIZE + i + w) mod BLOCK_SIZE = i + w) as ->.
    { symmetry. apply Nat.mod_unique with q; lia. }
    rewrite (proj2 (Nat.eqb_neq _ _)) by lia. rewrite absorb_app by lia.
    split; [done|]. rewrite Hc, take_app_le by (rewrite length_drop, length_app, Hw; lia).
    apply take_ge. rewrite length_drop, length_app. lia.
Qed.

(** Feeding an engine appends to the message it stands for. *)
Lemma input_represents e m inp : represents e m -> represents (input e inp) (m ++ inp).
Proof.
  unfold input. generalize (le_n (length inp)). generalize (length inp) at 2 3 as fuel.
  intros fuel. revert e m inp. induction fuel as [|fuel IH]; intros e m inp Hf Hr.
  - destruct inp; [|simpl in Hf; lia]. by rewrite app_nil_r.
  - destruct inp as [|b inp]; [by rewrite app_nil_r|]. cbn [input_loop].
    pose proof (input_step_represents e m (b :: inp) Hr ltac:(done)) as Hs.
    destruct (input_step e (b :: inp)) as [e' inp'].
    destruct Hs as (piece & E & Hp & Hr'). rewrite E, app_assoc. apply IH; [|done].
    apply (f_equal length) in E. rewrite length_app in E. destruct piece; [done|].
    simpl in *. lia.
Qed.

(** ** Padding

    The [from_engine] functions share their first lines: a one bit, then zeros until [len_size]
    bytes of a block are left for the length, in a second block when the first is too full. *)

Definition pad_to (len_size : nat) (e : HashEngine) : HashEngine :=
  let zeroes := replicate (BLOCK_SIZE - len_size) Byte.x00 in
  let e := input e [byte.of_Z 0x80] in
  let e := if length zeroes <? n_bytes_hashed e mod BLOCK_SIZE then input e zeroes else e in
  let pad_length := length zeroes - n_bytes_hashed e mod BLOCK_SIZE in
  input e (take pad_length zeroes).

(** The fewest zeros after the marker that leave [len_size] bytes of the last block. *)
Definition pad_count (len_size n : nat) : nat :=
  Z.to_nat ((Z.of_nat BLOCK_SIZE - Z.of_nat len_size - 1 - Z.of_nat n) mod Z.of_nat BLOCK_SIZE).

Lemma pad_count_spec len_size n : 0 < len_size -> 2 * len_size <= BLOCK_SIZE ->
  let r := (n + 1) mod BLOCK_SIZE in
  let z := if BLOCK_SIZE - len_size <? r then BLOCK_SIZE - len_size else 0 in
  z + (BLOCK_SIZE - len_size - (n + 1 + z) mod BLOCK_SIZE) = pad_count len_size n.
Proof.
  intros Hp Hl. cbv zeta. unfold pad_count.
  pose proof (Nat.div_mod (n + 1) BLOCK_SIZE ltac:(lia)) as Hd.
  pose proof (Nat.mod_upper_bound (n + 1) BLOCK_SIZE ltac:(lia)) as Hb.
  set (r := (n + 1) mod BLOCK_SIZE) in *. set (q := (n + 1) / BLOCK_SIZE) in *.
  set (B := BLOCK_SIZE) in *. assert (Z.of_nat n + 1 = Z.of_nat B * Z.of_nat q + Z.of_nat r)%Z by lia.
  destruct (Nat.ltb_spec (B - len_size) r).
  - assert ((n + 1 + (B - len_size)) mod B = r - len_size) as ->.
    { symmetry. apply Nat.mod_unique with (S q); nia. }
    rewrite <- (Z.mod_unique _ (Z.of_nat B) (- Z.of_nat q - 1)
      (2 * Z.of_nat B - Z.of_nat len_size - Z.of_nat r)); nia.
  - replace (n + 1 + 0) with (n + 1) by lia. fold r.
    rewrite <- (Z.mod_unique _ (Z.of_nat B) (- Z.of_nat q)
      (Z.of_nat B - Z.of_nat len_size - Z.of_nat r)); nia.
Qed.

Lemma pad_to_represents len_size e m : 0 < len_size -> 2 * len_size <= BLOCK_SIZE -> represents e m ->
  represents (pad_to len_size e)
    (m ++ [byte.of_Z 0x80] ++ replicate (pad_count len_size (length m)) Byte.x00).
Proof.
  intros Hp Hl Hr. unfold pad_to. rewrite length_replicate.
  pose proof (input_represents e m [byte.of_Z 0x80] Hr) as Hr1.
  set (e1 := input e _) in *. assert (n_bytes_hashed e1 = length m + 1) as ->
    by (destruct Hr1 as (_ & -> & _); by rewrite length_app).
  rewrite <- pad_count_spec by done. cbv zeta.
  set (z := if _ <? _ then _ else 0). set (e2 := if _ <? _ then _ else e1).
  assert (represents e2 (m ++ [byte.of_Z 0x80] ++ replicate z Byte.x00)) as Hr2.
  { rewrite app_assoc. unfold e2, z. destruct (_ <? _); [by apply input_represents|].
    simpl replicate. by rewrite app_nil_r. }
  assert (n_bytes_hashed e2 = length m + 1 + z) as ->.
  { destruct Hr2 as (_ & -> & _). rewrite !length_app, length_replicate. simpl. lia. }
  rewrite take_replicate, Nat.min_l, replicate_add by lia.
  pose proof (input_represents _ _ (replicate (BLOCK_SIZE - len_size - (length m + 1 + z) mod BLOCK_SIZE)
    Byte.x00) Hr2) as Hr3. by rewrite <- !app_assoc in Hr3.
Qed.

(** Feeding the pieces of a message feeds the message. *)
Lemma fold_input_represents slices : forall e m, represents e m ->
  represents (fold_left input slices e) (m ++ concat slices).
Proof.
  induction slices as [|s slices IH]; intros e m Hr; simpl; [by rewrite app_nil_r|].
  rewrite app_assoc. by apply IH, input_represents.
Qed.

Lemma new_represents buf : length buf = BLOCK_SIZE -> represents (mkEngine buf h0 0) [].
Proof. intros Hl. unfold represents. simpl. by rewrite Nat.Div0.div_0_l, Nat.Div0.mod_0_l by lia. Qed.
End engine.

(** Only whole blocks are absorbed, so two compression functions that agree on them, and on the
    states that they produce, agree. *)
Lemma absorb_ext {H} (P : H -> Prop) B (f g : H -> list byte -> H) n : forall st m,
  (forall st b, P st -> length b = B -> f st b = g st b /\ P (g st b)) ->
  P st -> n * B <= length m -> absorb B f n st m = absorb B g n st m.
Proof.
  induction n as [|n IH]; intros st m Hfg Hst Hl; cbn [absorb]; [done|].
  destruct (Hfg st (take B m) Hst) as [-> Hg]; [rewrite length_take; lia|].
  apply IH; [done..|]. rewrite length_drop. lia.
Qed.

Arguments mkEngine {H} _ _ _.
Arguments buffer {H} _.
Arguments h {H} _.
Arguments n_bytes_hashed {H} _.
