(* ===== verification/Sha256.v ===== *)
(** * SHA-256 and double SHA-256 ([hashes/src/sha256.rs], [hashes/src/sha256d.rs])

    The software compression function with its unrolled rounds and in-place message
    schedule, the engine with its padding, and the [const fn] variant.  The reference
    definition [Spec] follows FIPS 180-4; the theorems show that both implementations
    compute it.  The x86 intrinsics variant of [process_block] is not modelled. *)

From Stdlib Require Import ZArith Lia Btauto.
From coqutil Require Import Byte Word.LittleEndianList.
From stdpp Require Import base tactics option list numbers.
From S2P Require Import Prelude HashEngine.

#[local] Open Scope Z_scope.

(** ** 32-bit words *)

Definition mask32 : Z := 0xFFFFFFFF.
Definition add32 (x y : Z) : Z := Z.land (x + y) mask32.
Definition rotate_left (x n : Z) : Z :=
  Z.land (Z.lor (Z.shiftl x n) (Z.shiftr x (32 - n))) mask32.

(** [u32::from_be_bytes], [u32::to_be_bytes] and [slice::chunks_exact] *)
Definition from_be_bytes (bs : list byte) : Z := le_combine (rev bs).
Definition to_be_bytes (n : nat) (v : Z) : list byte := rev (le_split n v).

Fixpoint chunks (count size : nat) (l : list byte) : list (list byte) :=
  match count with
  | O => []
  | S count => take size l :: chunks count size (drop size l)
  end.
Definition chunks_exact (size : nat) (l : list byte) : list (list byte) :=
  chunks (length l / size) size l.

(** The eight state words. *)
Definition State : Type := Z * Z * Z * Z * Z * Z * Z * Z.

Definition initial_state : State :=
  (0x6a09e667, 0xbb67ae85, 0x3c6ef372, 0xa54ff53a, 0x510e527f, 0x9b05688c, 0x1f83d9ab,
   0x5be0cd19).

(** ** The compression function of the source *)

Definition Ch (x y z : Z) : Z := Z.lxor z (Z.land x (Z.lxor y z)).
Definition Maj (x y z : Z) : Z := Z.lor (Z.land x y) (Z.land z (Z.lor x y)).
Definition Sigma0 (x : Z) : Z :=
  Z.lxor (Z.lxor (rotate_left x 30) (rotate_left x 19)) (rotate_left x 10).
Definition Sigma1 (x : Z) : Z :=
  Z.lxor (Z.lxor (rotate_left x 26) (rotate_left x 21)) (rotate_left x 7).
Definition sigma0 (x : Z) : Z :=
  Z.lxor (Z.lxor (rotate_left x 25) (rotate_left x 14)) (Z.shiftr x 3).
Definition sigma1 (x : Z) : Z :=
  Z.lxor (Z.lxor (rotate_left x 15) (rotate_left x 13)) (Z.shiftr x 10).

Definition round (a b c d e f g h k w : Z) : Z * Z :=
  let t1 := add32 (add32 (add32 (add32 h (Sigma1 e)) (Ch e f g)) k) w in
  let t2 := add32 (Sigma0 a) (Maj a b c) in
  (add32 d t1, add32 t1 t2).

Definition later_round (a b c d e f g h k w w1 w2 w3 : Z) : Z * Z * Z :=
  let w := add32 (add32 (add32 w (sigma1 w1)) w2) (sigma0 w3) in
  let '(d, h) := round a b c d e f g h k w in
  (d, h, w).

(** The sixty-four unrolled rounds; [w] is overwritten in place from the second group
    of sixteen on. *)
Definition rounds (st : State) (w : list Z) : State :=
  match w with
  | [w0; w1; w2; w3; w4; w5; w6; w7; w8; w9; w10; w11; w12; w13; w14; w15] =>
      let '(a, b, c, d, e, f, g, h) := st in
      let '(d, h) := round a b c d e f g h 0x428a2f98 w0 in
      let '(c, g) := round h a b c d e f g 0x71374491 w1 in
      let '(b, f) := round g h a b c d e f 0xb5c0fbcf w2 in
      let '(a, e) := round f g h a b c d e 0xe9b5dba5 w3 in
      let '(h, d) := round e f g h a b c d 0x3956c25b w4 in
      let '(g, c) := round d e f g h a b c 0x59f111f1 w5 in
      let '(f, b) := round c d e f g h a b 0x923f82a4 w6 in
      let '(e, a) := round b c d e f g h a 0xab1c5ed5 w7 in
      let '(d, h) := round a b c d e f g h 0xd807aa98 w8 in
      let '(c, g) := round h a b c d e f g 0x12835b01 w9 in
      let '(b, f) := round g h a b c d e f 0x243185be w10 in
      let '(a, e) := round f g h a b c d e 0x550c7dc3 w11 in
      let '(h, d) := round e f g h a b c d 0x72be5d74 w12 in
      let '(g, c) := round d e f g h a b c 0x80deb1fe w13 in
      let '(f, b) := round c d e f g h a b 0x9bdc06a7 w14 in
      let '(e, a) := round b c d e f g h a 0xc19bf174 w15 in
      let '(d, h, w0) := later_round a b c d e f g h 0xe49b69c1 w0 w14 w9 w1 in
      let '(c, g, w1) := later_round h a b c d e f g 0xefbe4786 w1 w15 w10 w2 in
      let '(b, f, w2) := later_round g h a b c d e f 0x0fc19dc6 w2 w0 w11 w3 in
      let '(a, e, w3) := later_round f g h a b c d e 0x240ca1cc w3 w1 w12 w4 in
      let '(h, d, w4) := later_round e f g h a b c d 0x2de92c6f w4 w2 w13 w5 in
      let '(g, c, w5) := later_round d e f g h a b c 0x4a7484aa w5 w3 w14 w6 in
      let '(f, b, w6) := later_round c d e f g h a b 0x5cb0a9dc w6 w4 w15 w7 in
      let '(e, a, w7) := later_round b c d e f g h a 0x76f988da w7 w5 w0 w8 in
      let '(d, h, w8) := later_round a b c d e f g h 0x983e5152 w8 w6 w1 w9 in
      let '(c, g, w9) := later_round h a b c d e f g 0xa831c66d w9 w7 w2 w10 in
      let '(b, f, w10) := later_round g h a b c d e f 0xb00327c8 w10 w8 w3 w11 in
      let '(a, e, w11) := later_round f g h a b c d e 0xbf597fc7 w11 w9 w4 w12 in
      let '(h, d, w12) := later_round e f g h a b c d 0xc6e00bf3 w12 w10 w5 w13 in
      let '(g, c, w13) := later_round d e f g h a b c 0xd5a79147 w13 w11 w6 w14 in
      let '(f, b, w14) := later_round c d e f g h a b 0x06ca6351 w14 w12 w7 w15 in
      let '(e, a, w15) := later_round b c d e f g h a 0x14292967 w15 w13 w8 w0 in
      let '(d, h, w0) := later_round a b c d e f g h 0x27b70a85 w0 w14 w9 w1 in
      let '(c, g, w1) := later_round h a b c d e f g 0x2e1b2138 w1 w15 w10 w2 in
      let '(b, f, w2) := later_round g h a b c d e f 0x4d2c6dfc w2 w0 w11 w3 in
      let '(a, e, w3) := later_round f g h a b c d e 0x53380d13 w3 w1 w12 w4 in
      let '(h, d, w4) := later_round e f g h a b c d 0x650a7354 w4 w2 w13 w5 in
      let '(g, c, w5) := later_round d e f g h a b c 0x766a0abb w5 w3 w14 w6 in
      let '(f, b, w6) := later_round c d e f g h a b 0x81c2c92e w6 w4 w15 w7 in
      let '(e, a, w7) := later_round b c d e f g h a 0x92722c85 w7 w5 w0 w8 in
      let '(d, h, w8) := later_round a b c d e f g h 0xa2bfe8a1 w8 w6 w1 w9 in
      let '(c, g, w9) := later_round h a b c d e f g 0xa81a664b w9 w7 w2 w10 in
      let '(b, f, w10) := later_round g h a b c d e f 0xc24b8b70 w10 w8 w3 w11 in
      let '(a, e, w11) := later_round f g h a b c d e 0xc76c51a3 w11 w9 w4 w12 in
      let '(h, d, w12) := later_round e f g h a b c d 0xd192e819 w12 w10 w5 w13 in
      let '(g, c, w13) := later_round d e f g h a b c 0xd6990624 w13 w11 w6 w14 in
      let '(f, b, w14) := later_round c d e f g h a b 0xf40e3585 w14 w12 w7 w15 in
      let '(e, a, w15) := later_round b c d e f g h a 0x106aa070 w15 w13 w8 w0 in
      let '(d, h, w0) := later_round a b c d e f g h 0x19a4c116 w0 w14 w9 w1 in
      let '(c, g, w1) := later_round h a b c d e f g 0x1e376c08 w1 w15 w10 w2 in
      let '(b, f, w2) := later_round g h a b c d e f 0x2748774c w2 w0 w11 w3 in
      let '(a, e, w3) := later_round f g h a b c d e 0x34b0bcb5 w3 w1 w12 w4 in
      let '(h, d, w4) := later_round e f g h a b c d 0x391c0cb3 w4 w2 w13 w5 in
      let '(g, c, w5) := later_round d e f g h a b c 0x4ed8aa4a w5 w3 w14 w6 in
      let '(f, b, w6) := later_round c d e f g h a b 0x5b9cca4f w6 w4 w15 w7 in
      let '(e, a, w7) := later_round b c d e f g h a 0x682e6ff3 w7 w5 w0 w8 in
      let '(d, h, w8) := later_round a b c d e f g h 0x748f82ee w8 w6 w1 w9 in
      let '(c, g, w9) := later_round h a b c d e f g 0x78a5636f w9 w7 w2 w10 in
      let '(b, f, w10) := later_round g h a b c d e f 0x84c87814 w10 w8 w3 w11 in
      let '(a, e, w11) := later_round f g h a b c d e 0x8cc70208 w11 w9 w4 w12 in
      let '(h, d, w12) := later_round e f g h a b c d 0x90befffa w12 w10 w5 w13 in
      let '(g, c, w13) := later_round d e f g h a b c 0xa4506ceb w13 w11 w6 w14 in
      let '(f, b, w14) := later_round c d e f g h a b 0xbef9a3f7 w14 w12 w7 w15 in
      let '(e, a, w15) := later_round b c d e f g h a 0xc67178f2 w15 w13 w8 w0 in
      (a, b, c, d, e, f, g, h)
  | _ => st
  end.

Definition add_state (s t : State) : State :=
  let '(s0, s1, s2, s3, s4, s5, s6, s7) := s in
  let '(a, b, c, d, e, f, g, h) := t in
  (add32 s0 a, add32 s1 b, add32 s2 c, add32 s3 d, add32 s4 e, add32 s5 f, add32 s6 g,
   add32 s7 h).

Definition software_process_block (h : State) (buffer : list byte) : State :=
  let w := map from_be_bytes (chunks_exact 4 buffer) in
  add_state h (rounds h w).

(** ** The engine *)

Definition BLOCK_SIZE : nat := 64.

Definition default : HashEngine := mkEngine (replicate BLOCK_SIZE Byte.x00) initial_state 0.

Definition engine_input : HashEngine -> list byte -> HashEngine :=
  input BLOCK_SIZE software_process_block.

Definition state_words (st : State) : list Z :=
  let '(a, b, c, d, e, f, g, h) := st in [a; b; c; d; e; f; g; h].

Definition midstate (self : HashEngine) : list byte :=
  state_words (h self) ≫= to_be_bytes 4.

(** [8 * data_len] needs a message below 2^61 bytes. *)
Definition from_engine (e : HashEngine) : list byte :=
  let data_len := Z.of_nat (n_bytes_hashed e) in
  let zeroes := replicate (BLOCK_SIZE - 8) Byte.x00 in
  let e := engine_input e [byte.of_Z 0x80] in
  let e := if (length zeroes <? n_bytes_hashed e mod BLOCK_SIZE)%nat
           then engine_input e zeroes else e in
  let pad_length := (length zeroes - n_bytes_hashed e mod BLOCK_SIZE)%nat in
  let e := engine_input e (take pad_length zeroes) in
  let e := engine_input e (to_be_bytes 8 (wrap 64 (8 * data_len))) in
  midstate e.

Definition hash (data : list byte) : list byte := from_engine (engine_input default data).

Definition hash_byte_chunks (byte_slices : list (list byte)) : list byte :=
  from_engine (fold_left engine_input byte_slices default).

(** [sha256d]: the hash of the hash. *)
Definition sha256d_from_engine (e : HashEngine) : list byte := hash (from_engine e).
Definition sha256d (data : list byte) : list byte :=
  sha256d_from_engine (engine_input default data).

(** ** [const fn] hashing ([Midstate::const_hash]) *)

Definition byte_at (bytes : list byte) (i : nat) : Z := byte.unsigned (nth i bytes Byte.x00).

Definition read_u32 (bytes : list byte) (index : nat) : Z :=
  Z.lor (Z.lor (Z.lor (Z.shiftl (byte_at bytes (index + 0)) 24)
                      (Z.shiftl (byte_at bytes (index + 1)) 16))
               (Z.shiftl (byte_at bytes (index + 2)) 8))
        (Z.shiftl (byte_at bytes (index + 3)) 0).

Definition copy_w (bytes : list byte) (index : nat) : list Z :=
  map (fun i => read_u32 bytes (index + i * 4)) (seq 0 16).

(** The last one or two chunks: what is left of the message, the [0x80] marker and the
    bit length, in a buffer of zeros. *)
Definition last_chunk (bytes : list byte) (num_chunks chunk : nat) : list byte :=
  let len := length bytes in
  let i := (len - chunk * 64)%nat in
  let buf := copy_at 0 (drop (chunk * 64) bytes) (replicate 64 Byte.x00) in
  let buf := if (len mod 64 <=? 64 - 9)%nat || (chunk + 2 =? num_chunks)%nat
             then copy_at i [byte.of_Z 0x80] buf else buf in
  if (chunk + 1 =? num_chunks)%nat
  then copy_at (64 - 8) (to_be_bytes 8 (wrap 64 (Z.of_nat len * 8))) buf
  else buf.

Definition chunk_words (bytes : list byte) (num_chunks chunk : nat) : list Z :=
  if (chunk * 64 + 64 <=? length bytes)%nat then copy_w bytes (chunk * 64)
  else copy_w (last_chunk bytes num_chunks chunk) 0.

Fixpoint const_hash_loop (fuel : nat) (bytes : list byte) (finalize : bool)
    (num_chunks chunk : nat) (state : State) : State :=
  match fuel with
  | O => state
  | S fuel =>
      if (chunk <? num_chunks)%nat then
        if negb finalize && (chunk + 1 =? num_chunks)%nat then state
        else let w := chunk_words bytes num_chunks chunk in
             const_hash_loop fuel bytes finalize num_chunks (chunk + 1)
               (add_state state (rounds state w))
      else state
  end.

Definition const_hash (bytes : list byte) (finalize : bool) : list byte :=
  let num_chunks := ((length bytes + 9 + 63) / 64)%nat in
  state_words (const_hash_loop num_chunks bytes finalize num_chunks 0 initial_state)
    ≫= to_be_bytes 4.

(** [Midstate::hash_tag], for the tagged hashes of [sha256t]. *)
Definition hash_tag (tag : list byte) : list byte :=
  let hash := const_hash tag true in
  let buf := map (fun i => nth (i mod length hash) hash Byte.x00) (seq 0 64) in
  const_hash buf false.

(** ** FIPS 180-4 *)

Module Spec.

Definition rotr (n x : Z) : Z := rotate_left x (32 - n).
Definition ch (x y z : Z) : Z := Z.lxor (Z.land x y) (Z.land (Z.lnot x) z).
Definition maj (x y z : Z) : Z := Z.lxor (Z.lxor (Z.land x y) (Z.land x z)) (Z.land y z).
Definition big_sigma0 (x : Z) : Z := Z.lxor (Z.lxor (rotr 2 x) (rotr 13 x)) (rotr 22 x).
Definition big_sigma1 (x : Z) : Z := Z.lxor (Z.lxor (rotr 6 x) (rotr 11 x)) (rotr 25 x).
Definition small_sigma0 (x : Z) : Z := Z.lxor (Z.lxor (rotr 7 x) (rotr 18 x)) (Z.shiftr x 3).
Definition small_sigma1 (x : Z) : Z := Z.lxor (Z.lxor (rotr 17 x) (rotr 19 x)) (Z.shiftr x 10).

(** The round constants: the first 32 bits of the fractional parts of the cube roots of
    the first 64 primes, all of them below 312.  The root is found bit by bit. *)
Fixpoint cube_root (bits : nat) (n r : Z) : Z :=
  match bits with
  | O => r
  | S bits =>
      let r' := r + 2 ^ Z.of_nat bits in
      cube_root bits n (if r' * r' * r' <=? n then r' else r)
  end.
Definition prime (p : nat) : bool :=
  forallb (fun d => negb (p mod d =? 0)%nat) (seq 2 (p - 2)).
Definition K : list Z :=
  Eval vm_compute in
    map (fun p => cube_root 36 (Z.of_nat p * 2 ^ 96) 0 mod 2 ^ 32) (List.filter prime (seq 2 310)).

(** One round with round constant [k] and schedule word [w]. *)
Definition step (st : State) (k w : Z) : State :=
  let '(a, b, c, d, e, f, g, h) := st in
  let t1 := (h + big_sigma1 e + ch e f g + k + w) mod 2 ^ 32 in
  let t2 := (big_sigma0 a + maj a b c) mod 2 ^ 32 in
  ((t1 + t2) mod 2 ^ 32, a, b, c, (d + t1) mod 2 ^ 32, e, f, g).

(** The next schedule word from the last sixteen: [W_t] from [W_(t-16) .. W_(t-1)]. *)
Definition next_w (win : list Z) : Z :=
  (small_sigma1 (nth 14 win 0) + nth 9 win 0 + small_sigma0 (nth 1 win 0) + nth 0 win 0)
    mod 2 ^ 32.

Fixpoint first_rounds (ks ws : list Z) (st : State) : State :=
  match ks, ws with
  | k :: ks, w :: ws => first_rounds ks ws (step st k w)
  | _, _ => st
  end.

Fixpoint later_rounds (ks win : list Z) (st : State) : State :=
  match ks with
  | [] => st
  | k :: ks => let w := next_w win in later_rounds ks (tl win ++ [w]) (step st k w)
  end.

Definition all_rounds (st : State) (m : list Z) : State :=
  later_rounds (drop 16 K) m (first_rounds (take 16 K) m st).

Definition compress (st : State) (block : list byte) : State :=
  let m := map from_be_bytes (chunks_exact 4 block) in
  add_state st (all_rounds st m).

(** The padded message: a one bit, the fewest zeros, the bit length. *)
Definition pad (m : list byte) : list byte :=
  m ++ [byte.of_Z 0x80] ++
  replicate (Z.to_nat ((55 - Z.of_nat (length m)) mod 64)) Byte.x00 ++
  to_be_bytes 8 (8 * Z.of_nat (length m)).

Definition sha256 (m : list byte) : list byte :=
  state_words (absorb 64 compress (length (pad m) / 64) initial_state (pad m))
    ≫= to_be_bytes 4.

End Spec.

Module tests.
Example sha256_empty : hash [] = to_be_bytes 32
  0xe3b0c44298fc1c149afbf4c8996fb92427ae41e4649b934ca495991b7852b855.
Proof. vm_compute. reflexivity. Qed.
Example spec_abc : Spec.sha256 (map byte.of_Z [0x61; 0x62; 0x63]) = to_be_bytes 32
  0xba7816bf8f01cfea414140de5dae2223b00361a396177a9cb410ff61f20015ad.
Proof. vm_compute. reflexivity. Qed.
Example const_abc : const_hash (map byte.of_Z [0x61; 0x62; 0x63]) true = to_be_bytes 32
  0xba7816bf8f01cfea414140de5dae2223b00361a396177a9cb410ff61f20015ad.
Proof. vm_compute. reflexivity. Qed.
Example const_60 : const_hash (replicate 60 Byte.x61) true = hash (replicate 60 Byte.x61).
Proof. vm_compute. reflexivity. Qed.
End tests.

(** ** The compression function computes the specification's *)

Lemma add32_mod x y : add32 x y = (x + y) mod 2 ^ 32.
Proof. unfold add32. change mask32 with (Z.ones 32). by rewrite Z.land_ones. Qed.

Lemma add32_mod_l x y : add32 (x mod 2 ^ 32) y = (x + y) mod 2 ^ 32.
Proof. by rewrite add32_mod, Zplus_mod_idemp_l. Qed.

Lemma Ch_spec x y z : Ch x y z = Spec.ch x y z.
Proof.
  apply Z.bits_inj'; intros i Hi. unfold Ch, Spec.ch.
  repeat rewrite ?Z.lxor_spec, ?Z.land_spec, ?Z.lnot_spec by done. btauto.
Qed.

Lemma Maj_spec x y z : Maj x y z = Spec.maj x y z.
Proof.
  apply Z.bits_inj'; intros i Hi. unfold Maj, Spec.maj.
  repeat rewrite ?Z.lor_spec, ?Z.lxor_spec, ?Z.land_spec. btauto.
Qed.

Lemma step_round a b c d e f g h k w :
  Spec.step (a, b, c, d, e, f, g, h) k w =
  let '(d', h') := round a b c d e f g h k w in (h', a, b, c, d', e, f, g).
Proof.
  unfold Spec.step, round. rewrite Ch_spec, Maj_spec.
  assert (add32 (add32 (add32 (add32 h (Sigma1 e)) (Spec.ch e f g)) k) w =
    (h + Spec.big_sigma1 e + Spec.ch e f g + k + w) mod 2 ^ 32) as ->.
  { by rewrite (add32_mod h), !add32_mod_l. }
  by rewrite !add32_mod.
Qed.

Lemma later_round_next a b c d e f g h k x0 x1 x2 x3 x4 x5 x6 x7 x8 x9 x10 x11 x12 x13 x14 x15 :
  later_round a b c d e f g h k x0 x14 x9 x1 =
  let w := Spec.next_w [x0; x1; x2; x3; x4; x5; x6; x7; x8; x9; x10; x11; x12; x13; x14; x15] in
  let '(d', h') := round a b c d e f g h k w in (d', h', w).
Proof.
  unfold later_round, Spec.next_w; cbn [nth].
  assert (add32 (add32 (add32 x0 (sigma1 x14)) x9) (sigma0 x1) =
    (Spec.small_sigma1 x14 + x9 + Spec.small_sigma0 x1 + x0) mod 2 ^ 32) as ->; [|done].
  rewrite (add32_mod x0), !add32_mod_l. f_equal.
  change (sigma1 x14) with (Spec.small_sigma1 x14). change (sigma0 x1) with (Spec.small_sigma0 x1).
  lia.
Qed.

(** One turn of the two loops of the specification, in lock step with an unrolled round. *)
Lemma first_rounds_cons k ks w ws a b c d e f g h :
  Spec.first_rounds (k :: ks) (w :: ws) (a, b, c, d, e, f, g, h) =
  let '(d', h') := round a b c d e f g h k w in
  Spec.first_rounds ks ws (h', a, b, c, d', e, f, g).
Proof. cbn [Spec.first_rounds]. rewrite step_round. by destruct (round _ _ _ _ _ _ _ _ _ _). Qed.

Lemma later_rounds_cons k ks x0 x1 x2 x3 x4 x5 x6 x7 x8 x9 x10 x11 x12 x13 x14 x15 a b c d e f g h :
  Spec.later_rounds (k :: ks)
    [x0; x1; x2; x3; x4; x5; x6; x7; x8; x9; x10; x11; x12; x13; x14; x15] (a, b, c, d, e, f, g, h) =
  let '(d', h', w) := later_round a b c d e f g h k x0 x14 x9 x1 in
  Spec.later_rounds ks
    [x1; x2; x3; x4; x5; x6; x7; x8; x9; x10; x11; x12; x13; x14; x15; w] (h', a, b, c, d', e, f, g).
Proof.
  rewrite (later_round_next a b c d e f g h k x0 x1 x2 x3 x4 x5 x6 x7 x8 x9 x10 x11 x12 x13 x14 x15).
  cbn [Spec.later_rounds]. set (w := Spec.next_w _). cbv zeta. cbn [tl app].
  rewrite step_round. by destruct (round _ _ _ _ _ _ _ _ _ _).
Qed.

(** The unrolled, in-place rounds are the specification's rounds over its schedule. *)
Lemma rounds_spec st w : length w = 16%nat -> rounds st w = Spec.all_rounds st w.
Proof.
  destruct st as [[[[[[[a b] c] d] e] f] g] h].
  destruct w as [|w0[|w1[|w2[|w3[|w4[|w5[|w6[|w7[|w8[|w9[|w10[|w11[|w12[|w13[|w14[|w15 w]]]]]]]]]]]]]]]];
    try done. destruct w; [intros _|done].
  unfold Spec.all_rounds.
  let l := eval cbv in (take 16 Spec.K) in change (take 16 Spec.K) with l.
  let l := eval cbv in (drop 16 Spec.K) in change (drop 16 Spec.K) with l.
  unfold rounds.
  do 16 (rewrite first_rounds_cons;
    match goal with |- context [round ?a ?b ?c ?d ?e ?f ?g ?h ?k ?w] =>
      destruct (round a b c d e f g h k w) as [? ?] end).
  cbn [Spec.first_rounds].
  do 48 (rewrite later_rounds_cons;
    match goal with |- context [later_round ?a ?b ?c ?d ?e ?f ?g ?h ?k ?w ?x ?y ?z] =>
      destruct (later_round a b c d e f g h k w x y z) as [[? ?] ?] end).
  done.
Qed.

Lemma chunks_length count size l : length (chunks count size l) = count.
Proof. revert l. induction count; intros; simpl; auto. Qed.

Lemma process_block_spec st block : length block = 64%nat ->
  software_process_block st block = Spec.compress st block.
Proof.
  intros Hl. unfold software_process_block, Spec.compress. f_equal.
  apply rounds_spec. unfold chunks_exact. by rewrite length_map, chunks_length, Hl.
Qed.

Lemma absorb_spec n st m : (n * 64 <= length m)%nat ->
  absorb 64 software_process_block n st m = absorb 64 Spec.compress n st m.
Proof.
  intros. apply (absorb_ext (fun _ => True)); [|done..]. split; [by apply process_block_spec|done].
Qed.

(** ** The engine computes the specification's hash *)

Abbreviation sha_represents e m := (represents 64 software_process_block initial_state e m).

Lemma default_represents : sha_represents default [].
Proof. by repeat split. Qed.

Lemma engine_input_represents e m d : sha_represents e m -> sha_represents (engine_input e d) (m ++ d).
Proof. intros. apply input_represents; [apply Nat.lt_0_succ|done]. Qed.

Lemma represents_bytes e m : sha_represents e m -> n_bytes_hashed e = length m.
Proof. by intros (_ & ? & _). Qed.

Lemma from_engine_represents e m : sha_represents e m ->
  8 * Z.of_nat (length m) < 2 ^ 64 -> from_engine e = Spec.sha256 m.
Proof.
  intros Hr Hlen.
  change (from_engine e) with
    (midstate (engine_input (pad_to 64 software_process_block 8 e)
       (to_be_bytes 8 (wrap 64 (8 * Z.of_nat (n_bytes_hashed e)))))).
  rewrite (represents_bytes e m Hr).
  pose proof (pad_to_represents 64 software_process_block initial_state ltac:(lia) 8 e m ltac:(lia)
    ltac:(lia) Hr) as Hp.
  pose proof (engine_input_represents _ _ (to_be_bytes 8 (wrap 64 (8 * Z.of_nat (length m)))) Hp) as Hq.
  rewrite wrap_small in Hq |- * by (unfold in_u; lia). rewrite <- !app_assoc in Hq.
  fold (Spec.pad m) in Hq. unfold midstate, Spec.sha256.
  destruct Hq as (_ & _ & -> & _). f_equal. f_equal. apply absorb_spec.
  rewrite Nat.mul_comm. by apply Nat.Div0.mul_div_le.
Qed.

(** However a message is cut into pieces, the engine stands for the message. *)
Lemma engine_inputs_represents slices e m : sha_represents e m ->
  sha_represents (fold_left engine_input slices e) (m ++ concat slices).
Proof. apply fold_input_represents. apply Nat.lt_0_succ. Qed.

Lemma hash_spec data : 8 * Z.of_nat (length data) < 2 ^ 64 -> hash data = Spec.sha256 data.
Proof.
  intros. apply from_engine_represents; [|done].
  apply (engine_input_represents default []), default_represents.
Qed.

(** ** [const_hash] computes the specification's hash *)

Lemma read_u32_spec bytes i : (i + 4 <= length bytes)%nat ->
  read_u32 bytes i = from_be_bytes (take 4 (drop i bytes)).
Proof.
  intros Hl. unfold read_u32, byte_at.
  assert (forall k, nth (i + k) bytes Byte.x00 = nth k (drop i bytes) Byte.x00) as Hn.
  { intros k. rewrite <- (take_drop i bytes) at 1. rewrite app_nth2, length_take; [|rewrite length_take; lia].
    f_equal. lia. }
  rewrite !Hn. assert (4 <= length (drop i bytes))%nat as Hd by (rewrite length_drop; lia).
  destruct (drop i bytes) as [|b0 [|b1 [|b2 [|b3 l]]]]; simpl in Hd; try lia.
  unfold from_be_bytes. cbn [nth]. change (take 4 (b0 :: b1 :: b2 :: b3 :: l)) with [b0; b1; b2; b3].
  cbn [rev app]. cbv beta iota fix delta [le_combine].
  rewrite ?Z.shiftl_0_l, ?Z.lor_0_r, !Z.shiftl_lor, !Z.shiftl_shiftl, ?Z.shiftl_0_r by lia.
  change (8 + (8 + 8)) with 24. change (8 + 8) with 16. apply Z.bits_inj'; intros j Hj. rewrite !Z.lor_spec. btauto.
Qed.

Lemma chunks_map count size l :
  chunks count size l = map (fun i => take size (drop (i * size) l)) (seq 0 count).
Proof.
  revert l. induction count as [|count IH]; intros l; [done|]. cbn [chunks seq map].
  rewrite drop_0. f_equal. rewrite IH, <- seq_shift, map_map. apply map_ext. intros i.
  rewrite drop_drop. f_equal.
Qed.

Lemma copy_w_spec bytes i : (i + 64 <= length bytes)%nat ->
  copy_w bytes i = map from_be_bytes (chunks_exact 4 (take 64 (drop i bytes))).
Proof.
  intros Hl. unfold chunks_exact, copy_w. rewrite length_take, length_drop, Nat.min_l by lia.
  change (64 / 4)%nat with 16%nat. rewrite chunks_map, map_map. apply map_ext_in.
  intros k [_ Hk]%in_seq. rewrite read_u32_spec by lia. f_equal.
  rewrite skipn_firstn_comm, drop_drop, take_take, Nat.min_l by lia. f_equal.
Qed.

Lemma copy_at_0 bs n : (length bs <= n)%nat ->
  copy_at 0 bs (replicate n Byte.x00) = bs ++ replicate (n - length bs) Byte.x00.
Proof. intros. unfold copy_at. rewrite drop_replicate. done. Qed.

Lemma to_be_bytes_length n v : length (to_be_bytes n v) = n.
Proof. unfold to_be_bytes. by rewrite length_rev, length_le_split. Qed.

Lemma app_marker (d : list byte) x n rest :
  d ++ [x] ++ replicate n Byte.x00 ++ rest = (d ++ [x] ++ replicate n Byte.x00) ++ rest.
Proof. by rewrite <- !app_assoc. Qed.

Section last_chunk.
Context (bytes : list byte).
Let len := length bytes.
Let q := (len / 64)%nat.
Let r := (len mod 64)%nat.
Let num_chunks := ((len + 9 + 63) / 64)%nat.
Let bits := to_be_bytes 8 (8 * Z.of_nat len).

Lemma len_split : len = (q * 64 + r)%nat /\ (r < 64)%nat.
Proof.
  unfold q, r. split; [rewrite Nat.mul_comm; apply Nat.div_mod; lia|apply Nat.mod_upper_bound; lia].
Qed.

Lemma num_chunks_eq : num_chunks = if (r <=? 55)%nat then (q + 1)%nat else (q + 2)%nat.
Proof.
  unfold num_chunks. pose proof len_split. destruct (Nat.leb_spec r 55); symmetry.
  - apply Nat.div_unique with (r + 8)%nat; lia.
  - apply Nat.div_unique with (r - 56)%nat; lia.
Qed.

Lemma pad_zeroes : Z.to_nat ((55 - Z.of_nat len) mod 64) =
  (if r <=? 55 then 55 - r else 119 - r)%nat.
Proof.
  pose proof len_split. destruct (Nat.leb_spec r 55).
  - replace ((55 - Z.of_nat len) mod 64) with (55 - Z.of_nat r)
      by (apply Z.mod_unique with (- Z.of_nat q); lia). lia.
  - replace ((55 - Z.of_nat len) mod 64) with (119 - Z.of_nat r)
      by (apply Z.mod_unique with (- Z.of_nat q - 1); lia). lia.
Qed.

Lemma pad_length : length (Spec.pad bytes) = (num_chunks * 64)%nat.
Proof.
  unfold Spec.pad. fold len. rewrite !length_app, length_replicate, to_be_bytes_length, pad_zeroes.
  fold len. rewrite num_chunks_eq. pose proof len_split. simpl length. destruct (Nat.leb_spec r 55); lia.
Qed.

Context (Hbits : 8 * Z.of_nat len < 2 ^ 64).

Lemma drop_pad k : (k * 64 <= len)%nat ->
  drop (k * 64) (Spec.pad bytes) = drop (k * 64) bytes ++ [byte.of_Z 0x80] ++
    replicate (if r <=? 55 then 55 - r else 119 - r)%nat Byte.x00 ++ bits.
Proof. intros. unfold Spec.pad. fold len. rewrite pad_zeroes, drop_app_le by done. done. Qed.

Lemma bits_wrap : to_be_bytes 8 (wrap 64 (Z.of_nat len * 8)) = bits.
Proof. unfold bits. rewrite wrap_small by (unfold in_u; lia). by rewrite Z.mul_comm. Qed.

Lemma last_chunk_spec chunk : (chunk < num_chunks)%nat -> (len < chunk * 64 + 64)%nat ->
  last_chunk bytes num_chunks chunk = take 64 (drop (chunk * 64) (Spec.pad bytes)).
Proof.
  intros Hc Hl. pose proof len_split as [Hlen Hr]. pose proof num_chunks_eq as Hn.
  unfold last_chunk. fold len r. rewrite bits_wrap. change (64 - 9)%nat with 55%nat.
  change (64 - 8)%nat with 56%nat.
  assert (length (drop (q * 64) bytes) = r) as Hd by (rewrite length_drop; fold len; lia).
  assert (length bits = 8)%nat as Hb by apply to_be_bytes_length.
  destruct (Nat.leb_spec r 55) as [H55|H55]; [|destruct (Nat.eq_dec chunk q)].
  - assert (chunk = q) as -> by lia. simpl orb. cbv iota.
    rewrite drop_pad, (proj2 (Nat.leb_le r 55)), (proj2 (Nat.eqb_eq _ _)) by lia.
    set (d := drop (q * 64) bytes) in *. rewrite copy_at_0 by lia. rewrite Hd.
    replace (len - q * 64)%nat with r by lia.
    replace (64 - r)%nat with (1 + ((55 - r) + 8))%nat by lia.
    rewrite replicate_add, copy_at_app, replicate_add by (done || lia).
    rewrite !app_marker, copy_at_end by (rewrite ?length_app, ?length_replicate, ?Hd; simpl; lia).
    rewrite take_ge; [done|]. rewrite !length_app, length_replicate. simpl; lia.
  - subst chunk. rewrite (proj2 (Nat.eqb_eq (q + 2) _)), (proj2 (Nat.eqb_neq (q + 1) _)) by lia.
    rewrite orb_true_r. rewrite drop_pad, (proj2 (Nat.leb_gt r 55)) by lia.
    set (d := drop (q * 64) bytes) in *. rewrite copy_at_0 by lia. rewrite Hd.
    replace (len - q * 64)%nat with r by lia.
    replace (64 - r)%nat with (1 + (63 - r))%nat by lia.
    rewrite replicate_add, copy_at_app by (done || lia).
    replace (119 - r)%nat with ((63 - r) + 56)%nat by lia. rewrite replicate_add.
    rewrite <- app_assoc.
    rewrite app_marker, take_app_length'; [done|]. rewrite !length_app, length_replicate. simpl; lia.
  - assert (chunk = q + 1)%nat as -> by lia.
    rewrite (proj2 (Nat.eqb_neq (q + 1 + 2) _)), (proj2 (Nat.eqb_eq (q + 1 + 1) _)) by lia.
    replace ((q + 1) * 64)%nat with (q * 64 + 64)%nat by lia.
    rewrite <- !drop_drop. rewrite drop_pad, (proj2 (Nat.leb_gt r 55)) by lia.
    set (d := drop (q * 64) bytes) in *. rewrite (drop_ge d) by lia.
    rewrite orb_false_r. change (copy_at 0 [] (replicate 64 Byte.x00)) with (replicate (56 + 8) Byte.x00).
    rewrite replicate_add, copy_at_end by (rewrite ?length_replicate; lia).
    replace (119 - r)%nat with ((63 - r) + 56)%nat by lia. rewrite replicate_add.
    rewrite <- (app_assoc (replicate (63 - r) _)).
    rewrite app_marker, drop_app_length' by (rewrite !length_app, length_replicate; simpl; lia).
    rewrite take_ge; [done|]. rewrite !length_app, length_replicate. lia.
Qed.
End last_chunk.

Lemma chunk_words_spec bytes chunk :
  let num_chunks := ((length bytes + 9 + 63) / 64)%nat in
  8 * Z.of_nat (length bytes) < 2 ^ 64 -> (chunk < num_chunks)%nat ->
  chunk_words bytes num_chunks chunk =
  map from_be_bytes (chunks_exact 4 (take 64 (drop (chunk * 64) (Spec.pad bytes)))).
Proof.
  intros num_chunks Hb Hc. unfold chunk_words.
  destruct (Nat.leb_spec (chunk * 64 + 64) (length bytes)).
  - rewrite copy_w_spec by done. unfold Spec.pad. rewrite drop_app_le by lia.
    by rewrite take_app_le by (rewrite length_drop; lia).
  - unfold num_chunks. rewrite last_chunk_spec by (done || lia).
    rewrite copy_w_spec; [by rewrite drop_0, take_take|].
    rewrite length_take, length_drop, pad_length. fold num_chunks. lia.
Qed.

Lemma const_hash_loop_spec bytes fuel : forall chunk st,
  let num_chunks := ((length bytes + 9 + 63) / 64)%nat in
  8 * Z.of_nat (length bytes) < 2 ^ 64 -> (num_chunks = chunk + fuel)%nat ->
  const_hash_loop fuel bytes true num_chunks chunk st =
  absorb 64 Spec.compress fuel st (drop (chunk * 64) (Spec.pad bytes)).
Proof.
  induction fuel as [|fuel IH]; intros chunk st num_chunks Hb Hn; [done|].
  cbn [const_hash_loop absorb negb andb]. rewrite (proj2 (Nat.ltb_lt _ _)) by lia.
  cbv zeta. rewrite IH by (done || lia). rewrite drop_drop.
  replace ((chunk + 1) * 64)%nat with (chunk * 64 + 64)%nat by lia. f_equal.
  unfold Spec.compress, num_chunks. rewrite chunk_words_spec by (done || lia). f_equal.
  apply rounds_spec. unfold chunks_exact.
  rewrite length_map, chunks_length, length_take, length_drop, pad_length.
  fold num_chunks. by rewrite Nat.min_l by lia.
Qed.

Lemma const_hash_spec bytes : 8 * Z.of_nat (length bytes) < 2 ^ 64 ->
  const_hash bytes true = Spec.sha256 bytes.
Proof.
  intros. unfold const_hash, Spec.sha256. rewrite const_hash_loop_spec by (done || lia).
  rewrite pad_length, Nat.div_mul by lia. by rewrite drop_0.
Qed.

(** The tag midstate is the engine's after two copies of the tag's hash. *)
Lemma state_words_length st : length (state_words st ≫= to_be_bytes 4) = 32%nat.
Proof.
  destruct st as [[[[[[[a b] c] d] e] f] g] h]. cbn [state_words].
  repeat rewrite ?bind_cons, ?length_app, ?to_be_bytes_length. done.
Qed.

Lemma double_index (hsh : list byte) : length hsh = 32%nat ->
  map (fun i => nth (i mod length hsh) hsh Byte.x00) (seq 0 64) = hsh ++ hsh.
Proof.
  intros Hl. rewrite Hl.
  do 32 (destruct hsh as [|? hsh]; [done|]). by destruct hsh.
Qed.

Lemma hash_tag_spec tag : 8 * Z.of_nat (length tag) < 2 ^ 64 ->
  hash_tag tag = midstate (engine_input default (hash tag ++ hash tag)).
Proof.
  intros Hl. unfold hash_tag. rewrite const_hash_spec, <- hash_spec by done.
  assert (length (hash tag) = 32%nat) as Hh by apply state_words_length.
  rewrite double_index by done. set (m := hash tag ++ hash tag).
  assert (length m = 64%nat) as Hm by (unfold m; rewrite length_app; lia).
  pose proof (engine_input_represents default [] m default_represents) as (_ & _ & Hst & _).
  simpl app in Hst. unfold midstate. rewrite Hst, Hm. change (64 / 64)%nat with 1%nat.
  unfold const_hash. rewrite Hm. change ((64 + 9 + 63) / 64)%nat with 2%nat.
  cbn [const_hash_loop absorb negb andb Nat.ltb Nat.leb Nat.add Nat.eqb].
  cbv zeta. unfold software_process_block. f_equal. f_equal. f_equal. f_equal.
  unfold chunk_words. rewrite Hm. change (0 * 64 + 64 <=? 64)%nat with true. cbv iota.
  rewrite copy_w_spec by (rewrite Hm; apply le_n). by rewrite drop_0.
Qed.

Lemma sha256d_represents e m : sha_represents e m -> 8 * Z.of_nat (length m) < 2 ^ 64 ->
  sha256d_from_engine e = Spec.sha256 (Spec.sha256 m).
Proof.
  intros Hr Hl. unfold sha256d_from_engine. rewrite (from_engine_represents e m) by done.
  apply hash_spec. unfold Spec.sha256. rewrite state_words_length. lia.
Qed.

Lemma sha256d_length b : length (sha256d b) = 32%nat.
Proof. apply state_words_length. Qed.

(** ** Properties *)

(** C36: hashing a message in pieces, through the engine's block buffer, unrolled
    in-place rounds and two-branch padding, gives the FIPS 180-4 SHA-256 of the
    concatenation, wherever the message is cut; so does the compile-time [const_hash]. *)
Theorem sha256_engine_correct (slices : list (list byte))
    (Hlen : 8 * Z.of_nat (length (concat slices)) < 2 ^ 64) :
  hash_byte_chunks slices = Spec.sha256 (concat slices) /\
  const_hash (concat slices) true = Spec.sha256 (concat slices).
Proof.
  split; [|by apply const_hash_spec]. apply from_engine_represents; [|done].
  apply (engine_inputs_represents slices default []), default_represents.
Qed.

Lemma sha256_engine_correct_witness :
  let slices := [map byte.of_Z [0x61]; []; map byte.of_Z [0x62; 0x63]] in
  hash_byte_chunks slices = Spec.sha256 (concat slices) /\
  const_hash (concat slices) true = Spec.sha256 (concat slices).
Proof.
  exact (sha256_engine_correct [map byte.of_Z [0x61]; []; map byte.of_Z [0x62; 0x63]] eq_refl).
Defined.
