(* ===== verification/Sha256t.v ===== *)
(** * Tagged hashes ([hashes/src/sha256t.rs], [HashEngine::from_midstate])

    A tagged hash is SHA-256 started from a precomputed midstate.  The midstate is the state
    after one block, two copies of the hash of the tag, so the result is the BIP-340 hash
    [SHA256(SHA256(tag) ++ SHA256(tag) ++ message)]. *)

From Stdlib Require Import ZArith Lia.
From Stdlib Require Strings.String.
From coqutil Require Import Byte Word.LittleEndianList.
From stdpp Require Import base tactics option list numbers.
From S2P Require Import Prelude HashEngine Sha256.
Import String.StringSyntax.

#[local] Open Scope Z_scope.

(** ** Engines from a midstate *)

Definition state_of_words (l : list Z) : State :=
  match l with
  | [a; b; c; d; e; f; g; h] => (a, b, c, d, e, f, g, h)
  | _ => initial_state
  end.

(** The eight big-endian words of a 32-byte midstate; the length must be a whole number of
    blocks. *)
Definition from_midstate (midstate : list byte) (length : nat) : run (@HashEngine State) :=
  _ ← assert_ (Nat.eqb (length mod BLOCK_SIZE) 0);
  Ret (mkEngine (replicate BLOCK_SIZE Byte.x00)
         (state_of_words (map from_be_bytes (chunks_exact 4 midstate))) length).

(** [Tag::engine] of a tag declared with [hash_str]: the constant [MIDSTATE] is the pair of
    [hash_tag] and 64, and [_LENGTH_CHECK] rules the panic out at compile time. *)
Definition tag_engine (tag : list byte) : @HashEngine State :=
  match from_midstate (hash_tag tag) 64 with Ret e => e | Panic => default end.

Definition sha256t_from_engine (e : @HashEngine State) : list byte := from_engine e.

(** ** BIP-340 *)

Definition tagged_hash (tag msg : list byte) : list byte :=
  Spec.sha256 (Spec.sha256 tag ++ Spec.sha256 tag ++ msg).

(** ** The engine stands for the two tag hashes *)

Lemma from_to_be_bytes n v : 0 <= v < 2 ^ (8 * Z.of_nat n) ->
  from_be_bytes (to_be_bytes n v) = v.
Proof.
  intros Hv. unfold from_be_bytes, to_be_bytes. rewrite rev_involutive, le_combine_split.
  apply Z.mod_small. by rewrite (Z.mul_comm (Z.of_nat n)).
Qed.

Lemma state_words_roundtrip st : Forall (in_u 32) (state_words st) ->
  state_of_words (map from_be_bytes (chunks_exact 4 (state_words st ≫= to_be_bytes 4))) = st.
Proof.
  destruct st as [[[[[[[a b] c] d] e] f] g] h]. cbn [state_words]. intros Hw.
  unfold chunks_exact.
  pose proof (state_words_length (a, b, c, d, e, f, g, h)) as Hl. cbn [state_words] in Hl.
  rewrite Hl. clear Hl. change (32 / 4)%nat with 8%nat.
  rewrite !bind_cons. cbn [chunks].
  repeat rewrite drop_app_length' by (by rewrite to_be_bytes_length).
  repeat rewrite take_app_length' by (by rewrite to_be_bytes_length).
  cbn [map]. repeat (apply Forall_cons_iff in Hw as [? Hw]).
  rewrite !from_to_be_bytes by done. done.
Qed.

Lemma add_state_words s t : Forall (in_u 32) (state_words (add_state s t)).
Proof.
  destruct s as [[[[[[[? ?] ?] ?] ?] ?] ?] ?], t as [[[[[[[? ?] ?] ?] ?] ?] ?] ?].
  cbn [add_state state_words]. rewrite !add32_mod.
  repeat constructor; apply Z.mod_pos_bound; lia.
Qed.

Lemma hash_length m : length (hash m) = 32%nat.
Proof. unfold hash, from_engine. apply state_words_length. Qed.

Lemma tag_engine_ok tag : from_midstate (hash_tag tag) 64 = Ret (tag_engine tag).
Proof. done. Qed.

Lemma tag_engine_represents tag : 8 * Z.of_nat (length tag) < 2 ^ 64 ->
  sha_represents (tag_engine tag) (Spec.sha256 tag ++ Spec.sha256 tag).
Proof.
  intros Ht. unfold tag_engine. rewrite <- hash_spec by done.
  set (m := hash tag ++ hash tag).
  assert (length m = 64%nat) as Hm by (unfold m; rewrite length_app, hash_length; done).
  pose proof (engine_input_represents default [] m default_represents) as (_ & _ & Hst & _).
  simpl app in Hst. rewrite hash_tag_spec by done. fold m. unfold from_midstate.
  change (64 mod BLOCK_SIZE =? 0)%nat with true. cbn [assert_ mbind run_bind].
  unfold midstate. rewrite Hst, Hm. change (64 / BLOCK_SIZE)%nat with 1%nat. cbn [absorb].
  repeat split; cbn [buffer h n_bytes_hashed]; rewrite ?Hm; try done.
  - rewrite state_words_roundtrip; [done|]. apply add_state_words.
  - symmetry. apply drop_ge. rewrite Hm. done.
Qed.

(** Feeding the tag's engine and finishing gives the BIP-340 hash. *)
Lemma tagged_represents e tag msg : sha_represents e (Spec.sha256 tag ++ Spec.sha256 tag ++ msg) ->
  8 * Z.of_nat (64 + length msg) < 2 ^ 64 -> sha256t_from_engine e = tagged_hash tag msg.
Proof.
  intros He Hl. apply from_engine_represents; [done|].
  unfold Spec.sha256. rewrite !length_app, !state_words_length. lia.
Qed.

Lemma tag_engine_input tag msg : 8 * Z.of_nat (length tag) < 2 ^ 64 ->
  8 * Z.of_nat (64 + length msg) < 2 ^ 64 ->
  sha256t_from_engine (engine_input (tag_engine tag) msg) = tagged_hash tag msg.
Proof.
  intros Ht Hm. apply tagged_represents; [|done]. rewrite app_assoc.
  by apply engine_input_represents, tag_engine_represents.
Qed.

Lemma tagged_hash_length tag msg : length (tagged_hash tag msg) = 32%nat.
Proof. apply state_words_length. Qed.

Lemma sha256t_length e : length (sha256t_from_engine e) = 32%nat.
Proof. unfold sha256t_from_engine, from_engine. apply state_words_length. Qed.

Lemma sha256_length m : length (Spec.sha256 m) = 32%nat.
Proof. apply state_words_length. Qed.

(** ** Collisions *)

(** The message under SHA-256. *)
Definition tagged_msg (tag msg : list byte) : list byte := Spec.sha256 tag ++ Spec.sha256 tag ++ msg.
Lemma tagged_hash_msg tag msg : tagged_hash tag msg = Spec.sha256 (tagged_msg tag msg).
Proof. done. Qed.

(** Two different messages, one of each list, with one hash. *)
Definition sha256_collision (l1 l2 : list (list byte)) : Prop :=
  exists m1 m2, m1 ∈ l1 /\ m2 ∈ l2 /\ m1 <> m2 /\ Spec.sha256 m1 = Spec.sha256 m2.

Lemma sha256_eq l1 l2 m1 m2 : Spec.sha256 m1 = Spec.sha256 m2 -> m1 ∈ l1 -> m2 ∈ l2 ->
  m1 = m2 \/ sha256_collision l1 l2.
Proof. intros. destruct (decide (m1 = m2)); [by left|]. right. by exists m1, m2. Qed.

Lemma sha256_collision_weaken l1 l2 k1 k2 : sha256_collision l1 l2 -> l1 ⊆ k1 -> l2 ⊆ k2 ->
  sha256_collision k1 k2.
Proof. intros (m1 & m2 & ? & ? & ? & ?) Hk1 Hk2. exists m1, m2. auto. Qed.

Lemma sha256_collision_dec l1 l2 : sha256_collision l1 l2 \/
  forall m1 m2, m1 ∈ l1 -> m2 ∈ l2 -> Spec.sha256 m1 = Spec.sha256 m2 -> m1 = m2.
Proof.
  destruct (decide (Exists (fun m1 => Exists (fun m2 => m1 <> m2 /\ Spec.sha256 m1 = Spec.sha256 m2) l2) l1))
    as [He|Hn].
  - left. apply Exists_exists in He as (m1 & H1 & (m2 & H2 & Hne & E)%Exists_exists).
    exists m1, m2. by rewrite !list_elem_of_In.
  - right. intros m1 m2 H1%list_elem_of_In H2%list_elem_of_In E.
    destruct (decide (m1 = m2)) as [|Hne]; [done|]. destruct Hn.
    apply Exists_exists. exists m1. split; [done|]. apply Exists_exists. by exists m2.
Qed.
