(* ===== verification/Ripemd160.v ===== *)
(** * RIPEMD-160 and HASH160 ([hashes/src/ripemd160.rs], [hashes/src/hash160.rs])

    The source runs the two lines of the compression function on arrays whose roles rotate: each
    of the 160 rows names the five array positions, the message word and the rotation.  The
    reference definition [rmd_spec] follows the publication of the function: five registers that
    move, word selection by the permutations rho and pi, constants from square and cube roots. *)

From Stdlib Require Import ZArith Lia.
From coqutil Require Import Byte Word.LittleEndianList.
From stdpp Require Import base tactics option list numbers.
From S2P Require Import Prelude HashEngine Sha256.

#[local] Open Scope Z_scope.

Module ripemd160.

Definition BLOCK_SIZE : nat := 64.

(** [!x] of a [u32]. *)
Definition not32 (x : Z) : Z := Z.land (Z.lnot x) mask32.

(** ** The compression function of the source *)

Definition word (bb : list Z) (i : nat) : Z := nth i bb 0.

(** [round!]: the first two statements assign [bb[a]], the third [bb[c]]. *)
Definition round (bb : list Z) (a c e : nat) (x bits add rnd : Z) : list Z :=
  let bb := <[a := add32 (add32 (add32 (word bb a) rnd) x) add]> bb in
  let bb := <[a := add32 (rotate_left (word bb a) bits) (word bb e)]> bb in
  <[c := rotate_left (word bb c) 10]> bb.

(** A row of the [process_block!] table. *)
Record row := mkRow { f0 : nat; f1 : nat; f2 : nat; f3 : nat; f4 : nat; data_index : nat; bits : Z }.

(** The expressions the five groups of rows pass as [$round]. *)
Definition fn1 (x y z : Z) : Z := Z.lxor (Z.lxor x y) z.
Definition fn2 (x y z : Z) : Z := Z.lor (Z.land x y) (Z.land (not32 x) z).
Definition fn3 (x y z : Z) : Z := Z.lxor (Z.lor x (not32 y)) z.
Definition fn4 (x y z : Z) : Z := Z.lor (Z.land x z) (Z.land y (not32 z)).
Definition fn5 (x y z : Z) : Z := Z.lxor x (Z.lor y (not32 z)).

(** One [$( round!(..); )*] group. *)
Definition group (fn : Z -> Z -> Z -> Z) (add : Z) (rows : list row) (data bb : list Z) : list Z :=
  fold_left (fun bb r =>
    round bb (f0 r) (f2 r) (f4 r) (word data (data_index r)) (bits r) add
      (fn (word bb (f1 r)) (word bb (f2 r)) (word bb (f3 r)))) rows bb.

Definition round1 : list row :=
  [mkRow 0 1 2 3 4 0 11; mkRow 4 0 1 2 3 1 14; mkRow 3 4 0 1 2 2 15; mkRow 2 3 4 0 1 3 12;
   mkRow 1 2 3 4 0 4 5; mkRow 0 1 2 3 4 5 8; mkRow 4 0 1 2 3 6 7; mkRow 3 4 0 1 2 7 9;
   mkRow 2 3 4 0 1 8 11; mkRow 1 2 3 4 0 9 13; mkRow 0 1 2 3 4 10 14; mkRow 4 0 1 2 3 11 15;
   mkRow 3 4 0 1 2 12 6; mkRow 2 3 4 0 1 13 7; mkRow 1 2 3 4 0 14 9; mkRow 0 1 2 3 4 15 8].
Definition round2 : list row :=
  [mkRow 4 0 1 2 3 7 7; mkRow 3 4 0 1 2 4 6; mkRow 2 3 4 0 1 13 8; mkRow 1 2 3 4 0 1 13;
   mkRow 0 1 2 3 4 10 11; mkRow 4 0 1 2 3 6 9; mkRow 3 4 0 1 2 15 7; mkRow 2 3 4 0 1 3 15;
   mkRow 1 2 3 4 0 12 7; mkRow 0 1 2 3 4 0 12; mkRow 4 0 1 2 3 9 15; mkRow 3 4 0 1 2 5 9;
   mkRow 2 3 4 0 1 2 11; mkRow 1 2 3 4 0 14 7; mkRow 0 1 2 3 4 11 13; mkRow 4 0 1 2 3 8 12].
Definition round3 : list row :=
  [mkRow 3 4 0 1 2 3 11; mkRow 2 3 4 0 1 10 13; mkRow 1 2 3 4 0 14 6; mkRow 0 1 2 3 4 4 7;
   mkRow 4 0 1 2 3 9 14; mkRow 3 4 0 1 2 15 9; mkRow 2 3 4 0 1 8 13; mkRow 1 2 3 4 0 1 15;
   mkRow 0 1 2 3 4 2 14; mkRow 4 0 1 2 3 7 8; mkRow 3 4 0 1 2 0 13; mkRow 2 3 4 0 1 6 6;
   mkRow 1 2 3 4 0 13 5; mkRow 0 1 2 3 4 11 12; mkRow 4 0 1 2 3 5 7; mkRow 3 4 0 1 2 12 5].
Definition round4 : list row :=
  [mkRow 2 3 4 0 1 1 11; mkRow 1 2 3 4 0 9 12; mkRow 0 1 2 3 4 11 14; mkRow 4 0 1 2 3 10 15;
   mkRow 3 4 0 1 2 0 14; mkRow 2 3 4 0 1 8 15; mkRow 1 2 3 4 0 12 9; mkRow 0 1 2 3 4 4 8;
   mkRow 4 0 1 2 3 13 9; mkRow 3 4 0 1 2 3 14; mkRow 2 3 4 0 1 7 5; mkRow 1 2 3 4 0 15 6;
   mkRow 0 1 2 3 4 14 8; mkRow 4 0 1 2 3 5 6; mkRow 3 4 0 1 2 6 5; mkRow 2 3 4 0 1 2 12].
Definition round5 : list row :=
  [mkRow 1 2 3 4 0 4 9; mkRow 0 1 2 3 4 0 15; mkRow 4 0 1 2 3 5 5; mkRow 3 4 0 1 2 9 11;
   mkRow 2 3 4 0 1 7 6; mkRow 1 2 3 4 0 12 8; mkRow 0 1 2 3 4 2 13; mkRow 4 0 1 2 3 10 12;
   mkRow 3 4 0 1 2 14 5; mkRow 2 3 4 0 1 1 12; mkRow 1 2 3 4 0 3 13; mkRow 0 1 2 3 4 8 14;
   mkRow 4 0 1 2 3 11 11; mkRow 3 4 0 1 2 6 8; mkRow 2 3 4 0 1 15 5; mkRow 1 2 3 4 0 13 6].
Definition par_round1 : list row :=
  [mkRow 0 1 2 3 4 5 8; mkRow 4 0 1 2 3 14 9; mkRow 3 4 0 1 2 7 9; mkRow 2 3 4 0 1 0 11;
   mkRow 1 2 3 4 0 9 13; mkRow 0 1 2 3 4 2 15; mkRow 4 0 1 2 3 11 15; mkRow 3 4 0 1 2 4 5;
   mkRow 2 3 4 0 1 13 7; mkRow 1 2 3 4 0 6 7; mkRow 0 1 2 3 4 15 8; mkRow 4 0 1 2 3 8 11;
   mkRow 3 4 0 1 2 1 14; mkRow 2 3 4 0 1 10 14; mkRow 1 2 3 4 0 3 12; mkRow 0 1 2 3 4 12 6].
Definition par_round2 : list row :=
  [mkRow 4 0 1 2 3 6 9; mkRow 3 4 0 1 2 11 13; mkRow 2 3 4 0 1 3 15; mkRow 1 2 3 4 0 7 7;
   mkRow 0 1 2 3 4 0 12; mkRow 4 0 1 2 3 13 8; mkRow 3 4 0 1 2 5 9; mkRow 2 3 4 0 1 10 11;
   mkRow 1 2 3 4 0 14 7; mkRow 0 1 2 3 4 15 7; mkRow 4 0 1 2 3 8 12; mkRow 3 4 0 1 2 12 7;
   mkRow 2 3 4 0 1 4 6; mkRow 1 2 3 4 0 9 15; mkRow 0 1 2 3 4 1 13; mkRow 4 0 1 2 3 2 11].
Definition par_round3 : list row :=
  [mkRow 3 4 0 1 2 15 9; mkRow 2 3 4 0 1 5 7; mkRow 1 2 3 4 0 1 15; mkRow 0 1 2 3 4 3 11;
   mkRow 4 0 1 2 3 7 8; mkRow 3 4 0 1 2 14 6; mkRow 2 3 4 0 1 6 6; mkRow 1 2 3 4 0 9 14;
   mkRow 0 1 2 3 4 11 12; mkRow 4 0 1 2 3 8 13; mkRow 3 4 0 1 2 12 5; mkRow 2 3 4 0 1 2 14;
   mkRow 1 2 3 4 0 10 13; mkRow 0 1 2 3 4 0 13; mkRow 4 0 1 2 3 4 7; mkRow 3 4 0 1 2 13 5].
Definition par_round4 : list row :=
  [mkRow 2 3 4 0 1 8 15; mkRow 1 2 3 4 0 6 5; mkRow 0 1 2 3 4 4 8; mkRow 4 0 1 2 3 1 11;
   mkRow 3 4 0 1 2 3 14; mkRow 2 3 4 0 1 11 14; mkRow 1 2 3 4 0 15 6; mkRow 0 1 2 3 4 0 14;
   mkRow 4 0 1 2 3 5 6; mkRow 3 4 0 1 2 12 9; mkRow 2 3 4 0 1 2 12; mkRow 1 2 3 4 0 13 9;
   mkRow 0 1 2 3 4 9 12; mkRow 4 0 1 2 3 7 5; mkRow 3 4 0 1 2 10 15; mkRow 2 3 4 0 1 14 8].
Definition par_round5 : list row :=
  [mkRow 1 2 3 4 0 12 8; mkRow 0 1 2 3 4 15 5; mkRow 4 0 1 2 3 10 12; mkRow 3 4 0 1 2 4 9;
   mkRow 2 3 4 0 1 1 12; mkRow 1 2 3 4 0 5 5; mkRow 0 1 2 3 4 8 14; mkRow 4 0 1 2 3 7 6;
   mkRow 3 4 0 1 2 6 8; mkRow 2 3 4 0 1 2 13; mkRow 1 2 3 4 0 13 6; mkRow 0 1 2 3 4 14 5;
   mkRow 4 0 1 2 3 0 15; mkRow 3 4 0 1 2 3 13; mkRow 2 3 4 0 1 9 11; mkRow 1 2 3 4 0 11 11].

(** The six assignments of "Combine results": the first stores its sum in [bbb[3]]. *)
Definition combine_results (h bb bbb : list Z) : list Z :=
  let bbb := <[3%nat := add32 (add32 (word bbb 3) (word h 1)) (word bb 2)]> bbb in
  let h := <[1%nat := add32 (add32 (word h 2) (word bb 3)) (word bbb 4)]> h in
  let h := <[2%nat := add32 (add32 (word h 3) (word bb 4)) (word bbb 0)]> h in
  let h := <[3%nat := add32 (add32 (word h 4) (word bb 0)) (word bbb 1)]> h in
  let h := <[4%nat := add32 (add32 (word h 0) (word bb 1)) (word bbb 2)]> h in
  <[0%nat := word bbb 3]> h.

Definition process_block (h : list Z) (buffer : list byte) : list Z :=
  let w := map le_combine (chunks_exact 4 buffer) in
  let bb := group fn1 0x00000000 round1 w h in
  let bb := group fn2 0x5a827999 round2 w bb in
  let bb := group fn3 0x6ed9eba1 round3 w bb in
  let bb := group fn4 0x8f1bbcdc round4 w bb in
  let bb := group fn5 0xa953fd4e round5 w bb in
  let bbb := group fn5 0x50a28be6 par_round1 w h in
  let bbb := group fn4 0x5c4dd124 par_round2 w bbb in
  let bbb := group fn3 0x6d703ef3 par_round3 w bbb in
  let bbb := group fn2 0x7a6d76e9 par_round4 w bbb in
  let bbb := group fn1 0x00000000 par_round5 w bbb in
  combine_results h bb bbb.

(** ** The engine *)

Definition initial_h : list Z := [0x67452301; 0xefcdab89; 0x98badcfe; 0x10325476; 0xc3d2e1f0].

Definition engine : HashEngine := mkEngine (replicate BLOCK_SIZE Byte.x00) initial_h 0.

Definition engine_input : HashEngine -> list byte -> HashEngine := input BLOCK_SIZE process_block.

Definition midstate (self : HashEngine) : list byte := h self ≫= le_split 4.

(** The bit length is little-endian. *)
Definition from_engine (e : HashEngine) : list byte :=
  let data_len := Z.of_nat (n_bytes_hashed e) in
  let e := pad_to BLOCK_SIZE process_block 8 e in
  let e := engine_input e (le_split 8 (wrap 64 (8 * data_len))) in
  midstate e.

Definition hash (data : list byte) : list byte := from_engine (engine_input engine data).

Definition hash_byte_chunks (byte_slices : list (list byte)) : list byte :=
  from_engine (fold_left engine_input byte_slices engine).
End ripemd160.

(** ** The published definition *)

Module rmd_spec.

Definition not32 (x : Z) : Z := (- x - 1) mod 2 ^ 32.
Definition rol (n x : Z) : Z := rotate_left x n.

Definition f (round : nat) (x y z : Z) : Z :=
  match round with
  | 0 => Z.lxor x (Z.lxor y z)
  | 1 => Z.lor (Z.land x y) (Z.land (not32 x) z)
  | 2 => Z.lxor (Z.lor x (not32 y)) z
  | 3 => Z.lor (Z.land x z) (Z.land y (not32 z))
  | _ => Z.lxor x (Z.lor y (not32 z))
  end%nat.

(** The integer parts of [2^30] times the square and the cube roots of 2, 3, 5 and 7. *)
Definition root2 (p : Z) : Z := Z.sqrt (p * 2 ^ 60).
Definition root3 (p : Z) : Z := Spec.cube_root 33 (p * 2 ^ 90) 0.
Definition K (round : nat) : Z := nth round [0; root2 2; root2 3; root2 5; root2 7] 0.
Definition K' (round : nat) : Z := nth round [root3 2; root3 3; root3 5; root3 7; 0] 0.

(** The message word: [rho] once more in every round, after [pi] in the parallel line. *)
Definition rho (i : nat) : nat := nth i [7; 4; 13; 1; 10; 6; 15; 3; 12; 0; 9; 5; 2; 14; 11; 8]%nat 0%nat.
Definition pi (i : nat) : nat := ((9 * i + 5) mod 16)%nat.
Definition r (round i : nat) : nat := Nat.iter round rho i.
Definition r' (round i : nat) : nat := Nat.iter round rho (pi i).

(** The rotation of a message word in a round, the same in both lines. *)
Definition shift (round w : nat) : Z :=
  nth w (nth round
    [[11; 14; 15; 12; 5; 8; 7; 9; 11; 13; 14; 15; 6; 7; 9; 8];
     [12; 13; 11; 15; 6; 9; 9; 7; 12; 15; 11; 13; 7; 8; 7; 7];
     [13; 15; 14; 11; 7; 7; 6; 8; 13; 14; 13; 12; 5; 5; 6; 9];
     [14; 11; 12; 14; 8; 6; 5; 5; 15; 12; 15; 14; 9; 9; 8; 6];
     [15; 12; 13; 13; 9; 5; 8; 6; 14; 11; 12; 11; 8; 6; 5; 5]] []) 0.

(** The five registers. *)
Definition Regs : Type := Z * Z * Z * Z * Z.

Definition step (fn : Z -> Z -> Z -> Z) (k x s : Z) (regs : Regs) : Regs :=
  let '(A, B, C, D, E) := regs in
  let T := (rol s ((A + fn B C D + x + k) mod 2 ^ 32) + E) mod 2 ^ 32 in
  (E, T, B, rol 10 C, D).

(** Round [j] of a line: sixteen steps. *)
Definition round (fn : Z -> Z -> Z -> Z) (k : Z) (sel : nat -> nat -> nat) (X : list Z) (j : nat)
    (regs : Regs) : Regs :=
  fold_left (fun regs i => step fn k (nth (sel j i) X 0) (shift j (sel j i)) regs) (seq 0 16) regs.

Definition line (fn : nat -> Z -> Z -> Z -> Z) (k : nat -> Z) (sel : nat -> nat -> nat) (X : list Z)
    (regs : Regs) : Regs :=
  round (fn 4%nat) (k 4%nat) sel X 4 (round (fn 3%nat) (k 3%nat) sel X 3
    (round (fn 2%nat) (k 2%nat) sel X 2 (round (fn 1%nat) (k 1%nat) sel X 1
      (round (fn 0%nat) (k 0%nat) sel X 0 regs)))).

Definition compress (h : list Z) (block : list byte) : list Z :=
  match h with
  | [h0; h1; h2; h3; h4] =>
      let X := map le_combine (chunks_exact 4 block) in
      let '(A, B, C, D, E) := line f K r X (h0, h1, h2, h3, h4) in
      let '(A', B', C', D', E') := line (fun j => f (4 - j)) K' r' X (h0, h1, h2, h3, h4) in
      [(h1 + C + D') mod 2 ^ 32; (h2 + D + E') mod 2 ^ 32; (h3 + E + A') mod 2 ^ 32;
       (h4 + A + B') mod 2 ^ 32; (h0 + B + C') mod 2 ^ 32]
  | _ => h
  end.

Definition pad (m : list byte) : list byte :=
  m ++ [byte.of_Z 0x80] ++ replicate (pad_count 64 8 (length m)) Byte.x00 ++
  le_split 8 (8 * Z.of_nat (length m)).

Definition IV : list Z := [0x67452301; 0xefcdab89; 0x98badcfe; 0x10325476; 0xc3d2e1f0].

Definition ripemd160 (m : list byte) : list byte :=
  absorb 64 compress (length (pad m) / 64) IV (pad m) ≫= le_split 4.

End rmd_spec.

(** HASH160: RIPEMD-160 of SHA-256, on the engine of SHA-256. *)
Module hash160.
Definition from_engine (e : @HashEngine State) : list byte :=
  let sha2 := Sha256.from_engine e in
  ripemd160.hash sha2.

Definition hash (data : list byte) : list byte := from_engine (Sha256.engine_input Sha256.default data).
End hash160.

Module rmd_tests.
Example ripemd160_abc : ripemd160.hash (map byte.of_Z [0x61; 0x62; 0x63]) =
  to_be_bytes 20 0x8eb208f7e05d987a9b044a8e98c6b087f15a0bfc.
Proof. vm_compute. reflexivity. Qed.
Example ripemd160_spec_abc : rmd_spec.ripemd160 (map byte.of_Z [0x61; 0x62; 0x63]) =
  to_be_bytes 20 0x8eb208f7e05d987a9b044a8e98c6b087f15a0bfc.
Proof. vm_compute. reflexivity. Qed.
End rmd_tests.

(** ** The compression function computes the published one *)

Import ripemd160.

(** The array position of register [i] before step [k]: the roles move down by one each step. *)
Definition pos (k i : nat) : nat := ((i + 4 * k) mod 5)%nat.
Definition view (k : nat) (bb : list Z) : rmd_spec.Regs :=
  (word bb (pos k 0), word bb (pos k 1), word bb (pos k 2), word bb (pos k 3), word bb (pos k 4)).

Lemma pos_mod k i : pos k i = pos (k mod 5) i.
Proof.
  unfold pos. rewrite <- Nat.Div0.add_mod_idemp_r, <- Nat.Div0.mul_mod_idemp_r.
  by rewrite Nat.Div0.add_mod_idemp_r.
Qed.

Lemma pos_S k i : pos (S k) i = pos (S (k mod 5)) i.
Proof.
  rewrite (pos_mod (S k)), (pos_mod (S (k mod 5))). f_equal.
  change (S k) with (1 + k)%nat. change (S (k mod 5)) with (1 + k mod 5)%nat.
  by rewrite Nat.Div0.add_mod_idemp_r.
Qed.

Lemma round_length bb a c e x bits add rnd : length (round bb a c e x bits add rnd) = length bb.
Proof. unfold round. by rewrite !length_insert. Qed.

Lemma group_length fn add rows data : forall bb, length (group fn add rows data bb) = length bb.
Proof.
  unfold group. induction rows as [|rw rows IH]; intros bb; [done|]. cbn [fold_left].
  by rewrite IH, round_length.
Qed.

(** A row whose positions follow the rotation is a step of the registers. *)
Lemma round_step fn k bb x s add : length bb = 5%nat ->
  view (S k) (round bb (pos k 0) (pos k 2) (pos k 4) x s add
    (fn (word bb (pos k 1)) (word bb (pos k 2)) (word bb (pos k 3)))) =
  rmd_spec.step fn add x s (view k bb).
Proof.
  intros Hl. assert (exists j, (j < 5)%nat /\ forall i, pos k i = pos j i /\ pos (S k) i = pos (S j) i)
    as (j & Hk & Hj).
  { exists (k mod 5)%nat. split; [by apply Nat.mod_upper_bound|].
    intros i. split; [apply pos_mod|apply pos_S]. }
  unfold view. rewrite !(proj1 (Hj _)), !(proj2 (Hj _)). clear Hj.
  destruct bb as [|b0 [|b1 [|b2 [|b3 [|b4 [|]]]]]]; try done.
  unfold rmd_spec.step, rmd_spec.rol.
  assert (forall a f, add32 (add32 (add32 a f) x) add = (a + f + x + add) mod 2 ^ 32) as Ha
    by (intros; by rewrite (add32_mod a), !add32_mod_l).
  destruct j as [|[|[|[|[|]]]]]; try lia; unfold round, word, pos; cbn -[Z.add Z.modulo Z.pow add32 rotate_left];
    by rewrite Ha, add32_mod.
Qed.

(** The sixteen rows of a round as the publication's tables give them. *)
Definition expected (sel : nat -> nat -> nat) (round : nat) (i : nat) : row :=
  let k := (16 * round + i)%nat in
  mkRow (pos k 0) (pos k 1) (pos k 2) (pos k 3) (pos k 4) (sel round i)
    (rmd_spec.shift round (sel round i)).

Definition rows (sel : nat -> nat -> nat) (round : nat) : list row :=
  map (expected sel round) (seq 0 16).

Lemma left_tables : round1 = rows rmd_spec.r 0 /\ round2 = rows rmd_spec.r 1 /\
  round3 = rows rmd_spec.r 2 /\ round4 = rows rmd_spec.r 3 /\ round5 = rows rmd_spec.r 4.
Proof. split_and!; vm_compute; reflexivity. Qed.

Lemma right_tables : par_round1 = rows rmd_spec.r' 0 /\ par_round2 = rows rmd_spec.r' 1 /\
  par_round3 = rows rmd_spec.r' 2 /\ par_round4 = rows rmd_spec.r' 3 /\ par_round5 = rows rmd_spec.r' 4.
Proof. split_and!; vm_compute; reflexivity. Qed.

Lemma group_steps fn add sel round data n : forall i bb, length bb = 5%nat ->
  view (16 * round + (i + n)) (group fn add (map (expected sel round) (seq i n)) data bb) =
  fold_left (fun regs i => rmd_spec.step fn add (nth (sel round i) data 0)
    (rmd_spec.shift round (sel round i)) regs) (seq i n) (view (16 * round + i) bb).
Proof.
  induction n as [|n IH]; intros i bb Hl; [by rewrite Nat.add_0_r|].
  cbn [seq map fold_left]. unfold group in *. cbn [fold_left].
  replace (i + S n)%nat with (S i + n)%nat by lia. rewrite IH by (by rewrite round_length).
  f_equal. replace (16 * round + S i)%nat with (S (16 * round + i)) by lia.
  by apply round_step.
Qed.

Lemma not32_spec x : not32 x = rmd_spec.not32 x.
Proof.
  unfold not32, rmd_spec.not32. change mask32 with (Z.ones 32).
  rewrite Z.land_ones by lia. by rewrite Z.lnot_eq_pred_opp || (unfold Z.lnot; f_equal; lia).
Qed.

Lemma step_ext fn fn' add x s regs : (forall a b c, fn a b c = fn' a b c) ->
  rmd_spec.step fn add x s regs = rmd_spec.step fn' add x s regs.
Proof. intros Hf. destruct regs as [[[[A B] C] D] E]. unfold rmd_spec.step. by rewrite Hf. Qed.

(** A whole round of the source is a round of the publication. *)
Lemma group_round fn fn' add sel round data bb : (forall a b c, fn a b c = fn' a b c) ->
  length bb = 5%nat ->
  view (16 * S round) (group fn add (rows sel round) data bb) =
  rmd_spec.round fn' add sel data round (view (16 * round) bb).
Proof.
  intros Hf Hl. unfold rows. pose proof (group_steps fn add sel round data 16 0 bb Hl) as Hg.
  replace (16 * S round)%nat with (16 * round + (0 + 16))%nat by lia. rewrite Hg, Nat.add_0_r.
  unfold rmd_spec.round. generalize (seq 0 16), (view (16 * round) bb). intros l. induction l as [|i l IH]; intros regs; [done|].
  cbn [fold_left]. by rewrite IH, (step_ext fn fn').
Qed.

Lemma fn1_f x y z : fn1 x y z = rmd_spec.f 0 x y z.
Proof. unfold fn1. cbn [rmd_spec.f]. by rewrite Z.lxor_assoc. Qed.
Lemma fn2_f x y z : fn2 x y z = rmd_spec.f 1 x y z.
Proof. unfold fn2. cbn [rmd_spec.f]. by rewrite not32_spec. Qed.
Lemma fn3_f x y z : fn3 x y z = rmd_spec.f 2 x y z.
Proof. unfold fn3. cbn [rmd_spec.f]. by rewrite not32_spec. Qed.
Lemma fn4_f x y z : fn4 x y z = rmd_spec.f 3 x y z.
Proof. unfold fn4. cbn [rmd_spec.f]. by rewrite not32_spec. Qed.
Lemma fn5_f x y z : fn5 x y z = rmd_spec.f 4 x y z.
Proof. unfold fn5. cbn [rmd_spec.f]. by rewrite not32_spec. Qed.

Lemma left_constants : rmd_spec.K 0 = 0 /\ rmd_spec.K 1 = 0x5a827999 /\
  rmd_spec.K 2 = 0x6ed9eba1 /\ rmd_spec.K 3 = 0x8f1bbcdc /\ rmd_spec.K 4 = 0xa953fd4e.
Proof. split_and!; vm_compute; reflexivity. Qed.

Lemma right_constants : rmd_spec.K' 0 = 0x50a28be6 /\ rmd_spec.K' 1 = 0x5c4dd124 /\
  rmd_spec.K' 2 = 0x6d703ef3 /\ rmd_spec.K' 3 = 0x7a6d76e9 /\ rmd_spec.K' 4 = 0.
Proof. split_and!; vm_compute; reflexivity. Qed.

Section lines.
Context (data h : list Z) (Hh : length h = 5%nat).

Definition left_line : list Z :=
  group fn5 0xa953fd4e round5 data (group fn4 0x8f1bbcdc round4 data
    (group fn3 0x6ed9eba1 round3 data (group fn2 0x5a827999 round2 data
      (group fn1 0x00000000 round1 data h)))).
Definition right_line : list Z :=
  group fn1 0x00000000 par_round5 data (group fn2 0x7a6d76e9 par_round4 data
    (group fn3 0x6d703ef3 par_round3 data (group fn4 0x5c4dd124 par_round2 data
      (group fn5 0x50a28be6 par_round1 data h)))).

Lemma left_line_spec : view 80 left_line = rmd_spec.line rmd_spec.f rmd_spec.K rmd_spec.r data (view 0 h).
Proof.
  unfold left_line, rmd_spec.line. destruct left_tables as (-> & -> & -> & -> & ->).
  change 80%nat with (16 * 5)%nat.
  destruct left_constants as (-> & -> & -> & -> & ->).
  rewrite (group_round fn5 (rmd_spec.f 4)) by (apply fn5_f || by rewrite ?group_length).
  rewrite (group_round fn4 (rmd_spec.f 3)) by (apply fn4_f || by rewrite ?group_length).
  rewrite (group_round fn3 (rmd_spec.f 2)) by (apply fn3_f || by rewrite ?group_length).
  rewrite (group_round fn2 (rmd_spec.f 1)) by (apply fn2_f || by rewrite ?group_length).
  by rewrite (group_round fn1 (rmd_spec.f 0)) by (apply fn1_f || by rewrite ?group_length).
Qed.

Lemma right_line_spec : view 80 right_line =
  rmd_spec.line (fun j => rmd_spec.f (4 - j)) rmd_spec.K' rmd_spec.r' data (view 0 h).
Proof.
  unfold right_line, rmd_spec.line. destruct right_tables as (-> & -> & -> & -> & ->).
  change 80%nat with (16 * 5)%nat.
  destruct right_constants as (-> & -> & -> & -> & ->).
  rewrite (group_round fn1 (rmd_spec.f 0)) by (apply fn1_f || by rewrite ?group_length).
  rewrite (group_round fn2 (rmd_spec.f 1)) by (apply fn2_f || by rewrite ?group_length).
  rewrite (group_round fn3 (rmd_spec.f 2)) by (apply fn3_f || by rewrite ?group_length).
  rewrite (group_round fn4 (rmd_spec.f 3)) by (apply fn4_f || by rewrite ?group_length).
  by rewrite (group_round fn5 (rmd_spec.f 4)) by (apply fn5_f || by rewrite ?group_length).
Qed.
End lines.

Lemma combine_results_spec h0 h1 h2 h3 h4 bb bbb : length bb = 5%nat -> length bbb = 5%nat ->
  combine_results [h0; h1; h2; h3; h4] bb bbb =
  let '(A, B, C, D, E) := view 80 bb in
  let '(A', B', C', D', E') := view 80 bbb in
  [(h1 + C + D') mod 2 ^ 32; (h2 + D + E') mod 2 ^ 32; (h3 + E + A') mod 2 ^ 32;
   (h4 + A + B') mod 2 ^ 32; (h0 + B + C') mod 2 ^ 32].
Proof.
  intros Hb Hb'. destruct bb as [|A [|B [|C [|D [|E [|]]]]]]; try done.
  destruct bbb as [|A' [|B' [|C' [|D' [|E' [|]]]]]]; try done.
  change (view 80 [A; B; C; D; E]) with (A, B, C, D, E).
  change (view 80 [A'; B'; C'; D'; E']) with (A', B', C', D', E').
  unfold combine_results, word. cbn -[Z.add Z.modulo Z.pow add32].
  rewrite (add32_mod D'), (add32_mod h2), (add32_mod h3), (add32_mod h4), (add32_mod h0), !add32_mod_l.
  repeat (f_equal; try lia).
Qed.

Lemma ripemd_block_spec st block : length st = 5%nat ->
  process_block st block = rmd_spec.compress st block /\ length (rmd_spec.compress st block) = 5%nat.
Proof.
  intros Hst. destruct st as [|h0 [|h1 [|h2 [|h3 [|h4 [|]]]]]]; try done. unfold rmd_spec.compress.
  set (X := map le_combine _). change (h0, h1, h2, h3, h4) with (view 0 [h0; h1; h2; h3; h4]).
  rewrite <- (left_line_spec X [h0; h1; h2; h3; h4] eq_refl).
  rewrite <- (right_line_spec X [h0; h1; h2; h3; h4] eq_refl).
  rewrite <- combine_results_spec by (unfold left_line, right_line; by rewrite ?group_length).
  split; [unfold process_block, left_line, right_line; cbv zeta; reflexivity|].
  unfold combine_results. by rewrite !length_insert.
Qed.

(** ** The engine computes the published hash *)

Abbreviation rmd_represents e m := (represents 64 process_block initial_h e m).

Lemma rmd_from_engine e m : rmd_represents e m -> 8 * Z.of_nat (length m) < 2 ^ 64 ->
  from_engine e = rmd_spec.ripemd160 m.
Proof.
  intros Hr Hlen. unfold from_engine. change BLOCK_SIZE with 64%nat.
  assert (n_bytes_hashed e = length m) as -> by (by destruct Hr as (_ & ? & _)).
  pose proof (pad_to_represents 64 process_block initial_h ltac:(lia) 8 e m ltac:(lia) ltac:(lia) Hr) as Hp.
  pose proof (input_represents 64 process_block initial_h ltac:(lia) _ _
    (le_split 8 (wrap 64 (8 * Z.of_nat (length m)))) Hp) as Hq.
  rewrite wrap_small in Hq |- * by (unfold in_u; lia). rewrite <- !app_assoc in Hq.
  fold (rmd_spec.pad m) in Hq. unfold midstate, rmd_spec.ripemd160. change BLOCK_SIZE with 64%nat.
  destruct Hq as (_ & _ & Hq & _). unfold engine_input. change BLOCK_SIZE with 64%nat. rewrite Hq. f_equal.
  apply (absorb_ext (fun st => length st = 5%nat)); [|done|].
  - intros st b Hst _. by apply ripemd_block_spec.
  - rewrite Nat.mul_comm. by apply Nat.Div0.mul_div_le.
Qed.

Lemma absorb_rmd_length n : forall st m, length st = 5%nat ->
  length (absorb 64 rmd_spec.compress n st m) = 5%nat.
Proof.
  induction n as [|n IH]; intros st m Hst; [done|]. cbn [absorb].
  by apply IH, (ripemd_block_spec st).
Qed.

Lemma rmd_length m : length (rmd_spec.ripemd160 m) = 20%nat.
Proof.
  unfold rmd_spec.ripemd160. pose proof (absorb_rmd_length (length (rmd_spec.pad m) / 64)
    rmd_spec.IV (rmd_spec.pad m) eq_refl) as Hl.
  by destruct (absorb _ _ _ _ _) as [|a [|b [|c [|d [|e [|]]]]]].
Qed.

Lemma rmd_chunks_spec slices : 8 * Z.of_nat (length (concat slices)) < 2 ^ 64 ->
  hash_byte_chunks slices = rmd_spec.ripemd160 (concat slices).
Proof.
  intros Hl. apply rmd_from_engine; [|done].
  apply (fold_input_represents 64 process_block initial_h ltac:(lia) slices engine []).
  by apply new_represents.
Qed.

Lemma rmd_hash_spec data : 8 * Z.of_nat (length data) < 2 ^ 64 ->
  hash data = rmd_spec.ripemd160 data.
Proof.
  intros Hl. pose proof (rmd_chunks_spec [data]) as Hc. cbn [concat] in Hc.
  rewrite app_nil_r in Hc. by apply Hc.
Qed.

Lemma hash160_engine_spec e m : sha_represents e m -> 8 * Z.of_nat (length m) < 2 ^ 64 ->
  hash160.from_engine e = rmd_spec.ripemd160 (Spec.sha256 m).
Proof.
  intros Hr Hl. unfold hash160.from_engine. rewrite (from_engine_represents e m) by done.
  apply rmd_hash_spec. unfold Spec.sha256. rewrite state_words_length. lia.
Qed.

(** Hashing a message in pieces with the RIPEMD-160 engine, whose 160 rows rotate the roles of
    the five array positions, gives the published RIPEMD-160 of the concatenation wherever it is cut;
    HASH160 is RIPEMD-160 of SHA-256. *)
Lemma ripemd160_engine_correct (slices : list (list byte))
    (Hlen : 8 * Z.of_nat (length (concat slices)) < 2 ^ 64) :
  ripemd160.hash_byte_chunks slices = rmd_spec.ripemd160 (concat slices) /\
  hash160.from_engine (fold_left Sha256.engine_input slices Sha256.default) =
    rmd_spec.ripemd160 (Spec.sha256 (concat slices)).
Proof.
  split; [by apply rmd_chunks_spec|]. apply hash160_engine_spec; [|done].
  apply (engine_inputs_represents slices Sha256.default []), default_represents.
Qed.

