(* ===== verification/Sha512.v ===== *)
(** * SHA-512, SHA-384 and SHA-512/256 ([hashes/src/sha512.rs], [sha384.rs], [sha512_256.rs])

    The engine with 128-byte blocks, its unrolled compression function and its padding, and the
    two truncated variants that start it from other states.  [spec512] is FIPS 180-4. *)

From Stdlib Require Import ZArith Lia Btauto.
From Stdlib Require Strings.String.
From coqutil Require Import Byte Word.LittleEndianList.
From stdpp Require Import base tactics option list numbers.
From S2P Require Import Prelude HashEngine Sha256.
Import String.StringSyntax.

#[local] Open Scope Z_scope.

Module sha512.

Definition BLOCK_SIZE : nat := 128.

(** ** 64-bit words *)

Definition wrapping_add (x y : Z) : Z := wrap 64 (x + y).
Definition rotate_left (x n : Z) : Z := Z.lor (wrap 64 (Z.shiftl x n)) (Z.shiftr x (64 - n)).

Definition Ch (x y z : Z) : Z := Z.lxor z (Z.land x (Z.lxor y z)).
Definition Maj (x y z : Z) : Z := Z.lor (Z.land x y) (Z.land z (Z.lor x y)).
Definition Sigma0 (x : Z) : Z :=
  Z.lxor (Z.lxor (rotate_left x 36) (rotate_left x 30)) (rotate_left x 25).
Definition Sigma1 (x : Z) : Z :=
  Z.lxor (Z.lxor (rotate_left x 50) (rotate_left x 46)) (rotate_left x 23).
Definition sigma0 (x : Z) : Z :=
  Z.lxor (Z.lxor (rotate_left x 63) (rotate_left x 56)) (Z.shiftr x 7).
Definition sigma1 (x : Z) : Z :=
  Z.lxor (Z.lxor (rotate_left x 45) (rotate_left x 3)) (Z.shiftr x 6).

(** ** The compression function of the source *)

Definition round (a b c d e f g h k w : Z) : Z * Z :=
  let t1 := wrapping_add (wrapping_add (wrapping_add (wrapping_add h (Sigma1 e)) (Ch e f g)) k) w in
  let t2 := wrapping_add (Sigma0 a) (Maj a b c) in
  (wrapping_add d t1, wrapping_add t1 t2).

Definition later_round (a b c d e f g h k w w1 w2 w3 : Z) : Z * Z * Z :=
  let w := wrapping_add (wrapping_add (wrapping_add w (sigma1 w1)) w2) (sigma0 w3) in
  let '(d, h) := round a b c d e f g h k w in
  (d, h, w).

(** The eighty unrolled rounds. *)
Definition rounds (st : State) (w : list Z) : State :=
  match w with
  | [w0; w1; w2; w3; w4; w5; w6; w7; w8; w9; w10; w11; w12; w13; w14; w15] =>
      let '(a, b, c, d, e, f, g, h) := st in
      let '(d, h) := round a b c d e f g h 0x428a2f98d728ae22 w0 in
      let '(c, g) := round h a b c d e f g 0x7137449123ef65cd w1 in
      let '(b, f) := round g h a b c d e f 0xb5c0fbcfec4d3b2f w2 in
      let '(a, e) := round f g h a b c d e 0xe9b5dba58189dbbc w3 in
      let '(h, d) := round e f g h a b c d 0x3956c25bf348b538 w4 in
      let '(g, c) := round d e f g h a b c 0x59f111f1b605d019 w5 in
      let '(f, b) := round c d e f g h a b 0x923f82a4af194f9b w6 in
      let '(e, a) := round b c d e f g h a 0xab1c5ed5da6d8118 w7 in
      let '(d, h) := round a b c d e f g h 0xd807aa98a3030242 w8 in
      let '(c, g) := round h a b c d e f g 0x12835b0145706fbe w9 in
      let '(b, f) := round g h a b c d e f 0x243185be4ee4b28c w10 in
      let '(a, e) := round f g h a b c d e 0x550c7dc3d5ffb4e2 w11 in
      let '(h, d) := round e f g h a b c d 0x72be5d74f27b896f w12 in
      let '(g, c) := round d e f g h a b c 0x80deb1fe3b1696b1 w13 in
      let '(f, b) := round c d e f g h a b 0x9bdc06a725c71235 w14 in
      let '(e, a) := round b c d e f g h a 0xc19bf174cf692694 w15 in
      let '(d, h, w0) := later_round a b c d e f g h 0xe49b69c19ef14ad2 w0 w14 w9 w1 in
      let '(c, g, w1) := later_round h a b c d e f g 0xefbe4786384f25e3 w1 w15 w10 w2 in
      let '(b, f, w2) := later_round g h a b c d e f 0x0fc19dc68b8cd5b5 w2 w0 w11 w3 in
      let '(a, e, w3) := later_round f g h a b c d e 0x240ca1cc77ac9c65 w3 w1 w12 w4 in
      let '(h, d, w4) := later_round e f g h a b c d 0x2de92c6f592b0275 w4 w2 w13 w5 in
      let '(g, c, w5) := later_round d e f g h a b c 0x4a7484aa6ea6e483 w5 w3 w14 w6 in
      let '(f, b, w6) := later_round c d e f g h a b 0x5cb0a9dcbd41fbd4 w6 w4 w15 w7 in
      let '(e, a, w7) := later_round b c d e f g h a 0x76f988da831153b5 w7 w5 w0 w8 in
      let '(d, h, w8) := later_round a b c d e f g h 0x983e5152ee66dfab w8 w6 w1 w9 in
      let '(c, g, w9) := later_round h a b c d e f g 0xa831c66d2db43210 w9 w7 w2 w10 in
      let '(b, f, w10) := later_round g h a b c d e f 0xb00327c898fb213f w10 w8 w3 w11 in
      let '(a, e, w11) := later_round f g h a b c d e 0xbf597fc7beef0ee4 w11 w9 w4 w12 in
      let '(h, d, w12) := later_round e f g h a b c d 0xc6e00bf33da88fc2 w12 w10 w5 w13 in
      let '(g, c, w13) := later_round d e f g h a b c 0xd5a79147930aa725 w13 w11 w6 w14 in
      let '(f, b, w14) := later_round c d e f g h a b 0x06ca6351e003826f w14 w12 w7 w15 in
      let '(e, a, w15) := later_round b c d e f g h a 0x142929670a0e6e70 w15 w13 w8 w0 in
      let '(d, h, w0) := later_round a b c d e f g h 0x27b70a8546d22ffc w0 w14 w9 w1 in
      let '(c, g, w1) := later_round h a b c d e f g 0x2e1b21385c26c926 w1 w15 w10 w2 in
      let '(b, f, w2) := later_round g h a b c d e f 0x4d2c6dfc5ac42aed w2 w0 w11 w3 in
      let '(a, e, w3) := later_round f g h a b c d e 0x53380d139d95b3df w3 w1 w12 w4 in
      let '(h, d, w4) := later_round e f g h a b c d 0x650a73548baf63de w4 w2 w13 w5 in
      let '(g, c, w5) := later_round d e f g h a b c 0x766a0abb3c77b2a8 w5 w3 w14 w6 in
      let '(f, b, w6) := later_round c d e f g h a b 0x81c2c92e47edaee6 w6 w4 w15 w7 in
      let '(e, a, w7) := later_round b c d e f g h a 0x92722c851482353b w7 w5 w0 w8 in
      let '(d, h, w8) := later_round a b c d e f g h 0xa2bfe8a14cf10364 w8 w6 w1 w9 in
      let '(c, g, w9) := later_round h a b c d e f g 0xa81a664bbc423001 w9 w7 w2 w10 in
      let '(b, f, w10) := later_round g h a b c d e f 0xc24b8b70d0f89791 w10 w8 w3 w11 in
      let '(a, e, w11) := later_round f g h a b c d e 0xc76c51a30654be30 w11 w9 w4 w12 in
      let '(h, d, w12) := later_round e f g h a b c d 0xd192e819d6ef5218 w12 w10 w5 w13 in
      let '(g, c, w13) := later_round d e f g h a b c 0xd69906245565a910 w13 w11 w6 w14 in
      let '(f, b, w14) := later_round c d e f g h a b 0xf40e35855771202a w14 w12 w7 w15 in
      let '(e, a, w15) := later_round b c d e f g h a 0x106aa07032bbd1b8 w15 w13 w8 w0 in
      let '(d, h, w0) := later_round a b c d e f g h 0x19a4c116b8d2d0c8 w0 w14 w9 w1 in
      let '(c, g, w1) := later_round h a b c d e f g 0x1e376c085141ab53 w1 w15 w10 w2 in
      let '(b, f, w2) := later_round g h a b c d e f 0x2748774cdf8eeb99 w2 w0 w11 w3 in
      let '(a, e, w3) := later_round f g h a b c d e 0x34b0bcb5e19b48a8 w3 w1 w12 w4 in
      let '(h, d, w4) := later_round e f g h a b c d 0x391c0cb3c5c95a63 w4 w2 w13 w5 in
      let '(g, c, w5) := later_round d e f g h a b c 0x4ed8aa4ae3418acb w5 w3 w14 w6 in
      let '(f, b, w6) := later_round c d e f g h a b 0x5b9cca4f7763e373 w6 w4 w15 w7 in
      let '(e, a, w7) := later_round b c d e f g h a 0x682e6ff3d6b2b8a3 w7 w5 w0 w8 in
      let '(d, h, w8) := later_round a b c d e f g h 0x748f82ee5defb2fc w8 w6 w1 w9 in
      let '(c, g, w9) := later_round h a b c d e f g 0x78a5636f43172f60 w9 w7 w2 w10 in
      let '(b, f, w10) := later_round g h a b c d e f 0x84c87814a1f0ab72 w10 w8 w3 w11 in
      let '(a, e, w11) := later_round f g h a b c d e 0x8cc702081a6439ec w11 w9 w4 w12 in
      let '(h, d, w12) := later_round e f g h a b c d 0x90befffa23631e28 w12 w10 w5 w13 in
      let '(g, c, w13) := later_round d e f g h a b c 0xa4506cebde82bde9 w13 w11 w6 w14 in
      let '(f, b, w14) := later_round c d e f g h a b 0xbef9a3f7b2c67915 w14 w12 w7 w15 in
      let '(e, a, w15) := later_round b c d e f g h a 0xc67178f2e372532b w15 w13 w8 w0 in
      let '(d, h, w0) := later_round a b c d e f g h 0xca273eceea26619c w0 w14 w9 w1 in
      let '(c, g, w1) := later_round h a b c d e f g 0xd186b8c721c0c207 w1 w15 w10 w2 in
      let '(b, f, w2) := later_round g h a b c d e f 0xeada7dd6cde0eb1e w2 w0 w11 w3 in
      let '(a, e, w3) := later_round f g h a b c d e 0xf57d4f7fee6ed178 w3 w1 w12 w4 in
      let '(h, d, w4) := later_round e f g h a b c d 0x06f067aa72176fba w4 w2 w13 w5 in
      let '(g, c, w5) := later_round d e f g h a b c 0x0a637dc5a2c898a6 w5 w3 w14 w6 in
      let '(f, b, w6) := later_round c d e f g h a b 0x113f9804bef90dae w6 w4 w15 w7 in
      let '(e, a, w7) := later_round b c d e f g h a 0x1b710b35131c471b w7 w5 w0 w8 in
      let '(d, h, w8) := later_round a b c d e f g h 0x28db77f523047d84 w8 w6 w1 w9 in
      let '(c, g, w9) := later_round h a b c d e f g 0x32caab7b40c72493 w9 w7 w2 w10 in
      let '(b, f, w10) := later_round g h a b c d e f 0x3c9ebe0a15c9bebc w10 w8 w3 w11 in
      let '(a, e, w11) := later_round f g h a b c d e 0x431d67c49c100d4c w11 w9 w4 w12 in
      let '(h, d, w12) := later_round e f g h a b c d 0x4cc5d4becb3e42b6 w12 w10 w5 w13 in
      let '(g, c, w13) := later_round d e f g h a b c 0x597f299cfc657e2a w13 w11 w6 w14 in
      let '(f, b, w14) := later_round c d e f g h a b 0x5fcb6fab3ad6faec w14 w12 w7 w15 in
      let '(e, a, w15) := later_round b c d e f g h a 0x6c44198c4a475817 w15 w13 w8 w0 in
      (a, b, c, d, e, f, g, h)
  | _ => st
  end.

Definition add_state (s t : State) : State :=
  let '(s0, s1, s2, s3, s4, s5, s6, s7) := s in
  let '(a, b, c, d, e, f, g, h) := t in
  (wrapping_add s0 a, wrapping_add s1 b, wrapping_add s2 c, wrapping_add s3 d, wrapping_add s4 e,
   wrapping_add s5 f, wrapping_add s6 g, wrapping_add s7 h).

Definition process_block (h : State) (buffer : list byte) : State :=
  let w := map from_be_bytes (chunks_exact 8 buffer) in
  add_state h (rounds h w).

(** ** The engine *)

Definition initial_h : State :=
  (0x6a09e667f3bcc908, 0xbb67ae8584caa73b, 0x3c6ef372fe94f82b, 0xa54ff53a5f1d36f1,
   0x510e527fade682d1, 0x9b05688c2b3e6c1f, 0x1f83d9abfb41bd6b, 0x5be0cd19137e2179).
Definition initial_256 : State :=
  (0x22312194fc2bf72c, 0x9f555fa3c84c64c2, 0x2393b86b6f53b151, 0x963877195940eabd,
   0x96283ee2a88effe3, 0xbe5e1e2553863992, 0x2b0199fc2c85b8aa, 0x0eb72ddc81c52ca2).
Definition initial_384 : State :=
  (0xcbbb9d5dc1059ed8, 0x629a292a367cd507, 0x9159015a3070dd17, 0x152fecd8f70e5939,
   0x67332667ffc00b31, 0x8eb44a8768581511, 0xdb0c2e0d64f98fa7, 0x47b5481dbefa4fa4).

Definition engine : HashEngine := mkEngine (replicate BLOCK_SIZE Byte.x00) initial_h 0.
Definition sha512_256 : HashEngine := mkEngine (replicate BLOCK_SIZE Byte.x00) initial_256 0.
Definition sha384 : HashEngine := mkEngine (replicate BLOCK_SIZE Byte.x00) initial_384 0.

Definition engine_input : HashEngine -> list byte -> HashEngine := input BLOCK_SIZE process_block.

Definition midstate (self : HashEngine) : list byte := state_words (h self) ≫= to_be_bytes 8.

(** The length field has sixteen bytes, of which the first eight are always zero. *)
Definition from_engine (e : HashEngine) : list byte :=
  let data_len := Z.of_nat (n_bytes_hashed e) in
  let e := pad_to BLOCK_SIZE process_block 16 e in
  let e := engine_input e (replicate 8 Byte.x00) in
  let e := engine_input e (to_be_bytes 8 (wrap 64 (8 * data_len))) in
  midstate e.

Definition hash (data : list byte) : list byte := from_engine (engine_input engine data).

Definition hash_byte_chunks (byte_slices : list (list byte)) : list byte :=
  from_engine (fold_left engine_input byte_slices engine).
End sha512.

Module sha384.
Definition engine : @HashEngine State := sha512.sha384.
Definition engine_input : HashEngine -> list byte -> HashEngine := sha512.engine_input.
Definition from_engine (e : @HashEngine State) : list byte := take 48 (sha512.from_engine e).
Definition hash_byte_chunks (byte_slices : list (list byte)) : list byte :=
  from_engine (fold_left engine_input byte_slices engine).
End sha384.

Module sha512_256.
Definition engine : @HashEngine State := sha512.sha512_256.
Definition engine_input : HashEngine -> list byte -> HashEngine := sha512.engine_input.
Definition from_engine (e : @HashEngine State) : list byte := take 32 (sha512.from_engine e).
Definition hash_byte_chunks (byte_slices : list (list byte)) : list byte :=
  from_engine (fold_left engine_input byte_slices engine).
End sha512_256.

(** ** FIPS 180-4 *)

Module spec512.

Definition rotr (n x : Z) : Z := sha512.rotate_left x (64 - n).
Definition big_sigma0 (x : Z) : Z := Z.lxor (Z.lxor (rotr 28 x) (rotr 34 x)) (rotr 39 x).
Definition big_sigma1 (x : Z) : Z := Z.lxor (Z.lxor (rotr 14 x) (rotr 18 x)) (rotr 41 x).
Definition small_sigma0 (x : Z) : Z := Z.lxor (Z.lxor (rotr 1 x) (rotr 8 x)) (Z.shiftr x 7).
Definition small_sigma1 (x : Z) : Z := Z.lxor (Z.lxor (rotr 19 x) (rotr 61 x)) (Z.shiftr x 6).

(** The first 64 bits of the fractional parts of the cube roots of the first eighty primes. *)
Definition K : list Z :=
  Eval vm_compute in
    map (fun p => Spec.cube_root 68 (Z.of_nat p * 2 ^ 192) 0 mod 2 ^ 64)
      (List.filter Spec.prime (seq 2 408)).

Definition step (st : State) (k w : Z) : State :=
  let '(a, b, c, d, e, f, g, h) := st in
  let t1 := (h + big_sigma1 e + Spec.ch e f g + k + w) mod 2 ^ 64 in
  let t2 := (big_sigma0 a + Spec.maj a b c) mod 2 ^ 64 in
  ((t1 + t2) mod 2 ^ 64, a, b, c, (d + t1) mod 2 ^ 64, e, f, g).

Definition next_w (win : list Z) : Z :=
  (small_sigma1 (nth 14 win 0) + nth 9 win 0 + small_sigma0 (nth 1 win 0) + nth 0 win 0)
    mod 2 ^ 64.

Fixpoint first_rounds (ks ws : list Z) (st : State) : State :=
  match ks, ws with
  | k :: ks, w :: ws => first_rounds ks ws (step st k w)
  | _, _ => st
  end.

Fixpoint later_rounds (ks win : list Z) (st : State) : State :=
  match ks with
  | [] => st
  | k :: ks => let w := next_w win in later_rounds ks (tl win ++ [w]) (step st k w)
  end.

Definition all_rounds (st : State) (m : list Z) : State :=
  later_rounds (drop 16 K) m (first_rounds (take 16 K) m st).

Definition compress (st : State) (block : list byte) : State :=
  sha512.add_state st (all_rounds st (map from_be_bytes (chunks_exact 8 block))).

(** The length field is one 128-bit number. *)
Definition pad (m : list byte) : list byte :=
  m ++ [byte.of_Z 0x80] ++ replicate (pad_count 128 16 (length m)) Byte.x00 ++
  to_be_bytes 16 (8 * Z.of_nat (length m)).

Definition sha512_from (h0 : State) (m : list byte) : list byte :=
  state_words (absorb 128 compress (length (pad m) / 128) h0 (pad m)) ≫= to_be_bytes 8.

(** The initial values: the first 64 bits of the fractional parts of the square roots of the
    first eight primes (SHA-512) and of the ninth to sixteenth (SHA-384). *)
Definition sqrt_frac (p : nat) : Z := Z.sqrt (Z.of_nat p * 2 ^ 128) mod 2 ^ 64.
Definition roots (l : list nat) : State :=
  match map sqrt_frac l with
  | [a; b; c; d; e; f; g; h] => (a, b, c, d, e, f, g, h)
  | _ => (0, 0, 0, 0, 0, 0, 0, 0)
  end.
Definition H512 : State := Eval vm_compute in roots (take 8 (List.filter Spec.prime (seq 2 60))).
Definition H384 : State := Eval vm_compute in roots (take 8 (drop 8 (List.filter Spec.prime (seq 2 60)))).

(** SHA-512/t: the initial value is the hash of the variant's name, computed from the initial
    value of SHA-512 with every byte of it changed by [0xa5]. *)
Definition masked (st : State) : State :=
  let x := Z.lxor 0xa5a5a5a5a5a5a5a5 in
  let '(a, b, c, d, e, f, g, h) := st in (x a, x b, x c, x d, x e, x f, x g, x h).
Definition H256 : State :=
  Eval vm_compute in
    match map from_be_bytes (chunks_exact 8 (sha512_from (masked H512)
            (String.list_byte_of_string "SHA-512/256"))) with
    | [a; b; c; d; e; f; g; h] => (a, b, c, d, e, f, g, h)
    | _ => (0, 0, 0, 0, 0, 0, 0, 0)
    end.

Definition sha512 (m : list byte) : list byte := sha512_from H512 m.
Definition sha384 (m : list byte) : list byte := take 48 (sha512_from H384 m).
Definition sha512_256 (m : list byte) : list byte := take 32 (sha512_from H256 m).

End spec512.

Module sha512_tests.
Example sha512_abc : sha512.hash (map byte.of_Z [0x61; 0x62; 0x63]) = to_be_bytes 64
  0xddaf35a193617abacc417349ae20413112e6fa4e89a97ea20a9eeee64b55d39a2192992a274fc1a836ba3c23a3feebbd454d4423643ce80e2a9ac94fa54ca49f.
Proof. vm_compute. reflexivity. Qed.
Example initial_values : sha512.initial_h = spec512.H512 /\
  sha512.initial_384 = spec512.H384 /\ sha512.initial_256 = spec512.H256.
Proof. vm_compute. split_and!; reflexivity. Qed.
End sha512_tests.

(** ** The compression function computes the standard's *)

Import sha512.

Lemma wrapping_add_mod_l x y : wrapping_add (x mod 2 ^ 64) y = (x + y) mod 2 ^ 64.
Proof. unfold wrapping_add, wrap. by rewrite Zplus_mod_idemp_l. Qed.

Lemma step512_round a b c d e f g h k w :
  spec512.step (a, b, c, d, e, f, g, h) k w =
  let '(d', h') := round a b c d e f g h k w in (h', a, b, c, d', e, f, g).
Proof.
  unfold spec512.step, round.
  change (Ch e f g) with (Sha256.Ch e f g). change (Maj a b c) with (Sha256.Maj a b c).
  rewrite Ch_spec, Maj_spec.
  assert (wrapping_add (wrapping_add (wrapping_add (wrapping_add h (Sigma1 e)) (Spec.ch e f g)) k) w =
    (h + spec512.big_sigma1 e + Spec.ch e f g + k + w) mod 2 ^ 64) as ->; [|done].
  change (wrapping_add h (Sigma1 e)) with ((h + spec512.big_sigma1 e) mod 2 ^ 64).
  by rewrite !wrapping_add_mod_l.
Qed.

Lemma later_round512_next a b c d e f g h k x0 x1 x2 x3 x4 x5 x6 x7 x8 x9 x10 x11 x12 x13 x14 x15 :
  later_round a b c d e f g h k x0 x14 x9 x1 =
  let w := spec512.next_w [x0; x1; x2; x3; x4; x5; x6; x7; x8; x9; x10; x11; x12; x13; x14; x15] in
  let '(d', h') := round a b c d e f g h k w in (d', h', w).
Proof.
  unfold later_round, spec512.next_w; cbn [nth].
  assert (wrapping_add (wrapping_add (wrapping_add x0 (sigma1 x14)) x9) (sigma0 x1) =
    (spec512.small_sigma1 x14 + x9 + spec512.small_sigma0 x1 + x0) mod 2 ^ 64) as ->; [|done].
  change (wrapping_add x0 (sigma1 x14)) with ((x0 + spec512.small_sigma1 x14) mod 2 ^ 64).
  rewrite !wrapping_add_mod_l. f_equal. change (sigma0 x1) with (spec512.small_sigma0 x1). lia.
Qed.

Lemma first_rounds512_cons k ks w ws a b c d e f g h :
  spec512.first_rounds (k :: ks) (w :: ws) (a, b, c, d, e, f, g, h) =
  let '(d', h') := round a b c d e f g h k w in
  spec512.first_rounds ks ws (h', a, b, c, d', e, f, g).
Proof. cbn [spec512.first_rounds]. rewrite step512_round. by destruct (round _ _ _ _ _ _ _ _ _ _). Qed.

Lemma later_rounds512_cons k ks x0 x1 x2 x3 x4 x5 x6 x7 x8 x9 x10 x11 x12 x13 x14 x15 a b c d e f g h :
  spec512.later_rounds (k :: ks)
    [x0; x1; x2; x3; x4; x5; x6; x7; x8; x9; x10; x11; x12; x13; x14; x15] (a, b, c, d, e, f, g, h) =
  let '(d', h', w) := later_round a b c d e f g h k x0 x14 x9 x1 in
  spec512.later_rounds ks
    [x1; x2; x3; x4; x5; x6; x7; x8; x9; x10; x11; x12; x13; x14; x15; w] (h', a, b, c, d', e, f, g).
Proof.
  rewrite (later_round512_next a b c d e f g h k x0 x1 x2 x3 x4 x5 x6 x7 x8 x9 x10 x11 x12 x13 x14 x15).
  cbn [spec512.later_rounds]. set (w := spec512.next_w _). cbv zeta. cbn [tl app].
  rewrite step512_round. by destruct (round _ _ _ _ _ _ _ _ _ _).
Qed.

Lemma rounds512_spec st w : length w = 16%nat -> rounds st w = spec512.all_rounds st w.
Proof.
  destruct st as [[[[[[[a b] c] d] e] f] g] h].
  destruct w as [|w0[|w1[|w2[|w3[|w4[|w5[|w6[|w7[|w8[|w9[|w10[|w11[|w12[|w13[|w14[|w15 w]]]]]]]]]]]]]]]];
    try done. destruct w; [intros _|done].
  unfold spec512.all_rounds.
  let l := eval cbv in (take 16 spec512.K) in change (take 16 spec512.K) with l.
  let l := eval cbv in (drop 16 spec512.K) in change (drop 16 spec512.K) with l.
  unfold rounds.
  do 16 (rewrite first_rounds512_cons;
    match goal with |- context [round ?a ?b ?c ?d ?e ?f ?g ?h ?k ?w] =>
      destruct (round a b c d e f g h k w) as [? ?] end).
  cbn [spec512.first_rounds].
  do 64 (rewrite later_rounds512_cons;
    match goal with |- context [later_round ?a ?b ?c ?d ?e ?f ?g ?h ?k ?w ?x ?y ?z] =>
      destruct (later_round a b c d e f g h k w x y z) as [[? ?] ?] end).
  reflexivity.
Qed.

(** ** The engine computes the standard's hashes *)

Lemma to_be_bytes_zeroes v : 0 <= v < 2 ^ 64 ->
  to_be_bytes 16 v = replicate 8 Byte.x00 ++ to_be_bytes 8 v.
Proof.
  intros Hv. unfold to_be_bytes. change 16%nat with (8 + 8)%nat.
  replace (le_split (8 + 8) v) with (le_split 8 v ++ le_split 8 0).
  { rewrite rev_app_distr. f_equal. }
  apply (le_combine_inj (le_split 8 v ++ le_split 8 0)); [by rewrite length_app, !length_le_split|].
  rewrite le_combine_app, !le_combine_split, length_le_split.
  change (0 mod 2 ^ (Z.of_nat 8 * 8)) with 0. rewrite Z.shiftl_0_l, Z.lor_0_r.
  rewrite !Z.mod_small by lia. done.
Qed.

Abbreviation sha512_represents h0 e m := (represents 128 process_block h0 e m).

Lemma sha512_from_engine h0 e m : sha512_represents h0 e m -> 8 * Z.of_nat (length m) < 2 ^ 64 ->
  from_engine e = spec512.sha512_from h0 m.
Proof.
  intros Hr Hlen. unfold from_engine, engine_input. change BLOCK_SIZE with 128%nat.
  assert (n_bytes_hashed e = length m) as -> by (by destruct Hr as (_ & ? & _)).
  pose proof (pad_to_represents 128 process_block h0 ltac:(lia) 16 e m ltac:(lia) ltac:(lia) Hr) as Hp.
  pose proof (input_represents 128 process_block h0 ltac:(lia) _ _ (replicate 8 Byte.x00) Hp) as Hq.
  pose proof (input_represents 128 process_block h0 ltac:(lia) _ _
    (to_be_bytes 8 (wrap 64 (8 * Z.of_nat (length m)))) Hq) as Ht. clear Hp Hq.
  rewrite wrap_small in Ht |- * by (unfold in_u; lia).
  rewrite <- !app_assoc, <- to_be_bytes_zeroes in Ht by lia.
  fold (spec512.pad m) in Ht. unfold midstate, spec512.sha512_from.
  destruct Ht as (_ & _ & -> & _). f_equal. f_equal.
  apply (absorb_ext (fun _ => True)); [|done|].
  - intros st b _ Hb. split; [|done]. unfold process_block, spec512.compress. f_equal.
    apply rounds512_spec. unfold chunks_exact. by rewrite length_map, chunks_length, Hb.
  - rewrite Nat.mul_comm. by apply Nat.Div0.mul_div_le.
Qed.

Lemma sha512_slices h0 slices : 8 * Z.of_nat (length (concat slices)) < 2 ^ 64 ->
  from_engine (fold_left engine_input slices (mkEngine (replicate BLOCK_SIZE Byte.x00) h0 0)) =
  spec512.sha512_from h0 (concat slices).
Proof.
  intros Hl. apply sha512_from_engine; [|done].
  apply (fold_input_represents 128 process_block h0 ltac:(lia) slices _ []). by apply new_represents.
Qed.

(** The SHA-512 engine, with its sixteen-byte length field and 128-byte blocks, computes the
    FIPS 180-4 SHA-512 of the concatenated input wherever it is cut, and the two truncated variants
    that start it from other states compute SHA-384 and SHA-512/256; the three initial states and
    the round constants are the ones the standard derives. *)
Lemma sha512_family_correct (slices : list (list byte))
    (Hlen : 8 * Z.of_nat (length (concat slices)) < 2 ^ 64) :
  sha512.hash_byte_chunks slices = spec512.sha512 (concat slices) /\
  sha384.hash_byte_chunks slices = spec512.sha384 (concat slices) /\
  sha512_256.hash_byte_chunks slices = spec512.sha512_256 (concat slices).
Proof.
  split; [by apply sha512_slices|].
  split; unfold sha384.hash_byte_chunks, sha384.from_engine, sha512_256.hash_byte_chunks,
    sha512_256.from_engine, spec512.sha384, spec512.sha512_256; f_equal; by apply sha512_slices.
Qed.

