(* ===== verification/Sha1.v ===== *)
(** * SHA-1 ([hashes/src/sha1.rs])

    The message schedule is an array of eighty words that a loop fills in place.  [spec1] is
    FIPS 180-4. *)

From Stdlib Require Import ZArith Lia Btauto.
From coqutil Require Import Byte Word.LittleEndianList.
From stdpp Require Import base tactics option list numbers.
From S2P Require Import Prelude HashEngine Sha256.

#[local] Open Scope Z_scope.

Module sha1.

Definition BLOCK_SIZE : nat := 64.

(** The five state words. *)
Definition H : Type := Z * Z * Z * Z * Z.

Definition word (w : list Z) (i : nat) : Z := nth i w 0.

(** The body of [for i in 16..80]. *)
Definition schedule_step (w : list Z) (i : nat) : list Z :=
  <[i := rotate_left (Z.lxor (Z.lxor (Z.lxor (word w (i - 3)) (word w (i - 8))) (word w (i - 14)))
                         (word w (i - 16))) 1]> w.

Definition schedule (buffer : list byte) : list Z :=
  let words := map from_be_bytes (chunks_exact 4 buffer) in
  let w := words ++ replicate (80 - length words) 0 in
  fold_left schedule_step (seq 16 64) w.

(** The [match i] of the main loop, as the function and the constant of a round. *)
Definition select (i : nat) (b c d : Z) : Z * Z :=
  if (i <=? 19)%nat then
    (Z.lor (Z.land b c) (Z.land (Z.land (Z.lnot b) mask32) d), 0x5a827999)
  else if (i <=? 39)%nat then (Z.lxor (Z.lxor b c) d, 0x6ed9eba1)
  else if (i <=? 59)%nat then
    (Z.lor (Z.lor (Z.land b c) (Z.land b d)) (Z.land c d), 0x8f1bbcdc)
  else (Z.lxor (Z.lxor b c) d, 0xca62c1d6).

Definition round_step (st : H) (iw : nat * Z) : H :=
  let '(a, b, c, d, e) := st in
  let '(i, wi) := iw in
  let '(f, k) := select i b c d in
  let new_a := add32 (add32 (add32 (add32 (rotate_left a 5) f) e) k) wi in
  (new_a, a, rotate_left b 30, c, d).

Definition process_block (h : H) (buffer : list byte) : H :=
  let w := schedule buffer in
  let '(h0, h1, h2, h3, h4) := h in
  let '(a, b, c, d, e) := fold_left round_step (zip (seq 0 (length w)) w) h in
  (add32 h0 a, add32 h1 b, add32 h2 c, add32 h3 d, add32 h4 e).

Definition initial_h : H := (0x67452301, 0xefcdab89, 0x98badcfe, 0x10325476, 0xc3d2e1f0).

Definition engine : HashEngine := mkEngine (replicate BLOCK_SIZE Byte.x00) initial_h 0.

Definition engine_input : HashEngine -> list byte -> HashEngine := input BLOCK_SIZE process_block.

Definition h_words (st : H) : list Z := let '(a, b, c, d, e) := st in [a; b; c; d; e].

Definition midstate (self : HashEngine) : list byte := h_words (h self) ≫= to_be_bytes 4.

Definition from_engine (e : HashEngine) : list byte :=
  let data_len := Z.of_nat (n_bytes_hashed e) in
  let e := pad_to BLOCK_SIZE process_block 8 e in
  let e := engine_input e (to_be_bytes 8 (wrap 64 (8 * data_len))) in
  midstate e.

Definition hash (data : list byte) : list byte := from_engine (engine_input engine data).

Definition hash_byte_chunks (byte_slices : list (list byte)) : list byte :=
  from_engine (fold_left engine_input byte_slices engine).
End sha1.

(** ** FIPS 180-4 *)

Module spec1.

(** The constants: the integer parts of [2^30] times the square roots of 2, 3, 5 and 10. *)
Definition K (t : nat) : Z := Z.sqrt (nth (t / 20) [2; 3; 5; 10] 0 * 2 ^ 60).

Definition f (t : nat) : Z -> Z -> Z -> Z :=
  match (t / 20)%nat with
  | 0 => Spec.ch
  | 2 => Spec.maj
  | _ => fun x y z => Z.lxor x (Z.lxor y z)
  end%nat.

(** [W_t] from the sixteen words before it. *)
Definition next_w (win : list Z) : Z :=
  rotate_left (Z.lxor (nth 13 win 0) (Z.lxor (nth 8 win 0) (Z.lxor (nth 2 win 0) (nth 0 win 0)))) 1.

Definition step (st : sha1.H) (t : nat) (w : Z) : sha1.H :=
  let '(a, b, c, d, e) := st in
  ((rotate_left a 5 + f t b c d + e + K t + w) mod 2 ^ 32, a, rotate_left b 30, c, d).

(** Rounds [t], [t+1], ...: the window holds [W_t .. W_(t+15)]. *)
Fixpoint rounds (n t : nat) (win : list Z) (st : sha1.H) : sha1.H :=
  match n with
  | O => st
  | S n => rounds n (S t) (tl win ++ [next_w win]) (step st t (hd 0 win))
  end.

Definition compress (st : sha1.H) (block : list byte) : sha1.H :=
  let '(h0, h1, h2, h3, h4) := st in
  let '(a, b, c, d, e) := rounds 80 0 (map from_be_bytes (chunks_exact 4 block)) st in
  ((h0 + a) mod 2 ^ 32, (h1 + b) mod 2 ^ 32, (h2 + c) mod 2 ^ 32, (h3 + d) mod 2 ^ 32,
   (h4 + e) mod 2 ^ 32).

Definition sha1 (m : list byte) : list byte :=
  sha1.h_words (absorb 64 compress (length (Spec.pad m) / 64) sha1.initial_h (Spec.pad m))
    ≫= to_be_bytes 4.

End spec1.

Module sha1_tests.
Example sha1_abc : sha1.hash (map byte.of_Z [0x61; 0x62; 0x63]) =
  to_be_bytes 20 0xa9993e364706816aba3e25717850c26c9cd0d89d.
Proof. vm_compute. reflexivity. Qed.
Example spec1_abc : spec1.sha1 (map byte.of_Z [0x61; 0x62; 0x63]) =
  to_be_bytes 20 0xa9993e364706816aba3e25717850c26c9cd0d89d.
Proof. vm_compute. reflexivity. Qed.
End sha1_tests.

(** ** The schedule in place is the standard's *)

Import sha1.

Section sched.
Context (win : list Z) (Hwin : length win = 16%nat).

(** The window before round [t] and its first word, [W_t]. *)
Definition window (t : nat) : list Z := Nat.iter t (fun w => tl w ++ [spec1.next_w w]) win.
Definition W (t : nat) : Z := nth 0 (window t) 0.

Lemma window_length t : length (window t) = 16%nat.
Proof.
  induction t as [|t IH]; [done|]. unfold window in *. rewrite Nat.iter_succ.
  destruct (Nat.iter t _ win) as [|x l]; [done|]. cbn [tl]. rewrite length_app. simpl in *. lia.
Qed.

Lemma window_nth k : forall t, (k < 16)%nat -> nth k (window t) 0 = W (t + k).
Proof.
  induction k as [|k IH]; intros t Hk; [by rewrite Nat.add_0_r|].
  replace (t + S k)%nat with (S t + k)%nat by lia. rewrite <- IH by lia.
  unfold window at 2. rewrite Nat.iter_succ. fold (window t).
  pose proof (window_length t) as Hl. destruct (window t) as [|x l]; [done|].
  cbn [tl nth]. simpl in Hl. by rewrite app_nth1 by lia.
Qed.

Lemma W_rec t : W (t + 16) = rotate_left (Z.lxor (Z.lxor (Z.lxor (W (t + 13)) (W (t + 8))) (W (t + 2))) (W t)) 1.
Proof.
  replace (t + 16)%nat with (S t + 15)%nat by lia. rewrite <- window_nth by lia.
  unfold window. rewrite Nat.iter_succ. fold (window t).
  pose proof (window_length t) as Hl. rewrite app_nth2 by (destruct (window t); simpl in *; lia).
  replace (15 - length (tl (window t)))%nat with 0%nat by (destruct (window t); simpl in *; lia).
  cbn [nth]. unfold spec1.next_w. rewrite !window_nth, Nat.add_0_r by lia. by rewrite !Z.lxor_assoc.
Qed.

Lemma word_insert (w : list Z) i j v : (i < length w)%nat ->
  word (<[i := v]> w) j = if (i =? j)%nat then v else word w j.
Proof.
  intros Hi. unfold word. destruct (Nat.eqb_spec i j) as [<-|Hij].
  - apply nth_lookup_Some. by apply list_lookup_insert_eq.
  - rewrite !nth_lookup. by rewrite list_lookup_insert_ne.
Qed.

Lemma schedule_fill n : (n <= 64)%nat ->
  let w := fold_left schedule_step (seq 16 n) (win ++ replicate 64 0) in
  length w = 80%nat /\ forall j, (j < 16 + n)%nat -> word w j = W j.
Proof.
  induction n as [|n IH]; intros Hn.
  - cbn [seq fold_left]. split; [by rewrite length_app, length_replicate, Hwin|].
    intros j Hj. unfold word. rewrite app_nth1 by lia. exact (window_nth j 0 Hj).
  - rewrite seq_S, fold_left_app. cbn [fold_left]. cbv zeta.
    destruct (IH ltac:(lia)) as [Hl Hw]. cbv zeta in Hw, Hl. set (w := fold_left _ _ _) in *.
    unfold schedule_step. split; [by rewrite length_insert|]. intros j Hj.
    rewrite word_insert by lia. destruct (Nat.eqb_spec (16 + n) j) as [<-|Hne]; [|apply Hw; lia].
    rewrite !Hw by lia. replace (16 + n - 16)%nat with n by lia.
    replace (16 + n - 3)%nat with (n + 13)%nat by lia.
    replace (16 + n - 8)%nat with (n + 8)%nat by lia.
    replace (16 + n - 14)%nat with (n + 2)%nat by lia. by rewrite (Nat.add_comm 16 n), W_rec.
Qed.

Lemma rounds_fold n : forall t st,
  spec1.rounds n t (window t) st = fold_left (fun st t => spec1.step st t (W t)) (seq t n) st.
Proof.
  induction n as [|n IH]; intros t st; [done|]. cbn [spec1.rounds seq fold_left].
  change (tl (window t) ++ [spec1.next_w (window t)]) with (window (S t)). rewrite IH.
  by assert (hd 0 (window t) = W t) as -> by (unfold W; by destruct (window t)).
Qed.
End sched.

Lemma maj_or b c d : Z.lor (Z.lor (Z.land b c) (Z.land b d)) (Z.land c d) = Spec.maj b c d.
Proof.
  apply Z.bits_inj'; intros i Hi. unfold Spec.maj.
  repeat rewrite ?Z.lor_spec, ?Z.lxor_spec, ?Z.land_spec. btauto.
Qed.

(** Only the low 32 bits of the function enter the sum. *)
Lemma ch_or b c d :
  Z.lor (Z.land b c) (Z.land (Z.land (Z.lnot b) mask32) d) mod 2 ^ 32 = Spec.ch b c d mod 2 ^ 32.
Proof.
  rewrite <- !Z.land_ones by lia. change mask32 with (Z.ones 32).
  apply Z.bits_inj'; intros i Hi. unfold Spec.ch.
  repeat rewrite ?Z.lor_spec, ?Z.lxor_spec, ?Z.land_spec, ?Z.lnot_spec by done. btauto.
Qed.

Lemma select_spec t b c d : (t < 80)%nat ->
  fst (select t b c d) mod 2 ^ 32 = spec1.f t b c d mod 2 ^ 32 /\ snd (select t b c d) = spec1.K t.
Proof.
  intros Ht. unfold select, spec1.f, spec1.K.
  destruct (Nat.leb_spec t 19); [|destruct (Nat.leb_spec t 39); [|destruct (Nat.leb_spec t 59)]].
  - rewrite (Nat.div_small t 20) by lia. split; [apply ch_or|reflexivity].
  - replace (t / 20)%nat with 1%nat by (apply Nat.div_unique with (t - 20)%nat; lia).
    split; [cbn [fst]; by rewrite Z.lxor_assoc|reflexivity].
  - replace (t / 20)%nat with 2%nat by (apply Nat.div_unique with (t - 40)%nat; lia).
    split; [cbn [fst]; by rewrite maj_or|reflexivity].
  - replace (t / 20)%nat with 3%nat by (apply Nat.div_unique with (t - 60)%nat; lia).
    split; [cbn [fst]; by rewrite Z.lxor_assoc|reflexivity].
Qed.

Lemma round_step_spec st t w : (t < 80)%nat -> round_step st (t, w) = spec1.step st t w.
Proof.
  intros Ht. destruct st as [[[[a b] c] d] e]. unfold round_step, spec1.step.
  destruct (select_spec t b c d Ht) as [Hf <-]. destruct (select t b c d) as [f k]. cbn [fst snd] in *.
  f_equal. f_equal. f_equal. f_equal.
  rewrite (add32_mod (rotate_left a 5)), !add32_mod_l.
  rewrite <- !(Z.add_assoc (rotate_left a 5)), !(Z.add_comm (rotate_left a 5)).
  rewrite <- !Z.add_assoc. rewrite <- (Zplus_mod_idemp_l f), Hf. by rewrite Zplus_mod_idemp_l.
Qed.

Lemma fold_zip_map (g : nat -> Z) l : forall st, Forall (fun t => (t < 80)%nat) l ->
  fold_left round_step (zip l (map g l)) st = fold_left (fun st t => spec1.step st t (g t)) l st.
Proof.
  induction l as [|t l IH]; intros st Hl; [done|]. apply Forall_cons_1 in Hl as [Ht Hl].
  cbn [map zip zip_with fold_left]. by rewrite round_step_spec, IH.
Qed.

Lemma schedule_words (win : list Z) : length win = 16%nat ->
  fold_left schedule_step (seq 16 64) (win ++ replicate 64 0) = map (W win) (seq 0 80).
Proof.
  intros Hm. destruct (schedule_fill win Hm 64 (le_n 64)) as [Hl Hw]. cbv zeta in Hl, Hw.
  revert Hl Hw. generalize (fold_left schedule_step (seq 16 64) (win ++ replicate 64 0)). intros w Hl Hw.
  apply nth_ext with 0 0; [by rewrite length_map, length_seq|]. intros j Hj.
  rewrite (nth_indep (map (W win) (seq 0 80)) 0 (W win 0)) by (by rewrite length_map, length_seq, <- Hl).
  rewrite map_nth, seq_nth by lia. apply Hw. lia.
Qed.

Lemma rounds_words (win : list Z) st n : (n <= 80)%nat ->
  fold_left round_step (zip (seq 0 n) (map (W win) (seq 0 n))) st = spec1.rounds n 0 win st.
Proof.
  intros Hn. rewrite fold_zip_map.
  - by rewrite <- (rounds_fold win n 0).
  - apply List.Forall_forall. intros t Ht%in_seq. lia.
Qed.

Lemma sha1_block_spec st block : length block = 64%nat ->
  process_block st block = spec1.compress st block.
Proof.
  intros Hb. unfold process_block, spec1.compress, schedule.
  assert (length (map from_be_bytes (chunks_exact 4 block)) = 16%nat) as Hm
    by (unfold chunks_exact; by rewrite length_map, chunks_length, Hb).
  revert Hm. generalize (map from_be_bytes (chunks_exact 4 block)). intros win Hm.
  rewrite Hm. change (80 - 16)%nat with 64%nat. rewrite schedule_words by done.
  rewrite length_map, length_seq, rounds_words by lia.
  destruct st as [[[[h0 h1] h2] h3] h4]. destruct (spec1.rounds _ _ _ _) as [[[[a b] c] d] e].
  by rewrite !add32_mod.
Qed.

Abbreviation sha1_represents e m := (represents 64 process_block initial_h e m).

Lemma sha1_from_engine e m : sha1_represents e m -> 8 * Z.of_nat (length m) < 2 ^ 64 ->
  from_engine e = spec1.sha1 m.
Proof.
  intros Hr Hlen. unfold from_engine, engine_input. change BLOCK_SIZE with 64%nat.
  assert (n_bytes_hashed e = length m) as -> by (by destruct Hr as (_ & ? & _)).
  pose proof (pad_to_represents 64 process_block initial_h ltac:(lia) 8 e m ltac:(lia) ltac:(lia) Hr) as Hp.
  pose proof (input_represents 64 process_block initial_h ltac:(lia) _ _
    (to_be_bytes 8 (wrap 64 (8 * Z.of_nat (length m)))) Hp) as Hq.
  rewrite wrap_small in Hq |- * by (unfold in_u; lia). rewrite <- !app_assoc in Hq.
  fold (Spec.pad m) in Hq. unfold midstate, spec1.sha1. destruct Hq as (_ & _ & -> & _).
  f_equal. f_equal. apply (absorb_ext (fun _ => True)); [|done|].
  - intros st b _ Hb. split; [by apply sha1_block_spec|done].
  - rewrite Nat.mul_comm. by apply Nat.Div0.mul_div_le.
Qed.
