(* ===== verification/Hmac.v ===== *)
(** * HMAC ([hashes/src/hmac.rs]) over the hash interface ([hashes/src/lib.rs])

    The traits [Hash] and [HashEngine] are the class [HashFn]; [HashSpec] says which function of
    the message an implementation computes.  HMAC is proved against the interface, and the four
    block-buffered hash functions discharge it. *)

From Stdlib Require Import ZArith Lia.
From coqutil Require Import Byte Word.LittleEndianList.
From stdpp Require Import base tactics option list numbers.
From S2P Require Import Prelude HashEngine Sha256 Ripemd160 Sha512 Sha1.

#[local] Open Scope Z_scope.

(** ** The interface *)

(** [T::Engine::BLOCK_SIZE], [T::engine], [HashEngine::input] and [T::from_engine]. *)
Class HashFn (E : Type) := {
  hash_block_size : nat;
  hash_engine : E;
  hash_input : E -> list byte -> E;
  hash_from_engine : E -> list byte }.

(** [Hash::hash], [hash_byte_chunks]. *)
Definition hash_bytes {E} {F : HashFn E} (data : list byte) : list byte :=
  hash_from_engine (hash_input hash_engine data).
Definition hash_chunks {E} {F : HashFn E} (byte_slices : list (list byte)) : list byte :=
  hash_from_engine (fold_left hash_input byte_slices hash_engine).

(** An engine stands for the message it was fed, and finishing it gives the function's value. *)
Class HashSpec {E} (F : HashFn E) (spec : list byte -> list byte) := {
  stands_for : E -> list byte -> Prop;
  engine_stands_for : stands_for hash_engine [];
  input_stands_for e m d : stands_for e m -> stands_for (hash_input e d) (m ++ d);
  from_engine_stands_for e m : stands_for e m -> 8 * Z.of_nat (length m) < 2 ^ 64 ->
    hash_from_engine e = spec m;
  spec_length m : (length (spec m) <= hash_block_size)%nat;
  block_size_bound : (hash_block_size <= 128)%nat }.

(** ** HMAC of the source *)

Section hmac.
Context {bm : BuildMode} {E : Type} {F : HashFn E}.

Record HmacEngine := mkHmac { iengine : E; oengine : E }.

(** [for (b_i, b_h) in pad.iter_mut().zip(key) { *b_i ^= *b_h; }] *)
Definition xor_byte (a b : byte) : byte := byte.of_Z (Z.lxor (byte.unsigned a) (byte.unsigned b)).
Definition xor_prefix (pad key : list byte) : list byte :=
  zip_with xor_byte pad key ++ drop (length key) pad.

(** [&pad[..BLOCK_SIZE]] *)
Definition prefix (n : nat) (pad : list byte) : run (list byte) :=
  if (n <=? length pad)%nat then Ret (take n pad) else Panic.

Definition hmac_new (key : list byte) : run HmacEngine :=
  _ ← debug_assert (hash_block_size <=? 128)%nat;
  let ipad := replicate 128 (byte.of_Z 0x36) in
  let opad := replicate 128 (byte.of_Z 0x5c) in
  let '(ipad, opad) :=
    if (hash_block_size <? length key)%nat
    then let hash := hash_bytes key in (xor_prefix ipad hash, xor_prefix opad hash)
    else (xor_prefix ipad key, xor_prefix opad key) in
  i ← prefix hash_block_size ipad;
  o ← prefix hash_block_size opad;
  Ret (mkHmac (hash_input hash_engine i) (hash_input hash_engine o)).

Definition hmac_input (self : HmacEngine) (buf : list byte) : HmacEngine :=
  mkHmac (hash_input (iengine self) buf) (oengine self).

Definition hmac_from_engine (e : HmacEngine) : list byte :=
  let ihash := hash_from_engine (iengine e) in
  hash_from_engine (hash_input (oengine e) ihash).

(** [HmacEngine::new], any number of [input] calls, [Hmac::from_engine]. *)
Definition hmac (key : list byte) (slices : list (list byte)) : run (list byte) :=
  e ← hmac_new key; Ret (hmac_from_engine (fold_left hmac_input slices e)).
End hmac.

(** ** RFC 2104 *)

Definition rfc2104 (B : nat) (H : list byte -> list byte) (K text : list byte) : list byte :=
  let K := if (B <? length K)%nat then H K else K in
  let K0 := K ++ replicate (B - length K) Byte.x00 in
  let xor c := map (fun b => xor_byte b (byte.of_Z c)) K0 in
  H (xor 0x5c ++ H (xor 0x36 ++ text)).

(** ** The engines compute RFC 2104 *)

Lemma xor_byte_comm a b : xor_byte a b = xor_byte b a.
Proof. unfold xor_byte. by rewrite Z.lxor_comm. Qed.

Lemma xor_byte_0 a : xor_byte Byte.x00 a = a.
Proof. unfold xor_byte. change (byte.unsigned Byte.x00) with 0. rewrite Z.lxor_0_l. apply byte.of_Z_unsigned. Qed.

Lemma xor_prefix_replicate n c key : (length key <= n)%nat ->
  xor_prefix (replicate n c) key = map (fun b => xor_byte b c) (key ++ replicate (n - length key) Byte.x00).
Proof.
  unfold xor_prefix. revert n. induction key as [|b key IH]; intros n Hl.
  - replace (zip_with xor_byte (replicate n c) []) with (@nil byte) by (by destruct n).
    simpl. rewrite Nat.sub_0_r, drop_0. clear Hl. induction n as [|n IHn]; [done|]. simpl.
    by rewrite xor_byte_0, <- IHn.
  - destruct n as [|n]; [simpl in Hl; lia|]. simpl in Hl |- *. rewrite IH by lia.
    by rewrite xor_byte_comm.
Qed.

Section correct.
Context {bm : BuildMode} {E : Type} {F : HashFn E} {spec : list byte -> list byte} {L : HashSpec F spec}.

Lemma stands_for_inputs slices : forall e m, stands_for e m ->
  stands_for (fold_left hash_input slices e) (m ++ concat slices).
Proof.
  induction slices as [|s slices IH]; intros e m He; simpl; [by rewrite app_nil_r|].
  rewrite app_assoc. by apply IH, input_stands_for.
Qed.

Lemma hash_bytes_spec data : 8 * Z.of_nat (length data) < 2 ^ 64 -> hash_bytes data = spec data.
Proof.
  intros Hl. apply from_engine_stands_for; [|done].
  apply (input_stands_for _ []), engine_stands_for.
Qed.

Lemma prefix_pad c key : (length key <= hash_block_size)%nat ->
  prefix hash_block_size (xor_prefix (replicate 128 c) key) =
  Ret (map (fun b => xor_byte b c) (key ++ replicate (hash_block_size - length key) Byte.x00)).
Proof.
  intros Hl. pose proof block_size_bound as Hb. rewrite xor_prefix_replicate by lia. unfold prefix.
  rewrite length_map, length_app, length_replicate, (proj2 (Nat.leb_le _ _)) by lia. f_equal.
  rewrite firstn_map. f_equal. rewrite take_app_ge by lia. f_equal.
  rewrite take_replicate. f_equal. lia.
Qed.

Lemma fold_hmac_input slices : forall e,
  fold_left hmac_input slices e = mkHmac (fold_left hash_input slices (iengine e)) (oengine e).
Proof. induction slices as [|s slices IH]; intros [i o]; [done|]. simpl. by rewrite IH. Qed.

Lemma hmac_new_spec key : 8 * Z.of_nat (length key) < 2 ^ 64 ->
  let K := if (hash_block_size <? length key)%nat then spec key else key in
  let K0 := K ++ replicate (hash_block_size - length K) Byte.x00 in
  let pad c := map (fun b => xor_byte b (byte.of_Z c)) K0 in
  length K0 = hash_block_size /\
  hmac_new key = Ret (mkHmac (hash_input hash_engine (pad 0x36)) (hash_input hash_engine (pad 0x5c))).
Proof.
  intros Hl. cbv zeta. unfold hmac_new, debug_assert.
  rewrite (proj2 (Nat.leb_le _ _) block_size_bound), andb_false_r. cbn [negb mbind run_bind].
  assert (length (if (hash_block_size <? length key)%nat then spec key else key) <= hash_block_size)%nat as HK.
  { destruct (Nat.ltb_spec hash_block_size (length key)); [apply spec_length|lia]. }
  split; [rewrite length_app, length_replicate; lia|].
  rewrite hash_bytes_spec by done.
  destruct (hash_block_size <? length key)%nat; cbv beta iota in HK |- *;
    by rewrite !(prefix_pad _ _ HK).
Qed.
End correct.

(** ** The hash functions of the crate *)

Definition sha256_fn : HashFn (@HashEngine State) :=
  {| hash_block_size := 64; hash_engine := Sha256.default; hash_input := Sha256.engine_input;
     hash_from_engine := Sha256.from_engine |}.
Definition sha512_fn : HashFn (@HashEngine State) :=
  {| hash_block_size := 128; hash_engine := sha512.engine; hash_input := sha512.engine_input;
     hash_from_engine := sha512.from_engine |}.
Definition ripemd160_fn : HashFn (@HashEngine (list Z)) :=
  {| hash_block_size := 64; hash_engine := ripemd160.engine; hash_input := ripemd160.engine_input;
     hash_from_engine := ripemd160.from_engine |}.
Definition sha1_fn : HashFn (@HashEngine sha1.H) :=
  {| hash_block_size := 64; hash_engine := sha1.engine; hash_input := sha1.engine_input;
     hash_from_engine := sha1.from_engine |}.

#[export] Instance sha256_spec : HashSpec sha256_fn Spec.sha256.
Proof.
  refine {| stands_for := fun e m => sha_represents e m |}.
  - apply default_represents.
  - apply engine_input_represents.
  - apply from_engine_represents.
  - intros m. unfold Spec.sha256. rewrite state_words_length. by apply Nat.leb_le.
  - by apply Nat.leb_le.
Qed.

Lemma sha512_length m : length (spec512.sha512 m) = 64%nat.
Proof.
  unfold spec512.sha512, spec512.sha512_from. generalize (absorb 128 spec512.compress).
  intros f. destruct (f _ _ _) as [[[[[[[a b] c] d] e] g] h] i]. cbn [state_words].
  by rewrite !bind_cons, !length_app, !to_be_bytes_length.
Qed.

#[export] Instance sha512_spec : HashSpec sha512_fn spec512.sha512.
Proof.
  refine {| stands_for := fun e m => sha512_represents sha512.initial_h e m |}.
  - by apply new_represents.
  - intros e m d. apply input_represents. by apply Nat.ltb_lt.
  - intros e m. apply sha512_from_engine.
  - intros m. rewrite sha512_length. by apply Nat.leb_le.
  - by apply Nat.leb_le.
Qed.

#[export] Instance ripemd160_spec : HashSpec ripemd160_fn rmd_spec.ripemd160.
Proof.
  refine {| stands_for := fun e m => rmd_represents e m |}.
  - by apply new_represents.
  - intros e m d. apply input_represents. by apply Nat.ltb_lt.
  - apply rmd_from_engine.
  - intros m. rewrite rmd_length. by apply Nat.leb_le.
  - by apply Nat.leb_le.
Qed.

#[export] Instance sha1_spec : HashSpec sha1_fn spec1.sha1.
Proof.
  refine {| stands_for := fun e m => sha1_represents e m |}.
  - by apply new_represents.
  - intros e m d. apply input_represents. by apply Nat.ltb_lt.
  - apply sha1_from_engine.
  - intros m. unfold spec1.sha1. generalize (absorb 64 spec1.compress).
    intros f. destruct (f _ _ _) as [[[[a b] c] d] e]. cbn [sha1.h_words].
    rewrite !bind_cons, !length_app, !to_be_bytes_length. by apply Nat.leb_le.
  - by apply Nat.leb_le.
Qed.

Lemma hmac_rfc2104 {bm : BuildMode} {E} {F : HashFn E} {spec} {L : HashSpec F spec} key slices :
  8 * Z.of_nat (length key) < 2 ^ 64 -> 8 * Z.of_nat (length (concat slices)) < 2 ^ 63 ->
  hmac key slices = Ret (rfc2104 hash_block_size spec key (concat slices)).
Proof.
  intros Hkey Hlen. destruct (hmac_new_spec key Hkey) as [HK Hn]. unfold hmac. rewrite Hn. cbn [mbind run_bind].
  rewrite fold_hmac_input. unfold hmac_from_engine, rfc2104. cbn [iengine oengine].
  pose proof block_size_bound as Hb. cbv zeta in HK |- *. set (K0 := _ ++ _) in *.
  set (ip := map (fun b => xor_byte b (byte.of_Z 0x36)) K0).
  set (op := map (fun b => xor_byte b (byte.of_Z 0x5c)) K0).
  pose proof (stands_for_inputs slices _ _ (input_stands_for _ [] ip engine_stands_for)) as Hi.
  rewrite (from_engine_stands_for _ _ Hi);
    [|rewrite app_nil_l, length_app; unfold ip; rewrite length_map, HK; lia].
  pose proof (input_stands_for _ _ (spec (ip ++ concat slices))
    (input_stands_for _ [] op engine_stands_for)) as Ho.
  rewrite app_nil_l in Ho |- *. f_equal. apply (from_engine_stands_for _ _ Ho).
  pose proof (spec_length (ip ++ concat slices)). rewrite length_app. unfold op. rewrite length_map, HK. lia.
Qed.

(** ** Properties *)

(** Over any hash function that computes [spec] through its engine, in both builds,
    [HmacEngine::new], any sequence of [input] calls and [from_engine] return the RFC 2104 HMAC of
    the concatenated input, for keys of every length, and never panic. *)
Lemma hmac_correct {bm : BuildMode} {E} {F : HashFn E} {spec} {L : HashSpec F spec}
    (key : list byte) (slices : list (list byte))
    (Hkey : 8 * Z.of_nat (length key) < 2 ^ 64)
    (Hlen : 8 * Z.of_nat (length (concat slices)) < 2 ^ 63) :
  hmac key slices = Ret (rfc2104 hash_block_size spec key (concat slices)).
Proof. by apply hmac_rfc2104. Qed.

