(* ===== verification/SipHash.v ===== *)
(** * SipHash-2-4 ([hashes/src/siphash24.rs])

    The engine keeps the bytes that do not fill a word in a 64-bit [tail] and reads the input
    through unchecked loads.  A load outside the slice is undefined behaviour in the source; the
    model makes it a panic, so that the theorem that nothing panics is also one of memory safety. *)

From Stdlib Require Import ZArith Lia.
From coqutil Require Import Byte Word.LittleEndianList.
From stdpp Require Import base tactics option list numbers.
From S2P Require Import Prelude HashEngine.

#[local] Open Scope Z_scope.

(** ** Rounds *)

Record State := mkState { v0 : Z; v1 : Z; v2 : Z; v3 : Z }.

Definition wrapping_add (a b : Z) : Z := wrap 64 (a + b).
Definition rotate_left (x n : Z) : Z := Z.lor (wrap 64 (Z.shiftl x n)) (Z.shiftr x (64 - n)).

Definition compress (s : State) : State :=
  let '(mkState v0 v1 v2 v3) := s in
  let v0 := wrapping_add v0 v1 in
  let v1 := rotate_left v1 13 in
  let v1 := Z.lxor v1 v0 in
  let v0 := rotate_left v0 32 in
  let v2 := wrapping_add v2 v3 in
  let v3 := rotate_left v3 16 in
  let v3 := Z.lxor v3 v2 in
  let v0 := wrapping_add v0 v3 in
  let v3 := rotate_left v3 21 in
  let v3 := Z.lxor v3 v0 in
  let v2 := wrapping_add v2 v1 in
  let v1 := rotate_left v1 17 in
  let v1 := Z.lxor v1 v2 in
  let v2 := rotate_left v2 32 in
  mkState v0 v1 v2 v3.

Definition c_rounds (state : State) : State := compress (compress state).
Definition d_rounds (state : State) : State := compress (compress (compress (compress state))).

Definition xor_v0 (s : State) (m : Z) : State := mkState (Z.lxor (v0 s) m) (v1 s) (v2 s) (v3 s).
Definition xor_v2 (s : State) (m : Z) : State := mkState (v0 s) (v1 s) (Z.lxor (v2 s) m) (v3 s).
Definition xor_v3 (s : State) (m : Z) : State := mkState (v0 s) (v1 s) (v2 s) (Z.lxor (v3 s) m).

(** The three lines every word goes through. *)
Definition absorb_word (s : State) (mi : Z) : State := xor_v0 (c_rounds (xor_v3 s mi)) mi.

(** ** The engine *)

Record SipEngine := mkSip { k0 : Z; k1 : Z; sip_length : nat; state : State; tail : Z; ntail : nat }.

Definition with_keys (k0 k1 : Z) : SipEngine :=
  mkSip k0 k1 0
    (mkState (Z.lxor k0 0x736f6d6570736575) (Z.lxor k1 0x646f72616e646f6d)
             (Z.lxor k0 0x6c7967656e657261) (Z.lxor k1 0x7465646279746573)) 0 0.
Definition sip_new : SipEngine := with_keys 0 0.
Definition keys (self : SipEngine) : Z * Z := (k0 self, k1 self).

(** [load_int_le!]: the [size] bytes at [i], without a bounds check. *)
Definition load_int_le (buf : list byte) (i size : nat) : run Z :=
  if (i + size <=? length buf)%nat then Ret (le_combine (take size (drop i buf))) else Panic.

Section engine.
Context {bm : BuildMode}.

Definition u8to64_le (buf : list byte) (start len : nat) : run Z :=
  _ ← debug_assert (len <? 8)%nat;
  let i := O in
  let out := 0 in
  '(i, out) ← (if (i + 3 <? len)%nat then w ← load_int_le buf (start + i) 4; Ret ((i + 4)%nat, w)
               else Ret (i, out));
  '(i, out) ← (if (i + 1 <? len)%nat then
                 w ← load_int_le buf (start + i) 2;
                 Ret ((i + 2)%nat, Z.lor out (wrap 64 (Z.shiftl w (Z.of_nat (i * 8)))))
               else Ret (i, out));
  '(i, out) ← (if (i <? len)%nat then
                 b ← load_int_le buf (start + i) 1;
                 Ret ((i + 1)%nat, Z.lor out (wrap 64 (Z.shiftl b (Z.of_nat (i * 8)))))
               else Ret (i, out));
  _ ← debug_assert (i =? len)%nat;
  Ret out.

(** [while i < len - left]; each turn advances by a word. *)
Fixpoint words_loop (fuel : nat) (msg : list byte) (i bound : nat) (st : State) : run (nat * State) :=
  match fuel with
  | O => Ret (i, st)
  | S fuel =>
      if (i <? bound)%nat then
        mi ← load_int_le msg i 8; words_loop fuel msg (i + 8) bound (absorb_word st mi)
      else Ret (i, st)
  end.

(** The second half of [input], after the tail is flushed. *)
Definition input_words (self : SipEngine) (msg : list byte) (needed : nat) : run SipEngine :=
  let len := (length msg - needed)%nat in
  let left := Nat.land len 0x7 in
  '(i, st) ← words_loop (length msg) msg needed (len - left) (state self);
  t ← u8to64_le msg i left;
  Ret (mkSip (k0 self) (k1 self) (sip_length self) st t left).

Definition sip_input (self : SipEngine) (msg : list byte) : run SipEngine :=
  let len := length msg in
  let self := mkSip (k0 self) (k1 self) (sip_length self + len) (state self) (tail self) (ntail self) in
  if negb (ntail self =? 0)%nat then
    let needed := (8 - ntail self)%nat in
    w ← u8to64_le msg 0 (Nat.min len needed);
    let t := Z.lor (tail self) (wrap 64 (Z.shiftl w (8 * Z.of_nat (ntail self)))) in
    if (len <? needed)%nat then
      Ret (mkSip (k0 self) (k1 self) (sip_length self) (state self) t (ntail self + len))
    else
      input_words (mkSip (k0 self) (k1 self) (sip_length self) (absorb_word (state self) t) t 0) msg needed
  else input_words self msg 0.

Definition from_engine_to_u64 (e : SipEngine) : Z :=
  let b := Z.lor (wrap 64 (Z.shiftl (Z.land (Z.of_nat (sip_length e)) 0xff) 56)) (tail e) in
  let st := absorb_word (state e) b in
  let st := d_rounds (xor_v2 st 0xff) in
  Z.lxor (Z.lxor (Z.lxor (v0 st) (v1 st)) (v2 st)) (v3 st).

(** The bytes of the hash and their number. *)
Definition from_u64 (hash : Z) : list byte := le_split 8 hash.
Definition as_u64 (self : list byte) : Z := le_combine self.
Definition sip_from_engine (e : SipEngine) : list byte := from_u64 (from_engine_to_u64 e).

Definition hash_with_keys (k0 k1 : Z) (data : list byte) : run (list byte) :=
  engine ← sip_input (with_keys k0 k1) data; Ret (sip_from_engine engine).
Definition hash_to_u64_with_keys (k0 k1 : Z) (data : list byte) : run Z :=
  engine ← sip_input (with_keys k0 k1) data; Ret (from_engine_to_u64 engine).
End engine.

(** ** The reference definition *)

(** SipHash-2-4: the whole words of the message, then a last word of the bytes left over under the
    length modulo 256. *)
Definition sip_block (st : State) (block : list byte) : State := absorb_word st (le_combine block).
Definition sip_words (k0 k1 : Z) (m : list byte) : State :=
  absorb 8 sip_block (length m / 8)%nat (state (with_keys k0 k1)) m.
Definition left_over (m : list byte) : list byte := drop (length m / 8 * 8)%nat m.
Definition siphash24 (k0 k1 : Z) (m : list byte) : Z :=
  let b := le_combine (left_over m) + 2 ^ 56 * (Z.of_nat (length m) mod 256) in
  let st := d_rounds (xor_v2 (absorb_word (sip_words k0 k1 m) b) 0xff) in
  Z.lxor (Z.lxor (Z.lxor (v0 st) (v1 st)) (v2 st)) (v3 st).

Module tests.
Definition key0 : Z := 0x0706050403020100.
Definition key1 : Z := 0x0f0e0d0c0b0a0908.
Definition count (n : nat) : list byte := map (fun i => byte.of_Z (Z.of_nat i)) (seq 0 n).
Example vector_0 : hash_to_u64_with_keys (bm := true) key0 key1 [] = Ret 0x726fdb47dd0e0e31.
Proof. vm_compute. reflexivity. Qed.
Example vector_15 : hash_to_u64_with_keys (bm := true) key0 key1 (count 15) = Ret 0xa129ca6149be45e5.
Proof. vm_compute. reflexivity. Qed.
Example vector_63 : (e ← sip_input (bm := true) (with_keys key0 key1) (take 5 (count 63));
  e ← sip_input (bm := true) e (drop 5 (count 63)); Ret (from_engine_to_u64 e)) =
  Ret (siphash24 key0 key1 (count 63)).
Proof. vm_compute. reflexivity. Qed.
End tests.

(** ** Loads *)

Lemma lor_part (a b : list byte) n : n = Z.of_nat (length a * 8) -> (length a + length b <= 8)%nat ->
  Z.lor (le_combine a) (wrap 64 (Z.shiftl (le_combine b) n)) = le_combine (a ++ b).
Proof.
  intros -> Hl. rewrite le_combine_app. f_equal.
  - rewrite wrap_small; [f_equal; lia|]. pose proof (le_combine_bound b).
    rewrite Z.shiftl_mul_pow2 by lia. unfold in_u. split; [lia|].
    assert (le_combine b * 2 ^ Z.of_nat (length a * 8) < 2 ^ (8 * Z.of_nat (length b)) * 2 ^ Z.of_nat (length a * 8))
      by (apply Z.mul_lt_mono_pos_r; lia).
    rewrite <- Z.pow_add_r in H0 by lia. eapply Z.lt_le_trans; [exact H0|]. apply Z.pow_le_mono_r; lia.
Qed.

Lemma load_part buf start len i k : (start + len <= length buf)%nat -> (i + k <= len)%nat ->
  load_int_le buf (start + i) k = Ret (le_combine (take k (drop i (take len (drop start buf))))).
Proof.
  intros Hb Hi. unfold load_int_le. rewrite (proj2 (Nat.leb_le _ _)) by lia.
  do 2 f_equal. rewrite skipn_firstn_comm, drop_drop, firstn_firstn. f_equal. lia.
Qed.

Section loads.
Context {bm : BuildMode}.

Lemma debug_assert_true b : b = true -> debug_assert b = Ret tt.
Proof. intros ->. unfold debug_assert. by rewrite andb_false_r. Qed.

Lemma take_part (x : list byte) i k : (i + k <= length x)%nat -> (length x < 8)%nat ->
  Z.lor (le_combine (take i x)) (wrap 64 (Z.shiftl (le_combine (take k (drop i x))) (Z.of_nat (i * 8)))) =
  le_combine (take (i + k) x).
Proof.
  intros Hk Hx. rewrite lor_part.
  - by rewrite take_take_drop.
  - rewrite length_take. do 2 f_equal. lia.
  - rewrite !length_take, length_drop. lia.
Qed.

(** The load of up to seven bytes reads exactly them. *)
Lemma u8to64_le_spec buf start len : (len < 8)%nat -> (start + len <= length buf)%nat ->
  u8to64_le buf start len = Ret (le_combine (take len (drop start buf))).
Proof.
  intros Hl Hb. unfold u8to64_le.
  rewrite debug_assert_true, bind_Ret by (by apply Nat.ltb_lt). cbv zeta.
  assert (length (take len (drop start buf)) = len) as Hx by (rewrite length_take, length_drop; lia).
  revert Hx. generalize (load_part buf start len). generalize (take len (drop start buf)) as x.
  intros x Hload Hx.
  assert (exists i, (len < 4 /\ i = 0 \/ 4 <= len /\ i = 4)%nat /\
    (if (0 + 3 <? len)%nat then w ← load_int_le buf (start + 0) 4; Ret ((0 + 4)%nat, w) else Ret (O, 0)) =
    Ret (i, le_combine (take i x))) as (i1 & Hi1 & ->).
  { destruct (Nat.ltb_spec (0 + 3) len); [|exists O; split; [lia|done]].
    exists 4%nat. split; [lia|]. rewrite Hload by lia. by rewrite bind_Ret. }
  rewrite bind_Ret.
  assert (exists i, (len < i1 + 2 /\ i = i1 \/ i1 + 2 <= len /\ i = i1 + 2)%nat /\
    (if (i1 + 1 <? len)%nat then w ← load_int_le buf (start + i1) 2;
       Ret ((i1 + 2)%nat, Z.lor (le_combine (take i1 x)) (wrap 64 (Z.shiftl w (Z.of_nat (i1 * 8)))))
     else Ret (i1, le_combine (take i1 x))) = Ret (i, le_combine (take i x))) as (i2 & Hi2 & ->).
  { destruct (Nat.ltb_spec (i1 + 1) len); [|exists i1; split; [lia|done]].
    exists (i1 + 2)%nat. split; [lia|]. rewrite Hload, bind_Ret by lia. by rewrite take_part by lia. }
  rewrite bind_Ret.
  destruct (Nat.ltb_spec i2 len) as [Hlt|Hge].
  - rewrite Hload, bind_Ret, bind_Ret by lia. rewrite take_part by lia.
    rewrite debug_assert_true by (apply Nat.eqb_eq; lia). rewrite bind_Ret. by rewrite take_ge by lia.
  - rewrite bind_Ret, debug_assert_true by (apply Nat.eqb_eq; lia). rewrite bind_Ret. by rewrite take_ge by lia.
Qed.

(** ** Words *)

Lemma absorb_add n : forall k st m,
  absorb 8 sip_block (n + k) st m = absorb 8 sip_block k (absorb 8 sip_block n st m) (drop (n * 8) m).
Proof.
  induction n as [|n IH]; intros k st m; [done|]. cbn [Nat.add absorb]. rewrite IH, drop_drop. do 2 f_equal.
Qed.

Lemma words_loop_spec msg k : forall fuel i bound st, (k <= fuel)%nat -> (i + k * 8 <= length msg)%nat ->
  (i + k * 8 - 8 < bound <= i + k * 8)%nat \/ (k = 0 /\ bound <= i)%nat ->
  words_loop fuel msg i bound st = Ret ((i + k * 8)%nat, absorb 8 sip_block k st (drop i msg)).
Proof.
  induction k as [|k IH]; intros fuel i bound st Hf Hl Hb.
  - rewrite Nat.add_0_r. destruct fuel; cbn [words_loop]; [done|]. by rewrite (proj2 (Nat.ltb_ge _ _)) by lia.
  - destruct fuel as [|fuel]; [lia|]. cbn [words_loop]. rewrite (proj2 (Nat.ltb_lt _ _)) by lia.
    unfold load_int_le. rewrite (proj2 (Nat.leb_le _ _)), bind_Ret by lia. rewrite IH; [|lia..].
    cbn [absorb]. rewrite drop_drop. do 2 f_equal. lia.
Qed.

(** ** What an engine stands for *)

Definition sip_represents (a b : Z) (e : SipEngine) (m : list byte) : Prop :=
  k0 e = a /\ k1 e = b /\ sip_length e = length m /\ ntail e = (length m mod 8)%nat /\
  tail e = le_combine (left_over m) /\ state e = sip_words a b m.

Lemma left_over_length m : length (left_over m) = (length m mod 8)%nat.
Proof.
  unfold left_over. rewrite length_drop. pose proof (Nat.div_mod (length m) 8 ltac:(lia)). lia.
Qed.

Lemma land_7 n : Nat.land n 7 = (n mod 8)%nat.
Proof. apply (Nat.land_ones n 3). Qed.

(** The message before [rest] has whole words, [needed] bytes into [msg]. *)
Lemma input_words_spec a b e pre msg needed : (needed <= 7)%nat -> (needed <= length msg)%nat ->
  k0 e = a -> k1 e = b -> sip_length e = (length pre + (length msg - needed))%nat ->
  (length pre mod 8 = 0)%nat -> state e = sip_words a b pre ->
  exists e', input_words e msg needed = Ret e' /\ sip_represents a b e' (pre ++ drop needed msg).
Proof.
  intros Hn Hle Ha Hb Hlen Hmod Hst. unfold input_words. rewrite land_7.
  set (len := (length msg - needed)%nat) in *. set (k := (len / 8)%nat).
  pose proof (Nat.div_mod len 8 ltac:(lia)) as Hd. fold k in Hd.
  pose proof (Nat.mod_upper_bound len 8 ltac:(lia)) as Hm8.
  rewrite (words_loop_spec msg k) by lia. rewrite bind_Ret.
  rewrite u8to64_le_spec by lia. rewrite bind_Ret. eexists. split; [done|].
  assert (length (pre ++ drop needed msg) = length pre + len)%nat as Hl by (rewrite length_app, length_drop; lia).
  pose proof (Nat.div_mod (length pre) 8 ltac:(lia)) as Hp.
  assert (((length pre + len) / 8 = length pre / 8 + k)%nat) as Hdiv.
  { symmetry. apply (Nat.div_unique _ _ _ (len mod 8)); lia. }
  unfold sip_represents. cbn [k0 k1 sip_length ntail tail state]. split_and!; [done|done|lia| | |].
  - rewrite Hl. apply (Nat.mod_unique _ _ (length pre / 8 + k)); lia.
  - f_equal. unfold left_over. rewrite Hl, Hdiv.
    replace ((length pre / 8 + k) * 8)%nat with (length pre + k * 8)%nat by lia.
    rewrite drop_app_add, drop_drop. apply take_ge. rewrite length_drop. lia.
  - rewrite Hst. unfold sip_words. rewrite Hl, Hdiv, absorb_add.
    rewrite absorb_app by lia.
    f_equal. replace (length pre / 8 * 8)%nat with (length pre) by lia. by rewrite drop_app_length.
Qed.

Lemma sip_input_represents a b e m msg : sip_represents a b e m ->
  exists e', sip_input e msg = Ret e' /\ sip_represents a b e' (m ++ msg).
Proof.
  intros (Ha & Hb & Hl & Hn & Ht & Hs). unfold sip_input. cbn [ntail k0 k1 sip_length state tail].
  pose proof (Nat.mod_upper_bound (length m) 8 ltac:(lia)) as Hm8. pose proof (left_over_length m) as Hlo.
  destruct (Nat.eqb_spec (ntail e) 0) as [E|E]; cbn [negb].
  { destruct (input_words_spec a b (mkSip (k0 e) (k1 e) (sip_length e + length msg) (state e) (tail e) (ntail e))
      m msg 0) as (e' & H1 & H2);
      cbn [k0 k1 sip_length ntail state]; try (done || lia). rewrite drop_0 in H2. eauto. }
  rewrite u8to64_le_spec by lia. rewrite bind_Ret, drop_0.
  assert (m = take (length m / 8 * 8) m ++ left_over m) as Hm by (symmetry; apply take_drop).
  pose proof (Nat.div_mod (length m) 8 ltac:(lia)) as Hd.
  assert (length (take (length m / 8 * 8) m) = length m / 8 * 8)%nat as Hpl by (rewrite length_take; lia).
  rewrite Ht, lor_part by (rewrite ?length_take; lia).
  destruct (Nat.ltb_spec (length msg) (8 - ntail e)) as [Hlt|Hge].
  - eexists. split; [done|]. rewrite take_ge by lia.
    assert (((length m + length msg) / 8 = length m / 8)%nat) as Hdiv
      by (symmetry; apply (Nat.div_unique _ _ _ (length m mod 8 + length msg)); lia).
    unfold sip_represents. cbn [k0 k1 sip_length ntail tail state]. rewrite length_app. split_and!; try done; [lia| | |].
    + apply (Nat.mod_unique _ _ (length m / 8)); lia.
    + f_equal. unfold left_over. rewrite length_app, Hdiv. rewrite drop_app_le by lia. done.
    + rewrite Hs. unfold sip_words. rewrite length_app, Hdiv. by rewrite absorb_app by lia.
  - rewrite Nat.min_r by lia. set (needed := (8 - ntail e)%nat) in *.
    assert (m ++ msg = (m ++ take needed msg) ++ drop needed msg) as -> by (by rewrite <- app_assoc, take_drop).
    assert (length (m ++ take needed msg) = S (length m / 8) * 8)%nat as Hpre
      by (rewrite length_app, length_take; lia).
    apply input_words_spec; cbn [k0 k1 sip_length ntail tail state]; try (done || lia).
    + rewrite Hpre. apply Nat.Div0.mod_mul.
    + unfold sip_words. rewrite Hpre, Nat.div_mul by lia.
      rewrite absorb_S by lia. rewrite absorb_app by lia. rewrite drop_app_le by lia.
      rewrite Hs. unfold sip_block at 1, sip_words. do 2 f_equal. symmetry. apply take_ge.
      rewrite length_app, length_take. fold (left_over m). lia.
Qed.
End loads.

(** ** Words stay words *)

Definition state_ok (s : State) : Prop := in_u 64 (v0 s) /\ in_u 64 (v1 s) /\ in_u 64 (v2 s) /\ in_u 64 (v3 s).

Lemma lxor_in_u w a b : 0 < w -> in_u w a -> in_u w b -> in_u w (Z.lxor a b).
Proof.
  intros Hw Ha Hb. pose proof (log2_lt w a Hw Ha). pose proof (log2_lt w b Hw Hb). unfold in_u in *.
  assert (0 <= Z.lxor a b) by (apply Z.lxor_nonneg; lia). split; [done|].
  destruct (Z.eq_dec (Z.lxor a b) 0) as [->|]; [lia|].
  apply Z.log2_lt_pow2; [lia|]. pose proof (Z.log2_lxor a b ltac:(lia) ltac:(lia)). lia.
Qed.

Lemma rotate_left_in_u x n : 0 <= n <= 64 -> in_u 64 x -> in_u 64 (rotate_left x n).
Proof.
  intros Hn Hx. unfold rotate_left. apply lor_in_u; [lia|apply wrap_in_u; lia|].
  unfold in_u in *. rewrite Z.shiftr_div_pow2 by lia. assert (0 < 2 ^ (64 - n)) by (apply pow2_pos; lia).
  split; [apply Z.div_pos; lia|]. apply Z.div_lt_upper_bound; nia.
Qed.

Lemma compress_ok s : state_ok s -> state_ok (compress s).
Proof.
  destruct s as [a b c d]. intros (Ha & Hb & Hc & Hd). unfold compress, state_ok, wrapping_add.
  cbn [v0 v1 v2 v3].
  split_and!; repeat (apply lxor_in_u || apply rotate_left_in_u || (apply wrap_in_u; lia)); try done; lia.
Qed.

#[local] Opaque compress.

Lemma xor_v0_ok s w : in_u 64 w -> state_ok s -> state_ok (xor_v0 s w).
Proof. intros Hw (? & ? & ? & ?). unfold state_ok. cbn [xor_v0 v0 v1 v2 v3]. by split_and!; try apply lxor_in_u. Qed.
Lemma xor_v2_ok s w : in_u 64 w -> state_ok s -> state_ok (xor_v2 s w).
Proof. intros Hw (? & ? & ? & ?). unfold state_ok. cbn [xor_v2 v0 v1 v2 v3]. by split_and!; try apply lxor_in_u. Qed.
Lemma xor_v3_ok s w : in_u 64 w -> state_ok s -> state_ok (xor_v3 s w).
Proof. intros Hw (? & ? & ? & ?). unfold state_ok. cbn [xor_v3 v0 v1 v2 v3]. by split_and!; try apply lxor_in_u. Qed.

Lemma absorb_word_ok s w : in_u 64 w -> state_ok s -> state_ok (absorb_word s w).
Proof. intros Hw Hs. by apply xor_v0_ok, compress_ok, compress_ok, xor_v3_ok. Qed.

#[local] Opaque absorb_word.

Lemma sip_words_ok a b m : in_u 64 a -> in_u 64 b -> state_ok (sip_words a b m).
Proof.
  intros Ha Hb. unfold sip_words. generalize (length m / 8)%nat. intros n.
  assert (state_ok (state (with_keys a b))) as Hs.
  { unfold state_ok, with_keys. cbn [state v0 v1 v2 v3]. split_and!; apply lxor_in_u; done || (unfold in_u; lia). }
  revert Hs. generalize (state (with_keys a b)). revert m. induction n as [|n IH]; intros m st Hs; cbn [absorb]; [done|].
  apply IH. unfold sip_block. apply absorb_word_ok; [|done]. unfold in_u.
  pose proof (le_combine_bound (take 8 m)). rewrite length_take in *.
  assert (2 ^ (8 * Z.of_nat (Nat.min 8 (length m))) <= 2 ^ 64) by (apply Z.pow_le_mono_r; lia). lia.
Qed.

Lemma last_word_in_u m : in_u 64 (le_combine (left_over m) + 2 ^ 56 * (Z.of_nat (length m) mod 256)).
Proof.
  pose proof (le_combine_bound (left_over m)) as Hb. rewrite left_over_length in Hb.
  pose proof (Nat.mod_upper_bound (length m) 8 ltac:(lia)).
  assert (2 ^ (8 * Z.of_nat (length m mod 8)) <= 2 ^ 56) by (apply Z.pow_le_mono_r; lia).
  pose proof (Z.mod_pos_bound (Z.of_nat (length m)) 256 ltac:(lia)). unfold in_u. lia.
Qed.

Lemma siphash24_in_u a b m : in_u 64 a -> in_u 64 b -> in_u 64 (siphash24 a b m).
Proof.
  intros Ha Hb. unfold siphash24. cbv zeta.
  assert (state_ok (d_rounds (xor_v2 (absorb_word (sip_words a b m)
    (le_combine (left_over m) + 2 ^ 56 * (Z.of_nat (length m) mod 256))) 0xff))) as Hs.
  { unfold d_rounds. do 4 apply compress_ok. apply xor_v2_ok; [by split|]. apply absorb_word_ok; [apply last_word_in_u|by apply sip_words_ok]. }
  revert Hs. generalize (d_rounds (xor_v2 (absorb_word (sip_words a b m)
    (le_combine (left_over m) + 2 ^ 56 * (Z.of_nat (length m) mod 256))) 0xff)).
  intros s (? & ? & ? & ?). by repeat apply lxor_in_u.
Qed.

Lemma last_word e m a b : sip_represents a b e m ->
  Z.lor (wrap 64 (Z.shiftl (Z.land (Z.of_nat (sip_length e)) 0xff) 56)) (tail e) =
  le_combine (left_over m) + 2 ^ 56 * (Z.of_nat (length m) mod 256).
Proof.
  intros (_ & _ & Hl & _ & Ht & _). rewrite Hl, Ht.
  change 0xff with (Z.ones 8). rewrite Z.land_ones by lia. change (2 ^ 8) with 256.
  pose proof (Z.mod_pos_bound (Z.of_nat (length m)) 256 ltac:(lia)).
  rewrite wrap_small by (unfold in_u; rewrite Z.shiftl_mul_pow2 by lia; lia).
  rewrite Z.lor_comm, lor_add_disjoint; [lia|lia|].
  pose proof (le_combine_bound (left_over m)) as Hb. rewrite left_over_length in Hb.
  pose proof (Nat.mod_upper_bound (length m) 8 ltac:(lia)).
  assert (2 ^ (8 * Z.of_nat (length m mod 8)) <= 2 ^ 56) by (apply Z.pow_le_mono_r; lia). lia.
Qed.

Lemma sip_engine_hash a b e m : sip_represents a b e m -> from_engine_to_u64 e = siphash24 a b m.
Proof.
  intros H. unfold from_engine_to_u64. rewrite (last_word e m a b H).
  destruct H as (_ & _ & _ & _ & _ & ->). reflexivity.
Qed.

Lemma with_keys_represents a b : sip_represents a b (with_keys a b) [].
Proof. unfold sip_represents. split_and!; reflexivity. Qed.

(** Feeding the pieces of a message one after the other. *)
Fixpoint input_all {bm : BuildMode} (e : SipEngine) (pieces : list (list byte)) : run SipEngine :=
  match pieces with [] => Ret e | p :: pieces => e ← sip_input e p; input_all e pieces end.

Lemma input_all_represents {bm : BuildMode} a b pieces : forall e m, sip_represents a b e m ->
  exists e', input_all e pieces = Ret e' /\ sip_represents a b e' (m ++ concat pieces).
Proof.
  induction pieces as [|p pieces IH]; intros e m H; cbn [input_all concat]; [rewrite app_nil_r; eauto|].
  destruct (sip_input_represents a b e m p H) as (e1 & -> & H1). rewrite bind_Ret, app_assoc. by apply IH.
Qed.

Lemma hash_to_u64_spec {bm : BuildMode} a b m : hash_to_u64_with_keys a b m = Ret (siphash24 a b m).
Proof.
  unfold hash_to_u64_with_keys.
  destruct (sip_input_represents a b _ [] m (with_keys_represents a b)) as (e & -> & H).
  rewrite bind_Ret. by rewrite (sip_engine_hash a b e m).
Qed.

Lemma hash_with_keys_spec {bm : BuildMode} a b m : hash_with_keys a b m = Ret (from_u64 (siphash24 a b m)).
Proof.
  unfold hash_with_keys.
  destruct (sip_input_represents a b _ [] m (with_keys_represents a b)) as (e & -> & H).
  rewrite bind_Ret. unfold sip_from_engine. by rewrite (sip_engine_hash a b e m).
Qed.

(** SipHash.  Whatever pieces a message arrives in, words across pieces included, the engine
    never panics or reads outside a piece, and its result is the SipHash-2-4 of the whole message
    under the engine's keys; the one-call functions give the same number, the byte form its eight
    little-endian bytes, and the number is one of 64 bits. *)
Lemma siphash_engine_correct {bm : BuildMode} (k0 k1 : Z) (pieces : list (list byte)) (m : list byte)
    (Hk0 : in_u 64 k0) (Hk1 : in_u 64 k1) :
  (exists e, input_all (with_keys k0 k1) pieces = Ret e /\
     from_engine_to_u64 e = siphash24 k0 k1 (concat pieces) /\ sip_length e = length (concat pieces) /\
     keys e = (k0, k1)) /\
  hash_to_u64_with_keys k0 k1 m = Ret (siphash24 k0 k1 m) /\
  (exists h, hash_with_keys k0 k1 m = Ret h /\ length h = 8%nat /\ as_u64 h = siphash24 k0 k1 m) /\
  in_u 64 (siphash24 k0 k1 m).
Proof.
  split; [|split; [apply hash_to_u64_spec|]].
  - destruct (input_all_represents k0 k1 pieces _ [] (with_keys_represents k0 k1)) as (e & He & H). exists e.
    split; [done|]. split; [by apply sip_engine_hash|].
    destruct H as (Ha & Hb & Hl & _). unfold keys. by rewrite Ha, Hb.
  - pose proof (siphash24_in_u k0 k1 m Hk0 Hk1) as Hu. split; [|done].
    rewrite hash_with_keys_spec. eexists. split; [done|]. split; [apply length_le_split|].
    unfold as_u64, from_u64. rewrite le_combine_split. by apply Z.mod_small.
Qed.

