(* ===== verification/BitStream.v ===== *)
(** * Bit streams and Golomb-Rice codes ([bip158.rs])

    The bit reader and writer of block filters, which go through a buffer of one byte, and the
    Golomb-Rice code on top of them.  [stream] is the sequence of bits a byte string stands for, most
    significant bit first: writing appends to it and reading consumes it.  Writers are vectors and
    readers byte slices, as [BlockFilter] uses them. *)

From Stdlib Require Import ZArith Lia.
From coqutil Require Import Byte Word.LittleEndianList.
From stdpp Require Import base tactics option list numbers.
From S2P Require Import Prelude.

#[local] Open Scope Z_scope.

(** [io::Error]: [ErrorKind::Other] with a message, or the end of the input. *)
Inductive IoError := TooManyBits | UnexpectedEof.

(** ** Writing *)

Record BitStreamWriter := mkWriter { wbuffer : Z; woffset : Z; written : list byte }.

Definition writer_new (writer : list byte) : BitStreamWriter := mkWriter 0 0 writer.

(** [flush]; the number is the count of bytes written. *)
Definition flush (self : BitStreamWriter) : Z * BitStreamWriter :=
  if 0 <? woffset self then (1, mkWriter 0 0 (written self ++ [byte.of_Z (wbuffer self)])) else (0, self).

(** Each turn takes at least a bit. *)
Fixpoint bit_write_loop (fuel : nat) (self : BitStreamWriter) (data nbits wrote : Z) : Z * BitStreamWriter :=
  match fuel with
  | O => (wrote, self)
  | S fuel =>
      if 0 <? nbits then
        let bits := Z.min (8 - woffset self) nbits in
        let buffer := Z.lor (wbuffer self)
          (wrap 8 (Z.shiftr (wrap 64 (Z.shiftl data (64 - nbits))) (64 - 8 + woffset self))) in
        let self := mkWriter buffer (woffset self + bits) (written self) in
        let nbits := nbits - bits in
        if woffset self =? 8 then
          let '(n, self) := flush self in bit_write_loop fuel self data nbits (wrote + n)
        else bit_write_loop fuel self data nbits wrote
      else (wrote, self)
  end.

Definition write (self : BitStreamWriter) (data nbits : Z) : comp IoError (Z * BitStreamWriter) :=
  if 64 <? nbits then Throw TooManyBits else Val (bit_write_loop (Z.to_nat nbits) self data nbits 0).

(** ** Reading *)

Record BitStreamReader := mkReader { rbuffer : Z; roffset : Z; rest : list byte }.

Definition reader_new (reader : list byte) : BitStreamReader := mkReader 0 8 reader.

Fixpoint bit_read_loop (fuel : nat) (self : BitStreamReader) (data nbits : Z) :
    Result IoError (Z * BitStreamReader) :=
  match fuel with
  | O => Ok (data, self)
  | S fuel =>
      if 0 <? nbits then
        self ← (if roffset self =? 8 then
                  match rest self with
                  | [] => Err UnexpectedEof
                  | b :: rest => Ok (mkReader (byte.unsigned b) 0 rest)
                  end
                else Ok self);
        let bits := Z.min (8 - roffset self) nbits in
        let data := wrap 64 (Z.shiftl data bits) in
        let data := Z.lor data (Z.shiftr (wrap 8 (Z.shiftl (rbuffer self) (roffset self))) (8 - bits)) in
        bit_read_loop fuel (mkReader (rbuffer self) (roffset self + bits) (rest self)) data (nbits - bits)
      else Ok (data, self)
  end.

Definition read (self : BitStreamReader) (nbits : Z) : Result IoError (Z * BitStreamReader) :=
  if 64 <? nbits then Err TooManyBits else bit_read_loop (Z.to_nat nbits) self 0 nbits.

(** ** Golomb-Rice codes *)

Section golomb.
Context {bm : BuildMode}.

(** [!0u64] *)
Definition ONES : Z := u64_MAX.

(** [while q > 0]: the unary part, up to 64 bits at a time. *)
Fixpoint unary_loop (fuel : nat) (writer : BitStreamWriter) (q wrote : Z) : comp IoError (Z * BitStreamWriter) :=
  match fuel with
  | O => Val (wrote, writer)
  | S fuel =>
      if 0 <? q then
        let nbits := Z.min q 64 in
        '(n, writer) ← write writer ONES nbits;
        unary_loop fuel writer (q - nbits) (wrote + n)
      else Val (wrote, writer)
  end.

Definition golomb_rice_encode (p : Z) (writer : BitStreamWriter) (n : Z) : comp IoError (Z * BitStreamWriter) :=
  q ← of_run (shr_u 64 n p);
  '(wrote, writer) ← unary_loop (Z.to_nat (q / 64 + 1)) writer q 0;
  '(w1, writer) ← write writer 0 1;
  '(w2, writer) ← write writer n p;
  Val (wrote + w1 + w2, writer).

(** [while reader.read(1)? == 1]: the bits left bound the turns. *)
Fixpoint count_loop (fuel : nat) (reader : BitStreamReader) (q : Z) : comp IoError (Z * BitStreamReader) :=
  match fuel with
  | O => Throw UnexpectedEof
  | S fuel =>
      '(bit, reader) ← of_result (read reader 1);
      if bit =? 1 then q ← of_run (arith_u 64 (q + 1)); count_loop fuel reader q
      else Val (q, reader)
  end.

Definition bits_left (reader : BitStreamReader) : nat := (8 * length (rest reader) + 8)%nat.

Definition golomb_rice_decode (p : Z) (reader : BitStreamReader) : comp IoError (Z * BitStreamReader) :=
  '(q, reader) ← count_loop (bits_left reader) reader 0;
  '(r, reader) ← of_result (read reader p);
  s ← of_run (shl_u 64 q p);
  v ← of_run (arith_u 64 (s + r));
  Val (v, reader).
End golomb.

(** ** Bits *)

(** The [n] low bits of [v], most significant first, and the number bits stand for. *)
Fixpoint bits_of (n : nat) (v : Z) : list bool :=
  match n with O => [] | S n => Z.testbit v (Z.of_nat n) :: bits_of n v end.
Definition num (l : list bool) : Z := fold_left (fun a b => 2 * a + Z.b2z b) l 0.

Definition byte_bits (b : byte) : list bool := bits_of 8 (byte.unsigned b).
Definition stream (bs : list byte) : list bool := bs ≫= byte_bits.

(** The Golomb-Rice code of [n]: a quotient in unary, ended by a zero, and [p] bits. *)
Definition golomb (p n : Z) : list bool :=
  replicate (Z.to_nat (n / 2 ^ p)) true ++ false :: bits_of (Z.to_nat p) n.

Lemma bits_of_length n v : length (bits_of n v) = n.
Proof. induction n; cbn; congruence. Qed.

Lemma bits_of_lookup n v i : (i < n)%nat -> bits_of n v !! i = Some (Z.testbit v (Z.of_nat n - 1 - Z.of_nat i)).
Proof.
  revert i. induction n as [|n IH]; intros i Hi; [lia|]. destruct i as [|i]; cbn; [do 2 f_equal; lia|].
  rewrite IH by lia. do 2 f_equal. lia.
Qed.

Lemma drop_bits_of k n v : drop k (bits_of n v) = bits_of (n - k) v.
Proof. revert n. induction k as [|k IH]; intros [|n]; cbn; [done..|apply IH]. Qed.

Lemma bits_of_ext n v w : (forall j, 0 <= j < Z.of_nat n -> Z.testbit v j = Z.testbit w j) -> bits_of n v = bits_of n w.
Proof.
  induction n as [|n IH]; intros H; cbn; [done|]. rewrite H by lia. f_equal. apply IH. intros j Hj. apply H. lia.
Qed.

Lemma num_from l : forall a, fold_left (fun a b => 2 * a + Z.b2z b) l a = a * 2 ^ Z.of_nat (length l) + num l.
Proof.
  unfold num. induction l as [|b l IH]; intros a; cbn [fold_left length].
  - rewrite Z.pow_0_r. lia.
  - rewrite (IH (2 * a + Z.b2z b)), (IH (2 * 0 + Z.b2z b)), Nat2Z.inj_succ, Z.pow_succ_r by lia. lia.
Qed.

Lemma num_app l k : num (l ++ k) = num l * 2 ^ Z.of_nat (length k) + num k.
Proof. unfold num at 1. rewrite fold_left_app. apply num_from. Qed.

Lemma bits_num_bound l : 0 <= num l < 2 ^ Z.of_nat (length l).
Proof.
  induction l as [|b l IH] using rev_ind; [done|]. rewrite num_app, length_app, Nat2Z.inj_add, Z.pow_add_r by lia.
  change (num [b]) with (0 + Z.b2z b). change (2 ^ Z.of_nat (length [b])) with 2.
  destruct b; cbn [Z.b2z]; lia.
Qed.

Lemma num_bits_of n v : num (bits_of n v) = v mod 2 ^ Z.of_nat n.
Proof.
  induction n as [|n IH]; [by rewrite Z.mod_1_r|]. cbn [bits_of].
  change (Z.testbit v (Z.of_nat n) :: bits_of n v) with ([Z.testbit v (Z.of_nat n)] ++ bits_of n v).
  rewrite num_app, bits_of_length, IH. change (num [?b]) with (0 + Z.b2z b).
  rewrite Nat2Z.inj_succ, Z.pow_succ_r by lia.
  rewrite (Z.mul_comm 2), Z.rem_mul_r by (try lia; apply Z.pow_nonzero; lia).
  rewrite Z.testbit_spec' by lia. lia.
Qed.

Lemma stream_app a b : stream (a ++ b) = stream a ++ stream b.
Proof. apply bind_app. Qed.

Lemma stream_length bs : length (stream bs) = (8 * length bs)%nat.
Proof.
  induction bs as [|b bs IH]; [done|]. change (stream (b :: bs)) with (byte_bits b ++ stream bs).
  rewrite length_app, IH. unfold byte_bits. rewrite bits_of_length. cbn. lia.
Qed.

(** ** Writing appends *)

Definition writer_bits (w : BitStreamWriter) : list bool :=
  stream (written w) ++ take (Z.to_nat (woffset w)) (bits_of 8 (wbuffer w)).
Definition writer_ok (w : BitStreamWriter) : Prop :=
  0 <= woffset w < 8 /\ in_u 8 (wbuffer w) /\ forall j, 0 <= j < 8 - woffset w -> Z.testbit (wbuffer w) j = false.

(** The bits of [data] that go into a buffer filled up to [off]. *)
Definition piece (data n off : Z) : Z := wrap 8 (Z.shiftr (wrap 64 (Z.shiftl data (64 - n))) (64 - 8 + off)).

Lemma piece_testbit data n off j : 0 < n <= 64 -> 0 <= off < 8 -> 0 <= j < 8 ->
  Z.testbit (piece data n off) j = (j <? 8 - off) && Z.testbit data (j + n + off - 8).
Proof.
  intros Hn Ho Hj. unfold piece, wrap. rewrite Z.mod_pow2_bits_low, Z.shiftr_spec by lia.
  destruct (Z.ltb_spec j (8 - off)).
  - rewrite Z.mod_pow2_bits_low, Z.shiftl_spec by lia. cbn [andb]. f_equal. lia.
  - by rewrite Z.mod_pow2_bits_high by lia.
Qed.

Lemma write_step w data n : writer_ok w -> 0 < n <= 64 ->
  let bits := Z.min (8 - woffset w) n in
  let buffer := Z.lor (wbuffer w) (piece data n (woffset w)) in
  in_u 8 buffer /\ (forall j, 0 <= j < 8 - (woffset w + bits) -> Z.testbit buffer j = false) /\
  take (Z.to_nat (woffset w + bits)) (bits_of 8 buffer) =
    take (Z.to_nat (woffset w)) (bits_of 8 (wbuffer w)) ++ take (Z.to_nat bits) (bits_of (Z.to_nat n) data).
Proof.
  intros (Ho & Hb & Hz) Hn bits buffer. unfold buffer. split_and!.
  - apply lor_in_u; [lia|done|]. apply wrap_in_u. lia.
  - intros j Hj. rewrite Z.lor_spec, Hz, piece_testbit by lia. cbn [orb].
    rewrite (proj2 (Z.ltb_lt _ _)) by lia. apply Z.testbit_neg_r. lia.
  - apply list_eq. intros i.
    destruct (decide (Z.of_nat i < woffset w + bits)) as [Hi|Hi].
    + rewrite lookup_take_lt, bits_of_lookup by lia. rewrite Z.lor_spec, piece_testbit by lia.
      destruct (decide (Z.of_nat i < woffset w)) as [Hio|Hio].
      * rewrite lookup_app_l by (rewrite length_take, bits_of_length; lia).
        rewrite lookup_take_lt, bits_of_lookup by lia.
        rewrite (proj2 (Z.ltb_ge _ _)) by lia. by rewrite orb_false_r.
      * rewrite lookup_app_r by (rewrite length_take, bits_of_length; lia).
        rewrite length_take, bits_of_length, Nat.min_l by lia.
        rewrite lookup_take_lt, bits_of_lookup by lia.
        rewrite Hz by lia. rewrite (proj2 (Z.ltb_lt _ _)) by lia. cbn [orb andb]. do 2 f_equal. lia.
    + rewrite lookup_ge_None_2 by (rewrite length_take, bits_of_length; lia).
      rewrite lookup_ge_None_2; [done|]. rewrite length_app, !length_take, !bits_of_length. lia.
Qed.

Lemma bit_write_loop_spec data : forall fuel w n wrote, writer_ok w -> 0 <= n <= 64 -> n <= Z.of_nat fuel ->
  exists w', bit_write_loop fuel w data n wrote =
      (wrote + Z.of_nat (length (written w')) - Z.of_nat (length (written w)), w') /\
    writer_ok w' /\ writer_bits w' = writer_bits w ++ bits_of (Z.to_nat n) data.
Proof.
  induction fuel as [|fuel IH]; intros w n wrote Hw Hn Hf; cbn [bit_write_loop].
  { exists w. replace n with 0 by lia. rewrite app_nil_r. split_and!; [f_equal; lia|done|done]. }
  destruct (Z.ltb_spec 0 n) as [Hp|Hp].
  2:{ exists w. replace n with 0 by lia. rewrite app_nil_r. split_and!; [f_equal; lia|done|done]. }
  destruct (write_step w data n Hw ltac:(lia)) as (Hb & Hz & Ht). fold (piece data n (woffset w)).
  destruct Hw as (Ho & Hb0 & Hz0).
  set (bits := Z.min (8 - woffset w) n) in *. set (buffer := Z.lor (wbuffer w) (piece data n (woffset w))) in *.
  cbn [woffset].
  assert (bits_of (Z.to_nat n) data = take (Z.to_nat bits) (bits_of (Z.to_nat n) data) ++ bits_of (Z.to_nat (n - bits)) data) as Hsp.
  { replace (Z.to_nat (n - bits)) with (Z.to_nat n - Z.to_nat bits)%nat by lia. rewrite <- drop_bits_of. by rewrite take_drop. }
  destruct (Z.eqb_spec (woffset w + bits) 8) as [E|E].
  - unfold flush. cbn [woffset]. rewrite (proj2 (Z.ltb_lt _ _)) by lia. cbn [written wbuffer].
    destruct (IH (mkWriter 0 0 (written w ++ [byte.of_Z buffer])) (n - bits) (wrote + 1)) as (w' & E' & Hok' & Hbits');
      [|lia|lia|].
    { split_and!; cbn; [lia|lia|done|]. intros j _. apply Z.testbit_0_l. }
    exists w'. split_and!; [|done|].
    + rewrite E'. f_equal. cbn [written]. rewrite length_app. cbn. lia.
    + rewrite Hbits'. unfold writer_bits at 1. cbn [written woffset wbuffer]. rewrite take_0, app_nil_r, stream_app.
      unfold writer_bits. rewrite <- !app_assoc. f_equal. rewrite Hsp. rewrite app_assoc, <- Ht. f_equal.
      rewrite E. cbn [stream mbind list_bind]. rewrite app_nil_r. unfold byte_bits.
      rewrite byte_unsigned_of_Z by (unfold in_u in Hb; lia). symmetry. apply take_ge. by rewrite bits_of_length.
  - destruct (IH (mkWriter buffer (woffset w + bits) (written w)) (n - bits) wrote) as (w' & E' & Hok' & Hbits');
      [split_and!; cbn; [lia|lia|done|done]|lia|lia|].
    exists w'. split_and!; [by rewrite E'|done|]. rewrite Hbits'. unfold writer_bits. cbn [written woffset wbuffer].
    rewrite Ht, <- !app_assoc. by rewrite <- Hsp.
Qed.

Lemma write_spec w data n : writer_ok w -> 0 <= n <= 64 -> exists w',
  write w data n = Val (Z.of_nat (length (written w')) - Z.of_nat (length (written w)), w') /\
  writer_ok w' /\ writer_bits w' = writer_bits w ++ bits_of (Z.to_nat n) data.
Proof.
  intros Hw Hn. unfold write. rewrite (proj2 (Z.ltb_ge _ _)) by lia.
  destruct (bit_write_loop_spec data (Z.to_nat n) w n 0 Hw Hn ltac:(lia)) as (w' & E & H). exists w'. by rewrite E.
Qed.

Lemma flush_spec w : writer_ok w -> exists w' pad,
  flush w = (Z.of_nat (length (written w')) - Z.of_nat (length (written w)), w') /\
  stream (written w') = writer_bits w ++ replicate pad false /\ (pad < 8)%nat.
Proof.
  intros (Ho & Hb & Hz). unfold flush. destruct (Z.ltb_spec 0 (woffset w)).
  - eexists _, (8 - Z.to_nat (woffset w))%nat. split_and!; [f_equal; cbn [written]; rewrite length_app; cbn; lia| |lia].
    cbn [written]. rewrite stream_app. unfold writer_bits. rewrite <- app_assoc. f_equal.
    cbn [stream mbind list_bind]. rewrite app_nil_r. unfold byte_bits. rewrite byte_unsigned_of_Z by (unfold in_u in Hb; lia).
    rewrite <- (take_drop (Z.to_nat (woffset w)) (bits_of 8 (wbuffer w))) at 1. f_equal.
    rewrite drop_bits_of.
    assert (forall k, Z.of_nat k <= 8 - woffset w -> bits_of k (wbuffer w) = replicate k false) as Hk.
    { induction k as [|k IHk]; intros Hk; cbn; [done|]. rewrite Hz by lia. f_equal. apply IHk. lia. }
    apply Hk. lia.
  - exists w, O. split_and!; [f_equal; lia| |lia]. unfold writer_bits. replace (woffset w) with 0 by lia.
    by rewrite take_0, !app_nil_r.
Qed.

(** ** Reading consumes *)

Definition reader_bits (r : BitStreamReader) : list bool :=
  drop (Z.to_nat (roffset r)) (bits_of 8 (rbuffer r)) ++ stream (rest r).
Definition reader_ok (r : BitStreamReader) : Prop := 0 <= roffset r <= 8 /\ in_u 8 (rbuffer r).

Lemma reader_bits_length r : reader_ok r ->
  length (reader_bits r) = (8 - Z.to_nat (roffset r) + 8 * length (rest r))%nat.
Proof. intros _. unfold reader_bits. by rewrite length_app, length_drop, bits_of_length, stream_length. Qed.

(** The field of [bits] bits at [off] of a byte. *)
Lemma field_spec buffer off bits : in_u 8 buffer -> 0 <= off -> 0 < bits -> off + bits <= 8 ->
  Z.shiftr (wrap 8 (Z.shiftl buffer off)) (8 - bits) = num (take (Z.to_nat bits) (drop (Z.to_nat off) (bits_of 8 buffer))).
Proof.
  intros Hb Ho Hbits Hle. rewrite drop_bits_of.
  replace (take (Z.to_nat bits) (bits_of (8 - Z.to_nat off) buffer))
    with (bits_of (Z.to_nat bits) (Z.shiftr buffer (8 - off - bits))).
  - rewrite num_bits_of, Z2Nat.id by lia. apply Z.bits_inj'. intros j Hj.
    rewrite Z.shiftr_spec by lia. unfold wrap.
    destruct (Z.lt_ge_cases j bits).
    + rewrite !Z.mod_pow2_bits_low, Z.shiftl_spec, Z.shiftr_spec by lia. f_equal. lia.
    + rewrite !Z.mod_pow2_bits_high by lia. done.
  - apply list_eq. intros i. destruct (decide (i < Z.to_nat bits)%nat) as [Hi|Hi].
    + rewrite lookup_take_lt, !bits_of_lookup by lia. rewrite Z.shiftr_spec by lia. do 2 f_equal. lia.
    + rewrite !lookup_ge_None_2; [done|rewrite length_take, bits_of_length; lia|rewrite bits_of_length; lia].
Qed.

(** One turn of the loop, with a bit in the buffer: the bits it moves. *)
Lemma read_step r n pre : reader_ok r -> roffset r < 8 -> 0 < n -> Z.of_nat (length pre) + n <= 64 ->
  let bits := Z.min (8 - roffset r) n in
  exists fld, length fld = Z.to_nat bits /\
    Z.lor (wrap 64 (Z.shiftl (num pre) bits)) (Z.shiftr (wrap 8 (Z.shiftl (rbuffer r) (roffset r))) (8 - bits)) =
      num (pre ++ fld) /\
    reader_ok (mkReader (rbuffer r) (roffset r + bits) (rest r)) /\
    reader_bits r = fld ++ reader_bits (mkReader (rbuffer r) (roffset r + bits) (rest r)).
Proof.
  intros [Ho Hb] Ho8 Hp Hl bits. exists (take (Z.to_nat bits) (drop (Z.to_nat (roffset r)) (bits_of 8 (rbuffer r)))).
  rewrite field_spec by (done || lia).
  set (fld := take (Z.to_nat bits) (drop (Z.to_nat (roffset r)) (bits_of 8 (rbuffer r)))).
  assert (length fld = Z.to_nat bits) as Hfl by (unfold fld; rewrite length_take, length_drop, bits_of_length; lia).
  split_and!; [done| |split; cbn; [lia|done]|].
  - pose proof (bits_num_bound pre) as Hpb. pose proof (bits_num_bound fld) as Hfb. rewrite Hfl, Z2Nat.id in Hfb by lia.
    assert (num pre * 2 ^ bits < 2 ^ 64).
    { apply Z.lt_le_trans with (2 ^ Z.of_nat (length pre) * 2 ^ bits); [apply Z.mul_lt_mono_pos_r; lia|].
      rewrite <- Z.pow_add_r by lia. apply Z.pow_le_mono_r; lia. }
    rewrite wrap_small by (unfold in_u; rewrite Z.shiftl_mul_pow2 by lia; lia).
    rewrite Z.lor_comm, lor_add_disjoint by lia. rewrite num_app, Hfl, Z2Nat.id by lia. lia.
  - unfold reader_bits, fld. cbn [roffset rbuffer rest]. rewrite app_assoc. f_equal.
    replace (Z.to_nat (roffset r + bits)) with (Z.to_nat (roffset r) + Z.to_nat bits)%nat by lia.
    by rewrite <- drop_drop, take_drop.
Qed.

(** Reading [n] bits after [pre]: the next bits of the stream, or the end of the input. *)
Definition reads (bits : list bool) (pre : list bool) (n : Z) (o : Result IoError (Z * BitStreamReader)) : Prop :=
  if bool_decide (n <= Z.of_nat (length bits)) then
    exists r', o = Ok (num (pre ++ take (Z.to_nat n) bits), r') /\ reader_ok r' /\ reader_bits r' = drop (Z.to_nat n) bits
  else o = Err UnexpectedEof.

Lemma reads_zero r pre : reader_ok r -> reads (reader_bits r) pre 0 (Ok (num pre, r)).
Proof. intros Hr. unfold reads. rewrite bool_decide_true by lia. rewrite take_0, app_nil_r, drop_0. eauto. Qed.

Lemma reads_app fld bits pre n o : Z.of_nat (length fld) <= n ->
  reads bits (pre ++ fld) (n - Z.of_nat (length fld)) o -> reads (fld ++ bits) pre n o.
Proof.
  intros Hn. unfold reads. rewrite length_app.
  destruct (decide (n <= Z.of_nat (length fld + length bits))).
  - rewrite !bool_decide_true by lia. replace (Z.to_nat n) with (length fld + Z.to_nat (n - Z.of_nat (length fld)))%nat by lia.
    by rewrite drop_app_add, take_app_add, <- app_assoc.
  - by rewrite !bool_decide_false by lia.
Qed.

Lemma bit_read_loop_spec : forall fuel r n pre, reader_ok r -> 0 <= n -> Z.of_nat (length pre) + n <= 64 ->
  n <= Z.of_nat fuel -> reads (reader_bits r) pre n (bit_read_loop fuel r (num pre) n).
Proof.
  induction fuel as [|fuel IH]; intros r n pre Hr Hn Hl Hf; cbn [bit_read_loop].
  { replace n with 0 by lia. by apply reads_zero. }
  destruct (Z.ltb_spec 0 n) as [Hp|Hp]; [|replace n with 0 by lia; by apply reads_zero].
  assert (forall r1, reader_ok r1 -> roffset r1 < 8 -> let bits := Z.min (8 - roffset r1) n in
    reads (reader_bits r1) pre n (bit_read_loop fuel (mkReader (rbuffer r1) (roffset r1 + bits) (rest r1))
      (Z.lor (wrap 64 (Z.shiftl (num pre) bits)) (Z.shiftr (wrap 8 (Z.shiftl (rbuffer r1) (roffset r1))) (8 - bits)))
      (n - bits))) as Hstep.
  { intros r1 Hr1 Ho8. cbv zeta.
    destruct (read_step r1 n pre Hr1 Ho8 Hp Hl) as (fld & Hfl & -> & Hok & ->).
    destruct Hr1 as [Ho _]. apply reads_app; [lia|].
    replace (Z.of_nat (length fld)) with (Z.min (8 - roffset r1) n) by lia.
    apply IH; [done|lia| |lia]. rewrite length_app. lia. }
  destruct (Z.eqb_spec (roffset r) 8) as [E8|E8].
  - assert (reader_bits r = stream (rest r)) as ->
      by (unfold reader_bits; rewrite E8; by rewrite drop_ge by (by rewrite bits_of_length)).
    destruct (rest r) as [|b bs].
    { unfold reads. by rewrite bool_decide_false by (cbn; lia). }
    apply (Hstep (mkReader (byte.unsigned b) 0 bs)); [|cbn; lia].
    split; cbn; [lia|]. pose proof (byte.unsigned_range b). unfold in_u. lia.
  - destruct Hr as [Ho Hb]. apply Hstep; [done|lia].
Qed.

Lemma read_spec r n : reader_ok r -> 0 <= n <= 64 -> reads (reader_bits r) [] n (read r n).
Proof.
  intros Hr Hn. unfold read. rewrite (proj2 (Z.ltb_ge _ _)) by lia. apply (bit_read_loop_spec _ r n []); cbn; done || lia.
Qed.

(** ** Golomb-Rice codes *)

Lemma bits_of_ones n : (n <= 64)%nat -> bits_of n ONES = replicate n true.
Proof.
  induction n as [|n IH]; intros Hn; cbn; [done|]. rewrite IH by lia. f_equal.
  unfold ONES, u64_MAX. replace (2 ^ 64 - 1) with (Z.ones 64) by done. apply Z.ones_spec_low. lia.
Qed.

Section codes.
Context {bm : BuildMode}.

Lemma unary_loop_spec : forall fuel w q wrote, writer_ok w -> 0 <= q -> q <= 64 * Z.of_nat fuel ->
  exists w', unary_loop fuel w q wrote =
      Val (wrote + Z.of_nat (length (written w')) - Z.of_nat (length (written w)), w') /\
    writer_ok w' /\ writer_bits w' = writer_bits w ++ replicate (Z.to_nat q) true.
Proof.
  induction fuel as [|fuel IH]; intros w q wrote Hw Hq Hf; cbn [unary_loop].
  { exists w. replace q with 0 by lia. rewrite app_nil_r. split_and!; [do 2 f_equal; lia|done|done]. }
  destruct (Z.ltb_spec 0 q) as [Hp|Hp].
  2:{ exists w. replace q with 0 by lia. rewrite app_nil_r. split_and!; [do 2 f_equal; lia|done|done]. }
  destruct (write_spec w ONES (Z.min q 64) Hw ltac:(lia)) as (w1 & -> & Hok1 & Hb1). rewrite bind_Val.
  destruct (IH w1 (q - Z.min q 64) (wrote + (Z.of_nat (length (written w1)) - Z.of_nat (length (written w)))) Hok1)
    as (w' & -> & Hok & Hb); [lia|lia|].
  exists w'. split_and!; [do 2 f_equal; lia|done|]. rewrite Hb, Hb1, bits_of_ones, <- app_assoc by lia.
  rewrite <- replicate_add. do 2 f_equal. lia.
Qed.

Lemma golomb_rice_encode_spec p w n : 0 <= p < 64 -> in_u 64 n -> writer_ok w -> exists w',
  golomb_rice_encode p w n = Val (Z.of_nat (length (written w')) - Z.of_nat (length (written w)), w') /\
  writer_ok w' /\ writer_bits w' = writer_bits w ++ golomb p n.
Proof.
  intros Hp Hn Hw. unfold golomb_rice_encode, shr_u. rewrite (proj2 (Z.ltb_lt _ _)) by lia.
  cbn [of_run]. rewrite bind_Val, Z.shiftr_div_pow2 by lia.
  assert (0 <= n / 2 ^ p) by (apply Z.div_pos; [unfold in_u in Hn; lia|apply pow2_pos; lia]).
  destruct (unary_loop_spec (Z.to_nat (n / 2 ^ p / 64 + 1)) w (n / 2 ^ p) 0) as (w1 & -> & Hok1 & Hb1); [done|done| |].
  { pose proof (Z.div_pos (n / 2 ^ p) 64). pose proof (Z.div_mod (n / 2 ^ p) 64 ltac:(lia)).
    pose proof (Z.mod_pos_bound (n / 2 ^ p) 64 ltac:(lia)). lia. }
  rewrite bind_Val.
  destruct (write_spec w1 0 1 Hok1 ltac:(lia)) as (w2 & -> & Hok2 & Hb2). rewrite bind_Val.
  destruct (write_spec w2 n p Hok2 ltac:(lia)) as (w3 & -> & Hok3 & Hb3). rewrite bind_Val.
  exists w3. split_and!; [do 2 f_equal; lia|done|]. rewrite Hb3, Hb2, Hb1. unfold golomb. by rewrite <- !app_assoc.
Qed.

Lemma read_bit r b bits : reader_ok r -> reader_bits r = b :: bits ->
  exists r', read r 1 = Ok (Z.b2z b, r') /\ reader_ok r' /\ reader_bits r' = bits.
Proof.
  intros Hr E. pose proof (read_spec r 1 Hr ltac:(lia)) as H. unfold reads in H. rewrite E in H.
  rewrite bool_decide_true in H by (cbn; lia). destruct H as (r' & -> & Hok & Hb). exists r'. by destruct b.
Qed.

Lemma count_loop_spec q : forall fuel r c bits, reader_ok r -> reader_bits r = replicate q true ++ false :: bits ->
  (q < fuel)%nat -> 0 <= c -> c + Z.of_nat q < 2 ^ 64 ->
  exists r', count_loop fuel r c = Val (c + Z.of_nat q, r') /\ reader_ok r' /\ reader_bits r' = bits.
Proof.
  induction q as [|q IH]; intros [|fuel] r c bits Hr E Hf Hc Hs; [lia| |lia|]; cbn [count_loop].
  - destruct (read_bit r false bits Hr E) as (r' & -> & Hok & Hb). cbn [of_result Z.b2z].
    rewrite bind_Val. exists r'. split_and!; [|done|done]. change (0 =? 1) with false. cbv iota. do 2 f_equal. lia.
  - destruct (read_bit r true (replicate q true ++ false :: bits) Hr E) as (r' & -> & Hok & Hb). cbn [of_result Z.b2z].
    rewrite bind_Val. change (1 =? 1) with true. cbv iota.
    rewrite arith_u_small by (unfold in_u; lia). cbn [of_run]. rewrite bind_Val.
    destruct (IH fuel r' (c + 1) bits Hok Hb) as (r2 & -> & H2); [lia|lia|lia|]. exists r2.
    split; [do 2 f_equal; lia|done].
Qed.

(** Decoding takes one code off the stream. *)
Lemma golomb_rice_decode_spec p r n bits : 0 <= p < 64 -> in_u 64 n -> reader_ok r ->
  reader_bits r = golomb p n ++ bits ->
  exists r', golomb_rice_decode p r = Val (n, r') /\ reader_ok r' /\ reader_bits r' = bits.
Proof.
  intros Hp Hn Hr E. unfold golomb_rice_decode. unfold in_u in Hn.
  assert (0 < 2 ^ p) by (apply pow2_pos; lia).
  assert (0 <= n / 2 ^ p) by (apply Z.div_pos; lia).
  assert (n / 2 ^ p <= n) by (apply Z.div_le_upper_bound; nia).
  pose proof (Z.div_mod n (2 ^ p) ltac:(lia)) as Hd. pose proof (Z.mod_pos_bound n (2 ^ p) ltac:(lia)) as Hm.
  unfold golomb in E. rewrite <- app_assoc in E. cbn [app] in E.
  destruct (count_loop_spec (Z.to_nat (n / 2 ^ p)) (bits_left r) r 0 _ Hr E) as (r1 & -> & Hok1 & Hb1); [|lia|lia|].
  { apply (f_equal length) in E. rewrite reader_bits_length, length_app, length_replicate in E by done.
    cbn [length] in E. unfold bits_left. lia. }
  rewrite bind_Val. pose proof (read_spec r1 p Hok1 ltac:(lia)) as Hrd. unfold reads in Hrd. rewrite Hb1 in Hrd.
  rewrite bool_decide_true in Hrd by (rewrite length_app, bits_of_length; lia).
  destruct Hrd as (r2 & -> & Hok2 & Hb2). cbn [of_result]. rewrite bind_Val. cbn [app].
  rewrite take_app_length' by (by rewrite bits_of_length). rewrite num_bits_of, Z2Nat.id by lia.
  unfold shl_u. rewrite (proj2 (Z.ltb_lt _ _)) by lia. cbn [of_run]. rewrite bind_Val, Z.shiftl_mul_pow2 by lia.
  rewrite (wrap_small 64) by (unfold in_u; nia). rewrite arith_u_small by (unfold in_u; nia).
  cbn [of_run]. rewrite bind_Val. exists r2. split_and!; [do 2 f_equal; lia|done|].
  rewrite Hb2. apply drop_app_length'. by rewrite bits_of_length.
Qed.
End codes.

(** ** Round trip *)

(** What a client writes and reads: a field of some bits, or a Golomb-Rice code. *)
Inductive item := Field (data nbits : Z) | Code (n : Z).
Inductive shape := FieldShape (nbits : Z) | CodeShape.

Definition shape_of (i : item) : shape := match i with Field _ n => FieldShape n | Code _ => CodeShape end.
Definition item_value (i : item) : Z := match i with Field d n => d mod 2 ^ n | Code n => n end.
Definition item_ok (i : item) : Prop := match i with Field _ n => 0 <= n <= 64 | Code n => in_u 64 n end.
Definition item_bits (p : Z) (i : item) : list bool :=
  match i with Field d n => bits_of (Z.to_nat n) d | Code n => golomb p n end.

Section items.
Context {bm : BuildMode} (p : Z) (Hp : 0 <= p < 64).

Definition put (w : BitStreamWriter) (i : item) : comp IoError (Z * BitStreamWriter) :=
  match i with Field d n => write w d n | Code n => golomb_rice_encode p w n end.
Fixpoint puts (w : BitStreamWriter) (l : list item) : comp IoError BitStreamWriter :=
  match l with [] => Val w | i :: l => '(_, w) ← put w i; puts w l end.

Definition get (r : BitStreamReader) (s : shape) : comp IoError (Z * BitStreamReader) :=
  match s with FieldShape n => of_result (read r n) | CodeShape => golomb_rice_decode p r end.
Fixpoint gets (r : BitStreamReader) (l : list shape) : comp IoError (list Z * BitStreamReader) :=
  match l with
  | [] => Val ([], r)
  | s :: l => '(v, r) ← get r s; '(vs, r) ← gets r l; Val (v :: vs, r)
  end.

Lemma put_spec w i : writer_ok w -> item_ok i -> exists n w', put w i = Val (n, w') /\
  n = Z.of_nat (length (written w')) - Z.of_nat (length (written w)) /\
  writer_ok w' /\ writer_bits w' = writer_bits w ++ item_bits p i.
Proof.
  intros Hw Hi. destruct i as [d n|n]; cbn [put item_bits item_ok] in *.
  - destruct (write_spec w d n Hw Hi) as (w' & -> & H). eauto.
  - destruct (golomb_rice_encode_spec p w n Hp Hi Hw) as (w' & -> & H). eauto.
Qed.

Lemma puts_spec l : forall w, writer_ok w -> Forall item_ok l -> exists w',
  puts w l = Val w' /\ writer_ok w' /\ writer_bits w' = writer_bits w ++ (l ≫= item_bits p).
Proof.
  induction l as [|i l IH]; intros w Hw Hl; cbn [puts].
  { exists w. cbn. by rewrite app_nil_r. }
  apply Forall_cons_1 in Hl as [Hi Hl]. destruct (put_spec w i Hw Hi) as (n & w1 & -> & _ & Hok1 & Hb1).
  rewrite bind_Val. destruct (IH w1 Hok1 Hl) as (w' & -> & Hok & Hb). exists w'. split_and!; [done|done|].
  rewrite Hb, Hb1, <- app_assoc. done.
Qed.

Lemma get_spec r i bits : reader_ok r -> item_ok i -> reader_bits r = item_bits p i ++ bits ->
  exists r', get r (shape_of i) = Val (item_value i, r') /\ reader_ok r' /\ reader_bits r' = bits.
Proof.
  intros Hr Hi E. destruct i as [d n|n]; cbn [get shape_of item_value item_bits item_ok] in *.
  - pose proof (read_spec r n Hr Hi) as H. unfold reads in H. rewrite E in H.
    rewrite bool_decide_true in H by (rewrite length_app, bits_of_length; lia).
    destruct H as (r' & -> & Hok & Hb). exists r'. cbn [of_result app].
    rewrite take_app_length' by (by rewrite bits_of_length). rewrite num_bits_of, Z2Nat.id by lia.
    split_and!; [done|done|]. rewrite Hb. apply drop_app_length'. by rewrite bits_of_length.
  - by apply golomb_rice_decode_spec.
Qed.

Lemma gets_spec l : forall r bits, reader_ok r -> Forall item_ok l -> reader_bits r = (l ≫= item_bits p) ++ bits ->
  exists r', gets r (map shape_of l) = Val (map item_value l, r') /\ reader_ok r' /\ reader_bits r' = bits.
Proof.
  induction l as [|i l IH]; intros r bits Hr Hl E; cbn [gets map]; [eauto|].
  apply Forall_cons_1 in Hl as [Hi Hl].
  change ((i :: l) ≫= item_bits p) with (item_bits p i ++ (l ≫= item_bits p)) in E. rewrite <- app_assoc in E.
  destruct (get_spec r i _ Hr Hi E) as (r1 & -> & Hok1 & Hb1). rewrite bind_Val.
  destruct (IH r1 bits Hok1 Hl Hb1) as (r' & -> & H). rewrite bind_Val. eauto.
Qed.
End items.

Lemma writer_new_ok l : writer_ok (writer_new l) /\ writer_bits (writer_new l) = stream l.
Proof.
  split; [split_and!; cbn; [lia|lia|by split|intros; apply Z.testbit_0_l]|].
  unfold writer_bits, writer_new. cbn [written woffset wbuffer]. by rewrite take_0, app_nil_r.
Qed.

Lemma reader_new_ok l : reader_ok (reader_new l) /\ reader_bits (reader_new l) = stream l.
Proof. split; [split; cbn; [lia|by split]|done]. Qed.

(** Bit streams.  Any mixture of fields of up to 64 bits and Golomb-Rice codes that is written
    and flushed reads back, in the same order, as the same values (a field cut to its width), in
    either build, however the items fall across bytes; fewer than eight zero bits are left.  A field
    of more than 64 bits is refused by both sides, and reading past the end is an error. *)
Lemma bit_stream_roundtrip {bm : BuildMode} (p : Z) (l : list item) (w : BitStreamWriter) (d n : Z)
    (Hp : 0 <= p < 64) (Hl : Forall item_ok l) (Hn : 64 < n) :
  (exists w', puts p (writer_new []) l = Val w' /\
     exists r pad, gets p (reader_new (written (snd (flush w')))) (map shape_of l) = Val (map item_value l, r) /\
       reader_bits r = replicate pad false /\ (pad < 8)%nat /\
       (forall k, Z.of_nat pad < k <= 64 -> read r k = Err UnexpectedEof)) /\
  write w d n = Throw TooManyBits /\ (forall r, read r n = Err TooManyBits).
Proof.
  split; [|unfold write, read; by rewrite (proj2 (Z.ltb_lt _ _)) by lia].
  destruct (writer_new_ok []) as [Hok0 Hb0].
  destruct (puts_spec p Hp l _ Hok0 Hl) as (w' & -> & Hok & Hb). exists w'. split; [done|].
  destruct (flush_spec w' Hok) as (w2 & pad & -> & Hs & Hpad). cbn [snd].
  destruct (reader_new_ok (written w2)) as [Hrok Hrb]. rewrite Hs, Hb, Hb0 in Hrb.
  destruct (gets_spec p Hp l _ _ Hrok Hl Hrb) as (r & -> & Hr & Hrb').
  exists r, pad. split_and!; [done|done|done|]. intros k Hk.
  pose proof (read_spec r k Hr ltac:(lia)) as H. unfold reads in H.
  rewrite Hrb', length_replicate in H. by rewrite bool_decide_false in H by lia.
Qed.

