(* ===== verification/Merkle.v ===== *)
(** * Merkle trees ([merkle_tree/mod.rs])

    The root of a list of hashes, computed in place and from an iterator.  The node
    type and the hash of two children are parameters, as in the generic source; the
    reference is the level-by-level definition of the tree. *)

From Stdlib Require Import ZArith Lia.
From coqutil Require Import Byte.
From stdpp Require Import base tactics option list numbers.
From S2P Require Import Prelude HashEngine Sha256.

Section merkle.
Context {T : Type} (parent : T -> T -> T).

(** The loop of [merkle_root_r], from [idx] on, over the slice it overwrites. *)
Fixpoint merge_loop (count idx : nat) (hashes : list T) : run (list T) :=
  match count with
  | 0 => Ret hashes
  | S count =>
      let idx1 := 2 * idx in
      let idx2 := Nat.min (idx1 + 1) (length hashes - 1) in
      h1 ← index hashes (Z.of_nat idx1);
      h2 ← index hashes (Z.of_nat idx2);
      merge_loop count (idx + 1) (<[idx := parent h1 h2]> hashes)
  end.

(** The slice shrinks at every call from two elements on; its length bounds the depth.
    On an empty slice the source recurses for ever: the callers exclude it. *)
Fixpoint merkle_root_r (fuel : nat) (hashes : list T) : run T :=
  if length hashes =? 1 then index hashes 0
  else match fuel with
       | 0 => Panic
       | S fuel =>
           hashes ← merge_loop ((length hashes + 1) / 2) 0 hashes;
           let half_len := length hashes / 2 + length hashes mod 2 in
           merkle_root_r fuel (take half_len hashes)
       end.

Definition calculate_root_inline (hashes : list T) : run (option T) :=
  match length hashes with
  | 0 => Ret None
  | 1 => h ← index hashes 0; Ret (Some h)
  | _ => r ← merkle_root_r (length hashes) hashes; Ret (Some r)
  end.

(** The [while let] loop of [calculate_root]: the first level, built while copying. *)
Fixpoint pair_up (hashes : list T) : list T :=
  match hashes with
  | hash1 :: hash2 :: rest => parent hash1 hash2 :: pair_up rest
  | [hash1] => [parent hash1 hash1]
  | [] => []
  end.

Definition calculate_root (hashes : list T) : run (option T) :=
  match hashes with
  | [] => Ret None
  | [first] => Ret (Some first)
  | _ => let alloc := pair_up hashes in
         r ← merkle_root_r (length alloc) alloc; Ret (Some r)
  end.

(** ** Reference: level by level *)

(** Node [pos] of the level above [l]: its two children, the last one used twice when
    the level is odd. *)
Definition node_above (l : list T) (pos : nat) : option T :=
  match l !! (2 * pos), l !! (2 * pos + 1) with
  | Some a, Some b => Some (parent a b)
  | Some a, None => Some (parent a a)
  | None, _ => None
  end.

(** [is_root height l r]: [r] is the root of the tree over [l], [height] levels up. *)
Inductive is_root : nat -> list T -> T -> Prop :=
| root_single r : is_root 0 [r] r
| root_up height l r : 2 <= length l -> is_root height (pair_up l) r -> is_root (S height) l r.

Lemma is_root_unique h1 l r1 : is_root h1 l r1 -> forall h2 r2, is_root h2 l r2 -> h1 = h2 /\ r1 = r2.
Proof.
  induction 1 as [r|h l r Hl _ IH]; intros h2 r2 H2; inversion H2; subst; try (simpl in *; lia).
  - done.
  - destruct (IH _ _ H0) as [-> ->]. done.
Qed.

(** Induction two elements at a time. *)
Lemma pair_ind (P : list T -> Prop) :
  P [] -> (forall a, P [a]) -> (forall a b l, P l -> P (a :: b :: l)) -> forall l, P l.
Proof.
  intros H0 H1 H2. fix IH 1. intros [|a [|b l]]; [done|apply H1|apply H2, IH].
Qed.

Lemma pair_up_lookup l : forall pos, pair_up l !! pos = node_above l pos.
Proof.
  induction l as [|a|a b l IH] using pair_ind; intros pos; [by destruct pos| |].
  - destruct pos; [done|]. unfold node_above. rewrite (lookup_ge_None_2 [a]); [done|simpl; lia].
  - destruct pos; [done|]. cbn [pair_up]. rewrite lookup_cons_ne_0 by done. simpl Nat.pred.
    rewrite IH. unfold node_above. replace (2 * S pos) with (S (S (2 * pos))) by lia. done.
Qed.

Lemma pair_up_length l : length (pair_up l) = (length l + 1) / 2.
Proof.
  induction l as [|a|a b l IH] using pair_ind; [done|done|]. cbn [pair_up length].
  rewrite IH. replace (S (S (length l)) + 1) with (length l + 1 + 1 * 2) by lia.
  rewrite Nat.div_add by lia. lia.
Qed.

(** The levels of the tree, bottom up, and how they relate to the leaves. *)
Fixpoint level (height : nat) (l : list T) : list T :=
  match height with 0 => l | S height => pair_up (level height l) end.

Lemma level_S_in height l : level height (pair_up l) = level (S height) l.
Proof. induction height as [|h IH]; [done|]. simpl. by rewrite IH. Qed.

Lemma is_root_level height l r : is_root height l r -> level height l = [r].
Proof. induction 1; [done|]. by rewrite <- level_S_in. Qed.

Lemma is_root_length height l r : is_root height l r -> length l <= 2 ^ height.
Proof.
  induction 1 as [|h l r Hl _ IH]; [done|]. rewrite pair_up_length in IH. simpl.
  pose proof (Nat.div_mod (length l + 1) 2 ltac:(lia)).
  pose proof (Nat.mod_upper_bound (length l + 1) 2 ltac:(lia)). lia.
Qed.

Lemma is_root_above height l r : is_root height l r -> forall h, h < height -> 2 <= length (level h l).
Proof.
  induction 1 as [|h' l r Hl _ IH]; intros h Hh; [lia|]. destruct h; [done|].
  rewrite <- level_S_in. apply IH. lia.
Qed.

(** Node [pos] of a level exists when some leaf lies below it. *)
Lemma level_lt height l : forall pos, pos < length (level height l) <-> pos * 2 ^ height < length l.
Proof.
  induction height as [|h IH]; intros pos; [simpl; lia|]. cbn [level]. rewrite pair_up_length.
  specialize (IH (2 * pos)).
  pose proof (Nat.div_mod (length (level h l) + 1) 2 ltac:(lia)).
  pose proof (Nat.mod_upper_bound (length (level h l) + 1) 2 ltac:(lia)).
  replace (pos * 2 ^ S h) with (2 * pos * 2 ^ h) by (simpl; lia). lia.
Qed.

Lemma level_children h l pos x : level (S h) l !! pos = Some x ->
  exists a, level h l !! (2 * pos) = Some a /\
    match level h l !! (2 * pos + 1) with
    | Some b => x = parent a b
    | None => x = parent a a
    end.
Proof.
  cbn [level]. rewrite pair_up_lookup. unfold node_above.
  destruct (level h l !! (2 * pos)) as [a|]; [|done]. intros E. exists a. split; [done|].
  destruct (level h l !! (2 * pos + 1)); congruence.
Qed.

Lemma index_nat (l : list T) i a : l !! i = Some a -> index l (Z.of_nat i) = Ret a.
Proof. intros. apply index_lookup; [lia|by rewrite Nat2Z.id]. Qed.

(** In place: node [idx] overwrites a slot both of whose readers are done with it. *)
Lemma merge_loop_spec (l : list T) count : forall idx hashes,
  idx + count = (length l + 1) / 2 ->
  hashes = take idx (pair_up l) ++ drop idx l ->
  exists out, merge_loop count idx hashes = Ret out /\
    out = take (idx + count) (pair_up l) ++ drop (idx + count) l.
Proof.
  induction count as [|count IH]; intros idx hashes Hc ->.
  - eexists. split; [done|]. by rewrite Nat.add_0_r.
  - set (hashes := take idx (pair_up l) ++ drop idx l).
    pose proof (pair_up_length l) as Hpl.
    pose proof (Nat.div_mod (length l + 1) 2 ltac:(lia)) as Hdm.
    pose proof (Nat.mod_upper_bound (length l + 1) 2 ltac:(lia)) as Hmb.
    assert (length (take idx (pair_up l)) = idx) as Hti by (rewrite length_take; lia).
    assert (length hashes = length l) as Hhl
      by (unfold hashes; rewrite length_app, length_drop; lia).
    assert (forall k, idx <= k -> hashes !! k = l !! k) as Hget.
    { intros k Hk. unfold hashes. rewrite lookup_app_r by lia.
      rewrite lookup_drop. f_equal. lia. }
    destruct (lookup_lt_is_Some_2 l (2 * idx)) as [a Ha]; [lia|].
    destruct (lookup_lt_is_Some_2 l (Nat.min (2 * idx + 1) (length l - 1))) as [b Hb]; [lia|].
    cbn [merge_loop]. rewrite Hhl, (index_nat hashes (2 * idx) a), bind_Ret by (by rewrite Hget by lia).
    rewrite (index_nat hashes _ b), bind_Ret by (by rewrite Hget by lia).
    destruct (IH (idx + 1) (<[idx := parent a b]> hashes)) as (out & Hout & ->); [lia| |].
    + assert (pair_up l !! idx = Some (parent a b)) as Hp.
      { rewrite pair_up_lookup. unfold node_above. rewrite Ha.
        destruct (l !! (2 * idx + 1)) as [b'|] eqn:E.
        - apply lookup_lt_Some in E as E'. rewrite Nat.min_l in Hb by lia. congruence.
        - apply lookup_ge_None in E. rewrite Nat.min_r in Hb by lia.
          replace (length l - 1) with (2 * idx) in Hb by lia. congruence. }
      unfold hashes. rewrite insert_app_r_alt, Hti, Nat.sub_diag by lia.
      destruct (drop idx l) as [|x rest] eqn:Ed.
      { apply (f_equal length) in Ed. rewrite length_drop in Ed. simpl in Ed. lia. }
      replace (idx + 1) with (S idx) by lia. rewrite (take_S_r _ _ _ Hp), <- app_assoc.
      f_equal. simpl. f_equal. replace (S idx) with (idx + 1) by lia. by rewrite <- drop_drop, Ed.
    + eexists. split; [exact Hout|]. by replace (idx + 1 + count) with (idx + S count) by lia.
Qed.

Lemma half_length n : n / 2 + n mod 2 = (n + 1) / 2.
Proof.
  pose proof (Nat.div_mod n 2 ltac:(lia)). pose proof (Nat.mod_upper_bound n 2 ltac:(lia)).
  pose proof (Nat.div_mod (n + 1) 2 ltac:(lia)).
  pose proof (Nat.mod_upper_bound (n + 1) 2 ltac:(lia)). lia.
Qed.

(** One call of [merkle_root_r] goes up one level. *)
Lemma merkle_root_r_step fuel l : length l <> 1 ->
  merkle_root_r (S fuel) l = merkle_root_r fuel (pair_up l).
Proof.
  intros Hl. cbn [merkle_root_r]. rewrite (proj2 (Nat.eqb_neq _ _)) by done.
  destruct (merge_loop_spec l ((length l + 1) / 2) 0 l) as (out & -> & ->); [lia|done|].
  rewrite bind_Ret. rewrite Nat.add_0_l. f_equal.
  pose proof (pair_up_length l) as Hp.
  rewrite (take_ge (pair_up l)) by lia.
  assert (length (pair_up l ++ drop ((length l + 1) / 2) l) = length l) as ->.
  { rewrite length_app, length_drop, Hp.
    pose proof (Nat.div_mod (length l + 1) 2 ltac:(lia)).
    pose proof (Nat.mod_upper_bound (length l + 1) 2 ltac:(lia)). lia. }
  rewrite half_length. apply take_app_length'. lia.
Qed.

Lemma half_lt n : 2 <= n -> 0 < (n + 1) / 2 < n.
Proof.
  intros. pose proof (Nat.div_mod (n + 1) 2 ltac:(lia)).
  pose proof (Nat.mod_upper_bound (n + 1) 2 ltac:(lia)). lia.
Qed.

Lemma merkle_root_r_root fuel : forall l, 0 < length l <= fuel ->
  exists r h, merkle_root_r fuel l = Ret r /\ is_root h l r.
Proof.
  induction fuel as [|fuel IH]; intros l Hl; [lia|].
  destruct (Nat.eq_dec (length l) 1) as [H1|H1].
  - destruct l as [|a [|]]; try done. exists a, 0. split; [done|constructor].
  - rewrite merkle_root_r_step by done. pose proof (half_lt (length l) ltac:(lia)).
    destruct (IH (pair_up l)) as (r & height & Hr & Hh); [rewrite pair_up_length; lia|].
    exists r, (S height). split; [done|]. constructor; [lia|done].
Qed.

(** Both entry points agree; on a non-empty list they return its root. *)
Lemma calculate_root_spec l : l <> [] ->
  exists r h, calculate_root l = Ret (Some r) /\ calculate_root_inline l = Ret (Some r) /\
    is_root h l r.
Proof.
  intros Hl. destruct l as [|a [|b l]]; [done| |].
  - exists a, 0. repeat split. constructor.
  - set (hashes := a :: b :: l). assert (length hashes = S (S (length l))) as Hlen by done.
    pose proof (half_lt (length hashes) ltac:(lia)).
    destruct (merkle_root_r_root (length (pair_up hashes)) (pair_up hashes)) as (r & h & Hr & Hh);
      [rewrite pair_up_length; lia|].
    destruct (merkle_root_r_root (length hashes) hashes) as (r' & h' & Hr' & Hh'); [lia|].
    assert (is_root (S h) hashes r) as Hroot by (constructor; [lia|done]).
    destruct (is_root_unique _ _ _ Hroot _ _ Hh') as [<- <-].
    exists r, (S h). unfold calculate_root, calculate_root_inline. fold hashes. cbv zeta.
    rewrite Hr, Hlen, bind_Ret, <- Hlen, Hr', bind_Ret. done.
Qed.
End merkle.

(** ** Collisions *)

Section collisions.
Context {T : Type} `{EqDecision T} (parent : T -> T -> T).

(** A pair of the first list and a different one of the second with the same hash. *)
Definition collision_between (l1 l2 : list (T * T)) : Prop :=
  exists a b c d, (a, b) ∈ l1 /\ (c, d) ∈ l2 /\ (a, b) <> (c, d) /\ parent a b = parent c d.

Lemma parent_eq l1 l2 a b c d : parent a b = parent c d -> (a, b) ∈ l1 -> (c, d) ∈ l2 ->
  (a = c /\ b = d) \/ collision_between l1 l2.
Proof.
  intros E H1 H2. destruct (decide ((a, b) = (c, d))) as [[= -> ->]|Hn]; [by left|].
  right. by exists a, b, c, d.
Qed.

Lemma collision_between_weaken l1 l2 l1' l2' : l1 ⊆ l1' -> l2 ⊆ l2' ->
  collision_between l1 l2 -> collision_between l1' l2'.
Proof. intros H1 H2 (a & b & c & d & ? & ? & ? & ?). exists a, b, c, d. auto. Qed.


(** The pairs hashed to compute the levels of the tree. *)
Fixpoint level_pairs (l : list T) : list (T * T) :=
  match l with
  | a :: b :: l => (a, b) :: level_pairs l
  | [a] => [(a, a)]
  | [] => []
  end.
Definition tree_pairs (height : nat) (leaves : list T) : list (T * T) :=
  seq 0 height ≫= fun j => level_pairs (level parent j leaves).

Lemma level_pairs_lookup l : forall pos a, l !! (2 * pos) = Some a ->
  level_pairs l !! pos = Some (a, from_option id a (l !! (2 * pos + 1))).
Proof.
  induction l as [|x|x y l IH] using pair_ind; intros pos a Ha; [done| |].
  - destruct pos; [by injection Ha as ->|].
    rewrite lookup_ge_None_2 in Ha; [done|simpl; lia].
  - destruct pos; [by injection Ha as ->|]. cbn [level_pairs].
    replace (2 * S pos) with (S (S (2 * pos))) in * by lia. by apply IH.
Qed.

Lemma tree_pairs_in height leaves j pos a : j < height ->
  level parent j leaves !! (2 * pos) = Some a ->
  (a, from_option id a (level parent j leaves !! (2 * pos + 1))) ∈ tree_pairs height leaves.
Proof.
  intros Hj Ha. apply list_elem_of_bind. exists j. split; [|apply elem_of_seq; lia].
  by eapply list_elem_of_lookup_2, level_pairs_lookup.
Qed.
End collisions.

(** ** The node hash of the block's trees *)

(** Two nodes encoded into a double-SHA-256 engine ([PartialMerkleTree::parent_hash]). *)
Definition parent_hash (left right : list byte) : list byte :=
  let encoder := default in
  let encoder := engine_input encoder left in
  let encoder := engine_input encoder right in
  sha256d_from_engine encoder.

Lemma parent_hash_spec left right : (8 * Z.of_nat (length left + length right) < 2 ^ 64)%Z ->
  parent_hash left right = Spec.sha256 (Spec.sha256 (left ++ right)).
Proof.
  intros. unfold parent_hash, sha256d_from_engine.
  rewrite (from_engine_represents _ (left ++ right)).
  - apply hash_spec. unfold Spec.sha256. rewrite state_words_length. lia.
  - apply engine_input_represents, (engine_input_represents default []), default_represents.
  - rewrite length_app. done.
Qed.

(** ** Main result *)

(** C37: merkle roots.  On every non-empty list [calculate_root] and the in-place
    [calculate_root_inline] return without panicking, agree, and give the root that
    level-by-level pairing defines; both answer [None] on the empty list. *)
Theorem merkle_root_correct {T} (parent : T -> T -> T) (hashes : list T) :
  match hashes with
  | [] => calculate_root parent hashes = Ret None /\
          calculate_root_inline parent hashes = Ret None
  | _ => exists root height, is_root parent height hashes root /\
           calculate_root parent hashes = Ret (Some root) /\
           calculate_root_inline parent hashes = Ret (Some root)
  end.
Proof.
  destruct hashes as [|a l]; [done|].
  destruct (calculate_root_spec parent (a :: l) ltac:(done)) as (r & h & ? & ? & ?). eauto.
Qed.
