(* ===== verification/PartialMerkle.v ===== *)
(** * Partial merkle trees ([merkle_tree/block.rs])

    The proof that some transactions are in a block: building the bit and hash vectors
    depth first, extracting the matched transactions with every check of the source,
    and the wire format.  Node type and node hash are parameters of the traversal. *)

From Stdlib Require Import ZArith Lia.
From coqutil Require Import Byte.
From stdpp Require Import base tactics option list numbers.
From S2P Require Import Prelude Io Encode HashEngine Sha256 Merkle.

#[local] Open Scope Z_scope.

Inductive MerkleBlockError :=
| MerkleRootMismatch
| NoTransactions
| TooManyTransactions
| TooManyHashes
| NotEnoughBits
| NotAllBitsConsumed
| NotAllHashesConsumed
| BitsArrayOverflow
| HashesArrayOverflow
| IdenticalHashesFound.

#[export] Instance MerkleBlockError_eq_dec : EqDecision MerkleBlockError.
Proof. solve_decision. Defined.

(** [Weight::MAX_BLOCK / Weight::MIN_TRANSACTION]: 4,000,000 and 4 * 60 weight units. *)
Definition max_transactions : Z := 4000000 / (4 * 60).

Record PartialMerkleTree (T : Type) := mkPMT {
  num_transactions : Z;
  bits : list bool;
  hashes : list T;
}.
Arguments mkPMT {T} _ _ _.
Arguments num_transactions {T} _.
Arguments bits {T} _.
Arguments hashes {T} _.

Section pmt.
Context {T : Type} `{EqDecision T} (parent : T -> T -> T) {bm : BuildMode}.

(** [calc_tree_width] and [calc_tree_height], on the transaction count. *)
Definition calc_tree_width (num : Z) (height : Z) : run Z :=
  one ← shl_u 32 1 height;
  s ← arith_u 32 (num + one);
  s ← arith_u 32 (s - 1);
  shr_u 32 s height.

(** Thirty-two turns are enough for any count below 2^31. *)
Fixpoint tree_height_loop (fuel : nat) (num : Z) (height : nat) : run nat :=
  match fuel with
  | O => Panic
  | S fuel =>
      w ← calc_tree_width num (Z.of_nat height);
      if 1 <? w then tree_height_loop fuel num (S height) else Ret height
  end.
Definition calc_tree_height (num : Z) : run nat := tree_height_loop 33 num 0.

Section traverse.
Context (num : Z).

Fixpoint calc_hash (height : nat) (pos : Z) (txids : list T) : run T :=
  match height with
  | O => index txids pos
  | S height' =>
      p2 ← arith_u 32 (pos * 2);
      left ← calc_hash height' p2 txids;
      p2 ← arith_u 32 (pos * 2);
      p2 ← arith_u 32 (p2 + 1);
      w ← calc_tree_width num (Z.of_nat height');
      right ← (if p2 <? w then calc_hash height' p2 txids else Ret left);
      Ret (parent left right)
  end.

(** The [while] loop that looks for a match below a node. *)
Fixpoint match_loop (fuel : nat) (p limit : Z) (matches : list bool) (parent_of_match : bool) :
    run bool :=
  match fuel with
  | O => Ret parent_of_match
  | S fuel =>
      if (p <? limit) && (p <? num) then
        m ← index matches p;
        p ← arith_u 32 (p + 1);
        match_loop fuel p limit matches (parent_of_match || m)
      else Ret parent_of_match
  end.

(** The tree under construction: flag bits and hashes, in depth-first order. *)
Fixpoint traverse_and_build (height : nat) (pos : Z) (txids : list T) (matches : list bool)
    (acc : list bool * list T) : run (list bool * list T) :=
  p ← shl_u 32 pos (Z.of_nat height);
  pos1 ← arith_u 32 (pos + 1);
  limit ← shl_u 32 pos1 (Z.of_nat height);
  parent_of_match ← match_loop (Z.to_nat num) p limit matches false;
  let '(bs, hs) := acc in
  let bs := bs ++ [parent_of_match] in
  match height with
  | O =>
      hash ← calc_hash 0 pos txids; Ret (bs, hs ++ [hash])
  | S height' =>
      if negb parent_of_match then
        hash ← calc_hash (S height') pos txids; Ret (bs, hs ++ [hash])
      else
        p2 ← arith_u 32 (pos * 2);
        acc ← traverse_and_build height' p2 txids matches (bs, hs);
        p2 ← arith_u 32 (pos * 2);
        p2 ← arith_u 32 (p2 + 1);
        w ← calc_tree_width num (Z.of_nat height');
        if p2 <? w then traverse_and_build height' p2 txids matches acc else Ret acc
  end.

(** The cursors and outputs [traverse_and_extract] threads through its calls. *)
Record extraction := mkEx {
  bits_used : Z;
  hash_used : Z;
  matched : list T;
  indexes : list Z;
}.

Fixpoint traverse_and_extract (bs : list bool) (hs : list T) (height : nat) (pos : Z)
    (st : extraction) : comp MerkleBlockError (T * extraction) :=
  if Z.of_nat (length bs) <=? bits_used st then Throw BitsArrayOverflow else
  parent_of_match ← of_run (index bs (bits_used st));
  bu ← of_run (arith_u 32 (bits_used st + 1));
  let st := mkEx bu (hash_used st) (matched st) (indexes st) in
  if bool_decide (height = O) || negb parent_of_match then
    if Z.of_nat (length hs) <=? hash_used st then Throw HashesArrayOverflow else
    hash ← of_run (index hs (hash_used st));
    hu ← of_run (arith_u 32 (hash_used st + 1));
    let st := mkEx (bits_used st) hu (matched st) (indexes st) in
    if bool_decide (height = O) && parent_of_match then
      Val (hash, mkEx (bits_used st) (hash_used st) (matched st ++ [hash]) (indexes st ++ [pos]))
    else Val (hash, st)
  else
    match height with
    | O => Crash
    | S height' =>
        p2 ← of_run (arith_u 32 (pos * 2));
        '(hleft, st) ← traverse_and_extract bs hs height' p2 st;
        p2 ← of_run (arith_u 32 (pos * 2));
        p2 ← of_run (arith_u 32 (p2 + 1));
        w ← of_run (calc_tree_width num (Z.of_nat height'));
        if p2 <? w then
          '(hright, st) ← traverse_and_extract bs hs height' p2 st;
          if bool_decide (hright = hleft) then Throw IdenticalHashesFound
          else Val (parent hleft hright, st)
        else Val (parent hleft hleft, st)
    end.
End traverse.

(** [PartialMerkleTree::from_txids] *)
Definition from_txids (txids : list T) (matches : list bool) : run (PartialMerkleTree T) :=
  _ ← assert_ (negb (length txids =? 0)%nat);
  _ ← assert_ (length txids =? length matches)%nat;
  let num := wrap 32 (Z.of_nat (length txids)) in
  height ← calc_tree_height num;
  '(bs, hs) ← traverse_and_build num height 0 txids matches ([], []);
  Ret (mkPMT num bs hs).

(** [PartialMerkleTree::extract_matches]: the root and the two output vectors. *)
Definition extract_matches (self : PartialMerkleTree T) :
    comp MerkleBlockError (T * list T * list Z) :=
  if num_transactions self =? 0 then Throw NoTransactions else
  if max_transactions <? num_transactions self then Throw TooManyTransactions else
  if num_transactions self <? wrap 32 (Z.of_nat (length (hashes self))) then Throw TooManyHashes else
  if (length (bits self) <? length (hashes self))%nat then Throw NotEnoughBits else
  height ← of_run (calc_tree_height (num_transactions self));
  '(hash_merkle_root, st) ←
    traverse_and_extract (num_transactions self) (bits self) (hashes self) height 0
      (mkEx 0 0 [] []);
  used ← of_run (arith_u 32 (bits_used st + 7));
  total ← of_run (arith_u 32 (wrap 32 (Z.of_nat (length (bits self))) + 7));
  if negb (used / 8 =? total / 8) then Throw NotAllBitsConsumed else
  if negb (hash_used st =? wrap 32 (Z.of_nat (length (hashes self)))) then Throw NotAllHashesConsumed else
  Val (hash_merkle_root, matched st, indexes st).
End pmt.
Arguments mkEx {T} _ _ _ _.
Arguments bits_used {T} _.
Arguments hash_used {T} _.
Arguments matched {T} _.
Arguments indexes {T} _.

(** ** Tree geometry *)

Section width.
Context {T : Type} (parent : T -> T -> T) {bm : BuildMode} (txids : list T).
Let n := Z.of_nat (length txids).
Context (Hn0 : 0 < n) (Hn : n < 2 ^ 31).

Lemma calc_tree_width_spec height : (height <= 31)%nat ->
  calc_tree_width n (Z.of_nat height) = Ret (Z.of_nat (length (level parent height txids))).
Proof.
  intros Hh. unfold calc_tree_width, shl_u, shr_u.
  rewrite !(proj2 (Z.ltb_lt (Z.of_nat height) 32)) by lia.
  assert (1 <= 2 ^ Z.of_nat height <= 2 ^ 31) as Hp.
  { split; [pose proof (pow2_pos (Z.of_nat height)); lia|apply Z.pow_le_mono_r; lia]. }
  rewrite Z.shiftl_1_l, bind_Ret, wrap_small by (unfold in_u; lia).
  rewrite arith_u_small, bind_Ret by (unfold in_u; lia).
  rewrite arith_u_small, bind_Ret by (unfold in_u; lia). f_equal.
  rewrite Z.shiftr_div_pow2 by lia. set (P := 2 ^ Z.of_nat height) in *.
  set (V := (n + P - 1) / P).
  pose proof (Z.div_mod (n + P - 1) P ltac:(lia)) as Hd. fold V in Hd.
  pose proof (Z.mod_pos_bound (n + P - 1) P ltac:(lia)) as Hm.
  assert (Z.of_nat (2 ^ height) = P) as HP by (unfold P; by rewrite Nat2Z.inj_pow).
  assert (0 < V) as HV by (apply Z.div_str_pos; lia).
  pose proof (level_lt parent height txids (Z.to_nat V)) as H1.
  pose proof (level_lt parent height txids (Z.to_nat (V - 1))) as H2.
  assert ((Z.to_nat V * 2 ^ height < length txids)%nat <-> V * P < n) as E1 by (unfold n; nia).
  assert ((Z.to_nat (V - 1) * 2 ^ height < length txids)%nat <-> (V - 1) * P < n) as E2 by (unfold n; nia).
  nia.
Qed.

Lemma tree_height_loop_spec root H fuel : is_root parent H txids root -> (H <= 31)%nat ->
  forall h, (h <= H)%nat -> (H < h + fuel)%nat -> tree_height_loop fuel n h = Ret H.
Proof.
  intros Hr HH. induction fuel as [|fuel IH]; intros h Hle Hf; [lia|].
  cbn [tree_height_loop]. rewrite calc_tree_width_spec, bind_Ret by lia.
  destruct (Nat.eq_dec h H) as [->|Hne].
  - by rewrite (is_root_level parent H txids root Hr).
  - pose proof (is_root_above parent H txids root Hr h ltac:(lia)).
    rewrite (proj2 (Z.ltb_lt _ _)) by lia. apply IH; lia.
Qed.

Lemma root_height root H : is_root parent H txids root -> (H <= 31)%nat.
Proof.
  intros Hr. destruct H as [|H]; [lia|].
  pose proof (is_root_above parent _ txids root Hr H ltac:(lia)) as Ha.
  assert (1 < length (level parent H txids))%nat as H1 by lia.
  apply level_lt in H1. assert (2 ^ H < 2 ^ 31)%nat as Hlt.
  { enough (Z.of_nat (2 ^ H) < Z.of_nat (2 ^ 31))%Z by lia.
    rewrite !Nat2Z.inj_pow. change (Z.of_nat 2 ^ Z.of_nat 31) with (2 ^ 31).
    rewrite <- (Nat2Z.inj_pow 2 H). unfold n in *. lia. }
  apply Nat.pow_lt_mono_r_iff in Hlt; lia.
Qed.

Lemma calc_tree_height_spec root H : is_root parent H txids root -> calc_tree_height n = Ret H.
Proof.
  intros Hr. pose proof (root_height root H Hr).
  apply (tree_height_loop_spec root); [done|done|lia|lia].
Qed.

Lemma calc_hash_spec h : (h <= 31)%nat -> forall pos x,
  level parent h txids !! pos = Some x ->
  calc_hash parent n h (Z.of_nat pos) txids = Ret x.
Proof.
  induction h as [|h IH]; intros Hh pos x Hx; cbn [calc_hash].
  - by apply index_nat.
  - destruct (level_children parent h txids pos x Hx) as (a & Ha & Hb).
    apply lookup_lt_Some in Ha as Hal. pose proof (proj1 (level_lt parent h txids (2 * pos)) Hal) as Hp.
    assert (2 * pos < length txids)%nat by (pose proof (Nat.pow_nonzero 2 h); nia).
    rewrite arith_u_small, !bind_Ret by (unfold in_u, n in *; lia).
    replace (Z.of_nat pos * 2) with (Z.of_nat (2 * pos)) by lia.
    rewrite (IH ltac:(lia) _ _ Ha), !bind_Ret.
    rewrite arith_u_small, !bind_Ret by (unfold in_u, n in *; lia).
    rewrite calc_tree_width_spec, bind_Ret by lia.
    replace (Z.of_nat (2 * pos) + 1) with (Z.of_nat (2 * pos + 1)) by lia.
    destruct (level parent h txids !! (2 * pos + 1)%nat) as [b|] eqn:Eb.
    + apply lookup_lt_Some in Eb as Hbl. rewrite (proj2 (Z.ltb_lt _ _)) by lia.
      rewrite (IH ltac:(lia) _ _ Eb), bind_Ret. by subst.
    + apply lookup_ge_None in Eb. rewrite (proj2 (Z.ltb_ge _ _)) by lia.
      rewrite bind_Ret. by subst.
Qed.
End width.

(** ** Which leaves lie below a node *)

Section matching.
Context (matches : list bool).

Definition below (h pos : nat) : list bool := take (2 ^ h) (drop (pos * 2 ^ h) matches).

Lemma below_split h pos : below (S h) pos = below h (2 * pos) ++ below h (2 * pos + 1).
Proof.
  unfold below. replace (2 ^ S h)%nat with (2 ^ h + 2 ^ h)%nat by (simpl; lia).
  rewrite <- take_take_drop, drop_drop. do 2 f_equal; [f_equal; simpl; lia|f_equal; lia].
Qed.

(** The flag of a node: some leaf below it matches. *)
Lemma flag_level h : forall pos, (pos < length (level orb h matches))%nat ->
  level orb h matches !! pos = Some (existsb id (below h pos)).
Proof.
  induction h as [|h IH]; intros pos Hp.
  - unfold below. simpl in *. rewrite Nat.mul_1_r.
    destruct (lookup_lt_is_Some_2 matches pos Hp) as [b Hb]. rewrite Hb.
    rewrite (drop_S _ _ _ Hb). simpl. by rewrite orb_false_r.
  - cbn [level] in *. destruct (lookup_lt_is_Some_2 _ _ Hp) as [x Hx]. rewrite Hx. f_equal.
    destruct (level_children orb h matches pos x Hx) as (a & Ha & Hb).
    rewrite below_split, existsb_app.
    apply lookup_lt_Some in Ha as Hal. rewrite IH in Ha by done. injection Ha as Ha.
    destruct (level orb h matches !! (2 * pos + 1)%nat) as [b|] eqn:Eb.
    + apply lookup_lt_Some in Eb as Hbl. rewrite IH in Eb by done. injection Eb as Eb.
      by subst.
    + apply lookup_ge_None in Eb.
      assert (below h (2 * pos + 1) = []) as E0.
      { unfold below. rewrite drop_ge; [by rewrite take_nil|].
        pose proof (level_lt orb h matches (2 * pos + 1)). lia. }
      rewrite E0, Hb, orb_diag. simpl existsb at 2. rewrite orb_false_r. by subst.
Qed.

Context {bm : BuildMode}.
Let n := Z.of_nat (length matches).
Context (Hn : n < 2 ^ 31).

Lemma match_loop_spec fuel : forall (p limit : nat) (acc : bool),
  (length matches <= p + fuel)%nat -> (p <= limit)%nat ->
  match_loop n fuel (Z.of_nat p) (Z.of_nat limit) matches acc =
  Ret (acc || existsb id (take (limit - p) (drop p matches))).
Proof.
  induction fuel as [|fuel IH]; intros p limit acc Hf Hl; cbn [match_loop].
  - rewrite drop_ge, take_nil by lia. simpl. by rewrite orb_false_r.
  - destruct (Z.ltb_spec (Z.of_nat p) (Z.of_nat limit)); simpl andb.
    + destruct (Z.ltb_spec (Z.of_nat p) n).
      * destruct (lookup_lt_is_Some_2 matches p ltac:(lia)) as [b Hb].
        rewrite (index_nat _ _ _ Hb), bind_Ret, arith_u_small, bind_Ret by (unfold in_u; lia).
        replace (Z.of_nat p + 1) with (Z.of_nat (S p)) by lia.
        rewrite IH by lia. rewrite (drop_S _ _ _ Hb).
        replace (limit - p)%nat with (S (limit - S p)) by lia. simpl. by rewrite orb_assoc.
      * rewrite drop_ge, take_nil by lia. simpl. by rewrite orb_false_r.
    + replace (limit - p)%nat with 0%nat by lia. simpl. by rewrite orb_false_r.
Qed.
End matching.

(** ** The proof of a node

    [built h pos bs hs ix]: the flag bits, hashes and matched positions of the subtree
    at node [pos] of level [h], in depth-first order. *)

Section build.
Context {T : Type} `{EqDecision T} (parent : T -> T -> T) {bm : BuildMode}.
Context (txids : list T) (matches : list bool) (Hlen : length txids = length matches).

Inductive built : nat -> nat -> list bool -> list T -> list nat -> Prop :=
| built_pruned h pos x :
    level parent h txids !! pos = Some x -> level orb h matches !! pos = Some false ->
    built h pos [false] [x] []
| built_leaf pos x :
    txids !! pos = Some x -> matches !! pos = Some true ->
    built 0 pos [true] [x] [pos]
| built_both h pos b1 h1 i1 b2 h2 i2 :
    level orb (S h) matches !! pos = Some true ->
    (2 * pos + 1 < length (level parent h txids))%nat ->
    built h (2 * pos) b1 h1 i1 -> built h (2 * pos + 1) b2 h2 i2 ->
    built (S h) pos (true :: b1 ++ b2) (h1 ++ h2) (i1 ++ i2)
| built_one h pos b1 h1 i1 :
    level orb (S h) matches !! pos = Some true ->
    (length (level parent h txids) <= 2 * pos + 1)%nat ->
    built h (2 * pos) b1 h1 i1 ->
    built (S h) pos (true :: b1) h1 i1.

Lemma level_same_length h pos :
  (pos < length (level parent h txids))%nat <-> (pos < length (level orb h matches))%nat.
Proof. rewrite !level_lt. lia. Qed.

Let n := Z.of_nat (length txids).
Context (Hn0 : 0 < n) (Hn : n < 2 ^ 31).

Lemma width_n h : (h <= 31)%nat ->
  calc_tree_width n (Z.of_nat h) = Ret (Z.of_nat (length (level parent h txids))).
Proof. by apply calc_tree_width_spec. Qed.

Lemma hash_n h pos x : (h <= 31)%nat -> level parent h txids !! pos = Some x ->
  calc_hash parent n h (Z.of_nat pos) txids = Ret x.
Proof. intros. by apply calc_hash_spec. Qed.

(** The header of [traverse_and_build]: the flag it computes for a node. *)
Lemma node_flag h pos : (h <= 31)%nat -> (pos < length (level parent h txids))%nat ->
  exists b, level orb h matches !! pos = Some b /\ forall (k : bool -> run (list bool * list T)),
  (p ← shl_u 32 (Z.of_nat pos) (Z.of_nat h);
   pos1 ← arith_u 32 (Z.of_nat pos + 1);
   limit ← shl_u 32 pos1 (Z.of_nat h);
   parent_of_match ← match_loop n (Z.to_nat n) p limit matches false;
   k parent_of_match) = k b.
Proof.
  intros Hh Hpos. exists (existsb id (below matches h pos)).
  split; [by apply flag_level, level_same_length|]. intros k.
  apply level_lt in Hpos as Hp.
  assert (1 <= 2 ^ Z.of_nat h <= 2 ^ 31) as HP.
  { split; [pose proof (pow2_pos (Z.of_nat h)); lia|apply Z.pow_le_mono_r; lia]. }
  assert (Z.of_nat (2 ^ h) = 2 ^ Z.of_nat h) as HE by (by rewrite Nat2Z.inj_pow).
  set (P := 2 ^ Z.of_nat h) in *.
  assert (Z.of_nat pos * P < n) by (unfold n; nia).
  unfold shl_u. rewrite !(proj2 (Z.ltb_lt (Z.of_nat h) 32)) by lia.
  rewrite bind_Ret, arith_u_small, !bind_Ret by (unfold in_u; nia).
  rewrite !Z.shiftl_mul_pow2 by lia. fold P.
  rewrite !wrap_small by (unfold in_u; nia).
  replace (Z.of_nat pos * P) with (Z.of_nat (pos * 2 ^ h)) by nia.
  replace ((Z.of_nat pos + 1) * P) with (Z.of_nat (pos * 2 ^ h + 2 ^ h)) by nia.
  unfold n. rewrite Hlen, match_loop_spec, bind_Ret by (unfold n in *; lia).
  simpl. unfold below. do 3 f_equal. lia.
Qed.

(** [traverse_and_build] appends exactly the node's proof. *)
Lemma traverse_and_build_spec h : (h <= 31)%nat -> forall pos,
  (pos < length (level parent h txids))%nat ->
  exists b hs ix, built h pos b hs ix /\ forall acc,
    traverse_and_build parent n h (Z.of_nat pos) txids matches acc =
    Ret (fst acc ++ b, snd acc ++ hs).
Proof.
  induction h as [|h IH]; intros Hh pos Hpos.
  - destruct (node_flag 0 pos Hh Hpos) as (f & Hf & Hk).
    destruct (lookup_lt_is_Some_2 txids pos Hpos) as [x Hx].
    assert (built 0 pos [f] [x] (if f then [pos] else [])) as Hb by (destruct f; by constructor).
    eexists _, _, _. split; [exact Hb|]. intros [bs hs]. cbn [traverse_and_build].
    rewrite Hk. cbn [calc_hash]. by rewrite (index_nat _ _ _ Hx), bind_Ret.
  - destruct (node_flag (S h) pos Hh Hpos) as (f & Hf & Hk).
    destruct (lookup_lt_is_Some_2 _ pos Hpos) as [x Hx]. destruct f.
    + destruct (level_children parent h txids pos x Hx) as (a & Ha & _).
      apply lookup_lt_Some in Ha as Hal.
      destruct (IH ltac:(lia) _ Hal) as (b1 & h1 & i1 & Hb1 & Ht1).
      apply level_lt in Hpos as Hp. assert (pos < length txids)%nat
        by (pose proof (Nat.pow_nonzero 2 (S h)); nia).
      apply level_lt in Hal as Hp2. assert (2 * pos < length txids)%nat
        by (pose proof (Nat.pow_nonzero 2 h); nia).
      destruct (Nat.lt_ge_cases (2 * pos + 1) (length (level parent h txids))) as [Hr|Hr].
      * destruct (IH ltac:(lia) _ Hr) as (b2 & h2 & i2 & Hb2 & Ht2).
        eexists _, _, _. split; [by eapply built_both|]. intros [bs hs].
        cbn [traverse_and_build]. rewrite Hk. cbn [negb].
        rewrite !arith_u_small, !bind_Ret by (unfold in_u, n in *; lia).
        replace (Z.of_nat pos * 2) with (Z.of_nat (2 * pos)) by lia. rewrite Ht1, !bind_Ret.
        rewrite !arith_u_small, !bind_Ret by (unfold in_u, n in *; lia).
        rewrite width_n, bind_Ret by lia.
        rewrite (proj2 (Z.ltb_lt _ _)) by lia.
        replace (Z.of_nat (2 * pos) + 1) with (Z.of_nat (2 * pos + 1)) by lia. rewrite Ht2. simpl.
        by rewrite <- !app_assoc.
      * eexists _, _, _. split; [by eapply built_one|]. intros [bs hs].
        cbn [traverse_and_build]. rewrite Hk. cbn [negb].
        rewrite !arith_u_small, !bind_Ret by (unfold in_u, n in *; lia).
        replace (Z.of_nat pos * 2) with (Z.of_nat (2 * pos)) by lia. rewrite Ht1, !bind_Ret.
        rewrite !arith_u_small, !bind_Ret by (unfold in_u, n in *; lia).
        rewrite width_n, bind_Ret by lia.
        rewrite (proj2 (Z.ltb_ge _ _)) by lia. simpl. by rewrite <- app_assoc.
    + eexists _, _, _. split; [by apply built_pruned|]. intros [bs hs].
      cbn [traverse_and_build]. rewrite Hk. cbn [negb].
      by rewrite (hash_n (S h) pos x Hh Hx), bind_Ret.
Qed.

(** *** Sizes and positions of a node's proof *)

Lemma built_bounds h pos b hs ix : built h pos b hs ix ->
  (1 <= length hs <= length b)%nat /\ (length b < 2 ^ (h + 1))%nat /\
  (length hs + pos * 2 ^ h <= Nat.min (length txids) ((pos + 1) * 2 ^ h))%nat.
Proof.
  induction 1 as [h pos x Hx Hf|pos x Hx Hf|h pos b1 h1 i1 b2 h2 i2 Hf Hr H1 IH1 H2 IH2|h pos b1 h1 i1 Hf Hr H1 IH1].
  - apply lookup_lt_Some, level_lt in Hx. pose proof (Nat.pow_nonzero 2 h ltac:(lia)).
    rewrite Nat.pow_add_r. simpl. nia.
  - apply lookup_lt_Some in Hx. simpl. lia.
  - simpl length. rewrite !length_app. rewrite !Nat.pow_add_r in *. simpl (2 ^ S h)%nat in *. simpl (2 ^ 1)%nat in *. nia.
  - simpl length. rewrite !Nat.pow_add_r in *. simpl (2 ^ S h)%nat in *. simpl (2 ^ 1)%nat in *. nia.
Qed.

(** The positions reported are those of the matching leaves below the node. *)
Definition matching (i : nat) : bool := bool_decide (matches !! i = Some true).

Lemma filter_none l : (forall i, In i l -> matching i = false) -> List.filter matching l = [].
Proof.
  induction l as [|i l IH]; intros H; [done|]. simpl. rewrite H by (by left). apply IH.
  intros. apply H. by right.
Qed.

Lemma below_none h pos : existsb id (below matches h pos) = false ->
  List.filter matching (seq (pos * 2 ^ h) (2 ^ h)) = [].
Proof.
  intros He. apply filter_none. intros i [Hi1 Hi2]%in_seq. unfold matching.
  apply bool_decide_eq_false. intros Hm.
  assert (existsb id (below matches h pos) = true); [|congruence].
  apply existsb_exists. exists true. split; [|done].
  apply list_elem_of_In, list_elem_of_lookup. exists (i - pos * 2 ^ h)%nat. unfold below.
  rewrite lookup_take_lt by lia. rewrite lookup_drop. rewrite <- Hm. f_equal. lia.
Qed.

Lemma seq_split h pos : seq (pos * 2 ^ S h) (2 ^ S h) =
  seq (2 * pos * 2 ^ h) (2 ^ h) ++ seq ((2 * pos + 1) * 2 ^ h) (2 ^ h).
Proof.
  replace (2 ^ S h)%nat with (2 ^ h + 2 ^ h)%nat by (simpl; lia). rewrite seq_app.
  f_equal; f_equal; lia.
Qed.

Lemma built_positions h pos b hs ix : built h pos b hs ix ->
  ix = List.filter matching (seq (pos * 2 ^ h) (2 ^ h)).
Proof.
  induction 1 as [h pos x Hx Hf|pos x Hx Hf|h pos b1 h1 i1 b2 h2 i2 Hf Hr H1 IH1 H2 IH2|h pos b1 h1 i1 Hf Hr H1 IH1].
  - symmetry. apply below_none. apply lookup_lt_Some in Hf as Hl. rewrite flag_level in Hf by done.
    by injection Hf.
  - simpl. unfold matching. rewrite Nat.mul_1_r, bool_decide_eq_true_2 by done. done.
  - rewrite seq_split, List.filter_app. by rewrite <- IH1, <- IH2.
  - rewrite seq_split, List.filter_app, <- IH1.
    rewrite filter_none; [by rewrite app_nil_r|]. intros i [Hi _]%in_seq. unfold matching.
    apply bool_decide_eq_false. intros Hm%lookup_lt_Some.
    pose proof (level_lt parent h txids (2 * pos + 1)). lia.
Qed.

(** *** Extraction reads a node's proof back *)

(** No two siblings of the tree are equal: distinct transactions without a collision. *)
Definition siblings_differ : Prop := forall h pos a b,
  level parent h txids !! (2 * pos)%nat = Some a ->
  level parent h txids !! (2 * pos + 1)%nat = Some b -> a <> b.

Definition txids_at (ix : list nat) : list T := omap (fun i => txids !! i) ix.

Lemma index_bound {A} (l : list A) i x : index l i = Ret x -> 0 <= i < Z.of_nat (length l).
Proof. intros [Hi Hl]%index_Ret. apply lookup_lt_Some in Hl. lia. Qed.

Lemma index_middle {A} (pre : list A) x rest : index (pre ++ x :: rest) (Z.of_nat (length pre)) = Ret x.
Proof. apply index_nat. by rewrite lookup_app_r, Nat.sub_diag by lia. Qed.

Lemma extract_stop bs hs h pos st f x :
  index bs (bits_used st) = Ret f -> index hs (hash_used st) = Ret x ->
  bits_used st + 1 < 2 ^ 32 -> hash_used st + 1 < 2 ^ 32 -> (h = 0%nat \/ f = false) ->
  traverse_and_extract parent n bs hs h pos st =
  Val (x, mkEx (bits_used st + 1) (hash_used st + 1)
            (if bool_decide (h = 0%nat) && f then matched st ++ [x] else matched st)
            (if bool_decide (h = 0%nat) && f then indexes st ++ [pos] else indexes st)).
Proof.
  intros Hf Hx Hb Hh Hc. pose proof (index_bound _ _ _ Hf). pose proof (index_bound _ _ _ Hx).
  assert (bool_decide (h = 0%nat) || negb f = true) as Hs.
  { destruct Hc as [->| ->]; [done|]. apply orb_true_r. }
  destruct h; cbn [traverse_and_extract].
  all: rewrite (proj2 (Z.leb_gt _ _)), Hf by lia; cbn [of_run]; rewrite bind_Val.
  all: rewrite (arith_u_small 32 (bits_used st + 1)) by (unfold in_u; lia); cbn [of_run]; rewrite bind_Val.
  all: cbn [hash_used bits_used matched indexes]; rewrite Hs.
  all: rewrite (proj2 (Z.leb_gt _ _)), Hx by lia; cbn [of_run]; rewrite bind_Val.
  all: rewrite (arith_u_small 32 (hash_used st + 1)) by (unfold in_u; lia); cbn [of_run]; rewrite bind_Val.
  all: cbv zeta; cbn [hash_used bits_used matched indexes]; by destruct (bool_decide _ && f).
Qed.

Lemma extract_descend bs hs h pos st :
  index bs (bits_used st) = Ret true -> bits_used st + 1 < 2 ^ 32 ->
  (2 * pos + 1 < length txids + 1)%nat -> (h <= 31)%nat ->
  traverse_and_extract parent n bs hs (S h) (Z.of_nat pos) st =
    ('(hleft, st) ← traverse_and_extract parent n bs hs h (Z.of_nat (2 * pos))
       (mkEx (bits_used st + 1) (hash_used st) (matched st) (indexes st));
     if Z.of_nat (2 * pos + 1) <? Z.of_nat (length (level parent h txids)) then
       '(hright, st) ← traverse_and_extract parent n bs hs h (Z.of_nat (2 * pos + 1)) st;
       if bool_decide (hright = hleft) then Throw IdenticalHashesFound
       else Val (parent hleft hright, st)
     else Val (parent hleft hleft, st)).
Proof.
  intros Hf Hb Hp Hh. pose proof (index_bound _ _ _ Hf). cbn [traverse_and_extract].
  rewrite (proj2 (Z.leb_gt _ _)), Hf by lia; cbn [of_run]; rewrite bind_Val.
  rewrite (arith_u_small 32 (bits_used st + 1)) by (unfold in_u; lia); cbn [of_run]; rewrite bind_Val.
  change (bool_decide (S h = 0%nat) || negb true) with false. cbv iota zeta.
  cbn [hash_used bits_used matched indexes].
  rewrite !(arith_u_small 32 (Z.of_nat pos * 2)) by (unfold in_u, n in *; lia); cbn [of_run]; rewrite !bind_Val.
  replace (Z.of_nat pos * 2) with (Z.of_nat (2 * pos)) by lia.
  destruct (traverse_and_extract parent n bs hs h _ _) as [[hl st']|e|]; [|done|done].
  rewrite !bind_Val, arith_u_small by (unfold in_u, n in *; lia). cbn [of_run]. rewrite bind_Val.
  rewrite width_n by done. cbn [of_run]. rewrite bind_Val.
  by replace (Z.of_nat (2 * pos) + 1) with (Z.of_nat (2 * pos + 1)) by lia.
Qed.

Lemma extract_built h pos b hs ix : built h pos b hs ix -> siblings_differ -> (h <= 31)%nat ->
  forall x pre post hpre hpost ms js,
  level parent h txids !! pos = Some x ->
  Z.of_nat (length pre + length b) < 2 ^ 32 -> Z.of_nat (length hpre + length hs) < 2 ^ 32 ->
  traverse_and_extract parent n (pre ++ b ++ post) (hpre ++ hs ++ hpost) h (Z.of_nat pos)
    (mkEx (Z.of_nat (length pre)) (Z.of_nat (length hpre)) ms js) =
  Val (x, mkEx (Z.of_nat (length pre + length b)) (Z.of_nat (length hpre + length hs))
            (ms ++ txids_at ix) (js ++ map Z.of_nat ix)).
Proof.
  intros Hb Hsib. induction Hb as [h pos y Hy Hf|pos y Hy Hf
    |h pos b1 h1 i1 b2 h2 i2 Hf Hr H1 IH1 H2 IH2|h pos b1 h1 i1 Hf Hr H1 IH1];
    intros Hh x pre post hpre hpost ms js Hx Hlb Hlh.
  - assert (y = x) as -> by congruence. simpl app. simpl length in *.
    rewrite (extract_stop _ _ _ _ _ false x) by (apply index_middle || cbn; lia || auto).
    rewrite andb_false_r. cbn. rewrite !app_nil_r. do 3 f_equal; lia.
  - assert (y = x) as -> by (simpl in Hx; congruence). simpl app. simpl length in *.
    rewrite (extract_stop _ _ _ _ _ true x) by (apply index_middle || cbn; lia || auto).
    cbn. rewrite Hy. do 3 f_equal; lia.
  - apply lookup_lt_Some in Hx as Hpos. destruct (level_children parent h txids pos x Hx) as (a & Ha & Hc).
    destruct (lookup_lt_is_Some_2 _ _ Hr) as [c Hcr]. rewrite Hcr in Hc. subst x.
    pose proof (proj1 (level_lt parent h txids (2 * pos + 1)) Hr) as Hp.
    assert (2 * pos + 1 < length txids + 1)%nat by (pose proof (Nat.pow_nonzero 2 h ltac:(lia)); nia).
    simpl length in *. rewrite !length_app in *.
    rewrite extract_descend by (apply index_middle || (cbn; lia) || lia). cbn [bits_used hash_used matched indexes].
    assert (pre ++ (true :: b1 ++ b2) ++ post = (pre ++ [true]) ++ b1 ++ (b2 ++ post)) as Eb.
    { simpl. by rewrite <- !app_assoc. }
    rewrite Eb. rewrite <- (app_assoc h1 h2 hpost).
    replace (Z.of_nat (length pre) + 1) with (Z.of_nat (length (pre ++ [true]))) by (rewrite length_app; simpl; lia).
    rewrite (IH1 ltac:(lia) a) by (done || rewrite ?length_app; simpl; lia). rewrite bind_Val.
    rewrite (proj2 (Z.ltb_lt _ _)) by lia.
    rewrite <- !length_app, (app_assoc (pre ++ [true])), (app_assoc hpre).
    rewrite (IH2 ltac:(lia) c) by (done || rewrite ?length_app; simpl; lia). rewrite bind_Val.
    rewrite bool_decide_eq_false_2 by (intros ->; by apply (Hsib h pos a a)).
    rewrite <- !app_assoc. unfold txids_at. rewrite omap_app, map_app, !length_app. simpl.
    do 3 f_equal; lia.
  - apply lookup_lt_Some in Hx as Hpos. destruct (level_children parent h txids pos x Hx) as (a & Ha & Hc).
    rewrite (lookup_ge_None_2 _ _ Hr) in Hc. subst x. apply lookup_lt_Some in Ha as Hal.
    pose proof (proj1 (level_lt parent h txids (2 * pos)) Hal) as Hp.
    assert (2 * pos + 1 < length txids + 1)%nat by (pose proof (Nat.pow_nonzero 2 h ltac:(lia)); nia).
    simpl length in *.
    rewrite extract_descend by (apply index_middle || (cbn; lia) || lia). cbn [bits_used hash_used matched indexes].
    assert (pre ++ (true :: b1) ++ post = (pre ++ [true]) ++ b1 ++ post) as -> by (by rewrite <- !app_assoc).
    replace (Z.of_nat (length pre) + 1) with (Z.of_nat (length (pre ++ [true]))) by (rewrite length_app; simpl; lia).
    rewrite (IH1 ltac:(lia) a) by (done || rewrite ?length_app; simpl; lia). rewrite bind_Val.
    rewrite (proj2 (Z.ltb_ge _ _)) by lia. rewrite length_app. simpl. do 3 f_equal; lia.
Qed.

(** *** Soundness: what a proof can make the verifier report *)

Definition reported (ms : list T) (js : list Z) : Prop :=
  Forall2 (fun t j => 0 <= j /\ txids !! Z.to_nat j = Some t) ms js.

(** [x] computed from the hashes [hs]; the pairs hashed on the way. *)
Inductive derives (hs : list T) : T -> list (T * T) -> Prop :=
| derives_leaf x : x ∈ hs -> derives hs x []
| derives_node a b la lb : derives hs a la -> derives hs b lb ->
    derives hs (parent a b) ((a, b) :: la ++ lb).

Lemma extract_derives bs hs h : forall pos x st st',
  traverse_and_extract parent n bs hs h pos st = Val (x, st') -> exists l, derives hs x l.
Proof.
  induction h as [|h IH]; intros pos x st st'; cbn [traverse_and_extract];
    (case_match; [done|]); intros (f & _ & Hk)%comp_bind_Val; apply comp_bind_Val in Hk as (bu & _ & Hk);
    (destruct (bool_decide _ || negb f);
      [case_match; [done|]; apply comp_bind_Val in Hk as (y & Hy & Hk);
       apply comp_bind_Val in Hk as (hu & _ & Hk);
       assert (x = y) as -> by (case_match; congruence);
       exists []; apply derives_leaf; destruct (index hs _) eqn:Ei; [|done];
       injection Hy as ->; apply index_Ret in Ei as [_ Ei]; by eapply list_elem_of_lookup_2|]); [done|].
  apply comp_bind_Val in Hk as (p2 & _ & Hk). apply comp_bind_Val in Hk as ([a sa] & [la Ha]%IH & Hk).
  apply comp_bind_Val in Hk as (q & _ & Hk). apply comp_bind_Val in Hk as (q' & _ & Hk).
  apply comp_bind_Val in Hk as (w & _ & Hk). case_match.
  - apply comp_bind_Val in Hk as ([b sb] & [lb Hb]%IH & Hk). case_match; [done|].
    injection Hk as <- _. eexists. by apply derives_node.
  - injection Hk as <- _. eexists. by apply derives_node.
Qed.

(** A derivation of [x] that hashes a pair to the value of a different pair of the tree. *)
Definition forged (hs : list T) (x : T) (height : nat) : Prop :=
  exists l, derives hs x l /\ collision_between parent l (tree_pairs parent height txids).

Lemma forged_node hs a b c d la lb pos h height : (h < height)%nat ->
  level parent h txids !! (2 * pos)%nat = Some c ->
  from_option id c (level parent h txids !! (2 * pos + 1)%nat) = d ->
  derives hs a la -> derives hs b lb -> parent a b = parent c d ->
  (a = c /\ b = d) \/ forged hs (parent a b) height.
Proof.
  intros Hh Hc <- Ha Hb E. pose proof (tree_pairs_in parent height txids h pos c Hh Hc) as Hin.
  destruct (parent_eq parent ((a, b) :: la ++ lb) _ _ _ _ _ E ltac:(left) Hin) as [|Hcol]; [by left|].
  right. eexists. split; [by apply derives_node|done].
Qed.

Lemma forged_left hs a b lb height : forged hs a height -> derives hs b lb -> forged hs (parent a b) height.
Proof.
  intros (la & Ha & Hc) Hb. eexists. split; [by apply derives_node|].
  revert Hc. apply collision_between_weaken; sublist.
Qed.

Lemma forged_right hs a b la height : derives hs a la -> forged hs b height -> forged hs (parent a b) height.
Proof.
  intros Ha (lb & Hb & Hc). eexists. split; [by apply derives_node|].
  revert Hc. apply collision_between_weaken; sublist.
Qed.

Lemma extract_reads_hash bs hs h pos st x st' f :
  Z.of_nat (length bs) < 2 ^ 32 - 1 -> index bs (bits_used st) = Ret f -> h = O \/ f = false ->
  traverse_and_extract parent n bs hs h pos st = Val (x, st') ->
  exists y, index hs (hash_used st) = Ret y.
Proof.
  intros Hlb Hf Hstop He. pose proof (index_bound _ _ _ Hf) as Hfb.
  assert (bool_decide (h = O) || negb f = true) as Hb.
  { destruct Hstop as [-> | ->]; [done|]. by rewrite orb_true_r. }
  destruct h; cbn [traverse_and_extract] in He;
    rewrite (proj2 (Z.leb_gt _ _)), Hf in He by lia; cbn [of_run] in He;
    rewrite bind_Val, (arith_u_small 32 (bits_used st + 1)) in He by (unfold in_u; lia);
    cbn [of_run] in He; rewrite bind_Val, Hb in He; cbn [hash_used] in He;
    (destruct (_ <=? _) in He; [done|]); destruct (index hs (hash_used st)) as [y|]; try done; by exists y.
Qed.

Lemma extract_sound bs hs height h : (h <= height)%nat ->
  Z.of_nat (length bs) < 2 ^ 32 - 1 -> Z.of_nat (length hs) < 2 ^ 32 - 1 ->
  (h <= 31)%nat -> forall pos x st st',
  level parent h txids !! pos = Some x ->
  traverse_and_extract parent n bs hs h (Z.of_nat pos) st = Val (x, st') ->
  (exists ms js, matched st' = matched st ++ ms /\ indexes st' = indexes st ++ js /\ reported ms js) \/
  forged hs x height.
Proof.
  intros Hle Hlb Hlh. induction h as [|h IH]; intros Hh pos x st st' Hx He.
  all: assert (exists f, index bs (bits_used st) = Ret f) as [f Hf]
    by (cbn [traverse_and_extract] in He; destruct (_ <=? _) in He; [done|];
        destruct (index bs _); [by eexists|done]).
  all: pose proof (index_bound _ _ _ Hf) as Hfb.
  - destruct (extract_reads_hash _ _ _ _ _ _ _ _ Hlb Hf ltac:(by left) He) as [y Hy].
    pose proof (index_bound _ _ _ Hy) as Hyb.
    rewrite (extract_stop _ _ _ _ _ f y) in He by (done || lia || by left).
    injection He as -> <-. left. destruct f; cbn.
    + exists [x], [Z.of_nat pos]. do 2 (split; [done|]). constructor; [|constructor]. rewrite Nat2Z.id. split; [lia|done].
    + exists [], []. rewrite !app_nil_r. do 2 (split; [done|]). constructor.
  - destruct f.
    + destruct (level_children parent h txids pos x Hx) as (a & Ha & Hc).
      apply lookup_lt_Some in Ha as Hal.
      pose proof (proj1 (level_lt parent h txids (2 * pos)) Hal) as Hp.
      assert (2 * pos + 1 < length txids + 1)%nat by (pose proof (Nat.pow_nonzero 2 h ltac:(lia)); nia).
      rewrite extract_descend in He by (done || lia).
      apply comp_bind_Val in He as ([l st1] & Hl & He).
      destruct (Z.ltb_spec (Z.of_nat (2 * pos + 1)) (Z.of_nat (length (level parent h txids)))).
      * destruct (lookup_lt_is_Some_2 (level parent h txids) (2 * pos + 1)%nat ltac:(lia)) as [b Hb].
        rewrite Hb in Hc. apply comp_bind_Val in He as ([r st2] & Hr & He).
        destruct (bool_decide (r = l)); [done|]. injection He as He <-. rewrite Hc in He.
        destruct (extract_derives _ _ _ _ _ _ _ Hl) as [ll Dl].
        destruct (extract_derives _ _ _ _ _ _ _ Hr) as [lr Dr].
        destruct (forged_node hs l r a b ll lr pos h height ltac:(lia) Ha ltac:(by rewrite Hb) Dl Dr He)
          as [[-> ->]|Hc']; [|right; by rewrite Hc, <- He].
        destruct (IH ltac:(lia) ltac:(lia) _ _ _ _ Ha Hl) as [(ms1 & js1 & E1 & F1 & R1)|];
          [|right; rewrite Hc; by eapply forged_left].
        destruct (IH ltac:(lia) ltac:(lia) _ _ _ _ Hb Hr) as [(ms2 & js2 & E2 & F2 & R2)|];
          [|right; rewrite Hc; by eapply forged_right].
        left. exists (ms1 ++ ms2), (js1 ++ js2). rewrite E2, E1, F2, F1. cbn. rewrite <- !app_assoc.
        do 2 (split; [done|]). by apply Forall2_app.
      * rewrite lookup_ge_None_2 in Hc by lia. injection He as He <-. rewrite Hc in He.
        destruct (extract_derives _ _ _ _ _ _ _ Hl) as [ll Dl].
        destruct (forged_node hs l l a a ll ll pos h height ltac:(lia) Ha
          ltac:(by rewrite lookup_ge_None_2 by lia) Dl Dl He) as [[-> _]|Hc']; [|right; by rewrite Hc, <- He].
        destruct (IH ltac:(lia) ltac:(lia) _ _ _ _ Ha Hl) as [|]; [by left|].
        right. rewrite Hc. by eapply forged_left.
    + destruct (extract_reads_hash _ _ _ _ _ _ _ _ Hlb Hf ltac:(by right) He) as [y Hy].
      pose proof (index_bound _ _ _ Hy) as Hyb.
      rewrite (extract_stop _ _ _ _ _ false y) in He by (done || lia || by right).
      injection He as -> <-. left. cbn. exists [], []. rewrite !app_nil_r. do 2 (split; [done|]). constructor.
Qed.
End build.

(** ** The whole proof *)

Section proof.
Context {T : Type} `{EqDecision T} (parent : T -> T -> T) {bm : BuildMode}.
Context (txids : list T).
Let n := Z.of_nat (length txids).
Context (Hn0 : 0 < n) (Hn : n <= max_transactions).

Lemma n_small : n < 2 ^ 31.
Proof. unfold max_transactions in Hn. change (4000000 / (4 * 60)) with 16666 in Hn. lia. Qed.

Lemma txids_nonempty : txids <> [].
Proof. intros ->. unfold n in Hn0. simpl in Hn0. lia. Qed.

Lemma height_small root H : is_root parent H txids root -> (H <= 15)%nat.
Proof.
  intros Hr. destruct H as [|H]; [lia|].
  pose proof (is_root_above parent _ txids root Hr H ltac:(lia)) as Ha.
  assert (1 < length (level parent H txids))%nat as H1 by lia.
  apply level_lt in H1. destruct (Nat.le_gt_cases H 14); [lia|].
  assert (2 ^ 15 <= 2 ^ H)%nat by (apply Nat.pow_le_mono_r; lia).
  unfold max_transactions in Hn. change (4000000 / (4 * 60)) with 16666 in Hn.
  change (2 ^ 15)%nat with (Z.to_nat 32768) in *. unfold n in *. lia.
Qed.

Lemma height_n root H : is_root parent H txids root -> calc_tree_height n = Ret H.
Proof. apply calc_tree_height_spec; [done|apply n_small]. Qed.

Lemma from_txids_spec matches root H : length txids = length matches -> is_root parent H txids root ->
  exists b hs ix, built parent txids matches H 0 b hs ix /\
    from_txids parent txids matches = Ret (mkPMT n b hs).
Proof.
  intros Hlen Hr. pose proof n_small as Hs. pose proof (height_small root H Hr) as HH.
  destruct (traverse_and_build_spec parent txids matches Hlen Hn0 Hs H ltac:(lia) 0) as (b & hs & ix & Hb & Ht).
  { rewrite (is_root_level parent H txids root Hr). simpl. lia. }
  exists b, hs, ix. split; [done|]. unfold from_txids.
  rewrite (proj2 (Nat.eqb_neq (length txids) 0)) by (unfold n in Hn0; lia).
  rewrite (proj2 (Nat.eqb_eq _ _) Hlen). cbn [negb assert_]. rewrite !bind_Ret.
  fold n. rewrite wrap_small by (unfold in_u; lia).
  rewrite (height_n root H Hr), bind_Ret.
  change 0 with (Z.of_nat 0) at 1. by rewrite Ht, bind_Ret.
Qed.

Lemma extract_matches_built matches root H b hs ix pad :
  length txids = length matches -> is_root parent H txids root ->
  built parent txids matches H 0 b hs ix -> siblings_differ parent txids ->
  ((length b + length pad + 7) / 8 = (length b + 7) / 8)%nat ->
  extract_matches parent (mkPMT n (b ++ pad) hs) = Val (root, txids_at txids ix, map Z.of_nat ix).
Proof.
  intros Hlen Hr Hb Hsib Hpad. pose proof n_small as Hs. pose proof (height_small root H Hr) as HH.
  destruct (built_bounds parent txids matches Hlen H 0 b hs ix Hb) as ((Hh1 & Hh2) & Hb2 & Hh3).
  assert (2 ^ (H + 1) <= 2 ^ 16)%nat as HP by (apply Nat.pow_le_mono_r; lia).
  change (2 ^ 16)%nat with (Z.to_nat 65536) in HP.
  assert (length pad < 8)%nat as Hp8.
  { pose proof (Nat.div_mod (length b + length pad + 7) 8 ltac:(lia)).
    pose proof (Nat.div_mod (length b + 7) 8 ltac:(lia)).
    pose proof (Nat.mod_upper_bound (length b + length pad + 7) 8 ltac:(lia)). lia. }
  unfold extract_matches. cbn [num_transactions bits hashes].
  rewrite (proj2 (Z.eqb_neq n 0)), (proj2 (Z.ltb_ge _ n)) by lia.
  rewrite (wrap_small 32 (Z.of_nat (length hs))) by (unfold in_u, n in *; lia).
  rewrite (proj2 (Z.ltb_ge n _)) by (unfold n in *; lia).
  rewrite (proj2 (Nat.ltb_ge _ _)) by (rewrite length_app; lia).
  rewrite (height_n root H Hr). cbn [of_run]. rewrite bind_Val.
  pose proof (extract_built parent txids matches Hlen Hn0 Hs H 0 b hs ix Hb Hsib ltac:(lia) root [] pad [] [] [] []) as He.
  rewrite app_nil_r in He. cbn [app length Nat.add] in He. change (Z.of_nat 0) with 0 in He.
  fold n in He. rewrite He; [|by rewrite (is_root_level parent H txids root Hr)|lia|unfold n in *; lia].
  rewrite bind_Val. cbn [bits_used hash_used matched indexes].
  rewrite (arith_u_small 32 (Z.of_nat (length b) + 7)) by (unfold in_u; lia). cbn [of_run]. rewrite bind_Val.
  rewrite length_app, wrap_small, arith_u_small by (unfold in_u; lia). cbn [of_run]. rewrite bind_Val.
  assert ((Z.of_nat (length b) + 7) / 8 = (Z.of_nat (length b + length pad) + 7) / 8) as ->.
  { change 8 with (Z.of_nat 8). change 7 with (Z.of_nat 7).
    rewrite <- !Nat2Z.inj_add, <- !Nat2Z.inj_div. by rewrite Hpad. }
  by rewrite Z.eqb_refl, Z.eqb_refl.
Qed.

(** The positions of the matching transactions, in block order. *)
Definition matching_positions (matches : list bool) : list nat :=
  List.filter (matching matches) (seq 0 (length matches)).

Lemma built_root_positions matches root H b hs ix : length txids = length matches ->
  is_root parent H txids root -> built parent txids matches H 0 b hs ix ->
  ix = matching_positions matches.
Proof.
  intros Hlen Hr Hb. rewrite (built_positions parent txids matches Hlen H 0 b hs ix Hb).
  unfold matching_positions. simpl Nat.mul.
  pose proof (is_root_length parent H txids root Hr) as Hle.
  replace (2 ^ H)%nat with (length matches + (2 ^ H - length matches))%nat by lia.
  rewrite seq_app, List.filter_app, (filter_none _ (seq (0 + _) _)); [by rewrite app_nil_r|].
  intros i [Hi _]%in_seq. unfold matching. apply bool_decide_eq_false.
  intros Hm%lookup_lt_Some. lia.
Qed.

Lemma extract_matches_sound pmt root H (ms : list T) js :
  is_root parent H txids root -> num_transactions pmt = n ->
  Z.of_nat (length (bits pmt)) < 2 ^ 32 - 1 -> Z.of_nat (length (hashes pmt)) < 2 ^ 32 - 1 ->
  extract_matches parent pmt = Val (root, ms, js) ->
  reported txids ms js \/ forged parent txids (hashes pmt) root H.
Proof.
  intros Hr Hnum Hbl Hhl. pose proof n_small as Hs. pose proof (height_small root H Hr) as HH.
  unfold extract_matches. rewrite Hnum. do 3 (case_match; [done|]). case_match; [done|].
  rewrite (height_n root H Hr). cbn [of_run]. rewrite bind_Val.
  intros ([x st] & He & Hk)%comp_bind_Val.
  apply comp_bind_Val in Hk as (used & _ & Hk). apply comp_bind_Val in Hk as (total & _ & Hk).
  do 2 (case_match; [done|]). injection Hk as -> <- <-.
  destruct (extract_sound parent txids (replicate (length txids) false)
    ltac:(by rewrite length_replicate) Hn0 Hs (bits pmt) (hashes pmt) H H ltac:(lia) Hbl Hhl ltac:(lia)
    0%nat root (mkEx 0 0 [] []) st) as [(ms & js & -> & -> & Hrep)|]; [|done| |by right]; [|by left].
  by rewrite (is_root_level parent H txids root Hr).
Qed.
End proof.

(** ** Wire format *)

(** [self.bits.chunks(8)] *)
Fixpoint bit_chunks (fuel : nat) (l : list bool) : list (list bool) :=
  match fuel, l with
  | S fuel, _ :: _ => take 8 l :: bit_chunks fuel (drop 8 l)
  | _, _ => []
  end.

(** [byte |= bit << i] over the bits of a chunk, [i] counting from zero. *)
Fixpoint pack_byte (i : Z) (chunk : list bool) (byte : Z) : Z :=
  match chunk with
  | [] => byte
  | bit :: chunk => pack_byte (i + 1) chunk (Z.lor byte (Z.shiftl (Z.b2z bit) i))
  end.

Definition unpack_byte (byte : Z) : list bool :=
  map (fun i => negb (Z.land byte (Z.shiftl 1 i) =? 0)) [0; 1; 2; 3; 4; 5; 6; 7].

Definition TxMerkleNode : Consensus (list byte) := array 32.

Definition pmt_encode (self : PartialMerkleTree (list byte)) : list byte * Z :=
  let ret := consensus_encode u32 (num_transactions self) in
  let ret := ret +++ consensus_encode (vec TxMerkleNode) (hashes self) in
  let nb_bytes_for_bits := ((length (bits self) + 7) / 8)%nat in
  let ret := ret +++ consensus_encode VarInt (Z.of_nat nb_bytes_for_bits) in
  fold_left (fun ret byte => ret +++ consensus_encode u8 byte)
    (map (fun chunk => pack_byte 0 chunk 0) (bit_chunks (length (bits self)) (bits self))) ret.

Definition push_bits (bs : list bool) : Decoder (list bool) :=
  byte ← consensus_decode u8; mret (bs ++ unpack_byte byte).

Definition pmt_decode : Decoder (PartialMerkleTree (list byte)) :=
  num ← consensus_decode u32;
  hashes ← consensus_decode (vec TxMerkleNode);
  nb_bytes_for_bits ← consensus_decode VarInt;
  if MAX_VEC_SIZE <? nb_bytes_for_bits
  then dfail (OversizedVectorAllocation nb_bytes_for_bits MAX_VEC_SIZE)
  else
    bs ← for_ nb_bytes_for_bits push_bits [];
    mret (mkPMT num bs hashes).

Definition PMT : Consensus (PartialMerkleTree (list byte)) := limited pmt_encode pmt_decode.

(** *** Bytes and flag bits *)

Lemma unpack_pack chunk : (length chunk <= 8)%nat ->
  unpack_byte (pack_byte 0 chunk 0) = chunk ++ replicate (8 - length chunk) false.
Proof.
  intros Hl. do 8 (destruct chunk as [|[] chunk]; [reflexivity| |]); destruct chunk; try (simpl in Hl; lia); reflexivity.
Qed.

Lemma pack_bound chunk : (length chunk <= 8)%nat -> in_u 8 (pack_byte 0 chunk 0).
Proof.
  intros Hl. do 8 (destruct chunk as [|[] chunk]; [done| |]); destruct chunk; try (simpl in Hl; lia); done.
Qed.

(** The bits a decoder recovers: padded with [false] to whole bytes. *)
Definition padded (bs : list bool) : list bool :=
  bs ++ replicate (8 * ((length bs + 7) / 8) - length bs) false.

Lemma bit_chunks_bytes fuel : forall bs, (length bs <= fuel)%nat ->
  length (bit_chunks fuel bs) = ((length bs + 7) / 8)%nat /\
  Forall (fun ch => (length ch <= 8)%nat) (bit_chunks fuel bs) /\
  concat (map (fun ch => unpack_byte (pack_byte 0 ch 0)) (bit_chunks fuel bs)) = padded bs.
Proof.
  induction fuel as [|fuel IH]; intros bs Hl.
  - destruct bs; [|simpl in Hl; lia]. done.
  - destruct bs as [|b bs']; [done|]. set (bs := b :: bs') in *.
    assert (0 < length bs)%nat by (simpl; lia).
    change (bit_chunks (S fuel) bs) with (take 8 bs :: bit_chunks fuel (drop 8 bs)).
    destruct (IH (drop 8 bs)) as (H1 & H2 & H3); [rewrite length_drop; lia|].
    assert ((length bs + 7) / 8 = S ((length bs - 8 + 7) / 8))%nat as Hd.
    { destruct (Nat.le_gt_cases 8 (length bs)).
      - replace (length bs + 7)%nat with (length bs - 8 + 7 + 1 * 8)%nat by lia.
        rewrite Nat.div_add by lia. lia.
      - replace (length bs - 8 + 7)%nat with 7%nat by lia. change (7 / 8)%nat with 0%nat.
        symmetry. apply Nat.div_unique with (length bs - 1)%nat; lia. }
    split; [|split].
    + cbn [length]. rewrite H1, length_drop. lia.
    + constructor; [rewrite length_take; lia|done].
    + cbn [map concat]. rewrite H3, unpack_pack by (rewrite length_take; lia).
      unfold padded. rewrite Hd, length_drop, length_take. clear H1 H2 H3 IH.
      destruct (Nat.le_gt_cases 8 (length bs)).
      * rewrite Nat.min_l by lia. rewrite app_nil_r, app_assoc, take_drop. do 2 f_equal. lia.
      * rewrite Nat.min_r, take_ge, drop_ge by lia.
        replace (length bs - 8 + 7)%nat with 7%nat by lia. change (7 / 8)%nat with 0%nat.
        rewrite app_nil_l, <- app_assoc, <- replicate_add. do 2 f_equal. lia.
Qed.

(** *** Round trip *)

Definition pmt_wf (p : PartialMerkleTree (list byte)) : Prop :=
  in_u 32 (num_transactions p) /\
  Forall (fun h => length h = 32%nat) (hashes p) /\
  9 + 32 * Z.of_nat (length (hashes p)) <= MAX_VEC_SIZE /\
  Z.of_nat (length (bits p)) <= 8 * MAX_VEC_SIZE.

Lemma for_bits_app vs : Forall (in_u 8) vs -> forall bs rest,
  on_slice (for_nat (length vs) push_bits bs) ((vs ≫= bytes_of u8) ++ rest) =
  Ok (bs ++ concat (map unpack_byte vs), rest).
Proof.
  induction 1 as [|v vs Hv Hvs IH]; intros bs rest; [simpl; by rewrite app_nil_r|].
  cbn [length for_nat map concat]. unfold push_bits at 1.
  rewrite on_slice_bind, bind_cons, <- app_assoc.
  change (push_bits bs) with (byte ← consensus_decode u8; mret (bs ++ unpack_byte byte)).
  rewrite on_slice_bind, (finite_roundtrip (c:=u8)) by done. rewrite on_slice_ret.
  rewrite IH. by rewrite <- app_assoc.
Qed.

Lemma hashes_length hs : Forall (fun h : list byte => length h = 32%nat) hs ->
  length (hs ≫= bytes_of TxMerkleNode) = (32 * length hs)%nat.
Proof.
  induction 1 as [|x hs Hx Hhs IH]; [done|]. rewrite bind_cons, length_app, IH.
  change (bytes_of TxMerkleNode x) with x. simpl length. lia.
Qed.

Lemma varint_length v : in_u 64 v -> Z.of_nat (length (bytes_of VarInt v)) <= 9.
Proof.
  intros Hv. change (bytes_of VarInt v) with (fst (varint_encode v)).
  destruct (varint_len v Hv) as [_ ->]. unfold varint_size. zcases; lia.
Qed.

Lemma pmt_bytes p :
  fst (pmt_encode p) = bytes_of u32 (num_transactions p) ++ bytes_of (vec TxMerkleNode) (hashes p) ++
    bytes_of VarInt (Z.of_nat ((length (bits p) + 7) / 8)) ++
    (map (fun chunk => pack_byte 0 chunk 0) (bit_chunks (length (bits p)) (bits p)) ≫= bytes_of u8).
Proof. unfold pmt_encode. rewrite fold_encode. cbn [fst wcat]. by rewrite <- !app_assoc. Qed.

Lemma pmt_roundtrip p rest : pmt_wf p ->
  on_slice pmt_decode (fst (pmt_encode p) ++ rest) =
  Ok (mkPMT (num_transactions p) (padded (bits p)) (hashes p), rest).
Proof.
  intros (Hnum & Hh & Hhl & Hbl). rewrite pmt_bytes. unfold pmt_decode. rewrite <- !app_assoc.
  rewrite on_slice_bind, (finite_roundtrip (c:=u32)) by done.
  unfold MAX_VEC_SIZE in *.
  assert (vec_wf (fun h : list byte => length h = 32%nat) (hashes p)) as Hvw by (split; [done|lia]).
  rewrite on_slice_bind, (decode_roundtrip (c:=vec TxMerkleNode) (wf:=vec_wf (fun h => length h = 32%nat))); [|done|].
  2: { change (bytes_of (vec TxMerkleNode) (hashes p)) with (fst (vec_encode TxMerkleNode (hashes p))).
       rewrite vec_encode_bytes, length_app, hashes_length by done.
       pose proof (varint_length (Z.of_nat (length (hashes p))) ltac:(unfold in_u; lia)).
       unfold MAX_VEC_SIZE. lia. }
  destruct (bit_chunks_bytes (length (bits p)) (bits p) (le_n _)) as (H1 & H2 & H3).
  pose proof (Nat.Div0.div_lt_upper_bound (length (bits p) + 7) 8 (Z.to_nat 4000001) ltac:(lia)) as Hle.
  rewrite on_slice_bind, varint_dec by (unfold in_u; lia).
  unfold MAX_VEC_SIZE. rewrite (proj2 (Z.ltb_ge _ _)) by lia.
  rewrite on_slice_bind, for_spec, Nat2Z.id, <- H1.
  rewrite <- (length_map (fun chunk => pack_byte 0 chunk 0) (bit_chunks _ _)) at 1.
  rewrite for_bits_app.
  - rewrite app_nil_l, map_map, H3. done.
  - apply Forall_map. eapply Forall_impl; [|exact H2]. intros ch Hch. by apply pack_bound.
Qed.

Lemma padded_bytes bs : ((length (padded bs) + 7) / 8 = (length bs + 7) / 8)%nat.
Proof.
  unfold padded. rewrite length_app, length_replicate.
  pose proof (Nat.div_mod (length bs + 7) 8 ltac:(lia)).
  pose proof (Nat.mod_upper_bound (length bs + 7) 8 ltac:(lia)).
  set (k := ((length bs + 7) / 8)%nat) in *.
  symmetry. apply Nat.div_unique with 7%nat; lia.
Qed.

(** A built proof is within the limits of the wire format. *)
Lemma parent_hash_length l r : length (parent_hash l r) = 32%nat.
Proof. apply state_words_length. Qed.

Lemma level_lengths h txids : Forall (fun t : list byte => length t = 32%nat) txids ->
  Forall (fun t => length t = 32%nat) (level parent_hash h txids).
Proof.
  intros Ht. induction h as [|h IH]; [done|]. cbn [level]. revert IH.
  generalize (level parent_hash h txids) as l. intros l.
  induction l as [|a|a b l IH] using pair_ind; intros Hl; [constructor| |].
  - constructor; [apply parent_hash_length|constructor].
  - constructor; [apply parent_hash_length|]. apply IH. by do 2 apply Forall_inv_tail in Hl.
Qed.

Lemma built_hashes_length txids matches h pos b hs ix :
  built parent_hash txids matches h pos b hs ix ->
  Forall (fun t : list byte => length t = 32%nat) txids -> Forall (fun t => length t = 32%nat) hs.
Proof.
  intros Hb Ht. induction Hb as [h pos x Hx Hf|pos x Hx Hf|h pos b1 h1 i1 b2 h2 i2 Hf Hr H1 IH1 H2 IH2|]; try done.
  - constructor; [|done]. by apply (Forall_lookup_1 _ _ _ _ (level_lengths h txids Ht) Hx).
  - constructor; [|done]. by apply (Forall_lookup_1 _ _ _ _ Ht Hx).
  - by apply Forall_app.
Qed.

Lemma built_wf txids matches (Hlen : length txids = length matches) (Hn : Z.of_nat (length txids) <= max_transactions)
    H b hs ix : (H <= 15)%nat -> built parent_hash txids matches H 0 b hs ix ->
  Forall (fun t : list byte => length t = 32%nat) txids ->
  pmt_wf (mkPMT (Z.of_nat (length txids)) b hs).
Proof.
  intros HH Hb H32. destruct (built_bounds parent_hash txids matches Hlen H 0 b hs ix Hb) as ((_ & _) & Hb2 & Hh3).
  assert (2 ^ (H + 1) <= 2 ^ 16)%nat as HP by (apply Nat.pow_le_mono_r; lia).
  change (2 ^ 16)%nat with (Z.to_nat 65536) in HP.
  unfold max_transactions in Hn. change (4000000 / (4 * 60)) with 16666 in Hn.
  unfold pmt_wf, in_u, MAX_VEC_SIZE. cbn [num_transactions bits hashes].
  split; [lia|]. split; [by eapply built_hashes_length|]. split; lia.
Qed.

(** ** Properties *)

(** C38: partial merkle trees are complete end to end.  For one up to [max_transactions]
    (16666) transaction ids without equal sibling nodes, building the proof, serialising it,
    deserialising it and extracting gives the block's merkle root, exactly the matched
    ids and exactly their positions in order. *)
Theorem partial_merkle_tree_complete {bm : BuildMode} (txids : list (list byte)) (matches : list bool)
    (Hlen : length txids = length matches)
    (Hcount : 0 < Z.of_nat (length txids) <= max_transactions)
    (H32 : Forall (fun t => length t = 32%nat) txids)
    (Hsib : siblings_differ parent_hash txids) :
  exists pmt data root,
    from_txids parent_hash txids matches = Ret pmt /\
    data = fst (pmt_encode pmt) /\
    calculate_root parent_hash txids = Ret (Some root) /\
    forall rest, match on_slice pmt_decode (data ++ rest) with
    | Ok (pmt', rest') => rest' = rest /\
        extract_matches parent_hash pmt' =
        Val (root, txids_at txids (matching_positions matches),
             map Z.of_nat (matching_positions matches))
    | Err _ => False
    end.
Proof.
  destruct Hcount as [Hn0 Hn].
  destruct (calculate_root_spec parent_hash txids (txids_nonempty txids Hn0 Hn)) as (root & H & Hr & _ & His).
  destruct (from_txids_spec parent_hash txids Hn0 Hn matches root H Hlen His) as (b & hs & ix & Hb & Hf).
  eexists _, _, root. split; [exact Hf|]. split; [done|]. split; [done|]. intros rest.
  rewrite pmt_roundtrip.
  - cbn [num_transactions bits hashes]. split; [done|]. unfold padded.
    rewrite (extract_matches_built parent_hash txids Hn0 Hn matches root H b hs ix); try done.
    + by rewrite (built_root_positions parent_hash txids matches root H b hs ix Hlen His Hb).
    + rewrite <- length_app. apply (padded_bytes b).
  - apply (built_wf txids matches Hlen Hn H b hs ix); [|done|done].
    by apply (height_small parent_hash txids Hn root).
Qed.

(** Three transaction ids for the concrete instances. *)
Definition sample_txids : list (list byte) :=
  [replicate 32 (byte.of_Z 1); replicate 32 (byte.of_Z 2); replicate 32 (byte.of_Z 3)].

Lemma sample_siblings : siblings_differ parent_hash sample_txids.
Proof.
  intros h pos a b Ha Hb. apply lookup_lt_Some in Hb as Hl. apply level_lt in Hl.
  change (length sample_txids) with 3%nat in Hl.
  assert (pos = 0)%nat as -> by (pose proof (Nat.pow_nonzero 2 h ltac:(lia)); nia).
  destruct h as [|[|h]].
  - vm_compute in Ha, Hb. injection Ha as <-. injection Hb as <-. discriminate.
  - vm_compute in Ha, Hb. injection Ha as <-. injection Hb as <-. discriminate.
  - exfalso. simpl in Hl. pose proof (Nat.pow_nonzero 2 h ltac:(lia)). lia.
Qed.

Lemma partial_merkle_tree_complete_witness :
  let bm : BuildMode := true in
  exists pmt data root,
    from_txids parent_hash sample_txids [false; true; false] = Ret pmt /\
    data = fst (pmt_encode pmt) /\
    calculate_root parent_hash sample_txids = Ret (Some root) /\
    forall rest, match on_slice pmt_decode (data ++ rest) with
    | Ok (pmt', rest') => rest' = rest /\
        extract_matches parent_hash pmt' = Val (root, [replicate 32 (byte.of_Z 2)], [1])
    | Err _ => False
    end.
Proof.
  intros bm. apply (partial_merkle_tree_complete sample_txids [false; true; false]).
  - reflexivity.
  - vm_compute. split; [reflexivity|discriminate].
  - repeat constructor.
  - apply sample_siblings.
Defined.

(** C39: partial merkle trees are sound for the number of transactions they state.  A proof that
    states the block's number of transactions and extracts to the root of their ids reports only ids
    that are in the block, each at its true position, whatever bits and hashes the proof contains,
    unless the root has a derivation from the proof's hashes in which a pair of nodes has the hash of
    a different pair of the block's tree.  The stated number is not authenticated by the root, so a
    caller has to know it: [transaction_count_unchecked] is a proof of one transaction in which the
    root itself is the id. *)
Theorem partial_merkle_tree_sound {bm : BuildMode} {T} `{EqDecision T} (parent : T -> T -> T)
    (txids : list T) (pmt : PartialMerkleTree T) (root : T) (ms : list T) (js : list Z)
    (Hroot : calculate_root parent txids = Ret (Some root))
    (Hcount : 0 < Z.of_nat (length txids) <= max_transactions)
    (Hnum : num_transactions pmt = Z.of_nat (length txids))
    (Hbits : Z.of_nat (length (bits pmt)) < 2 ^ 32 - 1)
    (Hhashes : Z.of_nat (length (hashes pmt)) < 2 ^ 32 - 1)
    (Hextract : extract_matches parent pmt = Val (root, ms, js)) :
  Forall2 (fun t j => 0 <= j /\ txids !! Z.to_nat j = Some t) ms js \/
  exists height, is_root parent height txids root /\ forged parent txids (hashes pmt) root height.
Proof.
  destruct Hcount as [Hn0 Hn].
  destruct (calculate_root_spec parent txids (txids_nonempty txids Hn0 Hn)) as (r & H & Hr & _ & His).
  rewrite Hroot in Hr. injection Hr as <-.
  destruct (extract_matches_sound parent txids Hn0 Hn pmt root H ms js) as [|Hf]; eauto.
Qed.

(** Trees as their own hashes: a node function without collisions. *)
Inductive tree := Leaf (i : Z) | Node (l r : tree).
#[export] Instance tree_eq_dec : EqDecision tree.
Proof. solve_decision. Defined.

Lemma Node_no_collision l1 l2 : ~ collision_between Node l1 l2.
Proof. intros (a & b & c & d & _ & _ & Hn & [= -> ->]). by apply Hn. Qed.

(** Any root presented as the only transaction of a block. *)
Lemma transaction_count_unchecked {bm : BuildMode} (root : tree) :
  extract_matches Node (mkPMT 1 [true] [root]) = Val (root, [root], [0]).
Proof. unfold extract_matches. vm_compute. destruct root; by destruct bm. Qed.

Lemma partial_merkle_tree_sound_witness :
  let bm : BuildMode := true in
  Forall2 (fun t j => 0 <= j /\ [Leaf 1; Leaf 2; Leaf 3] !! Z.to_nat j = Some t) [Leaf 3] [2].
Proof.
  intros bm.
  destruct (partial_merkle_tree_sound Node [Leaf 1; Leaf 2; Leaf 3]
    (mkPMT 3 [true; false; true; true; false; false; false; false] [Node (Leaf 1) (Leaf 2); Leaf 3])
    (Node (Node (Leaf 1) (Leaf 2)) (Node (Leaf 3) (Leaf 3))) [Leaf 3] [2]) as [H|H].
  all: try (vm_compute; reflexivity).
  - vm_compute. split; [reflexivity|discriminate].
  - exact H.
  - destruct H as (height & _ & l & _ & H). destruct (Node_no_collision _ _ H).
Defined.
