(* ===== verification/Taproot.v ===== *)
(** * Taproot ([taproot/mod.rs], [taproot/merkle_branch.rs], [TapTweak] of [crypto/key.rs])

    Tagged hashes of leaves, branches and tweaks, leaf versions, merkle branches, the
    bottom-up [NodeInfo], the depth-first [TaprootBuilder], spending information and control
    blocks.  The curve is the class [Secp256k1]; its laws are [Secp256k1Laws]. *)

From Stdlib Require Import ZArith Lia.
From Stdlib Require Strings.String.
From coqutil Require Import Byte Word.LittleEndianList.
From stdpp Require Import base tactics option list numbers.
From S2P Require Import Prelude Io Encode HashEngine Sha256 Sha256t.
Import String.StringSyntax.

#[local] Open Scope Z_scope.

(** ** The curve *)

Inductive Parity := Even | Odd.
#[export] Instance Parity_eq_dec : EqDecision Parity.
Proof. solve_decision. Defined.
Definition i32_from_parity (p : Parity) : Z := match p with Even => 0 | Odd => 1 end.

(** The functions of the [secp256k1] crate that are called here. *)
Class Secp256k1 := {
  XOnlyPublicKey : Type;
  Scalar : Type;
  SecpError : Type;
  key_serialize : XOnlyPublicKey -> list byte;
  key_from_slice : list byte -> Result SecpError XOnlyPublicKey;
  scalar_from_be_bytes : list byte -> option Scalar;
  add_tweak : XOnlyPublicKey -> Scalar -> Result SecpError (XOnlyPublicKey * Parity);
  tweak_add_check : XOnlyPublicKey -> XOnlyPublicKey -> Parity -> Scalar -> bool;
}.

(** What the crate documents: x-only keys are serialised in 32 bytes, parsing inverts
    serialising, a scalar is the number its 32 bytes spell, tweaking adds a multiple of the
    generator, which differs for different scalars, and [tweak_add_check] recomputes the
    tweak. *)
Class Secp256k1Laws (S : Secp256k1) : Prop := {
  key_serialize_length k : length (key_serialize k) = 32%nat;
  key_from_serialize k : key_from_slice (key_serialize k) = Ok k;
  key_serialize_from bs k : key_from_slice bs = Ok k -> key_serialize k = bs;
  scalar_inj b b' s : scalar_from_be_bytes b = Some s -> scalar_from_be_bytes b' = Some s -> b = b';
  add_tweak_inj k t t' q : add_tweak k t = Ok q -> add_tweak k t' = Ok q -> t = t';
  tweak_add_check_iff k q par t : tweak_add_check k q par t = true <-> add_tweak k t = Ok (q, par);
}.

(** ** Constants *)

Definition TAPROOT_CONTROL_MAX_NODE_COUNT : nat := 128.
Definition TAPROOT_CONTROL_NODE_SIZE : nat := 32.
Definition TAPROOT_LEAF_MASK : Z := 0xfe.
Definition TAPROOT_LEAF_TAPSCRIPT : Z := 0xc0.
Definition TAPROOT_ANNEX_PREFIX : Z := 0x50.
Definition TAPROOT_CONTROL_BASE_SIZE : nat := 33.
Definition TAPROOT_CONTROL_MAX_SIZE : nat :=
  TAPROOT_CONTROL_BASE_SIZE + TAPROOT_CONTROL_NODE_SIZE * TAPROOT_CONTROL_MAX_NODE_COUNT.

(** ** Leaf versions *)

Inductive LeafVersion := TapScript | Future (version : Z).
#[export] Instance LeafVersion_eq_dec : EqDecision LeafVersion.
Proof. solve_decision. Defined.

Section errors.
Context {S : Secp256k1}.

Inductive TaprootError :=
| InvalidMerkleBranchSize (n : nat)
| InvalidMerkleTreeDepth (n : nat)
| InvalidTaprootLeafVersion (v : Z)
| InvalidControlBlockSize (n : nat)
| InvalidInternalKey (e : SecpError).

Definition future_from_consensus (version : Z) : comp TaprootError Z :=
  if version =? TAPROOT_LEAF_TAPSCRIPT then Crash
  else if version =? TAPROOT_ANNEX_PREFIX then Throw (InvalidTaprootLeafVersion TAPROOT_ANNEX_PREFIX)
  else if negb (Z.land version 0xFE =? version) then Throw (InvalidTaprootLeafVersion version)
  else Val version.

Definition leaf_version_from_consensus (version : Z) : comp TaprootError LeafVersion :=
  if version =? TAPROOT_LEAF_TAPSCRIPT then Val TapScript
  else if version =? TAPROOT_ANNEX_PREFIX then Throw (InvalidTaprootLeafVersion TAPROOT_ANNEX_PREFIX)
  else v ← future_from_consensus version; Val (Future v).
End errors.

Definition leaf_version_to_consensus (self : LeafVersion) : Z :=
  match self with TapScript => TAPROOT_LEAF_TAPSCRIPT | Future version => version end.

(** ** Tagged hashes *)

Definition TapLeafTag : list byte := String.list_byte_of_string "TapLeaf".
Definition TapBranchTag : list byte := String.list_byte_of_string "TapBranch".
Definition TapTweakTag : list byte := String.list_byte_of_string "TapTweak".

Definition leaf_hash_from_script (script : list byte) (ver : LeafVersion) : list byte :=
  let eng := tag_engine TapLeafTag in
  let eng := engine_input eng (bytes_of u8 (leaf_version_to_consensus ver)) in
  let eng := engine_input eng (bytes_of byte_vec script) in
  sha256t_from_engine eng.

(** [a < b] on 32-byte arrays. *)
Definition hash_lt (a b : list byte) : bool :=
  match bytes_compare a b with Lt => true | _ => false end.

Definition combine_node_hashes (a b : list byte) : list byte * bool :=
  let eng := tag_engine TapBranchTag in
  let eng := if hash_lt a b
             then engine_input (engine_input eng a) b
             else engine_input (engine_input eng b) a in
  (sha256t_from_engine eng, hash_lt a b).

Definition from_node_hashes (a b : list byte) : list byte := fst (combine_node_hashes a b).

(** [TapNodeHash::from_script]: the bytes of the leaf hash. *)
Definition node_hash_from_script (script : list byte) (ver : LeafVersion) : list byte :=
  leaf_hash_from_script script ver.

Section tweak.
Context {S : Secp256k1}.

Definition from_key_and_tweak (internal_key : XOnlyPublicKey) (merkle_root : option (list byte)) :
    list byte :=
  let eng := tag_engine TapTweakTag in
  let eng := engine_input eng (key_serialize internal_key) in
  let eng := match merkle_root with Some h => engine_input eng h | None => eng end in
  sha256t_from_engine eng.

(** Panics on a hash that is not below the curve order. *)
Definition to_scalar (self : list byte) : run Scalar :=
  match scalar_from_be_bytes self with Some s => Ret s | None => Panic end.

Definition tap_tweak {bm : BuildMode} (self : XOnlyPublicKey) (merkle_root : option (list byte)) :
    run (XOnlyPublicKey * Parity) :=
  tweak ← to_scalar (from_key_and_tweak self merkle_root);
  match add_tweak self tweak with
  | Err _ => Panic
  | Ok (output_key, parity) =>
      _ ← debug_assert (tweak_add_check self output_key parity tweak);
      Ret (output_key, parity)
  end.
End tweak.

(** ** Merkle branches *)

Inductive TaprootBuilderError :=
| BuilderInvalidMerkleTreeDepth (n : nat)
| NodeNotInDfsOrder
| OverCompleteTree
| EmptyTree.
#[export] Instance TaprootBuilderError_eq_dec : EqDecision TaprootBuilderError.
Proof. solve_decision. Defined.

(** [TaprootMerkleBranch]: the hashing partners from the leaf up. *)
Definition branch_decode {S : Secp256k1} (sl : list byte) : Result TaprootError (list (list byte)) :=
  if negb (length sl mod TAPROOT_CONTROL_NODE_SIZE =? 0)%nat
  then Err (InvalidMerkleBranchSize (length sl))
  else if (TAPROOT_CONTROL_NODE_SIZE * TAPROOT_CONTROL_MAX_NODE_COUNT <? length sl)%nat
  then Err (InvalidMerkleTreeDepth (length sl / TAPROOT_CONTROL_NODE_SIZE))
  else Ok (chunks_exact TAPROOT_CONTROL_NODE_SIZE sl).

Definition branch_from_collection {S : Secp256k1} (collection : list (list byte)) :
    Result TaprootError (list (list byte)) :=
  if (TAPROOT_CONTROL_MAX_NODE_COUNT <? length collection)%nat
  then Err (InvalidMerkleTreeDepth (length collection)) else Ok collection.

Definition branch_encode (self : list (list byte)) : list byte * nat :=
  (fold_left (fun w hash => w ++ hash) self [], length self * 32)%nat.

Definition branch_serialize (self : list (list byte)) : list byte := self ≫= fun e => e.

Definition branch_push (self : list (list byte)) (h : list byte) :
    Result TaprootBuilderError (list (list byte)) :=
  if (TAPROOT_CONTROL_MAX_NODE_COUNT <=? length self)%nat
  then Err (BuilderInvalidMerkleTreeDepth (length self)) else Ok (self ++ [h]).

(** ** Leaves and nodes *)

Inductive TapLeaf :=
| Script (script : list byte) (ver : LeafVersion)
| Hidden (hash : list byte).
#[export] Instance TapLeaf_eq_dec : EqDecision TapLeaf.
Proof. solve_decision. Defined.

Definition as_hidden (self : TapLeaf) : option (list byte) :=
  match self with Hidden v => Some v | _ => None end.
Definition as_script (self : TapLeaf) : option (list byte * LeafVersion) :=
  match self with Script script ver => Some (script, ver) | _ => None end.

Record LeafNode := mkLeafNode { leaf : TapLeaf; merkle_branch : list (list byte) }.
#[export] Instance LeafNode_eq_dec : EqDecision LeafNode.
Proof. solve_decision. Defined.

Definition new_script (script : list byte) (ver : LeafVersion) : LeafNode :=
  mkLeafNode (Script script ver) [].
Definition new_hidden (hash : list byte) : LeafNode := mkLeafNode (Hidden hash) [].

(** [u8::try_from] of the branch length. *)
Definition depth (self : LeafNode) : run Z :=
  let n := Z.of_nat (length (merkle_branch self)) in
  if in_ub 8 n then Ret n else Panic.
Definition leaf_hash (self : LeafNode) : option (list byte) :=
  '(script, ver) ← as_script (leaf self); Some (leaf_hash_from_script script ver).
Definition leaf_node_hash (self : LeafNode) : list byte :=
  match leaf self with
  | Script script ver => leaf_hash_from_script script ver
  | Hidden hash => hash
  end.

Record NodeInfo := mkNode { nhash : list byte; leaves : list LeafNode; has_hidden_nodes : bool }.
#[export] Instance NodeInfo_eq_dec : EqDecision NodeInfo.
Proof. solve_decision. Defined.

(** [PartialEq] compares the hashes only. *)
Definition node_eq (self other : NodeInfo) : bool := bool_decide (nhash self = nhash other).

Definition new_hidden_node (hash : list byte) : NodeInfo := mkNode hash [] true.
Definition new_leaf_with_ver (script : list byte) (ver : LeafVersion) : NodeInfo :=
  mkNode (node_hash_from_script script ver) [new_script script ver] false.

(** [for mut a_leaf in a.leaves { a_leaf.merkle_branch.push(b.hash)?; all_leaves.push(a_leaf) }] *)
Fixpoint push_partner (partner : list byte) (ls all_leaves : list LeafNode) :
    Result TaprootBuilderError (list LeafNode) :=
  match ls with
  | [] => Ok all_leaves
  | l :: ls =>
      branch ← branch_push (merkle_branch l) partner;
      push_partner partner ls (all_leaves ++ [mkLeafNode (leaf l) branch])
  end.

Definition combine (a b : NodeInfo) : Result TaprootBuilderError NodeInfo :=
  let '(hash, left_first) := combine_node_hashes (nhash a) (nhash b) in
  let '(a, b) := if left_first then (a, b) else (b, a) in
  all_leaves ← push_partner (nhash b) (leaves a) [];
  all_leaves ← push_partner (nhash a) (leaves b) all_leaves;
  Ok (mkNode hash all_leaves (has_hidden_nodes a || has_hidden_nodes b)).

(** ** The builder *)

(** [TaprootBuilder { branch }]; the end of the list is the end of the vector. *)
Definition TaprootBuilder : Type := list (option NodeInfo).
Definition builder_new : TaprootBuilder := [].

(** [Vec::pop]. *)
Definition pop {A} (v : list A) : option (A * list A) :=
  match reverse v with x :: v => Some (x, reverse v) | [] => None end.

(** The [while] loop of [insert]; each turn that continues removes an entry, so the length of
    the branch bounds the turns. *)
Fixpoint insert_loop (fuel : nat) (branch : TaprootBuilder) (node : NodeInfo) (depth : nat) :
    comp TaprootBuilderError (TaprootBuilder * NodeInfo * nat) :=
  if (length branch =? depth + 1)%nat then
    match fuel with
    | O => Crash
    | Datatypes.S fuel =>
        match pop branch with
        | None => Crash
        | Some (Some child, branch) =>
            if (depth =? 0)%nat then Throw OverCompleteTree
            else node ← of_result (combine node child); insert_loop fuel branch node (depth - 1)
        | Some (None, branch) => Val (branch ++ [None], node, depth)
        end
    end
  else Val (branch, node, depth).

(** [self.branch[i] = x]: a panic out of range. *)
Definition vec_set {E A} (v : list A) (i : nat) (x : A) : comp E (list A) :=
  if (i <? length v)%nat then Val (<[i:=x]> v) else Crash.

Definition insert (self : TaprootBuilder) (node : NodeInfo) (depth : nat) :
    comp TaprootBuilderError TaprootBuilder :=
  if (TAPROOT_CONTROL_MAX_NODE_COUNT <? depth)%nat
  then Throw (BuilderInvalidMerkleTreeDepth depth)
  else if (depth + 1 <? length self)%nat then Throw NodeNotInDfsOrder
  else
    '(branch, node, depth) ← insert_loop (length self) self node depth;
    let branch := if (length branch <? depth + 1)%nat
                  then branch ++ replicate (depth + 1 - length branch) None else branch in
    vec_set branch depth (Some node).

Definition add_leaf_with_ver (self : TaprootBuilder) (depth : nat) (script : list byte)
    (ver : LeafVersion) : comp TaprootBuilderError TaprootBuilder :=
  insert self (new_leaf_with_ver script ver) depth.
Definition add_leaf (self : TaprootBuilder) (depth : nat) (script : list byte) :
    comp TaprootBuilderError TaprootBuilder :=
  add_leaf_with_ver self depth script TapScript.
Definition add_hidden_node (self : TaprootBuilder) (depth : nat) (hash : list byte) :
    comp TaprootBuilderError TaprootBuilder :=
  insert self (new_hidden_node hash) depth.

Definition is_finalizable (self : TaprootBuilder) : bool :=
  (length self =? 1)%nat && match head self with Some (Some _) => true | _ => false end.

Definition builder_has_hidden_nodes (self : TaprootBuilder) : bool :=
  existsb (fun o => match o with Some node => has_hidden_nodes node | None => false end) self.

Inductive IncompleteBuilderError :=
| NotFinalized (b : TaprootBuilder)
| HiddenParts (b : TaprootBuilder).
Definition into_builder (self : IncompleteBuilderError) : TaprootBuilder :=
  match self with NotFinalized b | HiddenParts b => b end.

Definition try_into_node_info (self : TaprootBuilder) : comp IncompleteBuilderError NodeInfo :=
  if negb (length self =? 1)%nat then Throw (NotFinalized self)
  else match pop self with
       | Some (Some node, _) => Val node
       | _ => Crash
       end.

(** [TapTree] wraps a node without hidden parts. *)
Definition try_into_taptree (self : TaprootBuilder) : comp IncompleteBuilderError NodeInfo :=
  node ← try_into_node_info self;
  if has_hidden_nodes node then Throw (HiddenParts [Some node]) else Val node.

Definition taptree_try_from_node (node_info : NodeInfo) : Result NodeInfo NodeInfo :=
  if has_hidden_nodes node_info then Err node_info else Ok node_info.

(** ** Iterating over the leaves *)

Record ScriptLeaf := mkScriptLeaf {
  sl_version : LeafVersion; sl_script : list byte; sl_branch : list (list byte) }.

Definition from_leaf_node (leaf_node : LeafNode) : option ScriptLeaf :=
  '(script, ver) ← as_script (leaf leaf_node);
  Some (mkScriptLeaf ver script (merkle_branch leaf_node)).

(** The iterator ends at the first leaf [from_leaf_node] has no script for. *)
Fixpoint script_leaves (ls : list LeafNode) : list ScriptLeaf :=
  match ls with
  | [] => []
  | l :: ls => match from_leaf_node l with None => [] | Some s => s :: script_leaves ls end
  end.

(** ** Derived orders *)

Definition leaf_version_compare (a b : LeafVersion) : comparison :=
  match a, b with
  | TapScript, TapScript => Eq
  | TapScript, Future _ => Lt
  | Future _, TapScript => Gt
  | Future v, Future w => v ?= w
  end.
Definition script_key_compare (a b : list byte * LeafVersion) : comparison :=
  then_cmp (bytes_compare (fst a) (fst b)) (leaf_version_compare (snd a) (snd b)).
Definition branch_compare : list (list byte) -> list (list byte) -> comparison :=
  list_compare bytes_compare.
Definition tap_leaf_compare (a b : TapLeaf) : comparison :=
  match a, b with
  | Script s v, Script s' v' => script_key_compare (s, v) (s', v')
  | Script _ _, Hidden _ => Lt
  | Hidden _, Script _ _ => Gt
  | Hidden h, Hidden h' => bytes_compare h h'
  end.
Definition leaf_node_compare (a b : LeafNode) : comparison :=
  then_cmp (tap_leaf_compare (leaf a) (leaf b)) (branch_compare (merkle_branch a) (merkle_branch b)).
Definition bool_compare (a b : bool) : comparison :=
  match a, b with false, true => Lt | true, false => Gt | _, _ => Eq end.
Definition node_info_compare (a b : NodeInfo) : comparison :=
  then_cmp (bytes_compare (nhash a) (nhash b))
    (then_cmp (list_compare leaf_node_compare (leaves a) (leaves b))
       (bool_compare (has_hidden_nodes a) (has_hidden_nodes b))).

(** ** Ordered collections of the standard library *)

Section btree.
Context {K V : Type} (cmp : K -> K -> comparison).

(** [BTreeSet::insert] *)
Fixpoint set_insert (x : K) (s : list K) : list K :=
  match s with
  | [] => [x]
  | y :: s => match cmp x y with
              | Lt => x :: y :: s
              | Eq => y :: s
              | Gt => y :: set_insert x s
              end
  end.

(** [BTreeMap::get] and [BTreeMap::insert] *)
Fixpoint map_get (k : K) (m : list (K * V)) : option V :=
  match m with
  | [] => None
  | (k', v) :: m => match cmp k k' with Eq => Some v | _ => map_get k m end
  end.
Fixpoint map_insert (k : K) (v : V) (m : list (K * V)) : list (K * V) :=
  match m with
  | [] => [(k, v)]
  | (k', v') :: m => match cmp k k' with
                     | Lt => (k, v) :: (k', v') :: m
                     | Eq => (k', v) :: m
                     | Gt => (k', v') :: map_insert k v m
                     end
  end.
End btree.

(** [BinaryHeap::pop]: a greatest element, and the others. *)
Fixpoint extract_max {A} (cmp : A -> A -> comparison) (x : A) (l : list A) : A * list A :=
  match l with
  | [] => (x, [])
  | y :: l => match cmp y x with
              | Gt => let '(m, r) := extract_max cmp y l in (m, x :: r)
              | _ => let '(m, r) := extract_max cmp x l in (m, y :: r)
              end
  end.
Definition heap_pop {A} (cmp : A -> A -> comparison) (heap : list A) : option (A * list A) :=
  match heap with [] => None | x :: l => Some (extract_max cmp x l) end.

(** [Iterator::min_by]: the first of the least elements. *)
Definition min_by {A} (cmp : A -> A -> comparison) (l : list A) : option A :=
  match l with
  | [] => None
  | x :: l => Some (fold_left (fun m y => match cmp m y with Gt => y | _ => m end) l x)
  end.

(** ** Huffman trees *)

(** [(Reverse<u32>, NodeInfo)]: the greatest entry has the least weight. *)
Definition weight_compare (a b : Z * NodeInfo) : comparison :=
  then_cmp (fst b ?= fst a) (node_info_compare (snd a) (snd b)).

Definition saturating_add_u32 (a b : Z) : Z := Z.min (a + b) u32_MAX.

Fixpoint huffman_loop (fuel : nat) (node_weights : list (Z * NodeInfo)) :
    comp TaprootBuilderError (list (Z * NodeInfo)) :=
  if (1 <? length node_weights)%nat then
    match fuel with
    | O => Crash
    | Datatypes.S fuel =>
        match heap_pop weight_compare node_weights with
        | None => Crash
        | Some ((p1, s1), node_weights) =>
            match heap_pop weight_compare node_weights with
            | None => Crash
            | Some ((p2, s2), node_weights) =>
                let p := saturating_add_u32 p1 p2 in
                node ← of_result (combine s1 s2);
                huffman_loop fuel ((p, node) :: node_weights)
            end
        end
    end
  else Val node_weights.

Definition with_huffman_tree {bm : BuildMode} (script_weights : list (Z * list byte)) :
    comp TaprootBuilderError TaprootBuilder :=
  let node_weights :=
    fold_left (fun heap '(p, leaf) => (p, new_leaf_with_ver leaf TapScript) :: heap)
      script_weights [] in
  if (length node_weights =? 0)%nat then Throw EmptyTree
  else
    node_weights ← huffman_loop (length node_weights) node_weights;
    _ ← of_run (debug_assert (length node_weights =? 1)%nat);
    match heap_pop weight_compare node_weights with
    | None => Crash
    | Some ((_, node), _) => Val [Some node]
    end.

(** ** Spending information and control blocks *)

Section spend_info.
Context {S : Secp256k1} {bm : BuildMode}.

Record TaprootSpendInfo := mkSpendInfo {
  internal_key : XOnlyPublicKey;
  merkle_root : option (list byte);
  output_key_parity : Parity;
  output_key : XOnlyPublicKey;
  script_map : list ((list byte * LeafVersion) * list (list (list byte)));
}.

Definition new_key_spend (internal_key : XOnlyPublicKey) (merkle_root : option (list byte)) :
    run TaprootSpendInfo :=
  '(output_key, parity) ← tap_tweak internal_key merkle_root;
  Ret (mkSpendInfo internal_key merkle_root parity output_key []).

Definition spend_tap_tweak (self : TaprootSpendInfo) : list byte :=
  from_key_and_tweak (internal_key self) (merkle_root self).

Definition add_to_script_map (script_map : list ((list byte * LeafVersion) * list (list (list byte))))
    (l : LeafNode) : list ((list byte * LeafVersion) * list (list (list byte))) :=
  match leaf l with
  | Hidden _ => script_map
  | Script script ver =>
      let key := (script, ver) in
      let value := merkle_branch l in
      match map_get script_key_compare key script_map with
      | None => map_insert script_key_compare key (set_insert branch_compare value []) script_map
      | Some set =>
          map_insert script_key_compare key (set_insert branch_compare value set) script_map
      end
  end.

Definition from_node_info (key : XOnlyPublicKey) (node : NodeInfo) :
    run TaprootSpendInfo :=
  info ← new_key_spend key (Some (nhash node));
  Ret (mkSpendInfo (internal_key info) (merkle_root info) (output_key_parity info)
         (output_key info) (fold_left add_to_script_map (leaves node) (script_map info))).

(** [Err(self)] gives an unfinished builder back. *)
Definition finalize (self : TaprootBuilder) (internal_key : XOnlyPublicKey) :
    comp TaprootBuilder TaprootSpendInfo :=
  match length self with
  | 0%nat => of_run (new_key_spend internal_key None)
  | 1%nat => match pop self with
             | Some (Some node, _) => of_run (from_node_info internal_key node)
             | _ => Crash
             end
  | _ => Throw self
  end.

(** [TaprootSpendInfo::with_huffman_tree]. *)
Definition spend_info_with_huffman_tree (internal_key : XOnlyPublicKey)
    (script_weights : list (Z * list byte)) : comp TaprootBuilderError TaprootSpendInfo :=
  builder ← with_huffman_tree script_weights;
  match finalize builder internal_key with
  | Val info => Val info
  | _ => Crash
  end.

Record ControlBlock := mkControlBlock {
  leaf_version : LeafVersion;
  cb_parity : Parity;
  cb_internal_key : XOnlyPublicKey;
  cb_merkle_branch : list (list byte);
}.

Definition control_block (self : TaprootSpendInfo) (script_ver : list byte * LeafVersion) :
    run (option ControlBlock) :=
  match map_get script_key_compare script_ver (script_map self) with
  | None => Ret None
  | Some merkle_branch_set =>
      match min_by (fun x y => length x ?= length y)%nat merkle_branch_set with
      | None => Panic
      | Some smallest =>
          Ret (Some (mkControlBlock (snd script_ver) (output_key_parity self)
                       (internal_key self) smallest))
      end
  end.

Definition control_block_decode (sl : list byte) : comp TaprootError ControlBlock :=
  if (length sl <? TAPROOT_CONTROL_BASE_SIZE)%nat
     || negb ((length sl - TAPROOT_CONTROL_BASE_SIZE) mod TAPROOT_CONTROL_NODE_SIZE =? 0)%nat
  then Throw (InvalidControlBlockSize (length sl))
  else
    b ← of_run (index sl 0);
    let parity := if Z.land (byte.unsigned b) 1 =? 0 then Even else Odd in
    leaf_version ← leaf_version_from_consensus (Z.land (byte.unsigned b) TAPROOT_LEAF_MASK);
    key ← of_result (map_err InvalidInternalKey
            (key_from_slice (take (TAPROOT_CONTROL_BASE_SIZE - 1) (drop 1 sl))));
    branch ← of_result (branch_decode (drop TAPROOT_CONTROL_BASE_SIZE sl));
    Val (mkControlBlock leaf_version parity key branch).

Definition control_block_size (self : ControlBlock) : nat :=
  TAPROOT_CONTROL_BASE_SIZE + TAPROOT_CONTROL_NODE_SIZE * length (cb_merkle_branch self).

(** The bytes written and the returned count. *)
Definition control_block_encode (self : ControlBlock) : list byte * nat :=
  let first_byte := Z.lor (wrap 8 (i32_from_parity (cb_parity self)))
                          (leaf_version_to_consensus (leaf_version self)) in
  ([byte.of_Z first_byte] ++ key_serialize (cb_internal_key self)
     ++ fst (branch_encode (cb_merkle_branch self)), control_block_size self).
Definition control_block_serialize (self : ControlBlock) : list byte :=
  fst (control_block_encode self).

Definition verify_taproot_commitment (self : ControlBlock) (output_key : XOnlyPublicKey)
    (script : list byte) : run bool :=
  let curr_hash := node_hash_from_script script (leaf_version self) in
  let curr_hash := fold_left from_node_hashes (cb_merkle_branch self) curr_hash in
  tweak ← to_scalar (from_key_and_tweak (cb_internal_key self) (Some curr_hash));
  Ret (tweak_add_check (cb_internal_key self) output_key (cb_parity self) tweak).
End spend_info.
