(* ===== verification/TapTree.v ===== *)
(** * Script trees: what the taproot builder promises

    The abstract side is a binary tree of scripts and hidden hashes.  The builder, fed in
    depth-first order, computes the merkle information of the tree and finishes exactly on
    complete walks. *)

From Stdlib Require Import ZArith Lia.
From coqutil Require Import Byte Word.LittleEndianList.
From stdpp Require Import base tactics option list numbers.
From S2P Require Import Prelude Io Encode HashEngine Sha256 Sha256t Merkle Taproot.

#[local] Open Scope Z_scope.
#[local] Opaque engine_input from_engine tag_engine hash_tag.

(** ** Trees *)

Inductive Tree :=
| TLeaf (script : list byte) (ver : LeafVersion)
| THidden (hash : list byte)
| TNode (l r : Tree).

Fixpoint root (t : Tree) : list byte :=
  match t with
  | TLeaf script ver => leaf_hash_from_script script ver
  | THidden hash => hash
  | TNode l r => from_node_hashes (root l) (root r)
  end.

Fixpoint height (t : Tree) : nat :=
  match t with TNode l r => S (Nat.max (height l) (height r)) | _ => 0 end.

Fixpoint hidden (t : Tree) : bool :=
  match t with TLeaf _ _ => false | THidden _ => true | TNode l r => hidden l || hidden r end.

(** The depth-first walk: every leaf with its depth. *)
Fixpoint dfs (d : nat) (t : Tree) : list (nat * TapLeaf) :=
  match t with
  | TLeaf script ver => [(d, Script script ver)]
  | THidden hash => [(d, Hidden hash)]
  | TNode l r => dfs (S d) l ++ dfs (S d) r
  end.

(** [p] lists the sibling hashes from an occurrence of the script up to the root. *)
Inductive proof_of : Tree -> list byte -> LeafVersion -> list (list byte) -> Prop :=
| proof_here s v : proof_of (TLeaf s v) s v []
| proof_left l r s v p : proof_of l s v p -> proof_of (TNode l r) s v (p ++ [root r])
| proof_right l r s v p : proof_of r s v p -> proof_of (TNode l r) s v (p ++ [root l]).

(** ** Feeding the builder *)

Definition add_op (b : TaprootBuilder) (op : nat * TapLeaf) : comp TaprootBuilderError TaprootBuilder :=
  match op with
  | (d, Script script ver) => add_leaf_with_ver b d script ver
  | (d, Hidden hash) => add_hidden_node b d hash
  end.

Fixpoint adds (b : TaprootBuilder) (ops : list (nat * TapLeaf)) :
    comp TaprootBuilderError TaprootBuilder :=
  match ops with
  | [] => Val b
  | op :: ops => b ← add_op b op; adds b ops
  end.

Lemma adds_app ops ops' b : adds b (ops ++ ops') = b' ← adds b ops; adds b' ops'.
Proof.
  revert b. induction ops as [|op ops IH]; intros b; simpl; [done|].
  destruct (add_op b op); simpl; [apply IH|done|done].
Qed.

(** ** The information of a tree *)

Definition extend (partner : list byte) (l : LeafNode) : LeafNode :=
  mkLeafNode (leaf l) (merkle_branch l ++ [partner]).

(** [combine] without its depth check. *)
Definition join (a b : NodeInfo) : NodeInfo :=
  let '(a, b) := if hash_lt (nhash a) (nhash b) then (a, b) else (b, a) in
  mkNode (from_node_hashes (nhash a) (nhash b))
    (map (extend (nhash b)) (leaves a) ++ map (extend (nhash a)) (leaves b))
    (has_hidden_nodes a || has_hidden_nodes b).

Fixpoint info (t : Tree) : NodeInfo :=
  match t with
  | TLeaf script ver => new_leaf_with_ver script ver
  | THidden hash => new_hidden_node hash
  | TNode l r => join (info r) (info l)
  end.

Definition shallow (n : nat) (a : NodeInfo) : Prop :=
  Forall (fun l => length (merkle_branch l) <= n)%nat (leaves a).

Lemma hash_lt_asym a b : hash_lt a b = true -> hash_lt b a = false.
Proof.
  unfold hash_lt. rewrite (compare_swap a b). by destruct (bytes_compare a b).
Qed.

Lemma hash_lt_false a b : hash_lt a b = false -> hash_lt b a = false -> a = b.
Proof.
  unfold hash_lt. rewrite (compare_swap a b).
  destruct (bytes_compare a b) eqn:E; try done. by apply compare_eq_iff in E.
Qed.

Lemma from_node_hashes_comm a b : from_node_hashes a b = from_node_hashes b a.
Proof.
  unfold from_node_hashes, combine_node_hashes. simpl.
  destruct (hash_lt a b) eqn:E.
  - by rewrite (hash_lt_asym _ _ E).
  - destruct (hash_lt b a) eqn:E'; [done|]. by rewrite (hash_lt_false a b).
Qed.

Lemma push_partner_ok p ls : forall acc,
  Forall (fun l => length (merkle_branch l) <= 127)%nat ls ->
  push_partner p ls acc = Ok (acc ++ map (extend p) ls).
Proof.
  induction ls as [|l ls IH]; intros acc H; simpl; [by rewrite app_nil_r|].
  apply Forall_cons_iff in H as [H1 H]. unfold branch_push, TAPROOT_CONTROL_MAX_NODE_COUNT.
  rewrite (proj2 (Nat.leb_gt _ _)) by lia. simpl. rewrite IH by done.
  by rewrite <- app_assoc.
Qed.

Lemma combine_join a b : shallow 127 a -> shallow 127 b -> combine a b = Ok (join a b).
Proof.
  intros Ha Hb. unfold combine, join, from_node_hashes at 1.
  destruct (combine_node_hashes (nhash a) (nhash b)) as [h f] eqn:E.
  assert (f = hash_lt (nhash a) (nhash b)) as -> by (by injection E).
  assert (h = from_node_hashes (nhash a) (nhash b)) as ->
    by (unfold from_node_hashes; by rewrite E).
  destruct (hash_lt (nhash a) (nhash b)); simpl;
    rewrite push_partner_ok by done; simpl; rewrite push_partner_ok by done; simpl;
    [done|]. by rewrite from_node_hashes_comm.
Qed.

Lemma join_hash a b : nhash (join a b) = from_node_hashes (nhash a) (nhash b).
Proof. unfold join. destruct (hash_lt _ _); [done|]. apply from_node_hashes_comm. Qed.

Lemma elem_of_join a b l : l ∈ leaves (join a b) <->
  (exists l', l' ∈ leaves a /\ l = extend (nhash b) l') \/
  (exists l', l' ∈ leaves b /\ l = extend (nhash a) l').
Proof.
  unfold join. destruct (hash_lt _ _); simpl; rewrite elem_of_app;
    rewrite !list_elem_of_In, !in_map_iff; setoid_rewrite list_elem_of_In; naive_solver.
Qed.

Lemma join_hidden a b : has_hidden_nodes (join a b) = has_hidden_nodes b || has_hidden_nodes a.
Proof. unfold join. destruct (hash_lt _ _); simpl; [apply orb_comm|done]. Qed.

Lemma info_hash t : nhash (info t) = root t.
Proof.
  induction t as [| |l IHl r IHr]; [done..|]. cbn [info]. rewrite join_hash, IHl, IHr.
  apply from_node_hashes_comm.
Qed.

Lemma info_hidden t : has_hidden_nodes (info t) = hidden t.
Proof.
  induction t as [| |l IHl r IHr]; [done..|]. cbn [info]. by rewrite join_hidden, IHl, IHr.
Qed.

(** The leaves are the occurrences of scripts, each with its merkle proof. *)
Lemma info_leaves t l : l ∈ leaves (info t) <->
  exists s v, leaf l = Script s v /\ proof_of t s v (merkle_branch l).
Proof.
  revert l. induction t as [s v|h|t1 IH1 t2 IH2]; intros l.
  - simpl. rewrite list_elem_of_singleton. split.
    + intros ->. exists s, v. split; [done|constructor].
    + destruct l as [lf br]; simpl. intros (s' & v' & -> & H). by inversion H; subst.
  - simpl. split; [by intros ?%not_elem_of_nil|]. intros (s & v & _ & H). inversion H.
  - cbn [info]. rewrite elem_of_join, !info_hash. split.
    + intros [(l' & Hl & ->)|(l' & Hl & ->)];
        [apply IH2 in Hl as (s & v & E & H)|apply IH1 in Hl as (s & v & E & H)];
        exists s, v; (split; [done|by constructor]).
    + destruct l as [lf br]; simpl. intros (s & v & -> & H). inversion H; subst.
      * right. exists (mkLeafNode (Script s v) p). split; [apply IH1; eauto|done].
      * left. exists (mkLeafNode (Script s v) p). split; [apply IH2; eauto|done].
Qed.

Lemma proof_of_height t s v p : proof_of t s v p -> (length p <= height t)%nat.
Proof. induction 1; simpl; rewrite ?length_app; simpl; lia. Qed.

Lemma proof_of_root t s v p : proof_of t s v p ->
  fold_left from_node_hashes p (leaf_hash_from_script s v) = root t.
Proof.
  induction 1 as [|l r s v p _ IH|l r s v p _ IH]; [done|..];
    rewrite fold_left_app; simpl; rewrite IH; [done|apply from_node_hashes_comm].
Qed.

Lemma info_shallow t n : (height t <= n)%nat -> shallow n (info t).
Proof.
  intros Hh. apply Forall_forall. intros l Hl. apply list_elem_of_In in Hl.
  apply info_leaves in Hl as (s & v & _ & H%proof_of_height). lia.
Qed.

(** ** What [insert] does *)

Lemma pop_snoc {A} (v : list A) x : pop (v ++ [x]) = Some (x, v).
Proof. unfold pop. rewrite reverse_snoc. by rewrite reverse_involutive. Qed.

Section insert.
Context (n : NodeInfo) (d : nat) (Hd : (d <= 128)%nat).

Lemma insert_guard (b : TaprootBuilder) : (length b <= d + 1)%nat -> insert b n d =
  '(branch, node, depth) ← insert_loop (length b) b n d;
  let branch := if (length branch <? depth + 1)%nat
                then branch ++ replicate (depth + 1 - length branch) None else branch in
  vec_set branch depth (Some node).
Proof.
  intros Hl. unfold insert, TAPROOT_CONTROL_MAX_NODE_COUNT.
  rewrite (proj2 (Nat.ltb_ge _ _)) by lia. by rewrite (proj2 (Nat.ltb_ge _ _)) by lia.
Qed.

Lemma vec_set_end {E} (v : list (option NodeInfo)) x : length v = d ->
  @vec_set E _ (v ++ [None]) d x = Val (v ++ [x]).
Proof.
  intros <-. unfold vec_set. rewrite length_app. simpl.
  rewrite (proj2 (Nat.ltb_lt _ _)) by lia. rewrite insert_app_r_alt by lia.
  by rewrite Nat.sub_diag.
Qed.

(** A shorter branch is padded. *)
Lemma insert_pad (b : TaprootBuilder) : (length b <= d)%nat ->
  insert b n d = Val (b ++ replicate (d - length b) None ++ [Some n]).
Proof.
  intros Hl. rewrite insert_guard by lia.
  assert (forall fuel, insert_loop fuel b n d = Val (b, n, d)) as ->.
  { intros fuel. destruct fuel; simpl; by rewrite (proj2 (Nat.eqb_neq _ _)) by lia. }
  rewrite bind_Val. cbv beta iota zeta. rewrite (proj2 (Nat.ltb_lt _ _)) by lia.
  replace (d + 1 - length b)%nat with (d - length b + 1)%nat by lia.
  rewrite replicate_add. simpl (replicate 1 None). rewrite !app_assoc.
  rewrite vec_set_end; [done|]. rewrite length_app, length_replicate. lia.
Qed.

(** A free slot at the right depth is taken. *)
Lemma insert_free (b : TaprootBuilder) : length b = d ->
  insert (b ++ [None]) n d = Val (b ++ [Some n]).
Proof.
  intros Hl. rewrite insert_guard by (rewrite length_app; simpl; lia).
  rewrite length_app. simpl length. rewrite Nat.add_1_r. cbn [insert_loop].
  rewrite length_app. simpl length. rewrite Hl, Nat.eqb_refl, pop_snoc, bind_Val.
  cbv beta iota zeta. rewrite length_app. simpl length.
  rewrite (proj2 (Nat.ltb_ge _ _)) by lia. by apply vec_set_end.
Qed.

End insert.

(** A left sibling is combined, and the parent is inserted one level up. *)
Lemma insert_sibling (b : TaprootBuilder) n c n' d : (S d <= 128)%nat -> length b = S d ->
  combine n c = Ok n' -> insert (b ++ [Some c]) n (S d) = insert b n' d.
Proof.
  intros Hd Hl Hc. rewrite !insert_guard by (rewrite ?length_app; simpl; lia).
  rewrite length_app. simpl length. rewrite Nat.add_1_r. cbn [insert_loop].
  rewrite length_app. simpl length. rewrite Hl, (proj2 (Nat.eqb_eq _ _)) by lia.
  rewrite pop_snoc. cbn [Nat.eqb]. rewrite Hc. cbn [of_result]. rewrite bind_Val.
  by replace (S d - 1)%nat with d by lia.
Qed.

(** ** Completeness: a walk inserts the tree *)

Lemma dfs_insert t : forall d b, (d + height t <= 128)%nat -> (length b <= d + 1)%nat ->
  adds b (dfs d t) = insert b (info t) d.
Proof.
  induction t as [s v|h|l IHl r IHr]; intros d b Hh Hl.
  1-2: simpl; unfold add_leaf_with_ver, add_hidden_node; by destruct (insert _ _ _).
  simpl height in Hh. cbn [dfs info]. rewrite adds_app, (IHl (S d)%nat) by lia.
  rewrite insert_pad by lia. rewrite bind_Val.
  rewrite (IHr (S d)%nat) by (rewrite ?length_app, ?length_replicate; simpl; lia).
  rewrite app_assoc. erewrite insert_sibling; [|lia| |].
  2: by rewrite length_app, length_replicate; lia.
  2: by apply combine_join; apply info_shallow; lia.
  destruct (Nat.eq_dec (length b) (d + 1)%nat) as [E|E].
  - replace (S d - length b)%nat with 0%nat by lia. by rewrite app_nil_r.
  - replace (S d - length b)%nat with (d - length b + 1)%nat by lia.
    rewrite replicate_add, app_assoc. simpl (replicate 1 None).
    rewrite insert_free by (rewrite ?length_app, ?length_replicate; lia).
    rewrite insert_pad by lia. by rewrite app_assoc.
Qed.

Lemma dfs_complete t : (height t <= 128)%nat -> adds builder_new (dfs 0 t) = Val [Some (info t)].
Proof. intros Hh. rewrite dfs_insert by (simpl; lia). by rewrite insert_pad by (simpl; lia). Qed.

(** ** Soundness: the branch is the walk so far *)

(** The walk recorded by a branch whose first entry is at depth [i]. *)
Fixpoint walk (i : nat) (ts : list (option Tree)) : list (nat * TapLeaf) :=
  match ts with
  | [] => []
  | Some t :: ts => dfs i t ++ walk (S i) ts
  | None :: ts => walk (S i) ts
  end.

Lemma walk_app ts : forall i ts', walk i (ts ++ ts') = walk i ts ++ walk (i + length ts) ts'.
Proof.
  induction ts as [|[t|] ts IH]; intros i ts'; simpl.
  - by rewrite Nat.add_0_r.
  - rewrite IH, app_assoc. do 2 f_equal. lia.
  - rewrite IH. do 2 f_equal. lia.
Qed.

Lemma walk_None k i : walk i (replicate k None) = [].
Proof. revert i. by induction k; intros; simpl. Qed.

Lemma map_replicate {A B} (f : A -> B) k x : map f (replicate k x) = replicate k (f x).
Proof. induction k; simpl; by f_equal. Qed.

Lemma dfs_nonempty t : forall d, dfs d t <> [].
Proof.
  induction t as [| |l IHl r IHr]; intros d; [done..|]. simpl. intros [E _]%app_nil.
  by apply IHl in E.
Qed.

Definition fits (ts : list (option Tree)) : Prop :=
  forall i t, ts !! i = Some (Some t) -> (i + height t <= 128)%nat.

(** The state of the builder is the information of the subtrees walked so far. *)
Definition tracks (b : TaprootBuilder) (ts : list (option Tree)) : Prop :=
  b = map (option_map info) ts /\ fits ts /\ (ts = [] \/ exists ts' t, ts = ts' ++ [Some t]).

Lemma fits_app ts o : fits (ts ++ [o]) <-> fits ts /\
  (forall t, o = Some t -> (length ts + height t <= 128)%nat).
Proof.
  unfold fits. split.
  - intros H. split.
    + intros i t Hi. apply H. rewrite lookup_app_l; [done|]. by apply lookup_lt_Some in Hi.
    + intros t ->. apply H. rewrite lookup_app_r by lia. by rewrite Nat.sub_diag.
  - intros [H1 H2] i t Hi. apply lookup_app_Some in Hi as [Hi|[Hl Hi]]; [by apply H1|].
    destruct (i - length ts)%nat as [|k] eqn:E; [|done]. injection Hi as ->.
    replace i with (length ts) by lia. by apply H2.
Qed.

Lemma fits_pad ts k : fits ts -> fits (ts ++ replicate k None).
Proof.
  intros H i t Hi. apply lookup_app_Some in Hi as [Hi|[_ Hi]]; [by apply H|].
  by apply lookup_replicate in Hi as [? _].
Qed.

(** Whatever [insert] answers, it does not panic, and a success records the new subtree at
    the end of the walk. *)
Lemma insert_tracks ts : forall t d b,
  b = map (option_map info) ts -> fits ts -> (d + height t <= 128)%nat ->
  match insert b (info t) d with
  | Val b' => exists ts', tracks b' ts' /\ walk 0 ts' = walk 0 ts ++ dfs d t
  | Throw _ => True
  | Crash => False
  end.
Proof.
  induction ts as [|o ts IH] using rev_ind; intros t d b -> Hf Hh.
  { rewrite insert_pad by (simpl; lia). exists (replicate d None ++ [Some t]).
    rewrite walk_app, walk_None, length_replicate. split; [|simpl; by rewrite app_nil_r].
    split; [|split; [|by right; eauto]].
    - rewrite map_app, map_replicate. simpl. by rewrite Nat.sub_0_r.
    - apply fits_app. split; [by apply (fits_pad [])|]. intros t' [= ->].
      by rewrite length_replicate. }
  destruct (Nat.lt_ge_cases (d + 1) (length (ts ++ [o]))) as [Hlt|Hge].
  { unfold insert. destruct (_ <? d)%nat; [done|].
    by rewrite length_map, (proj2 (Nat.ltb_lt _ _) Hlt). }
  rewrite length_app in Hge. simpl in Hge.
  apply fits_app in Hf as Hf'. destruct Hf' as [Hts Ho].
  destruct (Nat.eq_dec (length ts) d) as [E|E].
  - rewrite map_app. simpl. destruct o as [c|].
    + destruct d as [|d].
      { by destruct ts. }
      specialize (Ho c eq_refl). simpl option_map.
      erewrite insert_sibling;
        [|lia|by rewrite length_map|by apply combine_join; apply info_shallow; lia].
      specialize (IH (TNode c t) d _ eq_refl Hts). simpl height in IH. cbn [info] in IH.
      specialize (IH ltac:(lia)). destruct (insert _ _ _); [|done..].
      destruct IH as (ts' & Ht & Hw). exists ts'. split; [done|].
      rewrite Hw, walk_app, E. simpl. by rewrite app_nil_r, <- app_assoc.
    + rewrite insert_free by (rewrite ?length_map; lia).
      exists (ts ++ [Some t]). rewrite !walk_app, E. simpl. rewrite !app_nil_r.
      split; [|done]. split; [by rewrite map_app|]. split; [|by right; eauto].
      apply fits_app. split; [done|]. intros t' [= ->]. lia.
  - rewrite insert_pad by (rewrite ?length_map, ?length_app; simpl; lia).
    exists ((ts ++ [o]) ++ replicate (d - length (ts ++ [o])) None ++ [Some t]).
    rewrite !(walk_app (ts ++ [o])), (walk_app (replicate _ _)), walk_None, length_replicate. split.
    + split; [|split; [|right; eexists _, _; by rewrite app_assoc]].
      * by rewrite length_map, !map_app, map_replicate.
      * rewrite app_assoc. apply fits_app. split; [by apply fits_pad|]. intros t' [= ->].
        rewrite length_app, length_replicate, length_app. simpl. lia.
    + simpl. rewrite app_nil_r. do 2 f_equal. rewrite length_app. simpl. lia.
Qed.

Definition leaf_tree (l : TapLeaf) : Tree :=
  match l with Script s v => TLeaf s v | Hidden h => THidden h end.

Lemma add_op_insert b d l : add_op b (d, l) = insert b (info (leaf_tree l)) d.
Proof. by destruct l. Qed.

Lemma add_op_tracks b ts op : tracks b ts ->
  match add_op b op with
  | Val b' => exists ts', tracks b' ts' /\ walk 0 ts' = walk 0 ts ++ [op]
  | Throw _ => True
  | Crash => False
  end.
Proof.
  intros (Hb & Hf & _). destruct op as [d l]. rewrite add_op_insert.
  destruct (Nat.lt_ge_cases 128 d) as [Hd|Hd].
  - unfold insert, TAPROOT_CONTROL_MAX_NODE_COUNT. by rewrite (proj2 (Nat.ltb_lt _ _) Hd).
  - assert (height (leaf_tree l) = 0%nat /\ dfs d (leaf_tree l) = [(d, l)]) as [Hh Hw]
      by (by destruct l).
    pose proof (insert_tracks ts (leaf_tree l) d b Hb Hf ltac:(lia)) as H.
    destruct (insert _ _ _); [|done..]. by rewrite Hw in H.
Qed.

Lemma adds_tracks ops : forall b ts, tracks b ts ->
  match adds b ops with
  | Val b' => exists ts', tracks b' ts' /\ walk 0 ts' = walk 0 ts ++ ops
  | Throw _ => True
  | Crash => False
  end.
Proof.
  induction ops as [|op ops IH]; intros b ts Ht; simpl.
  - exists ts. by rewrite app_nil_r.
  - pose proof (add_op_tracks b ts op Ht) as H. destruct (add_op b op) as [b'| |]; simpl; [|done..].
    destruct H as (ts' & Ht' & Hw). specialize (IH b' ts' Ht').
    destruct (adds b' ops); [|done..]. destruct IH as (ts'' & ? & E).
    exists ts''. split; [done|]. by rewrite E, Hw, <- app_assoc.
Qed.

Lemma new_tracks : tracks builder_new [].
Proof. split; [done|]. split; [by intros i t|by left]. Qed.

Lemma adds_new_tracks ops b : adds builder_new ops = Val b ->
  exists ts, tracks b ts /\ walk 0 ts = ops.
Proof. intros E. pose proof (adds_tracks ops _ _ new_tracks) as H. by rewrite E in H. Qed.

Lemma tracks_one b ts : tracks b ts -> length b = 1%nat ->
  exists t, ts = [Some t] /\ (height t <= 128)%nat /\ b = [Some (info t)].
Proof.
  intros (-> & Hf & Hl) E. rewrite length_map in E. destruct Hl as [->|(ts' & t & ->)]; [done|].
  rewrite length_app in E. simpl in E. destruct ts'; [|simpl in *; lia].
  exists t. split; [done|]. split; [by apply (Hf 0%nat)|done].
Qed.

(** ** Properties *)

Lemma dfs_depth t : forall d, Forall (fun op => d <= fst op)%nat (dfs d t).
Proof.
  induction t as [| |l IHl r IHr]; intros d; simpl; [by repeat constructor..|].
  apply Forall_app. split; [specialize (IHl (S d))|specialize (IHr (S d))];
    eapply Forall_impl; try done; simpl; intros; lia.
Qed.

(** C13: the builder computes the tree of a depth-first walk.  Adding leaves and hidden
    nodes one by one ends in a finalizable builder exactly when they are the complete walk of
    a tree of height at most 128, whose information it then holds; it never panics; and if
    an addition fails, the additions so far start no walk of such a tree. *)
Theorem taproot_builder_exact (ops : list (nat * TapLeaf)) :
  (forall b, adds builder_new ops = Val b /\ is_finalizable b = true <->
     exists t, (height t <= 128)%nat /\ ops = dfs 0 t /\ b = [Some (info t)]) /\
  adds builder_new ops <> Crash /\
  (forall e, adds builder_new ops = Throw e ->
     forall t rest, (height t <= 128)%nat -> dfs 0 t <> ops ++ rest).
Proof.
  split; [|split].
  - intros b. split.
    + intros [E Hf]. apply andb_prop in Hf as [Hl _]. apply Nat.eqb_eq in Hl.
      destruct (adds_new_tracks ops b E) as (ts & Ht & Hw).
      destruct (tracks_one b ts Ht Hl) as (t & -> & Hh & Hb). exists t.
      split; [done|]. split; [|done]. by rewrite <- Hw; simpl; rewrite app_nil_r.
    + intros (t & Hh & -> & ->). by rewrite dfs_complete.
  - intros E. pose proof (adds_tracks ops _ _ new_tracks) as H. by rewrite E in H.
  - intros e E t rest Hh Et. pose proof (dfs_complete t Hh) as H.
    rewrite Et, adds_app, E in H. done.
Qed.

(** The builder's invariant.  After any successful additions the branch is empty only if
    nothing was added, its last entry is a node, it has at most 129 entries, converting it
    does not panic, and every leaf recorded at depth [i] carries a proof of at most
    [128 - i] hashes that leads from the leaf to its node. *)
Lemma taproot_builder_invariant (ops : list (nat * TapLeaf)) (b : TaprootBuilder)
    (Hops : adds builder_new ops = Val b) :
  (b = [] <-> ops = []) /\
  (b = [] \/ exists b' n, b = b' ++ [Some n]) /\
  (length b <= 129)%nat /\
  try_into_node_info b <> Crash /\
  forall i n l, b !! i = Some (Some n) -> l ∈ leaves n ->
    (i + length (merkle_branch l) <= 128)%nat /\
    fold_left from_node_hashes (merkle_branch l) (leaf_node_hash l) = nhash n.
Proof.
  destruct (adds_new_tracks ops b Hops) as (ts & Ht & Hw).
  assert (try_into_node_info b <> Crash) as Hc.
  { unfold try_into_node_info. destruct (Nat.eqb_spec (length b) 1) as [E|]; [|done].
    by destruct (tracks_one b ts Ht E) as (t & _ & _ & ->). }
  destruct Ht as (-> & Hf & Hl).
  assert (forall i n, map (option_map info) ts !! i = Some (Some n) ->
    exists t, ts !! i = Some (Some t) /\ n = info t) as Hn.
  { intros i n Hi. change (map ?f ts) with (f <$> ts) in Hi.
    apply list_lookup_fmap_Some in Hi as (o & Ho & Hi). destruct o as [t|]; [|done].
    exists t. split; [done|]. by injection Ho. }
  split; [|split; [|split; [|split]]]; [| | |done|].
  - destruct Hl as [->|(ts' & t & ->)]; [by subst|]. split.
    + rewrite map_app. by destruct (map _ ts').
    + intros ->. rewrite walk_app in Hw. simpl in Hw. rewrite app_nil_r in Hw.
      apply app_nil in Hw as [_ Hw]. by destruct (dfs_nonempty t (length ts') Hw).
  - destruct Hl as [->|(ts' & t & ->)]; [by left|]. right. rewrite map_app. eauto.
  - rewrite length_map. destruct Hl as [->|(ts' & t & ->)]; [simpl; lia|].
    rewrite length_app. simpl. specialize (Hf (length ts') t). 
    rewrite lookup_app_r, Nat.sub_diag in Hf by lia. specialize (Hf eq_refl). lia.
  - intros i n l Hi Hin. destruct (Hn i n Hi) as (t & Hts & ->). apply Hf in Hts.
    apply info_leaves in Hin as (s & v & El & Hp). split.
    + apply proof_of_height in Hp. lia.
    + unfold leaf_node_hash. rewrite El, info_hash. by apply proof_of_root.
Qed.

(** The order is not checked against the root: below a complete tree one more node is
    accepted, although no walk starts like that, and the builder cannot be finished. *)
Lemma builder_accepts_past_root (a b : TapLeaf) :
  let ops := [(0%nat, a); (1%nat, b)] in
  (exists br, adds builder_new ops = Val br) /\ forall t rest, dfs 0 t <> ops ++ rest.
Proof.
  split; [by destruct a, b; eexists|]. intros t rest E. destruct t as [| |l r]; [done..|].
  pose proof (dfs_depth l 1) as Hd. simpl in E. destruct (dfs 1 l) as [|op ops] eqn:El.
  - by apply dfs_nonempty in El.
  - injection E as -> _. apply Forall_cons_iff in Hd as [Hd _]. simpl in Hd. lia.
Qed.
