(* ===== verification/TapSpend.v ===== *)
(** * Spending a script tree: control blocks

    The script map of a tree, the control blocks taken from it, what a control block that
    verifies proves, and the encoding of control blocks. *)

From Stdlib Require Import ZArith Lia.
From coqutil Require Import Byte Word.LittleEndianList.
From stdpp Require Import base tactics option list numbers.
From S2P Require Import Prelude Io Encode HashEngine Sha256 Sha256t Taproot TapTree.

#[local] Open Scope Z_scope.
#[local] Opaque engine_input from_engine tag_engine hash_tag.

(** ** Script maps and control blocks *)

#[local] Instance leaf_version_compare_lawful : LawfulCompare leaf_version_compare.
Proof.
  split; intros [|v] [|w]; try done; simpl.
  - rewrite Z.compare_eq_iff. split; [by intros ->|by intros [= ->]].
  - apply Z.compare_antisym.
Qed.
#[local] Instance script_key_compare_lawful : LawfulCompare script_key_compare.
Proof.
  split; intros [s v] [s' v']; unfold script_key_compare; simpl.
  - rewrite then_cmp_Eq, !compare_eq_iff. naive_solver.
  - by rewrite then_cmp_opp, (compare_swap (cmp:=bytes_compare) s s'),
      (compare_swap (cmp:=leaf_version_compare) v v').
Qed.
#[local] Instance branch_compare_lawful : LawfulCompare branch_compare := list_compare_lawful _.

Section btree.
Context {K V : Type} (cmp : K -> K -> comparison) `{!LawfulCompare cmp}.

Lemma elem_of_set_insert x s y : y ∈ set_insert cmp x s <-> y = x \/ y ∈ s.
Proof.
  induction s as [|z s IH]; simpl; [by rewrite list_elem_of_singleton, elem_of_nil; tauto|].
  destruct (cmp x z) eqn:E; rewrite ?elem_of_cons, ?IH; [|tauto..].
  apply compare_eq_iff in E as ->. tauto.
Qed.

Lemma map_get_insert k k' v (m : list (K * V)) :
  map_get cmp k (map_insert cmp k' v m) = match cmp k k' with Eq => Some v | _ => map_get cmp k m end.
Proof.
  induction m as [|[k0 v0] m IH]; simpl; [done|].
  destruct (cmp k' k0) eqn:E; simpl.
  - apply compare_eq_iff in E as ->. by destruct (cmp k k0).
  - done.
  - destruct (cmp k k0) eqn:E'; [|by rewrite IH..].
    apply compare_eq_iff in E' as ->. rewrite (compare_swap k' k0), E. done.
Qed.
End btree.

(** What a leaf adds to the set of a key. *)
Definition collect (key : list byte * LeafVersion) (o : option (list (list (list byte))))
    (l : LeafNode) : option (list (list (list byte))) :=
  if decide (leaf l = Script (fst key) (snd key))
  then Some (set_insert branch_compare (merkle_branch l) (from_option id [] o)) else o.

Lemma add_to_script_map_get key m l :
  map_get script_key_compare key (add_to_script_map m l) =
  collect key (map_get script_key_compare key m) l.
Proof.
  unfold add_to_script_map, collect. destruct (leaf l) as [s v|h]; [|by destruct (decide _)].
  assert (forall set, map_get script_key_compare key (map_insert script_key_compare (s, v) set m) =
    if decide (Script s v = Script (fst key) (snd key)) then Some set
    else map_get script_key_compare key m) as Hg.
  { intros set. rewrite map_get_insert by apply _. destruct key as [s' v']. simpl.
    destruct (decide _) as [[= -> ->]|Hn].
    - by rewrite (proj2 (compare_eq_iff (s', v') (s', v')) eq_refl).
    - destruct (script_key_compare (s', v') (s, v)) eqn:E; [|done..].
      apply compare_eq_iff in E as [= -> ->]. done. }
  destruct (map_get _ (s, v) m) as [set|] eqn:Em; rewrite Hg; destruct (decide _) as [[= -> ->]|];
    try done; destruct key; simpl in Em; by rewrite Em.
Qed.

Lemma script_map_get key ls : forall m,
  map_get script_key_compare key (fold_left add_to_script_map ls m) =
  fold_left (collect key) ls (map_get script_key_compare key m).
Proof.
  induction ls as [|l ls IH]; intros m; simpl; [done|]. by rewrite IH, add_to_script_map_get.
Qed.

Lemma collect_spec key ls : forall o,
  let occurs b := exists l, l ∈ ls /\ leaf l = Script (fst key) (snd key) /\ merkle_branch l = b in
  match fold_left (collect key) ls o with
  | Some set => forall b, b ∈ set <-> occurs b \/ b ∈ from_option id [] o
  | None => o = None /\ forall b, ~ occurs b
  end.
Proof.
  induction ls as [|l ls IH]; intros o occurs; simpl.
  { subst occurs. destruct o as [set|]; [|split; [done|by intros b (l & Hl%not_elem_of_nil & _)]].
    intros b. split; [by right|]. by intros [(l & Hl%not_elem_of_nil & _)|]. }
  specialize (IH (collect key o l)). cbv zeta in IH.
  assert (forall b, b ∈ from_option id [] (collect key o l) <->
    (leaf l = Script (fst key) (snd key) /\ merkle_branch l = b) \/ b ∈ from_option id [] o) as Hc.
  { intros b. unfold collect. destruct (decide _) as [E|E]; [|naive_solver]. cbn [from_option]. unfold id at 1.
    rewrite elem_of_set_insert by apply _. naive_solver. }
  assert (forall b, occurs b <-> (leaf l = Script (fst key) (snd key) /\ merkle_branch l = b) \/
    exists l, l ∈ ls /\ leaf l = Script (fst key) (snd key) /\ merkle_branch l = b) as Ho.
  { intros b. subst occurs. simpl. setoid_rewrite elem_of_cons. naive_solver. }
  destruct (fold_left (collect key) ls (collect key o l)) as [set|].
  - intros b. rewrite IH, Hc, Ho. tauto.
  - destruct IH as [E IH]. unfold collect in E. destruct (decide _) as [|Hl]; [done|].
    split; [done|]. intros b. rewrite Ho. by intros [[? _]|?%IH].
Qed.

Lemma collect_nonempty key ls : forall o set, fold_left (collect key) ls o = Some set ->
  o <> Some [] -> set <> [].
Proof.
  induction ls as [|l ls IH]; intros o set; simpl; [by intros -> ? ->|].
  intros E Ho. apply (IH _ _ E). unfold collect. destruct (decide _); [|done].
  intros [= E']. destruct (from_option id [] o); simpl in E'; [done|].
  by destruct (branch_compare _ _).
Qed.

Lemma min_fold {A} (f : A -> nat) l : forall x,
  let m := fold_left (fun m y => match f m ?= f y with Gt => y | _ => m end)%nat l x in
  m ∈ x :: l /\ forall y, y ∈ x :: l -> (f m <= f y)%nat.
Proof.
  induction l as [|z l IH]; intros x; cbn [fold_left].
  - split; [by apply list_elem_of_singleton|]. by intros y ->%list_elem_of_singleton.
  - destruct (Nat.compare_spec (f x) (f z)) as [E|E|E]; [specialize (IH x)|specialize (IH x)|specialize (IH z)];
      cbv zeta in IH; destruct IH as [H1 H2];
      (split; [rewrite !elem_of_cons in *; tauto|]); intros y Hy.
    + apply elem_of_cons in Hy as [->|[->|Hy]%elem_of_cons];
        [apply H2; constructor|specialize (H2 x ltac:(constructor)); lia|apply H2; by constructor].
    + apply elem_of_cons in Hy as [->|[->|Hy]%elem_of_cons];
        [apply H2; constructor|specialize (H2 x ltac:(constructor)); lia|apply H2; by constructor].
    + apply elem_of_cons in Hy as [->|Hy]; [specialize (H2 z ltac:(constructor)); lia|by apply H2].
Qed.

(** What [control_block] finds for a script: the shortest of its proofs. *)
Lemma min_by_branch (set : list (list (list byte))) : set <> [] ->
  exists m, min_by (fun x y => length x ?= length y)%nat set = Some m /\ m ∈ set /\
    forall p, p ∈ set -> (length m <= length p)%nat.
Proof.
  destruct set as [|x l]; [done|]. intros _. destruct (min_fold length l x) as [H1 H2].
  eexists. split; [done|]. by split.
Qed.

(** ** The hashes of BIP-341 *)

Definition sorted_pair (a b : list byte) : list byte := if hash_lt a b then a ++ b else b ++ a.

(** The messages under SHA-256. *)
Definition leaf_msg (s : list byte) (v : LeafVersion) : list byte :=
  tagged_msg TapLeafTag (bytes_of u8 (leaf_version_to_consensus v) ++ bytes_of byte_vec s).
Definition branch_msg (a b : list byte) : list byte := tagged_msg TapBranchTag (sorted_pair a b).

#[local] Opaque Spec.sha256 tagged_hash.

Definition script_fits (s : list byte) : Prop := Z.of_nat (length s) < 2 ^ 60.

Lemma byte_vec_length s : script_fits s -> Z.of_nat (length (bytes_of byte_vec s)) <= 9 + Z.of_nat (length s).
Proof.
  unfold script_fits. intros Hs. unfold bytes_of, byte_vec, consensus_encode_with_size. simpl.
  rewrite length_app. unfold varint_encode.
  repeat case_match; simpl; rewrite ?length_le_split; lia.
Qed.

Lemma leaf_hash_msg s v : script_fits s -> leaf_hash_from_script s v = Spec.sha256 (leaf_msg s v).
Proof.
  intros Hs. unfold leaf_hash_from_script, leaf_msg. rewrite <- tagged_hash_msg.
  apply tagged_represents.
  - rewrite !app_assoc. do 2 apply engine_input_represents. by apply tag_engine_represents.
  - pose proof (byte_vec_length s Hs). unfold script_fits in Hs. rewrite length_app.
    unfold bytes_of at 1. simpl. lia.
Qed.

Lemma from_node_hashes_msg a b : length a = 32%nat -> length b = 32%nat ->
  from_node_hashes a b = Spec.sha256 (branch_msg a b).
Proof.
  intros Ha Hb. unfold from_node_hashes, combine_node_hashes, branch_msg, sorted_pair.
  cbn [fst]. rewrite <- tagged_hash_msg. apply tagged_represents.
  - destruct (hash_lt a b); rewrite !app_assoc; do 2 apply engine_input_represents;
      by apply tag_engine_represents.
  - destruct (hash_lt a b); rewrite length_app, Ha, Hb; done.
Qed.

Lemma from_node_hashes_length a b : length (from_node_hashes a b) = 32%nat.
Proof. apply sha256t_length. Qed.
Lemma leaf_hash_length s v : length (leaf_hash_from_script s v) = 32%nat.
Proof. apply sha256t_length. Qed.

(** ** A proof binds its script *)

Definition leaf_version_wf (v : LeafVersion) : Prop :=
  match v with
  | TapScript => True
  | Future n => in_u 8 n /\ Z.land n 0xFE = n /\ n <> TAPROOT_LEAF_TAPSCRIPT /\ n <> TAPROOT_ANNEX_PREFIX
  end.

Fixpoint tree_wf (t : Tree) : Prop :=
  match t with
  | TLeaf s v => script_fits s /\ leaf_version_wf v
  | THidden h => length h = 32%nat
  | TNode l r => tree_wf l /\ tree_wf r
  end.

(** The messages hashed for a tree, and along a merkle proof. *)
Fixpoint tree_msgs (t : Tree) : list (list byte) :=
  match t with
  | TLeaf s v => [leaf_msg s v]
  | THidden _ => []
  | TNode l r => branch_msg (root l) (root r) :: tree_msgs l ++ tree_msgs r
  end.
Fixpoint path_msgs (h : list byte) (p : list (list byte)) : list (list byte) :=
  match p with
  | [] => []
  | x :: p => branch_msg h x :: path_msgs (from_node_hashes h x) p
  end.

(** [q] leads from a hidden node up to the root. *)
Inductive hidden_at : Tree -> list byte -> list (list byte) -> Prop :=
| hidden_here h : hidden_at (THidden h) h []
| hidden_left l r h q : hidden_at l h q -> hidden_at (TNode l r) h (q ++ [root r])
| hidden_right l r h q : hidden_at r h q -> hidden_at (TNode l r) h (q ++ [root l]).

Lemma path_msgs_snoc p x : forall h,
  path_msgs h (p ++ [x]) = path_msgs h p ++ [branch_msg (fold_left from_node_hashes p h) x].
Proof. induction p as [|y p IH]; intros h; simpl; [done|]. by rewrite IH. Qed.

Lemma root_length t : tree_wf t -> length (root t) = 32%nat.
Proof. destruct t; simpl; [intros _; apply leaf_hash_length|done|intros _; apply from_node_hashes_length]. Qed.

Lemma fold_length p h : length h = 32%nat -> length (fold_left from_node_hashes p h) = 32%nat.
Proof.
  revert h. induction p as [|x p IH]; intros h Hh; simpl; [done|].
  apply IH, from_node_hashes_length.
Qed.

Lemma tags_differ : Spec.sha256 TapLeafTag <> Spec.sha256 TapBranchTag.
Proof. by vm_compute. Qed.

Lemma leaf_branch_msg s v a b : leaf_msg s v <> branch_msg a b.
Proof.
  unfold leaf_msg, branch_msg, tagged_msg. intros E.
  apply app_inj_1 in E as [E _]; [by apply tags_differ|]. by rewrite !sha256_length.
Qed.

Lemma branch_msg_inj a b c d : length a = 32%nat -> length b = 32%nat ->
  length c = 32%nat -> length d = 32%nat -> branch_msg a b = branch_msg c d ->
  (a = c /\ b = d) \/ (a = d /\ b = c).
Proof.
  unfold branch_msg, tagged_msg, sorted_pair. intros ???? E. do 2 apply app_inv_head in E.
  destruct (hash_lt a b), (hash_lt c d); apply app_inj_1 in E as [-> ->]; auto; congruence.
Qed.

Lemma leaf_version_range v : leaf_version_wf v -> in_u 8 (leaf_version_to_consensus v).
Proof. destruct v; simpl; [done|tauto]. Qed.

Lemma leaf_version_inj v w : leaf_version_wf v -> leaf_version_wf w ->
  leaf_version_to_consensus v = leaf_version_to_consensus w -> v = w.
Proof.
  destruct v, w; simpl; unfold TAPROOT_LEAF_TAPSCRIPT; intros H1 H2 E; [done| | |congruence];
    exfalso; subst; intuition.
Qed.

Lemma leaf_msg_inj s v s' v' : script_fits s -> script_fits s' -> leaf_version_wf v ->
  leaf_version_wf v' -> leaf_msg s v = leaf_msg s' v' -> s = s' /\ v = v'.
Proof.
  unfold leaf_msg, tagged_msg. intros Hs Hs' Hv Hv' E. do 2 apply app_inv_head in E.
  apply (bytes_of_prefix_free u8 (in_u 8)) in E as [E1 E2]; [|by apply leaf_version_range..].
  split; [|by apply leaf_version_inj]. unfold script_fits in *.
  apply (bytes_of_prefix_free byte_vec byte_vec_wf s s' [] []); [unfold byte_vec_wf; lia..|].
  by rewrite !app_nil_r.
Qed.

(** A path that ends in the root of a tree follows a proof of the tree, enters a hidden part,
    or exhibits a collision. *)
Definition opens (t : Tree) (s : list byte) (v : LeafVersion) (p : list (list byte)) : Prop :=
  proof_of t s v p \/
  exists p0 q h, p = p0 ++ q /\ hidden_at t h q /\
    fold_left from_node_hashes p0 (leaf_hash_from_script s v) = h.

Lemma opens_left l r s v p : opens l s v p -> opens (TNode l r) s v (p ++ [root r]).
Proof.
  intros [H|(p0 & q & h & -> & Hq & Hh)]; [by left; constructor|]. right.
  exists p0, (q ++ [root r]), h. rewrite app_assoc. split; [done|]. split; [by constructor|done].
Qed.
Lemma opens_right l r s v p : opens r s v p -> opens (TNode l r) s v (p ++ [root l]).
Proof.
  intros [H|(p0 & q & h & -> & Hq & Hh)]; [by left; constructor|]. right.
  exists p0, (q ++ [root l]), h. rewrite app_assoc. split; [done|]. split; [by constructor|done].
Qed.

Section binding.
Context (s : list byte) (v : LeafVersion) (Hs : script_fits s) (Hv : leaf_version_wf v).
#[local] Abbreviation leafh := (leaf_hash_from_script s v).
#[local] Abbreviation msgs p := (leaf_msg s v :: path_msgs leafh p).

Lemma path_last p x : Forall (fun h => length h = 32%nat) (p ++ [x]) ->
  fold_left from_node_hashes (p ++ [x]) leafh =
    Spec.sha256 (branch_msg (fold_left from_node_hashes p leafh) x) /\
  branch_msg (fold_left from_node_hashes p leafh) x ∈ msgs (p ++ [x]).
Proof.
  intros [_ Hx]%Forall_app. apply Forall_cons_iff in Hx as [Hx _]. split.
  - rewrite fold_left_app. simpl. apply from_node_hashes_msg; [|done].
    apply fold_length, leaf_hash_length.
  - right. rewrite path_msgs_snoc. apply elem_of_app. right. by apply list_elem_of_singleton.
Qed.

Lemma path_binds t : forall p, tree_wf t -> Forall (fun h => length h = 32%nat) p ->
  fold_left from_node_hashes p leafh = root t ->
  opens t s v p \/ sha256_collision (msgs p) (tree_msgs t).
Proof.
  induction t as [s' v'|h|l IHl r IHr]; intros p Hw Hp E.
  - destruct p as [|x p _] using rev_ind.
    + simpl in E, Hw. rewrite !leaf_hash_msg in E by tauto.
      destruct (sha256_eq (msgs []) [leaf_msg s' v'] _ _ E) as [Em|Hc]; [constructor..| |by right].
      apply leaf_msg_inj in Em as [-> ->]; [|tauto..]. left. left. constructor.
    + right. destruct (path_last p x Hp) as [Ep Hin]. rewrite Ep in E. simpl in E, Hw.
      rewrite (leaf_hash_msg s') in E by tauto.
      edestruct sha256_eq as [Em|Hc]; [exact E|exact Hin|apply list_elem_of_here| |exact Hc].
      destruct (leaf_branch_msg _ _ _ _ (eq_sym Em)).
  - left. right. exists p, [], h. rewrite app_nil_r. split; [done|]. split; [constructor|done].
  - destruct Hw as [Hl Hr]. pose proof (root_length l Hl). pose proof (root_length r Hr).
    simpl root in E. rewrite (from_node_hashes_msg (root l)) in E by done.
    destruct p as [|x p _] using rev_ind.
    + right. simpl in E. rewrite leaf_hash_msg in E by done.
      edestruct sha256_eq as [Em|Hc]; [exact E|apply list_elem_of_here|apply list_elem_of_here| |exact Hc].
      destruct (leaf_branch_msg _ _ _ _ Em).
    + destruct (path_last p x Hp) as [Ep Hin]. rewrite Ep in E.
      edestruct (sha256_eq (msgs (p ++ [x])) (tree_msgs (TNode l r))) as [Em|Hc];
        [exact E|exact Hin|apply list_elem_of_here| |by right].
      apply Forall_app in Hp as [Hp Hx]. apply Forall_cons_iff in Hx as [Hx _].
      apply branch_msg_inj in Em; [|by apply fold_length, leaf_hash_length|done..].
      assert (msgs p ⊆ msgs (p ++ [x])) as Hsub by (rewrite path_msgs_snoc; sublist).
      destruct Em as [[E1 ->]|[E1 ->]].
      * destruct (IHl p Hl Hp E1) as [Ho|Hc]; [left; by apply opens_left|right].
        eapply sha256_collision_weaken; [exact Hc|done|simpl; sublist].
      * destruct (IHr p Hr Hp E1) as [Ho|Hc]; [left; by apply opens_right|right].
        eapply sha256_collision_weaken; [exact Hc|done|simpl; sublist].
Qed.
End binding.

(** ** Properties *)

Section spending.
Context {S : Secp256k1} {HS : Secp256k1Laws S} {bm : BuildMode}.

(** What [tap_tweak] returns passes [tweak_add_check]. *)
Lemma tap_tweak_ok key r q par : tap_tweak key r = Ret (q, par) ->
  exists t, to_scalar (from_key_and_tweak key r) = Ret t /\ add_tweak key t = Ok (q, par).
Proof.
  unfold tap_tweak. destruct (to_scalar _) as [t|]; [|done]. rewrite bind_Ret.
  destruct (add_tweak key t) as [[q' par']|] eqn:E; [|done].
  destruct (debug_assert _); [|done]. rewrite bind_Ret. intros [= -> ->]. eauto.
Qed.

Lemma from_node_info_ok key n si : from_node_info key n = Ret si ->
  tap_tweak key (Some (nhash n)) = Ret (output_key si, output_key_parity si) /\
  internal_key si = key /\ merkle_root si = Some (nhash n) /\
  script_map si = fold_left add_to_script_map (leaves n) [].
Proof.
  unfold from_node_info, new_key_spend. destruct (tap_tweak key _) as [[q par]|]; [|done].
  by intros [= <-].
Qed.

(** C14: control blocks.  From the spending information of a tree, a script with a version
    that occurs in the tree gets a control block with a shortest of its merkle proofs, and
    this block verifies against the output key; any other script gets none.  The
    [expect] on the set of proofs does not fail. *)
Theorem control_block_correct (t : Tree) (key : XOnlyPublicKey) (si : TaprootSpendInfo)
    (s : list byte) (v : LeafVersion) (Hsi : from_node_info key (info t) = Ret si) :
  match control_block si (s, v) with
  | Ret (Some cb) =>
      leaf_version cb = v /\ proof_of t s v (cb_merkle_branch cb) /\
      (forall p, proof_of t s v p -> (length (cb_merkle_branch cb) <= length p)%nat) /\
      verify_taproot_commitment cb (output_key si) s = Ret true
  | Ret None => forall p, ~ proof_of t s v p
  | Panic => False
  end.
Proof.
  apply from_node_info_ok in Hsi as (Ht & Hk & _ & Hm). unfold control_block.
  rewrite Hm, script_map_get. simpl (map_get _ _ []).
  pose proof (collect_spec (s, v) (leaves (info t)) None) as Hc. cbv zeta in Hc.
  assert (forall p, (exists l, l ∈ leaves (info t) /\ leaf l = Script s v /\ merkle_branch l = p) <->
    proof_of t s v p) as Ho.
  { intros p. split.
    - intros (l & Hl & E & <-). apply info_leaves in Hl as (s' & v' & E' & Hp).
      rewrite E in E'. by injection E' as -> ->.
    - intros Hp. exists (mkLeafNode (Script s v) p). split; [|done]. apply info_leaves. eauto. }
  destruct (fold_left _ _ None) as [set|] eqn:Eset.
  - assert (set <> []) as Hne.
    { by apply (collect_nonempty (s, v) (leaves (info t)) None). }
    destruct (min_by_branch set Hne) as (m & -> & Hin & Hmin).
    assert (forall p, p ∈ set <-> proof_of t s v p) as Hset.
    { intros p. rewrite Hc, Ho. simpl. rewrite elem_of_nil. tauto. }
    simpl. split; [done|]. split; [by apply Hset|]. split; [by intros p ?%Hset; apply Hmin|].
    unfold verify_taproot_commitment. simpl.
    rewrite (proof_of_root t) by (by apply Hset). rewrite info_hash in Ht.
    apply tap_tweak_ok in Ht as (tw & Hs & Ha). rewrite Hk, Hs, bind_Ret. f_equal.
    by apply tweak_add_check_iff.
  - destruct Hc as [_ Hc]. intros p Hp. by apply (Hc p), Ho.
Qed.

Definition tweak_msg (key : XOnlyPublicKey) (r : list byte) : list byte :=
  tagged_msg TapTweakTag (key_serialize key ++ r).

Lemma from_key_and_tweak_msg key r : length r = 32%nat ->
  from_key_and_tweak key (Some r) = Spec.sha256 (tweak_msg key r).
Proof.
  intros Hr. unfold from_key_and_tweak, tweak_msg. rewrite <- tagged_hash_msg.
  apply tagged_represents.
  - rewrite !app_assoc. do 2 apply engine_input_represents. by apply tag_engine_represents.
  - rewrite length_app, key_serialize_length, Hr. done.
Qed.

Lemma tweak_msg_inj key r r' : tweak_msg key r = tweak_msg key r' -> r = r'.
Proof. unfold tweak_msg, tagged_msg. intros E. by do 3 apply app_inv_head in E. Qed.

(** C15: a control block binds.  If a control block that carries the internal key and the output
    key's parity of a tree verifies against the output key of the tree, its branch is a merkle
    proof of the script in the tree or leads through a hidden part of it, or two different messages
    among those hashed for the block and for the tree have one SHA-256 hash.  (A block with another
    internal key is outside the claim: that none verifies rests on the discrete logarithm.) *)
Theorem taproot_commitment_binding (t : Tree) (si : TaprootSpendInfo) (cb : ControlBlock)
    (s : list byte)
    (Ht : tree_wf t) (Hs : script_fits s) (Hv : leaf_version_wf (leaf_version cb))
    (Hb : Forall (fun h => length h = 32%nat) (cb_merkle_branch cb))
    (Hsi : from_node_info (cb_internal_key cb) (info t) = Ret si)
    (Hpar : cb_parity cb = output_key_parity si)
    (Hok : verify_taproot_commitment cb (output_key si) s = Ret true) :
  let leafh := leaf_hash_from_script s (leaf_version cb) in
  let top := fold_left from_node_hashes (cb_merkle_branch cb) leafh in
  opens t s (leaf_version cb) (cb_merkle_branch cb) \/
  sha256_collision
    (tweak_msg (cb_internal_key cb) top :: leaf_msg s (leaf_version cb) ::
       path_msgs leafh (cb_merkle_branch cb))
    (tweak_msg (cb_internal_key cb) (root t) :: tree_msgs t).
Proof.
  intros leafh top. unfold verify_taproot_commitment in Hok.
  apply from_node_info_ok in Hsi as (Htw & _). rewrite info_hash in Htw.
  apply tap_tweak_ok in Htw as (tw & Htw & Hadd). fold leafh top in Hok.
  unfold node_hash_from_script in Hok. fold leafh in Hok. fold top in Hok.
  destruct (to_scalar (from_key_and_tweak _ (Some top))) as [tw'|] eqn:Etop; [|done].
  rewrite bind_Ret in Hok. injection Hok as Hok. apply tweak_add_check_iff in Hok.
  rewrite Hpar in Hok. rewrite (add_tweak_inj _ _ _ _ Hok Hadd) in Etop.
  unfold to_scalar in Etop, Htw.
  destruct (scalar_from_be_bytes (from_key_and_tweak _ (Some top))) as [x|] eqn:E1; [|done].
  destruct (scalar_from_be_bytes (from_key_and_tweak _ (Some (root t)))) as [y|] eqn:E2; [|done].
  injection Etop as ->. injection Htw as ->. pose proof (scalar_inj _ _ _ E1 E2) as E.
  rewrite !from_key_and_tweak_msg in E
    by first [by apply root_length|apply fold_length, leaf_hash_length].
  edestruct sha256_eq as [Em|Hc];
    [exact E|apply list_elem_of_here|apply list_elem_of_here| |by right; exact Hc].
  apply tweak_msg_inj in Em.
  destruct (path_binds s (leaf_version cb) Hs Hv t _ Ht Hb Em) as [Ho|Hc]; [by left|right].
  eapply sha256_collision_weaken; [exact Hc|sublist..].
Qed.
End spending.

(** ** The encoding of control blocks *)

Lemma even_land v : Z.land v 0xFE = v -> Z.land v 1 = 0.
Proof. intros <-. rewrite <- Z.land_assoc. apply Z.land_0_r. Qed.

Lemma byte_split b : in_u 8 b -> Z.lor (Z.land b 1) (Z.land b 0xFE) = b.
Proof.
  intros Hb. rewrite <- Z.land_lor_distr_r. change (Z.lor 1 0xFE) with (Z.ones 8).
  rewrite Z.land_ones by done. by apply Z.mod_small.
Qed.

Lemma land_1 b : Z.land b 1 = 0 \/ Z.land b 1 = 1.
Proof.
  pose proof (Z.land_ones b 1 ltac:(lia)) as E. change (Z.ones 1) with 1 in E.
  pose proof (Z.mod_pos_bound b (2 ^ 1) ltac:(lia)). lia.
Qed.

Lemma leaf_version_even v : leaf_version_wf v ->
  Z.land (leaf_version_to_consensus v) 0xFE = leaf_version_to_consensus v.
Proof. destruct v; simpl; [done|tauto]. Qed.

Section codec.
Context {S : Secp256k1}.

Lemma leaf_version_decode v lv : in_u 8 v ->
  leaf_version_from_consensus v = Val lv <-> leaf_version_wf lv /\ leaf_version_to_consensus lv = v.
Proof.
  intros Hv. unfold leaf_version_from_consensus, future_from_consensus.
  destruct (Z.eqb_spec v TAPROOT_LEAF_TAPSCRIPT) as [->|H1].
  { destruct lv as [|w]; simpl; [done|]. split; [done|]. intros [Hw E]. tauto. }
  destruct (Z.eqb_spec v TAPROOT_ANNEX_PREFIX) as [->|H2].
  { destruct lv as [|w]; simpl; (split; [done|]); intros [Hw E]; [done|tauto]. }
  destruct (Z.eqb_spec (Z.land v 0xFE) v) as [H3|H3]; simpl.
  - destruct lv as [|w]; simpl; (split; [try done|]); [by intros [_ E]|by intros [= ->]|].
    by intros [_ ->].
  - destruct lv as [|w]; simpl; (split; [done|]); [by intros [_ E]|]. intros [Hw ->]. tauto.
Qed.

Lemma leaf_version_no_panic v : leaf_version_from_consensus v <> Crash.
Proof.
  unfold leaf_version_from_consensus, future_from_consensus.
  destruct (v =? TAPROOT_LEAF_TAPSCRIPT); [done|]. destruct (v =? TAPROOT_ANNEX_PREFIX); [done|].
  by destruct (negb _).
Qed.
End codec.

Lemma concat_fold (l : list (list byte)) : forall acc,
  fold_left (fun w hash => w ++ hash) l acc = acc ++ concat l.
Proof.
  induction l as [|x l IH]; intros acc; simpl; [by rewrite app_nil_r|]. by rewrite IH, app_assoc.
Qed.

Lemma concat_length_const n (l : list (list byte)) : Forall (fun h => length h = n) l ->
  length (concat l) = (length l * n)%nat.
Proof. induction 1 as [|x l Hx _ IH]; simpl; [done|]. by rewrite length_app, IH, Hx. Qed.

Lemma chunks_concat n l : (0 < n)%nat -> Forall (fun h => length h = n) l ->
  chunks_exact n (concat l) = l.
Proof.
  intros Hn Hl. unfold chunks_exact. rewrite (concat_length_const n), Nat.div_mul by (done || lia).
  induction Hl as [|x l Hx _ IH]; simpl; [done|].
  rewrite take_app_length', drop_app_length' by done. by rewrite IH.
Qed.

Lemma concat_chunks n k : forall l, length l = (k * n)%nat ->
  concat (chunks k n l) = l /\ Forall (fun h => length h = n) (chunks k n l).
Proof.
  induction k as [|k IH]; intros l Hl; simpl in *; [by destruct l|].
  destruct (IH (drop n l)) as [E Hf]; [rewrite length_drop; lia|]. split.
  - by rewrite E, take_drop.
  - constructor; [rewrite length_take; lia|done].
Qed.

Section codec2.
Context {S : Secp256k1} {HS : Secp256k1Laws S}.

Definition control_block_wf (cb : ControlBlock) : Prop :=
  leaf_version_wf (leaf_version cb) /\ (length (cb_merkle_branch cb) <= 128)%nat /\
  Forall (fun h => length h = 32%nat) (cb_merkle_branch cb).

Lemma branch_decode_iff sl p :
  branch_decode sl = Ok p <->
  sl = concat p /\ (length p <= 128)%nat /\ Forall (fun h => length h = 32%nat) p.
Proof.
  unfold branch_decode, TAPROOT_CONTROL_NODE_SIZE, TAPROOT_CONTROL_MAX_NODE_COUNT. split.
  - destruct (Nat.eqb_spec (length sl mod 32) 0) as [E|]; [|done]. cbn [negb].
    destruct (Nat.ltb_spec (32 * 128) (length sl)); [done|]. intros [= <-].
    assert (length sl = length sl / 32 * 32)%nat as Hl
      by (pose proof (Nat.div_mod (length sl) 32 ltac:(lia)); lia).
    destruct (concat_chunks 32 (length sl / 32) sl Hl) as [Ec Hf]. unfold chunks_exact.
    rewrite Ec, chunks_length. split; [done|]. split; [lia|done].
  - intros (-> & Hl & Hf). rewrite (concat_length_const 32), Nat.Div0.mod_mul by done. cbn [Nat.eqb negb].
    rewrite (proj2 (Nat.ltb_ge _ _)) by lia. by rewrite chunks_concat by (lia || done).
Qed.

Lemma control_block_serialize_eq cb : control_block_serialize cb =
  byte.of_Z (Z.lor (i32_from_parity (cb_parity cb)) (leaf_version_to_consensus (leaf_version cb)))
  :: key_serialize (cb_internal_key cb) ++ concat (cb_merkle_branch cb).
Proof.
  unfold control_block_serialize, control_block_encode, branch_encode. cbn [fst].
  rewrite concat_fold. by destruct (cb_parity cb).
Qed.

Lemma control_block_serialize_length cb : control_block_wf cb ->
  length (control_block_serialize cb) = control_block_size cb.
Proof.
  intros (_ & _ & Hf). rewrite control_block_serialize_eq. simpl.
  rewrite length_app, key_serialize_length, (concat_length_const 32) by done.
  unfold control_block_size, TAPROOT_CONTROL_BASE_SIZE, TAPROOT_CONTROL_NODE_SIZE. lia.
Qed.

(** The two parts of the first byte. *)
Lemma first_byte p v : leaf_version_wf v ->
  let b := byte.unsigned (byte.of_Z (Z.lor (i32_from_parity p) (leaf_version_to_consensus v))) in
  Z.land b 1 = i32_from_parity p /\ Z.land b 0xFE = leaf_version_to_consensus v.
Proof.
  intros Hv b. pose proof (leaf_version_range v Hv) as Hr. pose proof (leaf_version_even v Hv) as He.
  assert (b = Z.lor (i32_from_parity p) (leaf_version_to_consensus v)) as ->.
  { subst b. rewrite byte.unsigned_of_Z. apply (wrap_small 8), lor_in_u; [done| |done].
    by destruct p. }
  rewrite !Z.land_lor_distr_l, (even_land _ He), He, Z.lor_0_r. by destruct p.
Qed.

Lemma control_block_decode_split b kb rest : length kb = 32%nat ->
  control_block_decode (b :: kb ++ rest) =
  if negb (length rest mod 32 =? 0)%nat then Throw (InvalidControlBlockSize (33 + length rest))
  else
    lv ← leaf_version_from_consensus (Z.land (byte.unsigned b) TAPROOT_LEAF_MASK);
    key ← of_result (map_err InvalidInternalKey (key_from_slice kb));
    branch ← of_result (branch_decode rest);
    Val (mkControlBlock lv (if Z.land (byte.unsigned b) 1 =? 0 then Even else Odd) key branch).
Proof.
  intros Hk. unfold control_block_decode, TAPROOT_CONTROL_BASE_SIZE, TAPROOT_CONTROL_NODE_SIZE.
  simpl length. rewrite length_app, Hk. rewrite (proj2 (Nat.ltb_ge _ _)) by lia.
  replace (Datatypes.S (32 + length rest) - 33)%nat with (length rest) by lia. cbn [orb].
  destruct (negb _); [done|]. change (index (b :: kb ++ rest) 0) with (Ret b).
  cbn [of_run]. rewrite bind_Val. cbv zeta. change (drop 1 (b :: kb ++ rest)) with (kb ++ rest).
  change (drop 33 (b :: kb ++ rest)) with (drop 32 (kb ++ rest)).
  by rewrite take_app_length', drop_app_length' by done.
Qed.

Lemma control_block_decode_serialize cb : control_block_wf cb ->
  control_block_decode (control_block_serialize cb) = Val cb.
Proof.
  intros (Hv & Hl & Hf). rewrite control_block_serialize_eq.
  rewrite control_block_decode_split by apply key_serialize_length.
  rewrite (concat_length_const 32), Nat.Div0.mod_mul by done. cbn [Nat.eqb negb].
  destruct (first_byte (cb_parity cb) _ Hv) as [-> H2]. unfold TAPROOT_LEAF_MASK. rewrite H2.
  rewrite (proj2 (leaf_version_decode _ (leaf_version cb) (leaf_version_range _ Hv))) by done.
  rewrite key_from_serialize, (proj2 (branch_decode_iff _ (cb_merkle_branch cb))) by done.
  destruct cb as [lv [] key br]; done.
Qed.

Lemma control_block_decode_Val bs cb : control_block_decode bs = Val cb ->
  bs = control_block_serialize cb /\ control_block_wf cb.
Proof.
  intros E. assert (33 <= length bs)%nat as Hlen.
  { unfold control_block_decode, TAPROOT_CONTROL_BASE_SIZE in E.
    destruct (Nat.ltb_spec (length bs) 33); [done|lia]. }
  destruct bs as [|b bs]; [simpl in Hlen; lia|]. simpl in Hlen.
  assert (length (take 32 bs) = 32%nat) as Hk by (rewrite length_take; lia).
  rewrite <- (take_drop 32 bs), control_block_decode_split in E by done.
  destruct (negb _); [done|].
  apply comp_bind_Val in E as (lv & Elv & E). apply comp_bind_Val in E as (key & Ek & E).
  apply comp_bind_Val in E as (br & Ebr & E). injection E as <-.
  pose proof (byte.unsigned_range b) as Hb.
  assert (in_u 8 (Z.land (byte.unsigned b) TAPROOT_LEAF_MASK)) as Hm.
  { by apply land_in_u. }
  apply leaf_version_decode in Elv as [Hv Elv]; [|done].
  destruct (key_from_slice (take 32 bs)) as [k|] eqn:Ekey; [|done]. injection Ek as ->.
  destruct (branch_decode (drop 32 bs)) as [p|] eqn:Ep; [|done]. injection Ebr as ->.
  apply branch_decode_iff in Ep as (Ep & Hl & Hf).
  split; [|done]. rewrite control_block_serialize_eq. cbn [cb_parity cb_internal_key leaf_version cb_merkle_branch].
  rewrite Elv, <- Ep, (key_serialize_from _ _ Ekey), take_drop. f_equal.
  rewrite <- (byte.of_Z_unsigned b) at 1. f_equal. rewrite <- (byte_split (byte.unsigned b)) at 1 by done.
  f_equal. destruct (land_1 (byte.unsigned b)) as [->| ->]; done.
Qed.

Lemma control_block_no_panic bs : control_block_decode bs <> Crash.
Proof.
  unfold control_block_decode. destruct (_ || _) eqn:Eg; [done|].
  apply orb_false_iff in Eg as [Hl _]. apply Nat.ltb_ge in Hl.
  unfold TAPROOT_CONTROL_BASE_SIZE in Hl. destruct bs as [|b bs]; [simpl in Hl; lia|].
  change (index (b :: bs) 0) with (Ret b). cbn [of_run]. rewrite bind_Val.
  pose proof (leaf_version_no_panic (Z.land (byte.unsigned b) TAPROOT_LEAF_MASK)).
  destruct (leaf_version_from_consensus _); simpl; [|done..].
  destruct (key_from_slice _); simpl; [|done]. by destruct (branch_decode _).
Qed.

(** Control blocks as bytes.  Decoding accepts exactly the serialisations of blocks with
    a valid leaf version and at most 128 hashes of 32 bytes, and returns that block; no byte
    string makes it panic, and [size] is the length of the serialisation. *)
Lemma control_block_bytes_exact (bs : list byte) (cb : ControlBlock) :
  (control_block_decode bs = Val cb <-> bs = control_block_serialize cb /\ control_block_wf cb) /\
  control_block_decode bs <> Crash /\
  (control_block_wf cb -> length (control_block_serialize cb) = control_block_size cb).
Proof.
  split; [|split].
  - split; [apply control_block_decode_Val|]. intros [-> Hw]. by apply control_block_decode_serialize.
  - apply control_block_no_panic.
  - apply control_block_serialize_length.
Qed.
End codec2.

(** ** An instance: the integers modulo 2^256 *)

Module Toy.

Definition Key : Type := { z : Z | in_ub 256 z = true }.

Lemma key_eq (x y : Key) : `x = `y -> x = y.
Proof.
  destruct x as [x Hx], y as [y Hy]. simpl. intros ->. f_equal.
  apply Eqdep_dec.UIP_dec, bool_dec.
Qed.

Lemma wrap_ok z : in_ub 256 (wrap 256 z) = true.
Proof. apply in_ub_spec. by apply wrap_in_u. Qed.
Definition mk (z : Z) : Key := exist _ (wrap 256 z) (wrap_ok z).

Definition add (k t : Key) : Key * Parity := (mk (`k + `t), Even).

#[export] Instance curve : Secp256k1 := {
  XOnlyPublicKey := Key;
  Scalar := Key;
  SecpError := unit;
  key_serialize k := le_split 32 (`k);
  key_from_slice bs := if decide (length bs = 32%nat) then Ok (mk (le_combine bs)) else Err tt;
  scalar_from_be_bytes bs :=
    if decide (length bs = 32%nat) then Some (mk (from_be_bytes bs)) else None;
  add_tweak k t := Ok (add k t);
  tweak_add_check k q par t := bool_decide (proj1_sig (fst (add k t)) = proj1_sig q :> Z) && bool_decide (par = Even);
}.

Lemma combine_range bs : length bs = 32%nat -> in_u 256 (le_combine bs).
Proof. intros Hl. pose proof (le_combine_bound bs) as H. by rewrite Hl in H. Qed.

#[local] Arguments le_split : simpl never.
#[local] Arguments le_combine : simpl never.
#[export] Instance laws : Secp256k1Laws curve.
Proof.
  split; cbn [key_serialize key_from_slice scalar_from_be_bytes add_tweak tweak_add_check curve].
  - intros k. apply length_le_split.
  - intros [k Hk]. rewrite decide_True by apply length_le_split. f_equal. apply key_eq. simpl.
    apply in_ub_spec in Hk. rewrite le_combine_split. unfold wrap. rewrite Z.mod_mod by done.
    by apply wrap_small.
  - intros bs k. destruct (decide _) as [Hl|]; [|done]. intros [= <-]. simpl.
    rewrite wrap_small by (by apply combine_range). rewrite <- Hl. apply split_le_combine.
  - intros b b' s. destruct (decide (length b = _)) as [Hb|]; [|done].
    destruct (decide (length b' = _)) as [Hb'|]; [|done]. intros [= <-] [= E].
    unfold from_be_bytes in E. rewrite !wrap_small in E by (apply combine_range; by rewrite length_rev).
    apply le_combine_inj in E; [|by rewrite !length_rev; congruence].
    by rewrite <- (rev_involutive b), <- E, rev_involutive.
  - intros [k Hk] [t Ht] [t' Ht'] q [= <-] [= E]. apply key_eq. simpl in *.
    apply in_ub_spec in Hk, Ht, Ht'. rewrite !wrap_add in E by done.
    unfold in_u in *. revert E. zcases; lia.
  - intros k q par t. unfold add. simpl. rewrite andb_true_iff, !bool_decide_eq_true. split.
    + intros [E ->]. do 2 f_equal. by apply key_eq.
    + by intros [= <- <-].
Qed.
End Toy.

(** ** Witnesses *)

#[local] Existing Instance Toy.curve.
#[local] Existing Instance Toy.laws.

Definition sample_tree : Tree :=
  TNode (TLeaf [Byte.x51] TapScript)
        (TNode (THidden (replicate 32 Byte.x00)) (TLeaf [Byte.x51] TapScript)).
Definition sample_info : TaprootSpendInfo :=
  match @from_node_info Toy.curve true (Toy.mk 7) (info sample_tree) with
  | Ret si => si
  | Panic => mkSpendInfo (Toy.mk 0) None Even (Toy.mk 0) []
  end.
Definition sample_block : ControlBlock :=
  mkControlBlock TapScript Even (Toy.mk 7)
    [root (TNode (THidden (replicate 32 Byte.x00)) (TLeaf [Byte.x51] TapScript))].

Lemma sample_info_ok :
  @from_node_info Toy.curve true (Toy.mk 7) (info sample_tree) = Ret sample_info.
Proof.
  assert (match @from_node_info Toy.curve true (Toy.mk 7) (info sample_tree) with
          | Ret _ => true | Panic => false end = true) as H by (vm_compute; reflexivity).
  unfold sample_info. destruct (from_node_info _ _); [reflexivity|discriminate].
Qed.

Lemma control_block_correct_witness :
  match control_block sample_info ([Byte.x51], TapScript) with
  | Ret (Some cb) => length (cb_merkle_branch cb) = 1%nat /\
      @verify_taproot_commitment Toy.curve cb (output_key sample_info) [Byte.x51] = Ret true
  | _ => False
  end.
Proof.
  pose proof (control_block_correct (bm:=true) sample_tree (Toy.mk 7) sample_info [Byte.x51] TapScript
                sample_info_ok) as H.
  destruct (control_block sample_info ([Byte.x51], TapScript)) as [[cb|]|] eqn:E.
  - destruct H as (_ & Hp & H & Hok). split; [|exact Hok].
    specialize (H _ (proof_left _ _ _ _ _ (proof_here _ _))).
    clear -Hp H. destruct cb as [lv par k p]. cbn [cb_merkle_branch] in *.
    inversion Hp; subst; rewrite !length_app in *; simpl in *; lia.
  - destruct (H _ (proof_left _ _ _ _ _ (proof_here _ _))).
  - exact H.
Defined.

Lemma taproot_commitment_binding_witness :
  let top := fold_left from_node_hashes (cb_merkle_branch sample_block)
               (leaf_hash_from_script [Byte.x51] TapScript) in
  opens sample_tree [Byte.x51] TapScript (cb_merkle_branch sample_block) \/
  sha256_collision
    (tweak_msg (Toy.mk 7) top :: leaf_msg [Byte.x51] TapScript ::
       path_msgs (leaf_hash_from_script [Byte.x51] TapScript) (cb_merkle_branch sample_block))
    (tweak_msg (Toy.mk 7) (root sample_tree) :: tree_msgs sample_tree).
Proof.
  exact (taproot_commitment_binding (bm:=true) sample_tree sample_info sample_block [Byte.x51]
    ltac:(by vm_compute) ltac:(by vm_compute) I
    ltac:(by repeat constructor; vm_compute) sample_info_ok ltac:(by vm_compute) ltac:(by vm_compute)).
Defined.

