(* ===== verification/OrdMap.v ===== *)
(** * Ordered maps

    [BTreeMap] as an association list in strictly increasing order of its keys: the order a key
    type derives, insertion, [entry], [extend], and the lemmas that a map is what it maps. *)

From Stdlib Require Import ZArith Lia Sorted.
From coqutil Require Import Byte.
From stdpp Require Import base tactics option list numbers.
From S2P Require Import Prelude Io Encode HashEngine Sha256 Sha256t Taproot TapTree TapSpend.

#[local] Open Scope Z_scope.

(** ** Total orders *)

(** A comparison that [Ord] promises: it tells equal values, is antisymmetric and transitive. *)
Class TotalCompare {A} (cmp : A -> A -> comparison) : Prop := {
  total_lawful :: LawfulCompare cmp;
  compare_trans x y z : cmp x y = Lt -> cmp y z = Lt -> cmp x z = Lt;
}.

(** [#[derive(Ord)]] on two fields. *)
Definition pair_compare {A B} (ca : A -> A -> comparison) (cb : B -> B -> comparison) (x y : A * B) : comparison :=
  then_cmp (ca (fst x) (fst y)) (cb (snd x) (snd y)).

#[export] Instance Z_compare_total : TotalCompare Z.compare.
Proof.
  split; [split; [apply Z.compare_eq_iff|apply Z.compare_antisym]|].
  intros x y z. rewrite !Z.compare_lt_iff. lia.
Qed.

#[export] Instance byte_compare_total : TotalCompare byte_compare.
Proof. split; [apply _|]. intros x y z. unfold byte_compare. rewrite !Z.compare_lt_iff. lia. Qed.

Lemma then_cmp_Lt c d : then_cmp c d = Lt <-> c = Lt \/ c = Eq /\ d = Lt.
Proof. destruct c; simpl; naive_solver. Qed.

Lemma compare_refl {A} (cmp : A -> A -> comparison) `{!LawfulCompare cmp} x : cmp x x = Eq.
Proof. by apply compare_eq_iff. Qed.

Lemma compare_gt {A} (cmp : A -> A -> comparison) `{!LawfulCompare cmp} x y : cmp x y = Lt <-> cmp y x = Gt.
Proof. rewrite (compare_swap (cmp:=cmp) x y). destruct (cmp x y); simpl; naive_solver. Qed.

Section lex.
Context {A B} (ca : A -> A -> comparison) (cb : B -> B -> comparison) `{!TotalCompare ca, !TotalCompare cb}.

#[export] Instance pair_compare_total : TotalCompare (pair_compare ca cb).
Proof.
  split; [split|].
  - intros [a b] [a' b']. unfold pair_compare. simpl. rewrite then_cmp_Eq, !compare_eq_iff. naive_solver.
  - intros [a b] [a' b']. unfold pair_compare. simpl.
    by rewrite then_cmp_opp, (compare_swap (cmp:=ca) a a'), (compare_swap (cmp:=cb) b b').
  - intros [a b] [a' b'] [a'' b'']. unfold pair_compare. simpl. rewrite !then_cmp_Lt, !compare_eq_iff.
    intros [H|[-> H]] [H'|[-> H']]; eauto using compare_trans.
Qed.
End lex.

#[export] Instance list_compare_total {A} (cmp : A -> A -> comparison) `{!TotalCompare cmp} :
  TotalCompare (list_compare cmp).
Proof.
  split; [apply _|]. intros x. induction x as [|a x IH]; intros [|b y] [|c z]; try done.
  cbn [list_compare]. rewrite !then_cmp_Lt, !compare_eq_iff.
  intros [H|[-> H]] [H'|[-> H']]; eauto using compare_trans.
Qed.

#[export] Instance bytes_compare_total : TotalCompare bytes_compare := list_compare_total _.

(** An order through an injection is an order. *)
Lemma compare_via {A B} (f : A -> B) (cb : B -> B -> comparison) (ca : A -> A -> comparison) :
  TotalCompare cb -> (forall x y, f x = f y -> x = y) -> (forall x y, ca x y = cb (f x) (f y)) ->
  TotalCompare ca.
Proof.
  intros Hb Hf E. split; [split|].
  - intros x y. rewrite E, compare_eq_iff. split; [apply Hf|by intros ->].
  - intros x y. rewrite !E. apply compare_swap.
  - intros x y z. rewrite !E. apply compare_trans.
Qed.

#[export] Instance bool_compare_total : TotalCompare bool_compare.
Proof. apply (compare_via Z.b2z Z.compare); [apply _|by intros [] []|by intros [] []]. Qed.

#[export] Instance leaf_version_compare_total : TotalCompare leaf_version_compare.
Proof.
  apply (compare_via (fun v => match v with TapScript => (0, 0) | Future n => (1, n) end)
           (pair_compare Z.compare Z.compare)); [apply _|..].
  - intros [] []; naive_solver.
  - by intros [] [].
Qed.

(** ** Maps *)

Section ordmap.
Context {K V : Type} (cmp : K -> K -> comparison) `{!TotalCompare cmp}.
Implicit Types (m : list (K * V)).

Definition key_lt (p q : K * V) : Prop := cmp (fst p) (fst q) = Lt.
Definition ordered m : Prop := StronglySorted key_lt m.

Lemma map_get_above k m : Forall (fun p => cmp (fst p) k = Lt) m -> map_get cmp k m = None.
Proof.
  induction 1 as [|[k' v] m Hk _ IH]; [done|]. simpl in *. apply compare_gt in Hk; [|apply _]. by rewrite Hk.
Qed.

Lemma map_insert_above k v m : Forall (fun p => cmp (fst p) k = Lt) m -> map_insert cmp k v m = m ++ [(k, v)].
Proof.
  induction 1 as [|[k' v'] m Hk _ IH]; [done|]. simpl in *. apply compare_gt in Hk; [|apply _]. by rewrite Hk, IH.
Qed.

Lemma map_insert_keys k v m p : p ∈ map_insert cmp k v m -> fst p = k \/ p ∈ m.
Proof.
  induction m as [|[k' v'] m IH]; simpl; [rewrite list_elem_of_singleton; naive_solver|].
  destruct (cmp k k') eqn:E; rewrite ?elem_of_cons.
  - apply compare_eq_iff in E; subst. intros [H|?]; subst; auto.
  - intros [H|?]; subst; auto.
  - intros [H|H]; [subst; auto|]. destruct (IH H); auto.
Qed.

Lemma map_insert_ordered k v m : ordered m -> ordered (map_insert cmp k v m).
Proof.
  induction 1 as [|[k' v'] m Hs IH Hf]; simpl; [repeat constructor|].
  destruct (cmp k k') eqn:E.
  - by constructor.
  - constructor; [by constructor|]. constructor; [done|]. eapply Forall_impl; [|exact Hf].
    intros p Hp. unfold key_lt in *. simpl in *. by eapply compare_trans.
  - constructor; [done|]. apply Forall_forall. intros p Hp. apply list_elem_of_In, map_insert_keys in Hp as [Hp|Hp].
    + unfold key_lt. simpl. rewrite Hp. by apply (compare_gt cmp).
    + by eapply Forall_forall in Hf; [|apply list_elem_of_In].
Qed.

Lemma map_get_In k v m : map_get cmp k m = Some v -> (k, v) ∈ m.
Proof.
  induction m as [|[k' v'] m IH]; simpl; [done|]. rewrite elem_of_cons.
  destruct (cmp k k') eqn:E; [|eauto..]. apply compare_eq_iff in E as ->. intros [= ->]. by left.
Qed.

Lemma In_map_get k v m : ordered m -> (k, v) ∈ m -> map_get cmp k m = Some v.
Proof.
  induction 1 as [|[k' v'] m Hs IH Hf]; [by rewrite elem_of_nil|]. rewrite elem_of_cons.
  intros [[= -> ->]|Hi]; simpl; [by rewrite (compare_refl cmp)|].
  eapply Forall_forall in Hf; [|by apply list_elem_of_In]. unfold key_lt in Hf. simpl in Hf.
  apply compare_gt in Hf; [|apply _]. rewrite Hf. by apply IH.
Qed.

(** [BTreeMap::extend]: later entries replace earlier ones. *)
Definition map_extend m (other : list (K * V)) : list (K * V) :=
  fold_left (fun m p => map_insert cmp (fst p) (snd p) m) other m.

Lemma map_extend_ordered other : forall m, ordered m -> ordered (map_extend m other).
Proof. induction other; intros m Hm; [done|]. simpl. by apply IHother, map_insert_ordered. Qed.

Lemma map_extend_get k other : ordered other -> forall m,
  map_get cmp k (map_extend m other) =
  match map_get cmp k other with Some v => Some v | None => map_get cmp k m end.
Proof.
  induction 1 as [|[k' v'] o Hs IH Hf]; intros m; [done|]. simpl. rewrite IH, map_get_insert by apply _.
  destruct (map_get cmp k o) as [v|] eqn:Eo.
  - apply map_get_In in Eo. eapply Forall_forall in Hf; [|by apply list_elem_of_In].
    unfold key_lt in Hf. simpl in Hf. apply compare_gt in Hf; [|apply _]. by rewrite Hf.
  - destruct (cmp k k'); done.
Qed.

(** An ordered map is determined by what it maps. *)
Lemma map_get_below k m k' v : ordered ((k', v) :: m) -> cmp k k' = Lt -> map_get cmp k ((k', v) :: m) = None.
Proof.
  intros Ho Hk. destruct (map_get cmp k _) as [w|] eqn:E; [|done]. exfalso. apply map_get_In in E.
  apply elem_of_cons in E as [[= -> ->]|E]; [by rewrite (compare_refl cmp) in Hk|].
  inversion Ho as [|? ? _ Hf]. subst. eapply Forall_forall in Hf; [|by apply list_elem_of_In].
  unfold key_lt in Hf. simpl in Hf.
  pose proof (compare_trans _ _ _ Hk Hf) as H. by rewrite (compare_refl cmp) in H.
Qed.

Lemma ordered_ext m m' : ordered m -> ordered m' -> (forall k, map_get cmp k m = map_get cmp k m') -> m = m'.
Proof.
  intros Hm. revert m'. induction Hm as [|[k v] m Hs IH Hf]; intros m' Hm' E.
  - destruct m' as [|[k v] m']; [done|]. specialize (E k). simpl in E. by rewrite (compare_refl cmp) in E.
  - assert (ordered ((k, v) :: m)) as Ho by by constructor.
    destruct m' as [|[k' v'] m']; [specialize (E k); simpl in E; by rewrite (compare_refl cmp) in E|].
    destruct (cmp k k') eqn:Ek.
    + apply compare_eq_iff in Ek as <-. pose proof (E k) as Ev. simpl in Ev. rewrite (compare_refl cmp) in Ev.
      injection Ev as <-. f_equal. apply StronglySorted_inv in Hm' as [Hs' Hf'].
      apply IH; [done|]. intros k0. specialize (E k0). simpl in E. destruct (cmp k0 k) eqn:E0; [|done..].
      apply compare_eq_iff in E0 as ->.
      assert (forall m, Forall (key_lt (k, v)) m -> map_get cmp k m = None) as Hn.
      { clear -TotalCompare0. intros m. induction 1 as [|[k1 v1] m Hk _ IH]; [done|]. unfold key_lt in Hk.
        simpl in *. by rewrite Hk. }
      by rewrite !Hn.
    + pose proof (map_get_below k m' k' v' Hm' Ek) as H. rewrite <- E in H. simpl in H.
      by rewrite (compare_refl cmp) in H.
    + apply compare_gt in Ek; [|apply _]. pose proof (map_get_below k' m k v Ho Ek) as H. rewrite E in H. simpl in H.
      by rewrite (compare_refl cmp) in H.
Qed.
End ordmap.

#[global] Arguments map_extend {K V} cmp m other : simpl never.
