(* ===== verification/Huffman.v ===== *)
(** * Huffman trees ([TaprootBuilder::with_huffman_tree])

    The documentation promises a tree with optimal expected satisfaction weight.  The proof is
    the classical exchange argument, on the list of depths and the list of weights of a tree:
    in a tree two siblings are deepest, moving the two lightest leaves there does not increase
    the cost, and merging them leaves a smaller instance. *)

From coqutil Require Import Byte Word.LittleEndianList.
From Stdlib Require Import ZArith Lia Permutation.
From stdpp Require Import base tactics option list numbers.
From S2P Require Import Prelude Taproot TapTree.

#[local] Open Scope Z_scope.

(** ** Labelled trees and their cost *)

Inductive BTree (A : Type) : Type :=
| BLeaf (a : A)
| BNode (l r : BTree A).
Arguments BLeaf {A} a.
Arguments BNode {A} l r.

Fixpoint labels {A} (t : BTree A) : list A :=
  match t with BLeaf a => [a] | BNode l r => labels l ++ labels r end.
Fixpoint depths {A} (d : Z) (t : BTree A) : list Z :=
  match t with BLeaf _ => [d] | BNode l r => depths (d + 1) l ++ depths (d + 1) r end.
Fixpoint bheight {A} (t : BTree A) : Z :=
  match t with BLeaf _ => 0 | BNode l r => 1 + Z.max (bheight l) (bheight r) end.

Fixpoint dot (ds ws : list Z) : Z :=
  match ds, ws with d :: ds, w :: ws => d * w + dot ds ws | _, _ => 0 end.

(** The weighted path length: every weight times the depth of its leaf. *)
Definition cost (t : BTree Z) : Z := dot (depths 0 t) (labels t).

Definition sum (l : list Z) : Z := foldr Z.add 0 l.

Lemma labels_depths {A} (t : BTree A) d : length (depths d t) = length (labels t).
Proof.
  revert d. induction t as [a|l IHl r IHr]; intros d; simpl; [done|].
  by rewrite !length_app, IHl, IHr.
Qed.

Lemma dot_app ds ds' ws ws' : length ds = length ws ->
  dot (ds ++ ds') (ws ++ ws') = dot ds ws + dot ds' ws'.
Proof.
  revert ws. induction ds as [|d ds IH]; intros [|w ws] H; try done; simpl in *.
  rewrite IH by lia. lia.
Qed.

Lemma sum_app l k : sum (l ++ k) = sum l + sum k.
Proof. induction l as [|x l IH]; simpl; [done|]. unfold sum in *. simpl. lia. Qed.

#[export] Instance sum_proper : Proper (Permutation ==> eq) sum.
Proof. intros l k H. induction H; unfold sum in *; simpl; lia. Qed.

Lemma dot_shift {A} (t : BTree A) ws d : length ws = length (labels t) ->
  dot (depths (d + 1) t) ws = dot (depths d t) ws + sum ws.
Proof.
  revert ws d. induction t as [a|l IHl r IHr]; intros ws d Hl; cbn [depths labels] in *.
  - destruct ws as [|w [|]]; simpl in Hl; try lia. simpl. unfold sum. simpl. lia.
  - rewrite length_app in Hl. rewrite <- (take_drop (length (labels l)) ws).
    assert (length (take (length (labels l)) ws) = length (labels l)) as Ht
      by (rewrite length_take; lia).
    rewrite !dot_app by (by rewrite labels_depths).
    rewrite IHl, IHr by (done || (rewrite length_drop; lia)). rewrite sum_app. lia.
Qed.

(** The cost of a node: both subtrees, and every leaf one level deeper. *)
Lemma cost_node l r : cost (BNode l r) = cost l + cost r + sum (labels l) + sum (labels r).
Proof.
  unfold cost. cbn [depths labels]. rewrite dot_app by apply labels_depths.
  rewrite !dot_shift by done. lia.
Qed.

(** ** Relabelling *)

Lemma relabel {A} (t : BTree A) : forall ws : list Z, length ws = length (labels t) ->
  exists t' : BTree Z, labels t' = ws /\ forall d, depths d t' = depths d t.
Proof.
  induction t as [a|l IHl r IHr]; intros ws Hl; cbn [labels] in Hl.
  - destruct ws as [|w [|]]; simpl in Hl; try lia. by exists (BLeaf w).
  - rewrite length_app in Hl.
    destruct (IHl (take (length (labels l)) ws)) as (l' & El & Hl'); [rewrite length_take; lia|].
    destruct (IHr (drop (length (labels l)) ws)) as (r' & Er & Hr'); [rewrite length_drop; lia|].
    exists (BNode l' r'). cbn [labels depths]. split; [by rewrite El, Er, take_drop|].
    intros d. by rewrite Hl', Hr'.
Qed.

Lemma bheight_nonneg {A} (t : BTree A) : 0 <= bheight t.
Proof. induction t; simpl; lia. Qed.

Lemma depths_le {A} (t : BTree A) d : Forall (fun x => x <= d + bheight t) (depths d t).
Proof.
  revert d. induction t as [a|l IHl r IHr]; intros d; simpl; [repeat constructor; lia|].
  apply Forall_app. split; (eapply Forall_impl; [|first [apply IHl|apply IHr]]); simpl; intros; lia.
Qed.

(** Two siblings at the greatest depth, with the leaves left and right of them: the other
    leaves can be relabelled and the siblings merged into one leaf. *)
Lemma deepest_siblings {A} (t : BTree A) : 0 < bheight t ->
  exists l1 l2 a b, labels t = l1 ++ a :: b :: l2 /\ forall d, exists d1 d2,
    let D := d + bheight t in
    depths d t = d1 ++ D :: D :: d2 /\ length d1 = length l1 /\
    forall k1 k2 (c : Z), length k1 = length l1 -> length k2 = length l2 ->
      exists t' : BTree Z, labels t' = k1 ++ c :: k2 /\ depths d t' = d1 ++ (D - 1) :: d2.
Proof.
  induction t as [a|l IHl r IHr]; intros Hh; [simpl in Hh; lia|].
  pose proof (bheight_nonneg l). pose proof (bheight_nonneg r). clear Hh. cbn [bheight].
  destruct (Z.lt_ge_cases (bheight l) (bheight r)) as [Hlt|Hge].
  - destruct IHr as (l1 & l2 & a & b & El & IH); [lia|].
    exists (labels l ++ l1), l2, a, b. split; [cbn [labels]; by rewrite El, app_assoc|].
    intros d. destruct (IH (d + 1)) as (d1 & d2 & Ed & Hd & Hk).
    exists (depths (d + 1) l ++ d1), d2.
    replace (d + (1 + Z.max (bheight l) (bheight r))) with (d + 1 + bheight r) by lia.
    cbv zeta. split; [cbn [depths]; by rewrite Ed, app_assoc|].
    split; [rewrite !length_app, labels_depths; lia|].
    intros k1 k2 c H1 H2. rewrite length_app in H1.
    destruct (Hk (drop (length (labels l)) k1) k2 c) as (r' & Er' & Hr'); [rewrite length_drop; lia|done|].
    destruct (relabel l (take (length (labels l)) k1)) as (l' & El' & Hl'); [rewrite length_take; lia|].
    exists (BNode l' r'). cbn [labels depths].
    by rewrite El', Er', Hl', Hr', app_assoc, take_drop, app_assoc.
  - destruct (Z.eq_dec (bheight l) 0) as [E0|E0].
    + destruct l as [a|]; [|simpl in *; pose proof (bheight_nonneg l1); pose proof (bheight_nonneg l2); lia].
      destruct r as [b|]; [|simpl in *; pose proof (bheight_nonneg r1); pose proof (bheight_nonneg r2); lia].
      exists [], [], a, b. split; [done|]. intros d. exists [], []. cbv zeta. simpl.
      split; [done|]. split; [done|].
      intros [|] [|] c ? ?; try done. exists (BLeaf c). split; [done|]. simpl. f_equal. lia.
    + destruct IHl as (l1 & l2 & a & b & El & IH); [lia|].
      exists l1, (l2 ++ labels r), a, b.
      split; [cbn [labels]; by rewrite El, <- app_assoc|].
      intros d. destruct (IH (d + 1)) as (d1 & d2 & Ed & Hd & Hk).
      exists d1, (d2 ++ depths (d + 1) r).
      replace (d + (1 + Z.max (bheight l) (bheight r))) with (d + 1 + bheight l) by lia.
      cbv zeta. split; [cbn [depths]; by rewrite Ed, <- app_assoc|]. split; [done|].
      intros k1 k2 c H1 H2. rewrite length_app in H2.
      destruct (Hk k1 (take (length l2) k2) c) as (l' & El' & Hl'); [done|rewrite length_take; lia|].
      destruct (relabel r (drop (length l2) k2)) as (r' & Er' & Hr'); [rewrite length_drop; lia|].
      exists (BNode l' r'). cbn [labels depths].
      rewrite El', Er', Hl', Hr', <- !app_assoc. cbn [app]. by rewrite take_drop.
Qed.

(** ** Exchange *)

(** Bringing a least weight [x] to a greatest depth [D], in exchange for the weight there. *)
Lemma exchange ds ws D a x rest : length ds = length ws -> Forall (fun d => d <= D) ds ->
  Permutation (a :: ws) (x :: rest) -> Forall (fun w => x <= w) (a :: ws) ->
  exists ws', Permutation ws' rest /\ dot ds ws' + D * x <= dot ds ws + D * a.
Proof.
  intros Hl Hd Hp Hx. destruct (decide (a = x)) as [->|Hne].
  { apply Permutation_cons_inv in Hp. by exists ws. }
  assert (x ∈ ws) as Hin.
  { assert (x ∈ a :: ws) as H by (rewrite Hp; constructor). apply elem_of_cons in H as [|]; [congruence|done]. }
  apply list_elem_of_split in Hin as (w1 & w2 & ->). exists (w1 ++ a :: w2). split.
  - apply (Permutation_cons_inv (a:=x)). transitivity (a :: w1 ++ x :: w2); [|exact Hp].
    rewrite <- !Permutation_middle. constructor.
  - rewrite length_app in Hl. simpl in Hl.
    rewrite <- (take_drop (length w1) ds) in Hd |- *. apply Forall_app in Hd as [_ Hd].
    assert (length (take (length w1) ds) = length w1) as Ht by (rewrite length_take; lia).
    destruct (drop (length w1) ds) as [|d d2] eqn:Ed.
    { apply (f_equal length) in Ed. rewrite length_drop in Ed. simpl in Ed. lia. }
    rewrite !dot_app by done. simpl. apply Forall_cons_iff in Hd as [Hd _].
    apply Forall_cons_iff in Hx as [Hx _]. nia.
Qed.

(** In any tree over two least weights and others, merging the two saves at least their sum. *)
Lemma merge_lightest (t : BTree Z) x y rest : Permutation (labels t) (x :: y :: rest) ->
  x <= y -> Forall (fun w => y <= w) rest ->
  exists t', Permutation (labels t') (x + y :: rest) /\ cost t' + x + y <= cost t.
Proof.
  intros Hp Hxy Hr. assert (0 < bheight t) as Hh.
  { destruct t as [a|l r]; [by apply Permutation_length in Hp|]. simpl.
    pose proof (bheight_nonneg l). lia. }
  destruct (deepest_siblings t Hh) as (l1 & l2 & a & b & El & H).
  destruct (H 0) as (d1 & d2 & Ed & Hd & Hk). clear H. cbv zeta in *.
  set (D := 0 + bheight t) in *. pose proof (depths_le t 0) as Hle. fold D in Hle.
  rewrite Ed in Hle. apply Forall_app in Hle as [Hle1 Hle2].
  apply Forall_cons_iff in Hle2 as [_ Hle2]. apply Forall_cons_iff in Hle2 as [_ Hle2].
  assert (length d2 = length l2) as Hd2.
  { pose proof (labels_depths t 0) as E. rewrite El, Ed, !length_app in E. simpl in E. lia. }
  assert (Permutation (a :: b :: l1 ++ l2) (x :: y :: rest)) as Hp'.
  { rewrite <- Hp, El. by rewrite <- !Permutation_middle. }
  assert (Forall (fun w => x <= w) (a :: b :: l1 ++ l2)) as Hx.
  { rewrite Hp'. repeat constructor; [lia..|]. eapply Forall_impl; [|exact Hr]. simpl. lia. }
  destruct (exchange (D :: d1 ++ d2) (b :: l1 ++ l2) D a x (y :: rest)) as (ws & Hws & Hc1);
    [simpl; rewrite !length_app; lia|constructor; [lia|by apply Forall_app]|done|done|].
  destruct ws as [|b' ws]; [by apply Permutation_length in Hws|].
  assert (length ws = length (l1 ++ l2)) as Hlen.
  { apply Permutation_length in Hws, Hp'. simpl in *. lia. }
  destruct (exchange (d1 ++ d2) ws D b' y rest) as (ws' & Hws' & Hc2);
    [rewrite Hlen, !length_app; lia|by apply Forall_app|done|
     rewrite Hws; repeat constructor; [lia|done]|].
  assert (length ws' = length l1 + length l2)%nat as Hlen'.
  { apply Permutation_length in Hws', Hws. rewrite length_app in Hlen. simpl in *. lia. }
  destruct (Hk (take (length l1) ws') (drop (length l1) ws') (x + y)) as (t' & El' & Ed');
    [rewrite length_take; lia|rewrite length_drop; lia|].
  exists t'. split; [by rewrite El', <- Permutation_middle, take_drop, Hws'|].
  unfold cost. rewrite El', Ed', El, Ed.
  rewrite !dot_app by (rewrite ?length_take; lia). simpl.
  rewrite <- (take_drop (length l1) ws') in Hc2. simpl in Hc1.
  rewrite !dot_app in Hc1 by lia. rewrite dot_app in Hc2 by (rewrite length_take; lia). lia.
Qed.

(** ** The algorithm on trees *)

(** Trees over weighted scripts, what they weigh, and the entry of the heap for one. *)
Abbreviation HTree := (BTree (Z * list byte)).

Fixpoint erase (t : HTree) : Tree :=
  match t with BLeaf (_, s) => TLeaf s TapScript | BNode l r => TNode (erase l) (erase r) end.
Definition tweight (t : HTree) : Z := sum (map fst (labels t)).
Definition entry (t : HTree) : Z * NodeInfo := (tweight t, info (erase t)).
Definition hcompare (a b : HTree) : comparison := weight_compare (entry a) (entry b).

(** The expected length of the proofs, times the total weight. *)
Definition path_length (t : HTree) : Z := dot (depths 0 t) (map fst (labels t)).

Lemma path_length_node l r :
  path_length (BNode l r) = path_length l + path_length r + tweight l + tweight r.
Proof.
  unfold path_length, tweight. cbn [depths labels]. rewrite map_app.
  rewrite dot_app by (by rewrite labels_depths, length_map).
  rewrite !dot_shift by (by rewrite length_map). lia.
Qed.

Lemma tweight_node l r : tweight (BNode l r) = tweight l + tweight r.
Proof. unfold tweight. cbn [labels]. by rewrite map_app, sum_app. Qed.

Fixpoint hloop (fuel : nat) (h : list HTree) : list HTree :=
  match fuel, h with
  | S fuel, x :: y :: l =>
      let '(t1, r) := extract_max hcompare x (y :: l) in
      match r with
      | z :: r => let '(t2, r) := extract_max hcompare z r in hloop fuel (BNode t2 t1 :: r)
      | [] => h
      end
  | _, _ => h
  end.

(** A greatest entry is one of least weight. *)
Lemma hcompare_weight a b :
  match hcompare a b with Gt => tweight a <= tweight b | _ => tweight b <= tweight a end.
Proof.
  unfold hcompare, weight_compare, entry. cbn [fst snd].
  destruct (Z.compare_spec (tweight b) (tweight a)); simpl; [|lia..].
  destruct (node_info_compare _ _); lia.
Qed.

Lemma extract_max_spec l : forall x m r, extract_max hcompare x l = (m, r) ->
  Permutation (m :: r) (x :: l) /\ Forall (fun t => tweight m <= tweight t) (x :: l).
Proof.
  induction l as [|y l IH]; intros x m r; simpl.
  - intros [= <- <-]. split; [done|]. by repeat constructor.
  - pose proof (hcompare_weight y x) as Hc. destruct (hcompare y x).
    1,2: destruct (extract_max hcompare x l) as [m' r'] eqn:E; intros [= <- <-];
      destruct (IH _ _ _ E) as [Hp Hm]; apply Forall_cons_iff in Hm as [Hx Hm];
      (split; [by rewrite Permutation_swap, Hp, Permutation_swap|]);
      constructor; [done|constructor; [lia|done]].
    destruct (extract_max hcompare y l) as [m' r'] eqn:E; intros [= <- <-].
    destruct (IH _ _ _ E) as [Hp Hm]. apply Forall_cons_iff in Hm as [Hx Hm].
    split; [by rewrite Permutation_swap, Hp|]. constructor; [lia|]. by constructor.
Qed.

(** One turn: the two lightest trees and the others. *)
Lemma two_lightest x y l t1 r z r' t2 r2 :
  extract_max hcompare x (y :: l) = (t1, r) -> r = z :: r' -> extract_max hcompare z r' = (t2, r2) ->
  Permutation (t1 :: t2 :: r2) (x :: y :: l) /\ tweight t1 <= tweight t2 /\
  Forall (fun t => tweight t2 <= tweight t) r2.
Proof.
  intros E1 -> E2. apply extract_max_spec in E1 as [Hp1 Hm1], E2 as [Hp2 Hm2].
  split; [by rewrite Hp2|]. rewrite <- Hp1, <- Hp2 in Hm1. rewrite <- Hp2 in Hm2.
  apply Forall_cons_iff in Hm1 as [_ Hm1]. apply Forall_cons_iff in Hm1 as [Hm1 _].
  by apply Forall_cons_iff in Hm2 as [_ Hm2].
Qed.

Lemma extract_max_length l x m r : extract_max hcompare x l = (m, r) -> length r = length l.
Proof. intros [Hp _]%extract_max_spec. apply Permutation_length in Hp. simpl in Hp. lia. Qed.

Lemma labels_pos {A} (t : BTree A) : (0 < length (labels t))%nat.
Proof. induction t as [a|l IHl r IHr]; simpl; [lia|]. rewrite length_app. lia. Qed.

Lemma cost_singleton t w : Permutation (labels t) [w] -> cost t = 0.
Proof.
  intros Hp%Permutation_length. destruct t as [a|l r]; [done|]. simpl in Hp.
  rewrite length_app in Hp. pose proof (labels_pos l). pose proof (labels_pos r). lia.
Qed.

(** What the loop returns: a tree over all labels that no tree over the weights beats. *)
Lemma hloop_optimal fuel : forall h, h <> [] -> (length h <= S fuel)%nat ->
  exists t, hloop fuel h = [t] /\ Permutation (labels t) (concat (map labels h)) /\
    forall t', Permutation (labels t') (map tweight h) ->
      path_length t <= cost t' + sum (map path_length h).
Proof.
  induction fuel as [|fuel IH]; intros h Hne Hl.
  1: destruct h as [|t [|]]; [done| |simpl in Hl; lia].
  2: destruct h as [|t [|y l]]; [done| |].
  1,2: exists t; (split; [done|]); (split; [simpl; by rewrite app_nil_r|]);
    intros t' Hp; rewrite (cost_singleton _ _ Hp); unfold sum; simpl; lia.
  cbn [hloop]. destruct (extract_max hcompare t (y :: l)) as [t1 r] eqn:E1.
  pose proof (extract_max_length _ _ _ _ E1) as Hlr.
  destruct r as [|z r]; [done|]. destruct (extract_max hcompare z r) as [t2 r2] eqn:E2.
  pose proof (extract_max_length _ _ _ _ E2) as Hlr2.
  destruct (two_lightest _ _ _ _ _ _ _ _ _ E1 eq_refl E2) as (Hp & H12 & H2).
  destruct (IH (BNode t2 t1 :: r2)) as (tt & Et & Hlab & Hopt); [done|simpl in *; lia|].
  exists tt. split; [done|]. split.
  - rewrite Hlab, <- Hp. cbn [map concat labels]. rewrite app_assoc. by rewrite (Permutation_app_comm (labels t2)).
  - intros t' Ht'. rewrite <- Hp in Ht'.
    destruct (merge_lightest t' (tweight t1) (tweight t2) (map tweight r2)) as (t'' & Ht'' & Hc);
      [done|done|by apply Forall_map|].
    specialize (Hopt t''). rewrite <- Hp. cbn [map] in *. unfold sum in *. cbn [foldr] in *.
    rewrite path_length_node, tweight_node in Hopt.
    rewrite (Z.add_comm (tweight t2)) in Hopt. specialize (Hopt Ht''). lia.
Qed.

(** ** The heap of nodes follows the trees *)

Lemma extract_max_map l : forall x,
  extract_max weight_compare (entry x) (map entry l) =
  let '(m, r) := extract_max hcompare x l in (entry m, map entry r).
Proof.
  induction l as [|y l IH]; intros x; simpl; [done|]. fold (hcompare y x).
  destruct (hcompare y x); rewrite IH; by destruct (extract_max hcompare _ l).
Qed.

(** The two depth checks: a leaf that is already 128 deep cannot be pushed further. *)
Lemma push_partner_deep p ls : forall acc,
  Forall (fun l => length (merkle_branch l) <= 128)%nat ls ->
  Exists (fun l => length (merkle_branch l) = 128)%nat ls ->
  push_partner p ls acc = Err (BuilderInvalidMerkleTreeDepth 128).
Proof.
  induction ls as [|l ls IH]; intros acc Hf He; [by apply Exists_nil in He|].
  apply Forall_cons_iff in Hf as [Hl Hf]. simpl. unfold branch_push, TAPROOT_CONTROL_MAX_NODE_COUNT.
  destruct (Nat.leb_spec 128 (length (merkle_branch l))).
  - replace (length (merkle_branch l)) with 128%nat by lia. done.
  - apply Exists_cons in He as [?|He]; [lia|]. by apply IH.
Qed.

Lemma push_partner_cases p ls acc : Forall (fun l => length (merkle_branch l) <= 128)%nat ls ->
  push_partner p ls acc = Ok (acc ++ map (extend p) ls) \/
  push_partner p ls acc = Err (BuilderInvalidMerkleTreeDepth 128).
Proof.
  intros Hf.
  destruct (Exists_dec (fun l => length (merkle_branch l) = 128%nat) ls) as [He|He];
    [intros; apply Nat.eq_dec|right; by apply push_partner_deep|left].
  apply push_partner_ok. apply Forall_forall. intros l Hl.
  rewrite Forall_forall in Hf. specialize (Hf l Hl). rewrite Exists_exists in He.
  destruct (Nat.eq_dec (length (merkle_branch l)) 128%nat); [|lia]. exfalso. apply He. eauto.
Qed.

Lemma combine_deep a b : shallow 128 a -> shallow 128 b ->
  Exists (fun l => length (merkle_branch l) = 128)%nat (leaves a) \/
  Exists (fun l => length (merkle_branch l) = 128)%nat (leaves b) ->
  combine a b = Err (BuilderInvalidMerkleTreeDepth 128).
Proof.
  intros Ha Hb He. unfold combine. destruct (combine_node_hashes _ _) as [h f].
  destruct f; cbv iota beta; destruct He as [He|He].
  all: try (rewrite push_partner_deep by done; done).
  all: edestruct push_partner_cases as [->| ->]; [done| |done].
  all: cbn [mbind Result_bind]; by rewrite push_partner_deep by done.
Qed.

Lemma erase_shallow t : (height (erase t) <= 128)%nat -> shallow 128 (info (erase t)).
Proof. apply info_shallow. Qed.

Lemma deepest_leaf t : Exists (fun l => length (merkle_branch l) = height (erase t)) (leaves (info (erase t))).
Proof.
  assert (exists s v p, proof_of (erase t) s v p /\ length p = height (erase t)) as (s & v & p & Hp & Hl).
  { induction t as [[w s]|l IHl r IHr]; [exists s, TapScript, []; split; [constructor|done]|].
    destruct IHl as (s1 & v1 & p1 & H1 & L1), IHr as (s2 & v2 & p2 & H2 & L2). simpl.
    destruct (Nat.le_gt_cases (height (erase r)) (height (erase l))).
    - exists s1, v1, (p1 ++ [root (erase r)]). split; [by constructor|].
      rewrite length_app. simpl. lia.
    - exists s2, v2, (p2 ++ [root (erase l)]). split; [by constructor|].
      rewrite length_app. simpl. lia. }
  apply Exists_exists. exists (mkLeafNode (Script s v) p). split; [|done].
  apply list_elem_of_In, info_leaves. eauto.
Qed.

Lemma combine_trees t1 t2 : (height (erase t1) <= 128)%nat -> (height (erase t2) <= 128)%nat ->
  combine (info (erase t1)) (info (erase t2)) =
  if (height (erase (BNode t2 t1)) <=? 128)%nat then Ok (info (erase (BNode t2 t1)))
  else Err (BuilderInvalidMerkleTreeDepth 128).
Proof.
  intros H1 H2. destruct (Nat.leb_spec (height (erase (BNode t2 t1))) 128) as [H|H]; simpl in H.
  - apply combine_join; apply info_shallow; lia.
  - pose proof (deepest_leaf t1) as D1. pose proof (deepest_leaf t2) as D2.
    apply combine_deep; [by apply erase_shallow..|].
    destruct (Nat.eq_dec (height (erase t1)) 128%nat) as [E|E]; [left; by rewrite E in D1|].
    right. by replace (height (erase t2)) with 128%nat in D2 by lia.
Qed.

Definition total (h : list HTree) : Z := sum (map tweight h).

#[local] Instance total_proper : Proper (Permutation ==> eq) total.
Proof. intros h k H. unfold total. by rewrite H. Qed.

Lemma sum_nonneg l : Forall (fun w => 0 <= w) l -> 0 <= sum l.
Proof. induction 1; unfold sum in *; simpl; lia. Qed.

(** Members of the heap end up inside the tree. *)
Lemma hloop_height fuel : forall h t, hloop fuel h = [t] ->
  Forall (fun u => height (erase u) <= height (erase t))%nat h.
Proof.
  induction fuel as [|fuel IH]; intros h t; [cbn [hloop]; intros ->; by repeat constructor|].
  destruct h as [|x [|y l]]; cbn [hloop]; [done|intros [= ->]; by repeat constructor|].
  destruct (extract_max hcompare x (y :: l)) as [t1 r] eqn:E1.
  destruct r as [|z r]; [done|]. destruct (extract_max hcompare z r) as [t2 r2] eqn:E2.
  destruct (two_lightest _ _ _ _ _ _ _ _ _ E1 eq_refl E2) as (Hp & _).
  intros H%IH. rewrite <- Hp. apply Forall_cons_iff in H as [H Hr]. simpl in H.
  constructor; [lia|]. by constructor; [lia|].
Qed.

Lemma huffman_loop_spec fuel : forall h t, hloop fuel h = [t] -> (length h <= S fuel)%nat ->
  Forall (fun u => height (erase u) <= 128)%nat h ->
  Forall (fun u => 0 <= tweight u) h -> total h <= u32_MAX ->
  huffman_loop fuel (map entry h) =
  if (height (erase t) <=? 128)%nat then Val [entry t] else Throw (BuilderInvalidMerkleTreeDepth 128).
Proof.
  induction fuel as [|fuel IH]; intros h t Ht Hl Hh Hw Hs.
  1: destruct h as [|x [|]]; [done| |simpl in Hl; lia].
  2: destruct h as [|x [|y l]]; [done| |].
  1,2: simpl in Ht; injection Ht as ->; apply Forall_cons_iff in Hh as [Hh _];
    by rewrite (proj2 (Nat.leb_le _ _) Hh).
  pose proof (hloop_height _ _ _ Ht) as Hht. cbn [hloop] in Ht.
  destruct (extract_max hcompare x (y :: l)) as [t1 r] eqn:E1.
  pose proof (extract_max_length _ _ _ _ E1) as Hlr.
  destruct r as [|z r]; [done|]. destruct (extract_max hcompare z r) as [t2 r2] eqn:E2.
  pose proof (extract_max_length _ _ _ _ E2) as Hlr2.
  destruct (two_lightest _ _ _ _ _ _ _ _ _ E1 eq_refl E2) as (Hp & _).
  pose proof (hloop_height _ _ _ Ht) as Hht'. apply Forall_cons_iff in Hht' as [Hnode _].
  rewrite <- Hp in Hh, Hw, Hs. clear Hp Hht.
  apply Forall_cons_iff in Hh as [Hh1 Hh]. apply Forall_cons_iff in Hh as [Hh2 Hh].
  apply Forall_cons_iff in Hw as [Hw1 Hw]. apply Forall_cons_iff in Hw as [Hw2 Hw].
  unfold total, sum in Hs. cbn [map foldr] in Hs. fold (sum (map tweight r2)) in Hs.
  pose proof (sum_nonneg (map tweight r2) (proj2 (Forall_map _ _ _) Hw)) as Hn.
  cbn [huffman_loop map length Nat.ltb Nat.leb heap_pop].
  change (entry y :: map entry l) with (map entry (y :: l)).
  rewrite extract_max_map, E1. unfold entry at 1. cbn [map heap_pop].
  rewrite extract_max_map, E2. unfold entry at 1.
  unfold saturating_add_u32. rewrite Z.min_l by lia. rewrite combine_trees by done.
  destruct (Nat.leb_spec (height (erase (BNode t2 t1))) 128) as [Hle|Hgt].
  - cbn [of_result]. rewrite bind_Val.
    rewrite <- (IH (BNode t2 t1 :: r2) t Ht); [|simpl in *; lia|by constructor| |].
    + cbn [map]. unfold entry at 2. rewrite tweight_node. by rewrite Z.add_comm.
    + constructor; [rewrite tweight_node; lia|done].
    + unfold total, sum. cbn [map foldr]. fold (sum (map tweight r2)).
      rewrite tweight_node. lia.
  - cbn [of_result]. rewrite (proj2 (Nat.leb_gt _ _)) by lia. done.
Qed.

Lemma initial_heap (ws : list (Z * list byte)) : forall acc,
  fold_left (fun heap '(p, leaf) => (p, new_leaf_with_ver leaf TapScript) :: heap) ws acc =
  map entry (rev (map BLeaf ws)) ++ acc.
Proof.
  induction ws as [|[w s] ws IH]; intros acc; simpl; [done|].
  rewrite IH, map_app, <- app_assoc. simpl. do 3 f_equal. unfold entry. simpl. f_equal.
  unfold tweight, sum. simpl. lia.
Qed.

(** C16: [with_huffman_tree] is optimal.  For a non-empty list of weighted scripts whose
    weights sum to at most [u32::MAX], it builds a tree over exactly those scripts in which the sum
    of weight times length of merkle proof is least among all binary trees over them, or
    reports that this tree is deeper than 128; it does not panic. *)
Theorem huffman_tree_optimal {bm : BuildMode} (ws : list (Z * list byte))
    (Hne : ws <> []) (Hw : Forall (fun p => 0 <= fst p) ws) (Hs : sum (map fst ws) <= u32_MAX) :
  exists t : HTree, Permutation (labels t) ws /\
    (forall t' : HTree, Permutation (labels t') ws -> path_length t <= path_length t') /\
    with_huffman_tree ws =
      if (height (erase t) <=? 128)%nat then Val [Some (info (erase t))]
      else Throw (BuilderInvalidMerkleTreeDepth 128).
Proof.
  set (h := rev (map BLeaf ws)).
  assert (Permutation h (map BLeaf ws)) as Hh by (symmetry; apply Permutation_rev).
  assert (length h = length ws) as Hlen by (unfold h; by rewrite length_rev, length_map).
  assert (h <> []) as Hhne by (intros E; rewrite E in Hlen; by destruct ws).
  destruct (hloop_optimal (length h) h Hhne (Nat.le_succ_diag_r _)) as (t & Et & Hlab & Hopt).
  exists t. split; [|split].
  - rewrite Hlab, Hh. clear. induction ws as [|w ws IH]; simpl; [done|by rewrite IH].
  - intros t' Ht'. destruct (relabel t' (map fst (labels t'))) as (u & Eu & Hu); [by rewrite length_map|].
    specialize (Hopt u). unfold cost in Hopt. rewrite Eu, Hu in Hopt.
    assert (sum (map path_length h) = 0) as E0.
    { rewrite Hh. clear. induction ws as [|w ws IH]; [done|]. unfold sum in *. simpl.
      by rewrite IH. }
    rewrite E0, Z.add_0_r in Hopt. apply Hopt. rewrite Ht', Hh. clear.
    induction ws as [|[w s] ws IH]; simpl; [done|]. rewrite IH. unfold tweight, sum. simpl.
    by rewrite Z.add_0_r.
  - unfold with_huffman_tree. rewrite initial_heap, app_nil_r. fold h.
    rewrite length_map. destruct (Nat.eqb_spec (length h) 0) as [E|_];
      [by destruct h|].
    rewrite (huffman_loop_spec (length h) h t Et).
    + destruct (height (erase t) <=? 128)%nat; [|done]. rewrite bind_Val.
      unfold debug_assert. simpl. by rewrite andb_false_r.
    + lia.
    + rewrite Hh. apply Forall_map. apply Forall_true. intros [w s]. simpl. lia.
    + rewrite Hh. apply Forall_map. eapply Forall_impl; [|exact Hw]. intros [w s]. simpl.
      unfold tweight, sum. simpl. lia.
    + unfold total. rewrite Hh. clear -Hs. assert (map tweight (map BLeaf ws) = map fst ws) as ->; [|done].
      rewrite map_map. apply map_ext. intros [w s]. unfold tweight, sum. simpl. lia.
Qed.

Lemma huffman_tree_optimal_witness :
  let ws := [(3, [Byte.x51]); (2, [Byte.x52]); (5, [Byte.x53])] in
  exists t : HTree, Permutation (labels t) ws /\
    (forall t' : HTree, Permutation (labels t') ws -> path_length t <= path_length t') /\
    @with_huffman_tree true ws =
      if (height (erase t) <=? 128)%nat then Val [Some (info (erase t))]
      else Throw (BuilderInvalidMerkleTreeDepth 128).
Proof.
  apply (huffman_tree_optimal (bm:=true) [(3, [Byte.x51]); (2, [Byte.x52]); (5, [Byte.x53])]).
  - discriminate.
  - repeat constructor; simpl; lia.
  - vm_compute. discriminate.
Defined.

(** The documentation's example: weights 3, 2 and 5 put the third script at depth one. *)
Example huffman_example :
  match @with_huffman_tree true [(3, [Byte.x51]); (2, [Byte.x52]); (5, [Byte.x53])] with
  | Val [Some n] =>
      map (fun l => (leaf l, length (merkle_branch l))) (leaves n) =
      [(Script [Byte.x51] TapScript, 2%nat); (Script [Byte.x52] TapScript, 2%nat);
       (Script [Byte.x53] TapScript, 1%nat)]
  | _ => False
  end.
Proof. vm_compute. reflexivity. Qed.
