(* ===== verification/Witness.v ===== *)
(** * Witnesses ([blockdata/witness.rs])

    A witness is a stack of byte strings kept in one buffer: the length-prefixed
    elements, then one 32-bit offset per element.  [witness_of] is the buffer that
    stands for a given stack; every operation is shown to act on stacks.  Offsets are in
    native byte order in the source, little endian here. *)

From Stdlib Require Import ZArith Lia.
From coqutil Require Import Byte Word.LittleEndianList.
From stdpp Require Import base tactics option list numbers.
From S2P Require Import Prelude Io Encode.

#[local] Open Scope Z_scope.

Record Witness := mkWitness {
  content : list byte;
  witness_elements : Z;
  indices_start : Z;
}.

#[export] Instance Witness_eq_dec : EqDecision Witness.
Proof. solve_decision. Defined.

(** [encode_cursor] and [decode_cursor]; the former panics beyond 32 bits. *)
Definition encode_cursor (bytes : list byte) (start_of_indices index value : Z) : run (list byte) :=
  let start := start_of_indices + index * 4 in
  _ ← assert_ (in_ub 32 value);
  _ ← assert_ (start + 4 <=? Z.of_nat (length bytes));
  Ret (copy_at (Z.to_nat start) (le_split 4 value) bytes).

Definition decode_cursor (bytes : list byte) (start_of_indices index : Z) : option Z :=
  let start := start_of_indices + index * 4 in
  let end_ := start + 4 in
  if Z.of_nat (length bytes) <? end_ then None
  else Some (le_combine (take 4 (drop (Z.to_nat start) bytes))).

(** [resize_if_needed]: doubling until the buffer is longer than required. *)
Fixpoint double_until (fuel : nat) (new_len required_len : Z) : Z :=
  match fuel with
  | O => new_len
  | S fuel => if new_len <=? required_len then double_until fuel (new_len * 2) required_len else new_len
  end.

Definition resize (vec : list byte) (new_len : Z) : list byte :=
  take (Z.to_nat new_len) vec ++ replicate (Z.to_nat new_len - length vec) Byte.x00.

Definition resize_if_needed (vec : list byte) (required_len : Z) : list byte :=
  let len := Z.of_nat (length vec) in
  if len <=? required_len then resize vec (double_until 64 (Z.max len 1) required_len) else vec.

(** ** Operations *)

Definition new : Witness := mkWitness [] 0 0.

Definition from_slice_step (content_size : Z) (acc : run (list byte * Z * Z)) (elem : list byte) :
    run (list byte * Z * Z) :=
  '(content, cursor, i) ← acc;
  content ← encode_cursor content content_size i cursor;
  let elem_len_varint := Z.of_nat (length elem) in
  let content := copy_at (Z.to_nat cursor) (bytes_of VarInt elem_len_varint) content in
  let cursor := cursor + varint_size elem_len_varint in
  let content := copy_at (Z.to_nat cursor) elem content in
  Ret (content, cursor + Z.of_nat (length elem), i + 1).

Definition from_slice (slice : list (list byte)) : run Witness :=
  let witness_elements := Z.of_nat (length slice) in
  let index_size := witness_elements * 4 in
  let content_size := foldr Z.add 0
    (map (fun elem => Z.of_nat (length elem) + varint_size (Z.of_nat (length elem))) slice) in
  let content := replicate (Z.to_nat (content_size + index_size)) Byte.x00 in
  '(content, _, _) ← fold_left (from_slice_step content_size) slice (Ret (content, 0, 0));
  Ret (mkWitness content witness_elements content_size).

(** [slice.rotate_right(k)] *)
Definition rotate_right (k : nat) (l : list byte) : list byte :=
  drop (length l - k) l ++ take (length l - k) l.
Definition rotate_left (k : nat) (l : list byte) : list byte := drop k l ++ take k l.

Definition push_slice (self : Witness) (new_element : list byte) : run Witness :=
  let elements := witness_elements self + 1 in
  let previous_content_end := indices_start self in
  let len := Z.of_nat (length new_element) in
  let current_content_len := Z.of_nat (length (content self)) in
  let new_item_total_len := varint_size len + len in
  let content := resize (content self) (current_content_len + new_item_total_len + 4) in
  let e := Z.to_nat previous_content_end in
  let content := take e content ++ rotate_right (Z.to_nat new_item_total_len) (drop e content) in
  let start := previous_content_end + new_item_total_len in
  content ← encode_cursor content start (elements - 1) previous_content_end;
  let end_varint := previous_content_end + varint_size len in
  let content := copy_at e (bytes_of VarInt len) content in
  let content := copy_at (Z.to_nat end_varint) new_element content in
  Ret (mkWitness content elements start).

(** [&self.content[start..end]]: a panic out of range. *)
Definition slice_range (bs : list byte) (start len : Z) : run (list byte) :=
  _ ← assert_ (start + len <=? Z.of_nat (length bs));
  Ret (take (Z.to_nat len) (drop (Z.to_nat start) bs)).

Definition element_at (self : Witness) (index : Z) : run (option (list byte)) :=
  _ ← assert_ (index <=? Z.of_nat (length (content self)));
  match on_slice (consensus_decode VarInt) (drop (Z.to_nat index) (content self)) with
  | Err _ => Ret None
  | Ok (varint, _) =>
      let start := index + varint_size varint in
      bs ← slice_range (content self) start varint;
      Ret (Some bs)
  end.

Definition nth (self : Witness) (index : Z) : run (option (list byte)) :=
  match decode_cursor (content self) (indices_start self) index with
  | None => Ret None
  | Some pos => element_at self pos
  end.

Definition is_empty (self : Witness) : bool := witness_elements self =? 0.

Definition last (self : Witness) : run (option (list byte)) :=
  if witness_elements self =? 0 then Ret None else nth self (witness_elements self - 1).
Definition second_to_last (self : Witness) : run (option (list byte)) :=
  if witness_elements self <=? 1 then Ret None else nth self (witness_elements self - 2).
Definition third_to_last (self : Witness) : run (option (list byte)) :=
  if witness_elements self <=? 2 then Ret None else nth self (witness_elements self - 3).

Definition clear (self : Witness) : Witness := mkWitness [] 0 0.

(** [Iter::next] at [current_index], and the elements it runs through.  The indices
    bound the number of elements. *)
Definition iter_next (self : Witness) (current_index : Z) : run (option (list byte)) :=
  nth self current_index.

Fixpoint iter_from (fuel : nat) (self : Witness) (current_index : Z) : run (list (list byte)) :=
  match fuel with
  | O => Ret []
  | S fuel =>
      o ← iter_next self current_index;
      match o with
      | None => Ret []
      | Some x => xs ← iter_from fuel self (current_index + 1); Ret (x :: xs)
      end
  end.

Definition to_vec (self : Witness) : run (list (list byte)) :=
  iter_from (length (content self)) self 0.

Definition size (self : Witness) : run Z :=
  els ← to_vec self;
  Ret (varint_size (witness_elements self) +
       foldr Z.add 0 (map (fun e => varint_size (Z.of_nat (length e)) + Z.of_nat (length e)) els)).

(** Taproot spends ([P2TrSpend::from_witness]). *)
Inductive P2TrSpend :=
| Key (annex : option (list byte))
| Script (leaf_script control_block : list byte) (annex : option (list byte)).

Definition TAPROOT_ANNEX_PREFIX : byte := byte.of_Z 0x50.

(** [expect] on an option. *)
Definition expect {A} (m : run (option A)) : run A :=
  o ← m; match o with Some a => Ret a | None => Panic end.

Definition starts_with (b : byte) (l : list byte) : bool :=
  match l with x :: _ => bool_decide (x = b) | [] => false end.

Definition from_witness (witness : Witness) : run (option P2TrSpend) :=
  let len := witness_elements witness in
  if len =? 0 then Ret None
  else if len =? 1 then Ret (Some (Key None))
  else
    l ← expect (last witness);
    if starts_with TAPROOT_ANNEX_PREFIX l then
      if len =? 2 then Ret (Some (Key (Some l)))
      else
        leaf_script ← expect (third_to_last witness);
        control_block ← expect (second_to_last witness);
        Ret (Some (Script leaf_script control_block (Some l)))
    else
      leaf_script ← expect (second_to_last witness);
      Ret (Some (Script leaf_script l None)).

(** ** Consensus encoding *)

Definition witness_encode (self : Witness) : list byte * Z :=
  let len := witness_elements self in
  let content_with_indices_len := Z.of_nat (length (content self)) in
  let indices_size := witness_elements self * 4 in
  let content_len := content_with_indices_len - indices_size in
  (bytes_of VarInt len ++ take (Z.to_nat content_len) (content self),
   content_len + varint_size len).

(** One element: its position in the index space at the head, its length prefix and its
    bytes at the cursor. *)
Definition witness_step (witness_index_space : Z) (st : Z * list byte * Z) :
    Decoder (Z * list byte * Z) :=
  let '(i, content, cursor) := st in
  element_size ← consensus_decode VarInt;
  let element_size_varint_len := varint_size element_size in
  if u64_MAX <? cursor + element_size then
    dfail (OversizedVectorAllocation u64_MAX MAX_VEC_SIZE)
  else if u64_MAX <? cursor + element_size + element_size_varint_len then
    dfail (OversizedVectorAllocation u64_MAX MAX_VEC_SIZE)
  else
  let required_len := cursor + element_size + element_size_varint_len in
  if MAX_VEC_SIZE + witness_index_space <? required_len then
    dfail (OversizedVectorAllocation required_len MAX_VEC_SIZE)
  else
  let content := copy_at (Z.to_nat (i * 4)) (le_split 4 (cursor - witness_index_space)) content in
  let content := resize_if_needed content required_len in
  let content := copy_at (Z.to_nat cursor) (bytes_of VarInt element_size) content in
  let cursor := cursor + element_size_varint_len in
  bs ← read_slice (Z.to_nat element_size);
  let content := copy_at (Z.to_nat cursor) bs content in
  mret (i + 1, content, cursor + element_size).

Definition witness_decode : Decoder Witness :=
  witness_elements ← consensus_decode VarInt;
  if MAX_VEC_SIZE <? witness_elements then
    dfail (OversizedVectorAllocation witness_elements MAX_VEC_SIZE)
  else if witness_elements =? 0 then mret new
  else
    let witness_index_space := witness_elements * 4 in
    let content := replicate (Z.to_nat (witness_index_space + 128)) Byte.x00 in
    '(_, content, cursor) ←
      for_ witness_elements (witness_step witness_index_space) (0, content, witness_index_space);
    let content := take (Z.to_nat cursor) content in
    let content := rotate_left (Z.to_nat witness_index_space) content in
    mret (mkWitness content witness_elements (cursor - witness_index_space)).

Definition WitnessC : Consensus Witness := simple witness_encode witness_decode.

(** ** The buffer of a stack *)

(** A length-prefixed element, and the offsets of the elements from [start] on. *)
Definition item (x : list byte) : list byte := bytes_of VarInt (Z.of_nat (length x)) ++ x.
Definition items (l : list (list byte)) : list byte := l ≫= item.

Fixpoint offsets (start : Z) (l : list (list byte)) : list Z :=
  match l with
  | [] => []
  | x :: l => start :: offsets (start + Z.of_nat (length (item x))) l
  end.

Definition indices (l : list (list byte)) : list byte := offsets 0 l ≫= le_split 4.

#[global] Arguments item : simpl never.
#[global] Arguments items : simpl never.
#[global] Arguments indices : simpl never.

Definition witness_of (l : list (list byte)) : Witness :=
  mkWitness (items l ++ indices l) (Z.of_nat (length l)) (Z.of_nat (length (items l))).

Example witness_tests :
  let l := map (map byte.of_Z) [[1; 2; 3]; []; [4]] in
  from_slice l = Ret (witness_of l) /\ to_vec (witness_of l) = Ret l /\
  push_slice (witness_of l) (map byte.of_Z [9; 9]) = Ret (witness_of (l ++ [map byte.of_Z [9; 9]])) /\
  on_slice witness_decode (fst (witness_encode (witness_of l))) = Ok (witness_of l, []).
Proof. vm_compute. repeat split. Qed.

(** *** The layout of a stack *)

Definition stack_ok (l : list (list byte)) : Prop := Z.of_nat (length (items l)) < 2 ^ 32.

Lemma items_app l1 l2 : items (l1 ++ l2) = items l1 ++ items l2.
Proof. apply bind_app. Qed.

Lemma items_cons x l : items (x :: l) = item x ++ items l.
Proof. done. Qed.

Lemma item_length x : Z.of_nat (length x) < 2 ^ 64 ->
  Z.of_nat (length (item x)) = varint_size (Z.of_nat (length x)) + Z.of_nat (length x).
Proof.
  intros Hx. unfold item. rewrite length_app, Nat2Z.inj_add. f_equal.
  apply varint_bytes_length. unfold in_u. lia.
Qed.

Lemma varint_size_pos v : 1 <= varint_size v <= 9.
Proof. unfold varint_size. zcases; lia. Qed.

Lemma offsets_app s l1 l2 :
  offsets s (l1 ++ l2) = offsets s l1 ++ offsets (s + Z.of_nat (length (items l1))) l2.
Proof.
  revert s. induction l1 as [|x l1 IH]; intros s; cbn [app offsets].
  - by rewrite Z.add_0_r.
  - rewrite IH, items_cons, length_app. do 3 f_equal. lia.
Qed.

Lemma indices_app l1 l2 : indices (l1 ++ l2) =
  indices l1 ++ (offsets (Z.of_nat (length (items l1))) l2 ≫= le_split 4).
Proof. unfold indices. by rewrite offsets_app, bind_app. Qed.

Lemma offset_bytes_length s l : length (offsets s l ≫= le_split 4) = (4 * length l)%nat.
Proof.
  revert s. induction l as [|x l IH]; intros s; [done|]. cbn [offsets].
  rewrite bind_cons, length_app, length_le_split, IH. simpl length. lia.
Qed.

Lemma indices_length l : length (indices l) = (4 * length l)%nat.
Proof. apply offset_bytes_length. Qed.

Lemma items_length_ge l : (length l <= length (items l))%nat.
Proof.
  induction l as [|x l IH]; [done|]. rewrite items_cons, length_app. simpl length.
  assert (1 <= length (item x))%nat; [|lia]. unfold item. rewrite length_app.
  change (bytes_of VarInt (Z.of_nat (length x))) with (fst (varint_encode (Z.of_nat (length x)))).
  unfold varint_encode. zcases; simpl; lia.
Qed.

Lemma stack_ok_split l1 x l2 : stack_ok (l1 ++ x :: l2) ->
  Z.of_nat (length (items l1) + length (item x) + length (items l2)) < 2 ^ 32 /\
  Z.of_nat (length x) < 2 ^ 32.
Proof.
  unfold stack_ok. rewrite items_app, items_cons, !length_app. intros.
  split; [lia|]. unfold item in *. rewrite length_app in *. lia.
Qed.

Lemma item_dec x rest : Z.of_nat (length x) < 2 ^ 64 ->
  on_slice (consensus_decode VarInt) (item x ++ rest) = Ok (Z.of_nat (length x), x ++ rest).
Proof.
  intros. unfold item. rewrite <- app_assoc. apply varint_dec. unfold in_u. lia.
Qed.

(** The element at an offset of the buffer. *)
Lemma element_at_spec l1 x l2 tail n s : Z.of_nat (length x) < 2 ^ 64 ->
  element_at (mkWitness (items l1 ++ item x ++ items l2 ++ tail) n s) (Z.of_nat (length (items l1))) =
  Ret (Some x).
Proof.
  intros Hx. unfold element_at. cbn [content]. rewrite (proj2 (Z.leb_le _ _)) by (rewrite length_app; lia).
  cbn [assert_]. rewrite bind_Ret, Nat2Z.id, drop_app_length, item_dec by done.
  pose proof (item_length x Hx) as Hi. pose proof (varint_size_pos (Z.of_nat (length x))).
  unfold slice_range.
  rewrite (proj2 (Z.leb_le _ _)) by (rewrite !length_app; lia). cbn [assert_]. rewrite !bind_Ret.
  do 2 f_equal. unfold item. rewrite <- !app_assoc, app_assoc.
  rewrite drop_app_length'; [by rewrite Nat2Z.id, take_app_length|].
  unfold item in Hi. rewrite length_app in *. lia.
Qed.

Lemma nth_spec l i : stack_ok l -> nth (witness_of l) (Z.of_nat i) = Ret (l !! i).
Proof.
  intros Hl. unfold nth, witness_of. cbn [content indices_start]. unfold decode_cursor.
  rewrite length_app, indices_length.
  destruct (l !! i) as [x|] eqn:E.
  - apply lookup_lt_Some in E as Hi. rewrite (proj2 (Z.ltb_ge _ _)) by lia.
    pose proof (take_drop_middle l i x E) as Hsp. set (l1 := take i l) in *. set (l2 := drop (S i) l) in *.
    assert (length l1 = i) as Hl1 by (unfold l1; rewrite length_take; lia).
    rewrite <- Hsp in *. apply stack_ok_split in Hl as [Hs Hx].
    assert (drop (Z.to_nat (Z.of_nat (length (items (l1 ++ x :: l2))) + Z.of_nat i * 4))
      (items (l1 ++ x :: l2) ++ indices (l1 ++ x :: l2)) =
      le_split 4 (Z.of_nat (length (items l1))) ++
      (offsets (Z.of_nat (length (items l1)) + Z.of_nat (length (item x))) l2 ≫= le_split 4)) as ->.
    { rewrite indices_app, app_assoc. cbn [offsets]. rewrite bind_cons.
      apply drop_app_length'. rewrite length_app, indices_length. lia. }
    rewrite take_app_length' by (by rewrite length_le_split).
    rewrite le_combine_split, Z.mod_small by (simpl; lia).
    rewrite items_app, items_cons, <- !app_assoc. apply element_at_spec. lia.
  - apply lookup_ge_None in E. by rewrite (proj2 (Z.ltb_lt _ _)) by lia.
Qed.

Lemma iter_from_spec l : stack_ok l -> forall fuel i, (length l <= i + fuel)%nat -> (0 < fuel)%nat ->
  iter_from fuel (witness_of l) (Z.of_nat i) = Ret (drop i l).
Proof.
  intros Hl. induction fuel as [|fuel IH]; intros i Hf H0; [lia|]. cbn [iter_from]. unfold iter_next.
  rewrite nth_spec, bind_Ret by done. destruct (l !! i) as [x|] eqn:E.
  - rewrite (drop_S _ _ _ E). replace (Z.of_nat i + 1) with (Z.of_nat (S i)) by lia.
    destruct (Nat.eq_dec fuel 0%nat) as [->|].
    + apply lookup_lt_Some in E. cbn [iter_from]. rewrite bind_Ret. by rewrite drop_ge by lia.
    + by rewrite IH, bind_Ret by lia.
  - apply lookup_ge_None in E. by rewrite drop_ge by done.
Qed.

Lemma to_vec_spec l : stack_ok l -> to_vec (witness_of l) = Ret l.
Proof.
  intros Hl. unfold to_vec, witness_of; cbn [content]. destruct l as [|x l]; [done|].
  change 0 with (Z.of_nat 0). rewrite (iter_from_spec (x :: l) Hl); [by rewrite drop_0|..];
    rewrite length_app, indices_length; simpl length; lia.
Qed.

(** *** Building a stack *)

Lemma le_split_length4 v : length (le_split 4 v) = 4%nat.
Proof. apply length_le_split. Qed.

Lemma content_size_spec l : stack_ok l ->
  foldr Z.add 0 (map (fun elem => Z.of_nat (length elem) + varint_size (Z.of_nat (length elem))) l) =
  Z.of_nat (length (items l)).
Proof.
  induction l as [|x l IH]; intros Hl; [done|]. destruct (stack_ok_split [] x l Hl) as [Hs Hx].
  cbn [map foldr]. rewrite IH, items_cons, length_app by (unfold stack_ok; lia).
  pose proof (item_length x ltac:(lia)). lia.
Qed.

(** The buffer after the elements [l1], with room for [l2]. *)
Definition partial (l1 l2 : list (list byte)) : list byte :=
  items l1 ++ replicate (length (items l2)) Byte.x00 ++ indices l1 ++
  replicate (4 * length l2) Byte.x00.

Lemma from_slice_step_spec l1 x l2 : stack_ok (l1 ++ x :: l2) ->
  from_slice_step (Z.of_nat (length (items (l1 ++ x :: l2))))
    (Ret (partial l1 (x :: l2), Z.of_nat (length (items l1)), Z.of_nat (length l1))) x =
  Ret (partial (l1 ++ [x]) l2, Z.of_nat (length (items (l1 ++ [x]))), Z.of_nat (length (l1 ++ [x]))).
Proof.
  intros Hl. destruct (stack_ok_split l1 x l2 Hl) as [Hs Hx]. unfold from_slice_step.
  rewrite bind_Ret. unfold encode_cursor, partial.
  rewrite (proj2 (in_ub_spec 32 _)) by (unfold in_u; lia). cbn [assert_]. rewrite bind_Ret.
  rewrite (proj2 (Z.leb_le _ _)).
  2: { rewrite items_app, items_cons, !length_app, !length_replicate, indices_length. simpl length. lia. }
  cbn [assert_]. rewrite !bind_Ret.
  replace (4 * length (x :: l2))%nat with (4 + 4 * length l2)%nat by (simpl; lia).
  rewrite (replicate_add 4), items_cons, length_app, (replicate_add (length (item x))).
  assert (forall (A B C D E F : list byte), A ++ (B ++ C) ++ D ++ E ++ F = (A ++ B ++ C ++ D) ++ E ++ F) as Eq1
    by (intros; by rewrite <- !app_assoc).
  rewrite Eq1, copy_at_app; [|rewrite !length_app, !length_replicate, indices_length, items_app, items_cons, !length_app; lia|done].
  set (off := Z.of_nat (length (items l1))) in *.
  pose proof (item_length x ltac:(lia)) as Hi. pose proof (varint_size_pos (Z.of_nat (length x))).
  pose proof (varint_bytes_length (Z.of_nat (length x)) ltac:(unfold in_u; lia)) as Hv.
  assert (replicate (length (item x)) Byte.x00 =
    replicate (length (bytes_of VarInt (Z.of_nat (length x)))) Byte.x00 ++ replicate (length x) Byte.x00) as ->.
  { rewrite <- replicate_add. f_equal. lia. }
  rewrite <- !app_assoc. unfold off. rewrite Nat2Z.id, copy_at_app by (done || by rewrite length_replicate).
  rewrite (app_assoc (items l1)), copy_at_app by (rewrite ?length_app, ?length_replicate; done || lia).
  rewrite !items_app, !indices_app, !length_app. cbn [offsets length]. rewrite bind_singleton.
  change (items [x]) with (item x ++ []). rewrite app_nil_r. unfold item at 1. rewrite <- !app_assoc.
  do 3 f_equal; lia.
Qed.

Lemma from_slice_fold l2 : forall l1, stack_ok (l1 ++ l2) ->
  fold_left (from_slice_step (Z.of_nat (length (items (l1 ++ l2))))) l2
    (Ret (partial l1 l2, Z.of_nat (length (items l1)), Z.of_nat (length l1))) =
  Ret (partial (l1 ++ l2) [], Z.of_nat (length (items (l1 ++ l2))), Z.of_nat (length (l1 ++ l2))).
Proof.
  induction l2 as [|x l2 IH]; intros l1 Hl; [by rewrite app_nil_r|]. cbn [fold_left].
  rewrite from_slice_step_spec by done. specialize (IH (l1 ++ [x])).
  rewrite <- app_assoc in IH. by apply IH.
Qed.

Lemma from_slice_spec l : stack_ok l -> from_slice l = Ret (witness_of l).
Proof.
  intros Hl. unfold from_slice. rewrite content_size_spec by done.
  pose proof (from_slice_fold l [] Hl) as Hf. unfold partial in Hf. cbn [app] in Hf.
  change (items []) with (@nil byte) in Hf. change (indices []) with (@nil byte) in Hf.
  cbn [length app] in Hf. rewrite <- replicate_add in Hf.
  replace (Z.to_nat (Z.of_nat (length (items l)) + Z.of_nat (length l) * 4))
    with (length (items l) + 4 * length l)%nat by lia.
  change 0 with (Z.of_nat 0). rewrite Hf, bind_Ret. unfold witness_of. do 2 f_equal.
  simpl replicate. by rewrite app_nil_r.
Qed.

Lemma resize_grow v n : Z.of_nat (length v) <= n ->
  resize v n = v ++ replicate (Z.to_nat n - length v) Byte.x00.
Proof. intros. unfold resize. by rewrite take_ge by lia. Qed.

Lemma rotate_right_app k (a b : list byte) : length b = k -> rotate_right k (a ++ b) = b ++ a.
Proof.
  intros <-. unfold rotate_right. rewrite length_app, Nat.add_sub.
  by rewrite drop_app_length, take_app_length.
Qed.

Lemma rotate_left_app k (a b : list byte) : length a = k -> rotate_left k (a ++ b) = b ++ a.
Proof. intros <-. unfold rotate_left. by rewrite drop_app_length, take_app_length. Qed.

Lemma push_slice_spec l x : stack_ok (l ++ [x]) ->
  push_slice (witness_of l) x = Ret (witness_of (l ++ [x])).
Proof.
  intros Hl. destruct (stack_ok_split l x [] Hl) as [Hs Hx]. unfold push_slice, witness_of.
  cbn [content witness_elements indices_start].
  pose proof (item_length x ltac:(lia)) as Hi. pose proof (varint_size_pos (Z.of_nat (length x))).
  pose proof (varint_bytes_length (Z.of_nat (length x)) ltac:(unfold in_u; lia)) as Hv.
  rewrite resize_grow by lia. rewrite Nat2Z.id, <- app_assoc, take_app_length, drop_app_length.
  replace (Z.to_nat (Z.of_nat (length (items l ++ indices l)) + (varint_size (Z.of_nat (length x)) + Z.of_nat (length x)) + 4)
    - length (items l ++ indices l))%nat with (4 + length (item x))%nat by lia.
  rewrite replicate_add, app_assoc, rotate_right_app by (rewrite length_replicate; lia).
  replace (Z.of_nat (length l) + 1 - 1) with (Z.of_nat (length l)) by lia.
  unfold encode_cursor. rewrite (proj2 (in_ub_spec 32 _)) by (unfold in_u; lia). cbn [assert_]. rewrite bind_Ret.
  rewrite (proj2 (Z.leb_le _ _)) by (rewrite !length_app, !length_replicate, indices_length; lia).
  cbn [assert_]. rewrite !bind_Ret.
  assert (forall (A B C D : list byte), A ++ B ++ C ++ D = (A ++ B ++ C) ++ D) as Eq1
    by (intros; by rewrite <- !app_assoc).
  rewrite Eq1, copy_at_end; [|rewrite !length_app, length_replicate, indices_length; lia|done].
  assert (replicate (length (item x)) Byte.x00 =
    replicate (length (bytes_of VarInt (Z.of_nat (length x)))) Byte.x00 ++ replicate (length x) Byte.x00) as ->.
  { rewrite <- replicate_add. f_equal. lia. }
  rewrite <- !app_assoc, copy_at_app by (done || by rewrite length_replicate).
  rewrite (app_assoc (items l)), copy_at_app by (rewrite ?length_app, ?length_replicate; done || lia).
  rewrite !items_app, !indices_app, !length_app. cbn [offsets length]. rewrite bind_singleton.
  change (items [x]) with (item x ++ []). rewrite app_nil_r. unfold item at 1. rewrite <- !app_assoc.
  do 2 f_equal; lia.
Qed.

(** *** Encoding and decoding a stack *)

Lemma witness_encode_spec l : witness_encode (witness_of l) =
  (bytes_of VarInt (Z.of_nat (length l)) ++ items l,
   Z.of_nat (length (items l)) + varint_size (Z.of_nat (length l))).
Proof.
  unfold witness_encode, witness_of. cbn [content witness_elements].
  rewrite length_app, indices_length.
  replace (Z.of_nat (length (items l) + 4 * length l) - Z.of_nat (length l) * 4)
    with (Z.of_nat (length (items l))) by lia.
  by rewrite Nat2Z.id, take_app_length.
Qed.

Lemma double_until_gt fuel : forall a r, 1 <= a -> r < a * 2 ^ Z.of_nat fuel ->
  r < double_until fuel a r /\ a <= double_until fuel a r.
Proof.
  induction fuel as [|fuel IH]; intros a r Ha Hr; cbn [double_until].
  - simpl in Hr. lia.
  - destruct (Z.leb_spec a r); [|lia].
    destruct (IH (a * 2) r) as [H1 H2]; [lia| |lia].
    rewrite Nat2Z.inj_succ, Z.pow_succ_r in Hr by lia. lia.
Qed.

Lemma resize_if_needed_spec v r : r < 2 ^ 63 ->
  exists k, resize_if_needed v r = v ++ replicate k Byte.x00 /\
    r < Z.of_nat (length v + k).
Proof.
  intros Hr. unfold resize_if_needed. destruct (Z.leb_spec (Z.of_nat (length v)) r).
  - destruct (double_until_gt 64 (Z.max (Z.of_nat (length v)) 1) r) as [H1 H2]; [lia|lia|].
    set (d := double_until _ _ _) in *. rewrite resize_grow by lia.
    eexists. split; [done|]. lia.
  - exists 0%nat. split; [by rewrite app_nil_r|]. lia.
Qed.

(** The buffer while decoding: the offsets so far at the head, room for the others, the
    elements, and whatever space is left. *)
Definition decoding (n : nat) (l : list (list byte)) (buf : list byte) : Prop :=
  exists mid tail, buf = indices l ++ mid ++ items l ++ tail /\
    length mid = (4 * (n - length l))%nat.

Definition decode_state (n : nat) (l : list (list byte)) (buf : list byte) : Z * list byte * Z :=
  (Z.of_nat (length l), buf, Z.of_nat (4 * n + length (items l))).

(** One element accepted, exactly when the total stays within [MAX_VEC_SIZE]. *)
Lemma witness_step_Ok n l buf x rest : decoding n l buf -> (length l < n)%nat ->
  Z.of_nat n <= MAX_VEC_SIZE -> Z.of_nat (length (items (l ++ [x]))) <= MAX_VEC_SIZE ->
  exists buf', decoding n (l ++ [x]) buf' /\
    on_slice (witness_step (Z.of_nat n * 4) (decode_state n l buf)) (item x ++ rest) =
    Ok (decode_state n (l ++ [x]) buf', rest).
Proof.
  intros (mid & tail & -> & Hmid) Hn Hmax Hx. unfold MAX_VEC_SIZE in *.
  rewrite items_app, length_app in Hx. change (items [x]) with (item x ++ []) in Hx. rewrite app_nil_r in Hx.
  assert (Z.of_nat (length x) < 2 ^ 64) as Hx64.
  { unfold item in Hx. rewrite length_app in Hx. lia. }
  pose proof (item_length x Hx64) as Hi. pose proof (varint_size_pos (Z.of_nat (length x))).
  pose proof (varint_bytes_length (Z.of_nat (length x)) ltac:(unfold in_u; lia)) as Hv.
  unfold decode_state, witness_step. rewrite on_slice_bind, item_dec by done.
  unfold u64_MAX, MAX_VEC_SIZE. rewrite !(proj2 (Z.ltb_ge _ _)) by lia.
  rewrite on_slice_bind, Nat2Z.id, on_slice_read_app, on_slice_ret by done.
  replace (Z.of_nat (4 * n + length (items l)) - Z.of_nat n * 4) with (Z.of_nat (length (items l))) by lia.
  replace mid with (take 4 mid ++ drop 4 mid) by apply take_drop.
  assert (length (take 4 mid) = 4%nat) as Hm4 by (rewrite length_take; lia).
  rewrite <- !app_assoc, copy_at_app by (rewrite ?indices_length, ?le_split_length4, ?Hm4; lia).
  set (c1 := indices l ++ le_split 4 _ ++ _).
  set (req := Z.of_nat (4 * n + length (items l)) + Z.of_nat (length x) + varint_size (Z.of_nat (length x))).
  destruct (resize_if_needed_spec c1 req) as (k & Hk & Hlen); [lia|]. rewrite Hk. unfold c1.
  rewrite <- !app_assoc. set (t := tail ++ replicate k Byte.x00).
  assert (length (item x) <= length t)%nat as Ht.
  { unfold c1, t in *. rewrite !length_app in *. rewrite le_split_length4, indices_length, !length_drop in Hlen.
    rewrite length_replicate in *. lia. }
  set (vb := bytes_of VarInt (Z.of_nat (length x))) in *.
  replace t with (take (length vb) t ++ take (length x) (drop (length vb) t) ++ drop (length x) (drop (length vb) t))
    by (by rewrite take_drop, take_drop).
  assert (length t >= length vb + length x)%nat as Ht2 by (unfold item in Ht; rewrite length_app in Ht; done).
  assert (forall (A B C D E : list byte), A ++ B ++ C ++ D ++ E = (A ++ B ++ C ++ D) ++ E) as Eq1
    by (intros; by rewrite <- !app_assoc).
  rewrite Eq1, copy_at_app; [| |rewrite length_take; lia].
  2: { rewrite !length_app, le_split_length4, indices_length, length_drop. lia. }
  rewrite app_assoc, copy_at_app; [| |rewrite length_take, length_drop; lia].
  2: { rewrite !length_app, le_split_length4, indices_length, length_drop. lia. }
  eexists. split.
  - exists (drop 4 mid), (drop (length x) (drop (length vb) t)). split.
    + rewrite indices_app. cbn [offsets]. rewrite bind_singleton, items_app. change (items [x]) with (item x ++ []).
      rewrite app_nil_r. unfold item. fold vb. by rewrite <- !app_assoc.
    + rewrite length_drop, length_app, Hmid. simpl length. lia.
  - do 2 f_equal. rewrite items_app, !length_app. change (items [x]) with (item x ++ []). rewrite app_nil_r.
    simpl length. f_equal; [f_equal|]; lia || by rewrite <- !app_assoc.
Qed.

Lemma witness_step_inv n l buf bs st rest : Z.of_nat n <= MAX_VEC_SIZE ->
  on_slice (witness_step (Z.of_nat n * 4) (decode_state n l buf)) bs = Ok (st, rest) ->
  exists x, bs = item x ++ rest /\ Z.of_nat (length (items (l ++ [x]))) <= MAX_VEC_SIZE.
Proof.
  intros Hn. unfold decode_state, witness_step. intros H. dec_inv.
  apply (decode_canonical (c:=VarInt)) in H as [Hv ->]. unfold in_u in Hv.
  apply on_slice_read_Ok in H0 as [Hl ->]. rewrite !Z.ltb_ge in *.
  assert (x = Z.of_nat (length x1)) as -> by lia.
  exists x1. split; [unfold item; by rewrite <- app_assoc|].
  rewrite items_app, length_app. change (items [x1]) with (item x1 ++ []). rewrite app_nil_r.
  pose proof (item_length x1 ltac:(lia)). unfold MAX_VEC_SIZE in *. lia.
Qed.

Lemma witness_loop_Ok n l2 : forall l1 buf rest, decoding n l1 buf -> (length l1 + length l2 <= n)%nat ->
  Z.of_nat n <= MAX_VEC_SIZE -> Z.of_nat (length (items (l1 ++ l2))) <= MAX_VEC_SIZE ->
  exists buf', decoding n (l1 ++ l2) buf' /\
    on_slice (for_nat (length l2) (witness_step (Z.of_nat n * 4)) (decode_state n l1 buf)) (items l2 ++ rest) =
    Ok (decode_state n (l1 ++ l2) buf', rest).
Proof.
  induction l2 as [|x l2 IH]; intros l1 buf rest Hd Hl Hn Hmax.
  - exists buf. by rewrite app_nil_r.
  - cbn [length for_nat]. rewrite on_slice_bind, items_cons, <- app_assoc. simpl length in Hl.
    assert (l1 ++ x :: l2 = (l1 ++ [x]) ++ l2) as E by (by rewrite <- app_assoc). rewrite E in *.
    destruct (witness_step_Ok n l1 buf x (items l2 ++ rest) Hd) as (buf1 & Hd1 & ->); [lia|done| |].
    { rewrite items_app, length_app in Hmax. lia. }
    apply IH; [done|rewrite length_app; simpl; lia|done|done].
Qed.

Lemma witness_loop_inv n k : forall l1 buf bs st rest, decoding n l1 buf -> (length l1 + k <= n)%nat ->
  Z.of_nat n <= MAX_VEC_SIZE -> Z.of_nat (length (items l1)) <= MAX_VEC_SIZE ->
  on_slice (for_nat k (witness_step (Z.of_nat n * 4)) (decode_state n l1 buf)) bs = Ok (st, rest) ->
  exists l2, length l2 = k /\ bs = items l2 ++ rest /\ Z.of_nat (length (items (l1 ++ l2))) <= MAX_VEC_SIZE.
Proof.
  induction k as [|k IH]; intros l1 buf bs st rest Hd Hl Hn Hmax H.
  - exists []. injection H as _ <-. by rewrite app_nil_r.
  - cbn [for_nat] in H. apply on_slice_bind_Ok in H as (st1 & bs1 & H1 & H2).
    destruct (witness_step_inv n l1 buf bs st1 bs1 Hn H1) as (x & -> & Hx).
    destruct (witness_step_Ok n l1 buf x bs1 Hd) as (buf1 & Hd1 & E); [lia|done|done|].
    rewrite E in H1. injection H1 as <-.
    destruct (IH (l1 ++ [x]) buf1 bs1 st rest Hd1) as (l2 & <- & -> & Hm); [rewrite length_app; simpl; lia|done|done|done|].
    exists (x :: l2). rewrite items_cons, <- app_assoc. rewrite <- app_assoc in Hm. done.
Qed.

(** The stacks a transaction can carry. *)
Definition witness_ok (l : list (list byte)) : Prop := Z.of_nat (length (items l)) <= MAX_VEC_SIZE.
Definition witness_wf (w : Witness) : Prop := exists l, w = witness_of l /\ witness_ok l.

Lemma witness_ok_stack l : witness_ok l -> stack_ok l.
Proof. unfold witness_ok, stack_ok, MAX_VEC_SIZE. lia. Qed.

Lemma witness_ok_count l : witness_ok l -> Z.of_nat (length l) <= MAX_VEC_SIZE.
Proof. unfold witness_ok. pose proof (items_length_ge l). lia. Qed.

Lemma initial_decoding n : decoding n [] (replicate (Z.to_nat (Z.of_nat n * 4 + 128)) Byte.x00).
Proof.
  exists (replicate (4 * n) Byte.x00), (replicate 128 Byte.x00). split.
  - change (indices []) with (@nil byte). change (items []) with (@nil byte).
    rewrite !app_nil_l, <- replicate_add. f_equal. lia.
  - rewrite length_replicate. simpl. lia.
Qed.

(** Truncating and rotating the final buffer moves the offsets behind the elements. *)
Lemma final_buffer l buf : decoding (length l) l buf ->
  rotate_left (Z.to_nat (Z.of_nat (length l) * 4))
    (take (Z.to_nat (Z.of_nat (4 * length l + length (items l)))) buf) = items l ++ indices l.
Proof.
  intros (mid & tail & -> & Hm). destruct mid; [|simpl in Hm; lia]. simpl app.
  rewrite app_assoc, take_app_length' by (rewrite length_app, indices_length; lia).
  apply rotate_left_app. rewrite indices_length. lia.
Qed.

Lemma witness_decode_Ok l rest : witness_ok l ->
  on_slice witness_decode (bytes_of VarInt (Z.of_nat (length l)) ++ items l ++ rest) = Ok (witness_of l, rest).
Proof.
  intros Hl. pose proof (witness_ok_count l Hl) as Hc. unfold witness_decode.
  rewrite on_slice_bind, varint_dec by (unfold in_u, MAX_VEC_SIZE in *; lia).
  rewrite (proj2 (Z.ltb_ge _ _)) by done. destruct (Z.eqb_spec (Z.of_nat (length l)) 0).
  - destruct l; [done|simpl in *; lia].
  - rewrite on_slice_bind, for_spec, Nat2Z.id. set (buf := replicate _ _).
    assert (decoding (length l) [] buf) as Hd by apply initial_decoding.
    destruct (witness_loop_Ok (length l) l [] buf rest Hd) as (buf' & Hd' & E); [simpl; lia|done|done|].
    assert (decode_state (length l) [] buf = (0, buf, Z.of_nat (length l) * 4)) as Ed
      by (unfold decode_state; f_equal; simpl; lia).
    rewrite Ed in E. rewrite E. unfold decode_state. cbn [app]. rewrite on_slice_ret.
    rewrite final_buffer by done. unfold witness_of. do 3 f_equal. lia.
Qed.

#[export] Instance witness_Natural : Natural witness_decode.
Proof.
  unfold witness_decode. apply natural_bind; [unfold VarInt; apply _|]. intros n.
  apply natural_if; [apply _|]. apply natural_if; [apply _|]. cbv zeta. apply natural_bind.
  - apply natural_for. intros [[i c] cur]. unfold witness_step. apply natural_bind; [unfold VarInt; apply _|].
    intros. cbv zeta. apply _.
  - intros [[i c] cur]. apply _.
Qed.

#[export] Instance Witness_Codec : Codec WitnessC witness_wf.
Proof.
  apply simple_Codec; [|apply _|].
  - intros w (l & -> & Hl). rewrite witness_encode_spec. cbn [fst snd].
    pose proof (witness_ok_count l Hl) as Hc.
    rewrite length_app, <- varint_bytes_length by (unfold in_u, MAX_VEC_SIZE in *; lia). lia.
  - intros w rest (l & -> & Hl). rewrite witness_encode_spec. cbn [fst].
    rewrite <- app_assoc. by apply witness_decode_Ok.
Qed.

#[export] Instance Witness_Canonical : Canonical WitnessC witness_wf.
Proof.
  apply simple_Canonical. intros bs w rest H. unfold witness_decode in H.
  apply on_slice_bind_Ok in H as (v & bs1 & Hv & H). apply (decode_canonical (c:=VarInt)) in Hv as [Hv ->].
  unfold in_u in Hv. destruct (Z.ltb_spec MAX_VEC_SIZE v) as [|Hmax]; [done|].
  destruct (Z.eqb_spec v 0) as [->|Hv0].
  - injection H as <- <-. split; [by exists []|done].
  - cbv zeta in H. apply on_slice_bind_Ok in H as ([[i c] cur] & bs2 & H & Hf). rewrite for_spec in H.
    assert (v = Z.of_nat (Z.to_nat v)) as Ev by lia. set (n := Z.to_nat v) in *. rewrite Ev in H, Hf |- *.
    set (buf := replicate _ _) in H. assert (decoding n [] buf) as Hd by apply initial_decoding.
    assert ((0, buf, Z.of_nat n * 4) = decode_state n [] buf) as Ed
      by (unfold decode_state; f_equal; simpl; lia).
    rewrite Ed in H. pose proof H as H'.
    apply witness_loop_inv in H' as (l & Hl & -> & Hm); [|done|simpl; lia|lia|unfold MAX_VEC_SIZE; simpl; lia].
    injection Hf as <- <-. rewrite <- Hl in *. change ([] ++ l) with l in Hm.
    destruct (witness_loop_Ok (length l) l [] buf bs2 Hd) as (buf' & Hd' & E); [simpl; lia|lia|done|].
    rewrite E in H. unfold decode_state in H. injection H as <- <- <-. cbn [app] in *.
    rewrite final_buffer by done.
    match goal with |- context [mkWitness ?a ?b ?c] =>
      replace (mkWitness a b c) with (witness_of l) by (unfold witness_of; f_equal; lia) end.
    split; [exists l; split; [done|exact Hm]|]. rewrite witness_encode_spec. cbn [fst]. by rewrite <- app_assoc.
Qed.

Lemma size_spec l : witness_ok l ->
  size (witness_of l) = Ret (snd (witness_encode (witness_of l))).
Proof.
  intros Hl. pose proof (witness_ok_stack l Hl) as Hs. unfold size.
  rewrite to_vec_spec, bind_Ret, witness_encode_spec by done. cbn [snd witness_of witness_elements].
  f_equal. rewrite <- content_size_spec by done. rewrite Z.add_comm. f_equal. f_equal.
  apply map_ext. intros. lia.
Qed.

(** ** Properties *)

(** The single-buffer witness is a stack of byte strings.  [from_slice] builds the
    buffer of the given stack, [push_slice] appends one element to it, [to_vec] lists the
    stack and [nth] reads any position of it, without panicking while the elements take
    less than 4 GiB. *)
Lemma witness_refines_stack (l : list (list byte)) (x : list byte) (i : nat)
    (Hsize : Z.of_nat (length (items (l ++ [x]))) < 2 ^ 32) :
  from_slice l = Ret (witness_of l) /\
  push_slice (witness_of l) x = Ret (witness_of (l ++ [x])) /\
  to_vec (witness_of (l ++ [x])) = Ret (l ++ [x]) /\
  nth (witness_of (l ++ [x])) (Z.of_nat i) = Ret ((l ++ [x]) !! i) /\
  last (witness_of (l ++ [x])) = Ret (Some x).
Proof.
  assert (stack_ok l) as Hl by (unfold stack_ok; rewrite items_app, length_app in Hsize; lia).
  split; [by apply from_slice_spec|]. split; [by apply push_slice_spec|].
  split; [by apply to_vec_spec|]. split; [by apply nth_spec|].
  unfold last. cbn [witness_of witness_elements].
  rewrite (proj2 (Z.eqb_neq _ _)) by (rewrite length_app; simpl; lia).
  replace (Z.of_nat (length (l ++ [x])) - 1) with (Z.of_nat (length l)) by (rewrite length_app; simpl; lia).
  rewrite nth_spec by done. by rewrite lookup_app_r, Nat.sub_diag by lia.
Qed.

(** Decoding a witness through the index-first scratch buffer, its growth and its
    final rotation yields exactly the buffer [from_slice] would build, accepts exactly
    the canonical encodings whose elements fit in [MAX_VEC_SIZE] bytes, and [size] is the
    encoded length. *)
Lemma witness_decode_exact (bs : list byte) (w : Witness) (rest : list byte) :
  on_slice (consensus_decode WitnessC) bs = Ok (w, rest) <->
  exists l, w = witness_of l /\ from_slice l = Ret w /\
    size w = Ret (Z.of_nat (length (bytes_of WitnessC w))) /\
    Z.of_nat (length (items l)) <= MAX_VEC_SIZE /\
    bs = bytes_of VarInt (Z.of_nat (length l)) ++ items l ++ rest.
Proof.
  split.
  - intros H. apply (decode_canonical (c:=WitnessC)) in H as [(l & -> & Hl) ->]. exists l.
    split; [done|]. split; [by apply from_slice_spec, witness_ok_stack|].
    split; [rewrite size_spec by done; f_equal; apply (encode_len (c:=WitnessC)); by exists l|].
    split; [done|]. change (bytes_of WitnessC (witness_of l)) with (fst (witness_encode (witness_of l))).
    rewrite witness_encode_spec. cbn [fst]. by rewrite <- app_assoc.
  - intros (l & -> & _ & _ & Hl & ->). by apply witness_decode_Ok.
Qed.
