(* ===== verification/LockTime.v ===== *)
(** * Lock times and sequence numbers
    ([units/src/locktime/], [blockdata/locktime/], [Sequence] of [blockdata/transaction.rs])

    Absolute lock times (block height or time, told apart by a threshold), relative lock
    times, and the sequence numbers that carry them. *)

From Stdlib Require Import ZArith Lia.
From coqutil Require Import Byte.
From stdpp Require Import base tactics option list numbers.
From S2P Require Import Prelude Io Encode.

#[local] Open Scope Z_scope.

(** ** Absolute lock times *)

Module Abs.

Definition LOCK_TIME_THRESHOLD : Z := 500000000.
Definition is_block_height_n (n : Z) : bool := n <? LOCK_TIME_THRESHOLD.
Definition is_block_time_n (n : Z) : bool := LOCK_TIME_THRESHOLD <=? n.

Inductive LockTimeUnit := UBlocks | USeconds.
Record ConversionError := mkCE { unit_ : LockTimeUnit; input : Z }.

(** [Height::from_consensus] and [Time::from_consensus]; a value stands for itself. *)
Definition height_from_consensus (n : Z) : Result ConversionError Z :=
  if is_block_height_n n then Ok n else Err (mkCE UBlocks n).
Definition time_from_consensus (n : Z) : Result ConversionError Z :=
  if is_block_time_n n then Ok n else Err (mkCE USeconds n).

Inductive LockTime := Blocks (h : Z) | Seconds (t : Z).

#[global] Instance LockTime_eq_dec : EqDecision LockTime.
Proof. solve_decision. Defined.

Definition unwrap {E A} (r : Result E A) : run A :=
  match r with Ok a => Ret a | Err _ => Panic end.

Definition from_consensus_run (n : Z) : run LockTime :=
  if is_block_height_n n then h ← unwrap (height_from_consensus n); Ret (Blocks h)
  else t ← unwrap (time_from_consensus n); Ret (Seconds t).

(** [LockTime::from_consensus]; its two [expect]s cannot fail ([from_consensus_total]). *)
Definition from_consensus (n : Z) : LockTime :=
  if is_block_height_n n then Blocks n else Seconds n.

Definition from_height (n : Z) : Result ConversionError LockTime :=
  h ← height_from_consensus n; Ok (Blocks h).
Definition from_time (n : Z) : Result ConversionError LockTime :=
  t ← time_from_consensus n; Ok (Seconds t).

Definition to_consensus_u32 (self : LockTime) : Z :=
  match self with Blocks h => h | Seconds t => t end.

Definition is_same_unit (self other : LockTime) : bool :=
  match self, other with
  | Blocks _, Blocks _ | Seconds _, Seconds _ => true
  | _, _ => false
  end.
Definition is_block_height (self : LockTime) : bool :=
  match self with Blocks _ => true | Seconds _ => false end.
Definition is_block_time (self : LockTime) : bool := negb (is_block_height self).

Definition is_satisfied_by (self : LockTime) (height time : Z) : bool :=
  match self with Blocks n => n <=? height | Seconds n => n <=? time end.

Definition is_implied_by (self other : LockTime) : bool :=
  match self, other with
  | Blocks this, Blocks other => this <=? other
  | Seconds this, Seconds other => this <=? other
  | _, _ => false
  end.

(** The values the two variants can hold. *)
Definition wf (l : LockTime) : Prop :=
  match l with
  | Blocks h => 0 <= h < LOCK_TIME_THRESHOLD
  | Seconds t => LOCK_TIME_THRESHOLD <= t < 2 ^ 32
  end.

Lemma from_consensus_total n : from_consensus_run n = Ret (from_consensus n).
Proof.
  unfold from_consensus_run, from_consensus, height_from_consensus, time_from_consensus.
  destruct (is_block_height_n n) eqn:E; [done|].
  unfold is_block_time_n, is_block_height_n in *. apply Z.ltb_ge in E.
  by rewrite (proj2 (Z.leb_le _ _)).
Qed.

Lemma from_to l : wf l -> from_consensus (to_consensus_u32 l) = l.
Proof.
  destruct l as [h|t]; simpl; intros H; unfold from_consensus, is_block_height_n.
  - by rewrite (proj2 (Z.ltb_lt _ _)) by lia.
  - by rewrite (proj2 (Z.ltb_ge _ _)) by lia.
Qed.

Lemma to_from n : to_consensus_u32 (from_consensus n) = n.
Proof. unfold from_consensus. by destruct (is_block_height_n n). Qed.

Lemma from_wf n : in_u 32 n -> wf (from_consensus n).
Proof.
  unfold in_u, from_consensus, is_block_height_n. intros. destruct (Z.ltb_spec n LOCK_TIME_THRESHOLD); simpl; lia.
Qed.

Lemma to_in_u l : wf l -> in_u 32 (to_consensus_u32 l).
Proof. destruct l; simpl; unfold in_u, LOCK_TIME_THRESHOLD; lia. Qed.

(** Consensus encoding: the 32-bit value. *)
Definition codec : Consensus LockTime :=
  simple (fun l => consensus_encode u32 (to_consensus_u32 l))
         (n ← consensus_decode u32; mret (from_consensus n)).

#[global] Instance codec_Codec : Codec codec wf.
Proof.
  apply simple_Codec.
  - intros l Hl. apply (encode_len (c:=u32)). by apply to_in_u.
  - unfold u32. apply _.
  - intros l rest Hl. fold (bytes_of u32 (to_consensus_u32 l)).
    rewrite on_slice_bind, (finite_roundtrip (c:=u32)) by (by apply to_in_u).
    by rewrite on_slice_ret, from_to.
Qed.

#[global] Instance codec_Canonical : Canonical codec wf.
Proof.
  apply simple_Canonical. intros bs l rest H. dec_inv.
  apply (finite_canonical (c:=u32)) in H as [Hn ->].
  split; [by apply from_wf|]. fold (bytes_of u32 (to_consensus_u32 (from_consensus x))).
  by rewrite to_from.
Qed.
End Abs.

(** ** Relative lock times and sequence numbers *)

Module Seq.

Inductive RelLockTime := RBlocks (h : Z) | RTime (t : Z).

#[global] Instance RelLockTime_eq_dec : EqDecision RelLockTime.
Proof. solve_decision. Defined.

Definition MAX : Z := 0xFFFFFFFF.
Definition ZERO : Z := 0.
Definition MIN_NO_RBF : Z := 0xFFFFFFFE.
Definition ENABLE_LOCKTIME_NO_RBF : Z := MIN_NO_RBF.
Definition ENABLE_RBF_NO_LOCKTIME : Z := 0xFFFFFFFD.
Definition SIZE : Z := 4.
Definition LOCK_TIME_DISABLE_FLAG_MASK : Z := 0x80000000.
Definition LOCK_TYPE_MASK : Z := 0x00400000.

Definition enables_absolute_lock_time (self : Z) : bool := negb (self =? MAX).
Definition is_final (self : Z) : bool := negb (enables_absolute_lock_time self).
Definition is_rbf (self : Z) : bool := self <? MIN_NO_RBF.
Definition is_relative_lock_time (self : Z) : bool :=
  Z.land self LOCK_TIME_DISABLE_FLAG_MASK =? 0.
Definition is_height_locked (self : Z) : bool :=
  is_relative_lock_time self && (Z.land self LOCK_TYPE_MASK =? 0).
Definition is_time_locked (self : Z) : bool :=
  is_relative_lock_time self && (0 <? Z.land self LOCK_TYPE_MASK).

Definition from_height (height : Z) : Z := height.
Definition from_512_second_intervals (intervals : Z) : Z := Z.lor intervals LOCK_TYPE_MASK.

(** [TimeOverflowError::new] asserts that the seconds do not fit. *)
Record TimeOverflowError := mkTOE { seconds : Z }.

Section build.
Context {bm : BuildMode}.

Definition time_overflow_new (seconds : Z) : run TimeOverflowError :=
  s ← arith_u 32 (seconds + 511);
  _ ← assert_ (negb (in_ub 16 (s / 512)));
  Ret (mkTOE seconds).

Definition from_seconds_floor (seconds : Z) : run (Result TimeOverflowError Z) :=
  let interval := seconds / 512 in
  if in_ub 16 interval then Ret (Ok (from_512_second_intervals interval))
  else e ← time_overflow_new seconds; Ret (Err e).

Definition from_seconds_ceil (seconds : Z) : run (Result TimeOverflowError Z) :=
  s ← arith_u 32 (seconds + 511);
  let interval := s / 512 in
  if in_ub 16 interval then Ret (Ok (from_512_second_intervals interval))
  else e ← time_overflow_new seconds; Ret (Err e).

(** [relative::Time::from_seconds_floor] and [from_seconds_ceil]. *)
Definition rel_from_seconds_floor (seconds : Z) : Result TimeOverflowError RelLockTime :=
  let interval := seconds / 512 in
  if interval <=? u16_MAX then Ok (RTime interval) else Err (mkTOE seconds).
Definition rel_from_seconds_ceil (seconds : Z) : run (Result TimeOverflowError RelLockTime) :=
  s ← arith_u 32 (seconds + 511);
  let interval := s / 512 in
  if interval <=? u16_MAX then Ret (Ok (RTime interval)) else Ret (Err (mkTOE seconds)).
End build.

Definition low_u16 (self : Z) : Z := wrap 16 self.

Definition to_relative_lock_time (self : Z) : option RelLockTime :=
  if negb (is_relative_lock_time self) then None
  else let lock_value := low_u16 self in
       if is_time_locked self then Some (RTime lock_value) else Some (RBlocks lock_value).

Record DisabledLockTimeError := mkDLE { disabled : Z }.

Definition rel_from_consensus (n : Z) : Result DisabledLockTimeError RelLockTime :=
  ok_or (to_relative_lock_time n) (mkDLE n).
Definition rel_to_consensus_u32 (self : RelLockTime) : Z :=
  match self with RBlocks h => h | RTime t => Z.lor (Z.shiftl 1 22) t end.

Definition rel_is_same_unit (self other : RelLockTime) : bool :=
  match self, other with RBlocks _, RBlocks _ | RTime _, RTime _ => true | _, _ => false end.
Definition rel_is_implied_by (self other : RelLockTime) : bool :=
  match self, other with
  | RBlocks this, RBlocks other => this <=? other
  | RTime this, RTime other => this <=? other
  | _, _ => false
  end.
Definition rel_is_implied_by_sequence (self : RelLockTime) (other : Z) : bool :=
  match rel_from_consensus other with Ok other => rel_is_implied_by self other | Err _ => false end.
Definition rel_is_satisfied_by_height (self : RelLockTime) (height : Z) : option bool :=
  match self with RBlocks h => Some (h <=? height) | RTime _ => None end.
Definition rel_is_satisfied_by_time (self : RelLockTime) (time : Z) : option bool :=
  match self with RTime t => Some (t <=? time) | RBlocks _ => None end.
Definition rel_is_satisfied_by (self : RelLockTime) (h t : Z) : bool :=
  match rel_is_satisfied_by_height self h with
  | Some true => true
  | _ => match rel_is_satisfied_by_time self t with Some true => true | _ => false end
  end.

Definition rel_wf (l : RelLockTime) : Prop :=
  match l with RBlocks v | RTime v => in_u 16 v end.
End Seq.

(** ** Bits of a sequence number *)

Lemma seq_time_bits v : in_u 16 v ->
  Z.lor (Z.shiftl 1 22) v = v + 2 ^ 22 /\ Seq.from_512_second_intervals v = v + 2 ^ 22.
Proof.
  unfold in_u. intros Hv. unfold Seq.from_512_second_intervals, Seq.LOCK_TYPE_MASK.
  rewrite (Z.lor_comm (Z.shiftl 1 22)).
  change 0x00400000 with (Z.shiftl 1 22). rewrite lor_add_disjoint by lia. lia.
Qed.

Lemma seq_disable_bit v : 0 <= v < 2 ^ 31 -> Seq.is_relative_lock_time v = true.
Proof.
  intros Hv. unfold Seq.is_relative_lock_time, Seq.LOCK_TIME_DISABLE_FLAG_MASK.
  change 0x80000000 with (2 ^ 31). rewrite land_pow2 by lia.
  rewrite testbit_top by lia. by rewrite (proj2 (Z.leb_gt _ _)) by lia.
Qed.

Lemma seq_type_bit v : 0 <= v < 2 ^ 23 ->
  Z.land v Seq.LOCK_TYPE_MASK = if 2 ^ 22 <=? v then 2 ^ 22 else 0.
Proof.
  intros Hv. unfold Seq.LOCK_TYPE_MASK. change 0x00400000 with (2 ^ 22).
  rewrite land_pow2, testbit_top by lia. done.
Qed.

Lemma rel_roundtrip l : Seq.rel_wf l ->
  Seq.rel_from_consensus (Seq.rel_to_consensus_u32 l) = Ok l.
Proof.
  intros Hl. unfold Seq.rel_from_consensus, Seq.to_relative_lock_time, Seq.is_time_locked.
  destruct l as [h|t]; cbn [Seq.rel_to_consensus_u32 Seq.rel_wf] in *; unfold in_u in Hl.
  - rewrite seq_disable_bit, seq_type_bit by lia. rewrite (proj2 (Z.leb_gt _ _)) by lia. simpl.
    unfold Seq.low_u16. by rewrite wrap_small.
  - destruct (seq_time_bits t Hl) as [-> _].
    rewrite seq_disable_bit, seq_type_bit by lia. rewrite (proj2 (Z.leb_le _ _)) by lia. simpl.
    unfold Seq.low_u16, wrap. do 3 f_equal. symmetry. apply Z.mod_unique with 64; lia.
Qed.

(** ** Properties *)

(** Lock times are the consensus 32-bit values.  Decoding never fails on 32 bits,
    splits them at the threshold and inverts encoding; a lock time implied by another is
    satisfied whenever the other is, and within one unit conversely. *)
Lemma lock_time_sound (n : Z) (a b : Abs.LockTime) (Hn : in_u 32 n)
    (Ha : Abs.wf a) (Hb : Abs.wf b) :
  Abs.from_consensus_run n = Ret (Abs.from_consensus n) /\
  Abs.wf (Abs.from_consensus n) /\
  Abs.to_consensus_u32 (Abs.from_consensus n) = n /\
  Abs.from_consensus (Abs.to_consensus_u32 a) = a /\
  (Abs.is_implied_by a b = true <->
   Abs.is_same_unit a b = true /\
   forall height time, Abs.is_satisfied_by b height time = true ->
                       Abs.is_satisfied_by a height time = true).
Proof.
  split; [apply Abs.from_consensus_total|]. split; [by apply Abs.from_wf|].
  split; [apply Abs.to_from|]. split; [by apply Abs.from_to|].
  destruct a as [x|x], b as [y|y]; simpl; rewrite ?Z.leb_le.
  - split; [intros; split; [done|intros ? ?; rewrite !Z.leb_le; lia]|].
    intros [_ H]. specialize (H y 0). rewrite !Z.leb_le in H. lia.
  - split; [done|]. by intros [].
  - split; [done|]. by intros [].
  - split; [intros; split; [done|intros ? ?; rewrite !Z.leb_le; lia]|].
    intros [_ H]. specialize (H 0 y). rewrite !Z.leb_le in H. lia.
Qed.

(** Relative lock times round trip through sequence numbers, and a lock implied by a
    sequence number is satisfied whenever the lock that sequence carries is. *)
Lemma relative_lock_time_sound (l : Seq.RelLockTime) (s h t : Z) (Hl : Seq.rel_wf l) :
  Seq.rel_from_consensus (Seq.rel_to_consensus_u32 l) = Ok l /\
  (Seq.rel_is_implied_by_sequence l s = true ->
   exists other, Seq.to_relative_lock_time s = Some other /\
     (Seq.rel_is_satisfied_by other h t = true -> Seq.rel_is_satisfied_by l h t = true)).
Proof.
  split; [by apply rel_roundtrip|]. unfold Seq.rel_is_implied_by_sequence, Seq.rel_from_consensus.
  destruct (Seq.to_relative_lock_time s) as [other|]; [|done]. simpl. intros Hi.
  exists other. split; [done|].
  destruct l as [x|x], other as [y|y]; simpl in *; try done; rewrite Z.leb_le in Hi;
    unfold Seq.rel_is_satisfied_by; simpl; zcases; try done; lia.
Qed.

(** Sequence numbers from seconds.  Both conversions are exact up to 65535 intervals
    and report an error above, except for the last 511 values of the 32-bit range: there
    rounding down panics in every build, while rounding up panics with overflow checks
    and otherwise succeeds with a lock of zero. *)
Lemma sequence_from_seconds_exact {bm : BuildMode} (s : Z) (Hs : in_u 32 s) :
  Seq.from_seconds_floor s =
    (if s / 512 <=? 65535 then Ret (Ok (s / 512 + 2 ^ 22))
     else if s <? 2 ^ 32 - 511 then Ret (Err (Seq.mkTOE s)) else Panic) /\
  Seq.from_seconds_ceil s =
    (if (s + 511) / 512 <=? 65535 then Ret (Ok ((s + 511) / 512 + 2 ^ 22))
     else if s <? 2 ^ 32 - 511 then Ret (Err (Seq.mkTOE s))
     else if debug_assertions then Panic else Ret (Ok (2 ^ 22))).
Proof.
  unfold in_u in Hs.
  pose proof (Z.div_mod s 512 ltac:(lia)). pose proof (Z.mod_pos_bound s 512 ltac:(lia)).
  pose proof (Z.div_mod (s + 511) 512 ltac:(lia)). pose proof (Z.mod_pos_bound (s + 511) 512 ltac:(lia)).
  assert (forall v, 0 <= v -> in_ub 16 v = (v <=? 65535)) as H16.
  { intros v Hv. unfold in_ub. rewrite (proj2 (Z.leb_le 0 v)) by done. simpl.
    destruct (Z.ltb_spec v 65536), (Z.leb_spec v 65535); done || lia. }
  unfold Seq.from_seconds_floor, Seq.from_seconds_ceil, Seq.time_overflow_new, arith_u. cbv zeta.
  rewrite !(H16 (s / 512)) by lia.
  destruct (Z.ltb_spec s (2 ^ 32 - 511)) as [Hlt|Hge].
  - rewrite (proj2 (in_ub_spec 32 (s + 511))) by (unfold in_u; lia). rewrite !bind_Ret.
    rewrite !(H16 ((s + 511) / 512)) by lia. split; zcases; cbn [negb assert_]; try lia.
    + by rewrite (proj2 (seq_time_bits (s / 512) ltac:(unfold in_u; lia))).
    + done.
    + by rewrite (proj2 (seq_time_bits ((s + 511) / 512) ltac:(unfold in_u; lia))).
    + done.
  - assert (in_ub 32 (s + 511) = false) as ->.
    { apply not_true_iff_false. rewrite in_ub_spec. unfold in_u. lia. }
    assert (wrap 32 (s + 511) / 512 = 0) as Hw.
    { unfold wrap. replace ((s + 511) mod 2 ^ 32) with (s + 511 - 2 ^ 32)
        by (apply Z.mod_unique with 1; lia). apply Z.div_small. lia. }
    rewrite !(proj2 (Z.leb_gt _ 65535)) by lia.
    split; destruct debug_assertions; [done| |done|]; rewrite bind_Ret, Hw; done.
Qed.

