(* ===== verification/Amount.v ===== *)
(** * Amounts, weights and fee rates ([units/src/amount.rs], [weight.rs], [fee_rate.rs])

    Checked and unchecked arithmetic on 64-bit amounts, and their text: denominations, decimal
    parsing without rounding, and formatting with the options of a formatter.  A [&str] is the
    list of its characters, as Unicode scalar values; lengths, positions and slices are in
    bytes of its UTF-8 form, as in the code. *)

From Stdlib Require Import ZArith Lia.
From Stdlib Require Strings.String.
From coqutil Require Import Byte.
From stdpp Require Import base tactics option list numbers.
From S2P Require Import Prelude.
Import String.StringSyntax.

#[local] Open Scope string_scope.
#[local] Open Scope list_scope.
#[local] Open Scope Z_scope.

(** ** Strings *)

Abbreviation str := (list Z).
Definition chars (s : String.string) : str := map byte.unsigned (String.list_byte_of_string s).
#[global] Arguments chars s%_string_scope.

Definition len_utf8 (c : Z) : Z :=
  if c <? 0x80 then 1 else if c <? 0x800 then 2 else if c <? 0x10000 then 3 else 4.
Fixpoint str_len (s : str) : Z := match s with [] => 0 | c :: s => len_utf8 c + str_len s end.

(** [char_indices], from a byte offset. *)
Fixpoint indices_from (i : Z) (s : str) : list (Z * Z) :=
  match s with [] => [] | c :: s => (i, c) :: indices_from (i + len_utf8 c) s end.
Definition char_indices (s : str) : list (Z * Z) := indices_from 0 s.

Definition find_index (p : Z -> bool) (s : str) : option Z :=
  fst <$> List.find (fun ic => p (snd ic)) (char_indices s).
Definition find_char (c : Z) (s : str) : option Z := find_index (fun d => d =? c) s.

(** [s.split_at(i)]: a panic when [i] is not a character boundary. *)
Fixpoint split_at (s : str) (i : Z) : run (str * str) :=
  if i =? 0 then Ret ([], s)
  else match s with
       | [] => Panic
       | c :: s' => if i <? len_utf8 c then Panic
                    else '(l, r) ← split_at s' (i - len_utf8 c); Ret (c :: l, r)
       end.
(** [&s[..i]] and [&s[i..]] *)
Definition slice_to (s : str) (i : Z) : run str := fst <$> split_at s i.
Definition slice_from (s : str) (i : Z) : run str := snd <$> split_at s i.

Definition DOT : Z := 0x2e.
Definition MINUS : Z := 0x2d.
Definition PLUS : Z := 0x2b.
Definition SPACE : Z := 0x20.
Definition ZERO_CHAR : Z := 0x30.
Definition is_digit (c : Z) : bool := (0x30 <=? c) && (c <=? 0x39).

(** [char::is_alphabetic] is a table of Unicode; the code relies on it for ASCII. *)
Class Unicode := { is_alphabetic : Z -> bool }.
Class UnicodeAscii (U : Unicode) : Prop :=
  ascii_alphabetic : forall c, 0 <= c < 0x80 ->
    is_alphabetic c = ((0x41 <=? c) && (c <=? 0x5a)) || ((0x61 <=? c) && (c <=? 0x7a)).

(** [s.parse::<i64>()]; every error is [None]. *)
Fixpoint digits_value (s : str) (acc : Z) : option Z :=
  match s with
  | [] => Some acc
  | c :: s => if is_digit c then digits_value s (10 * acc + (c - 0x30)) else None
  end.
Definition parse_i64 (s : str) : option Z :=
  let checked z := if in_ib 64 z then Some z else None in
  match s with
  | [] => None
  | c :: rest =>
      if (c =? MINUS) || (c =? PLUS) then
        match rest with
        | [] => None
        | _ => v ← digits_value rest 0; checked (if c =? MINUS then - v else v)
        end
      else v ← digits_value s 0; checked v
  end.

(** ** Denominations *)

Inductive Denomination :=
| Bitcoin | CentiBitcoin | MilliBitcoin | MicroBitcoin | NanoBitcoin | PicoBitcoin | Bit | Satoshi
| MilliSatoshi.
#[export] Instance Denomination_eq_dec : EqDecision Denomination.
Proof. solve_decision. Defined.

Definition precision (self : Denomination) : Z :=
  match self with
  | Bitcoin => -8
  | CentiBitcoin => -6
  | MilliBitcoin => -5
  | MicroBitcoin => -2
  | NanoBitcoin => 1
  | PicoBitcoin => 4
  | Bit => -2
  | Satoshi => 0
  | MilliSatoshi => 3
  end.

Definition as_str (self : Denomination) : str :=
  match self with
  | Bitcoin => chars "BTC"
  | CentiBitcoin => chars "cBTC"
  | MilliBitcoin => chars "mBTC"
  | MicroBitcoin => chars "uBTC"
  | NanoBitcoin => chars "nBTC"
  | PicoBitcoin => chars "pBTC"
  | Bit => chars "bits"
  | Satoshi => chars "satoshi"
  | MilliSatoshi => chars "msat"
  end.

Definition one_of (s : str) (l : list String.string) : bool :=
  existsb (fun k => bool_decide (s = chars k)) l.

Definition forms (s : str) : option Denomination :=
  (if one_of s ["BTC"; "btc"] then Some Bitcoin
   else if one_of s ["cBTC"; "cbtc"] then Some CentiBitcoin
   else if one_of s ["mBTC"; "mbtc"] then Some MilliBitcoin
   else if one_of s ["uBTC"; "ubtc"] then Some MicroBitcoin
   else if one_of s ["nBTC"; "nbtc"] then Some NanoBitcoin
   else if one_of s ["pBTC"; "pbtc"] then Some PicoBitcoin
   else if one_of s ["bit"; "bits"; "BIT"; "BITS"] then Some Bit
   else if one_of s ["SATOSHI"; "satoshi"; "SATOSHIS"; "satoshis"; "SAT"; "sat"; "SATS"; "sats"]
   then Some Satoshi
   else if one_of s ["mSAT"; "msat"; "mSATs"; "msats"] then Some MilliSatoshi
   else None).

Definition CONFUSING_FORMS : list String.string :=
  ["Msat"; "Msats"; "MSAT"; "MSATS"; "MSat"; "MSats"; "MBTC"; "Mbtc"; "PBTC"].

Inductive ParseDenominationError := Unknown (s : str) | PossiblyConfusing (s : str).

Definition denomination_from_str (s : str) : Result ParseDenominationError Denomination :=
  if one_of s CONFUSING_FORMS then Err (PossiblyConfusing s)
  else ok_or (forms s) (Unknown s).

(** ** Errors *)

Record OutOfRangeError := mkOutOfRange { is_signed : bool; is_greater_than_max : bool }.
Definition too_big (is_signed : bool) : OutOfRangeError := mkOutOfRange is_signed true.
Definition too_small : OutOfRangeError := mkOutOfRange true false.
Definition negative_error : OutOfRangeError := mkOutOfRange false false.
Definition valid_range (self : OutOfRangeError) : Z * Z :=
  match is_signed self with true => (- 2 ^ 63, 2 ^ 63 - 1) | false => (0, 2 ^ 64 - 1) end.

Inductive MissingDigitsKind := Empty | OnlyMinusSign.
Inductive ParseAmountError :=
| OutOfRange (e : OutOfRangeError)
| TooPrecise (position : Z)
| MissingDigits (kind : MissingDigitsKind)
| InputTooLarge (len : Z)
| InvalidCharacter (invalid_char position : Z).
Inductive ParseError :=
| ParseAmount (e : ParseAmountError)
| ParseDenomination (e : ParseDenominationError)
| MissingDenomination.

Inductive InnerParseError :=
| InnerOverflow (is_negative : bool)
| InnerTooPrecise (position : Z)
| InnerMissingDigits (kind : MissingDigitsKind)
| InnerInputTooLarge (len : Z)
| InnerInvalidCharacter (invalid_char position : Z).

Definition convert (self : InnerParseError) (is_signed : bool) : ParseAmountError :=
  match self with
  | InnerOverflow is_negative => OutOfRange (mkOutOfRange is_signed (negb is_negative))
  | InnerTooPrecise position => TooPrecise position
  | InnerMissingDigits kind => MissingDigits kind
  | InnerInputTooLarge len => InputTooLarge len
  | InnerInvalidCharacter c position => InvalidCharacter c position
  end.

(** ** Parsing *)

Definition not_zero (ic : Z * Z) : bool := negb (snd ic =? ZERO_CHAR).

Definition is_too_precise (s : str) (precision : Z) : run (option Z) :=
  match find_char DOT s with
  | Some pos =>
      if pos <=? precision then Ret (Some 0)
      else
        before ← slice_to s pos;
        match List.find not_zero (take (Z.to_nat precision) (rev (char_indices before))) with
        | Some (i, _) => Ret (Some i)
        | None =>
            after ← slice_from s (pos + 1);
            Ret ((fun ic => fst ic + pos + 1) <$> List.find not_zero (char_indices after))
        end
  | None =>
      if str_len s <=? precision then Ret (Some 0)
      else Ret (fst <$> List.find not_zero (take (Z.to_nat precision) (rev (char_indices s))))
  end.

Definition INPUT_STRING_LEN_LIMIT : Z := 50.

Definition checked_u64 (z : Z) : option Z := if in_ub 64 z then Some z else None.
Definition checked_i64 (z : Z) : option Z := if in_ib 64 z then Some z else None.

(** The character loop; positions count a minus sign that was cut off. *)
Fixpoint parse_loop (l : list (Z * Z)) (is_negative : bool) (max_decimals : Z)
    (decimals : option Z) (value : Z) : Result InnerParseError (option Z * Z) :=
  match l with
  | [] => Ok (decimals, value)
  | (i, c) :: l =>
      let position := i + Z.b2z is_negative in
      if is_digit c then
        match checked_u64 (10 * value) with
        | None => Err (InnerOverflow is_negative)
        | Some val =>
            match checked_u64 (val + (c - 0x30)) with
            | None => Err (InnerOverflow is_negative)
            | Some value =>
                match decimals with
                | None => parse_loop l is_negative max_decimals None value
                | Some d =>
                    if d <? max_decimals
                    then parse_loop l is_negative max_decimals (Some (d + 1)) value
                    else Err (InnerTooPrecise position)
                end
            end
        end
      else if c =? DOT then
        match decimals with
        | None => if max_decimals <=? 0 then Ok (decimals, value)
                  else parse_loop l is_negative max_decimals (Some 0) value
        | Some _ => Err (InnerInvalidCharacter DOT position)
        end
      else Err (InnerInvalidCharacter c position)
  end.

Fixpoint scale_loop (n : nat) (is_negative : bool) (value : Z) : Result InnerParseError Z :=
  match n with
  | O => Ok value
  | S n =>
      match checked_u64 (10 * value) with
      | Some v => scale_loop n is_negative v
      | None => Err (InnerOverflow is_negative)
      end
  end.

(** The digits to read and the number of decimals allowed, or an early return. *)
Definition truncate (s : str) (denom : Denomination) (is_negative : bool) :
    comp InnerParseError ((str * Z) + bool * Z) :=
  let precision_diff := - precision denom in
  if precision_diff <=? 0 then
    let last_n := Z.abs precision_diff in
    p ← of_run (is_too_precise s last_n);
    match p with
    | Some position =>
        if decide (parse_i64 s = Some 0) then Val (inr (is_negative, 0))
        else Throw (InnerTooPrecise (position + Z.b2z is_negative))
    | None =>
        let stop := match find_char DOT s with Some pos => pos | None => str_len s end in
        s ← of_run (slice_to s (stop - last_n));
        Val (inl (s, 0))
    end
  else Val (inl (s, precision_diff)).

Definition parse_signed_to_satoshi (s : str) (denom : Denomination) :
    comp InnerParseError (bool * Z) :=
  if str_len s =? 0 then Throw (InnerMissingDigits Empty)
  else if INPUT_STRING_LEN_LIMIT <? str_len s then Throw (InnerInputTooLarge (str_len s))
  else
    let is_negative := match s with c :: _ => c =? MINUS | [] => false end in
    if is_negative && (str_len s =? 1) then Throw (InnerMissingDigits OnlyMinusSign)
    else
      s ← (if is_negative then of_run (slice_from s 1) else Val s);
      t ← truncate s denom is_negative;
      match t with
      | inr r => Val r
      | inl (s, max_decimals) =>
          '(decimals, value) ← of_result (parse_loop (char_indices s) is_negative max_decimals None 0);
          let scale_factor := max_decimals - match decimals with Some d => d | None => 0 end in
          value ← of_result (scale_loop (Z.to_nat scale_factor) is_negative value);
          Val (is_negative, value)
      end.

Definition split_amount_and_denomination {U : Unicode} (s : str) : comp ParseError (str * Denomination) :=
  '(i, j) ← (match find_char SPACE s with
             | Some i => Val (i, i + 1)
             | None => match find_index is_alphabetic s with
                       | Some i => Val (i, i)
                       | None => Throw MissingDenomination
                       end
             end);
  a ← of_run (slice_to s i);
  d ← of_run (slice_from s j);
  d ← of_result (map_err ParseDenomination (denomination_from_str d));
  Val (a, d).

(** [map_err] on computations. *)
Definition throw_map {E F A} (f : E -> F) (m : comp E A) : comp F A :=
  match m with Val a => Val a | Throw e => Throw (f e) | Crash => Crash end.

(** ** Formatting *)

Inductive Alignment := Left | Right | Center.
Record FormatOptions := mkOptions {
  fill : Z;
  align : option Alignment;
  width : option Z;
  oprecision : option Z;
  sign_plus : bool;
  sign_aware_zero_pad : bool;
}.
Definition default_options : FormatOptions := mkOptions SPACE None None None false false.

(** The digits of a number, the last one first; the fuel is the bit length. *)
Fixpoint digits_rev (fuel : nat) (n : Z) : str :=
  match fuel with
  | O => []
  | S fuel => (0x30 + n mod 10) :: (if n / 10 =? 0 then [] else digits_rev fuel (n / 10))
  end.
(** [write!(f, "{}", n)] and [write!(f, "{:0width$}", n)] *)
Definition display_u64 (n : Z) : str := rev (digits_rev 64 n).
Definition display_padded (n : Z) (width : Z) : str :=
  let s := display_u64 n in replicate (Z.to_nat width - length s) ZERO_CHAR ++ s.

Fixpoint dec_width_loop (fuel : nat) (num width : Z) : Z :=
  match fuel with
  | O => width
  | S fuel => let num := num / 10 in if num =? 0 then width else dec_width_loop fuel num (width + 1)
  end.
Definition dec_width (num : Z) : Z := dec_width_loop 64 num 1.

Definition repeat_char (c count : Z) : str := replicate (Z.to_nat count) c.

(** The [while] loop that strips trailing zeros of a number that is not zero. *)
Fixpoint strip_zeros (fuel : nat) (norm_nb_decimals num : Z) : Z * Z :=
  match fuel with
  | O => (norm_nb_decimals, num)
  | S fuel => if num mod 10 =? 0 then strip_zeros fuel (norm_nb_decimals - 1) (num / 10)
              else (norm_nb_decimals, num)
  end.

Definition unwrap_or {A} (o : option A) (a : A) : A := match o with Some a => a | None => a end.

(** [(num_before_decimal_point, exp, num_after_decimal_point, norm_nb_decimals,
    trailing_decimal_zeros)] *)
Definition normalise (satoshi : Z) (denom : Denomination) (options : FormatOptions) :
    Z * Z * Z * Z * Z :=
  let precision := precision denom in
  match precision ?= 0 with
  | Gt => (satoshi, if 0 <? satoshi then precision else 0, 0, 0, unwrap_or (oprecision options) 0)
  | Lt =>
      let precision := Z.abs precision in
      let divisor := 10 ^ precision in
      let num_after_decimal_point := satoshi mod divisor in
      let '(norm_nb_decimals, num_after_decimal_point) :=
        if num_after_decimal_point =? 0 then (0, num_after_decimal_point)
        else strip_zeros 64 precision num_after_decimal_point in
      let opt_precision := unwrap_or (oprecision options) 0 in
      (satoshi / divisor, 0, num_after_decimal_point, norm_nb_decimals,
       Z.max 0 (opt_precision - norm_nb_decimals))
  | Eq => (satoshi, 0, 0, 0, unwrap_or (oprecision options) 0)
  end.

Section fmt.
Context {bm : BuildMode}.

(** The text written; sums of widths are [usize] additions. *)
Definition fmt_satoshi_in (satoshi : Z) (negative : bool) (denom : Denomination)
    (show_denom : bool) (options : FormatOptions) : run str :=
  let '(num_before_decimal_point, exp, num_after_decimal_point, norm_nb_decimals,
        trailing_decimal_zeros) := normalise satoshi denom options in
  total_decimals ← arith_u 64 (norm_nb_decimals + trailing_decimal_zeros);
  num_width ← (if 0 <? total_decimals then arith_u 64 (1 + total_decimals) else Ret 0);
  num_width ← arith_u 64 (num_width + (dec_width num_before_decimal_point + exp));
  num_width ← (if sign_plus options || negative then arith_u 64 (num_width + 1) else Ret num_width);
  num_width ← (if show_denom then arith_u 64 (num_width + (str_len (as_str denom) + 1)) else Ret num_width);
  let width := unwrap_or (width options) 0 in
  let align := unwrap_or (align options) Right in
  let '(left_pad, pad_right) :=
    if num_width <? width then
      if sign_aware_zero_pad options then (width - num_width, 0)
      else match align with
           | Right => (width - num_width, 0)
           | Left => (0, width - num_width)
           | Center => ((width - num_width) / 2, (width - num_width + 1) / 2)
           end
    else (0, 0) in
  Ret ((if negb (sign_aware_zero_pad options) then repeat_char (fill options) left_pad else [])
       ++ (if negative then [MINUS] else if sign_plus options then [PLUS] else [])
       ++ (if sign_aware_zero_pad options then repeat_char ZERO_CHAR left_pad else [])
       ++ display_u64 num_before_decimal_point
       ++ repeat_char ZERO_CHAR exp
       ++ (if 0 <? total_decimals then [DOT] else [])
       ++ (if 0 <? norm_nb_decimals then display_padded num_after_decimal_point norm_nb_decimals else [])
       ++ repeat_char ZERO_CHAR trailing_decimal_zeros
       ++ (if show_denom then SPACE :: as_str denom else [])
       ++ repeat_char (fill options) pad_right).
End fmt.

(** A formatter that shows an amount. *)
Inductive DisplayStyle :=
| FixedDenomination (denomination : Denomination) (show_denomination : bool)
| DynamicDenomination.
Record Display := mkDisplay { sats_abs : Z; display_negative : bool; style : DisplayStyle }.

Definition show_denomination (self : Display) : Display :=
  mkDisplay (sats_abs self) (display_negative self)
    (match style self with FixedDenomination d _ => FixedDenomination d true | s => s end).

(** ** Amounts *)

Module Amt.
Section amt.
Context {bm : BuildMode}.

Definition ZERO : Z := 0.
Definition ONE_SAT : Z := 1.
Definition MAX : Z := u64_MAX.

Definition from_int_btc (btc : Z) : run Z :=
  match checked_u64 (btc * 100000000) with Some a => Ret a | None => Panic end.
Definition ONE_BTC : Z := 100000000.
Definition MAX_MONEY : Z := 21000000 * ONE_BTC.

Definition from_str_in (s : str) (denom : Denomination) : comp ParseAmountError Z :=
  '(negative, satoshi) ← throw_map (fun e => convert e false) (parse_signed_to_satoshi s denom);
  match negative with
  | true => Throw (OutOfRange negative_error)
  | false => Val satoshi
  end.
Definition from_str {U : Unicode} (s : str) : comp ParseError Z :=
  '(amt, denom) ← split_amount_and_denomination s;
  throw_map ParseAmount (from_str_in amt denom).

Definition to_string_in (self : Z) (denom : Denomination) : run str :=
  fmt_satoshi_in self false denom false default_options.
Definition to_string_with_denomination (self : Z) (denom : Denomination) : run str :=
  buf ← fmt_satoshi_in self false denom false default_options;
  Ret (buf ++ SPACE :: as_str denom).
Definition display (self : Z) (options : FormatOptions) : run str :=
  let options :=
    match oprecision options with
    | None => if negb (self mod ONE_BTC =? 0)
              then mkOptions (fill options) (align options) (width options) (Some 8)
                     (sign_plus options) (sign_aware_zero_pad options)
              else options
    | Some _ => options
    end in
  fmt_satoshi_in self false Bitcoin true options.
Definition display_in (self : Z) (d : Denomination) : Display :=
  mkDisplay self false (FixedDenomination d false).
Definition display_dynamic (self : Z) : Display := mkDisplay self false DynamicDenomination.

Definition checked_add (self rhs : Z) : option Z := checked_u64 (self + rhs).
Definition checked_sub (self rhs : Z) : option Z := checked_u64 (self - rhs).
Definition checked_mul (self rhs : Z) : option Z := checked_u64 (self * rhs).
Definition checked_div (self rhs : Z) : option Z := if rhs =? 0 then None else Some (self / rhs).
Definition checked_rem (self rhs : Z) : option Z := if rhs =? 0 then None else Some (self mod rhs).
Definition unchecked_add (self rhs : Z) : run Z := arith_u 64 (self + rhs).
Definition unchecked_sub (self rhs : Z) : run Z := arith_u 64 (self - rhs).

Definition to_signed (self : Z) : Result OutOfRangeError Z :=
  if 2 ^ 63 - 1 <? self then Err (too_big true) else Ok (swrap 64 self).

Definition expect {A} (o : option A) : run A := match o with Some a => Ret a | None => Panic end.
Definition add (self rhs : Z) : run Z := expect (checked_add self rhs).
Definition sub (self rhs : Z) : run Z := expect (checked_sub self rhs).
Definition rem (self modulus : Z) : run Z := expect (checked_rem self modulus).
Definition mul (self rhs : Z) : run Z := expect (checked_mul self rhs).
Definition div (self rhs : Z) : run Z := expect (checked_div self rhs).

(** [Iterator::sum] of [u64] values, and the checked sum. *)
Fixpoint sum_from (acc : Z) (l : list Z) : run Z :=
  match l with [] => Ret acc | x :: l => acc ← arith_u 64 (acc + x); sum_from acc l end.
Definition sum (l : list Z) : run Z := sum_from 0 l.
Definition checked_sum (l : list Z) : option Z :=
  fold_left (fun acc item => a ← acc; checked_add a item) (tail l) (Some (match l with x :: _ => x | [] => ZERO end)).
End amt.
End Amt.

Section display.
Context {bm : BuildMode}.
Definition display_fmt (self : Display) (format_options : FormatOptions) : run str :=
  match style self with
  | FixedDenomination denomination show =>
      fmt_satoshi_in (sats_abs self) (display_negative self) denomination show format_options
  | DynamicDenomination =>
      if Amt.ONE_BTC <=? sats_abs self
      then fmt_satoshi_in (sats_abs self) (display_negative self) Bitcoin true format_options
      else fmt_satoshi_in (sats_abs self) (display_negative self) Satoshi true format_options
  end.
End display.

(** ** Signed amounts *)

Module Signed.
Section signed.
Context {bm : BuildMode}.

Definition MIN : Z := - 2 ^ 63.
Definition MAX : Z := 2 ^ 63 - 1.

Definition unsigned_abs (self : Z) : Z := Z.abs self.
Definition is_positive (self : Z) : bool := 0 <? self.
Definition is_negative (self : Z) : bool := self <? 0.
Definition signum (self : Z) : Z := Z.sgn self.

(** [(true, sat) => -(sat as i64)]: the cases before leave [sat] below 2^63. *)
Definition from_str_in (s : str) (denom : Denomination) : comp ParseAmountError Z :=
  '(negative, sat) ← throw_map (fun e => convert e true) (parse_signed_to_satoshi s denom);
  match negative with
  | false => if 2 ^ 63 - 1 <? sat then Throw (OutOfRange (too_big true)) else Val (swrap 64 sat)
  | true =>
      if sat =? 2 ^ 63 then Val MIN
      else if 2 ^ 63 <? sat then Throw (OutOfRange too_small)
      else Val (- swrap 64 sat)
  end.
Definition from_str {U : Unicode} (s : str) : comp ParseError Z :=
  '(amt, denom) ← split_amount_and_denomination s;
  throw_map ParseAmount (from_str_in amt denom).

Definition to_string_in (self : Z) (denom : Denomination) : run str :=
  fmt_satoshi_in (unsigned_abs self) (is_negative self) denom false default_options.
Definition to_string_with_denomination (self : Z) (denom : Denomination) : run str :=
  buf ← fmt_satoshi_in (unsigned_abs self) (is_negative self) denom false default_options;
  Ret (buf ++ SPACE :: as_str denom).
Definition display (self : Z) : run str := to_string_with_denomination self Bitcoin.
Definition display_in (self : Z) (d : Denomination) : Display :=
  mkDisplay (unsigned_abs self) (is_negative self) (FixedDenomination d false).
Definition display_dynamic (self : Z) : Display :=
  mkDisplay (unsigned_abs self) (is_negative self) DynamicDenomination.

Definition checked_abs (self : Z) : option Z := checked_i64 (Z.abs self).
(** [i64::abs]: overflow panics or wraps. *)
Definition abs (self : Z) : run Z := arith_i 64 (Z.abs self).
Definition neg (self : Z) : run Z := arith_i 64 (- self).
Definition checked_add (self rhs : Z) : option Z := checked_i64 (self + rhs).
Definition checked_sub (self rhs : Z) : option Z := checked_i64 (self - rhs).
Definition checked_mul (self rhs : Z) : option Z := checked_i64 (self * rhs).
Definition checked_div (self rhs : Z) : option Z :=
  if rhs =? 0 then None else checked_i64 (Z.quot self rhs).
(** [i64::checked_rem] is [None] for [MIN % -1] too. *)
Definition checked_rem (self rhs : Z) : option Z :=
  if rhs =? 0 then None else if (self =? MIN) && (rhs =? -1) then None else Some (Z.rem self rhs).
Definition unchecked_add (self rhs : Z) : run Z := arith_i 64 (self + rhs).
Definition unchecked_sub (self rhs : Z) : run Z := arith_i 64 (self - rhs).
Definition positive_sub (self rhs : Z) : option Z :=
  if is_negative self || is_negative rhs || (self <? rhs) then None else checked_sub self rhs.
Definition to_unsigned (self : Z) : Result OutOfRangeError Z :=
  if is_negative self then Err negative_error else Ok (wrap 64 self).
Definition add (self rhs : Z) : run Z := Amt.expect (checked_add self rhs).
Definition sub (self rhs : Z) : run Z := Amt.expect (checked_sub self rhs).
Definition rem (self modulus : Z) : run Z := Amt.expect (checked_rem self modulus).
Definition mul (self rhs : Z) : run Z := Amt.expect (checked_mul self rhs).
Definition div (self rhs : Z) : run Z := Amt.expect (checked_div self rhs).
Definition checked_sum (l : list Z) : option Z :=
  fold_left (fun acc item => a ← acc; checked_add a item) (tail l) (Some (match l with x :: _ => x | [] => 0 end)).
End signed.
End Signed.

(** ** Weights and fee rates *)

Module Wu.
Section wu.
Context {bm : BuildMode}.
Definition WITNESS_SCALE_FACTOR : Z := 4.
Definition MAX_BLOCK : Z := 4000000.
Definition MIN_TRANSACTION : Z := WITNESS_SCALE_FACTOR * 60.
Definition from_kwu (wu : Z) : option Z := checked_u64 (wu * 1000).
Definition from_vb (vb : Z) : option Z := checked_u64 (vb * WITNESS_SCALE_FACTOR).
Definition from_vb_unwrap (vb : Z) : run Z := Amt.expect (checked_u64 (vb * WITNESS_SCALE_FACTOR)).
Definition from_vb_unchecked (vb : Z) : run Z := arith_u 64 (vb * 4).
Definition from_non_witness_data_size (n : Z) : run Z := arith_u 64 (n * WITNESS_SCALE_FACTOR).
Definition to_kwu_floor (self : Z) : Z := self / 1000.
Definition to_vbytes_floor (self : Z) : Z := self / WITNESS_SCALE_FACTOR.
Definition to_vbytes_ceil (self : Z) : run Z :=
  s ← arith_u 64 (self + WITNESS_SCALE_FACTOR); s ← arith_u 64 (s - 1); Ret (s / WITNESS_SCALE_FACTOR).
Definition checked_add (self rhs : Z) : option Z := checked_u64 (self + rhs).
Definition checked_sub (self rhs : Z) : option Z := checked_u64 (self - rhs).
Definition checked_mul (self rhs : Z) : option Z := checked_u64 (self * rhs).
Definition checked_div (self rhs : Z) : option Z := if rhs =? 0 then None else Some (self / rhs).
Definition scale_by_witness_factor (self : Z) : option Z := checked_mul self WITNESS_SCALE_FACTOR.
End wu.
End Wu.

Module Fee.
Section fee.
Context {bm : BuildMode}.
Definition from_sat_per_vb (sat_vb : Z) : option Z := checked_u64 (sat_vb * (1000 / 4)).
Definition from_sat_per_vb_u32 (sat_vb : Z) : run Z := arith_u 64 (sat_vb * (1000 / 4)).
Definition to_sat_per_vb_floor (self : Z) : Z := self / (1000 / 4).
Definition to_sat_per_vb_ceil (self : Z) : run Z :=
  s ← arith_u 64 (self + (1000 / 4 - 1)); Ret (s / (1000 / 4)).
Definition checked_mul (self rhs : Z) : option Z := checked_u64 (self * rhs).
Definition checked_div (self rhs : Z) : option Z := if rhs =? 0 then None else Some (self / rhs).
Definition checked_mul_by_weight (self rhs : Z) : option Z :=
  m ← checked_u64 (self * rhs); s ← checked_u64 (m + 999); Some (s / 1000).
Definition fee_wu (self weight : Z) : option Z := checked_mul_by_weight self weight.
Definition fee_vb (self vb : Z) : option Z := w ← Wu.from_vb vb; fee_wu self w.
(** [Weight * FeeRate] and [Amount / Weight] *)
Definition mul_weight (weight rate : Z) : run Z :=
  m ← arith_u 64 (rate * weight); s ← arith_u 64 (m + 999); Ret (s / 1000).
Definition div_weight (amount weight : Z) : run Z :=
  m ← arith_u 64 (amount * 1000); if weight =? 0 then Panic else Ret (m / weight).

(** [TxIn::BASE_WEIGHT] (an out point of 36 bytes and a sequence of 4) and [effective_value]. *)
Definition BASE_WEIGHT : Z := (36 + 4) * Wu.WITNESS_SCALE_FACTOR.
Definition ok {E A} (r : Result E A) : option A := match r with Ok a => Some a | Err _ => None end.
Definition effective_value (fee_rate satisfaction_weight value : Z) : option Z :=
  weight ← Wu.checked_add satisfaction_weight BASE_WEIGHT;
  fee ← checked_mul_by_weight fee_rate weight;
  signed_input_fee ← ok (Amt.to_signed fee);
  v ← ok (Amt.to_signed value);
  Signed.checked_sub v signed_input_fee.
End fee.
End Fee.
