(* ===== verification/AmountText.v ===== *)
(** * The text and arithmetic of amounts

    Parsing reads a decimal numeral exactly, without rounding; what is printed parses back;
    arithmetic is exact or reports its overflow; fees round up. *)

From Stdlib Require Import ZArith Lia.
From coqutil Require Import Byte.
From stdpp Require Import base tactics option list numbers.
From S2P Require Import Prelude Amount.

#[local] Open Scope Z_scope.

(** ** Positions and slices *)

Lemma len_utf8_pos c : 1 <= len_utf8 c.
Proof. unfold len_utf8. repeat case_match; lia. Qed.

Lemma str_len_app s t : str_len (s ++ t) = str_len s + str_len t.
Proof. induction s as [|c s IH]; cbn [str_len app]; lia. Qed.

Lemma str_len_ge s : Z.of_nat (length s) <= str_len s.
Proof. induction s as [|c s IH]; cbn [str_len length]; [lia|]. pose proof (len_utf8_pos c). lia. Qed.

Lemma split_at_app s t : split_at (s ++ t) (str_len s) = Ret (s, t).
Proof.
  induction s as [|c s IH]; cbn [str_len app].
  - by destruct t.
  - pose proof (len_utf8_pos c). pose proof (str_len_ge s). cbn [split_at].
    rewrite (proj2 (Z.eqb_neq _ _)), (proj2 (Z.ltb_ge _ _)) by lia.
    replace (len_utf8 c + str_len s - len_utf8 c) with (str_len s) by lia. by rewrite IH, bind_Ret.
Qed.

Lemma slice_to_app s t : slice_to (s ++ t) (str_len s) = Ret s.
Proof. unfold slice_to. by rewrite split_at_app. Qed.
Lemma slice_from_app s t : slice_from (s ++ t) (str_len s) = Ret t.
Proof. unfold slice_from. by rewrite split_at_app. Qed.

Lemma map_snd_indices i s : map snd (indices_from i s) = s.
Proof. revert i. induction s as [|c s IH]; intros i; cbn [indices_from map]; [done|]. by rewrite IH. Qed.

Lemma find_index_spec p s i : find_index p s = Some i <->
  exists l c r, s = l ++ c :: r /\ p c = true /\ forallb (fun d => negb (p d)) l = true /\ i = str_len l.
Proof.
  unfold find_index, char_indices. replace i with (0 + i) at 1 by lia. generalize 0 as k. revert i.
  induction s as [|c s IH]; intros i k; cbn [indices_from List.find snd].
  - split; [done|]. intros (l & c & r & E & _). by destruct l.
  - destruct (p c) eqn:Ep; cbn [fmap option_fmap option_map fst].
    + split.
      * intros [= E]. exists [], c, s. repeat split; [done|simpl; lia].
      * intros (l & d & r & E & Hd & Hl & ->). destruct l as [|x l]; [simpl; f_equal; lia|].
        injection E as <- _. cbn [forallb] in Hl. by rewrite Ep in Hl.
    + replace (k + i) with (k + len_utf8 c + (i - len_utf8 c)) by lia. rewrite IH. split.
      * intros (l & d & r & -> & Hd & Hl & Ei). exists (c :: l), d, r.
        cbn [forallb str_len]. rewrite Ep. repeat split; [done|done|lia].
      * intros (l & d & r & E & Hd & Hl & ->). destruct l as [|x l]; injection E as <- ->; [congruence|].
        cbn [forallb str_len] in *. apply andb_true_iff in Hl as [_ Hl]. exists l, d, r.
        repeat split; [done|done|lia].
Qed.

Lemma find_index_None p s : find_index p s = None <-> forallb (fun d => negb (p d)) s = true.
Proof.
  unfold find_index, char_indices. generalize 0 as k.
  induction s as [|c s IH]; intros k; cbn [indices_from List.find snd forallb]; [done|].
  destruct (p c); cbn [negb andb]; [done|]. apply IH.
Qed.

Definition no_dot (s : str) : Prop := forallb (fun d => negb (d =? DOT)) s = true.

Lemma find_dot_app l r : no_dot l -> find_char DOT (l ++ DOT :: r) = Some (str_len l).
Proof. intros Hl. apply find_index_spec. by exists l, DOT, r. Qed.
Lemma find_dot_none l : no_dot l -> find_char DOT l = None.
Proof. intros Hl. by apply find_index_None. Qed.

(** ** Runs of zeros *)

Definition zeros (n : nat) : str := replicate n ZERO_CHAR.

Lemma length_zeros n : length (zeros n) = n.
Proof. apply length_replicate. Qed.

Lemma str_len_zeros n : str_len (zeros n) = Z.of_nat n.
Proof. induction n as [|n IH]; [done|]. unfold zeros in *. cbn [replicate str_len]. rewrite IH. change (len_utf8 ZERO_CHAR) with 1. lia. Qed.

Lemma no_dot_zeros n : no_dot (zeros n).
Proof. unfold no_dot, zeros. induction n; [done|]. cbn [replicate forallb]. by rewrite IHn. Qed.

Lemma find_not_zero_None l : List.find not_zero l = None <-> map snd l = zeros (length l).
Proof.
  induction l as [|[i c] l IH]; [by split|]. cbn [List.find snd map length].
  unfold zeros in *. cbn [replicate]. unfold not_zero at 1. cbn [snd].
  destruct (Z.eqb_spec c ZERO_CHAR) as [->|Hc]; cbn [negb].
  - rewrite IH. split; [by intros ->|by intros [= ->]].
  - split; [done|]. intros [= ? ?]. done.
Qed.

Lemma rev_zeros n : rev (zeros n) = zeros n.
Proof.
  unfold zeros. induction n as [|n IH]; [done|]. cbn [replicate rev]. rewrite IH.
  by rewrite <- replicate_cons_app.
Qed.

(** The last [k] characters of [l] are zeros, or all if there are fewer. *)
Lemma find_last_None k l : List.find not_zero (take k (rev (char_indices l))) = None <->
  exists ip, l = ip ++ zeros (k `min` length l).
Proof.
  rewrite find_not_zero_None, <- firstn_map, map_rev. unfold char_indices.
  rewrite map_snd_indices, length_take, length_rev.
  assert (length (indices_from 0 l) = length l) as -> by (by rewrite <- (map_snd_indices 0 l) at 2; rewrite length_map).
  split.
  - intros E. exists (rev (drop k (rev l))). rewrite <- (rev_involutive l) at 1.
    rewrite <- (take_drop k (rev l)) at 1. by rewrite rev_app_distr, E, rev_zeros.
  - intros [ip E]. set (m := (k `min` length l)%nat) in *.
    assert (length (zeros m) = m) as Hz by apply length_replicate.
    destruct (decide (k <= length l)%nat) as [Hk|Hk].
    + replace k with m at 1 by (unfold m; lia). rewrite E, rev_app_distr, rev_zeros.
      by rewrite take_app_length' by (by rewrite Hz).
    + rewrite take_ge by (rewrite length_rev; lia). rewrite E at 1.
      destruct ip as [|c ip]; [cbn [app]; by rewrite rev_zeros|]. exfalso.
      apply (f_equal length) in E. rewrite length_app, Hz in E. unfold m in E. simpl in E. lia.
Qed.

(** [s] is [ip], then [k] zeros, and perhaps a point with zeros. *)
Definition shape (k : nat) (s ip : str) : Prop :=
  ip <> [] /\ no_dot ip /\ exists tail, s = ip ++ zeros k ++ tail /\ (tail = [] \/ exists z, tail = DOT :: zeros z).

Lemma no_dot_app l r : no_dot (l ++ r) <-> no_dot l /\ no_dot r.
Proof. unfold no_dot. by rewrite forallb_app, andb_true_iff. Qed.

Lemma first_dot l l' r r' : no_dot l -> no_dot l' -> l ++ DOT :: r = l' ++ DOT :: r' -> l = l' /\ r = r'.
Proof.
  revert l'. induction l as [|c l IH]; intros [|c' l'] Hl Hl' E; unfold no_dot in *; cbn in *; simplify_eq; auto.
  apply andb_true_iff in Hl as [_ Hl], Hl' as [_ Hl']. destruct (IH l'); auto. by subst.
Qed.

Lemma no_dot_contra l r : no_dot (l ++ DOT :: r) -> False.
Proof. intros [_ H]%no_dot_app. by cbn in H. Qed.

Lemma str_len_nonempty s : s <> [] -> 0 < str_len s.
Proof. destruct s as [|c s]; [done|]. intros _. cbn [str_len]. pose proof (len_utf8_pos c). pose proof (str_len_ge s). lia. Qed.

Lemma find_none_all l : List.find not_zero (char_indices l) = None <-> l = zeros (length l).
Proof.
  rewrite find_not_zero_None. unfold char_indices. rewrite map_snd_indices.
  by rewrite <- (length_map snd (indices_from 0 l)), map_snd_indices.
Qed.

(** Zeros at the end of [l] that its length in bytes leaves room for. *)
Lemma last_zeros k l : Z.of_nat k < str_len l -> (exists ip, l = ip ++ zeros (k `min` length l)) ->
  exists ip, ip <> [] /\ l = ip ++ zeros k.
Proof.
  intros Hk [ip E]. destruct (decide (k < length l)%nat).
  - rewrite Nat.min_l in E by lia. exists ip. split; [|done]. intros ->.
    apply (f_equal length) in E. rewrite length_app, length_zeros in E. simpl in E. lia.
  - rewrite Nat.min_r in E by lia.
    assert (ip = []) as -> by (apply (f_equal length) in E; rewrite length_app, length_zeros in E;
      destruct ip; [done|simpl in E; lia]).
    apply (f_equal str_len) in E. cbn [app] in E. rewrite str_len_zeros in E. lia.
Qed.

Lemma shape_dot k l r ip : no_dot l -> shape k (l ++ DOT :: r) ip -> l = ip ++ zeros k /\ r = zeros (length r).
Proof.
  intros Hl (_ & Hip & tail & E & [->|[z ->]]).
  - rewrite app_nil_r in E. exfalso. apply (no_dot_contra l r). rewrite E.
    apply no_dot_app. split; [done|apply no_dot_zeros].
  - rewrite (app_assoc ip) in E. apply first_dot in E as [-> ->]; [|done|].
    + split; [done|]. by rewrite length_zeros.
    + apply no_dot_app. split; [done|apply no_dot_zeros].
Qed.

Lemma shape_no_dot k l ip : no_dot l -> shape k l ip -> l = ip ++ zeros k.
Proof.
  intros Hl (_ & Hip & tail & -> & [->|[z ->]]); [by rewrite app_nil_r|].
  rewrite app_assoc in Hl. by apply no_dot_contra in Hl.
Qed.

Lemma find_char_cases s : match find_char DOT s with
  | Some pos => exists l r, s = l ++ DOT :: r /\ no_dot l /\ pos = str_len l
  | None => no_dot s
  end.
Proof.
  destruct (find_char DOT s) as [pos|] eqn:E; [|by apply find_index_None].
  apply find_index_spec in E as (l & c & r & -> & Hc%Z.eqb_eq & Hl & ->). subst c. by exists l, r.
Qed.

Lemma is_too_precise_spec s k : 0 <= k ->
  match is_too_precise s k with
  | Ret None => exists ip, shape (Z.to_nat k) s ip
  | Ret (Some _) => forall ip, ~ shape (Z.to_nat k) s ip
  | Panic => False
  end.
Proof.
  intros Hk. unfold is_too_precise. pose proof (find_char_cases s) as Hf.
  destruct (find_char DOT s) as [pos|].
  - destruct Hf as (l & r & -> & Hl & ->). destruct (Z.leb_spec (str_len l) k).
    + intros ip Hs. pose proof Hs as (Hne & _). apply shape_dot in Hs as [-> _]; [|done].
      rewrite str_len_app, str_len_zeros in *. apply str_len_nonempty in Hne. lia.
    + rewrite slice_to_app, bind_Ret.
      destruct (List.find not_zero (take (Z.to_nat k) (rev (char_indices l)))) as [[i c]|] eqn:El.
      * intros ip Hs. apply shape_dot in Hs as [-> _]; [|done].
        enough (List.find not_zero (take (Z.to_nat k) (rev (char_indices (ip ++ zeros (Z.to_nat k))))) = None) by congruence.
        apply find_last_None. exists ip. f_equal. f_equal. rewrite length_app, length_zeros. lia.
      * apply find_last_None, last_zeros in El as (ip & Hne & ->); [|lia].
        rewrite (app_assoc _ [DOT] r : (_ ++ zeros _) ++ DOT :: r = ((_ ++ zeros _) ++ [DOT]) ++ r).
        replace (str_len (ip ++ zeros (Z.to_nat k)) + 1) with (str_len ((ip ++ zeros (Z.to_nat k)) ++ [DOT]))
          by (rewrite !str_len_app; reflexivity).
        rewrite slice_from_app, bind_Ret. destruct (List.find not_zero (char_indices r)) as [ic|] eqn:Er; cbn [fmap option_fmap option_map].
        -- intros ip' Hs. rewrite <- !app_assoc in Hs. rewrite app_assoc in Hs. cbn [app] in Hs.
           apply shape_dot in Hs as [_ Hr]; [|done]. apply find_none_all in Hr. congruence.
        -- apply find_none_all in Er. exists ip. split; [done|]. apply no_dot_app in Hl as [Hip _].
           split; [done|]. exists (DOT :: r). rewrite <- !app_assoc. split; [done|]. right. exists (length r). by f_equal.
  - destruct (Z.leb_spec (str_len s) k).
    + intros ip Hs. pose proof Hs as (Hne & _). apply shape_no_dot in Hs as ->; [|done].
      rewrite str_len_app, str_len_zeros in *. apply str_len_nonempty in Hne. lia.
    + destruct (List.find not_zero (take (Z.to_nat k) (rev (char_indices s)))) as [[i c]|] eqn:El; cbn [fmap option_fmap option_map].
      * intros ip Hs. apply shape_no_dot in Hs as ->; [|done].
        enough (List.find not_zero (take (Z.to_nat k) (rev (char_indices (ip ++ zeros (Z.to_nat k))))) = None) by congruence.
        apply find_last_None. exists ip. f_equal. f_equal. rewrite length_app, length_zeros. lia.
      * apply find_last_None, last_zeros in El as (ip & Hne & ->); [|lia].
        exists ip. split; [done|]. apply no_dot_app in Hf as [Hip _]. split; [done|].
        exists []. rewrite app_nil_r. auto.
Qed.

(** ** Digits *)

Definition digits (s : str) : Prop := forallb is_digit s = true.
Definition dval_from (a : Z) (s : str) : Z := fold_left (fun a c => 10 * a + (c - 0x30)) s a.
Definition dval (s : str) : Z := dval_from 0 s.

Lemma is_digit_spec c : is_digit c = true <-> 0x30 <= c <= 0x39.
Proof. unfold is_digit. rewrite andb_true_iff, !Z.leb_le. lia. Qed.

Lemma digits_cons c s : digits (c :: s) <-> is_digit c = true /\ digits s.
Proof. unfold digits. cbn [forallb]. apply andb_true_iff. Qed.
Lemma digits_app s t : digits (s ++ t) <-> digits s /\ digits t.
Proof. unfold digits. by rewrite forallb_app, andb_true_iff. Qed.

Lemma dval_from_ge s : forall a, 0 <= a -> digits s -> a <= dval_from a s.
Proof.
  induction s as [|c s IH]; intros a Ha Hs; [done|].
  apply digits_cons in Hs as [Hc%is_digit_spec Hs]. cbn [dval_from fold_left].
  specialize (IH (10 * a + (c - 48)) ltac:(lia) Hs). unfold dval_from in IH. lia.
Qed.

Lemma dval_from_app a s t : dval_from a (s ++ t) = dval_from (dval_from a s) t.
Proof. apply fold_left_app. Qed.

Lemma digits_no_dot s : digits s -> no_dot s.
Proof.
  induction s as [|c s IH]; [done|]. intros [Hc%is_digit_spec Hs]%digits_cons.
  unfold no_dot in *. cbn [forallb]. rewrite IH by done. unfold DOT.
  by rewrite (proj2 (Z.eqb_neq _ _)) by lia.
Qed.

Lemma checked_u64_spec z w : checked_u64 z = Some w <-> w = z /\ in_u 64 z.
Proof.
  unfold checked_u64. destruct (in_ub 64 z) eqn:E.
  - apply in_ub_spec in E. split; [by intros [= ->]|by intros [-> _]].
  - split; [done|]. intros [_ H]. apply in_ub_spec in H. congruence.
Qed.

Lemma checked_u64_Some z : in_u 64 z -> checked_u64 z = Some z.
Proof. intros. by apply checked_u64_spec. Qed.
Lemma checked_u64_None z : ~ in_u 64 z -> checked_u64 z = None.
Proof. intros H. destruct (checked_u64 z) eqn:E; [|done]. by apply checked_u64_spec in E as [_ E]. Qed.

(** One digit: the two checked operations are one. *)
Lemma digit_step {A} v c (k : Z -> Result InnerParseError A) e : 0 <= v -> is_digit c = true ->
  match checked_u64 (10 * v) with
  | None => Err e
  | Some val => match checked_u64 (val + (c - 0x30)) with None => Err e | Some value => k value end
  end = if decide (in_u 64 (10 * v + (c - 0x30))) then k (10 * v + (c - 0x30)) else Err e.
Proof.
  intros Hv Hc%is_digit_spec. destruct (decide _) as [H|H].
  - rewrite checked_u64_Some by (unfold in_u in *; lia). by rewrite checked_u64_Some.
  - destruct (checked_u64 (10 * v)) eqn:E; [|done]. apply checked_u64_spec in E as [-> _].
    by rewrite checked_u64_None.
Qed.

Lemma parse_frac neg md s : forall i d v dec w, in_u 64 v -> d <= md ->
  parse_loop (indices_from i s) neg md (Some d) v = Ok (dec, w) <->
  digits s /\ d + Z.of_nat (length s) <= md /\ dec = Some (d + Z.of_nat (length s)) /\
  w = dval_from v s /\ in_u 64 w.
Proof.
  induction s as [|c s IH]; intros i d v dec w Hv Hd; cbn [indices_from parse_loop length].
  - cbn [dval_from fold_left]. rewrite !Z.add_0_r. split; [intros [= <- <-]|intros (_ & _ & -> & -> & _)]; done.
  - rewrite digits_cons. destruct (is_digit c) eqn:Ec.
    + rewrite digit_step by (unfold in_u in *; (done || lia)). pose proof (proj1 (is_digit_spec c) Ec).
      destruct (decide _) as [H1|H1]; [destruct (Z.ltb_spec d md)|].
      * rewrite IH by (done || lia). cbn [dval_from fold_left]. unfold dval_from.
        replace (d + Z.of_nat (S (length s))) with (d + 1 + Z.of_nat (length s)) by lia. tauto.
      * split; [done|]. intros (_ & ? & _). lia.
      * split; [done|]. intros ((_ & Hs) & _ & _ & -> & Hw). destruct H1.
        cbn [dval_from fold_left] in Hw. pose proof (dval_from_ge s (10 * v + (c - 48))) as Hge.
        unfold dval_from in Hge. unfold in_u in *. specialize (Hge ltac:(lia) Hs). lia.
    + split; [by destruct (c =? DOT)|]. by intros ((? & _) & _).
Qed.

Lemma parse_int neg md s : forall i v dec w, in_u 64 v -> 0 <= md -> 0 < md \/ no_dot s ->
  parse_loop (indices_from i s) neg md None v = Ok (dec, w) <->
  (digits s /\ dec = None /\ w = dval_from v s /\ in_u 64 w) \/
  (exists ip fp, s = ip ++ DOT :: fp /\ digits (ip ++ fp) /\ Z.of_nat (length fp) <= md /\
     dec = Some (Z.of_nat (length fp)) /\ w = dval_from v (ip ++ fp) /\ in_u 64 w).
Proof.
  induction s as [|c s IH]; intros i v dec w Hv Hm Hd; cbn [indices_from parse_loop].
  - cbn [dval_from fold_left]. split; [intros [= <- <-]; by left|].
    intros [(_ & -> & -> & _)|(ip & fp & E & _)]; [done|by destruct ip].
  - assert (0 < md \/ no_dot s) as Hd'.
    { destruct Hd as [?|Hd]; [by left|]. right. unfold no_dot in *. cbn in Hd. by apply andb_true_iff in Hd as [_ ?]. }
    destruct (is_digit c) eqn:Ec.
    + rewrite digit_step by (unfold in_u in *; (done || lia)). pose proof (proj1 (is_digit_spec c) Ec).
      destruct (decide _) as [H1|H1].
      * rewrite IH by done. rewrite digits_cons. split.
        -- intros [(? & -> & -> & ?)|(ip & fp & -> & ? & ? & -> & -> & ?)]; [left; done|right].
           exists (c :: ip), fp. cbn [app]. rewrite digits_cons. done.
        -- intros [([_ ?] & -> & -> & ?)|(ip & fp & E & Hf & ? & -> & -> & ?)]; [left; done|right].
           destruct ip as [|x ip]; cbn [app] in E; simplify_eq; try done. exists ip, fp. cbn [app] in Hf.
           apply digits_cons in Hf as [_ Hf]. done.
      * split; [done|]. intros Hw. destruct H1.
        assert (exists t, digits t /\ w = dval_from (10 * v + (c - 48)) t /\ in_u 64 w) as (t & Ht & -> & Hw').
        { rewrite digits_cons in Hw. destruct Hw as [([_ ?] & _ & -> & ?)|(ip & fp & E & Hf & _ & _ & -> & ?)]; [by exists s|].
          destruct ip as [|x ip]; cbn [app] in E; simplify_eq; try done. cbn [app] in *. apply digits_cons in Hf as [_ Hf].
          by exists (ip ++ fp). }
        pose proof (dval_from_ge t (10 * v + (c - 48))). unfold in_u in *. specialize (H0 ltac:(lia) Ht). lia.
    + rewrite digits_cons. destruct (Z.eqb_spec c DOT) as [->|Hc].
      * destruct (Z.leb_spec md 0).
        { exfalso. destruct Hd as [?|Hd]; [lia|]. by apply (no_dot_contra [] s). }
        rewrite parse_frac by (done || lia). rewrite Z.add_0_l. split.
        -- intros (? & ? & -> & -> & ?). right. by exists [], s.
        -- intros [[[? _] _]|(ip & fp & E & Hf & ? & -> & -> & ?)]; [done|].
           destruct ip as [|x ip]; cbn [app] in E; simplify_eq; try done.
      * split; [done|]. intros [[[? _] _]|(ip & fp & E & Hf & _)]; [congruence|].
        destruct ip as [|x ip]; cbn [app] in E; simplify_eq; try done. cbn [app] in Hf.
        apply digits_cons in Hf as [? _]. congruence.
Qed.

Lemma scale_spec neg n : forall v w, in_u 64 v ->
  scale_loop n neg v = Ok w <-> w = v * 10 ^ Z.of_nat n /\ in_u 64 w.
Proof.
  induction n as [|n IH]; intros v w Hv; cbn [scale_loop].
  - rewrite Z.mul_1_r. split; [by intros [= <-]|by intros [-> _]].
  - rewrite Nat2Z.inj_succ, Z.pow_succ_r by lia.
    assert (0 < 10 ^ Z.of_nat n) by (apply Z.pow_pos_nonneg; lia).
    destruct (decide (in_u 64 (10 * v))) as [H1|H1].
    + rewrite checked_u64_Some, IH by done.
      replace (v * (10 * 10 ^ Z.of_nat n)) with (10 * v * 10 ^ Z.of_nat n) by ring. done.
    + rewrite checked_u64_None by done. split; [done|]. intros [-> Hw]. destruct H1. unfold in_u in *. nia.
Qed.

(** ** What parsing accepts *)

(** [s], without its sign, denotes [v] satoshis.  In a denomination of [k] digits below a
    satoshi the numeral ends in [k] zeros and perhaps a point with zeros, or is an integer
    literal of zero; in one above, it is a numeral with at most as many decimals as there are
    satoshi digits. *)
Definition reads (denom : Denomination) (s : str) (v : Z) : Prop :=
  let k := precision denom in
  if 0 <=? k then
    (exists ip, shape (Z.to_nat k) s ip /\ digits ip /\ v = dval ip) \/
    (v = 0 /\ parse_i64 s = Some 0 /\ forall ip, ~ shape (Z.to_nat k) s ip)
  else
    exists ip fp, (s = ip /\ fp = [] \/ s = ip ++ DOT :: fp) /\ digits (ip ++ fp) /\
      Z.of_nat (length fp) <= - k /\ v = dval (ip ++ fp) * 10 ^ (- k - Z.of_nat (length fp)).

Lemma shape_unique k s ip ip' : shape k s ip -> shape k s ip' -> ip = ip'.
Proof.
  intros H H'. pose proof (find_char_cases s) as Hf. destruct (find_char DOT s).
  - destruct Hf as (l & r & -> & Hl & _). apply shape_dot in H as [-> _], H' as [E _]; [|done..].
    by apply app_inv_tail in E.
  - apply shape_no_dot in H as ->, H' as E; [|done..]. by apply app_inv_tail in E.
Qed.

Lemma shape_slice k s ip : shape k s ip ->
  slice_to s ((match find_char DOT s with Some pos => pos | None => str_len s end) - Z.of_nat k) = Ret ip.
Proof.
  intros (Hne & Hip & tail & -> & Ht). rewrite app_assoc.
  assert (no_dot (ip ++ zeros k)) as Hn by (apply no_dot_app; split; [done|apply no_dot_zeros]).
  assert (match find_char DOT ((ip ++ zeros k) ++ tail) with Some pos => pos | None => str_len ((ip ++ zeros k) ++ tail) end
    = str_len (ip ++ zeros k)) as ->.
  { destruct Ht as [->|[z ->]]; [rewrite app_nil_r, find_dot_none by done; done|by rewrite find_dot_app]. }
  rewrite str_len_app, str_len_zeros. replace (str_len ip + Z.of_nat k - Z.of_nat k) with (str_len ip) by lia.
  rewrite <- app_assoc. apply slice_to_app.
Qed.

Definition finish_parse (is_negative : bool) (t : (str * Z) + bool * Z) : comp InnerParseError (bool * Z) :=
  match t with
  | inr r => Val r
  | inl (s, max_decimals) =>
      '(decimals, value) ← of_result (parse_loop (char_indices s) is_negative max_decimals None 0);
      let scale_factor := max_decimals - match decimals with Some d => d | None => 0 end in
      value ← of_result (scale_loop (Z.to_nat scale_factor) is_negative value);
      Val (is_negative, value)
  end.

Lemma of_result_Val {E A} (m : Result E A) a : of_result m = Val a <-> m = Ok a.
Proof. destruct m; split; by intros [= ->]. Qed.

Lemma finish_spec neg s md v : 0 <= md -> 0 < md \/ no_dot s ->
  finish_parse neg (inl (s, md)) = Val (neg, v) <->
  in_u 64 v /\ exists ip fp, (s = ip /\ fp = [] \/ s = ip ++ DOT :: fp) /\ digits (ip ++ fp) /\
      Z.of_nat (length fp) <= md /\ v = dval (ip ++ fp) * 10 ^ (md - Z.of_nat (length fp)).
Proof.
  intros Hmd Hd. unfold finish_parse, char_indices.
  assert (in_u 64 0) as H0 by (unfold in_u; lia).
  assert (forall m : Result InnerParseError (option Z * Z),
    (x ← of_result m; let '(dec, val) := x in
      val ← of_result (scale_loop (Z.to_nat (md - match dec with Some d => d | None => 0 end)) neg val);
      Val (neg, val)) = Val (neg, v) <->
    exists dec w, m = Ok (dec, w) /\ scale_loop (Z.to_nat (md - match dec with Some d => d | None => 0 end)) neg w = Ok v) as Hm.
  { intros [[dec w]|e]; cbn [of_result mbind comp_bind].
    - destruct (scale_loop _ neg w) eqn:E; cbn [of_result mbind comp_bind].
      + split; [intros [= <-]; eauto|]. intros (? & ? & [= <- <-] & E'). congruence.
      + split; [done|]. intros (? & ? & [= <- <-] & E'). congruence.
    - split; [done|]. by intros (? & ? & ? & _). }
  rewrite Hm. clear Hm. split.
  - intros (dec & w & Hp & Hs). apply parse_int in Hp; [|done..].
    assert (in_u 64 w) as Hw by naive_solver. apply scale_spec in Hs as [-> Hv]; [|done]. split; [done|].
    destruct Hp as [(Hds & -> & -> & _)|(ip & fp & -> & Hds & Hl & -> & -> & _)].
    + exists s, []. rewrite app_nil_r. split; [by left|]. split; [done|]. split; [simpl; lia|].
      unfold dval. simpl length. rewrite Z2Nat.id by lia. done.
    + exists ip, fp. split; [by right|]. split; [done|]. split; [done|]. rewrite Z2Nat.id by lia. done.
  - intros (Hv & ip & fp & Hs & Hds & Hl & ->).
    assert (0 < 10 ^ (md - Z.of_nat (length fp))) by (apply Z.pow_pos_nonneg; lia).
    pose proof (dval_from_ge (ip ++ fp) 0 ltac:(lia) Hds) as Hge. unfold dval in *.
    assert (in_u 64 (dval_from 0 (ip ++ fp))) as Hw by (unfold in_u in *; nia).
    destruct Hs as [[-> ->]| ->].
    + exists None, (dval_from 0 (ip ++ [])). rewrite app_nil_r in *. split.
      * apply parse_int; [done..|]. by left.
      * apply scale_spec; [done|]. simpl length in *. rewrite Z2Nat.id by lia. done.
    + exists (Some (Z.of_nat (length fp))), (dval_from 0 (ip ++ fp)). split.
      * apply parse_int; [done..|]. right. by exists ip, fp.
      * apply scale_spec; [done|]. rewrite Z2Nat.id by lia. done.
Qed.

(** After the sign. *)
Definition parse_unsigned (s : str) (denom : Denomination) (neg : bool) : comp InnerParseError (bool * Z) :=
  t ← truncate s denom neg; finish_parse neg t.

Lemma parse_unsigned_spec s denom neg v :
  parse_unsigned s denom neg <> Crash /\
  (parse_unsigned s denom neg = Val (neg, v) <-> in_u 64 v /\ reads denom s v) /\
  (forall neg' v', parse_unsigned s denom neg = Val (neg', v') -> neg' = neg).
Proof.
  assert (forall md s, finish_parse neg (inl (s, md)) <> Crash /\
    forall neg' v', finish_parse neg (inl (s, md)) = Val (neg', v') -> neg' = neg) as Hfin.
  { intros md s'. unfold finish_parse. destruct (parse_loop _ _ _ _ _) as [[dec w]|]; [|done].
    cbn [of_result mbind comp_bind]. destruct (scale_loop _ _ _); [|done].
    split; [done|]. by intros ? ? [= <- _]. }
  unfold parse_unsigned, truncate, reads.
  destruct (Z.leb_spec (- precision denom) 0) as [Hk|Hk]; destruct (Z.leb_spec 0 (precision denom)); try lia.
  - rewrite Z.abs_opp, Z.abs_eq by lia. set (k := precision denom) in *.
    pose proof (is_too_precise_spec s k) as Hp. specialize (Hp ltac:(lia)).
    destruct (is_too_precise s k) as [[pos|]|]; [| |done]; cbn [of_run mbind comp_bind].
    + destruct (decide (parse_i64 s = Some 0)) as [Hz|Hz]; cbn [finish_parse].
      * split; [done|]. split; [|by intros ? ? [= <- _]]. split.
        -- intros [= <-]. split; [unfold in_u; lia|]. right. done.
        -- intros [_ [(ip & Hs & _)|(-> & _)]]; [by destruct (Hp ip)|done].
      * split; [done|]. split; [|done]. split; [done|].
        intros [_ [(ip & Hs & _)|(-> & ? & _)]]; [by destruct (Hp ip)|done].
    + destruct Hp as [ip Hs]. pose proof (shape_slice _ _ _ Hs) as Hsl. rewrite Z2Nat.id in Hsl by lia.
      rewrite Hsl. cbn [of_run mbind comp_bind]. split; [apply Hfin|]. split; [|apply Hfin].
      assert (no_dot ip) as Hn by apply Hs.
      rewrite finish_spec by (done || (by right)). split; (intros [Hv Hr]; split; [done|]).
      * destruct Hr as (ip' & fp & Hc & Hds & Hl & ->). assert (fp = []) as -> by (destruct fp; [done|simpl in Hl; lia]).
        destruct Hc as [[-> _]| ->]; [|by apply no_dot_contra in Hn].
        left. exists ip'. rewrite app_nil_r in *. simpl length. rewrite Z.sub_0_r, Z.mul_1_r. done.
      * destruct Hr as [(ip' & Hs' & Hds & ->)|(_ & _ & Hno)]; [|by destruct (Hno ip)].
        rewrite (shape_unique _ _ _ _ Hs Hs'). exists ip', []. rewrite app_nil_r. simpl length.
        rewrite Z.sub_0_r, Z.mul_1_r. split; [by left|]. split; [done|]. split; [lia|done].
  - cbn [mbind comp_bind]. split; [apply Hfin|]. split; [|apply Hfin].
    apply finish_spec; [lia|left; lia].
Qed.

Lemma parse_signed_unfold s denom : parse_signed_to_satoshi s denom =
  if str_len s =? 0 then Throw (InnerMissingDigits Empty)
  else if INPUT_STRING_LEN_LIMIT <? str_len s then Throw (InnerInputTooLarge (str_len s))
  else match s with
       | c :: s' => if c =? MINUS then if str_len s =? 1 then Throw (InnerMissingDigits OnlyMinusSign)
                                      else parse_unsigned s' denom true
                    else parse_unsigned s denom false
       | [] => Throw (InnerMissingDigits Empty)
       end.
Proof.
  unfold parse_signed_to_satoshi. destruct s as [|c s]; [done|].
  destruct (_ =? 0); [done|]. destruct (_ <? _); [done|].
  destruct (Z.eqb_spec c MINUS) as [->|]; [|done].
  destruct (str_len (MINUS :: s) =? 1); [done|]. cbn [andb].
  change (slice_from (MINUS :: s) 1) with (slice_from ([MINUS] ++ s) (str_len [MINUS])).
  by rewrite slice_from_app.
Qed.

(** Which texts are read, and as what. *)
Lemma parse_signed_spec s denom neg v :
  parse_signed_to_satoshi s denom <> Crash /\
  (parse_signed_to_satoshi s denom = Val (neg, v) <->
   str_len s <= 50 /\ in_u 64 v /\
   exists t, t <> [] /\ s = (if neg then [MINUS] else []) ++ t /\ (neg = false -> head t <> Some MINUS) /\
     reads denom t v).
Proof.
  rewrite parse_signed_unfold. unfold INPUT_STRING_LEN_LIMIT.
  destruct s as [|c s].
  { split; [done|]. split; [done|]. intros (_ & _ & t & Ht & E & _). destruct neg; [done|]. by destruct t. }
  rewrite (proj2 (Z.eqb_neq (str_len (c :: s)) 0)) by (pose proof (str_len_nonempty (c :: s)); lia || (specialize (H ltac:(done)); lia)).
  destruct (Z.ltb_spec 50 (str_len (c :: s))).
  { split; [done|]. split; [done|]. intros (? & _). lia. }
  destruct (Z.eqb_spec c MINUS) as [->|Hc].
  - cbn [str_len]. change (len_utf8 MINUS) with 1.
    destruct (Z.eqb_spec (1 + str_len s) 1) as [E|E].
    + assert (s = []) as -> by (destruct s; [done|]; pose proof (str_len_nonempty (z :: s) ltac:(done)); lia).
      split; [done|]. split; [done|]. intros (_ & _ & t & Ht & E' & Hh & _).
      destruct neg; [injection E' as <-; done|]. cbn [app] in E'. subst t. by destruct (Hh eq_refl).
    + destruct (parse_unsigned_spec s denom true v) as (Hc & Hs & Hn). split; [done|].
      split.
      * intros Hv. pose proof (Hn _ _ Hv) as ->. apply Hs in Hv as [Hv Hr].
        split; [cbn [str_len] in *; change (len_utf8 MINUS) with 1 in *; lia|]. split; [done|].
        exists s. split; [by intros ->|]. done.
      * intros (_ & Hv & t & Ht & E' & Hh & Hr). destruct neg.
        -- injection E' as <-. by apply Hs.
        -- cbn [app] in E'. subst t. by destruct (Hh eq_refl).
  - destruct (parse_unsigned_spec (c :: s) denom false v) as (Hcr & Hs & Hn). split; [done|]. split.
    + intros Hv. pose proof (Hn _ _ Hv) as ->. apply Hs in Hv as [Hv Hr]. split; [lia|]. split; [done|].
      exists (c :: s). split; [done|]. split; [done|]. split; [|done]. cbn [head]. congruence.
    + intros (_ & Hv & t & Ht & E' & Hh & Hr). destruct neg.
      * injection E' as -> _. done.
      * cbn [app] in E'. subst t. by apply Hs.
Qed.

(** ** Printed numerals *)

Lemma dval_snoc s c : dval (s ++ [c]) = 10 * dval s + (c - 0x30).
Proof. unfold dval. by rewrite dval_from_app. Qed.

Lemma digits_rev_spec fuel : forall n, (0 < fuel)%nat -> 0 <= n < 10 ^ Z.of_nat fuel ->
  digits (rev (digits_rev fuel n)) /\ dval (rev (digits_rev fuel n)) = n /\ digits_rev fuel n <> [].
Proof.
  induction fuel as [|fuel IH]; intros n Hf Hn; [lia|]. cbn [digits_rev rev].
  rewrite Nat2Z.inj_succ, Z.pow_succ_r in Hn by lia.
  pose proof (Z.div_mod n 10 ltac:(lia)). pose proof (Z.mod_pos_bound n 10 ltac:(lia)).
  assert (is_digit (48 + n mod 10) = true) as Hd by (apply is_digit_spec; lia).
  assert (0 <= n / 10 < 10 ^ Z.of_nat fuel) as Hq
    by (split; [apply Z.div_pos; lia|apply Z.div_lt_upper_bound; lia]).
  destruct (Z.eqb_spec (n / 10) 0) as [E|E].
  - cbn [rev app]. split; [unfold digits; cbn [forallb]; by rewrite Hd|]. split; [|done].
    unfold dval, dval_from. cbn [fold_left]. lia.
  - destruct fuel as [|fuel]; [simpl in Hq; lia|]. destruct (IH (n / 10) ltac:(lia) Hq) as (H1 & H2 & _).
    split; [|split; [|done]].
    + apply digits_app. split; [done|]. unfold digits; cbn [forallb]. by rewrite Hd.
    + rewrite dval_snoc, H2. lia.
Qed.

Lemma digits_rev_length fuel : forall n w, 0 <= n < 10 ^ Z.of_nat w -> (0 < w)%nat ->
  (length (digits_rev fuel n) <= w)%nat.
Proof.
  induction fuel as [|fuel IH]; intros n w Hn Hw; [simpl; lia|]. cbn [digits_rev length].
  destruct (Z.eqb_spec (n / 10) 0) as [E|E]; [simpl; lia|].
  destruct w as [|w]; [lia|]. rewrite Nat2Z.inj_succ, Z.pow_succ_r in Hn by lia.
  assert (0 <= n / 10 < 10 ^ Z.of_nat w) as Hq
    by (split; [apply Z.div_pos; lia|apply Z.div_lt_upper_bound; lia]).
  destruct w as [|w]; [simpl in Hq; lia|]. specialize (IH (n / 10) (S w) Hq ltac:(lia)). lia.
Qed.

Lemma display_u64_spec n : in_u 64 n ->
  digits (display_u64 n) /\ dval (display_u64 n) = n /\ display_u64 n <> [] /\ (length (display_u64 n) <= 20)%nat.
Proof.
  intros Hn. unfold in_u in Hn. unfold display_u64.
  destruct (digits_rev_spec 64 n ltac:(lia) ltac:(lia)) as (H1 & H2 & H3).
  split; [done|]. split; [done|]. split; [intros E; apply H3, rev_inj; by rewrite E|].
  rewrite length_rev. apply digits_rev_length; [lia|lia].
Qed.

Lemma digits_zeros n : digits (zeros n).
Proof. unfold digits, zeros. induction n; [done|]. cbn [replicate forallb]. by rewrite IHn. Qed.

Lemma dval_from_zeros n : forall a, dval_from a (zeros n) = a * 10 ^ Z.of_nat n.
Proof.
  induction n as [|n IH]; intros a; [cbn; lia|]. unfold zeros. cbn [replicate dval_from fold_left].
  change (fold_left _ (replicate n ZERO_CHAR) ?x) with (dval_from x (zeros n)). rewrite IH.
  rewrite Nat2Z.inj_succ, Z.pow_succ_r by lia. unfold ZERO_CHAR. lia.
Qed.

Lemma dval_from_split a s : dval_from a s = a * 10 ^ Z.of_nat (length s) + dval s.
Proof.
  unfold dval. revert a. induction s as [|c s IH]; intros a; [cbn; lia|].
  cbn [dval_from fold_left length]. change (fold_left _ s ?x) with (dval_from x s).
  rewrite IH, (IH (10 * 0 + (c - 48))). rewrite Nat2Z.inj_succ, Z.pow_succ_r by lia. ring.
Qed.

Lemma dval_app s t : dval (s ++ t) = dval s * 10 ^ Z.of_nat (length t) + dval t.
Proof. unfold dval at 1. rewrite dval_from_app. apply dval_from_split. Qed.

Lemma display_padded_spec n w : in_u 64 n -> 0 < w -> n < 10 ^ w ->
  digits (display_padded n w) /\ dval (display_padded n w) = n /\ Z.of_nat (length (display_padded n w)) = w.
Proof.
  intros Hn Hw Hlt. destruct (display_u64_spec n Hn) as (H1 & H2 & H3 & _). unfold display_padded.
  fold (zeros (Z.to_nat w - length (display_u64 n))).
  assert (length (display_u64 n) <= Z.to_nat w)%nat as Hl.
  { unfold display_u64. rewrite length_rev. apply digits_rev_length; [|lia].
    unfold in_u in Hn. rewrite Z2Nat.id by lia. lia. }
  split; [apply digits_app; split; [apply digits_zeros|done]|]. split.
  - rewrite dval_app. unfold dval at 1. rewrite dval_from_zeros. lia.
  - rewrite length_app, length_zeros. lia.
Qed.

Lemma strip_zeros_spec fuel : forall nd num, 0 <= nd -> 0 < num < 10 ^ nd ->
  let '(nd', num') := strip_zeros fuel nd num in
  1 <= nd' <= nd /\ 0 < num' < 10 ^ nd' /\ num' * 10 ^ (nd - nd') = num.
Proof.
  induction fuel as [|fuel IH]; intros nd num Hnd Hnum; cbn [strip_zeros].
  - destruct (Z.eq_dec nd 0) as [->|]; [simpl in Hnum; lia|]. rewrite Z.sub_diag. lia.
  - destruct (Z.eq_dec nd 0) as [->|]; [simpl in Hnum; lia|].
    destruct (Z.eqb_spec (num mod 10) 0) as [E|E]; [|rewrite Z.sub_diag; lia].
    pose proof (Z.div_mod num 10 ltac:(lia)).
    assert (10 ^ nd = 10 * 10 ^ (nd - 1)) as Ep by (rewrite <- Z.pow_succ_r by lia; f_equal; lia).
    specialize (IH (nd - 1) (num / 10) ltac:(lia) ltac:(lia)).
    destruct (strip_zeros fuel (nd - 1) (num / 10)) as [nd' num'].
    destruct IH as (H1 & H2 & H3). split; [lia|]. split; [done|].
    replace (nd - nd') with (Z.succ (nd - 1 - nd')) by lia. rewrite Z.pow_succ_r by lia. lia.
Qed.

(** A formatter without width, and with precision [p]. *)
Definition plain (p : option Z) : FormatOptions := mkOptions SPACE None None p false false.

Definition numeral (sat : Z) (denom : Denomination) (p : option Z) : str :=
  let '(b, e, a, nd, tz) := normalise sat denom (plain p) in
  display_u64 b ++ zeros (Z.to_nat e) ++ (if 0 <? nd + tz then [DOT] else []) ++
  (if 0 <? nd then display_padded a nd else []) ++ zeros (Z.to_nat tz).

Lemma dec_width_bound fuel : forall n w, w <= dec_width_loop fuel n w <= w + Z.of_nat fuel.
Proof.
  induction fuel as [|fuel IH]; intros n w; cbn [dec_width_loop]; [lia|].
  destruct (n / 10 =? 0); [lia|]. specialize (IH (n / 10) (w + 1)). lia.
Qed.

Lemma precision_bounds denom : -8 <= precision denom <= 4.
Proof. destruct denom; simpl; lia. Qed.

Definition small_precision (p : option Z) : Prop := 0 <= unwrap_or p 0 <= 8.

Lemma normalise_bounds sat denom p : in_u 64 sat -> small_precision p ->
  let '(b, e, a, nd, tz) := normalise sat denom (plain p) in
  in_u 64 b /\ 0 <= e <= 4 /\ 0 <= nd <= 8 /\ 0 <= tz <= 8.
Proof.
  intros Hs Hp. unfold normalise, small_precision in *. pose proof (precision_bounds denom) as Hb.
  cbn [oprecision plain]. destruct (Z.compare_spec (precision denom) 0) as [E|E|E].
  - done.
  - set (k := Z.abs (precision denom)). assert (1 <= k <= 8) as Hk by lia.
    assert (0 < 10 ^ k) as Hpos by (apply Z.pow_pos_nonneg; lia).
    assert (in_u 64 (sat / 10 ^ k)) as Hd.
    { unfold in_u in *. split; [apply Z.div_pos; lia|]. apply Z.le_lt_trans with sat; [|lia]. apply Z.div_le_upper_bound; nia. }
    destruct (Z.eqb_spec (sat mod 10 ^ k) 0); [split; [done|lia]|].
    pose proof (Z.mod_pos_bound sat (10 ^ k) Hpos).
    pose proof (strip_zeros_spec 64 k (sat mod 10 ^ k) ltac:(lia) ltac:(lia)) as Hz.
    destruct (strip_zeros 64 k (sat mod 10 ^ k)) as [nd a]. destruct Hz as (? & _). split; [done|lia].
  - destruct (0 <? sat); (split; [done|lia]).
Qed.

Lemma as_str_len denom : 0 <= str_len (as_str denom) <= 7.
Proof. destruct denom; vm_compute; split; discriminate. Qed.

Lemma fmt_plain {bm : BuildMode} sat neg denom show p : in_u 64 sat -> small_precision p ->
  fmt_satoshi_in sat neg denom show (plain p)
  = Ret ((if neg then [MINUS] else []) ++ numeral sat denom p ++ (if show then SPACE :: as_str denom else [])).
Proof.
  intros Hs Hp. pose proof (normalise_bounds sat denom p Hs Hp) as Hb.
  unfold fmt_satoshi_in, numeral. destruct (normalise sat denom (plain p)) as [[[[b e] a] nd] tz].
  destruct Hb as (Hbb & He & Hnd & Htz). pose proof (dec_width_bound 64 b 1) as Hw.
  fold (dec_width b) in Hw. pose proof (as_str_len denom) as Hl.
  assert (forall z, 0 <= z < 1000 -> arith_u 64 z = Ret z) as Ha
    by (intros z Hz; apply arith_u_small; unfold in_u; lia).
  rewrite (Ha (nd + tz)), bind_Ret by lia.
  assert (exists w, (if 0 <? nd + tz then arith_u 64 (1 + (nd + tz)) else Ret 0) = Ret w /\ 0 <= w <= 20) as (w & -> & Hw1).
  { destruct (0 <? nd + tz); [rewrite Ha by lia|]; eexists; (split; [done|lia]). }
  rewrite bind_Ret, (Ha (w + _)), bind_Ret by lia. cbn [sign_plus plain width align sign_aware_zero_pad fill orb unwrap_or negb].
  assert (exists w', (if neg then arith_u 64 (w + (dec_width b + e) + 1) else Ret (w + (dec_width b + e))) = Ret w' /\ 0 <= w' <= 100) as (w' & -> & Hw2).
  { destruct neg; [rewrite Ha by lia|]; eexists; (split; [done|lia]). }
  rewrite bind_Ret.
  assert (exists w2, (if show then arith_u 64 (w' + (str_len (as_str denom) + 1)) else Ret w') = Ret w2 /\ 0 <= w2) as (w2 & -> & Hw3).
  { destruct show; [rewrite Ha by lia|]; eexists; (split; [done|lia]). }
  rewrite bind_Ret, (proj2 (Z.ltb_ge w2 0)) by lia. unfold repeat_char. cbn [Z.to_nat replicate app].
  f_equal. rewrite app_nil_r. unfold zeros. rewrite <- !app_assoc. by destruct neg.
Qed.

Lemma ascii_len s : digits s -> str_len s = Z.of_nat (length s).
Proof.
  induction s as [|c s IH]; [done|]. intros [Hc%is_digit_spec Hs]%digits_cons. cbn [str_len length].
  rewrite IH by done. unfold len_utf8. rewrite (proj2 (Z.ltb_lt c 128)) by lia. lia.
Qed.

Lemma digits_not_minus s t : digits s -> s <> [] -> head (s ++ t) <> Some MINUS.
Proof.
  destruct s as [|c s]; [done|]. intros [Hc%is_digit_spec _]%digits_cons _ [= ->]. unfold MINUS in Hc. lia.
Qed.

(** The text of a normalised number. *)
Definition layout (b e a nd tz : Z) : str :=
  display_u64 b ++ zeros (Z.to_nat e) ++ (if 0 <? nd + tz then [DOT] else []) ++
  (if 0 <? nd then display_padded a nd else []) ++ zeros (Z.to_nat tz).

Lemma layout_integer b e : layout b e 0 0 0 = display_u64 b ++ zeros (Z.to_nat e).
Proof. unfold layout. cbn [Z.add Z.ltb Z.compare Z.to_nat]. change (zeros 0) with (@nil Z). cbn [app]. by rewrite app_nil_r. Qed.

(** Denominations not above a satoshi: an integer followed by zeros. *)
Lemma reads_integer denom sat : in_u 64 sat -> 0 <= precision denom ->
  reads denom (layout sat (if 0 <? sat then precision denom else 0) 0 0 0) sat.
Proof.
  intros Hs Hk. unfold reads. rewrite (proj2 (Z.leb_le 0 (precision denom))), layout_integer by lia.
  destruct (display_u64_spec sat Hs) as (H1 & H2 & H3 & _). unfold in_u in Hs.
  assert (forall z, z = zeros (Z.to_nat (precision denom)) -> shape (Z.to_nat (precision denom)) (display_u64 sat ++ z) (display_u64 sat)) as Hsh.
  { intros z ->. split; [done|]. split; [by apply digits_no_dot|]. exists []. rewrite app_nil_r. auto. }
  destruct (Z.ltb_spec 0 sat); [left; exists (display_u64 sat); auto|].
  assert (sat = 0) as -> by lia. destruct (Z.eq_dec (precision denom) 0) as [E|E].
  - left. exists (display_u64 0). split; [apply Hsh; by rewrite E|done].
  - right. split; [done|]. split; [done|]. intros ip (Hne & _ & tail & Ei & _).
    apply (f_equal length) in Ei. rewrite !length_app, !length_zeros in Ei.
    change (length (display_u64 0)) with 1%nat in Ei. destruct ip; [done|simpl in Ei; lia].
Qed.

(** The digits after the point: [nd] digits of [a], then [tz] zeros. *)
Definition decimals_text (a nd tz : Z) : str :=
  (if 0 <? nd then display_padded a nd else []) ++ zeros (Z.to_nat tz).

Lemma decimals_text_spec a nd tz k : 0 <= tz -> nd + tz <= k -> k <= 8 ->
  nd = 0 /\ a = 0 \/ 0 < nd /\ 0 < a < 10 ^ nd ->
  digits (decimals_text a nd tz) /\ Z.of_nat (length (decimals_text a nd tz)) = nd + tz /\
  dval (decimals_text a nd tz) * 10 ^ (k - (nd + tz)) = a * 10 ^ (k - nd).
Proof.
  intros Htz Hle Hk Ha. unfold decimals_text. rewrite length_app, length_zeros.
  assert (digits (if 0 <? nd then display_padded a nd else []) /\
    Z.of_nat (length (if 0 <? nd then display_padded a nd else [])) = nd /\
    dval (if 0 <? nd then display_padded a nd else []) = a) as (P1 & P2 & P3).
  { destruct Ha as [[-> ->]|[Hn Ha]]; [done|]. rewrite (proj2 (Z.ltb_lt 0 nd)) by lia.
    destruct (display_padded_spec a nd) as (? & ? & ?); [|lia..|done]. unfold in_u. split; [lia|].
    apply Z.lt_le_trans with (10 ^ nd); [lia|]. apply Z.le_trans with (10 ^ 8); [apply Z.pow_le_mono_r|]; lia. }
  split; [apply digits_app; split; [done|apply digits_zeros]|]. split; [lia|].
  rewrite dval_app, P3, length_zeros. unfold dval. rewrite dval_from_zeros, Z2Nat.id by lia.
  rewrite Z.mul_0_l, Z.add_0_r, <- Z.mul_assoc, <- Z.pow_add_r by lia. do 2 f_equal. lia.
Qed.

(** Denominations above a satoshi: a numeral with a point, without if it has no decimals. *)
Lemma reads_decimal denom b a nd tz : in_u 64 b -> precision denom < 0 -> 0 <= tz ->
  nd + tz <= - precision denom -> nd = 0 /\ a = 0 \/ 0 < nd /\ 0 < a < 10 ^ nd ->
  reads denom (layout b 0 a nd tz) (b * 10 ^ (- precision denom) + a * 10 ^ (- precision denom - nd)).
Proof.
  intros Hb Hk Htz Hle Ha. pose proof (precision_bounds denom). unfold reads.
  rewrite (proj2 (Z.leb_gt 0 (precision denom))) by lia. set (k := - precision denom) in *.
  destruct (decimals_text_spec a nd tz k) as (Hd & Hl & Hv); [lia..|done|].
  destruct (display_u64_spec b Hb) as (D1 & D2 & _).
  exists (display_u64 b), (decimals_text a nd tz).
  split; [|split; [by apply digits_app|]].
  - unfold layout. fold (decimals_text a nd tz). change (zeros (Z.to_nat 0)) with (@nil Z). cbn [app].
    destruct (Z.ltb_spec 0 (nd + tz)); [by right|]. left.
    assert (decimals_text a nd tz = []) as -> by (destruct (decimals_text a nd tz); [done|simpl in Hl; lia]).
    cbn [app]. by rewrite app_nil_r.
  - rewrite Hl. split; [lia|]. rewrite dval_app, D2, Hl, Z.mul_add_distr_r, <- Z.mul_assoc, <- Z.pow_add_r by lia.
    replace (nd + tz + (k - (nd + tz))) with k by lia. lia.
Qed.

(** Printed numerals denote their amount, in the default format and with as many decimals as
    the denomination has. *)
Lemma numeral_reads sat denom p : in_u 64 sat -> p = None \/ p = Some (- precision denom) /\ precision denom < 0 ->
  reads denom (numeral sat denom p) sat.
Proof.
  intros Hs Hp. unfold numeral, normalise. cbn [oprecision plain].
  pose proof (precision_bounds denom).
  destruct (Z.compare_spec (precision denom) 0) as [Ek|Ek|Ek].
  - assert (unwrap_or p 0 = 0) as -> by (destruct Hp as [->|[_ ?]]; [done|lia]).
    pose proof (reads_integer denom sat Hs ltac:(lia)) as Hr. rewrite Ek in Hr. by destruct (0 <? sat).
  - assert (unwrap_or p 0 = 0 \/ unwrap_or p 0 = - precision denom) as Hp0 by (destruct Hp as [->|[-> ?]]; auto).
    rewrite Z.abs_neq by lia. set (k := - precision denom) in *.
    assert (0 < 10 ^ k) as Hpos by (apply Z.pow_pos_nonneg; lia).
    pose proof (Z.mod_pos_bound sat (10 ^ k) Hpos) as Hm. pose proof (Z.div_mod sat (10 ^ k) ltac:(lia)) as Hdm.
    assert (in_u 64 (sat / 10 ^ k)) as Hb.
    { unfold in_u in *. split; [apply Z.div_pos; lia|]. apply Z.le_lt_trans with sat; [|lia].
      apply Z.div_le_upper_bound; nia. }
    destruct (Z.eqb_spec (sat mod 10 ^ k) 0) as [E0|E0].
    + rewrite E0. set (tz := Z.max 0 _).
      replace sat with (sat / 10 ^ k * 10 ^ k + 0 * 10 ^ (k - 0)) at 2 by lia.
      apply reads_decimal; [done|done|lia..|by left].
    + pose proof (strip_zeros_spec 64 k (sat mod 10 ^ k) ltac:(lia) ltac:(lia)) as Hz.
      destruct (strip_zeros 64 k (sat mod 10 ^ k)) as [nd a]. destruct Hz as (H1 & H2 & H3).
      replace sat with (sat / 10 ^ k * 10 ^ k + a * 10 ^ (k - nd)) at 2 by lia.
      apply reads_decimal; [done|done|lia..|right; lia].
  - assert (unwrap_or p 0 = 0) as -> by (destruct Hp as [->|[_ ?]]; [done|lia]).
    by apply reads_integer; [|lia].
Qed.

Definition no_space (s : str) : Prop := forallb (fun d => negb (d =? SPACE)) s = true.

Lemma no_space_app l r : no_space l -> no_space r -> no_space (l ++ r).
Proof. unfold no_space. intros. by rewrite forallb_app, andb_true_iff. Qed.
Lemma digits_no_space s : digits s -> no_space s.
Proof.
  induction s as [|c s IH]; [done|]. intros [Hc%is_digit_spec Hs]%digits_cons.
  unfold no_space in *. cbn [forallb]. rewrite IH by done. unfold SPACE.
  by rewrite (proj2 (Z.eqb_neq _ _)) by lia.
Qed.

Lemma normalise_after sat denom p : in_u 64 sat -> small_precision p ->
  let '(b, e, a, nd, tz) := normalise sat denom (plain p) in
  nd = 0 /\ a = 0 \/ 0 < nd /\ 0 < a < 10 ^ nd.
Proof.
  intros Hs Hp. unfold normalise. cbn [oprecision plain]. pose proof (precision_bounds denom).
  destruct (Z.compare_spec (precision denom) 0) as [E|E|E]; [by left| |by destruct (0 <? sat); left].
  set (k := Z.abs (precision denom)). assert (0 < 10 ^ k) as Hpos by (apply Z.pow_pos_nonneg; lia).
  pose proof (Z.mod_pos_bound sat (10 ^ k) Hpos).
  destruct (Z.eqb_spec (sat mod 10 ^ k) 0) as [E0|E0]; [by left|].
  pose proof (strip_zeros_spec 64 k (sat mod 10 ^ k) ltac:(lia) ltac:(lia)) as Hz.
  destruct (strip_zeros 64 k (sat mod 10 ^ k)) as [nd a]. right. lia.
Qed.

(** Printed numerals are short and start with a digit. *)
Lemma numeral_text sat denom p : in_u 64 sat -> small_precision p ->
  numeral sat denom p <> [] /\ head (numeral sat denom p) <> Some MINUS /\
  no_space (numeral sat denom p) /\ str_len (numeral sat denom p) <= 41.
Proof.
  intros Hs Hp. pose proof (normalise_bounds sat denom p Hs Hp) as Hb.
  pose proof (normalise_after sat denom p Hs Hp) as Ha. unfold numeral.
  destruct (normalise sat denom (plain p)) as [[[[b e] a] nd] tz]. destruct Hb as (Hbb & He & Hnd & Htz).
  fold (decimals_text a nd tz). destruct (display_u64_spec b Hbb) as (D1 & D2 & D3 & D4).
  assert (digits (decimals_text a nd tz) /\ Z.of_nat (length (decimals_text a nd tz)) <= 16) as [Hd Hl].
  { destruct (decimals_text_spec a nd 0 nd) as (Hd & Hl & _); [lia..|done|].
    unfold decimals_text in *. change (zeros (Z.to_nat 0)) with (@nil Z) in *. rewrite app_nil_r in *.
    rewrite length_app, length_zeros. split; [|lia]. apply digits_app. split; [done|apply digits_zeros]. }
  split; [by destruct (display_u64 b)|]. split; [by apply digits_not_minus|]. split.
  - apply no_space_app; [by apply digits_no_space|]. apply no_space_app; [apply digits_no_space, digits_zeros|].
    apply no_space_app; [by destruct (0 <? nd + tz)|by apply digits_no_space].
  - rewrite !str_len_app, str_len_zeros, (ascii_len _ D1), (ascii_len _ Hd).
    assert (str_len (if 0 <? nd + tz then [DOT] else []) <= 1) by (destruct (0 <? nd + tz); vm_compute; discriminate).
    lia.
Qed.

Lemma parse_printed sat (neg : bool) denom p : in_u 64 sat -> p = None \/ p = Some (- precision denom) /\ precision denom < 0 ->
  parse_signed_to_satoshi ((if neg then [MINUS] else []) ++ numeral sat denom p) denom = Val (neg, sat).
Proof.
  intros Hs Hp. assert (small_precision p) as Hsp.
  { unfold small_precision. pose proof (precision_bounds denom). destruct Hp as [->|[-> ?]]; cbn [unwrap_or]; lia. }
  destruct (numeral_text sat denom p Hs Hsp) as (H1 & H2 & _ & H4).
  apply (parse_signed_spec _ denom neg sat). split; [rewrite str_len_app; destruct neg; simpl in *; unfold len_utf8 in *; simpl; lia|].
  split; [done|]. exists (numeral sat denom p). repeat (split; [done|]). by apply numeral_reads.
Qed.

Lemma denomination_roundtrip denom : denomination_from_str (as_str denom) = Ok denom.
Proof. by destruct denom. Qed.

Lemma split_printed {U : Unicode} (s : str) denom : no_space s ->
  split_amount_and_denomination (s ++ SPACE :: as_str denom) = Val (s, denom).
Proof.
  intros Hs. unfold split_amount_and_denomination.
  assert (find_char SPACE (s ++ SPACE :: as_str denom) = Some (str_len s)) as ->.
  { apply find_index_spec. by exists s, SPACE, (as_str denom). }
  cbn [mbind comp_bind]. rewrite slice_to_app. cbn [of_run mbind comp_bind].
  rewrite (app_assoc s [SPACE] (as_str denom) : s ++ SPACE :: as_str denom = (s ++ [SPACE]) ++ as_str denom).
  replace (str_len s + 1) with (str_len (s ++ [SPACE])) by (rewrite str_len_app; reflexivity).
  rewrite slice_from_app. cbn [of_run mbind comp_bind]. by rewrite denomination_roundtrip.
Qed.

Lemma signed_printed x s denom : in_i 64 s ->
  parse_signed_to_satoshi x denom = Val (Signed.is_negative s, Z.abs s) -> Signed.from_str_in x denom = Val s.
Proof.
  intros Hs E. unfold Signed.from_str_in. rewrite E. cbn [throw_map mbind comp_bind].
  unfold Signed.is_negative, in_i in *. destruct (Z.ltb_spec s 0).
  - rewrite Z.abs_neq by lia. destruct (Z.eqb_spec (- s) (2 ^ 63)) as [E1|E1]; [unfold Signed.MIN; f_equal; lia|].
    rewrite (proj2 (Z.ltb_ge (2 ^ 63) (- s))) by lia. f_equal. rewrite swrap_small by (unfold in_i; lia). lia.
  - rewrite Z.abs_eq by lia. rewrite (proj2 (Z.ltb_ge (2 ^ 63 - 1) s)) by lia. f_equal.
    by rewrite swrap_small by (unfold in_i; lia).
Qed.

Lemma display_roundtrip {bm : BuildMode} {U : Unicode} a : in_u 64 a ->
  exists x, Amt.display a (plain None) = Ret x /\ Amt.from_str x = Val a.
Proof.
  intros Ha. unfold Amt.display. cbn [oprecision plain fill align width sign_plus sign_aware_zero_pad].
  set (o := if negb _ then _ else _).
  assert (exists p, o = plain p /\ (p = None \/ p = Some 8)) as (p & -> & Hp)
    by (unfold o; destruct (negb _); [exists (Some 8)|exists None]; auto).
  assert (small_precision p) as Hsp by (unfold small_precision; destruct Hp as [->| ->]; simpl; lia).
  rewrite fmt_plain by done. eexists. split; [done|]. cbn [app]. unfold Amt.from_str.
  rewrite split_printed by (by apply numeral_text). cbn [mbind comp_bind]. unfold Amt.from_str_in.
  pose proof (parse_printed a false Bitcoin p Ha) as E. cbn [app] in E. rewrite E; [done|].
  destruct Hp as [->| ->]; [by left|by right].
Qed.

(** Printed amounts parse back.  Every amount, unsigned or signed, prints in every
    denomination without a panic, and parsing the text, in that denomination or with its
    name, gives the amount; so does parsing what [Display] shows. *)
Lemma amount_text_roundtrip {bm : BuildMode} {U : Unicode} (denom : Denomination) (a s : Z)
    (Ha : in_u 64 a) (Hs : in_i 64 s) :
  (exists x, Amt.to_string_in a denom = Ret x /\ Amt.from_str_in x denom = Val a) /\
  (exists x, Amt.to_string_with_denomination a denom = Ret x /\ Amt.from_str x = Val a) /\
  (exists x, Amt.display a default_options = Ret x /\ Amt.from_str x = Val a) /\
  (exists x, Signed.to_string_in s denom = Ret x /\ Signed.from_str_in x denom = Val s) /\
  (exists x, Signed.to_string_with_denomination s denom = Ret x /\ Signed.from_str x = Val s).
Proof.
  assert (forall a p, small_precision p -> in_u 64 a -> no_space (numeral a denom p)) as Hsp
    by (intros a' p Hp Ha'; by apply numeral_text).
  assert (small_precision None) as Hn by (unfold small_precision; simpl; lia).
  assert (in_u 64 (Z.abs s)) as Has by (unfold in_u, in_i in *; lia).
  assert (forall (neg : bool) t, no_space t -> no_space ((if neg then [MINUS] else []) ++ t)) as Hneg
    by (intros []; done).
  change default_options with (plain None).
  unfold Amt.to_string_in, Amt.to_string_with_denomination, Signed.to_string_in, Signed.to_string_with_denomination,
    Signed.unsigned_abs. change default_options with (plain None). rewrite !fmt_plain by done. rewrite !bind_Ret.
  cbn [app]. rewrite !app_nil_r.
  assert (Amt.from_str_in (numeral a denom None) denom = Val a) as H1.
  { unfold Amt.from_str_in. pose proof (parse_printed a false denom None Ha (or_introl eq_refl)) as E.
    cbn [app] in E. by rewrite E. }
  assert (Signed.from_str_in ((if Signed.is_negative s then [MINUS] else []) ++ numeral (Z.abs s) denom None) denom = Val s) as H2.
  { apply signed_printed; [done|]. apply (parse_printed (Z.abs s) (Signed.is_negative s) denom None); auto. }
  split; [by eexists|]. split; [|split; [|split; [by eexists|]]].
  - eexists. split; [done|]. unfold Amt.from_str. rewrite split_printed by auto. cbn [mbind comp_bind]. by rewrite H1.
  - apply display_roundtrip. done.
  - eexists. split; [done|]. unfold Signed.from_str. rewrite split_printed by auto. cbn [mbind comp_bind]. by rewrite H2.
Qed.

(** ASCII tables, and some amounts. *)
Module Ascii.
Definition table : Unicode :=
  {| is_alphabetic c := ((0x41 <=? c) && (c <=? 0x5a)) || ((0x61 <=? c) && (c <=? 0x7a)) |}.
Lemma table_ok : UnicodeAscii table.
Proof. by intros c _. Qed.
End Ascii.

(** ** Texts that are not printed by the library *)

Lemma from_str_no_crash {U : Unicode} s : Amt.from_str s <> Crash.
Proof.
  unfold Amt.from_str, split_amount_and_denomination.
  assert (forall l c r n, s = l ++ c :: r -> n = 0 \/ n = len_utf8 c ->
    exists x y, slice_to s (str_len l) = Ret x /\ slice_from s (str_len l + n) = Ret y) as Hsl.
  { intros l c r n -> [->| ->].
    - rewrite Z.add_0_r, slice_to_app, slice_from_app. eauto.
    - rewrite slice_to_app, (app_assoc l [c] r : l ++ c :: r = (l ++ [c]) ++ r).
      replace (str_len l + len_utf8 c) with (str_len (l ++ [c])) by (rewrite str_len_app; simpl; lia).
      rewrite slice_from_app. eauto. }
  assert (forall i j, (exists x y, slice_to s i = Ret x /\ slice_from s j = Ret y) ->
    ('(amt, denom) ← (a ← of_run (slice_to s i); d ← of_run (slice_from s j);
        d ← of_result (map_err ParseDenomination (denomination_from_str d)); Val (a, d));
     throw_map ParseAmount (Amt.from_str_in amt denom)) <> Crash) as Hgo.
  { intros i j (x & y & -> & ->). cbn [of_run mbind comp_bind].
    destruct (denomination_from_str y) as [d|]; cbn [map_err of_result mbind comp_bind]; [|done].
    unfold Amt.from_str_in. destruct (parse_signed_spec x d false 0) as [Hc _].
    destruct (parse_signed_to_satoshi x d) as [[[] ?]| |]; done. }
  destruct (find_char SPACE s) as [i|] eqn:E.
  - apply find_index_spec in E as (l & c & r & E & Hc%Z.eqb_eq & _ & ->). cbn [mbind comp_bind].
    apply (Hgo (str_len l) (str_len l + 1)), (Hsl l c r); [done|]. right. by subst c.
  - destruct (find_index is_alphabetic s) as [i|] eqn:E'; cbn [mbind comp_bind]; [|done].
    apply find_index_spec in E' as (l & c & r & E' & _ & _ & ->).
    apply (Hgo (str_len l) (str_len l)). destruct (Hsl l c r 0 E' (or_introl eq_refl)) as (x & y & H1 & H2).
    rewrite Z.add_0_r in H2. eauto.
Qed.

(** A numeral directly followed by the denomination. *)
Lemma split_adjacent {U : Unicode} `{!UnicodeAscii U} s denom :
  Forall (fun c => is_digit c = true \/ c = DOT \/ c = MINUS) s ->
  split_amount_and_denomination (s ++ as_str denom) = Val (s, denom).
Proof.
  intros Hs. unfold split_amount_and_denomination.
  assert (no_space s) as Hn.
  { unfold no_space. apply forallb_forall. intros c Hc. rewrite Forall_forall in Hs.
    destruct (Hs c) as [Hd%is_digit_spec|[->| ->]]; [done| |done..].
    apply negb_true_iff, Z.eqb_neq. unfold SPACE. lia. }
  assert (find_char SPACE (s ++ as_str denom) = None) as ->.
  { apply find_index_None. apply no_space_app; [done|]. by destruct denom. }
  assert (find_index is_alphabetic (s ++ as_str denom) = Some (str_len s)) as ->.
  { apply find_index_spec. destruct (as_str denom) as [|c r] eqn:Ed; [by destruct denom|].
    exists s, c, r. split; [done|]. split; [|split; [|done]].
    - assert (0x41 <= c <= 0x5a \/ 0x61 <= c <= 0x7a) as Hc by (destruct denom; vm_compute in Ed; injection Ed as <- <-; lia).
      rewrite ascii_alphabetic by lia. rewrite orb_true_iff, !andb_true_iff, !Z.leb_le. lia.
    - apply forallb_forall. intros x Hx. rewrite Forall_forall in Hs.
      assert (0 <= x < 0x41) as Hb by (destruct (Hs x) as [Hd%is_digit_spec|[->| ->]]; [done|lia|done..]).
      rewrite ascii_alphabetic by lia. rewrite !(proj2 (Z.leb_gt _ x)) by lia. done. }
  cbn [mbind comp_bind]. rewrite slice_to_app, slice_from_app. cbn [of_run mbind comp_bind].
  by rewrite denomination_roundtrip.
Qed.

Lemma signed_from_str_spec s denom v :
  Signed.from_str_in s denom = Val v <->
  in_i 64 v /\ exists (neg : bool) m, v = (if neg then - m else m) /\ parse_signed_to_satoshi s denom = Val (neg, m).
Proof.
  unfold Signed.from_str_in. destruct (parse_signed_to_satoshi s denom) as [[neg m]|e|] eqn:E;
    cbn [throw_map mbind comp_bind]; [|split; [done|by intros (_ & ? & ? & _ & ?)]..].
  assert (in_u 64 m) as Hm by (by apply (parse_signed_spec s denom neg m) in E as (_ & ? & _)).
  unfold in_u, in_i, Signed.MIN in *. destruct neg.
  - destruct (Z.eqb_spec m (2 ^ 63)) as [->|]; [|destruct (Z.ltb_spec (2 ^ 63) m)].
    + split; [intros [= <-]; split; [lia|]; by exists true, (2 ^ 63)|]. by intros (_ & ? & ? & -> & [= <- <-]).
    + split; [done|]. intros (Hv & ? & ? & -> & [= <- <-]). lia.
    + rewrite swrap_small by (unfold in_i; lia).
      split; [intros [= <-]; split; [lia|]; by exists true, m|]. by intros (_ & ? & ? & -> & [= <- <-]).
  - destruct (Z.ltb_spec (2 ^ 63 - 1) m).
    + split; [done|]. intros (Hv & ? & ? & -> & [= <- <-]). lia.
    + rewrite swrap_small by (unfold in_i; lia).
      split; [intros [= <-]; split; [lia|]; by exists false, m|]. by intros (_ & ? & ? & -> & [= <- <-]).
Qed.

(** C28: parsing amounts.  No string makes it panic.  [Amount::from_str_in] accepts exactly the
    strings of at most 50 bytes that, without a sign, denote a 64-bit number of satoshis in the
    denomination, and returns that number, never a rounded one; [SignedAmount::from_str_in]
    the same with an optional minus sign, for numbers that fit.  A numeral directly followed
    by a denomination is split before it. *)
Theorem amount_parse_exact {U : Unicode} (HU : UnicodeAscii U) (s : str) (denom : Denomination) (v : Z) :
  Amt.from_str s <> Crash /\ Amt.from_str_in s denom <> Crash /\ Signed.from_str_in s denom <> Crash /\
  (Amt.from_str_in s denom = Val v <->
   s <> [] /\ str_len s <= 50 /\ in_u 64 v /\ head s <> Some MINUS /\ reads denom s v) /\
  (Signed.from_str_in s denom = Val v <->
   str_len s <= 50 /\ in_i 64 v /\
   exists (neg : bool) t m, v = (if neg then - m else m) /\ in_u 64 m /\
     s = (if neg then [MINUS] else []) ++ t /\ t <> [] /\ (neg = false -> head t <> Some MINUS) /\ reads denom t m) /\
  (Forall (fun c => is_digit c = true \/ c = DOT \/ c = MINUS) s ->
   split_amount_and_denomination (s ++ as_str denom) = Val (s, denom)).
Proof.
  split; [apply from_str_no_crash|].
  assert (forall neg m, parse_signed_to_satoshi s denom <> Crash /\ _) as Hp
    by exact (fun neg m => parse_signed_spec s denom neg m).
  split; [|split; [|split; [|split; [|intros; by apply split_adjacent]]]].
  - unfold Amt.from_str_in. destruct (Hp false 0) as [Hc _].
    by destruct (parse_signed_to_satoshi s denom) as [[[] ?]| |].
  - unfold Signed.from_str_in. destruct (Hp false 0) as [Hc _].
    destruct (parse_signed_to_satoshi s denom) as [[[] m]| |]; cbn; [|by destruct (2 ^ 63 - 1 <? m)|done..].
    destruct (m =? 2 ^ 63); [done|]. by destruct (2 ^ 63 <? m).
  - assert (Amt.from_str_in s denom = Val v <-> parse_signed_to_satoshi s denom = Val (false, v)) as ->.
    { unfold Amt.from_str_in. destruct (parse_signed_to_satoshi s denom) as [[[] ?]| |]; cbn; split; congruence. }
    rewrite (proj2 (Hp false v)). split.
    + intros (H1 & H2 & t & H3 & -> & H4 & H5). cbn [app] in *. auto 6.
    + intros (H1 & H2 & H3 & H4 & H5). repeat (split; [done|]). by exists s.
  - rewrite signed_from_str_spec. split.
    + intros (Hv & neg & m & -> & (H1 & H2 & t & H3 & H4 & H5 & H6)%Hp). repeat (split; [done|]). by exists neg, t, m.
    + intros (H1 & Hv & neg & t & m & -> & H2 & H3 & H4 & H5 & H6). split; [done|]. exists neg, m. split; [done|].
      apply Hp. repeat (split; [done|]). by exists t.
Qed.

Lemma amount_parse_exact_witness :
  (Amt.from_str_in [0x31; 0x2e; 0x35] Bitcoin = Val 150000000 <->
   [0x31; 0x2e; 0x35] <> [] /\ str_len [0x31; 0x2e; 0x35] <= 50 /\ in_u 64 150000000 /\
   head [0x31; 0x2e; 0x35] <> Some MINUS /\ reads Bitcoin [0x31; 0x2e; 0x35] 150000000) /\
  Amt.from_str_in [0x31; 0x2e; 0x35] Bitcoin = Val 150000000.
Proof.
  split; [|reflexivity].
  exact (proj1 (proj2 (proj2 (proj2 (amount_parse_exact Ascii.table_ok [0x31; 0x2e; 0x35] Bitcoin 150000000))))).
Defined.

(** Texts that are accepted: a point alone is zero, and zero may have a second sign below a
    satoshi. *)
Lemma odd_amounts_accepted :
  Amt.from_str_in [DOT] Bitcoin = Val 0 /\ Signed.from_str_in [MINUS; MINUS; ZERO_CHAR] MilliSatoshi = Val 0 /\
  Amt.from_str_in [PLUS; ZERO_CHAR] MilliSatoshi = Val 0.
Proof. done. Qed.

(** ** Arithmetic *)

Definition sumz (l : list Z) : Z := foldr Z.add 0 l.

Lemma sumz_nonneg l : Forall (in_u 64) l -> 0 <= sumz l.
Proof. induction 1 as [|x l Hx _ IH]; [done|]. unfold sumz, in_u in *. cbn [foldr]. lia. Qed.

Lemma checked_sum_from l : Forall (in_u 64) l -> forall a c, in_u 64 a ->
  fold_left (fun acc item => x ← acc; Amt.checked_add x item) l (Some a) = Some c <->
  c = a + sumz l /\ in_u 64 c.
Proof.
  induction 1 as [|x l Hx Hl IH]; intros a c Ha; cbn [fold_left].
  - unfold sumz. cbn [foldr]. split; [intros [= <-]; split; [lia|done]|intros [-> ?]; f_equal; lia].
  - pose proof (sumz_nonneg l Hl). change (sumz (x :: l)) with (x + sumz l).
    cbn [mbind option_bind]. unfold Amt.checked_add at 2.
    destruct (decide (in_u 64 (a + x))) as [H1|H1].
    + rewrite checked_u64_Some, IH by done. replace (a + (x + sumz l)) with (a + x + sumz l) by lia. done.
    + rewrite checked_u64_None by done.
      assert (forall l, fold_left (fun acc item => y ← acc; Amt.checked_add y item) l None = None) as ->
        by (clear; induction l; done).
      split; [done|]. intros [-> Hc]. destruct H1. unfold in_u in *. lia.
Qed.

Lemma ceil_1000 z f : f = (z + 999) / 1000 <-> 1000 * (f - 1) < z <= 1000 * f.
Proof.
  pose proof (Z.div_mod (z + 999) 1000 ltac:(lia)). pose proof (Z.mod_pos_bound (z + 999) 1000 ltac:(lia)). lia.
Qed.

Lemma mul_by_weight_spec a b f : in_u 64 a -> in_u 64 b -> Fee.checked_mul_by_weight a b = Some f <->
  1000 * (f - 1) < a * b <= 1000 * f /\ a * b + 999 < 2 ^ 64.
Proof.
  intros Ha Hb. unfold in_u in Ha, Hb. unfold Fee.checked_mul_by_weight. rewrite <- ceil_1000.
  destruct (decide (in_u 64 (a * b))) as [H1|H1].
  - rewrite checked_u64_Some by done. cbn [mbind option_bind].
    destruct (decide (in_u 64 (a * b + 999))) as [H2|H2].
    + rewrite checked_u64_Some by done. cbn [mbind option_bind]. unfold in_u in *.
      split; [intros [= <-]; lia|by intros [-> _]].
    + rewrite checked_u64_None by done. split; [done|]. unfold in_u in *. lia.
  - rewrite checked_u64_None by done. split; [done|]. unfold in_u in *. nia.
Qed.

Lemma to_signed_spec a s : in_u 64 a -> Amt.to_signed a = Ok s <-> s = a /\ a < 2 ^ 63.
Proof.
  unfold in_u. intros Ha. unfold Amt.to_signed. destruct (Z.ltb_spec (2 ^ 63 - 1) a); [split; [done|lia]|].
  rewrite swrap_small by (unfold in_i; lia). split; [intros [= <-]; lia|by intros [-> _]].
Qed.

Lemma ok_Some {E A} (r : Result E A) a : Fee.ok r = Some a <-> r = Ok a.
Proof. destruct r; cbn; naive_solver. Qed.

(** The value of an output less the fee for spending it, the fee rounded up: [None] exactly when a step
    overflows. *)
Lemma effective_value_exact rate w v : in_u 64 rate -> in_u 64 w -> in_u 64 v -> forall e,
  Fee.effective_value rate w v = Some e <->
  exists f, e = v - f /\ 1000 * (f - 1) < rate * (w + 160) <= 1000 * f /\
    w + 160 < 2 ^ 64 /\ rate * (w + 160) + 999 < 2 ^ 64 /\ v < 2 ^ 63.
Proof.
  intros Hr Hw Hv e. unfold Fee.effective_value, Wu.checked_add, Fee.BASE_WEIGHT, Signed.checked_sub.
  change ((36 + 4) * Wu.WITNESS_SCALE_FACTOR) with 160. rewrite bind_Some.
  setoid_rewrite checked_u64_spec. assert (0 <= rate * (w + 160)) as Hpos by (unfold in_u in *; nia). split.
  - intros (w' & [-> Hw'] & H). apply bind_Some in H as (f & Hf & H). apply mul_by_weight_spec in Hf as [Hf1 Hf2]; [|done..].
    apply bind_Some in H as (sf & Hsf & H). apply bind_Some in H as (sv & Hsv & H).
    apply ok_Some, to_signed_spec in Hsf as [-> Hf3]; [|unfold in_u; lia].
    apply ok_Some, to_signed_spec in Hsv as [-> Hv3]; [|done].
    unfold checked_i64 in H. destruct (in_ib _ _); [|done]. injection H as <-. exists f. unfold in_u in *. lia.
  - intros (f & -> & Hf1 & Hw' & Hf2 & Hv3). exists (w + 160). split; [unfold in_u in *; lia|].
    rewrite (proj2 (mul_by_weight_spec rate (w + 160) f Hr ltac:(unfold in_u in *; lia)) (conj Hf1 Hf2)).
    cbn [mbind option_bind]. rewrite (proj2 (to_signed_spec f f ltac:(unfold in_u; lia))) by lia.
    rewrite (proj2 (to_signed_spec v v Hv)) by lia. cbn. unfold checked_i64.
    rewrite (proj2 (in_ib_spec 64 (v - f))) by (unfold in_i, in_u in *; lia). done.
Qed.

(** C29: arithmetic on amounts.  The checked operations return the exact result when it fits in
    64 bits and [None] otherwise, division by zero included, and the operators panic exactly
    then; a checked sum is the sum when that fits; conversions between signed and unsigned
    amounts are exact or an error; and a fee is the rate times the weight over 1000, rounded up
    so that it is never below the rate, or [None] on overflow. *)
Theorem amount_arithmetic_exact (a b : Z) (l : list Z) (Ha : in_u 64 a) (Hb : in_u 64 b)
    (Hl : Forall (in_u 64) l) :
  (forall c, Amt.checked_add a b = Some c <-> c = a + b /\ c < 2 ^ 64) /\
  (forall c, Amt.checked_sub a b = Some c <-> c = a - b /\ 0 <= c) /\
  (forall c, Amt.checked_mul a b = Some c <-> c = a * b /\ c < 2 ^ 64) /\
  (forall c, Amt.checked_div a b = Some c <-> b <> 0 /\ c = a / b) /\
  (forall c, Amt.checked_rem a b = Some c <-> b <> 0 /\ c = a mod b) /\
  (forall op cop, In (op, cop) [(Amt.add, Amt.checked_add); (Amt.sub, Amt.checked_sub); (Amt.mul, Amt.checked_mul);
       (Amt.div, Amt.checked_div); (Amt.rem, Amt.checked_rem)] ->
     op a b = match cop a b with Some c => Ret c | None => Panic end) /\
  (forall c, Amt.checked_sum l = Some c <-> c = sumz l /\ c < 2 ^ 64) /\
  (forall s, Amt.to_signed a = Ok s <-> s = a /\ a < 2 ^ 63) /\
  (forall s, in_i 64 s -> forall c, Signed.to_unsigned s = Ok c <-> c = s /\ 0 <= s) /\
  (forall f, Fee.checked_mul_by_weight a b = Some f <->
     1000 * (f - 1) < a * b <= 1000 * f /\ a * b + 999 < 2 ^ 64).
Proof.
  unfold in_u in Ha, Hb. unfold Amt.checked_add, Amt.checked_sub, Amt.checked_mul, Amt.checked_div, Amt.checked_rem.
  split; [intros c; rewrite checked_u64_spec; unfold in_u; lia|].
  split; [intros c; rewrite checked_u64_spec; unfold in_u; lia|].
  split; [intros c; rewrite checked_u64_spec; unfold in_u; nia|].
  split; [intros c; destruct (Z.eqb_spec b 0); split; [done|lia|intros [= <-]; done|intros [_ ->]; done]|].
  split; [intros c; destruct (Z.eqb_spec b 0); split; [done|lia|intros [= <-]; done|intros [_ ->]; done]|].
  split; [intros op cop Hin; cbn in Hin; by destruct_or! Hin; simplify_eq|].
  split.
  { intros c. unfold Amt.checked_sum. destruct Hl as [|x l Hx Hl].
    - cbn. unfold Amt.ZERO, sumz. cbn. split; [intros [= <-]; lia|intros [-> _]; done].
    - cbn [tail]. rewrite checked_sum_from by done. change (sumz (x :: l)) with (x + sumz l).
      pose proof (sumz_nonneg l Hl). unfold in_u in *. lia. }
  split; [intros s; by apply to_signed_spec|].
  split.
  { intros s Hs c. unfold Signed.to_unsigned, Signed.is_negative, in_i in *. destruct (Z.ltb_spec s 0); [split; [done|lia]|].
    unfold wrap. rewrite Z.mod_small by lia. split; [intros [= <-]; lia|by intros [-> _]]. }
  intros f. by apply mul_by_weight_spec.
Qed.

Lemma amount_arithmetic_exact_witness :
  Fee.checked_mul_by_weight 250 561 = Some 141 /\ Amt.checked_sum [1; 2; 3] = Some 6.
Proof.
  assert (in_u 64 250) as Ha by (split; [discriminate|reflexivity]).
  assert (in_u 64 561) as Hb by (split; [discriminate|reflexivity]).
  assert (Forall (in_u 64) [1; 2; 3]) as Hl by (repeat constructor; discriminate).
  destruct (amount_arithmetic_exact 250 561 [1; 2; 3] Ha Hb Hl) as (_ & _ & _ & _ & _ & _ & Hsum & _ & _ & Hfee).
  split; [apply Hfee; lia|apply Hsum; split; reflexivity].
Defined.
