(* ===== verification/Script.v ===== *)
(** * Script: opcodes, numbers, instruction parsing and building
    ([blockdata/opcodes.rs], [blockdata/script/{mod,instruction,builder,owned,borrowed}.rs])

    A script is its byte string and an opcode its byte.  [Instructions] iterates over the
    bytes; [ScriptBuf] and [Builder] append to them.  The theorems say that building and
    iterating are inverse to each other, that the minimal iterator accepts exactly what
    building produces, and that the number format of scripts is canonical. *)

From Stdlib Require Import ZArith Lia.
From coqutil Require Import Byte Word.LittleEndianList.
From stdpp Require Import base tactics option list numbers.
From S2P Require Import Prelude Io Encode LockTime.

Open Scope Z_scope.

(** ** Opcodes *)

Definition OP_0 : Z := 0x00.
Definition OP_PUSHBYTES_2 : Z := 0x02.
Definition OP_PUSHBYTES_20 : Z := 0x14.
Definition OP_PUSHBYTES_32 : Z := 0x20.
Definition OP_PUSHBYTES_33 : Z := 0x21.
Definition OP_PUSHBYTES_40 : Z := 0x28.
Definition OP_PUSHBYTES_65 : Z := 0x41.
Definition OP_PUSHBYTES_75 : Z := 0x4b.
Definition OP_PUSHDATA1 : Z := 0x4c.
Definition OP_PUSHDATA2 : Z := 0x4d.
Definition OP_PUSHDATA4 : Z := 0x4e.
Definition OP_PUSHNUM_NEG1 : Z := 0x4f.
Definition OP_RESERVED : Z := 0x50.
Definition OP_PUSHNUM_1 : Z := 0x51.
Definition OP_TRUE : Z := OP_PUSHNUM_1.
Definition OP_PUSHNUM_16 : Z := 0x60.
Definition OP_NOP : Z := 0x61.
Definition OP_VER : Z := 0x62.
Definition OP_VERIF : Z := 0x65.
Definition OP_VERNOTIF : Z := 0x66.
Definition OP_VERIFY : Z := 0x69.
Definition OP_RETURN : Z := 0x6a.
Definition OP_DUP : Z := 0x76.
Definition OP_EQUAL : Z := 0x87.
Definition OP_EQUALVERIFY : Z := 0x88.
Definition OP_RESERVED1 : Z := 0x89.
Definition OP_RESERVED2 : Z := 0x8a.
Definition OP_NUMEQUAL : Z := 0x9c.
Definition OP_NUMEQUALVERIFY : Z := 0x9d.
Definition OP_HASH160 : Z := 0xa9.
Definition OP_CHECKSIG : Z := 0xac.
Definition OP_CHECKSIGVERIFY : Z := 0xad.
Definition OP_CHECKMULTISIG : Z := 0xae.
Definition OP_CHECKMULTISIGVERIFY : Z := 0xaf.
Definition OP_NOP1 : Z := 0xb0.
Definition OP_NOP10 : Z := 0xb9.
Definition OP_CHECKSIGADD : Z := 0xba.
Definition OP_INVALIDOPCODE : Z := 0xff.

(** [OP_CAT], [OP_SUBSTR], [OP_LEFT], [OP_RIGHT], [OP_INVERT], [OP_AND], [OP_OR], [OP_XOR],
    [OP_2MUL], [OP_2DIV], [OP_MUL], [OP_DIV], [OP_MOD], [OP_LSHIFT], [OP_RSHIFT]. *)
Definition legacy_illegal : list Z :=
  [0x7e; 0x7f; 0x80; 0x81; 0x83; 0x84; 0x85; 0x86; 0x8d; 0x8e; 0x95; 0x96; 0x97; 0x98; 0x99].

(** The opcodes of the [ordinary_opcode!] invocation, in its order. *)
Definition ordinary_opcodes : list Z :=
  [OP_PUSHDATA1; OP_PUSHDATA2; OP_PUSHDATA4;
   0x63; 0x64; 0x67; 0x68; OP_VERIFY;
   0x6b; 0x6c;
   0x6d; 0x6e; 0x6f; 0x70; 0x71; 0x72;
   0x75; OP_DUP; 0x77; 0x78; 0x79; 0x7a; 0x7b; 0x7c; 0x7d;
   0x73; 0x74; 0x82;
   OP_EQUAL; OP_EQUALVERIFY;
   0x8b; 0x8c; 0x8f; 0x90; 0x91; 0x92;
   0x93; 0x94; 0x9a; 0x9b;
   OP_NUMEQUAL; OP_NUMEQUALVERIFY; 0x9e; 0x9f;
   0xa0; 0xa1; 0xa2;
   0xa3; 0xa4; 0xa5;
   0xa6; 0xa7; 0xa8; OP_HASH160; 0xaa;
   0xab; OP_CHECKSIG; OP_CHECKSIGVERIFY;
   OP_CHECKMULTISIG; OP_CHECKMULTISIGVERIFY;
   OP_CHECKSIGADD].

Inductive ClassifyContext := TapScript | Legacy.

Inductive Class :=
| PushNum (n : Z)
| PushBytesClass (n : Z)
| ReturnOp
| SuccessOp
| IllegalOp
| NoOp
| Ordinary (op : Z).

#[export] Instance ClassifyContext_eq_dec : EqDecision ClassifyContext.
Proof. solve_decision. Defined.
#[export] Instance Class_eq_dec : EqDecision Class.
Proof. solve_decision. Defined.

Definition mem (op : Z) (l : list Z) : bool := existsb (Z.eqb op) l.
Definition is_legacy_ctx (ctx : ClassifyContext) : bool :=
  match ctx with Legacy => true | TapScript => false end.

(** [Ordinary::with]: [unreachable!] on any other opcode. *)
Definition ordinary_with (op : Z) : run Class :=
  if mem op ordinary_opcodes then Ret (Ordinary op) else Panic.

Definition classify (op : Z) (ctx : ClassifyContext) : run Class :=
  let legacy := is_legacy_ctx ctx in
  if mem op [OP_VERIF; OP_VERNOTIF; OP_INVALIDOPCODE] then Ret IllegalOp
  else if mem op legacy_illegal && legacy then Ret IllegalOp
  else if negb legacy &&
       ((op =? 80) || (op =? 98) || ((126 <=? op) && (op <=? 129))
        || ((131 <=? op) && (op <=? 134)) || ((137 <=? op) && (op <=? 138))
        || ((141 <=? op) && (op <=? 142)) || ((149 <=? op) && (op <=? 153))
        || ((187 <=? op) && (op <=? 254))) then Ret SuccessOp
  else if op =? OP_NOP then Ret NoOp
  else if (OP_NOP1 <=? op) && (op <=? OP_NOP10) then Ret NoOp
  else if op =? OP_RETURN then Ret ReturnOp
  else if mem op [OP_RESERVED; OP_RESERVED1; OP_RESERVED2; OP_VER] && legacy then Ret ReturnOp
  else if legacy && (OP_CHECKSIGADD <=? op) then Ret ReturnOp
  else if mem op [OP_CHECKMULTISIG; OP_CHECKMULTISIGVERIFY] && negb legacy then Ret ReturnOp
  else if op =? OP_PUSHNUM_NEG1 then Ret (PushNum (-1))
  else if (OP_PUSHNUM_1 <=? op) && (op <=? OP_PUSHNUM_16) then
    Ret (PushNum (1 + op - OP_PUSHNUM_1))
  else if op <=? OP_PUSHBYTES_75 then Ret (PushBytesClass op)
  else ordinary_with op.

Definition decode_pushnum (op : Z) : option Z :=
  if (OP_PUSHNUM_1 <=? op) && (op <=? OP_PUSHNUM_16) then Some (op - OP_PUSHNUM_1 + 1) else None.

(** ** Script numbers *)

Inductive ScriptError := NonMinimalPush | EarlyEndOfScript | NumericOverflow.

#[export] Instance ScriptError_eq_dec : EqDecision ScriptError.
Proof. solve_decision. Defined.

(** [write_scriptint] fills a buffer of eight bytes; the model returns the bytes written.
    Writing past the buffer panics. *)
Definition put (out : list byte) (b : Z) : run (list byte) :=
  if (length out <? 8)%nat then Ret (out ++ [byte.of_Z b]) else Panic.

Fixpoint write_loop (fuel : nat) (out : list byte) (abs : Z) : run (list byte * Z) :=
  match fuel with
  | O => Ret (out, abs)
  | S fuel =>
      if 0xFF <? abs then
        out ← put out (Z.land abs 0xFF); write_loop fuel out (Z.shiftr abs 8)
      else Ret (out, abs)
  end.

Definition write_scriptint (n : Z) : run (list byte) :=
  if n =? 0 then Ret [] else
  let neg := n <? 0 in
  '(out, abs) ← write_loop 8 [] (Z.abs n);
  if negb (Z.land abs 0x80 =? 0) then
    out ← put out abs; put out (if neg then 0x80 else 0)
  else put out (Z.lor abs (if neg then 0x80 else 0)).

(** The fold of [scriptint_parse], for the at most four bytes its callers pass. *)
Definition scriptint_parse (v : list byte) : run Z :=
  let '(ret, sh) := foldl (fun '(acc, sh) n => (acc + Z.shiftl (byte.unsigned n) sh, sh + 8))
                          (0, 0) v in
  last ← index v (Z.of_nat (length v) - 1);
  if negb (Z.land (byte.unsigned last) 0x80 =? 0) then
    Ret (- Z.land ret (Z.shiftl 1 (sh - 1) - 1))
  else Ret ret.

Definition read_scriptint (v : list byte) : comp ScriptError Z :=
  match list.last v with
  | None => Val 0
  | Some last =>
      if (4 <? length v)%nat then Throw NumericOverflow
      else if Z.land (byte.unsigned last) 0x7f =? 0 then
        if (length v <=? 1)%nat then Throw NonMinimalPush
        else
          second ← of_run (index v (Z.of_nat (length v) - 2));
          if Z.land (byte.unsigned second) 0x80 =? 0 then Throw NonMinimalPush
          else of_run (scriptint_parse v)
      else of_run (scriptint_parse v)
  end.

Definition read_scriptint_non_minimal (v : list byte) : comp ScriptError Z :=
  if (length v =? 0)%nat then Val 0
  else if (4 <? length v)%nat then Throw NumericOverflow
  else of_run (scriptint_parse v).

Definition read_scriptbool (v : list byte) : bool :=
  match list.last v with
  | Some last =>
      negb ((Z.land (byte.unsigned last) 0x7f =? 0) &&
            forallb (fun b => byte.unsigned b =? 0) (removelast v))
  | None => false
  end.

(** ** Iterating over instructions *)

Inductive Instruction := PushBytes (bytes : list byte) | Op (op : Z).

#[export] Instance Instruction_eq_dec : EqDecision Instruction.
Proof. solve_decision. Defined.

Record Instructions := mkInstructions { data : list byte; enforce_minimal : bool }.

Definition instructions (self : list byte) : Instructions := mkInstructions self false.
Definition instructions_minimal (self : list byte) : Instructions := mkInstructions self true.

Inductive UintError := UEarlyEndOfScript | UNumericOverflow.

(** [usize::checked_shl] and [usize::checked_add]. *)
Definition checked_shl (v s : Z) : option Z :=
  if s <? 64 then Some (wrap 64 (Z.shiftl v s)) else None.
Definition checked_add (a b : Z) : option Z :=
  if a + b <? 2 ^ 64 then Some (a + b) else None.

Fixpoint read_uint_loop (items : list byte) (i ret : Z) : Result UintError Z :=
  match items with
  | [] => Ok ret
  | item :: items =>
      match checked_shl (byte.unsigned item) (i * 8) with
      | None => Err UNumericOverflow
      | Some s => match checked_add s ret with
                  | None => Err UNumericOverflow
                  | Some ret => read_uint_loop items (i + 1) ret
                  end
      end
  end.

Definition read_uint_iter (dat : list byte) (size : nat) : Result UintError Z * list byte :=
  if (length dat <? size)%nat then (Err UEarlyEndOfScript, dat)
  else if u16_MAX / 8 <? Z.of_nat size then (Err UNumericOverflow, dat)
  else (read_uint_loop (take size dat) 0 0, drop size dat).

Definition kill (self : Instructions) : Instructions := mkInstructions [] (enforce_minimal self).

Definition take_slice_or_kill (self : Instructions) (len : Z) :
    Result ScriptError (list byte) * Instructions :=
  if len <=? Z.of_nat (length (data self)) then
    (Ok (take (Z.to_nat len) (data self)),
     mkInstructions (drop (Z.to_nat len) (data self)) (enforce_minimal self))
  else (Err EarlyEndOfScript, kill self).

Definition next_push_data_len (self : Instructions) (len : nat) (min_push_len : Z) :
    Result ScriptError Instruction * Instructions :=
  let '(r, dat) := read_uint_iter (data self) len in
  let self := mkInstructions dat (enforce_minimal self) in
  match r with
  | Err _ => (Err EarlyEndOfScript, kill self)
  | Ok n =>
      if enforce_minimal self && (n <? min_push_len) then (Err NonMinimalPush, kill self)
      else if u32_MAX <? n then (Err NumericOverflow, self)
      else let '(r, self) := take_slice_or_kill self n in (PushBytes <$> r, self)
  end.

Definition small_number (b : byte) : bool :=
  let b := byte.unsigned b in (b =? 0x81) || ((0 <? b) && (b <=? 16)).

Definition next (self : Instructions) : run (option (Result ScriptError Instruction) * Instructions) :=
  match data self with
  | [] => Ret (None, self)
  | byte :: rest =>
      let self := mkInstructions rest (enforce_minimal self) in
      class ← classify (byte.unsigned byte) Legacy;
      Ret match class with
      | PushBytesClass n =>
          match enforce_minimal self, rest, n =? 1 with
          | true, op_byte :: _, true =>
              if small_number op_byte then (Some (Err NonMinimalPush), kill self)
              else let '(r, self) := take_slice_or_kill self n in (Some (PushBytes <$> r), self)
          | _, _, _ =>
              match rest, n =? 0 with
              | [], true => (Some (Ok (PushBytes [])), self)
              | _, _ =>
                  let '(r, self) := take_slice_or_kill self n in (Some (PushBytes <$> r), self)
              end
          end
      | Ordinary op =>
          if op =? OP_PUSHDATA1 then
            let '(r, self) := next_push_data_len self 1 76 in (Some r, self)
          else if op =? OP_PUSHDATA2 then
            let '(r, self) := next_push_data_len self 2 0x100 in (Some r, self)
          else if op =? OP_PUSHDATA4 then
            let '(r, self) := next_push_data_len self 4 0x10000 in (Some r, self)
          else (Some (Ok (Op (byte.unsigned byte))), self)
      | _ => (Some (Ok (Op (byte.unsigned byte))), self)
      end
  end.

(** All items of the iterator; every item consumes a byte, so the script's length bounds
    their number. *)
Fixpoint collect_from (fuel : nat) (self : Instructions) : run (list (Result ScriptError Instruction)) :=
  match fuel with
  | O => Ret []
  | S fuel =>
      '(item, self) ← next self;
      match item with
      | None => Ret []
      | Some r => rs ← collect_from fuel self; Ret (r :: rs)
      end
  end.
Definition collect (self : Instructions) : run (list (Result ScriptError Instruction)) :=
  collect_from (length (data self)) self.

Definition push_bytes (self : Instruction) : option (list byte) :=
  match self with Op _ => None | PushBytes bytes => Some bytes end.
Definition opcode (self : Instruction) : option Z :=
  match self with Op op => Some op | PushBytes _ => None end.

Definition reserved_len_for_slice (len : Z) : Z :=
  len + (if len <=? 0x4b then 1 else if len <=? 0xff then 2 else if len <=? 0xffff then 3 else 5).

Definition script_serialized_len (self : Instruction) : Z :=
  match self with Op _ => 1 | PushBytes bytes => reserved_len_for_slice (Z.of_nat (length bytes)) end.

(** ** Building scripts *)

Definition push_opcode (self : list byte) (op : Z) : list byte := self ++ [byte.of_Z op].

Definition push_slice_no_opt (self data : list byte) : run (list byte) :=
  let n := Z.of_nat (length data) in
  header ← (if n <? OP_PUSHDATA1 then Ret [n]
            else if n <? 0x100 then Ret [OP_PUSHDATA1; n]
            else if n <? 0x10000 then Ret [OP_PUSHDATA2; n mod 0x100; n / 0x100]
            else if n <? 0x100000000 then
              Ret [OP_PUSHDATA4; n mod 0x100; (n / 0x100) mod 0x100; (n / 0x10000) mod 0x100;
                   n / 0x1000000]
            else Panic);
  Ret (self ++ map byte.of_Z header ++ data).

(** [push_slice] reserves capacity first, which the content of the vector does not show. *)
Definition push_slice (self data : list byte) : run (list byte) := push_slice_no_opt self data.

Definition push_instruction (self : list byte) (instruction : Instruction) : run (list byte) :=
  match instruction with
  | Op op => Ret (push_opcode self op)
  | PushBytes bytes => push_slice self bytes
  end.

(** [Extend]/[FromIterator] for [ScriptBuf]. *)
Fixpoint extend (self : list byte) (iter : list Instruction) : run (list byte) :=
  match iter with
  | [] => Ret self
  | instruction :: iter => self ← push_instruction self instruction; extend self iter
  end.
Definition from_iter (iter : list Instruction) : run (list byte) := extend [] iter.

Definition opcode_to_verify (op : option Z) : option Z :=
  match op with
  | Some op =>
      if op =? OP_EQUAL then Some OP_EQUALVERIFY
      else if op =? OP_NUMEQUAL then Some OP_NUMEQUALVERIFY
      else if op =? OP_CHECKSIG then Some OP_CHECKSIGVERIFY
      else if op =? OP_CHECKMULTISIG then Some OP_CHECKMULTISIGVERIFY
      else None
  | None => None
  end.

(** The script so far and the opcode pushed last, if the last push was an opcode. *)
Record Builder := mkBuilder { script : list byte; last_op : option Z }.

Module Build.

Definition new : Builder := mkBuilder [] None.
Definition push_opcode (self : Builder) (op : Z) : Builder :=
  mkBuilder (push_opcode (script self) op) (Some op).
Definition push_slice (self : Builder) (data : list byte) : run Builder :=
  s ← push_slice (script self) data; Ret (mkBuilder s None).
Definition push_int_non_minimal (self : Builder) (n : Z) : run Builder :=
  buf ← write_scriptint n; push_slice self buf.
Definition push_int (self : Builder) (n : Z) : run Builder :=
  if (n =? -1) || ((1 <=? n) && (n <=? 16)) then
    Ret (push_opcode self (wrap 8 (n - 1 + OP_TRUE)))
  else if n =? 0 then Ret (push_opcode self OP_0)
  else push_int_non_minimal self n.
Definition push_verify (self : Builder) : Builder :=
  match opcode_to_verify (last_op self) with
  | Some op => push_opcode (mkBuilder (removelast (script self)) (last_op self)) op
  | None => push_opcode self OP_VERIFY
  end.
Definition push_lock_time (self : Builder) (l : Abs.LockTime) : run Builder :=
  push_int self (Abs.to_consensus_u32 l).
Definition push_sequence (self : Builder) (s : Z) : run Builder := push_int self s.
Definition into_script (self : Builder) : list byte := script self.
End Build.

Definition new_p2pkh (pubkey_hash : list byte) : run (list byte) :=
  let b := Build.push_opcode (Build.push_opcode Build.new OP_DUP) OP_HASH160 in
  b ← Build.push_slice b pubkey_hash;
  Ret (Build.into_script (Build.push_opcode (Build.push_opcode b OP_EQUALVERIFY) OP_CHECKSIG)).
Definition new_p2sh (script_hash : list byte) : run (list byte) :=
  b ← Build.push_slice (Build.push_opcode Build.new OP_HASH160) script_hash;
  Ret (Build.into_script (Build.push_opcode b OP_EQUAL)).
Definition new_op_return (data : list byte) : run (list byte) :=
  b ← Build.push_slice (Build.push_opcode Build.new OP_RETURN) data;
  Ret (Build.into_script b).

(** ** Script templates *)

(** [self.0[i] == op], on an index the length check before it makes valid. *)
Definition byte_is (self : list byte) (i : nat) (op : Z) : bool :=
  match self !! i with Some b => byte.unsigned b =? op | None => false end.

Definition is_p2sh (self : list byte) : bool :=
  (length self =? 23)%nat && byte_is self 0 OP_HASH160 && byte_is self 1 OP_PUSHBYTES_20
  && byte_is self 22 OP_EQUAL.
Definition is_p2pkh (self : list byte) : bool :=
  (length self =? 25)%nat && byte_is self 0 OP_DUP && byte_is self 1 OP_HASH160
  && byte_is self 2 OP_PUSHBYTES_20 && byte_is self 23 OP_EQUALVERIFY
  && byte_is self 24 OP_CHECKSIG.
Definition p2pk_pubkey_bytes (self : list byte) : option (list byte) :=
  if (length self =? 67)%nat && byte_is self 0 OP_PUSHBYTES_65 && byte_is self 66 OP_CHECKSIG
  then Some (take 65 (drop 1 self))
  else if (length self =? 35)%nat && byte_is self 0 OP_PUSHBYTES_33 && byte_is self 34 OP_CHECKSIG
  then Some (take 33 (drop 1 self))
  else None.
Definition is_p2pk (self : list byte) : bool :=
  match p2pk_pubkey_bytes self with Some _ => true | None => false end.
Definition is_op_return (self : list byte) : bool := byte_is self 0 OP_RETURN.

Fixpoint push_only (items : list (Result ScriptError Instruction)) : bool :=
  match items with
  | [] => true
  | Err _ :: _ => false
  | Ok (PushBytes _) :: items => push_only items
  | Ok (Op op) :: items => if op <=? 0x60 then push_only items else false
  end.
Definition is_push_only (self : list byte) : run bool := push_only <$> collect (instructions self).

Definition last_opcode (self : list byte) : run (option Z) :=
  items ← collect (instructions self);
  Ret match list.last items with Some (Ok (Op op)) => Some op | _ => None end.
Definition last_pushdata (self : list byte) : run (option (list byte)) :=
  items ← collect (instructions self);
  Ret match list.last items with Some (Ok (PushBytes b)) => Some b | _ => None end.

Definition redeem_script (self : list byte) : run (option (list byte)) :=
  items ← collect (instructions self);
  if existsb (fun i => match i with Ok (PushBytes _) => false | _ => true end) items then Ret None
  else Ret match list.last items with Some (Ok (PushBytes b)) => Some b | _ => None end.

(** [count_sigops_internal] over the iterator's items. *)
Fixpoint sigops_loop (accurate : bool) (items : list (Result ScriptError Instruction))
    (n : Z) (pushnum_cache : option Z) : Z :=
  match items with
  | [] => n
  | Ok (Op op) :: items =>
      if (op =? OP_CHECKSIG) || (op =? OP_CHECKSIGVERIFY) then
        sigops_loop accurate items (n + 1) pushnum_cache
      else if (op =? OP_CHECKMULTISIG) || (op =? OP_CHECKMULTISIGVERIFY) then
        let k := match accurate, pushnum_cache with true, Some pushnum => pushnum | _, _ => 20 end in
        sigops_loop accurate items (n + k) pushnum_cache
      else sigops_loop accurate items n (decode_pushnum op)
  | Ok (PushBytes _) :: items => sigops_loop accurate items n None
  | Err _ :: _ => n
  end.
Definition count_sigops (self : list byte) : run Z :=
  items ← collect (instructions self); Ret (sigops_loop true items 0 None).
Definition count_sigops_legacy (self : list byte) : run Z :=
  items ← collect (instructions self); Ret (sigops_loop false items 0 None).

(** ** Number conversions *)

Module tests.
Example write_255 : write_scriptint (-255) = Ret (map byte.of_Z [0xff; 0x80]).
Proof. reflexivity. Qed.
Example read_255 : read_scriptint (map byte.of_Z [0xff; 0x80]) = Val (-255).
Proof. reflexivity. Qed.
Example read_negative_zero : read_scriptint (map byte.of_Z [0x80]) = Throw NonMinimalPush.
Proof. reflexivity. Qed.
Example parse_p2pkh :
  (s ← new_p2pkh (replicate 20 Byte.x01); collect (instructions_minimal s)) =
  Ret [Ok (Op OP_DUP); Ok (Op OP_HASH160); Ok (PushBytes (replicate 20 Byte.x01));
       Ok (Op OP_EQUALVERIFY); Ok (Op OP_CHECKSIG)].
Proof. vm_compute. reflexivity. Qed.
End tests.

(** ** Iterating over what was built *)

Lemma legacy_push b :
  byte.unsigned b <= 0x4b -> classify (byte.unsigned b) Legacy = Ret (PushBytesClass (byte.unsigned b)).
Proof. destruct b; intros H; try reflexivity; exfalso; vm_compute in H; congruence. Qed.

Lemma legacy_other b : 0x4e < byte.unsigned b ->
  exists c, classify (byte.unsigned b) Legacy = Ret c /\
    match c with PushBytesClass _ => False | Ordinary op => 0x4e < op | _ => True end.
Proof.
  destruct b; intros H; (eexists; split; [vm_compute; reflexivity | first [exact I | done |
    exfalso; vm_compute in H; congruence]]).
Qed.

Lemma legacy_pushdata b : 0x4c <= byte.unsigned b <= 0x4e ->
  classify (byte.unsigned b) Legacy = Ret (Ordinary (byte.unsigned b)).
Proof. destruct b; intros [H1 H2]; try reflexivity; exfalso; vm_compute in H1, H2; congruence. Qed.

Lemma read_uint_loop_spec items : forall i ret, 0 <= i -> i + Z.of_nat (length items) <= 8 ->
  0 <= ret < 2 ^ (8 * i) ->
  read_uint_loop items i ret = Ok (ret + 2 ^ (8 * i) * le_combine items).
Proof.
  induction items as [|b items IH]; intros i ret Hi Hl Hr; cbn [read_uint_loop].
  { f_equal. change (le_combine []) with 0. lia. }
  rewrite le_combine_cons.
  cbn [length] in Hl. pose proof (byte.unsigned_range b) as Hb.
  assert (2 ^ (8 * i + 8) = 2 ^ (8 * i) * 256) as E by (rewrite Z.pow_add_r by lia; reflexivity).
  assert (2 ^ (8 * i + 8) <= 2 ^ 64) by (apply Z.pow_le_mono_r; lia).
  assert (0 < 2 ^ (8 * i)) by (apply Z.pow_pos_nonneg; lia).
  unfold checked_shl. rewrite (proj2 (Z.ltb_lt (i * 8) 64)) by lia.
  rewrite Z.shiftl_mul_pow2 by lia. rewrite (Z.mul_comm i 8).
  unfold wrap. rewrite Z.mod_small by nia.
  unfold checked_add. rewrite (proj2 (Z.ltb_lt _ (2 ^ 64))) by nia.
  rewrite IH; [|lia|lia|].
  - f_equal. replace (8 * (i + 1)) with (8 * i + 8) by lia. rewrite E.
    nia.
  - replace (8 * (i + 1)) with (8 * i + 8) by lia. nia.
Qed.

Definition header (n : Z) : list Z :=
  if n <? OP_PUSHDATA1 then [n]
  else if n <? 0x100 then [OP_PUSHDATA1; n]
  else if n <? 0x10000 then [OP_PUSHDATA2; n mod 0x100; n / 0x100]
  else [OP_PUSHDATA4; n mod 0x100; (n / 0x100) mod 0x100; (n / 0x10000) mod 0x100; n / 0x1000000].

(** The bytes of an instruction, and which instructions can be written. *)
Definition instruction_bytes (i : Instruction) : list byte :=
  match i with
  | Op op => [byte.of_Z op]
  | PushBytes d => map byte.of_Z (header (Z.of_nat (length d))) ++ d
  end.
Definition instruction_wf (i : Instruction) : Prop :=
  match i with
  | Op op => 0x4e < op < 0x100
  | PushBytes d => Z.of_nat (length d) < 2 ^ 32
  end.
(** Pushes of one small number have an opcode of their own. *)
Definition instruction_minimal (i : Instruction) : Prop :=
  instruction_wf i /\
  match i with PushBytes [b] => small_number b = false | _ => True end.

Lemma push_instruction_spec s i : instruction_wf i ->
  push_instruction s i = Ret (s ++ instruction_bytes i).
Proof.
  destruct i as [d|op]; cbn [push_instruction instruction_wf instruction_bytes]; [|done].
  intros H. unfold push_slice, push_slice_no_opt, header.
  repeat case_match; zcases; try done; lia.
Qed.

Lemma extend_spec il : Forall instruction_wf il -> forall s,
  extend s il = Ret (s ++ (il ≫= instruction_bytes)).
Proof.
  induction 1 as [|i il Hi _ IH]; intros s; cbn [extend].
  { by rewrite app_nil_r. }
  rewrite (push_instruction_spec _ _ Hi), bind_Ret, IH. cbn. by rewrite (assoc_L (++)).
Qed.

Lemma next_op op rest m : 0x4e < op < 0x100 ->
  next (mkInstructions (byte.of_Z op :: rest) m) =
  Ret (Some (Ok (Op op)), mkInstructions rest m).
Proof.
  intros H. assert (byte.unsigned (byte.of_Z op) = op) as E.
  { rewrite byte.unsigned_of_Z. apply Z.mod_small. lia. }
  unfold next. cbn [data enforce_minimal].
  destruct (legacy_other (byte.of_Z op)) as (c & Hc & Hk); [lia|].
  rewrite Hc, bind_Ret, E. destruct c; try done.
  unfold OP_PUSHDATA1, OP_PUSHDATA2, OP_PUSHDATA4. zcases; try done; lia.
Qed.

Lemma take_slice_app d rest m :
  take_slice_or_kill (mkInstructions (d ++ rest) m) (Z.of_nat (length d)) =
  (Ok d, mkInstructions rest m).
Proof.
  unfold take_slice_or_kill. cbn [data enforce_minimal].
  rewrite (proj2 (Z.leb_le _ _)) by (rewrite length_app; lia).
  by rewrite Nat2Z.id, take_app_length, drop_app_length.
Qed.

(** The length field of the [OP_PUSHDATA] forms is the little-endian length. *)
Lemma next_push_data_len_app k d rest m n min :
  (k <= 8)%nat -> Z.of_nat (length d) = n -> n < 2 ^ (8 * Z.of_nat k) -> n < 2 ^ 32 -> min <= n ->
  next_push_data_len (mkInstructions (le_split k n ++ d ++ rest) m) k min =
  (Ok (PushBytes d), mkInstructions rest m).
Proof.
  intros Hk Hd Hn Hn32 Hmin. unfold next_push_data_len, read_uint_iter. cbn [data enforce_minimal].
  rewrite (proj2 (Nat.ltb_ge _ _)) by (rewrite length_app, length_le_split; lia).
  change (u16_MAX / 8) with 8191. rewrite (proj2 (Z.ltb_ge 8191 _)) by lia.
  rewrite take_app_length', drop_app_length' by (by rewrite length_le_split).
  rewrite read_uint_loop_spec; [|lia|rewrite length_le_split; lia|lia].
  rewrite le_combine_split, (Z.mul_comm _ 8), Z.mod_small by lia.
  replace (0 + 2 ^ (8 * 0) * n) with (Z.of_nat (length d)) by lia.
  rewrite (proj2 (Z.ltb_ge _ min)) by lia. rewrite andb_false_r.
  rewrite (proj2 (Z.ltb_ge u32_MAX _)) by (unfold u32_MAX; lia).
  by rewrite take_slice_app.
Qed.

Lemma byte_of_Z_mod z : byte.of_Z (z mod 0x100) = byte.of_Z z.
Proof.
  apply byte.unsigned_inj. rewrite !byte.unsigned_of_Z. unfold byte.wrap.
  apply (Z.mod_mod z 256). lia.
Qed.

Lemma header_cases n : 0 <= n < 2 ^ 32 ->
  (n < 76 /\ map byte.of_Z (header n) = [byte.of_Z n]) \/
  exists k op, (k <= 8)%nat /\ n < 2 ^ (8 * Z.of_nat k) /\
    map byte.of_Z (header n) = byte.of_Z op :: le_split k n /\
    ((op = OP_PUSHDATA1 /\ k = 1%nat /\ 76 <= n) \/ (op = OP_PUSHDATA2 /\ k = 2%nat /\ 0x100 <= n) \/
     (op = OP_PUSHDATA4 /\ k = 4%nat /\ 0x10000 <= n)).
Proof.
  intros Hn. unfold header, OP_PUSHDATA1. zcases; [by left|right..].
  - exists 1%nat, 0x4c. rewrite le_split_S. cbn [map]. split_and!; [lia..|done|]. left. auto with lia.
  - exists 2%nat, 0x4d. rewrite !le_split_S. cbn [map]. rewrite byte_of_Z_mod.
    split_and!; [lia..|done|]. right; left. auto with lia.
  - exists 4%nat, 0x4e. rewrite !le_split_S, !Z.div_div by lia. cbn [map]. rewrite !byte_of_Z_mod.
    split_and!; [lia..|done|]. right; right. auto with lia.
Qed.

Lemma next_push d rest m :
  Z.of_nat (length d) < 2 ^ 32 ->
  (m = true -> match d with [b] => small_number b = false | _ => True end) ->
  next (mkInstructions (instruction_bytes (PushBytes d) ++ rest) m) =
  Ret (Some (Ok (PushBytes d)), mkInstructions rest m).
Proof.
  intros Hl Hmin. cbn [instruction_bytes]. rewrite <- (assoc_L (++)).
  destruct (header_cases (Z.of_nat (length d))) as [[Hs ->]|(k & op & Hk & Hn & -> & Hop)]; [lia| |].
  - unfold next. cbn [app data enforce_minimal].
    assert (byte.unsigned (byte.of_Z (Z.of_nat (length d))) = Z.of_nat (length d)) as E.
    { rewrite byte.unsigned_of_Z. apply Z.mod_small. lia. }
    rewrite legacy_push by lia. rewrite bind_Ret, E.
    pose proof (take_slice_app d rest m) as T.
    destruct d as [|b [|b' d]]; cbn [app length] in *.
    + change (Z.of_nat 0) with 0 in *. cbn [Z.eqb]. rewrite T.
      by destruct m, rest.
    + change (Z.of_nat 1) with 1 in *. cbn [Z.eqb Pos.eqb]. rewrite T.
      destruct m; [by rewrite Hmin|done].
    + rewrite (proj2 (Z.eqb_neq _ 1)) by lia. rewrite T.
      by destruct m.
  - cbn [app]. unfold next. cbn [data enforce_minimal].
    assert (0x4c <= op <= 0x4e) as Hr by (unfold OP_PUSHDATA1, OP_PUSHDATA2, OP_PUSHDATA4 in Hop; lia).
    assert (byte.unsigned (byte.of_Z op) = op) as E.
    { rewrite byte.unsigned_of_Z. apply Z.mod_small. lia. }
    rewrite legacy_pushdata by lia. rewrite bind_Ret, E.
    destruct Hop as [(-> & -> & ?)|[(-> & -> & ?)|(-> & -> & ?)]]; cbn;
      rewrite (next_push_data_len_app _ d rest m (Z.of_nat (length d))) by lia; done.
Qed.

Lemma take_slice_cases dat m n : 0 <= n ->
  (exists d rest, dat = d ++ rest /\ Z.of_nat (length d) = n /\
     take_slice_or_kill (mkInstructions dat m) n = (Ok d, mkInstructions rest m)) \/
  take_slice_or_kill (mkInstructions dat m) n = (Err EarlyEndOfScript, mkInstructions [] m).
Proof.
  intros Hn. unfold take_slice_or_kill. cbn [data enforce_minimal]. zcases; [left|by right].
  exists (take (Z.to_nat n) dat), (drop (Z.to_nat n) dat).
  rewrite take_drop, length_take. split_and!; [done|lia|done].
Qed.

(** What one step of the iterator returns: nothing on the empty script, an error that ends
    the iteration, or an instruction whose bytes it consumed. *)
Definition step_ok (dat : list byte) (m : bool) (r : option (Result ScriptError Instruction))
    (st : Instructions) : Prop :=
  match r with
  | None => dat = [] /\ data st = []
  | Some (Err _) => dat <> [] /\ data st = []
  | Some (Ok i) =>
      enforce_minimal st = m /\ (length (data st) < length dat)%nat /\
      (m = true -> instruction_minimal i /\ dat = instruction_bytes i ++ data st)
  end.

Lemma next_push_data_len_ok b rest m k op min :
  byte.unsigned b = op -> (k <= 4)%nat ->
  (forall n, min <= n < 2 ^ (8 * Z.of_nat k) -> map byte.of_Z (header n) = byte.of_Z op :: le_split k n) ->
  (forall n, min <= n -> 2 <= n) ->
  let '(r, st) := next_push_data_len (mkInstructions rest m) k min in
  step_ok (b :: rest) m (Some r) st.
Proof.
  intros Hb Hk Hh Hmin. unfold next_push_data_len, read_uint_iter. cbn [data enforce_minimal].
  destruct (Nat.ltb_spec (length rest) k); [done|].
  change (u16_MAX / 8) with 8191. rewrite (proj2 (Z.ltb_ge 8191 _)) by lia.
  assert (length (take k rest) = k) as Hlt by (rewrite length_take; lia).
  rewrite read_uint_loop_spec; [|lia..]. rewrite Z.add_0_l, Z.mul_1_l.
  pose proof (le_combine_bound (take k rest)) as Hb2. rewrite Hlt in Hb2.
  pose proof (split_le_combine (take k rest)) as Hs. rewrite Hlt in Hs.
  assert (2 ^ (8 * Z.of_nat k) <= 2 ^ 32) by (apply Z.pow_le_mono_r; lia).
  set (n := le_combine (take k rest)) in *.
  destruct (m && (n <? min)) eqn:Em; [done|].
  rewrite (proj2 (Z.ltb_ge u32_MAX n)) by (unfold u32_MAX; lia).
  destruct (take_slice_cases (drop k rest) m n) as [(d & rest' & Hd & Hl & ->)| ->]; [lia| |done].
  cbn. split_and!; [done| |].
  { apply (f_equal length) in Hd. rewrite length_drop, length_app in Hd. lia. }
  intros ->. apply andb_false_iff in Em as [|Em]; [done|]. apply Z.ltb_ge in Em.
  pose proof (Hmin _ Em). split.
  - split; cbn; [lia|]. destruct d as [|? [|??]]; cbn in Hl; [lia..|done].
  - rewrite Hl, Hh by lia. rewrite Hs, <- Hb, byte.of_Z_unsigned. cbn.
    by rewrite <- (assoc_L (++)), <- Hd, take_drop.
Qed.

Lemma header_pushdata k op min n :
  (k, op, min) = (1%nat, OP_PUSHDATA1, 76) \/ (k, op, min) = (2%nat, OP_PUSHDATA2, 0x100) \/
  (k, op, min) = (4%nat, OP_PUSHDATA4, 0x10000) ->
  min <= n < 2 ^ (8 * Z.of_nat k) -> map byte.of_Z (header n) = byte.of_Z op :: le_split k n.
Proof.
  intros H Hn. destruct (header_cases n) as [[? _]|(k' & op' & _ & Hk & -> & Hc)];
    [naive_solver lia..|].
  destruct H as [[= -> -> ->]|[[= -> -> ->]|[= -> -> ->]]];
    destruct Hc as [(-> & -> & ?)|[(-> & -> & ?)|(-> & -> & ?)]]; simpl in *; first [done|lia].
Qed.

Lemma take_slice_ok b rest m :
  byte.unsigned b <= 0x4b ->
  (m = true -> match rest with c :: _ => byte.unsigned b = 1 -> small_number c = false | [] => True end) ->
  let '(r, st) := take_slice_or_kill (mkInstructions rest m) (byte.unsigned b) in
  step_ok (b :: rest) m (Some (PushBytes <$> r)) st.
Proof.
  intros Hb Hs. pose proof (byte.unsigned_range b).
  destruct (take_slice_cases rest m (byte.unsigned b)) as [(d & rest' & -> & Hl & ->)| ->]; [lia| |done].
  cbn. split_and!; [done|rewrite length_app; lia|]. intros ->. split.
  - split; cbn; [lia|]. destruct d as [|c [|??]]; [done| |done]. apply (Hs eq_refl). by rewrite <- Hl.
  - rewrite Hl. unfold header, OP_PUSHDATA1. rewrite (proj2 (Z.ltb_lt _ 76)) by lia.
    cbn. by rewrite byte.of_Z_unsigned.
Qed.

Lemma next_push_ok b rest m : byte.unsigned b <= 0x4b ->
  exists r st, next (mkInstructions (b :: rest) m) = Ret (r, st) /\ step_ok (b :: rest) m r st.
Proof.
  intros Hb. unfold next. cbn [data enforce_minimal].
  rewrite legacy_push, bind_Ret by done. pose proof (take_slice_ok b rest m Hb) as T.
  assert (exists r st, Ret (let '(r, self) :=
    take_slice_or_kill (mkInstructions rest m) (byte.unsigned b) in
    (Some (PushBytes <$> r), self)) = Ret (r, st) /\
    ((m = true -> match rest with c :: _ => byte.unsigned b = 1 -> small_number c = false | [] => True end) ->
     step_ok (b :: rest) m r st)) as (r & st & E & Hst).
  { destruct (take_slice_or_kill _ _) as [r st]. eauto. }
  destruct rest as [|c rest]; [|destruct m].
  + destruct (byte.unsigned b =? 0) eqn:E0; [|destruct m; rewrite E; eexists _, _; (split; [done|]); by apply Hst].
    apply Z.eqb_eq in E0. exists (Some (Ok (PushBytes []))), (mkInstructions [] m). split; [by destruct m|].
    split_and!; [done|cbn; lia|]. intros ->. split; [done|]. cbn.
    by rewrite <- (byte.of_Z_unsigned b), E0.
  + destruct (Z.eqb_spec (byte.unsigned b) 1).
    * destruct (small_number c) eqn:Ec; [eexists _, _; split; [done|]; done|].
      rewrite E. eexists _, _. split; [done|]. by apply Hst.
    * rewrite E. eexists _, _. split; [done|]. apply Hst. intros; lia.
  + rewrite E. eexists _, _. split; [done|]. by apply Hst.
Qed.

Lemma next_pushdata_ok b rest m : 0x4c <= byte.unsigned b <= 0x4e ->
  exists r st, next (mkInstructions (b :: rest) m) = Ret (r, st) /\ step_ok (b :: rest) m r st.
Proof.
  intros Hb. unfold next. cbn [data enforce_minimal].
  rewrite legacy_pushdata, bind_Ret by done. cbn match.
  assert (byte.unsigned b = OP_PUSHDATA1 \/ byte.unsigned b = OP_PUSHDATA2 \/
          byte.unsigned b = OP_PUSHDATA4) as Hc
    by (unfold OP_PUSHDATA1, OP_PUSHDATA2, OP_PUSHDATA4; lia).
  assert (forall k op min,
    (k, op, min) = (1%nat, OP_PUSHDATA1, 76) \/ (k, op, min) = (2%nat, OP_PUSHDATA2, 0x100) \/
    (k, op, min) = (4%nat, OP_PUSHDATA4, 0x10000) -> byte.unsigned b = op ->
    exists r st, Ret (let '(r, self) := next_push_data_len (mkInstructions rest m) k min in
      (Some r, self)) = Ret (r, st) /\ step_ok (b :: rest) m r st) as T.
  { intros k op min H Hop. pose proof (next_push_data_len_ok b rest m k op min Hop) as T.
    destruct (next_push_data_len _ _ _) as [r st]. exists (Some r), st. split; [done|]. apply T.
    - naive_solver lia.
    - intros n. by apply header_pushdata.
    - naive_solver lia. }
  destruct Hc as [Hc|[Hc|Hc]]; rewrite Hc; cbn [Z.eqb Pos.eqb OP_PUSHDATA1 OP_PUSHDATA2 OP_PUSHDATA4].
  + apply (T 1%nat OP_PUSHDATA1); auto.
  + apply (T 2%nat OP_PUSHDATA2); auto.
  + apply (T 4%nat OP_PUSHDATA4); auto.
Qed.

Lemma next_other_ok b rest m : 0x4e < byte.unsigned b ->
  exists r st, next (mkInstructions (b :: rest) m) = Ret (r, st) /\ step_ok (b :: rest) m r st.
Proof.
  intros Hb. unfold next. cbn [data enforce_minimal].
  destruct (legacy_other b Hb) as (c & -> & Hk). rewrite bind_Ret.
  assert (step_ok (b :: rest) m (Some (Ok (Op (byte.unsigned b)))) (mkInstructions rest m)) as T.
  { pose proof (byte.unsigned_range b). split_and!; [done|cbn; lia|]. intros ->.
    split; [split; [cbn; lia|done]|]. cbn. by rewrite byte.of_Z_unsigned. }
  destruct c; try done; try (by eexists _, _). unfold OP_PUSHDATA1, OP_PUSHDATA2, OP_PUSHDATA4.
  rewrite !(proj2 (Z.eqb_neq _ _)) by lia. by eexists _, _.
Qed.

Lemma next_ok dat m : exists r st, next (mkInstructions dat m) = Ret (r, st) /\ step_ok dat m r st.
Proof.
  destruct dat as [|b rest]; [by eexists _, _|].
  assert (byte.unsigned b <= 0x4b \/ 0x4c <= byte.unsigned b <= 0x4e \/ 0x4e < byte.unsigned b)
    as [Hb|[Hb|Hb]] by lia; auto using next_push_ok, next_pushdata_ok, next_other_ok.
Qed.

Lemma collect_built m il : forall fuel, (length (il ≫= instruction_bytes) <= fuel)%nat ->
  Forall (fun i => instruction_wf i /\ (m = true -> instruction_minimal i)) il ->
  collect_from fuel (mkInstructions (il ≫= instruction_bytes) m) = Ret (map Ok il).
Proof.
  induction il as [|i il IH]; intros fuel Hf Hil; [by destruct fuel|].
  apply Forall_cons_iff in Hil as [[Hi Hm] Hil].
  assert (next (mkInstructions (instruction_bytes i ++ (il ≫= instruction_bytes)) m) =
          Ret (Some (Ok i), mkInstructions (il ≫= instruction_bytes) m)) as E.
  { destruct i as [d|op]; [|by apply next_op]. apply next_push; [done|]. intros E. by apply Hm. }
  assert (1 <= length (instruction_bytes i))%nat.
  { destruct i as [d|]; cbn; [|lia]. rewrite length_app, length_map.
    unfold header. repeat case_match; cbn; lia. }
  change ((i :: il) ≫= instruction_bytes)
    with (instruction_bytes i ++ (il ≫= instruction_bytes)) in *.
  rewrite length_app in Hf. destruct fuel as [|fuel]; [lia|]. cbn [collect_from].
  rewrite E, bind_Ret. cbn [map]. rewrite IH; [done|lia|done].
Qed.

Lemma collect_ok m : forall fuel dat, (length dat <= fuel)%nat -> exists items,
  collect_from fuel (mkInstructions dat m) = Ret items /\
  (forall i e, items !! i = Some (Err e) -> S i = length items) /\
  (forall il, m = true -> items = map Ok il ->
     Forall instruction_minimal il /\ dat = il ≫= instruction_bytes).
Proof.
  induction fuel as [|fuel IH]; intros dat Hf; cbn [collect_from].
  { destruct dat; [|cbn in Hf; lia]. exists []. split_and!; [done..|]. by intros [] _ ?. }
  destruct (next_ok dat m) as (r & [dat' m'] & -> & Hst). rewrite bind_Ret.
  destruct r as [[i|e]|]; cbn in Hst.
  - destruct Hst as (-> & Hl & Hc). destruct (IH dat') as (items & -> & He & Hi); [lia|].
    exists (Ok i :: items). split_and!; [done| |].
    + intros [|j] e Hj; [done|]. cbn. f_equal. by apply (He j e).
    + intros [|i' il] -> [= -> ->]. destruct (Hc eq_refl) as [Hm ->].
      destruct (Hi il eq_refl eq_refl) as [? ->]. split; [by constructor|done].
  - destruct Hst as [_ ->]. exists [Err e]. split_and!; [by destruct fuel| |by intros [] _].
    intros [|?] ? ?; [done|done].
  - destruct Hst as [-> ->]. exists []. split_and!; [done..|]. by intros [] _ ?.
Qed.

Lemma from_iter_spec il : Forall instruction_wf il -> from_iter il = Ret (il ≫= instruction_bytes).
Proof. intros H. unfold from_iter. by rewrite extend_spec. Qed.

(** ** The number format *)

(** [v] is the shortest sign-magnitude form of [n], least significant byte first. *)
Definition scriptint_of (n : Z) (v : list byte) : Prop :=
  let len := Z.of_nat (length v) in
  if n =? 0 then v = [] else
  1 <= len /\ le_combine v = Z.abs n + (if n <? 0 then 2 ^ (8 * len - 1) else 0) /\
  2 ^ (8 * (len - 1)) <= 2 * Z.abs n < 2 ^ (8 * len).

Lemma scriptint_of_unique n v v' : scriptint_of n v -> scriptint_of n v' -> v = v'.
Proof.
  unfold scriptint_of. destruct (n =? 0); [congruence|]. intros (H1 & H2 & H3) (H1' & H2' & H3').
  assert (length v = length v') as El.
  { destruct (lt_eq_lt_dec (length v) (length v')) as [[Hlt|?]|Hlt]; [exfalso|done|exfalso].
    - assert (2 ^ (8 * Z.of_nat (length v)) <= 2 ^ (8 * (Z.of_nat (length v') - 1)))
        by (apply Z.pow_le_mono_r; lia). lia.
    - assert (2 ^ (8 * Z.of_nat (length v')) <= 2 ^ (8 * (Z.of_nat (length v) - 1)))
        by (apply Z.pow_le_mono_r; lia). lia. }
  apply le_combine_inj; [done|]. rewrite H2, H2', El. done.
Qed.

Lemma pow256 k : 2 ^ (8 * Z.of_nat k) = 256 ^ Z.of_nat k.
Proof. by rewrite Z.pow_mul_r by lia. Qed.

Lemma le_combine_snoc v b :
  le_combine (v ++ [b]) = le_combine v + 2 ^ (8 * Z.of_nat (length v)) * byte.unsigned b.
Proof.
  rewrite le_combine_app, (Z.mul_comm _ 8), (lor_add_disjoint _ _ (8 * Z.of_nat (length v))).
  - rewrite le_combine_cons. change (le_combine []) with 0. lia.
  - lia.
  - apply le_combine_bound.
Qed.

Lemma write_loop_spec fuel : forall out abs, (length out + fuel = 8)%nat ->
  0 < abs < 256 ^ Z.of_nat fuel ->
  exists w a, write_loop fuel out abs = Ret (out ++ w, a) /\ 0 < a < 256 /\
    abs - 256 ^ Z.of_nat (length w) * a = le_combine w /\
    (length w < fuel)%nat.
Proof.
  induction fuel as [|fuel IH]; intros out abs Hl Ha; cbn [write_loop].
  { change (256 ^ Z.of_nat 0) with 1 in Ha. lia. }
  rewrite Nat2Z.inj_succ, Z.pow_succ_r in Ha by lia.
  destruct (Z.ltb_spec 0xFF abs) as [H|H].
  - unfold put. rewrite (proj2 (Nat.ltb_lt _ _)) by lia. rewrite bind_Ret.
    rewrite Z.shiftr_div_pow2 by lia. change (2 ^ 8) with 256.
    destruct (IH (out ++ [byte.of_Z (Z.land abs 0xFF)]) (abs / 256)) as (w & a & -> & Hr & Hw & Hf).
    { rewrite length_app. cbn. lia. }
    { split; [apply Z.div_str_pos; lia|apply Z.div_lt_upper_bound; lia]. }
    exists (byte.of_Z (Z.land abs 0xFF) :: w), a. rewrite <- (assoc_L (++)).
    split_and!; [done|lia..| |cbn; lia]. rewrite le_combine_cons, <- Hw.
    rewrite byte.unsigned_of_Z. unfold byte.wrap. change 0xFF with (Z.ones 8).
    rewrite Z.land_ones, Z.mod_mod by lia. change (2 ^ 8) with 256. cbn [length].
    rewrite Nat2Z.inj_succ, Z.pow_succ_r by lia. pose proof (Z.div_mod abs 256). lia.
  - exists [], abs. rewrite app_nil_r. split_and!; [done|lia..| |cbn; lia].
    change (le_combine []) with 0. cbn. lia.
Qed.

Lemma land_bit7 a : 0 <= a < 256 -> (Z.land a 0x80 =? 0) = (a <? 128).
Proof.
  intros H. assert (forall b, (Z.land (byte.unsigned b) 0x80 =? 0) = (byte.unsigned b <? 128)) as E
    by (intros []; reflexivity).
  specialize (E (byte.of_Z a)). rewrite byte.unsigned_of_Z in E. unfold byte.wrap in E.
  by rewrite Z.mod_small in E by lia.
Qed.

Lemma lor_bit7 a : 0 <= a < 128 -> Z.lor a 0x80 = a + 128.
Proof. intros H. apply (lor_add_disjoint a 1 7); lia. Qed.

Lemma write_scriptint_spec n : Z.abs n < 2 ^ 63 ->
  exists v, write_scriptint n = Ret v /\ scriptint_of n v.
Proof.
  intros Hn. unfold write_scriptint, scriptint_of. destruct (Z.eqb_spec n 0); [eauto|].
  destruct (write_loop_spec 8 [] (Z.abs n)) as (w & a & -> & Ha & Hw & Hl).
  { done. } { change (256 ^ Z.of_nat 8) with (2 ^ 64). lia. }
  rewrite bind_Ret. cbn [app]. rewrite land_bit7 by lia. pose proof (le_combine_bound w) as Hb.
  rewrite pow256 in Hb. assert (0 < 256 ^ Z.of_nat (length w)) by (apply Z.pow_pos_nonneg; lia).
  assert (forall b, 0 <= b < 256 -> byte.unsigned (byte.of_Z b) = b) as Eb.
  { intros b Hb'. rewrite byte.unsigned_of_Z. by apply Z.mod_small. }
  destruct (Z.ltb_spec a 128) as [H128|H128]; cbn [negb].
  - unfold put. rewrite (proj2 (Nat.ltb_lt _ _)) by lia. eexists. split; [done|].
    rewrite length_app. cbn [length]. rewrite le_combine_snoc, pow256.
    replace (Z.of_nat (length w + 1) - 1) with (Z.of_nat (length w)) by lia.
    rewrite pow256. replace (8 * Z.of_nat (length w + 1)) with (8 * Z.of_nat (length w) + 8) by lia.
    replace (8 * Z.of_nat (length w) + 8 - 1) with (8 * Z.of_nat (length w) + 7) by lia.
    rewrite !Z.pow_add_r, pow256 by lia. change (2 ^ 8) with 256. change (2 ^ 7) with 128.
    split; [lia|]. rewrite Eb.
    + destruct (n <? 0); [rewrite lor_bit7 by lia|rewrite Z.lor_0_r]; split; nia.
    + destruct (n <? 0); [rewrite lor_bit7 by lia|rewrite Z.lor_0_r]; lia.
  - assert (length w < 7)%nat as Hl7.
    { destruct (Nat.eq_dec (length w) 7%nat) as [E|]; [|lia]. rewrite E in *.
      change (256 ^ Z.of_nat 7) with (2 ^ 56) in *. nia. }
    unfold put. rewrite (proj2 (Nat.ltb_lt _ _)) by lia. rewrite bind_Ret.
    rewrite (proj2 (Nat.ltb_lt _ _)) by (rewrite length_app; cbn; lia).
    eexists. split; [done|]. rewrite !length_app. cbn [length].
    rewrite !le_combine_snoc, !length_app, pow256. cbn [length].
    replace (Z.of_nat (length w + 1 + 1) - 1) with (Z.of_nat (length w) + 1) by lia.
    replace (8 * Z.of_nat (length w + 1 + 1)) with (8 * Z.of_nat (length w) + 16) by lia.
    replace (8 * (Z.of_nat (length w) + 1)) with (8 * Z.of_nat (length w) + 8) by lia.
    replace (8 * Z.of_nat (length w + 1)) with (8 * Z.of_nat (length w) + 8) by lia.
    replace (8 * Z.of_nat (length w) + 16 - 1) with (8 * Z.of_nat (length w) + 15) by lia.
    rewrite !Z.pow_add_r, pow256 by lia.
    change (2 ^ 8) with 256. change (2 ^ 15) with (128 * 256). change (2 ^ 16) with 65536.
    rewrite !Eb by (destruct (n <? 0); lia). split; [lia|]. destruct (n <? 0); split; nia.
Qed.

Lemma scriptint_fold v : forall acc sh, 0 <= sh ->
  foldl (fun '(acc, sh) n => (acc + Z.shiftl (byte.unsigned n) sh, sh + 8)) (acc, sh) v =
  (acc + 2 ^ sh * le_combine v, sh + 8 * Z.of_nat (length v)).
Proof.
  induction v as [|b v IH]; intros acc sh Hs; cbn [foldl length].
  { change (le_combine []) with 0. f_equal; lia. }
  rewrite IH by lia. rewrite le_combine_cons, Z.shiftl_mul_pow2, Z.pow_add_r by lia.
  f_equal; lia.
Qed.

Section signed.
Context (w : list byte) (b : byte).
Let P := 2 ^ (8 * Z.of_nat (length w)).
Let m := le_combine w.

Lemma signed_bounds : 0 < P /\ 0 <= m < P /\ 0 <= byte.unsigned b < 256.
Proof.
  split_and!; [apply Z.pow_pos_nonneg; lia|apply le_combine_bound..|apply byte.unsigned_range|].
  apply byte.unsigned_range.
Qed.

Lemma scriptint_parse_snoc : scriptint_parse (w ++ [b]) =
  Ret (if byte.unsigned b <? 128 then m + P * byte.unsigned b
       else - (m + P * (byte.unsigned b - 128))).
Proof.
  pose proof signed_bounds as (HP & Hm & Hb).
  unfold scriptint_parse. rewrite scriptint_fold by lia. rewrite Z.add_0_l, Z.mul_1_l.
  rewrite le_combine_snoc, length_app. cbn [length].
  rewrite (index_lookup _ _ b), bind_Ret; [|lia|].
  2: { replace (Z.to_nat (Z.of_nat (length w + 1) - 1)) with (length w) by lia.
       by apply list_lookup_middle. }
  rewrite land_bit7 by lia. fold P m.
  destruct (Z.ltb_spec (byte.unsigned b) 128); cbn [negb]; [done|].
  rewrite Z.shiftl_1_l. replace (0 + 8 * Z.of_nat (length w + 1) - 1)
    with (8 * Z.of_nat (length w) + 7) by lia.
  rewrite Z.sub_1_r, <- Z.ones_equiv, Z.land_ones by lia. rewrite Z.pow_add_r by lia. fold P.
  do 2 f_equal. change (2 ^ 7) with 128.
  replace (m + P * byte.unsigned b) with (m + P * (byte.unsigned b - 128) + 1 * (P * 128)) by lia.
  rewrite Z_mod_plus_full. apply Z.mod_small. nia.
Qed.

(** The most significant bit decides between the two signs. *)
Lemma scriptint_of_snoc n : scriptint_of n (w ++ [b]) <->
  n = (if byte.unsigned b <? 128 then m + P * byte.unsigned b
       else - (m + P * (byte.unsigned b - 128))) /\ P <= 2 * Z.abs n.
Proof.
  pose proof signed_bounds as (HP & Hm & Hb).
  unfold scriptint_of. rewrite le_combine_snoc, length_app. cbn [length].
  replace (Z.of_nat (length w + 1) - 1) with (Z.of_nat (length w)) by lia.
  replace (8 * Z.of_nat (length w + 1)) with (8 * Z.of_nat (length w) + 8) by lia.
  replace (8 * Z.of_nat (length w) + 8 - 1) with (8 * Z.of_nat (length w) + 7) by lia.
  rewrite !Z.pow_add_r by lia. fold P m. change (2 ^ 8) with 256. change (2 ^ 7) with 128.
  destruct (Z.eqb_spec n 0) as [->|Hn].
  { split; [by destruct w|]. intros [_ ?]. lia. }
  destruct (Z.ltb_spec (byte.unsigned b) 128), (Z.ltb_spec n 0); split; intros H'; nia.
Qed.
End signed.

Lemma msb_half w b :
  (Z.land (byte.unsigned b) 0x80 =? 0) = false <->
  2 ^ (8 * Z.of_nat (length (w ++ [b]))) <= 2 * le_combine (w ++ [b]).
Proof.
  pose proof (signed_bounds w b) as (HP & Hm & Hb). rewrite land_bit7 by lia.
  rewrite le_combine_snoc, length_app. cbn [length].
  replace (8 * Z.of_nat (length w + 1)) with (8 * Z.of_nat (length w) + 8) by lia.
  rewrite Z.pow_add_r by lia. change (2 ^ 8) with 256.
  destruct (Z.ltb_spec (byte.unsigned b) 128); split; intros; try done; nia.
Qed.

Lemma land_low7 a : 0 <= a < 256 -> Z.land a 0x7f = a mod 128.
Proof. intros. change 0x7f with (Z.ones 7). by rewrite Z.land_ones by lia. Qed.

Lemma read_scriptint_spec v n :
  read_scriptint v = Val n <-> (length v <= 4)%nat /\ scriptint_of n v.
Proof.
  destruct v as [|b w _] using rev_ind.
  { unfold read_scriptint, scriptint_of. cbn. destruct (Z.eqb_spec n 0).
    - subst. naive_solver lia.
    - split; [congruence|]. lia. }
  unfold read_scriptint. rewrite last_snoc, scriptint_parse_snoc. cbn [of_run].
  pose proof (signed_bounds w b) as (HP & Hm & Hb). rewrite scriptint_of_snoc, land_low7 by lia.
  rewrite length_app. cbn [length]. destruct (Nat.ltb_spec 4 (length w + 1)).
  { split; [done|]. lia. }
  set (n0 := if byte.unsigned b <? 128 then _ else _).
  assert (2 ^ (8 * Z.of_nat (length w)) <= 2 * Z.abs n0 <->
          byte.unsigned b mod 128 <> 0 \/
          2 ^ (8 * Z.of_nat (length w)) <= 2 * le_combine w) as Hmin.
  { assert (byte.unsigned b mod 128 =
            if byte.unsigned b <? 128 then byte.unsigned b else byte.unsigned b - 128) as E.
    { destruct (Z.ltb_spec (byte.unsigned b) 128); [apply Z.mod_small; lia|].
      symmetry. apply (Z.mod_unique _ _ 1); lia. }
    rewrite E. unfold n0. destruct (Z.ltb_spec (byte.unsigned b) 128); split; intros; nia. }
  assert (forall r : comp ScriptError Z, (r = Val n0 \/ exists e, r = Throw e) ->
    (r = Val n0 <-> 2 ^ (8 * Z.of_nat (length w)) <= 2 * Z.abs n0) ->
    (r = Val n <-> (length w + 1 <= 4)%nat /\ n = n0 /\ 2 ^ (8 * Z.of_nat (length w)) <= 2 * Z.abs n))
    as close.
  { intros r [->|[e ->]] Hr; split; [intros [= ->]; naive_solver lia|naive_solver|done|].
    intros (_ & -> & ?%Hr). done. }
  apply close; clear close; rewrite ?Hmin;
    (destruct (Z.eqb_spec (byte.unsigned b mod 128) 0) as [Hz|Hz]; [|naive_solver]);
    (destruct w as [|c w _] using rev_ind;
     [change (le_combine []) with 0; cbn; naive_solver lia|]);
    (rewrite (proj2 (Nat.leb_gt _ 1)) by (rewrite length_app; cbn; lia));
    (rewrite (index_lookup _ _ c);
     [|rewrite ?length_app; cbn; lia
      |replace (Z.to_nat _) with (length w) by (rewrite ?length_app; cbn; lia);
           rewrite <- (assoc_L (++)); by apply list_lookup_middle]);
    cbn [of_run]; rewrite bind_Val; pose proof (msb_half w c);
    destruct (Z.land (byte.unsigned c) 0x80 =? 0); naive_solver.
Qed.

Lemma read_scriptint_total v : read_scriptint v <> Crash.
Proof.
  destruct v as [|b w _] using rev_ind; [done|].
  unfold read_scriptint. rewrite last_snoc, scriptint_parse_snoc. cbn [of_run].
  destruct (4 <? length (w ++ [b]))%nat; [done|].
  destruct (Z.land (byte.unsigned b) 0x7f =? 0); [|done].
  destruct (Nat.leb_spec (length (w ++ [b])) 1) as [|Hl]; [done|].
  rewrite length_app in *. cbn [length] in *.
  destruct (lookup_lt_is_Some_2 (w ++ [b]) (length w - 1)) as [c Hc]; [rewrite length_app; cbn; lia|].
  rewrite (index_lookup _ _ c); [|lia|by replace (Z.to_nat _) with (length w - 1)%nat by lia].
  cbn [of_run]. rewrite bind_Val. by destruct (_ =? 0).
Qed.

(** The first instruction of a script, read minimally. *)
Lemma first_minimal_push s v :
  (exists st, next (instructions_minimal s) = Ret (Some (Ok (PushBytes v)), st)) <->
  instruction_minimal (PushBytes v) /\ exists rest, s = instruction_bytes (PushBytes v) ++ rest.
Proof.
  split.
  - intros [st H]. destruct (next_ok s true) as (r & st' & E & Hok).
    unfold instructions_minimal in H. rewrite E in H. injection H as -> ->.
    destruct Hok as (_ & _ & Hm). destruct (Hm eq_refl) as [? ->]. eauto.
  - intros [[Hw Hm] [rest ->]]. eexists. apply next_push; [exact Hw|]. by intros _.
Qed.

(** ** Templates *)

Lemma byte_is_spec s i op : 0 <= op < 256 ->
  byte_is s i op = true <-> s !! i = Some (byte.of_Z op).
Proof.
  intros Hop. assert (byte.unsigned (byte.of_Z op) = op) as E.
  { rewrite byte.unsigned_of_Z. by apply Z.mod_small. }
  unfold byte_is. destruct (s !! i) as [b|]; [|done]. rewrite Z.eqb_eq. split.
  - intros <-. by rewrite byte.of_Z_unsigned.
  - by intros [= ->].
Qed.

Lemma push_20 s h : length h = 20%nat -> push_slice s h = Ret (s ++ byte.of_Z 0x14 :: h).
Proof. intros E. unfold push_slice, push_slice_no_opt. by rewrite E. Qed.

Lemma new_p2pkh_spec h : length h = 20%nat ->
  new_p2pkh h = Ret (map byte.of_Z [OP_DUP; OP_HASH160; OP_PUSHBYTES_20] ++ h ++
                     map byte.of_Z [OP_EQUALVERIFY; OP_CHECKSIG]).
Proof.
  intros E. unfold new_p2pkh, Build.push_slice. cbn [Build.push_opcode script].
  rewrite push_20, !bind_Ret by done. unfold push_opcode. cbn. f_equal.
  by rewrite <- (assoc_L (++)).
Qed.

Lemma new_p2sh_spec h : length h = 20%nat ->
  new_p2sh h = Ret (map byte.of_Z [OP_HASH160; OP_PUSHBYTES_20] ++ h ++ [byte.of_Z OP_EQUAL]).
Proof.
  intros E. unfold new_p2sh, Build.push_slice. cbn [Build.push_opcode script].
  rewrite push_20, !bind_Ret by done. done.
Qed.

Lemma is_p2pkh_spec s : is_p2pkh s = true <->
  exists h, length h = 20%nat /\ new_p2pkh h = Ret s.
Proof.
  unfold is_p2pkh. rewrite !andb_true_iff, !byte_is_spec, Nat.eqb_eq by done. split.
  - intros (((((Hl & H0) & H1) & H2) & H3) & H4). exists (take 20 (drop 3 s)).
    rewrite length_take, length_drop, Hl. split; [done|].
    rewrite new_p2pkh_spec by (rewrite length_take, length_drop, Hl; done). f_equal.
    do 25 (destruct s as [|? s]; [done|]). destruct s; [|done]. cbn in *. by simplify_eq.
  - intros (h & Hl & E). rewrite new_p2pkh_spec in E by done. injection E as <-.
    do 20 (destruct h as [|? h]; [done|]). destruct h; [|done]. done.
Qed.

Lemma is_p2sh_spec s : is_p2sh s = true <->
  exists h, length h = 20%nat /\ new_p2sh h = Ret s.
Proof.
  unfold is_p2sh. rewrite !andb_true_iff, !byte_is_spec, Nat.eqb_eq by done. split.
  - intros (((Hl & H0) & H1) & H2). exists (take 20 (drop 2 s)).
    rewrite length_take, length_drop, Hl. split; [done|].
    rewrite new_p2sh_spec by (rewrite length_take, length_drop, Hl; done). f_equal.
    do 23 (destruct s as [|? s]; [done|]). destruct s; [|done]. cbn in *. by simplify_eq.
  - intros (h & Hl & E). rewrite new_p2sh_spec in E by done. injection E as <-.
    do 20 (destruct h as [|? h]; [done|]). destruct h; [|done]. done.
Qed.

Lemma read_scriptint_write v n :
  read_scriptint v = Val n <->
  (length v <= 4)%nat /\ Z.abs n < 2 ^ 63 /\ write_scriptint n = Ret v.
Proof.
  pose proof (write_scriptint_spec n) as Hw. rewrite read_scriptint_spec. split.
  - intros [Hl H]. assert (Z.abs n < 2 ^ 63) as Hn.
    { unfold scriptint_of in H. destruct (Z.eqb_spec n 0); [lia|]. destruct H as (? & ? & ?).
      assert (2 ^ (8 * Z.of_nat (length v)) <= 2 ^ 32) by (apply Z.pow_le_mono_r; lia). lia. }
    destruct (Hw Hn) as (w & -> & H'). assert (v = w) as <- by (by eapply scriptint_of_unique). done.
  - intros (Hl & Hn & H). split; [done|]. destruct (Hw Hn) as (w & E & H').
    rewrite H in E. by injection E as ->.
Qed.

(** ** Main results *)

(** C40: script building and parsing are inverse.  Iterating never panics and an error is
    always the last item.  The minimal iterator yields exactly the instructions [il] if and
    only if they are minimal and pushing them one by one builds the script; any writable
    instructions, minimal or not, come back through the permissive iterator. *)
Theorem script_instructions_exact (s : list byte) (il : list Instruction) :
  (forall m, exists items, collect (mkInstructions s m) = Ret items /\
     forall i e, items !! i = Some (Err e) -> S i = length items) /\
  (collect (instructions_minimal s) = Ret (map Ok il) <->
   Forall instruction_minimal il /\ from_iter il = Ret s) /\
  (Forall instruction_wf il -> exists s', from_iter il = Ret s' /\
     collect (instructions s') = Ret (map Ok il)).
Proof.
  split_and!.
  - intros m. destruct (collect_ok m (length s) s) as (items & H1 & H2 & _); [done|]. eauto.
  - unfold instructions_minimal. split.
    + intros H. destruct (collect_ok true (length s) s) as (items & H1 & _ & H3); [done|].
      unfold collect in H. cbn [data] in H. rewrite H1 in H. injection H as ->.
      destruct (H3 il eq_refl eq_refl) as [Hm ->]. split; [done|]. apply from_iter_spec.
      eapply Forall_impl; [|exact Hm]. by intros ? [].
    + intros [Hm E]. rewrite from_iter_spec in E; [injection E as <-|].
      2: eapply Forall_impl; [|exact Hm]; by intros ? [].
      apply collect_built; [done|]. eapply Forall_impl; [|exact Hm].
      intros i Hi. split; [apply Hi|done].
  - intros H. eexists. split; [by apply from_iter_spec|].
    apply collect_built; [done|]. eapply Forall_impl; [|exact H]. done.
Qed.

(** The number format of scripts.  Below [2^63] in magnitude every number is written
    without panicking; [i64::MIN] panics.  Reading accepts exactly the strings of at most
    four bytes that writing produces, and gives the number back. *)
Lemma scriptint_canonical (v : list byte) (n : Z) :
  write_scriptint (- 2 ^ 63) = Panic /\
  (Z.abs n < 2 ^ 63 -> exists w, write_scriptint n = Ret w) /\
  (read_scriptint v = Val n <->
   (length v <= 4)%nat /\ Z.abs n < 2 ^ 63 /\ write_scriptint n = Ret v).
Proof.
  split_and!; [vm_compute; reflexivity| |apply read_scriptint_write].
  intros H. destruct (write_scriptint_spec n H) as (w & -> & _). eauto.
Qed.
