(* ===== verification/ScriptKinds.v ===== *)
(** * Witness programs and standard scripts

    Witness versions and programs ([script/witness_version.rs], [script/witness_program.rs]), the script
    constructors and recognisers built on them ([script/owned.rs], [script/borrowed.rs]), bare multisig
    recognition and the dust threshold. *)

From Stdlib Require Import ZArith Lia.
From coqutil Require Import Byte Word.LittleEndianList.
From stdpp Require Import base tactics option list numbers.
From S2P Require Import Prelude Io Encode HashEngine Sha256 Taproot Script.

#[local] Open Scope Z_scope.

(** ** Witness versions *)

Inductive WitnessVersion :=
| V0 | V1 | V2 | V3 | V4 | V5 | V6 | V7 | V8 | V9 | V10 | V11 | V12 | V13 | V14 | V15 | V16.
#[export] Instance WitnessVersion_eq_dec : EqDecision WitnessVersion.
Proof. solve_decision. Defined.

Definition to_num (self : WitnessVersion) : Z :=
  match self with
  | V0 => 0 | V1 => 1 | V2 => 2 | V3 => 3 | V4 => 4 | V5 => 5 | V6 => 6 | V7 => 7 | V8 => 8
  | V9 => 9 | V10 => 10 | V11 => 11 | V12 => 12 | V13 => 13 | V14 => 14 | V15 => 15 | V16 => 16
  end.

(** [TryFromError { invalid }] carries the number. *)
Definition version_from_u8 (no : Z) : Result Z WitnessVersion :=
  match no with
  | 0 => Ok V0 | 1 => Ok V1 | 2 => Ok V2 | 3 => Ok V3 | 4 => Ok V4 | 5 => Ok V5 | 6 => Ok V6
  | 7 => Ok V7 | 8 => Ok V8 | 9 => Ok V9 | 10 => Ok V10 | 11 => Ok V11 | 12 => Ok V12
  | 13 => Ok V13 | 14 => Ok V14 | 15 => Ok V15 | 16 => Ok V16
  | invalid => Err invalid
  end.

Definition version_from_opcode (opcode : Z) : Result Z WitnessVersion :=
  if opcode =? 0 then Ok V0
  else if (OP_PUSHNUM_1 <=? opcode) && (opcode <=? OP_PUSHNUM_16)
  then version_from_u8 (opcode - OP_PUSHNUM_1 + 1)
  else Err opcode.

Inductive TryFromInstructionError := TryFrom (invalid : Z) | DataPush.
Definition version_from_instruction (instruction : Instruction) :
    Result TryFromInstructionError WitnessVersion :=
  match instruction with
  | Op op => map_err TryFrom (version_from_opcode op)
  | PushBytes [] => Ok V0
  | PushBytes _ => Err DataPush
  end.

Definition opcode_from_version (version : WitnessVersion) : Z :=
  match version with V0 => 0 | no => OP_PUSHNUM_1 + to_num no - 1 end.

(** ** Witness programs *)

Definition MIN_SIZE : nat := 2.
Definition MAX_SIZE : nat := 40.
Definition P2A_PROGRAM : list byte := map byte.of_Z [78; 115].

Record WitnessProgram := mkProgram { pversion : WitnessVersion; program : list byte }.

Inductive WitnessProgramError := InvalidLength (n : nat) | InvalidSegwitV0Length (n : nat).

Definition witness_program_new (version : WitnessVersion) (bytes : list byte) :
    Result WitnessProgramError WitnessProgram :=
  let program_len := length bytes in
  if (program_len <? MIN_SIZE)%nat || (MAX_SIZE <? program_len)%nat then Err (InvalidLength program_len)
  else if bool_decide (version = V0) && (negb (program_len =? 20)%nat && negb (program_len =? 32)%nat)
  then Err (InvalidSegwitV0Length program_len)
  else Ok (mkProgram version bytes).

Definition program_is_p2wpkh (self : WitnessProgram) : bool :=
  bool_decide (pversion self = V0) && (length (program self) =? 20)%nat.
Definition program_is_p2wsh (self : WitnessProgram) : bool :=
  bool_decide (pversion self = V0) && (length (program self) =? 32)%nat.
Definition program_is_p2tr (self : WitnessProgram) : bool :=
  bool_decide (pversion self = V1) && (length (program self) =? 32)%nat.
Definition program_is_p2a (self : WitnessProgram) : bool :=
  bool_decide (pversion self = V1) && bool_decide (program self = P2A_PROGRAM).

(** ** Building *)

Definition new_witness_program (witness_program : WitnessProgram) : run (list byte) :=
  b ← Build.push_slice (Build.push_opcode Build.new (opcode_from_version (pversion witness_program)))
        (program witness_program);
  Ret (Build.into_script b).

Definition new_witness_program_unchecked {bm : BuildMode} (version : WitnessVersion)
    (program : list byte) : run (list byte) :=
  _ ← debug_assert ((2 <=? length program)%nat && (length program <=? 40)%nat);
  _ ← debug_assert (negb (bool_decide (version = V0)) || (length program =? 20)%nat
                    || (length program =? 32)%nat);
  b ← Build.push_slice (Build.push_opcode Build.new (opcode_from_version version)) program;
  Ret (Build.into_script b).

Definition new_p2wpkh {bm : BuildMode} (pubkey_hash : list byte) : run (list byte) :=
  new_witness_program_unchecked V0 pubkey_hash.
Definition new_p2wsh {bm : BuildMode} (script_hash : list byte) : run (list byte) :=
  new_witness_program_unchecked V0 script_hash.
Definition new_p2a {bm : BuildMode} : run (list byte) := new_witness_program_unchecked V1 P2A_PROGRAM.
Definition new_p2tr_tweaked {bm : BuildMode} {S : Secp256k1} (output_key : XOnlyPublicKey) :
    run (list byte) :=
  new_witness_program_unchecked V1 (key_serialize output_key).
Definition new_p2tr {bm : BuildMode} {S : Secp256k1} (internal_key : XOnlyPublicKey)
    (merkle_root : option (list byte)) : run (list byte) :=
  '(output_key, _) ← tap_tweak internal_key merkle_root;
  new_witness_program_unchecked V1 (key_serialize output_key).

(** [ScriptBuf::p2wpkh_script_code] *)
Definition wpkh_script_code (wpkh : list byte) : run (list byte) :=
  let b := Build.push_opcode (Build.push_opcode Build.new OP_DUP) OP_HASH160 in
  b ← Build.push_slice b wpkh;
  Ret (Build.into_script (Build.push_opcode (Build.push_opcode b OP_EQUALVERIFY) OP_CHECKSIG)).

Definition wscript_hash (self : list byte) : list byte := hash self.
Definition to_p2wsh {bm : BuildMode} (self : list byte) : run (list byte) := new_p2wsh (wscript_hash self).
Definition tapscript_leaf_hash (self : list byte) : list byte := leaf_hash_from_script self Taproot.TapScript.
Definition to_p2tr {bm : BuildMode} {S : Secp256k1} (self : list byte) (internal_key : XOnlyPublicKey) :
    run (list byte) :=
  new_p2tr internal_key (Some (tapscript_leaf_hash self)).

(** ** Recognising *)

Definition witness_version (self : list byte) : run (option WitnessVersion) :=
  let script_len := length self in
  if negb ((4 <=? script_len)%nat && (script_len <=? 42)%nat) then Ret None
  else
    ver_opcode ← index self 0;
    push_opbyte ← index self 1;
    if (byte.unsigned push_opbyte <? OP_PUSHBYTES_2) || (OP_PUSHBYTES_40 <? byte.unsigned push_opbyte)
    then Ret None
    else if negb (Z.of_nat script_len - 2 =? byte.unsigned push_opbyte) then Ret None
    else Ret match version_from_opcode (byte.unsigned ver_opcode) with Ok v => Some v | Err _ => None end.

Definition is_witness_program (self : list byte) : run bool :=
  v ← witness_version self; Ret (bool_decide (is_Some v)).

(** [len == n && witness_version() == Some(v) && self.0[1] == op] *)
Definition is_program (self : list byte) (n : nat) (v : WitnessVersion) (op : Z) : run bool :=
  if negb (length self =? n)%nat then Ret false
  else
    w ← witness_version self;
    if negb (bool_decide (w = Some v)) then Ret false
    else b ← index self 1; Ret (byte.unsigned b =? op).
Definition is_p2wsh (self : list byte) : run bool := is_program self 34 V0 OP_PUSHBYTES_32.
Definition is_p2wpkh (self : list byte) : run bool := is_program self 22 V0 OP_PUSHBYTES_20.
Definition is_p2tr (self : list byte) : run bool := is_program self 34 V1 OP_PUSHBYTES_32.

(** [Script::p2wpkh_script_code]; [WPubkeyHash::from_slice] needs 20 bytes. *)
Definition p2wpkh_script_code (self : list byte) : run (option (list byte)) :=
  w ← is_p2wpkh self;
  if negb w then Ret None
  else
    let bytes := drop 2 self in
    _ ← assert_ (length bytes =? 20)%nat;
    s ← wpkh_script_code bytes; Ret (Some s).

(** ** Bare multisig *)

(** The counting loop of [is_multisig]: [None] is [return false]; otherwise the items left
    and the number of pushes, a [u8]. *)
Fixpoint multisig_loop {bm : BuildMode} (items : list (Result ScriptError Instruction))
    (num_pubkeys : Z) : run (option (list (Result ScriptError Instruction) * Z)) :=
  match items with
  | [] => Ret (Some ([], num_pubkeys))
  | Err _ :: items => Ret (Some (items, num_pubkeys))
  | Ok (PushBytes _) :: items => n ← arith_u 8 (num_pubkeys + 1); multisig_loop items n
  | Ok (Op op) :: items =>
      match decode_pushnum op with
      | Some pushnum => if negb (pushnum =? num_pubkeys) then Ret None
                        else Ret (Some (items, num_pubkeys))
      | None => Ret (Some (items, num_pubkeys))
      end
  end.

Definition is_multisig {bm : BuildMode} (self : list byte) : run bool :=
  items ← collect (instructions self);
  match items with
  | Ok (Op op) :: items =>
      match decode_pushnum op with
      | None => Ret false
      | Some required_sigs =>
          r ← multisig_loop items 0;
          match r with
          | None => Ret false
          | Some (items, num_pubkeys) =>
              if num_pubkeys <? required_sigs then Ret false
              else match items with
                   | Ok (Op op) :: items =>
                       if negb (op =? OP_CHECKMULTISIG) then Ret false
                       else Ret match items with [] => true | _ => false end
                   | _ => Ret false
                   end
          end
      end
  | _ => Ret false
  end.

(** ** Dust *)

Definition DUST_RELAY_TX_FEE : Z := 3000.

Definition minimal_non_dust_inner (self : list byte) (dust_relay_fee : Z) : run Z :=
  w ← is_witness_program self;
  let size := snd (consensus_encode byte_vec self) in
  let factor := if is_op_return self then 0
                else match w with
                     | true => 32 + 4 + 1 + (107 / 4) + 4 + 8 + size
                     | false => 32 + 4 + 1 + 107 + 4 + 8 + size
                     end in
  let product := dust_relay_fee * factor in
  if in_ub 64 product then Ret (product / 1000) else Panic.
Definition minimal_non_dust (self : list byte) : run Z := minimal_non_dust_inner self DUST_RELAY_TX_FEE.
Definition minimal_non_dust_custom {bm : BuildMode} (self : list byte) (dust_relay_fee : Z) : run Z :=
  fee ← arith_u 64 (dust_relay_fee * 4); minimal_non_dust_inner self fee.

(** ** Witness versions *)

Lemma version_from_u8_ok z v : version_from_u8 z = Ok v <-> z = to_num v.
Proof.
  split; [|intros ->; by destruct v].
  unfold version_from_u8. repeat case_match; intros; simplify_eq; done.
Qed.

Lemma version_opcode z v : version_from_opcode z = Ok v <-> z = opcode_from_version v.
Proof.
  unfold version_from_opcode, OP_PUSHNUM_1, OP_PUSHNUM_16. split.
  - destruct (Z.eqb_spec z 0) as [->|Hz]; [by intros [= <-]|].
    destruct (Z.leb_spec 0x51 z), (Z.leb_spec z 0x60); cbn [andb]; try done.
    intros E%version_from_u8_ok. unfold opcode_from_version.
    destruct v; simpl in *; unfold OP_PUSHNUM_1; lia.
  - intros ->. by destruct v.
Qed.

Lemma opcode_range v : 0 <= opcode_from_version v < 256.
Proof. destruct v; simpl; unfold OP_PUSHNUM_1; lia. Qed.

(** ** Witness scripts *)

(** The script of a witness program. *)
Definition program_script (v : WitnessVersion) (prog : list byte) : list byte :=
  byte.of_Z (opcode_from_version v) :: byte.of_Z (Z.of_nat (length prog)) :: prog.

Lemma push_small s d : (length d < 76)%nat ->
  push_slice s d = Ret (s ++ byte.of_Z (Z.of_nat (length d)) :: d).
Proof.
  intros E. unfold push_slice, push_slice_no_opt, OP_PUSHDATA1.
  by rewrite (proj2 (Z.ltb_lt _ _)) by lia.
Qed.

Lemma build_program v prog : (length prog <= 40)%nat ->
  (b ← Build.push_slice (Build.push_opcode Build.new (opcode_from_version v)) prog;
   Ret (Build.into_script b)) = Ret (program_script v prog).
Proof.
  intros Hl. unfold Build.push_slice. cbn [Build.push_opcode script].
  rewrite push_small by lia. rewrite !bind_Ret. done.
Qed.

Lemma witness_version_iff s : exists o, witness_version s = Ret o /\
  forall v, o = Some v <-> exists prog, (2 <= length prog <= 40)%nat /\ s = program_script v prog.
Proof.
  unfold witness_version.
  destruct (negb _) eqn:El.
  { exists None. split; [done|]. split; [done|]. intros (prog & Hl & ->).
    unfold program_script in El. cbn [length] in El.
    apply negb_true_iff, andb_false_iff in El as [El|El]; apply Nat.leb_gt in El; lia. }
  apply negb_false_iff, andb_true_iff in El as [E1 E2]. apply Nat.leb_le in E1, E2.
  destruct s as [|b0 [|b1 prog]]; [simpl in *; lia..|]. simpl length in *.
  change (index (b0 :: b1 :: prog) 0) with (Ret b0).
  change (index (b0 :: b1 :: prog) 1) with (Ret b1). rewrite !bind_Ret.
  unfold OP_PUSHBYTES_2, OP_PUSHBYTES_40.
  assert (forall v, b0 :: b1 :: prog = program_script v prog <->
    byte.unsigned b0 = opcode_from_version v /\ byte.unsigned b1 = Z.of_nat (length prog)) as Hs.
  { intros v. pose proof (opcode_range v). unfold program_script. split.
    - intros [= E0 E1']. rewrite E0, E1', !byte_unsigned_of_Z by lia. done.
    - intros [E0 E1']. by rewrite <- E0, <- E1', !byte.of_Z_unsigned. }
  assert (forall v, (exists prog', (2 <= length prog' <= 40)%nat /\ b0 :: b1 :: prog = program_script v prog') <->
    byte.unsigned b0 = opcode_from_version v /\ byte.unsigned b1 = Z.of_nat (length prog)) as Hs'.
  { intros v. rewrite <- Hs. split; [|intros E; exists prog; split; [lia|done]].
    intros (prog' & _ & E). assert (prog' = prog) as -> by (by injection E). done. }
  setoid_rewrite Hs'.
  destruct (Z.ltb_spec (byte.unsigned b1) 2); [eexists; split; [done|]; split; [done|lia]|].
  destruct (Z.ltb_spec 40 (byte.unsigned b1)); [eexists; split; [done|]; split; [done|lia]|].
  cbn [orb]. destruct (Z.eqb_spec (Z.of_nat (S (S (length prog))) - 2) (byte.unsigned b1)) as [E|E];
    cbn [negb]; [|eexists; split; [done|]; split; [done|lia]].
  eexists. split; [done|]. intros v. rewrite <- version_opcode.
  destruct (version_from_opcode _); split; try done; [by intros [= ->]; split; [|lia]|by intros [[= ->] _]|].
  by intros [? _].
Qed.

Lemma witness_version_program v prog : (2 <= length prog <= 40)%nat ->
  witness_version (program_script v prog) = Ret (Some v).
Proof.
  intros Hl. destruct (witness_version_iff (program_script v prog)) as (o & -> & Ho).
  f_equal. apply Ho. eauto.
Qed.

(** A recogniser accepts exactly the script of a program of its version and size. *)
Lemma is_program_iff s n v op : (2 <= n <= 40)%nat -> op = Z.of_nat n ->
  exists b, is_program s (n + 2) v op = Ret b /\
    (b = true <-> exists prog, length prog = n /\ s = program_script v prog).
Proof.
  intros Hn ->. unfold is_program. destruct (Nat.eqb_spec (length s) (n + 2)) as [El|El]; cbn [negb].
  2: { exists false. split; [done|]. split; [done|]. intros (prog & Hp & ->). simpl in El. lia. }
  destruct (witness_version_iff s) as (o & -> & Ho). rewrite bind_Ret.
  case_bool_decide as E; cbn [negb].
  - apply Ho in E as (prog & Hp & ->). simpl in El. unfold program_script.
    change (index (?a :: ?b :: prog) 1) with (Ret b). rewrite bind_Ret.
    exists true. rewrite byte_unsigned_of_Z by lia. split; [f_equal; apply Z.eqb_eq; lia|].
    split; [intros _; exists prog; split; [lia|done]|done].
  - exists false. split; [done|]. split; [done|]. intros (prog & Hp & ->). destruct E.
    apply Ho. exists prog. split; [lia|done].
Qed.

Lemma unchecked_program {bm : BuildMode} v prog : (2 <= length prog <= 40)%nat ->
  (v = V0 -> length prog = 20%nat \/ length prog = 32%nat) ->
  new_witness_program_unchecked v prog = Ret (program_script v prog).
Proof.
  intros Hl Hv. unfold new_witness_program_unchecked, debug_assert.
  rewrite (proj2 (Nat.leb_le 2 _)), (proj2 (Nat.leb_le _ 40)) by lia.
  cbn [andb negb]. rewrite andb_false_r, bind_Ret.
  assert (negb (bool_decide (v = V0)) || (length prog =? 20)%nat || (length prog =? 32)%nat = true) as ->.
  { case_bool_decide as E; [|done]. destruct (Hv E) as [->| ->]; done. }
  cbn [negb]. rewrite andb_false_r, bind_Ret. apply build_program. lia.
Qed.

(** Witness program scripts.  [WitnessProgram::new] accepts exactly the programs BIP-141
    allows; building their scripts does not panic, and [witness_version] recognises exactly
    scripts of this form, of any version and size 2 to 40.  [is_p2wpkh], [is_p2wsh] and
    [is_p2tr] do not panic and accept exactly what the constructors build, and the script code of
    a P2WPKH output is the P2PKH script of its key hash. *)
Lemma witness_program_scripts_exact {bm : BuildMode} (s : list byte) (v : WitnessVersion)
    (prog : list byte) :
  ((exists p, witness_program_new v prog = Ok p) <->
     (2 <= length prog <= 40)%nat /\ (v = V0 -> length prog = 20%nat \/ length prog = 32%nat)) /\
  (forall p, witness_program_new v prog = Ok p ->
     new_witness_program p = Ret (program_script v prog) /\
     new_witness_program_unchecked v prog = Ret (program_script v prog)) /\
  (exists o, witness_version s = Ret o /\ (o = Some v <->
     exists prog, (2 <= length prog <= 40)%nat /\ s = program_script v prog)) /\
  (exists b, is_p2wpkh s = Ret b /\ (b = true <-> exists h, length h = 20%nat /\ new_p2wpkh h = Ret s)) /\
  (exists b, is_p2wsh s = Ret b /\ (b = true <-> exists h, length h = 32%nat /\ new_p2wsh h = Ret s)) /\
  (exists b, is_p2tr s = Ret b /\ (b = true <->
     exists k, length k = 32%nat /\ new_witness_program_unchecked V1 k = Ret s)) /\
  (forall h, length h = 20%nat -> new_p2wpkh h = Ret s ->
     p2wpkh_script_code s = Some <$> new_p2pkh h).
Proof.
  assert ((exists p, witness_program_new v prog = Ok p) <->
     (2 <= length prog <= 40)%nat /\ (v = V0 -> length prog = 20%nat \/ length prog = 32%nat)) as Hnew.
  { unfold witness_program_new, MIN_SIZE, MAX_SIZE.
    destruct (Nat.ltb_spec (length prog) 2), (Nat.ltb_spec 40 (length prog)); cbn [orb];
      try (split; [by intros [p Hp]|intros [? _]; lia]).
    case_bool_decide as E; cbn [andb]; [|split; [intros _; split; [lia|done]|eauto]].
    destruct (Nat.eqb_spec (length prog) 20); cbn [andb negb];
      [split; [intros _; split; [lia|auto]|eauto]|].
    destruct (Nat.eqb_spec (length prog) 32); cbn [andb negb];
      [split; [intros _; split; [lia|auto]|eauto]|].
    split; [by intros [p Hp]|]. intros [_ Hv]. destruct (Hv E); lia. }
  split; [done|]. split.
  { intros p Hp. destruct (proj1 Hnew (ex_intro _ p Hp)) as [Hl Hv].
    assert (p = mkProgram v prog) as ->.
    { unfold witness_program_new in Hp. repeat case_match; by simplify_eq. }
    split; [by apply build_program; lia|by apply unchecked_program]. }
  split; [destruct (witness_version_iff s) as (o & ? & ?); eauto|].
  assert (forall n v op, (2 <= n <= 40)%nat -> op = Z.of_nat n -> (v = V0 -> n = 20%nat \/ n = 32%nat) ->
    exists b, is_program s (n + 2) v op = Ret b /\
      (b = true <-> exists h, length h = n /\ new_witness_program_unchecked v h = Ret s)) as Hk.
  { intros n w op Hn Ho Hw. destruct (is_program_iff s n w op Hn Ho) as (b & Eb & Hb).
    exists b. split; [done|]. rewrite Hb.
    split; intros (h & Hh & E); exists h; (split; [done|]); rewrite unchecked_program in * by (lia || (rewrite Hh; auto));
      [by f_equal|by injection E]. }
  split; [apply (Hk 20%nat V0); auto; lia|]. split; [apply (Hk 32%nat V0); auto; lia|].
  split; [apply (Hk 32%nat V1); [lia|done|done]|].
  intros h Hh E. unfold new_p2wpkh in E. rewrite unchecked_program in E by (rewrite ?Hh; auto; lia).
  injection E as <-. unfold p2wpkh_script_code.
  destruct (is_program_iff (program_script V0 h) 20 V0 20 ltac:(lia) eq_refl) as (b & Eb & Hb).
  unfold is_p2wpkh, OP_PUSHBYTES_20. change 22%nat with (20 + 2)%nat. rewrite Eb, bind_Ret.
  rewrite (proj2 Hb) by eauto. cbn [negb]. cbv zeta.
  change (drop 2 (program_script V0 h)) with h. rewrite Hh. cbn [Nat.eqb assert_].
  rewrite bind_Ret. change (wpkh_script_code h) with (new_p2pkh h).
  by rewrite new_p2pkh_spec by done.
Qed.

(** ** Bare multisig *)

Fixpoint leading_pushes (items : list (Result ScriptError Instruction)) : nat :=
  match items with Ok (PushBytes _) :: items => S (leading_pushes items) | _ => 0 end.

(** What [is_multisig] accepts: a number, pushes, one opcode that is not a different number,
    and [OP_CHECKMULTISIG] at the end. *)
Definition multisig_shape (items : list (Result ScriptError Instruction)) : Prop :=
  exists m x pushes,
    items = Ok (Op m) :: map (fun d => Ok (PushBytes d)) pushes ++ [Ok (Op x); Ok (Op OP_CHECKMULTISIG)] /\
    (exists required, decode_pushnum m = Some required /\ required <= Z.of_nat (length pushes)) /\
    (forall n, decode_pushnum x = Some n -> n = Z.of_nat (length pushes)).

Lemma leading_split items : exists pushes rest,
  items = map (fun d => Ok (PushBytes d)) pushes ++ rest /\ leading_pushes items = length pushes /\
  match rest with Ok (PushBytes _) :: _ => False | _ => True end.
Proof.
  induction items as [|[[d|op]|e] items IH].
  - by exists [], [].
  - destruct IH as (pushes & rest & -> & E & H). exists (d :: pushes), rest. simpl. by rewrite E.
  - by exists [], (Ok (Op op) :: items).
  - by exists [], (Err e :: items).
Qed.

Lemma multisig_loop_pushes {bm : BuildMode} pushes rest : forall n, 0 <= n ->
  n + Z.of_nat (length pushes) < 256 ->
  multisig_loop (map (fun d => Ok (PushBytes d)) pushes ++ rest) n =
  multisig_loop rest (n + Z.of_nat (length pushes)).
Proof.
  induction pushes as [|d pushes IH]; intros n Hn Hl; cbn [map app length] in *.
  - by rewrite Z.add_0_r.
  - cbn [multisig_loop]. rewrite arith_u_small by (unfold in_u; lia). rewrite bind_Ret, IH by lia.
    f_equal. lia.
Qed.

Lemma pushes_inj pushes rest pushes' x rest' :
  map (fun d => @Ok ScriptError _ (PushBytes d)) pushes ++ rest =
  map (fun d => Ok (PushBytes d)) pushes' ++ Ok (Op x) :: rest' ->
  match rest with Ok (PushBytes _) :: _ => False | _ => True end ->
  pushes = pushes' /\ rest = Ok (Op x) :: rest'.
Proof.
  revert pushes'. induction pushes as [|d pushes IH]; intros [|d' pushes'] E H; simpl in *.
  - done.
  - by subst rest.
  - done.
  - injection E as -> E. by destruct (IH _ E H) as [-> ->].
Qed.

(** Bare multisig.  With at most 255 pushes after its first opcode, [is_multisig] does not
    panic and accepts exactly the scripts whose instructions are a number, pushes, one more
    opcode and [OP_CHECKMULTISIG], with at least as many pushes as the number.  The opcode
    is only compared with the number of pushes when it is a number itself, so
    [1 <key> OP_NOP OP_CHECKMULTISIG] counts as multisig. *)
Lemma is_multisig_exact {bm : BuildMode} (s : list byte) :
  (exists items, collect (instructions s) = Ret items /\
     ((leading_pushes (tail items) < 256)%nat ->
      exists b, is_multisig s = Ret b /\ (b = true <-> multisig_shape items))) /\
  is_multisig (map byte.of_Z [0x51; 0x01; 0x02; 0x61; 0xae]) = Ret true.
Proof.
  split; [|by destruct bm].
  destruct (collect_ok false (length s) s) as (items & E & Herr & _); [done|].
  exists items. split; [done|]. intros Hp. unfold is_multisig, collect. cbn [data].
  unfold instructions. cbn [data]. rewrite E, bind_Ret. clear E.
  destruct items as [|[[d|m]|e] items].
  1,2,4: exists false; (split; [done|]); split; [done|]; by intros (m & x & pushes & ? & _).
  destruct (decode_pushnum m) as [required|] eqn:Em.
  2: { exists false. split; [done|]. split; [done|].
       intros (m' & x & pushes & [= -> _] & (? & ? & _) & _). congruence. }
  destruct (leading_split items) as (pushes & rest & -> & El & Hrest). cbn [tail] in Hp.
  rewrite multisig_loop_pushes by lia. rewrite Z.add_0_l.
  assert (forall b, (b = true <-> exists x, rest = [Ok (Op x); Ok (Op OP_CHECKMULTISIG)] /\
      required <= Z.of_nat (length pushes) /\
      (forall n, decode_pushnum x = Some n -> n = Z.of_nat (length pushes))) ->
    (b = true <-> multisig_shape (Ok (Op m) :: map (fun d => Ok (PushBytes d)) pushes ++ rest))) as Hshape.
  { intros b ->. split.
    - intros (x & -> & Hr & Hx). exists m, x, pushes. split; [done|]. eauto.
    - intros (m' & x & pushes' & Eq & (r & Er & Hr) & Hx). injection Eq as <- Eq.
      apply pushes_inj in Eq as [-> ->]; [|done]. exists x. split; [done|].
      rewrite Em in Er. injection Er as ->. done. }
  assert (forall r, r = Ret false -> (forall x, rest = [Ok (Op x); Ok (Op OP_CHECKMULTISIG)] ->
      required <= Z.of_nat (length pushes) ->
      ~ (forall n, decode_pushnum x = Some n -> n = Z.of_nat (length pushes))) ->
    exists b, r = Ret b /\ (b = true <->
      multisig_shape (Ok (Op m) :: map (fun d => Ok (PushBytes d)) pushes ++ rest))) as Hno.
  { intros r -> Hn. exists false. split; [done|]. apply Hshape. split; [done|].
    intros (x & Ex & Hr & Hx). by destruct (Hn x Ex Hr Hx). }
  destruct rest as [|[[d|x]|e] rest]; cbn [multisig_loop]; [|done| |].
  - apply Hno; [|done]. rewrite bind_Ret. by destruct (_ <? _).
  - assert (forall r, r = Ret (Some (rest, Z.of_nat (length pushes))) ->
      (forall n, decode_pushnum x = Some n -> n = Z.of_nat (length pushes)) ->
      exists b, (r0 ← r; match r0 with
        | None => Ret false
        | Some (items, num_pubkeys) =>
            if num_pubkeys <? required then Ret false
            else match items with
                 | Ok (Op op) :: items =>
                     if negb (op =? OP_CHECKMULTISIG) then Ret false
                     else Ret match items with [] => true | _ => false end
                 | _ => Ret false
                 end
        end) = Ret b /\ (b = true <->
        multisig_shape (Ok (Op m) :: map (fun d => Ok (PushBytes d)) pushes ++ Ok (Op x) :: rest))) as Hyes.
    { intros r -> Hx. rewrite bind_Ret.
      destruct (Z.ltb_spec (Z.of_nat (length pushes)) required); [apply Hno; [done|]; intros; lia|].
      destruct rest as [|[[d|op]|e] rest]; [by apply Hno..| |by apply Hno].
      destruct (Z.eqb_spec op OP_CHECKMULTISIG) as [->|Hop]; cbn [negb];
        [|apply Hno; [done|]; intros x' [= _ ?]; done].
      eexists. split; [done|]. apply Hshape. destruct rest; [|split; [done|by intros (? & ? & _)]].
      split; [|done]. intros _. by exists x. }
    destruct (decode_pushnum x) as [p|] eqn:Ex; [|by apply Hyes].
    destruct (Z.eqb_spec p (Z.of_nat (length pushes))) as [->|Hp']; cbn [negb].
    + apply Hyes; [done|]. by intros n [= <-].
    + apply Hno; [done|]. intros x' [= <- _] _ Hx. by destruct Hp'; apply Hx.
  - apply Hno; [|done]. assert (rest = []) as ->.
    { assert ((map (fun d => @Ok ScriptError _ (PushBytes d)) pushes ++ Err e :: rest)
        !! length pushes = Some (Err e)) as Hi.
      { rewrite lookup_app_r by (by rewrite length_map). by rewrite length_map, Nat.sub_diag. }
      specialize (Herr (S (length pushes)) e Hi).
      simpl in Herr. rewrite length_app, length_map in Herr. simpl in Herr.
      destruct rest; [done|simpl in Herr; lia]. }
    rewrite bind_Ret. by destruct (_ <? _).
Qed.
