(* ===== verification/Transaction.v ===== *)
(** * Transactions ([blockdata/transaction.rs])

    Out points, inputs, outputs and transactions: the legacy and BIP-144 serialisations,
    ids, sizes and weights, and weight prediction. *)

From Stdlib Require Import ZArith Lia String.
From coqutil Require Import Byte Word.LittleEndianList.
From stdpp Require Import base tactics option list numbers.
From S2P Require Import Prelude Io Encode HashEngine Sha256 Witness LockTime.

#[local] Open Scope Z_scope.

(** ** Data *)

Record OutPoint := mkOutPoint { txid : list byte; vout : Z }.
Record TxIn := mkTxIn {
  previous_output : OutPoint;
  script_sig : list byte;
  sequence : Z;
  witness : Witness;
}.
Record TxOut := mkTxOut { value : Z; script_pubkey : list byte }.
Record Transaction := mkTx {
  version : Z;
  lock_time : Abs.LockTime;
  input : list TxIn;
  output : list TxOut;
}.

#[export] Instance OutPoint_eq_dec : EqDecision OutPoint.
Proof. solve_decision. Defined.
#[export] Instance TxIn_eq_dec : EqDecision TxIn.
Proof. solve_decision. Defined.
#[export] Instance TxOut_eq_dec : EqDecision TxOut.
Proof. solve_decision. Defined.
#[export] Instance Transaction_eq_dec : EqDecision Transaction.
Proof. solve_decision. Defined.

Definition SEGWIT_MARKER : Z := 0.
Definition SEGWIT_FLAG : Z := 1.
Definition OUTPOINT_SIZE : Z := 32 + 4.
Definition AMOUNT_SIZE : Z := 8.
Definition LOCK_TIME_SIZE : Z := 4.

Definition null_outpoint : OutPoint := mkOutPoint (replicate 32 Byte.x00) 0xFFFFFFFF.
Definition is_null (self : OutPoint) : bool := bool_decide (self = null_outpoint).
Definition default_txin : TxIn := mkTxIn null_outpoint [] Seq.MAX Witness.new.
Definition NULL_txout : TxOut := mkTxOut 0xFFFFFFFFFFFFFFFF [].

(** ** Consensus encoding *)

Definition Txid : Consensus (list byte) := array 32.
Definition Amount : Consensus Z := u64.
Definition ScriptBuf : Consensus (list byte) := byte_vec.
Definition Sequence : Consensus Z := u32.
Definition Version : Consensus Z := i32.

Definition OutPointC : Consensus OutPoint :=
  simple (fun o => consensus_encode Txid (txid o) +++ consensus_encode u32 (vout o))
         (t ← consensus_decode Txid; v ← consensus_decode u32; mret (mkOutPoint t v)).

(** The witness of an input is not part of its own encoding. *)
Definition txin_decode : Decoder TxIn :=
  o ← consensus_decode_from_finite_reader OutPointC;
  s ← consensus_decode_from_finite_reader ScriptBuf;
  q ← consensus_decode_from_finite_reader Sequence;
  mret (mkTxIn o s q Witness.new).

Definition txin_encode (self : TxIn) : list byte * Z :=
  wnil +++ consensus_encode OutPointC (previous_output self)
    +++ consensus_encode ScriptBuf (script_sig self)
    +++ consensus_encode Sequence (sequence self).

Definition TxInC : Consensus TxIn := limited txin_encode txin_decode.

Definition TxOutC : Consensus TxOut :=
  impl_consensus_encoding (fun o => (value o, script_pubkey o))
    (fun p => mkTxOut (fst p) (snd p)) (fields Amount ScriptBuf).

Definition uses_segwit_serialization (self : Transaction) : bool :=
  if existsb (fun input => negb (Witness.is_empty (witness input))) (input self) then true
  else match input self with [] => true | _ => false end.

Definition tx_encode (self : Transaction) : list byte * Z :=
  let len := wnil +++ consensus_encode Version (version self) in
  let len :=
    if negb (uses_segwit_serialization self) then
      (len +++ consensus_encode (vec TxInC) (input self))
        +++ consensus_encode (vec TxOutC) (output self)
    else
      let len := len +++ consensus_encode u8 SEGWIT_MARKER in
      let len := len +++ consensus_encode u8 SEGWIT_FLAG in
      let len := len +++ consensus_encode (vec TxInC) (input self) in
      let len := len +++ consensus_encode (vec TxOutC) (output self) in
      fold_left (fun len txin => len +++ consensus_encode WitnessC (witness txin)) (input self) len in
  len +++ consensus_encode Abs.codec (lock_time self).

(** [for txin in input.iter_mut()] *)
Definition set_witness (i : TxIn) (w : Witness) : TxIn :=
  mkTxIn (previous_output i) (script_sig i) (sequence i) w.

Fixpoint decode_witnesses (ins : list TxIn) : Decoder (list TxIn) :=
  match ins with
  | [] => mret []
  | txin :: ins =>
      w ← consensus_decode_from_finite_reader WitnessC;
      ins ← decode_witnesses ins;
      mret (set_witness txin w :: ins)
  end.

Definition tx_decode : Decoder Transaction :=
  v ← consensus_decode_from_finite_reader Version;
  ins ← consensus_decode_from_finite_reader (vec TxInC);
  match ins with
  | [] =>
      segwit_flag ← consensus_decode_from_finite_reader u8;
      if segwit_flag =? 1 then
        ins ← consensus_decode_from_finite_reader (vec TxInC);
        outs ← consensus_decode_from_finite_reader (vec TxOutC);
        ins ← decode_witnesses ins;
        if negb (match ins with [] => true | _ => false end)
           && forallb (fun i => Witness.is_empty (witness i)) ins
        then dfail (ParseFailed "witness flag set but no witnesses present")
        else lt ← consensus_decode_from_finite_reader Abs.codec; mret (mkTx v lt ins outs)
      else dfail (UnsupportedSegwitFlag segwit_flag)
  | _ =>
      outs ← consensus_decode_from_finite_reader (vec TxOutC);
      lt ← consensus_decode_from_finite_reader Abs.codec;
      mret (mkTx v lt ins outs)
  end.

Definition TransactionC : Consensus Transaction := limited tx_encode tx_decode.

(** ** Ids *)

Definition compute_txid (self : Transaction) : list byte :=
  let enc := default in
  let enc := engine_input enc (bytes_of Version (version self)) in
  let enc := engine_input enc (bytes_of (vec TxInC) (input self)) in
  let enc := engine_input enc (bytes_of (vec TxOutC) (output self)) in
  let enc := engine_input enc (bytes_of Abs.codec (lock_time self)) in
  sha256d_from_engine enc.

Definition compute_wtxid (self : Transaction) : list byte :=
  sha256d_from_engine (engine_input default (bytes_of TransactionC self)).

Definition compute_ntxid (self : Transaction) : list byte :=
  compute_txid (mkTx (version self) (lock_time self)
    (map (fun txin => mkTxIn (previous_output txin) [] (sequence txin) Witness.new) (input self))
    (output self)).

(** ** Sizes and weights *)

Definition script_size (script : list byte) : Z :=
  varint_size (Z.of_nat (length script)) + Z.of_nat (length script).

Definition txin_base_size (self : TxIn) : Z :=
  OUTPOINT_SIZE + varint_size (Z.of_nat (length (script_sig self)))
    + Z.of_nat (length (script_sig self)) + Seq.SIZE.
Definition txin_total_size (self : TxIn) : run Z :=
  w ← Witness.size (witness self); Ret (txin_base_size self + w).
Definition txout_size (self : TxOut) : Z :=
  AMOUNT_SIZE + varint_size (Z.of_nat (length (script_pubkey self)))
    + Z.of_nat (length (script_pubkey self)).

Definition sumZ (l : list Z) : Z := foldr Z.add 0 l.

Fixpoint sum_run {A} (f : A -> run Z) (l : list A) : run Z :=
  match l with [] => Ret 0 | x :: l => n ← f x; m ← sum_run f l; Ret (n + m) end.

Definition base_size (self : Transaction) : Z :=
  4 + varint_size (Z.of_nat (length (input self))) + sumZ (map txin_base_size (input self))
    + varint_size (Z.of_nat (length (output self))) + sumZ (map txout_size (output self))
    + LOCK_TIME_SIZE.

Definition total_size (self : Transaction) : run Z :=
  let uses_segwit := uses_segwit_serialization self in
  ins ← sum_run (fun i => if uses_segwit then txin_total_size i else Ret (txin_base_size i)) (input self);
  Ret (4 + (if uses_segwit then 2 else 0)
    + varint_size (Z.of_nat (length (input self))) + ins
    + varint_size (Z.of_nat (length (output self))) + sumZ (map txout_size (output self))
    + LOCK_TIME_SIZE).

Definition WITNESS_SCALE_FACTOR : Z := 4.

Definition weight (self : Transaction) : run Z :=
  t ← total_size self; Ret (base_size self * 3 + t).
Definition to_vbytes_ceil (w : Z) : Z := (w + WITNESS_SCALE_FACTOR - 1) / WITNESS_SCALE_FACTOR.
Definition vsize (self : Transaction) : run Z := w ← weight self; Ret (to_vbytes_ceil w).

(** ** Queries *)

Definition is_coinbase (self : Transaction) : bool :=
  match input self with [i] => is_null (previous_output i) | _ => false end.
Definition is_explicitly_rbf (self : Transaction) : bool :=
  existsb (fun i => Seq.is_rbf (sequence i)) (input self).
Definition enables_lock_time (self : TxIn) : bool := negb (sequence self =? Seq.MAX).
Definition is_lock_time_enabled (self : Transaction) : bool :=
  existsb enables_lock_time (input self).
Definition is_absolute_timelock_satisfied (self : Transaction) (height time : Z) : bool :=
  if negb (is_lock_time_enabled self) then true
  else Abs.is_satisfied_by (lock_time self) height time.

Record IndexOutOfBoundsError := mkIndexError { idx : Z; len : Z }.
Definition tx_in (self : Transaction) (input_index : Z) : Result IndexOutOfBoundsError TxIn :=
  ok_or (input self !! Z.to_nat input_index) (mkIndexError input_index (Z.of_nat (length (input self)))).
Definition tx_out (self : Transaction) (output_index : Z) : Result IndexOutOfBoundsError TxOut :=
  ok_or (output self !! Z.to_nat output_index) (mkIndexError output_index (Z.of_nat (length (output self)))).
Definition is_standard (version : Z) : bool := (version =? 1) || (version =? 2).

(** ** Well-formed values *)

Definition outpoint_wf (o : OutPoint) : Prop := length (txid o) = 32%nat /\ in_u 32 (vout o).
Definition txin_base_wf (i : TxIn) : Prop :=
  outpoint_wf (previous_output i) /\ byte_vec_wf (script_sig i) /\ in_u 32 (sequence i).
Definition txout_wf (o : TxOut) : Prop := in_u 64 (value o) /\ byte_vec_wf (script_pubkey o).
Definition tx_wf (t : Transaction) : Prop :=
  in_i 32 (version t) /\ Abs.wf (lock_time t) /\
  vec_wf (fun i => txin_base_wf i /\ witness_wf (witness i)) (input t) /\
  vec_wf txout_wf (output t).

(** An input as its own encoding shows it. *)
Definition strip (i : TxIn) : TxIn := set_witness i Witness.new.

#[export] Instance Version_Codec : Codec Version (in_i 32) := i_le_Codec 3.
#[export] Instance Version_Canonical : Canonical Version (in_i 32) := i_le_Canonical 3.

#[export] Instance OutPoint_Codec : Codec OutPointC outpoint_wf.
Proof.
  apply simple_Codec.
  - intros o [Ht Hv]. unfold wcat; cbn [fst snd].
    rewrite (encode_len (c:=Txid)), (encode_len (c:=u32)) by done. unfold bytes_of. rewrite length_app. lia.
  - unfold Txid, u32. apply _.
  - intros [t v] rest [Ht Hv]. cbn [fst wcat txid vout]. rewrite <- app_assoc.
    fold (bytes_of Txid t) (bytes_of u32 v).
    rewrite on_slice_bind, (finite_roundtrip (c:=Txid)) by done.
    by rewrite on_slice_bind, (finite_roundtrip (c:=u32)) by done.
Qed.

#[export] Instance OutPoint_Canonical : Canonical OutPointC outpoint_wf.
Proof.
  apply simple_Canonical. intros bs o rest H. dec_inv.
  apply (finite_canonical (c:=Txid)) in H as [Ht ->]. apply (finite_canonical (c:=u32)) in H0 as [Hv ->].
  split; [done|]. cbn [fst wcat txid vout]. by rewrite <- app_assoc.
Qed.

Lemma txin_bytes i : bytes_of TxInC i =
  bytes_of OutPointC (previous_output i) ++ bytes_of ScriptBuf (script_sig i) ++ bytes_of Sequence (sequence i).
Proof. unfold bytes_of at 1; cbn [TxInC limited consensus_encode]. unfold txin_encode. by rewrite wcat_nil_l. Qed.

Lemma txin_len i : txin_base_wf i ->
  snd (txin_encode i) = Z.of_nat (length (bytes_of TxInC i)).
Proof.
  intros (Ho & Hs & Hq). rewrite txin_bytes, !length_app. unfold txin_encode.
  rewrite wcat_nil_l. unfold wcat; cbn [snd].
  rewrite (encode_len (c:=OutPointC)), (encode_len (c:=ScriptBuf)), (encode_len (c:=Sequence)) by done. lia.
Qed.

#[export] Instance txin_Natural : Natural txin_decode.
Proof. unfold txin_decode, ScriptBuf, Sequence. apply _. Qed.

#[export] Instance TxIn_Codec : Codec TxInC (fun i => txin_base_wf i /\ witness i = Witness.new).
Proof.
  apply limited_Codec; [|apply _|].
  - intros i [Hi _]. by apply txin_len.
  - intros [o s q w] rest [(Ho & Hs & Hq) Hw]. simpl in Hw. subst w.
    change (fst (txin_encode ?i)) with (bytes_of TxInC i). rewrite txin_bytes.
    cbn [previous_output script_sig sequence] in *. rewrite <- !app_assoc. unfold txin_decode.
    rewrite on_slice_bind, (finite_roundtrip (c:=OutPointC)) by done.
    rewrite on_slice_bind, (finite_roundtrip (c:=ScriptBuf)) by done.
    by rewrite on_slice_bind, (finite_roundtrip (c:=Sequence)) by done.
Qed.

#[export] Instance TxIn_Canonical : Canonical TxInC (fun i => txin_base_wf i /\ witness i = Witness.new).
Proof.
  apply limited_Canonical; [apply _|]. intros bs i rest H. unfold txin_decode in H. dec_inv.
  apply (finite_canonical (c:=OutPointC)) in H as [Ho ->].
  apply (finite_canonical (c:=ScriptBuf)) in H0 as [Hs ->].
  apply (finite_canonical (c:=Sequence)) in H1 as [Hq ->].
  split; [done|]. change (fst (txin_encode ?i)) with (bytes_of TxInC i). rewrite txin_bytes.
  by rewrite <- !app_assoc.
Qed.

Lemma txout_from_to (o : TxOut) : mkTxOut (fst (value o, script_pubkey o)) (snd (value o, script_pubkey o)) = o.
Proof. by destruct o. Qed.

#[export] Instance TxOut_Codec : Codec TxOutC txout_wf.
Proof.
  pose proof (fields_Codec Amount ScriptBuf (in_u 64) byte_vec_wf) as Hf.
  exact (impl_Codec (fun o => (value o, script_pubkey o)) (fun p => mkTxOut (fst p) (snd p))
    (fields Amount ScriptBuf) (fields_wf (in_u 64) byte_vec_wf) txout_from_to).
Qed.

#[export] Instance TxOut_Canonical : Canonical TxOutC txout_wf.
Proof.
  pose proof (fields_Codec Amount ScriptBuf (in_u 64) byte_vec_wf) as Hf.
  pose proof (fields_Canonical Amount ScriptBuf (in_u 64) byte_vec_wf) as Hc.
  refine (impl_Canonical (fun o => (value o, script_pubkey o)) (fun p => mkTxOut (fst p) (snd p))
    (fields Amount ScriptBuf) (fields_wf (in_u 64) byte_vec_wf) _). by intros [].
Qed.

(** ** Inputs with and without their witnesses *)

Lemma strip_bytes l : bytes_of (vec TxInC) l = bytes_of (vec TxInC) (map strip l).
Proof.
  change (fst (vec_encode TxInC l) = fst (vec_encode TxInC (map strip l))).
  rewrite !vec_encode_bytes, length_map. f_equal.
  induction l as [|i l IH]; [done|]. cbn [map]. rewrite !bind_cons, IH. f_equal.
Qed.

Lemma strip_wf l : vec_wf (fun i => txin_base_wf i /\ witness_wf (witness i)) l ->
  vec_wf (fun i => txin_base_wf i /\ witness i = Witness.new) (map strip l).
Proof.
  intros [Hf Hl]. split; [|by rewrite length_map]. apply Forall_map.
  eapply Forall_impl; [|exact Hf]. by intros i [Hi _].
Qed.

Lemma decode_witnesses_Ok l rest : Forall (fun i => witness_wf (witness i)) l ->
  on_slice (decode_witnesses (map strip l)) ((l ≫= fun i => bytes_of WitnessC (witness i)) ++ rest) =
  Ok (l, rest).
Proof.
  induction 1 as [|i l Hi Hf IH]; [done|]. cbn [map decode_witnesses].
  rewrite bind_cons, <- app_assoc, on_slice_bind, (finite_roundtrip (c:=WitnessC)) by done.
  rewrite on_slice_bind, IH, on_slice_ret. by destruct i.
Qed.

Lemma decode_witnesses_inv ins : forall bs l rest,
  on_slice (decode_witnesses ins) bs = Ok (l, rest) ->
  Forall (fun i => witness i = Witness.new) ins ->
  ins = map strip l /\ Forall (fun i => witness_wf (witness i)) l /\
  bs = (l ≫= fun i => bytes_of WitnessC (witness i)) ++ rest.
Proof.
  induction ins as [|i ins IH]; intros bs l rest H Hn; cbn [decode_witnesses] in H.
  - injection H as <- <-. done.
  - apply Forall_cons_iff in Hn as [Hi Hn]. dec_inv.
    apply (finite_canonical (c:=WitnessC)) in H as [Hw ->].
    destruct (IH _ _ _ H0 Hn) as (-> & Hf & ->).
    split; [|split].
    + cbn [map]. f_equal. destruct i; simpl in *. by subst.
    + by constructor.
    + rewrite bind_cons, <- app_assoc. done.
Qed.

#[export] Instance decode_witnesses_Natural ins : Natural (decode_witnesses ins).
Proof. induction ins; cbn [decode_witnesses]; apply _. Qed.

#[export] Instance tx_Natural : Natural tx_decode.
Proof.
  unfold tx_decode, Version, i32, u8. apply natural_bind; [apply _|]. intros v.
  apply natural_bind; [apply _|]. intros [|i ins]; [|apply _].
  apply _.
Qed.

(** ** The two layouts *)

Lemma tx_bytes t : bytes_of TransactionC t =
  bytes_of Version (version t) ++
  (if uses_segwit_serialization t then bytes_of u8 SEGWIT_MARKER ++ bytes_of u8 SEGWIT_FLAG else []) ++
  bytes_of (vec TxInC) (input t) ++ bytes_of (vec TxOutC) (output t) ++
  (if uses_segwit_serialization t then input t ≫= (fun i => bytes_of WitnessC (witness i)) else []) ++
  bytes_of Abs.codec (lock_time t).
Proof.
  change (bytes_of TransactionC t) with (fst (tx_encode t)). unfold tx_encode. cbv zeta.
  destruct (uses_segwit_serialization t); cbn [negb].
  - rewrite wcat_nil_l. unfold wcat at 1. cbn [fst].
    assert (forall l acc, fst (fold_left (fun len txin => len +++ consensus_encode WitnessC (witness txin)) l acc) =
      fst acc ++ (l ≫= fun i => bytes_of WitnessC (witness i))) as ->.
    { induction l as [|i l IH]; intros acc; [by rewrite app_nil_r|]. cbn [fold_left].
      rewrite IH, bind_cons, app_assoc. done. }
    unfold wcat; cbn [fst]. rewrite <- !app_assoc. done.
  - rewrite wcat_nil_l. unfold wcat; cbn [fst]. rewrite <- !app_assoc. done.
Qed.

(** The length a writer reports is the number of bytes written. *)
Definition len_ok (w : list byte * Z) : Prop := snd w = Z.of_nat (length (fst w)).

Lemma len_ok_cat a b : len_ok a -> len_ok b -> len_ok (a +++ b).
Proof. unfold len_ok, wcat; cbn [fst snd]. intros -> ->. rewrite length_app. lia. Qed.

Lemma len_ok_codec {A} (c : Consensus A) (wf : A -> Prop) `{!Codec c wf} a :
  wf a -> len_ok (consensus_encode c a).
Proof. intros. by apply (encode_len (c:=c)). Qed.

Lemma len_ok_inputs l : vec_wf (fun i => txin_base_wf i /\ witness_wf (witness i)) l ->
  len_ok (consensus_encode (vec TxInC) l).
Proof.
  intros Hl. unfold len_ok. pose proof (strip_bytes l) as Hs. unfold bytes_of in Hs. rewrite Hs.
  pose proof (len_ok_codec (vec TxInC) _ (map strip l) (strip_wf l Hl)) as Hm. unfold len_ok in Hm.
  rewrite <- Hm. cbn [vec limited consensus_encode]. unfold vec_encode. rewrite !fold_encode, length_map.
  cbn [snd]. do 2 f_equal. rewrite map_map. apply map_ext. done.
Qed.

Lemma tx_len t : tx_wf t -> len_ok (tx_encode t).
Proof.
  intros (Hv & Hlt & Hin & Hout). unfold tx_encode. cbv zeta.
  assert (len_ok (wnil +++ consensus_encode Version (version t))) as H0
    by (apply len_ok_cat; [done|by apply (len_ok_codec Version (in_i 32))]).
  pose proof (len_ok_inputs _ Hin) as H1.
  pose proof (len_ok_codec (vec TxOutC) _ _ Hout) as H2.
  apply len_ok_cat; [|by apply (len_ok_codec Abs.codec Abs.wf)].
  destruct (uses_segwit_serialization t); cbn [negb]; [|by repeat apply len_ok_cat].
  destruct Hin as [Hf _].
  assert (forall l acc, len_ok acc -> Forall (fun i => txin_base_wf i /\ witness_wf (witness i)) l ->
    len_ok (fold_left (fun len txin => len +++ consensus_encode WitnessC (witness txin)) l acc)) as Hfold.
  { induction l as [|i l IH]; intros acc Ha Hl; [done|]. apply Forall_cons_iff in Hl as [[_ Hi] Hl].
    apply IH; [|done]. apply len_ok_cat; [done|by apply (len_ok_codec WitnessC witness_wf)]. }
  apply Hfold; [|done]. by repeat apply len_ok_cat.
Qed.

Lemma map_strip_new l : forallb (fun i => Witness.is_empty (witness i)) l = true ->
  Forall (fun i => witness_wf (witness i)) l -> map strip l = l.
Proof.
  induction l as [|[o s q w] l IH]; intros He Hf; [done|]. cbn [map forallb] in *.
  apply andb_true_iff in He as [Hw He]. apply Forall_cons_iff in Hf as [(st & Hst & _) Hf].
  cbn [witness] in *. subst w. rewrite IH by done. f_equal. unfold strip, set_witness. cbn.
  unfold Witness.is_empty in Hw. cbn in Hw. apply Z.eqb_eq in Hw. destruct st; [done|simpl in Hw; lia].
Qed.

Lemma existsb_forallb l : existsb (fun i => negb (Witness.is_empty (witness i))) l =
  negb (forallb (fun i => Witness.is_empty (witness i)) l).
Proof. induction l as [|i l IH]; [done|]. simpl. rewrite IH. by destruct (Witness.is_empty _). Qed.

Lemma witnesses_wf (t : Transaction) : tx_wf t -> Forall (fun i => witness_wf (witness i)) (input t).
Proof. intros (_ & _ & [Hf _] & _). eapply Forall_impl; [|exact Hf]. by intros i []. Qed.

Lemma tx_decode_Ok t rest : tx_wf t -> on_slice tx_decode (bytes_of TransactionC t ++ rest) = Ok (t, rest).
Proof.
  intros Hwf. pose proof (witnesses_wf t Hwf) as Hww. destruct Hwf as (Hv & Hlt & Hin & Hout).
  pose proof (strip_wf _ Hin) as Hsw. rewrite tx_bytes, strip_bytes, <- !app_assoc. unfold tx_decode.
  rewrite on_slice_bind, (finite_roundtrip (c:=Version)) by done. rewrite on_slice_bind.
  destruct t as [v lt ins outs]; cbn [version lock_time input output] in *.
  unfold uses_segwit_serialization; cbn [input]. rewrite existsb_forallb.
  destruct (forallb _ ins) eqn:Ea; [destruct ins as [|i0 ins']|]; cbn [negb].
  - change (bytes_of u8 SEGWIT_MARKER) with (bytes_of (vec TxInC) []). rewrite <- !app_assoc.
    rewrite (finite_roundtrip (c:=vec TxInC)) by (split; [done|simpl; lia]).
    rewrite on_slice_bind, (finite_roundtrip (c:=u8)) by done. cbn [Z.eqb Pos.eqb SEGWIT_FLAG].
    rewrite on_slice_bind, (finite_roundtrip (c:=vec TxInC)) by done.
    rewrite on_slice_bind, (finite_roundtrip (c:=vec TxOutC)) by done.
    rewrite on_slice_bind. cbn [map decode_witnesses]. rewrite on_slice_ret, app_nil_l. cbn [negb andb].
    by rewrite on_slice_bind, (finite_roundtrip (c:=Abs.codec)) by done.
  - rewrite !app_nil_l, (finite_roundtrip (c:=vec TxInC)) by done.
    rewrite (map_strip_new (i0 :: ins')) by done.
    rewrite on_slice_bind, (finite_roundtrip (c:=vec TxOutC)) by done.
    by rewrite on_slice_bind, (finite_roundtrip (c:=Abs.codec)) by done.
  - change (bytes_of u8 SEGWIT_MARKER) with (bytes_of (vec TxInC) []). rewrite <- !app_assoc.
    rewrite (finite_roundtrip (c:=vec TxInC)) by (split; [done|simpl; lia]).
    rewrite on_slice_bind, (finite_roundtrip (c:=u8)) by done. cbn [Z.eqb Pos.eqb SEGWIT_FLAG].
    rewrite on_slice_bind, (finite_roundtrip (c:=vec TxInC)) by done.
    rewrite on_slice_bind, (finite_roundtrip (c:=vec TxOutC)) by done.
    rewrite on_slice_bind, decode_witnesses_Ok by done. rewrite Ea, andb_false_r.
    by rewrite on_slice_bind, (finite_roundtrip (c:=Abs.codec)) by done.
Qed.

Lemma vec_strip_back ins : vec_wf (fun i => txin_base_wf i /\ witness i = Witness.new) (map strip ins) ->
  Forall (fun i => witness_wf (witness i)) ins ->
  vec_wf (fun i => txin_base_wf i /\ witness_wf (witness i)) ins.
Proof.
  intros [Hf Hl] Hw. rewrite length_map in Hl. split; [|done]. apply Forall_map in Hf.
  apply Forall_forall. intros i Hi. rewrite Forall_forall in Hf, Hw.
  split; [by destruct (Hf i Hi)|by apply Hw].
Qed.

Lemma new_wf : witness_wf Witness.new.
Proof. by exists []. Qed.

Lemma new_witnesses_strip ins : Forall (fun i => txin_base_wf i /\ witness i = Witness.new) ins ->
  map strip ins = ins /\ Forall (fun i => witness_wf (witness i)) ins /\
  forallb (fun i => Witness.is_empty (witness i)) ins = true.
Proof.
  induction 1 as [|[o s q w] ins [_ Hw] _ (IH1 & IH2 & IH3)]; [done|]. simpl in Hw. subst w. simpl. rewrite IH1, IH3.
  split; [done|]. split; [constructor; [apply new_wf|done]|done].
Qed.

Lemma tx_decode_inv bs t rest : on_slice tx_decode bs = Ok (t, rest) ->
  tx_wf t /\ bs = bytes_of TransactionC t ++ rest.
Proof.
  intros H. unfold tx_decode in H.
  apply on_slice_bind_Ok in H as (v & b1 & Hv & H). apply (finite_canonical (c:=Version)) in Hv as [Hv ->].
  apply on_slice_bind_Ok in H as (ins & b2 & Hins & H). apply (finite_canonical (c:=vec TxInC)) in Hins as [Hins ->].
  destruct ins as [|i0 ins].
  - apply on_slice_bind_Ok in H as (flag & b3 & Hfl & H). apply (finite_canonical (c:=u8)) in Hfl as [Hfl ->].
    destruct (Z.eqb_spec flag 1) as [->|]; [|done].
    apply on_slice_bind_Ok in H as (ins & b4 & Hi & H). apply (finite_canonical (c:=vec TxInC)) in Hi as [Hi ->].
    apply on_slice_bind_Ok in H as (outs & b5 & Ho & H). apply (finite_canonical (c:=vec TxOutC)) in Ho as [Ho ->].
    apply on_slice_bind_Ok in H as (l & b6 & Hw & H).
    apply decode_witnesses_inv in Hw as (-> & Hww & ->).
    2: { destruct Hi as [Hf _]. eapply Forall_impl; [|exact Hf]. by intros i []. }
    assert (uses_segwit_serialization (mkTx v (Abs.Blocks 0) l outs) = true) as Hseg.
    { unfold uses_segwit_serialization. cbn [input]. rewrite existsb_forallb.
      destruct l; [done|]. simpl negb in H. cbn [andb] in H. by destruct (forallb _ _). }
    destruct (negb _ && _) in H; [done|].
    apply on_slice_bind_Ok in H as (lt & b7 & Hlt & H). apply (finite_canonical (c:=Abs.codec)) in Hlt as [Hlt ->].
    injection H as <- <-. split.
    { split; [done|]. split; [done|]. split; [by apply vec_strip_back|done]. }
    rewrite tx_bytes. unfold uses_segwit_serialization in *. cbn [version lock_time input output] in *.
    rewrite Hseg, (strip_bytes l), <- !app_assoc. done.
  - apply on_slice_bind_Ok in H as (outs & b5 & Ho & H). apply (finite_canonical (c:=vec TxOutC)) in Ho as [Ho ->].
    apply on_slice_bind_Ok in H as (lt & b7 & Hlt & H). apply (finite_canonical (c:=Abs.codec)) in Hlt as [Hlt ->].
    injection H as <- <-. destruct (new_witnesses_strip (i0 :: ins) ltac:(by destruct Hins)) as (Hs & Hw & He).
    split.
    { split; [done|]. split; [done|]. split; [|done]. apply vec_strip_back; [exact (eq_ind_r (vec_wf _) Hins Hs)|done]. }
    rewrite tx_bytes. unfold uses_segwit_serialization. cbn [version lock_time input output].
    rewrite existsb_forallb, He. cbn [negb]. by rewrite <- !app_assoc.
Qed.

#[export] Instance Transaction_Codec : Codec TransactionC tx_wf.
Proof. apply limited_Codec; [apply tx_len|apply _|]. intros t rest Ht. by apply tx_decode_Ok. Qed.

#[export] Instance Transaction_Canonical : Canonical TransactionC tx_wf.
Proof. apply limited_Canonical; [apply _|]. intros. by apply tx_decode_inv. Qed.

(** ** Sizes *)

Lemma script_length s : byte_vec_wf s ->
  Z.of_nat (length (bytes_of ScriptBuf s)) = varint_size (Z.of_nat (length s)) + Z.of_nat (length s).
Proof.
  intros Hs. unfold byte_vec_wf in Hs.
  change (bytes_of ScriptBuf s) with (bytes_of VarInt (Z.of_nat (length s)) ++ s).
  rewrite length_app, Nat2Z.inj_add, varint_bytes_length by (unfold in_u; lia). done.
Qed.

Lemma txin_length i : txin_base_wf i -> Z.of_nat (length (bytes_of TxInC i)) = txin_base_size i.
Proof.
  intros ((Ht & _) & Hs & _). rewrite txin_bytes, !length_app.
  change (bytes_of OutPointC (previous_output i))
    with (txid (previous_output i) ++ le_split 4 (vout (previous_output i))).
  change (bytes_of Sequence (sequence i)) with (le_split 4 (sequence i)).
  rewrite length_app, !length_le_split, Ht. unfold txin_base_size, OUTPOINT_SIZE, Seq.SIZE.
  pose proof (script_length _ Hs). lia.
Qed.

Lemma txout_length o : txout_wf o -> Z.of_nat (length (bytes_of TxOutC o)) = txout_size o.
Proof.
  intros (_ & Hs). change (bytes_of TxOutC o) with (le_split 8 (value o) ++ bytes_of ScriptBuf (script_pubkey o)).
  rewrite length_app, length_le_split. unfold txout_size, AMOUNT_SIZE. pose proof (script_length _ Hs). lia.
Qed.

Lemma vec_length {T} (c : Consensus T) (f : T -> Z) l :
  Forall (fun x => Z.of_nat (length (bytes_of c x)) = f x) l -> Z.of_nat (length l) < 2 ^ 64 ->
  Z.of_nat (length (bytes_of (vec c) l)) = varint_size (Z.of_nat (length l)) + sumZ (map f l).
Proof.
  intros Hf Hl. change (bytes_of (vec c) l) with (fst (vec_encode c l)).
  rewrite vec_encode_bytes, length_app, Nat2Z.inj_add, varint_bytes_length by (unfold in_u; lia). f_equal.
  clear Hl. induction Hf as [|x l Hx Hf IH]; [done|]. rewrite bind_cons, length_app. cbn [map sumZ foldr].
  unfold sumZ in IH. lia.
Qed.

(** Version, inputs, outputs and lock time: what [compute_txid] hashes. *)
Definition legacy_bytes (t : Transaction) : list byte :=
  bytes_of Version (version t) ++ bytes_of (vec TxInC) (input t) ++
  bytes_of (vec TxOutC) (output t) ++ bytes_of Abs.codec (lock_time t).

Lemma base_size_spec t : tx_wf t -> Z.of_nat (length (legacy_bytes t)) = base_size t.
Proof.
  intros (Hv & Hlt & [Hin Hinl] & [Hout Houtl]). unfold legacy_bytes. rewrite !length_app, !Nat2Z.inj_add.
  change (bytes_of Version (version t)) with (le_split 4 (version t)).
  change (bytes_of Abs.codec (lock_time t)) with (le_split 4 (Abs.to_consensus_u32 (lock_time t))).
  rewrite !length_le_split, (vec_length TxInC txin_base_size), (vec_length TxOutC txout_size); try done.
  - unfold base_size, LOCK_TIME_SIZE. lia.
  - eapply Forall_impl; [|exact Hout]. apply txout_length.
  - eapply Forall_impl; [|exact Hin]. intros i [Hi _]. by apply txin_length.
Qed.

Lemma witness_size_spec i : witness_wf (witness i) ->
  Witness.size (witness i) = Ret (Z.of_nat (length (bytes_of WitnessC (witness i)))).
Proof.
  intros (l & -> & Hl). rewrite size_spec by done. f_equal. apply (encode_len (c:=WitnessC)). by exists l.
Qed.

Lemma txin_total_spec i : witness_wf (witness i) ->
  txin_total_size i = Ret (txin_base_size i + Z.of_nat (length (bytes_of WitnessC (witness i)))).
Proof. intros Hi. unfold txin_total_size. by rewrite witness_size_spec. Qed.

Lemma sum_run_total l : Forall (fun i => witness_wf (witness i)) l ->
  sum_run txin_total_size l = Ret (sumZ (map txin_base_size l) +
    Z.of_nat (length (l ≫= fun i => bytes_of WitnessC (witness i)))).
Proof.
  induction 1 as [|i l Hi Hl IH]; [done|]. cbn [sum_run map].
  rewrite txin_total_spec, !bind_Ret, IH, bind_Ret, bind_cons, length_app by done. f_equal.
  unfold sumZ. cbn [foldr]. lia.
Qed.

Lemma sum_run_base l : sum_run (fun i => Ret (txin_base_size i)) l = Ret (sumZ (map txin_base_size l)).
Proof. induction l as [|i l IH]; [done|]. cbn [sum_run map]. by rewrite bind_Ret, IH, bind_Ret. Qed.

Lemma total_size_spec t : tx_wf t ->
  total_size t = Ret (Z.of_nat (length (bytes_of TransactionC t))).
Proof.
  intros Hwf. pose proof (base_size_spec t Hwf) as Hb. pose proof (witnesses_wf t Hwf) as Hw.
  unfold legacy_bytes in Hb. unfold base_size in Hb. unfold total_size. cbv zeta. rewrite tx_bytes.
  destruct (uses_segwit_serialization t).
  - rewrite sum_run_total, bind_Ret by done. f_equal. rewrite !length_app in *.
    change (length (bytes_of u8 SEGWIT_MARKER)) with 1%nat. change (length (bytes_of u8 SEGWIT_FLAG)) with 1%nat. lia.
  - rewrite sum_run_base, bind_Ret. f_equal. rewrite !length_app in *. simpl (length []). lia.
Qed.

(** ** Weight prediction *)

Record InputWeightPrediction := mkIWP { pscript_size : Z; pwitness_size : Z }.

(** [InputWeightPrediction::new] *)
Definition iwp_new (input_script_len : Z) (witness_element_lengths : list Z) : InputWeightPrediction :=
  let '(count, total_size) :=
    fold_left (fun '(count, total_size) elem_len =>
      let elem_size := elem_len + varint_size elem_len in
      (count + 1, total_size + elem_size)) witness_element_lengths (0, 0) in
  let witness_size := if 0 <? count then total_size + varint_size count else 0 in
  mkIWP (input_script_len + varint_size input_script_len) witness_size.

(** [InputWeightPrediction::from_slice]: the [const fn] with an index loop. *)
Fixpoint elem_sizes (fuel : nat) (i : nat) (lens : list Z) (total_size : Z) : Z :=
  match fuel with
  | O => total_size
  | S fuel =>
      match lens !! i with
      | Some elem_len => elem_sizes fuel (S i) lens (total_size + (elem_len + varint_size elem_len))
      | None => total_size
      end
  end.

Definition iwp_from_slice (input_script_len : Z) (witness_element_lengths : list Z) : InputWeightPrediction :=
  let total_size := elem_sizes (length witness_element_lengths) 0 witness_element_lengths 0 in
  let witness_size :=
    if negb (length witness_element_lengths =? 0)%nat
    then total_size + varint_size (Z.of_nat (length witness_element_lengths)) else 0 in
  mkIWP (input_script_len + varint_size input_script_len) witness_size.

Definition iwp_weight (self : InputWeightPrediction) : Z := pscript_size self * 4 + pwitness_size self.

Definition P2WPKH_MAX := iwp_from_slice 0 [72; 33].
Definition P2PKH_COMPRESSED_MAX := iwp_from_slice 107 [].
Definition P2PKH_UNCOMPRESSED_MAX := iwp_from_slice 139 [].
Definition P2TR_KEY_DEFAULT_SIGHASH := iwp_from_slice 0 [64].
Definition P2TR_KEY_NON_DEFAULT_SIGHASH := iwp_from_slice 0 [65].

Definition predict_weight_internal (input_count partial_input_weight inputs_with_witnesses
    output_count output_scripts_size : Z) : Z :=
  let input_weight := partial_input_weight + input_count * 4 * (32 + 4 + 4) in
  let output_size := 8 * output_count + output_scripts_size in
  let non_input_size := 4 + varint_size input_count + varint_size output_count + output_size + 4 in
  if inputs_with_witnesses =? 0 then non_input_size * 4 + input_weight
  else non_input_size * 4 + input_weight + input_count - inputs_with_witnesses + 2.

Definition predict_weight (inputs : list InputWeightPrediction) (output_script_lens : list Z) : Z :=
  let '(input_count, partial_input_weight, inputs_with_witnesses) :=
    fold_left (fun '(count, partial, with_witness) prediction =>
      (count + 1, partial + iwp_weight prediction,
       with_witness + Z.b2z (0 <? pwitness_size prediction))) inputs (0, 0, 0) in
  let '(output_count, output_scripts_size) :=
    fold_left (fun '(output_count, total_scripts_size) script_len =>
      let script_size := script_len + varint_size script_len in
      (output_count + 1, total_scripts_size + script_size)) output_script_lens (0, 0) in
  predict_weight_internal input_count partial_input_weight inputs_with_witnesses
    output_count output_scripts_size.

Fixpoint slice_inputs (fuel i : nat) (inputs : list InputWeightPrediction) (partial with_witness : Z) : Z * Z :=
  match fuel with
  | O => (partial, with_witness)
  | S fuel =>
      match inputs !! i with
      | Some p => slice_inputs fuel (S i) inputs (partial + iwp_weight p)
                    (with_witness + Z.b2z (0 <? pwitness_size p))
      | None => (partial, with_witness)
      end
  end.

Definition predict_weight_from_slices (inputs : list InputWeightPrediction) (output_script_lens : list Z) : Z :=
  let '(partial_input_weight, inputs_with_witnesses) := slice_inputs (length inputs) 0 inputs 0 0 in
  let output_scripts_size := elem_sizes (length output_script_lens) 0 output_script_lens 0 in
  predict_weight_internal (Z.of_nat (length inputs)) partial_input_weight inputs_with_witnesses
    (Z.of_nat (length output_script_lens)) output_scripts_size.

(** The prediction for a real input whose witness stack is [st]. *)
Definition prediction_of (i : TxIn) (st : list (list byte)) : InputWeightPrediction :=
  iwp_new (Z.of_nat (length (script_sig i))) (map (fun e => Z.of_nat (length e)) st).

(** *** The folds as sums *)

Definition elem_size (n : Z) : Z := n + varint_size n.

Lemma fold_sizes l : forall c t,
  fold_left (fun '(count, total) elem_len => (count + 1, total + (elem_len + varint_size elem_len))) l (c, t) =
  (c + Z.of_nat (length l), t + sumZ (map elem_size l)).
Proof.
  induction l as [|x l IH]; intros c t; cbn [fold_left length map sumZ foldr].
  - f_equal; lia.
  - rewrite IH. unfold sumZ, elem_size. f_equal; lia.
Qed.

Lemma elem_sizes_sum fuel : forall i l t, (length l <= i + fuel)%nat ->
  elem_sizes fuel i l t = t + sumZ (map elem_size (drop i l)).
Proof.
  induction fuel as [|fuel IH]; intros i l t Hl; cbn [elem_sizes].
  - rewrite drop_ge by lia. simpl. lia.
  - destruct (l !! i) as [x|] eqn:E.
    + rewrite IH by lia. rewrite (drop_S _ _ _ E). unfold sumZ, elem_size. simpl. lia.
    + rewrite drop_ge by (by apply lookup_ge_None). simpl. lia.
Qed.

Lemma iwp_new_from_slice n l : iwp_new n l = iwp_from_slice n l.
Proof.
  unfold iwp_new, iwp_from_slice. cbv zeta. rewrite fold_sizes, elem_sizes_sum by lia. rewrite drop_0. f_equal.
  destruct l; [done|]. rewrite (proj2 (Z.ltb_lt _ _)) by (simpl length; lia). done.
Qed.

Lemma fold_inputs l : forall c p w,
  fold_left (fun '(count, partial, with_witness) prediction =>
      (count + 1, partial + iwp_weight prediction,
       with_witness + Z.b2z (0 <? pwitness_size prediction))) l (c, p, w) =
  (c + Z.of_nat (length l), p + sumZ (map iwp_weight l),
   w + sumZ (map (fun p => Z.b2z (0 <? pwitness_size p)) l)).
Proof.
  induction l as [|x l IH]; intros c p w; cbn [fold_left length map sumZ foldr].
  - f_equal; [f_equal|]; lia.
  - rewrite IH. unfold sumZ. f_equal; [f_equal|]; lia.
Qed.

Lemma slice_inputs_sum fuel : forall i l p w, (length l <= i + fuel)%nat ->
  slice_inputs fuel i l p w = (p + sumZ (map iwp_weight (drop i l)),
    w + sumZ (map (fun p => Z.b2z (0 <? pwitness_size p)) (drop i l))).
Proof.
  induction fuel as [|fuel IH]; intros i l p w Hl; cbn [slice_inputs].
  - rewrite drop_ge by lia. simpl. f_equal; lia.
  - destruct (l !! i) as [x|] eqn:E.
    + rewrite IH by lia. rewrite (drop_S _ _ _ E). unfold sumZ. simpl. f_equal; lia.
    + rewrite drop_ge by (by apply lookup_ge_None). simpl. f_equal; lia.
Qed.

Lemma predict_weight_slices ins outs : predict_weight ins outs = predict_weight_from_slices ins outs.
Proof.
  unfold predict_weight, predict_weight_from_slices. cbv zeta.
  rewrite fold_inputs, fold_sizes, slice_inputs_sum, elem_sizes_sum by lia. rewrite !drop_0.
  f_equal; lia.
Qed.

(** The predicted witness bytes of a stack: none when it is empty. *)
Lemma prediction_spec i st : witness_ok st ->
  iwp_weight (prediction_of i st) =
    4 * script_size (script_sig i) + (if (length st =? 0)%nat then 0 else
      Z.of_nat (length (bytes_of WitnessC (witness_of st)))) /\
  (0 <? pwitness_size (prediction_of i st)) = negb (length st =? 0)%nat.
Proof.
  intros Hst. pose proof (witness_ok_stack st Hst) as Hs. pose proof (witness_ok_count st Hst) as Hc.
  unfold prediction_of, iwp_new, iwp_weight. cbv zeta.
  rewrite fold_sizes, !Z.add_0_l. cbn [pscript_size pwitness_size]. rewrite length_map, map_map.
  change (bytes_of WitnessC (witness_of st)) with (fst (witness_encode (witness_of st))).
  rewrite witness_encode_spec. cbn [fst]. rewrite length_app, Nat2Z.inj_add.
  rewrite varint_bytes_length by (unfold in_u, MAX_VEC_SIZE in *; lia).
  pose proof (content_size_spec st Hs) as Hcs. unfold sumZ, elem_size. rewrite Hcs.
  pose proof (varint_size_pos (Z.of_nat (length st))). unfold script_size.
  destruct (Nat.eqb_spec (length st) 0) as [->|Hne].
  - simpl. split; [lia|done].
  - rewrite (proj2 (Z.ltb_lt 0 (Z.of_nat (length st)))) by lia. split; [|cbn [negb]; apply Z.ltb_lt]; lia.
Qed.

Lemma txin_base_script i : txin_base_size i = 40 + script_size (script_sig i).
Proof. unfold txin_base_size, script_size, OUTPOINT_SIZE, Seq.SIZE. lia. Qed.

(** Sums over inputs and their stacks. *)
Lemma prediction_sums ins sts : Forall2 (fun i st => witness i = witness_of st /\ witness_ok st) ins sts ->
  let ps := zip_with prediction_of ins sts in
  length ps = length ins /\
  existsb (fun i => negb (Witness.is_empty (witness i))) ins =
    negb (sumZ (map (fun p => Z.b2z (0 <? pwitness_size p)) ps) =? 0) /\
  0 <= sumZ (map (fun p => Z.b2z (0 <? pwitness_size p)) ps) /\
  sumZ (map iwp_weight ps) + Z.of_nat (length ins) * 160 +
    (Z.of_nat (length ins) - sumZ (map (fun p => Z.b2z (0 <? pwitness_size p)) ps)) =
  4 * sumZ (map txin_base_size ins) + Z.of_nat (length (ins ≫= fun i => bytes_of WitnessC (witness i))) /\
  (sumZ (map (fun p => Z.b2z (0 <? pwitness_size p)) ps) = 0 ->
   length (ins ≫= fun i => bytes_of WitnessC (witness i)) = length ins).
Proof.
  induction 1 as [|i st ins sts [Hw Hok] Hf IH]; [done|]. cbn [zip_with map length].
  destruct (prediction_spec i st Hok) as [Hp Hz]. cbv zeta in IH. destruct IH as (IH1 & IH2 & IH3 & IH4 & IH5).
  rewrite IH1. split; [done|].
  assert (Witness.is_empty (witness i) = (length st =? 0)%nat) as He.
  { rewrite Hw. unfold Witness.is_empty, witness_of. cbn [witness_elements]. by destruct st. }
  rewrite bind_cons, length_app. unfold sumZ in *. cbn [foldr existsb]. rewrite He, IH2, Hz, Hp, txin_base_script, Hw.
  destruct (Nat.eqb_spec (length st) 0) as [E|E]; cbn [negb Z.b2z orb].
  - destruct st; [|done]. change (length (bytes_of WitnessC (witness_of []))) with 1%nat.
    split; [do 2 f_equal; lia|]. split; [lia|]. split; [lia|]. intros. rewrite IH5 by lia. done.
  - split; [symmetry; apply negb_true_iff, Z.eqb_neq; lia|]. split; [lia|]. split; lia.
Qed.

Lemma output_sizes outs : 8 * Z.of_nat (length outs) +
  sumZ (map elem_size (map (fun o => Z.of_nat (length (script_pubkey o))) outs)) = sumZ (map txout_size outs).
Proof.
  induction outs as [|o outs IH]; [done|]. unfold sumZ in *. cbn [length map foldr].
  unfold txout_size at 1, AMOUNT_SIZE, elem_size at 1. lia.
Qed.

Lemma predict_weight_spec t sts : tx_wf t -> input t <> [] ->
  Forall2 (fun i st => witness i = witness_of st /\ witness_ok st) (input t) sts ->
  weight t = Ret (predict_weight (zip_with prediction_of (input t) sts)
    (map (fun o => Z.of_nat (length (script_pubkey o))) (output t))).
Proof.
  intros Ht Hin Hst. unfold weight. rewrite total_size_spec, bind_Ret by done. f_equal.
  destruct (prediction_sums _ _ Hst) as (H1 & H2 & H3 & H4 & H5). cbv zeta in *.
  pose proof (base_size_spec t Ht) as Hb. unfold legacy_bytes in Hb. rewrite !length_app in Hb.
  unfold predict_weight. rewrite fold_inputs, fold_sizes, !Z.add_0_l, H1.
  unfold predict_weight_internal. cbv zeta. rewrite length_map, tx_bytes, !length_app.
  assert (uses_segwit_serialization t = existsb (fun i => negb (Witness.is_empty (witness i))) (input t)) as ->
    by (unfold uses_segwit_serialization; destruct (input t); [done|]; by destruct (existsb _ _)).
  rewrite H2. pose proof (output_sizes (output t)) as Ho. unfold base_size, LOCK_TIME_SIZE in *.
  set (W := sumZ (map (fun p => Z.b2z (0 <? pwitness_size p)) _)) in *.
  destruct (Z.eqb_spec W 0) as [E|E]; cbn [negb].
  - specialize (H5 E). simpl (length []). lia.
  - rewrite length_app. change (length (bytes_of u8 SEGWIT_MARKER)) with 1%nat.
    change (length (bytes_of u8 SEGWIT_FLAG)) with 1%nat. lia.
Qed.

(** ** Properties *)

(** C6: transactions round trip.  Decoding accepts exactly the canonical serialisation of
    a well-formed transaction - legacy, segwit, or without inputs - returns it and leaves
    the following bytes; the encoder reports the number of bytes it wrote. *)
Theorem transaction_roundtrip (bs : list byte) (t : Transaction) (rest : list byte) :
  (on_slice (consensus_decode_from_finite_reader TransactionC) bs = Ok (t, rest) <->
   tx_wf t /\ bs = bytes_of TransactionC t ++ rest) /\
  (tx_wf t -> snd (consensus_encode TransactionC t) = Z.of_nat (length (bytes_of TransactionC t))).
Proof.
  split; [|by apply tx_len].
  split; [apply (finite_canonical (c:=TransactionC))|].
  intros [Ht ->]. by apply (finite_roundtrip (c:=TransactionC)).
Qed.

(** One input without witness and one with, for the concrete instances. *)
Definition sample_stack : list (list byte) := [map byte.of_Z [1; 2; 3]].
Definition sample_txin (w : Witness) : TxIn :=
  mkTxIn (mkOutPoint (replicate 32 (byte.of_Z 7)) 1) (map byte.of_Z [0x51]) 0xFFFFFFFE w.
Definition sample_tx : Transaction :=
  mkTx 2 (Abs.Blocks 0) [sample_txin Witness.new; sample_txin (witness_of sample_stack)]
    [mkTxOut 100000 (map byte.of_Z [0x51; 0x52])].

Lemma sample_tx_wf : tx_wf sample_tx.
Proof.
  split; [vm_compute; split; congruence|]. split; [vm_compute; split; congruence|].
  assert (forall w, txin_base_wf (sample_txin w)) as Hb.
  { intros w. split; [split; [done|vm_compute; split; congruence]|]. split; [done|vm_compute; split; congruence]. }
  split; (split; [|done]).
  - constructor; [split; [apply Hb|by exists []]|]. constructor; [split; [apply Hb|]|constructor].
    exists sample_stack. split; [done|]. vm_compute. congruence.
  - constructor; [|constructor]. split; [vm_compute; split; congruence|done].
Qed.

(** Sizes.  [total_size] is the length of the serialisation and [base_size] the length
    of the serialisation without marker, flag and witnesses; the weight is three times
    the latter plus the former, and neither computation panics. *)
Lemma transaction_sizes (t : Transaction) (Ht : tx_wf t) :
  total_size t = Ret (Z.of_nat (length (bytes_of TransactionC t))) /\
  base_size t = Z.of_nat (length (legacy_bytes t)) /\
  weight t = Ret (3 * Z.of_nat (length (legacy_bytes t)) + Z.of_nat (length (bytes_of TransactionC t))) /\
  (uses_segwit_serialization t = false -> bytes_of TransactionC t = legacy_bytes t).
Proof.
  pose proof (total_size_spec t Ht) as H1. pose proof (base_size_spec t Ht) as H2.
  split; [done|]. split; [done|]. split.
  - unfold weight. rewrite H1, bind_Ret, <- H2. f_equal. lia.
  - intros Hu. rewrite tx_bytes, Hu. done.
Qed.

(** Weight prediction is exact.  For a transaction with at least one input, both
    prediction functions, fed with the script and witness element lengths, give the
    transaction's weight. *)
Lemma predict_weight_exact (t : Transaction) (sts : list (list (list byte)))
    (Ht : tx_wf t) (Hin : input t <> [])
    (Hst : Forall2 (fun i st => witness i = witness_of st /\ witness_ok st) (input t) sts) :
  let ps := zip_with prediction_of (input t) sts in
  let lens := map (fun o => Z.of_nat (length (script_pubkey o))) (output t) in
  weight t = Ret (predict_weight ps lens) /\ weight t = Ret (predict_weight_from_slices ps lens).
Proof.
  cbv zeta. rewrite <- predict_weight_slices. by rewrite predict_weight_spec with (sts := sts).
Qed.

(** Ids.  The id of a transaction is the double SHA-256 of its legacy serialisation,
    so it does not depend on the witnesses; for a transaction without witnesses the id
    and the witness id are the same. *)
Lemma transaction_ids (t t' : Transaction)
    (Hlen : 8 * Z.of_nat (length (bytes_of TransactionC t)) < 2 ^ 64)
    (Hleg : 8 * Z.of_nat (length (legacy_bytes t)) < 2 ^ 64)
    (Hsame : legacy_bytes t' = legacy_bytes t) :
  compute_txid t = Spec.sha256 (Spec.sha256 (legacy_bytes t)) /\
  compute_wtxid t = Spec.sha256 (Spec.sha256 (bytes_of TransactionC t)) /\
  compute_txid t' = compute_txid t /\
  (uses_segwit_serialization t = false -> compute_wtxid t = compute_txid t).
Proof.
  assert (forall u, 8 * Z.of_nat (length (legacy_bytes u)) < 2 ^ 64 ->
    compute_txid u = Spec.sha256 (Spec.sha256 (legacy_bytes u))) as Htx.
  { intros u Hu. apply sha256d_represents; [|done]. unfold legacy_bytes.
    rewrite !app_assoc. do 3 apply engine_input_represents.
    apply (engine_input_represents default []), default_represents. }
  assert (compute_wtxid t = Spec.sha256 (Spec.sha256 (bytes_of TransactionC t))) as Hw.
  { apply sha256d_represents; [|done]. apply (engine_input_represents default []), default_represents. }
  split; [by apply Htx|]. split; [done|]. split; [by rewrite !Htx, Hsame by congruence|].
  intros Hu. rewrite Hw, Htx by done. do 2 f_equal. rewrite tx_bytes, Hu. done.
Qed.

