(* ===== verification/Sigops.v ===== *)
(** * Signature operations of a transaction ([Transaction::total_sigop_cost])

    The cost a transaction's signature operations count towards the block limit, from the scripts
    it carries and the outputs it spends, against the reference client's rules. *)

From Stdlib Require Import ZArith Lia.
From coqutil Require Import Byte Word.LittleEndianList.
From stdpp Require Import base tactics option list numbers.
From S2P Require Import Prelude Io Encode Sha256 Script ScriptKinds Witness LockTime Transaction.

#[local] Open Scope Z_scope.

(** ** Counting *)

(** [usize::saturating_add] and [usize::saturating_mul]. *)
Definition saturating_add (a b : Z) : Z := Z.min (a + b) u64_MAX.
Definition saturating_mul (a b : Z) : Z := Z.min (a * b) u64_MAX.

Fixpoint count_scripts (count : Z) (scripts : list (list byte)) : run Z :=
  match scripts with
  | [] => Ret count
  | s :: scripts => n ← count_sigops_legacy s; count_scripts (saturating_add count n) scripts
  end.

Definition count_p2pk_p2pkh_sigops (self : Transaction) : run Z :=
  count ← count_scripts 0 (map script_sig (input self));
  count_scripts count (map script_pubkey (output self)).

(** The [count_sigops] inside [count_p2sh_sigops]. *)
Definition p2sh_sigops (prevout : TxOut) (txin : TxIn) : run Z :=
  if is_p2sh (script_pubkey prevout) then
    redeem ← last_pushdata (script_sig txin);
    match redeem with
    | Some redeem => n ← count_sigops redeem; Ret (saturating_add 0 n)
    | None => Ret 0
    end
  else Ret 0.

Definition count_sigops_with_witness_program (w : Witness) (witness_program : list byte) : run Z :=
  wpkh ← is_p2wpkh witness_program;
  if (wpkh : bool) then Ret 1
  else
    wsh ← is_p2wsh witness_program;
    if (wsh : bool) then
      o ← Witness.last w;
      match o with Some s => count_sigops s | None => Ret 0 end
    else Ret 0.

(** The [count_sigops] inside [count_witness_sigops]. *)
Definition witness_sigops (prevout : TxOut) (txin : TxIn) : run Z :=
  let script_sig := script_sig txin in
  let witness := witness txin in
  program ← is_witness_program (script_pubkey prevout);
  if (program : bool) then count_sigops_with_witness_program witness (script_pubkey prevout)
  else if is_p2sh (script_pubkey prevout) then
    push ← is_push_only script_sig;
    if (push : bool) then
      last ← last_pushdata script_sig;
      match last with
      | Some push_bytes => count_sigops_with_witness_program witness push_bytes
      | None => Ret 0
      end
    else Ret 0
  else Ret 0.

(** The closure [spent] is an [FnMut]: each call may change the state it captures. *)
Section spent.
Context {St : Type} (spent : OutPoint -> St -> option TxOut * St).

(** The loop [count_p2sh_sigops] and [count_witness_sigops] share. *)
Fixpoint count_inputs (count_sigops : TxOut -> TxIn -> run Z) (count : Z) (inputs : list TxIn) (st : St) :
    run (Z * St) :=
  match inputs with
  | [] => Ret (count, st)
  | i :: inputs =>
      let '(o, st) := spent (previous_output i) st in
      match o with
      | Some prevout => n ← count_sigops prevout i;
                        count_inputs count_sigops (saturating_add count n) inputs st
      | None => count_inputs count_sigops count inputs st
      end
  end.

Definition count_p2sh_sigops (self : Transaction) (st : St) : run (Z * St) :=
  count_inputs p2sh_sigops 0 (input self) st.
Definition count_witness_sigops (self : Transaction) (st : St) : run (Z * St) :=
  count_inputs witness_sigops 0 (input self) st.

Definition total_sigop_cost (self : Transaction) (st : St) : run Z :=
  n ← count_p2pk_p2pkh_sigops self;
  let cost := saturating_mul n 4 in
  '(n, st) ← count_p2sh_sigops self st;
  let cost := saturating_add cost (saturating_mul n 4) in
  '(n, _) ← count_witness_sigops self st;
  Ret (saturating_add cost n).
End spent.

(** ** The reference client's rules *)

(** What a script's instructions are, up to and with the first error. *)
Definition script_items (s : list byte) : list (Result ScriptError Instruction) :=
  match collect (instructions s) with Ret l => l | Panic => [] end.

(** [CScript::GetSigOpCount]: an [OP_CHECKMULTISIG] counts for the number the instruction just
    before it pushes, when counting is accurate and there is one, and for 20 otherwise. *)
Definition multisig_sigops (accurate : bool) (before : option Instruction) : Z :=
  match accurate, before with
  | true, Some (Op op) => match decode_pushnum op with Some n => n | None => 20 end
  | _, _ => 20
  end.
Definition is_checksig (op : Z) : bool := (op =? OP_CHECKSIG) || (op =? OP_CHECKSIGVERIFY).
Definition is_checkmultisig (op : Z) : bool := (op =? OP_CHECKMULTISIG) || (op =? OP_CHECKMULTISIGVERIFY).
Definition instruction_sigops (accurate : bool) (before : option Instruction) (i : Instruction) : Z :=
  match i with
  | Op op => if is_checksig op then 1 else if is_checkmultisig op then multisig_sigops accurate before else 0
  | PushBytes _ => 0
  end.
Fixpoint core_sigops (accurate : bool) (before : option Instruction)
    (items : list (Result ScriptError Instruction)) : Z :=
  match items with
  | Ok i :: items => instruction_sigops accurate before i + core_sigops accurate (Some i) items
  | _ => 0
  end.
Definition core_script_sigops (accurate : bool) (s : list byte) : Z := core_sigops accurate None (script_items s).

(** The redeem script of a script that only pushes. *)
Definition core_redeem_script (s : list byte) : option (list byte) :=
  if push_only (script_items s) then
    match list.last (script_items s) with Some (Ok (PushBytes b)) => Some b | _ => None end
  else None.

Definition core_p2sh_sigops (prevout : TxOut) (txin : TxIn) : Z :=
  if is_p2sh (script_pubkey prevout) then
    match core_redeem_script (script_sig txin) with Some s => core_script_sigops true s | None => 0 end
  else 0.

(** The witness program an input runs: the output's script or, for P2SH, its redeem script. *)
Definition core_program (prevout : TxOut) (txin : TxIn) : option (list byte) :=
  if bool_decide (is_witness_program (script_pubkey prevout) = Ret true) then Some (script_pubkey prevout)
  else if is_p2sh (script_pubkey prevout) then core_redeem_script (script_sig txin) else None.
Definition core_witness_sigops (stack : list (list byte)) (prevout : TxOut) (txin : TxIn) : Z :=
  match core_program prevout txin with
  | Some p => if bool_decide (is_p2wpkh p = Ret true) then 1
              else if bool_decide (is_p2wsh p = Ret true) then
                match list.last stack with Some s => core_script_sigops true s | None => 0 end
              else 0
  | None => 0
  end.

Definition sum (l : list Z) : Z := foldr Z.add 0 l.

(** [GetTransactionSigOpCost], given the output each input spends and its witness stack. *)
Definition core_sigop_cost (f : OutPoint -> option TxOut) (tx : Transaction) (stacks : list (list (list byte))) : Z :=
  4 * sum (map (core_script_sigops false) (map script_sig (input tx) ++ map script_pubkey (output tx)))
  + 4 * sum (zip_with (fun _ i => from_option (fun p => core_p2sh_sigops p i) 0 (f (previous_output i)))
                      stacks (input tx))
  + sum (zip_with (fun stack i => from_option (fun p => core_witness_sigops stack p i) 0 (f (previous_output i)))
                  stacks (input tx)).

(** ** Counting one script *)

(** No [OP_CHECKMULTISIG] directly follows another signature operation. *)
Definition is_sigop (i : Instruction) : bool :=
  match i with Op op => is_checksig op || is_checkmultisig op | PushBytes _ => false end.
Fixpoint separated (before : option Instruction) (items : list (Result ScriptError Instruction)) : bool :=
  match items with
  | Ok i :: items =>
      negb (from_option is_sigop false before && match i with Op op => is_checkmultisig op | _ => false end)
      && separated (Some i) items
  | _ => true
  end.
Definition sigops_separated (s : list byte) : bool := separated None (script_items s).

Lemma collect_items s : collect (instructions s) = Ret (script_items s).
Proof.
  unfold script_items, collect, instructions. cbn [data].
  by destruct (collect_ok false (length s) s) as (items & -> & _).
Qed.

Lemma decode_pushnum_bounds op n : decode_pushnum op = Some n -> 1 <= n <= 16.
Proof.
  unfold decode_pushnum, OP_PUSHNUM_1, OP_PUSHNUM_16. destruct (_ && _) eqn:E; [|done].
  intros [= <-]. lia.
Qed.

Lemma multisig_sigops_bounds accurate before : 1 <= multisig_sigops accurate before <= 20.
Proof.
  unfold multisig_sigops. destruct accurate; [|lia]. destruct before as [[|op]|]; [lia| |lia].
  destruct (decode_pushnum op) as [n|] eqn:E; [|lia]. apply decode_pushnum_bounds in E. lia.
Qed.

Lemma core_sigops_nonneg accurate items : forall before, 0 <= core_sigops accurate before items.
Proof.
  induction items as [|[i|e] items IH]; intros before; cbn; [done| |done].
  pose proof (IH (Some i)). pose proof (multisig_sigops_bounds accurate before).
  unfold instruction_sigops. destruct i as [|op]; [lia|]. destruct (is_checksig op); [lia|].
  destruct (is_checkmultisig op); lia.
Qed.

Lemma sigops_loop_legacy items : forall before n c,
  sigops_loop false items n c = n + core_sigops false before items.
Proof.
  induction items as [|[[b|op]|e] items IH]; intros before n c; cbn; [lia|..|lia].
  - rewrite (IH (Some (PushBytes b))). lia.
  - rewrite !(IH (Some (Op op))). fold (is_checksig op) (is_checkmultisig op).
    destruct (is_checksig op); [lia|]. by destruct (is_checkmultisig op); unfold multisig_sigops; lia.
Qed.

Lemma checkmultisig_not_checksig op : is_checkmultisig op = true -> is_checksig op = false.
Proof.
  unfold is_checkmultisig, is_checksig, OP_CHECKMULTISIG, OP_CHECKMULTISIGVERIFY, OP_CHECKSIG, OP_CHECKSIGVERIFY.
  lia.
Qed.

(** The cached number is the one just before, or the instruction before is a signature operation. *)
Definition cache_ok (before : option Instruction) (c : option Z) : Prop :=
  c = match before with Some (Op op) => decode_pushnum op | _ => None end \/ from_option is_sigop false before = true.

Lemma sigops_loop_accurate items : forall before n c, cache_ok before c -> separated before items = true ->
  sigops_loop true items n c = n + core_sigops true before items.
Proof.
  induction items as [|[i|e] items IH]; intros before n c Hc Hs; cbn [sigops_loop core_sigops]; [lia| |lia].
  cbn [separated] in Hs. apply andb_true_iff in Hs as [Hm Hs]. apply negb_true_iff in Hm.
  destruct i as [b|op]; cbn [instruction_sigops]; [by rewrite (IH (Some (PushBytes b))) by (done || by left)|].
  fold (is_checksig op) (is_checkmultisig op).
  destruct (is_checksig op) eqn:E1.
  { rewrite (IH (Some (Op op))); [lia| |done]. right. cbn. by rewrite E1. }
  destruct (is_checkmultisig op) eqn:E2; [|by rewrite (IH (Some (Op op))) by (done || by left)].
  rewrite andb_true_r in Hm. destruct Hc as [-> | Hc]; [|congruence].
  rewrite (IH (Some (Op op))); [| |done].
  - destruct before as [[|op']|]; cbn; [lia| |lia]. destruct (decode_pushnum op'); lia.
  - right. cbn. by rewrite E2, orb_true_r.
Qed.

Lemma count_sigops_spec s : sigops_separated s = true -> count_sigops s = Ret (core_script_sigops true s).
Proof.
  intros Hs. unfold count_sigops. rewrite collect_items, bind_Ret.
  by rewrite (sigops_loop_accurate _ None) by (done || by left).
Qed.

Lemma count_sigops_legacy_spec s : count_sigops_legacy s = Ret (core_script_sigops false s).
Proof. unfold count_sigops_legacy. rewrite collect_items, bind_Ret. by rewrite (sigops_loop_legacy _ None). Qed.

(** ** Counting a transaction *)

Lemma count_sum_nonneg l : Forall (Z.le 0) l -> 0 <= sum l.
Proof. unfold sum. induction 1; cbn; lia. Qed.

Lemma count_sum_app l k : sum (l ++ k) = sum l + sum k.
Proof. unfold sum. induction l as [|x l IH]; cbn; lia. Qed.

Lemma script_counts_nonneg accurate l : Forall (Z.le 0) (map (core_script_sigops accurate) l).
Proof. induction l; constructor; [apply core_sigops_nonneg|done]. Qed.

Lemma saturate_add a b : 0 <= b -> saturating_add (Z.min a u64_MAX) b = Z.min (a + b) u64_MAX.
Proof. unfold saturating_add. lia. Qed.

Lemma count_scripts_spec l : forall a,
  count_scripts (Z.min a u64_MAX) l = Ret (Z.min (a + sum (map (core_script_sigops false) l)) u64_MAX).
Proof.
  induction l as [|s l IH]; intros a; cbn [count_scripts map]; [by rewrite Z.add_0_r|].
  rewrite count_sigops_legacy_spec, bind_Ret.
  rewrite saturate_add by apply core_sigops_nonneg. rewrite IH. do 2 f_equal. unfold sum. cbn [foldr]. lia.
Qed.

Lemma last_pushdata_spec s : push_only (script_items s) = true -> last_pushdata s = Ret (core_redeem_script s).
Proof. intros H. unfold last_pushdata, core_redeem_script. by rewrite collect_items, H. Qed.

(** What the counts rely on: a P2SH output is spent by a script that only pushes, and the
    scripts counted accurately are [sigops_separated]. *)
Definition input_plain (stack : list (list byte)) (prevout : TxOut) (i : TxIn) : Prop :=
  (is_p2sh (script_pubkey prevout) = true -> push_only (script_items (script_sig i)) = true /\
     from_option sigops_separated true (core_redeem_script (script_sig i)) = true) /\
  from_option sigops_separated true (list.last stack) = true.

Lemma p2sh_sigops_spec stack prevout i : input_plain stack prevout i ->
  p2sh_sigops prevout i = Ret (Z.min (core_p2sh_sigops prevout i) u64_MAX).
Proof.
  intros [H _]. unfold p2sh_sigops, core_p2sh_sigops. destruct (is_p2sh _); [|done].
  destruct H as [H1 H2]; [done|]. rewrite last_pushdata_spec by done. rewrite bind_Ret.
  destruct (core_redeem_script _) as [s|]; [|done]. by rewrite count_sigops_spec.
Qed.

Lemma Ret_decide (m : run bool) : m <> Panic -> m = Ret (bool_decide (m = Ret true)).
Proof. destruct m as [[]|]; [by rewrite bool_decide_true|by rewrite bool_decide_false|done]. Qed.

Lemma is_program_total s n v op : (2 <= n <= 40)%nat -> op = Z.of_nat n -> is_program s (n + 2) v op <> Panic.
Proof. intros Hn Hop. by destruct (is_program_iff s n v op Hn Hop) as (b & -> & _). Qed.

Lemma witness_last_spec l : stack_ok l -> Witness.last (witness_of l) = Ret (list.last l).
Proof.
  intros Hl. unfold Witness.last. cbn [witness_elements witness_of].
  destruct (Z.eqb_spec (Z.of_nat (length l)) 0) as [E|E].
  { by destruct l. }
  replace (Z.of_nat (length l) - 1) with (Z.of_nat (pred (length l))) by lia.
  rewrite nth_spec by done. by rewrite last_lookup.
Qed.

Lemma program_sigops_spec l p : stack_ok l -> from_option sigops_separated true (list.last l) = true ->
  count_sigops_with_witness_program (witness_of l) p =
  Ret (if bool_decide (is_p2wpkh p = Ret true) then 1
       else if bool_decide (is_p2wsh p = Ret true) then
         match list.last l with Some s => core_script_sigops true s | None => 0 end
       else 0).
Proof.
  intros Hl Hs. unfold count_sigops_with_witness_program.
  rewrite (Ret_decide (is_p2wpkh p)) at 1 by (apply (is_program_total p 20); done || lia). rewrite bind_Ret.
  destruct (bool_decide (is_p2wpkh p = _)); [done|].
  rewrite (Ret_decide (is_p2wsh p)) at 1 by (apply (is_program_total p 32); done || lia). rewrite bind_Ret.
  destruct (bool_decide (is_p2wsh p = _)); [|done].
  rewrite witness_last_spec, bind_Ret by done. destruct (list.last l) as [s|]; [|done].
  by rewrite count_sigops_spec.
Qed.

Lemma witness_sigops_spec stack prevout i : stack_ok stack -> witness i = witness_of stack ->
  input_plain stack prevout i -> witness_sigops prevout i = Ret (core_witness_sigops stack prevout i).
Proof.
  intros Hst Hw [Hp Hs]. unfold witness_sigops, core_witness_sigops, core_program. rewrite Hw.
  destruct (witness_version_iff (script_pubkey prevout)) as (o & Ho & _).
  rewrite (Ret_decide (is_witness_program (script_pubkey prevout))) at 1
    by (unfold is_witness_program; by rewrite Ho). rewrite bind_Ret.
  destruct (bool_decide (is_witness_program _ = _)); [by apply program_sigops_spec|].
  destruct (is_p2sh _); [|done]. destruct Hp as [H1 _]; [done|].
  unfold is_push_only. rewrite collect_items. cbn [fmap run_fmap]. rewrite H1, bind_Ret.
  rewrite last_pushdata_spec, bind_Ret by done.
  destruct (core_redeem_script _); [by apply program_sigops_spec|done].
Qed.

(** [n] counts for [k], up to saturation. *)
Definition counts (m : run Z) (k : Z) : Prop :=
  exists n, m = Ret n /\ 0 <= n /\ 0 <= k /\ Z.min n u64_MAX = Z.min k u64_MAX.

Lemma core_p2sh_nonneg p i : 0 <= core_p2sh_sigops p i.
Proof. unfold core_p2sh_sigops. repeat case_match; done || apply core_sigops_nonneg. Qed.

Lemma core_witness_nonneg stack p i : 0 <= core_witness_sigops stack p i.
Proof. unfold core_witness_sigops. repeat case_match; done || apply core_sigops_nonneg. Qed.

Lemma p2sh_counts stack p i : input_plain stack p i -> counts (p2sh_sigops p i) (core_p2sh_sigops p i).
Proof.
  intros H. eexists. split; [by eapply p2sh_sigops_spec|]. pose proof (core_p2sh_nonneg p i).
  unfold u64_MAX. lia.
Qed.

Lemma witness_counts stack p i : stack_ok stack -> witness i = witness_of stack -> input_plain stack p i ->
  counts (witness_sigops p i) (core_witness_sigops stack p i).
Proof.
  intros ???. eexists. split; [by apply witness_sigops_spec|]. by pose proof (core_witness_nonneg stack p i).
Qed.

Lemma zip_sum_nonneg {A} (spec : A -> TxOut -> TxIn -> Z) f ss l : (forall s p i, 0 <= spec s p i) ->
  0 <= sum (zip_with (fun s i => from_option (fun p => spec s p i) 0 (f (previous_output i))) ss l).
Proof.
  intros H. apply count_sum_nonneg. revert l. induction ss as [|s ss IH]; intros [|i l]; cbn; constructor; [|done].
  destruct (f _); cbn; [apply H|done].
Qed.

Section counting.
Context {St : Type} (spent : OutPoint -> St -> option TxOut * St) (f : OutPoint -> option TxOut).
Hypothesis spent_f : forall o st, fst (spent o st) = f o.

Lemma count_inputs_spec {A} (count : TxOut -> TxIn -> run Z) (spec : A -> TxOut -> TxIn -> Z) l ss :
  Forall2 (fun i s => forall p, f (previous_output i) = Some p -> counts (count p i) (spec s p i)) l ss ->
  forall a st, 0 <= a -> exists st', count_inputs spent count (Z.min a u64_MAX) l st =
    Ret (Z.min (a + sum (zip_with (fun s i => from_option (fun p => spec s p i) 0 (f (previous_output i))) ss l))
         u64_MAX, st').
Proof.
  induction 1 as [|i s l ss Hi _ IH]; intros a st Ha; cbn [count_inputs zip_with].
  { exists st. by rewrite Z.add_0_r. }
  pose proof (spent_f (previous_output i) st) as Ho. destruct (spent (previous_output i) st) as [o st1].
  cbn in Ho. subst o. change (sum (?x :: ?l)) with (x + sum l).
  destruct (f (previous_output i)) as [p|] eqn:Ef; cbn [from_option]; [|rewrite Z.add_0_l; by apply IH].
  destruct (Hi p eq_refl) as (n & -> & Hn & Hk & E). rewrite bind_Ret.
  replace (saturating_add _ n) with (Z.min (a + spec s p i) u64_MAX) by (unfold saturating_add; lia).
  destruct (IH (a + spec s p i) st1) as [st' ->]; [lia|]. exists st'. do 2 f_equal. lia.
Qed.
End counting.

(** Signature operations of a transaction: for every lookup of spent outputs whose answers do not
    depend on the calls before. *)
Definition spends_plainly (f : OutPoint -> option TxOut) (i : TxIn) (stack : list (list byte)) : Prop :=
  stack_ok stack /\ witness i = witness_of stack /\
  forall p, f (previous_output i) = Some p -> input_plain stack p i.

(** C27: The cost [total_sigop_cost] computes is the reference client's ([GetTransactionSigOpCost],
    written out as [core_sigop_cost]): four per operation of the scripts the transaction carries
    counted the old way, four per operation of a P2SH redeem script and one per operation of a
    witness script, native or nested, counted accurately; it never panics and saturates at the
    largest [usize].  It holds for every lookup [spent] that answers as a function [f], stateful or
    not, when P2SH outputs are spent by push-only scripts (as consensus requires) and the accurately
    counted scripts have no [OP_CHECKMULTISIG] directly after another signature operation. *)
Theorem sigop_cost_exact {St} (spent : OutPoint -> St -> option TxOut * St) (f : OutPoint -> option TxOut)
    (tx : Transaction) (stacks : list (list (list byte))) (st : St)
    (Hspent : forall o st, fst (spent o st) = f o) (Hin : Forall2 (spends_plainly f) (input tx) stacks) :
  total_sigop_cost spent tx st =
  Ret (Z.min (core_sigop_cost f tx stacks) u64_MAX).
Proof.
  unfold total_sigop_cost, count_p2pk_p2pkh_sigops. change 0 with (Z.min 0 u64_MAX) at 1.
  rewrite count_scripts_spec, bind_Ret, count_scripts_spec, bind_Ret.
  destruct (count_inputs_spec spent f Hspent p2sh_sigops (fun _ => core_p2sh_sigops) (input tx) stacks)
    with (a := 0) (st := st) as [st1 H1]; [|done|].
  { eapply Forall2_impl; [|exact Hin]. intros i s (_ & _ & Hp) p Hf. eapply p2sh_counts, Hp, Hf. }
  destruct (count_inputs_spec spent f Hspent witness_sigops core_witness_sigops (input tx) stacks)
    with (a := 0) (st := st1) as [st2 H2]; [|done|].
  { eapply Forall2_impl; [|exact Hin]. intros i s (? & ? & Hp) p Hf. by apply witness_counts, Hp. }
  unfold count_p2sh_sigops, count_witness_sigops. change (Z.min 0 u64_MAX) with 0 in H1, H2.
  rewrite H1, bind_Ret, H2, bind_Ret. f_equal. unfold core_sigop_cost.
  rewrite map_app, count_sum_app, !Z.add_0_l.
  pose proof (zip_sum_nonneg (fun _ => core_p2sh_sigops) f stacks (input tx) ltac:(intros; apply core_p2sh_nonneg)).
  pose proof (zip_sum_nonneg core_witness_sigops f stacks (input tx) core_witness_nonneg).
  pose proof (count_sum_nonneg _ (script_counts_nonneg false (map script_sig (input tx)))).
  pose proof (count_sum_nonneg _ (script_counts_nonneg false (map script_pubkey (output tx)))).
  unfold saturating_add, saturating_mul, u64_MAX in *. lia.
Qed.

(** A 2-of-3 multisig witness script in P2WSH, nested in P2SH; the second input's output is unknown. *)
Definition example_witness_script : list byte :=
  map byte.of_Z (0x52 :: 33 :: replicate 33 2 ++ 33 :: replicate 33 3 ++ 33 :: replicate 33 4
                 ++ [0x53; OP_CHECKMULTISIG]).
Definition example_stack : list (list byte) := [[]; replicate 71 Byte.x01; replicate 71 Byte.x02; example_witness_script].
Definition example_redeem : list byte := map byte.of_Z (0 :: 32 :: replicate 32 7).
Definition example_prevout : TxOut :=
  mkTxOut 1000 (map byte.of_Z (OP_HASH160 :: OP_PUSHBYTES_20 :: replicate 20 9 ++ [OP_EQUAL])).
Definition example_tx : Transaction :=
  mkTx 2 (Abs.Blocks 0)
    [mkTxIn (mkOutPoint (replicate 32 Byte.x05) 0) (byte.of_Z 34 :: example_redeem) Seq.MAX (witness_of example_stack);
     mkTxIn (mkOutPoint (replicate 32 Byte.x06) 1) [] Seq.MAX (witness_of [])]
    [mkTxOut 900 (map byte.of_Z [33; OP_CHECKSIG]);
     mkTxOut 50 (map byte.of_Z [OP_DUP; OP_CHECKSIG; 0x52; OP_CHECKMULTISIG])].
Definition example_spent (o : OutPoint) (calls : nat) : option TxOut * nat :=
  (if vout o =? 0 then Some example_prevout else None, S calls).

Lemma sigop_cost_exact_witness : total_sigop_cost example_spent example_tx O = Ret 87.
Proof.
  rewrite (sigop_cost_exact example_spent (fun o => if vout o =? 0 then Some example_prevout else None)
             example_tx [example_stack; []] O).
  - vm_compute. reflexivity.
  - done.
  - repeat constructor; unfold input_plain; try intros p [= <-]; vm_compute; try done; intuition done.
Defined.

(** Where the counts differ: a number some signature operation back still counts as the number of
    keys, and a redeem script counts when the script that pushes it is not push-only. *)
Lemma sigop_counts_differ :
  (let s := map byte.of_Z [0x52; OP_CHECKSIG; OP_CHECKMULTISIG] in
   count_sigops s = Ret 3 /\ core_script_sigops true s = 21) /\
  (let i := mkTxIn null_outpoint (map byte.of_Z [OP_DUP; 1; OP_CHECKSIG]) Seq.MAX Witness.new in
   p2sh_sigops example_prevout i = Ret 1 /\ core_p2sh_sigops example_prevout i = 0).
Proof. vm_compute. done. Qed.
