(* ===== verification/Validation.v ===== *)
(** * Transaction validation ([consensus/validation.rs])

    Every input of a transaction is checked against the output it spends by the
    [bitcoinconsensus] crate, which is the class [BitcoinConsensus]; nothing is assumed of it. *)

From Stdlib Require Import ZArith Lia.
From coqutil Require Import Byte.
From stdpp Require Import base tactics option list numbers.
From S2P Require Import Prelude Io Encode Witness LockTime Script Transaction.

#[local] Open Scope Z_scope.

(** [bitcoinconsensus::verify_with_flags(script, amount, tx, index, flags)] and [VERIFY_ALL]. *)
Class BitcoinConsensus := {
  ConsensusError : Type;
  verify_with_flags : list byte -> Z -> list byte -> Z -> Z -> Result ConsensusError unit;
  VERIFY_ALL : Z;
}.

Section validation.
Context {bm : BuildMode} {C : BitcoinConsensus}.

(** [BitcoinconsensusError] wraps the error of the crate. *)
Definition verify_script_with_flags (script : list byte) (index amount : Z) (spending_tx : list byte) (flags : Z) :
    Result ConsensusError unit :=
  verify_with_flags script amount spending_tx index flags.
Definition verify_script (script : list byte) (index amount : Z) (spending_tx : list byte) : Result ConsensusError unit :=
  verify_script_with_flags script index amount spending_tx VERIFY_ALL.

Inductive TxVerifyError := ScriptVerification (e : ConsensusError) | UnknownSpentOutput (o : OutPoint).

(** The closure [spent] is an [FnMut]: each call may change the state it captures. *)
Section spent.
Context {St : Type} (spent : OutPoint -> St -> option TxOut * St).

(** [tx.input.iter().enumerate()], from an index. *)
Fixpoint verify_inputs (serialized_tx : list byte) (flags idx : Z) (inputs : list TxIn) (st : St) :
    Result TxVerifyError unit * St :=
  match inputs with
  | [] => (Ok tt, st)
  | input :: inputs =>
      let '(o, st) := spent (previous_output input) st in
      match o with
      | Some output =>
          match verify_script_with_flags (script_pubkey output) idx (value output) serialized_tx flags with
          | Ok _ => verify_inputs serialized_tx flags (idx + 1) inputs st
          | Err e => (Err (ScriptVerification e), st)
          end
      | None => (Err (UnknownSpentOutput (previous_output input)), st)
      end
  end.

Definition verify_transaction_with_flags (tx : Transaction) (flags : Z) (st : St) : run (Result TxVerifyError unit * St) :=
  serialized_tx ← serialize TransactionC tx;
  Ret (verify_inputs serialized_tx flags 0 (input tx) st).
Definition verify_transaction (tx : Transaction) (st : St) : run (Result TxVerifyError unit * St) :=
  verify_transaction_with_flags tx VERIFY_ALL st.
End spent.

(** [Script::verify], [Script::verify_with_flags], [Transaction::verify] and [Transaction::verify_with_flags]. *)
Definition script_verify (self : list byte) (index amount : Z) (spending_tx : list byte) : Result ConsensusError unit :=
  verify_script self index amount spending_tx.
Definition script_verify_with_flags (self : list byte) (index amount : Z) (spending_tx : list byte) (flags : Z) :
    Result ConsensusError unit :=
  verify_script_with_flags self index amount spending_tx flags.
Definition tx_verify {St} (self : Transaction) (spent : OutPoint -> St -> option TxOut * St) (st : St) :=
  verify_transaction spent self st.
Definition tx_verify_with_flags {St} (self : Transaction) (spent : OutPoint -> St -> option TxOut * St) (flags : Z) (st : St) :=
  verify_transaction_with_flags spent self flags st.

(** ** What is checked *)

(** One input against the output it spends. *)
Definition input_verdict (serialized_tx : list byte) (flags idx : Z) (i : TxIn) (o : option TxOut) : Result TxVerifyError unit :=
  match o with
  | Some output => map_err ScriptVerification (verify_with_flags (script_pubkey output) (value output) serialized_tx idx flags)
  | None => Err (UnknownSpentOutput (previous_output i))
  end.

(** The outputs the closure gives for the inputs in order, and its last state. *)
Section spec.
Context {St : Type} (spent : OutPoint -> St -> option TxOut * St).

Fixpoint spent_outputs (inputs : list TxIn) (st : St) : list (option TxOut) * St :=
  match inputs with
  | [] => ([], st)
  | i :: inputs =>
      let '(o, st) := spent (previous_output i) st in
      let '(os, st) := spent_outputs inputs st in (o :: os, st)
  end.

(** The verdicts on the inputs, counted from an index. *)
Fixpoint verdicts (serialized_tx : list byte) (flags idx : Z) (inputs : list TxIn) (os : list (option TxOut)) :
    list (Result TxVerifyError unit) :=
  match inputs, os with
  | i :: inputs, o :: os => input_verdict serialized_tx flags idx i o :: verdicts serialized_tx flags (idx + 1) inputs os
  | _, _ => []
  end.

Fixpoint first_error {E} (l : list (Result E unit)) : Result E unit :=
  match l with
  | [] => Ok tt
  | Ok _ :: l => first_error l
  | Err e :: _ => Err e
  end.

Lemma first_error_Ok {E} (l : list (Result E unit)) : first_error l = Ok tt <-> forall k r, l !! k = Some r -> r = Ok tt.
Proof.
  induction l as [|[[]|e] l IH]; cbn [first_error].
  - split; [|done]. intros _ k r Hk. by rewrite lookup_nil in Hk.
  - rewrite IH. split; [intros H [|k] r Hk; cbn in Hk; [by simplify_eq|by eapply H]|intros H k r Hk; by apply (H (S k))].
  - split; [done|]. intros H. by specialize (H 0%nat _ eq_refl).
Qed.

Lemma verdicts_lookup tx flags inputs : forall idx os k r, length os = length inputs ->
  verdicts tx flags idx inputs os !! k = Some r <->
  exists i o, inputs !! k = Some i /\ os !! k = Some o /\ r = input_verdict tx flags (idx + Z.of_nat k) i o.
Proof.
  induction inputs as [|i inputs IH]; intros idx [|o os] k r Hl; try done; cbn [verdicts].
  - rewrite !lookup_nil. naive_solver.
  - injection Hl as Hl. destruct k as [|k].
    + cbn. rewrite Z.add_0_r. naive_solver.
    + change ((?x :: ?l) !! S k) with (l !! k). rewrite (IH (idx + 1) os k r Hl).
      by replace (idx + 1 + Z.of_nat k) with (idx + Z.of_nat (S k)) by lia.
Qed.

Lemma spent_outputs_length inputs : forall st, length (fst (spent_outputs inputs st)) = length inputs.
Proof.
  induction inputs as [|i inputs IH]; intros st; [done|]. cbn [spent_outputs]. destruct (spent _ st) as [o st'].
  specialize (IH st'). destruct (spent_outputs inputs st') as [os st'']. cbn in *. by rewrite IH.
Qed.

(** The loop returns the error of the first input that fails, and on success has asked the closure
    once for every input, in order. *)
Lemma verify_inputs_spec tx flags inputs : forall idx st,
  fst (verify_inputs spent tx flags idx inputs st) = first_error (verdicts tx flags idx inputs (fst (spent_outputs inputs st))) /\
  (fst (verify_inputs spent tx flags idx inputs st) = Ok tt ->
    snd (verify_inputs spent tx flags idx inputs st) = snd (spent_outputs inputs st)).
Proof.
  induction inputs as [|i inputs IH]; intros idx st; [done|]. cbn [verify_inputs spent_outputs].
  destruct (spent (previous_output i) st) as [o st']. specialize (IH (idx + 1) st').
  destruct (spent_outputs inputs st') as [os st'']. cbn [fst snd verdicts first_error] in *.
  unfold verify_script_with_flags. destruct o as [output|]; cbn [input_verdict first_error]; [|done].
  unfold map_err. by destruct (verify_with_flags _ _ _ _ _).
Qed.

(** A well-formed transaction is verified without a panic; it passes exactly when the closure knows
    every output spent and the consensus library accepts every input, each with its own index, on
    the serialised transaction. *)
Lemma verify_transaction_exact tx flags st : tx_wf tx -> exists r st',
  verify_transaction_with_flags spent tx flags st = Ret (r, st') /\
  r = first_error (verdicts (bytes_of TransactionC tx) flags 0 (input tx) (fst (spent_outputs (input tx) st))) /\
  (r = Ok tt <-> forall k i o, input tx !! k = Some i -> fst (spent_outputs (input tx) st) !! k = Some o ->
    exists output, o = Some output /\
      verify_with_flags (script_pubkey output) (value output) (bytes_of TransactionC tx) (Z.of_nat k) flags = Ok tt).
Proof.
  intros Htx. unfold verify_transaction_with_flags. rewrite (serialize_bytes TransactionC tx_wf) by done. rewrite bind_Ret.
  destruct (verify_inputs_spec (bytes_of TransactionC tx) flags (input tx) 0 st) as [E _].
  destruct (verify_inputs spent _ flags 0 (input tx) st) as [r st']. cbn [fst] in E. exists r, st'. split; [done|]. split; [done|].
  rewrite E, first_error_Ok. setoid_rewrite verdicts_lookup; [|apply spent_outputs_length]. split.
  - intros H k i o Hi Ho. specialize (H k _ (ex_intro _ i (ex_intro _ o (conj Hi (conj Ho eq_refl))))).
    destruct o as [output|]; [|done]. exists output. split; [done|]. rewrite Z.add_0_l in H. cbn [input_verdict] in H. unfold map_err in H.
    by destruct (verify_with_flags _ _ _ _ _) as [[]|].
  - intros H k r0 (i & o & Hi & Ho & ->). destruct (H k i o Hi Ho) as (output & -> & Hv). rewrite Z.add_0_l.
    cbn [input_verdict]. by rewrite Hv.
Qed.
End spec.
End validation.
