(* ===== verification/Sighash.v ===== *)
(** * Signature hashes ([crypto/sighash.rs])

    Signature hash types, the outputs spent ([Prevouts]), the lazily filled [SighashCache], and
    the messages signed by legacy, segwit version 0 and taproot inputs.  A method that takes
    [&mut self] and a writer is a computation that passes the cache and the bytes written so
    far; what an error leaves behind is part of its outcome.  Writers are those of hash engines
    and byte vectors, which do not fail. *)

From Stdlib Require Import ZArith Lia.
From Stdlib Require Strings.String.
From coqutil Require Import Byte Word.LittleEndianList.
From stdpp Require Import base tactics option list numbers.
From S2P Require Import Prelude Io Encode HashEngine Sha256 Sha256t.
From S2P Require Import Witness LockTime Taproot ScriptKinds Transaction.
Import String.StringSyntax.

#[local] Open Scope Z_scope.

Definition UINT256_ONE : list byte := Byte.x01 :: replicate 31 Byte.x00.

(** ** Signature hash types *)

Inductive EcdsaSighashType :=
| EAll | ENone | ESingle | EAllPlusAnyoneCanPay | ENonePlusAnyoneCanPay | ESinglePlusAnyoneCanPay.
Inductive TapSighashType :=
| TDefault | TAll | TNone | TSingle
| TAllPlusAnyoneCanPay | TNonePlusAnyoneCanPay | TSinglePlusAnyoneCanPay.
#[export] Instance EcdsaSighashType_eq_dec : EqDecision EcdsaSighashType.
Proof. solve_decision. Defined.
#[export] Instance TapSighashType_eq_dec : EqDecision TapSighashType.
Proof. solve_decision. Defined.

Definition str (s : String.string) : list byte := String.list_byte_of_string s.
#[global] Arguments str s%_string_scope.

Definition tap_display (self : TapSighashType) : list byte :=
  match self with
  | TDefault => str "SIGHASH_DEFAULT"
  | TAll => str "SIGHASH_ALL"
  | TNone => str "SIGHASH_NONE"
  | TSingle => str "SIGHASH_SINGLE"
  | TAllPlusAnyoneCanPay => str "SIGHASH_ALL|SIGHASH_ANYONECANPAY"
  | TNonePlusAnyoneCanPay => str "SIGHASH_NONE|SIGHASH_ANYONECANPAY"
  | TSinglePlusAnyoneCanPay => str "SIGHASH_SINGLE|SIGHASH_ANYONECANPAY"
  end.
(** [SighashTypeParseError { unrecognized }] carries the text. *)
Definition tap_from_str (s : list byte) : Result (list byte) TapSighashType :=
  if decide (s = str "SIGHASH_DEFAULT") then Ok TDefault
  else if decide (s = str "SIGHASH_ALL") then Ok TAll
  else if decide (s = str "SIGHASH_NONE") then Ok TNone
  else if decide (s = str "SIGHASH_SINGLE") then Ok TSingle
  else if decide (s = str "SIGHASH_ALL|SIGHASH_ANYONECANPAY") then Ok TAllPlusAnyoneCanPay
  else if decide (s = str "SIGHASH_NONE|SIGHASH_ANYONECANPAY") then Ok TNonePlusAnyoneCanPay
  else if decide (s = str "SIGHASH_SINGLE|SIGHASH_ANYONECANPAY") then Ok TSinglePlusAnyoneCanPay
  else Err s.

Definition ecdsa_display (self : EcdsaSighashType) : list byte :=
  match self with
  | EAll => str "SIGHASH_ALL"
  | ENone => str "SIGHASH_NONE"
  | ESingle => str "SIGHASH_SINGLE"
  | EAllPlusAnyoneCanPay => str "SIGHASH_ALL|SIGHASH_ANYONECANPAY"
  | ENonePlusAnyoneCanPay => str "SIGHASH_NONE|SIGHASH_ANYONECANPAY"
  | ESinglePlusAnyoneCanPay => str "SIGHASH_SINGLE|SIGHASH_ANYONECANPAY"
  end.
Definition ecdsa_from_str (s : list byte) : Result (list byte) EcdsaSighashType :=
  if decide (s = str "SIGHASH_ALL") then Ok EAll
  else if decide (s = str "SIGHASH_NONE") then Ok ENone
  else if decide (s = str "SIGHASH_SINGLE") then Ok ESingle
  else if decide (s = str "SIGHASH_ALL|SIGHASH_ANYONECANPAY") then Ok EAllPlusAnyoneCanPay
  else if decide (s = str "SIGHASH_NONE|SIGHASH_ANYONECANPAY") then Ok ENonePlusAnyoneCanPay
  else if decide (s = str "SIGHASH_SINGLE|SIGHASH_ANYONECANPAY") then Ok ESinglePlusAnyoneCanPay
  else Err s.

(** [self as u32] and [self as u8]. *)
Definition to_u32 (self : EcdsaSighashType) : Z :=
  match self with
  | EAll => 0x01 | ENone => 0x02 | ESingle => 0x03
  | EAllPlusAnyoneCanPay => 0x81 | ENonePlusAnyoneCanPay => 0x82 | ESinglePlusAnyoneCanPay => 0x83
  end.
Definition tap_to_u8 (self : TapSighashType) : Z :=
  match self with
  | TDefault => 0x00 | TAll => 0x01 | TNone => 0x02 | TSingle => 0x03
  | TAllPlusAnyoneCanPay => 0x81 | TNonePlusAnyoneCanPay => 0x82 | TSinglePlusAnyoneCanPay => 0x83
  end.

Definition split_anyonecanpay_flag (self : EcdsaSighashType) : EcdsaSighashType * bool :=
  match self with
  | EAll => (EAll, false)
  | ENone => (ENone, false)
  | ESingle => (ESingle, false)
  | EAllPlusAnyoneCanPay => (EAll, true)
  | ENonePlusAnyoneCanPay => (ENone, true)
  | ESinglePlusAnyoneCanPay => (ESingle, true)
  end.
Definition tap_split_anyonecanpay_flag (self : TapSighashType) : TapSighashType * bool :=
  match self with
  | TDefault => (TDefault, false)
  | TAll => (TAll, false)
  | TNone => (TNone, false)
  | TSingle => (TSingle, false)
  | TAllPlusAnyoneCanPay => (TAll, true)
  | TNonePlusAnyoneCanPay => (TNone, true)
  | TSinglePlusAnyoneCanPay => (TSingle, true)
  end.

Definition is_single (self : EcdsaSighashType) : bool :=
  match self with ESingle | ESinglePlusAnyoneCanPay => true | _ => false end.

Definition from_consensus (n : Z) : EcdsaSighashType :=
  let mask := Z.lor 0x1f 0x80 in
  let x := Z.land n mask in
  if x =? 0x01 then EAll
  else if x =? 0x02 then ENone
  else if x =? 0x03 then ESingle
  else if x =? 0x81 then EAllPlusAnyoneCanPay
  else if x =? 0x82 then ENonePlusAnyoneCanPay
  else if x =? 0x83 then ESinglePlusAnyoneCanPay
  else if Z.land x 0x80 =? 0x80 then EAllPlusAnyoneCanPay
  else EAll.

(** [NonStandardSighashTypeError(n)] and [InvalidSighashTypeError(n)] carry the number. *)
Definition from_standard (n : Z) : Result Z EcdsaSighashType :=
  if n =? 0x01 then Ok EAll
  else if n =? 0x02 then Ok ENone
  else if n =? 0x03 then Ok ESingle
  else if n =? 0x81 then Ok EAllPlusAnyoneCanPay
  else if n =? 0x82 then Ok ENonePlusAnyoneCanPay
  else if n =? 0x83 then Ok ESinglePlusAnyoneCanPay
  else Err n.
Definition from_consensus_u8 (n : Z) : Result Z TapSighashType :=
  if n =? 0x00 then Ok TDefault
  else if n =? 0x01 then Ok TAll
  else if n =? 0x02 then Ok TNone
  else if n =? 0x03 then Ok TSingle
  else if n =? 0x81 then Ok TAllPlusAnyoneCanPay
  else if n =? 0x82 then Ok TNonePlusAnyoneCanPay
  else if n =? 0x83 then Ok TSinglePlusAnyoneCanPay
  else Err n.

Definition tap_from_ecdsa (s : EcdsaSighashType) : TapSighashType :=
  match s with
  | EAll => TAll
  | ENone => TNone
  | ESingle => TSingle
  | EAllPlusAnyoneCanPay => TAllPlusAnyoneCanPay
  | ENonePlusAnyoneCanPay => TNonePlusAnyoneCanPay
  | ESinglePlusAnyoneCanPay => TSinglePlusAnyoneCanPay
  end.

Definition is_invalid_use_of_sighash_single (sighash input_index outputs_len : Z) : bool :=
  let ty := from_consensus sighash in is_single ty && (outputs_len <=? input_index).

(** ** Spent outputs, annexes, script paths *)

Inductive Prevouts := One (index : Z) (prevout : TxOut) | All (prevouts : list TxOut).

Inductive PrevoutsIndexError := InvalidOneIndex | InvalidAllIndex.
Inductive SighashTaprootError :=
| InputsIndex (e : IndexOutOfBoundsError)
| SingleMissingOutput (input_index outputs_length : Z)
| PrevoutsSize
| PrevoutsIndex (e : PrevoutsIndexError)
| PrevoutsKind
| InvalidSighashType (n : Z).

Definition check_all (self : Prevouts) (tx : Transaction) : Result SighashTaprootError unit :=
  match self with
  | All prevouts => if negb (length prevouts =? length (input tx))%nat then Err PrevoutsSize else Ok tt
  | One _ _ => Ok tt
  end.
Definition get_all (self : Prevouts) : Result SighashTaprootError (list TxOut) :=
  match self with All prevouts => Ok prevouts | _ => Err PrevoutsKind end.
Definition get (self : Prevouts) (input_index : Z) : Result PrevoutsIndexError TxOut :=
  match self with
  | One index prevout => if input_index =? index then Ok prevout else Err InvalidOneIndex
  | All prevouts => ok_or (prevouts !! Z.to_nat input_index) InvalidAllIndex
  end.

(** [Annex(bytes)] with its checked constructor. *)
Inductive AnnexError := AnnexEmpty | IncorrectPrefix (b : byte).
Definition annex_new (annex_bytes : list byte) : Result AnnexError (list byte) :=
  match annex_bytes with
  | b :: _ => if byte.unsigned b =? TAPROOT_ANNEX_PREFIX then Ok annex_bytes else Err (IncorrectPrefix b)
  | [] => Err AnnexEmpty
  end.
Definition annex_encode (self : list byte) : list byte * Z := consensus_encode_with_size self.

Record ScriptPath := mkScriptPath { sp_script : list byte; sp_leaf_version : LeafVersion }.
Definition script_path_with_defaults (script : list byte) : ScriptPath := mkScriptPath script TapScript.
Definition script_path_leaf_hash (self : ScriptPath) : list byte :=
  let enc := tag_engine TapLeafTag in
  let enc := engine_input enc (bytes_of u8 (leaf_version_to_consensus (sp_leaf_version self))) in
  let enc := engine_input enc (bytes_of byte_vec (sp_script self)) in
  sha256t_from_engine enc.

Definition KEY_VERSION_0 : Z := 0.

(** ** The cache *)

Record CommonCache := mkCommon { c_prevouts : list byte; c_sequences : list byte; c_outputs : list byte }.
Record SegwitCache := mkSegwit { s_prevouts : list byte; s_sequences : list byte; s_outputs : list byte }.
Record TaprootCache := mkTaprootCache { t_amounts : list byte; t_script_pubkeys : list byte }.

Record SighashCache := mkCache {
  tx : Transaction;
  common_cache_ : option CommonCache;
  segwit_cache_ : option SegwitCache;
  taproot_cache_ : option TaprootCache;
}.

Definition cache_new (tx : Transaction) : SighashCache := mkCache tx None None None.
Definition transaction (self : SighashCache) : Transaction := tx self.
Definition into_transaction (self : SighashCache) : Transaction := tx self.

(** The closures of [get_or_insert_with]. *)
Definition compute_common (tx : Transaction) : CommonCache :=
  let '(enc_prevouts, enc_sequences) :=
    fold_left (fun '(p, s) txin =>
        (engine_input p (bytes_of OutPointC (previous_output txin)),
         engine_input s (bytes_of Sequence (sequence txin))))
      (input tx) (default, default) in
  mkCommon (from_engine enc_prevouts) (from_engine enc_sequences)
    (from_engine (fold_left (fun enc txout => engine_input enc (bytes_of TxOutC txout))
                    (output tx) default)).

Definition hash_again (self : list byte) : list byte := hash self.

Definition common_cache_minimal_borrow (common_cache : option CommonCache) (tx : Transaction) :
    CommonCache :=
  match common_cache with Some c => c | None => compute_common tx end.

Definition compute_taproot (prevouts : list TxOut) : TaprootCache :=
  let '(enc_amounts, enc_script_pubkeys) :=
    fold_left (fun '(a, s) prevout =>
        (engine_input a (bytes_of Amount (value prevout)),
         engine_input s (bytes_of ScriptBuf (script_pubkey prevout))))
      prevouts (default, default) in
  mkTaprootCache (from_engine enc_amounts) (from_engine enc_script_pubkeys).

(** ** Computations over the cache and the writer *)

Definition St : Type := SighashCache * list byte.
Definition M (E A : Type) : Type := St -> comp E A * St.

#[export] Instance M_ret {E} : MRet (M E) := fun _ a st => (Val a, st).
#[export] Instance M_bind {E} : MBind (M E) := fun _ _ k m st =>
  match m st with
  | (Val a, st) => k a st
  | (Throw e, st) => (Throw e, st)
  | (Crash, st) => (Crash, st)
  end.

Definition emit {E} (bs : list byte) : M E unit := fun '(c, w) => (Val tt, (c, w ++ bs)).
Definition lift {E A} (m : comp E A) : M E A := fun st => (m, st).
Definition get_tx {E} : M E Transaction := fun '(c, w) => (Val (tx c), (c, w)).

Definition common_cache {E} : M E CommonCache := fun '(c, w) =>
  let v := common_cache_minimal_borrow (common_cache_ c) (tx c) in
  (Val v, (mkCache (tx c) (Some v) (segwit_cache_ c) (taproot_cache_ c), w)).

(** The closure, run when the segwit cache is empty, fills the common cache too. *)
Definition segwit_cache {E} : M E SegwitCache := fun '(c, w) =>
  match segwit_cache_ c with
  | Some v => (Val v, (c, w))
  | None =>
      let common := common_cache_minimal_borrow (common_cache_ c) (tx c) in
      let v := mkSegwit (hash_again (c_prevouts common)) (hash_again (c_sequences common))
                        (hash_again (c_outputs common)) in
      (Val v, (mkCache (tx c) (Some common) (Some v) (taproot_cache_ c), w))
  end.

Definition taproot_cache {E} (prevouts : list TxOut) : M E TaprootCache := fun '(c, w) =>
  match taproot_cache_ c with
  | Some v => (Val v, (c, w))
  | None =>
      let v := compute_taproot prevouts in
      (Val v, (mkCache (tx c) (common_cache_ c) (segwit_cache_ c) (Some v), w))
  end.

(** [*sighasher.witness_mut(input_index)? = witness] *)
Definition witness_mut (self : SighashCache) (input_index : Z) (w : Witness) : option SighashCache :=
  match input (tx self) !! Z.to_nat input_index with
  | None => None
  | Some i =>
      Some (mkCache (mkTx (version (tx self)) (lock_time (tx self))
                      (<[Z.to_nat input_index := set_witness i w]> (input (tx self))) (output (tx self)))
              (common_cache_ self) (segwit_cache_ self) (taproot_cache_ self))
  end.

(** ** Taproot messages *)

Definition opt_byte {A} (o : option A) (b : Z) : Z := match o with Some _ => b | None => 0 end.

Definition taproot_encode_signing_data_to (input_index : Z) (prevouts : Prevouts)
    (annex : option (list byte)) (leaf_hash_code_separator : option (list byte * Z))
    (sighash_type : TapSighashType) : M SighashTaprootError unit :=
  tx ← get_tx;
  _ ← lift (of_result (check_all prevouts tx));
  let '(sighash, anyone_can_pay) := tap_split_anyonecanpay_flag sighash_type in
  _ ← emit (bytes_of u8 0);
  _ ← emit (bytes_of u8 (tap_to_u8 sighash_type));
  _ ← emit (bytes_of Version (version tx));
  _ ← emit (bytes_of Abs.codec (lock_time tx));
  _ ← (if anyone_can_pay then mret tt else
         common ← common_cache;
         _ ← emit (c_prevouts common);
         all ← lift (of_result (get_all prevouts));
         tap ← taproot_cache all;
         _ ← emit (t_amounts tap);
         all ← lift (of_result (get_all prevouts));
         tap ← taproot_cache all;
         _ ← emit (t_script_pubkeys tap);
         common ← common_cache;
         emit (c_sequences common));
  _ ← (if negb (bool_decide (sighash = TNone)) && negb (bool_decide (sighash = TSingle)) then
         common ← common_cache; emit (c_outputs common)
       else mret tt);
  let spend_type := 0 in
  let spend_type := Z.lor spend_type (opt_byte annex 1) in
  let spend_type := Z.lor spend_type (opt_byte leaf_hash_code_separator 2) in
  _ ← emit (bytes_of u8 spend_type);
  _ ← (if anyone_can_pay then
         txin ← lift (of_result (map_err InputsIndex (tx_in tx input_index)));
         previous_output' ← lift (of_result (map_err PrevoutsIndex (get prevouts input_index)));
         _ ← emit (bytes_of OutPointC (previous_output txin));
         _ ← emit (bytes_of Amount (value previous_output'));
         _ ← emit (bytes_of ScriptBuf (script_pubkey previous_output'));
         emit (bytes_of Sequence (sequence txin))
       else emit (bytes_of u32 (wrap 32 input_index)));
  _ ← (match annex with
       | Some annex => emit (from_engine (engine_input default (fst (annex_encode annex))))
       | None => mret tt
       end);
  _ ← (if bool_decide (sighash = TSingle) then
         out ← lift (of_result (ok_or (output tx !! Z.to_nat input_index)
                 (SingleMissingOutput input_index (Z.of_nat (length (output tx))))));
         emit (from_engine (engine_input default (bytes_of TxOutC out)))
       else mret tt);
  match leaf_hash_code_separator with
  | Some (hash, code_separator_pos) =>
      _ ← emit (bytes_of (array 32) hash);
      _ ← emit (bytes_of u8 KEY_VERSION_0);
      emit (bytes_of u32 code_separator_pos)
  | None => mret tt
  end.

(** A hash function runs the encoder on a fresh engine, [enc], and finishes it. *)
Definition finish {E} (enc : @HashEngine State) (from_engine : @HashEngine State -> list byte)
    (m : M E unit) (self : SighashCache) : comp E (list byte) * SighashCache :=
  match m (self, []) with
  | (Val _, (self, w)) => (Val (from_engine (engine_input enc w)), self)
  | (Throw e, (self, _)) => (Throw e, self)
  | (Crash, (self, _)) => (Crash, self)
  end.

Definition TapSighashTag : list byte := str "TapSighash".

Definition taproot_signature_hash (self : SighashCache) (input_index : Z) (prevouts : Prevouts)
    (annex : option (list byte)) (leaf_hash_code_separator : option (list byte * Z))
    (sighash_type : TapSighashType) : comp SighashTaprootError (list byte) * SighashCache :=
  finish (tag_engine TapSighashTag) sha256t_from_engine
    (taproot_encode_signing_data_to input_index prevouts annex leaf_hash_code_separator sighash_type) self.
Definition taproot_key_spend_signature_hash (self : SighashCache) (input_index : Z)
    (prevouts : Prevouts) (sighash_type : TapSighashType) :
    comp SighashTaprootError (list byte) * SighashCache :=
  finish (tag_engine TapSighashTag) sha256t_from_engine
    (taproot_encode_signing_data_to input_index prevouts None None sighash_type) self.
(** The leaf hash is given; a [ScriptPath] converts to its [script_path_leaf_hash]. *)
Definition taproot_script_spend_signature_hash (self : SighashCache) (input_index : Z)
    (prevouts : Prevouts) (leaf_hash : list byte) (sighash_type : TapSighashType) :
    comp SighashTaprootError (list byte) * SighashCache :=
  finish (tag_engine TapSighashTag) sha256t_from_engine
    (taproot_encode_signing_data_to input_index prevouts None (Some (leaf_hash, 0xFFFFFFFF))
       sighash_type) self.

(** ** Segwit version 0 messages *)

Definition zero_hash : list byte := replicate 32 Byte.x00.

Definition segwit_v0_encode_signing_data_to (input_index : Z) (script_code : list byte)
    (value : Z) (sighash_type : EcdsaSighashType) : M IndexOutOfBoundsError unit :=
  let '(sighash, anyone_can_pay) := split_anyonecanpay_flag sighash_type in
  tx ← get_tx;
  _ ← emit (bytes_of Version (version tx));
  _ ← (if negb anyone_can_pay then segwit ← segwit_cache; emit (s_prevouts segwit)
       else emit zero_hash);
  _ ← (if negb anyone_can_pay && negb (bool_decide (sighash = ESingle))
          && negb (bool_decide (sighash = ENone))
       then segwit ← segwit_cache; emit (s_sequences segwit)
       else emit zero_hash);
  txin ← lift (of_result (tx_in tx input_index));
  _ ← emit (bytes_of OutPointC (previous_output txin));
  _ ← emit (bytes_of ScriptBuf script_code);
  _ ← emit (bytes_of Amount value);
  _ ← emit (bytes_of Sequence (sequence txin));
  _ ← (if negb (bool_decide (sighash = ESingle)) && negb (bool_decide (sighash = ENone))
       then segwit ← segwit_cache; emit (s_outputs segwit)
       else if bool_decide (sighash = ESingle) && (input_index <? Z.of_nat (length (output tx)))
       then out ← lift (of_run (index (output tx) input_index));
            emit (sha256d_from_engine (engine_input default (bytes_of TxOutC out)))
       else emit zero_hash);
  _ ← emit (bytes_of Abs.codec (lock_time tx));
  emit (bytes_of u32 (to_u32 sighash_type)).

Inductive P2wpkhError := Sighash (e : IndexOutOfBoundsError) | NotP2wpkhScript.

Definition p2wpkh_signature_hash (self : SighashCache) (input_index : Z) (script_pubkey : list byte)
    (value : Z) (sighash_type : EcdsaSighashType) : comp P2wpkhError (list byte) * SighashCache :=
  match p2wpkh_script_code script_pubkey with
  | Panic => (Crash, self)
  | Ret None => (Throw NotP2wpkhScript, self)
  | Ret (Some script_code) =>
      match finish default sha256d_from_engine
              (segwit_v0_encode_signing_data_to input_index script_code value sighash_type) self with
      | (Val h, self) => (Val h, self)
      | (Throw e, self) => (Throw (Sighash e), self)
      | (Crash, self) => (Crash, self)
      end
  end.
Definition p2wsh_signature_hash (self : SighashCache) (input_index : Z) (witness_script : list byte)
    (value : Z) (sighash_type : EcdsaSighashType) :
    comp IndexOutOfBoundsError (list byte) * SighashCache :=
  finish default sha256d_from_engine
    (segwit_v0_encode_signing_data_to input_index witness_script value sighash_type) self.

(** ** Legacy messages *)

Inductive EncodeSigningDataResult (E : Type) :=
| SighashSingleBug
| WriteResult (r : Result E unit).
Arguments SighashSingleBug {E}.
Arguments WriteResult {E} _.

Definition is_sighash_single_bug {E} (self : EncodeSigningDataResult E) : Result E bool :=
  match self with
  | SighashSingleBug => Ok true
  | WriteResult r => (fun _ => false) <$> r
  end.
Definition map_write_err {E E2} (f : E -> E2) (self : EncodeSigningDataResult E) :
    EncodeSigningDataResult E2 :=
  match self with
  | SighashSingleBug => SighashSingleBug
  | WriteResult (Err e) => WriteResult (Err (f e))
  | WriteResult (Ok o) => WriteResult (Ok o)
  end.

(** The transaction [encode_signing_data_to_inner] builds. *)
Definition legacy_inputs (self_ : Transaction) (input_index : Z) (script_pubkey : list byte)
    (sighash : EcdsaSighashType) (anyone_can_pay : bool) : run (list TxIn) :=
  if anyone_can_pay then
    i ← index (input self_) input_index;
    Ret [mkTxIn (previous_output i) script_pubkey (sequence i) Witness.new]
  else
    Ret (imap (fun n i =>
      mkTxIn (previous_output i)
        (if Z.of_nat n =? input_index then script_pubkey else [])
        (if negb (Z.of_nat n =? input_index)
            && (bool_decide (sighash = ESingle) || bool_decide (sighash = ENone))
         then Seq.ZERO else sequence i)
        Witness.new) (input self_)).
Definition legacy_outputs (self_ : Transaction) (input_index : Z) (sighash : EcdsaSighashType) :
    run (list TxOut) :=
  match sighash with
  | EAll => Ret (output self_)
  | ESingle =>
      Ret (imap (fun n out => if Z.of_nat n =? input_index then out else NULL_txout)
             (take (Z.to_nat input_index + 1) (output self_)))
  | ENone => Ret []
  | _ => Panic
  end.

Definition encode_signing_data_to_inner (self_ : Transaction) (input_index : Z)
    (script_pubkey : list byte) (sighash_type : Z) : run (list byte) :=
  let '(sighash, anyone_can_pay) := split_anyonecanpay_flag (from_consensus sighash_type) in
  ins ← legacy_inputs self_ input_index script_pubkey sighash anyone_can_pay;
  outs ← legacy_outputs self_ input_index sighash;
  let tx := mkTx (version self_) (lock_time self_) ins outs in
  Ret (bytes_of TransactionC tx ++ bytes_of (array 4) (le_split 4 sighash_type)).

(** The result and the bytes written. *)
Definition legacy_encode_signing_data_to (self : SighashCache) (input_index : Z)
    (script_pubkey : list byte) (sighash_type : Z) :
    run (EncodeSigningDataResult IndexOutOfBoundsError * list byte) :=
  match tx_in (tx self) input_index with
  | Err e => Ret (WriteResult (Err e), [])
  | Ok _ =>
      if is_invalid_use_of_sighash_single sighash_type input_index (Z.of_nat (length (output (tx self))))
      then Ret (SighashSingleBug, [])
      else
        w ← encode_signing_data_to_inner (tx self) input_index script_pubkey sighash_type;
        Ret (WriteResult (Ok tt), w)
  end.

Definition legacy_signature_hash (self : SighashCache) (input_index : Z)
    (script_pubkey : list byte) (sighash_type : Z) : comp IndexOutOfBoundsError (list byte) :=
  '(r, w) ← of_run (legacy_encode_signing_data_to self input_index script_pubkey sighash_type);
  b ← of_result (is_sighash_single_bug r);
  match b with
  | true => Val UINT256_ONE
  | false => Val (sha256d_from_engine (engine_input default w))
  end.
