(* ===== verification/Signatures.v ===== *)
(** * Signatures with their hash types ([crypto/ecdsa.rs], [crypto/taproot.rs],
      [taproot/serialized_signature.rs])

    An ECDSA signature is its DER form followed by a standard hash type, a taproot signature its
    64 bytes followed by the hash type unless that is the default.  Both have a form without heap
    allocation, an array and a length; the taproot one has an iterator that can be read at both
    ends.  The signatures of the [secp256k1] crate are the class [SecpSigs]. *)

From Stdlib Require Import ZArith Lia.
From coqutil Require Import Byte Word.LittleEndianList.
From stdpp Require Import base tactics option list numbers.
From S2P Require Import Prelude Io Encode HashEngine Sha256 Sha256t Taproot Witness LockTime Script ScriptKinds Transaction Sighash.

#[local] Open Scope Z_scope.

(** ** The signatures of the curve library *)

(** [ecdsa::Signature::from_der], [serialize_der], [schnorr::Signature::from_slice], and the bytes
    of a Schnorr signature. *)
Class SecpSigs := {
  EcdsaSig : Type;
  SchnorrSig : Type;
  SigError : Type;
  from_der : list byte -> Result SigError EcdsaSig;
  serialize_der : EcdsaSig -> list byte;
  schnorr_from_slice : list byte -> Result SigError SchnorrSig;
  schnorr_serialize : SchnorrSig -> list byte;
}.

(** A DER form is at most 72 bytes long and parses to its signature; Schnorr signatures are the
    strings of 64 bytes. *)
Class SecpSigsLaws (S : SecpSigs) : Prop := {
  der_length s : (length (serialize_der s) <= 72)%nat;
  from_serialize_der s : from_der (serialize_der s) = Ok s;
  schnorr_length s : length (schnorr_serialize s) = 64%nat;
  schnorr_from_serialize s : schnorr_from_slice (schnorr_serialize s) = Ok s;
  schnorr_serialize_from bs s : schnorr_from_slice bs = Ok s -> schnorr_serialize s = bs;
  schnorr_from_64 bs : length bs = 64%nat -> exists s, schnorr_from_slice bs = Ok s;
}.

(** [slice::split_last] *)
Definition split_last {A} (l : list A) : option (A * list A) := pop l.

(** ** Signatures held in an array *)

Record SerializedSignature := mkSerialized { sdata : list byte; slen : nat }.

(** [Deref]: [&self.data[..self.len]] *)
Definition deref (self : SerializedSignature) : run (list byte) :=
  _ ← assert_ (slen self <=? length (sdata self))%nat; Ret (take (slen self) (sdata self)).

Section signatures.
Context {S : SecpSigs}.

(** ** ECDSA *)

Record EcdsaSignature := mkEcdsa { ecdsa_sig : EcdsaSig; ecdsa_type : EcdsaSighashType }.

Inductive EcdsaError :=
| SighashType (n : Z)
| EmptySignature
| EcdsaSecp (e : SigError).

Definition sighash_all (signature : EcdsaSig) : EcdsaSignature := mkEcdsa signature EAll.

Definition ecdsa_from_slice (sl : list byte) : Result EcdsaError EcdsaSignature :=
  '(sighash_type, sig) ← ok_or (split_last sl) EmptySignature;
  sighash_type ← map_err SighashType (from_standard (byte.unsigned sighash_type));
  signature ← map_err EcdsaSecp (from_der sig);
  Ok (mkEcdsa signature sighash_type).

Definition MAX_SIG_LEN : nat := 73.

(** [buf[..n].copy_from_slice] and [buf[n] = ...] panic out of range. *)
Definition ecdsa_serialize (self : EcdsaSignature) : run SerializedSignature :=
  let buf := replicate MAX_SIG_LEN Byte.x00 in
  let signature := serialize_der (ecdsa_sig self) in
  _ ← assert_ (length signature <=? MAX_SIG_LEN)%nat;
  let buf := copy_at 0 signature buf in
  _ ← assert_ (length signature <? MAX_SIG_LEN)%nat;
  let buf := <[length signature := byte.of_Z (wrap 8 (to_u32 (ecdsa_type self)))]> buf in
  Ret (mkSerialized buf (length signature + 1)).

Definition ecdsa_to_vec (self : EcdsaSignature) : list byte :=
  serialize_der (ecdsa_sig self) ++ [byte.of_Z (wrap 8 (to_u32 (ecdsa_type self)))].

(** [serialize_to_writer] appends to the writer. *)
Definition ecdsa_serialize_to_writer (self : EcdsaSignature) (writer : list byte) : run (list byte) :=
  sig ← ecdsa_serialize self; bs ← deref sig; Ret (writer ++ bs).

(** ** Taproot *)

Record TaprootSignature := mkTapSig { tap_sig : SchnorrSig; tap_type : TapSighashType }.

Inductive SigFromSliceError :=
| TapSighashError (n : Z)
| TapSecp (e : SigError)
| InvalidSignatureSize (len : nat).

Definition tap_from_slice (sl : list byte) : comp SigFromSliceError TaprootSignature :=
  if (length sl =? 64)%nat then
    signature ← of_result (map_err TapSecp (schnorr_from_slice sl));
    Val (mkTapSig signature TDefault)
  else if (length sl =? 65)%nat then
    '(sighash_type, signature) ← match split_last sl with Some p => Val p | None => Crash end;
    sighash_type ← of_result (map_err TapSighashError (from_consensus_u8 (byte.unsigned sighash_type)));
    signature ← of_result (map_err TapSecp (schnorr_from_slice signature));
    Val (mkTapSig signature sighash_type)
  else Throw (InvalidSignatureSize (length sl)).

Definition tap_to_vec (self : TaprootSignature) : list byte :=
  let ser_sig := schnorr_serialize (tap_sig self) in
  if bool_decide (tap_type self = TDefault) then ser_sig
  else ser_sig ++ [byte.of_Z (tap_to_u8 (tap_type self))].

Definition MAX_LEN : nat := 65.

Definition from_raw_parts (data : list byte) (len : nat) : run SerializedSignature :=
  _ ← assert_ (len <=? MAX_LEN)%nat; Ret (mkSerialized data len).

(** [buf[..64].copy_from_slice(&ser_sig)] panics unless [ser_sig] is 64 bytes long. *)
Definition tap_serialize (self : TaprootSignature) : run SerializedSignature :=
  let buf := replicate MAX_LEN Byte.x00 in
  let ser_sig := schnorr_serialize (tap_sig self) in
  _ ← assert_ (length ser_sig =? 64)%nat;
  let buf := copy_at 0 ser_sig buf in
  let '(buf, len) :=
    if bool_decide (tap_type self = TDefault) then (buf, 64%nat)
    else (<[64%nat := byte.of_Z (tap_to_u8 (tap_type self))]> buf, 65%nat) in
  from_raw_parts buf len.

Definition tap_serialize_to_writer (self : TaprootSignature) (writer : list byte) : run (list byte) :=
  sig ← tap_serialize self; bs ← deref sig; Ret (writer ++ bs).

Definition from_signature (sig : TaprootSignature) : run SerializedSignature := tap_serialize sig.
Definition to_signature (self : SerializedSignature) : comp SigFromSliceError TaprootSignature :=
  bs ← of_run (deref self); tap_from_slice bs.
End signatures.

(** ** [IntoIter]: the bytes of a serialised signature, from both ends *)

Record IntoIter := mkIntoIter { signature : SerializedSignature; ipos : nat }.

Definition into_iter (self : SerializedSignature) : IntoIter := mkIntoIter self 0.

Definition as_slice (self : IntoIter) : run (list byte) :=
  bs ← deref (signature self); _ ← assert_ (ipos self <=? length bs)%nat; Ret (drop (ipos self) bs).

Definition sig_next (self : IntoIter) : run (option byte * IntoIter) :=
  bs ← deref (signature self);
  match bs !! ipos self with
  | None => Ret (None, self)
  | Some b => Ret (Some b, mkIntoIter (signature self) (ipos self + 1))
  end.

(** [self.signature.len() - self.pos] *)
Definition size_hint {bm : BuildMode} (self : IntoIter) : run Z :=
  arith_u 64 (Z.of_nat (slen (signature self)) - Z.of_nat (ipos self)).

Definition sig_nth {bm : BuildMode} (self : IntoIter) (n : nat) : run (option byte * IntoIter) :=
  len ← size_hint self;
  if len <=? Z.of_nat n then Ret (None, mkIntoIter (signature self) (slen (signature self)))
  else sig_next (mkIntoIter (signature self) (ipos self + n)).

Definition set_len_unchecked (self : SerializedSignature) (len : nat) : SerializedSignature :=
  mkSerialized (sdata self) len.

Definition sig_next_back {bm : BuildMode} (self : IntoIter) : run (option byte * IntoIter) :=
  if (ipos self =? slen (signature self))%nat then Ret (None, self)
  else
    new_len ← arith_u 64 (Z.of_nat (slen (signature self)) - 1);
    bs ← deref (signature self);
    byte ← index bs new_len;
    Ret (Some byte, mkIntoIter (set_len_unchecked (signature self) (Z.to_nat new_len)) (ipos self)).

(** ** The two serialised forms agree, and parse back *)

Lemma split_last_snoc {A} (l : list A) x : split_last (l ++ [x]) = Some (x, l).
Proof. unfold split_last, pop. by rewrite reverse_app, reverse_singleton; simpl; rewrite reverse_involutive. Qed.

Lemma split_last_Some {A} (l : list A) x r : split_last l = Some (x, r) <-> l = r ++ [x].
Proof.
  split; [|intros ->; apply split_last_snoc].
  destruct l as [|y l] using rev_ind; [done|]. rewrite split_last_snoc. by intros [= -> ->].
Qed.

Lemma from_standard_iff n ty : from_standard n = Ok ty <-> to_u32 ty = n.
Proof. unfold from_standard. repeat case_match; split; intros H'; destruct ty; simplify_eq/=; try lia; done. Qed.

Lemma from_consensus_u8_iff n ty : from_consensus_u8 n = Ok ty <-> tap_to_u8 ty = n.
Proof. unfold from_consensus_u8. repeat case_match; split; intros H'; destruct ty; simplify_eq/=; try lia; done. Qed.

Lemma ecdsa_type_byte ty : byte.unsigned (byte.of_Z (wrap 8 (to_u32 ty))) = to_u32 ty.
Proof. by destruct ty. Qed.
Lemma tap_type_byte ty : byte.unsigned (byte.of_Z (tap_to_u8 ty)) = tap_to_u8 ty.
Proof. by destruct ty. Qed.

Section sig_proofs.
Context {S : SecpSigs} {L : SecpSigsLaws S}.

Lemma ecdsa_from_slice_iff bs s : ecdsa_from_slice bs = Ok s <-> exists d,
  bs = d ++ [byte.of_Z (wrap 8 (to_u32 (ecdsa_type s)))] /\ from_der d = Ok (ecdsa_sig s).
Proof.
  unfold ecdsa_from_slice. split.
  - destruct (split_last bs) as [[b d]|] eqn:E; [|done]. apply split_last_Some in E as ->. simpl.
    destruct (from_standard _) as [ty|] eqn:Et; [|done]. apply from_standard_iff in Et. simpl.
    destruct (from_der d) eqn:Ed; [|done]. intros [= <-]. exists d. simpl. split; [|done].
    rewrite Et. f_equal. f_equal. rewrite <- (byte.of_Z_unsigned b) at 1. f_equal.
    pose proof (byte.unsigned_range b). unfold wrap. by rewrite Z.mod_small.
  - intros (d & -> & Ed). rewrite split_last_snoc. cbn [ok_or mbind Result_bind].
    rewrite ecdsa_type_byte. rewrite (proj2 (from_standard_iff _ (ecdsa_type s)) eq_refl).
    cbn [map_err mbind Result_bind]. rewrite Ed. by destruct s.
Qed.

Lemma ecdsa_from_to_vec s : ecdsa_from_slice (ecdsa_to_vec s) = Ok s.
Proof. apply ecdsa_from_slice_iff. eexists. split; [done|]. apply from_serialize_der. Qed.

Lemma ecdsa_serialize_eq s : exists z, ecdsa_serialize s = Ret z /\ deref z = Ret (ecdsa_to_vec s).
Proof.
  pose proof (der_length (ecdsa_sig s)) as Hl. unfold ecdsa_serialize.
  set (d := serialize_der (ecdsa_sig s)) in *. set (b := byte.of_Z _).
  unfold assert_. rewrite (proj2 (Nat.leb_le _ _)), (proj2 (Nat.ltb_lt _ _)) by (unfold MAX_SIG_LEN; lia).
  msimpl. eexists. split; [done|]. unfold deref. cbn [sdata slen].
  assert (exists k, (MAX_SIG_LEN - length d = 1 + k)%nat) as [k Hk] by (exists (72 - length d)%nat; unfold MAX_SIG_LEN; lia).
  replace (replicate MAX_SIG_LEN Byte.x00) with (replicate (length d) Byte.x00 ++ Byte.x00 :: replicate k Byte.x00).
  2: { change (Byte.x00 :: replicate k Byte.x00) with (replicate (1 + k) Byte.x00). rewrite <- Hk, <- replicate_add.
       f_equal. unfold MAX_SIG_LEN. lia. }
  unfold copy_at. rewrite take_0. cbn [app]. rewrite drop_app_length' by (by rewrite length_replicate).
  rewrite insert_app_r_alt, Nat.sub_diag by done. simpl insert.
  unfold assert_. rewrite (proj2 (Nat.leb_le _ _)) by (rewrite length_app; simpl; lia). msimpl.
  f_equal. rewrite take_app_ge by lia. replace (length d + 1 - length d)%nat with 1%nat by lia. done.
Qed.

Lemma tap_from_slice_iff bs s : tap_from_slice bs = Val s <->
  bs = tap_to_vec s \/ tap_type s = TDefault /\ bs = tap_to_vec s ++ [Byte.x00].
Proof.
  unfold tap_from_slice, tap_to_vec. split.
  - destruct (Nat.eqb_spec (length bs) 64); [|destruct (Nat.eqb_spec (length bs) 65); [|done]].
    + destruct (schnorr_from_slice bs) as [g|] eqn:E; [|done]. intros [= <-]. left. simpl.
      symmetry. by apply schnorr_serialize_from.
    + destruct (split_last bs) as [[b d]|] eqn:E; [|done]. apply split_last_Some in E as ->. cbn [mbind comp_bind].
      destruct (from_consensus_u8 _) as [ty|] eqn:Et; [|done]. apply from_consensus_u8_iff in Et.
      cbn [map_err of_result mbind comp_bind].
      destruct (schnorr_from_slice d) as [g|] eqn:Eg; [|done]. intros [= <-]. cbn [tap_type tap_sig].
      apply schnorr_serialize_from in Eg as ->. case_bool_decide as Hd.
      * subst ty. right. split; [done|]. by rewrite <- (byte.of_Z_unsigned b), <- Et.
      * left. by rewrite Et, byte.of_Z_unsigned.
  - pose proof (schnorr_length (tap_sig s)) as Hl.
    assert (forall b, from_consensus_u8 (byte.unsigned b) = Ok (tap_type s) ->
      tap_from_slice (schnorr_serialize (tap_sig s) ++ [b]) = Val s) as Hsnoc.
    { intros b Hb. unfold tap_from_slice. rewrite length_app, Hl. simpl Nat.eqb. cbv iota.
      rewrite split_last_snoc. cbn [mbind comp_bind]. rewrite Hb. cbn [map_err of_result mbind comp_bind].
      rewrite schnorr_from_serialize. by destruct s. }
    case_bool_decide as Hd; intros [->|[Ht ->]]; try done.
    + rewrite Hl. simpl Nat.eqb. cbv iota. rewrite schnorr_from_serialize. destruct s. simpl in *. by subst.
    + apply Hsnoc. by rewrite Ht.
    + apply Hsnoc. rewrite tap_type_byte. by apply from_consensus_u8_iff.
Qed.

Lemma tap_from_slice_no_panic bs : tap_from_slice bs <> Crash.
Proof.
  unfold tap_from_slice. destruct (length bs =? 64)%nat; [by destruct (schnorr_from_slice bs)|].
  destruct (Nat.eqb_spec (length bs) 65) as [E|]; [|done].
  destruct bs as [|x l] using rev_ind; [done|]. rewrite split_last_snoc. cbn [mbind comp_bind].
  destruct (from_consensus_u8 _); [|done]. cbn [map_err of_result mbind comp_bind]. by destruct (schnorr_from_slice l).
Qed.

Lemma tap_serialize_eq s : exists z, tap_serialize s = Ret z /\ deref z = Ret (tap_to_vec s).
Proof.
  pose proof (schnorr_length (tap_sig s)) as Hl. unfold tap_serialize, tap_to_vec.
  set (d := schnorr_serialize (tap_sig s)) in *. rewrite Hl. unfold assert_ at 1. simpl Nat.eqb. cbv iota. msimpl.
  replace (replicate MAX_LEN Byte.x00) with (replicate (length d) Byte.x00 ++ [Byte.x00]) by (by rewrite Hl).
  unfold copy_at. rewrite take_0. cbn [app]. rewrite drop_app_length' by (by rewrite length_replicate).
  case_bool_decide; cbv zeta iota; unfold from_raw_parts, assert_; simpl Nat.leb; cbv iota; msimpl;
    eexists; (split; [done|]); unfold deref; cbn [sdata slen]; unfold assert_.
  - rewrite (proj2 (Nat.leb_le _ _)) by (rewrite length_app; simpl; lia). msimpl. f_equal.
    by rewrite take_app_length'.
  - rewrite insert_app_r_alt by lia. rewrite Hl, Nat.sub_diag. simpl insert.
    rewrite (proj2 (Nat.leb_le _ _)) by (rewrite length_app; simpl; lia). msimpl. f_equal.
    rewrite take_ge; [done|]. rewrite length_app. simpl. lia.
Qed.
End sig_proofs.

(** ** The iterator *)

(** The invariant of the iterator, with the bytes that are left. *)
Definition iter_rep (it : IntoIter) (l : list byte) : Prop :=
  (ipos it <= slen (signature it))%nat /\ (slen (signature it) <= length (sdata (signature it)))%nat /\
  Z.of_nat (slen (signature it)) < 2 ^ 64 /\ l = drop (ipos it) (take (slen (signature it)) (sdata (signature it))).

Section iter.
Context {bm : BuildMode} (it : IntoIter) (l : list byte) (Hr : iter_rep it l).

Lemma iter_rep_deref : deref (signature it) = Ret (take (slen (signature it)) (sdata (signature it))).
Proof. destruct Hr as (_ & H & _). unfold deref, assert_. by rewrite (proj2 (Nat.leb_le _ _)). Qed.

Lemma iter_rep_length : length l = (slen (signature it) - ipos it)%nat.
Proof. destruct Hr as (? & ? & _ & ->). rewrite length_drop, length_take. lia. Qed.

Lemma as_slice_spec : as_slice it = Ret l.
Proof.
  unfold as_slice. rewrite iter_rep_deref. msimpl. destruct Hr as (? & ? & _ & ->).
  unfold assert_. rewrite (proj2 (Nat.leb_le _ _)) by (rewrite length_take; lia). done.
Qed.

Lemma size_hint_spec : size_hint it = Ret (Z.of_nat (length l)).
Proof.
  rewrite iter_rep_length. destruct Hr as (? & _ & ? & _). unfold size_hint, arith_u.
  rewrite (proj2 (in_ub_spec _ _)) by (unfold in_u; lia). f_equal. lia.
Qed.

Lemma sig_next_spec : exists it', sig_next it = Ret (head l, it') /\ iter_rep it' (tail l).
Proof.
  unfold sig_next. rewrite iter_rep_deref. msimpl.
  pose proof iter_rep_length as Hlen. destruct Hr as (Hp & Hs & Hb & El).
  assert (take (slen (signature it)) (sdata (signature it)) !! ipos it = head l) as ->.
  { rewrite El, <- (Nat.add_0_r (ipos it)) at 1. rewrite <- lookup_drop. by destruct (drop _ _). }
  destruct l as [|b l'] eqn:E'; simpl in *; eexists; (split; [done|]).
  - split; [done|]. split; [done|]. split; [done|]. by rewrite <- El.
  - split; [simpl; lia|]. split; [done|]. split; [done|]. simpl. rewrite <- drop_drop, <- El. done.
Qed.

Lemma sig_next_back_spec : exists it', sig_next_back it = Ret (list.last l, it') /\
  iter_rep it' (take (length l - 1) l).
Proof.
  pose proof iter_rep_length as Hlen. pose proof iter_rep_deref as Hd. unfold sig_next_back.
  destruct Hr as (Hp & Hs & Hb & El).
  destruct (Nat.eqb_spec (ipos it) (slen (signature it))) as [E|E].
  - assert (l = []) as -> by (apply nil_length_inv; lia). exists it. split; [done|]. by split.
  - unfold arith_u. rewrite (proj2 (in_ub_spec _ _)) by (unfold in_u; lia). msimpl. rewrite Hd. msimpl.
    set (n := slen (signature it)) in *. set (d := sdata (signature it)) in *.
    replace (Z.of_nat n - 1) with (Z.of_nat (n - 1)) by lia.
    assert (list.last l = take n d !! (n - 1)%nat) as Hlast.
    { rewrite last_lookup, El, lookup_drop, length_drop, length_take. f_equal. lia. }
    destruct (lookup_lt_is_Some_2 (take n d) (n - 1)) as [b Eb]; [rewrite length_take; lia|].
    rewrite (index_lookup _ _ b) by (rewrite ?Nat2Z.id; done || lia). msimpl. rewrite Nat2Z.id.
    eexists. split; [by rewrite Hlast, Eb|].
    unfold iter_rep, set_len_unchecked. simpl. fold d. split; [lia|]. split; [lia|]. split; [lia|].
    rewrite Hlen, El. apply list_eq. intros i. rewrite !lookup_drop.
    destruct (decide (i < n - ipos it - 1)%nat).
    + rewrite lookup_take_lt, lookup_drop, !lookup_take_lt by lia. done.
    + rewrite !lookup_take_ge by lia. done.
Qed.
End iter.

Lemma sig_nth_spec {bm : BuildMode} it l n : iter_rep it l ->
  exists it', sig_nth it n = Ret (l !! n, it') /\ iter_rep it' (drop (n + 1) l).
Proof.
  intros Hr. pose proof (iter_rep_length it l Hr) as Hlen. unfold sig_nth. rewrite (size_hint_spec it l Hr). msimpl.
  destruct (Z.leb_spec (Z.of_nat (length l)) (Z.of_nat n)).
  - eexists. split; [by rewrite lookup_ge_None_2 by lia|]. destruct Hr as (Hp & Hs & Hb & El).
    split; [done|]. split; [done|]. split; [done|]. simpl. rewrite !drop_ge; [done|rewrite length_take; lia|lia].
  - assert (iter_rep (mkIntoIter (signature it) (ipos it + n)) (drop n l)) as Hr'.
    { destruct Hr as (Hp & Hs & Hb & El). split; [simpl; lia|]. split; [done|]. split; [done|].
      simpl. by rewrite El, drop_drop. }
    destruct (sig_next_spec _ _ Hr') as (it' & E & Hi). exists it'. split.
    + rewrite E. f_equal. f_equal. rewrite <- (Nat.add_0_r n) at 2. rewrite <- lookup_drop. by destruct (drop n l).
    + rewrite <- drop_drop. by destruct (drop n l).
Qed.

Lemma tap_serialize_rep {S : SecpSigs} {L : SecpSigsLaws S} t z : tap_serialize t = Ret z ->
  deref z = Ret (tap_to_vec t) -> iter_rep (into_iter z) (tap_to_vec t).
Proof.
  intros E D. unfold deref, assert_ in D. destruct (Nat.leb_spec (slen z) (length (sdata z))); [|done].
  cbn [mbind run_bind] in D. injection D as D. unfold iter_rep. simpl. split; [lia|]. split; [done|]. split; [|by rewrite drop_0].
  assert (slen z = length (tap_to_vec t)) as -> by (rewrite <- D, length_take; lia).
  unfold tap_to_vec. case_bool_decide; rewrite ?length_app, schnorr_length; simpl; lia.
Qed.

(** Signatures on the wire.  An ECDSA signature parses exactly from a DER form followed by the
    byte of a standard hash type, and a taproot signature exactly from its bytes or, when its type
    is the default one, also from its bytes followed by a zero byte; parsing does not panic.  What
    [to_vec] writes parses back, the array forms hold the same bytes, and the iterator over the
    array gives them from both ends, skipping with [nth]. *)
Lemma signature_formats_exact {bm : BuildMode} {S : SecpSigs} {L : SecpSigsLaws S} (bs l : list byte)
    (e : EcdsaSignature) (t : TaprootSignature) (it : IntoIter) (n : nat) (Hr : iter_rep it l) :
  (ecdsa_from_slice bs = Ok e <-> exists d,
     bs = d ++ [byte.of_Z (wrap 8 (to_u32 (ecdsa_type e)))] /\ from_der d = Ok (ecdsa_sig e)) /\
  (tap_from_slice bs = Val t <->
     bs = tap_to_vec t \/ tap_type t = TDefault /\ bs = tap_to_vec t ++ [Byte.x00]) /\
  tap_from_slice bs <> Crash /\
  ecdsa_from_slice (ecdsa_to_vec e) = Ok e /\
  ecdsa_serialize_to_writer e l = Ret (l ++ ecdsa_to_vec e) /\
  tap_serialize_to_writer t l = Ret (l ++ tap_to_vec t) /\
  (exists z, tap_serialize t = Ret z /\ to_signature z = Val t /\ iter_rep (into_iter z) (tap_to_vec t)) /\
  (exists it', sig_next it = Ret (head l, it') /\ iter_rep it' (tail l)) /\
  (exists it', sig_next_back it = Ret (list.last l, it') /\ iter_rep it' (take (length l - 1) l)) /\
  (exists it', sig_nth it n = Ret (l !! n, it') /\ iter_rep it' (drop (n + 1) l)).
Proof.
  split; [apply ecdsa_from_slice_iff|]. split; [apply tap_from_slice_iff|].
  split; [apply tap_from_slice_no_panic|]. split; [apply ecdsa_from_to_vec|].
  destruct (ecdsa_serialize_eq e) as (ze & Ee & De). destruct (tap_serialize_eq t) as (zt & Et & Dt).
  unfold ecdsa_serialize_to_writer, tap_serialize_to_writer, to_signature.
  rewrite Ee, Et. msimpl. rewrite De, Dt. split; [done|]. split; [done|]. split.
  - exists zt. split; [done|]. split; [rewrite Dt; apply tap_from_slice_iff; by left|].
    by apply tap_serialize_rep.
  - split; [by apply sig_next_spec|]. split; [by apply sig_next_back_spec|by apply sig_nth_spec].
Qed.

(** A model of the class: signatures are their serialised forms. *)
Module ToySigs.
Definition Der : Type := { l : list byte | (length l <=? 72)%nat = true }.
Definition Schnorr : Type := { l : list byte | (length l =? 64)%nat = true }.

Definition check {P : list byte -> bool} (l : list byte) : Result unit { l : list byte | P l = true } :=
  match Bool.bool_dec (P l) true with left p => Ok (exist _ l p) | right _ => Err tt end.

Lemma check_iff {P} l (s : { l : list byte | P l = true }) : check l = Ok s <-> `s = l.
Proof.
  unfold check. destruct s as [x p]. simpl. destruct (Bool.bool_dec (P l) true) as [q|q].
  - split; [by intros [= ->]|]. intros ->. do 2 f_equal. apply Eqdep_dec.UIP_dec, Bool.bool_dec.
  - split; [done|]. intros ->. done.
Qed.

#[export] Instance sigs : SecpSigs := {|
  EcdsaSig := Der; SchnorrSig := Schnorr; SigError := unit;
  from_der := check; serialize_der := proj1_sig;
  schnorr_from_slice := check; schnorr_serialize := proj1_sig |}.

#[export] Instance sigs_laws : SecpSigsLaws sigs.
Proof.
  split; simpl.
  - intros [l p]. simpl. by apply Nat.leb_le.
  - intros s. by apply check_iff.
  - intros [l p]. simpl. by apply Nat.eqb_eq.
  - intros s. by apply check_iff.
  - intros bs s. apply check_iff.
  - intros bs H. apply Nat.eqb_eq in H. exists (exist _ bs H). by apply check_iff.
Qed.

Definition der : @EcdsaSig sigs := exist _ [Byte.x30; Byte.x00] eq_refl.
Definition schnorr : @SchnorrSig sigs := exist _ (replicate 64 Byte.x07) eq_refl.
End ToySigs.

Definition sample_iter : IntoIter := mkIntoIter (mkSerialized (replicate 65 Byte.x07) 64) 62.

