(* ===== verification/SighashSpec.v ===== *)
(** * What signature hashes are, and what they commit to

    The cache of [Sighash] never changes a result, the messages are those of BIP-341, BIP-143
    and the original rules, and equal taproot or legacy hashes bind the transaction data they
    are meant to bind. *)

From Stdlib Require Import ZArith Lia.
From coqutil Require Import Byte Word.LittleEndianList.
From stdpp Require Import base tactics option list numbers relations.
From S2P Require Import Prelude Io Encode HashEngine Sha256 Sha256t.
From S2P Require Import Witness LockTime Taproot ScriptKinds Transaction Sighash.

#[local] Open Scope Z_scope.
Definition engine_sha256d (m : list byte) : list byte := sha256d_from_engine (engine_input default m).
Lemma engine_hash m : from_engine (engine_input default m) = hash m.
Proof. done. Qed.

#[local] Opaque engine_input from_engine tag_engine hash_tag sha256t_from_engine sha256d_from_engine
  Spec.sha256 tagged_hash hash.

(** ** Computations from a sound cache *)

Definition compute_segwit (t : Transaction) : SegwitCache :=
  let c := compute_common t in
  mkSegwit (hash_again (c_prevouts c)) (hash_again (c_sequences c)) (hash_again (c_outputs c)).

(** Every filled entry is the digest of the current transaction, or of the outputs [ps] it
    spends. *)
Record cache_ok (ps : list TxOut) (c : SighashCache) : Prop := {
  ok_common : from_option (.= compute_common (tx c)) True (common_cache_ c);
  ok_segwit : from_option (.= compute_segwit (tx c)) True (segwit_cache_ c);
  ok_taproot : from_option (.= compute_taproot ps) True (taproot_cache_ c);
}.

(** Run from any sound cache of [t], [m] ends in [r] after writing [bs], and leaves a sound
    cache of [t]. *)
Definition yields {E A} (ps : list TxOut) (t : Transaction) (m : M E A) (r : comp E A)
    (bs : list byte) : Prop :=
  forall c w, cache_ok ps c -> tx c = t ->
  exists c', m (c, w) = (r, (c', w ++ bs)) /\ cache_ok ps c' /\ tx c' = t.

Section yields.
Context {E : Type} (ps : list TxOut) (t : Transaction).

Lemma yields_ret {A} (a : A) : yields ps t (mret a : M E A) (Val a) [].
Proof. intros c w Hc Ht. exists c. by rewrite app_nil_r. Qed.

Lemma yields_emit bs : yields ps t (emit bs : M E unit) (Val tt) bs.
Proof. intros c w Hc Ht. by exists c. Qed.

Lemma yields_lift {A} (r : comp E A) : yields ps t (lift r) r [].
Proof. intros c w Hc Ht. exists c. by rewrite app_nil_r. Qed.

Lemma yields_get : yields ps t (get_tx : M E Transaction) (Val t) [].
Proof. intros c w Hc Ht. exists c. by rewrite app_nil_r, <- Ht. Qed.

Lemma yields_bind {A B} (m : M E A) (k : A -> M E B) a r b1 b2 :
  yields ps t m (Val a) b1 -> yields ps t (k a) r b2 -> yields ps t (m ≫= k) r (b1 ++ b2).
Proof.
  intros Hm Hk c w Hc Ht. destruct (Hm c w Hc Ht) as (c1 & E1 & Hc1 & Ht1).
  destruct (Hk c1 (w ++ b1) Hc1 Ht1) as (c2 & E2 & Hc2 & Ht2).
  exists c2. unfold mbind, M_bind. by rewrite E1, E2, app_assoc.
Qed.

Lemma yields_throw {A B} (m : M E A) (k : A -> M E B) e b :
  yields ps t m (Throw e) b -> yields ps t (m ≫= k) (Throw e) b.
Proof.
  intros Hm c w Hc Ht. destruct (Hm c w Hc Ht) as (c1 & E1 & Hc1 & Ht1).
  exists c1. unfold mbind, M_bind. by rewrite E1.
Qed.

Lemma yields_get_bind {A} (k : Transaction -> M E A) r b :
  yields ps t (k t) r b -> yields ps t (get_tx ≫= k) r b.
Proof. intros Hk. change b with ([] ++ b). eapply yields_bind; [apply yields_get|done]. Qed.

Lemma yields_eq {A} (m : M E A) r bs bs' : yields ps t m r bs -> bs = bs' -> yields ps t m r bs'.
Proof. by intros H <-. Qed.

Lemma yields_common : yields ps t (common_cache : M E CommonCache) (Val (compute_common t)) [].
Proof.
  intros c w Hc Ht. destruct c as [t' [cc|] sc tc]; simpl in Ht; subst t';
    destruct Hc as [H1 H2 H3]; simpl in *; [subst cc|];
    (eexists; split; [by rewrite app_nil_r|]; by repeat split).
Qed.

Lemma yields_segwit : yields ps t (segwit_cache : M E SegwitCache) (Val (compute_segwit t)) [].
Proof.
  intros c w Hc Ht. destruct c as [t' cc [sc|] tc]; simpl in Ht; subst t';
    destruct Hc as [H1 H2 H3]; simpl in *.
  - subst sc. eexists. split; [by rewrite app_nil_r|]. by repeat split.
  - assert (common_cache_minimal_borrow cc t = compute_common t) as -> by (destruct cc; done).
    eexists. split; [by rewrite app_nil_r|]. by repeat split.
Qed.

Lemma yields_taproot : yields ps t (taproot_cache ps : M E TaprootCache) (Val (compute_taproot ps)) [].
Proof.
  intros c w Hc Ht. destruct c as [t' cc sc [tc|]]; simpl in Ht; subst t';
    destruct Hc as [H1 H2 H3]; simpl in *; [subst tc|];
    (eexists; split; [by rewrite app_nil_r|]; by repeat split).
Qed.
End yields.

(** ** Taproot messages *)

(** The prevouts of a call are the outputs [ps] spent, or one of them for [ANYONECANPAY]. *)
Definition uses (ps : list TxOut) (prevouts : Prevouts) : Prop :=
  match prevouts with All l => l = ps | One _ _ => True end.

Definition tap_acp (ty : TapSighashType) : bool := snd (tap_split_anyonecanpay_flag ty).
Definition tap_base (ty : TapSighashType) : TapSighashType := fst (tap_split_anyonecanpay_flag ty).

(** The requests that are answered, and the errors of the others. *)
Definition tap_check (t : Transaction) (prevouts : Prevouts) (input_index : Z) (ty : TapSighashType) :
    Result SighashTaprootError unit :=
  _ ← match prevouts with
      | All ps => if decide (length ps = length (input t)) then Ok tt else Err PrevoutsSize
      | One _ _ => if tap_acp ty then Ok tt else Err PrevoutsKind
      end;
  _ ← (if tap_acp ty then
         _ ← map_err InputsIndex (tx_in t input_index);
         _ ← map_err PrevoutsIndex (get prevouts input_index);
         Ok tt
       else Ok tt);
  if decide (tap_base ty = TSingle) then
    _ ← ok_or (output t !! Z.to_nat input_index)
              (SingleMissingOutput input_index (Z.of_nat (length (output t))));
    Ok tt
  else Ok tt.

(** The signature message of BIP-341, from the digests of the transaction ([cc]) and of the
    spent outputs ([tc]). *)
Definition tap_message (sha : list byte -> list byte) (cc : CommonCache) (tc : TaprootCache)
    (t : Transaction) (prevouts : Prevouts) (input_index : Z) (annex : option (list byte))
    (leaf : option (list byte * Z)) (ty : TapSighashType) : list byte :=
  [Byte.x00] ++ [byte.of_Z (tap_to_u8 ty)]
  ++ bytes_of Version (version t) ++ bytes_of Abs.codec (lock_time t)
  ++ (if tap_acp ty then []
      else c_prevouts cc ++ t_amounts tc ++ t_script_pubkeys tc ++ c_sequences cc)
  ++ (if decide (tap_base ty = TNone \/ tap_base ty = TSingle) then [] else c_outputs cc)
  ++ [byte.of_Z (2 * Z.b2z (bool_decide (is_Some leaf)) + Z.b2z (bool_decide (is_Some annex)))]
  ++ (if tap_acp ty then
        match tx_in t input_index, get prevouts input_index with
        | Ok i, Ok o => bytes_of OutPointC (previous_output i) ++ bytes_of TxOutC o
                          ++ bytes_of Sequence (sequence i)
        | _, _ => []
        end
      else bytes_of u32 (wrap 32 input_index))
  ++ from_option (fun a => sha (bytes_of byte_vec a)) [] annex
  ++ (if decide (tap_base ty = TSingle)
      then from_option (fun o => sha (bytes_of TxOutC o)) [] (output t !! Z.to_nat input_index)
      else [])
  ++ from_option (fun '(h, pos) => h ++ [Byte.x00] ++ bytes_of u32 pos) [] leaf.

Lemma txout_bytes o : bytes_of TxOutC o = bytes_of Amount (value o) ++ bytes_of ScriptBuf (script_pubkey o).
Proof. unfold TxOutC. rewrite impl_bytes. apply fields_bytes. Qed.

(** Runs a computation to its end: each bind either goes on or throws. *)
Ltac yields_run :=
  cbv beta iota zeta;
  lazymatch goal with
  | |- yields _ _ (mbind _ _) _ _ =>
      first [ eapply yields_bind; [ solve [yields_run] | yields_run ]
            | eapply yields_throw; solve [yields_run] ]
  | |- _ => first [ apply yields_emit | apply yields_ret | apply yields_get | apply yields_lift
                  | apply yields_common | apply yields_segwit | apply yields_taproot ]
  end.

Lemma lor_spend_type {A B} (annex : option A) (leaf : option B) :
  bytes_of u8 (Z.lor (Z.lor 0 (opt_byte annex 1)) (opt_byte leaf 2))
  = [byte.of_Z (2 * Z.b2z (bool_decide (is_Some leaf)) + Z.b2z (bool_decide (is_Some annex)))].
Proof. by destruct annex, leaf. Qed.

Lemma u8_bytes b : bytes_of u8 b = [byte.of_Z b].
Proof. done. Qed.

Lemma check_all_ok ps t : length ps = length (input t) -> check_all (All ps) t = Ok tt.
Proof. intros H. cbn [check_all]. by rewrite (proj2 (Nat.eqb_eq _ _) H). Qed.
Lemma check_all_err ps t : length ps <> length (input t) -> check_all (All ps) t = Err PrevoutsSize.
Proof. intros H. cbn [check_all]. by rewrite (proj2 (Nat.eqb_neq _ _) H). Qed.

(** Decides the comparisons of signature hash types. *)
Ltac decide_types :=
  repeat match goal with
  | |- context [bool_decide (?x = ?y)] =>
      first [ rewrite (bool_decide_true (x = y)) by done | rewrite (bool_decide_false (x = y)) by done ]
  | |- context [decide (?P)] =>
      first [ rewrite (decide_True (P:=P)) by (done || (by left) || (by right))
            | rewrite (decide_False (P:=P)) by (done || (by intros [?|?])) ]
  end; cbn [negb andb orb].
(** Looks the results of fallible calls up in the context. *)
Ltac rewrite_results :=
  repeat match goal with
  | H : ?x = Ok _ |- context [?x] => rewrite H
  | H : ?x = Err _ |- context [?x] => rewrite H
  | H : ?x = Some _ |- context [?x] => rewrite H
  | H : ?x = None |- context [?x] => rewrite H
  end; cbn [ok_or map_err mbind Result_bind of_result get_all].

Ltac tap_cases :=
  repeat match goal with
  | |- context [tx_in ?t ?i] => destruct (tx_in t i) eqn:?
  | |- context [get ?p ?i] => destruct (get p i) eqn:?
  | |- context [output ?t !! ?i] => destruct (output t !! i) eqn:?
  end.

Lemma taproot_yields ps t prevouts input_index annex leaf ty : uses ps prevouts ->
  exists bs,
    yields ps t (taproot_encode_signing_data_to input_index prevouts annex leaf ty)
      (of_result (tap_check t prevouts input_index ty)) bs /\
    (tap_check t prevouts input_index ty = Ok tt ->
     bs = tap_message hash (compute_common t) (compute_taproot ps) t prevouts input_index annex leaf ty).
Proof.
  intros Hu. unfold tap_check, taproot_encode_signing_data_to, tap_message.
  rewrite <- lor_spend_type.
  assert (match prevouts with
          | One _ _ => check_all prevouts t = Ok tt
          | All ps => if decide (length ps = length (input t)) then check_all prevouts t = Ok tt
                      else check_all prevouts t = Err PrevoutsSize
          end) as Hc.
  { destruct prevouts; [done|]. destruct (decide _); [by apply check_all_ok|by apply check_all_err]. }
  destruct prevouts as [i0 o0|l]; [|simpl in Hu; subst l; destruct (decide _)];
    destruct ty; unfold tap_acp, tap_base; cbn [tap_split_anyonecanpay_flag fst snd]; decide_types;
    tap_cases; rewrite_results; destruct annex, leaf as [[]|];
    (eexists; split; [apply yields_get_bind; cbv beta; rewrite_results; yields_run|]).
  all: first [discriminate | intros _]; cbn [from_option]; rewrite ?engine_hash, ?txout_bytes, ?app_nil_l, <- ?app_assoc, ?app_nil_r.
  all: reflexivity.
Qed.

(** ** Segwit version 0 messages *)

(** The signature message of BIP-143. *)
Definition segwit_message (dsha : list byte -> list byte) (sc : SegwitCache) (t : Transaction)
    (input_index : Z) (txin : TxIn) (script_code : list byte) (value : Z) (ty : EcdsaSighashType) :
    list byte :=
  let '(base, acp) := split_anyonecanpay_flag ty in
  bytes_of Version (version t)
  ++ (if acp then zero_hash else s_prevouts sc)
  ++ (if decide (acp = false /\ base = EAll) then s_sequences sc else zero_hash)
  ++ bytes_of OutPointC (previous_output txin) ++ bytes_of byte_vec script_code
  ++ bytes_of u64 value ++ bytes_of u32 (sequence txin)
  ++ match base, output t !! Z.to_nat input_index with
     | EAll, _ => s_outputs sc
     | ESingle, Some o => dsha (bytes_of TxOutC o)
     | _, _ => zero_hash
     end
  ++ bytes_of Abs.codec (lock_time t) ++ bytes_of u32 (to_u32 ty).

Lemma index_output t i : 0 <= i ->
  match output t !! Z.to_nat i with
  | Some o => index (output t) i = Ret o /\ (i <? Z.of_nat (length (output t))) = true
  | None => (i <? Z.of_nat (length (output t))) = false
  end.
Proof.
  intros Hi. destruct (output t !! Z.to_nat i) eqn:El.
  - split; [by apply index_lookup|]. apply lookup_lt_Some in El. lia.
  - apply lookup_ge_None in El. lia.
Qed.

Lemma segwit_yields ps t input_index script_code value ty : 0 <= input_index ->
  exists bs,
    yields ps t (segwit_v0_encode_signing_data_to input_index script_code value ty)
      (of_result ((fun _ => tt) <$> tx_in t input_index)) bs /\
    (forall i, tx_in t input_index = Ok i ->
     bs = segwit_message engine_sha256d (compute_segwit t) t input_index i script_code value ty).
Proof.
  intros Hi. unfold segwit_v0_encode_signing_data_to, segwit_message, engine_sha256d.
  pose proof (index_output t input_index Hi) as Ho.
  destruct (output t !! Z.to_nat input_index) as [o|]; [destruct Ho as [Ho Hlt]|rename Ho into Hlt];
    destruct ty; cbn [split_anyonecanpay_flag];
    rewrite ?(decide_True (P:=_ /\ _)), ?(decide_False (P:=_ /\ _)) by (done || (by intros [? ?]));
    destruct (tx_in t input_index) eqn:E; cbn [fmap Result_fmap of_result];
    (eexists; split; [apply yields_get_bind; cbv beta; decide_types;
       rewrite ?Hlt, ?E, ?Ho; cbn [of_result of_run negb andb]; yields_run|]).
  all: first [discriminate | intros ? [= <-]]; rewrite ?app_nil_l, <- ?app_assoc, ?app_nil_r; reflexivity.
Qed.

(** ** The cache is transparent *)

(** A transaction with its witnesses removed. *)
Definition strip_tx (t : Transaction) : Transaction :=
  mkTx (version t) (lock_time t) (map strip (input t)) (output t).

Lemma compute_common_strip t : compute_common (strip_tx t) = compute_common t.
Proof.
  unfold compute_common, strip_tx; cbn [input output].
  generalize (default, default). induction (input t) as [|i l IH]; intros [p s]; [done|].
  cbn [map fold_left]. apply IH.
Qed.

Lemma compute_segwit_strip t : compute_segwit (strip_tx t) = compute_segwit t.
Proof. unfold compute_segwit. by rewrite compute_common_strip. Qed.

Lemma tx_in_strip t i : tx_in (strip_tx t) i = strip <$> tx_in t i.
Proof.
  unfold tx_in, strip_tx; cbn [input]. rewrite length_map.
  change (map strip (input t)) with (strip <$> input t). rewrite list_lookup_fmap.
  by destruct (input t !! Z.to_nat i).
Qed.

Lemma tap_check_strip t prevouts i ty : tap_check (strip_tx t) prevouts i ty = tap_check t prevouts i ty.
Proof.
  unfold tap_check. rewrite tx_in_strip. unfold strip_tx; cbn [input output]. rewrite length_map.
  by destruct (tx_in t i).
Qed.

Lemma tap_message_strip sha cc tc t prevouts i annex leaf ty :
  tap_message sha cc tc (strip_tx t) prevouts i annex leaf ty
  = tap_message sha cc tc t prevouts i annex leaf ty.
Proof.
  unfold tap_message. rewrite tx_in_strip. unfold strip_tx; cbn [version lock_time output].
  by destruct (tx_in t i).
Qed.

Lemma segwit_message_strip dsha sc t i txin script value ty :
  segwit_message dsha sc (strip_tx t) i (strip txin) script value ty
  = segwit_message dsha sc t i txin script value ty.
Proof. done. Qed.

Lemma legacy_inputs_strip t i script base acp :
  legacy_inputs (strip_tx t) i script base acp = legacy_inputs t i script base acp.
Proof.
  unfold legacy_inputs, strip_tx; cbn [input]. destruct acp.
  - unfold index. change (map strip (input t)) with (strip <$> input t). rewrite list_lookup_fmap.
    destruct (_ <? _); [done|]. by destruct (input t !! Z.to_nat i).
  - change (map strip (input t)) with (strip <$> input t). by rewrite imap_fmap.
Qed.

Lemma legacy_inner_strip t i script ty :
  encode_signing_data_to_inner (strip_tx t) i script ty = encode_signing_data_to_inner t i script ty.
Proof.
  unfold encode_signing_data_to_inner. destruct (split_anyonecanpay_flag _).
  by rewrite legacy_inputs_strip.
Qed.

(** Requests for a signature hash, and their answers. *)
Inductive request :=
| TaprootHash (input_index : Z) (prevouts : Prevouts) (annex : option (list byte))
    (leaf : option (list byte * Z)) (ty : TapSighashType)
| P2wpkhHash (input_index : Z) (script_pubkey : list byte) (value : Z) (ty : EcdsaSighashType)
| P2wshHash (input_index : Z) (witness_script : list byte) (value : Z) (ty : EcdsaSighashType)
| LegacyHash (input_index : Z) (script_pubkey : list byte) (ty : Z).
Inductive answer :=
| TaprootAnswer (r : comp SighashTaprootError (list byte))
| P2wpkhAnswer (r : comp P2wpkhError (list byte))
| P2wshAnswer (r : comp IndexOutOfBoundsError (list byte))
| LegacyAnswer (r : comp IndexOutOfBoundsError (list byte)).

Definition perform (c : SighashCache) (q : request) : answer * SighashCache :=
  match q with
  | TaprootHash i p a l ty => prod_map TaprootAnswer id (taproot_signature_hash c i p a l ty)
  | P2wpkhHash i s v ty => prod_map P2wpkhAnswer id (p2wpkh_signature_hash c i s v ty)
  | P2wshHash i s v ty => prod_map P2wshAnswer id (p2wsh_signature_hash c i s v ty)
  | LegacyHash i s ty => (LegacyAnswer (legacy_signature_hash c i s ty), c)
  end.

(** The requests about a transaction that spends [ps]. *)
Definition request_ok (ps : list TxOut) (q : request) : Prop :=
  match q with
  | TaprootHash i p _ _ _ => 0 <= i /\ uses ps p
  | P2wpkhHash i _ _ _ | P2wshHash i _ _ _ | LegacyHash i _ _ => 0 <= i
  end.

(** A cache in use: requests, and witnesses put into the transaction. *)
Inductive step (ps : list TxOut) : SighashCache -> SighashCache -> Prop :=
| step_request c q : request_ok ps q -> step ps c (snd (perform c q))
| step_witness c c' i w : witness_mut c i w = Some c' -> step ps c c'.

Lemma finish_yields {E} enc f (m : M E unit) ps t r bs c : yields ps t m r bs ->
  cache_ok ps c -> tx c = t ->
  exists c', finish enc f m c = (match r with
                                 | Val _ => Val (f (engine_input enc bs))
                                 | Throw e => Throw e
                                 | Crash => Crash
                                 end, c') /\ cache_ok ps c' /\ tx c' = t.
Proof.
  intros Hm Hc Ht. destruct (Hm c [] Hc Ht) as (c' & E1 & Hc' & Ht'). exists c'.
  unfold finish. rewrite E1. by destruct r.
Qed.

(** What a request is answered, from the transaction alone. *)
Definition reply (ps : list TxOut) (t : Transaction) (q : request) : answer :=
  match q with
  | TaprootHash i p a l ty =>
      TaprootAnswer (match tap_check t p i ty with
        | Ok _ => Val (sha256t_from_engine (engine_input (tag_engine TapSighashTag)
                    (tap_message hash (compute_common t) (compute_taproot ps) t p i a l ty)))
        | Err e => Throw e
        end)
  | P2wpkhHash i s v ty =>
      P2wpkhAnswer (match p2wpkh_script_code s with
        | Panic => Crash
        | Ret None => Throw NotP2wpkhScript
        | Ret (Some code) =>
            match tx_in t i with
            | Ok txin => Val (engine_sha256d (segwit_message engine_sha256d (compute_segwit t) t i txin code v ty))
            | Err e => Throw (Sighash e)
            end
        end)
  | P2wshHash i s v ty =>
      P2wshAnswer (match tx_in t i with
        | Ok txin => Val (engine_sha256d (segwit_message engine_sha256d (compute_segwit t) t i txin s v ty))
        | Err e => Throw e
        end)
  | LegacyHash i s ty => LegacyAnswer (legacy_signature_hash (cache_new t) i s ty)
  end.

Lemma segwit_finish ps c i s v ty : 0 <= i -> cache_ok ps c ->
  exists c', finish default sha256d_from_engine (segwit_v0_encode_signing_data_to i s v ty) c
    = (match tx_in (tx c) i with
       | Ok txin => Val (engine_sha256d (segwit_message engine_sha256d (compute_segwit (tx c)) (tx c) i txin s v ty))
       | Err e => Throw e
       end, c') /\ cache_ok ps c' /\ tx c' = tx c.
Proof.
  intros Hi Hc. destruct (segwit_yields ps (tx c) i s v ty Hi) as (bs & Hy & Hbs).
  destruct (finish_yields default sha256d_from_engine _ ps (tx c) _ _ c Hy Hc eq_refl)
    as (c' & E1 & Hc' & Ht'). exists c'. rewrite E1. split; [|done].
  destruct (tx_in (tx c) i) as [txin|e]; cbn [fmap Result_fmap of_result]; [|done].
  by rewrite (Hbs _ eq_refl).
Qed.

Lemma perform_reply ps c q : cache_ok ps c -> request_ok ps q ->
  exists c', perform c q = (reply ps (tx c) q, c') /\ cache_ok ps c' /\ tx c' = tx c.
Proof.
  intros Hc Hq. destruct q as [i p a l ty|i s v ty|i s v ty|i s ty]; cbn [perform reply].
  - destruct Hq as [Hi Hu]. destruct (taproot_yields ps (tx c) p i a l ty Hu) as (bs & Hy & Hbs).
    destruct (finish_yields (tag_engine TapSighashTag) sha256t_from_engine _ ps (tx c) _ _ c Hy Hc eq_refl)
      as (c' & E1 & Hc' & Ht'). exists c'. unfold taproot_signature_hash. rewrite E1.
    split; [|done]. destruct (tap_check (tx c) p i ty) as [[]|e]; cbn [of_result]; [|done].
    by rewrite <- (Hbs eq_refl).
  - unfold p2wpkh_signature_hash. destruct (p2wpkh_script_code s) as [[code|]|]; [|by exists c..].
    destruct (segwit_finish ps c i code v ty Hq Hc) as (c' & E1 & Hc' & Ht'). exists c'. rewrite E1.
    by destruct (tx_in (tx c) i).
  - destruct (segwit_finish ps c i s v ty Hq Hc) as (c' & E1 & Hc' & Ht'). exists c'.
    unfold p2wsh_signature_hash. by rewrite E1.
  - exists c. split; [|done]. unfold legacy_signature_hash, legacy_encode_signing_data_to.
    by destruct c.
Qed.

Lemma reply_strip ps t q : reply ps (strip_tx t) q = reply ps t q.
Proof.
  destruct q as [i p a l ty|i s v ty|i s v ty|i s ty]; cbn [reply].
  - rewrite tap_check_strip, compute_common_strip, tap_message_strip. done.
  - rewrite tx_in_strip, compute_segwit_strip.
    destruct (p2wpkh_script_code s) as [[code|]|]; [|done..]. by destruct (tx_in t i).
  - rewrite tx_in_strip, compute_segwit_strip. by destruct (tx_in t i).
  - f_equal. unfold legacy_signature_hash, legacy_encode_signing_data_to. cbn [tx cache_new].
    rewrite tx_in_strip, legacy_inner_strip. by destruct (tx_in t i).
Qed.

Lemma witness_mut_strip c i w c' : witness_mut c i w = Some c' -> strip_tx (tx c') = strip_tx (tx c).
Proof.
  unfold witness_mut. destruct (input (tx c) !! Z.to_nat i) as [x|] eqn:Ei; [|done].
  intros [= <-]. cbn [tx]. unfold strip_tx; cbn [version lock_time input output]. f_equal.
  change (map strip ?l) with (strip <$> l). rewrite list_fmap_insert.
  apply list_insert_id. by rewrite list_lookup_fmap, Ei.
Qed.

Lemma witness_mut_ok ps c i w c' : witness_mut c i w = Some c' -> cache_ok ps c -> cache_ok ps c'.
Proof.
  intros Hw [H1 H2 H3]. pose proof (witness_mut_strip _ _ _ _ Hw) as Hs.
  assert (compute_common (tx c') = compute_common (tx c)) as Ec
    by (by rewrite <- compute_common_strip, Hs, compute_common_strip).
  assert (compute_segwit (tx c') = compute_segwit (tx c)) as Es
    by (by rewrite <- compute_segwit_strip, Hs, compute_segwit_strip).
  unfold witness_mut in Hw. destruct (input (tx c) !! Z.to_nat i); [|done]. injection Hw as <-.
  rewrite <- Ec in H1. rewrite <- Es in H2. by split.
Qed.

Lemma new_ok ps t : cache_ok ps (cache_new t).
Proof. by split. Qed.

Lemma reachable_ok ps t c : rtc (step ps) (cache_new t) c ->
  cache_ok ps c /\ strip_tx (tx c) = strip_tx t.
Proof.
  revert c. apply rtc_ind_r; [split; [apply new_ok|done]|]. intros c c' _ Hs [Hc Ht].
  destruct Hs as [c q Hq|c c' i w Hw].
  - destruct (perform_reply ps c q Hc Hq) as (c' & -> & Hc' & Ht'). split; [done|].
    cbn [snd]. by rewrite Ht'.
  - split; [by eapply witness_mut_ok|]. by rewrite (witness_mut_strip _ _ _ _ Hw).
Qed.

(** C17: a cache in use keeps only digests of its transaction and of the outputs [ps] it spends, and
    answers every further request as a fresh cache of the original transaction does: the same hash,
    the same error.  The requests served and asked are any that give the same spent outputs [ps]
    ([request_ok]: taproot requests name all of [ps] or one of them), and any witnesses may have been
    put into the transaction meanwhile.  For a taproot request with other spent outputs it does not
    hold: the first ones are kept ([taproot_cache_keeps_first_prevouts]). *)
Theorem sighash_cache_transparent (ps : list TxOut) (t : Transaction) (c : SighashCache)
    (Hr : rtc (step ps) (cache_new t) c) :
  cache_ok ps c /\ strip_tx (tx c) = strip_tx t /\
  forall q, request_ok ps q -> fst (perform c q) = fst (perform (cache_new t) q).
Proof.
  destruct (reachable_ok ps t c Hr) as [Hc Ht]. split; [done|]. split; [done|]. intros q Hq.
  destruct (perform_reply ps c q Hc Hq) as (? & -> & _).
  destruct (perform_reply ps (cache_new t) q (new_ok _ _) Hq) as (? & -> & _).
  cbn [fst]. by rewrite <- reply_strip, Ht, reply_strip.
Qed.

(** A cache that answered a request, whose transaction then got a witness. *)
Definition used_cache : SighashCache :=
  snd (perform (cache_new sample_tx) (P2wshHash 0 [byte.of_Z 0x51] 7 EAll)).
Definition signed_cache : SighashCache := 
  match witness_mut used_cache 0 (witness_of sample_stack) with Some c => c | None => used_cache end.

Lemma sighash_cache_transparent_witness :
  tx signed_cache <> sample_tx /\
  fst (perform signed_cache (LegacyHash 0 [byte.of_Z 0x51] 3))
  = fst (perform (cache_new sample_tx) (LegacyHash 0 [byte.of_Z 0x51] 3)).
Proof.
  split; [vm_compute; congruence|].
  refine (proj2 (proj2 (sighash_cache_transparent [] sample_tx signed_cache _))
            (LegacyHash 0 [byte.of_Z 0x51] 3) _); [|discriminate].
  apply (rtc_l _ _ used_cache); [apply step_request; discriminate|].
  apply rtc_once, (step_witness _ _ _ 0 (witness_of sample_stack)). reflexivity.
Defined.


(** ** The messages of BIP-341 under SHA-256 *)

Definition hashable (m : list byte) : Prop := 8 * Z.of_nat (length m) < 2 ^ 64.
#[export] Instance hashable_dec m : Decision (hashable m).
Proof. apply Z_lt_dec. Defined.

Definition prevouts_bytes (t : Transaction) : list byte :=
  concat (map (bytes_of OutPointC) (map previous_output (input t))).
Definition sequences_bytes (t : Transaction) : list byte :=
  concat (map (bytes_of u32) (map sequence (input t))).
Definition outputs_bytes (t : Transaction) : list byte := concat (map (bytes_of TxOutC) (output t)).
Definition amounts_bytes (ps : list TxOut) : list byte := concat (map (bytes_of u64) (map value ps)).
Definition scripts_bytes (ps : list TxOut) : list byte :=
  concat (map (bytes_of byte_vec) (map script_pubkey ps)).

Definition spec_common (t : Transaction) : CommonCache :=
  mkCommon (Spec.sha256 (prevouts_bytes t)) (Spec.sha256 (sequences_bytes t)) (Spec.sha256 (outputs_bytes t)).
Definition spec_taproot (ps : list TxOut) : TaprootCache :=
  mkTaprootCache (Spec.sha256 (amounts_bytes ps)) (Spec.sha256 (scripts_bytes ps)).

Lemma chunks_hash l : hashable (concat l) ->
  from_engine (fold_left engine_input l default) = Spec.sha256 (concat l).
Proof.
  intros H. apply from_engine_represents; [|done].
  apply (engine_inputs_represents l default []), default_represents.
Qed.

Lemma fold_pair {A} (f g : A -> list byte) l : forall a b,
  fold_left (fun '(p, s) x => (engine_input p (f x), engine_input s (g x))) l (a, b)
  = (fold_left engine_input (map f l) a, fold_left engine_input (map g l) b).
Proof. induction l as [|x l IH]; intros a b; [done|]. cbn [fold_left map]. apply IH. Qed.

Lemma fold_one {A} (f : A -> list byte) l : forall a,
  fold_left (fun e x => engine_input e (f x)) l a = fold_left engine_input (map f l) a.
Proof. induction l as [|x l IH]; intros a; [done|]. cbn [fold_left map]. apply IH. Qed.

Lemma compute_common_spec t : hashable (prevouts_bytes t) -> hashable (sequences_bytes t) ->
  hashable (outputs_bytes t) -> compute_common t = spec_common t.
Proof.
  intros Hp Hs Ho. unfold compute_common, spec_common, prevouts_bytes, sequences_bytes in *.
  rewrite (fold_pair (fun i => bytes_of OutPointC (previous_output i)) (fun i => bytes_of Sequence (sequence i))).
  rewrite (fold_one (bytes_of TxOutC)), <- (map_map previous_output (bytes_of OutPointC)),
    <- (map_map sequence (bytes_of Sequence)).
  unfold outputs_bytes, Sequence in *. by rewrite !chunks_hash.
Qed.

Lemma compute_taproot_spec ps : hashable (amounts_bytes ps) -> hashable (scripts_bytes ps) ->
  compute_taproot ps = spec_taproot ps.
Proof.
  intros Ha Hs. unfold compute_taproot, spec_taproot, amounts_bytes, scripts_bytes in *.
  rewrite (fold_pair (fun o => bytes_of Amount (value o)) (fun o => bytes_of ScriptBuf (script_pubkey o))).
  rewrite <- (map_map value (bytes_of Amount)), <- (map_map script_pubkey (bytes_of ScriptBuf)).
  unfold Amount, ScriptBuf in *. by rewrite !chunks_hash.
Qed.

Abbreviation bip341_message t ps := (tap_message Spec.sha256 (spec_common t) (spec_taproot ps) t).

(** Everything hashed for a taproot signature hash. *)
Definition tap_msgs (ps : list TxOut) (t : Transaction) (p : Prevouts) (i : Z)
    (a : option (list byte)) (l : option (list byte * Z)) (ty : TapSighashType) : list (list byte) :=
  [tagged_msg TapSighashTag (bip341_message t ps p i a l ty);
   prevouts_bytes t; sequences_bytes t; outputs_bytes t; amounts_bytes ps; scripts_bytes ps]
  ++ from_option (fun a => [bytes_of byte_vec a]) [] a
  ++ from_option (fun o => [bytes_of TxOutC o]) [] (output t !! Z.to_nat i).

Lemma tap_message_ext sha cc tc t p i a l ty :
  (forall x, a = Some x -> sha (bytes_of byte_vec x) = Spec.sha256 (bytes_of byte_vec x)) ->
  (forall o, output t !! Z.to_nat i = Some o -> sha (bytes_of TxOutC o) = Spec.sha256 (bytes_of TxOutC o)) ->
  tap_message sha cc tc t p i a l ty = tap_message Spec.sha256 cc tc t p i a l ty.
Proof.
  intros Ha Ho. unfold tap_message.
  destruct a as [x|], (output t !! Z.to_nat i) as [o|]; cbn [from_option];
    rewrite ?(Ha _ eq_refl), ?(Ho _ eq_refl); done.
Qed.

Lemma taproot_reply_spec ps t p i a l ty : Forall hashable (tap_msgs ps t p i a l ty) ->
  sha256t_from_engine (engine_input (tag_engine TapSighashTag)
    (tap_message hash (compute_common t) (compute_taproot ps) t p i a l ty))
  = Spec.sha256 (tagged_msg TapSighashTag (bip341_message t ps p i a l ty)).
Proof.
  intros H. unfold tap_msgs in H. apply Forall_app in H as [H1 [Ha Ho]%Forall_app].
  repeat (apply Forall_cons_iff in H1 as [? H1]).
  rewrite compute_common_spec, compute_taproot_spec by done.
  rewrite (tap_message_ext hash).
  - rewrite <- tagged_hash_msg. apply tag_engine_input; [vm_compute; done|].
    unfold hashable, tagged_msg in *. rewrite !length_app, !sha256_length in *. lia.
  - intros x ->. apply Forall_cons_iff in Ha as [Ha _]. by apply hash_spec.
  - intros o E. rewrite E in Ho. apply Forall_cons_iff in Ho as [Ho _]. by apply hash_spec.
Qed.

(** C18: from every cache that requests for the same spent outputs [ps] and added witnesses lead to,
    the taproot signature hash of a further request for [ps] is exactly that of BIP-341, the
    [TapSighash]-tagged hash of the signature message, when the request passes the checks; otherwise
    the first check that fails gives the error.  [SIGHASH_SINGLE] for an input without its output is
    such an error, [SingleMissingOutput], as BIP-341 demands: the hash one that the comment on the
    sighash types describes is the legacy hash only.  Key and script path spends are the cases
    without annex, and without or with a leaf. *)
Theorem taproot_sighash_exact (ps : list TxOut) (t : Transaction) (c : SighashCache)
    (Hr : rtc (step ps) (cache_new t) c) (p : Prevouts) (i : Z) (a : option (list byte))
    (l : option (list byte * Z)) (ty : TapSighashType) (Hi : 0 <= i) (Hu : uses ps p)
    (Hh : Forall hashable (tap_msgs ps t p i a l ty)) :
  fst (taproot_signature_hash c i p a l ty)
  = match tap_check t p i ty with
    | Ok _ => Val (tagged_hash TapSighashTag (bip341_message t ps p i a l ty))
    | Err e => Throw e
    end
  /\ (forall h, taproot_key_spend_signature_hash c i p ty = taproot_signature_hash c i p None None ty
      /\ taproot_script_spend_signature_hash c i p h ty
         = taproot_signature_hash c i p None (Some (h, 0xFFFFFFFF)) ty).
Proof.
  split; [|done]. destruct (reachable_ok ps t c Hr) as [Hc Ht].
  destruct (perform_reply ps c (TaprootHash i p a l ty) Hc (conj Hi Hu)) as (c' & E1 & _).
  rewrite <- reply_strip, Ht, reply_strip in E1. cbn [perform reply] in E1.
  rewrite (taproot_reply_spec _ _ _ _ _ _ _ Hh) in E1.
  rewrite tagged_hash_msg. destruct (taproot_signature_hash c i p a l ty) as [r c2].
  injection E1 as -> _. reflexivity.
Qed.

(** The outputs [sample_tx] spends. *)
Definition sample_spent (n : Z) : list TxOut :=
  [mkTxOut n (map byte.of_Z [0x51]); mkTxOut 5 (map byte.of_Z [0x52])].

Lemma taproot_sighash_exact_witness :
  fst (taproot_signature_hash (cache_new sample_tx) 0 (All (sample_spent 1)) None None TDefault)
  = Val (tagged_hash TapSighashTag
      (bip341_message sample_tx (sample_spent 1) (All (sample_spent 1)) 0 None None TDefault)).
Proof.
  refine (proj1 (taproot_sighash_exact (sample_spent 1) sample_tx (cache_new sample_tx) (rtc_refl _ _)
    (All (sample_spent 1)) 0 None None TDefault _ eq_refl _)); [discriminate|].
  apply (bool_decide_eq_true_1 _). vm_compute. reflexivity.
Defined.

(** The taproot digests are kept from the first call: a second call that gives other spent
    outputs gets the hash for the first ones. *)
Lemma taproot_cache_keeps_first_prevouts :
  let ask c n := taproot_key_spend_signature_hash c 0 (All (sample_spent n)) TDefault in
  fst (ask (snd (ask (cache_new sample_tx) 1)) 2) = fst (ask (cache_new sample_tx) 1) /\
  fst (ask (cache_new sample_tx) 2) <> fst (ask (cache_new sample_tx) 1).
Proof. split; vm_compute; [reflexivity|congruence]. Qed.


(** ** What a taproot signature hash commits to *)

Lemma concat_bytes_inj {A} (c : Consensus A) (wf : A -> Prop) `{!Codec c wf} :
  (forall a, wf a -> bytes_of c a <> []) ->
  forall l l', Forall wf l -> Forall wf l' ->
  concat (map (bytes_of c) l) = concat (map (bytes_of c) l') -> l = l'.
Proof.
  intros Hne. induction l as [|a l IH]; intros [|b l'] H1 H2 E; [done| | |]; cbn [map concat] in E.
  - apply Forall_cons_iff in H2 as [Hb _]. symmetry in E. apply app_eq_nil in E as [E _].
    by apply Hne in E.
  - apply Forall_cons_iff in H1 as [Ha _]. apply app_eq_nil in E as [E _]. by apply Hne in E.
  - apply Forall_cons_iff in H1 as [Ha H1], H2 as [Hb H2].
    apply (bytes_of_prefix_free c wf) in E as [-> E]; [|done..]. f_equal. by apply IH.
Qed.

Lemma u_le_nonempty n v : bytes_of (u_le (S n)) v <> [].
Proof. done. Qed.
Lemma outpoint_nonempty o : outpoint_wf o -> bytes_of OutPointC o <> [].
Proof.
  intros [H _] E. destruct o as [x v]. cbn [Transaction.txid] in H. destruct x; [done|].
  cbv [bytes_of OutPointC consensus_encode simple limited] in E. done.
Qed.
Lemma txout_nonempty o : bytes_of TxOutC o <> [].
Proof. rewrite txout_bytes. intros [E _]%app_eq_nil. by apply (u_le_nonempty 7) in E. Qed.
Lemma byte_vec_nonempty s : bytes_of byte_vec s <> [].
Proof.
  unfold bytes_of, byte_vec, consensus_encode_with_size. intros [E _]%app_eq_nil. revert E.
  cbn [consensus_encode VarInt simple]. unfold varint_encode. by repeat case_match.
Qed.

(** Values as the types of the code hold them. *)
Definition tap_wf (t : Transaction) (ps : list TxOut) (p : Prevouts) (a : option (list byte))
    (l : option (list byte * Z)) : Prop :=
  tx_wf t /\ Forall txout_wf ps /\
  match p with One _ o => txout_wf o | All l => Forall txout_wf l end /\
  from_option byte_vec_wf True a /\
  from_option (fun '(h, pos) => length h = 32%nat /\ in_u 32 pos) True l.

(** What two requests with one hash share. *)
Record tap_commits (t t' : Transaction) (ps ps' : list TxOut) (p p' : Prevouts) (i i' : Z)
    (a a' : option (list byte)) (l l' : option (list byte * Z)) (ty ty' : TapSighashType) : Prop := {
  same_type : ty = ty';
  same_version : version t = version t';
  same_lock_time : lock_time t = lock_time t';
  same_inputs : tap_acp ty = false ->
    map previous_output (input t) = map previous_output (input t') /\
    map sequence (input t) = map sequence (input t') /\ ps = ps' /\ wrap 32 i = wrap 32 i';
  same_input : tap_acp ty = true -> exists x x' o,
    tx_in t i = Ok x /\ tx_in t' i' = Ok x' /\ previous_output x = previous_output x' /\
    sequence x = sequence x' /\ get p i = Ok o /\ get p' i' = Ok o;
  same_outputs : tap_base ty <> TNone -> tap_base ty <> TSingle -> output t = output t';
  same_output : tap_base ty = TSingle -> output t !! Z.to_nat i = output t' !! Z.to_nat i';
  same_annex : a = a';
  same_leaf : l = l';
}.

Section commits.
Context (t t' : Transaction) (ps ps' : list TxOut) (p p' : Prevouts) (i i' : Z)
  (a a' : option (list byte)) (l l' : option (list byte * Z)) (ty : TapSighashType).

(** The parts of equal messages. *)
Record tap_parts : Prop := {
  part_version : version t = version t';
  part_lock_time : lock_time t = lock_time t';
  part_digests : tap_acp ty = false ->
    Spec.sha256 (prevouts_bytes t) = Spec.sha256 (prevouts_bytes t') /\
    Spec.sha256 (amounts_bytes ps) = Spec.sha256 (amounts_bytes ps') /\
    Spec.sha256 (scripts_bytes ps) = Spec.sha256 (scripts_bytes ps') /\
    Spec.sha256 (sequences_bytes t) = Spec.sha256 (sequences_bytes t') /\ wrap 32 i = wrap 32 i';
  part_input : tap_acp ty = true -> exists x x' o,
    tx_in t i = Ok x /\ tx_in t' i' = Ok x' /\ previous_output x = previous_output x' /\
    sequence x = sequence x' /\ get p i = Ok o /\ get p' i' = Ok o;
  part_outputs : tap_base ty <> TNone -> tap_base ty <> TSingle ->
    Spec.sha256 (outputs_bytes t) = Spec.sha256 (outputs_bytes t');
  part_output : tap_base ty = TSingle -> exists o o',
    output t !! Z.to_nat i = Some o /\ output t' !! Z.to_nat i' = Some o' /\
    Spec.sha256 (bytes_of TxOutC o) = Spec.sha256 (bytes_of TxOutC o');
  part_annex : match a, a' with
    | Some a, Some a' => Spec.sha256 (bytes_of byte_vec a) = Spec.sha256 (bytes_of byte_vec a')
    | None, None => True
    | _, _ => False
    end;
  part_leaf : l = l';
}.

Lemma tap_check_input : tap_check t p i ty = Ok tt -> tap_acp ty = true ->
  exists x o, tx_in t i = Ok x /\ get p i = Ok o.
Proof.
  unfold tap_check. intros H Ha. rewrite Ha in H.
  destruct (match p with One _ _ => _ | All _ => _ end); [|done]. cbn [mbind Result_bind] in H.
  destruct (tx_in t i) as [x|]; [|done]. cbn [map_err mbind Result_bind] in H.
  destruct (get p i) as [o|]; [|done]. by exists x, o.
Qed.

Lemma tap_check_output : tap_check t p i ty = Ok tt -> tap_base ty = TSingle ->
  exists o, output t !! Z.to_nat i = Some o.
Proof.
  unfold tap_check. intros H Hb. rewrite (decide_True (P:=tap_base ty = TSingle)) in H by done.
  destruct (match p with One _ _ => _ | All _ => _ end); [|done]. cbn [mbind Result_bind] in H.
  destruct (if tap_acp ty then _ else _); [|done]. cbn [mbind Result_bind] in H.
  destruct (output t !! Z.to_nat i) as [o|]; [|done]. by exists o.
Qed.
End commits.

Lemma get_wf p i o : get p i = Ok o -> match p with One _ o => txout_wf o | All l => Forall txout_wf l end ->
  txout_wf o.
Proof.
  destruct p as [j o'|ps]; cbn [get]; intros H Hw; [by destruct (i =? j); simplify_eq|].
  destruct (ps !! Z.to_nat i) eqn:E; [|done]. injection H as ->. by eapply Forall_lookup_1.
Qed.

Lemma tx_in_wf t i x : tx_wf t -> tx_in t i = Ok x -> txin_base_wf x.
Proof.
  intros (_ & _ & [Hf _] & _) H. unfold tx_in in H. destruct (input t !! Z.to_nat i) eqn:E; [|done].
  injection H as ->. apply (Forall_lookup_1 _ _ _ _ Hf) in E. apply E.
Qed.

Lemma of_Z_flags (a a' b b' : bool) :
  byte.of_Z (2 * Z.b2z a + Z.b2z b) = byte.of_Z (2 * Z.b2z a' + Z.b2z b') -> a = a' /\ b = b'.
Proof. by destruct a, a', b, b'. Qed.
Lemma is_Some_bool {A} (o o' : option A) : bool_decide (is_Some o) = bool_decide (is_Some o') ->
  (is_Some o <-> is_Some o').
Proof. intros H. split; intros Hs; [apply (bool_decide_eq_true (is_Some o')); rewrite <- H|
  apply (bool_decide_eq_true (is_Some o)); rewrite H]; by apply bool_decide_eq_true. Qed.

Lemma byte_app_inj (x y : byte) (u v : list byte) : [x] ++ u = [y] ++ v -> x = y /\ u = v.
Proof. by intros [= -> ->]. Qed.

Lemma tap_types_inj ty ty' : byte.of_Z (tap_to_u8 ty) = byte.of_Z (tap_to_u8 ty') -> ty = ty'.
Proof. by destruct ty, ty'. Qed.

Abbreviation tap_input_part t p i ty :=
  (if tap_acp ty then
     match tx_in t i, get p i with
     | Ok x, Ok o => bytes_of OutPointC (previous_output x) ++ bytes_of TxOutC o
                       ++ bytes_of Sequence (sequence x)
     | _, _ => []
     end
   else bytes_of u32 (wrap 32 i)).

Lemma input_part_inj t t' p p' i i' ty r r' : tx_wf t -> tx_wf t' ->
  match p with One _ o => txout_wf o | All l => Forall txout_wf l end ->
  match p' with One _ o => txout_wf o | All l => Forall txout_wf l end ->
  tap_check t p i ty = Ok tt -> tap_check t' p' i' ty = Ok tt ->
  tap_input_part t p i ty ++ r = tap_input_part t' p' i' ty ++ r' ->
  (tap_acp ty = false -> wrap 32 i = wrap 32 i') /\
  (tap_acp ty = true -> exists x x' o,
    tx_in t i = Ok x /\ tx_in t' i' = Ok x' /\ previous_output x = previous_output x' /\
    sequence x = sequence x' /\ get p i = Ok o /\ get p' i' = Ok o) /\ r = r'.
Proof.
  intros Ht Ht' Hp Hp' Hk Hk' E. destruct (tap_acp ty) eqn:Eacp.
  - destruct (tap_check_input t p i ty Hk Eacp) as (x & o & Hx & Ho).
    destruct (tap_check_input t' p' i' ty Hk' Eacp) as (x' & o' & Hx' & Ho').
    rewrite Hx, Ho, Hx', Ho' in E. rewrite <- !app_assoc in E.
    pose proof (tx_in_wf _ _ _ Ht Hx) as (W1 & _ & W2). pose proof (tx_in_wf _ _ _ Ht' Hx') as (W1' & _ & W2').
    apply (bytes_of_prefix_free OutPointC outpoint_wf) in E as [E1 E]; [|done..].
    apply (bytes_of_prefix_free TxOutC txout_wf) in E as [<- E]; [|eapply get_wf; eassumption..].
    apply (bytes_of_prefix_free Sequence (in_u 32)) in E as [E3 E]; [|done..].
    split; [done|]. split; [|done]. intros _. by exists x, x', o.
  - apply (bytes_of_prefix_free u32 (in_u 32)) in E as [E1 E]; [done|apply Z.mod_pos_bound; lia..].
Qed.

Lemma leaf_part_inj (l l' : option (list byte * Z)) :
  from_option (fun '(h, pos) => length h = 32%nat /\ in_u 32 pos) True l ->
  from_option (fun '(h, pos) => length h = 32%nat /\ in_u 32 pos) True l' ->
  (is_Some l <-> is_Some l') ->
  from_option (fun '(h, pos) => h ++ [Byte.x00] ++ bytes_of u32 pos) [] l
  = from_option (fun '(h, pos) => h ++ [Byte.x00] ++ bytes_of u32 pos) [] l' -> l = l'.
Proof.
  destruct l as [[h pos]|], l' as [[h' pos']|]; cbn [from_option]; intros H H' Hs E; [| | |done].
  - destruct H, H'. apply app_inj_1 in E as [-> E]; [|congruence].
    apply byte_app_inj in E as [_ E]. rewrite <- (app_nil_r (bytes_of u32 pos)), <- (app_nil_r (bytes_of u32 pos')) in E.
    by apply (bytes_of_prefix_free u32 (in_u 32)) in E as [-> _].
  - by destruct (proj1 Hs ltac:(eauto)).
  - by destruct (proj2 Hs ltac:(eauto)).
Qed.

Lemma tap_message_parts t t' ps ps' p p' i i' a a' l l' ty ty' :
  tap_wf t ps p a l -> tap_wf t' ps' p' a' l' ->
  tap_check t p i ty = Ok tt -> tap_check t' p' i' ty' = Ok tt ->
  bip341_message t ps p i a l ty = bip341_message t' ps' p' i' a' l' ty' ->
  ty = ty' /\ tap_parts t t' ps ps' p p' i i' a a' l l' ty.
Proof.
  intros (Ht & Hps & Hp & Ha & Hl) (Ht' & Hps' & Hp' & Ha' & Hl') Hk Hk' E. unfold tap_message in E.
  apply byte_app_inj in E as [_ [Ety E]%byte_app_inj]. apply tap_types_inj in Ety. subst ty'.
  split; [done|].
  apply (bytes_of_prefix_free Version (in_i 32)) in E as [Ev E]; [|apply Ht|apply Ht'].
  apply (bytes_of_prefix_free Abs.codec Abs.wf) in E as [Elt E]; [|apply Ht|apply Ht'].
  cbn [spec_common spec_taproot c_prevouts c_sequences c_outputs t_amounts t_script_pubkeys] in E.
  apply app_inj_1 in E as [Ed E];
    [|destruct (tap_acp ty); [done|]; by rewrite !length_app, !sha256_length].
  apply app_inj_1 in E as [Eo E]; [|destruct (decide _); [done|]; by rewrite !sha256_length].
  apply byte_app_inj in E as [Ef E]. apply of_Z_flags in Ef as [Efl Efa].
  apply is_Some_bool in Efl, Efa.
  apply input_part_inj in E as (Ei & Ein & E); [|done..].
  apply app_inj_1 in E as [Ea E];
    [|destruct a, a'; cbn [from_option]; rewrite ?sha256_length; try done;
      by destruct (proj1 Efa ltac:(eauto)) || by destruct (proj2 Efa ltac:(eauto))].
  apply app_inj_1 in E as [Es E];
    [|destruct (decide (tap_base ty = TSingle)) as [Hb|]; [|done];
      destruct (tap_check_output t p i ty Hk Hb) as [? ->], (tap_check_output t' p' i' ty Hk' Hb) as [? ->];
      cbn [from_option]; by rewrite !sha256_length].
  split; [done|done| |done| | | |by apply leaf_part_inj].
  - intros Eacp. rewrite Eacp in Ed.
    repeat (apply app_inj_1 in Ed as [? Ed]; [|by rewrite !sha256_length]).
    repeat (split; [assumption|]). by apply Ei.
  - intros H1 H2. rewrite !(decide_False (P:=tap_base ty = TNone \/ _)) in Eo by (by intros [?|?]). exact Eo.
  - intros Hb. destruct (tap_check_output t p i ty Hk Hb) as [o Ho], (tap_check_output t' p' i' ty Hk' Hb) as [o' Ho'].
    exists o, o'. rewrite !(decide_True (P:=tap_base ty = TSingle)), Ho, Ho' in Es by done.
    split; [done|]. split; [done|]. exact Es.
  - destruct a, a'; cbn [from_option] in Ea; [done|by destruct (proj1 Efa ltac:(eauto))|
      by destruct (proj2 Efa ltac:(eauto))|done].
Qed.

Lemma taproot_hash_inv ps t p i a l ty h : 0 <= i -> uses ps p ->
  Forall hashable (tap_msgs ps t p i a l ty) ->
  fst (taproot_signature_hash (cache_new t) i p a l ty) = Val h ->
  tap_check t p i ty = Ok tt /\ h = Spec.sha256 (tagged_msg TapSighashTag (bip341_message t ps p i a l ty)).
Proof.
  intros Hi Hu Hh Hv.
  destruct (perform_reply ps (cache_new t) (TaprootHash i p a l ty) (new_ok _ _) (conj Hi Hu)) as (c' & E1 & _).
  cbn [perform reply tx cache_new] in E1. rewrite (taproot_reply_spec _ _ _ _ _ _ _ Hh) in E1.
  destruct (taproot_signature_hash _ _ _ _ _ _) as [r c2]. cbn [fst] in Hv. subst r.
  unfold prod_map in E1; cbn [fst snd] in E1. destruct (tap_check t p i ty) as [[]|]; [|discriminate].
  apply (f_equal (fun x => match fst x with TaprootAnswer (Val v) => v | _ => [] end)) in E1.
  cbn [fst] in E1. split; [reflexivity|exact E1].
Qed.

Ltac in_msgs :=
  unfold tap_msgs; cbn [app from_option];
  repeat first [ apply list_elem_of_here | apply list_elem_of_further
               | apply elem_of_app; right ].

(** Without a collision the digests determine what they hash. *)
Lemma tap_parts_commit t t' ps ps' p p' i i' a a' l l' ty :
  tap_wf t ps p a l -> tap_wf t' ps' p' a' l' ->
  (forall m m', m ∈ tap_msgs ps t p i a l ty -> m' ∈ tap_msgs ps' t' p' i' a' l' ty ->
     Spec.sha256 m = Spec.sha256 m' -> m = m') ->
  tap_parts t t' ps ps' p p' i i' a a' l l' ty -> tap_commits t t' ps ps' p p' i i' a a' l l' ty ty.
Proof.
  intros ((_ & _ & [Hin _] & [Hout _]) & Hps & _ & Ha & _) ((_ & _ & [Hin' _] & [Hout' _]) & Hps' & _ & Ha' & _) Hinj.
  intros [Ev Elt Ed Ei Eo Es Ea El]. split; try done.
  - intros Hacp. destruct (Ed Hacp) as (E1 & E2 & E3 & E4 & Ew).
    apply Hinj in E1, E2, E3, E4; [|in_msgs..].
    apply (concat_bytes_inj OutPointC outpoint_wf outpoint_nonempty) in E1;
      [|apply Forall_map; eapply Forall_impl; [eassumption|]; intros ? [[] _]; done..].
    apply (concat_bytes_inj u32 (in_u 32) (fun v _ => u_le_nonempty 3 v)) in E4;
      [|apply Forall_map; eapply Forall_impl; [eassumption|]; intros ? [(? & ? & ?) _]; done..].
    apply (concat_bytes_inj u64 (in_u 64) (fun v _ => u_le_nonempty 7 v)) in E2;
      [|apply Forall_map; eapply Forall_impl; [eassumption|]; intros ? []; done..].
    apply (concat_bytes_inj byte_vec byte_vec_wf (fun v _ => byte_vec_nonempty v)) in E3;
      [|apply Forall_map; eapply Forall_impl; [eassumption|]; intros ? []; done..].
    repeat split; try done. clear -E2 E3. revert ps' E2 E3.
    induction ps as [|[v s] ps IH]; intros [|[v' s'] ps']; cbn [map]; intros; simplify_eq/=; [done|].
    f_equal. by apply IH.
  - intros H1 H2. specialize (Eo H1 H2). apply Hinj in Eo; [|in_msgs..].
    by apply (concat_bytes_inj TxOutC txout_wf (fun v _ => txout_nonempty v)) in Eo.
  - intros Hb. destruct (Es Hb) as (o & o' & Ho & Ho' & E). apply Hinj in E; [|unfold tap_msgs; rewrite ?Ho, ?Ho'; in_msgs..]. rewrite Ho, Ho'.
    rewrite <- (app_nil_r (bytes_of TxOutC o)), <- (app_nil_r (bytes_of TxOutC o')) in E.
    apply (bytes_of_prefix_free TxOutC txout_wf) in E as [-> _]; [done|exact (Forall_lookup_1 _ _ _ _ Hout Ho)|exact (Forall_lookup_1 _ _ _ _ Hout' Ho')].
  - destruct a as [x|], a' as [x'|]; try done. apply Hinj in Ea; [|in_msgs..].
    rewrite <- (app_nil_r (bytes_of byte_vec x)), <- (app_nil_r (bytes_of byte_vec x')) in Ea.
    by apply (bytes_of_prefix_free byte_vec byte_vec_wf) in Ea as [-> _].
Qed.

(** C19: two taproot requests answered with the same hash agree on everything a signature is
    meant to cover: type, version and lock time always; without [ANYONECANPAY] every outpoint,
    sequence and spent output and the input's index, with it this input and the output it
    spends; every output, or the output of the same index, as the type says; annex and leaf.
    Otherwise two of the hashed messages listed are a collision of SHA-256. *)
Theorem taproot_sighash_commits (t t' : Transaction) (ps ps' : list TxOut) (p p' : Prevouts)
    (i i' : Z) (a a' : option (list byte)) (l l' : option (list byte * Z)) (ty ty' : TapSighashType)
    (h : list byte) (Hi : 0 <= i) (Hi' : 0 <= i') (Hu : uses ps p) (Hu' : uses ps' p')
    (Hw : tap_wf t ps p a l) (Hw' : tap_wf t' ps' p' a' l')
    (Hh : Forall hashable (tap_msgs ps t p i a l ty))
    (Hh' : Forall hashable (tap_msgs ps' t' p' i' a' l' ty'))
    (Hv : fst (taproot_signature_hash (cache_new t) i p a l ty) = Val h)
    (Hv' : fst (taproot_signature_hash (cache_new t') i' p' a' l' ty') = Val h) :
  tap_commits t t' ps ps' p p' i i' a a' l l' ty ty' \/
  sha256_collision (tap_msgs ps t p i a l ty) (tap_msgs ps' t' p' i' a' l' ty').
Proof.
  destruct (sha256_collision_dec (tap_msgs ps t p i a l ty) (tap_msgs ps' t' p' i' a' l' ty'))
    as [|Hinj]; [by right|]. left.
  destruct (taproot_hash_inv ps t p i a l ty h Hi Hu Hh Hv) as [Hk ->].
  destruct (taproot_hash_inv ps' t' p' i' a' l' ty' _ Hi' Hu' Hh' Hv') as [Hk' E].
  apply Hinj in E; [|apply list_elem_of_here..]. unfold tagged_msg in E. do 2 apply app_inv_head in E.
  apply tap_message_parts in E as [<- Hparts]; [|done..]. by apply tap_parts_commit.
Qed.

(** Under [NONE|ANYONECANPAY] a transaction with other outputs has the same hash. *)
Definition other_outputs : Transaction :=
  mkTx (version sample_tx) (lock_time sample_tx) (input sample_tx) [].

Lemma sample_tap_wf t : tx_wf t -> tap_wf t (sample_spent 1) (All (sample_spent 1)) None None.
Proof.
  intros Ht. assert (Forall txout_wf (sample_spent 1)) as Hs.
  { repeat constructor; vm_compute; congruence. }
  by repeat (split; [assumption|]).
Qed.
Lemma other_outputs_wf : tx_wf other_outputs.
Proof. destruct sample_tx_wf as (? & ? & ? & _). by repeat (split; [done|]). Qed.

Abbreviation sample_msgs t :=
  (tap_msgs (sample_spent 1) t (All (sample_spent 1)) 0 None None TNonePlusAnyoneCanPay).

Lemma taproot_sighash_commits_witness :
  tap_commits sample_tx other_outputs (sample_spent 1) (sample_spent 1)
    (All (sample_spent 1)) (All (sample_spent 1)) 0 0 None None None None
    TNonePlusAnyoneCanPay TNonePlusAnyoneCanPay \/
  sha256_collision (sample_msgs sample_tx) (sample_msgs other_outputs).
Proof.
  refine (taproot_sighash_commits sample_tx other_outputs (sample_spent 1) (sample_spent 1)
    (All (sample_spent 1)) (All (sample_spent 1)) 0 0 None None None None
    TNonePlusAnyoneCanPay TNonePlusAnyoneCanPay
    (match fst (taproot_signature_hash (cache_new sample_tx) 0 (All (sample_spent 1)) None None TNonePlusAnyoneCanPay)
     with Val h => h | _ => [] end)
    _ _ eq_refl eq_refl (sample_tap_wf _ sample_tx_wf) (sample_tap_wf _ other_outputs_wf) _ _ _ _);
    [discriminate|discriminate|apply (bool_decide_eq_true_1 _)..| |]; vm_compute; reflexivity.
Defined.
