(* ===== verification/SighashLegacy.v ===== *)
(** * Signature hashes before taproot, and signature hash types

    The BIP-143 messages of segwit version 0, the original messages with the [SIGHASH_SINGLE]
    bug, what a legacy signature commits to, and the conversions of signature hash types. *)

From Stdlib Require Import ZArith Lia.
From coqutil Require Import Byte Word.LittleEndianList.
From stdpp Require Import base tactics option list numbers relations.
From S2P Require Import Prelude Io Encode HashEngine Sha256 Sha256t.
From S2P Require Import Witness LockTime Taproot TapSpend Script ScriptKinds Transaction Sighash SighashSpec.

#[local] Open Scope Z_scope.
#[local] Opaque engine_input from_engine tag_engine hash_tag sha256t_from_engine sha256d_from_engine
  Spec.sha256 tagged_hash hash.

(** ** Signature hash types *)

Lemma u32_fin (P : Z -> Prop) (f : Z -> bool) n : (forall x, f x = true -> P x) ->
  forallb f (map Z.of_nat (List.seq 0 n)) = true -> forall x, 0 <= x < Z.of_nat n -> P x.
Proof.
  intros Hf Hb x Hx. apply Hf. rewrite forallb_forall in Hb. apply Hb.
  apply in_map_iff. exists (Z.to_nat x). split; [lia|]. apply in_seq. lia.
Qed.

(** The rule of the reference client: the low five bits choose [NONE] or [SINGLE], anything
    else is [ALL], and bit 7 is [ANYONECANPAY]. *)
Definition core_type (n : Z) : EcdsaSighashType * bool :=
  (if Z.land n 0x1f =? 2 then ENone else if Z.land n 0x1f =? 3 then ESingle else EAll, Z.testbit n 7).

Lemma core_type_masked n : core_type n = core_type (Z.land n 0x9f).
Proof.
  unfold core_type. rewrite <- Z.land_assoc. change (Z.land 0x9f 0x1f) with 0x1f. f_equal.
  rewrite Z.land_spec. change (Z.testbit 0x9f 7) with true. by rewrite andb_true_r.
Qed.

Lemma from_consensus_core n : 0 <= n -> split_anyonecanpay_flag (from_consensus n) = core_type n.
Proof.
  intros Hn. rewrite core_type_masked.
  assert (from_consensus n = from_consensus (Z.land n 0x9f)) as ->.
  { unfold from_consensus. change (Z.lor 0x1f 0x80) with 0x9f. cbv zeta.
    rewrite <- !(Z.land_assoc n 0x9f 0x9f). reflexivity. }
  assert (0 <= Z.land n 0x9f < Z.of_nat 256) as Hx.
  { rewrite Z.land_comm. apply (land_in_u 8); [lia|unfold in_u; lia|done]. }
  revert Hx. generalize (Z.land n 0x9f) as x.
  apply (u32_fin _ (fun x => bool_decide (split_anyonecanpay_flag (from_consensus x) = core_type x))).
  - intros x Hx. by apply bool_decide_eq_true in Hx.
  - vm_compute. reflexivity.
Qed.

(** A decision chain of [if s = key then Ok v] answers each key with its value. *)
Ltac chain :=
  repeat match goal with
  | |- context [decide (?s = ?k)] => destruct (decide (s = k)) as [->|]; [vm_compute; congruence|]
  | |- context [?n =? ?k] => destruct (Z.eqb_spec n k) as [->|]; [vm_compute; congruence|]
  end.

(** Signature hash types convert faithfully.  Names and numbers round-trip, for both kinds
    of types, and nothing else parses, the error carrying the text or number refused; and
    [from_consensus] reads any 32-bit number by the consensus rule: the low five bits choose
    [NONE] or [SINGLE], all else is [ALL], bit 7 is [ANYONECANPAY]. *)
Lemma sighash_types_exact :
  (forall ty, ecdsa_from_str (ecdsa_display ty) = Ok ty /\ from_standard (to_u32 ty) = Ok ty /\
     from_consensus (to_u32 ty) = ty) /\
  (forall ty, tap_from_str (tap_display ty) = Ok ty /\ from_consensus_u8 (tap_to_u8 ty) = Ok ty) /\
  (forall s, match ecdsa_from_str s with Ok ty => s = ecdsa_display ty | Err e => e = s end) /\
  (forall s, match tap_from_str s with Ok ty => s = tap_display ty | Err e => e = s end) /\
  (forall n, match from_standard n with Ok ty => n = to_u32 ty | Err e => e = n end) /\
  (forall n, match from_consensus_u8 n with Ok ty => n = tap_to_u8 ty | Err e => e = n end) /\
  (forall n, 0 <= n -> split_anyonecanpay_flag (from_consensus n) = core_type n) /\
  (forall ty, tap_to_u8 (tap_from_ecdsa ty) = to_u32 ty).
Proof.
  split; [by intros []|]. split; [by intros []|].
  split; [intros s; unfold ecdsa_from_str; chain; done|].
  split; [intros s; unfold tap_from_str; chain; done|].
  split; [intros n; unfold from_standard; chain; done|].
  split; [intros n; unfold from_consensus_u8; chain; done|].
  split; [apply from_consensus_core|by intros []].
Qed.

(** ** Segwit version 0 *)

Definition dsha (m : list byte) : list byte := Spec.sha256 (Spec.sha256 m).

Lemma sha256d_spec m : hashable m -> engine_sha256d m = dsha m.
Proof.
  intros H. apply sha256d_represents; [|done].
  apply (engine_input_represents default []), default_represents.
Qed.

Definition spec_segwit (t : Transaction) : SegwitCache :=
  mkSegwit (dsha (prevouts_bytes t)) (dsha (sequences_bytes t)) (dsha (outputs_bytes t)).
Abbreviation bip143_message t := (segwit_message dsha (spec_segwit t) t).

(** The messages hashed for the digests of a transaction. *)
Definition tx_msgs (t : Transaction) (i : Z) : list (list byte) :=
  [prevouts_bytes t; sequences_bytes t; outputs_bytes t]
  ++ from_option (fun o => [bytes_of TxOutC o]) [] (output t !! Z.to_nat i).

Lemma hash_again_spec m : hash_again (Spec.sha256 m) = dsha m.
Proof. unfold hash_again. apply hash_spec. rewrite sha256_length. lia. Qed.

Lemma compute_segwit_spec t i : Forall hashable (tx_msgs t i) -> compute_segwit t = spec_segwit t.
Proof.
  intros H. unfold tx_msgs in H. apply Forall_app in H as [H _].
  repeat (apply Forall_cons_iff in H as [? H]).
  unfold compute_segwit. rewrite compute_common_spec by done.
  cbn [spec_common c_prevouts c_sequences c_outputs]. by rewrite !hash_again_spec.
Qed.

Lemma dsha_length m : length (dsha m) = 32%nat.
Proof. apply sha256_length. Qed.

Lemma u_le_length n v : length (bytes_of (u_le n) v) = n.
Proof. apply length_le_split. Qed.

Lemma segwit_message_hashable t i txin s v ty : tx_wf t -> tx_in t i = Ok txin -> script_fits s ->
  hashable (bip143_message t i txin s v ty).
Proof.
  intros Ht Hx Hs. unfold hashable, segwit_message.
  destruct (split_anyonecanpay_flag ty) as [base acp].
  pose proof (byte_vec_length s Hs) as Hb. unfold script_fits in Hs.
  pose proof (tx_in_wf _ _ _ Ht Hx) as ([Ho _] & _ & _).
  assert (length (bytes_of OutPointC (previous_output txin)) = 36%nat) as Hop.
  { change (bytes_of OutPointC ?o) with (txid o ++ bytes_of u32 (vout o)).
    unfold u32. by rewrite length_app, Ho, u_le_length. }
  assert (length (if acp then zero_hash else s_prevouts (spec_segwit t)) = 32%nat) as H1
    by (destruct acp; [done|apply dsha_length]).
  assert (length (if decide (acp = false /\ base = EAll) then s_sequences (spec_segwit t) else zero_hash) = 32%nat)
    as H2 by (destruct (decide _); [apply dsha_length|done]).
  assert (length (match base, output t !! Z.to_nat i with
     | EAll, _ => s_outputs (spec_segwit t)
     | ESingle, Some o => dsha (bytes_of TxOutC o)
     | _, _ => zero_hash
     end) = 32%nat) as H3 by (destruct base, (output t !! Z.to_nat i); (done || apply dsha_length)).
  assert (length (bytes_of Version (version t)) = 4%nat) as H4 by apply length_le_split.
  assert (length (bytes_of Abs.codec (lock_time t)) = 4%nat) as H5 by (destruct (lock_time t); apply length_le_split).
  unfold u32, u64. rewrite !length_app, H1, H2, H3, H4, H5, Hop, !u_le_length. lia.
Qed.

(** The P2PKH script of the key hash of a P2WPKH script. *)
Definition p2wpkh_code (s : list byte) : option (list byte) :=
  match s with
  | x :: y :: h => if decide (x = Byte.x00 /\ y = Byte.x14 /\ length h = 20%nat)
                   then Some (map byte.of_Z [0x76; 0xa9; 0x14] ++ h ++ map byte.of_Z [0x88; 0xac])
                   else None
  | _ => None
  end.

Lemma p2wpkh_script_code_spec s : p2wpkh_script_code s = Ret (p2wpkh_code s).
Proof.
  unfold p2wpkh_script_code.
  destruct (is_program_iff s 20 V0 20 ltac:(lia) eq_refl) as (b & Eb & Hb).
  unfold is_p2wpkh, OP_PUSHBYTES_20. change 22%nat with (20 + 2)%nat. rewrite Eb, bind_Ret.
  destruct b; cbn [negb].
  - destruct (proj1 Hb eq_refl) as (h & Hh & ->). cbv zeta.
    change (drop 2 (program_script V0 h)) with h. rewrite Hh. cbn [Nat.eqb assert_]. rewrite bind_Ret.
    change (wpkh_script_code h) with (new_p2pkh h). rewrite new_p2pkh_spec by done.
    unfold program_script, p2wpkh_code. rewrite Hh, decide_True by done. done.
  - f_equal. unfold p2wpkh_code. destruct s as [|x [|y h]]; [done..|].
    destruct (decide _) as [(-> & -> & Hh)|]; [|done].
    enough (false = true) by done. apply Hb. exists h. split; [done|].
    unfold program_script. by rewrite Hh.
Qed.

Lemma segwit_reply_spec t i txin s v ty : tx_wf t -> tx_in t i = Ok txin -> script_fits s ->
  Forall hashable (tx_msgs t i) ->
  engine_sha256d (segwit_message engine_sha256d (compute_segwit t) t i txin s v ty)
  = dsha (bip143_message t i txin s v ty).
Proof.
  intros Ht Hx Hs Hm. rewrite <- sha256d_spec by (by apply segwit_message_hashable).
  rewrite (compute_segwit_spec t i Hm). f_equal.
  unfold tx_msgs in Hm. apply Forall_app in Hm as [_ Hm].
  unfold segwit_message. destruct (split_anyonecanpay_flag ty) as [base acp].
  destruct (output t !! Z.to_nat i) as [o|]; [|done]. cbn [from_option] in Hm.
  apply Forall_cons_iff in Hm as [Hm _]. by rewrite (sha256d_spec _ Hm).
Qed.

(** From a cache in any reachable state, the segwit version 0 signature hashes are exactly
    the double SHA-256 of the BIP-143 message, for every index in range; an index out of range
    is an error that carries it.  A P2WPKH request signs the P2PKH script of the key hash, and
    a script that is not P2WPKH is refused; nothing panics. *)
Lemma segwit_sighash_exact (ps : list TxOut) (t : Transaction) (c : SighashCache)
    (Hr : rtc (step ps) (cache_new t) c) (Ht : tx_wf t) (i : Z) (s : list byte) (v : Z)
    (ty : EcdsaSighashType) (Hi : 0 <= i) (Hs : script_fits s) (Hm : Forall hashable (tx_msgs t i)) :
  fst (p2wsh_signature_hash c i s v ty)
  = match tx_in t i with
    | Ok txin => Val (dsha (bip143_message t i txin s v ty))
    | Err e => Throw e
    end /\
  fst (p2wpkh_signature_hash c i s v ty)
  = match p2wpkh_code s, tx_in t i with
    | None, _ => Throw NotP2wpkhScript
    | Some code, Ok txin => Val (dsha (bip143_message t i txin code v ty))
    | Some _, Err e => Throw (Sighash e)
    end.
Proof.
  destruct (reachable_ok ps t c Hr) as [Hc Hst]. split.
  - destruct (perform_reply ps c (P2wshHash i s v ty) Hc Hi) as (c' & E1 & _).
    rewrite <- reply_strip, Hst, reply_strip in E1. cbn [perform reply] in E1.
    apply (f_equal (fun x => match fst x with P2wshAnswer r => r | _ => Crash end)) in E1.
    unfold prod_map in E1. cbn [fst] in E1. rewrite E1.
    destruct (tx_in t i) as [txin|e] eqn:Hx; [|done]. by rewrite segwit_reply_spec.
  - destruct (perform_reply ps c (P2wpkhHash i s v ty) Hc Hi) as (c' & E1 & _).
    rewrite <- reply_strip, Hst, reply_strip in E1. cbn [perform reply] in E1.
    apply (f_equal (fun x => match fst x with P2wpkhAnswer r => r | _ => Crash end)) in E1.
    unfold prod_map in E1. cbn [fst] in E1. rewrite E1, p2wpkh_script_code_spec.
    destruct (p2wpkh_code s) as [code|] eqn:Hcode; [|done].
    destruct (tx_in t i) as [txin|e] eqn:Hx; [|done]. rewrite segwit_reply_spec; try done.
    unfold p2wpkh_code in Hcode. destruct s as [|? [|? h]]; [done..|].
    destruct (decide _) as [(_ & _ & Hh)|]; [|done]. injection Hcode as <-.
    unfold script_fits. cbn [map app length]. rewrite length_app, Hh. cbn [length]. lia.
Qed.


(** ** Legacy messages *)

Definition signed_input (s : list byte) (x : TxIn) : TxIn :=
  mkTxIn (previous_output x) s (sequence x) Witness.new.
Definition blank_input (base : EcdsaSighashType) (x : TxIn) : TxIn :=
  mkTxIn (previous_output x) [] (if decide (base = EAll) then sequence x else 0) Witness.new.

(** The transaction signed: scripts are blanked but for that of the input signed, and so are
    the parts the type leaves open. *)
Definition legacy_tx (t : Transaction) (i : nat) (txin : TxIn) (s : list byte) (ty : Z) : Transaction :=
  let '(base, acp) := core_type ty in
  mkTx (version t) (lock_time t)
    (if acp then [signed_input s txin]
     else imap (fun n x => if decide (n = i) then signed_input s x else blank_input base x) (input t))
    (match base, output t !! i with
     | EAll, _ => output t
     | ESingle, Some o => replicate i NULL_txout ++ [o]
     | _, _ => []
     end).

Definition legacy_message (t : Transaction) (i : nat) (txin : TxIn) (s : list byte) (ty : Z) : list byte :=
  legacy_bytes (legacy_tx t i txin s ty) ++ le_split 4 ty.

(** [SIGHASH_SINGLE] without an output of the input's index. *)
Definition single_bug (t : Transaction) (i : nat) (ty : Z) : bool :=
  bool_decide (fst (core_type ty) = ESingle /\ (length (output t) <= i)%nat).

Lemma single_bug_spec t i ty : 0 <= i -> 0 <= ty ->
  is_invalid_use_of_sighash_single ty i (Z.of_nat (length (output t))) = single_bug t (Z.to_nat i) ty.
Proof.
  intros Hi Hty. unfold is_invalid_use_of_sighash_single, single_bug.
  rewrite <- from_consensus_core by done.
  assert (is_single (from_consensus ty) = bool_decide (fst (split_anyonecanpay_flag (from_consensus ty)) = ESingle))
    as -> by (by destruct (from_consensus ty)).
  rewrite bool_decide_and. f_equal.
  apply eq_true_iff_eq. rewrite Z.leb_le, bool_decide_eq_true. lia.
Qed.

Lemma core_base ty : fst (core_type ty) = EAll \/ fst (core_type ty) = ENone \/ fst (core_type ty) = ESingle.
Proof. unfold core_type. cbn [fst]. repeat case_match; auto. Qed.

Lemma legacy_inputs_spec t i txin s base acp : 0 <= i -> tx_in t i = Ok txin ->
  base = EAll \/ base = ENone \/ base = ESingle ->
  legacy_inputs t i s base acp
  = Ret (if acp then [signed_input s txin]
         else imap (fun n x => if decide (n = Z.to_nat i) then signed_input s x else blank_input base x) (input t)).
Proof.
  intros Hi Hx Hb. unfold legacy_inputs. destruct acp.
  - unfold tx_in in Hx. destruct (input t !! Z.to_nat i) eqn:El; [|done]. injection Hx as ->.
    by rewrite (index_lookup _ _ _ Hi El).
  - f_equal. apply imap_ext. intros n x _.
    destruct (Z.eqb_spec (Z.of_nat n) i), (decide (n = Z.to_nat i)); try lia; cbn [negb andb]; [done|].
    unfold blank_input. destruct Hb as [->|[->| ->]]; done.
Qed.

Lemma single_outputs (l : list TxOut) (k : nat) o : l !! k = Some o ->
  imap (fun n out => if Z.of_nat n =? Z.of_nat k then out else NULL_txout) (take (k + 1) l)
  = replicate k NULL_txout ++ [o].
Proof.
  intros E. rewrite Nat.add_1_r, (take_S_r _ _ _ E), imap_app. apply lookup_lt_Some in E as Hl. f_equal.
  - apply list_eq. intros n. rewrite list_lookup_imap.
    destruct (decide (n < k)%nat).
    + rewrite lookup_take_lt, lookup_replicate_2 by lia.
      destruct (lookup_lt_is_Some_2 l n) as [y ->]; [lia|]. cbn [fmap option_fmap option_map].
      by rewrite (proj2 (Z.eqb_neq _ _)) by lia.
    + rewrite lookup_take_ge by lia. cbn [fmap option_fmap option_map]. symmetry.
      apply lookup_ge_None_2. rewrite length_replicate. lia.
  - cbn [imap]. rewrite length_take, Nat.min_l by lia. cbn. by rewrite Nat.add_0_r, Z.eqb_refl.
Qed.

Lemma legacy_outputs_spec t i ty : 0 <= i -> single_bug t (Z.to_nat i) ty = false ->
  legacy_outputs t i (fst (core_type ty))
  = Ret (match fst (core_type ty), output t !! Z.to_nat i with
         | EAll, _ => output t
         | ESingle, Some o => replicate (Z.to_nat i) NULL_txout ++ [o]
         | _, _ => []
         end).
Proof.
  intros Hi Hs. unfold legacy_outputs. unfold single_bug in Hs. apply bool_decide_eq_false in Hs.
  destruct (core_base ty) as [E|[E|E]]; rewrite E in *; [done|by destruct (output t !! Z.to_nat i)|].
  destruct (output t !! Z.to_nat i) as [o|] eqn:Eo.
  - f_equal. rewrite <- (single_outputs _ _ _ Eo), Z2Nat.id by done. done.
  - apply lookup_ge_None in Eo. tauto.
Qed.

Lemma legacy_tx_inputs t i txin s ty : input t !! i = Some txin ->
  input (legacy_tx t i txin s ty) <> [] /\
  Forall (fun x => witness x = Witness.new) (input (legacy_tx t i txin s ty)).
Proof.
  intros Hx. unfold legacy_tx. destruct (core_type ty) as [base [|]]; cbn [input]; [by repeat constructor|].
  split.
  - intros E. apply (f_equal length) in E. rewrite length_imap in E. apply lookup_lt_Some in Hx. simpl in E. lia.
  - apply Forall_lookup_2. intros n x. rewrite list_lookup_imap.
    destruct (input t !! n); cbn; [|done]. intros [= <-]. by destruct (decide _).
Qed.

Lemma legacy_tx_bytes t i txin s ty : input t !! i = Some txin ->
  bytes_of TransactionC (legacy_tx t i txin s ty) = legacy_bytes (legacy_tx t i txin s ty).
Proof.
  intros Hx. destruct (legacy_tx_inputs t i txin s ty Hx) as [Hne Hw]. rewrite tx_bytes.
  assert (uses_segwit_serialization (legacy_tx t i txin s ty) = false) as ->; [|done].
  unfold uses_segwit_serialization. rewrite existsb_forallb.
  assert (forallb (fun i => Witness.is_empty (witness i)) (input (legacy_tx t i txin s ty)) = true) as ->.
  { clear Hne. induction Hw as [|x l E _ IH]; [done|]. cbn [forallb]. by rewrite E, IH. }
  cbn [negb]. by destruct (input (legacy_tx t i txin s ty)).
Qed.

Lemma tx_in_lookup t i x : tx_in t i = Ok x -> input t !! Z.to_nat i = Some x.
Proof. unfold tx_in. destruct (input t !! Z.to_nat i); [|done]. by intros [= ->]. Qed.

Lemma encode_inner_spec t i txin s ty : 0 <= i -> 0 <= ty -> tx_in t i = Ok txin ->
  single_bug t (Z.to_nat i) ty = false ->
  encode_signing_data_to_inner t i s ty = Ret (legacy_message t (Z.to_nat i) txin s ty).
Proof.
  intros Hi Hty Hx Hsb. unfold encode_signing_data_to_inner. rewrite (from_consensus_core ty Hty).
  pose proof (legacy_outputs_spec t i ty Hi Hsb) as Ho. pose proof (core_base ty) as Hb.
  pose proof (legacy_tx_bytes t (Z.to_nat i) txin s ty (tx_in_lookup _ _ _ Hx)) as Hl.
  unfold legacy_message. rewrite <- Hl. unfold legacy_tx. destruct (core_type ty) as [base acp].
  cbn [fst] in *. by rewrite (legacy_inputs_spec _ _ txin), bind_Ret, Ho, bind_Ret by done.
Qed.

Lemma legacy_hash_message c i x s ty : 0 <= i -> in_u 32 ty -> tx_in (tx c) i = Ok x ->
  single_bug (tx c) (Z.to_nat i) ty = false -> hashable (legacy_message (tx c) (Z.to_nat i) x s ty) ->
  legacy_signature_hash c i s ty = Val (dsha (legacy_message (tx c) (Z.to_nat i) x s ty)).
Proof.
  intros Hi Hty Hx Hb Hm. unfold legacy_signature_hash, legacy_encode_signing_data_to.
  rewrite Hx, single_bug_spec, Hb, (encode_inner_spec _ _ x) by (unfold in_u in *; (done || lia)).
  rewrite bind_Ret. cbn [of_run is_sighash_single_bug fmap Result_fmap of_result mbind comp_bind].
  change (sha256d_from_engine (engine_input default ?m)) with (engine_sha256d m). by rewrite sha256d_spec.
Qed.

(** C20: a legacy signature hash is decided on every branch, without a panic: an input index
    out of range is an error that carries it, [SIGHASH_SINGLE] without an output of that index
    gives the number one, and otherwise the hash is the double SHA-256 of the transaction
    blanked as the type says, serialised without witnesses, followed by the type in four
    bytes. *)
Theorem legacy_sighash_exact (c : SighashCache) (i : Z) (s : list byte) (ty : Z)
    (Hi : 0 <= i) (Hty : in_u 32 ty)
    (Hm : forall txin, tx_in (tx c) i = Ok txin ->
       hashable (legacy_message (tx c) (Z.to_nat i) txin s ty)) :
  legacy_signature_hash c i s ty
  = match tx_in (tx c) i with
    | Err e => Throw e
    | Ok txin =>
        Val (if single_bug (tx c) (Z.to_nat i) ty then UINT256_ONE
             else dsha (legacy_message (tx c) (Z.to_nat i) txin s ty))
    end.
Proof.
  destruct (tx_in (tx c) i) as [txin|e] eqn:Hx.
  - destruct (single_bug _ _ _) eqn:Hsb; [|by apply legacy_hash_message; auto].
    unfold legacy_signature_hash, legacy_encode_signing_data_to.
    by rewrite Hx, single_bug_spec, Hsb by (unfold in_u in *; lia).
  - unfold legacy_signature_hash, legacy_encode_signing_data_to. by rewrite Hx.
Qed.

Lemma legacy_sighash_exact_witness :
  legacy_signature_hash (cache_new sample_tx) 1 [byte.of_Z 0x51] 3 = Val UINT256_ONE /\
  legacy_signature_hash (cache_new sample_tx) 0 [byte.of_Z 0x51] 3
  = Val (dsha (legacy_message sample_tx 0 (sample_txin Witness.new) [byte.of_Z 0x51] 3)).
Proof.
  split.
  - refine (legacy_sighash_exact (cache_new sample_tx) 1 [byte.of_Z 0x51] 3 _ _ _);
      [discriminate|split; [discriminate|reflexivity]|]. intros txin [= <-]. vm_compute. reflexivity.
  - refine (legacy_sighash_exact (cache_new sample_tx) 0 [byte.of_Z 0x51] 3 _ _ _);
      [discriminate|split; [discriminate|reflexivity]|]. intros txin [= <-]. vm_compute. reflexivity.
Defined.


(** ** What a legacy signature commits to *)

Record legacy_commits (t t' : Transaction) (i i' : nat) (x x' : TxIn) (s s' : list byte) (ty ty' : Z) : Prop := {
  lc_type : ty = ty';
  lc_version : version t = version t';
  lc_lock_time : lock_time t = lock_time t';
  lc_script : s = s';
  lc_outpoint : previous_output x = previous_output x';
  lc_sequence : sequence x = sequence x';
  lc_inputs : snd (core_type ty) = false ->
    i = i' /\ map previous_output (input t) = map previous_output (input t');
  lc_sequences : snd (core_type ty) = false -> fst (core_type ty) = EAll ->
    map sequence (input t) = map sequence (input t');
  lc_outputs : fst (core_type ty) = EAll -> output t = output t';
  lc_output : fst (core_type ty) = ESingle -> i = i' /\ output t !! i = output t' !! i';
}.

Lemma imap_wf {A} (P : A -> Prop) (f : nat -> A -> A) l : (forall n x, P x -> P (f n x)) ->
  Forall P l -> Forall P (imap f l).
Proof.
  intros Hf Hl. apply Forall_lookup_2. intros n y. rewrite list_lookup_imap.
  destruct (l !! n) as [x|] eqn:E; cbn; [|done]. intros [= <-]. apply Hf. by eapply Forall_lookup_1.
Qed.

Lemma blank_wf base x : txin_base_wf x -> txin_base_wf (blank_input base x).
Proof.
  intros (Ho & _ & Hq). unfold blank_input. split; [done|]. split; [done|].
  cbn [sequence]. destruct (decide _); [done|]. unfold in_u; lia.
Qed.

Lemma signed_wf s x : byte_vec_wf s -> txin_base_wf x -> txin_base_wf (signed_input s x).
Proof. by intros Hs (Ho & _ & Hq). Qed.

Lemma legacy_tx_wf t i x s ty : tx_wf t -> input t !! i = Some x -> byte_vec_wf s ->
  tx_wf (legacy_tx t i x s ty).
Proof.
  intros (Hv & Hlt & [Hin Hinl] & [Hout Houtl]) Hx Hs. unfold legacy_tx.
  destruct (core_type ty) as [base acp]. split; [done|]. split; [done|]. cbn [input output]. split.
  - pose proof (Forall_lookup_1 _ _ _ _ Hin Hx) as [Hw _].
    destruct acp; split.
    + constructor; [|done]. split; [by apply signed_wf|apply new_wf].
    + simpl; lia.
    + apply imap_wf; [|done]. intros n y [Hy _].
      destruct (decide _); (split; [|apply new_wf]); [by apply signed_wf|by apply blank_wf].
    + by rewrite length_imap.
  - destruct (output t !! i) as [o|] eqn:Eo; [|by destruct base].
    pose proof (Forall_lookup_1 _ _ _ _ Hout Eo) as Ho. apply lookup_lt_Some in Eo.
    destruct base; try done. split.
    + apply Forall_app. split; [|by constructor]. apply Forall_replicate. split; [done|].
      unfold byte_vec_wf; simpl; lia.
    + rewrite length_app, length_replicate. simpl. lia.
Qed.

(** Equal blanked inputs, the scripts signed not being empty. *)
Lemma imap_inputs_inj base (i i' : nat) s s' x x' (l l' : list TxIn) :
  s <> [] -> s' <> [] -> l !! i = Some x -> l' !! i' = Some x' ->
  imap (fun n x => if decide (n = i) then signed_input s x else blank_input base x) l
  = imap (fun n x => if decide (n = i') then signed_input s' x else blank_input base x) l' ->
  i = i' /\ s = s' /\ previous_output x = previous_output x' /\ sequence x = sequence x' /\
  map previous_output l = map previous_output l' /\ (base = EAll -> map sequence l = map sequence l').
Proof.
  intros Hs Hs' Hx Hx' E.
  assert (forall n, (fun x => if decide (n = i) then signed_input s x else blank_input base x) <$> l !! n
    = (fun x => if decide (n = i') then signed_input s' x else blank_input base x) <$> l' !! n) as Hn.
  { intros n. apply (f_equal (.!! n)) in E. by rewrite !list_lookup_imap in E. }
  pose proof (Hn i) as Hi. rewrite Hx in Hi. cbn [fmap option_fmap option_map] in Hi.
  rewrite decide_True in Hi by done.
  destruct (l' !! i) as [y|] eqn:Ey; [|done]. cbn in Hi. injection Hi as Hi.
  destruct (decide (i = i')) as [<-|].
  2: { unfold signed_input, blank_input in Hi. simplify_eq. }
  assert (y = x') as -> by congruence. unfold signed_input in Hi. injection Hi as H1 H2 H3.
  repeat (split; [done|]). split; [|intros ->]; apply list_eq; intros n;
    change (map ?f ?l) with (f <$> l); rewrite !list_lookup_fmap; specialize (Hn n);
    destruct (l !! n), (l' !! n); cbn in *; try done; destruct (decide (n = i));
    unfold signed_input, blank_input in Hn; simplify_eq; congruence.
Qed.

Lemma legacy_tx_inj t t' i i' x x' s s' ty :
  input t !! i = Some x -> input t' !! i' = Some x' -> s <> [] -> s' <> [] ->
  single_bug t i ty = false -> single_bug t' i' ty = false ->
  legacy_tx t i x s ty = legacy_tx t' i' x' s' ty -> legacy_commits t t' i i' x x' s s' ty ty.
Proof.
  intros Hx Hx' Hs Hs' Hb Hb' E. unfold legacy_tx, single_bug in *.
  apply bool_decide_eq_false in Hb, Hb'.
  destruct (core_type ty) as [base acp] eqn:Ec. injection E as Ev El Ei Eo. cbn [fst] in *.
  assert (s = s' /\ previous_output x = previous_output x' /\ sequence x = sequence x' /\
    (acp = false -> i = i' /\ map previous_output (input t) = map previous_output (input t') /\
      (base = EAll -> map sequence (input t) = map sequence (input t')))) as (H1 & H2 & H3 & H4).
  { destruct acp; [by unfold signed_input in Ei; simplify_eq|].
    apply (imap_inputs_inj base i i' s s' x x') in Ei; tauto. }
  split; rewrite ?Ec; cbn [fst snd]; try done; [naive_solver|naive_solver| |]; intros ->; [done|].
  destruct (output t !! i) as [o|] eqn:Ho; [|apply lookup_ge_None in Ho; tauto].
  destruct (output t' !! i') as [o'|] eqn:Ho'; [|apply lookup_ge_None in Ho'; tauto].
  apply (f_equal length) in Eo as Hlen. rewrite !length_app, !length_replicate in Hlen.
  assert (i = i') as <- by (simpl in Hlen; lia). apply app_inj_1 in Eo as [_ Eo]; [|done].
  split; [done|]. congruence.
Qed.

(** Two legacy requests, for scripts that are not empty and outside the [SIGHASH_SINGLE]
    bug, that give the same hash agree on the type, the version and lock time, the script,
    outpoint and sequence of the input signed; without [ANYONECANPAY] on the index and every
    outpoint, and on every sequence under [ALL]; on the outputs, or under [SINGLE] on the index
    and the output of that index.  Otherwise the messages hashed, or their hashes, collide. *)
Lemma legacy_sighash_commits (c c' : SighashCache) (i i' : Z) (x x' : TxIn) (s s' : list byte)
    (ty ty' : Z) (h : list byte) (Hi : 0 <= i) (Hi' : 0 <= i') (Hty : in_u 32 ty) (Hty' : in_u 32 ty')
    (Hw : tx_wf (tx c)) (Hw' : tx_wf (tx c')) (Hsw : byte_vec_wf s) (Hsw' : byte_vec_wf s')
    (Hs : s <> []) (Hs' : s' <> []) (Hx : tx_in (tx c) i = Ok x) (Hx' : tx_in (tx c') i' = Ok x')
    (Hb : single_bug (tx c) (Z.to_nat i) ty = false) (Hb' : single_bug (tx c') (Z.to_nat i') ty' = false)
    (Hm : hashable (legacy_message (tx c) (Z.to_nat i) x s ty))
    (Hm' : hashable (legacy_message (tx c') (Z.to_nat i') x' s' ty'))
    (Hh : legacy_signature_hash c i s ty = Val h) (Hh' : legacy_signature_hash c' i' s' ty' = Val h) :
  legacy_commits (tx c) (tx c') (Z.to_nat i) (Z.to_nat i') x x' s s' ty ty' \/
  (let m := legacy_message (tx c) (Z.to_nat i) x s ty in
   let m' := legacy_message (tx c') (Z.to_nat i') x' s' ty' in
   sha256_collision [m; Spec.sha256 m] [m'; Spec.sha256 m']).
Proof.
  rewrite (legacy_hash_message c i x) in Hh by done. rewrite (legacy_hash_message c' i' x') in Hh' by done.
  injection Hh as <-. injection Hh' as Hh'. symmetry in Hh'.
  cbv zeta. destruct (sha256_collision_dec [legacy_message (tx c) (Z.to_nat i) x s ty;
      Spec.sha256 (legacy_message (tx c) (Z.to_nat i) x s ty)]
    [legacy_message (tx c') (Z.to_nat i') x' s' ty';
      Spec.sha256 (legacy_message (tx c') (Z.to_nat i') x' s' ty')]) as [|Hinj]; [by right|]. left.
  unfold dsha in Hh'. do 2 (apply Hinj in Hh'; [|in_msgs..]). clear Hinj.
  pose proof (tx_in_lookup _ _ _ Hx) as Lx. pose proof (tx_in_lookup _ _ _ Hx') as Lx'.
  unfold legacy_message in Hh'. rewrite <- !legacy_tx_bytes in Hh' by done.
  apply (bytes_of_prefix_free TransactionC tx_wf) in Hh' as [Et Ety]; [|by apply legacy_tx_wf..].
  assert (ty = ty') as <-.
  { apply (f_equal le_combine) in Ety. rewrite !le_combine_split in Ety.
    unfold in_u in *. rewrite !Z.mod_small in Ety by lia. done. }
  by apply legacy_tx_inj.
Qed.

