(* ===== verification/Block.v ===== *)
(** * Blocks and headers ([blockdata/block.rs], [merkle_tree/block.rs], [pow.rs])

    The 80-byte header with its consensus encoding, the proof-of-work checks (double
    SHA-256, and scrypt as Dogecoin uses it), the block with its merkle and witness
    commitments, sizes and BIP34 height, and merkle blocks.  Scrypt is a function of an
    external crate: it is a parameter, an operation of the class [Scrypt]. *)

From Stdlib Require Import ZArith Lia.
From coqutil Require Import Byte Word.LittleEndianList.
From stdpp Require Import base tactics option list numbers.
From S2P Require Import Prelude U256 Params Pow Io Encode HashEngine Sha256 Merkle.
From S2P Require Import PartialMerkle Witness LockTime Script Transaction.

Open Scope Z_scope.

(** ** The header *)

Record Header := mkHeader {
  header_version : Z;
  prev_blockhash : list byte;
  merkle_root : list byte;
  time : Z;
  header_bits : CompactTarget;
  nonce : Z;
}.

#[export] Instance Header_eq_dec : EqDecision Header.
Proof. solve_decision. Defined.

Definition BlockHash : Consensus (list byte) := array 32.
Definition BlockVersion : Consensus Z := i32.
Definition CompactTargetC : Consensus CompactTarget :=
  simple (fun c => consensus_encode u32 (compact_bits c)) (mkCompact <$> consensus_decode u32).

Definition header_fields (h : Header) :=
  (header_version h, (prev_blockhash h, (merkle_root h, (time h, (header_bits h, nonce h))))).
Definition HeaderC : Consensus Header :=
  impl_consensus_encoding header_fields
    (fun '(v, (p, (m, (t, (b, n))))) => mkHeader v p m t b n)
    (fields BlockVersion (fields BlockHash (fields TxMerkleNode (fields u32 (fields CompactTargetC u32))))).

Definition HEADER_SIZE : Z := 4 + 32 + 32 + 4 + 4 + 4.

Definition block_hash (self : Header) : list byte :=
  sha256d_from_engine (engine_input default (bytes_of HeaderC self)).

(** [Version]: soft-fork signalling (BIP9). *)
Definition VERSION_BITS_MASK : Z := 0x1FFFFFFF.
Definition USE_VERSION_BITS : Z := 0x20000000.
Definition VERSION_ONE : Z := 1.
Definition VERSION_TWO : Z := 2.

Definition is_signalling_soft_fork (version bit : Z) : bool :=
  if 28 <? bit then false
  else if negb (Z.land (wrap 32 version) (Z.lnot VERSION_BITS_MASK) =? USE_VERSION_BITS) then false
  else 0 <? Z.land (Z.land (wrap 32 version) VERSION_BITS_MASK) (Z.shiftl 1 bit).

(** *** Proof of work *)

Inductive ValidationError := BadProofOfWork | BadTarget.

#[export] Instance ValidationError_eq_dec : EqDecision ValidationError.
Proof. solve_decision. Defined.

Definition header_target (self : Header) : Target := Target.from_compact (header_bits self).
Definition header_difficulty (self : Header) (params : Btc.Params) : run Z :=
  Target.difficulty (header_target self) params.
Definition header_work (self : Header) : run Work := Target.to_work (header_target self).

Definition validate_pow (self : Header) (required_target : Target) :
    Result ValidationError (list byte) :=
  let target := header_target self in
  if negb (bool_decide (target = required_target)) then Err BadTarget else
  let hash := block_hash self in
  if Target.is_met_by target hash then Ok hash else Err BadProofOfWork.

(** The [scrypt] crate's function with the parameters [ScryptParams::new(10, 1, 1, 32)]:
    password, salt, and the contents of the 32-byte output buffer it fills. *)
Class Scrypt := scrypt : list byte -> list byte -> list byte.

Section scrypt.
Context {sc : Scrypt}.

(** [BlockHash::from_slice(&output).unwrap()]. *)
Definition block_hash_with_scrypt (self : Header) : run (list byte) :=
  let buf := bytes_of HeaderC self in
  let output := scrypt buf buf in
  if (length output =? 32)%nat then Ret output else Panic.

Definition validate_pow_with_scrypt (self : Header) (required_target : Target) :
    comp ValidationError (list byte) :=
  let target := header_target self in
  if negb (bool_decide (target = required_target)) then Throw BadTarget else
  hash ← of_run (block_hash_with_scrypt self);
  if Target.is_met_by target hash then Val hash else Throw BadProofOfWork.
End scrypt.

(** *** Retargeting from headers *)

Section adjustment.
Context {bm : BuildMode}.

Definition from_header_difficulty_adjustment (last_epoch_boundary current : Header)
    (params : Btc.Params) : run CompactTarget :=
  timespan ← arith_u 32 (time current - time last_epoch_boundary);
  Compact.from_next_work_required (header_bits current) timespan params.
End adjustment.

(** ** The block *)

Record Block := mkBlock { header : Header; txdata : list Transaction }.

#[export] Instance Block_eq_dec : EqDecision Block.
Proof. solve_decision. Defined.

Definition BlockC : Consensus Block :=
  impl_consensus_encoding (fun b => (header b, txdata b)) (fun p => mkBlock (fst p) (snd p))
    (fields HeaderC (vec TransactionC)).

Definition compute_merkle_root (txdata : list Transaction) : run (option (list byte)) :=
  calculate_root parent_hash (map compute_txid txdata).

Definition check_merkle_root (self : Block) : run bool :=
  root ← compute_merkle_root (txdata self);
  Ret match root with
      | Some root => bool_decide (merkle_root (header self) = root)
      | None => false
      end.

(** The first id is replaced by zeros. *)
Definition witness_root (self : Block) : run (option (list byte)) :=
  calculate_root parent_hash
    (imap (fun i t => if (i =? 0)%nat then replicate 32 Byte.x00 else compute_wtxid t) (txdata self)).

Definition compute_witness_commitment (witness_root witness_reserved_value : list byte) : list byte :=
  sha256d_from_engine (engine_input (engine_input default witness_root) witness_reserved_value).

Definition MAGIC : list byte := map byte.of_Z [0x6a; 0x24; 0xaa; 0x21; 0xa9; 0xed].

(** [rposition]: the last output that commits. *)
Definition commits (o : TxOut) : bool :=
  (38 <=? length (script_pubkey o))%nat && bool_decide (take 6 (script_pubkey o) = MAGIC).

Fixpoint rposition (f : TxOut -> bool) (outs : list TxOut) (i : nat) (found : option nat) : option nat :=
  match outs with
  | [] => found
  | o :: outs => rposition f outs (S i) (if f o then Some i else found)
  end.

Definition check_witness_commitment (self : Block) : run bool :=
  if forallb (fun t => forallb (fun i => Witness.is_empty (witness i)) (input t)) (txdata self)
  then Ret true else
  match txdata self with
  | [] => Ret false
  | coinbase :: _ =>
      if negb (is_coinbase coinbase) then Ret false else
      match rposition commits (output coinbase) 0 None with
      | None => Ret false
      | Some pos =>
          o ← index (output coinbase) (Z.of_nat pos);
          let commitment := take 32 (drop 6 (script_pubkey o)) in
          in0 ← index (input coinbase) 0;
          witness_vec ← to_vec (witness in0);
          match witness_vec with
          | [value] =>
              if (length value =? 32)%nat then
                root ← witness_root self;
                Ret match root with
                    | Some root => bool_decide (commitment = compute_witness_commitment root value)
                    | None => false
                    end
              else Ret false
          | _ => Ret false
          end
      end
  end.

(** *** Sizes *)

Definition block_base_size (self : Block) : Z :=
  HEADER_SIZE + varint_size (Z.of_nat (length (txdata self))) + sumZ (map base_size (txdata self)).
Definition block_total_size (self : Block) : run Z :=
  s ← sum_run total_size (txdata self);
  Ret (HEADER_SIZE + varint_size (Z.of_nat (length (txdata self))) + s).
Definition block_weight (self : Block) : run Z :=
  total ← block_total_size self; Ret (block_base_size self * 3 + total).

(** *** The height of BIP34 *)

Inductive Bip34Error := Unsupported | NotPresent | UnexpectedPush (b : list byte) | NegativeHeight.

Definition coinbase (self : Block) : option Transaction := head (txdata self).

Definition bip34_block_height (self : Block) : comp Bip34Error Z :=
  if header_version (header self) <? VERSION_TWO then Throw Unsupported else
  cb ← of_result (ok_or (coinbase self) NotPresent);
  inp ← of_result (ok_or (head (input cb)) NotPresent);
  '(push, _) ← of_run (next (instructions_minimal (script_sig inp)));
  push ← of_result (ok_or push NotPresent);
  match push with
  | Err _ => Throw NotPresent
  | Ok (PushBytes b) =>
      match read_scriptint b with
      | Val h => if h <? 0 then Throw NegativeHeight else Val h
      | Throw _ => Throw (UnexpectedPush b)
      | Crash => Crash
      end
  | Ok (Op _) => Throw NotPresent
  end.

(** ** Merkle blocks *)

Record MerkleBlock := mkMerkleBlock { mb_header : Header; txn : PartialMerkleTree (list byte) }.

Section merkle_block.
Context {bm : BuildMode}.

Definition from_header_txids_with_predicate (header : Header) (block_txids : list (list byte))
    (match_txids : list byte -> bool) : run MerkleBlock :=
  let matches := map match_txids block_txids in
  pmt ← from_txids parent_hash block_txids matches;
  Ret (mkMerkleBlock header pmt).

Definition from_block_with_predicate (block : Block) (match_txids : list byte -> bool) : run MerkleBlock :=
  let block_txids := map compute_txid (txdata block) in
  from_header_txids_with_predicate (header block) block_txids match_txids.

(** The two output vectors of the Rust function are its result here. *)
Definition mb_extract_matches (self : MerkleBlock) :
    comp MerkleBlockError (list (list byte) * list Z) :=
  '(root, matches, indexes) ← extract_matches parent_hash (txn self);
  if bool_decide (root = merkle_root (mb_header self)) then Val (matches, indexes)
  else Throw MerkleRootMismatch.
End merkle_block.

Definition MerkleBlockC : Consensus MerkleBlock :=
  simple (fun m => consensus_encode HeaderC (mb_header m) +++ consensus_encode PMT (txn m))
         (h ← consensus_decode HeaderC; t ← consensus_decode PMT; mret (mkMerkleBlock h t)).

(** ** Codecs *)

Definition hash_wf (h : list byte) : Prop := length h = 32%nat.
Definition header_wf (h : Header) : Prop :=
  in_i 32 (header_version h) /\ hash_wf (prev_blockhash h) /\ hash_wf (merkle_root h) /\
  in_u 32 (time h) /\ compact_wf (header_bits h) /\ in_u 32 (nonce h).

#[export] Instance BlockVersion_Codec : Codec BlockVersion (in_i 32) := i_le_Codec 3.
#[export] Instance BlockVersion_Canonical : Canonical BlockVersion (in_i 32) := i_le_Canonical 3.
#[export] Instance BlockHash_Codec : Codec BlockHash hash_wf := array_Codec 32.
#[export] Instance BlockHash_Canonical : Canonical BlockHash hash_wf := array_Canonical 32.
#[export] Instance TxMerkleNode_Codec : Codec TxMerkleNode hash_wf := array_Codec 32.
#[export] Instance TxMerkleNode_Canonical : Canonical TxMerkleNode hash_wf := array_Canonical 32.
#[export] Instance u32_Codec : Codec u32 (in_u 32) := u_le_Codec 4.
#[export] Instance u32_Canonical : Canonical u32 (in_u 32) := u_le_Canonical 4.

#[export] Instance CompactTarget_Codec : Codec CompactTargetC compact_wf.
Proof.
  apply simple_Codec.
  - intros c Hc. by apply (encode_len (c:=u32)).
  - unfold u32. apply _.
  - intros [b] rest Hb. cbn [compact_bits]. fold (bytes_of u32 b).
    rewrite on_slice_fmap, (finite_roundtrip (c:=u32)) by done. done.
Qed.

#[export] Instance CompactTarget_Canonical : Canonical CompactTargetC compact_wf.
Proof.
  apply simple_Canonical. intros bs c rest. rewrite on_slice_fmap.
  destruct (on_slice _ bs) as [[b r]|] eqn:E; [|done]. intros [= <- <-].
  by apply (finite_canonical (c:=u32)) in E.
Qed.

Definition header_fields_wf :=
  fields_wf (in_i 32) (fields_wf hash_wf (fields_wf hash_wf (fields_wf (in_u 32)
    (fields_wf compact_wf (in_u 32))))).

#[export] Instance Header_Codec : Codec HeaderC header_wf.
Proof.
  refine (impl_Codec header_fields _ _ header_fields_wf _).
  by intros [].
Qed.

#[export] Instance Header_Canonical : Canonical HeaderC header_wf.
Proof.
  refine (impl_Canonical header_fields _ _ header_fields_wf _).
  by intros (? & ? & ? & ? & ? & ?).
Qed.

Definition block_wf (b : Block) : Prop := header_wf (header b) /\ vec_wf tx_wf (txdata b).

#[export] Instance Block_Codec : Codec BlockC block_wf.
Proof.
  refine (impl_Codec (fun b => (header b, txdata b)) _ _ (fields_wf header_wf (vec_wf tx_wf)) _).
  by intros [].
Qed.
#[export] Instance Block_Canonical : Canonical BlockC block_wf.
Proof.
  refine (impl_Canonical (fun b => (header b, txdata b)) _ _ (fields_wf header_wf (vec_wf tx_wf)) _).
  by intros [].
Qed.

Lemma header_bytes h : bytes_of HeaderC h =
  le_split 4 (header_version h) ++ prev_blockhash h ++ merkle_root h ++ le_split 4 (time h) ++
  le_split 4 (compact_bits (header_bits h)) ++ le_split 4 (nonce h).
Proof. done. Qed.

Lemma header_size h : header_wf h -> length (bytes_of HeaderC h) = 80%nat.
Proof.
  intros (_ & Hp & Hm & _). unfold hash_wf in *. rewrite header_bytes, !length_app, !length_le_split. lia.
Qed.

(** Every 80-byte string is a header. *)
Definition header_of_bytes (bs : list byte) : Header :=
  let word i := take 4 (drop i bs) in
  mkHeader (swrap 32 (le_combine (word 0%nat))) (take 32 (drop 4 bs)) (take 32 (drop 36 bs))
    (le_combine (word 68%nat)) (mkCompact (le_combine (word 72%nat))) (le_combine (word 76%nat)).

Lemma take_4_spec (bs : list byte) i : (i + 4 <= length bs)%nat ->
  in_u 32 (le_combine (take 4 (drop i bs))) /\
  le_split 4 (le_combine (take 4 (drop i bs))) = take 4 (drop i bs).
Proof.
  intros H. assert (length (take 4 (drop i bs)) = 4%nat) as E.
  { rewrite length_take, length_drop. lia. }
  split; [by apply (le_combine_in_u _ 4)|]. rewrite <- E at 1. apply split_le_combine.
Qed.

Lemma header_of_bytes_spec bs : length bs = 80%nat ->
  header_wf (header_of_bytes bs) /\ bytes_of HeaderC (header_of_bytes bs) = bs.
Proof.
  intros Hl. unfold header_of_bytes. split.
  - unfold header_wf, hash_wf, compact_wf. cbn [header_version prev_blockhash merkle_root time header_bits nonce compact_bits].
    rewrite !length_take, !length_drop, Hl. split_and!; try done; [apply swrap_in_i; lia|..];
      apply take_4_spec; lia.
  - rewrite header_bytes. cbn [header_version prev_blockhash merkle_root time header_bits nonce compact_bits].
    assert (forall z, le_split 4 (swrap 32 z) = le_split 4 z) as -> by (intros; apply (le_split_wrap 4)).
    rewrite !(fun i H => proj2 (take_4_spec bs i H)) by lia.
    assert (forall n m k, (n + m = k)%nat -> take m (drop n bs) ++ drop k bs = drop n bs) as join.
    { intros n m k <-. by rewrite <- drop_drop, take_drop. }
    rewrite (take_ge (drop 76 bs)) by (rewrite length_drop; lia). rewrite !join by done. apply drop_0.
Qed.

Lemma sha256d_from_engine_length e : length (sha256d_from_engine e) = 32%nat.
Proof. apply state_words_length. Qed.

Lemma is_met_by_spec t hash : target_wf t -> length hash = 32%nat ->
  Target.is_met_by t hash = (le_combine hash <=? target_val t).
Proof.
  intros Ht Hl. destruct (from_le_bytes_spec hash Hl) as [Hw Hv].
  unfold Target.is_met_by. by rewrite leb_val, Hv.
Qed.

Lemma header_target_wf h : header_wf h -> target_wf (header_target h).
Proof. intros (_ & _ & _ & _ & Hb & _). by apply from_compact_spec. Qed.

(** ** Merkle commitments and sizes *)

Lemma check_merkle_root_spec b : exists r, check_merkle_root b = Ret r /\
  (r = true <-> exists height,
     is_root parent_hash height (map compute_txid (txdata b)) (merkle_root (header b))).
Proof.
  unfold check_merkle_root, compute_merkle_root. destruct (txdata b) as [|t txs].
  { eexists. split; [done|]. split; [done|]. intros [h H]. inversion H; subst; simpl in *; lia. }
  destruct (calculate_root_spec parent_hash (map compute_txid (t :: txs)) ltac:(done))
    as (root & h & -> & _ & Hr).
  rewrite bind_Ret. eexists. split; [done|]. rewrite bool_decide_eq_true. split.
  - intros ->. eauto.
  - intros [h' H']. by destruct (is_root_unique parent_hash _ _ _ H' _ _ Hr).
Qed.

Lemma sum_run_spec {A} (f : A -> run Z) (g : A -> Z) l : Forall (fun a => f a = Ret (g a)) l ->
  sum_run f l = Ret (sumZ (map g l)).
Proof. induction 1 as [|a l H _ IH]; [done|]. cbn [sum_run map]. by rewrite H, bind_Ret, IH. Qed.

Lemma bytes_sum (txs : list Transaction) (f : Transaction -> list byte) :
  sumZ (map (fun t => Z.of_nat (length (f t))) txs) = Z.of_nat (length (txs ≫= f)).
Proof.
  induction txs as [|t txs IH]; [done|].
  change ((t :: txs) ≫= f) with (f t ++ (txs ≫= f)). rewrite length_app, Nat2Z.inj_add, <- IH. done.
Qed.

Lemma block_bytes b : bytes_of BlockC b =
  bytes_of HeaderC (header b) ++ bytes_of VarInt (Z.of_nat (length (txdata b))) ++
  (txdata b ≫= bytes_of TransactionC).
Proof.
  change (bytes_of BlockC b) with (bytes_of HeaderC (header b) ++ bytes_of (vec TransactionC) (txdata b)).
  f_equal. apply (vec_encode_bytes TransactionC).
Qed.

Lemma block_total_size_spec b : block_wf b ->
  block_total_size b = Ret (Z.of_nat (length (bytes_of BlockC b))).
Proof.
  intros [Hh [Ht Hl]]. unfold block_total_size.
  rewrite (sum_run_spec _ (fun t => Z.of_nat (length (bytes_of TransactionC t)))).
  - rewrite bind_Ret, bytes_sum, block_bytes, !length_app, header_size by done.
    rewrite !Nat2Z.inj_add, varint_bytes_length by (unfold in_u; lia). f_equal. unfold HEADER_SIZE. lia.
  - eapply Forall_impl; [|exact Ht]. intros t. apply total_size_spec.
Qed.

Lemma block_base_size_spec b : block_wf b ->
  block_base_size b = 80 + varint_size (Z.of_nat (length (txdata b))) +
    Z.of_nat (length (txdata b ≫= legacy_bytes)).
Proof.
  intros [Hh [Ht Hl]]. unfold block_base_size. rewrite <- bytes_sum. do 2 f_equal.
  apply map_ext_Forall. eapply Forall_impl; [|exact Ht]. intros t Hwf. symmetry. by apply base_size_spec.
Qed.

(** ** The witness commitment *)

Lemma rposition_spec f outs : forall i found,
  match list.last (filter (fun o => f o = true) outs) with
  | Some o => exists j, rposition f outs i found = Some (i + j)%nat /\ outs !! j = Some o
  | None => rposition f outs i found = found
  end.
Proof.
  induction outs as [|o outs IH]; intros i found; [done|].
  cbn [rposition]. specialize (IH (S i) (if f o then Some i else found)).
  rewrite filter_cons. destruct (decide (f o = true)) as [E|E].
  - rewrite E in *. rewrite last_cons. destruct (list.last _) as [o'|].
    + destruct IH as (j & -> & Hj). exists (S j). split; [f_equal; lia|exact Hj].
    + exists 0%nat. rewrite IH. split; [f_equal; lia|reflexivity].
  - apply not_true_is_false in E. rewrite E in IH |- *. destruct (list.last _) as [o'|]; [|done].
    destruct IH as (j & -> & Hj). exists (S j). split; [f_equal; lia|exact Hj].
Qed.

(** What a block must carry for its witness commitment to check. *)
Definition commitment_ok (b : Block) : Prop :=
  exists cb txs o in0 value root,
    txdata b = cb :: txs /\ is_coinbase cb = true /\
    list.last (filter (fun o => commits o = true) (output cb)) = Some o /\
    input cb = [in0] /\ to_vec (witness in0) = Ret [value] /\ length value = 32%nat /\
    witness_root b = Ret (Some root) /\
    take 32 (drop 6 (script_pubkey o)) = compute_witness_commitment root value.

Definition no_witness (b : Block) : bool :=
  forallb (fun t => forallb (fun i => Witness.is_empty (witness i)) (input t)) (txdata b).

Lemma witness_root_some b : txdata b <> [] -> exists root, witness_root b = Ret (Some root).
Proof.
  intros H. unfold witness_root. destruct (calculate_root_spec parent_hash
    (imap (fun i t => if (i =? 0)%nat then replicate 32 Byte.x00 else compute_wtxid t) (txdata b)))
    as (root & h & -> & _); [|eauto]. by destruct (txdata b).
Qed.

Lemma check_witness_commitment_spec b :
  Forall (fun t => Forall (fun i => exists l, to_vec (witness i) = Ret l) (input t)) (txdata b) ->
  exists r, check_witness_commitment b = Ret r /\ (r = true <-> no_witness b = true \/ commitment_ok b).
Proof.
  intros Hw. unfold check_witness_commitment. fold (no_witness b).
  destruct (no_witness b); [exists true; naive_solver|].
  destruct (txdata b) as [|cb txs] eqn:Etx.
  { exists false. split; [done|]. split; [done|]. intros [?|(? & ? & ? & ? & ? & ? & ? & _)]; congruence. }
  destruct (is_coinbase cb) eqn:Ecb; cbn [negb].
  2: { exists false. split; [done|]. split; [done|].
       intros [?|(? & ? & ? & ? & ? & ? & ? & ? & _)]; congruence. }
  assert (exists in0, input cb = [in0]) as [in0 Ein].
  { unfold is_coinbase in Ecb. destruct (input cb) as [|in0 [|]]; try done. eauto. }
  pose proof (rposition_spec commits (output cb) 0 None) as Hr.
  destruct (list.last _) as [o|] eqn:Elast.
  2: { rewrite Hr. exists false. split; [done|]. split; [done|].
       intros [?|(? & ? & ? & ? & ? & ? & ? & ? & ? & _)]; congruence. }
  destruct Hr as (j & -> & Hj). rewrite (index_nat _ _ o) by done. rewrite bind_Ret.
  rewrite Ein. rewrite (index_lookup _ 0 in0) by done. rewrite bind_Ret.
  apply Forall_cons_iff in Hw as [Hw _]. rewrite Ein in Hw. apply Forall_cons_iff in Hw as [[l Hl] _].
  destruct (witness_root_some b) as [root Hroot]; [congruence|]. rewrite Hl, bind_Ret.
  assert (forall value, l = [value] -> length value = 32%nat ->
    exists r, (Ret (bool_decide (take 32 (drop 6 (script_pubkey o)) =
                 compute_witness_commitment root value)) : run bool) = Ret r /\
      (r = true <-> false = true \/ commitment_ok b)) as Hgo.
  { intros value -> Hv. eexists. split; [done|]. rewrite bool_decide_eq_true. split.
    - intros E. right. exists cb, txs, o, in0, value, root. by rewrite Etx.
    - intros [?|(cb' & txs' & o' & in' & v' & r' & E1 & _ & E2 & E3 & E4 & _ & E5 & E6)]; [done|].
      rewrite Etx in E1. injection E1 as <- <-. rewrite Elast in E2. injection E2 as <-.
      rewrite Ein in E3. injection E3 as <-. rewrite Hl in E4. injection E4 as <-.
      rewrite Hroot in E5. by injection E5 as <-. }
  assert ((forall value, l = [value] -> length value = 32%nat -> False) ->
    exists r, (Ret false : run bool) = Ret r /\ (r = true <-> false = true \/ commitment_ok b)) as Hno.
  { intros Hbad. exists false. split; [done|]. split; [done|].
    intros [?|(cb' & txs' & o' & in' & v' & r' & E1 & _ & E2 & E3 & E4 & E7 & _)]; [done|].
    rewrite Etx in E1. injection E1 as <- <-. rewrite Ein in E3. injection E3 as <-.
    rewrite Hl in E4. injection E4 as ->. by destruct (Hbad v'). }
  destruct l as [|value [|]]; [by apply Hno| |by apply Hno].
  destruct (Nat.eqb_spec (length value) 32) as [E|E].
  - rewrite Hroot, bind_Ret. by apply Hgo.
  - apply Hno. intros v [= ->]. done.
Qed.

(** ** Merkle blocks *)

(** A merkle block built from a block reports exactly the transactions the predicate
    selects, and its root check succeeds exactly for headers that carry the block's root. *)
Lemma merkle_block_complete {bm : BuildMode} (b : Block) (f : list byte -> bool) (root : list byte) :
  let txids := map compute_txid (txdata b) in
  let positions := matching_positions (map f txids) in
  0 < Z.of_nat (length txids) <= max_transactions -> siblings_differ parent_hash txids ->
  compute_merkle_root (txdata b) = Ret (Some root) ->
  exists mb, from_block_with_predicate b f = Ret mb /\
    mb_extract_matches mb =
      if bool_decide (root = merkle_root (header b))
      then Val (txids_at txids positions, map Z.of_nat positions) else Throw MerkleRootMismatch.
Proof.
  intros txids positions [Hn0 Hn] Hsib Hroot.
  destruct (calculate_root_spec parent_hash txids (txids_nonempty txids Hn0 Hn))
    as (r & H & Hr & _ & His).
  unfold compute_merkle_root in Hroot. fold txids in Hroot. rewrite Hroot in Hr. injection Hr as <-.
  assert (length txids = length (map f txids)) as Hlen by (by rewrite length_map).
  destruct (from_txids_spec parent_hash txids Hn0 Hn (map f txids) root H Hlen His)
    as (bs & hs & ix & Hb & Hf).
  unfold from_block_with_predicate, from_header_txids_with_predicate. fold txids.
  rewrite Hf, bind_Ret. eexists. split; [done|]. unfold mb_extract_matches. cbn [txn mb_header].
  rewrite <- (app_nil_r bs).
  rewrite (extract_matches_built parent_hash txids Hn0 Hn (map f txids) root H bs hs ix []); try done.
  - rewrite (built_root_positions parent_hash txids (map f txids) root H bs hs ix Hlen His Hb). done.
  - cbn [length]. by rewrite Nat.add_0_r.
Qed.

(** ** Main results *)

(** Block headers.  A string deserialises to a header if and only if the header is well
    formed and the string is its encoding; the headers are exactly the 80-byte strings. *)
Lemma header_exactly_80_bytes (bs : list byte) (Hbs : Z.of_nat (length bs) < 2 ^ 64) :
  (forall h, deserialize HeaderC bs = Ok h <-> header_wf h /\ bs = bytes_of HeaderC h) /\
  ((exists h, deserialize HeaderC bs = Ok h) <-> Z.of_nat (length bs) = HEADER_SIZE).
Proof.
  assert (forall h, deserialize HeaderC bs = Ok h <-> header_wf h /\ bs = bytes_of HeaderC h) as H.
  { intros h. by apply (deserialize_canonical HeaderC header_wf). }
  split; [done|]. change HEADER_SIZE with 80. split.
  - intros [h [Hh ->]%H]. by rewrite header_size.
  - intros Hl. exists (header_of_bytes bs). apply H.
    destruct (header_of_bytes_spec bs) as [Hw He]; [lia|]. done.
Qed.

(** C8: proof-of-work checks.  For a header of the required target, both checks return the
    header's hash (double SHA-256, or scrypt of the encoded header under itself) exactly
    when that hash, read as a little-endian number, is at most the target, and report
    [BadProofOfWork] otherwise; any other target is reported as [BadTarget].  With a
    scrypt that fills its 32-byte output the check never panics. *)
Theorem validate_pow_exact {sc : Scrypt} (Hsc : forall p s, length (scrypt p s) = 32%nat)
    (h : Header) (required : Target) (Hh : header_wf h) :
  let sha := block_hash h in
  let scr := scrypt (bytes_of HeaderC h) (bytes_of HeaderC h) in
  validate_pow h required =
    (if bool_decide (header_target h = required) then
       if le_combine sha <=? target_val required then Ok sha else Err BadProofOfWork
     else Err BadTarget) /\
  validate_pow_with_scrypt h required =
    (if bool_decide (header_target h = required) then
       if le_combine scr <=? target_val required then Val scr else Throw BadProofOfWork
     else Throw BadTarget).
Proof.
  intros sha scr. pose proof (header_target_wf h Hh) as Ht.
  unfold validate_pow, validate_pow_with_scrypt, block_hash_with_scrypt.
  rewrite Hsc. cbn [Nat.eqb of_run]. rewrite bind_Val.
  case_bool_decide as E; cbn [negb]; [|done]. rewrite E in *.
  rewrite !is_met_by_spec; [done|done|apply Hsc|done|apply sha256d_from_engine_length].
Qed.

Lemma validate_pow_exact_witness :
  let sc : Scrypt := fun password salt => hash (password ++ salt) in
  let h := mkHeader 1 (replicate 32 Byte.x00) (replicate 32 Byte.x00) 0 (mkCompact 0x2100ffff) 0 in
  validate_pow h (header_target h) = Ok (block_hash h) /\
  validate_pow_with_scrypt h (header_target h) =
    Val (hash (bytes_of HeaderC h ++ bytes_of HeaderC h)).
Proof.
  intros sc h.
  destruct (validate_pow_exact (sc := sc) (fun p s => state_words_length _) h (header_target h))
    as [-> ->].
  - vm_compute. repeat split; congruence.
  - vm_compute. split; reflexivity.
Defined.

(** The BIP34 height.  The lookup never panics and returns [h] exactly when the block's
    version is at least two and its first transaction's first input script starts with the
    minimal push of the minimal number encoding of [h], in at most four bytes. *)
Lemma bip34_height_exact (b : Block) (h : Z) :
  bip34_block_height b <> Crash /\
  (bip34_block_height b = Val h <->
   2 <= header_version (header b) /\ 0 <= h < 2 ^ 63 /\
   exists cb txs inp ins v rest,
     txdata b = cb :: txs /\ input cb = inp :: ins /\
     script_sig inp = instruction_bytes (PushBytes v) ++ rest /\
     instruction_minimal (PushBytes v) /\ (length v <= 4)%nat /\ write_scriptint h = Ret v).
Proof.
  unfold bip34_block_height, VERSION_TWO, coinbase.
  destruct (Z.ltb_spec (header_version (header b)) 2).
  { split; [done|]. split; [done|]. lia. }
  destruct (txdata b) as [|cb txs].
  { split; [done|]. split; [done|]. intros (_ & _ & ? & ? & ? & ? & ? & ? & ? & _). done. }
  cbn [head ok_or of_result]. rewrite bind_Val.
  destruct (input cb) as [|inp ins] eqn:Ei.
  { split; [done|]. split; [done|]. intros (_ & _ & ? & ? & ? & ? & ? & ? & [= <- <-] & ? & _). congruence. }
  cbn [head ok_or of_result]. rewrite bind_Val.
  pose proof (fun v => first_minimal_push (script_sig inp) v) as Hf.
  destruct (next_ok (script_sig inp) true) as (r & st & E & _).
  unfold instructions_minimal in *. rewrite E in *. cbn [of_run]. rewrite bind_Val.
  assert (forall v, (exists rest, script_sig inp = instruction_bytes (PushBytes v) ++ rest) ->
    instruction_minimal (PushBytes v) -> r = Some (Ok (PushBytes v))) as Hr.
  { intros v Hs Hm. destruct (proj2 (Hf v) (conj Hm Hs)) as [st' E']. by injection E' as -> _. }
  destruct r as [[[v|op]|e]|]; cbn [ok_or of_result]; rewrite ?bind_Val;
    [|split; [done|]; split; [done|];
      intros (_ & _ & ? & ? & ? & ? & ? & ? & [= <- <-] & E2 & E3 & E4 & _);
      rewrite Ei in E2; injection E2 as <- <-;
      specialize (Hr _ (ex_intro _ _ E3) E4); done..].
  destruct (proj1 (Hf v) (ex_intro _ st eq_refl)) as [Hm Hs].
  pose proof (read_scriptint_total v) as Htot.
  assert (forall n, read_scriptint v = Val n <->
    (length v <= 4)%nat /\ Z.abs n < 2 ^ 63 /\ write_scriptint n = Ret v) as Hread.
  { intros n. apply read_scriptint_write. }
  split; [destruct (read_scriptint v); [by case_match|done|done]|]. split.
  - destruct (read_scriptint v) as [n| |] eqn:Er; [|done|done].
    destruct (Z.ltb_spec n 0); [done|]. intros [= ->].
    destruct (proj1 (Hread h) eq_refl) as (? & ? & ?).
    split; [done|]. split; [lia|]. destruct Hs as [rest Hs]. by exists cb, txs, inp, ins, v, rest.
  - intros (_ & Hh & cb' & txs' & inp' & ins' & v' & rest & [= <- <-] & E2 & E3 & E4 & E5 & E6).
    rewrite Ei in E2. injection E2 as <- <-.
    assert (v' = v) as -> by (assert (Some (Ok (PushBytes v)) = Some (Ok (PushBytes v')))
      as [= ->] by (eapply Hr; eauto); done).
    rewrite (proj2 (Hread h)) by (split_and!; [done|lia|done]).
    by rewrite (proj2 (Z.ltb_ge h 0)) by lia.
Qed.

(** Blocks.  [deserialize] accepts exactly the encodings of well-formed blocks;
    [total_size] is the length of the encoding, [weight] is three times the size without
    witness data plus the total size, and neither panics. *)
Lemma block_sizes_exact (b : Block) (Hb : block_wf b)
    (Hlen : Z.of_nat (length (bytes_of BlockC b)) < 2 ^ 64) :
  let base := 80 + varint_size (Z.of_nat (length (txdata b))) +
              Z.of_nat (length (txdata b ≫= legacy_bytes)) in
  let total := Z.of_nat (length (bytes_of BlockC b)) in
  deserialize BlockC (bytes_of BlockC b) = Ok b /\
  block_total_size b = Ret total /\ block_weight b = Ret (3 * base + total).
Proof.
  intros base total. split_and!.
  - by apply (deserialize_roundtrip BlockC block_wf).
  - by apply block_total_size_spec.
  - unfold block_weight. rewrite block_total_size_spec, bind_Ret by done.
    rewrite block_base_size_spec by done. f_equal. fold base total. lia.
Qed.

Definition sample_block : Block :=
  mkBlock (mkHeader 2 (replicate 32 Byte.x00) (replicate 32 Byte.x00) 0 (mkCompact 0x1e0ffff0) 7)
    [sample_tx].

(** Witness commitments.  When the witnesses of the block's inputs are well-formed
    buffers, the check does not panic, and it succeeds exactly when no input has a witness
    or the coinbase carries, in its last committing output, the double SHA-256 of the
    witness merkle root and the 32-byte reserved value. *)
Lemma witness_commitment_exact (b : Block)
    (Hw : Forall (fun t => Forall (fun i => witness_wf (witness i)) (input t)) (txdata b)) :
  exists r, check_witness_commitment b = Ret r /\
    (r = true <-> no_witness b = true \/ commitment_ok b).
Proof.
  apply check_witness_commitment_spec. eapply Forall_impl; [|exact Hw].
  intros t Ht. eapply Forall_impl; [|exact Ht]. intros i (l & -> & Hl).
  exists l. apply to_vec_spec. unfold witness_ok, stack_ok, MAX_VEC_SIZE in *. lia.
Qed.

