(* ===== verification/Genesis.v ===== *)
(** * The Bitcoin genesis blocks ([blockdata/constants.rs])

    The genesis transaction and block of the five Bitcoin networks, the consensus constants and the
    chain hashes. *)

From Stdlib Require Import ZArith Lia.
From Stdlib Require Strings.String.
From coqutil Require Import Byte Word.LittleEndianList.
From stdpp Require Import base tactics option list numbers.
From S2P Require Import Prelude U256 Params Pow Io Encode HashEngine Sha256 Merkle PartialMerkle Witness LockTime Script Transaction Block.
Import String.StringSyntax.

#[local] Open Scope Z_scope.

Module BtcGenesis.

(** ** Constants *)

Definition TARGET_BLOCK_SPACING : Z := 600.
Definition DIFFCHANGE_INTERVAL : Z := 2016.
Definition DIFFCHANGE_TIMESPAN : Z := 14 * 24 * 3600.
Definition MAX_BLOCK_SIGOPS_COST : Z := 80000.
Definition SUBSIDY_HALVING_INTERVAL : Z := 210000.
Definition MAX_SCRIPTNUM_VALUE : Z := 0x80000000.
Definition COINBASE_MATURITY : Z := 100.

Definition GENESIS_OUTPUT_PK : list byte := map byte.of_Z
  [0x04;
   0x67; 0x8a; 0xfd; 0xb0; 0xfe; 0x55; 0x48; 0x27;
   0x19; 0x67; 0xf1; 0xa6; 0x71; 0x30; 0xb7; 0x10;
   0x5c; 0xd6; 0xa8; 0x28; 0xe0; 0x39; 0x09; 0xa6;
   0x79; 0x62; 0xe0; 0xea; 0x1f; 0x61; 0xde; 0xb6;
   0x49; 0xf6; 0xbc; 0x3f; 0x4c; 0xef; 0x38; 0xc4;
   0xf3; 0x55; 0x04; 0xe5; 0x1e; 0xc1; 0x12; 0xde;
   0x5c; 0x38; 0x4d; 0xf7; 0xba; 0x0b; 0x8d; 0x57;
   0x8a; 0x4c; 0x70; 0x2b; 0x6b; 0xf1; 0x1d; 0x5f].
Definition TESTNET4_GENESIS_OUTPUT_PK : list byte := replicate 33 Byte.x00.

(** ** Blocks *)

Definition genesis_in_script (message : list byte) : run (list byte) :=
  b ← Build.push_int Build.new 486604799;
  b ← Build.push_int_non_minimal b 4;
  b ← Build.push_slice b message;
  Ret (Build.into_script b).
Definition genesis_out_script (pk : list byte) : run (list byte) :=
  o ← Build.push_slice Build.new pk;
  Ret (Build.into_script (Build.push_opcode o OP_CHECKSIG)).

Definition bitcoin_genesis_tx (params : Btc.Params) : run Transaction :=
  '(in_script, out_script) ←
    match Btc.network params with
    | Btc.Testnet4 =>
        i ← genesis_in_script (String.list_byte_of_string "03/May/2024 000000000000000000001ebd58c244970b3aa9d783bb001011fbe8ea8e98e00e");
        o ← genesis_out_script TESTNET4_GENESIS_OUTPUT_PK; Ret (i, o)
    | _ =>
        i ← genesis_in_script (String.list_byte_of_string "The Times 03/Jan/2009 Chancellor on brink of second bailout for banks");
        o ← genesis_out_script GENESIS_OUTPUT_PK; Ret (i, o)
    end;
  Ret (mkTx 1 (Abs.Blocks 0) [mkTxIn null_outpoint in_script Seq.MAX Witness.new]
         [mkTxOut (50 * 100000000) out_script]).

Definition btc_genesis_block (params : Btc.Params) : run Block :=
  tx ← bitcoin_genesis_tx params;
  let merkle_root := compute_txid tx in
  let block time bits nonce :=
    mkBlock (mkHeader VERSION_ONE (replicate 32 Byte.x00) merkle_root time (Compact.from_consensus bits) nonce) [tx] in
  Ret match Btc.network params with
      | Btc.Bitcoin => block 1231006505 0x1d00ffff 2083236893
      | Btc.Testnet => block 1296688602 0x1d00ffff 414098458
      | Btc.Testnet4 => block 1714777860 0x1d00ffff 393743547
      | Btc.Signet => block 1598918400 0x1e0377ae 52613770
      | Btc.Regtest => block 1296688602 0x207fffff 2
      end.

(** ** Chain hashes *)

Definition BITCOIN : list byte := map byte.of_Z
  [111; 226; 140; 10; 182; 241; 179; 114; 193; 166; 162; 70; 174; 99; 247; 79; 147; 30; 131;
   101; 225; 90; 8; 156; 104; 214; 25; 0; 0; 0; 0; 0].
Definition TESTNET3 : list byte := map byte.of_Z
  [67; 73; 127; 215; 248; 38; 149; 113; 8; 244; 163; 15; 217; 206; 195; 174; 186; 121; 151;
   32; 132; 233; 14; 173; 1; 234; 51; 9; 0; 0; 0; 0].
Definition TESTNET4 : list byte := map byte.of_Z
  [67; 240; 139; 218; 176; 80; 227; 91; 86; 124; 134; 75; 145; 244; 127; 80; 174; 114; 90;
   226; 222; 83; 188; 251; 186; 242; 132; 218; 0; 0; 0; 0].
Definition SIGNET : list byte := map byte.of_Z
  [246; 30; 238; 59; 99; 163; 128; 164; 119; 160; 99; 175; 50; 178; 187; 201; 124; 159; 249;
   240; 31; 44; 66; 37; 233; 115; 152; 129; 8; 0; 0; 0].
Definition REGTEST : list byte := map byte.of_Z
  [6; 34; 110; 70; 17; 26; 11; 89; 202; 175; 18; 96; 67; 235; 91; 191; 40; 195; 79; 58; 94;
   51; 42; 31; 199; 178; 183; 60; 241; 136; 145; 15].

Definition using_genesis_block_const (network : Btc.Network) : list byte :=
  match network with
  | Btc.Bitcoin => BITCOIN
  | Btc.Testnet => TESTNET3
  | Btc.Testnet4 => TESTNET4
  | Btc.Signet => SIGNET
  | Btc.Regtest => REGTEST
  end.
Definition using_genesis_block (params : Btc.Params) : list byte :=
  match Btc.network params with
  | Btc.Bitcoin => BITCOIN
  | Btc.Testnet => TESTNET3
  | Btc.Testnet4 => TESTNET4
  | Btc.Signet => SIGNET
  | Btc.Regtest => REGTEST
  end.
Definition from_genesis_block_hash (block_hash : list byte) : list byte := block_hash.

(** ** The genesis blocks are valid *)

(** The two genesis transactions. *)
Definition btc_genesis_tx : Transaction :=
  Eval vm_compute in match bitcoin_genesis_tx Btc.MAINNET with Ret t => t | _ => mkTx 0 (Abs.Blocks 0) [] [] end.
Definition testnet4_genesis_tx : Transaction :=
  Eval vm_compute in match bitcoin_genesis_tx Btc.TESTNET4 with Ret t => t | _ => mkTx 0 (Abs.Blocks 0) [] [] end.
Definition tx_of (n : Btc.Network) : Transaction :=
  match n with Btc.Testnet4 => testnet4_genesis_tx | _ => btc_genesis_tx end.

Lemma bitcoin_genesis_tx_spec n : bitcoin_genesis_tx (Btc.new n) = Ret (tx_of n).
Proof. destruct n; vm_compute; reflexivity. Qed.

Lemma tx_of_wf n : tx_wf (tx_of n).
Proof.
  destruct n; (split; [vm_compute; by split|]; split; [vm_compute; by split|];
    split; (split; [|vm_compute; congruence]); (constructor; [|constructor]));
    first [ split; [vm_compute; repeat split; congruence|]; exists []; split; [reflexivity|]; vm_compute; congruence
          | vm_compute; repeat split; congruence ].
Qed.

(** The genesis blocks.  On every network the genesis block is built without a panic, is well formed,
    passes its merkle check and its proof of work at a target within the network's limit, and the chain hash
    of the network, a constant of the code, is the hash of this block. *)
Lemma genesis_chain_hashes (n : Btc.Network) :
  exists b, btc_genesis_block (Btc.new n) = Ret b /\ block_wf b /\ check_merkle_root b = Ret true /\
    validate_pow (header b) (header_target (header b)) = Ok (using_genesis_block_const n) /\
    target_val (header_target (header b)) <= target_val (Btc.pow_limit (Btc.new n)) /\
    using_genesis_block (Btc.new n) = from_genesis_block_hash (block_hash (header b)).
Proof.
  unfold btc_genesis_block. rewrite bitcoin_genesis_tx_spec, bind_Ret. cbv zeta.
  destruct n; (eexists; split; [reflexivity|]);
    (split; [split; [vm_compute; repeat split; congruence|];
             split; [constructor; [apply tx_of_wf|constructor]|vm_compute; congruence]|]);
    vm_compute; repeat split; congruence.
Qed.
End BtcGenesis.
