(* ===== verification/Bip158.v ===== *)
(** * Compact block filters ([bip158.rs])

    Golomb-coded sets of the scripts of a block: building a filter from a block and the scripts it
    spends, and matching queries against it. *)

From Stdlib Require Import ZArith Lia.
From coqutil Require Import Byte Word.LittleEndianList.
From stdpp Require Import base tactics option list numbers sorting.
From S2P Require Import Prelude U256 Params Pow Io Encode HashEngine Sha256 SipHash BitStream.
From S2P Require Import Witness LockTime Script Transaction Block.

#[local] Open Scope Z_scope.

(** ** Golomb-coded sets *)

Definition P : Z := 19.
Definition M : Z := 784931.

(** [Error::UtxoMissing] and [Error::Io] *)
Inductive FilterError := UtxoMissing (coin : OutPoint) | Io (e : IoError).

Record GcsFilter := mkGcs { gk0 : Z; gk1 : Z; gp : Z }.

Definition map_to_range (hash nm : Z) : Z := wrap 64 (Z.shiftr (hash * nm) 64).

(** [sort_unstable] on integers and [Vec::dedup]. *)
Definition sort_unstable (l : list Z) : list Z := merge_sort Z.le l.
Fixpoint dedup (l : list Z) : list Z :=
  match l with
  | x :: l' => match l' with y :: _ => if x =? y then dedup l' else x :: dedup l' | [] => [x] end
  | [] => []
  end.

(** A [BTreeSet] of byte strings: the elements in order, without repetition. *)
Fixpoint bytes_compare (a b : list byte) : comparison :=
  match a, b with
  | [], [] => Eq
  | [], _ => Lt
  | _, [] => Gt
  | x :: a, y :: b => match byte.unsigned x ?= byte.unsigned y with Eq => bytes_compare a b | c => c end
  end.
Fixpoint btree_insert (e : list byte) (s : list (list byte)) : list (list byte) :=
  match s with
  | [] => [e]
  | x :: s' => match bytes_compare e x with Lt => e :: s | Eq => s | Gt => x :: btree_insert e s' end
  end.

Section gcs.
Context {bm : BuildMode}.

Definition gcs_hash (self : GcsFilter) (element : list byte) : run Z :=
  hash_to_u64_with_keys (gk0 self) (gk1 self) element.
Definition map_elements (self : GcsFilter) (nm : Z) (l : list (list byte)) : run (list Z) :=
  mapM (fun e => h ← gcs_hash self e; Ret (map_to_range h nm)) l.

(** *** Writing *)

Record GcsFilterWriter := mkGcsWriter { wfilter : GcsFilter; wout : list byte; welements : list (list byte); wm : Z }.

Definition gcs_writer_new (writer : list byte) (k0 k1 m p : Z) : GcsFilterWriter :=
  mkGcsWriter (mkGcs k0 k1 p) writer [] m.
Definition gcs_add_element (self : GcsFilterWriter) (element : list byte) : GcsFilterWriter :=
  if (length element =? 0)%nat then self
  else mkGcsWriter (wfilter self) (wout self) (btree_insert element (welements self)) (wm self).

Fixpoint delta_loop (p : Z) (writer : BitStreamWriter) (last wrote : Z) (mapped : list Z) :
    comp IoError (Z * BitStreamWriter) :=
  match mapped with
  | [] => Val (wrote, writer)
  | data :: mapped =>
      d ← of_run (arith_u 64 (data - last));
      '(n, writer) ← golomb_rice_encode p writer d;
      delta_loop p writer data (wrote + n) mapped
  end.

(** [finish]: the count of bytes, and the output of the writer. *)
Definition gcs_finish (self : GcsFilterWriter) : comp IoError (Z * list byte) :=
  nm ← of_run (arith_u 64 (Z.of_nat (length (welements self)) * wm self));
  mapped ← of_run (map_elements (wfilter self) nm (welements self));
  let mapped := sort_unstable mapped in
  let '(bytes, wrote) := consensus_encode VarInt (Z.of_nat (length mapped)) in
  '(wrote, writer) ← delta_loop (gp (wfilter self)) (writer_new (wout self ++ bytes)) 0 wrote mapped;
  let '(n, writer) := flush writer in
  Val (wrote + n, written writer).

(** *** Matching *)

Record GcsFilterReader := mkGcsReader { rfilter : GcsFilter; rm : Z }.
Definition gcs_reader_new (k0 k1 m p : Z) : GcsFilterReader := mkGcsReader (mkGcs k0 k1 p) m.

(** The inner [loop]: read on while the value is below [target].  Each turn takes a bit or more, so the
    bits left bound the turns. *)
Inductive Outcome := Found | Passed | Ended.
Record Cursor := mkCursor { cdata : Z; cremaining : Z; cbits : BitStreamReader }.
Fixpoint advance (fuel : nat) (p target : Z) (c : Cursor) : comp IoError (Outcome * Cursor) :=
  match cdata c ?= target with
  | Eq => Val (Found, c)
  | Gt => Val (Passed, c)
  | Lt =>
      if 0 <? cremaining c then
        match fuel with
        | O => Throw UnexpectedEof
        | S fuel =>
            '(d, r) ← golomb_rice_decode p (cbits c);
            data ← of_run (arith_u 64 (cdata c + d));
            advance fuel p target (mkCursor data (cremaining c - 1) r)
        end
      else Val (Ended, c)
  end.

Fixpoint any_loop (p : Z) (c : Cursor) (mapped : list Z) : comp IoError bool :=
  match mapped with
  | [] => Val false
  | target :: mapped =>
      '(o, c) ← advance (bits_left (cbits c)) p target c;
      match o with Found => Val true | Ended => Val false | Passed => any_loop p c mapped end
  end.
Fixpoint all_loop (p : Z) (c : Cursor) (mapped : list Z) : comp IoError bool :=
  match mapped with
  | [] => Val true
  | target :: mapped =>
      '(o, c) ← advance (bits_left (cbits c)) p target c;
      match o with Found => all_loop p c mapped | Ended => Val false | Passed => Val false end
  end.

(** The number of elements, zero when it cannot be read, and the bytes after it. *)
Definition read_count (reader : list byte) : Z * list byte :=
  match on_slice (consensus_decode VarInt) reader with Ok (n, rest) => (n, rest) | Err _ => (0, reader) end.

Definition gcs_match_any (self : GcsFilterReader) (reader : list byte) (query : list (list byte)) : comp IoError bool :=
  let '(n_elements, reader) := read_count reader in
  nm ← of_run (arith_u 64 (n_elements * rm self));
  mapped ← of_run (map_elements (rfilter self) nm query);
  let mapped := sort_unstable mapped in
  if (length mapped =? 0)%nat then Val true
  else if n_elements =? 0 then Val false
  else
    '(data, r) ← golomb_rice_decode (gp (rfilter self)) (reader_new reader);
    any_loop (gp (rfilter self)) (mkCursor data (n_elements - 1) r) mapped.

Definition gcs_match_all (self : GcsFilterReader) (reader : list byte) (query : list (list byte)) : comp IoError bool :=
  let '(n_elements, reader) := read_count reader in
  nm ← of_run (arith_u 64 (n_elements * rm self));
  mapped ← of_run (map_elements (rfilter self) nm query);
  let mapped := dedup (sort_unstable mapped) in
  if (length mapped =? 0)%nat then Val true
  else if n_elements =? 0 then Val false
  else
    '(data, r) ← golomb_rice_decode (gp (rfilter self)) (reader_new reader);
    all_loop (gp (rfilter self)) (mkCursor data (n_elements - 1) r) mapped.

(** ** Block filters *)

Definition io {A} (m : comp IoError A) : comp FilterError A :=
  match m with Val a => Val a | Throw e => Throw (Io e) | Crash => Crash end.

(** The keys: the first two little-endian words of the block hash. *)
Definition hash_key (hash : list byte) (i : nat) : Z := le_combine (take 8 (drop (8 * i) hash)).

Record BlockFilterWriter := mkBlockWriter { bblock : Block; bwriter : GcsFilterWriter }.
Definition block_writer_new (writer : list byte) (block : Block) : BlockFilterWriter :=
  let hash := block_hash (header block) in
  mkBlockWriter block (gcs_writer_new writer (hash_key hash 0) (hash_key hash 1) M P).
Definition add_element (self : BlockFilterWriter) (data : list byte) : BlockFilterWriter :=
  mkBlockWriter (bblock self) (gcs_add_element (bwriter self) data).

Definition add_output_scripts (self : BlockFilterWriter) : BlockFilterWriter :=
  fold_left (fun self tx =>
      fold_left (fun self o => if negb (is_op_return (script_pubkey o)) then add_element self (script_pubkey o) else self)
                (output tx) self)
    (txdata (bblock self)) self.

Fixpoint add_scripts (self : BlockFilterWriter) (scripts : list (Result FilterError (list byte))) :
    Result FilterError BlockFilterWriter :=
  match scripts with
  | [] => Ok self
  | Ok script :: scripts => add_scripts (add_element self script) scripts
  | Err e :: _ => Err e
  end.
Definition add_input_scripts (self : BlockFilterWriter)
    (script_for_coin : OutPoint -> Result FilterError (list byte)) : Result FilterError BlockFilterWriter :=
  add_scripts self
    (map script_for_coin (drop 1 (txdata (bblock self)) ≫= (fun t => map previous_output (input t)))).

Definition finish (self : BlockFilterWriter) : comp IoError (Z * list byte) := gcs_finish (bwriter self).

Record BlockFilter := mkFilter { content : list byte }.

Definition new_script_filter (block : Block) (script_for_coin : OutPoint -> Result FilterError (list byte)) :
    comp FilterError BlockFilter :=
  let writer := add_output_scripts (block_writer_new [] block) in
  writer ← of_result (add_input_scripts writer script_for_coin);
  '(_, out) ← io (finish writer);
  Val (mkFilter out).

Definition block_reader_new (hash : list byte) : GcsFilterReader :=
  gcs_reader_new (hash_key hash 0) (hash_key hash 1) M P.
Definition match_any (self : BlockFilter) (hash : list byte) (query : list (list byte)) : comp FilterError bool :=
  io (gcs_match_any (block_reader_new hash) (content self) query).
Definition match_all (self : BlockFilter) (hash : list byte) (query : list (list byte)) : comp FilterError bool :=
  io (gcs_match_all (block_reader_new hash) (content self) query).

(** BIP-157 filter headers. *)
Definition filter_hash_header (self previous_filter_header : list byte) : list byte :=
  sha256d (self ++ previous_filter_header).
Definition filter_header (self : BlockFilter) (previous_filter_header : list byte) : list byte :=
  filter_hash_header (sha256d (content self)) previous_filter_header.
End gcs.

#[local] Opaque siphash24 hash_to_u64_with_keys sha256d block_hash.
(** ** Values *)

Definition gcs_value (f : GcsFilter) (nm : Z) (e : list byte) : Z := siphash24 (gk0 f) (gk1 f) e * nm / 2 ^ 64.
Definition gcs_ok (f : GcsFilter) : Prop := in_u 64 (gk0 f) /\ in_u 64 (gk1 f) /\ 0 <= gp f < 64.

Lemma map_to_range_spec h nm : in_u 64 h -> in_u 64 nm -> map_to_range h nm = h * nm / 2 ^ 64.
Proof.
  unfold in_u, map_to_range. intros Hh Hn. rewrite Z.shiftr_div_pow2 by lia. apply wrap_small. unfold in_u.
  split; [apply Z.div_pos; nia|]. apply Z.div_lt_upper_bound; nia.
Qed.

Lemma gcs_value_in_u f nm e : gcs_ok f -> in_u 64 nm -> in_u 64 (gcs_value f nm e).
Proof.
  intros (H0 & H1 & _) Hn. unfold gcs_value. rewrite <- map_to_range_spec by (try apply siphash24_in_u; done).
  apply wrap_in_u. lia.
Qed.

Lemma map_elements_spec {bm : BuildMode} f nm l : gcs_ok f -> in_u 64 nm ->
  map_elements f nm l = Ret (map (gcs_value f nm) l).
Proof.
  intros (H0 & H1 & _) Hn. unfold map_elements. induction l as [|e l IH]; [done|].
  cbn [mapM map]. rewrite IH. unfold gcs_hash. rewrite hash_to_u64_spec, !bind_Ret.
  by rewrite map_to_range_spec by (try apply siphash24_in_u; done).
Qed.

Lemma sort_perm l : sort_unstable l ≡ₚ l.
Proof. apply merge_sort_Permutation. Qed.

Lemma sort_sorted l : StronglySorted Z.le (sort_unstable l).
Proof. apply StronglySorted_merge_sort; apply _. Qed.

Lemma sort_in l x : In x (sort_unstable l) <-> In x l.
Proof. split; apply Permutation_in; [|symmetry]; apply sort_perm. Qed.

Lemma dedup_cons x y l : dedup (x :: y :: l) = if x =? y then dedup (y :: l) else x :: dedup (y :: l).
Proof. done. Qed.

Lemma dedup_in l x : In x (dedup l) <-> In x l.
Proof.
  induction l as [|y [|z l] IH]; [done|done|]. rewrite dedup_cons. destruct (Z.eqb_spec y z) as [->|].
  - rewrite IH. cbn. tauto.
  - change (In x (y :: dedup (z :: l)) <-> In x (y :: z :: l)). cbn [In]. rewrite IH. done.
Qed.

Lemma dedup_sorted l : StronglySorted Z.le l -> StronglySorted Z.le (dedup l).
Proof.
  induction 1 as [|x l Hl IH Hx]; [constructor|]. destruct l as [|y l]; [by repeat constructor|].
  rewrite dedup_cons. destruct (Z.eqb_spec x y) as [->|]; [done|].
  constructor; [done|]. apply List.Forall_forall. intros z Hz. rewrite dedup_in in Hz.
  by apply (proj1 (List.Forall_forall _ _) Hx).
Qed.

(** ** Differences *)

Fixpoint deltas (last : Z) (l : list Z) : list Z :=
  match l with [] => [] | x :: l => x - last :: deltas x l end.

(** [l] continues a sorted list of 64-bit numbers after [last]. *)
Definition ascending (last : Z) (l : list Z) : Prop :=
  0 <= last /\ StronglySorted Z.le (last :: l) /\ Forall (fun x => x < 2 ^ 64) (last :: l).

Lemma ascending_cons last x l : ascending last (x :: l) -> last <= x < 2 ^ 64 /\ 0 <= last /\ ascending x l.
Proof.
  intros (H0 & Hs & Hb). apply StronglySorted_inv in Hs as [Hs Hf]. apply Forall_cons_1 in Hf as [Hx Hf].
  apply Forall_cons_1 in Hb as [Hb1 Hb]. pose proof (Forall_cons_1 _ _ _ Hb) as [Hb2 _].
  split_and!; [done|done|done|]. split_and!; [lia|done|done].
Qed.

Section writing.
Context {bm : BuildMode} (p : Z) (Hp : 0 <= p < 64).

Lemma delta_loop_spec l : forall w last wrote, ascending last l -> writer_ok w ->
  exists w', delta_loop p w last wrote l =
      Val (wrote + Z.of_nat (length (written w')) - Z.of_nat (length (written w)), w') /\
    writer_ok w' /\ writer_bits w' = writer_bits w ++ (deltas last l ≫= golomb p).
Proof.
  induction l as [|x l IH]; intros w last wrote Ha Hw; cbn [delta_loop deltas].
  { exists w. cbn. rewrite app_nil_r. split_and!; [do 2 f_equal; lia|done|done]. }
  apply ascending_cons in Ha as (Hx & H0 & Ha).
  rewrite arith_u_small by (unfold in_u; lia). cbn [of_run]. rewrite bind_Val.
  destruct (golomb_rice_encode_spec p w (x - last) Hp ltac:(unfold in_u; lia) Hw) as (w1 & -> & Hok1 & Hb1).
  rewrite bind_Val. edestruct (IH w1 x) as (w' & -> & Hok & Hb); [done|done|]. exists w'.
  split_and!; [do 2 f_equal; lia|done|]. rewrite Hb, Hb1, <- app_assoc. done.
Qed.

(** ** Matching *)

(** A cursor in the list [cur]: the current value, and the codes of the rest. *)
Definition cursor_at (cur : list Z) (c : Cursor) : Prop :=
  exists v l pad, cur = v :: l /\ ascending v l /\ cdata c = v /\ cremaining c = Z.of_nat (length l) /\
    reader_ok (cbits c) /\ reader_bits (cbits c) = (deltas v l ≫= golomb p) ++ pad.

Lemma golomb_nonempty n : (1 <= length (golomb p n))%nat.
Proof. unfold golomb. rewrite length_app. cbn [length]. lia. Qed.

Lemma codes_length l : forall v, (length l <= length (deltas v l ≫= golomb p))%nat.
Proof.
  induction l as [|x l IH]; intros v; cbn [length deltas]; [lia|].
  change ((x - v :: deltas x l) ≫= golomb p) with (golomb p (x - v) ++ (deltas x l ≫= golomb p)).
  rewrite length_app. pose proof (golomb_nonempty (x - v)). specialize (IH x). lia.
Qed.

Lemma ascending_le v l x : ascending v l -> In x (v :: l) -> v <= x.
Proof.
  intros (_ & Hs & _) [->|Hin]; [lia|]. apply StronglySorted_inv in Hs as [_ Hf].
  by apply (proj1 (List.Forall_forall _ _) Hf).
Qed.

(** Where [advance] stops: at the first value that is not below the target, past nothing at or above it. *)
Definition stopped (cur : list Z) (t : Z) (o : Outcome) (c : Cursor) : Prop :=
  match o with
  | Ended => forall x, In x cur -> x < t
  | Found => In t cur /\ exists cur', cursor_at cur' c /\ forall x, t <= x -> In x cur <-> In x cur'
  | Passed => ~ In t cur /\ exists cur', cursor_at cur' c /\ forall x, t <= x -> In x cur <-> In x cur'
  end.

Lemma advance_spec t : forall l v fuel c, cursor_at (v :: l) c -> (length l <= fuel)%nat ->
  exists o c', advance fuel p t c = Val (o, c') /\ stopped (v :: l) t o c'.
Proof.
  induction l as [|x l IH]; intros v fuel c Hc Hf.
  all: pose proof Hc as (v' & l' & pad & [= <- <-] & Ha & Hd & Hr & Hok & Hb).
  all: assert (forall fuel', advance fuel' p t c = match v ?= t with Eq => Val (Found, c) | Gt => Val (Passed, c) | Lt => advance fuel' p t c end)
    as Hadv by (intros []; cbn [advance]; rewrite Hd; by destruct (v ?= t)).
  all: rewrite Hadv; destruct (Z.compare_spec v t) as [<-|Hlt|Hgt].
  all: try (exists Found, c; split; [done|]; split; [by left|]; eauto; done).
  all: try (exists Passed, c; split; [done|]; split; [intros Hin; pose proof (ascending_le _ _ _ Ha Hin); lia|]; eauto; done).
  - exists Ended, c. split; [|intros y [<-|[]]; lia].
    destruct fuel; cbn [advance]; rewrite Hd, (proj2 (Z.compare_lt_iff _ _)), Hr by done; done.
  - destruct fuel as [|fuel]; [cbn in Hf; lia|]. cbn [advance]. rewrite Hd, (proj2 (Z.compare_lt_iff _ _)), Hr by done.
    cbn [length]. rewrite (proj2 (Z.ltb_lt _ _)) by lia.
    apply ascending_cons in Ha as (Hx & H0 & Ha). cbn [deltas] in Hb.
    change ((x - v :: deltas x l) ≫= golomb p) with (golomb p (x - v) ++ (deltas x l ≫= golomb p)) in Hb.
    rewrite <- app_assoc in Hb.
    destruct (golomb_rice_decode_spec p (cbits c) (x - v) _ Hp ltac:(unfold in_u; lia) Hok Hb) as (r & -> & Hok' & Hb').
    rewrite bind_Val, arith_u_small by (unfold in_u; lia). cbn [of_run]. rewrite bind_Val.
    destruct (IH x fuel (mkCursor (v + (x - v)) (Z.of_nat (S (length l)) - 1) r)) as (o & c' & -> & Hs).
    { exists x, l, pad. cbn [cdata cremaining cbits]. split_and!; try done; lia. }
    { cbn in Hf. lia. }
    exists o, c'. split; [done|]. destruct o; cbn [stopped] in *.
    + destruct Hs as (Hin & cur' & Hc' & Hi). split; [by right|]. exists cur'. split; [done|]. intros y Hy.
      rewrite <- Hi by done. split; [intros [->|]; [lia|done]|by right].
    + destruct Hs as (Hin & cur' & Hc' & Hi). split; [intros [->|]; [lia|done]|]. exists cur'. split; [done|]. intros y Hy.
      rewrite <- Hi by done. split; [intros [->|]; [lia|done]|by right].
    + intros y [<-|Hy]; [lia|by apply Hs].
Qed.

Lemma advance_total cur t c : cursor_at cur c ->
  exists o c', advance (bits_left (cbits c)) p t c = Val (o, c') /\ stopped cur t o c'.
Proof.
  intros Hc. pose proof Hc as (v & l & pad & -> & _ & _ & _ & Hok & Hb). apply advance_spec; [done|].
  apply (f_equal length) in Hb. rewrite reader_bits_length, length_app in Hb by done.
  pose proof (codes_length l v). unfold bits_left. lia.
Qed.

Lemma any_loop_spec ts : StronglySorted Z.le ts -> forall cur c, cursor_at cur c ->
  exists b, any_loop p c ts = Val b /\ (b = true <-> exists t, In t ts /\ In t cur).
Proof.
  induction 1 as [|t ts Hts IH Ht]; intros cur c Hc; cbn [any_loop].
  { exists false. split; [done|]. split; [done|]. by intros (t & [] & _). }
  rewrite List.Forall_forall in Ht.
  destruct (advance_total cur t c Hc) as (o & c' & -> & Hs). rewrite bind_Val. destruct o; cbn [stopped] in Hs.
  - exists true. split; [done|]. split; [|done]. intros _. exists t. split; [by left|apply Hs].
  - destruct Hs as (Hin & cur' & Hc' & Hi). destruct (IH cur' c' Hc') as (b & -> & Hb). exists b. split; [done|].
    rewrite Hb. split; intros (x & Hx & Hx').
    + exists x. split; [by right|]. apply Hi; [by apply Ht|done].
    + destruct Hx as [<-|Hx]; [done|]. exists x. split; [done|]. apply Hi; [by apply Ht|done].
  - exists false. split; [done|]. split; [done|]. intros (x & [<-|Hx] & Hx'); [specialize (Hs _ Hx'); lia|].
    specialize (Hs _ Hx'). specialize (Ht _ Hx). lia.
Qed.

Lemma all_loop_spec ts : StronglySorted Z.le ts -> forall cur c, cursor_at cur c ->
  exists b, all_loop p c ts = Val b /\ (b = true <-> forall t, In t ts -> In t cur).
Proof.
  induction 1 as [|t ts Hts IH Ht]; intros cur c Hc; cbn [all_loop].
  { exists true. split; [done|]. split; [|done]. by intros _ t []. }
  rewrite List.Forall_forall in Ht.
  destruct (advance_total cur t c Hc) as (o & c' & -> & Hs). rewrite bind_Val. destruct o; cbn [stopped] in Hs.
  - destruct Hs as (Hin & cur' & Hc' & Hi). destruct (IH cur' c' Hc') as (b & -> & Hb). exists b. split; [done|].
    rewrite Hb. split; intros H x Hx.
    + destruct Hx as [<-|Hx]; [done|]. apply Hi; [by apply Ht|by apply H].
    + apply Hi; [by apply Ht|]. apply H. by right.
  - exists false. split; [done|]. split; [done|]. intros H. destruct Hs as [Hs _]. destruct Hs. apply H. by left.
  - exists false. split; [done|]. split; [done|]. intros H. specialize (Hs t (H t ltac:(by left))). lia.
Qed.
End writing.

(** ** The set of elements *)

Lemma bytes_compare_Eq a : forall b, bytes_compare a b = Eq <-> a = b.
Proof.
  induction a as [|x a IH]; intros [|y b]; cbn [bytes_compare]; [done|done|done|].
  destruct (Z.compare_spec (byte.unsigned x) (byte.unsigned y)) as [E|E|E].
  - apply byte.unsigned_inj in E as ->. rewrite IH. naive_solver.
  - split; [done|]. intros [= -> _]. lia.
  - split; [done|]. intros [= -> _]. lia.
Qed.

Lemma bytes_compare_Gt a : forall b, bytes_compare a b = Gt -> bytes_compare b a = Lt.
Proof.
  induction a as [|x a IH]; intros [|y b]; cbn [bytes_compare]; [done|done|done|].
  rewrite (Z.compare_antisym (byte.unsigned x)). destruct (byte.unsigned x ?= byte.unsigned y); cbn; [apply IH|done|done].
Qed.

Lemma bytes_compare_trans a : forall b c, bytes_compare a b = Lt -> bytes_compare b c = Lt -> bytes_compare a c = Lt.
Proof.
  induction a as [|x a IH]; intros [|y b] [|z c]; cbn [bytes_compare]; try done.
  destruct (Z.compare_spec (byte.unsigned x) (byte.unsigned y)) as [E|E|E]; [|intros _|done].
  - rewrite E. destruct (byte.unsigned y ?= byte.unsigned z); [apply IH|done|done].
  - destruct (Z.compare_spec (byte.unsigned y) (byte.unsigned z)) as [E'|E'|E']; [|intros _|done];
      rewrite (proj2 (Z.compare_lt_iff (byte.unsigned x) (byte.unsigned z))) by lia; done.
Qed.

Definition bytes_lt (a b : list byte) : Prop := bytes_compare a b = Lt.

Lemma btree_insert_in e s x : In x (btree_insert e s) <-> x = e \/ In x s.
Proof.
  induction s as [|y s IH]; cbn [btree_insert]; [cbn; naive_solver|].
  destruct (bytes_compare e y) eqn:E; cbn [In]; [apply bytes_compare_Eq in E as ->; naive_solver|naive_solver|].
  rewrite IH. naive_solver.
Qed.

Lemma btree_insert_sorted e s : StronglySorted bytes_lt s -> StronglySorted bytes_lt (btree_insert e s).
Proof.
  induction 1 as [|y s Hs IH Hy]; cbn [btree_insert]; [by repeat constructor|].
  destruct (bytes_compare e y) eqn:E; [by constructor| |].
  - constructor; [by constructor|]. constructor; [done|]. rewrite List.Forall_forall in Hy |- *.
    intros z Hz. eapply bytes_compare_trans; [done|]. by apply Hy.
  - constructor; [done|]. rewrite List.Forall_forall in Hy |- *. intros z Hz.
    apply btree_insert_in in Hz as [->|Hz]; [by apply bytes_compare_Gt|by apply Hy].
Qed.

Lemma btree_insert_length e s : (length (btree_insert e s) <= S (length s))%nat.
Proof. induction s as [|y s IH]; cbn [btree_insert length]; [lia|]. destruct (bytes_compare e y); cbn [length]; lia. Qed.

Lemma btree_NoDup s : StronglySorted bytes_lt s -> NoDup s.
Proof.
  induction 1 as [|y s Hs IH Hy]; constructor; [|done]. intros Hin%list_elem_of_In.
  rewrite List.Forall_forall in Hy. specialize (Hy y Hin). unfold bytes_lt in Hy.
  by rewrite (proj2 (bytes_compare_Eq y y)) in Hy.
Qed.

(** The elements a writer has after a list of additions. *)
Definition insert_nonempty (s : list (list byte)) (e : list byte) : list (list byte) :=
  if (length e =? 0)%nat then s else btree_insert e s.

Lemma insert_all_spec l : forall s, StronglySorted bytes_lt s ->
  StronglySorted bytes_lt (fold_left insert_nonempty l s) /\
  (length (fold_left insert_nonempty l s) <= length s + length l)%nat /\
  forall x, In x (fold_left insert_nonempty l s) <-> In x s \/ (x <> [] /\ In x l).
Proof.
  induction l as [|e l IH]; intros s Hs; cbn [fold_left length].
  { split_and!; [done|lia|]. cbn. naive_solver. }
  unfold insert_nonempty at 2 4 6. destruct e as [|b e]; cbn [length Nat.eqb].
  - destruct (IH s Hs) as (H1 & H2 & H3). split_and!; [done|lia|]. intros x. rewrite H3. cbn [In]. naive_solver.
  - destruct (IH (btree_insert (b :: e) s) (btree_insert_sorted _ _ Hs)) as (H1 & H2 & H3).
    pose proof (btree_insert_length (b :: e) s). split_and!; [done|lia|]. intros x. rewrite H3, btree_insert_in. cbn [In].
    naive_solver.
Qed.

(** ** A filter and its matches *)

Lemma stream_prefix a : forall b x, stream b = stream a ++ x -> exists c, b = a ++ c /\ stream c = x.
Proof.
  induction a as [|h a IH]; intros b x E; [by exists b|].
  destruct b as [|h' b]; [apply (f_equal length) in E; cbn in E; lia|].
  change (byte_bits h' ++ stream b = (byte_bits h ++ stream a) ++ x) in E. rewrite <- app_assoc in E.
  apply app_inj_1 in E as [Eh E]; [|by unfold byte_bits; rewrite !bits_of_length].
  apply (f_equal num) in Eh. unfold byte_bits in Eh. rewrite !num_bits_of in Eh.
  change (2 ^ Z.of_nat 8) with 256 in Eh.
  rewrite !Z.mod_small in Eh by (pose proof (byte.unsigned_range h); pose proof (byte.unsigned_range h'); lia).
  apply byte.unsigned_inj in Eh as ->. destruct (IH b x E) as (c & -> & Hc). by exists c.
Qed.

(** [bytes] is the filter of the values [vs]: their number and the Golomb-Rice codes of their differences. *)
Definition encodes (p : Z) (vs : list Z) (bytes : list byte) : Prop :=
  exists packed pad, bytes = bytes_of VarInt (Z.of_nat (length vs)) ++ packed /\
    stream packed = (deltas 0 vs ≫= golomb p) ++ replicate pad false /\ (pad < 8)%nat.

Section filters.
Context {bm : BuildMode}.

Definition sorted_values (f : GcsFilter) (nm : Z) (es : list (list byte)) : list Z :=
  sort_unstable (map (gcs_value f nm) es).

Lemma sorted_ascending f nm es : gcs_ok f -> in_u 64 nm -> ascending 0 (sorted_values f nm es).
Proof.
  intros Hf Hn. assert (forall x, In x (sorted_values f nm es) -> in_u 64 x) as Hu.
  { intros x Hx. unfold sorted_values in Hx. rewrite sort_in in Hx. apply in_map_iff in Hx as (e & <- & _).
    by apply gcs_value_in_u. }
  split; [done|]. split; [|constructor; [done|apply List.Forall_forall; intros x Hx; apply Hu in Hx; apply Hx]].
  constructor; [apply sort_sorted|]. apply List.Forall_forall. intros x Hx. apply Hu in Hx. apply Hx.
Qed.

Lemma gcs_finish_spec w : gcs_ok (wfilter w) -> in_u 64 (Z.of_nat (length (welements w)) * wm w) ->
  Z.of_nat (length (welements w)) < 2 ^ 64 ->
  let nm := Z.of_nat (length (welements w)) * wm w in
  exists bytes, gcs_finish w = Val (Z.of_nat (length bytes), wout w ++ bytes) /\
    encodes (gp (wfilter w)) (sorted_values (wfilter w) nm (welements w)) bytes.
Proof.
  intros Hf Hn Hl nm. unfold gcs_finish. rewrite arith_u_small by done. cbn [of_run]. rewrite bind_Val.
  rewrite map_elements_spec by done. cbn [of_run]. rewrite bind_Val. fold nm.
  fold (sorted_values (wfilter w) nm (welements w)). set (vs := sorted_values (wfilter w) nm (welements w)).
  assert (length vs = length (welements w)) as Hvl
    by (unfold vs, sorted_values; rewrite (Permutation_length (sort_perm _)); apply length_map).
  assert (in_u 64 (Z.of_nat (length vs))) as Hvu by (unfold in_u; lia).
  pose proof (encode_len (c := VarInt) _ Hvu) as Hel.
  unfold encodes, bytes_of in *. destruct (consensus_encode VarInt (Z.of_nat (length vs))) as [vb n]. cbn [fst snd] in *.
  destruct (writer_new_ok (wout w ++ vb)) as [Hok0 Hb0]. destruct Hf as (Hk0 & Hk1 & Hp).
  destruct (delta_loop_spec (gp (wfilter w)) Hp vs (writer_new (wout w ++ vb)) 0 n) as (w1 & -> & Hok1 & Hb1); [|done|].
  { by apply sorted_ascending. }
  rewrite bind_Val. destruct (flush_spec w1 Hok1) as (w2 & pad & -> & Hs & Hpad).
  rewrite Hb1, Hb0, <- app_assoc in Hs. destruct (stream_prefix _ _ _ Hs) as (packed & Hw2 & Hpk).
  exists (vb ++ packed). rewrite Hw2, <- app_assoc. split; [|eauto].
  do 2 f_equal. cbn [written writer_new]. rewrite !length_app. lia.
Qed.

Lemma read_count_spec p vs bytes : encodes p vs bytes -> Z.of_nat (length vs) < 2 ^ 64 -> exists packed pad,
  read_count bytes = (Z.of_nat (length vs), packed) /\
  reader_bits (reader_new packed) = (deltas 0 vs ≫= golomb p) ++ replicate pad false.
Proof.
  intros (packed & pad & -> & Hs & _) Hl. exists packed, pad. unfold read_count.
  rewrite varint_dec by (unfold in_u; lia). split; [done|]. by rewrite (proj2 (reader_new_ok packed)).
Qed.

(** The first value of a filter that is not empty. *)
Lemma first_value p v l pad packed : 0 <= p < 64 -> ascending 0 (v :: l) ->
  reader_bits (reader_new packed) = (deltas 0 (v :: l) ≫= golomb p) ++ replicate pad false ->
  exists r, golomb_rice_decode p (reader_new packed) = Val (v, r) /\
    cursor_at p (v :: l) (mkCursor v (Z.of_nat (length (v :: l)) - 1) r).
Proof.
  intros Hp Ha Hb. apply ascending_cons in Ha as (Hv & _ & Ha). cbn [deltas] in Hb.
  change ((v - 0 :: deltas v l) ≫= golomb p) with (golomb p (v - 0) ++ (deltas v l ≫= golomb p)) in Hb.
  rewrite <- app_assoc, Z.sub_0_r in Hb. destruct (reader_new_ok packed) as [Hok _].
  destruct (golomb_rice_decode_spec p _ v _ Hp ltac:(unfold in_u; lia) Hok Hb) as (r & -> & Hok' & Hb').
  exists r. split; [done|]. exists v, l, (replicate pad false). cbn [cdata cremaining cbits length].
  split_and!; try done. lia.
Qed.

(** Matching against the filter of [es], for every query. *)
Lemma gcs_match_spec r es bytes query : let nm := Z.of_nat (length es) * rm r in
  gcs_ok (rfilter r) -> in_u 64 nm -> Z.of_nat (length es) < 2 ^ 64 ->
  encodes (gp (rfilter r)) (sorted_values (rfilter r) nm es) bytes ->
  let value := gcs_value (rfilter r) nm in
  exists any all, gcs_match_any r bytes query = Val any /\ gcs_match_all r bytes query = Val all /\
    (any = true <-> query = [] \/ exists q e, In q query /\ In e es /\ value q = value e) /\
    (all = true <-> forall q, In q query -> exists e, In e es /\ value q = value e).
Proof.
  intros nm Hf Hn Hl He value. unfold gcs_match_any, gcs_match_all. set (vs := sorted_values (rfilter r) nm es) in *.
  assert (length vs = length es) as Hvl
    by (unfold vs, sorted_values; rewrite (Permutation_length (sort_perm _)); apply length_map).
  assert (forall v, In v vs <-> exists e, In e es /\ value e = v) as Hin.
  { intros v. unfold vs, sorted_values. rewrite sort_in, in_map_iff. unfold value. naive_solver. }
  destruct (read_count_spec _ _ _ He ltac:(lia)) as (packed & pad & -> & Hb). rewrite Hvl.
  fold nm. rewrite arith_u_small by done. cbn [of_run]. rewrite !bind_Val, !map_elements_spec by done. cbn [of_run].
  rewrite !bind_Val. fold value. set (ts := sort_unstable (map value query)).
  assert (forall t, In t ts <-> exists q, In q query /\ value q = t) as Hts.
  { intros t. unfold ts. rewrite sort_in, in_map_iff. naive_solver. }
  destruct query as [|q0 query].
  { exists true, true. split_and!; [done|done|naive_solver|]. split; [|done]. by intros _ q []. }
  assert (ts <> []) as Hne by (intros E; apply (in_nil (a := value q0)); rewrite <- E; apply Hts; exists q0; split; [by left|done]).
  assert (dedup ts <> []) as Hne2.
  { intros E. destruct ts as [|t ts'] eqn:Et; [done|]. apply (in_nil (a := t)). rewrite <- E, dedup_in. by left. }
  rewrite (proj2 (Nat.eqb_neq (length ts) 0)) by (by destruct ts).
  rewrite (proj2 (Nat.eqb_neq (length (dedup ts)) 0)) by (by destruct (dedup ts)).
  destruct vs as [|v l] eqn:Evs.
  { cbn in Hvl. rewrite <- Hvl. cbn [Z.of_nat Z.eqb]. exists false, false. destruct es; [|done].
    split_and!; [done|done| |]; (split; [done|]); [naive_solver|]. intros H. destruct (H q0 ltac:(by left)) as (e & [] & _). }
  cbn [length] in Hvl. rewrite (proj2 (Z.eqb_neq _ _)) by lia.
  destruct (first_value _ v l pad packed (proj2 (proj2 Hf)) ltac:(rewrite <- Evs; by apply sorted_ascending) Hb) as (rd & -> & Hc).
  rewrite !bind_Val. cbn [length] in Hc. rewrite Hvl in Hc.
  destruct (any_loop_spec _ (proj2 (proj2 Hf)) ts (sort_sorted _) _ _ Hc) as (any & -> & Hany).
  destruct (all_loop_spec _ (proj2 (proj2 Hf)) (dedup ts) (dedup_sorted _ (sort_sorted _)) _ _ Hc) as (all & -> & Hall).
  exists any, all. split_and!; [done|done| |].
  - rewrite Hany. split.
    + intros (t & Ht & Hv). right. apply Hts in Ht as (q & Hq & <-). apply Hin in Hv as (e & Hee & Hev). eauto.
    + intros [[=]|(q & e & Hq & Hee & Hev)]. exists (value q). split; [apply Hts; eauto|]. apply Hin. eauto.
  - rewrite Hall. setoid_rewrite dedup_in. split.
    + intros H q Hq. destruct (proj1 (Hin (value q)) (H _ (proj2 (Hts _) (ex_intro _ q (conj Hq eq_refl))))) as (e & ? & ?). eauto.
    + intros H t Ht. apply Hts in Ht as (q & Hq & <-). apply Hin. destruct (H q Hq) as (e & ? & ?). eauto.
Qed.
End filters.

(** ** Filters of blocks *)

(** The scripts BIP-158 puts in a filter: those of the outputs, other than [OP_RETURN], and those spent. *)
Definition output_scripts (b : Block) : list (list byte) :=
  filter (fun s => is_op_return s = false) (txdata b ≫= (fun t => map script_pubkey (output t))).
Definition coins (b : Block) : list OutPoint := drop 1 (txdata b) ≫= (fun t => map previous_output (input t)).
Definition block_keys (b : Block) : GcsFilter :=
  mkGcs (hash_key (block_hash (header b)) 0) (hash_key (block_hash (header b)) 1) P.

Definition add_all (w : BlockFilterWriter) (l : list (list byte)) : BlockFilterWriter := fold_left add_element l w.

Lemma add_all_spec l : forall w, add_all w l =
  mkBlockWriter (bblock w) (mkGcsWriter (wfilter (bwriter w)) (wout (bwriter w))
    (fold_left insert_nonempty l (welements (bwriter w))) (wm (bwriter w))).
Proof.
  induction l as [|e l IH]; intros w; [by destruct w as [? []]|].
  change (add_all w (e :: l)) with (add_all (add_element w e) l).
  assert (add_element w e = mkBlockWriter (bblock w) (mkGcsWriter (wfilter (bwriter w)) (wout (bwriter w))
    (insert_nonempty (welements (bwriter w)) e) (wm (bwriter w)))) as ->; [|by rewrite IH].
  unfold add_element, gcs_add_element, insert_nonempty. destruct w as [? []]. by destruct (length e =? 0)%nat.
Qed.

Lemma add_outputs l : forall w,
  fold_left (fun self o => if negb (is_op_return (script_pubkey o)) then add_element self (script_pubkey o) else self) l w =
  add_all w (filter (fun s => is_op_return s = false) (map script_pubkey l)).
Proof.
  induction l as [|o l IH]; intros w; [done|]. cbn [fold_left map]. rewrite IH, filter_cons.
  destruct (is_op_return (script_pubkey o)); cbn [negb]; [by rewrite decide_False|by rewrite decide_True].
Qed.

Lemma add_output_scripts_spec w : add_output_scripts w = add_all w (output_scripts (bblock w)).
Proof.
  unfold add_output_scripts, output_scripts. generalize (txdata (bblock w)) as l. intros l. revert w.
  induction l as [|t l IH]; intros w; [done|]. cbn [fold_left]. rewrite IH, add_outputs. cbn [mbind list_bind].
  rewrite filter_app. unfold add_all. by rewrite fold_left_app.
Qed.

Lemma add_scripts_spec l w : add_scripts w (map Ok l) = Ok (add_all w l).
Proof. revert w. induction l as [|s l IH]; intros w; [done|]. cbn [map add_scripts]. by rewrite IH. Qed.

Lemma add_scripts_Err l e k w : add_scripts w (map Ok l ++ Err e :: k) = Err e.
Proof. revert w. induction l as [|s l IH]; intros w; [done|]. cbn [map app add_scripts]. by rewrite IH. Qed.

Lemma hash_key_in_u h i : in_u 64 (hash_key h i).
Proof.
  unfold hash_key. pose proof (le_combine_bound (take 8 (drop (8 * i) h))). rewrite length_take in H.
  assert (2 ^ (8 * Z.of_nat (Nat.min 8 (length (drop (8 * i) h)))) <= 2 ^ 64) by (apply Z.pow_le_mono_r; lia).
  unfold in_u. lia.
Qed.

Lemma block_keys_ok b : gcs_ok (block_keys b).
Proof. split; [apply hash_key_in_u|]. split; [apply hash_key_in_u|done]. Qed.

Lemma add_inputs b f : add_input_scripts (add_output_scripts (block_writer_new [] b)) f =
  add_scripts (add_all (block_writer_new [] b) (output_scripts b)) (map f (coins b)).
Proof.
  unfold add_input_scripts. rewrite add_output_scripts_spec.
  change (bblock (block_writer_new [] b)) with b. by rewrite add_all_spec.
Qed.

(** When the script of a spent coin is missing there is no filter, but the error of the first one. *)
Lemma new_script_filter_missing {bm : BuildMode} (b : Block) script_for_coin found e k :
  map script_for_coin (coins b) = map Ok found ++ Err e :: k -> new_script_filter b script_for_coin = Throw e.
Proof.
  intros E. unfold new_script_filter. by rewrite add_inputs, E, add_scripts_Err.
Qed.

(** C11: compact block filters are exact.  For a block whose spent scripts are all known the filter is
    built without a panic: it is the number of the distinct, not empty scripts (of the outputs that
    are not [OP_RETURN] and of the coins spent) and the Golomb-Rice code of their sorted values.
    Matching against it never fails: [match_any] holds exactly when the query is empty or some
    element has the value of a script of the filter, [match_all] exactly when all have; so a script
    of the block is always found. *)
Theorem block_filter_exact {bm : BuildMode} (b : Block) (script_for_coin : OutPoint -> Result FilterError (list byte))
    (spent : list (list byte)) (Hspent : map script_for_coin (coins b) = map Ok spent)
    (Hsize : Z.of_nat (length (output_scripts b ++ spent)) * M < 2 ^ 64) :
  exists flt scripts, new_script_filter b script_for_coin = Val flt /\ NoDup scripts /\
    (forall s, In s scripts <-> s <> [] /\ In s (output_scripts b ++ spent)) /\
    let value := gcs_value (block_keys b) (Z.of_nat (length scripts) * M) in
    encodes P (sort_unstable (map value scripts)) (content flt) /\
    forall query, exists any all,
      match_any flt (block_hash (header b)) query = Val any /\ match_all flt (block_hash (header b)) query = Val all /\
      (any = true <-> query = [] \/ exists q s, In q query /\ In s scripts /\ value q = value s) /\
      (all = true <-> forall q, In q query -> exists s, In s scripts /\ value q = value s) /\
      (forall q, In q query -> In q scripts -> any = true) /\
      ((forall q, In q query -> In q scripts) -> all = true).
Proof.
  destruct (insert_all_spec (output_scripts b ++ spent) [] ltac:(constructor)) as (Hs & Hl & Hin).
  set (scripts := fold_left insert_nonempty (output_scripts b ++ spent) []) in *.
  unfold new_script_filter. rewrite add_inputs, Hspent, add_scripts_spec.
  unfold add_all. rewrite <- fold_left_app. fold (add_all (block_writer_new [] b) (output_scripts b ++ spent)).
  cbn [of_result]. rewrite bind_Val. rewrite add_all_spec. fold scripts.
  assert (in_u 64 (Z.of_nat (length scripts) * M)) as Hnm by (unfold in_u, M in *; cbn [length] in Hl; lia).
  assert (Z.of_nat (length scripts) < 2 ^ 64) as Hn by (unfold in_u, M in *; lia).
  unfold finish. cbn [bwriter]. fold (block_keys b).
  destruct (gcs_finish_spec (mkGcsWriter (block_keys b) [] scripts M) (block_keys_ok b) Hnm Hn) as (bytes & E & He).
  cbn [wfilter wout welements wm] in E, He.
  change (gcs_finish _) with (gcs_finish (mkGcsWriter (block_keys b) [] scripts M)). rewrite E. cbn [io].
  rewrite bind_Val. exists (mkFilter bytes), scripts. split; [done|]. split; [by apply btree_NoDup|].
  split; [intros s; rewrite Hin; cbn [In]; tauto|]. split; [exact He|]. intros query.
  destruct (gcs_match_spec (block_reader_new (block_hash (header b))) scripts bytes query (block_keys_ok b) Hnm Hn He)
    as (any & all & Eany & Eall & Hany & Hall).
  exists any, all. unfold match_any, match_all. cbn [content]. rewrite Eany, Eall. cbn [io].
  split_and!; [done|done|exact Hany|exact Hall| |].
  - intros q Hq Hqs. apply Hany. right. eauto.
  - intros H. apply Hall. intros q Hq. eauto.
Qed.

(** A block of two transactions; the second spends a coin and has a data output. *)
Definition sample_filter_tx (coin : OutPoint) (scripts : list (list byte)) : Transaction :=
  mkTx 1 (Abs.Blocks 0) [mkTxIn coin [] Seq.MAX Witness.new] (map (mkTxOut 1) scripts).
Definition sample_script : list byte := map byte.of_Z [0x51; 0x52; 0x53].
Definition sample_filter_block : Block :=
  mkBlock (mkHeader 1 (replicate 32 Byte.x00) (replicate 32 Byte.x01) 0 (mkCompact 0x207fffff) 7)
    [sample_filter_tx null_outpoint [sample_script; []];
     sample_filter_tx (mkOutPoint (replicate 32 Byte.x02) 0) [map byte.of_Z [0x6a; 0x01]; map byte.of_Z [0x54]]].

Lemma block_filter_exact_witness : exists flt,
  new_script_filter (bm := true) sample_filter_block (fun _ => Ok (map byte.of_Z [0x55])) = Val flt /\
  match_any (bm := true) flt (block_hash (header sample_filter_block)) [map byte.of_Z [0x99]; sample_script] = Val true.
Proof.
  destruct (block_filter_exact (bm := true) sample_filter_block (fun _ => Ok (map byte.of_Z [0x55]))
    [map byte.of_Z [0x55]]) as (flt & scripts & H1 & _ & Hin & _ & Hm); [reflexivity|reflexivity|].
  exists flt. split; [exact H1|].
  destruct (Hm [map byte.of_Z [0x99]; sample_script]) as (any & all & -> & _ & _ & _ & Hf & _).
  f_equal. apply (Hf sample_script); [right; left; reflexivity|]. apply Hin. split; [discriminate|]. left. reflexivity.
Defined.

(** The filter of the sample block, and queries on it. *)
Example sample_filter_matches : exists flt,
  new_script_filter (bm := true) sample_filter_block (fun _ => Ok (map byte.of_Z [0x55])) = Val flt /\
  match_any (bm := true) flt (block_hash (header sample_filter_block)) [map byte.of_Z [0x99]] = Val false /\
  match_all (bm := true) flt (block_hash (header sample_filter_block)) [map byte.of_Z [0x55]; sample_script; sample_script] = Val true.
Proof. eexists. split; [vm_compute; reflexivity|]. split; vm_compute; reflexivity. Qed.
