(* ===== verification/CompactBlocks.v ===== *)
(** * Compact blocks ([bip152.rs])

    Short transaction ids, the compact form of a block with its differentially encoded indexes, and
    the request for missing transactions with its answer. *)

From Stdlib Require Import ZArith Lia String.
From coqutil Require Import Byte Word.LittleEndianList.
From stdpp Require Import base tactics option list numbers.
From S2P Require Import Prelude U256 Params Pow Io Encode HashEngine Sha256 SipHash.
From S2P Require Import Witness LockTime Script Transaction Block.

#[local] Open Scope Z_scope.

(** ** Prefilled transactions and short ids *)

Record PrefilledTransaction := mkPrefilled { idx : Z; tx : Transaction }.

Definition prefilled_encode (self : PrefilledTransaction) : list byte * Z :=
  consensus_encode VarInt (idx self) +++ consensus_encode TransactionC (tx self).
Definition prefilled_decode : Decoder PrefilledTransaction :=
  idx ← consensus_decode VarInt;
  if u16_MAX <? idx then dfail (ParseFailed "BIP152 prefilled tx index out of bounds")
  else
    tx ← consensus_decode TransactionC;
    mret (mkPrefilled idx tx).
Definition PrefilledTransactionC : Consensus PrefilledTransaction := simple prefilled_encode prefilled_decode.

Definition ShortId : Consensus (list byte) := array 6.

Definition calculate_siphash_keys (header : Header) (nonce : Z) : Z * Z :=
  let engine := engine_input default (bytes_of HeaderC header) in
  let engine := engine_input engine (bytes_of u64 nonce) in
  let h := from_engine engine in
  (le_combine (take 8 h), le_combine (take 8 (drop 8 h))).

Section short_ids.
Context {bm : BuildMode}.

Definition with_siphash_keys (txid : list byte) (siphash_keys : Z * Z) : run (list byte) :=
  hash ← hash_with_keys (fst siphash_keys) (snd siphash_keys) txid;
  Ret (take 6 hash).

(** ** The compact form of a block *)

Record HeaderAndShortIds := mkHeaderAndShortIds {
  cb_header : Header;
  cb_nonce : Z;
  short_ids : list (list byte);
  prefilled_txs : list PrefilledTransaction;
}.

Inductive Bip152Error := UnknownVersion | InvalidPrefill.

(** The witness of every input cleared. *)
Definition no_witness (tx : Transaction) : Transaction :=
  mkTx (version tx) (lock_time tx) (map (fun i => set_witness i (Witness.clear (witness i))) (input tx)) (output tx).

Definition prefilled_tx (version : Z) (tx : Transaction) : Transaction :=
  if version =? 1 then no_witness tx else tx.
Definition tx_hash (version : Z) (tx : Transaction) : list byte :=
  if version =? 1 then compute_txid tx else compute_wtxid tx.

(** The loop over the transactions, numbered from [i]: it ends with what is left of [prefill]. *)
Fixpoint from_block_loop (version : Z) (keys : Z * Z) (i : Z) (txs : list Transaction) (prefill : list Z)
    (last_prefill : Z) (prefilled : list PrefilledTransaction) (short_ids : list (list byte)) :
    run (list Z * list PrefilledTransaction * list (list byte)) :=
  match txs with
  | [] => Ret (prefill, prefilled, short_ids)
  | tx :: txs =>
      let '(prefill_tx, prefill) :=
        match prefill with
        | first :: rest => if first =? i then (true, rest) else (i =? 0, prefill)
        | [] => (i =? 0, [])
        end in
      if (prefill_tx : bool) then
        let diff_idx := i - last_prefill in
        from_block_loop version keys (i + 1) txs prefill (i + 1)
          (prefilled ++ [mkPrefilled (wrap 16 diff_idx) (prefilled_tx version tx)]) short_ids
      else
        id ← with_siphash_keys (tx_hash version tx) keys;
        from_block_loop version keys (i + 1) txs prefill last_prefill prefilled (short_ids ++ [id])
  end.

(** [Vec::with_capacity(txdata.len() - prefill.len())] panics when there are more indexes than
    transactions: the subtraction overflows, or the capacity it wraps to does. *)
Definition from_block (block : Block) (nonce version : Z) (prefill : list Z) :
    comp Bip152Error HeaderAndShortIds :=
  if negb (version =? 1) && negb (version =? 2) then Throw UnknownVersion
  else
    let siphash_keys := calculate_siphash_keys (header block) nonce in
    _ ← of_run (assert_ (length prefill <=? length (txdata block))%nat);
    '(prefill, prefilled, short_ids) ← of_run (from_block_loop version siphash_keys 0 (txdata block) prefill 0 [] []);
    match prefill with
    | _ :: _ => Throw InvalidPrefill
    | [] => Val (mkHeaderAndShortIds (header block) nonce short_ids prefilled)
    end.
End short_ids.

Definition HeaderAndShortIdsC : Consensus HeaderAndShortIds :=
  impl_consensus_encoding
    (fun s => (cb_header s, (cb_nonce s, (short_ids s, prefilled_txs s))))
    (fun '(h, (n, (s, p))) => mkHeaderAndShortIds h n s p)
    (fields HeaderC (fields u64 (fields (vec ShortId) (vec PrefilledTransactionC)))).

(** ** Requests *)

Record BlockTransactionsRequest := mkRequest { req_hash : list byte; indexes : list Z }.

Section requests.
Context {bm : BuildMode}.

Fixpoint encode_indexes (last_idx : Z) (l : list Z) : run (list byte * Z) :=
  match l with
  | [] => Ret wnil
  | idx :: l =>
      d ← arith_u 64 (idx - last_idx);
      last_idx ← arith_u 64 (idx + 1);
      rest ← encode_indexes last_idx l;
      Ret (consensus_encode VarInt d +++ rest)
  end.

(** The encoding panics on overflow in a build with overflow checks. *)
Definition request_encode (self : BlockTransactionsRequest) : run (list byte * Z) :=
  rest ← encode_indexes 0 (indexes self);
  Ret (consensus_encode BlockHash (req_hash self)
       +++ consensus_encode VarInt (Z.of_nat (length (indexes self))) +++ rest).
End requests.

(** [mem::size_of::<Transaction>()] is the compiler's choice. *)
Section decoding.
Context (size_of_transaction : Z).

Definition checked_u64_add (a b : Z) : option Z := if in_ub 64 (a + b) then Some (a + b) else None.

Definition index_step (st : list Z * Z) : Decoder (list Z * Z) :=
  let '(indexes, last_index) := st in
  differential ← consensus_decode VarInt;
  match checked_u64_add last_index differential with
  | None => dfail (ParseFailed "block index overflow")
  | Some last_index =>
      match checked_u64_add last_index 1 with
      | None => dfail (ParseFailed "block index overflow")
      | Some next => mret (indexes ++ [last_index], next)
      end
  end.

Definition request_decode : Decoder BlockTransactionsRequest :=
  block_hash ← consensus_decode BlockHash;
  nb_indexes ← consensus_decode VarInt;
  let byte_size := nb_indexes * size_of_transaction in
  if negb (in_ub 64 byte_size) then dfail (ParseFailed "Invalid length")
  else if MAX_VEC_SIZE <? byte_size then dfail (OversizedVectorAllocation byte_size MAX_VEC_SIZE)
  else
    '(indexes, _) ← for_ nb_indexes index_step ([], 0);
    mret (mkRequest block_hash indexes).
End decoding.

Record BlockTransactions := mkBlockTransactions { bt_hash : list byte; transactions : list Transaction }.

Definition BlockTransactionsC : Consensus BlockTransactions :=
  impl_consensus_encoding (fun b => (bt_hash b, transactions b)) (fun '(h, t) => mkBlockTransactions h t)
    (fields BlockHash (vec TransactionC)).

(** [TxIndexOutOfRangeError] carries the index. *)
Fixpoint request_loop (txdata : list Transaction) (l : list Z) (txs : list Transaction) :
    comp Z (list Transaction) :=
  match l with
  | [] => Val txs
  | idx :: l =>
      if Z.of_nat (length txdata) <=? idx then Throw idx
      else t ← of_run (index txdata idx); request_loop txdata l (txs ++ [t])
  end.
Definition from_request (request : BlockTransactionsRequest) (block : Block) : comp Z BlockTransactions :=
  txs ← request_loop (txdata block) (indexes request) [];
  Val (mkBlockTransactions (req_hash request) txs).

#[local] Opaque siphash24 hash_with_keys from_engine compute_txid compute_wtxid.

(** ** Wire formats *)

Definition prefilled_wf (p : PrefilledTransaction) : Prop :=
  in_u 16 (idx p) /\ tx_wf (tx p) /\ Z.of_nat (length (bytes_of TransactionC (tx p))) <= MAX_VEC_SIZE.

Lemma tx_decode_limited bs t rest : on_slice (consensus_decode TransactionC) bs = Ok (t, rest) ->
  Z.of_nat (length (bytes_of TransactionC t)) <= MAX_VEC_SIZE.
Proof.
  cbn [TransactionC limited consensus_decode]. rewrite on_slice_with_take by apply _.
  destruct (on_slice tx_decode _) as [[t' r]|] eqn:E; [|done]. intros [= -> _].
  apply tx_decode_inv in E as [_ E]. apply (f_equal length) in E. rewrite length_take, length_app in E.
  unfold MAX_VEC_SIZE in *. lia.
Qed.

#[export] Instance Prefilled_Codec : Codec PrefilledTransactionC prefilled_wf.
Proof.
  apply simple_Codec.
  - intros p (Hi & Ht & _). unfold prefilled_encode, wcat. cbn [fst snd].
    assert (in_u 64 (idx p)) as Hi64 by (unfold in_u in *; lia).
    rewrite (encode_len (c:=VarInt)), (encode_len (c:=TransactionC)) by done. unfold bytes_of. rewrite length_app. lia.
  - unfold prefilled_decode. apply _.
  - intros [i t] rest (Hi & Ht & Hl). cbn [idx tx] in *. unfold prefilled_encode, prefilled_decode, wcat.
    cbn [fst idx tx]. fold (bytes_of VarInt i) (bytes_of TransactionC t). rewrite <- app_assoc, on_slice_bind.
    rewrite varint_dec by (unfold in_u in *; lia). rewrite (proj2 (Z.ltb_ge _ _)) by (unfold in_u, u16_MAX in *; lia).
    by rewrite on_slice_bind, (decode_roundtrip (c:=TransactionC)).
Qed.

#[export] Instance Prefilled_Canonical : Canonical PrefilledTransactionC prefilled_wf.
Proof.
  apply simple_Canonical. intros bs p rest. unfold prefilled_decode. intros H. rewrite on_slice_bind_Ok in H.
  destruct H as (i & bs' & Hi & H). destruct (Z.ltb_spec u16_MAX i) as [|Hle]; [done|].
  rewrite on_slice_bind_Ok in H. destruct H as (t & bs2 & Ht & H). rewrite on_slice_ret in H. injection H as <- <-.
  pose proof (tx_decode_limited _ _ _ Ht) as Hl.
  apply (decode_canonical (c:=VarInt)) in Hi as [Hv ->]. apply (decode_canonical (c:=TransactionC)) in Ht as [Htw ->].
  split; [|unfold prefilled_encode, wcat; cbn [fst idx tx]; by rewrite <- app_assoc].
  split_and!; [|done|done]. unfold in_u, u16_MAX in *. cbn [idx]. lia.
Qed.

Definition short_id_wf (s : list byte) : Prop := length s = 6%nat.
#[export] Instance ShortId_Codec : Codec ShortId short_id_wf := array_Codec 6.
#[export] Instance ShortId_Canonical : Canonical ShortId short_id_wf := array_Canonical 6.
#[export] Instance u64_Codec : Codec u64 (in_u 64) := u_le_Codec 8.
#[export] Instance u64_Canonical : Canonical u64 (in_u 64) := u_le_Canonical 8.

Definition compact_block_wf (c : HeaderAndShortIds) : Prop :=
  header_wf (cb_header c) /\ in_u 64 (cb_nonce c) /\ vec_wf short_id_wf (short_ids c) /\ vec_wf prefilled_wf (prefilled_txs c).
Definition compact_fields_wf :=
  fields_wf header_wf (fields_wf (in_u 64) (fields_wf (vec_wf short_id_wf) (vec_wf prefilled_wf))).

#[export] Instance HeaderAndShortIds_Codec : Codec HeaderAndShortIdsC compact_block_wf.
Proof.
  refine (impl_Codec (fun s => (cb_header s, (cb_nonce s, (short_ids s, prefilled_txs s)))) _ _ compact_fields_wf _).
  by intros [].
Qed.
#[export] Instance HeaderAndShortIds_Canonical : Canonical HeaderAndShortIdsC compact_block_wf.
Proof.
  refine (impl_Canonical (fun s => (cb_header s, (cb_nonce s, (short_ids s, prefilled_txs s)))) _ _ compact_fields_wf _).
  by intros (? & ? & ? & ?).
Qed.

Definition block_transactions_wf (b : BlockTransactions) : Prop := hash_wf (bt_hash b) /\ vec_wf tx_wf (transactions b).
#[export] Instance BlockTransactions_Codec : Codec BlockTransactionsC block_transactions_wf.
Proof.
  refine (impl_Codec (fun b => (bt_hash b, transactions b)) _ _ (fields_wf hash_wf (vec_wf tx_wf)) _). by intros [].
Qed.
#[export] Instance BlockTransactions_Canonical : Canonical BlockTransactionsC block_transactions_wf.
Proof.
  refine (impl_Canonical (fun b => (bt_hash b, transactions b)) _ _ (fields_wf hash_wf (vec_wf tx_wf)) _). by intros [].
Qed.

(** ** Requests *)

(** Strictly ascending from [last], and below the largest 64-bit number. *)
Fixpoint ascending_from (last : Z) (l : list Z) : Prop :=
  match l with [] => True | i :: l => last <= i < u64_MAX /\ ascending_from (i + 1) l end.
Fixpoint differences (last : Z) (l : list Z) : list Z :=
  match l with [] => [] | i :: l => i - last :: differences (i + 1) l end.

Lemma encode_indexes_spec {bm : BuildMode} l : forall last, 0 <= last -> ascending_from last l ->
  exists n, encode_indexes last l = Ret (differences last l ≫= bytes_of VarInt, n) /\
    n = Z.of_nat (length (differences last l ≫= bytes_of VarInt)).
Proof.
  induction l as [|i l IH]; intros last H0 H; cbn [encode_indexes differences]; [by exists 0|].
  cbn [ascending_from] in H. destruct H as [Hi H]. unfold u64_MAX in Hi.
  rewrite !arith_u_small, !bind_Ret by (unfold in_u; lia).
  destruct (IH (i + 1) ltac:(lia) H) as (n & -> & Hn). rewrite bind_Ret. eexists. split; [done|].
  change ((i - last :: differences (i + 1) l) ≫= bytes_of VarInt)
    with (bytes_of VarInt (i - last) ++ (differences (i + 1) l ≫= bytes_of VarInt)).
  cbn [snd]. assert (in_u 64 (i - last)) as Hu by (unfold in_u; lia).
  rewrite (encode_len (c:=VarInt)) by done. rewrite length_app. lia.
Qed.

(** With overflow checks the encoding panics exactly on the other lists. *)
Lemma encode_indexes_panics l : forall last, in_u 64 last -> Forall (in_u 64) l ->
  encode_indexes (bm := true) last l = Panic <-> ~ ascending_from last l.
Proof.
  induction l as [|i l IH]; intros last H0 H; cbn [encode_indexes ascending_from]; [naive_solver|].
  apply Forall_cons_1 in H as [Hi H]. unfold in_u, u64_MAX in *.
  destruct (decide (last <= i)) as [Hle|Hgt].
  - rewrite (arith_u_small 64 (i - last)), bind_Ret by (unfold in_u; lia).
    destruct (decide (i < 2 ^ 64 - 1)) as [Hlt|Hge].
    + rewrite (arith_u_small 64 (i + 1)), bind_Ret by (unfold in_u; lia).
      assert (encode_indexes (i + 1) l = Panic <-> ~ ascending_from (i + 1) l) as IH' by (apply IH; [unfold in_u; lia|done]).
      destruct (encode_indexes (i + 1) l); cbn [mbind run_bind] in *; naive_solver lia.
    + assert (arith_u (bm := true) 64 (i + 1) = Panic) as ->; [|split; [lia|done]].
      unfold arith_u, in_ub. by rewrite (proj2 (Z.ltb_ge (i + 1) _)), andb_false_r by lia.
  - assert (arith_u (bm := true) 64 (i - last) = Panic) as ->; [|split; [lia|done]].
    unfold arith_u, in_ub. by rewrite (proj2 (Z.leb_gt 0 _)) by lia.
Qed.

Lemma index_step_spec indexes last d rest : in_u 64 d ->
  on_slice (index_step (indexes, last)) (bytes_of VarInt d ++ rest) =
  if (0 <=? last + d) && (last + d <? u64_MAX) then Ok ((indexes ++ [last + d], last + d + 1), rest)
  else Err (ParseFailed "block index overflow").
Proof.
  intros Hd. unfold index_step. rewrite on_slice_bind, varint_dec by done. unfold checked_u64_add, in_ub, u64_MAX.
  destruct (Z.leb_spec 0 (last + d)), (Z.ltb_spec (last + d) (2 ^ 64)), (Z.ltb_spec (last + d) (2 ^ 64 - 1)); try lia;
    cbn [andb]; try done.
  - by rewrite (proj2 (Z.leb_le 0 _)), (proj2 (Z.ltb_lt _ (2 ^ 64))) by lia.
  - by rewrite (proj2 (Z.ltb_ge _ (2 ^ 64))), andb_false_r by lia.
Qed.

Lemma index_steps l : forall pre last rest, 0 <= last -> ascending_from last l -> exists next,
  on_slice (for_nat (length l) index_step (pre, last)) ((differences last l ≫= bytes_of VarInt) ++ rest) =
  Ok ((pre ++ l, next), rest).
Proof.
  induction l as [|i l IH]; intros pre last rest H0 H; cbn [length for_nat differences].
  { exists last. by rewrite app_nil_r. }
  cbn [ascending_from] in H. destruct H as [Hi H]. unfold u64_MAX in Hi.
  change ((i - last :: differences (i + 1) l) ≫= bytes_of VarInt)
    with (bytes_of VarInt (i - last) ++ (differences (i + 1) l ≫= bytes_of VarInt)).
  rewrite on_slice_bind, <- app_assoc, index_step_spec by (unfold in_u; lia).
  replace (last + (i - last)) with i by lia.
  rewrite (proj2 (Z.leb_le 0 i)), (proj2 (Z.ltb_lt i u64_MAX)) by (unfold u64_MAX; lia). cbn [andb].
  destruct (IH (pre ++ [i]) (i + 1) rest ltac:(lia) H) as (next & ->). exists next. by rewrite <- app_assoc.
Qed.

Lemma index_steps_inv n : forall pre last bs out next rest, 0 <= last ->
  on_slice (for_nat n index_step (pre, last)) bs = Ok ((out, next), rest) ->
  exists l, length l = n /\ ascending_from last l /\ out = pre ++ l /\ bs = (differences last l ≫= bytes_of VarInt) ++ rest.
Proof.
  induction n as [|n IH]; intros pre last bs out next rest H0 H; cbn [for_nat] in H.
  { rewrite on_slice_ret in H. injection H as <- <- <-. exists []. by rewrite app_nil_r. }
  rewrite on_slice_bind_Ok in H. destruct H as ([pre1 last1] & bs1 & H1 & H).
  assert (exists d, in_u 64 d /\ bs = bytes_of VarInt d ++ bs1 /\ pre1 = pre ++ [last + d] /\ last1 = last + d + 1 /\
    0 <= last + d < u64_MAX) as (d & Hd & -> & -> & -> & Hb).
  { pose proof H1 as H2. unfold index_step in H2. rewrite on_slice_bind_Ok in H2. destruct H2 as (d & bs' & Hd & _).
    apply (decode_canonical (c:=VarInt)) in Hd as [Hd ->]. rewrite index_step_spec in H1 by done.
    destruct (_ && _) eqn:E; [|done]. injection H1 as <- <- <-. exists d. apply andb_true_iff in E as [].
    split_and!; try done; lia. }
  apply IH in H as (l & Hl & Ha & -> & ->); [|lia]. exists (last + d :: l). cbn [length ascending_from differences].
  unfold in_u in Hd. split_and!; [lia|lia|lia|done|by rewrite <- app_assoc|].
  change ((last + d - last :: differences (last + d + 1) l) ≫= bytes_of VarInt)
    with (bytes_of VarInt (last + d - last) ++ (differences (last + d + 1) l ≫= bytes_of VarInt)).
  replace (last + d - last) with d by lia. by rewrite <- app_assoc.
Qed.

Definition request_ok (size_of_transaction : Z) (r : BlockTransactionsRequest) : Prop :=
  length (req_hash r) = 32%nat /\ ascending_from 0 (indexes r) /\
  Z.of_nat (length (indexes r)) * size_of_transaction <= MAX_VEC_SIZE.

Lemma request_bytes {bm : BuildMode} r : length (req_hash r) = 32%nat -> ascending_from 0 (indexes r) ->
  Z.of_nat (length (indexes r)) < 2 ^ 64 ->
  exists n bytes, request_encode r = Ret (bytes, n) /\ n = Z.of_nat (length bytes) /\
    bytes = bytes_of BlockHash (req_hash r) ++ bytes_of VarInt (Z.of_nat (length (indexes r)))
            ++ (differences 0 (indexes r) ≫= bytes_of VarInt).
Proof.
  intros Hh Ha Hl. unfold request_encode. destruct (encode_indexes_spec _ 0 ltac:(lia) Ha) as (n & -> & Hn).
  rewrite bind_Ret. eexists _, _. split; [done|]. split; [|done].
  unfold wcat. cbn [fst snd]. rewrite (encode_len (c:=BlockHash)) by done.
  assert (in_u 64 (Z.of_nat (length (indexes r)))) as Hu by (unfold in_u; lia).
  rewrite (encode_len (c:=VarInt)) by done. unfold bytes_of in *. rewrite !length_app. lia.
Qed.

(** Requests for block transactions.  A request whose indexes ascend strictly and stay below the
    largest 64-bit number is written differentially, in either build, and reads back; nothing else
    is ever read, and every request that is read is written as the bytes it was read from.  With
    overflow checks, encoding any other list of indexes panics. *)
Lemma block_request_exact {bm : BuildMode} (size_of_transaction : Z) (r : BlockTransactionsRequest)
    (bs rest : list byte) (Hsize : 1 <= size_of_transaction) (Hr : Forall (in_u 64) (indexes r)) :
  (request_ok size_of_transaction r -> exists bytes n, request_encode r = Ret (bytes, n) /\
     n = Z.of_nat (length bytes) /\ on_slice (request_decode size_of_transaction) (bytes ++ rest) = Ok (r, rest)) /\
  (on_slice (request_decode size_of_transaction) bs = Ok (r, rest) -> request_ok size_of_transaction r /\
     exists bytes n, request_encode r = Ret (bytes, n) /\ bs = bytes ++ rest) /\
  (request_encode (bm := true) r = Panic <-> ~ ascending_from 0 (indexes r)).
Proof.
  split_and!.
  - intros (Hh & Ha & Hl). unfold MAX_VEC_SIZE in Hl.
    destruct (request_bytes r Hh Ha ltac:(nia)) as (n & bytes & E & Hn & ->). eexists _, n. split; [exact E|]. split; [done|].
    unfold request_decode. rewrite <- !app_assoc, on_slice_bind, (finite_roundtrip (c:=BlockHash)) by done.
    rewrite on_slice_bind, varint_dec by (unfold in_u; nia).
    rewrite (proj2 (in_ub_spec 64 _)) by (unfold in_u; nia). cbn [negb].
    rewrite (proj2 (Z.ltb_ge _ _)) by (unfold MAX_VEC_SIZE; lia). rewrite on_slice_bind, for_spec, Nat2Z.id.
    destruct (index_steps (indexes r) [] 0 rest ltac:(lia) Ha) as (next & ->). by destruct r.
  - unfold request_decode. rewrite on_slice_bind_Ok. intros (h & bs1 & Hh & H).
    apply (finite_canonical (c:=BlockHash)) in Hh as [Hh ->].
    rewrite on_slice_bind_Ok in H. destruct H as (n & bs2 & Hn & H). apply (decode_canonical (c:=VarInt)) in Hn as [Hn ->].
    destruct (in_ub 64 _); cbn [negb] in H; [|done]. destruct (Z.ltb_spec MAX_VEC_SIZE (n * size_of_transaction)) as [|Hle]; [done|].
    rewrite on_slice_bind_Ok in H. destruct H as ([l next] & bs3 & H1 & H2). rewrite on_slice_ret in H2. injection H2 as <- <-.
    rewrite for_spec in H1. apply index_steps_inv in H1 as (l' & Hl & Ha & -> & ->); [|lia]. cbn [app].
    assert (Z.of_nat (length l') = n) as Hln by (unfold in_u in Hn; lia).
    split; [split_and!; cbn [req_hash indexes]; [done|done|by rewrite Hln]|].
    destruct (request_bytes (mkRequest h l') Hh Ha) as (k & bytes & E & _ & Hb).
    { cbn [indexes]. unfold in_u in Hn. lia. }
    exists bytes, k. split; [exact E|]. rewrite Hb. cbn [req_hash indexes]. rewrite Hln, <- !app_assoc. done.
  - unfold request_encode. rewrite <- (encode_indexes_panics (indexes r) 0 ltac:(by split) Hr).
    destruct (encode_indexes 0 (indexes r)); cbn; done.
Qed.

(** The answer has the requested transactions in order, or is the error of the first index that is out
    of range. *)
Lemma request_loop_spec txs l : Forall (Z.le 0) l -> forall acc, request_loop txs l acc =
  match list_find (fun i => Z.of_nat (length txs) <= i) l with
  | Some (_, i) => Throw i
  | None => Val (acc ++ omap (fun i => txs !! Z.to_nat i) l)
  end.
Proof.
  induction 1 as [|i l Hi Hl IH]; intros acc; cbn [request_loop list_find omap list_omap]; [by rewrite app_nil_r|].
  destruct (Z.leb_spec (Z.of_nat (length txs)) i) as [Hge|Hlt]; [by rewrite decide_True by lia|].
  rewrite decide_False by lia.
  destruct (lookup_lt_is_Some_2 txs (Z.to_nat i) ltac:(lia)) as [t Ht].
  rewrite (index_lookup txs i t) by done. cbn [of_run]. rewrite bind_Val, Ht, IH.
  destruct (list_find _ l) as [[]|]; cbn; [done|]. by rewrite <- app_assoc.
Qed.

Lemma from_request_exact r b : Forall (Z.le 0) (indexes r) ->
  from_request r b =
  match list_find (fun i => Z.of_nat (length (txdata b)) <= i) (indexes r) with
  | Some (_, i) => Throw i
  | None => Val (mkBlockTransactions (req_hash r) (omap (fun i => txdata b !! Z.to_nat i) (indexes r)))
  end.
Proof. intros H. unfold from_request. rewrite request_loop_spec by done. by destruct (list_find _ _) as [[]|]. Qed.

(** ** The compact form *)

(** What a receiver makes of the two lists (BIP-152): a prefilled transaction stands after as many short
    ids as its index says. *)
Inductive slot := Full (t : Transaction) | Short (id : list byte).
Fixpoint expand (pre : list PrefilledTransaction) (ids : list (list byte)) : list slot :=
  match pre with
  | [] => map Short ids
  | p :: pre => map Short (take (Z.to_nat (idx p)) ids) ++ Full (tx p) :: expand pre (drop (Z.to_nat (idx p)) ids)
  end.

Definition short_id (version : Z) (keys : Z * Z) (t : Transaction) : list byte :=
  take 6 (le_split 8 (siphash24 (fst keys) (snd keys) (tx_hash version t))).

(** The slots of the transactions from number [i]: in full the first and the chosen ones. *)
Fixpoint slots (version : Z) (keys : Z * Z) (prefill : list Z) (i : Z) (txs : list Transaction) : list slot :=
  match txs with
  | [] => []
  | t :: txs =>
      (if (i =? 0) || existsb (Z.eqb i) prefill then Full (prefilled_tx version t) else Short (short_id version keys t))
      :: slots version keys prefill (i + 1) txs
  end.

(** Strictly ascending indexes between [lo] and [hi]. *)
Fixpoint within (lo hi : Z) (l : list Z) : Prop :=
  match l with [] => True | x :: l => lo <= x < hi /\ within (x + 1) hi l end.

Lemma within_ge lo hi l : forall lo', lo' <= lo -> within lo hi l -> within lo' hi l.
Proof. destruct l as [|x l]; intros lo' Hle H; [done|]. cbn [within] in *. destruct H. split; [lia|done]. Qed.

Lemma within_above lo hi l x : within lo hi l -> In x l -> lo <= x < hi.
Proof.
  revert lo. induction l as [|y l IH]; intros lo H; [done|]. cbn [within] in H. destruct H as [Hy H].
  intros [<-|Hin]; [done|]. specialize (IH _ H Hin). lia.
Qed.

Lemma slots_skip version keys y l txs : forall i, y < i -> 0 <= y ->
  slots version keys (y :: l) i txs = slots version keys l i txs.
Proof.
  induction txs as [|t txs IH]; intros i Hy H0; cbn [slots existsb]; [done|].
  rewrite (proj2 (Z.eqb_neq i y)) by lia. by rewrite IH by lia.
Qed.

Section loop.
Context {bm : BuildMode} (version : Z) (keys : Z * Z).

Lemma with_siphash_keys_spec t : with_siphash_keys (tx_hash version t) keys = Ret (short_id version keys t).
Proof. unfold with_siphash_keys. by rewrite hash_with_keys_spec. Qed.

(** [m] adds transactions and ids that stand for the slots [sl], with [k] ids since the last prefilled
    transaction, and leaves no index exactly when [ok]. *)
Definition builds (m : list PrefilledTransaction -> list (list byte) -> run (list Z * list PrefilledTransaction * list (list byte)))
    (ok : Prop) (k : Z) (sl : list slot) : Prop :=
  forall pre ids, exists left pre' ids', m pre ids = Ret (left, pre ++ pre', ids ++ ids') /\
    (left = [] <-> ok) /\
    (ok -> forall pend, Z.of_nat (length pend) = k -> expand pre' (pend ++ ids') = map Short pend ++ sl).

Lemma builds_weaken m ok ok' k sl sl' : builds m ok k sl -> (ok <-> ok') -> (ok -> sl = sl') -> builds m ok' k sl'.
Proof.
  intros H Hok Hsl pre ids. destruct (H pre ids) as (left & pre' & ids' & E & Hl & Hx). exists left, pre', ids'.
  split_and!; [done|by rewrite Hl|]. intros Ho. rewrite <- Hsl by tauto. by apply Hx, Hok.
Qed.

Lemma builds_full m ok k t sl : 0 <= k < 2 ^ 16 -> builds m ok 0 sl ->
  builds (fun pre ids => m (pre ++ [mkPrefilled (wrap 16 k) t]) ids) ok k (Full t :: sl).
Proof.
  intros Hk H pre ids. destruct (H (pre ++ [mkPrefilled (wrap 16 k) t]) ids) as (left & pre' & ids' & E & Hl & Hx).
  exists left, (mkPrefilled (wrap 16 k) t :: pre'), ids'. rewrite E, <- app_assoc. split_and!; [done|done|].
  intros Ho pend Hp. cbn [expand idx tx]. rewrite wrap_small by done.
  rewrite take_app_length', drop_app_length' by lia. do 2 f_equal. exact (Hx Ho [] ltac:(done)).
Qed.

Lemma builds_short m ok k id sl : builds m ok (k + 1) sl ->
  builds (fun pre ids => m pre (ids ++ [id])) ok k (Short id :: sl).
Proof.
  intros H pre ids. destruct (H pre (ids ++ [id])) as (left & pre' & ids' & E & Hl & Hx).
  exists left, pre', (id :: ids'). rewrite E, <- app_assoc. split_and!; [done|done|].
  intros Ho pend Hp. specialize (Hx Ho (pend ++ [id]) ltac:(rewrite length_app; cbn; lia)).
  rewrite <- !app_assoc, map_app, <- app_assoc in Hx. exact Hx.
Qed.

Lemma not_chosen i hi l : within (i + 1) hi l -> existsb (Z.eqb i) l = false.
Proof.
  intros H. apply not_true_iff_false. rewrite existsb_exists. intros (x & Hx & E%Z.eqb_eq).
  apply (within_above _ _ _ _ H) in Hx. lia.
Qed.

(** The loop from number [i], with [i - last] short ids since the last prefilled transaction. *)
Lemma from_block_loop_spec txs : forall i prefill last, 0 <= last <= i -> i + Z.of_nat (length txs) <= 2 ^ 16 ->
  builds (from_block_loop version keys i txs prefill last)
    (within i (i + Z.of_nat (length txs)) prefill) (i - last) (slots version keys prefill i txs).
Proof.
  induction txs as [|t txs IH]; intros i prefill last Hi Hn.
  { intros pre ids. exists prefill, [], []. cbn [from_block_loop slots length]. rewrite !app_nil_r.
    split_and!; [done| |intros; cbn; by rewrite !app_nil_r].
    destruct prefill as [|x l]; cbn [within]; [done|]. split; [done|lia]. }
  cbn [length] in *. replace (i + Z.of_nat (S (length txs))) with (i + 1 + Z.of_nat (length txs)) by lia.
  assert (forall rest, builds (fun pre ids => from_block_loop version keys (i + 1) txs rest (i + 1)
    (pre ++ [mkPrefilled (wrap 16 (i - last)) (prefilled_tx version t)]) ids)
    (within (i + 1) (i + 1 + Z.of_nat (length txs)) rest) (i - last)
    (Full (prefilled_tx version t) :: slots version keys rest (i + 1) txs)) as Hfull.
  { intros rest. apply builds_full; [lia|]. specialize (IH (i + 1) rest (i + 1) ltac:(lia) ltac:(lia)).
    by rewrite Z.sub_diag in IH. }
  assert (forall rest, builds (fun pre ids => id ← with_siphash_keys (tx_hash version t) keys;
      from_block_loop version keys (i + 1) txs rest last pre (ids ++ [id]))
    (within (i + 1) (i + 1 + Z.of_nat (length txs)) rest) (i - last)
    (Short (short_id version keys t) :: slots version keys rest (i + 1) txs)) as Hshort.
  { intros rest. rewrite with_siphash_keys_spec. cbn [mbind run_bind]. apply builds_short.
    specialize (IH (i + 1) rest last ltac:(lia) ltac:(lia)). by replace (i - last + 1) with (i + 1 - last) by lia. }
  assert (forall rest, (rest = [] \/ exists x l, rest = x :: l /\ x <> i) ->
    within (i + 1) (i + 1 + Z.of_nat (length txs)) rest <-> within i (i + 1 + Z.of_nat (length txs)) rest) as Hw.
  { intros rest [->|(x & l & -> & Hx)]; cbn [within]; [done|]. split; intros []; (split; [lia|done]). }
  cbn [from_block_loop slots]. destruct prefill as [|x rest].
  - destruct (Z.eqb_spec i 0); cbn [orb existsb].
    + by eapply builds_weaken; [apply Hfull| |].
    + by eapply builds_weaken; [apply Hshort| |].
  - destruct (Z.eqb_spec x i) as [->|Hx].
    + cbn [existsb]. rewrite Z.eqb_refl, orb_true_r. eapply builds_weaken; [apply Hfull| |].
      * cbn [within]. split; [intros H; split; [lia|done]|tauto].
      * intros _. by rewrite slots_skip by lia.
    + destruct (Z.eqb_spec i 0) as [Hz|Hz]; cbn [orb].
      * eapply builds_weaken; [apply Hfull|apply Hw; eauto|done].
      * eapply builds_weaken; [apply Hshort|apply Hw; eauto|]. intros H. by rewrite (not_chosen _ _ _ H).
Qed.
End loop.

Lemma within_length lo hi l : lo <= hi -> within lo hi l -> Z.of_nat (length l) <= hi - lo.
Proof.
  revert lo. induction l as [|x l IH]; intros lo Hlo H; cbn [length within] in *; [lia|].
  destruct H as [Hx H]. specialize (IH (x + 1) ltac:(lia) H). lia.
Qed.

(** The keys are the first two words of the SHA-256 of the header and the nonce. *)
Lemma siphash_keys_spec h nonce : header_wf h ->
  let d := Spec.sha256 (bytes_of HeaderC h ++ le_split 8 nonce) in
  calculate_siphash_keys h nonce = (le_combine (take 8 d), le_combine (take 8 (drop 8 d))).
Proof.
  intros Hh d. unfold calculate_siphash_keys.
  rewrite (from_engine_represents _ (([] ++ bytes_of HeaderC h) ++ bytes_of u64 nonce)); [done| |].
  - apply engine_input_represents, engine_input_represents, default_represents.
  - cbn [app]. rewrite length_app, header_size by done.
    change (bytes_of u64 nonce) with (le_split 8 nonce). rewrite length_le_split. lia.
Qed.

(** C12: compact blocks.  For a block of at most 65536 transactions [from_block] refuses versions
    other than 1 and 2 and indexes that do not ascend strictly within the block (it panics when
    there are more of them than transactions), and otherwise gives the header, the nonce and two
    lists from which a receiver, reading the differential indexes as BIP-152 says, gets every
    transaction in its place: the first and the chosen ones in full, without witnesses in version 1,
    the others as the six-byte SipHash of their id. *)
Theorem compact_block_exact {bm : BuildMode} (b : Block) (nonce version : Z) (prefill : list Z)
    (Hlen : Z.of_nat (length (txdata b)) <= 2 ^ 16) :
  let n := Z.of_nat (length (txdata b)) in
  let known := version = 1 \/ version = 2 in
  let keys := calculate_siphash_keys (header b) nonce in
  (~ known -> from_block b nonce version prefill = Throw UnknownVersion) /\
  (known -> n < Z.of_nat (length prefill) -> from_block b nonce version prefill = Crash) /\
  (known -> Z.of_nat (length prefill) <= n -> ~ within 0 n prefill ->
     from_block b nonce version prefill = Throw InvalidPrefill) /\
  (known -> within 0 n prefill -> exists c, from_block b nonce version prefill = Val c /\
     cb_header c = header b /\ cb_nonce c = nonce /\
     expand (prefilled_txs c) (short_ids c) = slots version keys prefill 0 (txdata b)).
Proof.
  intros n known keys. unfold from_block.
  destruct (from_block_loop_spec version keys (txdata b) 0 prefill 0 ltac:(lia) ltac:(lia) [] []) as (left & pre & ids & E & Hleft & Hx).
  cbn [app] in E. fold keys. fold n in Hleft. rewrite Z.add_0_l in Hleft, Hx. fold n in Hx.
  assert (known -> negb (version =? 1) && negb (version =? 2) = false) as Hk
    by (intros [-> | ->]; [done|by rewrite andb_false_r]).
  split_and!.
  - intros Hv. unfold known in Hv. by rewrite !(proj2 (Z.eqb_neq version _)) by tauto.
  - intros Hv Hp. rewrite Hk by done. by rewrite (proj2 (Nat.leb_gt _ _)) by lia.
  - intros Hv Hp Hw. rewrite Hk by done. rewrite (proj2 (Nat.leb_le _ _)) by lia. cbn [assert_ of_run].
    rewrite bind_Val, E. cbn [of_run]. rewrite bind_Val. destruct left; [|done]. by destruct Hw; apply Hleft.
  - intros Hv Hw. rewrite Hk by done. pose proof (within_length 0 n prefill ltac:(lia) Hw).
    rewrite (proj2 (Nat.leb_le _ _)) by lia. cbn [assert_ of_run].
    rewrite bind_Val, E. cbn [of_run]. rewrite bind_Val. rewrite (proj2 Hleft Hw). eexists. split; [done|].
    cbn [cb_header cb_nonce prefilled_txs short_ids]. split_and!; [done|done|]. exact (Hx Hw [] eq_refl).
Qed.

Lemma compact_block_exact_witness :
  exists c, from_block (bm := true) (mkBlock (header sample_block) [sample_tx; sample_tx; sample_tx; sample_tx]) 5 2 [2] = Val c /\
    expand (prefilled_txs c) (short_ids c) =
    slots 2 (calculate_siphash_keys (header sample_block) 5) [2] 0 [sample_tx; sample_tx; sample_tx; sample_tx].
Proof.
  destruct (compact_block_exact (bm := true) (mkBlock (header sample_block) [sample_tx; sample_tx; sample_tx; sample_tx]) 5 2 [2]
    ltac:(cbn; lia)) as (_ & _ & _ & H).
  destruct H as (c & H1 & _ & _ & H2); [right; reflexivity|cbn; lia|]. exists c. split; [exact H1|exact H2].
Defined.
