(* ===== verification/AuxPow.v ===== *)
(** * Auxiliary proof of work ([dogecoin/auxpow.rs], the header flags of [dogecoin/mod.rs])

    Merged mining: the coinbase transaction of a parent block commits to a merkle tree of
    auxiliary block headers, and an [AuxPow] carries the two merkle branches that link the
    auxiliary block to that coinbase and the coinbase to the parent header.  The model
    covers the encoding, the branch computation, the scan of the coinbase script, the slot
    computation and the whole of [check]; the theorems characterise what [check] accepts
    and show that an accepted proof is bound to one auxiliary block. *)

From Stdlib Require Import ZArith Znumtheory Lia.
From coqutil Require Import Byte Word.LittleEndianList.
From stdpp Require Import base tactics option list numbers.
From S2P Require Import Prelude U256 Params Pow Io Encode HashEngine Sha256 Merkle.
From S2P Require Import PartialMerkle Witness LockTime Transaction Block.

Open Scope Z_scope.

Definition VERSION_AUXPOW : Z := Z.shiftl 1 8.
Definition MERGED_MINING_HEADER : list byte := map byte.of_Z [0xfa; 0xbe; 0x6d; 0x6d].

(** ** Version flags of a pure header *)

Definition has_auxpow_bit (self : Header) : bool :=
  negb (Z.land (header_version self) VERSION_AUXPOW =? 0).
Definition extract_chain_id (self : Header) : Z := Z.shiftr (header_version self) 16.
Definition is_legacy (self : Header) : bool :=
  (header_version self =? VERSION_ONE)
  || ((header_version self =? VERSION_TWO) && (extract_chain_id self =? 0)).
(** [%] on [i32] truncates towards zero. *)
Definition extract_base_version (self : Header) : Z := Z.rem (header_version self) VERSION_AUXPOW.

(** ** Errors *)

Inductive AuxPowCoinbaseScriptValidationError :=
| MissingMerkleRoot
| MultipleHeaders
| HeaderNotAdjacent
| LegacyRootTooFar
| MissingMerkleSizeAndNonce
| MerkleSizeMismatch
| InvalidChainIndex.

Inductive AuxPowValidationError :=
| AuxPowNotFromCoinbase
| ParentHasSameChainId
| ChainMerkleBranchTooLong
| InvalidCoinbaseMerkleProof
| CoinbaseHasNoInputs
| InvalidAuxPowCoinbaseScript (e : AuxPowCoinbaseScriptValidationError).

#[export] Instance AuxPowCoinbaseScriptValidationError_eq_dec :
  EqDecision AuxPowCoinbaseScriptValidationError.
Proof. solve_decision. Defined.
#[export] Instance AuxPowValidationError_eq_dec : EqDecision AuxPowValidationError.
Proof. solve_decision. Defined.

(** ** The structure *)

Record AuxPow := mkAuxPow {
  coinbase_tx : Transaction;
  parent_block_hash : list byte;
  coinbase_branch : list (list byte);
  coinbase_index : Z;
  blockchain_branch : list (list byte);
  blockchain_index : Z;
  parent_block_header : Header;
}.

#[export] Instance AuxPow_eq_dec : EqDecision AuxPow.
Proof. solve_decision. Defined.

Definition auxpow_fields (a : AuxPow) :=
  (coinbase_tx a, (parent_block_hash a, (coinbase_branch a, (coinbase_index a,
   (blockchain_branch a, (blockchain_index a, parent_block_header a)))))).

Definition AuxPowC : Consensus AuxPow :=
  impl_consensus_encoding auxpow_fields
    (fun '(t, (p, (cb, (ci, (bb, (bi, h)))))) => mkAuxPow t p cb ci bb bi h)
    (fields TransactionC (fields BlockHash (fields (vec TxMerkleNode) (fields i32
      (fields (vec TxMerkleNode) (fields i32 HeaderC)))))).

(** ** Merkle branches *)

(** [AuxPow::compute_merkle_root], over any node hash; bit [i] of the index says on which
    side the branch element of level [i] is. *)
Fixpoint compute_root_with {T} (parent : T -> T -> T) (hash : T) (branch : list T) (index : Z) : T :=
  match branch with
  | [] => hash
  | branch_hash :: branch =>
      let hash := if Z.land index 1 =? 1 then parent branch_hash hash else parent hash branch_hash in
      compute_root_with parent hash branch (Z.shiftr index 1)
  end.

Definition compute_merkle_root : list byte -> list (list byte) -> Z -> list byte :=
  compute_root_with parent_hash.

(** ** The coinbase script *)

(** [haystack.windows(needle.len()).position(|window| window == needle)] *)
Fixpoint position_from (i : nat) (haystack needle : list byte) : option nat :=
  match haystack with
  | [] => None
  | _ :: rest =>
      if bool_decide (take (length needle) haystack = needle) then Some i
      else position_from (S i) rest needle
  end.

Definition find_bytes (haystack needle : list byte) : option nat :=
  match needle with [] => Some 0%nat | _ => position_from 0 haystack needle end.

(** [&script[start..]] *)
Definition slice_from (script : list byte) (start : nat) : run (list byte) :=
  if (start <=? length script)%nat then Ret (drop start script) else Panic.

(** [u32::from_le_bytes] of four indexed bytes. *)
Definition word_at (bs : list byte) (i : nat) : run Z :=
  b0 ← index bs (Z.of_nat i); b1 ← index bs (Z.of_nat i + 1);
  b2 ← index bs (Z.of_nat i + 2); b3 ← index bs (Z.of_nat i + 3);
  Ret (le_combine [b0; b1; b2; b3]).

Section check.
Context {bm : BuildMode}.

Definition get_expected_index (nonce chain_id : Z) (merkle_height : nat) : run Z :=
  let rand := nonce in
  let rand := wrap 32 (wrap 32 (rand * 1103515245) + 12345) in
  let rand := wrap 32 (rand + wrap 32 chain_id) in
  let rand := wrap 32 (wrap 32 (rand * 1103515245) + 12345) in
  size ← shl_u 32 1 (Z.of_nat merkle_height);
  Ret (swrap 32 (rand mod size)).

Definition check_merged_mining_coinbase_script (self : AuxPow) (script blockchain_merkle_root : list byte)
    (chain_id : Z) : comp AuxPowCoinbaseScriptValidationError unit :=
  root_pos ← of_result (ok_or (find_bytes script blockchain_merkle_root) MissingMerkleRoot);
  _ ← match find_bytes script MERGED_MINING_HEADER with
      | Some header_pos =>
          let search_start := (header_pos + length MERGED_MINING_HEADER)%nat in
          tail ← of_run (slice_from script search_start);
          if match find_bytes tail MERGED_MINING_HEADER with Some _ => true | None => false end
          then Throw MultipleHeaders
          else if negb (header_pos + length MERGED_MINING_HEADER =? root_pos)%nat
          then Throw HeaderNotAdjacent
          else Val tt
      | None => if (20 <? root_pos)%nat then Throw LegacyRootTooFar else Val tt
      end;
  let pos_after_root := (root_pos + length blockchain_merkle_root)%nat in
  remaining_script ← of_run (slice_from script pos_after_root);
  if (length remaining_script <? 8)%nat then Throw MissingMerkleSizeAndNonce else
  size ← of_run (word_at remaining_script 0);
  let merkle_height := length (blockchain_branch self) in
  expected_size ← of_run (shl_u 32 1 (Z.of_nat merkle_height));
  if negb (size =? expected_size) then Throw MerkleSizeMismatch else
  nonce ← of_run (word_at remaining_script 4);
  expected_index ← of_run (get_expected_index nonce chain_id merkle_height);
  if negb (blockchain_index self =? expected_index) then Throw InvalidChainIndex
  else Val tt.

Definition check (self : AuxPow) (aux_block_hash : list byte) (chain_id : Z) (strict_chain_id : bool) :
    comp AuxPowValidationError unit :=
  if negb (coinbase_index self =? 0) then Throw AuxPowNotFromCoinbase else
  if strict_chain_id && (extract_chain_id (parent_block_header self) =? chain_id)
  then Throw ParentHasSameChainId else
  if (30 <? length (blockchain_branch self))%nat then Throw ChainMerkleBranchTooLong else
  let blockchain_merkle_root :=
    compute_merkle_root aux_block_hash (blockchain_branch self) (blockchain_index self) in
  let blockchain_merkle_root_le := rev blockchain_merkle_root in
  let coinbase_hash := compute_txid (coinbase_tx self) in
  let transactions_merkle_root :=
    compute_merkle_root coinbase_hash (coinbase_branch self) (coinbase_index self) in
  if negb (bool_decide (transactions_merkle_root = merkle_root (parent_block_header self)))
  then Throw InvalidCoinbaseMerkleProof else
  match input (coinbase_tx self) with
  | [] => Throw CoinbaseHasNoInputs
  | in0 :: _ =>
      match check_merged_mining_coinbase_script self (script_sig in0) blockchain_merkle_root_le chain_id with
      | Val tt => Val tt
      | Throw e => Throw (InvalidAuxPowCoinbaseScript e)
      | Crash => Crash
      end
  end.
End check.

(** ** Encoding *)

Definition branch_wf (b : list (list byte)) : Prop := vec_wf hash_wf b.
Definition auxpow_wf (a : AuxPow) : Prop :=
  tx_wf (coinbase_tx a) /\ hash_wf (parent_block_hash a) /\ branch_wf (coinbase_branch a) /\
  in_i 32 (coinbase_index a) /\ branch_wf (blockchain_branch a) /\ in_i 32 (blockchain_index a) /\
  header_wf (parent_block_header a).

Definition auxpow_fields_wf :=
  fields_wf tx_wf (fields_wf hash_wf (fields_wf branch_wf (fields_wf (in_i 32)
    (fields_wf branch_wf (fields_wf (in_i 32) header_wf))))).

#[export] Instance i32_Codec : Codec i32 (in_i 32) := i_le_Codec 3.
#[export] Instance i32_Canonical : Canonical i32 (in_i 32) := i_le_Canonical 3.

#[export] Instance AuxPow_Codec : Codec AuxPowC auxpow_wf.
Proof.
  refine (impl_Codec auxpow_fields _ _ auxpow_fields_wf _). by intros [].
Qed.
#[export] Instance AuxPow_Canonical : Canonical AuxPowC auxpow_wf.
Proof.
  refine (impl_Canonical auxpow_fields _ _ auxpow_fields_wf _). by intros (? & ? & ? & ? & ? & ? & ?).
Qed.

(** ** Finding bytes *)

(** [needle] occurs in [haystack] at offset [p]. *)
Definition occurs (haystack needle : list byte) (p : nat) : Prop :=
  take (length needle) (drop p haystack) = needle.

Lemma occurs_length haystack needle p :
  needle <> [] -> occurs haystack needle p -> (p + length needle <= length haystack)%nat.
Proof.
  intros Hn H. apply (f_equal length) in H. rewrite length_take, length_drop in H.
  destruct needle; [done|]. cbn [length] in *. lia.
Qed.

Lemma position_from_spec needle : needle <> [] -> forall haystack i,
  match position_from i haystack needle with
  | Some p => exists q, p = (i + q)%nat /\ occurs haystack needle q /\
      forall r, (r < q)%nat -> ~ occurs haystack needle r
  | None => forall q, ~ occurs haystack needle q
  end.
Proof.
  intros Hn. induction haystack as [|b rest IH]; intros i; cbn [position_from].
  { intros q Hq%occurs_length; [|done]. destruct needle; cbn in *; [done|lia]. }
  case_bool_decide as E.
  { exists 0%nat. split; [lia|]. split; [done|]. lia. }
  specialize (IH (S i)). destruct (position_from (S i) rest needle) as [p|].
  - destruct IH as (q & -> & Hq & Hr). exists (S q). split; [lia|]. split; [done|].
    intros [|r] Hlt; [done|]. apply Hr. lia.
  - intros [|q]; [done|]. apply IH.
Qed.

Lemma find_bytes_spec haystack needle : needle <> [] ->
  match find_bytes haystack needle with
  | Some p => occurs haystack needle p /\ forall r, (r < p)%nat -> ~ occurs haystack needle r
  | None => forall q, ~ occurs haystack needle q
  end.
Proof.
  intros Hn. pose proof (position_from_spec needle Hn haystack 0) as H.
  unfold find_bytes. destruct needle; [done|]. destruct (position_from _ _ _); [|done].
  destruct H as (q & -> & H). done.
Qed.

(** Two occurrences of the merged-mining header do not overlap. *)
Lemma occurs_lookup haystack needle p i b :
  occurs haystack needle p -> needle !! i = Some b -> haystack !! (p + i)%nat = Some b.
Proof.
  intros H Hb. rewrite <- H in Hb. apply lookup_take_Some in Hb as [Hb _]. by rewrite lookup_drop in Hb.
Qed.

Lemma header_no_overlap s p q : occurs s MERGED_MINING_HEADER p -> occurs s MERGED_MINING_HEADER q ->
  (p < q)%nat -> (p + 4 <= q)%nat.
Proof.
  intros Hp Hq Hlt. destruct (decide (p + 4 <= q)%nat) as [|Hn]; [done|].
  pose proof (occurs_lookup _ _ _ 0 (byte.of_Z 0xfa) Hq eq_refl) as H0.
  rewrite Nat.add_0_r in H0.
  assert (exists i b, MERGED_MINING_HEADER !! i = Some b /\ (p + i)%nat = q /\ b <> byte.of_Z 0xfa)
    as (i & b & Hi & <- & Hb).
  { exists (q - p)%nat. assert (q - p = 1 \/ q - p = 2 \/ q - p = 3)%nat as [E|[E|E]] by lia;
      rewrite E; (eexists; split_and!; [reflexivity|lia|discriminate]). }
  pose proof (occurs_lookup _ _ _ i b Hp Hi) as H1. congruence.
Qed.

Lemma occurs_drop s needle k q : occurs (drop k s) needle q <-> occurs s needle (k + q)%nat.
Proof. unfold occurs. by rewrite drop_drop. Qed.

(** ** Slots *)

(** The linear congruential step and the slot of a chain in a tree of [2^height] leaves. *)
Definition lcg (x : Z) : Z := x * 1103515245 + 12345.
Definition slot (nonce chain_id : Z) (height : nat) : Z :=
  lcg (lcg nonce + chain_id) mod 2 ^ Z.of_nat height.

Lemma wrap_mod_pow w z k : 0 <= k <= w -> wrap w z mod 2 ^ k = z mod 2 ^ k.
Proof.
  intros H. apply Z.mod_mod_divide. exists (2 ^ (w - k)). rewrite <- Z.pow_add_r by lia. f_equal. lia.
Qed.

Lemma wrap_lcg x : wrap 32 (wrap 32 (wrap 32 x * 1103515245) + 12345) = wrap 32 (lcg x).
Proof.
  unfold wrap, lcg. rewrite Z.add_mod_idemp_l by lia.
  rewrite <- Z.add_mod_idemp_l, Z.mul_mod_idemp_l by lia. by rewrite Z.add_mod_idemp_l by lia.
Qed.

Lemma get_expected_index_spec {bm : BuildMode} nonce chain_id height :
  in_u 32 nonce -> (height <= 30)%nat ->
  get_expected_index nonce chain_id height = Ret (slot nonce chain_id height) /\
  0 <= slot nonce chain_id height < 2 ^ Z.of_nat height.
Proof.
  intros Hn Hh. assert (0 < 2 ^ Z.of_nat height <= 2 ^ 30) as Hp.
  { split; [apply Z.pow_pos_nonneg; lia|apply Z.pow_le_mono_r; lia]. }
  assert (0 <= slot nonce chain_id height < 2 ^ Z.of_nat height) as Hs
    by (apply Z.mod_pos_bound; lia).
  split; [|done]. unfold get_expected_index. cbv zeta.
  unfold shl_u. rewrite (proj2 (Z.ltb_lt _ 32)) by lia. rewrite bind_Ret.
  rewrite Z.shiftl_1_l, (wrap_small 32 (2 ^ _)) by (unfold in_u; lia).
  pose proof (wrap_lcg nonce) as E. rewrite (wrap_small 32 nonce Hn) in E. rewrite E.
  assert (wrap 32 (wrap 32 (lcg nonce) + wrap 32 chain_id) = wrap 32 (lcg nonce + chain_id)) as ->
    by (unfold wrap; by rewrite <- Z.add_mod).
  rewrite wrap_lcg.
  rewrite wrap_mod_pow by lia. fold (slot nonce chain_id height).
  f_equal. unfold swrap. rewrite Z.mod_small; lia.
Qed.

(** The multiplier is odd, so the last step is injective modulo any power of two. *)
Lemma lcg_injective x c1 c2 k : 0 <= k ->
  ((x + c1) * 1103515245 + 12345) mod 2 ^ k = ((x + c2) * 1103515245 + 12345) mod 2 ^ k <->
  c1 mod 2 ^ k = c2 mod 2 ^ k.
Proof.
  intros Hk. assert (2 ^ k <> 0) by (apply Z.pow_nonzero; lia). split.
  - intros E. apply Z.cong_iff_0 in E. apply Z.cong_iff_0.
    replace ((x + c1) * 1103515245 + 12345 - ((x + c2) * 1103515245 + 12345))
      with (1103515245 * (c1 - c2)) in E by lia.
    apply Z.mod_divide in E; [|done]. apply Z.mod_divide; [done|].
    apply Z.gauss in E; [done|]. apply (Z.coprime_pow_l 2 1103515245); [lia|]. reflexivity.
  - intros E. apply Z.cong_iff_0 in E. apply Z.cong_iff_0.
    replace ((x + c1) * 1103515245 + 12345 - ((x + c2) * 1103515245 + 12345))
      with (1103515245 * (c1 - c2)) by lia.
    apply Z.mod_divide in E; [|done]. apply Z.mod_divide; [done|]. by apply Z.divide_mul_r.
Qed.

(** ** What the coinbase script must contain *)

Definition coinbase_commits (script root : list byte) (height : nat) (index chain_id : Z) : Prop :=
  exists p nonce rest,
    occurs script root p /\ (forall q, (q < p)%nat -> ~ occurs script root q) /\
    drop (p + 32) script = le_split 4 (2 ^ Z.of_nat height) ++ le_split 4 nonce ++ rest /\
    in_u 32 nonce /\ index = slot nonce chain_id height /\
    ((exists hp, (hp + 4 = p)%nat /\ forall q, occurs script MERGED_MINING_HEADER q <-> q = hp) \/
     ((p <= 20)%nat /\ forall q, ~ occurs script MERGED_MINING_HEADER q)).

Lemma word_at_spec (bs : list byte) i : (i + 4 <= length bs)%nat ->
  word_at bs i = Ret (le_combine (take 4 (drop i bs))).
Proof.
  intros Hl. unfold word_at.
  assert (exists b0 b1 b2 b3 rest, drop i bs = b0 :: b1 :: b2 :: b3 :: rest)
    as (b0 & b1 & b2 & b3 & rest & E).
  { assert (4 <= length (drop i bs))%nat as H4 by (rewrite length_drop; lia).
    destruct (drop i bs) as [|b0 [|b1 [|b2 [|b3 rest]]]]; cbn in H4; try lia. eauto 6. }
  assert (forall k, bs !! (i + k)%nat = (b0 :: b1 :: b2 :: b3 :: rest) !! k) as Hk.
  { intros k. by rewrite <- E, lookup_drop. }
  rewrite (index_lookup bs (Z.of_nat i) b0), bind_Ret; [|lia|].
  2: { rewrite Nat2Z.id, <- (Nat.add_0_r i). apply Hk. }
  rewrite (index_lookup bs (Z.of_nat i + 1) b1), bind_Ret; [|lia|].
  2: { replace (Z.to_nat _) with (i + 1)%nat by lia. apply Hk. }
  rewrite (index_lookup bs (Z.of_nat i + 2) b2), bind_Ret; [|lia|].
  2: { replace (Z.to_nat _) with (i + 2)%nat by lia. apply Hk. }
  rewrite (index_lookup bs (Z.of_nat i + 3) b3), bind_Ret; [|lia|].
  2: { replace (Z.to_nat _) with (i + 3)%nat by lia. apply Hk. }
  by rewrite E.
Qed.

Lemma header_nonempty : MERGED_MINING_HEADER <> [].
Proof. done. Qed.

(** The part of the scan about the merged-mining header. *)
Lemma header_stage script p :
  let r := match find_bytes script MERGED_MINING_HEADER with
      | Some header_pos =>
          tail ← of_run (slice_from script (header_pos + length MERGED_MINING_HEADER));
          if match find_bytes tail MERGED_MINING_HEADER with Some _ => true | None => false end
          then Throw MultipleHeaders
          else if negb (header_pos + length MERGED_MINING_HEADER =? p)%nat
          then Throw HeaderNotAdjacent
          else Val tt
      | None => if (20 <? p)%nat then Throw LegacyRootTooFar else Val tt
      end in
  r <> Crash /\
  (r = Val tt <->
    (exists hp, (hp + 4 = p)%nat /\ forall q, occurs script MERGED_MINING_HEADER q <-> q = hp) \/
    ((p <= 20)%nat /\ forall q, ~ occurs script MERGED_MINING_HEADER q)).
Proof.
  intros r. unfold r; clear r. pose proof (find_bytes_spec script _ header_nonempty) as Hh.
  destruct (find_bytes script MERGED_MINING_HEADER) as [hp|].
  - destruct Hh as [Hocc Hfirst]. change (length MERGED_MINING_HEADER) with 4%nat.
    pose proof (occurs_length _ _ _ header_nonempty Hocc) as Hlen.
    change (length MERGED_MINING_HEADER) with 4%nat in Hlen.
    unfold slice_from. rewrite (proj2 (Nat.leb_le _ _)) by lia. cbn [of_run]. rewrite bind_Val.
    pose proof (find_bytes_spec (drop (hp + 4) script) _ header_nonempty) as Ht.
    destruct (find_bytes (drop (hp + 4) script) MERGED_MINING_HEADER) as [q|].
    + split; [done|]. split; [done|]. destruct Ht as [Hq _]. rewrite occurs_drop in Hq.
      intros [(hp' & _ & Huniq)|[_ Hno]]; [|by apply Hno in Hq].
      apply Huniq in Hq, Hocc. lia.
    + assert (forall q, occurs script MERGED_MINING_HEADER q <-> q = hp) as Huniq.
      { intros q. split; [|by intros ->]. intros Hq.
        destruct (lt_eq_lt_dec q hp) as [[Hl|]|Hl]; [by apply Hfirst in Hq|done|].
        pose proof (header_no_overlap _ _ _ Hocc Hq Hl). exfalso.
        apply (Ht (q - (hp + 4))%nat). rewrite occurs_drop. by replace (hp + 4 + (q - (hp + 4)))%nat with q by lia. }
      destruct (Nat.eqb_spec (hp + 4) p) as [E|E]; cbn [negb]; (split; [done|]).
      * split; [intros _; left; eauto|done].
      * split; [done|]. intros [(hp' & E' & Huniq')|[_ Hno]]; [|by apply Hno in Hocc].
        apply Huniq' in Hocc. lia.
  - destruct (Nat.ltb_spec 20 p); (split; [done|]); split; try done.
    + intros [(hp & _ & Hu)|[? _]]; [|lia]. exfalso. by apply (Hh hp), Hu.
    + intros _. right. auto.
Qed.

Lemma two_words rem : (8 <= length rem)%nat ->
  rem = le_split 4 (le_combine (take 4 rem)) ++
        le_split 4 (le_combine (take 4 (drop 4 rem))) ++ drop 8 rem.
Proof.
  intros H8. pose proof (take_4_spec rem 0 ltac:(lia)) as [_ E0]. rewrite drop_0 in E0. rewrite E0.
  rewrite (proj2 (take_4_spec rem 4 ltac:(lia))).
  change 8%nat with (4 + 4)%nat. rewrite <- drop_drop. by rewrite !take_drop.
Qed.

(** The first occurrence is unique. *)
Lemma occurs_first script root q p :
  occurs script root q -> (forall r, (r < q)%nat -> ~ occurs script root r) ->
  occurs script root p -> (forall r, (r < p)%nat -> ~ occurs script root r) -> q = p.
Proof.
  intros H1 H2 H3 H4. destruct (lt_eq_lt_dec q p) as [[Hl|]|Hl]; [|done|].
  - by apply H4 in H1.
  - by apply H2 in H3.
Qed.

Lemma check_script_spec {bm : BuildMode} ap script root c :
  length root = 32%nat -> (length (blockchain_branch ap) <= 30)%nat ->
  let r := check_merged_mining_coinbase_script ap script root c in
  r <> Crash /\
  (r = Val tt <-> coinbase_commits script root (length (blockchain_branch ap)) (blockchain_index ap) c).
Proof.
  intros Hr Hb r. unfold r, check_merged_mining_coinbase_script; clear r.
  set (k := length (blockchain_branch ap)) in *.
  assert (root <> []) as Hne by (by intros ->).
  assert (0 < 2 ^ Z.of_nat k <= 2 ^ 30) as Hk.
  { split; [apply Z.pow_pos_nonneg; lia|apply Z.pow_le_mono_r; lia]. }
  pose proof (find_bytes_spec script root Hne) as Hroot.
  destruct (find_bytes script root) as [p|]; cbn [ok_or of_result].
  2: { split; [done|]. split; [done|]. intros (p & ? & ? & Hp & _). by apply Hroot in Hp. }
  rewrite bind_Val. cbv zeta. destruct (header_stage script p) as [Hc Hh]. revert Hc Hh.
  set (hs := match find_bytes script MERGED_MINING_HEADER with Some _ => _ | None => _ end).
  cbv zeta. intros Hc Hh. destruct Hroot as [Hocc Hfirst].
  pose proof (occurs_length _ _ _ Hne Hocc) as Hlen. rewrite Hr in *.
  assert (forall q n rest, occurs script root q -> (forall r, (r < q)%nat -> ~ occurs script root r) ->
    drop (q + 32) script = le_split 4 (2 ^ Z.of_nat k) ++ le_split 4 n ++ rest -> q = p) as Hp.
  { intros q n rest H1 H2 _. by apply (occurs_first script root). }
  destruct hs as [[]|e|]; [|split; [done|]; split; [done|]|done].
  2: { intros (q & n & rest & H1 & H2 & H3 & _ & _ & H6). rewrite (Hp q n rest) in H6 by done.
       by apply Hh in H6. }
  rewrite bind_Val. unfold slice_from. rewrite (proj2 (Nat.leb_le _ _)) by lia.
  cbn [of_run]. rewrite bind_Val. set (rem := drop (p + 32) script) in *.
  destruct (Nat.ltb_spec (length rem) 8) as [H8|H8].
  { split; [done|]. split; [done|]. intros (q & n & rest & H1 & H2 & H3 & _).
    rewrite (Hp q n rest) in H3 by done. fold rem in H3. rewrite H3, !length_app, !length_le_split in H8. lia. }
  rewrite (word_at_spec rem 0) by lia. cbn [of_run]. rewrite bind_Val, drop_0.
  unfold shl_u. rewrite (proj2 (Z.ltb_lt _ 32)) by lia. cbn [of_run]. rewrite bind_Val.
  rewrite Z.shiftl_1_l, (wrap_small 32 (2 ^ _)) by (unfold in_u; lia).
  destruct (Z.eqb_spec (le_combine (take 4 rem)) (2 ^ Z.of_nat k)) as [Hs|Hs]; cbn [negb].
  2: { split; [done|]. split; [done|]. intros (q & n & rest & H1 & H2 & H3 & _). exfalso. apply Hs.
       rewrite (Hp q n rest) in H3 by done. fold rem in H3. rewrite H3.
       rewrite take_app_length', le_combine_split by (by rewrite length_le_split).
       apply Z.mod_small. change (Z.of_nat 4 * 8) with 32. lia. }
  rewrite word_at_spec by lia. cbn [of_run]. rewrite bind_Val.
  set (nonce := le_combine (take 4 (drop 4 rem))).
  assert (in_u 32 nonce) as Hn by (apply take_4_spec; lia).
  destruct (get_expected_index_spec nonce c k Hn Hb) as [-> _]. cbn [of_run]. rewrite bind_Val.
  assert (rem = le_split 4 (2 ^ Z.of_nat k) ++ le_split 4 nonce ++ drop 8 rem) as Hrem.
  { rewrite <- Hs. by apply two_words. }
  destruct (Z.eqb_spec (blockchain_index ap) (slot nonce c k)) as [Hi|Hi]; cbn [negb]; (split; [done|]).
  - split; [|done]. intros _. exists p, nonce, (drop 8 rem). split_and!; try done. by apply Hh.
  - split; [done|]. intros (q & n & rest & H1 & H2 & H3 & H4 & H5 & _). exfalso. apply Hi.
    rewrite (Hp q n rest) in H3 by done. fold rem in H3.
    rewrite H5. f_equal. unfold nonce. rewrite H3.
    rewrite (drop_app_length' (le_split 4 _)), take_app_length' by (by rewrite length_le_split).
    rewrite le_combine_split. symmetry. apply Z.mod_small. exact H4.
Qed.

(** ** Branches and collisions *)

(** The pairs hashed on the way from a leaf to the root. *)
Fixpoint branch_pairs {T} (parent : T -> T -> T) (hash : T) (branch : list T) (index : Z) : list (T * T) :=
  match branch with
  | [] => []
  | b :: branch =>
      let '(l, r) := if Z.land index 1 =? 1 then (b, hash) else (hash, b) in
      (l, r) :: branch_pairs parent (parent l r) branch (Z.shiftr index 1)
  end.

(** Two branches of one length and index that reach one root start from one leaf. *)
Lemma compute_root_inj {T} `{EqDecision T} (parent : T -> T -> T) b1 : forall b2 h1 h2 idx,
  length b1 = length b2 ->
  compute_root_with parent h1 b1 idx = compute_root_with parent h2 b2 idx ->
  h1 = h2 \/ collision_between parent (branch_pairs parent h1 b1 idx) (branch_pairs parent h2 b2 idx).
Proof.
  induction b1 as [|x b1 IH]; intros [|y b2] h1 h2 idx Hl E; try done; [by left|].
  cbn [compute_root_with branch_pairs length] in *.
  destruct (Z.land idx 1 =? 1);
    (destruct (IH b2 _ _ _ ltac:(lia) E) as [E'|Hc];
      [edestruct (parent_eq parent) as [[]|]; [exact E'|left..|by left|by right]
      |right; revert Hc; apply collision_between_weaken; sublist]).
Qed.

Lemma index_bit m (b : bool) :
  (Z.land (Z.of_nat (2 * m + Nat.b2n b)) 1 =? 1) = b /\
  Z.shiftr (Z.of_nat (2 * m + Nat.b2n b)) 1 = Z.of_nat m.
Proof.
  change (Z.land (Z.of_nat (2 * m + Nat.b2n b)) 1) with
    (Z.land (Z.of_nat (2 * m + Nat.b2n b)) (Z.ones 1)).
  rewrite Z.land_ones, Z.shiftr_div_pow2 by lia. change (2 ^ 1) with 2.
  destruct b; cbn [Nat.b2n]; split; try (apply Z.eqb_eq || apply Z.eqb_neq);
    Z.div_mod_to_equations; lia.
Qed.

Lemma index_parity (pos : nat) : exists m odd, pos = (2 * m + Nat.b2n odd)%nat.
Proof.
  destruct (Nat.Even_or_Odd pos) as [[m ->]|[m ->]]; [exists m, false|exists m, true]; cbn; lia.
Qed.

(** A branch as long as the tree is high that reaches the tree's root proves the leaf at
    the index. *)
Lemma compute_root_sound {T} `{EqDecision T} (parent : T -> T -> T) (leaves : list T) (r x : T) branch :
  forall h j pos,
  level parent (j + length branch) leaves = [r] -> level parent j leaves !! pos = Some x ->
  compute_root_with parent h branch (Z.of_nat pos) = r ->
  h = x \/ collision_between parent (branch_pairs parent h branch (Z.of_nat pos))
             (tree_pairs parent (j + length branch) leaves).
Proof.
  revert x. induction branch as [|b branch IH]; intros x h j pos Hr Hx E;
    cbn [compute_root_with branch_pairs length] in *.
  { rewrite Nat.add_0_r in Hr. rewrite Hr in Hx. apply list_lookup_singleton_Some in Hx as [-> ->].
    left. congruence. }
  destruct (index_parity pos) as (m & odd & ->). destruct (index_bit m odd) as [B1 B2].
  rewrite B1, B2 in *.
  destruct (lookup_lt_is_Some_2 (level parent j leaves) (2 * m)) as [c Hc].
  { apply lookup_lt_Some in Hx. lia. }
  pose proof (tree_pairs_in parent (j + S (length branch)) leaves j m c ltac:(lia) Hc) as Hin.
  set (d := from_option id c (level parent j leaves !! (2 * m + 1)%nat)) in Hin.
  assert (level parent (S j) leaves !! m = Some (parent c d)) as Hy.
  { cbn [level]. rewrite pair_up_lookup. unfold node_above, d. rewrite Hc.
    by destruct (level parent j leaves !! (2 * m + 1)%nat). }
  assert (x = if odd then d else c) as ->.
  { unfold d. destruct odd; cbn [Nat.b2n] in Hx; [by rewrite Hx|].
    rewrite Nat.add_0_r in Hx. congruence. }
  rewrite <- Nat.add_succ_comm in *.
  destruct odd; (edestruct (IH _ _ _ _ Hr Hy E) as [E'|Hcol];
    [edestruct (parent_eq parent) as [[]|]; [exact E'|left|exact Hin|by left|by right]
    |right; revert Hcol; apply collision_between_weaken; sublist]).
Qed.

Lemma compute_root_length h branch idx : length h = 32%nat ->
  length (compute_root_with parent_hash h branch idx) = 32%nat.
Proof.
  revert h idx. induction branch as [|b branch IH]; intros h idx Hh; [done|].
  cbn [compute_root_with]. apply IH. destruct (_ =? _); apply parent_hash_length.
Qed.

Lemma check_spec {bm : BuildMode} ap h c strict : length h = 32%nat ->
  check ap h c strict <> Crash /\
  (check ap h c strict = Val tt <->
    coinbase_index ap = 0 /\
    (strict = true -> extract_chain_id (parent_block_header ap) <> c) /\
    (length (blockchain_branch ap) <= 30)%nat /\
    compute_merkle_root (compute_txid (coinbase_tx ap)) (coinbase_branch ap) 0 =
      merkle_root (parent_block_header ap) /\
    exists in0 ins, input (coinbase_tx ap) = in0 :: ins /\
      coinbase_commits (script_sig in0)
        (rev (compute_merkle_root h (blockchain_branch ap) (blockchain_index ap)))
        (length (blockchain_branch ap)) (blockchain_index ap) c).
Proof.
  intros Hh. unfold check.
  destruct (Z.eqb_spec (coinbase_index ap) 0) as [->|]; cbn [negb]; [|split; [done|]; split; [done|]; tauto].
  destruct (strict && (extract_chain_id (parent_block_header ap) =? c)) eqn:Es.
  { split; [done|]. split; [done|]. apply andb_true_iff in Es as [-> Es%Z.eqb_eq]. naive_solver. }
  assert (strict = true -> extract_chain_id (parent_block_header ap) <> c) as Hs.
  { intros ->. by apply Z.eqb_neq. }
  destruct (Nat.ltb_spec 30 (length (blockchain_branch ap))) as [|Hb]; [split; [done|]; split; [done|]; lia|].
  case_bool_decide as Hm; cbn [negb]; [|split; [done|]; split; [done|]; tauto].
  destruct (input (coinbase_tx ap)) as [|in0 ins].
  { split; [done|]. split; [done|]. intros (_ & _ & _ & _ & ? & ? & ? & _). done. }
  destruct (check_script_spec ap (script_sig in0)
    (rev (compute_merkle_root h (blockchain_branch ap) (blockchain_index ap))) c) as [Hc Hv].
  { rewrite length_rev. by apply compute_root_length. } { done. }
  destruct (check_merged_mining_coinbase_script _ _ _ _) as [[]|e|]; [| |done];
    (split; [done|]); split; try done.
  - intros _. split_and!; try done. exists in0, ins. split; [done|]. by apply Hv.
  - intros (_ & _ & _ & _ & ? & ? & [= <- <-] & Hk). by apply Hv in Hk.
Qed.

(** ** Main results *)

(** C2: merged-mining validation.  [check] never panics, in debug and release builds, and
    accepts exactly the proofs whose coinbase sits at index 0 of the parent block, whose
    parent has another chain id when that is required, whose chain branch has at most 30
    elements, whose coinbase branch leads from the coinbase id to the parent's merkle root,
    and whose coinbase input commits to the auxiliary block: the reversed chain root at its
    first occurrence follows the only merged-mining header (or, without a header, starts in
    the first 20 bytes), is followed by the tree size and a nonce, and the block's slot is
    the one that nonce and chain id give. *)
Theorem auxpow_check_exact {bm : BuildMode} (ap : AuxPow) (h : list byte) (c : Z) (strict : bool)
    (Hh : length h = 32%nat) :
  check ap h c strict <> Crash /\
  (check ap h c strict = Val tt <->
    coinbase_index ap = 0 /\
    (strict = true -> extract_chain_id (parent_block_header ap) <> c) /\
    (length (blockchain_branch ap) <= 30)%nat /\
    compute_merkle_root (compute_txid (coinbase_tx ap)) (coinbase_branch ap) 0 =
      merkle_root (parent_block_header ap) /\
    exists in0 ins, input (coinbase_tx ap) = in0 :: ins /\
      coinbase_commits (script_sig in0)
        (rev (compute_merkle_root h (blockchain_branch ap) (blockchain_index ap)))
        (length (blockchain_branch ap)) (blockchain_index ap) c).
Proof. by apply check_spec. Qed.

(** A proof for the auxiliary block hash of 32 ones, in a tree with a single leaf. *)
Definition sample_hash : list byte := replicate 32 Byte.x01.
Definition sample_script : list byte :=
  MERGED_MINING_HEADER ++ sample_hash ++ le_split 4 1 ++ le_split 4 0.
Definition sample_coinbase : Transaction :=
  mkTx 1 (Abs.Blocks 0) [mkTxIn null_outpoint sample_script Seq.MAX Witness.new] [].
Definition sample_auxpow : AuxPow :=
  mkAuxPow sample_coinbase (replicate 32 Byte.x00) [] 0 [] 0
    (mkHeader 1 (replicate 32 Byte.x00) (compute_txid sample_coinbase) 0 (mkCompact 0) 0).

Lemma sample_check : @check true sample_auxpow sample_hash 98 true = Val tt.
Proof. vm_compute. reflexivity. Qed.

Lemma auxpow_check_exact_witness :
  (length (blockchain_branch sample_auxpow) <= 30)%nat /\
  exists in0 ins, input (coinbase_tx sample_auxpow) = in0 :: ins /\
    coinbase_commits (script_sig in0)
      (rev (compute_merkle_root sample_hash [] 0)) 0 0 98.
Proof.
  destruct (@auxpow_check_exact true sample_auxpow sample_hash 98 true eq_refl) as [_ H].
  destruct (proj1 H sample_check) as (_ & _ & H1 & _ & H2). split; [exact H1|exact H2].
Defined.

(** C3: no replay.  If two proofs that both pass [check] for one chain share the script of
    their coinbase's first input and it carries the merged-mining header, they are proofs
    of one and the same auxiliary block hash, unless validating them hashes two different
    pairs of nodes to the same value. *)
Theorem auxpow_no_replay {bm : BuildMode} (a1 a2 : AuxPow) (h1 h2 : list byte) (c : Z) (s1 s2 : bool)
    (i1 i2 : TxIn) (r1 r2 : list TxIn)
    (Hh1 : length h1 = 32%nat) (Hh2 : length h2 = 32%nat)
    (Hi1 : input (coinbase_tx a1) = i1 :: r1) (Hi2 : input (coinbase_tx a2) = i2 :: r2)
    (Hscript : script_sig i1 = script_sig i2)
    (Hheader : exists q, occurs (script_sig i1) MERGED_MINING_HEADER q)
    (H1 : check a1 h1 c s1 = Val tt) (H2 : check a2 h2 c s2 = Val tt) :
  h1 = h2 \/
  collision_between parent_hash
    (branch_pairs parent_hash h1 (blockchain_branch a1) (blockchain_index a1))
    (branch_pairs parent_hash h2 (blockchain_branch a2) (blockchain_index a2)).
Proof.
  apply (check_spec a1 h1 c s1 Hh1) in H1 as (_ & _ & Hb1 & _ & j1 & t1 & E1 & Hc1).
  apply (check_spec a2 h2 c s2 Hh2) in H2 as (_ & _ & Hb2 & _ & j2 & t2 & E2 & Hc2).
  rewrite Hi1 in E1. injection E1 as <- <-. rewrite Hi2 in E2. injection E2 as <- <-.
  rewrite <- Hscript in Hc2. destruct Hheader as [q0 Hq0].
  destruct Hc1 as (p1 & n1 & e1 & O1 & _ & D1 & N1 & I1 & [(q1 & Q1 & U1)|[_ F]]);
    [|by apply F in Hq0].
  destruct Hc2 as (p2 & n2 & e2 & O2 & _ & D2 & N2 & I2 & [(q2 & Q2 & U2)|[_ F]]);
    [|by apply F in Hq0].
  pose proof (proj1 (U1 q0) Hq0) as <-. pose proof (proj1 (U2 q0) Hq0) as <-.
  assert (p1 = p2) as <- by lia.
  assert (forall h b i, length h = 32%nat -> length (rev (compute_merkle_root h b i)) = 32%nat) as Hl.
  { intros h b i Hh. rewrite length_rev. by apply compute_root_length. }
  unfold occurs in O1, O2. rewrite Hl in O1, O2 by done. rewrite O1 in O2.
  apply (f_equal (@rev _)) in O2. rewrite !rev_involutive in O2.
  rewrite D1 in D2. apply app_inj_1 in D2 as [Dk D2]; [|by rewrite !length_le_split].
  apply app_inj_1 in D2 as [Dn _]; [|by rewrite !length_le_split].
  apply (f_equal le_combine) in Dk, Dn. rewrite !le_combine_split in Dk, Dn.
  change (2 ^ (Z.of_nat 4 * 8)) with (2 ^ 32) in *. unfold in_u in *.
  rewrite !Z.mod_small in Dn by lia. subst n2.
  assert (forall k, (k <= 30)%nat -> 0 <= 2 ^ Z.of_nat k < 2 ^ 32) as Hk.
  { intros k Hk. split; [apply Z.pow_nonneg; lia|apply Z.pow_lt_mono_r; lia]. }
  rewrite !Z.mod_small in Dk by (apply Hk; done).
  apply Z.pow_inj_r in Dk; [|lia..]. apply Nat2Z.inj in Dk.
  rewrite Dk in I1. rewrite <- I2 in I1. rewrite I1 in O2 |- *.
  apply (compute_root_inj parent_hash (blockchain_branch a1) (blockchain_branch a2)
    h1 h2 (blockchain_index a2) Dk O2).
Qed.

Lemma auxpow_no_replay_witness :
  sample_hash = sample_hash \/ collision_between parent_hash [] [].
Proof.
  apply (@auxpow_no_replay true sample_auxpow sample_auxpow sample_hash sample_hash 98 true true
    (mkTxIn null_outpoint sample_script Seq.MAX Witness.new)
    (mkTxIn null_outpoint sample_script Seq.MAX Witness.new) [] []);
    try reflexivity; [exists 0%nat; reflexivity|exact sample_check..].
Defined.

(** Merkle branches prove leaves.  If the branch computation from [h] at index [pos]
    reaches the root of the tree over [leaves], whose height is the branch's length, and
    the tree has a leaf at [pos], then [h] is that leaf, unless the computation hashes a
    pair of nodes to the value of a different pair of the tree. *)
Lemma merkle_branch_proves_leaf {T} `{EqDecision T} (parent : T -> T -> T) (leaves branch : list T)
    (h leaf root : T) (pos : nat)
    (Hroot : is_root parent (length branch) leaves root) (Hleaf : leaves !! pos = Some leaf)
    (Hcompute : compute_root_with parent h branch (Z.of_nat pos) = root) :
  h = leaf \/
  collision_between parent (branch_pairs parent h branch (Z.of_nat pos))
    (tree_pairs parent (length branch) leaves).
Proof.
  apply (compute_root_sound parent leaves root leaf branch h 0 pos); [|done|done].
  by apply is_root_level.
Qed.

(** Slots.  In a tree of at most [2^30] leaves the expected index is in range and the
    same in debug and release builds; under one nonce two chains get the same slot exactly
    when their ids agree modulo the tree size.  From height 32 on a debug build panics and
    a release build computes the slot of height modulo 32. *)
Lemma expected_index_slots {bm : BuildMode} (nonce c1 c2 : Z) (height : nat) (Hn : in_u 32 nonce) :
  ((height <= 30)%nat ->
     exists i1 i2, get_expected_index nonce c1 height = Ret i1 /\
       get_expected_index nonce c2 height = Ret i2 /\
       0 <= i1 < 2 ^ Z.of_nat height /\
       (i1 = i2 <-> c1 mod 2 ^ Z.of_nat height = c2 mod 2 ^ Z.of_nat height)) /\
  ((32 <= height)%nat -> get_expected_index nonce c1 height =
     if debug_assertions then Panic else get_expected_index nonce c1 (height mod 32)).
Proof.
  split.
  - intros Hh. destruct (get_expected_index_spec nonce c1 height Hn Hh) as [-> Hr].
    destruct (get_expected_index_spec nonce c2 height Hn Hh) as [-> _].
    exists (slot nonce c1 height), (slot nonce c2 height).
    split; [done|]. split; [done|]. split; [done|]. apply lcg_injective. lia.
  - intros Hh. unfold get_expected_index, shl_u. rewrite (proj2 (Z.ltb_ge _ 32)) by lia.
    destruct debug_assertions; [done|]. rewrite bind_Ret.
    pose proof (Nat.mod_upper_bound height 32 ltac:(lia)).
    rewrite (proj2 (Z.ltb_lt _ 32)) by lia. rewrite bind_Ret. by rewrite Nat2Z.inj_mod.
Qed.

