(* ===== verification/Dogecoin.v ===== *)
(** * Dogecoin headers, blocks and the genesis block ([dogecoin/mod.rs], [dogecoin/constants.rs])

    A Dogecoin header is an 80-byte header followed, when its version has the AuxPow bit, by
    the merged-mining proof.  The model has the header and block with their encodings, the
    merkle check, retargeting from headers and the genesis blocks of the three networks. *)

From Stdlib Require Import ZArith Lia.
From coqutil Require Import Byte Word.LittleEndianList.
From stdpp Require Import base tactics option list numbers.
From S2P Require Import Prelude U256 Params Pow Io Encode HashEngine Sha256 Merkle.
From S2P Require Import PartialMerkle Witness LockTime Script Transaction Block AuxPow.

Open Scope Z_scope.

(** ** The header *)

Record DogeHeader := mkDogeHeader { pure_header : Header; aux_pow : option AuxPow }.

#[export] Instance DogeHeader_eq_dec : EqDecision DogeHeader.
Proof. solve_decision. Defined.

Definition from_pure_header (h : Header) : DogeHeader := mkDogeHeader h None.

Definition doge_header_encode (self : DogeHeader) : list byte * Z :=
  let len := wnil +++ consensus_encode HeaderC (pure_header self) in
  match aux_pow self with
  | Some aux_pow => len +++ consensus_encode AuxPowC aux_pow
  | None => len
  end.

Definition doge_header_decode : Decoder DogeHeader :=
  pure_header ← consensus_decode_from_finite_reader HeaderC;
  if has_auxpow_bit pure_header then
    a ← consensus_decode_from_finite_reader AuxPowC; mret (mkDogeHeader pure_header (Some a))
  else mret (mkDogeHeader pure_header None).

Definition DogeHeaderC : Consensus DogeHeader := limited doge_header_encode doge_header_decode.

(** ** The block *)

Record DogeBlock := mkDogeBlock { doge_header : DogeHeader; doge_txdata : list Transaction }.

#[export] Instance DogeBlock_eq_dec : EqDecision DogeBlock.
Proof. solve_decision. Defined.

Definition DogeBlockC : Consensus DogeBlock :=
  impl_consensus_encoding (fun b => (doge_header b, doge_txdata b))
    (fun p => mkDogeBlock (fst p) (snd p)) (fields DogeHeaderC (vec TransactionC)).

Definition doge_block_hash (self : DogeBlock) : list byte :=
  block_hash (pure_header (doge_header self)).
Definition doge_block_hash_with_scrypt {sc : Scrypt} (self : DogeBlock) : run (list byte) :=
  block_hash_with_scrypt (pure_header (doge_header self)).

Definition doge_compute_merkle_root (self : DogeBlock) : run (option (list byte)) :=
  calculate_root parent_hash (map compute_txid (doge_txdata self)).
Definition doge_check_merkle_root (self : DogeBlock) : run bool :=
  root ← doge_compute_merkle_root self;
  Ret match root with
      | Some root => bool_decide (merkle_root (pure_header (doge_header self)) = root)
      | None => false
      end.

(** ** Retargeting from headers ([pow.rs]) *)

Definition from_header_difficulty_adjustment_dogecoin {bm : BuildMode}
    (last_epoch_boundary current : DogeHeader) (params : Doge.Params) (height : Z) :
    run CompactTarget :=
  timespan ← arith_i 64 (time (pure_header current) - time (pure_header last_epoch_boundary));
  Compact.from_next_work_required_dogecoin (header_bits (pure_header current)) timespan params height.

(** ** Genesis *)

Definition GENESIS_OUTPUT_PK : list byte := map byte.of_Z
  [0x04;
   0x01; 0x84; 0x71; 0x0f; 0xa6; 0x89; 0xad; 0x50;
   0x23; 0x69; 0x0c; 0x80; 0xf3; 0xa4; 0x9c; 0x8f;
   0x13; 0xf8; 0xd4; 0x5b; 0x8c; 0x85; 0x7f; 0xbc;
   0xbc; 0x8b; 0xc4; 0xa8; 0xe4; 0xd3; 0xeb; 0x4b;
   0x10; 0xf4; 0xd4; 0x60; 0x4f; 0xa0; 0x8d; 0xce;
   0x60; 0x1a; 0xaf; 0x0f; 0x47; 0x02; 0x16; 0xfe;
   0x1b; 0x51; 0x85; 0x0b; 0x4a; 0xcf; 0x21; 0xb1;
   0x79; 0xc4; 0x50; 0x70; 0xac; 0x7b; 0x03; 0xa9].

(** [b"Nintondo"] *)
Definition GENESIS_MESSAGE : list byte :=
  map byte.of_Z [0x4e; 0x69; 0x6e; 0x74; 0x6f; 0x6e; 0x64; 0x6f].

Definition dogecoin_genesis_tx : run Transaction :=
  b ← Build.push_int Build.new 486604799;
  b ← Build.push_int_non_minimal b 4;
  b ← Build.push_slice b GENESIS_MESSAGE;
  let in_script := Build.into_script b in
  o ← Build.push_slice Build.new GENESIS_OUTPUT_PK;
  let out_script := Build.into_script (Build.push_opcode o OP_CHECKSIG) in
  Ret (mkTx 1 (Abs.Blocks 0)
         [mkTxIn null_outpoint in_script Seq.MAX Witness.new]
         [mkTxOut (88 * 100000000) out_script]).

Definition genesis_block (params : Doge.Params) : run DogeBlock :=
  tx ← dogecoin_genesis_tx;
  let merkle_root := compute_txid tx in
  let block time bits nonce :=
    mkDogeBlock (from_pure_header
      (mkHeader VERSION_ONE (replicate 32 Byte.x00) merkle_root time (Compact.from_consensus bits) nonce))
      [tx] in
  Ret match Doge.network params with
      | Doge.Dogecoin => block 1386325540 0x1e0ffff0 99943
      | Doge.Testnet => block 1391503289 0x1e0ffff0 997879
      | Doge.Regtest => block 1296688602 0x207fffff 2
      end.

(** ** Codecs *)

(** The proof is there exactly when the version says so. *)
Definition doge_header_wf (h : DogeHeader) : Prop :=
  header_wf (pure_header h) /\
  match aux_pow h with
  | Some a => has_auxpow_bit (pure_header h) = true /\ auxpow_wf a
  | None => has_auxpow_bit (pure_header h) = false
  end.

Lemma doge_header_bytes h : bytes_of DogeHeaderC h =
  bytes_of HeaderC (pure_header h) ++ match aux_pow h with Some a => bytes_of AuxPowC a | None => [] end.
Proof.
  change (bytes_of DogeHeaderC h) with (fst (doge_header_encode h)). unfold doge_header_encode.
  rewrite wcat_nil_l. destruct (aux_pow h); [done|]. by rewrite app_nil_r.
Qed.

#[export] Instance doge_header_Natural : Natural doge_header_decode.
Proof. unfold doge_header_decode. apply _. Qed.

#[export] Instance DogeHeader_Codec : Codec DogeHeaderC doge_header_wf.
Proof.
  apply limited_Codec; [|apply _|].
  - intros h [Hh Ha]. change (fst (doge_header_encode h)) with (bytes_of DogeHeaderC h).
    rewrite doge_header_bytes, length_app. unfold doge_header_encode. rewrite wcat_nil_l.
    destruct (aux_pow h) as [a|]; cbn [snd wcat].
    + rewrite (encode_len (c:=HeaderC)), (encode_len (c:=AuxPowC)) by naive_solver. lia.
    + rewrite (encode_len (c:=HeaderC)) by done. cbn. lia.
  - intros h rest [Hh Ha]. change (fst (doge_header_encode h)) with (bytes_of DogeHeaderC h).
    rewrite doge_header_bytes, <- app_assoc. unfold doge_header_decode.
    rewrite on_slice_bind, (finite_roundtrip (c:=HeaderC)) by done.
    destruct h as [p [a|]]; cbn [pure_header aux_pow] in *.
    + destruct Ha as [-> Ha]. by rewrite on_slice_bind, (finite_roundtrip (c:=AuxPowC)) by done.
    + by rewrite Ha.
Qed.

#[export] Instance DogeHeader_Canonical : Canonical DogeHeaderC doge_header_wf.
Proof.
  apply limited_Canonical; [apply _|]. intros bs h rest H. unfold doge_header_decode in H.
  apply on_slice_bind_Ok in H as (p & r & H & Hk). apply (finite_canonical (c:=HeaderC)) in H as [Hp ->].
  change (fst (doge_header_encode h)) with (bytes_of DogeHeaderC h).
  destruct (has_auxpow_bit p) eqn:E.
  - apply on_slice_bind_Ok in Hk as (a & r' & H & Hk).
    apply (finite_canonical (c:=AuxPowC)) in H as [Ha ->]. injection Hk as <- <-.
    split; [done|]. by rewrite doge_header_bytes, <- app_assoc.
  - injection Hk as <- <-. split; [done|]. by rewrite doge_header_bytes, app_nil_r.
Qed.

Definition doge_block_wf (b : DogeBlock) : Prop :=
  doge_header_wf (doge_header b) /\ vec_wf tx_wf (doge_txdata b).

#[export] Instance DogeBlock_Codec : Codec DogeBlockC doge_block_wf.
Proof.
  refine (impl_Codec (fun b => (doge_header b, doge_txdata b)) _ _
    (fields_wf doge_header_wf (vec_wf tx_wf)) _). by intros [].
Qed.
#[export] Instance DogeBlock_Canonical : Canonical DogeBlockC doge_block_wf.
Proof.
  refine (impl_Canonical (fun b => (doge_header b, doge_txdata b)) _ _
    (fields_wf doge_header_wf (vec_wf tx_wf)) _). by intros [].
Qed.

(** ** Main results *)

(** C4: Dogecoin headers.  Decoding accepts exactly the encodings of headers that carry a
    proof if and only if their version has the AuxPow bit, and leaves the following bytes.
    A header whose proof and version bit disagree is still encoded, but its encoding never
    decodes to it. *)
Theorem doge_header_roundtrip (bs : list byte) (h : DogeHeader) (rest : list byte) :
  (on_slice (consensus_decode_from_finite_reader DogeHeaderC) bs = Ok (h, rest) <->
   doge_header_wf h /\ bs = bytes_of DogeHeaderC h ++ rest) /\
  (has_auxpow_bit (pure_header h) <> (match aux_pow h with Some _ => true | None => false end) ->
   on_slice (consensus_decode_from_finite_reader DogeHeaderC) (bytes_of DogeHeaderC h ++ rest) <>
   Ok (h, rest)).
Proof.
  assert (forall bs, on_slice (consensus_decode_from_finite_reader DogeHeaderC) bs = Ok (h, rest) <->
    doge_header_wf h /\ bs = bytes_of DogeHeaderC h ++ rest) as Hiff.
  { intros b. split; [apply (finite_canonical (c:=DogeHeaderC))|].
    intros [Hh ->]. by apply (finite_roundtrip (c:=DogeHeaderC)). }
  split; [apply Hiff|]. intros Hne [[_ Ha] _]%Hiff. destruct (aux_pow h); naive_solver.
Qed.

(** C7: Dogecoin blocks.  [deserialize] returns a block exactly on its encoding, and the
    merkle check does not panic and succeeds exactly when the header carries the root of
    the tree over the transaction ids. *)
Theorem doge_block_correct (data : list byte) (b : DogeBlock) (Hlen : Z.of_nat (length data) < 2 ^ 64) :
  (deserialize DogeBlockC data = Ok b <-> doge_block_wf b /\ data = bytes_of DogeBlockC b) /\
  exists r, doge_check_merkle_root b = Ret r /\
    (r = true <-> exists height, is_root parent_hash height (map compute_txid (doge_txdata b))
                                   (merkle_root (pure_header (doge_header b)))).
Proof.
  split; [by apply (deserialize_canonical DogeBlockC doge_block_wf)|].
  exact (check_merkle_root_spec (mkBlock (pure_header (doge_header b)) (doge_txdata b))).
Qed.

Definition sample_doge_block : DogeBlock :=
  mkDogeBlock (from_pure_header (header sample_block)) (txdata sample_block).

Lemma doge_block_correct_witness :
  let b := sample_doge_block in
  let data := bytes_of DogeBlockC b in
  (deserialize DogeBlockC data = Ok b <-> doge_block_wf b /\ data = bytes_of DogeBlockC b) /\
  exists r, doge_check_merkle_root b = Ret r /\
    (r = true <-> exists height, is_root parent_hash height (map compute_txid (doge_txdata b))
                                   (merkle_root (pure_header (doge_header b)))).
Proof.
  intros b data. apply (doge_block_correct data b). vm_compute. reflexivity.
Defined.

Definition genesis_tx : Transaction :=
  Eval vm_compute in match dogecoin_genesis_tx with Ret t => t | _ => mkTx 0 (Abs.Blocks 0) [] [] end.

Lemma genesis_tx_spec : dogecoin_genesis_tx = Ret genesis_tx.
Proof. vm_compute. reflexivity. Qed.

Lemma genesis_tx_wf : tx_wf genesis_tx.
Proof.
  split; [vm_compute; by split|]. split; [vm_compute; by split|].
  split; (split; [|vm_compute; congruence]); (constructor; [|constructor]).
  - split; [vm_compute; repeat split; congruence|].
    exists []. split; [reflexivity|]. vm_compute. congruence.
  - vm_compute; repeat split; congruence.
Qed.

(** The genesis blocks.  On every network the genesis block is built without panicking,
    is well formed, legacy and without a proof, passes its merkle check, and has the
    network's known merkle root and hash. *)
Lemma genesis_blocks_check (n : Doge.Network) :
  exists b, genesis_block (Doge.params n) = Ret b /\ doge_block_wf b /\
    is_legacy (pure_header (doge_header b)) = true /\ aux_pow (doge_header b) = None /\
    doge_check_merkle_root b = Ret true /\
    le_combine (merkle_root (pure_header (doge_header b))) =
      0x5b2a3f53f605d62c53e62932dac6925e3d74afa5a4b459745c36d42d0ed26a69 /\
    le_combine (doge_block_hash b) =
      match n with
      | Doge.Dogecoin => 0x1a91e3dace36e2be3bf030a65679fe821aa1d6ef92e7c9902eb318182c355691
      | Doge.Testnet => 0xbb0a78264637406b6360aad926284d544d7049f45189db5664f3c4d07350559e
      | Doge.Regtest => 0x3d2160a3b5dc4a9d62e7e66a295f70313ac808440ef7400d6c0772171ce973a5
      end.
Proof.
  unfold genesis_block. rewrite genesis_tx_spec.
  destruct n; (eexists; split; [reflexivity|]);
    (split; [split; [vm_compute; repeat split; congruence|];
             split; [constructor; [apply genesis_tx_wf|constructor]|]; vm_compute; congruence|]);
    vm_compute; repeat split.
Qed.
