(* ===== verification/Base58.v ===== *)
(** * Base58 and base58check ([base58/src/lib.rs])

    Decoding multiplies a fixed-size base-256 buffer by 58 for every character; encoding
    multiplies a growing base-58 buffer by 256 for every byte and counts leading zeros
    apart.  Strings are their bytes.  The main result is that the two are inverse
    bijections between byte strings and strings over the alphabet, with and without the
    checksum. *)

From Stdlib Require Import ZArith Lia.
From Stdlib Require Strings.String.
From coqutil Require Import Byte Word.LittleEndianList.
From stdpp Require Import base tactics option list numbers.
From S2P Require Import Prelude HashEngine Sha256.

Import String.StringSyntax.
Open Scope Z_scope.

(** ** Tables *)

Definition BASE58_CHARS : list byte :=
  String.list_byte_of_string "123456789ABCDEFGHJKLMNPQRSTUVWXYZabcdefghijkmnopqrstuvwxyz".

Definition BASE58_DIGITS : list (option Z) :=
  [None; None; None; None; None; None; None; None;
   None; None; None; None; None; None; None; None;
   None; None; None; None; None; None; None; None;
   None; None; None; None; None; None; None; None;
   None; None; None; None; None; None; None; None;
   None; None; None; None; None; None; None; None;
   None; Some 0; Some 1; Some 2; Some 3; Some 4; Some 5; Some 6;
   Some 7; Some 8; None; None; None; None; None; None;
   None; Some 9; Some 10; Some 11; Some 12; Some 13; Some 14; Some 15;
   Some 16; None; Some 17; Some 18; Some 19; Some 20; Some 21; None;
   Some 22; Some 23; Some 24; Some 25; Some 26; Some 27; Some 28; Some 29;
   Some 30; Some 31; Some 32; None; None; None; None; None;
   None; Some 33; Some 34; Some 35; Some 36; Some 37; Some 38; Some 39;
   Some 40; Some 41; Some 42; Some 43; None; Some 44; Some 45; Some 46;
   Some 47; Some 48; Some 49; Some 50; Some 51; Some 52; Some 53; Some 54;
   Some 55; Some 56; Some 57; None; None; None; None; None].

(** ** Iterator adaptors *)

Fixpoint take_while {A} (f : A -> bool) (l : list A) : list A :=
  match l with
  | [] => []
  | a :: l => if f a then a :: take_while f l else []
  end.
Fixpoint skip_while {A} (f : A -> bool) (l : list A) : list A :=
  match l with
  | [] => []
  | a :: l' => if f a then skip_while f l' else l
  end.

(** ** Decoding *)

Record InvalidCharacterError := mkInvalidCharacter { invalid : byte }.

Inductive Error :=
| Decode (e : InvalidCharacterError)
| IncorrectChecksum (incorrect expected : Z)
| TooShort (length : nat).

#[export] Instance InvalidCharacterError_eq_dec : EqDecision InvalidCharacterError.
Proof. solve_decision. Defined.
#[export] Instance Error_eq_dec : EqDecision Error.
Proof. solve_decision. Defined.

Section decode.
Context {bm : BuildMode}.

(** [for d256 in scratch.iter_mut().rev()]: the last byte first. *)
Fixpoint mul_add (scratch : list byte) (carry : Z) : run (list byte * Z) :=
  match scratch with
  | [] => Ret ([], carry)
  | d256 :: scratch =>
      '(scratch, carry) ← mul_add scratch carry;
      product ← arith_u 32 (byte.unsigned d256 * 58);
      carry ← arith_u 32 (carry + product);
      Ret (byte.of_Z carry :: scratch, carry / 256)
  end.

(** The loop over the characters. *)
Fixpoint decode_loop (data : list byte) (scratch : list byte) :
    comp InvalidCharacterError (list byte) :=
  match data with
  | [] => Val scratch
  | d58 :: data =>
      if Z.of_nat (length BASE58_DIGITS) <=? byte.unsigned d58
      then Throw (mkInvalidCharacter d58) else
      digit ← of_run (index BASE58_DIGITS (byte.unsigned d58));
      match digit with
      | None => Throw (mkInvalidCharacter d58)
      | Some carry =>
          '(scratch, carry) ← of_run (mul_add scratch carry);
          _ ← of_run (assert_ (carry =? 0));
          decode_loop data scratch
      end
  end.

Definition decode (data : list byte) : comp InvalidCharacterError (list byte) :=
  let scratch := replicate (1 + length data * 11 / 15) (byte.of_Z 0) in
  scratch ← decode_loop data scratch;
  one ← of_run (index BASE58_CHARS 0);
  let ret := map (fun _ => byte.of_Z 0) (take_while (fun x => bool_decide (x = one)) data) in
  Val (ret ++ skip_while (fun x => byte.unsigned x =? 0) scratch).

Definition decode_check (data : list byte) : comp Error (list byte) :=
  match decode data with
  | Crash => Crash
  | Throw e => Throw (Decode e)
  | Val ret =>
      if (length ret <? 4)%nat then Throw (TooShort (length ret)) else
      let check_start := (length ret - 4)%nat in
      let hash_check := take 4 (sha256d (take check_start ret)) in
      let data_check := drop check_start ret in
      let expected := le_combine hash_check in
      let actual := le_combine data_check in
      if negb (actual =? expected) then Throw (IncorrectChecksum actual expected)
      else Val (take check_start ret)
  end.
End decode.

(** ** Encoding *)

(** [SmallVec<u8>]: the first hundred elements in an array, the rest in a vector. *)
Record SmallVec := mkSmallVec { len : nat; stack : list Z; heap : list Z }.

Module SmallVec.

Definition new : SmallVec := mkSmallVec 0 (replicate 100 0) [].
Definition push (self : SmallVec) (val : Z) : SmallVec :=
  if (len self <? 100)%nat then mkSmallVec (len self + 1) (<[len self := val]> (stack self)) (heap self)
  else mkSmallVec (len self) (stack self) (heap self ++ [val]).
Definition iter (self : SmallVec) : list Z := take (len self) (stack self) ++ heap self.
End SmallVec.

(** [for ch in ret.iter_mut()], on one of the two slices. *)
Fixpoint carry_loop (chs : list Z) (carry : Z) : list Z * Z :=
  match chs with
  | [] => ([], carry)
  | ch :: chs =>
      let new_ch := ch * 256 + carry in
      let '(chs, carry) := carry_loop chs (new_ch / 58) in
      (new_ch mod 58 :: chs, carry)
  end.
Definition carry_all (ret : SmallVec) (carry : Z) : SmallVec * Z :=
  let '(front, carry) := carry_loop (take (len ret) (stack ret)) carry in
  let '(back, carry) := carry_loop (heap ret) carry in
  (mkSmallVec (len ret) (front ++ drop (len ret) (stack ret)) back, carry).

(** [while carry > 0]; the carry is below 256, so two rounds are enough. *)
Fixpoint push_carry (fuel : nat) (ret : SmallVec) (carry : Z) : SmallVec :=
  match fuel with
  | O => ret
  | S fuel =>
      if 0 <? carry then push_carry fuel (SmallVec.push ret (carry mod 58)) (carry / 58) else ret
  end.

Definition format_step (st : SmallVec * nat * bool) (d256 : byte) : SmallVec * nat * bool :=
  let '(ret, leading_zero_count, leading_zeroes) := st in
  let carry := byte.unsigned d256 in
  let '(leading_zero_count, leading_zeroes) :=
    if leading_zeroes && (carry =? 0) then (leading_zero_count + 1, leading_zeroes)%nat
    else (leading_zero_count, false) in
  let '(ret, carry) := carry_all ret carry in
  (push_carry 8 ret carry, leading_zero_count, leading_zeroes).

Fixpoint push_zeroes (n : nat) (ret : SmallVec) : SmallVec :=
  match n with O => ret | S n => push_zeroes n (SmallVec.push ret 0) end.

Fixpoint write_chars (chs : list Z) : run (list byte) :=
  match chs with
  | [] => Ret []
  | ch :: chs => c ← index BASE58_CHARS ch; cs ← write_chars chs; Ret (c :: cs)
  end.

(** The characters [format_iter] writes. *)
Definition format_iter (data : list byte) : run (list byte) :=
  let '(ret, leading_zero_count, _) := foldl format_step (SmallVec.new, O, true) data in
  let ret := push_zeroes leading_zero_count ret in
  write_chars (rev (SmallVec.iter ret)).

Definition encode (data : list byte) : run (list byte) := format_iter data.
Definition encode_check (data : list byte) : run (list byte) :=
  let checksum := sha256d data in
  format_iter (data ++ take 4 checksum).
Definition encode_check_to_fmt (data : list byte) : run (list byte) :=
  let checksum := sha256d data in
  format_iter (data ++ take 4 checksum).

Module tests.
Example encode_examples :
  encode (map byte.of_Z [0; 0; 0; 0; 13; 36]) = Ret (String.list_byte_of_string "1111211") /\
  encode (map byte.of_Z [0; 13; 36]) = Ret (String.list_byte_of_string "1211").
Proof. vm_compute. done. Qed.
Example decode_example : @decode_check true (String.list_byte_of_string "1PfJpZsjreyVrqeoAfabrRwwjQyoSQMmHH") =
  Val (map byte.of_Z [0x00; 0xf8; 0x91; 0x73; 0x03; 0xbf; 0xa8; 0xef; 0x24; 0xf2; 0x92;
                      0xe8; 0xfa; 0x14; 0x19; 0xb2; 0x04; 0x60; 0xba; 0x06; 0x4d]).
Proof. vm_compute. reflexivity. Qed.
End tests.

(** ** Numerals

    [le_num B l] is the number with the digits [l] in base [B], least significant first;
    [num] reads the most significant digit first. *)

Definition le_num (B : Z) (l : list Z) : Z := foldr (fun d acc => d + B * acc) 0 l.
Definition num (B : Z) (l : list Z) : Z := le_num B (rev l).
Definition digits (B : Z) (l : list Z) : Prop := Forall (fun d => 0 <= d < B) l.
Definition is0 (d : Z) : bool := d =? 0.

Lemma le_num_app B l1 l2 : le_num B (l1 ++ l2) = le_num B l1 + B ^ Z.of_nat (length l1) * le_num B l2.
Proof.
  induction l1 as [|d l1 IH]; cbn [app length]; [cbn -[Z.mul]; lia|].
  change (le_num B (d :: l1 ++ l2)) with (d + B * le_num B (l1 ++ l2)).
  change (le_num B (d :: l1)) with (d + B * le_num B l1).
  rewrite IH, Nat2Z.inj_succ, Z.pow_succ_r by lia. ring.
Qed.

Lemma le_num_nonneg B l : 0 < B -> digits B l -> 0 <= le_num B l.
Proof.
  intros HB. induction 1 as [|d l Hd _ IH]; [done|]. cbn. fold (le_num B l). nia.
Qed.

Lemma num_snoc B l d : num B (l ++ [d]) = num B l * B + d.
Proof. unfold num. rewrite rev_app_distr. cbn. fold (le_num B (rev l)). lia. Qed.

Lemma num_cons B d l : num B (d :: l) = d * B ^ Z.of_nat (length l) + num B l.
Proof.
  unfold num. cbn [rev]. rewrite le_num_app, length_rev. cbn. lia.
Qed.

Lemma num_zeros B n l : num B (replicate n 0 ++ l) = num B l.
Proof.
  induction n as [|n IH]; [done|]. cbn [replicate app]. rewrite num_cons, IH. lia.
Qed.

(** Digits without a leading zero are determined by the number. *)
Lemma le_num_inj B : 1 < B -> forall l1 l2, digits B l1 -> digits B l2 ->
  list.last l1 <> Some 0 -> list.last l2 <> Some 0 -> le_num B l1 = le_num B l2 -> l1 = l2.
Proof.
  intros HB.
  assert (forall l, digits B l -> list.last l <> Some 0 -> le_num B l = 0 -> l = []) as H0.
  { induction 1 as [|d l Hd Hl IH]; [done|]. intros Hn E. exfalso.
    change (d + B * le_num B l = 0) in E. pose proof (le_num_nonneg B l ltac:(lia) Hl).
    assert (d = 0) as -> by nia. assert (le_num B l = 0) as E0 by nia.
    destruct l as [|d' l]; [by apply Hn|]. by specialize (IH Hn E0). }
  induction l1 as [|d1 l1 IH]; intros l2 H1 H2 N1 N2 E; [symmetry; by apply H0|].
  destruct l2 as [|d2 l2]; [by apply H0|].
  change (d1 + B * le_num B l1 = d2 + B * le_num B l2) in E.
  apply Forall_cons_iff in H1 as [D1 H1], H2 as [D2 H2].
  assert (d1 = d2) as <-.
  { rewrite <- (Z.mod_small d1 B), <- (Z.mod_small d2 B) by done.
    rewrite <- (Z.mod_add d1 (le_num B l1) B), <- (Z.mod_add d2 (le_num B l2) B) by lia.
    f_equal. lia. }
  f_equal. apply IH; [done|done| | |nia].
  - destruct l1; [done|]. exact N1.
  - destruct l2; [done|]. exact N2.
Qed.

Lemma while_split {A} (f : A -> bool) l : l = take_while f l ++ skip_while f l.
Proof. induction l as [|a l IH]; [done|]. cbn. destruct (f a); [|done]. cbn. by rewrite <- IH. Qed.

Lemma take_while_zeros l : take_while is0 l = replicate (length (take_while is0 l)) 0.
Proof.
  induction l as [|a l IH]; [done|]. cbn. unfold is0 at 1 3.
  destruct (Z.eqb_spec a 0) as [->|]; [|done]. cbn. by rewrite <- IH.
Qed.

Lemma skip_while_head l : head (skip_while is0 l) <> Some 0.
Proof.
  induction l as [|a l IH]; [done|]. cbn. unfold is0 at 1. destruct (Z.eqb_spec a 0); [done|].
  cbn. congruence.
Qed.

Lemma take_while_replicate n l : head l <> Some 0 -> take_while is0 (replicate n 0 ++ l) = replicate n 0.
Proof.
  intros Hl. induction n as [|n IH]; [|cbn; by rewrite IH].
  destruct l as [|a l]; [done|]. cbn. unfold is0. destruct (Z.eqb_spec a 0); [by subst|done].
Qed.

(** One number in two bases, with as many leading zeros. *)
Definition same_number (b256 b58 : list Z) : Prop :=
  length (take_while is0 b256) = length (take_while is0 b58) /\ num 256 b256 = num 58 b58.

Lemma numeral_split l : exists r, l = replicate (length (take_while is0 l)) 0 ++ r /\ head r <> Some 0.
Proof.
  exists (skip_while is0 l). split; [|apply skip_while_head].
  rewrite <- take_while_zeros. apply while_split.
Qed.

Lemma numeral_inj B l1 l2 : 1 < B -> digits B l1 -> digits B l2 ->
  length (take_while is0 l1) = length (take_while is0 l2) -> num B l1 = num B l2 -> l1 = l2.
Proof.
  intros HB H1 H2 Hl E.
  destruct (numeral_split l1) as (r1 & E1 & N1), (numeral_split l2) as (r2 & E2 & N2).
  rewrite Hl in E1. revert E1 E2. generalize (length (take_while is0 l2)). intros n -> ->.
  f_equal. rewrite !num_zeros in E.
  apply Forall_app in H1 as [_ H1], H2 as [_ H2].
  apply rev_inj, (le_num_inj B HB); [by apply Forall_rev..| | |exact E].
  all: rewrite rev_alt; change (rev_append ?l []) with (reverse l); by rewrite last_reverse.
Qed.

(** ** Decoding computes the number *)

Definition vals (bs : list byte) : list Z := map byte.unsigned bs.

Lemma vals_digits bs : digits 256 (vals bs).
Proof. apply Forall_map, Forall_true. intros b. apply byte.unsigned_range. Qed.

Lemma vals_inj b1 b2 : vals b1 = vals b2 -> b1 = b2.
Proof.
  revert b2. induction b1 as [|x b1 IH]; intros [|y b2] E; try done.
  injection E as E1%byte.unsigned_inj E2. f_equal; auto.
Qed.

Lemma num_bound B l : 1 < B -> digits B l -> 0 <= num B l < B ^ Z.of_nat (length l).
Proof.
  intros HB. induction 1 as [|d l Hd _ IH]; [done|]. rewrite num_cons. cbn [length].
  rewrite Nat2Z.inj_succ, Z.pow_succ_r by lia. nia.
Qed.

Lemma mul_add_spec {bm : BuildMode} scratch carry : 0 <= carry < 58 ->
  exists scratch' carry', mul_add scratch carry = Ret (scratch', carry') /\
    length scratch' = length scratch /\ 0 <= carry' < 58 /\
    num 256 (vals scratch') + carry' * 256 ^ Z.of_nat (length scratch) =
      num 256 (vals scratch) * 58 + carry.
Proof.
  intros Hc. induction scratch as [|d s (s' & c & E & Hl & Hr & Hn)]; cbn [mul_add].
  { exists [], carry. do 3 (split; [done|]). cbn. lia. }
  pose proof (byte.unsigned_range d) as Hd. rewrite E, bind_Ret.
  rewrite arith_u_small, bind_Ret by (unfold in_u; lia).
  rewrite arith_u_small, bind_Ret by (unfold in_u; lia).
  eexists _, _. split; [done|]. cbn [vals map length]. rewrite !num_cons, byte.unsigned_of_Z.
  unfold byte.wrap. change (2 ^ 8) with 256. rewrite !length_map, Hl. split; [done|].
  pose proof (Z.div_mod (c + byte.unsigned d * 58) 256 ltac:(lia)).
  pose proof (Z.mod_pos_bound (c + byte.unsigned d * 58) 256 ltac:(lia)).
  split; [lia|]. fold (vals s') (vals s). rewrite Nat2Z.inj_succ, Z.pow_succ_r by lia. nia.
Qed.

Definition digit_of (c : byte) : option Z :=
  match BASE58_DIGITS !! Z.to_nat (byte.unsigned c) with Some (Some d) => Some d | _ => None end.

Lemma digits_chars : forallb (fun n =>
  match digit_of (byte.of_Z (Z.of_nat n)) with
  | Some d => bool_decide (BASE58_CHARS !! Z.to_nat d = Some (byte.of_Z (Z.of_nat n))) && (0 <=? d) && (d <? 58)
  | None => true
  end) (seq 0 256) = true.
Proof. vm_compute. reflexivity. Qed.

Lemma chars_digits : forallb (fun n =>
  match BASE58_CHARS !! n with
  | Some c => bool_decide (digit_of c = Some (Z.of_nat n))
  | None => false
  end) (seq 0 58) = true.
Proof. vm_compute. reflexivity. Qed.

Lemma digit_of_char c d : digit_of c = Some d <-> 0 <= d < 58 /\ BASE58_CHARS !! Z.to_nat d = Some c.
Proof.
  pose proof (byte.unsigned_range c). split.
  - intros E. pose proof (proj1 (forallb_forall _ _) digits_chars (Z.to_nat (byte.unsigned c))
      ltac:(apply in_seq; lia)) as H'. cbv beta in H'.
    rewrite Z2Nat.id, byte.of_Z_unsigned, E in H' by lia.
    apply andb_true_iff in H' as [[H1%bool_decide_eq_true H2%Z.leb_le]%andb_true_iff H3%Z.ltb_lt].
    split; [lia|done].
  - intros [Hd E]. pose proof (proj1 (forallb_forall _ _) chars_digits (Z.to_nat d)
      ltac:(apply in_seq; lia)) as H'. cbv beta in H'.
    rewrite E, Z2Nat.id in H' by lia. by apply bool_decide_eq_true in H'.
Qed.

Lemma digit_of_inj c1 c2 d : digit_of c1 = Some d -> digit_of c2 = Some d -> c1 = c2.
Proof. intros [_ H1]%digit_of_char [_ H2]%digit_of_char. congruence. Qed.

(** The digits of a string over the alphabet. *)
Fixpoint digits_of (s : list byte) : option (list Z) :=
  match s with
  | [] => Some []
  | c :: s => match digit_of c, digits_of s with Some d, Some ds => Some (d :: ds) | _, _ => None end
  end.

Lemma digits_of_digits s ds : digits_of s = Some ds -> digits 58 ds.
Proof.
  revert ds. induction s as [|c s IH]; cbn; intros ds E; [injection E as <-; constructor|].
  destruct (digit_of c) as [d|] eqn:Ed; [|done]. destruct (digits_of s) as [ds'|]; [|done].
  injection E as <-. constructor; [apply digit_of_char in Ed as [? _]; done|]. by apply IH.
Qed.

Lemma digits_of_cons c s ds : digits_of (c :: s) = Some ds <->
  exists d ds', digit_of c = Some d /\ digits_of s = Some ds' /\ ds = d :: ds'.
Proof. cbn. destruct (digit_of c), (digits_of s); naive_solver. Qed.

Lemma digits_of_inj s1 s2 ds : digits_of s1 = Some ds -> digits_of s2 = Some ds -> s1 = s2.
Proof.
  revert s2 ds. induction s1 as [|c1 s1 IH]; intros [|c2 s2] ds; [done|..].
  - intros [= <-] (? & ? & _ & _ & ?)%digits_of_cons. done.
  - intros (? & ? & _ & _ & ->)%digits_of_cons. done.
  - intros (d & ds' & E1 & E2 & ->)%digits_of_cons (d' & ds'' & E3 & E4 & [= <- <-])%digits_of_cons.
    f_equal; [by eapply digit_of_inj|]. eauto.
Qed.

Lemma digits_of_length s ds : digits_of s = Some ds -> length ds = length s.
Proof.
  revert ds. induction s as [|c s IH]; intros ds; [by intros [= <-]|].
  intros (d & ds' & _ & E & ->)%digits_of_cons. cbn. by rewrite (IH _ E).
Qed.

Lemma decode_loop_spec {bm : BuildMode} data : forall scratch,
  (num 256 (vals scratch) + 1) * 58 ^ Z.of_nat (length data) <= 256 ^ Z.of_nat (length scratch) ->
  match digits_of data with
  | Some ds => exists s, decode_loop data scratch = Val s /\
      num 256 (vals s) = num 256 (vals scratch) * 58 ^ Z.of_nat (length data) + num 58 ds
  | None => exists c, decode_loop data scratch = Throw (mkInvalidCharacter c) /\
      c ∈ data /\ digit_of c = None
  end.
Proof.
  induction data as [|c data IH]; intros scratch Hs; cbn [decode_loop digits_of].
  { exists scratch. split; [done|]. cbn. lia. }
  change (Z.of_nat (length BASE58_DIGITS)) with 128. pose proof (byte.unsigned_range c) as Hc.
  destruct (Z.leb_spec 128 (byte.unsigned c)).
  { assert (digit_of c = None) as En.
    { unfold digit_of. rewrite lookup_ge_None_2; [done|]. cbn [length BASE58_DIGITS]. lia. }
    rewrite En. exists c. split_and!; [done|left|done]. }
  destruct (lookup_lt_is_Some_2 BASE58_DIGITS (Z.to_nat (byte.unsigned c))) as [o Eo].
  { cbn [length BASE58_DIGITS]. lia. }
  rewrite (index_lookup BASE58_DIGITS _ o) by (done || lia). cbn [of_run]. rewrite bind_Val.
  assert (digit_of c = o) as -> by (unfold digit_of; rewrite Eo; by destruct o).
  destruct o as [d|]; [|exists c; split_and!; [done|left|unfold digit_of; by rewrite Eo]].
  assert (digit_of c = Some d) as Hd%digit_of_char by (unfold digit_of; by rewrite Eo).
  destruct (mul_add_spec scratch d) as (s & k & E & Hl & Hk & Hn); [lia|].
  rewrite E. cbn [of_run]. rewrite bind_Val. cbn [length] in Hs.
  rewrite Nat2Z.inj_succ, Z.pow_succ_r in Hs by lia.
  pose proof (Z.pow_pos_nonneg 58 (Z.of_nat (length data)) ltac:(lia) ltac:(lia)).
  pose proof (num_bound 256 (vals s) ltac:(lia) (vals_digits s)) as [B0 _].
  assert (k = 0) as ->.
  { destruct (Z.eq_dec k 0); [done|].
    assert (256 ^ Z.of_nat (length scratch) <= k * 256 ^ Z.of_nat (length scratch)) by nia. nia. }
  cbn [assert_ Z.eqb of_run]. rewrite bind_Val.
  specialize (IH s). rewrite Hl in IH.
  assert (num 256 (vals s) = num 256 (vals scratch) * 58 + d) as Hv by lia. rewrite Hv in IH.
  specialize (IH ltac:(nia)). destruct (digits_of data) as [ds|] eqn:Eds.
  - destruct IH as (s' & -> & Hv'). exists s'. split; [done|]. rewrite Hv', num_cons.
    cbn [length]. rewrite Nat2Z.inj_succ, Z.pow_succ_r by lia.
    assert (length ds = length data) as -> by (by apply digits_of_length). lia.
  - destruct IH as (c' & -> & Hin & Hc'). exists c'. split_and!; [done|by right|done].
Qed.

(** [11/15] is just over [log_256 58]: the buffer is large enough. *)
Lemma capacity n : 58 ^ Z.of_nat n <= 256 ^ Z.of_nat (1 + n * 11 / 15).
Proof.
  set (q := (n * 11 / 15)%nat).
  assert (11 * Z.of_nat n <= 15 * Z.of_nat (1 + q)) as Hq.
  { pose proof (Nat.div_mod (n * 11) 15 ltac:(lia)) as Hd. fold q in Hd.
    pose proof (Nat.mod_upper_bound (n * 11) 15 ltac:(lia)). lia. }
  apply (Z.pow_le_mono_l_iff _ _ 15); [apply Z.pow_nonneg; lia..|lia|].
  rewrite <- !Z.pow_mul_r, (Z.mul_comm (Z.of_nat n)), Z.pow_mul_r by lia.
  transitivity (256 ^ (11 * Z.of_nat n)); [|apply Z.pow_le_mono_r; lia].
  rewrite (Z.pow_mul_r 256) by lia. apply Z.pow_le_mono_l. by vm_compute.
Qed.

Lemma ones_zeros s ds : digits_of s = Some ds ->
  length (take_while (fun x => bool_decide (x = Byte.x31)) s) = length (take_while is0 ds).
Proof.
  revert ds. induction s as [|c s IH]; intros ds; [by intros [= <-]|].
  intros (d & ds' & Ed & Es & ->)%digits_of_cons. cbn.
  assert (bool_decide (c = Byte.x31) = is0 d) as ->.
  { unfold is0. destruct (Z.eqb_spec d 0) as [->|Hd].
    - apply bool_decide_eq_true. by apply digit_of_char in Ed as [_ [= <-]].
    - apply bool_decide_eq_false. intros ->. by injection Ed as <-. }
  destruct (is0 d); [|done]. cbn. by rewrite (IH _ Es).
Qed.

Lemma vals_skip s : vals (skip_while (fun x => byte.unsigned x =? 0) s) = skip_while is0 (vals s).
Proof. induction s as [|b s IH]; [done|]. cbn. unfold is0 at 1. by destruct (byte.unsigned b =? 0). Qed.

Lemma vals_app b1 b2 : vals (b1 ++ b2) = vals b1 ++ vals b2.
Proof. apply map_app. Qed.

Lemma vals_zeros {A} (l : list A) : vals (map (fun _ => byte.of_Z 0) l) = replicate (length l) 0.
Proof. unfold vals. rewrite map_map. change (map ?f ?l) with (f <$> l). by apply const_fmap. Qed.

Lemma num_skip B l : num B (skip_while is0 l) = num B l.
Proof. rewrite (while_split is0 l) at 2. by rewrite take_while_zeros, num_zeros. Qed.

Lemma decode_spec {bm : BuildMode} s :
  match digits_of s with
  | Some ds => exists b, decode s = Val b /\ same_number (vals b) ds
  | None => exists c, decode s = Throw (mkInvalidCharacter c) /\ c ∈ s /\ digit_of c = None
  end.
Proof.
  unfold decode. set (buf := replicate _ _).
  assert (num 256 (vals buf) = 0) as H0.
  { unfold buf, vals. change (map ?f ?l) with (f <$> l). rewrite fmap_replicate, byte.unsigned_of_Z. rewrite <- (app_nil_r (replicate _ _)). apply num_zeros. }
  pose proof (decode_loop_spec s buf) as H. rewrite H0 in H. unfold buf in H at 1.
  rewrite length_replicate in H. specialize (H ltac:(pose proof (capacity (length s)); lia)).
  destruct (digits_of s) as [ds|] eqn:Es.
  - destruct H as (b & -> & Hn). rewrite bind_Val.
    rewrite (index_lookup BASE58_CHARS 0 Byte.x31) by done. cbn [of_run]. rewrite bind_Val.
    eexists. split; [done|]. unfold same_number.
    rewrite vals_app, vals_skip, vals_zeros. split.
    + rewrite take_while_replicate, length_replicate by apply skip_while_head. by apply ones_zeros.
    + rewrite num_zeros, num_skip, Hn. lia.
  - destruct H as (c & -> & Hc). by exists c.
Qed.

(** ** Encoding computes the number *)

Definition sv_wf (v : SmallVec) : Prop :=
  (len v <= 100)%nat /\ length (stack v) = 100%nat /\ (heap v = [] \/ len v = 100%nat).

Lemma sv_new_wf : sv_wf SmallVec.new /\ SmallVec.iter SmallVec.new = [].
Proof. split; [|done]. split; [cbn; lia|]. split; [done|by left]. Qed.

(** [SmallVec] is a list. *)
Lemma sv_push_spec v x : sv_wf v ->
  sv_wf (SmallVec.push v x) /\ SmallVec.iter (SmallVec.push v x) = SmallVec.iter v ++ [x].
Proof.
  intros (Hl & Hs & Hh). unfold SmallVec.push, SmallVec.iter, sv_wf.
  destruct (Nat.ltb_spec (len v) 100) as [Hlt|Hge]; cbn [len stack heap].
  - destruct Hh as [->|]; [|lia]. split; [split; [lia|]; split; [by rewrite length_insert|by left]|].
    rewrite !app_nil_r, Nat.add_1_r. rewrite (take_S_r _ _ x) by (apply list_lookup_insert_eq; lia).
    by rewrite take_insert_ge by lia.
  - assert (len v = 100%nat) as El by lia. split; [split; [done|]; split; [done|by right]|].
    by rewrite app_assoc.
Qed.

Lemma carry_loop_spec l : forall c, 0 <= c < 256 -> digits 58 l ->
  exists l' c', carry_loop l c = (l', c') /\ length l' = length l /\ digits 58 l' /\ 0 <= c' < 256 /\
    le_num 58 l' + 58 ^ Z.of_nat (length l) * c' = le_num 58 l * 256 + c /\
    (list.last l <> Some 0 -> l <> [] -> 0 < c').
Proof.
  induction l as [|d l IH]; intros c Hc Hd; cbn [carry_loop].
  { exists [], c. split_and!; try done; try lia. cbn. lia. }
  apply Forall_cons_iff in Hd as [Hd Hl].
  pose proof (Z.div_mod (d * 256 + c) 58 ltac:(lia)) as Hdm.
  pose proof (Z.mod_pos_bound (d * 256 + c) 58 ltac:(lia)) as Hm.
  assert (0 <= (d * 256 + c) / 58 < 256) as Hq.
  { split; [apply Z.div_pos; lia|apply Z.div_lt_upper_bound; lia]. }
  destruct (IH _ Hq Hl) as (l' & c' & E & Hlen & Hd' & Hc' & Hn & Hlast). rewrite E.
  exists ((d * 256 + c) mod 58 :: l'), c'.
  split; [done|]. split; [cbn; lia|]. split; [by constructor|]. split; [done|].
  change (le_num 58 (?x :: ?y)) with (x + 58 * le_num 58 y).
  cbn [length]. rewrite Nat2Z.inj_succ, Z.pow_succ_r by lia. split; [nia|].
  intros Hne _. destruct l as [|d' l]; [|by apply Hlast].
  injection E as <- <-. assert (d <> 0) by (intros ->; by apply Hne). lia.
Qed.

Lemma carry_all_spec v c : sv_wf v -> 0 <= c < 256 -> digits 58 (SmallVec.iter v) ->
  exists v' l' c', carry_all v c = (v', c') /\ sv_wf v' /\ SmallVec.iter v' = l' /\
    carry_loop (SmallVec.iter v) c = (l', c').
Proof.
  intros (Hl & Hs & Hh) Hc Hd. unfold carry_all, SmallVec.iter in *.
  assert (forall l1 l2 c, carry_loop (l1 ++ l2) c =
    let '(a, c) := carry_loop l1 c in let '(b, c) := carry_loop l2 c in (a ++ b, c)) as Happ.
  { induction l1 as [|d l1 IH]; intros l2 c0; cbn; [by destruct (carry_loop l2 c0)|].
    rewrite IH. destruct (carry_loop l1 _) as [a c1], (carry_loop l2 c1) as [b c2]. done. }
  rewrite Happ. apply Forall_app in Hd as [Hd1 Hd2].
  destruct (carry_loop_spec _ c Hc Hd1) as (a & c1 & E1 & Hla & _ & Hc1 & _). rewrite E1.
  destruct (carry_loop_spec _ c1 Hc1 Hd2) as (b & c2 & E2 & Hlb & _). rewrite E2.
  rewrite length_take, Nat.min_l in Hla by lia.
  eexists _, _, c2. split; [done|]. split.
  - split; [done|]. cbn [stack heap len]. rewrite length_app, length_drop. split; [lia|].
    destruct Hh as [Hh|]; [left|by right]. rewrite Hh in Hlb. by destruct b.
  - split; [|done]. cbn [stack heap len]. by rewrite take_app_length' by done.
Qed.

Lemma push_carry_spec v c : sv_wf v -> 0 <= c < 256 ->
  exists ds, sv_wf (push_carry 8 v c) /\ SmallVec.iter (push_carry 8 v c) = SmallVec.iter v ++ ds /\
    digits 58 ds /\ le_num 58 ds = c /\ (length ds <= 2)%nat /\ list.last ds <> Some 0 /\
    (0 < c -> ds <> []) /\ (c = 0 -> ds = []).
Proof.
  intros Hv Hc. cbn [push_carry]. destruct (Z.ltb_spec 0 c).
  2: { exists []. rewrite app_nil_r. split_and!; try done; [constructor|cbn; lia|cbn; lia|lia]. }
  pose proof (Z.div_mod c 58 ltac:(lia)). pose proof (Z.mod_pos_bound c 58 ltac:(lia)).
  destruct (sv_push_spec v (c mod 58) Hv) as [Hv1 I1]. destruct (Z.ltb_spec 0 (c / 58)).
  2: { assert (c / 58 = 0) by (pose proof (Z.div_pos c 58); lia). rewrite I1. exists [c mod 58].
       split_and!; try done; [by constructor|cbn; lia|cbn; lia|cbn; intros [= ?]; lia|lia]. }
  assert (c / 58 < 58) as Hq by (apply Z.div_lt_upper_bound; lia).
  rewrite (Z.mod_small (c / 58)) by lia. rewrite (Z.div_small (c / 58)) by lia. cbn [Z.ltb Z.compare].
  destruct (sv_push_spec _ (c / 58) Hv1) as [Hv2 I2]. rewrite I2, I1. exists [c mod 58; c / 58].
  rewrite <- app_assoc. split_and!; try done; [apply Forall_cons_iff; split; [lia|]; apply Forall_cons_iff; split; [lia|done]|unfold le_num; cbn [foldr]; lia|cbn; intros [= ?]; lia|lia].
Qed.

(** What the loop over the bytes has computed. *)
Definition encoding (p : list byte) (st : SmallVec * nat * bool) : Prop :=
  let '(v, z, b) := st in
  sv_wf v /\ digits 58 (SmallVec.iter v) /\ list.last (SmallVec.iter v) <> Some 0 /\
  le_num 58 (SmallVec.iter v) = num 256 (vals p) /\
  z = length (take_while is0 (vals p)) /\ b = bool_decide (z = length p) /\
  (length (SmallVec.iter v) + 2 * z <= 2 * length p)%nat /\ (b = true -> SmallVec.iter v = []).

Lemma take_while_snoc l d : take_while is0 (l ++ [d]) =
  if bool_decide (length (take_while is0 l) = length l) && is0 d
  then take_while is0 l ++ [d] else take_while is0 l.
Proof.
  induction l as [|a l IH]; cbn; [by destruct (is0 d)|]. destruct (is0 a); [|done].
  rewrite IH. cbn [length].
  destruct (bool_decide_reflect (length (take_while is0 l) = length l)) as [E|E].
  - rewrite bool_decide_eq_true_2 by lia. by destruct (is0 d).
  - rewrite bool_decide_eq_false_2 by lia. done.
Qed.

Lemma take_while_length {A} (f : A -> bool) l : (length (take_while f l) <= length l)%nat.
Proof. induction l as [|a l IH]; [done|]. cbn. destruct (f a); cbn; lia. Qed.

(** The count of leading zeros after one more byte. *)
Lemma leading_zeros_snoc p b z : z = length (take_while is0 (vals p)) ->
  (z <= length p)%nat /\
  length (take_while is0 (vals (p ++ [b]))) =
    if bool_decide (z = length p) && (byte.unsigned b =? 0) then (z + 1)%nat else z.
Proof.
  intros ->. assert (length (vals p) = length p) as Hl by apply length_map.
  pose proof (take_while_length is0 (vals p)) as Hle. rewrite Hl in Hle. split; [done|].
  rewrite vals_app. change (vals [b]) with [byte.unsigned b]. rewrite take_while_snoc, Hl.
  change (is0 (byte.unsigned b)) with (byte.unsigned b =? 0).
  destruct (_ && _); [|done]. by rewrite length_app.
Qed.

Lemma format_step_spec p st b : encoding p st -> encoding (p ++ [b]) (format_step st b).
Proof.
  destruct st as [[v z] lz]. intros (Hv & Hd & Hl & Hn & Hz & Hb & Hlen & He).
  pose proof (byte.unsigned_range b : 0 <= byte.unsigned b < 256) as Hr. unfold format_step.
  destruct (carry_all_spec v (byte.unsigned b) Hv Hr Hd) as (v' & l' & c' & E & Hv' & Hi & El).
  destruct (carry_loop_spec _ _ Hr Hd) as (l2 & c2 & El2 & Hlen2 & Hd2 & Hc2 & Hn2 & Hpos).
  rewrite El in El2. injection El2 as <- <-.
  destruct (push_carry_spec v' c' Hv' Hc2) as (ds & Hw & Hit & Hds & Hnum & Hlds & Hlast & Hne & Hnil).
  destruct (leading_zeros_snoc p b z Hz) as [Hzp Hz']. rewrite <- Hb in Hz'.
  assert (lz && (byte.unsigned b =? 0) = true -> l' = [] /\ ds = []) as Hzero.
  { intros [Ez Eb%Z.eqb_eq]%andb_true_iff. rewrite (He Ez) in *. rewrite Eb in El. injection El as <- <-.
    split; [done|by apply Hnil]. }
  assert (list.last (l' ++ ds) <> Some 0) as Hlast'.
  { rewrite last_app. destruct (list.last ds) as [x|] eqn:Ex; [done|].
    destruct ds; [|by rewrite last_cons in Ex; destruct (list.last ds)].
    destruct (decide (SmallVec.iter v = [])) as [E0|E0]; [|pose proof (Hpos Hl E0); by destruct Hne].
    rewrite E0 in Hlen2. by destruct l'. }
  rewrite E. set (lz' := lz && (byte.unsigned b =? 0)) in *.
  assert ((if lz' then ((z + 1)%nat, lz) else (z, false)) = ((if lz' then z + 1 else z)%nat, lz')) as ->.
  { unfold lz'. destruct lz, (byte.unsigned b =? 0); done. }
  split; [done|]. rewrite Hit, Hi. split; [by apply Forall_app|]. split; [done|].
  assert (lz' = bool_decide ((if lz' then z + 1 else z)%nat = length (p ++ [b]))) as Hb'.
  { rewrite length_app. cbn [length]. destruct lz' eqn:Elz; symmetry.
    - apply bool_decide_eq_true. apply andb_true_iff in Elz as [Ez _]. rewrite Hb in Ez.
      apply bool_decide_eq_true in Ez. lia.
    - apply bool_decide_eq_false. lia. }
  rewrite Hz', vals_app. change (vals [b]) with [byte.unsigned b].
  rewrite num_snoc, <- Hn, le_num_app, Hlen2, Hnum, !length_app, Hlen2. cbn [length].
  split_and!; [lia|done|by rewrite length_app in Hb'| |intros Et; by destruct (Hzero Et) as [-> ->]].
  destruct lz'; [|lia]. destruct (Hzero eq_refl) as [-> ->]. cbn in *. lia.
Qed.

Lemma push_zeroes_spec n : forall v, sv_wf v ->
  SmallVec.iter (push_zeroes n v) = SmallVec.iter v ++ replicate n 0.
Proof.
  induction n as [|n IH]; intros v Hv; cbn; [by rewrite app_nil_r|].
  destruct (sv_push_spec v 0 Hv) as [Hw E]. by rewrite IH, E, <- app_assoc by done.
Qed.

Lemma write_chars_spec ds : digits 58 ds ->
  exists s, write_chars ds = Ret s /\ digits_of s = Some ds.
Proof.
  induction 1 as [|d ds Hd _ (s & E & Es)]; [by exists []|]. cbn [write_chars].
  destruct (lookup_lt_is_Some_2 BASE58_CHARS (Z.to_nat d)) as [c Hc].
  { change (length BASE58_CHARS) with 58%nat. lia. }
  rewrite (index_lookup _ d c), bind_Ret, E, bind_Ret by (done || lia).
  exists (c :: s). split; [done|]. apply digits_of_cons. exists d, ds. split_and!; [|done..].
  by apply digit_of_char.
Qed.

Lemma format_iter_spec b : exists s ds, format_iter b = Ret s /\ digits_of s = Some ds /\
  same_number (vals b) ds /\ (length s <= 2 * length b)%nat.
Proof.
  unfold format_iter.
  assert (forall q p st, encoding p st -> encoding (p ++ q) (foldl format_step st q)) as Hfold.
  { induction q as [|x q IH]; intros p st Hst; [by rewrite app_nil_r|].
    cbn. replace (p ++ x :: q) with ((p ++ [x]) ++ q) by (by rewrite <- app_assoc).
    by apply IH, format_step_spec. }
  assert (encoding [] (SmallVec.new, O, true)) as H0.
  { destruct sv_new_wf as [Hw Hi]. unfold encoding. rewrite Hi. split_and!; try done. constructor. }
  specialize (Hfold b [] _ H0). cbn [app] in Hfold.
  destruct (foldl format_step (SmallVec.new, O, true) b) as [[v z] lz].
  destruct Hfold as (Hv & Hd & Hl & Hn & Hz & _ & Hlen & _).
  rewrite push_zeroes_spec, rev_app_distr by done.
  assert (rev (replicate z 0) = replicate z 0) as ->.
  { rewrite rev_alt. change (rev_append ?l []) with (reverse l). by rewrite reverse_replicate. }
  set (ds := replicate z 0 ++ rev (SmallVec.iter v)).
  assert (digits 58 ds) as Hds.
  { apply Forall_app. split; [by apply Forall_replicate|by apply Forall_rev]. }
  destruct (write_chars_spec ds Hds) as (s & -> & Es). exists s, ds. split_and!; [done|done| |].
  - split.
    + unfold ds. rewrite take_while_replicate; [by rewrite length_replicate|].
      rewrite rev_alt. change (rev_append ?l []) with (reverse l). by rewrite head_reverse.
    + unfold ds. rewrite num_zeros, <- Hn. unfold num. by rewrite rev_involutive.
  - rewrite <- (digits_of_length _ _ Es). unfold ds. rewrite length_app, length_replicate, length_rev. lia.
Qed.

Lemma decode_encode {bm : BuildMode} s b : decode s = Val b <-> encode b = Ret s.
Proof.
  unfold encode. pose proof (decode_spec s) as Hd.
  destruct (format_iter_spec b) as (s' & ds' & Ee & Es' & [Hz' Hn'] & _). split.
  - intros E. rewrite E in Hd. destruct (digits_of s) as [ds|] eqn:Es; [|by destruct Hd as (? & ? & _)].
    destruct Hd as (b' & [= <-] & Hz & Hn). rewrite Ee. f_equal.
    assert (ds' = ds) as -> by (eapply (numeral_inj 58); [lia|by eapply digits_of_digits..|congruence|congruence]).
    by eapply digits_of_inj.
  - intros E. rewrite E in Ee. injection Ee as <-. rewrite Es' in Hd. destruct Hd as (b' & -> & Hz & Hn).
    f_equal. apply vals_inj, (numeral_inj 256); [lia|apply vals_digits..|congruence|congruence].
Qed.

#[local] Opaque sha256d.

Lemma decode_check_encode {bm : BuildMode} s b : decode_check s = Val b <-> encode_check b = Ret s.
Proof.
  change (encode_check b) with (encode (b ++ take 4 (sha256d b))). rewrite <- decode_encode.
  assert (forall x, length (take 4 (sha256d x)) = 4%nat) as H4 by (intros; by rewrite length_take, sha256d_length).
  unfold decode_check. destruct (decode s) as [ret| |]; [|done..]. split.
  - destruct (Nat.ltb_spec (length ret) 4); [done|]. case_match eqn:E; [done|].
    apply negb_false_iff, Z.eqb_eq in E. intros [= <-]. f_equal.
    apply le_combine_inj in E; [|rewrite H4, length_drop; lia]. rewrite <- E. symmetry. apply take_drop.
  - intros [= ->]. rewrite length_app, H4.
    rewrite (proj2 (Nat.ltb_ge _ 4)) by lia. replace (length b + 4 - 4)%nat with (length b) by lia.
    rewrite take_app_length, drop_app_length, Z.eqb_refl. reflexivity.
Qed.

Lemma encode_check_total b : exists s, encode_check b = Ret s.
Proof. destruct (format_iter_spec (b ++ take 4 (sha256d b))) as (s & ? & E & _). by exists s. Qed.

Lemma encode_check_length b s : encode_check b = Ret s -> (length s <= 2 * (length b + 4))%nat.
Proof.
  intros E. destruct (format_iter_spec (b ++ take 4 (sha256d b))) as (s' & ? & E' & _ & _ & Hl).
  unfold encode_check in E. rewrite E in E'. injection E' as <-.
  rewrite length_app, length_take, sha256d_length in Hl. exact Hl.
Qed.

Lemma decode_total {bm : BuildMode} s :
  decode s <> Crash /\ ((exists b, decode s = Val b) <-> Forall (fun c => c ∈ BASE58_CHARS) s).
Proof.
  assert (Forall (fun c => c ∈ BASE58_CHARS) s <-> is_Some (digits_of s)) as ->.
  { induction s as [|c s IH]; [split; [by eexists|constructor]|].
    rewrite Forall_cons_iff, IH. assert (c ∈ BASE58_CHARS <-> is_Some (digit_of c)) as ->.
    { split.
      - intros [i Hi]%list_elem_of_lookup. exists (Z.of_nat i). apply digit_of_char.
        apply lookup_lt_Some in Hi as Hl. change (length BASE58_CHARS) with 58%nat in Hl.
        rewrite Nat2Z.id. split; [lia|done].
      - intros [d [_ Hd]%digit_of_char]. by eapply list_elem_of_lookup_2. }
    cbn [digits_of]. unfold is_Some. destruct (digit_of c), (digits_of s); naive_solver. }
  pose proof (decode_spec s) as Hd. destruct (digits_of s) as [ds|].
  - destruct Hd as (b & -> & _). split; [done|]. split; [by eexists|]. intros _. by exists b.
  - destruct Hd as (c & -> & _). split; [done|]. split; [by intros [? ?]|by intros [? ?]].
Qed.

Lemma decode_check_no_panic {bm : BuildMode} s : decode_check s <> Crash.
Proof.
  unfold decode_check. pose proof (proj1 (decode_total s)).
  destruct (decode s); [|done..]. by repeat case_match.
Qed.

(** ** Main results *)

(** C33: base58.  Encoding never panics, decoding never panics and fails exactly on strings
    with a character outside the alphabet, and the two are inverse bijections: a string
    decodes to [b] if and only if it is the encoding of [b].  The same holds for the
    variants with a checksum. *)
Theorem base58_bijection {bm : BuildMode} (s b : list byte) :
  (exists s', encode b = Ret s') /\ (exists s', encode_check b = Ret s') /\
  decode s <> Crash /\ decode_check s <> Crash /\
  ((exists d, decode s = Val d) <-> Forall (fun c => c ∈ BASE58_CHARS) s) /\
  (decode s = Val b <-> encode b = Ret s) /\
  (decode_check s = Val b <-> encode_check b = Ret s).
Proof.
  destruct (decode_total s) as [Hc Ht]. split_and!; [| |done| |exact Ht|apply decode_encode|apply decode_check_encode].
  - destruct (format_iter_spec b) as (s' & ? & E & _). by exists s'.
  - apply encode_check_total.
  - apply decode_check_no_panic.
Qed.
