(* ===== verification/Keys.v ===== *)
(** * Keys ([crypto/key.rs]) and the fixed-capacity vector ([internals/src/array_vec.rs])

    Public keys remember whether they are serialised compressed; private keys have a text form,
    the wallet import format.  The curve is the class [SecpKeys], the functions of the [secp256k1]
    crate that are called here and by [Bip32]; what they are documented to do is [SecpKeysLaws]. *)

From Stdlib Require Import ZArith Lia.
From Stdlib Require Strings.String.
From coqutil Require Import Byte Word.LittleEndianList.
From stdpp Require Import base tactics option list numbers.
From S2P Require Import Prelude Io HashEngine Sha256 Ripemd160 Base58.
Import String.StringSyntax.

#[local] Open Scope Z_scope.

(** ** The curve *)

(** [SecretKey::from_slice], [SecretKey]'s bytes, [SecretKey::negate], [SecretKey::add_tweak],
    [PublicKey::from_slice], [serialize], [serialize_uncompressed], [PublicKey::from_secret_key],
    [PublicKey::add_exp_tweak] and [Scalar::from]. *)
Class SecpKeys := {
  SecretKey : Type;
  SecpPublicKey : Type;
  TweakScalar : Type;
  KeyError : Type;
  sk_from_slice : list byte -> Result KeyError SecretKey;
  sk_bytes : SecretKey -> list byte;
  sk_negate : SecretKey -> SecretKey;
  sk_add_tweak : SecretKey -> TweakScalar -> Result KeyError SecretKey;
  pk_from_slice : list byte -> Result KeyError SecpPublicKey;
  pk_serialize : SecpPublicKey -> list byte;
  pk_serialize_uncompressed : SecpPublicKey -> list byte;
  pk_from_secret_key : SecretKey -> SecpPublicKey;
  pk_add_exp_tweak : SecpPublicKey -> TweakScalar -> Result KeyError SecpPublicKey;
  scalar_from_sk : SecretKey -> TweakScalar;
}.

(** Keys have one serialised form of each kind, whose first byte tells the kind; parsing accepts
    them and, of the 33-byte strings and the 65-byte strings that start with 4, nothing else; the
    public key of a sum of secrets is the public key of the one, tweaked by the other. *)
Class SecpKeysLaws (S : SecpKeys) : Prop := {
  sk_bytes_length k : length (sk_bytes k) = 32%nat;
  sk_from_bytes k : sk_from_slice (sk_bytes k) = Ok k;
  sk_from_slice_bytes bs k : sk_from_slice bs = Ok k -> sk_bytes k = bs;
  pk_serialize_form k : exists b x, pk_serialize k = b :: x /\ length x = 32%nat /\
    (byte.unsigned b = 2 \/ byte.unsigned b = 3);
  pk_uncompressed_form k : exists x, pk_serialize_uncompressed k = byte.of_Z 4 :: x /\ length x = 64%nat;
  pk_from_serialize k : pk_from_slice (pk_serialize k) = Ok k;
  pk_from_uncompressed k : pk_from_slice (pk_serialize_uncompressed k) = Ok k;
  pk_serialize_from bs k : length bs = 33%nat -> pk_from_slice bs = Ok k -> pk_serialize k = bs;
  pk_uncompressed_from x k : length x = 64%nat -> pk_from_slice (byte.of_Z 4 :: x) = Ok k ->
    pk_serialize_uncompressed k = byte.of_Z 4 :: x;
  pk_of_sum k t : match sk_add_tweak t (scalar_from_sk k) with
    | Ok s => pk_add_exp_tweak (pk_from_secret_key k) (scalar_from_sk t) = Ok (pk_from_secret_key s)
    | Err _ => exists e, pk_add_exp_tweak (pk_from_secret_key k) (scalar_from_sk t) = Err e
    end;
}.

(** ** [ArrayVec<T, CAP>]

    The array is always [CAP] long; the elements from [len] on are not initialised. *)

Section array_vec.
Context {T : Type} (CAP : nat).

Record ArrayVec := mkArrayVec { av_len : nat; av_data : list (option T) }.

Definition av_new : ArrayVec := mkArrayVec 0 (replicate CAP None).

Definition av_from_slice (slice : list T) : run ArrayVec :=
  _ ← assert_ (length slice <=? CAP)%nat;
  Ret (mkArrayVec (length slice) (copy_at 0 (map Some slice) (replicate CAP None))).

(** Reading an element that is not initialised is undefined behaviour: a panic here. *)
Definition av_as_slice (self : ArrayVec) : run (list T) :=
  match mapM id (take (av_len self) (av_data self)) with
  | Some l => Ret l
  | None => Panic
  end.

Definition av_push (self : ArrayVec) (element : T) : run ArrayVec :=
  _ ← assert_ (av_len self <? CAP)%nat;
  Ret (mkArrayVec (av_len self + 1) (<[av_len self := Some element]> (av_data self))).

(** [self.data[self.len..].copy_from_slice(slice)] panics unless the lengths are equal. *)
Definition av_extend_from_slice (self : ArrayVec) (slice : list T) : run ArrayVec :=
  let new_len := (av_len self + length slice)%nat in
  _ ← assert_ (Z.of_nat new_len <? 2 ^ 64);
  _ ← assert_ (new_len <=? CAP)%nat;
  _ ← assert_ (length (drop (av_len self) (av_data self)) =? length slice)%nat;
  Ret (mkArrayVec new_len (copy_at (av_len self) (map Some slice) (av_data self))).
End array_vec.
Arguments mkArrayVec {T} _ _.
Arguments av_len {T} _.
Arguments av_data {T} _.

(** ** Public keys *)

Section keys.
Context {bm : BuildMode} {S : SecpKeys}.

Record PublicKey := mkPublicKey { compressed : bool; pk_inner : SecpPublicKey }.

Definition public_new (key : SecpPublicKey) : PublicKey := mkPublicKey true key.
Definition public_new_uncompressed (key : SecpPublicKey) : PublicKey := mkPublicKey false key.

Definition with_serialized {R} (self : PublicKey) (f : list byte -> R) : R :=
  if compressed self then f (pk_serialize (pk_inner self))
  else f (pk_serialize_uncompressed (pk_inner self)).

Definition pubkey_hash (self : PublicKey) : list byte := with_serialized self hash160.hash.

Inductive UncompressedPublicKeyError := mkUncompressedPublicKeyError.

Definition wpubkey_hash (self : PublicKey) : Result UncompressedPublicKeyError (list byte) :=
  if compressed self then Ok (hash160.hash (pk_serialize (pk_inner self)))
  else Err mkUncompressedPublicKeyError.

(** [write_into] appends to the writer; [to_bytes] writes into an empty vector. *)
Definition write_into (self : PublicKey) (writer : list byte) : list byte :=
  with_serialized self (fun bytes => writer ++ bytes).
Definition public_to_bytes (self : PublicKey) : list byte := write_into self [].

(** [SortKey(ArrayVec<u8, 65>)] *)
Definition to_sort_key (self : PublicKey) : run (@ArrayVec byte) :=
  if compressed self then av_from_slice 65 (pk_serialize (pk_inner self))
  else av_from_slice 65 (pk_serialize_uncompressed (pk_inner self)).

Inductive FromSliceError :=
| InvalidKeyPrefix (b : Z)
| FromSliceSecp (e : KeyError)
| InvalidLength (len : nat).

Definition public_from_slice (data : list byte) : comp FromSliceError PublicKey :=
  compressed ← (if (length data =? 33)%nat then Val true
                else if (length data =? 65)%nat then Val false
                else Throw (InvalidLength (length data)));
  first ← (if compressed then Val Byte.x04 else of_run (index data 0));
  if negb compressed && negb (byte.unsigned first =? 0x04)
  then Throw (InvalidKeyPrefix (byte.unsigned first)) else
  inner ← of_result (map_err FromSliceSecp (pk_from_slice data));
  Val (mkPublicKey compressed inner).

(** [io::Error]: the reader's, or [InvalidData] with the reason. *)
Inductive ReadKeyError := ReadIo (e : ErrorKind) | InvalidData (e : FromSliceError).

(** The first byte selects how many more are read. *)
Definition read_from `{Reader R} (reader : R) : comp ReadKeyError (PublicKey * R) :=
  '(b, reader) ← of_result (map_err ReadIo (read_exact reader 1));
  first ← of_run (index b 0);
  let len := if byte.unsigned first <? 4 then 33%nat else 65%nat in
  '(rest, reader) ← of_result (map_err ReadIo (read_exact reader (len - 1)));
  match public_from_slice (b ++ rest) with
  | Val key => Val (key, reader)
  | Throw e => Throw (InvalidData e)
  | Crash => Crash
  end.

(** [CompressedPublicKey] *)
Definition compressed_try_from (value : PublicKey) : Result UncompressedPublicKeyError SecpPublicKey :=
  if compressed value then Ok (pk_inner value) else Err mkUncompressedPublicKeyError.
Definition compressed_pubkey_hash (self : SecpPublicKey) : list byte := hash160.hash (pk_serialize self).
Definition compressed_from_slice (data : list byte) : Result KeyError SecpPublicKey := pk_from_slice data.

(** ** Private keys *)

Inductive NetworkKind := Main | Test.
#[export] Instance NetworkKind_eq_dec : EqDecision NetworkKind.
Proof. solve_decision. Defined.

Definition is_mainnet (self : NetworkKind) : bool := match self with Main => true | Test => false end.

Record PrivateKey := mkPrivateKey { private_compressed : bool; private_network : NetworkKind;
  private_inner : SecretKey }.

Definition private_new (key : SecretKey) (network : NetworkKind) : PrivateKey :=
  mkPrivateKey true network key.
Definition private_new_uncompressed (key : SecretKey) (network : NetworkKind) : PrivateKey :=
  mkPrivateKey false network key.
Definition public_key (self : PrivateKey) : PublicKey :=
  mkPublicKey (private_compressed self) (pk_from_secret_key (private_inner self)).
Definition private_to_bytes (self : PrivateKey) : list byte := sk_bytes (private_inner self).
Definition private_from_slice (data : list byte) (network : NetworkKind) : Result KeyError PrivateKey :=
  match sk_from_slice data with Ok k => Ok (private_new k network) | Err e => Err e end.
Definition negate (self : PrivateKey) : PrivateKey :=
  mkPrivateKey (private_compressed self) (private_network self) (sk_negate (private_inner self)).

(** [fmt_wif]: an array of 34 bytes, of which an uncompressed key uses 33.  [copy_from_slice]
    needs the 32 bytes of a secret key. *)
Definition fmt_wif (self : PrivateKey) : run (list byte) :=
  let ret := replicate 34 Byte.x00 in
  let ret := <[0%nat := byte.of_Z (if is_mainnet (private_network self) then 128 else 239)]> ret in
  _ ← assert_ (length (sk_bytes (private_inner self)) =? 32)%nat;
  let ret := copy_at 1 (sk_bytes (private_inner self)) ret in
  if private_compressed self
  then encode_check (<[33%nat := Byte.x01]> ret)
  else encode_check (take 33 ret).
Definition to_wif (self : PrivateKey) : run (list byte) := fmt_wif self.

Inductive FromWifError :=
| WifBase58 (e : Error)
| WifPayloadLength (length : nat)
| InvalidAddressVersion (invalid : Z)
| WifSecp (e : KeyError).

Definition from_wif (wif : list byte) : comp FromWifError PrivateKey :=
  match decode_check wif with
  | Crash => Crash
  | Throw e => Throw (WifBase58 e)
  | Val data =>
      compressed ← (if (length data =? 33)%nat then Val false
                    else if (length data =? 34)%nat then Val true
                    else Throw (WifPayloadLength (length data)));
      first ← of_run (index data 0);
      network ← (if byte.unsigned first =? 128 then Val Main
                 else if byte.unsigned first =? 239 then Val Test
                 else Throw (InvalidAddressVersion (byte.unsigned first)));
      inner ← of_result (map_err WifSecp (sk_from_slice (take 32 (drop 1 data))));
      Val (mkPrivateKey compressed network inner)
  end.
End keys.

(** ** The vector refines a list of bounded length *)

Section array_vec_proofs.
Context {T : Type} (CAP : nat).

Definition av_rep (v : @ArrayVec T) (l : list T) : Prop :=
  av_len v = length l /\ length (av_data v) = CAP /\ take (length l) (av_data v) = map Some l.

Lemma av_rep_bound v l : av_rep v l -> (length l <= CAP)%nat.
Proof.
  intros (_ & Hd & Ht). apply (f_equal length) in Ht. rewrite length_take, length_map, Hd in Ht. lia.
Qed.

Lemma mapM_id_Some (l : list T) : mapM id (map Some l) = Some l.
Proof. by apply (mapM_fmap_Some id Some). Qed.

(** The fixed-capacity vector of the crate stands for the list of its elements.  Reading it
    never touches an element that was not written; pushing appends, and panics exactly when the
    vector is full; [extend_from_slice] appends only when the slice fills the vector to its last
    element, and otherwise panics, also where there is room. *)
Lemma array_vec_refines_list (v : ArrayVec) (l s : list T) (x : T) (Hv : av_rep v l)
    (Hsize : Z.of_nat (length l + length s) < 2 ^ 64) :
  av_as_slice v = Ret l /\
  match av_push CAP v x with
  | Ret v' => (length l < CAP)%nat /\ av_rep v' (l ++ [x])
  | Panic => length l = CAP
  end /\
  match av_extend_from_slice CAP v s with
  | Ret v' => (length l + length s)%nat = CAP /\ av_rep v' (l ++ s)
  | Panic => (length l + length s)%nat <> CAP
  end.
Proof.
  pose proof (av_rep_bound v l Hv) as Hb. destruct Hv as (Hl & Hd & Ht). split_and!.
  - unfold av_as_slice. by rewrite Hl, Ht, mapM_id_Some.
  - unfold av_push, assert_. rewrite Hl. destruct (Nat.ltb_spec (length l) CAP); simpl; [|lia].
    split; [done|]. split_and!; simpl; [by rewrite length_app; simpl; lia|by rewrite length_insert|].
    rewrite length_app, map_app, Nat.add_1_r. cbn [map]. rewrite (take_S_r _ _ (Some x)).
    + rewrite take_insert_ge by lia. by rewrite Ht.
    + apply list_lookup_insert_eq. lia.
  - unfold av_extend_from_slice, assert_. rewrite Hl, length_drop, Hd.
    rewrite (proj2 (Z.ltb_lt _ _) Hsize). cbn [mbind run_bind].
    destruct (Nat.leb_spec (length l + length s) CAP); cbn [mbind run_bind]; [|lia].
    destruct (Nat.eqb_spec (CAP - length l) (length s)) as [E|E]; cbn [mbind run_bind]; [|lia].
    split; [lia|]. unfold copy_at, av_rep; cbn [av_len av_data].
    rewrite !length_app, !length_drop, !length_take, length_map, Hd. split_and!; [done|lia|].
    rewrite drop_ge by lia. rewrite app_nil_r, Ht, map_app. apply take_ge.
    rewrite length_app, !length_map. lia.
Qed.

Lemma av_from_slice_spec (l : list T) :
  match av_from_slice CAP l with
  | Ret v => av_rep v l
  | Panic => (CAP < length l)%nat
  end.
Proof.
  unfold av_from_slice, assert_. destruct (Nat.leb_spec (length l) CAP); simpl; [|lia].
  unfold av_rep, copy_at; cbn [av_len av_data].
  rewrite take_0, app_nil_l, length_app, length_map, drop_replicate, length_replicate.
  split_and!; [done|lia|]. apply take_app_length'. by rewrite length_map.
Qed.
End array_vec_proofs.

(** ** Public keys as bytes *)

Lemma index_head {A} (a : A) l : index (a :: l) 0 = Ret a.
Proof. done. Qed.

Section key_proofs.
Context {bm : BuildMode} {S : SecpKeys} {L : SecpKeysLaws S}.

Lemma pk_serialize_length k : length (pk_serialize k) = 33%nat.
Proof. destruct (pk_serialize_form k) as (b & x & -> & Hx & _). simpl. by rewrite Hx. Qed.

Lemma pk_uncompressed_length k : length (pk_serialize_uncompressed k) = 65%nat.
Proof. destruct (pk_uncompressed_form k) as (x & -> & Hx). simpl. by rewrite Hx. Qed.

Lemma public_to_bytes_eq k : public_to_bytes k =
  if compressed k then pk_serialize (pk_inner k) else pk_serialize_uncompressed (pk_inner k).
Proof. unfold public_to_bytes, write_into, with_serialized. by destruct (compressed k). Qed.

Lemma public_from_slice_iff data k : public_from_slice data = Val k <-> public_to_bytes k = data.
Proof.
  rewrite public_to_bytes_eq. unfold public_from_slice. split.
  - destruct (Nat.eqb_spec (length data) 33) as [E|]; cbn [mbind comp_bind negb andb].
    { destruct (pk_from_slice data) as [q|] eqn:Eq; [|done]. intros [= <-]. by apply pk_serialize_from. }
    destruct (Nat.eqb_spec (length data) 65) as [E|]; [|done].
    destruct data as [|b x]; [done|]. rewrite index_head. cbn [of_run mbind comp_bind andb negb].
    destruct (Z.eqb_spec (byte.unsigned b) 4) as [Eb|]; [cbn [negb]|done].
    assert (b = byte.of_Z 4) as -> by (by rewrite <- Eb, byte.of_Z_unsigned).
    destruct (pk_from_slice _) as [q|] eqn:Eq; [|done]. intros [= <-]. simpl in E.
    apply pk_uncompressed_from; [lia|done].
  - intros <-. destruct k as [[] q]; cbn [compressed pk_inner].
    + rewrite pk_serialize_length. cbn. by rewrite pk_from_serialize.
    + rewrite pk_uncompressed_length. cbn [Nat.eqb mbind comp_bind].
      pose proof (pk_from_uncompressed q) as Hq.
      destruct (pk_uncompressed_form q) as (x & E & _). rewrite E in Hq |- *.
      rewrite index_head. cbn [of_run mbind comp_bind andb negb].
      change (byte.unsigned (byte.of_Z 4) =? 4) with true. cbn [negb]. by rewrite Hq.
Qed.

Lemma public_from_slice_no_panic data : public_from_slice data <> Crash.
Proof.
  unfold public_from_slice. destruct (Nat.eqb_spec (length data) 33); cbn [mbind comp_bind negb andb].
  { by destruct (pk_from_slice data). }
  destruct (Nat.eqb_spec (length data) 65); [|done]. destruct data as [|b x]; [simpl in *; lia|].
  rewrite index_head. cbn [of_run mbind comp_bind andb negb].
  destruct (byte.unsigned b =? 4); [cbn [negb]|done]. by destruct (pk_from_slice _).
Qed.

Lemma public_bytes_length k : length (public_to_bytes k) =
  if byte.unsigned (hd Byte.x00 (public_to_bytes k)) <? 4 then 33%nat else 65%nat.
Proof.
  rewrite public_to_bytes_eq. destruct (compressed k).
  - destruct (pk_serialize_form (pk_inner k)) as (b & x & -> & Hx & Hb). cbn [hd length]. rewrite Hx.
    rewrite (proj2 (Z.ltb_lt _ _)) by lia. done.
  - destruct (pk_uncompressed_form (pk_inner k)) as (x & -> & Hx). cbn [hd length]. by rewrite Hx.
Qed.
End key_proofs.

Section key_claims.
Context {bm : BuildMode} {S : SecpKeys} {L : SecpKeysLaws S}.

(** What [read_from] does with the bytes the reader still has. *)
Lemma read_from_spec `{Reader R} (r : R) : reader_ok r ->
  match read_from r with
  | Val (k, r') => contents r = public_to_bytes k ++ contents r' /\ reader_ok r'
  | Throw _ => forall k rest, contents r <> public_to_bytes k ++ rest
  | Crash => False
  end.
Proof.
  intros Hok. unfold read_from. pose proof (read_exact_spec r 1 Hok) as H1.
  destruct (read_exact r 1) as [[b r1]|e]; cbn [map_err of_result mbind comp_bind].
  2:{ intros k rest E. rewrite E, length_app in H1. rewrite (public_bytes_length k) in H1.
      destruct (_ <? 4); lia. }
  destruct H1 as (Hl & -> & Hc1 & Hok1).
  destruct (contents r) as [|first cs] eqn:Ec; [simpl in Hl; lia|].
  change (take 1 (first :: cs)) with [first]. rewrite index_head. cbn [of_run mbind comp_bind].
  set (len := if byte.unsigned first <? 4 then 33%nat else 65%nat).
  assert (forall k rest, first :: cs = public_to_bytes k ++ rest -> length (public_to_bytes k) = len) as Hk.
  { intros k rest E. rewrite public_bytes_length. unfold len.
    pose proof (public_bytes_length k) as Hn. destruct (public_to_bytes k) as [|b x].
    - simpl in Hn. by destruct (_ <? 4).
    - injection E as -> _. done. }
  pose proof (read_exact_spec r1 (len - 1) Hok1) as H2. rewrite Hc1 in H2.
  change (drop 1 (first :: cs)) with cs in H2.
  assert (1 <= len)%nat by (unfold len; destruct (_ <? 4); lia).
  destruct (read_exact r1 (len - 1)) as [[rest r2]|e]; cbn [map_err of_result mbind comp_bind].
  2:{ intros k rest E. pose proof (Hk k rest E) as Hn. apply (f_equal length) in E.
      rewrite length_app, Hn in E. simpl in E. lia. }
  destruct H2 as (Hl2 & -> & Hc2 & Hok2).
  assert (first :: cs = ([first] ++ take (len - 1) cs) ++ contents r2) as Es
    by (rewrite Hc2; simpl; by rewrite take_drop).
  destruct (public_from_slice _) as [k|e|] eqn:Ek.
  - apply public_from_slice_iff in Ek. by rewrite Es, <- Ek.
  - intros k rest E. assert (public_to_bytes k = [first] ++ take (len - 1) cs) as Eb.
    { pose proof (Hk k rest E) as Hn. rewrite Es in E. apply app_inj_1 in E as [E _]; [done|].
      rewrite Hn, length_app, length_take. simpl. lia. }
    apply public_from_slice_iff in Eb. congruence.
  - by apply public_from_slice_no_panic in Ek.
Qed.

(** The byte form of public keys, in both builds.  [from_slice] accepts exactly the strings
    [to_bytes] produces, compressed or not, and returns the key that produced them; [read_from], on
    any reader, consumes exactly such a string from the front of what is left and fails when there
    is none.  Neither panics. *)
Lemma public_key_bytes_exact `{Reader R} (data : list byte) (k : PublicKey) (r : R) (Hr : reader_ok r) :
  (public_from_slice data = Val k <-> public_to_bytes k = data) /\
  public_from_slice data <> Crash /\
  match read_from r with
  | Val (k', r') => contents r = public_to_bytes k' ++ contents r' /\ reader_ok r'
  | Throw _ => forall k' rest, contents r <> public_to_bytes k' ++ rest
  | Crash => False
  end.
Proof.
  split; [apply public_from_slice_iff|]. split; [apply public_from_slice_no_panic|].
  by apply read_from_spec.
Qed.

(** ** Wallet import format *)

Definition wif_version (network : NetworkKind) : byte := byte.of_Z (if is_mainnet network then 128 else 239).

Lemma to_wif_eq k : to_wif k =
  encode_check (wif_version (private_network k) :: sk_bytes (private_inner k) ++
    if private_compressed k then [Byte.x01] else []).
Proof.
  pose proof (sk_bytes_length (private_inner k)) as Hl. unfold to_wif, fmt_wif, assert_.
  rewrite Hl. cbn [Nat.eqb mbind run_bind]. fold (wif_version (private_network k)).
  change (<[0%nat := ?v]> (replicate 34 Byte.x00)) with (v :: replicate 33 Byte.x00).
  unfold copy_at. rewrite Hl. cbn [take drop replicate app Nat.add firstn skipn].
  destruct (private_compressed k).
  - f_equal. change (<[33%nat := ?v]> (?a :: ?l)) with (a :: <[32%nat := v]> l). f_equal.
    rewrite insert_app_r_alt by lia. by rewrite Hl.
  - f_equal. change (take 33 (?a :: ?l)) with (a :: take 32 l). f_equal.
    rewrite app_nil_r. by rewrite take_app_length' by done.
Qed.

Lemma wif_version_inj b n : byte.unsigned b = byte.unsigned (wif_version n) -> b = wif_version n.
Proof. apply byte.unsigned_inj. Qed.

Lemma from_wif_iff s k : from_wif s = Val k <-> exists marker,
  length marker = (if private_compressed k then 1 else 0)%nat /\
  encode_check (wif_version (private_network k) :: sk_bytes (private_inner k) ++ marker) = Ret s.
Proof.
  unfold from_wif. setoid_rewrite <- decode_check_encode.
  destruct (decode_check s) as [data|e|]; [|by split; [|intros (? & _ & ?)]..]. split.
  - intros E. assert (exists c, (if (length data =? 33)%nat then Val false
                  else if (length data =? 34)%nat then Val true
                  else Throw (WifPayloadLength (length data))) = Val c /\
      length data = (if c then 34 else 33)%nat) as (c & Ec & Hl).
    { revert E. destruct (Nat.eqb_spec (length data) 33); [by eauto|].
      destruct (Nat.eqb_spec (length data) 34); [by eauto|done]. }
    rewrite Ec in E. cbn [mbind comp_bind] in E.
    destruct data as [|b data]; [by destruct c|]. rewrite index_head in E. cbn [of_run mbind comp_bind] in E.
    assert (exists n, (if byte.unsigned b =? 128 then Val Main else if byte.unsigned b =? 239 then Val Test
               else Throw (InvalidAddressVersion (byte.unsigned b))) = Val n /\ b = wif_version n) as (n & En & ->).
    { revert E. destruct (Z.eqb_spec (byte.unsigned b) 128) as [Eb|];
        [intros _; exists Main; split; [done|by apply (wif_version_inj b Main)]|].
      destruct (Z.eqb_spec (byte.unsigned b) 239) as [Eb|]; [|done].
      intros _; exists Test; split; [done|by apply (wif_version_inj b Test)]. }
    rewrite En in E. cbn [mbind comp_bind] in E. change (drop 1 (?a :: ?l)) with l in E.
    destruct (sk_from_slice (take 32 data)) as [sk|] eqn:Es; [|done].
    injection E as <-. cbn [private_compressed private_network private_inner].
    apply sk_from_slice_bytes in Es. rewrite Es. exists (drop 32 data). rewrite take_drop.
    split; [|done]. rewrite length_drop. simpl in Hl. destruct c; lia.
  - intros (marker & Hm & [= ->]). pose proof (sk_bytes_length (private_inner k)) as Hl.
    destruct k as [c n sk]; cbn [private_compressed private_network private_inner] in *.
    cbn [length]. rewrite length_app, Hl, Hm, index_head.
    assert (take 32 (drop 1 (wif_version n :: sk_bytes sk ++ marker)) = sk_bytes sk) as ->
      by (change (drop 1 (?a :: ?l)) with l; by apply take_app_length').
    rewrite sk_from_bytes. by destruct c, n.
Qed.

Lemma from_wif_no_panic s : from_wif s <> Crash.
Proof.
  unfold from_wif. pose proof (decode_check_no_panic s) as Hd. destruct (decode_check s) as [data|e|]; [|done..].
  destruct data as [|b data]; [done|]. rewrite index_head. cbn [of_run mbind comp_bind].
  destruct (length (b :: data) =? 33)%nat; [|destruct (length (b :: data) =? 34)%nat; [|done]];
    cbn [mbind comp_bind]; (destruct (byte.unsigned b =? 128); [|destruct (byte.unsigned b =? 239); [|done]]);
    cbn [mbind comp_bind]; by destruct (sk_from_slice _).
Qed.

(** Private keys as text, in both builds.  [from_wif] never panics, accepts exactly the
    base58check strings of a version byte, 32 bytes that are a secret key and at most one more byte,
    and returns that key, compressed when the last byte is there, whatever its value; so it inverts
    [to_wif], which writes the byte 1. *)
Lemma wif_exact (s : list byte) (k : PrivateKey) :
  (from_wif s = Val k <-> exists marker,
     length marker = (if private_compressed k then 1 else 0)%nat /\
     encode_check (wif_version (private_network k) :: sk_bytes (private_inner k) ++ marker) = Ret s) /\
  (to_wif k = Ret s -> from_wif s = Val k) /\ from_wif s <> Crash.
Proof.
  split; [apply from_wif_iff|]. split; [|apply from_wif_no_panic].
  intros Ht. apply from_wif_iff. rewrite to_wif_eq in Ht.
  exists (if private_compressed k then [Byte.x01] else []). by destruct (private_compressed k).
Qed.
End key_claims.

(** ** A group that satisfies the laws

    The integers modulo the order of the curve's group, with the generator 1. *)

Module ToyKeys.

Definition order : Z := 0xFFFFFFFFFFFFFFFFFFFFFFFFFFFFFFFEBAAEDCE6AF48A03BBFD25E8CD0364141.
Definition valid (z : Z) : bool := (0 <? z) && (z <? order).
Definition Key : Type := { z : Z | valid z = true }.

Lemma toy_key_eq (x y : Key) : `x = `y -> x = y.
Proof.
  destruct x as [x Hx], y as [y Hy]. simpl. intros ->. f_equal.
  apply Eqdep_dec.UIP_dec, bool_dec.
Qed.

Definition mk (z : Z) : Result unit Key :=
  match bool_dec (valid z) true with left H => Ok (exist _ z H) | right _ => Err tt end.

Lemma mk_ok z k : mk z = Ok k <-> `k = z.
Proof.
  unfold mk. destruct (bool_dec (valid z) true) as [H|H].
  - split; [by intros [= <-]|]. intros E. f_equal. by apply toy_key_eq.
  - split; [done|]. destruct k as [k Hk]. simpl. by intros ->.
Qed.

Definition bytes (k : Key) : list byte := to_be_bytes 32 (`k).
Definition of_bytes (bs : list byte) : Result unit Key :=
  if (length bs =? 32)%nat then mk (from_be_bytes bs) else Err tt.

Lemma of_bytes_iff bs k : of_bytes bs = Ok k <-> bytes k = bs.
Proof.
  unfold of_bytes, bytes. split.
  - destruct (Nat.eqb_spec (length bs) 32) as [Hl|]; [|done]. intros ->%mk_ok.
    unfold from_be_bytes, to_be_bytes. rewrite <- (rev_involutive bs) at 2. f_equal.
    rewrite <- Hl, <- length_rev. apply split_le_combine.
  - intros <-. rewrite to_be_bytes_length. cbn [Nat.eqb]. apply mk_ok.
    unfold from_be_bytes, to_be_bytes. rewrite rev_involutive, le_combine_split.
    destruct k as [k Hk]. simpl. unfold valid, order in Hk.
    apply andb_true_iff in Hk as [H0%Z.ltb_lt H1%Z.ltb_lt].
    symmetry. apply Z.mod_small. change (2 ^ (Z.of_nat 32 * 8)) with (2 ^ 256). lia.
Qed.

Definition add (a b : Key) : Result unit Key := mk ((`a + `b) mod order).

Definition point (bs : list byte) : Result unit Key :=
  match bs with
  | b :: x =>
      if (length x =? 32)%nat && (byte.unsigned b =? 2) then of_bytes x
      else if (length x =? 64)%nat && (byte.unsigned b =? 4) && bool_decide (take 32 x = drop 32 x)
      then of_bytes (take 32 x) else Err tt
  | [] => Err tt
  end.

#[export] Instance group : SecpKeys := {
  SecretKey := Key;
  SecpPublicKey := Key;
  TweakScalar := Key;
  KeyError := unit;
  sk_from_slice := of_bytes;
  sk_bytes := bytes;
  sk_negate k := match mk (order - `k) with Ok k => k | Err _ => k end;
  sk_add_tweak := add;
  pk_from_slice := point;
  pk_serialize k := byte.of_Z 2 :: bytes k;
  pk_serialize_uncompressed k := byte.of_Z 4 :: bytes k ++ bytes k;
  pk_from_secret_key k := k;
  pk_add_exp_tweak := add;
  scalar_from_sk k := k;
}.

Lemma bytes_length k : length (bytes k) = 32%nat.
Proof. apply to_be_bytes_length. Qed.

#[export] Instance group_laws : SecpKeysLaws group.
Proof.
  split; cbn [sk_from_slice sk_bytes pk_from_slice pk_serialize pk_serialize_uncompressed sk_add_tweak
    pk_add_exp_tweak pk_from_secret_key scalar_from_sk group].
  - apply bytes_length.
  - intros k. by apply of_bytes_iff.
  - intros bs k. by apply of_bytes_iff.
  - intros k. exists (byte.of_Z 2), (bytes k). rewrite bytes_length. auto.
  - intros k. exists (bytes k ++ bytes k). by rewrite length_app, bytes_length.
  - intros k. unfold point. rewrite bytes_length. by apply of_bytes_iff.
  - intros k. unfold point. rewrite length_app, bytes_length. cbn [Nat.add Nat.eqb andb].
    rewrite take_app_length', drop_app_length' by (symmetry; apply bytes_length).
    rewrite bool_decide_eq_true_2 by done. by apply of_bytes_iff.
  - intros bs k Hl. destruct bs as [|b x]; [done|]. simpl in Hl. unfold point.
    destruct (Nat.eqb_spec (length x) 32); [|lia]. destruct (Z.eqb_spec (byte.unsigned b) 2) as [Eb|].
    + cbn [andb]. intros <-%of_bytes_iff. f_equal. by rewrite <- Eb, byte.of_Z_unsigned.
    + cbn [andb]. destruct (Nat.eqb_spec (length x) 64); [lia|done].
  - intros x k Hl. unfold point. rewrite Hl. cbn [Nat.eqb andb].
    change (byte.unsigned (byte.of_Z 4) =? 4) with true.
    destruct (bool_decide_reflect (take 32 x = drop 32 x)) as [E|]; cbn [andb]; [|done].
    intros Hb%of_bytes_iff. rewrite Hb. f_equal. rewrite E at 2. apply take_drop.
  - intros k t. unfold add. rewrite (Z.add_comm (`t)). destruct (mk _) as [s|e]; [done|]. by exists e.
Qed.

Definition one : Key := exist _ 1 eq_refl.
Definition one_sk : @SecretKey group := one.
Definition one_pk : @SecpPublicKey group := one.
End ToyKeys.

(** ** Witnesses *)

Section key_witnesses.
#[local] Instance wit_mode : BuildMode := true.
Import ToyKeys.

Definition wif_example : list byte :=
  String.list_byte_of_string "KwDiBf89QgGbjEhKnhXJuH7LrciVrZi3qYjgd9M7rFU73sVHnoWn".

End key_witnesses.
