(* ===== verification/WitnessSpend.v ===== *)
(** * Witnesses of the common spends ([blockdata/witness.rs])

    The constructors of a witness from signatures, and what a witness says about a taproot
    spend: the leaf script, its version, the control block and the annex. *)

From Stdlib Require Import ZArith Lia.
From coqutil Require Import Byte.
From stdpp Require Import base tactics option list numbers.
From S2P Require Import Prelude Io Encode Witness Sha256t Taproot TapTree TapSpend Signatures Base58 Keys.

#[local] Open Scope Z_scope.

(** ** Constructors *)

Section constructors.
Context {SS : SecpSigs} {SK : SecpKeys}.

Definition p2wpkh_witness (signature : EcdsaSignature) (pubkey : SecpPublicKey) : run Witness.Witness :=
  let witness := Witness.new in
  sig ← ecdsa_serialize signature;
  bs ← deref sig;
  witness ← Witness.push_slice witness bs;
  Witness.push_slice witness (pk_serialize pubkey).

Definition p2tr_key_spend (signature : TaprootSignature) : run Witness.Witness :=
  let witness := Witness.new in
  sig ← tap_serialize signature;
  bs ← deref sig;
  Witness.push_slice witness bs.

Definition push_ecdsa_signature (self : Witness.Witness) (signature : EcdsaSignature) : run Witness.Witness :=
  sig ← ecdsa_serialize signature; bs ← deref sig; Witness.push_slice self bs.
End constructors.

(** ** Taproot spends *)

Section accessors.
Context {S : Secp256k1}.

Definition tapscript (self : Witness.Witness) : run (option (list byte)) :=
  spend ← Witness.from_witness self;
  Ret match spend with Some (Witness.Script leaf_script _ _) => Some leaf_script | _ => None end.

Record LeafScript := mkLeafScript { ls_version : LeafVersion; ls_script : list byte }.

(** [control_block[0]] and the constructor's [expect] can panic; its error is [None]. *)
Definition taproot_leaf_script (self : Witness.Witness) : run (option LeafScript) :=
  spend ← Witness.from_witness self;
  match spend with
  | Some (Witness.Script leaf_script control_block _) =>
      if (TAPROOT_CONTROL_BASE_SIZE <=? length control_block)%nat then
        b ← index control_block 0;
        match leaf_version_from_consensus (Z.land (byte.unsigned b) TAPROOT_LEAF_MASK) with
        | Val version => Ret (Some (mkLeafScript version leaf_script))
        | Throw _ => Ret None
        | Crash => Panic
        end
      else Ret None
  | _ => Ret None
  end.

Definition taproot_control_block (self : Witness.Witness) : run (option (list byte)) :=
  spend ← Witness.from_witness self;
  Ret match spend with Some (Witness.Script _ control_block _) => Some control_block | _ => None end.

Definition spend_annex (self : Witness.P2TrSpend) : option (list byte) :=
  match self with Witness.Key annex => annex | Witness.Script _ _ annex => annex end.
Definition taproot_annex (self : Witness.Witness) : run (option (list byte)) :=
  spend ← Witness.from_witness self;
  Ret match spend with Some spend => spend_annex spend | None => None end.

Definition witness_script (self : Witness.Witness) : run (option (list byte)) := Witness.last self.

(** [self[index]]: [expect] on the element. *)
Definition witness_index (self : Witness.Witness) (i : Z) : run (list byte) := Witness.expect (Witness.nth self i).
End accessors.

(** ** BIP-341 *)

(** With at least two elements, a last one that starts with 0x50 is the annex and is removed. *)
Definition split_annex (l : list (list byte)) : list (list byte) * option (list byte) :=
  match rev l with
  | a :: (_ :: _) as r => if Witness.starts_with Witness.TAPROOT_ANNEX_PREFIX a then (rev r, Some a) else (l, None)
  | _ => (l, None)
  end.

(** One element is left for a key path spend; otherwise the last is the control block and the one
    before it the script. *)
Definition bip341_spend (l : list (list byte)) : option Witness.P2TrSpend :=
  let '(stack, annex) := split_annex l in
  match rev stack with
  | [] => None
  | [_] => Some (Witness.Key annex)
  | control_block :: script :: _ => Some (Witness.Script script control_block annex)
  end.

Lemma from_end l k : Witness.stack_ok l -> (0 < k <= length l)%nat ->
  Witness.nth (Witness.witness_of l) (Z.of_nat (length l) - Z.of_nat k) = Ret (rev l !! (k - 1)%nat).
Proof.
  intros Hl Hk. replace (Z.of_nat (length l) - Z.of_nat k) with (Z.of_nat (length l - k)) by lia.
  rewrite Witness.nth_spec by done. f_equal. rewrite rev_alt. fold (reverse l).
  rewrite reverse_lookup by lia. f_equal. lia.
Qed.

(** The taproot view of a witness is that of BIP-341, for every stack. *)
Lemma from_witness_spec l : Witness.stack_ok l ->
  Witness.from_witness (Witness.witness_of l) = Ret (bip341_spend l).
Proof.
  intros Hl. pose proof (from_end l) as Hend. unfold Witness.from_witness, Witness.last, Witness.second_to_last, Witness.third_to_last,
    Witness.expect, bip341_spend, split_annex. change (Witness.witness_elements (Witness.witness_of l)) with (Z.of_nat (length l)).
  pose proof (length_rev l) as Hlen. destruct (rev l) as [|a [|b r]] eqn:Er; cbn [length] in Hlen.
  - rewrite <- Hlen. by rewrite Er.
  - rewrite <- Hlen. by rewrite Er.
  - rewrite !(proj2 (Z.eqb_neq _ _)) by lia. rewrite (proj2 (Z.leb_gt _ 1)) by lia.
    pose proof (Hend 1%nat Hl ltac:(lia)) as H1. pose proof (Hend 2%nat Hl ltac:(lia)) as H2.
    change (Z.of_nat 1) with 1 in H1. change (Z.of_nat 2) with 2 in H2. rewrite H1, H2, !bind_Ret. cbn [lookup list_lookup Nat.sub]. rewrite !bind_Ret.
    destruct (Witness.starts_with _ a); [|by rewrite Er].
    rewrite rev_involutive. destruct r as [|c r]; cbn [length] in Hlen.
    + by rewrite <- Hlen.
    + rewrite (proj2 (Z.eqb_neq _ 2)), (proj2 (Z.leb_gt _ 2)) by lia.
      pose proof (Hend 3%nat Hl ltac:(lia)) as H3. change (Z.of_nat 3) with 3 in H3. by rewrite H3.
Qed.

(** What the accessors return. *)
Section accessor_proofs.
Context {S : Secp256k1} {HS : Secp256k1Laws S}.

Lemma accessors_spec l : Witness.stack_ok l -> let w := Witness.witness_of l in
  tapscript w = Ret match bip341_spend l with Some (Witness.Script s _ _) => Some s | _ => None end /\
  taproot_control_block w = Ret match bip341_spend l with Some (Witness.Script _ c _) => Some c | _ => None end /\
  taproot_annex w = Ret (snd (split_annex l)) /\
  witness_script w = Ret (head (rev l)) /\
  forall i, witness_index w (Z.of_nat i) = match l !! i with Some x => Ret x | None => Panic end.
Proof.
  intros Hl w. unfold w, tapscript, taproot_control_block, taproot_annex, witness_index. rewrite from_witness_spec by done.
  split_and!; try done.
  - rewrite bind_Ret. f_equal. unfold bip341_spend. destruct (split_annex l) as [stack annex] eqn:E. cbn [snd].
    destruct (rev stack) as [|a [|b r]] eqn:Er; try done. unfold split_annex in E.
    destruct (rev l) as [|a [|b r]]; [by injection E..|]. destruct (Witness.starts_with _ a); [|by injection E].
    injection E as <- <-. by rewrite rev_app_distr in Er.
  - unfold witness_script, Witness.last. change (Witness.witness_elements (Witness.witness_of l)) with (Z.of_nat (length l)).
    destruct (Z.eqb_spec (Z.of_nat (length l)) 0) as [E|E]; [by destruct l|].
    pose proof (from_end l 1 Hl ltac:(lia)) as H1. change (Z.of_nat 1) with 1 in H1. rewrite H1. by destruct (rev l).
  - intros i. unfold Witness.expect. by rewrite Witness.nth_spec, bind_Ret by done.
Qed.

(** A script path spend: the script and its control block, after any arguments and before an
    annex if there is one, are found again with the version the control block carries. *)
Lemma script_path_found args script cb annex :
  control_block_wf cb -> from_option (Witness.starts_with Witness.TAPROOT_ANNEX_PREFIX) true annex = true ->
  (annex = None -> Witness.starts_with Witness.TAPROOT_ANNEX_PREFIX (control_block_serialize cb) = false) ->
  let l := args ++ [script; control_block_serialize cb] ++ from_option (fun a => [a]) [] annex in
  Witness.stack_ok l ->
  taproot_leaf_script (Witness.witness_of l) = Ret (Some (mkLeafScript (leaf_version cb) script)) /\
  taproot_control_block (Witness.witness_of l) = Ret (Some (control_block_serialize cb)) /\
  taproot_annex (Witness.witness_of l) = Ret annex.
Proof.
  intros Hcb Ha Hno l Hl.
  assert (split_annex l = (args ++ [script; control_block_serialize cb], annex)) as Es.
  { unfold split_annex, l. rewrite !rev_app_distr. destruct annex as [a|]; cbn [from_option rev app] in *.
    - rewrite Ha. cbn [rev]. by rewrite rev_involutive, <- !app_assoc.
    - rewrite (Hno eq_refl). done. }
  assert (bip341_spend l = Some (Witness.Script script (control_block_serialize cb) annex)) as Eb.
  { unfold bip341_spend. by rewrite Es, rev_app_distr. }
  destruct (accessors_spec l Hl) as (_ & H2 & H3 & _). rewrite H2, H3, Eb, Es. split; [|done].
  unfold taproot_leaf_script. rewrite from_witness_spec, Eb, bind_Ret by done.
  rewrite control_block_serialize_length by done. unfold control_block_size.
  rewrite (proj2 (Nat.leb_le _ _)) by (unfold TAPROOT_CONTROL_BASE_SIZE; lia).
  rewrite control_block_serialize_eq. change (index (?b :: ?x) 0) with (Ret b). rewrite bind_Ret.
  destruct Hcb as (Hv & _). destruct (first_byte (cb_parity cb) _ Hv) as [_ H]. unfold TAPROOT_LEAF_MASK. rewrite H.
  by rewrite (proj2 (leaf_version_decode _ (leaf_version cb) (leaf_version_range _ Hv))).
Qed.
End accessor_proofs.

(** The constructors push exactly the serialised signature and key. *)
Section constructor_proofs.
Context {SS : SecpSigs} {LS : SecpSigsLaws SS} {SK : SecpKeys} {LK : SecpKeysLaws SK}.

Lemma small_stack_ok l : Z.of_nat (length l) <= 2 -> Forall (fun x => Z.of_nat (length x) <= 100) l -> Witness.stack_ok l.
Proof.
  intros Hl Hf. assert (Z.of_nat (length (Witness.items l)) <= 109 * Z.of_nat (length l)) as Hi.
  { clear Hl. induction Hf as [|x l Hx _ IH]; [done|]. rewrite Witness.items_cons, length_app. cbn [length].
    pose proof (Witness.item_length x ltac:(lia)). pose proof (Witness.varint_size_pos (Z.of_nat (length x))). lia. }
  unfold Witness.stack_ok. lia.
Qed.

Lemma push_ecdsa_signature_spec l s : Witness.stack_ok (l ++ [ecdsa_to_vec s]) ->
  push_ecdsa_signature (Witness.witness_of l) s = Ret (Witness.witness_of (l ++ [ecdsa_to_vec s])).
Proof.
  intros Hl. unfold push_ecdsa_signature. destruct (ecdsa_serialize_eq s) as (z & -> & D). rewrite bind_Ret, D, bind_Ret.
  by apply Witness.push_slice_spec.
Qed.

Lemma ecdsa_vec_short s : Z.of_nat (length (ecdsa_to_vec s)) <= 73.
Proof. unfold ecdsa_to_vec. rewrite length_app. pose proof (der_length (ecdsa_sig s)). cbn [length]. lia. Qed.

Lemma p2wpkh_witness_spec s k :
  p2wpkh_witness s k = Ret (Witness.witness_of [ecdsa_to_vec s; pk_serialize k]).
Proof.
  unfold p2wpkh_witness. destruct (ecdsa_serialize_eq s) as (z & -> & D). rewrite bind_Ret, D, bind_Ret.
  pose proof (ecdsa_vec_short s). pose proof (pk_serialize_length k) as Hk.
  change Witness.new with (Witness.witness_of []). rewrite Witness.push_slice_spec.
  - rewrite bind_Ret. cbn [app]. apply (Witness.push_slice_spec [ecdsa_to_vec s]). apply small_stack_ok; [cbn; lia|].
    repeat constructor; lia.
  - apply small_stack_ok; [cbn; lia|]. repeat constructor; lia.
Qed.

Lemma p2tr_key_spend_spec s : p2tr_key_spend s = Ret (Witness.witness_of [tap_to_vec s]).
Proof.
  unfold p2tr_key_spend. destruct (tap_serialize_eq s) as (z & -> & D). rewrite bind_Ret, D, bind_Ret.
  change Witness.new with (Witness.witness_of []). apply (Witness.push_slice_spec []). apply small_stack_ok; [cbn; lia|].
  repeat constructor. unfold tap_to_vec. pose proof (schnorr_length (tap_sig s)). case_bool_decide; rewrite ?length_app; cbn [length]; lia.
Qed.
End constructor_proofs.
