(* ===== verification/DerivationPath.v ===== *)
(** * Derivation paths ([bip32.rs])

    Child numbers, the paths made of them, their text and the iterator over the children of a
    path.  A [&str] is the list of its characters, as in [Amount]. *)

From Stdlib Require Import ZArith Lia.
From Stdlib Require Strings.String.
From coqutil Require Import Byte.
From stdpp Require Import base tactics option list numbers.
From S2P Require Import Prelude Amount AmountText.
Import String.StringSyntax.

#[local] Open Scope Z_scope.

(** [bip32::Error]; [K] is [secp256k1::Error], [B] is [base58::Error].  The variants that nothing in
    the crate constructs are left out. *)
Inductive Bip32Error (K B : Type) :=
| CannotDeriveFromHardenedKey
| MaximumDepthExceeded
| Bip32Secp (e : K)
| InvalidChildNumber (n : Z)
| InvalidChildNumberFormat
| UnknownVersion (bytes : list byte)
| WrongExtendedKeyLength (len : nat)
| Bip32Base58 (e : B)
| Bip32PayloadLength (length : nat).
Arguments CannotDeriveFromHardenedKey {K B}.
Arguments MaximumDepthExceeded {K B}.
Arguments Bip32Secp {K B} e.
Arguments InvalidChildNumber {K B} n.
Arguments InvalidChildNumberFormat {K B}.
Arguments UnknownVersion {K B} bytes.
Arguments WrongExtendedKeyLength {K B} len.
Arguments Bip32Base58 {K B} e.
Arguments Bip32PayloadLength {K B} length.

(** ** Child numbers *)

Inductive ChildNumber := Normal (index : Z) | Hardened (index : Z).
#[export] Instance ChildNumber_eq_dec : EqDecision ChildNumber.
Proof. solve_decision. Defined.

Section paths.
Context {bm : BuildMode} {K B : Type}.
Abbreviation Error := (Bip32Error K B).

Definition HARDENED_BIT : Z := Z.shiftl 1 31.

Definition from_normal_idx (index : Z) : Result Error ChildNumber :=
  if Z.land index HARDENED_BIT =? 0 then Ok (Normal index) else Err (InvalidChildNumber index).
Definition from_hardened_idx (index : Z) : Result Error ChildNumber :=
  if Z.land index HARDENED_BIT =? 0 then Ok (Hardened index) else Err (InvalidChildNumber index).
Definition is_hardened (self : ChildNumber) : bool :=
  match self with Hardened _ => true | Normal _ => false end.
Definition is_normal (self : ChildNumber) : bool := negb (is_hardened self).

Definition increment (self : ChildNumber) : comp Error ChildNumber :=
  match self with
  | Normal idx => idx ← of_run (arith_u 32 (idx + 1)); of_result (from_normal_idx idx)
  | Hardened idx => idx ← of_run (arith_u 32 (idx + 1)); of_result (from_hardened_idx idx)
  end.

Definition child_from_u32 (number : Z) : ChildNumber :=
  if negb (Z.land number HARDENED_BIT =? 0) then Hardened (Z.lxor number HARDENED_BIT) else Normal number.
Definition u32_from_child (cnum : ChildNumber) : Z :=
  match cnum with
  | Normal index => index
  | Hardened index => Z.lor index HARDENED_BIT
  end.

Definition QUOTE : Z := 0x27.
Definition LETTER_H : Z := 0x68.
Definition SLASH : Z := 0x2f.
Definition LETTER_M : Z := 0x6d.

(** [Display]; [alternate] is the formatter's flag. *)
Definition display_child (alternate : bool) (self : ChildNumber) : str :=
  match self with
  | Hardened index => display_u64 index ++ [if alternate then LETTER_H else QUOTE]
  | Normal index => display_u64 index
  end.

(** [s.parse::<u32>()]; every error is [None].  A sign alone is no number, and a minus sign is not a
    digit of an unsigned type. *)
Definition parse_u32 (s : str) : option Z :=
  let checked s := v ← digits_value s 0; if in_ub 32 v then Some v else None in
  match s with
  | [] => None
  | c :: rest => if c =? PLUS then match rest with [] => None | _ => checked rest end else checked s
  end.

Definition child_from_str (inp : str) : comp Error ChildNumber :=
  let hardened := match head (rev inp) with Some l => (l =? QUOTE) || (l =? LETTER_H) | None => false end in
  if hardened then
    inp ← of_run (slice_to inp (str_len inp - 1));
    n ← of_result (ok_or (parse_u32 inp) InvalidChildNumberFormat);
    of_result (from_hardened_idx n)
  else
    n ← of_result (ok_or (parse_u32 inp) InvalidChildNumberFormat);
    of_result (from_normal_idx n).

(** ** Paths *)

Definition DerivationPath : Type := list ChildNumber.

(** [str::split] on a character and [str::strip_prefix]. *)
Fixpoint split (c : Z) (s : str) : list str :=
  match s with
  | [] => [[]]
  | d :: s =>
      if d =? c then [] :: split c s
      else match split c s with
           | [] => [[d]]
           | p :: ps => (d :: p) :: ps
           end
  end.
Fixpoint strip_prefix (p s : str) : option str :=
  match p, s with
  | [], _ => Some s
  | a :: p, b :: s => if a =? b then strip_prefix p s else None
  | _, [] => None
  end.

(** [parts.map(str::parse).collect()]: the first error ends it. *)
Fixpoint collect_children (parts : list str) : comp Error (list ChildNumber) :=
  match parts with
  | [] => Val []
  | p :: parts => c ← child_from_str p; cs ← collect_children parts; Val (c :: cs)
  end.

Definition path_from_str (path : str) : comp Error DerivationPath :=
  if bool_decide (path = []) || bool_decide (path = [LETTER_M]) || bool_decide (path = [LETTER_M; SLASH])
  then Val []
  else
    let path := match strip_prefix [LETTER_M; SLASH] path with Some p => p | None => path end in
    collect_children (split SLASH path).

(** [Display]: elements are written without the formatter's flags. *)
Definition display_path (self : DerivationPath) : str :=
  match self with
  | [] => []
  | first_element :: iter =>
      fold_left (fun f cn => f ++ [SLASH] ++ display_child false cn) iter
        (display_child false first_element)
  end.

Definition path_child (self : DerivationPath) (cn : ChildNumber) : DerivationPath := self ++ [cn].
Definition path_extend (self path : DerivationPath) : DerivationPath := self ++ path.
Definition to_u32_vec (self : DerivationPath) : list Z := map u32_from_child self.

(** ** Iterating over children *)

Record DerivationPathIterator := mkIter { it_base : DerivationPath; next_child : option ChildNumber }.

Definition start_from (path : DerivationPath) (start : ChildNumber) : DerivationPathIterator :=
  mkIter path (Some start).
Definition normal_children (self : DerivationPath) : DerivationPathIterator := start_from self (Normal 0).
Definition hardened_children (self : DerivationPath) : DerivationPathIterator :=
  start_from self (Hardened 0).

Definition iter_next (self : DerivationPathIterator) :
    run (option DerivationPath * DerivationPathIterator) :=
  match next_child self with
  | None => Ret (None, self)
  | Some ret =>
      match increment ret with
      | Crash => Panic
      | Val c => Ret (Some (path_child (it_base self) ret), mkIter (it_base self) (Some c))
      | Throw _ => Ret (Some (path_child (it_base self) ret), mkIter (it_base self) None)
      end
  end.
End paths.

Module path_tests.
#[local] Instance path_mode : BuildMode := true.
Example parse_path : path_from_str (K := unit) (B := unit) (chars "m/84'/0h/+07") =
  Val [Hardened 84; Hardened 0; Normal 7].
Proof. vm_compute. reflexivity. Qed.
Example parse_bad : path_from_str (K := unit) (B := unit) (chars "2147483648") =
  Throw (InvalidChildNumber 2147483648) /\
  path_from_str (K := unit) (B := unit) (chars "4/m/5") = Throw InvalidChildNumberFormat.
Proof. vm_compute. done. Qed.
Example show_path : display_path [Hardened 84; Normal 7] = chars "84'/7".
Proof. vm_compute. reflexivity. Qed.
End path_tests.

(** ** Child numbers as integers *)

Definition child_index (c : ChildNumber) : Z := match c with Normal i | Hardened i => i end.
Definition child_wf (c : ChildNumber) : Prop := 0 <= child_index c < 2 ^ 31.

Lemma hardened_bit n : in_u 32 n -> Z.land n HARDENED_BIT = if n <? 2 ^ 31 then 0 else 2 ^ 31.
Proof.
  intros Hn. unfold in_u in Hn. change HARDENED_BIT with (2 ^ 31).
  rewrite land_pow2, testbit_top by lia.
  destruct (Z.leb_spec (2 ^ 31) n), (Z.ltb_spec n (2 ^ 31)); (done || lia).
Qed.

Section child.
Context {bm : BuildMode} {K B : Type}.

Lemma from_idx_spec n : in_u 32 n ->
  from_normal_idx (K := K) (B := B) n =
    (if n <? 2 ^ 31 then Ok (Normal n) else Err (InvalidChildNumber n)) /\
  from_hardened_idx (K := K) (B := B) n =
    (if n <? 2 ^ 31 then Ok (Hardened n) else Err (InvalidChildNumber n)).
Proof.
  intros Hn. unfold from_normal_idx, from_hardened_idx. rewrite hardened_bit by done.
  by destruct (n <? 2 ^ 31).
Qed.

Lemma u32_of_wf c : child_wf c ->
  u32_from_child c = child_index c + (if is_hardened c then 2 ^ 31 else 0).
Proof.
  destruct c as [i|i]; unfold child_wf; cbn [child_index is_hardened u32_from_child]; intros Hi; [lia|].
  change HARDENED_BIT with (2 ^ 31). rewrite <- Z.add_nocarry_lor; [done|].
  change (2 ^ 31) with HARDENED_BIT. rewrite hardened_bit by (unfold in_u; lia).
  by rewrite (proj2 (Z.ltb_lt _ _)) by lia.
Qed.

Lemma child_u32_roundtrip c : child_wf c -> in_u 32 (u32_from_child c) /\ child_from_u32 (u32_from_child c) = c.
Proof.
  intros Hc. rewrite u32_of_wf by done. unfold child_wf in Hc.
  assert (in_u 32 (child_index c + (if is_hardened c then 2 ^ 31 else 0))) as Hu
    by (unfold in_u; destruct (is_hardened c); lia).
  split; [done|]. unfold child_from_u32. rewrite hardened_bit by done.
  destruct c as [i|i]; cbn [child_index is_hardened] in *.
  - rewrite (proj2 (Z.ltb_lt _ _)) by lia. change (2 ^ 31 =? 0) with false; change (0 =? 0) with true; cbn [negb]. f_equal. lia.
  - rewrite (proj2 (Z.ltb_ge _ _)) by lia. change (2 ^ 31 =? 0) with false; change (0 =? 0) with true; cbn [negb]. f_equal.
    rewrite Z.add_nocarry_lxor.
    + change HARDENED_BIT with (2 ^ 31). by rewrite Z.lxor_assoc, Z.lxor_nilpotent, Z.lxor_0_r.
    + change (2 ^ 31) with HARDENED_BIT. rewrite hardened_bit by (unfold in_u; lia).
      by rewrite (proj2 (Z.ltb_lt _ _)) by lia.
Qed.

Lemma u32_child_roundtrip n : in_u 32 n -> child_wf (child_from_u32 n) /\ u32_from_child (child_from_u32 n) = n.
Proof.
  intros Hn. unfold child_from_u32. rewrite hardened_bit by done. unfold in_u in Hn.
  destruct (Z.ltb_spec n (2 ^ 31)) as [Hl|Hl]; change (2 ^ 31 =? 0) with false; change (0 =? 0) with true; cbn [negb].
  - split; [unfold child_wf; cbn [child_index]; lia|done].
  - set (m := n - 2 ^ 31). assert (Z.land m HARDENED_BIT = 0) as Hm.
    { rewrite hardened_bit by (unfold in_u, m; lia). by rewrite (proj2 (Z.ltb_lt _ _)) by (unfold m; lia). }
    replace n with (m + HARDENED_BIT) by (unfold m; change HARDENED_BIT with (2 ^ 31); lia).
    rewrite (Z.add_nocarry_lxor m) by done. rewrite Z.lxor_assoc, Z.lxor_nilpotent, Z.lxor_0_r.
    split; [unfold child_wf; cbn [child_index]; unfold m; lia|]. cbn [u32_from_child].
    rewrite <- Z.add_nocarry_lor by done. by rewrite Z.add_nocarry_lxor.
Qed.

(** ** Numerals *)

Lemma digits_value_spec s : forall a, digits_value s a =
  if forallb is_digit s then Some (dval_from a s) else None.
Proof.
  induction s as [|c s IH]; intros a; [done|]. cbn [digits_value forallb]. destruct (is_digit c); [|done].
  rewrite IH. cbn [andb]. done.
Qed.

(** What [parse::<u32>] reads: an optional plus sign and digits. *)
Definition reads_u32 (s : str) (n : Z) : Prop :=
  exists sign ds, s = sign ++ ds /\ (sign = [] \/ sign = [PLUS]) /\ digits ds /\ ds <> [] /\ dval ds = n /\ in_u 32 n.

Lemma parse_u32_iff s n : parse_u32 s = Some n <-> reads_u32 s n.
Proof.
  assert (forall s, (v ← digits_value s 0; if in_ub 32 v then Some v else None) = Some n <->
    digits s /\ dval s = n /\ in_u 32 n) as Hc.
  { intros t. rewrite digits_value_spec. unfold digits, dval. destruct (forallb is_digit t); simpl; [|naive_solver].
    destruct (in_ub 32 (dval_from 0 t)) eqn:E.
    - apply in_ub_spec in E. split; [intros [= <-]; done|by intros (_ & <- & _)].
    - split; [done|]. intros (_ & <- & H). apply in_ub_spec in H. congruence. }
  unfold parse_u32, reads_u32. destruct s as [|c rest].
  { split; [done|]. intros (sign & ds & E & _ & _ & Hne & _). symmetry in E. apply app_eq_nil in E as [_ ?]. done. }
  destruct (Z.eqb_spec c PLUS) as [->|Hne].
  - assert (digits_value (PLUS :: rest) 0 = None) as Hplus by reflexivity.
    destruct rest as [|d rest].
    + split; [done|]. intros (sign & ds & E & [->| ->] & Hd & Hne & _); [|by injection E as <-].
      simpl in E. subst ds. done.
    + rewrite Hc. split.
      * intros (Hd & Hv & Hu). exists [PLUS], (d :: rest). auto 8.
      * intros (sign & ds & E & [->| ->] & Hd & _ & Hv & Hu); [|by injection E as <-].
        simpl in E. subst ds. done.
  - rewrite Hc. split.
    + intros (Hd & Hv & Hu). exists [], (c :: rest). auto 8.
    + intros (sign & ds & E & [->| ->] & Hd & _ & Hv & Hu); [by simpl in E; subst ds|].
      injection E as -> _. done.
Qed.

Lemma display_reads n : in_u 32 n -> reads_u32 (display_u64 n) n.
Proof.
  intros Hn. destruct (display_u64_spec n) as (Hd & Hv & Hne & _); [unfold in_u in *; lia|].
  exists [], (display_u64 n). auto 8.
Qed.
End child.

(** ** Text of child numbers and paths *)

(** The text of a child number: a numeral, with a mark after it for a hardened one. *)
Definition reads_child (s : str) (c : ChildNumber) : Prop :=
  exists num mark, s = num ++ mark /\ reads_u32 num (child_index c) /\ child_wf c /\
    if is_hardened c then mark = [QUOTE] \/ mark = [LETTER_H] else mark = [].

(** The text of a path: nothing, [m] or [m/] for the empty one; otherwise the texts of its
    elements with slashes between them, after [m/] or not. *)
Definition join (parts : list str) : str :=
  match parts with [] => [] | p :: ps => p ++ concat (map (cons SLASH) ps) end.
Definition reads_path (s : str) (p : DerivationPath) : Prop :=
  match p with
  | [] => s = [] \/ s = [LETTER_M] \/ s = [LETTER_M; SLASH]
  | _ => exists parts, Forall2 reads_child parts p /\ (s = join parts \/ s = LETTER_M :: SLASH :: join parts)
  end.

Lemma reads_u32_last s n c : reads_u32 s n -> head (rev s) = Some c -> is_digit c = true.
Proof.
  intros (sign & ds & -> & _ & Hd & Hne & _). rewrite rev_app_distr.
  destruct ds as [|d ds] using rev_ind; [done|]. clear IHds. rewrite rev_app_distr. intros [= <-].
  apply digits_app in Hd as [_ Hd]. by apply digits_cons in Hd as [? _].
Qed.

Lemma reads_u32_chars s n : reads_u32 s n -> Forall (fun c => is_digit c = true \/ c = PLUS) s.
Proof.
  intros (sign & ds & -> & Hs & Hd & _). apply Forall_app. split.
  - destruct Hs as [->| ->]; [done|]. apply Forall_singleton. by right.
  - apply List.Forall_forall. intros c Hc. left. unfold digits in Hd.
    rewrite forallb_forall in Hd. auto.
Qed.

Section text.
Context {bm : BuildMode} {K B : Type}.

Lemma split_at_last (s : str) c : c < 0x80 -> slice_to (s ++ [c]) (str_len (s ++ [c]) - 1) = Ret s.
Proof.
  intros Hc. unfold slice_to. rewrite str_len_app. cbn [str_len]. unfold len_utf8.
  rewrite (proj2 (Z.ltb_lt _ _) Hc). replace (str_len s + (1 + 0) - 1) with (str_len s) by lia.
  by rewrite split_at_app.
Qed.

Lemma parse_index (hardened : bool) num c :
  (n ← of_result (ok_or (parse_u32 num) InvalidChildNumberFormat);
   of_result (if hardened then from_hardened_idx (K := K) (B := B) n else from_normal_idx n)) = Val c <->
  reads_u32 num (child_index c) /\ child_wf c /\ is_hardened c = hardened.
Proof.
  split.
  - destruct (parse_u32 num) as [n|] eqn:En; [|done]. apply parse_u32_iff in En. cbn.
    assert (in_u 32 n) as Hu by (by destruct En as (? & ? & ? & ? & ? & ? & ? & ?)).
    rewrite (proj1 (from_idx_spec n Hu)), (proj2 (from_idx_spec n Hu)).
    destruct (Z.ltb_spec n (2 ^ 31)); [|by destruct hardened]. unfold child_wf, in_u in *.
    destruct hardened; intros [= <-]; cbn [child_index is_hardened]; split_and!; (done || lia).
  - intros (Hn%parse_u32_iff & Hw & <-). rewrite Hn. cbn.
    assert (in_u 32 (child_index c)) as Hu by (unfold child_wf, in_u in *; lia).
    rewrite (proj1 (from_idx_spec _ Hu)), (proj2 (from_idx_spec _ Hu)).
    unfold child_wf in Hw. rewrite (proj2 (Z.ltb_lt _ _)) by lia. by destruct c.
Qed.

Lemma child_from_str_iff s c : child_from_str (K := K) (B := B) s = Val c <-> reads_child s c.
Proof.
  unfold child_from_str, reads_child. destruct s as [|l s _] using rev_ind.
  { cbn. split; [done|]. intros (num & mark & E & (sign & ds & -> & _ & _ & Hne & _) & _).
    symmetry in E. apply app_eq_nil in E as [E _]. by apply app_eq_nil in E as [_ ?]. }
  rewrite rev_app_distr. cbn [rev app head hd_error].
  destruct ((l =? QUOTE) || (l =? LETTER_H)) eqn:El.
  - assert (l = QUOTE \/ l = LETTER_H) as Hl by (apply orb_true_iff in El; rewrite !Z.eqb_eq in El; done).
    rewrite split_at_last by (unfold QUOTE, LETTER_H in Hl; lia). cbn [of_run]. rewrite bind_Val.
    rewrite (parse_index true). split.
    + intros (Hn & Hw & Hh). exists s, [l]. rewrite Hh. split_and!; [done..|]. destruct Hl as [->| ->]; auto.
    + intros (num & mark & E & Hn & Hw & Hm). destruct (is_hardened c).
      * assert (s = num) as -> by (destruct Hm as [->| ->]; by apply app_inj_tail in E as [? _]). done.
      * subst mark. rewrite app_nil_r in E. subst num.
        pose proof (reads_u32_last _ _ l Hn) as Hd. rewrite rev_app_distr in Hd.
        specialize (Hd eq_refl). apply is_digit_spec in Hd. unfold QUOTE, LETTER_H in Hl. lia.
  - rewrite (parse_index false). split.
    + intros (Hn & Hw & Hh). exists (s ++ [l]), []. by rewrite app_nil_r, Hh.
    + intros (num & mark & E & Hn & Hw & Hm). destruct (is_hardened c).
      * apply orb_false_iff in El as [E1%Z.eqb_neq E2%Z.eqb_neq].
        destruct Hm as [->| ->]; apply app_inj_tail in E as [_ ?]; congruence.
      * subst mark. rewrite app_nil_r in E. by rewrite E.
Qed.

Lemma child_from_str_no_panic s : child_from_str (K := K) (B := B) s <> Crash.
Proof.
  unfold child_from_str. destruct s as [|l s _] using rev_ind; [done|].
  rewrite rev_app_distr. cbn [rev app head hd_error].
  destruct ((l =? QUOTE) || (l =? LETTER_H)) eqn:El.
  - rewrite split_at_last
      by (apply orb_true_iff in El; rewrite !Z.eqb_eq in El; unfold QUOTE, LETTER_H in El; lia).
    cbn [of_run]. rewrite bind_Val. destruct (parse_u32 s) as [n|]; [|done]. cbn.
    unfold from_hardened_idx. by destruct (_ =? 0).
  - destruct (parse_u32 (s ++ [l])) as [n|]; [|done]. cbn. unfold from_normal_idx. by destruct (_ =? 0).
Qed.
End text.

Lemma reads_child_form s c : reads_child s c ->
  exists d t, s = d :: t /\ d <> LETTER_M /\ Forall (fun c => c <> SLASH) s.
Proof.
  intros (num & mark & -> & Hn & _ & Hm). pose proof (reads_u32_chars _ _ Hn) as Hc.
  assert (Forall (fun c => c <> SLASH /\ c <> LETTER_M) num) as Hs.
  { eapply Forall_impl; [|exact Hc]. intros x [Hx%is_digit_spec|Hx]; unfold SLASH, LETTER_M, PLUS in *; lia. }
  destruct num as [|d t].
  { destruct Hn as (sign & ds & E & _ & _ & Hne & _). symmetry in E. by apply app_eq_nil in E as [_ ?]. }
  exists d, (t ++ mark). split; [done|]. split; [by apply Forall_cons_1 in Hs as [[_ ?] _]|].
  apply Forall_app. split; [eapply Forall_impl; [|exact Hs]; by intros ? [? _]|].
  destruct (is_hardened c); [|by subst mark]. destruct Hm as [->| ->]; by apply Forall_singleton.
Qed.

Lemma split_no_slash s : Forall (fun c => c <> SLASH) s -> split SLASH s = [s].
Proof.
  induction 1 as [|c s Hc _ IH]; [done|]. cbn [split]. rewrite (proj2 (Z.eqb_neq _ _) Hc). by rewrite IH.
Qed.

Lemma split_app_slash s t : Forall (fun c => c <> SLASH) s -> split SLASH (s ++ SLASH :: t) = s :: split SLASH t.
Proof.
  induction 1 as [|c s Hc _ IH]; [done|]. cbn [app split]. rewrite (proj2 (Z.eqb_neq _ _) Hc). by rewrite IH.
Qed.

Lemma split_join parts : parts <> [] -> Forall (Forall (fun c => c <> SLASH)) parts ->
  split SLASH (join parts) = parts.
Proof.
  destruct parts as [|p ps]; [done|]. intros _ [Hp Hps]%Forall_cons_1. cbn [join].
  revert p Hp. induction Hps as [|q ps Hq _ IH]; intros p Hp; cbn [map concat].
  - rewrite app_nil_r. by apply split_no_slash.
  - cbn [app]. rewrite split_app_slash by done. f_equal. by apply IH.
Qed.

Lemma join_split s : split SLASH s <> [] /\ join (split SLASH s) = s.
Proof.
  induction s as [|c s [Hne IH]]; [done|]. cbn [split]. destruct (Z.eqb_spec c SLASH) as [->|_].
  - split; [done|]. cbn [join app]. destruct (split SLASH s) as [|p ps]; [done|].
    cbn [map concat]. cbn [app]. f_equal. exact IH.
  - destruct (split SLASH s) as [|p ps]; [done|]. split; [done|]. cbn [join app] in *. by rewrite IH.
Qed.

Section path_text.
Context {bm : BuildMode} {K B : Type}.

Lemma collect_children_iff parts : forall p,
  collect_children (K := K) (B := B) parts = Val p <-> Forall2 reads_child parts p.
Proof.
  induction parts as [|s parts IH]; intros p; cbn [collect_children].
  - split; [by intros [= <-]|]. by inversion 1.
  - rewrite comp_bind_Val. setoid_rewrite comp_bind_Val. setoid_rewrite child_from_str_iff.
    setoid_rewrite IH. split.
    + intros (c & Hc & cs & Hcs & [= <-]). by constructor.
    + inversion 1; subst. eauto 6.
Qed.

Lemma collect_children_no_panic parts : collect_children (K := K) (B := B) parts <> Crash.
Proof.
  induction parts as [|s parts IH]; cbn [collect_children]; [done|].
  pose proof (child_from_str_no_panic (K := K) (B := B) s) as Hc.
  destruct (child_from_str s); cbn [mbind comp_bind]; [|done..]. by destruct (collect_children parts).
Qed.

Lemma path_from_str_iff s p : path_from_str (K := K) (B := B) s = Val p <-> reads_path s p.
Proof.
  unfold path_from_str. set (special := bool_decide (s = []) || _ || _).
  assert (special = true <-> s = [] \/ s = [LETTER_M] \/ s = [LETTER_M; SLASH]) as Hsp
    by (unfold special; rewrite !orb_true_iff, !bool_decide_eq_true; tauto).
  assert (forall parts p, Forall2 reads_child parts p -> p <> [] ->
    parts <> [] /\ Forall (Forall (fun c => c <> SLASH)) parts /\
    exists d t, join parts = d :: t /\ d <> LETTER_M) as Hj.
  { intros parts q Hq Hne. split; [by destruct Hq|]. split.
    - clear Hne. induction Hq as [|x y l l' Hxy _ IH]; [done|]. constructor; [|done].
      by destruct (reads_child_form x y Hxy) as (_ & _ & _ & _ & ?).
    - destruct Hq as [|x y l l' Hxy _]; [done|].
      destruct (reads_child_form x y Hxy) as (d & t & -> & Hd & _). cbn [join app]. eauto. }
  split.
  - destruct special eqn:Es.
    + intros [= <-]. by apply Hsp.
    + intros Hc%collect_children_iff. unfold reads_path.
      set (s' := match strip_prefix _ s with Some q => q | None => s end) in *.
      destruct (join_split s') as [Hne Hjs].
      destruct p as [|c p]; [inversion Hc; congruence|]. exists (split SLASH s'). split; [done|].
      rewrite Hjs. unfold s'. destruct s as [|a [|b s]]; cbn [strip_prefix]; [by left| |].
      * destruct (LETTER_M =? a); by left.
      * destruct (Z.eqb_spec LETTER_M a) as [<-|]; [|by left].
        destruct (Z.eqb_spec SLASH b) as [<-|]; [by right|by left].
  - destruct p as [|c p]; unfold reads_path.
    + intros Hs. by rewrite (proj2 Hsp).
    + intros (parts & Hq & Hs). destruct (Hj parts _ Hq ltac:(done)) as (Hne & Hns & d & t & Ej & Hd).
      destruct special eqn:Es.
      { destruct Hsp as [Hsp _]. specialize (Hsp eq_refl). rewrite Ej in Hs. clear special Es.
        destruct Hs as [->| ->]; naive_solver. }
      apply collect_children_iff.
      replace (match strip_prefix _ s with Some q => q | None => s end) with (join parts);
        [by rewrite split_join|].
      destruct Hs as [->| ->]; [|by cbn]. rewrite Ej. cbn [strip_prefix].
      by rewrite (proj2 (Z.eqb_neq _ _)) by done.
Qed.

Lemma path_from_str_no_panic s : path_from_str (K := K) (B := B) s <> Crash.
Proof. unfold path_from_str. destruct (_ || _ || _); [done|]. apply collect_children_no_panic. Qed.

Lemma display_child_reads c : child_wf c -> reads_child (display_child false c) c.
Proof.
  intros Hc. assert (in_u 32 (child_index c)) as Hu by (unfold child_wf, in_u in *; lia).
  pose proof (display_reads _ Hu) as Hr. destruct c as [i|i]; cbn [child_index display_child] in *.
  - exists (display_u64 i), []. by rewrite app_nil_r.
  - exists (display_u64 i), [QUOTE]. split_and!; [done..|by left].
Qed.

Lemma display_path_join p : display_path p = join (map (display_child false) p).
Proof.
  destruct p as [|c p]; [done|]. cbn [display_path join map].
  generalize (display_child false c). induction p as [|d p IH]; intros f; cbn [fold_left map concat].
  - by rewrite app_nil_r.
  - rewrite IH. by rewrite <- app_assoc.
Qed.

(** Derivation paths as text.  Parsing never panics; a string denotes a path exactly when it is
    empty, [m] or [m/] for the empty path, or else, after an optional [m/], consists of
    slash-separated decimal numerals below [2^31], each optionally signed with a plus and marked with
    a quote or an [h] when hardened; what a well-formed path prints denotes it. *)
Lemma derivation_path_text_exact (s : str) (p : DerivationPath) :
  path_from_str (K := K) (B := B) s <> Crash /\
  (path_from_str (K := K) (B := B) s = Val p <-> reads_path s p) /\
  (Forall child_wf p -> path_from_str (K := K) (B := B) (display_path p) = Val p).
Proof.
  split; [apply path_from_str_no_panic|]. split; [apply path_from_str_iff|].
  intros Hp. apply path_from_str_iff. destruct p as [|c p]; [by left|].
  exists (map (display_child false) (c :: p)). rewrite display_path_join. split; [|by left].
  apply Forall2_fmap_l, Forall_Forall2_diag. eapply Forall_impl; [|exact Hp]. apply display_child_reads.
Qed.

(** ** Children *)

(** [n] calls of [next]. *)
Fixpoint iter_nth (n : nat) (it : DerivationPathIterator) : run DerivationPathIterator :=
  match n with
  | O => Ret it
  | S n => '(_, it) ← iter_next (K := K) (B := B) it; iter_nth n it
  end.

Lemma increment_spec c : child_wf c -> increment (K := K) (B := B) c =
  let n := child_index c + 1 in
  if n <? 2 ^ 31 then Val (match c with Normal _ => Normal n | Hardened _ => Hardened n end)
  else Throw (InvalidChildNumber n).
Proof.
  unfold child_wf, increment. intros Hc.
  assert (in_u 32 (child_index c + 1)) as Hu by (unfold in_u; lia).
  destruct c as [i|i]; cbn [child_index] in *; rewrite arith_u_small by done; cbn [of_run]; rewrite bind_Val;
    [rewrite (proj1 (from_idx_spec _ Hu))|rewrite (proj2 (from_idx_spec _ Hu))]; cbv zeta;
    by destruct (i + 1 <? 2 ^ 31).
Qed.
End path_text.

Section children.
Context {bm : BuildMode} {K B : Type}.

Definition with_index (c : ChildNumber) (i : Z) : ChildNumber :=
  match c with Normal _ => Normal i | Hardened _ => Hardened i end.
(** The child [n] places after [c], while there is one. *)
Definition nth_child (c : ChildNumber) (n : nat) : option ChildNumber :=
  let i := child_index c + Z.of_nat n in if i <? 2 ^ 31 then Some (with_index c i) else None.

Lemma iter_next_spec base c n : child_wf c ->
  iter_next (K := K) (B := B) (mkIter base (nth_child c n)) =
  Ret ((fun d => base ++ [d]) <$> nth_child c n, mkIter base (nth_child c (S n))).
Proof.
  intros Hc. unfold child_wf in Hc. unfold iter_next. cbn [next_child it_base].
  unfold nth_child at 1 3. cbv zeta. destruct (Z.ltb_spec (child_index c + Z.of_nat n) (2 ^ 31)) as [Hl|Hl].
  - rewrite increment_spec; [|unfold child_wf; destruct c; cbn [with_index child_index] in *; lia].
    unfold nth_child. cbv zeta. destruct c as [i|i]; cbn [with_index child_index] in *;
    replace (i + Z.of_nat (S n)) with (i + Z.of_nat n + 1) by lia;
    by destruct (i + Z.of_nat n + 1 <? 2 ^ 31).
  - cbn. unfold nth_child. cbv zeta. by rewrite !(proj2 (Z.ltb_ge _ _)) by lia.
Qed.

Lemma iter_nth_spec base c n : forall k, child_wf c ->
  iter_nth (K := K) (B := B) n (mkIter base (nth_child c k)) = Ret (mkIter base (nth_child c (k + n))).
Proof.
  induction n as [|n IH]; intros k Hc; cbn [iter_nth]; [by rewrite Nat.add_0_r|].
  rewrite iter_next_spec, bind_Ret, IH by done. do 3 f_equal. lia.
Qed.

(** Iterating over the children of a path.  From a well-formed child number, in both builds and
    without a panic, the call number [n] of [next] returns the path's child whose index is [n] more,
    hardened or not like the first, as long as that index is below [2^31], and nothing from then on:
    the iteration ends after exactly the remaining indices. *)
Lemma children_iterator_exact (base : DerivationPath) (c : ChildNumber) (n : nat) (Hc : child_wf c) :
  exists it, iter_nth (K := K) (B := B) n (start_from base c) = Ret it /\
  exists it', iter_next (K := K) (B := B) it =
    Ret (if child_index c + Z.of_nat n <? 2 ^ 31
         then Some (base ++ [with_index c (child_index c + Z.of_nat n)]) else None, it').
Proof.
  assert (start_from base c = mkIter base (nth_child c 0)) as ->.
  { unfold nth_child, start_from. cbv zeta. rewrite Z.add_0_r. unfold child_wf in Hc.
    rewrite (proj2 (Z.ltb_lt _ _)) by lia. by destruct c. }
  exists (mkIter base (nth_child c n)). split; [by apply iter_nth_spec|].
  eexists. rewrite iter_next_spec by done. unfold nth_child. cbv zeta.
  by destruct (child_index c + Z.of_nat n <? 2 ^ 31).
Qed.
End children.

Section path_witnesses.
#[local] Instance path_wit_mode : BuildMode := true.

End path_witnesses.
