(* ===== verification/ParseInt.v ===== *)
(** * Integers as text ([units/src/parse.rs], [error.rs])

    [from_str] and [from_str_radix] of the integer types, the error with context of
    [parse::int], hexadecimal integers with and without their prefix, and the types that are read
    this way: lock times, heights, times, sequences, compact targets.  A [&str] is the list of
    its characters, as in [Amount]. *)

From Stdlib Require Import ZArith Lia.
From Stdlib Require Strings.String.
From coqutil Require Import Byte.
From stdpp Require Import base tactics option list numbers.
From S2P Require Import Prelude Amount AmountText LockTime DerivationPath.
Import String.StringSyntax.

#[local] Open Scope Z_scope.

(** ** The integer types *)

Record IntType := mkIntType { ty_signed : bool; ty_bits : Z }.
Definition u8T : IntType := mkIntType false 8.
Definition u16T : IntType := mkIntType false 16.
Definition u32T : IntType := mkIntType false 32.
Definition u64T : IntType := mkIntType false 64.
Definition u128T : IntType := mkIntType false 128.
Definition i8T : IntType := mkIntType true 8.
Definition i16T : IntType := mkIntType true 16.
Definition i32T : IntType := mkIntType true 32.
Definition i64T : IntType := mkIntType true 64.
Definition i128T : IntType := mkIntType true 128.

(** [T::try_from] succeeds. *)
Definition in_type (T : IntType) (z : Z) : bool :=
  if ty_signed T then in_ib (ty_bits T) z else in_ub (ty_bits T) z.

Inductive IntErrorKind := Empty | InvalidDigit | PosOverflow | NegOverflow.
#[export] Instance IntErrorKind_eq_dec : EqDecision IntErrorKind.
Proof. solve_decision. Defined.

(** [char::to_digit] *)
Definition to_digit (radix c : Z) : option Z :=
  let d := if is_digit c then c - 0x30
           else if (0x61 <=? c) && (c <=? 0x7a) then c - 0x61 + 10
           else if (0x41 <=? c) && (c <=? 0x5a) then c - 0x41 + 10
           else radix in
  if d <? radix then Some d else None.

(** The loop of [from_str_radix]: the digit is checked before the overflow of the product. *)
Fixpoint digits_loop (T : IntType) (radix : Z) (positive : bool) (s : str) (result : Z) : Result IntErrorKind Z :=
  match s with
  | [] => Ok result
  | c :: s =>
      let overflow := if positive then PosOverflow else NegOverflow in
      x ← ok_or (to_digit radix c) InvalidDigit;
      if negb (in_type T (result * radix)) then Err overflow
      else
        let next := if positive then result * radix + x else result * radix - x in
        if negb (in_type T next) then Err overflow else digits_loop T radix positive s next
  end.

Definition from_str_radix (T : IntType) (s : str) (radix : Z) : Result IntErrorKind Z :=
  match s with
  | [] => Err Empty
  | c :: rest =>
      if ((c =? PLUS) || (c =? MINUS)) && bool_decide (rest = []) then Err InvalidDigit
      else if c =? PLUS then digits_loop T radix true rest 0
      else if (c =? MINUS) && ty_signed T then digits_loop T radix false rest 0
      else digits_loop T radix true s 0
  end.

(** ** [units::parse] *)

Record ParseIntError := mkParseIntError {
  pi_input : str; pi_bits : Z; pi_is_signed : bool; pi_source : IntErrorKind }.
#[export] Instance ParseIntError_eq_dec : EqDecision ParseIntError.
Proof. solve_decision. Defined.

Definition int (T : IntType) (s : str) : Result ParseIntError Z :=
  map_err (fun error => mkParseIntError s (ty_bits T) (in_type T (-1)) error) (from_str_radix T s 10).

Definition strip_hex_prefix (s : str) : str :=
  match strip_prefix (chars "0x") s with
  | Some stripped => stripped
  | None => match strip_prefix (chars "0X") s with Some stripped => stripped | None => s end
  end.

Definition hex_u32 (s : str) : Result ParseIntError Z :=
  let stripped := strip_hex_prefix s in
  map_err (fun error => mkParseIntError s 32 false error) (from_str_radix u32T stripped 16).
Definition hex_u128 (s : str) : Result ParseIntError Z :=
  let stripped := strip_hex_prefix s in
  map_err (fun error => mkParseIntError s 128 false error) (from_str_radix u128T stripped 16).

(** ** Hexadecimal with a mandatory or without a prefix *)

Inductive PrefixedHexError := MissingPrefix (hex : str) | PrefixedParseInt (e : ParseIntError).
Inductive UnprefixedHexError := ContainsPrefix (hex : str) | UnprefixedParseInt (e : ParseIntError).
#[export] Instance PrefixedHexError_eq_dec : EqDecision PrefixedHexError.
Proof. solve_decision. Defined.
#[export] Instance UnprefixedHexError_eq_dec : EqDecision UnprefixedHexError.
Proof. solve_decision. Defined.

Definition starts_with_str (p s : str) : bool := match strip_prefix p s with Some _ => true | None => false end.
Definition strip_required (s : str) : Result PrefixedHexError str :=
  match strip_prefix (chars "0x") s with
  | Some stripped => Ok stripped
  | None => match strip_prefix (chars "0X") s with
            | Some stripped => Ok stripped
            | None => Err (MissingPrefix s)
            end
  end.

Definition locktime_from_hex (s : str) : Result PrefixedHexError Abs.LockTime :=
  stripped ← strip_required s;
  lock_time ← map_err PrefixedParseInt (hex_u32 stripped);
  Ok (Abs.from_consensus lock_time).
Definition locktime_from_unprefixed_hex (s : str) : Result UnprefixedHexError Abs.LockTime :=
  if starts_with_str (chars "0x") s || starts_with_str (chars "0X") s then Err (ContainsPrefix s)
  else lock_time ← map_err UnprefixedParseInt (hex_u32 s); Ok (Abs.from_consensus lock_time).

(** A [Sequence] and a [CompactTarget] are the number they wrap. *)
Definition sequence_from_hex (s : str) : Result PrefixedHexError Z :=
  stripped ← strip_required s; map_err PrefixedParseInt (hex_u32 stripped).
Definition sequence_from_unprefixed_hex (s : str) : Result UnprefixedHexError Z :=
  if starts_with_str (chars "0x") s || starts_with_str (chars "0X") s then Err (ContainsPrefix s)
  else map_err UnprefixedParseInt (hex_u32 s).
Definition compact_from_hex (s : str) : Result PrefixedHexError Z :=
  stripped ← strip_required s; map_err PrefixedParseInt (hex_u32 stripped).
Definition compact_from_unprefixed_hex (s : str) : Result UnprefixedHexError Z :=
  if starts_with_str (chars "0x") s || starts_with_str (chars "0X") s then Err (ContainsPrefix s)
  else map_err UnprefixedParseInt (hex_u32 s).

(** ** Lock times, heights and times in decimal *)

Definition locktime_from_str (s : str) : Result ParseIntError Abs.LockTime :=
  Abs.from_consensus <$> int u32T s.
Definition sequence_from_str (s : str) : Result ParseIntError Z := int u32T s.
Definition rel_height_from_str (s : str) : Result ParseIntError Z := int u16T s.
Definition rel_time_from_str (s : str) : Result ParseIntError Z := int u16T s.

(** [absolute::ParseError]; a conversion error keeps its input as an [i64]. *)
Inductive ParseError := InvalidInteger (source : IntErrorKind) (input : str) | Conversion (n : Z).
#[export] Instance ParseError_eq_dec : EqDecision ParseError.
Proof. solve_decision. Defined.

Definition conversion_error (e : Abs.ConversionError) : ParseError := Conversion (Abs.input e).

(** [u32::try_from(n)], then the constructor. *)
Definition from_parsed {A} (f : Z -> Result Abs.ConversionError A) (n : Z) : Result ParseError A :=
  n ← (if in_ub 32 n then Ok n else Err (Conversion n)); map_err conversion_error (f n).
Definition parser {A} (f : Z -> Result Abs.ConversionError A) (s : str) : Result ParseError A :=
  n ← map_err (fun e => InvalidInteger e s) (from_str_radix i64T s 10); from_parsed f n.
Definition parse_hex {A} (f : Z -> Result Abs.ConversionError A) (s : str) : Result ParseError A :=
  n ← map_err (fun e => InvalidInteger e s) (from_str_radix i64T (strip_hex_prefix s) 16); from_parsed f n.

Definition height_from_str : str -> Result ParseError Z := parser Abs.height_from_consensus.
Definition height_from_hex : str -> Result ParseError Z := parse_hex Abs.height_from_consensus.
Definition time_from_str : str -> Result ParseError Z := parser Abs.time_from_consensus.
Definition time_from_hex : str -> Result ParseError Z := parse_hex Abs.time_from_consensus.

(** [Display] of a lock time; [alternate] is the formatter's flag. *)
Definition display_locktime (alternate : bool) (self : Abs.LockTime) : str :=
  if alternate then
    match self with
    | Abs.Blocks h => chars "block-height " ++ display_u64 h
    | Abs.Seconds t => chars "block-time " ++ display_u64 t ++ chars " (seconds since epoch)"
    end
  else match self with Abs.Blocks h => display_u64 h | Abs.Seconds t => display_u64 t end.
Definition debug_locktime (self : Abs.LockTime) : str :=
  match self with
  | Abs.Blocks h => display_u64 h ++ chars " blocks"
  | Abs.Seconds t => display_u64 t ++ chars " seconds"
  end.
Definition display_rel_locktime (alternate : bool) (self : Seq.RelLockTime) : str :=
  if alternate then
    match self with
    | Seq.RBlocks h => chars "block-height " ++ display_u64 h
    | Seq.RTime t => chars "block-time " ++ display_u64 t ++ chars " (512 second intervals)"
    end
  else match self with Seq.RBlocks h => display_u64 h | Seq.RTime t => display_u64 t end.

(** The orders of lock times: partial between units, or total with heights first. *)
Definition locktime_partial_cmp (self other : Abs.LockTime) : option comparison :=
  match self, other with
  | Abs.Blocks a, Abs.Blocks b => Some (a ?= b)
  | Abs.Seconds a, Abs.Seconds b => Some (a ?= b)
  | _, _ => None
  end.
Definition locktime_arbitrary_cmp (self other : Abs.LockTime) : comparison :=
  match self, other with
  | Abs.Blocks _, Abs.Seconds _ => Lt
  | Abs.Seconds _, Abs.Blocks _ => Gt
  | Abs.Blocks this, Abs.Blocks that => this ?= that
  | Abs.Seconds this, Abs.Seconds that => this ?= that
  end.
Definition rel_partial_cmp (self other : Seq.RelLockTime) : option comparison :=
  match self, other with
  | Seq.RBlocks a, Seq.RBlocks b => Some (a ?= b)
  | Seq.RTime a, Seq.RTime b => Some (a ?= b)
  | _, _ => None
  end.
Definition rel_arbitrary_cmp (self other : Seq.RelLockTime) : comparison :=
  match self, other with
  | Seq.RBlocks _, Seq.RTime _ => Lt
  | Seq.RTime _, Seq.RBlocks _ => Gt
  | Seq.RBlocks this, Seq.RBlocks that => this ?= that
  | Seq.RTime this, Seq.RTime that => this ?= that
  end.

(** The message of a failed height or time, with the standard library's error chain, which
    leaves the source out of it. *)
Definition display_i64 (n : Z) : str := if n <? 0 then MINUS :: display_u64 (- n) else display_u64 n.
Definition display_parse_error (self : ParseError) (subject : str) (lower_bound upper_bound : Z) : str :=
  match self with
  | InvalidInteger PosOverflow input => subject ++ chars " " ++ input ++ chars " is above limit " ++ display_u64 upper_bound
  | InvalidInteger NegOverflow input => subject ++ chars " " ++ input ++ chars " is below limit " ++ display_u64 lower_bound
  | InvalidInteger _ input => chars "failed to parse " ++ input ++ chars " as " ++ subject
  | Conversion value =>
      if value <? lower_bound
      then subject ++ chars " " ++ display_i64 value ++ chars " is below limit " ++ display_u64 lower_bound
      else subject ++ chars " " ++ display_i64 value ++ chars " is above limit " ++ display_u64 upper_bound
  end.
Definition display_height_error (e : ParseError) : str :=
  display_parse_error e (chars "block height") 0 (Abs.LOCK_TIME_THRESHOLD - 1).
Definition display_time_error (e : ParseError) : str :=
  display_parse_error e (chars "block height") Abs.LOCK_TIME_THRESHOLD u32_MAX.

(** ** Numerals in a radix *)

Definition rdigits (r : Z) (s : str) : Prop := Forall (fun c => is_Some (to_digit r c)) s.
Definition digit_value (c : Z) : Z := default 0 (to_digit 36 c).
Definition rval_from (r a : Z) (s : str) : Z := fold_left (fun a c => a * r + digit_value c) s a.
Definition rval (r : Z) (s : str) : Z := rval_from r 0 s.

Lemma to_digit_range r c d : to_digit r c = Some d -> 0 <= d < r.
Proof.
  unfold to_digit, is_digit. repeat case_match; intros [= <-];
    repeat match goal with H : _ && _ = true |- _ => apply andb_true_iff in H as [?%Z.leb_le ?%Z.leb_le] end;
    rewrite ?Z.ltb_lt in *; try lia.
Qed.

Lemma to_digit_value r c d : r <= 36 -> to_digit r c = Some d -> digit_value c = d.
Proof.
  unfold digit_value, to_digit. intros Hr. repeat case_match; intros [= <-]; simpl; try done;
    rewrite ?Z.ltb_lt, ?Z.ltb_ge in *; try lia.
Qed.

Lemma rval_from_ge r s : 2 <= r -> forall a, 0 <= a -> a <= rval_from r a s.
Proof.
  intros Hr. induction s as [|c s IH]; intros a Ha; [cbn; lia|]. cbn [rval_from fold_left].
  assert (0 <= digit_value c) as Hd.
  { unfold digit_value. destruct (to_digit 36 c) eqn:E; [apply to_digit_range in E|]; simpl; lia. }
  specialize (IH (a * r + digit_value c) ltac:(nia)). unfold rval_from in IH. nia.
Qed.

Lemma rval_from_split r a s : 0 <= r -> rval_from r a s = a * r ^ Z.of_nat (length s) + rval r s.
Proof.
  intros Hr. unfold rval. revert a. induction s as [|c s IH]; intros a; [cbn; lia|].
  cbn [rval_from fold_left length]. change (fold_left _ s ?x) with (rval_from r x s).
  rewrite IH, (IH (0 * r + digit_value c)), Nat2Z.inj_succ, Z.pow_succ_r by lia. ring.
Qed.

Lemma rval_app r s t : 0 <= r -> rval r (s ++ t) = rval r s * r ^ Z.of_nat (length t) + rval r t.
Proof. intros Hr. unfold rval at 1, rval_from. rewrite fold_left_app. by apply rval_from_split. Qed.

Lemma rval_bound r s : 2 <= r <= 36 -> rdigits r s -> 0 <= rval r s < r ^ Z.of_nat (length s).
Proof.
  intros Hr. induction s as [|c s IH] using rev_ind; intros Hd; [cbn; lia|].
  apply Forall_app in Hd as [Hd Hc]. destruct (Forall_inv Hc) as [d Ed]. specialize (IH Hd).
  rewrite rval_app, length_app by lia. simpl length. rewrite Nat2Z.inj_add, Z.pow_add_r by lia.
  pose proof (to_digit_range _ _ _ Ed). change (rval r [c]) with (0 * r + digit_value c).
  rewrite (to_digit_value r c d) by (done || lia). change (r ^ Z.of_nat 1) with (r ^ 1). rewrite Z.pow_1_r. nia.
Qed.

(** ** What the parser of an integer type reads *)

Definition reads (T : IntType) (r : Z) (s : str) (v : Z) : Prop :=
  exists sign ds, s = sign ++ ds /\ ds <> [] /\ rdigits r ds /\ in_type T v = true /\
    (v = rval r ds /\ (sign = [] \/ sign = [PLUS]) \/ v = - rval r ds /\ sign = [MINUS] /\ ty_signed T = true).

Lemma in_type_between T a v : 0 < ty_bits T -> in_type T v = true -> 0 <= a <= v \/ v <= a <= 0 -> in_type T a = true.
Proof.
  unfold in_type. destruct (ty_signed T); intros Hb Hv Ha.
  - apply in_ib_spec in Hv. apply in_ib_spec. unfold in_i in *. pose proof (pow2_pos (ty_bits T - 1) ltac:(lia)). lia.
  - apply in_ub_spec in Hv. apply in_ub_spec. unfold in_u in *. lia.
Qed.

Definition signed (positive : bool) (a : Z) : Z := if positive then a else - a.

Lemma digits_loop_iff T r b s : 2 <= r <= 36 -> 0 < ty_bits T -> forall a v, 0 <= a -> in_type T (signed b a) = true ->
  digits_loop T r b s (signed b a) = Ok v <-> rdigits r s /\ v = signed b (rval_from r a s) /\ in_type T v = true.
Proof.
  intros Hr Hb. induction s as [|c s IH]; intros a v Ha Hta.
  - cbn [digits_loop]. split; [intros [= <-]; by repeat split; [constructor|]|]. by intros (_ & -> & _).
  - cbn [digits_loop]. destruct (to_digit r c) as [d|] eqn:Ed; cbn [ok_or mbind Result_bind].
    2:{ split; [done|]. intros (H & _). apply Forall_inv in H as [? ?]. congruence. }
    pose proof (to_digit_range _ _ _ Ed). pose proof (to_digit_value r c d ltac:(lia) Ed) as Hv.
    assert (rdigits r (c :: s) <-> rdigits r s) as Hds.
    { unfold rdigits. rewrite Forall_cons_iff. naive_solver. }
    assert (rval_from r a (c :: s) = rval_from r (a * r + d) s) as Hrv by (cbn; by rewrite Hv).
    rewrite Hds, Hrv. pose proof (rval_from_ge r s ltac:(lia) (a * r + d) ltac:(nia)) as Hge.
    replace (if b then signed b a * r + d else signed b a * r - d) with (signed b (a * r + d)) by (destruct b; cbn [signed]; lia).
    destruct (in_type T (signed b a * r)) eqn:E1; cbn [negb].
    2:{ split; [done|]. intros (_ & -> & Ht). rewrite (in_type_between T _ _ Hb Ht) in E1; [done|]. destruct b; cbn [signed]; nia. }
    destruct (in_type T (signed b (a * r + d))) eqn:E2; cbn [negb].
    2:{ split; [done|]. intros (_ & -> & Ht). rewrite (in_type_between T _ _ Hb Ht) in E2; [done|]. destruct b; cbn [signed]; nia. }
    apply IH; [nia|done].
Qed.

Lemma zero_in_type T : 0 < ty_bits T -> in_type T 0 = true.
Proof.
  intros Hb. unfold in_type. destruct (ty_signed T); [apply in_ib_spec|apply in_ub_spec]; unfold in_i, in_u.
  - pose proof (pow2_pos (ty_bits T - 1) ltac:(lia)). lia.
  - pose proof (pow2_pos (ty_bits T) ltac:(lia)). lia.
Qed.

Lemma sign_no_digit r c : c = PLUS \/ c = MINUS -> to_digit r c = None.
Proof. unfold to_digit. intros [-> | ->]; cbn; case_match; rewrite ?Z.ltb_lt in *; done || lia. Qed.

Lemma sign_not_read r c l : c = PLUS \/ c = MINUS -> ~ rdigits r (c :: l).
Proof. intros Hc Hl. apply Forall_inv in Hl as [? Hl]. by rewrite sign_no_digit in Hl. Qed.

Lemma lone_sign_unread T r c v : c = PLUS \/ c = MINUS -> ~ reads T r [c] v.
Proof.
  intros Hc ([|x sign] & ds & E & Hne & Hd & _).
  - simpl in E. subst ds. by eapply sign_not_read.
  - injection E as _ E. symmetry in E. apply app_eq_nil in E as [_ ?]. done.
Qed.

(** [from_str_radix] reads exactly an optional sign (a minus only for signed types) and digits, and
    the value is in the range of the type. *)
Lemma from_str_radix_iff T r s v : 2 <= r <= 36 -> 0 < ty_bits T ->
  from_str_radix T s r = Ok v <-> reads T r s v.
Proof.
  intros Hr Hb. pose proof (zero_in_type T Hb) as H0.
  assert (forall b s, digits_loop T r b s 0 = Ok v <-> rdigits r s /\ v = signed b (rval r s) /\ in_type T v = true) as Hloop.
  { intros b t. pose proof (digits_loop_iff T r b t Hr Hb 0 v ltac:(lia)) as H.
    replace (signed b 0) with 0 in H by (by destruct b). exact (H H0). }
  assert (forall c l, c = PLUS \/ c = MINUS -> rdigits r (c :: l) -> False) as Hsign by apply sign_not_read.
  unfold from_str_radix. destruct s as [|c rest].
  { split; [done|]. intros (sign & ds & E & Hne & _). symmetry in E. apply app_eq_nil in E as [_ ?]. done. }
  destruct (Z.eqb_spec c PLUS) as [->|Hp]; [|destruct (Z.eqb_spec c MINUS) as [->|Hm]]; cbn [orb andb].
  - case_bool_decide as Er; cbn [negb].
    + subst rest. split; [done|]. intros Hs. exfalso. eapply lone_sign_unread; [|exact Hs]. by left.
    + rewrite Hloop. split.
      * intros (Hd & -> & Ht). exists [PLUS], rest. split_and!; [done..|]. left. auto.
      * intros (sign & ds & E & Hne & Hd & Ht & [(-> & [-> | ->])|(-> & -> & _)]); [simpl in E; subst ds|by injection E as ->|done].
        exfalso. eapply Hsign; [|exact Hd]. by left.
  - case_bool_decide as Er; cbn [negb].
    + subst rest. split; [done|]. intros Hs. exfalso. eapply lone_sign_unread; [|exact Hs]. by right.
    + destruct (ty_signed T) eqn:Es; cbn [andb]; rewrite Hloop; split.
      * intros (Hd & -> & Ht). exists [MINUS], rest. split_and!; [done..|]. right. auto.
      * intros (sign & ds & E & Hne & Hd & Ht & [(-> & [-> | ->])|(-> & -> & _)]); [simpl in E; subst ds|done|by injection E as ->].
        exfalso. eapply Hsign; [|exact Hd]. by right.
      * intros (Hd & _). exfalso. eapply Hsign; [|exact Hd]. by right.
      * intros (sign & ds & E & Hne & Hd & Ht & [(-> & [-> | ->])|(_ & _ & ?)]); [simpl in E; subst ds|done|congruence].
        exfalso. eapply Hsign; [|exact Hd]. by right.
  - rewrite Hloop. split.
    + intros (Hd & -> & Ht). exists [], (c :: rest). split_and!; [done..|]. left. auto.
    + intros (sign & ds & E & Hne & Hd & Ht & [(-> & [-> | ->])|(-> & -> & _)]); [by simpl in E; subst ds|by injection E as ->..].
Qed.

Lemma reads_unsigned T r s v : ty_signed T = false ->
  reads T r s v <-> exists sign ds, s = sign ++ ds /\ (sign = [] \/ sign = [PLUS]) /\ ds <> [] /\ rdigits r ds /\
    v = rval r ds /\ in_u (ty_bits T) v.
Proof.
  intros HT. unfold reads, in_type. rewrite HT. setoid_rewrite in_ub_spec. split.
  - intros (sign & ds & -> & Hne & Hd & Ht & [(-> & Hs)|(_ & _ & ?)]); [|done]. exists sign, ds. auto 8.
  - intros (sign & ds & -> & Hs & Hne & Hd & -> & Ht). exists sign, ds. auto 9.
Qed.

Lemma int_iff T s v : 0 < ty_bits T -> int T s = Ok v <-> reads T 10 s v.
Proof.
  intros Hb. rewrite <- from_str_radix_iff by (done || lia). unfold int, map_err.
  destruct (from_str_radix T s 10); naive_solver.
Qed.

(** The context of the error says which type was wanted. *)
Lemma int_err T s e : int T s = Err e ->
  pi_input e = s /\ pi_bits e = ty_bits T /\ from_str_radix T s 10 = Err (pi_source e) /\
  (1 < ty_bits T -> pi_is_signed e = ty_signed T).
Proof.
  unfold int, map_err. destruct (from_str_radix T s 10) as [|k] eqn:E; [done|]. intros [= <-]. cbn.
  split_and!; [done..|]. intros Hb. unfold in_type. destruct (ty_signed T).
  - apply in_ib_spec. unfold in_i. assert (2 ^ 1 <= 2 ^ (ty_bits T - 1)) by (apply Z.pow_le_mono_r; lia). lia.
  - unfold in_ub. done.
Qed.

(** ** Printing *)

Lemma to_digit_10 c : to_digit 10 c = if is_digit c then Some (c - 0x30) else None.
Proof.
  unfold to_digit, is_digit. repeat case_match;
    repeat match goal with H : _ && _ = _ |- _ => first [apply andb_true_iff in H as [?%Z.leb_le ?%Z.leb_le]
                                                         | apply andb_false_iff in H; rewrite !Z.leb_gt in H] end;
    rewrite ?Z.ltb_lt, ?Z.ltb_ge in *; done || lia.
Qed.

Lemma digits_rdigits s : digits s -> rdigits 10 s /\ forall a, rval_from 10 a s = dval_from a s.
Proof.
  induction s as [|c s IH]; [split; [constructor|done]|]. intros [Hc Hs]%digits_cons. destruct (IH Hs) as [H1 H2].
  assert (to_digit 10 c = Some (c - 0x30)) as Hd by (by rewrite to_digit_10, Hc).
  split; [constructor; [by eexists|done]|]. intros a. cbn [rval_from dval_from fold_left].
  rewrite (to_digit_value 10 c _ ltac:(lia) Hd). replace (a * 10 + (c - 48)) with (10 * a + (c - 48)) by lia. apply H2.
Qed.

Lemma display_int T n : ty_signed T = false -> 0 < ty_bits T -> in_u (ty_bits T) n -> in_u 64 n -> int T (display_u64 n) = Ok n.
Proof.
  intros HT Hb Hn H64. apply int_iff; [done|]. apply reads_unsigned; [done|].
  destruct (display_u64_spec n H64) as (Hd & Hv & Hne & _). destruct (digits_rdigits _ Hd) as [H1 H2].
  exists [], (display_u64 n). split_and!; auto. unfold rval. by rewrite H2.
Qed.

(** The options of [DerivationPath] and [Amount] are these parsers with the error dropped. *)
Lemma option_eq_iff {A} (o : option A) (E : Type) (r : Result E A) :
  (forall a, o = Some a <-> r = Ok a) -> o = match r with Ok a => Some a | Err _ => None end.
Proof.
  intros H. destruct r as [a|e]; [by apply H|]. destruct o as [a|]; [|done]. discriminate (proj1 (H a) eq_refl).
Qed.

Lemma rdigits_digits s : rdigits 10 s <-> digits s.
Proof.
  split; [|intros H; by apply digits_rdigits]. intros H. unfold digits. apply forallb_forall. intros c Hc.
  unfold rdigits in H. rewrite List.Forall_forall in H. destruct (H c Hc) as [d Hd]. rewrite to_digit_10 in Hd.
  by destruct (is_digit c).
Qed.

Lemma parse_u32_from_str s : parse_u32 s = match from_str_radix u32T s 10 with Ok n => Some n | Err _ => None end.
Proof.
  apply option_eq_iff. intros n. rewrite parse_u32_iff, from_str_radix_iff by (cbn; lia).
  rewrite reads_unsigned by done. unfold reads_u32. setoid_rewrite rdigits_digits. split.
  - intros (sign & ds & -> & Hs & Hd & Hne & <- & Hn). exists sign, ds. split_and!; auto.
    unfold rval, dval. by rewrite (proj2 (digits_rdigits ds Hd)).
  - intros (sign & ds & -> & Hs & Hne & Hd & -> & Hn). exists sign, ds. split_and!; auto.
    unfold rval, dval. by rewrite (proj2 (digits_rdigits ds Hd)).
Qed.

(** ** Hexadecimal *)

Lemma strip_prefix_iff p s t : strip_prefix p s = Some t <-> s = p ++ t.
Proof.
  revert s. induction p as [|a p IH]; intros s; cbn [strip_prefix app]; [split; [by intros [= ->]|by intros ->]|].
  destruct s as [|b s]; [done|]. destruct (Z.eqb_spec a b) as [->|Hne].
  - rewrite IH. split; [by intros ->|by intros [= ->]].
  - split; [done|]. by intros [= -> _].
Qed.

Definition hex_prefixed (s t : str) : Prop := s = chars "0x" ++ t \/ s = chars "0X" ++ t.

Lemma strip_required_iff s t : strip_required s = Ok t <-> hex_prefixed s t.
Proof.
  unfold strip_required, hex_prefixed. rewrite <- !strip_prefix_iff.
  destruct (strip_prefix (chars "0x") s) as [x|] eqn:E1.
  - apply strip_prefix_iff in E1. subst s. cbn. naive_solver.
  - destruct (strip_prefix (chars "0X") s); naive_solver.
Qed.

Lemma strip_required_err s e : strip_required s = Err e <-> e = MissingPrefix s /\ forall t, ~ hex_prefixed s t.
Proof.
  split.
  - intros H. split; [|intros t Ht; apply strip_required_iff in Ht; congruence].
    unfold strip_required in H. repeat case_match; congruence.
  - intros [-> H]. destruct (strip_required s) as [t|e'] eqn:E.
    + apply strip_required_iff in E. by destruct (H t).
    + unfold strip_required in E. repeat case_match; congruence.
Qed.

Lemma strip_hex_prefix_cases s : hex_prefixed s (strip_hex_prefix s) \/
  strip_hex_prefix s = s /\ forall t, ~ hex_prefixed s t.
Proof.
  destruct (strip_required s) as [t|e] eqn:E.
  - left. apply strip_required_iff in E as Hp. unfold strip_required, strip_hex_prefix in *. repeat case_match; by simplify_eq.
  - right. apply strip_required_err in E as Hp. split; [|tauto].
    unfold strip_required, strip_hex_prefix in *. repeat case_match; by simplify_eq.
Qed.

Lemma hex_u32_iff s n : hex_u32 s = Ok n <-> reads u32T 16 (strip_hex_prefix s) n.
Proof.
  rewrite <- from_str_radix_iff by (cbn; lia). unfold hex_u32, map_err.
  destruct (from_str_radix u32T _ 16); naive_solver.
Qed.
Lemma hex_u128_iff s n : hex_u128 s = Ok n <-> reads u128T 16 (strip_hex_prefix s) n.
Proof.
  rewrite <- from_str_radix_iff by (cbn; lia). unfold hex_u128, map_err.
  destruct (from_str_radix u128T _ 16); naive_solver.
Qed.

(** Digits are no prefix. *)
Lemma digits_not_prefixed s : rdigits 16 s -> strip_hex_prefix s = s.
Proof.
  intros H. destruct (strip_hex_prefix_cases s) as [Hp|[? _]]; [|done]. exfalso.
  unfold rdigits in H. destruct Hp as [E|E]; rewrite E in H; apply Forall_inv_tail, Forall_inv in H as [d Hd]; done.
Qed.

Lemma digits_never_prefixed s : rdigits 16 s -> forall t, ~ hex_prefixed s t.
Proof.
  intros Hd t Ht. pose proof (digits_not_prefixed s Hd) as Hp.
  destruct (strip_hex_prefix_cases s) as [Hx|[_ Hnp]]; [|by destruct (Hnp t)].
  rewrite Hp in Hx. destruct Hx as [E|E]; apply (f_equal length) in E; simpl in E; lia.
Qed.

Lemma starts_with_prefixed s : (forall t, ~ hex_prefixed s t) ->
  starts_with_str (chars "0x") s || starts_with_str (chars "0X") s = false.
Proof.
  intros Hnp. unfold starts_with_str.
  destruct (strip_prefix (chars "0x") s) as [t|] eqn:E1; [apply strip_prefix_iff in E1; destruct (Hnp t); by left|].
  destruct (strip_prefix (chars "0X") s) as [t|] eqn:E2; [apply strip_prefix_iff in E2; destruct (Hnp t); by right|]. done.
Qed.

(** Hexadecimal digits of a number that fits are read with and without the prefix, in both cases
    of the letters. *)
Lemma sequence_from_hex_digits s : rdigits 16 s -> s <> [] -> rval 16 s < 2 ^ 32 ->
  sequence_from_hex (chars "0x" ++ s) = Ok (rval 16 s) /\ sequence_from_hex (chars "0X" ++ s) = Ok (rval 16 s) /\
  sequence_from_unprefixed_hex s = Ok (rval 16 s) /\ sequence_from_hex s = Err (MissingPrefix s).
Proof.
  intros Hd Hne Hv. pose proof (rval_bound 16 s ltac:(lia) Hd) as Hb.
  assert (hex_u32 s = Ok (rval 16 s)) as Hh.
  { apply hex_u32_iff. rewrite digits_not_prefixed by done. apply reads_unsigned; [done|].
    exists [], s. split_and!; auto. cbn. unfold in_u. lia. }
  pose proof (digits_never_prefixed s Hd) as Hnp. unfold sequence_from_hex, sequence_from_unprefixed_hex.
  rewrite (proj2 (strip_required_iff _ s)) by (by left). rewrite (proj2 (strip_required_iff _ s)) by (by right).
  cbn [mbind Result_bind]. rewrite starts_with_prefixed, Hh by done.
  by rewrite (proj2 (strip_required_err s _) (conj eq_refl Hnp)).
Qed.

(** ** Lock times *)

Lemma locktime_text l : Abs.wf l -> locktime_from_str (display_locktime false l) = Ok l.
Proof.
  intros Hl. pose proof (Abs.to_in_u l Hl) as Hu. unfold locktime_from_str.
  replace (display_locktime false l) with (display_u64 (Abs.to_consensus_u32 l)) by (by destruct l).
  rewrite display_int by (done || (unfold in_u in *; cbn; lia)). cbn. f_equal. by apply Abs.from_to.
Qed.

Lemma convert_iff {A} (f : Z -> Result Abs.ConversionError A) n a :
  from_parsed f n = Ok a <-> in_u 32 n /\ f n = Ok a.
Proof.
  unfold from_parsed. rewrite <- in_ub_spec. destruct (in_ub 32 n); cbn; [|naive_solver].
  unfold map_err. destruct (f n); naive_solver.
Qed.

Lemma height_from_consensus_iff n h : Abs.height_from_consensus n = Ok h <-> h = n /\ n < Abs.LOCK_TIME_THRESHOLD.
Proof. unfold Abs.height_from_consensus, Abs.is_block_height_n. destruct (Z.ltb_spec n Abs.LOCK_TIME_THRESHOLD); naive_solver lia. Qed.
Lemma time_from_consensus_iff n t : Abs.time_from_consensus n = Ok t <-> t = n /\ Abs.LOCK_TIME_THRESHOLD <= n.
Proof. unfold Abs.time_from_consensus, Abs.is_block_time_n. destruct (Z.leb_spec Abs.LOCK_TIME_THRESHOLD n); naive_solver lia. Qed.

Lemma parser_iff {A} (f : Z -> Result Abs.ConversionError A) s a :
  parser f s = Ok a <-> exists n, reads i64T 10 s n /\ in_u 32 n /\ f n = Ok a.
Proof.
  unfold parser. setoid_rewrite <- from_str_radix_iff; [|cbn; lia..]. setoid_rewrite <- convert_iff.
  destruct (from_str_radix i64T s 10); cbn; naive_solver.
Qed.
Lemma parse_hex_iff {A} (f : Z -> Result Abs.ConversionError A) s a :
  parse_hex f s = Ok a <-> exists n, reads i64T 16 (strip_hex_prefix s) n /\ in_u 32 n /\ f n = Ok a.
Proof.
  unfold parse_hex. setoid_rewrite <- from_str_radix_iff; [|cbn; lia..]. setoid_rewrite <- convert_iff.
  destruct (from_str_radix i64T _ 16); cbn; naive_solver.
Qed.

(** Heights and times in text: exactly the numerals of the range of the unit. *)
Lemma height_time_text s v :
  (height_from_str s = Ok v <-> reads i64T 10 s v /\ 0 <= v < Abs.LOCK_TIME_THRESHOLD) /\
  (time_from_str s = Ok v <-> reads i64T 10 s v /\ Abs.LOCK_TIME_THRESHOLD <= v < 2 ^ 32) /\
  (height_from_hex s = Ok v <-> reads i64T 16 (strip_hex_prefix s) v /\ 0 <= v < Abs.LOCK_TIME_THRESHOLD) /\
  (time_from_hex s = Ok v <-> reads i64T 16 (strip_hex_prefix s) v /\ Abs.LOCK_TIME_THRESHOLD <= v < 2 ^ 32).
Proof.
  unfold height_from_str, time_from_str, height_from_hex, time_from_hex. rewrite !parser_iff, !parse_hex_iff.
  setoid_rewrite height_from_consensus_iff. setoid_rewrite time_from_consensus_iff. unfold in_u, Abs.LOCK_TIME_THRESHOLD.
  split_and!; (split; [intros (n & Hr & Hn & -> & Ht); split; [done|lia] | intros [Hr Hv]; exists v; split_and!; done || lia]).
Qed.

(** A number outside the range is reported with the limit it violates. *)
Lemma height_error_text s n : from_str_radix i64T s 10 = Ok n -> ~ 0 <= n < Abs.LOCK_TIME_THRESHOLD ->
  exists e, height_from_str s = Err e /\ display_height_error e =
    chars "block height " ++ display_i64 n ++
    (if n <? 0 then chars " is below limit 0" else chars " is above limit 499999999").
Proof.
  intros Hp Hn. unfold height_from_str, parser. rewrite Hp. cbn. exists (Conversion n). split.
  - unfold from_parsed. destruct (in_ub 32 n) eqn:E; [|done]. apply in_ub_spec in E. unfold in_u in E.
    cbn. unfold Abs.height_from_consensus, Abs.is_block_height_n. by rewrite (proj2 (Z.ltb_ge _ _)) by lia.
  - unfold display_height_error, display_parse_error. change (chars "block height ") with (chars "block height" ++ chars " ").
    change (chars " is below limit 0") with (chars " is below limit " ++ display_u64 0).
    change (chars " is above limit 499999999") with (chars " is above limit " ++ display_u64 (Abs.LOCK_TIME_THRESHOLD - 1)).
    destruct (Z.ltb_spec n 0); reflexivity.
Qed.

(** The total order of lock times is the order of their consensus values, and extends the
    partial one. *)
Lemma locktime_cmp a b : Abs.wf a -> Abs.wf b ->
  locktime_arbitrary_cmp a b = (Abs.to_consensus_u32 a ?= Abs.to_consensus_u32 b) /\
  locktime_partial_cmp a b = if Abs.is_same_unit a b then Some (locktime_arbitrary_cmp a b) else None.
Proof.
  intros Ha Hb. destruct a, b; cbn in *; split; try done; symmetry; [apply Z.compare_lt_iff|apply Z.compare_gt_iff]; lia.
Qed.
Lemma rel_cmp a b : Seq.rel_wf a -> Seq.rel_wf b ->
  rel_arbitrary_cmp a b = (Seq.rel_to_consensus_u32 a ?= Seq.rel_to_consensus_u32 b) /\
  rel_partial_cmp a b = if Seq.rel_is_same_unit a b then Some (rel_arbitrary_cmp a b) else None.
Proof.
  intros Ha Hb. split; [|by destruct a, b].
  destruct a as [x|x], b as [y|y]; cbn [Seq.rel_wf] in *; cbn [rel_arbitrary_cmp Seq.rel_to_consensus_u32];
    rewrite ?(proj1 (seq_time_bits x Ha)), ?(proj1 (seq_time_bits y Hb)); unfold in_u in *.
  - done.
  - symmetry. apply Z.compare_lt_iff. lia.
  - symmetry. apply Z.compare_gt_iff. lia.
  - symmetry. rewrite !(Z.add_comm _ (2 ^ 22)). apply Z.add_compare_mono_l.
Qed.

(** ** Surprises *)

(** [from_hex] strips the prefix, and so does [hex_u32] that it calls: a doubled prefix passes. *)
Lemma doubled_prefix_accepted :
  locktime_from_hex (chars "0x0x1f") = Ok (Abs.Blocks 31) /\ sequence_from_hex (chars "0X0x1f") = Ok 31 /\
  compact_from_hex (chars "0x0X1f") = Ok 31 /\ sequence_from_hex (chars "0x+1f") = Ok 31 /\
  compact_from_unprefixed_hex (chars "0x1f") = Err (ContainsPrefix (chars "0x1f")).
Proof. by vm_compute. Qed.

(** A time that is too small is reported as a block height. *)
Lemma time_error_says_height : exists e, time_from_str (chars "7") = Err e /\
  display_time_error e = chars "block height 7 is below limit 500000000".
Proof. eexists. split; [by vm_compute|by vm_compute]. Qed.
