(* ===== verification/U256Text.v ===== *)
(** * The text and the floating-point value of a 256-bit integer ([pow.rs])

    Hexadecimal parsing of [U256], and through it of [Target] and [Work]; decimal formatting in
    a fixed buffer; the conversion to a binary64, given by its bits. *)

From Stdlib Require Import ZArith Lia.
From Stdlib Require Strings.String.
From coqutil Require Import Byte.
From stdpp Require Import base tactics option list numbers.
From S2P Require Import Prelude U256 Amount AmountText LockTime DerivationPath ParseInt.
Import String.StringSyntax.

#[local] Open Scope Z_scope.

(** ** Hexadecimal *)

(** [&s[..i]] and [&s[i..]] panic when [i] is inside a character. *)
Definition from_hex_internal (s : str) : comp ParseIntError U256 :=
  if str_len s <=? 32 then
    low ← of_result (hex_u128 s);
    Val (mkU256 0 low)
  else
    let high_len := str_len s - 32 in
    high_s ← of_run (slice_to s high_len);
    low_s ← of_run (slice_from s high_len);
    high ← of_result (hex_u128 high_s);
    low ← of_result (hex_u128 low_s);
    Val (mkU256 high low).

Definition map_throw {E F A} (f : E -> F) (m : comp E A) : comp F A :=
  match m with Val a => Val a | Throw e => Throw (f e) | Crash => Crash end.

Definition u256_from_hex (s : str) : comp PrefixedHexError U256 :=
  stripped ← of_result (strip_required s); map_throw PrefixedParseInt (from_hex_internal stripped).
Definition u256_from_unprefixed_hex (s : str) : comp UnprefixedHexError U256 :=
  if starts_with_str (chars "0x") s || starts_with_str (chars "0X") s then Throw (ContainsPrefix s)
  else map_throw UnprefixedParseInt (from_hex_internal s).

(** ** Decimal *)

Definition DIGITS : Z := 78.
Definition TEN : U256 := mkU256 0 10.

Section text.
Context {bm : BuildMode}.

(** The loop over the buffer, backwards from its end; it ends because the quotient does. *)
Fixpoint fmt_decimal_loop (fuel : nat) (buf : list Z) (i : Z) (cur : U256) : run (list Z * Z) :=
  match fuel with
  | O => Panic
  | S fuel =>
      r ← U256.rem cur TEN;
      let digit := wrap 8 (U256.low_u128 r) in
      b ← arith_u 8 (digit + 0x30);
      _ ← index buf i;
      let buf := <[Z.to_nat i := b]> buf in
      cur ← U256.div cur TEN;
      if U256.is_zero cur then Ret (buf, i)
      else i ← arith_u 64 (i - 1); fmt_decimal_loop fuel buf i cur
  end.

(** The text given to [pad_integral]; the bytes of the buffer are ASCII digits. *)
Definition fmt_decimal (self : U256) : run str :=
  '(buf, i) ← fmt_decimal_loop 79 (replicate (Z.to_nat DIGITS) 0) (DIGITS - 1) self;
  let s := drop (Z.to_nat i) buf in
  _ ← assert_ (forallb (fun b => b <? 0x80) s);
  Ret s.
Definition display_u256 (self : U256) : run str :=
  if U256.is_zero self then Ret (chars "0") else fmt_decimal self.

(** ** Binary64 *)

(** The bits of the result. *)
Definition to_f64 (self : U256) : run Z :=
  leading_zeroes ← arith_u 32 (256 - U256.bits self);
  let left_aligned := U256.wrapping_shl self leading_zeroes in
  let middle_aligned := U256.shr left_aligned 75 in
  let mantissa := hi middle_aligned in
  let dropped_bits := Z.lor (lo middle_aligned) (Z.land (lo left_aligned) 0x7FFFFFFFFFFFFFFFFFF) in
  rest ← arith_u 128 (dropped_bits - Z.land (Z.shiftr dropped_bits 127) (u128_MAX - mantissa));
  sum ← arith_u 128 (mantissa + Z.shiftr rest 127);
  let mantissa := wrap 64 sum in
  exponent ← (if U256.eqb self U256.ZERO then Ret 0 else arith_u 64 (1277 - leading_zeroes));
  arith_u 64 (wrap 64 (Z.shiftl exponent 52) + mantissa).
End text.

(** ** Hexadecimal strings of digits *)

Lemma to_digit_ascii r c : is_Some (to_digit r c) -> len_utf8 c = 1.
Proof.
  intros [d Hd]. unfold to_digit, is_digit in Hd. unfold len_utf8.
  repeat case_match; try done; rewrite ?Z.ltb_lt, ?Z.ltb_ge in *;
    repeat match goal with H : _ && _ = true |- _ => apply andb_true_iff in H as [?%Z.leb_le ?%Z.leb_le] end; lia.
Qed.

Lemma rdigits_len r s : rdigits r s -> str_len s = Z.of_nat (length s).
Proof.
  induction s as [|c s IH]; [done|]. intros H. cbn [str_len length].
  rewrite (to_digit_ascii r c (Forall_inv H)), (IH (Forall_inv_tail H)). lia.
Qed.

Lemma hex_u128_digits s : rdigits 16 s -> s <> [] -> rval 16 s < 2 ^ 128 -> hex_u128 s = Ok (rval 16 s).
Proof.
  intros Hd Hne Hv. apply hex_u128_iff. rewrite digits_not_prefixed by done. apply reads_unsigned; [done|].
  pose proof (rval_bound 16 s ltac:(lia) Hd). exists [], s. split_and!; auto. cbn. unfold in_u. lia.
Qed.

Lemma hex_u128_too_large s : rdigits 16 s -> 2 ^ 128 <= rval 16 s -> exists e, hex_u128 s = Err e.
Proof.
  intros Hd Hv. destruct (hex_u128 s) as [n|e] eqn:E; [exfalso|by eexists].
  apply hex_u128_iff in E. rewrite digits_not_prefixed in E by done. apply reads_unsigned in E; [|done].
  destruct E as (sign & ds & -> & [-> | ->] & Hne & _ & -> & Hn); [cbn [app ty_bits u128T] in *; unfold in_u in Hn; lia|].
  by eapply sign_not_read; [left|].
Qed.

(** A string of hexadecimal digits denotes its number when it fits in 256 bits, and is an error
    when it does not. *)
Lemma from_hex_internal_digits s : rdigits 16 s -> s <> [] ->
  if rval 16 s <? 2 ^ 256 then from_hex_internal s = Val (of_val (rval 16 s))
  else exists e, from_hex_internal s = Throw e.
Proof.
  intros Hd Hne. pose proof (rval_bound 16 s ltac:(lia) Hd) as Hb. unfold from_hex_internal.
  rewrite (rdigits_len 16) by done. destruct (Z.leb_spec (Z.of_nat (length s)) 32) as [Hl|Hl].
  - assert (16 ^ Z.of_nat (length s) <= 16 ^ 32) by (apply Z.pow_le_mono_r; lia).
    rewrite (proj2 (Z.ltb_lt _ _)) by lia. rewrite hex_u128_digits by (done || lia). cbn. f_equal. unfold of_val.
    by rewrite Z.div_small, Z.mod_small by lia.
  - assert (exists h l, s = h ++ l /\ length l = 32%nat) as (h & l & -> & Hll).
    { exists (take (length s - 32) s), (drop (length s - 32) s). rewrite take_drop, length_drop. split; [done|lia]. }
    rewrite length_app in *.
    apply Forall_app in Hd as [Hdh Hdl].
    replace (Z.of_nat (length h + length l) - 32) with (str_len h) by (rewrite (rdigits_len 16) by done; lia).
    rewrite slice_to_app, slice_from_app. cbn [of_run mbind comp_bind].
    rewrite rval_app in Hb |- * by lia. rewrite Hll in Hb |- *. change (16 ^ Z.of_nat 32) with (2 ^ 128).
    pose proof (rval_bound 16 l ltac:(lia) Hdl) as Hbl. rewrite Hll in Hbl. change (16 ^ Z.of_nat 32) with (2 ^ 128) in Hbl.
    assert (h <> []) by (intros ->; simpl in Hl; lia). assert (l <> []) by (intros ->; done).
    pose proof (rval_bound 16 h ltac:(lia) Hdh) as Hbh.
    destruct (Z.ltb_spec (rval 16 h * 2 ^ 128 + rval 16 l) (2 ^ 256)).
    + rewrite !hex_u128_digits by (done || lia). cbn. f_equal. unfold of_val. f_equal.
      * apply Z.div_unique with (rval 16 l); lia.
      * apply Z.mod_unique with (rval 16 h); lia.
    + destruct (hex_u128_too_large h Hdh ltac:(lia)) as [e ->]. by eexists.
Qed.

(** With either prefix, or without one where none is allowed. *)
Lemma u256_hex_digits s : rdigits 16 s -> s <> [] -> rval 16 s < 2 ^ 256 ->
  u256_from_hex (chars "0x" ++ s) = Val (of_val (rval 16 s)) /\ u256_from_hex (chars "0X" ++ s) = Val (of_val (rval 16 s)) /\
  u256_from_unprefixed_hex s = Val (of_val (rval 16 s)) /\ u256_from_hex s = Throw (MissingPrefix s).
Proof.
  intros Hd Hne Hv. pose proof (from_hex_internal_digits s Hd Hne) as H. rewrite (proj2 (Z.ltb_lt _ _)) in H by done.
  pose proof (digits_never_prefixed s Hd) as Hnp. unfold u256_from_hex, u256_from_unprefixed_hex.
  rewrite (proj2 (strip_required_iff _ s)) by (by left). rewrite (proj2 (strip_required_iff _ s)) by (by right).
  cbn [of_result mbind comp_bind]. rewrite starts_with_prefixed by done. rewrite H.
  by rewrite (proj2 (strip_required_err s _) (conj eq_refl Hnp)).
Qed.

(** A character of two bytes across the boundary between the halves is a panic, and a prefix or
    a sign inside the string is accepted. *)
Lemma u256_from_hex_surprises :
  u256_from_hex (chars "0x" ++ [0xe9] ++ replicate 31 ZERO_CHAR) = Crash /\
  u256_from_hex (chars "0x1+" ++ replicate 31 ZERO_CHAR) = Val (mkU256 1 0) /\
  u256_from_hex (chars "0x10x" ++ replicate 30 ZERO_CHAR) = Val (mkU256 1 0).
Proof. by vm_compute. Qed.

(** ** Decimal *)

Section decimal.
Context {bm : BuildMode}.

Lemma rem_ten x : wf x -> exists r, U256.rem x TEN = Ret r /\ U256.low_u128 r = val x mod 10.
Proof.
  intros Hx. destruct (div_rem_spec x TEN Hx ltac:(done) ltac:(done)) as (q & r & E & _ & Hr & _ & V).
  exists r. unfold U256.rem. rewrite E. split; [done|]. change (val TEN) with 10 in V.
  unfold U256.low_u128. pose proof (Z.mod_pos_bound (val x) 10 ltac:(lia)).
  destruct r as [h l]. unfold wf, in_u, val in *. cbn [hi lo] in *. lia.
Qed.

Lemma drop_insert_here {A} (l : list A) i b : (i < length l)%nat -> drop i (<[i:=b]> l) = b :: drop (S i) l.
Proof. intros Hi. rewrite (drop_S _ b) by (by apply list_lookup_insert_eq). by rewrite drop_insert_lt by lia. Qed.

Lemma fmt_decimal_loop_spec fuel : forall buf i x, wf x -> (i < fuel)%nat -> (i < length buf)%nat -> (i < 78)%nat ->
  val x < 10 ^ Z.of_nat (S i) -> exists buf' j, fmt_decimal_loop fuel buf (Z.of_nat i) x = Ret (buf', j) /\
    drop (Z.to_nat j) buf' = rev (digits_rev (S i) (val x)) ++ drop (S i) buf.
Proof.
  induction fuel as [|fuel IH]; intros buf i x Hx Hf Hl Hi Hv; [lia|]. cbn [fmt_decimal_loop].
  destruct (rem_ten x Hx) as (r & -> & Er). rewrite bind_Ret, Er. pose proof (Z.mod_pos_bound (val x) 10 ltac:(lia)).
  rewrite (wrap_small 8) by (unfold in_u; lia). rewrite (arith_u_small 8), bind_Ret by (unfold in_u; lia).
  destruct (lookup_lt_is_Some_2 buf i Hl) as [b0 Hb0]. rewrite (proj2 (index_Ret buf (Z.of_nat i) b0)) by (rewrite ?Nat2Z.id; split; done || lia).
  rewrite bind_Ret. destruct (div_spec x TEN Hx ltac:(done) ltac:(done)) as (q & -> & Hq & Vq). rewrite bind_Ret.
  change (val TEN) with 10 in Vq. rewrite is_zero_val, Vq, Nat2Z.id by done. cbn [digits_rev rev].
  destruct (Z.eqb_spec (val x / 10) 0) as [E|E].
  - eexists _, _. split; [done|]. rewrite Nat2Z.id, drop_insert_here by done. cbn. by rewrite (Z.add_comm 48).
  - pose proof (val_range x Hx). destruct i as [|i].
    { change (10 ^ Z.of_nat 1) with 10 in Hv. destruct E. apply Z.div_small. lia. }
    replace (Z.of_nat (S i) - 1) with (Z.of_nat i) by lia. rewrite arith_u_small, bind_Ret by (unfold in_u; lia).
    edestruct (IH (<[S i:=val x mod 10 + 48]> buf) i q) as (buf' & j & -> & Ed); rewrite ?length_insert; try done; try lia.
    + rewrite Vq. apply Z.div_lt_upper_bound; [lia|]. rewrite <- Z.pow_succ_r by lia. by replace (Z.succ (Z.of_nat (S i))) with (Z.of_nat (S (S i))) by lia.
    + eexists _, _. split; [done|]. rewrite Ed, Vq, drop_insert_here by done.
      rewrite <- app_assoc. by rewrite (Z.add_comm 48).
Qed.

(** Every 256-bit number is printed as its decimal numeral, without a leading zero, and no index
    leaves the buffer of 78 digits. *)
Lemma display_u256_spec x : wf x ->
  display_u256 x = Ret (rev (digits_rev 78 (val x))) /\
  digits (rev (digits_rev 78 (val x))) /\ dval (rev (digits_rev 78 (val x))) = val x.
Proof.
  intros Hx. pose proof (val_range x Hx) as Hv.
  assert (0 <= val x < 10 ^ Z.of_nat 78) as Hv'.
  { split; [lia|]. apply Z.lt_trans with (2 ^ 256); [lia|]. vm_compute. done. }
  destruct (digits_rev_spec 78 (val x) ltac:(lia) Hv') as (Hd & Hn & _). split; [|done].
  unfold display_u256. rewrite is_zero_val by done. destruct (Z.eqb_spec (val x) 0) as [->|Hnz]; [done|].
  unfold fmt_decimal. change (DIGITS - 1) with (Z.of_nat 77).
  destruct (fmt_decimal_loop_spec 79 (replicate (Z.to_nat DIGITS) 0) 77 x Hx ltac:(lia) ltac:(rewrite length_replicate; unfold DIGITS; lia)
    ltac:(lia) (proj2 Hv')) as (buf & j & -> & E).
  rewrite (drop_ge (replicate _ _)) in E by (rewrite length_replicate; unfold DIGITS; lia).
  rewrite bind_Ret. rewrite E, app_nil_r. assert (forallb (fun b => b <? 128) (rev (digits_rev 78 (val x))) = true) as ->; [|done].
  unfold digits in Hd. rewrite forallb_forall in Hd |- *. intros c Hc. specialize (Hd c Hc). apply is_digit_spec in Hd.
  apply Z.ltb_lt. lia.
Qed.
End decimal.

(** ** Rounding to the nearest binary64 *)

(** [a / d] rounded to the nearest integer, ties to even. *)
Definition round_half_even (a d : Z) : Z :=
  let q := a / d in
  match 2 * (a mod d) ?= d with
  | Lt => q
  | Gt => q + 1
  | Eq => if Z.even q then q else q + 1
  end.

(** [2^52] times the value of a binary64 of at least one, given by its bits: a significand of 53 bits with
    its leading bit implicit, scaled by the exponent field. *)
Definition f64_scaled (b : Z) : Z := (2 ^ 52 + b mod 2 ^ 52) * 2 ^ (b / 2 ^ 52 - 1023).
(** A finite number with its sign bit clear and an exponent of zero or more. *)
Definition f64_at_least_one (b : Z) : Prop := 1023 <= b / 2 ^ 52 < 2047.

Lemma round_half_even_scale a d k : 0 < d -> 0 < k -> round_half_even (a * k) (d * k) = round_half_even a d.
Proof.
  intros Hd Hk. unfold round_half_even. rewrite Z.div_mul_cancel_r, Zmult_mod_distr_r by lia.
  replace (2 * (a mod d * k)) with (2 * (a mod d) * k) by ring.
  rewrite <- (Zmult_compare_compat_r (2 * (a mod d)) d k) by lia. done.
Qed.

(** The result is within half a unit of the quotient, and a tie goes to the even neighbour. *)
Lemma round_half_even_nearest a d : 0 < d ->
  2 * Z.abs (a - round_half_even a d * d) <= d /\
  (2 * Z.abs (a - round_half_even a d * d) = d -> Z.even (round_half_even a d) = true).
Proof.
  intros Hd. unfold round_half_even. pose proof (Z.div_mod a d ltac:(lia)). pose proof (Z.mod_pos_bound a d Hd).
  destruct (Z.compare_spec (2 * (a mod d)) d).
  - destruct (Z.even (a / d)) eqn:Ev; split; try nia; intros _; [done|].
    rewrite Z.even_add, Ev. done.
  - split; nia.
  - split; nia.
Qed.

Section float.
Context {bm : BuildMode}.

(** The branch-free rounding: the dropped bits, with everything below their top 128 folded in. *)
Lemma f64_round_step m d s : in_u 53 m -> in_u 128 d -> 0 <= s < 2 ^ 75 ->
  let D := Z.lor d s in
  in_u 128 (D - Z.land (Z.shiftr D 127) (u128_MAX - m)) /\
  m + Z.shiftr (D - Z.land (Z.shiftr D 127) (u128_MAX - m)) 127 = round_half_even (m * 2 ^ 203 + d * 2 ^ 75 + s) (2 ^ 203).
Proof.
  intros Hm Hd Hs D. unfold in_u in *.
  assert (round_half_even (m * 2 ^ 203 + d * 2 ^ 75 + s) (2 ^ 203) =
    match d * 2 ^ 75 + s ?= 2 ^ 202 with Lt => m | Gt => m + 1 | Eq => if Z.even m then m else m + 1 end) as ->.
  { unfold round_half_even. set (t := d * 2 ^ 75 + s). assert (0 <= t < 2 ^ 203) by (unfold t; lia).
    replace (m * 2 ^ 203 + d * 2 ^ 75 + s) with (m * 2 ^ 203 + t) by (unfold t; ring).
    replace ((m * 2 ^ 203 + t) / 2 ^ 203) with m by (apply Z.div_unique with t; lia).
    replace ((m * 2 ^ 203 + t) mod 2 ^ 203) with t by (apply Z.mod_unique with m; lia).
    destruct (Z.compare_spec (2 * t) (2 ^ 203)), (Z.compare_spec t (2 ^ 202)); done || lia. }
  assert (Z.land 1 (u128_MAX - m) = if Z.even m then 1 else 0) as Hl.
  { rewrite Z.land_comm. change 1 with (Z.ones 1). rewrite Z.land_ones, Zmod_even by lia.
    rewrite Z.even_sub. change (Z.even u128_MAX) with false. by destruct (Z.even m). }
  destruct (Z.lt_ge_cases d (2 ^ 127)) as [Hlt|Hge].
  - assert (0 <= D < 2 ^ 127) by (apply (lor_in_u 127); unfold in_u; lia).
    rewrite (Z.shiftr_div_pow2 D 127), (Z.div_small D) by lia. rewrite Z.land_0_l, Z.sub_0_r, Z.shiftr_div_pow2, Z.div_small by lia.
    destruct (Z.compare_spec (d * 2 ^ 75 + s) (2 ^ 202)); lia.
  - set (x := Z.lor (d - 2 ^ 127) s). assert (0 <= x < 2 ^ 127) as Hx by (apply (lor_in_u 127); unfold in_u; lia).
    assert (D = 2 ^ 127 + x) as HD.
    { unfold D, x. replace d with ((d - 2 ^ 127) + 1 * 2 ^ 127) at 1 by lia. rewrite <- (lor_add_disjoint _ 1 127) by lia.
      rewrite <- Z.lor_assoc, (Z.lor_comm _ s), Z.lor_assoc. rewrite (lor_add_disjoint _ 1 127) by first [lia | apply (lor_in_u 127); unfold in_u; lia]. unfold x. lia. }
    assert (x = 0 <-> d = 2 ^ 127 /\ s = 0) as Hx0 by (unfold x; rewrite Z.lor_eq_0_iff; lia).
    assert (Z.shiftr D 127 = 1) as -> by (rewrite Z.shiftr_div_pow2 by lia; symmetry; apply Z.div_unique with x; lia).
    rewrite Hl, Z.shiftr_div_pow2 by lia. split; [destruct (Z.even m); lia|].
    destruct (Z.compare_spec (d * 2 ^ 75 + s) (2 ^ 202)) as [E|E|E]; [|lia|].
    + assert (x = 0) as E0 by (apply Hx0; lia). destruct (Z.even m).
      * rewrite Z.div_small; lia.
      * replace ((D - 0) / 2 ^ 127) with 1; [done|]. apply Z.div_unique with 0; lia.
    + assert (x <> 0) by (rewrite Hx0; lia). replace ((D - (if Z.even m then 1 else 0)) / 2 ^ 127) with 1; [done|].
      destruct (Z.even m); [apply Z.div_unique with (x - 1)|apply Z.div_unique with x]; lia.
Qed.

(** The words of the aligned number, and of its shift by 75. *)
Lemma aligned_words x n : wf x -> bit_length (val x) = n -> 0 < n ->
  let L := val x * 2 ^ (256 - n) in
  let left := U256.wrapping_shl x (256 - n) in
  let mid := U256.shr left 75 in
  2 ^ 255 <= L < 2 ^ 256 /\ in_u 53 (hi mid) /\ in_u 128 (lo mid) /\ 0 <= Z.land (lo left) 0x7FFFFFFFFFFFFFFFFFF < 2 ^ 75 /\
  L = hi mid * 2 ^ 203 + lo mid * 2 ^ 75 + Z.land (lo left) 0x7FFFFFFFFFFFFFFFFFF.
Proof.
  intros Hx Hn Hpos L left mid. pose proof (val_range x Hx).
  pose proof (bit_length_bound (val x) ltac:(lia)) as B1. pose proof (bit_length_le (val x) 256 ltac:(lia) ltac:(lia)).
  assert (0 < val x) as Hv by (destruct (Z.eq_dec (val x) 0) as [E|]; [rewrite E in Hn; cbn in Hn; lia|lia]).
  pose proof (bit_length_lower (val x) Hv) as B2. rewrite Hn in *.
  assert (2 ^ 255 <= L < 2 ^ 256) as HL.
  { unfold L. replace (2 ^ 255) with (2 ^ (n - 1) * 2 ^ (256 - n)) by (rewrite <- Z.pow_add_r by lia; f_equal; lia).
    replace (2 ^ 256) with (2 ^ n * 2 ^ (256 - n)) by (rewrite <- Z.pow_add_r by lia; f_equal; lia).
    pose proof (pow2_pos (256 - n) ltac:(lia)). nia. }
  destruct (wrapping_shl_spec x (256 - n) Hx) as [Hwl Vl]. fold left in Hwl, Vl.
  rewrite (Z.mod_small (256 - n)) in Vl by lia. fold L in Vl. rewrite Z.mod_small in Vl by lia.
  destruct (shr_small left 75 Hwl ltac:(lia)) as [Hwm Vm]. fold mid in Hwm, Vm. rewrite Vl in Vm.
  change 0x7FFFFFFFFFFFFFFFFFF with (Z.ones 75). rewrite Z.land_ones by lia.
  pose proof (Z.mod_pos_bound (lo left) (2 ^ 75) ltac:(lia)) as Hs. destruct Hwl as [_ Hll]. destruct Hwm as [Hmh Hml].
  assert (L mod 2 ^ 75 = lo left mod 2 ^ 75) as Hmod.
  { rewrite <- Vl. unfold val. replace (hi left * 2 ^ 128 + lo left) with (lo left + hi left * 2 ^ 53 * 2 ^ 75) by ring.
    by rewrite Z.mod_add by lia. }
  pose proof (Z.div_mod L (2 ^ 75) ltac:(lia)) as Hdm. rewrite <- Vm, Hmod in Hdm. unfold val in Hdm.
  unfold in_u in *. split_and!; try lia.
Qed.

(** The bits put together: the carry of a rounding up to [2^53] goes into the exponent. *)
Lemma f64_assemble n m : 1 <= n <= 256 -> 2 ^ 52 <= m <= 2 ^ 53 ->
  let b := (1021 + n) * 2 ^ 52 + m in f64_at_least_one b /\ f64_scaled b = m * 2 ^ (n - 1) /\ in_u 64 b.
Proof.
  intros Hn Hm b. unfold f64_at_least_one, f64_scaled. destruct (Z.eq_dec m (2 ^ 53)) as [->|Hne].
  - assert (b = (1023 + n) * 2 ^ 52) as -> by (unfold b; lia). rewrite Z.div_mul, Z.mod_mul by lia.
    replace (1023 + n - 1023) with (1 + (n - 1)) by lia. rewrite Z.pow_add_r by lia. split_and!; [lia..|unfold in_u; nia].
  - assert (b / 2 ^ 52 = 1022 + n) as -> by (symmetry; apply Z.div_unique with (m - 2 ^ 52); unfold b; lia).
    assert (b mod 2 ^ 52 = m - 2 ^ 52) as -> by (symmetry; apply Z.mod_unique with (1022 + n); unfold b; lia).
    replace (1022 + n - 1023) with (n - 1) by lia. split_and!; [lia..|unfold in_u, b; nia].
Qed.

Lemma to_f64_zero : to_f64 U256.ZERO = Ret 0.
Proof. destruct bm; vm_compute; done. Qed.

Lemma to_f64_pos x : wf x -> 0 < val x -> let n := bit_length (val x) in
  to_f64 x = Ret ((1021 + n) * 2 ^ 52 + round_half_even (val x * 2 ^ 52) (2 ^ (n - 1))) /\
  2 ^ 52 <= round_half_even (val x * 2 ^ 52) (2 ^ (n - 1)) <= 2 ^ 53.
Proof.
  intros Hx Hv n. pose proof (val_range x Hx) as Hr. pose proof (bit_length_pos (val x) Hv) as Hn. fold n in Hn.
  pose proof (bit_length_le (val x) 256 ltac:(lia) ltac:(lia)) as Hn'. fold n in Hn'.
  destruct (aligned_words x n Hx eq_refl Hn) as (HL & Hm & Hd & Hs & EL).
  destruct (f64_round_step _ _ _ Hm Hd Hs) as [Hrest Hround]. rewrite <- EL in Hround.
  set (M := round_half_even (val x * 2 ^ 52) (2 ^ (n - 1))).
  assert (round_half_even (val x * 2 ^ (256 - n)) (2 ^ 203) = M) as EM.
  { unfold M. rewrite <- (round_half_even_scale (val x * 2 ^ (256 - n)) (2 ^ 203) (2 ^ 52)) by lia.
    rewrite <- (round_half_even_scale (val x * 2 ^ 52) (2 ^ (n - 1)) (2 ^ (256 - n))) by (apply pow2_pos; lia).
    rewrite <- !Z.pow_add_r by lia. f_equal; [ring|]. f_equal. lia. }
  rewrite EM in Hround.
  assert (2 ^ 52 <= M <= 2 ^ 53) as HM.
  { pose proof (round_half_even_nearest (val x * 2 ^ (256 - n)) (2 ^ 203) ltac:(lia)) as [Hnear _]. rewrite EM in Hnear. lia. }
  split; [|done]. unfold to_f64. rewrite bits_val by done. fold n.
  rewrite (arith_u_small 32), bind_Ret by (unfold in_u; lia). cbv zeta.
  rewrite (arith_u_small 128), bind_Ret by exact Hrest. rewrite (arith_u_small 128), bind_Ret by (unfold in_u; lia).
  rewrite Hround. rewrite eqb_val by done. change (val U256.ZERO) with 0. rewrite (proj2 (Z.eqb_neq _ _)) by lia.
  rewrite (arith_u_small 64), bind_Ret by (unfold in_u; lia). rewrite Z.shiftl_mul_pow2, !wrap_small by (unfold in_u; nia).
  rewrite arith_u_small by (unfold in_u; nia). f_equal. lia.
Qed.

(** [to_f64] never panics and is correctly rounded: zero is zero; a positive number gives the
    binary64 nearest to it, ties to even, in units of its 53rd significant bit; numbers below
    [2^53] are exact. *)
Lemma to_f64_nearest (x : U256) (Hx : wf x) : exists b, to_f64 x = Ret b /\ in_u 64 b /\
  (val x = 0 -> b = 0) /\
  (0 < val x -> let unit := 2 ^ (bit_length (val x) - 1) in
    f64_at_least_one b /\ f64_scaled b = round_half_even (val x * 2 ^ 52) unit * unit /\
    2 * Z.abs (val x * 2 ^ 52 - f64_scaled b) <= unit /\
    (val x < 2 ^ 53 -> f64_scaled b = val x * 2 ^ 52)).
Proof.
  pose proof (val_range x Hx) as Hr. destruct (Z.eq_dec (val x) 0) as [E|Hne].
  - exists 0. assert (x = U256.ZERO) as -> by (apply val_inj; done). rewrite to_f64_zero. split_and!; try done; unfold in_u; lia.
  - destruct (to_f64_pos x Hx ltac:(lia)) as [E HM]. pose proof (bit_length_pos (val x) ltac:(lia)).
    pose proof (bit_length_le (val x) 256 ltac:(lia) ltac:(lia)).
    destruct (f64_assemble (bit_length (val x)) _ ltac:(lia) HM) as (H1 & H2 & H3).
    eexists. split; [exact E|]. split; [done|]. split; [lia|]. intros _ unit. fold unit in H2 |- *.
    pose proof (pow2_pos (bit_length (val x) - 1) ltac:(lia)) as Hu. fold unit in Hu.
    destruct (round_half_even_nearest (val x * 2 ^ 52) unit Hu) as [Hnear _].
    split; [done|]. split; [done|]. rewrite H2. split; [done|]. intros H53.
    pose proof (bit_length_le (val x) 53 ltac:(lia) ltac:(lia)).
    assert (2 ^ 52 = 2 ^ (53 - bit_length (val x)) * unit) as E52 by (unfold unit; rewrite <- Z.pow_add_r by lia; f_equal; lia).
    set (k := val x * 2 ^ (53 - bit_length (val x))). assert (val x * 2 ^ 52 = k * unit) as E' by (unfold k; nia).
    rewrite E'. unfold round_half_even. rewrite Z.div_mul, Z.mod_mul by lia.
    by rewrite (proj2 (Z.compare_lt_iff (2 * 0) unit)) by lia.
Qed.
End float.

(** [TARGET_MAX_F64] is the value [to_f64] gives for the largest Bitcoin target [0xFFFF << 208]:
    that number is a binary64, and the decimal literal is closer to it than half a unit. *)
Definition TARGET_MAX_F64 : Z := 2695953529101131 * 10 ^ 52.
Lemma target_max_f64 {bm : BuildMode} : exists b, to_f64 (mkU256 (Z.shiftl 0xFFFF 80) 0) = Ret b /\
  f64_scaled b = Z.shiftl 0xFFFF 208 * 2 ^ 52 /\ 2 * Z.abs (TARGET_MAX_F64 * 2 ^ 52 - f64_scaled b) < 2 ^ 223.
Proof. eexists. destruct bm; (split; [vm_compute; reflexivity|split; vm_compute; reflexivity]). Qed.
