(* ===== verification/HexText.v ===== *)
(** * Hashes, outpoints and public keys in hexadecimal ([hashes/src/util.rs], [transaction.rs], [key.rs])

    Hashes are printed in hexadecimal, some of them backwards; an outpoint is a transaction id, a
    colon and a canonical index; a public key is its serialisation.  The [hex] crate is the class
    [HexCrate]; what it documents is [HexLaws]. *)

From Stdlib Require Import ZArith Lia.
From Stdlib Require Strings.String.
From coqutil Require Import Byte.
From stdpp Require Import base tactics option list numbers.
From S2P Require Import Prelude Io Transaction Base58 Keys Amount AmountText LockTime DerivationPath ParseInt U256Text.
Import String.StringSyntax.

#[local] Open Scope Z_scope.

(** ** The hexadecimal of byte strings *)

Inductive HexToArrayError := InvalidChar (c : Z) | InvalidLength (len : Z).
#[export] Instance HexToArrayError_eq_dec : EqDecision HexToArrayError.
Proof. solve_decision. Defined.

(** [bytes.as_hex()] in both cases, and [<[u8; n]>::from_hex]. *)
Class HexCrate := {
  hex_lower : list byte -> str;
  hex_upper : list byte -> str;
  from_hex : nat -> str -> Result HexToArrayError (list byte);
}.

Definition is_lower_hex (c : Z) : bool := is_digit c || (0x61 <=? c) && (c <=? 0x66).
Definition is_upper_letter (c : Z) : bool := (0x41 <=? c) && (c <=? 0x5a).
(** [char::to_ascii_lowercase] *)
Definition lowercase (c : Z) : Z := if is_upper_letter c then c + 0x20 else c.

(** Two digits for each byte; parsing an array reads the digits of its bytes in either case, checks the length
    first, and reports a bad digit otherwise. *)
Class HexLaws (H : HexCrate) : Prop := {
  hex_lower_digits bs : forallb is_lower_hex (hex_lower bs) = true;
  hex_lower_length bs : length (hex_lower bs) = (2 * length bs)%nat;
  hex_upper_lower bs : map lowercase (hex_upper bs) = hex_lower bs;
  from_hex_ok n s bs : from_hex n s = Ok bs <-> length bs = n /\ hex_lower bs = map lowercase s;
  from_hex_length n s l : from_hex n s = Err (InvalidLength l) <-> str_len s <> 2 * Z.of_nat n /\ l = str_len s;
}.

(** ** Hash types *)

Section hashes.
Context {H : HexCrate}.

(** The two formatting macros and the two parsers of a hash type of [LEN] bytes. *)
Definition hash_lower_hex (backward : bool) (self : list byte) : str :=
  if backward then hex_lower (rev self) else hex_lower self.
Definition hash_upper_hex (backward : bool) (self : list byte) : str :=
  if backward then hex_upper (rev self) else hex_upper self.
Definition hash_from_str (backward : bool) (LEN : nat) (s : str) : Result HexToArrayError (list byte) :=
  bytes ← from_hex LEN s; Ok (if backward then rev bytes else bytes).

Inductive HashFromSliceError := mkHashFromSlice (expected got : nat).
Definition hash_from_slice (LEN : nat) (sl : list byte) : Result HashFromSliceError (list byte) :=
  if negb (length sl =? LEN)%nat then Err (mkHashFromSlice LEN (length sl)) else Ok sl.

(** ** Outpoints *)

(** A transaction id is displayed backwards. *)
Definition txid_from_str (s : str) : Result HexToArrayError (list byte) := hash_from_str true 32 s.
Definition display_txid (t : list byte) : str := hash_lower_hex true t.

Inductive ParseOutPointError :=
| OpTxid (e : HexToArrayError)
| OpVout (e : ParseIntError)
| OpFormat
| OpTooLong
| OpVoutNotCanonical.
#[export] Instance ParseOutPointError_eq_dec : EqDecision ParseOutPointError.
Proof. solve_decision. Defined.

Definition COLON : Z := 0x3a.
Definition display_outpoint (self : OutPoint) : str := display_txid (txid self) ++ [COLON] ++ display_u64 (vout self).

(** [s.rfind(c)] *)
Definition rfind_char (c : Z) (s : str) : option Z :=
  fst <$> List.find (fun ic => snd ic =? c) (rev (char_indices s)).

(** [s.chars().next().unwrap()] *)
Definition first_char (s : str) : run Z := match s with c :: _ => Ret c | [] => Panic end.

Definition parse_vout (s : str) : comp ParseOutPointError Z :=
  _ ← (if 1 <? str_len s then
         first ← of_run (first_char s);
         if (first =? ZERO_CHAR) || (first =? PLUS) then Throw OpVoutNotCanonical else Val tt
       else Val tt);
  of_result (map_err OpVout (int u32T s)).

Definition outpoint_from_str {bm : BuildMode} (s : str) : comp ParseOutPointError OutPoint :=
  if 75 <? str_len s then Throw OpTooLong
  else
    let find := find_char COLON s in
    match find with
    | None => Throw OpFormat
    | Some colon =>
        if bool_decide (find <> rfind_char COLON s) then Throw OpFormat
        else
          last ← of_run (arith_u 64 (str_len s - 1));
          if (colon =? 0) || (colon =? last) then Throw OpFormat
          else
            t ← of_run (slice_to s colon);
            txid ← of_result (map_err OpTxid (txid_from_str t));
            next ← of_run (arith_u 64 (colon + 1));
            v ← of_run (slice_from s next);
            vout ← parse_vout v;
            Val (mkOutPoint txid vout)
    end.

(** ** Public keys *)

Context {bm : BuildMode} {S : SecpKeys}.

Definition display_public_key (self : PublicKey) : str := with_serialized self hex_lower.

Inductive ParsePublicKeyError :=
| PkEncoding (e : FromSliceError)
| PkInvalidChar (c : Z)
| PkInvalidHexLength (len : Z).

(** The match on the error of [from_hex]: [unreachable!] on a length error. *)
Definition array_char_error (r : Result HexToArrayError (list byte)) : comp ParsePublicKeyError (list byte) :=
  match r with
  | Ok bytes => Val bytes
  | Err (InvalidChar c) => Throw (PkInvalidChar c)
  | Err (InvalidLength _) => Crash
  end.

Definition public_key_from_str (s : str) : comp ParsePublicKeyError PublicKey :=
  if str_len s =? 66 then
    bytes ← array_char_error (from_hex 33 s); map_throw PkEncoding (public_from_slice bytes)
  else if str_len s =? 130 then
    bytes ← array_char_error (from_hex 65 s); map_throw PkEncoding (public_from_slice bytes)
  else Throw (PkInvalidHexLength (str_len s)).

Inductive ParseCompressedPublicKeyError := CpkSecp256k1 (e : KeyError) | CpkHex (e : HexToArrayError).
Definition display_compressed_key (self : SecpPublicKey) : str := hex_lower (pk_serialize self).
Definition compressed_key_from_str (s : str) : Result ParseCompressedPublicKeyError SecpPublicKey :=
  bytes ← map_err CpkHex (from_hex 33 s); map_err CpkSecp256k1 (compressed_from_slice bytes).
End hashes.

(** ** Canonical decimals *)

Lemma dval_pos s : digits s -> forall c t, s = c :: t -> c <> ZERO_CHAR -> 0 < dval s.
Proof.
  intros Hs c t -> Hc. apply digits_cons in Hs as [Hd%is_digit_spec Ht]. unfold dval. cbn [dval_from fold_left].
  change (fold_left _ t ?x) with (dval_from x t). unfold ZERO_CHAR in Hc.
  pose proof (dval_from_ge t (10 * 0 + (c - 48)) ltac:(lia) Ht). lia.
Qed.

(** Digits without a leading zero are what their number prints. *)
Definition canonical (s : str) : Prop := digits s /\ s <> [] /\ (length s = 1%nat \/ head s <> Some ZERO_CHAR).

Lemma digits_rev_canonical s : canonical s -> forall fuel, (length s <= fuel)%nat -> rev (digits_rev fuel (dval s)) = s.
Proof.
  unfold canonical. induction s as [|c s IH] using rev_ind; [naive_solver|]. intros (Hd & _ & Hh) fuel Hf.
  apply digits_app in Hd as [Hs Hc]. apply digits_cons in Hc as [Hc%is_digit_spec _]. rewrite length_app in Hf. simpl in Hf.
  destruct fuel as [|fuel]; [lia|]. cbn [digits_rev]. rewrite dval_snoc.
  replace ((10 * dval s + (c - 48)) / 10) with (dval s) by (apply Z.div_unique with (c - 48); lia).
  replace ((10 * dval s + (c - 48)) mod 10) with (c - 48) by (apply Z.mod_unique with (dval s); lia).
  replace (48 + (c - 48)) with c by lia. destruct s as [|d s].
  - done.
  - assert (d <> ZERO_CHAR) as Hd0 by (destruct Hh as [Hh|Hh]; [rewrite length_app in Hh; simpl in Hh; lia|simpl in Hh; congruence]).
    pose proof (dval_pos (d :: s) Hs d s eq_refl Hd0). rewrite (proj2 (Z.eqb_neq _ _)) by lia. cbn [rev].
    rewrite IH; [done| |lia]. split_and!; [done..|]. right. simpl. congruence.
Qed.

Lemma digits_rev_no_zero fuel : forall n, 0 < n < 10 ^ Z.of_nat fuel -> head (rev (digits_rev fuel n)) <> Some ZERO_CHAR.
Proof.
  induction fuel as [|fuel IH]; intros n Hn; [simpl in Hn; lia|]. cbn [digits_rev rev].
  rewrite Nat2Z.inj_succ, Z.pow_succ_r in Hn by lia. pose proof (Z.div_mod n 10 ltac:(lia)).
  destruct (Z.eqb_spec (n / 10) 0) as [E|E].
  - simpl. unfold ZERO_CHAR. injection 1 as ?. lia.
  - assert (0 < n / 10 < 10 ^ Z.of_nat fuel) as Hq by (pose proof (Z.div_pos n 10); split; [lia|apply Z.div_lt_upper_bound; lia]).
    specialize (IH _ Hq). destruct (rev (digits_rev fuel (n / 10))) as [|x l] eqn:El; [|done].
    destruct fuel; [simpl in Hq; lia|]. apply (f_equal length) in El. rewrite length_rev in El. done.
Qed.

Lemma display_canonical n : in_u 64 n -> canonical (display_u64 n).
Proof.
  intros Hn. destruct (display_u64_spec n Hn) as (H1 & _ & H3 & _). split_and!; [done..|]. unfold in_u in Hn.
  destruct (Z.eq_dec n 0) as [->|Hz]; [by left|]. right. apply digits_rev_no_zero. split; [lia|].
  apply Z.lt_trans with (2 ^ 64); [lia|]. vm_compute. done.
Qed.

Lemma canonical_display s : canonical s -> in_u 64 (dval s) -> (length s <= 64)%nat -> display_u64 (dval s) = s.
Proof. intros Hs _ Hl. by apply digits_rev_canonical. Qed.

Lemma canonical_length s w : canonical s -> dval s < 10 ^ Z.of_nat w -> (0 < w)%nat -> (length s <= w)%nat.
Proof.
  intros Hs Hv Hw. pose proof (digits_rev_canonical s Hs (length s) ltac:(lia)) as E.
  rewrite <- E, length_rev. apply digits_rev_length; [|done]. split; [|done].
  destruct Hs as (Hd & _). unfold dval. by apply dval_from_ge.
Qed.

(** ** The index of an outpoint *)

Lemma digits_str_len s : digits s -> str_len s = Z.of_nat (length s).
Proof. intros Hs. apply (rdigits_len 10). by apply digits_rdigits. Qed.

Lemma parse_vout_iff s n : parse_vout s = Val n <-> s = display_u64 n /\ in_u 32 n.
Proof.
  unfold parse_vout. split.
  - intros [[] [H1 H2]]%comp_bind_Val. assert (int u32T s = Ok n) as Hi by (unfold map_err in H2; destruct (int u32T s); naive_solver).
    apply int_iff in Hi; [|done]. apply reads_unsigned in Hi; [|done].
    destruct Hi as (sign & ds & -> & Hsign & Hne & Hd%rdigits_digits & -> & Hn). cbn [ty_bits u32T] in Hn.
    assert (rval 10 ds = dval ds) as Ev by (unfold rval, dval; apply digits_rdigits, Hd). rewrite Ev in *.
    destruct Hsign as [-> | ->].
    + cbn [app] in *. assert (canonical ds) as Hc.
      { split_and!; [done..|]. destruct ds as [|c [|c' ds]]; [done|by left|]. right. simpl. injection 1 as ->.
        rewrite (digits_str_len (_ :: _)) in H1 by done. cbn [length] in H1.
        rewrite (proj2 (Z.ltb_lt _ _)) in H1 by lia. done. }
      split; [|done]. symmetry. unfold in_u in Hn. apply canonical_display; [done|unfold in_u; lia|].
      apply canonical_length; [done| |lia]. apply Z.lt_trans with (2 ^ 32); [lia|]. vm_compute. done.
    + exfalso. destruct ds as [|c ds]; [done|]. cbn [app str_len] in H1. pose proof (len_utf8_pos PLUS).
      pose proof (len_utf8_pos c). pose proof (str_len_ge ds). rewrite (proj2 (Z.ltb_lt _ _)) in H1 by lia. done.
  - intros [-> Hn]. assert (in_u 64 n) as H64 by (unfold in_u in *; lia).
    destruct (display_canonical n H64) as (Hd & Hne & Hh). rewrite display_int by done.
    destruct (display_u64 n) as [|c s]; [done|]. rewrite digits_str_len by done. apply digits_cons in Hd as [Hc _].
    destruct (Z.ltb_spec 1 (Z.of_nat (length (c :: s)))); [|done]. cbn [first_char of_run mbind comp_bind].
    destruct (Z.eqb_spec c ZERO_CHAR) as [->|_]; [destruct Hh as [Hh|Hh]; [lia|done]|].
    destruct (Z.eqb_spec c PLUS) as [->|_]; [done|]. done.
Qed.

(** ** Positions *)

Lemma find_app_list {A} (f : A -> bool) l1 l2 :
  List.find f (l1 ++ l2) = match List.find f l1 with Some x => Some x | None => List.find f l2 end.
Proof. induction l1 as [|x l1 IH]; [done|]. cbn [app List.find]. by destruct (f x). Qed.

Lemma indices_from_app l r : forall k, indices_from k (l ++ r) = indices_from k l ++ indices_from (k + str_len l) r.
Proof.
  induction l as [|c l IH]; intros k; cbn [indices_from app str_len]; [by rewrite Z.add_0_r|]. rewrite IH.
  by replace (k + len_utf8 c + str_len l) with (k + (len_utf8 c + str_len l)) by lia.
Qed.

Lemma indices_from_spec k s i c : In (i, c) (indices_from k s) -> k <= i /\ In c s.
Proof.
  revert k. induction s as [|d s IH]; intros k; cbn [indices_from]; [done|]. pose proof (len_utf8_pos d).
  intros [[= -> ->]|Hin]; [split; [lia|by left]|]. apply IH in Hin as [? ?]. split; [lia|by right].
Qed.

Definition lacks (c : Z) (s : str) : Prop := ~ In c s.

Lemma forallb_lacks c s : forallb (fun d => negb (d =? c)) s = true <-> lacks c s.
Proof.
  unfold lacks. rewrite forallb_forall. split.
  - intros H Hin. specialize (H c Hin). by rewrite Z.eqb_refl in H.
  - intros H d Hd. apply negb_true_iff, Z.eqb_neq. by intros ->.
Qed.

Lemma rfind_char_app c l r : rfind_char c (l ++ c :: r) =
  match rfind_char c r with Some i => Some (str_len l + len_utf8 c + i) | None => Some (str_len l) end.
Proof.
  assert (forall k s, List.find (fun ic => snd ic =? c) (rev (indices_from k s)) =
    match List.find (fun ic => snd ic =? c) (rev (indices_from 0 s)) with Some (i, d) => Some (k + i, d) | None => None end) as Hshift.
  { intros k s. revert k. induction s as [|d s IH] using rev_ind; intros k; [done|].
    rewrite !indices_from_app. cbn [indices_from]. rewrite !rev_app_distr. cbn [rev app List.find snd].
    rewrite Z.add_0_l. destruct (d =? c); [done|apply IH]. }
  unfold rfind_char, char_indices. rewrite indices_from_app. cbn [indices_from]. rewrite rev_app_distr. cbn [rev].
  rewrite !find_app_list, Z.add_0_l, (Hshift (str_len l + len_utf8 c)).
  destruct (List.find _ (rev (indices_from 0 r))) as [[i d]|]; [done|]. cbn [List.find snd]. by rewrite Z.eqb_refl.
Qed.

Lemma rfind_char_None c s : rfind_char c s = None <-> lacks c s.
Proof.
  unfold lacks. split.
  - intros Hn Hin. apply in_split in Hin as (l & r & ->). rewrite rfind_char_app in Hn. by destruct (rfind_char c r).
  - intros Hl. unfold rfind_char. destruct (List.find _ _) as [[i d]|] eqn:E; [|done]. apply find_some in E as [Hin Hd].
    apply in_rev, indices_from_spec in Hin as [_ Hin]. cbn [snd] in Hd. apply Z.eqb_eq in Hd as ->. done.
Qed.

Lemma rfind_char_ge c s i : rfind_char c s = Some i -> 0 <= i.
Proof.
  unfold rfind_char. destruct (List.find _ _) as [[j d]|] eqn:E; [|done]. intros [= <-]. apply find_some in E as [Hin _].
  apply in_rev, indices_from_spec in Hin as [? _]. done.
Qed.

(** The first and the last colon are the same one: the string has exactly one. *)
Lemma single_char c s i : find_char c s = Some i /\ find_char c s = rfind_char c s <->
  exists l r, s = l ++ c :: r /\ lacks c l /\ lacks c r /\ i = str_len l.
Proof.
  assert (find_char c s = Some i <-> exists l r, s = l ++ c :: r /\ lacks c l /\ i = str_len l) as Hf.
  { unfold find_char. rewrite find_index_spec. setoid_rewrite forallb_lacks. setoid_rewrite Z.eqb_eq. split.
    - intros (l & d & r & -> & -> & ? & ->). by exists l, r.
    - intros (l & r & -> & ? & ->). by exists l, c, r. }
  split.
  - intros [H1 H2]. rewrite H1 in H2. apply Hf in H1 as (l & r & -> & Hl & ->). exists l, r. split_and!; try done.
    rewrite rfind_char_app in H2. apply rfind_char_None. destruct (rfind_char c r) as [j|] eqn:E; [|done].
    apply rfind_char_ge in E. pose proof (len_utf8_pos c). injection H2 as H2. lia.
  - intros (l & r & -> & Hl & Hr & ->). assert (find_char c (l ++ c :: r) = Some (str_len l)) as E.
    { apply Hf. by exists l, r. }
    rewrite E. split; [done|]. rewrite rfind_char_app. by rewrite (proj2 (rfind_char_None c r) Hr).
Qed.

(** ** Texts *)

Section texts.
Context {H : HexCrate} {L : HexLaws H}.

Lemma lower_hex_digit c : is_lower_hex (lowercase c) = true -> is_Some (to_digit 16 c).
Proof.
  unfold is_lower_hex, lowercase, is_upper_letter, to_digit, is_digit. intros Hc.
  repeat case_match; rewrite ?Z.ltb_lt, ?Z.ltb_ge, ?orb_true_iff, ?andb_true_iff, ?andb_false_iff, ?Z.leb_le, ?Z.leb_gt in *;
    first [by eexists | lia].
Qed.

(** What [from_hex] reads are digits of radix 16. *)
Lemma hex_text_rdigits t bs : hex_lower bs = map lowercase t -> rdigits 16 t.
Proof.
  intros E. pose proof (hex_lower_digits bs) as Hl. rewrite E, forallb_forall in Hl. unfold rdigits. rewrite List.Forall_forall.
  intros c Hc. apply lower_hex_digit, Hl. by apply in_map.
Qed.

Lemma hex_text_length t bs : hex_lower bs = map lowercase t -> length t = (2 * length bs)%nat.
Proof. intros E. apply (f_equal length) in E. rewrite length_map, hex_lower_length in E. lia. Qed.

Lemma lowercase_lower bs : map lowercase (hex_lower bs) = hex_lower bs.
Proof.
  pose proof (hex_lower_digits bs) as Hl. rewrite forallb_forall in Hl. rewrite <- (map_id (hex_lower bs)) at 2.
  apply map_ext_in. intros c Hc. specialize (Hl c Hc). unfold is_lower_hex, is_digit, lowercase, is_upper_letter in *.
  case_match; rewrite ?orb_true_iff, ?andb_true_iff, ?Z.leb_le in *; lia.
Qed.

(** A hash type parses exactly the two-digit forms of its bytes, in the direction it prints them
    and in either case. *)
Lemma hash_from_str_iff b n s h : hash_from_str b n s = Ok h <->
  length h = n /\ map lowercase s = hash_lower_hex b h.
Proof.
  unfold hash_from_str, hash_lower_hex. destruct (from_hex n s) as [bs|e] eqn:E; cbn [mbind Result_bind].
  - apply from_hex_ok in E as [Hn E]. destruct b; split.
    + intros [= <-]. by rewrite length_rev, rev_involutive.
    + intros [Hh Em]. f_equal. assert (from_hex n s = Ok (rev h)) as E1 by (apply from_hex_ok; by rewrite length_rev).
      assert (from_hex n s = Ok bs) as E2 by (by apply from_hex_ok). rewrite E1 in E2. injection E2 as <-. apply rev_involutive.
    + by intros [= <-].
    + intros [Hh Em]. assert (from_hex n s = Ok h) as E1 by (by apply from_hex_ok).
      assert (from_hex n s = Ok bs) as E2 by (by apply from_hex_ok). congruence.
  - split; [done|]. intros [Hh Em]. assert (from_hex n s = Ok (if b then rev h else h)) as E'; [|congruence].
    apply from_hex_ok. destruct b; by rewrite ?length_rev.
Qed.

Lemma hash_text_roundtrip b h :
  hash_from_str b (length h) (hash_lower_hex b h) = Ok h /\ hash_from_str b (length h) (hash_upper_hex b h) = Ok h.
Proof.
  rewrite !hash_from_str_iff. unfold hash_upper_hex, hash_lower_hex.
  destruct b; by rewrite lowercase_lower, hex_upper_lower.
Qed.

Lemma unique_colon l r l' r' : lacks COLON l -> lacks COLON l' -> l ++ COLON :: r = l' ++ COLON :: r' -> l = l' /\ r = r'.
Proof.
  revert l'. induction l as [|c l IH]; intros [|c' l'] Hl Hl'; cbn [app]; intros E.
  - by injection E.
  - injection E as E _. destruct Hl'. by left.
  - injection E as E _. destruct Hl. by left.
  - injection E as -> E. apply IH in E as [-> ->]; [done| |]; intros Hin; [destruct Hl|destruct Hl']; by right.
Qed.

(** On a short string with exactly one colon, the two parts are parsed; everything else is an error. *)
Lemma outpoint_from_str_parts {bm : BuildMode} l r : lacks COLON l -> lacks COLON r -> str_len (l ++ COLON :: r) <= 75 ->
  outpoint_from_str (l ++ COLON :: r) =
  if bool_decide (l = [] \/ r = []) then Throw OpFormat
  else txid ← of_result (map_err OpTxid (txid_from_str l)); vout ← parse_vout r; Val (mkOutPoint txid vout).
Proof.
  intros Hl Hr H75. unfold outpoint_from_str. rewrite (proj2 (Z.ltb_ge _ _)) by lia.
  destruct (proj2 (single_char COLON (l ++ COLON :: r) (str_len l))) as [Ef Er]; [by exists l, r|].
  rewrite <- Er, Ef. rewrite bool_decide_eq_false_2 by tauto. rewrite str_len_app in *. cbn [str_len] in *.
  change (len_utf8 COLON) with 1 in *. pose proof (str_len_ge l) as Gl. pose proof (str_len_ge r) as Gr.
  rewrite (arith_u_small 64 (str_len l + (1 + str_len r) - 1)) by (unfold in_u; lia). cbn [of_run mbind comp_bind].
  assert ((str_len l =? 0) || (str_len l =? str_len l + (1 + str_len r) - 1) = bool_decide (l = [] \/ r = [])) as ->.
  { case_bool_decide as Hc.
    - destruct Hc as [-> | ->]; [done|]. apply orb_true_iff. right. apply Z.eqb_eq. cbn. lia.
    - apply orb_false_iff. split; apply Z.eqb_neq.
      + destruct l; [tauto|]. cbn [length] in Gl. lia.
      + destruct r; [tauto|]. cbn [length] in Gr. lia. }
  case_bool_decide as Hc; [done|]. rewrite slice_to_app. cbn [of_run mbind comp_bind].
  destruct (of_result _) as [t|e|]; cbn [mbind comp_bind]; [|done..].
  rewrite (arith_u_small 64) by (unfold in_u; lia). cbn [of_run mbind comp_bind].
  replace (str_len l + 1) with (str_len (l ++ [COLON])) by (rewrite str_len_app; done).
  replace (l ++ COLON :: r) with ((l ++ [COLON]) ++ r) by (by rewrite <- app_assoc). by rewrite slice_from_app.
Qed.

Lemma outpoint_from_str_shape {bm : BuildMode} s :
  (exists l r, s = l ++ COLON :: r /\ lacks COLON l /\ lacks COLON r /\ str_len s <= 75) \/
  outpoint_from_str s = Throw OpTooLong \/ outpoint_from_str s = Throw OpFormat.
Proof.
  unfold outpoint_from_str. destruct (Z.ltb_spec 75 (str_len s)); [auto|].
  destruct (find_char COLON s) as [colon|] eqn:Ef; [|auto]. case_bool_decide as Hr; [auto|]. left.
  destruct (decide (find_char COLON s = rfind_char COLON s)) as [Er|Er]; [|rewrite Ef in Er; tauto].
  destruct (proj1 (single_char COLON s colon) (conj Ef Er)) as (l & r & -> & Hl & Hr' & _). by exists l, r.
Qed.

(** The two parts as they are printed. *)
Lemma outpoint_text_form t o : map lowercase t = display_txid (txid o) -> outpoint_wf o ->
  lacks COLON t /\ lacks COLON (display_u64 (vout o)) /\ ~ (t = [] \/ display_u64 (vout o) = []) /\
  str_len (t ++ COLON :: display_u64 (vout o)) <= 75.
Proof.
  intros Et [Hlt Hv]. assert (in_u 64 (vout o)) as H64 by (unfold in_u in *; lia).
  destruct (display_canonical _ H64) as (Hd & Hne & Hh). symmetry in Et. unfold display_txid, hash_lower_hex in Et.
  pose proof (hex_text_rdigits _ _ Et) as Hrd. pose proof (hex_text_length _ _ Et) as Hlen. rewrite length_rev, Hlt in Hlen.
  split; [intros Hin; unfold rdigits in Hrd; rewrite List.Forall_forall in Hrd; by destruct (Hrd _ Hin)|].
  split; [intros Hin; unfold digits in Hd; rewrite forallb_forall in Hd; by specialize (Hd _ Hin)|].
  split; [by intros [-> | ?]|]. rewrite str_len_app. cbn [str_len]. rewrite (rdigits_len 16), digits_str_len by done.
  change (len_utf8 COLON) with 1. assert (length (display_u64 (vout o)) <= 10)%nat; [|lia].
  apply canonical_length; [done| |lia]. destruct (display_u64_spec _ H64) as (_ & -> & _). unfold in_u in Hv. simpl Z.of_nat.
  apply Z.lt_trans with (2 ^ 32); [lia|]. vm_compute. done.
Qed.

Lemma parse_vout_no_panic s : s <> [] -> parse_vout s <> Crash.
Proof.
  intros Hs. unfold parse_vout. destruct s as [|c s]; [done|]. cbn [first_char of_run].
  destruct (1 <? _); [rewrite bind_Val; destruct (_ || _)|]; cbn [mbind comp_bind]; try done;
    unfold map_err; by destruct (int u32T (c :: s)).
Qed.

Lemma outpoint_parts_iff l r o :
  (txid ← of_result (map_err OpTxid (txid_from_str l)); vout ← parse_vout r; Val (mkOutPoint txid vout)) = Val o <->
  outpoint_wf o /\ map lowercase l = display_txid (txid o) /\ r = display_u64 (vout o).
Proof.
  unfold txid_from_str. split.
  - intros (t & Ht & (v & Hv & [= <-])%comp_bind_Val)%comp_bind_Val. apply parse_vout_iff in Hv as [-> Hv].
    assert (hash_from_str true 32 l = Ok t) as Ht' by (unfold map_err in Ht; destruct (hash_from_str true 32 l); naive_solver).
    by apply hash_from_str_iff in Ht' as [Hlt Et].
  - intros ([Hlt Hv] & Et & ->). rewrite (proj2 (hash_from_str_iff true 32 l (txid o))) by done. cbn [map_err of_result mbind comp_bind].
    rewrite (proj2 (parse_vout_iff _ _) (conj eq_refl Hv)). cbn. by destruct o.
Qed.

(** Parsing an outpoint never panics, and accepts exactly the 64 digits of its transaction id,
    in either case, a colon and its index as it is printed. *)
Lemma outpoint_text_exact {bm : BuildMode} s :
  outpoint_from_str s <> Crash /\
  forall o, outpoint_from_str s = Val o <->
    outpoint_wf o /\ exists t, s = t ++ [COLON] ++ display_u64 (vout o) /\ map lowercase t = display_txid (txid o).
Proof.
  split; [|intros o; split].
  - destruct (outpoint_from_str_shape s) as [(l & r & -> & Hl & Hr & H75)|[-> | ->]]; [|done..].
    rewrite outpoint_from_str_parts by done. case_bool_decide as Hc; [done|]. unfold map_err.
    destruct (txid_from_str l); [|done]. cbn [of_result mbind comp_bind].
    pose proof (parse_vout_no_panic r ltac:(tauto)). by destruct (parse_vout r).
  - destruct (outpoint_from_str_shape s) as [(l & r & -> & Hl & Hr & H75)|[-> | ->]]; [|done..].
    rewrite outpoint_from_str_parts by done. case_bool_decide as Hc; [done|].
    intros (Hwf & Et & ->)%outpoint_parts_iff. split; [done|]. by exists l.
  - intros (Hwf & t & -> & Et). destruct (outpoint_text_form t o Et Hwf) as (Ht & Hd & Hne & H75).
    change ([COLON] ++ display_u64 (vout o)) with (COLON :: display_u64 (vout o)).
    rewrite outpoint_from_str_parts, bool_decide_eq_false_2 by done. by apply outpoint_parts_iff.
Qed.

Lemma outpoint_text_roundtrip {bm : BuildMode} o : outpoint_wf o -> outpoint_from_str (display_outpoint o) = Val o.
Proof.
  intros Ho. apply outpoint_text_exact. split; [done|]. exists (display_txid (txid o)). split; [done|].
  apply lowercase_lower.
Qed.

(** ** Public keys *)

Context {bm : BuildMode} {S : SecpKeys} {LS : SecpKeysLaws S}.

Lemma array_char_error_iff n s bs : str_len s = 2 * Z.of_nat n ->
  array_char_error (from_hex n s) <> Crash /\
  (array_char_error (from_hex n s) = Val bs <-> length bs = n /\ hex_lower bs = map lowercase s).
Proof.
  intros Hs. rewrite <- from_hex_ok. unfold array_char_error. destruct (from_hex n s) as [x|[c|l]] eqn:E; [naive_solver..|].
  apply from_hex_length in E as [E _]. done.
Qed.

(** Parsing a public key from text never panics (the [unreachable!] is not reached) and accepts
    exactly the hexadecimal of its serialisation, compressed or not, in either case. *)
Lemma public_key_text_exact s :
  public_key_from_str s <> Crash /\
  forall k, public_key_from_str s = Val k <-> map lowercase s = display_public_key k.
Proof.
  assert (forall k, display_public_key k = hex_lower (public_to_bytes k)) as Hd by (by intros k; unfold display_public_key, public_to_bytes, write_into, with_serialized; destruct (compressed k)).
  assert (forall n, str_len s = 2 * Z.of_nat n -> let m := (bytes ← array_char_error (from_hex n s); map_throw PkEncoding (public_from_slice bytes)) in
    m <> Crash /\ forall k, m = Val k <-> map lowercase s = display_public_key k /\ length (public_to_bytes k) = n) as Hn.
  { intros n Hs m. split.
    - unfold m. destruct (array_char_error (from_hex n s)) as [bs|e|] eqn:E; cbn [mbind comp_bind]; [|done|].
      + pose proof (public_from_slice_no_panic bs). by destruct (public_from_slice bs).
      + by destruct (array_char_error_iff n s [] Hs).
    - intros k. unfold m. rewrite comp_bind_Val. setoid_rewrite (proj2 (array_char_error_iff n s _ Hs)). rewrite Hd. split.
      + intros (bs & [Hl Eb] & Hk). assert (public_from_slice bs = Val k) as Hk' by (destruct (public_from_slice bs); naive_solver).
        apply public_from_slice_iff in Hk'. by rewrite Hk'.
      + intros [E Hl]. exists (public_to_bytes k). split; [done|]. by rewrite (proj2 (public_from_slice_iff _ k) eq_refl). }
  assert (forall k, map lowercase s = display_public_key k -> str_len s = 2 * Z.of_nat (length (public_to_bytes k))) as Hlen.
  { intros k E. rewrite Hd in E. symmetry in E. rewrite (rdigits_len 16) by (by eapply hex_text_rdigits). rewrite (hex_text_length _ _ E). lia. }
  assert (forall k, length (public_to_bytes k) = 33%nat \/ length (public_to_bytes k) = 65%nat) as Hcases.
  { intros k. rewrite public_to_bytes_eq. destruct (compressed k); rewrite ?pk_serialize_length, ?pk_uncompressed_length; auto. }
  unfold public_key_from_str. destruct (Z.eqb_spec (str_len s) 66) as [E|E]; [|destruct (Z.eqb_spec (str_len s) 130) as [E'|E']].
  - destruct (Hn 33%nat E) as [H1 H2]. split; [done|]. intros k. rewrite H2. split; [tauto|]. intros Ek. split; [done|].
    pose proof (Hlen k Ek). lia.
  - destruct (Hn 65%nat E') as [H1 H2]. split; [done|]. intros k. rewrite H2. split; [tauto|]. intros Ek. split; [done|].
    pose proof (Hlen k Ek). lia.
  - split; [done|]. intros k. split; [done|]. intros Ek. pose proof (Hlen k Ek). destruct (Hcases k); lia.
Qed.

Lemma compressed_key_text_exact s k : compressed_key_from_str s = Ok k <-> map lowercase s = display_compressed_key k.
Proof.
  unfold compressed_key_from_str, display_compressed_key, compressed_from_slice. split.
  - destruct (from_hex 33 s) as [bs|] eqn:E; [|done]. cbn [map_err mbind Result_bind]. apply from_hex_ok in E as [Hl E].
    unfold map_err. destruct (pk_from_slice bs) as [q|] eqn:Eq; [|done]. intros [= <-]. by rewrite (pk_serialize_from bs q).
  - intros E. rewrite (proj2 (from_hex_ok 33 s (pk_serialize k))); [|by rewrite pk_serialize_length].
    cbn [map_err mbind Result_bind]. by rewrite pk_from_serialize.
Qed.
End texts.

(** ** The laws can hold: the usual conversion *)

Module PlainHex.
Definition digit_char (d : Z) : Z := if d <? 10 then 0x30 + d else 0x61 + d - 10.
Definition lower (bs : list byte) : str := bs ≫= fun b => [digit_char (byte.unsigned b / 16); digit_char (byte.unsigned b mod 16)].
Definition uppercase (c : Z) : Z := if (0x61 <=? c) && (c <=? 0x66) then c - 0x20 else c.
Definition upper (bs : list byte) : str := map uppercase (lower bs).
Fixpoint pairs (s : str) : option (list byte) :=
  match s with
  | [] => Some []
  | [_] => None
  | a :: b :: s => x ← to_digit 16 a; y ← to_digit 16 b; r ← pairs s; Some (byte.of_Z (16 * x + y) :: r)
  end.
Definition read (n : nat) (s : str) : Result HexToArrayError (list byte) :=
  if str_len s =? 2 * Z.of_nat n then ok_or (pairs s) (InvalidChar 0) else Err (InvalidLength (str_len s)).
#[export] Instance crate : HexCrate := {| hex_lower := lower; hex_upper := upper; from_hex := read |}.

Lemma lower_digit d : 0 <= d < 16 -> is_lower_hex (digit_char d) = true /\ lowercase (uppercase (digit_char d)) = digit_char d.
Proof.
  intros Hd. unfold digit_char, uppercase, lowercase, is_upper_letter, is_lower_hex, is_digit. split.
  - case_match; rewrite ?orb_true_iff, ?andb_true_iff, ?Z.leb_le, ?Z.ltb_lt, ?Z.ltb_ge in *; lia.
  - repeat case_match; rewrite ?andb_true_iff, ?andb_false_iff, ?Z.leb_le, ?Z.leb_gt, ?Z.ltb_lt, ?Z.ltb_ge in *; lia.
Qed.

Lemma digit_iff a x : to_digit 16 a = Some x <-> 0 <= x < 16 /\ lowercase a = digit_char x.
Proof.
  unfold to_digit, lowercase, is_upper_letter, digit_char, is_digit. split.
  - repeat case_match; intros [= <-]; rewrite ?andb_true_iff, ?andb_false_iff, ?Z.leb_le, ?Z.leb_gt, ?Z.ltb_lt, ?Z.ltb_ge in *; lia.
  - intros [Hx E]. repeat case_match; rewrite ?andb_true_iff, ?andb_false_iff, ?Z.leb_le, ?Z.leb_gt, ?Z.ltb_lt, ?Z.ltb_ge in *; try lia; f_equal; lia.
Qed.

Lemma nibbles (b : byte) : 0 <= byte.unsigned b / 16 < 16 /\ 0 <= byte.unsigned b mod 16 < 16 /\
  byte.of_Z (16 * (byte.unsigned b / 16) + byte.unsigned b mod 16) = b.
Proof.
  pose proof (byte.unsigned_range b). pose proof (Z.div_mod (byte.unsigned b) 16 ltac:(lia)). pose proof (Z.mod_pos_bound (byte.unsigned b) 16 ltac:(lia)).
  split; [split; [apply Z.div_pos; lia|apply Z.div_lt_upper_bound; lia]|]. split; [done|].
  replace (16 * (byte.unsigned b / 16) + byte.unsigned b mod 16) with (byte.unsigned b) by lia. apply byte.of_Z_unsigned.
Qed.

Lemma pairs_iff bs : forall s, pairs s = Some bs <-> lower bs = map lowercase s.
Proof.
  induction bs as [|b bs IH]; intros s.
  - split; [|by destruct s]. destruct s as [|a [|b s]]; [done..|]. cbn [pairs].
    destruct (to_digit 16 a), (to_digit 16 b), (pairs s); done.
  - destruct s as [|a [|c s]]; [done..|]. cbn [pairs map]. change (lower (b :: bs)) with
      ([digit_char (byte.unsigned b / 16); digit_char (byte.unsigned b mod 16)] ++ lower bs). cbn [app].
    destruct (nibbles b) as (H1 & H2 & H3). split.
    + destruct (to_digit 16 a) as [x|] eqn:Ea; [|done]. destruct (to_digit 16 c) as [y|] eqn:Ec; [|done]. cbn [mbind option_bind].
      destruct (pairs s) as [r|] eqn:Er; [|done]. intros [= <- <-]. apply digit_iff in Ea as [Hx ->], Ec as [Hy ->].
      rewrite byte_unsigned_of_Z by lia. replace ((16 * x + y) / 16) with x by (apply Z.div_unique with y; lia).
      replace ((16 * x + y) mod 16) with y by (apply Z.mod_unique with x; lia). do 2 f_equal. by apply IH.
    + intros [= Ea Ec Er]. rewrite (proj2 (digit_iff a _) (conj H1 (eq_sym Ea))), (proj2 (digit_iff c _) (conj H2 (eq_sym Ec))).
      cbn [mbind option_bind]. by rewrite (proj2 (IH s) Er), H3.
Qed.

Lemma lower_length bs : length (lower bs) = (2 * length bs)%nat.
Proof. induction bs as [|b bs IH]; [done|]. change (lower (b :: bs)) with ([digit_char (byte.unsigned b / 16); digit_char (byte.unsigned b mod 16)] ++ lower bs). cbn [app length]. lia. Qed.

Lemma lower_digits bs : forallb is_lower_hex (lower bs) = true.
Proof.
  induction bs as [|b bs IH]; [done|]. destruct (nibbles b) as (H1 & H2 & _). unfold lower in *. cbn [mbind list_bind app forallb].
  by rewrite (proj1 (lower_digit _ H1)), (proj1 (lower_digit _ H2)).
Qed.

Lemma upper_lower bs : map lowercase (upper bs) = lower bs.
Proof.
  induction bs as [|b bs IH]; [done|]. destruct (nibbles b) as (H1 & H2 & _). unfold upper, lower in *. cbn [mbind list_bind app map].
  by rewrite (proj2 (lower_digit _ H1)), (proj2 (lower_digit _ H2)), IH.
Qed.

Lemma pairs_length s bs : pairs s = Some bs -> str_len s = 2 * Z.of_nat (length bs).
Proof.
  intros Er%pairs_iff. pose proof (lower_length bs) as Hl. rewrite Er, length_map in Hl. rewrite (rdigits_len 16); [lia|].
  unfold rdigits. rewrite List.Forall_forall. intros c Hc. apply lower_hex_digit. pose proof (lower_digits bs) as Hf.
  rewrite Er, forallb_forall in Hf. by apply Hf, in_map.
Qed.

#[export] Instance laws : HexLaws crate.
Proof.
  split; cbn.
  - apply lower_digits.
  - intros bs. rewrite lower_length. lia.
  - apply upper_lower.
  - intros n s bs. unfold read. rewrite <- pairs_iff. destruct (Z.eqb_spec (str_len s) (2 * Z.of_nat n)) as [E|E].
    + unfold ok_or. destruct (pairs s) as [r|] eqn:Er; [|naive_solver]. split; [|naive_solver]. intros [= ->].
      apply pairs_length in Er. split; [lia|done].
    + split; [done|]. intros [Hn Er%pairs_length]. lia.
  - intros n s l. unfold read. destruct (Z.eqb_spec (str_len s) (2 * Z.of_nat n)); [unfold ok_or; destruct (pairs s)|]; naive_solver.
Qed.
End PlainHex.

(** An outpoint and its text. *)
Lemma outpoint_text_example : @outpoint_from_str PlainHex.crate true
  (chars "5df6e0e2761359d30a8275058e299fcc0381534545f55cf43e41983f5d4c9456:1") =
  Val (mkOutPoint (rev (map byte.of_Z [0x5d; 0xf6; 0xe0; 0xe2; 0x76; 0x13; 0x59; 0xd3; 0x0a; 0x82; 0x75; 0x05; 0x8e; 0x29; 0x9f; 0xcc;
    0x03; 0x81; 0x53; 0x45; 0x45; 0xf5; 0x5c; 0xf4; 0x3e; 0x41; 0x98; 0x3f; 0x5d; 0x4c; 0x94; 0x56])) 1).
Proof. by vm_compute. Qed.
