(* ===== verification/Bip32.v ===== *)
(** * Extended keys ([bip32.rs])

    The binary and text forms of extended keys, and derivation: from a private parent with
    [ckd_priv], from a public one with [ckd_pub].  The curve is the class [SecpKeys] of [Keys];
    HMAC-SHA512 and HASH160 are the ones of [Hmac] and [Ripemd160]. *)

From Stdlib Require Import ZArith Lia.
From Stdlib Require Strings.String.
From coqutil Require Import Byte Word.LittleEndianList.
From stdpp Require Import base tactics option list numbers.
From S2P Require Import Prelude HashEngine Sha256 Ripemd160 Sha512 Sha256t Hmac Base58 Keys DerivationPath.
Import String.StringSyntax.

#[local] Open Scope Z_scope.

Definition VERSION_BYTES_MAINNET_PUBLIC : list byte := map byte.of_Z [0x04; 0x88; 0xB2; 0x1E].
Definition VERSION_BYTES_MAINNET_PRIVATE : list byte := map byte.of_Z [0x04; 0x88; 0xAD; 0xE4].
Definition VERSION_BYTES_TESTNETS_PUBLIC : list byte := map byte.of_Z [0x04; 0x35; 0x87; 0xCF].
Definition VERSION_BYTES_TESTNETS_PRIVATE : list byte := map byte.of_Z [0x04; 0x35; 0x83; 0x94].

Section bip32.
Context {bm : BuildMode} {S : SecpKeys}.
Abbreviation Error := (Bip32Error KeyError Base58.Error).

(** Fingerprints have 4 bytes and chain codes 32, by type. *)
Record Xpriv := mkXpriv { sk_network : NetworkKind; sk_depth : Z; sk_parent_fingerprint : list byte;
  sk_child_number : ChildNumber; private_key : SecretKey; sk_chain_code : list byte }.
Record Xpub := mkXpub { pk_network : NetworkKind; pk_depth : Z; pk_parent_fingerprint : list byte;
  pk_child_number : ChildNumber; xpub_key : SecpPublicKey; pk_chain_code : list byte }.

(** ** Hashes *)

Definition chain_code_from_hmac (hmac : list byte) : run (list byte) :=
  let half := drop 32 hmac in
  _ ← assert_ (length half =? 32)%nat; Ret half.

Definition xpub_identifier (self : Xpub) : list byte :=
  hash160.from_engine (Sha256.engine_input Sha256.default (pk_serialize (xpub_key self))).
Definition xpub_fingerprint (self : Xpub) : list byte := take 4 (xpub_identifier self).

Definition xpub_from_priv (sk : Xpriv) : Xpub :=
  mkXpub (sk_network sk) (sk_depth sk) (sk_parent_fingerprint sk) (sk_child_number sk)
    (pk_from_secret_key (private_key sk)) (sk_chain_code sk).
Definition xpriv_identifier (self : Xpriv) : list byte := xpub_identifier (xpub_from_priv self).
Definition xpriv_fingerprint (self : Xpriv) : list byte := take 4 (xpriv_identifier self).

Definition to_priv (self : Xpriv) : PrivateKey := mkPrivateKey true (sk_network self) (private_key self).

(** ** Derivation *)

(** [HmacEngine::new], the [input] calls, [Hmac::from_engine]. *)
Definition hmac_sha512 (key : list byte) (inputs : list (list byte)) : run (list byte) :=
  hmac (F := sha512_fn) key inputs.

Definition new_master (network : NetworkKind) (seed : list byte) : comp Error Xpriv :=
  hmac_result ← of_run (hmac_sha512 (String.list_byte_of_string "Bitcoin seed") [seed]);
  child ← of_result (from_normal_idx 0);
  key ← of_result (map_err Bip32Secp (sk_from_slice (take 32 hmac_result)));
  chain_code ← of_run (chain_code_from_hmac hmac_result);
  Val (mkXpriv network 0 (replicate 4 Byte.x00) child key chain_code).

(** [depth.checked_add(1)] *)
Definition next_depth (depth : Z) : comp Error Z :=
  if in_ub 8 (depth + 1) then Val (depth + 1) else Throw MaximumDepthExceeded.

Definition expect {E A} (r : Result E A) : run A := match r with Ok a => Ret a | Err _ => Panic end.

Definition ckd_priv (self : Xpriv) (i : ChildNumber) : comp Error Xpriv :=
  let data := match i with
              | Normal _ => [pk_serialize (pk_from_secret_key (private_key self))]
              | Hardened _ => [[Byte.x00]; sk_bytes (private_key self)]
              end in
  hmac_result ← of_run (hmac_sha512 (sk_chain_code self) (data ++ [to_be_bytes 4 (u32_from_child i)]));
  sk ← of_run (expect (sk_from_slice (take 32 hmac_result)));
  tweaked ← of_run (expect (sk_add_tweak sk (scalar_from_sk (private_key self))));
  depth ← next_depth (sk_depth self);
  chain_code ← of_run (chain_code_from_hmac hmac_result);
  Val (mkXpriv (sk_network self) depth (xpriv_fingerprint self) i tweaked chain_code).

Fixpoint derive_priv (sk : Xpriv) (path : list ChildNumber) : comp Error Xpriv :=
  match path with
  | [] => Val sk
  | cnum :: path => sk ← ckd_priv sk cnum; derive_priv sk path
  end.

Definition ckd_pub_tweak (self : Xpub) (i : ChildNumber) : comp Error (SecretKey * list byte) :=
  match i with
  | Hardened _ => Throw CannotDeriveFromHardenedKey
  | Normal n =>
      hmac_result ← of_run (hmac_sha512 (pk_chain_code self)
        [pk_serialize (xpub_key self); to_be_bytes 4 n]);
      private_key ← of_result (map_err Bip32Secp (sk_from_slice (take 32 hmac_result)));
      chain_code ← of_run (chain_code_from_hmac hmac_result);
      Val (private_key, chain_code)
  end.

Definition ckd_pub (self : Xpub) (i : ChildNumber) : comp Error Xpub :=
  '(sk, chain_code) ← ckd_pub_tweak self i;
  tweaked ← of_result (map_err Bip32Secp (pk_add_exp_tweak (xpub_key self) (scalar_from_sk sk)));
  depth ← next_depth (pk_depth self);
  Val (mkXpub (pk_network self) depth (xpub_fingerprint self) i tweaked chain_code).

Fixpoint derive_pub (pk : Xpub) (path : list ChildNumber) : comp Error Xpub :=
  match path with
  | [] => Val pk
  | cnum :: path => pk ← ckd_pub pk cnum; derive_pub pk path
  end.

(** ** Binary form *)

Definition starts_with (data prefix : list byte) : bool := bool_decide (take (length prefix) data = prefix).

(** The bytes [data[a..b]]; the length check at the start keeps every range inside. *)
Definition range (data : list byte) (a b : nat) : list byte := take (b - a) (drop a data).
Definition byte_at (data : list byte) (i : nat) : Z := byte.unsigned (nth i data Byte.x00).

Definition xpriv_decode (data : list byte) : comp Error Xpriv :=
  if negb (length data =? 78)%nat then Throw (WrongExtendedKeyLength (length data)) else
  network ← (if starts_with data VERSION_BYTES_MAINNET_PRIVATE then Val Main
             else if starts_with data VERSION_BYTES_TESTNETS_PRIVATE then Val Test
             else Throw (UnknownVersion (range data 0 4)));
  key ← of_result (map_err Bip32Secp (sk_from_slice (range data 46 78)));
  Val (mkXpriv network (byte_at data 4) (range data 5 9)
         (child_from_u32 (from_be_bytes (range data 9 13))) key (range data 13 45)).

Definition xpriv_encode (self : Xpriv) : list byte :=
  let ret := replicate 78 Byte.x00 in
  let ret := copy_at 0 match sk_network self with
                       | Main => VERSION_BYTES_MAINNET_PRIVATE
                       | Test => VERSION_BYTES_TESTNETS_PRIVATE
                       end ret in
  let ret := copy_at 4 [byte.of_Z (sk_depth self)] ret in
  let ret := copy_at 5 (sk_parent_fingerprint self) ret in
  let ret := copy_at 9 (to_be_bytes 4 (u32_from_child (sk_child_number self))) ret in
  let ret := copy_at 13 (sk_chain_code self) ret in
  let ret := copy_at 45 [Byte.x00] ret in
  copy_at 46 (sk_bytes (private_key self)) ret.

Definition xpub_decode (data : list byte) : comp Error Xpub :=
  if negb (length data =? 78)%nat then Throw (WrongExtendedKeyLength (length data)) else
  network ← (if starts_with data VERSION_BYTES_MAINNET_PUBLIC then Val Main
             else if starts_with data VERSION_BYTES_TESTNETS_PUBLIC then Val Test
             else Throw (UnknownVersion (range data 0 4)));
  key ← of_result (map_err Bip32Secp (pk_from_slice (range data 45 78)));
  Val (mkXpub network (byte_at data 4) (range data 5 9)
         (child_from_u32 (from_be_bytes (range data 9 13))) key (range data 13 45)).

Definition xpub_encode (self : Xpub) : list byte :=
  let ret := replicate 78 Byte.x00 in
  let ret := copy_at 0 match pk_network self with
                       | Main => VERSION_BYTES_MAINNET_PUBLIC
                       | Test => VERSION_BYTES_TESTNETS_PUBLIC
                       end ret in
  let ret := copy_at 4 [byte.of_Z (pk_depth self)] ret in
  let ret := copy_at 5 (pk_parent_fingerprint self) ret in
  let ret := copy_at 9 (to_be_bytes 4 (u32_from_child (pk_child_number self))) ret in
  let ret := copy_at 13 (pk_chain_code self) ret in
  copy_at 45 (pk_serialize (xpub_key self)) ret.

(** ** Text form *)

Definition xpriv_display (self : Xpriv) : run (list byte) := encode_check_to_fmt (xpriv_encode self).
Definition xpub_display (self : Xpub) : run (list byte) := encode_check_to_fmt (xpub_encode self).

Definition decoded_payload (inp : list byte) : comp Error (list byte) :=
  match decode_check inp with
  | Crash => Crash
  | Throw e => Throw (Bip32Base58 e)
  | Val data => if negb (length data =? 78)%nat then Throw (Bip32PayloadLength (length data)) else Val data
  end.
Definition xpriv_from_str (inp : list byte) : comp Error Xpriv :=
  data ← decoded_payload inp; xpriv_decode data.
Definition xpub_from_str (inp : list byte) : comp Error Xpub :=
  data ← decoded_payload inp; xpub_decode data.
End bip32.

(** ** Well-formed extended keys *)

Definition key_fields_wf (depth : Z) (fingerprint : list byte) (child : ChildNumber) (chain_code : list byte) :
    Prop :=
  in_u 8 depth /\ length fingerprint = 4%nat /\ child_wf child /\ length chain_code = 32%nat.

#[local] Opaque hash160.from_engine Sha256.engine_input hmac.

Section bip32_proofs.
Context {bm : BuildMode} {S : SecpKeys} {L : SecpKeysLaws S}.

Definition xpriv_wf (k : Xpriv) : Prop :=
  key_fields_wf (sk_depth k) (sk_parent_fingerprint k) (sk_child_number k) (sk_chain_code k).
Definition xpub_wf (k : Xpub) : Prop :=
  key_fields_wf (pk_depth k) (pk_parent_fingerprint k) (pk_child_number k) (pk_chain_code k).

(** HMAC-SHA512 of short input returns 64 bytes, so taking the halves does not fail. *)
Lemma hmac_sha512_ok key inputs : length key = 32%nat -> (length (concat inputs) <= 128)%nat ->
  exists h, hmac_sha512 key inputs = Ret h /\ length h = 64%nat /\
    chain_code_from_hmac h = Ret (drop 32 h) /\ length (drop 32 h) = 32%nat.
Proof.
  intros Hk Hi. exists (rfc2104 128 spec512.sha512 key (concat inputs)).
  assert (length (rfc2104 128 spec512.sha512 key (concat inputs)) = 64%nat) as Hl by apply sha512_length.
  split; [unfold hmac_sha512; apply (hmac_rfc2104 (F := sha512_fn)); lia|]. split; [done|].
  assert (length (drop 32 (rfc2104 128 spec512.sha512 key (concat inputs))) = 32%nat) as Hd
    by (rewrite length_drop; lia).
  split; [|done]. unfold chain_code_from_hmac. by rewrite Hd.
Qed.

Lemma next_depth_spec d d' : in_u 8 d -> next_depth d = Val d' -> d' = d + 1 /\ in_u 8 d'.
Proof.
  intros Hd. unfold next_depth. destruct (in_ub 8 (d + 1)) eqn:E; [|done]. intros [= <-].
  by apply in_ub_spec in E.
Qed.

(** The bytes both derivations hash for a child that is not hardened. *)
Definition normal_data (k : Xpriv) (n : Z) : list (list byte) :=
  [pk_serialize (pk_from_secret_key (private_key k)); to_be_bytes 4 n].

Lemma ckd_data_length (k : Xpriv) (i : ChildNumber) :
  (length (concat (match i with
              | Normal _ => [pk_serialize (pk_from_secret_key (private_key k))]
              | Hardened _ => [[Byte.x00]; sk_bytes (private_key k)]
              end ++ [to_be_bytes 4 (u32_from_child i)])) <= 128)%nat.
Proof.
  destruct i; cbn [app concat]; rewrite ?length_app, ?pk_serialize_length, ?sk_bytes_length;
    cbn [length]; rewrite ?length_app, ?sk_bytes_length, ?to_be_bytes_length, ?app_nil_r; cbn [length]; lia.
Qed.

(** What a derived private key looks like. *)
Lemma ckd_priv_fields k i k' : length (sk_chain_code k) = 32%nat -> in_u 8 (sk_depth k) ->
  ckd_priv k i = Val k' ->
  sk_network k' = sk_network k /\ sk_depth k' = sk_depth k + 1 /\ in_u 8 (sk_depth k') /\
  sk_parent_fingerprint k' = xpriv_fingerprint k /\ sk_child_number k' = i /\
  length (sk_chain_code k') = 32%nat.
Proof.
  intros Hc Hd. unfold ckd_priv.
  destruct (hmac_sha512_ok (sk_chain_code k) _ Hc (ckd_data_length k i)) as (h & -> & Hl & Hcc & H32).
  cbn [of_run]. rewrite bind_Val, Hcc. destruct (sk_from_slice _) as [sk|]; [|done]. cbn [expect of_run].
  rewrite bind_Val. destruct (sk_add_tweak _ _) as [t|]; [|done]. cbn [expect of_run]. rewrite bind_Val.
  destruct (next_depth (sk_depth k)) as [d| |] eqn:En; [|done..].
  apply next_depth_spec in En as [-> Hn]; [|done]. cbn [mbind comp_bind of_run]. intros [= <-]. done.
Qed.

(** One step down from a private parent and from its public key. *)
Lemma ckd_commutes k n : length (sk_chain_code k) = 32%nat ->
  match ckd_priv k (Normal n) with
  | Val k' => ckd_pub (xpub_from_priv k) (Normal n) = Val (xpub_from_priv k')
  | Throw e => ckd_pub (xpub_from_priv k) (Normal n) = Throw e
  | Crash => exists e, ckd_pub (xpub_from_priv k) (Normal n) = Throw (Bip32Secp e)
  end.
Proof.
  intros Hc. unfold ckd_priv, ckd_pub, ckd_pub_tweak. cbn [app u32_from_child].
  destruct (hmac_sha512_ok (sk_chain_code k) _ Hc (ckd_data_length k (Normal n))) as (h & Hh & Hl & Hcc & H32).
  cbn [app u32_from_child] in Hh. change (pk_chain_code (xpub_from_priv k)) with (sk_chain_code k).
  change (xpub_key (xpub_from_priv k)) with (pk_from_secret_key (private_key k)).
  rewrite Hh. cbn [of_run]. rewrite !bind_Val.
  destruct (sk_from_slice (take 32 h)) as [sk|e] eqn:Es; cbn [expect map_err of_run of_result];
    [|cbn; by eauto]. rewrite !bind_Val, Hcc. cbn [of_run]. rewrite !bind_Val.
  pose proof (pk_of_sum (private_key k) sk) as Hp.
  destruct (sk_add_tweak sk _) as [t|e]; cbn [expect of_run].
  - rewrite Hp. cbn [map_err of_result]. rewrite !bind_Val.
    change (pk_depth (xpub_from_priv k)) with (sk_depth k).
    destruct (next_depth (sk_depth k)) as [d|e|] eqn:En; cbn [mbind comp_bind]; [reflexivity..|].
    unfold next_depth in En. by destruct (in_ub _ _).
  - destruct Hp as [e' ->]. cbn. by eauto.
Qed.
End bip32_proofs.

Section bip32_claims.
Context {bm : BuildMode} {S : SecpKeys} {L : SecpKeysLaws S}.

Lemma derive_commutes path : forall k, length (sk_chain_code k) = 32%nat -> in_u 8 (sk_depth k) ->
  Forall (fun i => is_normal i = true) path ->
  match derive_priv k path with
  | Val k' => derive_pub (xpub_from_priv k) path = Val (xpub_from_priv k')
  | Throw e => derive_pub (xpub_from_priv k) path = Throw e
  | Crash => exists e, derive_pub (xpub_from_priv k) path = Throw (Bip32Secp e)
  end.
Proof.
  induction path as [|i path IH]; intros k Hc Hd Hp; [reflexivity|].
  apply Forall_cons_1 in Hp as [Hi Hp]. destruct i as [n|n]; [|done]. cbn [derive_priv derive_pub].
  pose proof (ckd_commutes k n Hc) as Hk.
  destruct (ckd_priv k (Normal n)) as [k1|e|] eqn:Ek; cbn [mbind comp_bind].
  - rewrite Hk. cbn [mbind comp_bind]. apply ckd_priv_fields in Ek as (_ & _ & Hd1 & _ & _ & Hc1); [|done..].
    by apply IH.
  - by rewrite Hk.
  - destruct Hk as [e ->]. by exists e.
Qed.

(** C30: public derivation agrees with private derivation, in both builds.  Along every path of
    non-hardened children, deriving from the public half of an extended private key gives exactly
    the public half of the privately derived key, and the same depth error; where the private
    derivation hits one of its two [expect]s the public one reports the curve's error.  A hardened
    child has no public derivation. *)
Theorem public_derivation_agrees (k : Xpriv) (path : list ChildNumber) (i : Z)
    (Hk : xpriv_wf k) (Hpath : Forall (fun c => is_normal c = true) path) :
  match derive_priv k path with
  | Val k' => derive_pub (xpub_from_priv k) path = Val (xpub_from_priv k') /\
              derive_pub (xpub_from_priv k) (path ++ [Hardened i]) = Throw CannotDeriveFromHardenedKey
  | Throw e => derive_pub (xpub_from_priv k) path = Throw e
  | Crash => exists e, derive_pub (xpub_from_priv k) path = Throw (Bip32Secp e)
  end.
Proof.
  destruct Hk as (Hd & _ & _ & Hc). pose proof (derive_commutes path k Hc Hd Hpath) as Hp.
  destruct (derive_priv k path) as [k'|e|]; [|done..]. split; [done|]. revert Hp.
  generalize (xpub_from_priv k), (xpub_from_priv k'). clear. induction path as [|c path IH]; intros p p' Hp.
  - reflexivity.
  - cbn [app derive_pub] in *. destruct (ckd_pub p c) as [q|e|]; cbn [mbind comp_bind] in *; [|done..].
    by apply (IH q p').
Qed.

End bip32_claims.

(** ** BIP-32 as published

    The derivation functions of the BIP on the FIPS 180-4, RIPEMD-160 and RFC 2104 definitions.
    Integers modulo the group order and points are the keys of the curve's interface. *)

(** The 32-bit number of a child: the upper half of the range is the hardened one. *)
Definition child_number (c : ChildNumber) : Z :=
  match c with
  | Normal n => n
  | Hardened n => if n <? 2 ^ 31 then n + 2 ^ 31 else n
  end.

Definition ser32 (i : Z) : list byte := to_be_bytes 4 i.
Definition HMAC_SHA512 (key data : list byte) : list byte := rfc2104 128 spec512.sha512 key data.
Definition HASH160 (m : list byte) : list byte := rmd_spec.ripemd160 (Spec.sha256 m).

(** One derivation after the other along a path. *)
Inductive steps {K C} (R : K -> C -> K -> Prop) : K -> list C -> K -> Prop :=
  | steps_nil k : steps R k [] k
  | steps_cons k c k1 path k' : R k c k1 -> steps R k1 path k' -> steps R k (c :: path) k'.
#[export] Hint Constructors steps : core.

Section published.
Context {S : SecpKeys}.

(** The 64 bytes [I] of a private and of a public parent. *)
Definition I_priv (k : Xpriv) (i : ChildNumber) : list byte :=
  HMAC_SHA512 (sk_chain_code k)
    ((if is_hardened i then Byte.x00 :: sk_bytes (private_key k)
      else pk_serialize (pk_from_secret_key (private_key k))) ++ ser32 (child_number i)).
Definition I_pub (k : Xpub) (i : ChildNumber) : list byte :=
  HMAC_SHA512 (pk_chain_code k) (pk_serialize (xpub_key k) ++ ser32 (child_number i)).

(** [s] is parse256(I_L) + k, and [q] is point(parse256(I_L)) + K. *)
Definition child_secret (k : Xpriv) (i : ChildNumber) (s : SecretKey) : Prop :=
  exists t, sk_bytes t = take 32 (I_priv k i) /\ sk_add_tweak t (scalar_from_sk (private_key k)) = Ok s.
Definition child_point (k : Xpub) (i : ChildNumber) (q : SecpPublicKey) : Prop :=
  exists t, sk_bytes t = take 32 (I_pub k i) /\ pk_add_exp_tweak (xpub_key k) (scalar_from_sk t) = Ok q.

Definition CKDpriv (k : Xpriv) (i : ChildNumber) (k' : Xpriv) : Prop :=
  child_secret k i (private_key k') /\ sk_chain_code k' = drop 32 (I_priv k i) /\
  sk_depth k < 255 /\ sk_depth k' = sk_depth k + 1 /\ sk_child_number k' = i /\
  sk_parent_fingerprint k' = take 4 (HASH160 (pk_serialize (pk_from_secret_key (private_key k)))) /\
  sk_network k' = sk_network k.

Definition CKDpub (k : Xpub) (i : ChildNumber) (k' : Xpub) : Prop :=
  is_hardened i = false /\
  child_point k i (xpub_key k') /\ pk_chain_code k' = drop 32 (I_pub k i) /\
  pk_depth k < 255 /\ pk_depth k' = pk_depth k + 1 /\ pk_child_number k' = i /\
  pk_parent_fingerprint k' = take 4 (HASH160 (pk_serialize (xpub_key k))) /\
  pk_network k' = pk_network k.

Definition master (network : NetworkKind) (seed : list byte) (m : Xpriv) : Prop :=
  let I := HMAC_SHA512 (String.list_byte_of_string "Bitcoin seed") seed in
  sk_bytes (private_key m) = take 32 I /\ sk_chain_code m = drop 32 I /\ sk_depth m = 0 /\
  sk_child_number m = Normal 0 /\ sk_parent_fingerprint m = replicate 4 Byte.x00 /\ sk_network m = network.
End published.

(** *** A walk along a path stops at the first child that fails *)

Section walk.
Context {K C E : Type} (step : K -> C -> comp E K) (R : K -> C -> K -> Prop) (Inv : K -> Prop) (ok : C -> Prop)
  (Hstep : forall k c k', Inv k -> ok c -> step k c = Val k' <-> R k c k')
  (Hinv : forall k c k', Inv k -> R k c k' -> Inv k').

Fixpoint walk (k : K) (path : list C) : comp E K :=
  match path with
  | [] => Val k
  | c :: path => k ← step k c; walk k path
  end.

Lemma walk_val path : forall k k', Inv k -> Forall ok path -> walk k path = Val k' <-> steps R k path k'.
Proof.
  induction path as [|c path IH]; intros k k' Hk Hp.
  - split; [intros [= <-]; auto|by inversion 1].
  - apply Forall_cons_1 in Hp as [Hc Hp]. cbn [walk]. rewrite comp_bind_Val. split.
    + intros (k1 & H1%Hstep & H2); [|done..]. apply IH in H2; eauto.
    + inversion_clear 1 as [|? ? k1 ? ? H1 H2]. exists k1. split; [by apply Hstep|]. apply IH; eauto.
Qed.

(** [r] is a failure: an error or a panic. *)
Lemma walk_fails (r : comp E K) path : (forall k, r <> Val k) -> forall k, Inv k -> Forall ok path ->
  walk k path = r <->
  exists pre c post k1, path = pre ++ c :: post /\ steps R k pre k1 /\ step k1 c = r.
Proof.
  intros Hr. induction path as [|c path IH]; intros k Hk Hp.
  - split; [intros H; by destruct (Hr k)|]. intros (pre & c & post & k1 & Hnil & _). by destruct pre.
  - apply Forall_cons_1 in Hp as [Hc Hp]. cbn [walk]. split.
    + destruct (step k c) as [k1|e|] eqn:Es; cbn [mbind comp_bind].
      * intros H. apply Hstep in Es as HR; [|done..]. apply IH in H as (pre & c' & post & k2 & -> & H1 & H2); [|eauto..].
        exists (c :: pre), c', post, k2. eauto.
      * intros <-. exists [], c, path, k. eauto.
      * intros <-. exists [], c, path, k. eauto.
    + intros ([|c' pre] & d & post & k1 & [= <- ->] & H1 & H2).
      * inversion H1; subst k1. rewrite H2. destruct r as [v|e|]; [by destruct (Hr v)|done..].
      * inversion_clear H1 as [|? ? k2 ? ? HR Hs]. apply Hstep in HR as Ev; [|done..]. rewrite Ev.
        cbn [mbind comp_bind]. apply IH; [eauto..|]. by exists pre, d, post, k1.
Qed.
End walk.

Section published_proofs.
Context {bm : BuildMode} {S : SecpKeys} {L : SecpKeysLaws S}.

Lemma child_number_u32 c : in_u 32 (child_index c) -> u32_from_child c = child_number c.
Proof.
  destruct c as [n|n]; [done|]. cbn [child_index u32_from_child child_number]. intros Hn.
  pose proof (hardened_bit n Hn) as Hb. destruct (n <? 2 ^ 31).
  - change (2 ^ 31) with HARDENED_BIT. by rewrite <- Z.add_nocarry_lor.
  - rewrite <- Hb at 1. apply Z.bits_inj'. intros j _. rewrite Z.lor_spec, !Z.land_spec.
    by destruct (Z.testbit n j), (Z.testbit HARDENED_BIT j).
Qed.

Lemma fingerprint_spec k : xpub_fingerprint k = take 4 (HASH160 (pk_serialize (xpub_key k))).
Proof.
  unfold xpub_fingerprint, xpub_identifier. rewrite (hash160_engine_spec _ (pk_serialize (xpub_key k))); [done|..].
  - apply (engine_input_represents Sha256.default []), default_represents.
  - rewrite pk_serialize_length. lia.
Qed.

(** The engine's HMAC-SHA512, and its right half. *)
Lemma hmac_sha512_spec key inputs : 8 * Z.of_nat (length key) < 2 ^ 64 ->
  8 * Z.of_nat (length (concat inputs)) < 2 ^ 63 ->
  hmac_sha512 key inputs = Ret (HMAC_SHA512 key (concat inputs)).
Proof. apply (hmac_rfc2104 (F := sha512_fn)). Qed.

Lemma chain_code_spec key data :
  chain_code_from_hmac (HMAC_SHA512 key data) = Ret (drop 32 (HMAC_SHA512 key data)) /\
  length (drop 32 (HMAC_SHA512 key data)) = 32%nat.
Proof.
  assert (length (drop 32 (HMAC_SHA512 key data)) = 32%nat) as Hd.
  { rewrite length_drop. unfold HMAC_SHA512, rfc2104. rewrite sha512_length. lia. }
  split; [|done]. unfold chain_code_from_hmac. by rewrite Hd.
Qed.

Lemma sk_from_slice_ok bs t : sk_from_slice bs = Ok t <-> sk_bytes t = bs.
Proof. split; [apply sk_from_slice_bytes|]. intros <-. apply sk_from_bytes. Qed.

Lemma sk_slice_fun bs t t' : sk_from_slice bs = Ok t -> sk_bytes t' = bs -> t' = t.
Proof. rewrite <- sk_from_slice_ok. congruence. Qed.

Lemma hmac_priv k i : length (sk_chain_code k) = 32%nat -> in_u 32 (child_index i) ->
  hmac_sha512 (sk_chain_code k)
    (match i with
     | Normal _ => [pk_serialize (pk_from_secret_key (private_key k))]
     | Hardened _ => [[Byte.x00]; sk_bytes (private_key k)]
     end ++ [to_be_bytes 4 (u32_from_child i)]) = Ret (I_priv k i).
Proof.
  intros Hc Hi. pose proof (ckd_data_length k i). rewrite hmac_sha512_spec by lia. do 2 f_equal.
  rewrite child_number_u32 by done. unfold ser32. destruct i; cbn [concat app is_hardened]; by rewrite app_nil_r.
Qed.

Lemma hmac_pub k n : length (pk_chain_code k) = 32%nat ->
  hmac_sha512 (pk_chain_code k) [pk_serialize (xpub_key k); to_be_bytes 4 n] = Ret (I_pub k (Normal n)).
Proof.
  intros Hc. rewrite hmac_sha512_spec; [by cbn [concat]; rewrite app_nil_r|lia|].
  cbn [concat]. rewrite !length_app, pk_serialize_length, to_be_bytes_length. cbn [length]. lia.
Qed.

Lemma next_depth_eq d : in_u 8 d -> next_depth (S := S) d = if d <? 255 then Val (d + 1) else Throw MaximumDepthExceeded.
Proof.
  intros Hd. unfold next_depth, in_u in *. destruct (in_ub 8 (d + 1)) eqn:E; destruct (Z.ltb_spec d 255); try done.
  - apply in_ub_spec in E. unfold in_u in E. lia.
  - assert (in_ub 8 (d + 1) = true) by (apply in_ub_spec; unfold in_u; lia). congruence.
Qed.

(** *** One child of a private key *)

Lemma ckd_priv_exact k i : length (sk_chain_code k) = 32%nat -> in_u 8 (sk_depth k) -> in_u 32 (child_index i) ->
  (forall k', ckd_priv k i = Val k' <-> CKDpriv k i k') /\
  (forall e, ckd_priv k i = Throw e <->
     e = MaximumDepthExceeded /\ sk_depth k = 255 /\ exists s, child_secret k i s) /\
  (ckd_priv k i = Crash <-> ~ exists s, child_secret k i s).
Proof.
  intros Hc Hd Hi. unfold ckd_priv, CKDpriv, child_secret. cbv zeta. rewrite hmac_priv by done.
  cbn [of_run]. rewrite bind_Val. destruct (chain_code_spec (sk_chain_code k)
    ((if is_hardened i then Byte.x00 :: sk_bytes (private_key k)
      else pk_serialize (pk_from_secret_key (private_key k))) ++ ser32 (child_number i))) as [Hcc _].
  fold (I_priv k i) in Hcc.
  destruct (sk_from_slice (take 32 (I_priv k i))) as [t|e] eqn:Et; cbn [expect of_run].
  2:{ assert (~ exists s t, sk_bytes t = take 32 (I_priv k i) /\
        sk_add_tweak t (scalar_from_sk (private_key k)) = Ok s) as Hn.
      { intros (s & t & Ht & _). rewrite <- Ht, sk_from_bytes in Et. done. }
      split_and!; [..|done]; split; try done; [intros [(t & Ht) _]|intros (_ & _ & Hs)]; by destruct Hn; eauto. }
  rewrite bind_Val. apply sk_from_slice_ok in Et as Eb.
  destruct (sk_add_tweak t _) as [s|e] eqn:Es; cbn [expect of_run].
  2:{ assert (~ exists s t, sk_bytes t = take 32 (I_priv k i) /\
        sk_add_tweak t (scalar_from_sk (private_key k)) = Ok s) as Hn.
      { intros (s & t' & ->%(sk_slice_fun _ t) & Hs); [congruence|done]. }
      split_and!; [..|done]; split; try done; [intros [(t' & Ht) _]|intros (_ & _ & Hs)]; by destruct Hn; eauto. }
  rewrite bind_Val, next_depth_eq by done. unfold in_u in Hd.
  destruct (Z.ltb_spec (sk_depth k) 255); [rewrite bind_Val, Hcc; cbn [of_run]; rewrite bind_Val|cbn [mbind comp_bind]].
  - split_and!; [|split; [done|lia]|split; [done|intros []; eauto]]. intros k'. split.
    + intros [= <-]. cbn. split_and!; eauto. apply (fingerprint_spec (xpub_from_priv k)).
    + intros ((t' & ->%(sk_slice_fun _ t) & Hs) & Ec & _ & Ed & En & Ef & Ew); [|done].
      destruct k' as [w d f c x cc]. cbn in *. subst w d c cc. f_equal. rewrite Es in Hs.
      injection Hs as ->. rewrite Ef. f_equal. apply (fingerprint_spec (xpub_from_priv k)).
  - split_and!; [split; [done|lia]| |split; [done|intros []; eauto]].
    intros e. split; [intros [= <-]|intros (-> & _); done]. split_and!; [done|lia|eauto].
Qed.

(** *** One child of a public key *)

Lemma ckd_pub_exact k i : length (pk_chain_code k) = 32%nat -> in_u 8 (pk_depth k) ->
  (forall k', ckd_pub k i = Val k' <-> CKDpub k i k') /\ ckd_pub k i <> Crash /\
  (forall e, ckd_pub k i = Throw e <->
     if is_hardened i then e = CannotDeriveFromHardenedKey else
     (e = MaximumDepthExceeded /\ pk_depth k = 255 /\ exists q, child_point k i q) \/
     exists e', e = Bip32Secp e' /\
       (sk_from_slice (take 32 (I_pub k i)) = Err e' \/
        exists t, sk_bytes t = take 32 (I_pub k i) /\ pk_add_exp_tweak (xpub_key k) (scalar_from_sk t) = Err e')).
Proof.
  intros Hc Hd. unfold ckd_pub, ckd_pub_tweak, CKDpub. destruct i as [n|n]; cbn [is_hardened];
    [|split_and!; [by split; [|intros []]|done|intros e; split; [by intros [= <-]|by intros ->]]].
  unfold child_point. rewrite hmac_pub by done. cbn [of_run]. rewrite bind_Val.
  destruct (chain_code_spec (pk_chain_code k) (pk_serialize (xpub_key k) ++ ser32 (child_number (Normal n)))) as [Hcc _].
  fold (I_pub k (Normal n)) in Hcc. set (I := I_pub k (Normal n)) in *.
  destruct (sk_from_slice (take 32 I)) as [t|e] eqn:Et; cbn [map_err of_result].
  2:{ assert (forall t, sk_bytes t <> take 32 I) as Hn by (intros t Ht; by rewrite <- Ht, sk_from_bytes in Et).
      cbn [mbind comp_bind]. split_and!; [intros k'; split; [done|intros (_ & (t & ?%Hn & _) & _); done]|done|].
      intros e1. split; [intros [= <-]; eauto 6|].
      intros [(_ & _ & _ & t & ?%Hn & _)|(e' & -> & [[= <-]|(t & ?%Hn & _)])]; done. }
  rewrite bind_Val, Hcc. cbn [of_run]. rewrite !bind_Val. apply sk_from_slice_ok in Et as Eb.
  assert (forall t', sk_bytes t' = take 32 I -> t' = t) as Hu by (intros t'; by apply sk_slice_fun).
  destruct (pk_add_exp_tweak _ _) as [q|e] eqn:Eq; cbn [map_err of_result].
  2:{ cbn [mbind comp_bind]. split_and!; [intros k'; split; [done|intros (_ & (t' & ->%Hu & ?) & _); congruence]|done|].
      intros e1. split; [intros [= <-]; eauto 8|].
      intros [(_ & _ & q & t' & ->%Hu & ?)|(e' & -> & [?|(t' & ->%Hu & ?)])]; congruence. }
  rewrite bind_Val, next_depth_eq by done. unfold in_u in Hd.
  destruct (Z.ltb_spec (pk_depth k) 255); [rewrite bind_Val|cbn [mbind comp_bind]].
  - split_and!; [|done|].
    + intros k'. split.
      * intros [= <-]. cbn. split_and!; eauto. apply fingerprint_spec.
      * intros (_ & (t' & ->%Hu & Hs) & Ec & _ & Ed & En & Ef & Ew).
        destruct k' as [w d f c x cc]. cbn in *. subst w d c cc. f_equal. rewrite Eq in Hs.
        injection Hs as ->. rewrite Ef, fingerprint_spec. done.
    + intros e. split; [done|]. intros [(_ & ? & _)|(e' & -> & [?|(t' & ->%Hu & ?)])]; [lia|congruence..].
  - split_and!; [split; [done|intros H1; lia]|done|].
    intros e. split; [intros [= <-]; left; split_and!; [done|lia|eauto]|].
    intros [(-> & _)|(e' & -> & [?|(t' & ->%Hu & ?)])]; [done|congruence..].
Qed.

Lemma new_master_exact network seed : 8 * Z.of_nat (length seed) < 2 ^ 63 ->
  (forall m, new_master network seed = Val m <-> master network seed m) /\ new_master network seed <> Crash /\
  (forall e, new_master network seed = Throw e <-> exists e', e = Bip32Secp e' /\
     sk_from_slice (take 32 (HMAC_SHA512 (String.list_byte_of_string "Bitcoin seed") seed)) = Err e').
Proof.
  intros Hs. unfold new_master, master. cbv zeta. rewrite hmac_sha512_spec; [|done|cbn [concat]; rewrite app_nil_r; lia].
  cbn [concat]. rewrite app_nil_r. cbn [of_run]. rewrite bind_Val.
  change (from_normal_idx 0) with (@Ok (Bip32Error KeyError Base58.Error) _ (Normal 0)).
  destruct (chain_code_spec (String.list_byte_of_string "Bitcoin seed") seed) as [Hcc _].
  revert Hcc. generalize (HMAC_SHA512 (String.list_byte_of_string "Bitcoin seed") seed). intros I Hcc.
  cbn [of_result]. rewrite bind_Val.
  destruct (sk_from_slice (take 32 _)) as [t|e] eqn:Et; cbn [map_err of_result].
  - rewrite bind_Val, Hcc. cbn [of_run]. rewrite bind_Val. split_and!; [|done|intros e; split; [done|]].
    + intros m. split; [intros [= <-]; split_and!; [by apply sk_from_slice_ok|reflexivity..]|].
      intros (Ek & Ec & Ed & En & Ef & Ew). destruct m as [w d f c x cc]. cbn in *. subst. f_equal.
      f_equal. symmetry. by eapply sk_slice_fun.
    + by intros (e' & _ & ?).
  - cbn [mbind comp_bind]. split_and!; [|done|intros e1; split; [intros [= <-]; eauto|]].
    + intros m. split; [done|]. intros (Ek & _). by rewrite <- Ek, sk_from_bytes in Et.
    + by intros (e' & -> & [= <-]).
Qed.

(** *** Paths *)

Lemma derive_priv_walk path : forall k, derive_priv k path = walk ckd_priv k path.
Proof. induction path as [|i path IH]; intros k; cbn; [done|]. by destruct (ckd_priv k i); cbn. Qed.

Lemma derive_pub_walk path : forall k, derive_pub k path = walk ckd_pub k path.
Proof. induction path as [|i path IH]; intros k; cbn; [done|]. by destruct (ckd_pub k i); cbn. Qed.

(** What the fields' types say of a key. *)
Definition priv_typed (k : Xpriv) : Prop := length (sk_chain_code k) = 32%nat /\ in_u 8 (sk_depth k).
Definition pub_typed (k : Xpub) : Prop := length (pk_chain_code k) = 32%nat /\ in_u 8 (pk_depth k).

Lemma CKDpriv_typed k i k' : priv_typed k -> CKDpriv k i k' -> priv_typed k'.
Proof.
  intros [_ Hd] (_ & Ec & Hl & Ed & _). unfold priv_typed, in_u in *. rewrite Ec, Ed.
  split; [apply chain_code_spec|lia].
Qed.

Lemma CKDpub_typed k i k' : pub_typed k -> CKDpub k i k' -> pub_typed k'.
Proof.
  intros [_ Hd] (_ & _ & Ec & Hl & Ed & _). unfold pub_typed, in_u in *. rewrite Ec, Ed.
  split; [apply chain_code_spec|lia].
Qed.

Lemma steps_invariant {K C} (R : K -> C -> K -> Prop) (Inv : K -> Prop) k path k' :
  (forall k c k', Inv k -> R k c k' -> Inv k') -> Inv k -> steps R k path k' -> Inv k'.
Proof. induction 3; eauto. Qed.
End published_proofs.

Section published_claims.
Context {bm : BuildMode} {S : SecpKeys} {L : SecpKeysLaws S}.

(** C31: derivation is BIP-32's, in both builds and along every path.  A master key has the left half
    of HMAC-SHA512("Bitcoin seed", seed) as its key and the right half as its chain code, depth 0 and
    no parent; the only error is the curve's on that left half.  A key derives along a path exactly
    where every step is the published one: [I] is RFC 2104's HMAC-SHA512 under the parent's chain code
    of the parent's public key, or of a zero byte and its secret for a hardened child, and of the
    child's 32-bit number; the child's key is the sum of the parent's and [I]'s left half, its chain
    code the right half, its depth one more, and its fingerprint the first four bytes of HASH160 of
    the parent's public key.  Private derivation fails exactly at the first parent of depth 255, with
    [MaximumDepthExceeded], or panics exactly at the first child with no such sum; public derivation
    reports these and a hardened child as errors, and never panics. *)
Theorem derivation_is_bip32 (network : NetworkKind) (seed : list byte) (k : Xpriv) (p : Xpub)
    (path : list ChildNumber) (Hk : priv_typed k) (Hp : pub_typed p)
    (Hpath : Forall (fun i => in_u 32 (child_index i)) path) (Hseed : 8 * Z.of_nat (length seed) < 2 ^ 63) :
  ((forall m, new_master network seed = Val m <-> master network seed m) /\ new_master network seed <> Crash /\
   (forall e, new_master network seed = Throw e <-> exists e', e = Bip32Secp e' /\
      sk_from_slice (take 32 (HMAC_SHA512 (String.list_byte_of_string "Bitcoin seed") seed)) = Err e')) /\
  ((forall k', derive_priv k path = Val k' <-> steps CKDpriv k path k') /\
   (forall e, derive_priv k path = Throw e <->
      e = MaximumDepthExceeded /\ exists pre i post k1, path = pre ++ i :: post /\ steps CKDpriv k pre k1 /\
        sk_depth k1 = 255 /\ exists s, child_secret k1 i s) /\
   (derive_priv k path = Crash <-> exists pre i post k1, path = pre ++ i :: post /\ steps CKDpriv k pre k1 /\
        ~ exists s, child_secret k1 i s)) /\
  ((forall p', derive_pub p path = Val p' <-> steps CKDpub p path p') /\ derive_pub p path <> Crash /\
   (forall e, derive_pub p path = Throw e <->
      exists pre i post p1, path = pre ++ i :: post /\ steps CKDpub p pre p1 /\
        if is_hardened i then e = CannotDeriveFromHardenedKey else
        (e = MaximumDepthExceeded /\ pk_depth p1 = 255 /\ exists q, child_point p1 i q) \/
        exists e', e = Bip32Secp e' /\
          (sk_from_slice (take 32 (I_pub p1 i)) = Err e' \/
           exists t, sk_bytes t = take 32 (I_pub p1 i) /\
             pk_add_exp_tweak (xpub_key p1) (scalar_from_sk t) = Err e'))).
Proof.
  assert (forall q i q', priv_typed q -> in_u 32 (child_index i) -> ckd_priv q i = Val q' <-> CKDpriv q i q') as Hpriv
    by (intros q i q' [] ?; by apply ckd_priv_exact).
  assert (forall q i q', pub_typed q -> in_u 32 (child_index i) -> ckd_pub q i = Val q' <-> CKDpub q i q') as Hpub
    by (intros q i q' [] ?; by apply ckd_pub_exact).
  rewrite derive_priv_walk, derive_pub_walk.
  assert (forall pre i post, path = pre ++ i :: post -> in_u 32 (child_index i)) as Hi.
  { intros pre i post ->. by apply Forall_app in Hpath as [_ [? _]%Forall_cons_1]. }
  split; [by apply new_master_exact|]. split_and!.
  - intros k'. by apply (walk_val _ _ _ _ Hpriv CKDpriv_typed).
  - intros e. rewrite (walk_fails _ _ _ _ Hpriv CKDpriv_typed) by done. split.
    + intros (pre & i & post & k1 & E & Hs & Ht). pose proof (steps_invariant _ _ _ _ _ CKDpriv_typed Hk Hs) as [].
      apply ckd_priv_exact in Ht as (-> & Hd & Hx); [|eauto..]. split; [done|]. by exists pre, i, post, k1.
    + intros (-> & pre & i & post & k1 & E & Hs & Hd & Hx). exists pre, i, post, k1. split_and!; [done..|].
      pose proof (steps_invariant _ _ _ _ _ CKDpriv_typed Hk Hs) as []. apply ckd_priv_exact; eauto.
  - rewrite (walk_fails _ _ _ _ Hpriv CKDpriv_typed) by done.
    split; intros (pre & i & post & k1 & E & Hs & Ht); exists pre, i, post, k1; (split_and!; [done..|]);
      pose proof (steps_invariant _ _ _ _ _ CKDpriv_typed Hk Hs) as []; apply (ckd_priv_exact k1 i); eauto.
  - intros p'. by apply (walk_val _ _ _ _ Hpub CKDpub_typed).
  - rewrite (walk_fails _ _ _ _ Hpub CKDpub_typed) by done. intros (pre & i & post & k1 & E & Hs & Ht).
    pose proof (steps_invariant _ _ _ _ _ CKDpub_typed Hp Hs) as []. by apply (ckd_pub_exact k1 i) in Ht.
  - intros e. rewrite (walk_fails _ _ _ _ Hpub CKDpub_typed) by done.
    split; intros (pre & i & post & k1 & E & Hs & Ht); exists pre, i, post, k1; (split_and!; [done..|]);
      pose proof (steps_invariant _ _ _ _ _ CKDpub_typed Hp Hs) as []; by apply (ckd_pub_exact k1 i).
Qed.
End published_claims.


(** ** The 78-byte form *)

Section layout.
Context (v fp cn cc t : list byte) (d : byte)
  (Hv : length v = 4%nat) (Hf : length fp = 4%nat) (Hn : length cn = 4%nat) (Hc : length cc = 32%nat)
  (Ht : length t = 33%nat).

(** The version, the depth, the fingerprint, the child number, the chain code and the key. *)
Definition layout : list byte := v ++ d :: fp ++ cn ++ cc ++ t.

Lemma range_of (l p q r : list byte) a b : l = p ++ q ++ r -> length p = a -> (length p + length q)%nat = b ->
  range l a b = q.
Proof.
  intros -> <- <-. unfold range. rewrite drop_app_length.
  replace (length p + length q - length p)%nat with (length q) by lia. by rewrite take_app_length.
Qed.

Lemma layout_parts : length layout = 78%nat /\ range layout 0 4 = v /\ byte_at layout 4 = byte.unsigned d /\
  range layout 5 9 = fp /\ range layout 9 13 = cn /\ range layout 13 45 = cc /\ range layout 45 78 = t /\
  range layout 46 78 = tl t.
Proof.
  split_and!.
  - unfold layout. rewrite length_app. cbn [length]. rewrite !length_app. lia.
  - by apply (range_of _ [] v (d :: fp ++ cn ++ cc ++ t)).
  - unfold byte_at, layout. rewrite app_nth2 by lia. by rewrite Hv.
  - apply (range_of _ (v ++ [d]) fp (cn ++ cc ++ t)); [unfold layout; by rewrite <- app_assoc|..];
      rewrite length_app; simpl; lia.
  - apply (range_of _ (v ++ d :: fp) cn (cc ++ t)); [unfold layout; by rewrite <- app_assoc|..];
      rewrite length_app; simpl; lia.
  - apply (range_of _ (v ++ d :: fp ++ cn) cc t);
      [unfold layout; rewrite <- app_assoc; cbn [app]; by rewrite <- app_assoc|..];
      rewrite length_app; cbn [length]; rewrite length_app; lia.
  - apply (range_of _ (v ++ d :: fp ++ cn ++ cc) t []);
      [unfold layout; rewrite app_nil_r, <- app_assoc; cbn [app]; by rewrite <- !app_assoc|..];
      rewrite length_app; cbn [length]; rewrite !length_app; lia.
  - assert (exists t0, t = t0 :: tl t) as [t0 Et] by (destruct t as [|t0 t']; [done|by exists t0]).
    assert (length (tl t) = 32%nat) by (rewrite Et in Ht; simpl in Ht; lia).
    apply (range_of _ (v ++ d :: fp ++ cn ++ cc ++ [t0]) (tl t) []);
      [unfold layout; rewrite app_nil_r, <- app_assoc; cbn [app]; rewrite <- !app_assoc; cbn [app];
       by rewrite <- Et|..];
      rewrite length_app; cbn [length]; rewrite !length_app; cbn [length]; lia.
Qed.
End layout.

Lemma layout_exists (data : list byte) : length data = 78%nat -> exists v d fp cn cc t,
  data = layout v fp cn cc t d /\ length v = 4%nat /\ length fp = 4%nat /\ length cn = 4%nat /\
  length cc = 32%nat /\ length t = 33%nat.
Proof.
  intros Hl.
  assert (length (drop 4 data) = 74%nat) as H4 by (rewrite length_drop; lia).
  destruct (drop 4 data) as [|d l] eqn:E; [done|]. simpl in H4.
  exists (take 4 data), d, (take 4 l), (take 4 (drop 4 l)), (take 32 (drop 8 l)), (drop 40 l).
  split; [|rewrite !length_take, !length_drop; lia]. unfold layout.
  rewrite <- (take_drop 4 data) at 1. rewrite E. f_equal. f_equal.
  rewrite <- (take_drop 4 l) at 1. f_equal. rewrite <- (take_drop 4 (drop 4 l)) at 1. f_equal.
  rewrite drop_drop. rewrite <- (take_drop 32 (drop (4 + 4) l)) at 1. f_equal. by rewrite drop_drop.
Qed.

Lemma layout_inj v fp cn cc t d v' fp' cn' cc' t' d' :
  length v = length v' -> length fp = length fp' -> length cn = length cn' -> length cc = length cc' ->
  layout v fp cn cc t d = layout v' fp' cn' cc' t' d' ->
  v = v' /\ d = d' /\ fp = fp' /\ cn = cn' /\ cc = cc' /\ t = t'.
Proof.
  unfold layout. intros H1 H2 H3 H4 E. apply app_inj_1 in E as [-> E]; [|done]. injection E as -> E.
  apply app_inj_1 in E as [-> E]; [|done]. apply app_inj_1 in E as [-> E]; [|done].
  by apply app_inj_1 in E as [-> ->].
Qed.

Lemma be4_roundtrip n : in_u 32 n -> from_be_bytes (to_be_bytes 4 n) = n.
Proof. intros Hn. apply from_to_be_bytes. exact Hn. Qed.

Lemma be4_bytes bs : length bs = 4%nat -> in_u 32 (from_be_bytes bs) /\ to_be_bytes 4 (from_be_bytes bs) = bs.
Proof.
  intros Hl. unfold from_be_bytes, to_be_bytes.
  pose proof (le_combine_bound (rev bs)) as Hb. rewrite length_rev, Hl in Hb. split; [exact Hb|].
  rewrite <- (rev_involutive bs) at 2. f_equal. rewrite <- Hl, <- length_rev. apply split_le_combine.
Qed.

Section forms.
Context {bm : BuildMode} {S : SecpKeys} {L : SecpKeysLaws S}.

Definition private_version (n : NetworkKind) : list byte :=
  match n with Main => VERSION_BYTES_MAINNET_PRIVATE | Test => VERSION_BYTES_TESTNETS_PRIVATE end.
Definition public_version (n : NetworkKind) : list byte :=
  match n with Main => VERSION_BYTES_MAINNET_PUBLIC | Test => VERSION_BYTES_TESTNETS_PUBLIC end.

(** The encoding of an extended private key with [pad] in the byte before the key. *)
Definition xpriv_layout (k : Xpriv) (pad : byte) : list byte :=
  layout (private_version (sk_network k)) (sk_parent_fingerprint k)
    (to_be_bytes 4 (u32_from_child (sk_child_number k))) (sk_chain_code k)
    (pad :: sk_bytes (private_key k)) (byte.of_Z (sk_depth k)).
Definition xpub_layout (k : Xpub) : list byte :=
  layout (public_version (pk_network k)) (pk_parent_fingerprint k)
    (to_be_bytes 4 (u32_from_child (pk_child_number k))) (pk_chain_code k)
    (pk_serialize (xpub_key k)) (byte.of_Z (pk_depth k)).

Lemma copy_next i (bs p : list byte) n rest : length p = i -> length bs = n ->
  copy_at i bs (p ++ replicate n Byte.x00 ++ rest) = p ++ bs ++ rest.
Proof. intros. apply copy_at_app; [done|]. by rewrite length_replicate. Qed.

Lemma copies_layout v fp cn cc d :
  length v = 4%nat -> length fp = 4%nat -> length cn = 4%nat -> length cc = 32%nat ->
  copy_at 13 cc (copy_at 9 cn (copy_at 5 fp (copy_at 4 [d] (copy_at 0 v (replicate 78 Byte.x00))))) =
  layout v fp cn cc (replicate 33 Byte.x00) d.
Proof.
  intros Hv Hf Hn Hc.
  change (replicate 78 Byte.x00) with ([] ++ replicate 4 Byte.x00 ++ replicate 1 Byte.x00 ++
    replicate 4 Byte.x00 ++ replicate 4 Byte.x00 ++ replicate 32 Byte.x00 ++ replicate 33 Byte.x00).
  rewrite (copy_next 0) by done. cbn [app]. rewrite (copy_next 4) by done.
  rewrite (app_assoc v). rewrite (copy_next 5) by (rewrite ?length_app, ?Hv; done).
  rewrite (app_assoc (v ++ [d])). rewrite (copy_next 9) by (rewrite ?length_app, ?Hv, ?Hf; done).
  rewrite (app_assoc ((v ++ [d]) ++ fp)). rewrite (copy_next 13) by (rewrite ?length_app, ?Hv, ?Hf, ?Hn; done).
  unfold layout. by rewrite <- !app_assoc.
Qed.

Lemma layout_prefix v fp cn cc d :
  length v = 4%nat -> length fp = 4%nat -> length cn = 4%nat -> length cc = 32%nat ->
  exists p, length p = 45%nat /\ forall t, layout v fp cn cc t d = p ++ t.
Proof.
  intros Hv Hf Hn Hc. exists (v ++ d :: fp ++ cn ++ cc). split.
  - rewrite length_app. cbn [length]. rewrite !length_app. lia.
  - intros t. unfold layout. rewrite <- app_assoc. cbn [app]. by rewrite <- !app_assoc.
Qed.

Lemma version_length n : length (private_version n) = 4%nat /\ length (public_version n) = 4%nat.
Proof. by destruct n. Qed.

Lemma xpriv_encode_layout k : xpriv_wf k -> xpriv_encode k = xpriv_layout k Byte.x00.
Proof.
  intros (_ & Hf & _ & Hc). unfold xpriv_encode, xpriv_layout. cbv zeta. fold (private_version (sk_network k)).
  pose proof (proj1 (version_length (sk_network k))) as Hv.
  pose proof (to_be_bytes_length 4 (u32_from_child (sk_child_number k))) as Hn.
  rewrite copies_layout by done.
  destruct (layout_prefix _ _ _ _ (byte.of_Z (sk_depth k)) Hv Hf Hn Hc) as (p & Hp & El). rewrite !El.
  change (replicate 33 Byte.x00) with (replicate 1 Byte.x00 ++ replicate 32 Byte.x00 ++ []).
  rewrite (copy_next 45) by done. rewrite (app_assoc p).
  rewrite (copy_next 46) by (rewrite ?length_app, ?Hp, ?sk_bytes_length; done).
  by rewrite app_nil_r, <- app_assoc.
Qed.

Lemma xpub_encode_layout k : xpub_wf k -> xpub_encode k = xpub_layout k.
Proof.
  intros (_ & Hf & _ & Hc). unfold xpub_encode, xpub_layout. cbv zeta. fold (public_version (pk_network k)).
  pose proof (proj2 (version_length (pk_network k))) as Hv.
  pose proof (to_be_bytes_length 4 (u32_from_child (pk_child_number k))) as Hn.
  rewrite copies_layout by done.
  destruct (layout_prefix _ _ _ _ (byte.of_Z (pk_depth k)) Hv Hf Hn Hc) as (p & Hp & El). rewrite !El.
  rewrite <- (app_nil_r (replicate 33 Byte.x00)).
  rewrite (copy_next 45) by (rewrite ?pk_serialize_length; done). by rewrite app_nil_r.
Qed.

(** *** Decoding *)

Lemma fields_decoded d cn : in_u 8 (byte.unsigned d) /\ byte.of_Z (byte.unsigned d) = d /\
  (length cn = 4%nat -> child_wf (child_from_u32 (from_be_bytes cn)) /\
     to_be_bytes 4 (u32_from_child (child_from_u32 (from_be_bytes cn))) = cn).
Proof.
  split; [apply byte.unsigned_range|]. split; [apply byte.of_Z_unsigned|]. intros Hn.
  destruct (be4_bytes cn Hn) as [Hu Hb]. destruct (u32_child_roundtrip _ Hu) as [Hw Hr].
  by rewrite Hr.
Qed.

Lemma fields_encoded depth c : in_u 8 depth -> child_wf c ->
  byte.unsigned (byte.of_Z depth) = depth /\ child_from_u32 (from_be_bytes (to_be_bytes 4 (u32_from_child c))) = c.
Proof.
  intros Hd Hc. split; [by apply byte_unsigned_of_Z|]. destruct (child_u32_roundtrip c Hc) as [Hu Hr].
  by rewrite be4_roundtrip.
Qed.

Lemma starts_with_range data v : length v = 4%nat -> starts_with data v = bool_decide (range data 0 4 = v).
Proof. intros Hv. unfold starts_with, range. rewrite Hv. done. Qed.

Lemma versions_differ : VERSION_BYTES_MAINNET_PRIVATE <> VERSION_BYTES_TESTNETS_PRIVATE /\
  VERSION_BYTES_MAINNET_PUBLIC <> VERSION_BYTES_TESTNETS_PUBLIC.
Proof. split; vm_compute; congruence. Qed.

Lemma xpriv_decode_iff data k : xpriv_decode data = Val k <->
  xpriv_wf k /\ exists pad, data = xpriv_layout k pad.
Proof.
  unfold xpriv_decode. rewrite !starts_with_range by done. split.
  - destruct (Nat.eqb_spec (length data) 78) as [Hl|]; [|done]. cbn [negb].
    destruct (layout_exists data Hl) as (v & d & fp & cn & cc & t & -> & Hv & Hf & Hn & Hc & Ht).
    destruct (layout_parts v fp cn cc t d Hv Hf Hn Hc Ht) as (_ & -> & -> & -> & -> & -> & _ & ->).
    destruct (fields_decoded d cn) as (Hd & Ed & Hcn). destruct (Hcn Hn) as [Hw Ecn].
    assert (forall n, (if bool_decide (v = VERSION_BYTES_MAINNET_PRIVATE) then Val Main
       else if bool_decide (v = VERSION_BYTES_TESTNETS_PRIVATE) then Val Test
       else Throw (@UnknownVersion KeyError Base58.Error v)) = Val n -> v = private_version n) as Hver.
    { intros n. case_bool_decide; [by intros [= <-]|]. case_bool_decide; [by intros [= <-]|done]. }
    destruct (if bool_decide (v = _) then _ else _) as [n| |]; cbn [mbind comp_bind]; [|done..].
    rewrite (Hver n eq_refl). destruct (sk_from_slice (tl t)) as [sk|] eqn:Es; [|done].
    apply sk_from_slice_bytes in Es. cbn [map_err of_result]. rewrite bind_Val. intros [= <-].
    split; [by split_and!|]. destruct t as [|pad t]; [done|]. exists pad. unfold xpriv_layout. cbn.
    cbn [tl] in Es. by rewrite Es, Ecn, Ed.
  - intros ((Hd & Hf & Hw & Hc) & pad & ->). unfold xpriv_layout.
    pose proof (proj1 (version_length (sk_network k))) as Hv.
    pose proof (to_be_bytes_length 4 (u32_from_child (sk_child_number k))) as Hn.
    assert (length (pad :: sk_bytes (private_key k)) = 33%nat) as Ht by (cbn [length]; by rewrite sk_bytes_length).
    destruct (layout_parts _ _ _ _ _ (byte.of_Z (sk_depth k)) Hv Hf Hn Hc Ht)
      as (-> & -> & -> & -> & -> & -> & _ & ->). cbn [Nat.eqb negb tl]. rewrite sk_from_bytes.
    destruct (fields_encoded _ _ Hd Hw) as [-> ->]. destruct k as [n d fp c sk cc]; cbn in *. by destruct n.
Qed.

Lemma xpub_decode_iff data k : xpub_decode data = Val k <-> xpub_wf k /\ data = xpub_layout k.
Proof.
  unfold xpub_decode. rewrite !starts_with_range by done. split.
  - destruct (Nat.eqb_spec (length data) 78) as [Hl|]; [|done]. cbn [negb].
    destruct (layout_exists data Hl) as (v & d & fp & cn & cc & t & -> & Hv & Hf & Hn & Hc & Ht).
    destruct (layout_parts v fp cn cc t d Hv Hf Hn Hc Ht) as (_ & -> & -> & -> & -> & -> & -> & _).
    destruct (fields_decoded d cn) as (Hd & Ed & Hcn). destruct (Hcn Hn) as [Hw Ecn].
    assert (forall n, (if bool_decide (v = VERSION_BYTES_MAINNET_PUBLIC) then Val Main
       else if bool_decide (v = VERSION_BYTES_TESTNETS_PUBLIC) then Val Test
       else Throw (@UnknownVersion KeyError Base58.Error v)) = Val n -> v = public_version n) as Hver.
    { intros n. case_bool_decide; [by intros [= <-]|]. case_bool_decide; [by intros [= <-]|done]. }
    destruct (if bool_decide (v = _) then _ else _) as [n| |]; cbn [mbind comp_bind]; [|done..].
    rewrite (Hver n eq_refl). destruct (pk_from_slice t) as [pk|] eqn:Es; [|done].
    apply pk_serialize_from in Es; [|done]. cbn [map_err of_result]. rewrite bind_Val. intros [= <-].
    split; [by split_and!|]. unfold xpub_layout. cbn. by rewrite Es, Ecn, Ed.
  - intros ((Hd & Hf & Hw & Hc) & ->). unfold xpub_layout.
    pose proof (proj2 (version_length (pk_network k))) as Hv.
    pose proof (to_be_bytes_length 4 (u32_from_child (pk_child_number k))) as Hn.
    destruct (layout_parts _ _ _ _ _ (byte.of_Z (pk_depth k)) Hv Hf Hn Hc (pk_serialize_length (xpub_key k)))
      as (-> & -> & -> & -> & -> & -> & -> & _). cbn [Nat.eqb negb]. rewrite pk_from_serialize.
    destruct (fields_encoded _ _ Hd Hw) as [-> ->]. destruct k as [n d fp c pk cc]; cbn in *. by destruct n.
Qed.
End forms.

Section text_forms.
Context {bm : BuildMode} {S : SecpKeys} {L : SecpKeysLaws S}.

Lemma decoded_payload_iff s data : decoded_payload s = Val data <->
  encode_check data = Ret s /\ length data = 78%nat.
Proof.
  rewrite <- decode_check_encode. unfold decoded_payload.
  destruct (decode_check s) as [d| |]; [|by split; [|intros [? _]]..].
  destruct (Nat.eqb_spec (length d) 78); cbn [negb]; split; try done.
  - by intros [= <-].
  - by intros [[= <-] _].
  - by intros [[= <-] ?].
Qed.

Lemma xpriv_layout_length k pad : xpriv_wf k -> length (xpriv_layout k pad) = 78%nat.
Proof.
  intros (_ & Hf & _ & Hc). apply layout_parts; [apply version_length|done|apply to_be_bytes_length|done|].
  cbn [length]. by rewrite sk_bytes_length.
Qed.

Lemma xpub_layout_length k : xpub_wf k -> length (xpub_layout k) = 78%nat.
Proof.
  intros (_ & Hf & _ & Hc).
  apply layout_parts; [apply version_length|done|apply to_be_bytes_length|done|apply pk_serialize_length].
Qed.

Lemma decoded_payload_no_panic s : decoded_payload s <> Crash.
Proof.
  unfold decoded_payload. pose proof (decode_check_no_panic s).
  destruct (decode_check s); [|done..]. by destruct (negb _).
Qed.

Lemma decode_no_panic data : xpriv_decode data <> Crash /\ xpub_decode data <> Crash.
Proof.
  split; [unfold xpriv_decode|unfold xpub_decode]; (destruct (negb _); [done|]);
    (destruct (starts_with _ _); [|destruct (starts_with _ _); [|done]]); rewrite bind_Val;
    first [by destruct (sk_from_slice _)|by destruct (pk_from_slice _)].
Qed.

(** Extended keys as text, in both builds.  Printing a well-formed key and parsing give the key
    back; parsing never panics; an extended public key is denoted by the one string it prints, and an
    extended private key by the strings that are the base58check of its 78 bytes with any value in
    the byte before the secret, which parsing does not look at. *)
Lemma extended_key_text_exact (s : list byte) (k : Xpriv) (p : Xpub) :
  (xpriv_from_str s = Val k <-> xpriv_wf k /\ exists pad, encode_check (xpriv_layout k pad) = Ret s) /\
  (xpub_from_str s = Val p <-> xpub_wf p /\ xpub_display p = Ret s) /\
  (xpriv_wf k -> xpriv_display k = encode_check (xpriv_layout k Byte.x00)) /\
  xpriv_from_str s <> Crash /\ xpub_from_str s <> Crash.
Proof.
  unfold xpriv_from_str, xpub_from_str. split_and!.
  - rewrite comp_bind_Val. setoid_rewrite decoded_payload_iff. setoid_rewrite xpriv_decode_iff. split.
    + intros (data & [He _] & Hk & pad & ->). eauto.
    + intros (Hk & pad & He). exists (xpriv_layout k pad). eauto 6 using xpriv_layout_length.
  - rewrite comp_bind_Val. setoid_rewrite decoded_payload_iff. setoid_rewrite xpub_decode_iff.
    unfold xpub_display. change (encode_check_to_fmt (xpub_encode p)) with (encode_check (xpub_encode p)). split.
    + intros (data & [He _] & Hk & ->). by rewrite xpub_encode_layout.
    + intros (Hk & He). rewrite xpub_encode_layout in He by done.
      exists (xpub_layout p). eauto 6 using xpub_layout_length.
  - intros Hk. unfold xpriv_display. by rewrite xpriv_encode_layout.
  - pose proof (decoded_payload_no_panic s). destruct (decoded_payload s) as [data| |]; [|done..].
    apply decode_no_panic.
  - pose proof (decoded_payload_no_panic s). destruct (decoded_payload s) as [data| |]; [|done..].
    apply decode_no_panic.
Qed.
End text_forms.

(** ** Witnesses *)

Section bip32_witnesses.
#[local] Instance bip32_wit_mode : BuildMode := true.
Import ToyKeys.

Definition wit_xpriv : Xpriv (S := group) :=
  mkXpriv Main 0 (replicate 4 Byte.x00) (Normal 0) one_sk (replicate 32 Byte.x11).

Lemma wit_xpriv_wf : xpriv_wf wit_xpriv.
Proof. unfold xpriv_wf, key_fields_wf, child_wf, in_u; simpl; lia. Qed.

Lemma public_derivation_agrees_witness :
  match derive_priv wit_xpriv [Normal 5] with
  | Val k' => derive_pub (xpub_from_priv wit_xpriv) [Normal 5] = Val (xpub_from_priv k') /\
              derive_pub (xpub_from_priv wit_xpriv) ([Normal 5] ++ [Hardened 7]) = Throw CannotDeriveFromHardenedKey
  | Throw e => derive_pub (xpub_from_priv wit_xpriv) [Normal 5] = Throw e
  | Crash => exists e, derive_pub (xpub_from_priv wit_xpriv) [Normal 5] = Throw (Bip32Secp e)
  end.
Proof.
  apply (public_derivation_agrees wit_xpriv [Normal 5] 7 wit_xpriv_wf). repeat constructor.
Defined.

Lemma derivation_is_bip32_witness :
  (forall m, new_master Main [Byte.x01] = Val m <-> master Main [Byte.x01] m) /\
  (forall k', derive_priv wit_xpriv [Normal 5; Hardened 7] = Val k' <-> steps CKDpriv wit_xpriv [Normal 5; Hardened 7] k') /\
  (forall p', derive_pub (xpub_from_priv wit_xpriv) [Normal 5; Hardened 7] = Val p' <->
     steps CKDpub (xpub_from_priv wit_xpriv) [Normal 5; Hardened 7] p').
Proof.
  destruct (derivation_is_bip32 Main [Byte.x01] wit_xpriv (xpub_from_priv wit_xpriv) [Normal 5; Hardened 7])
    as ([Hm _] & [Hk _] & [Hp _]).
  - split; [done|unfold in_u; simpl; lia].
  - split; [done|unfold in_u; simpl; lia].
  - repeat constructor; unfold in_u; simpl; lia.
  - simpl; lia.
  - exact (conj Hm (conj Hk Hp)).
Defined.

End bip32_witnesses.
