(* ===== verification/PsbtRaw.v ===== *)
(** * PSBT key-value pairs ([psbt/raw.rs], [psbt/error.rs], [psbt/macros.rs])

    The functions of the curve library a PSBT needs, the errors, raw keys, pairs and proprietary
    keys, and the loop that reads a map of pairs. *)

From Stdlib Require Import ZArith Lia.
From Stdlib Require Strings.String.
From coqutil Require Import Byte Word.LittleEndianList.
From stdpp Require Import base tactics option list numbers.
From S2P Require Import Prelude Io Encode HashEngine Sha256 Sha256t Taproot TapTree TapSpend OrdMap Witness LockTime Script ScriptKinds Transaction Sighash Signatures Base58 Keys DerivationPath Bip32.
Import String.StringSyntax.

#[local] Open Scope Z_scope.
#[local] Opaque engine_input from_engine tag_engine hash_tag.

(** ** The curve *)

(** Keys, x-only keys and signatures, with the orders of the two kinds of public keys. *)
Class PsbtCurve := {
  pc_keys :: SecpKeys;
  pc_xonly :: Secp256k1;
  pc_sigs :: SecpSigs;
  pk_cmp : SecpPublicKey -> SecpPublicKey -> comparison;
  xonly_cmp : XOnlyPublicKey -> XOnlyPublicKey -> comparison;
}.

Class PsbtCurveLaws (C : PsbtCurve) : Prop := {
  pc_keys_laws :: SecpKeysLaws pc_keys;
  pc_xonly_laws :: Secp256k1Laws pc_xonly;
  pc_sigs_laws :: SecpSigsLaws pc_sigs;
  pk_cmp_total :: TotalCompare pk_cmp;
  xonly_cmp_total :: TotalCompare xonly_cmp;
}.

(** ** Raw keys and pairs *)

Record Key := mkKey { type_value : Z; key : list byte }.
Record Pair := mkPair { pair_key : Key; pair_value : list byte }.
Record ProprietaryKey := mkProprietary { prefix : list byte; subtype : Z; prop_key : list byte }.

#[export] Instance Key_eq_dec : EqDecision Key.
Proof. solve_decision. Defined.

(** [#[derive(Ord)]] *)
Definition key_compare (a b : Key) : comparison :=
  then_cmp (type_value a ?= type_value b) (bytes_compare (key a) (key b)).
Definition proprietary_compare (a b : ProprietaryKey) : comparison :=
  then_cmp (bytes_compare (prefix a) (prefix b))
    (then_cmp (subtype a ?= subtype b) (bytes_compare (prop_key a) (prop_key b))).

#[export] Instance key_compare_total : TotalCompare key_compare.
Proof.
  apply (compare_via (fun k => (type_value k, key k)) (pair_compare Z.compare bytes_compare)); [apply _| |done].
  intros [] []; naive_solver.
Qed.
#[export] Instance proprietary_compare_total : TotalCompare proprietary_compare.
Proof.
  apply (compare_via (fun k => (prefix k, (subtype k, prop_key k)))
           (pair_compare bytes_compare (pair_compare Z.compare bytes_compare))); [apply _| |done].
  intros [] []; naive_solver.
Qed.

(** ** Errors *)

Inductive PsbtHash := Ripemd | Sha256H | Hash160H | Hash256H.

Section errors.
Context {C : PsbtCurve}.

Inductive PsbtError :=
| InvalidMagic
| MissingUtxo
| InvalidSeparator
| PsbtUtxoOutOfbounds
| InvalidKey (k : Key)
| InvalidProprietaryKey
| DuplicateKey (k : Key)
| UnsignedTxHasScriptSigs
| UnsignedTxHasScriptWitnesses
| MustHaveUnsignedTx
| NoMorePairs
| UnexpectedUnsignedTx (expected actual : Transaction)
| NonStandardSighashType (n : Z)
| InvalidHash (expected got : nat)
| InvalidPreimageHashPair (hash_type : PsbtHash) (preimage hash : list byte)
| CombineInconsistentKeySources (xpub : Xpub)
| ConsensusEncoding (e : Encode.Error)
| NegativeFee
| FeeOverflow
| InvalidPublicKey (e : FromSliceError)
| InvalidSecp256k1PublicKey (e : KeyError)
| InvalidXOnlyPublicKey
| InvalidEcdsaSignature (e : EcdsaError)
| InvalidTaprootSignature (e : SigFromSliceError)
| InvalidControlBlock
| InvalidLeafVersion
| TaprootMsg (msg : String.string)
| TapTreeError (e : IncompleteBuilderError)
| XPubKey (msg : String.string)
| VersionError (msg : String.string)
| PartialDataConsumption
| PsbtIo (e : ErrorKind).
End errors.
Arguments TaprootMsg {C} msg%_string_scope.
Arguments XPubKey {C} msg%_string_scope.
Arguments VersionError {C} msg%_string_scope.

(** ** Reading with PSBT errors

    A reader keeps its place after an error of this module, so that [NoMorePairs] can end a map;
    a consensus decoding error ends the whole decoding, as [?] does at every call. *)

Section pdecoder.
Context {C : PsbtCurve}.

Definition PDecoder (A : Type) : Type := Decoder (comp PsbtError A).

Definition plift {A} (d : Decoder A) : PDecoder A :=
  mbind (M := Decoder) (fun a => mret (M := Decoder) (Val a)) d.
Definition pcomp {A} (m : comp PsbtError A) : PDecoder A := mret (M := Decoder) m.
Definition pbind {A B} (d : PDecoder A) (k : A -> PDecoder B) : PDecoder B :=
  mbind (M := Decoder) (fun o => match o with
                                 | Val a => k a
                                 | Throw e => mret (M := Decoder) (Throw e)
                                 | Crash => mret (M := Decoder) Crash
                                 end) d.

#[export] Instance plift_Natural {A} (d : Decoder A) : Natural d -> Natural (plift d).
Proof. intros. apply _. Qed.
#[export] Instance pcomp_Natural {A} (m : comp PsbtError A) : Natural (pcomp m).
Proof. apply natural_ret. Qed.
#[export] Instance pbind_Natural {A B} (d : PDecoder A) (k : A -> PDecoder B) :
  Natural d -> (forall a, Natural (k a)) -> Natural (pbind d k).
Proof. intros ? ?. apply natural_bind; [done|]. intros []; apply _. Qed.

(** A decoder run to the end on a slice: both kinds of errors, and the bytes left. *)
Definition pslice {A} (d : PDecoder A) (bs : list byte) : comp PsbtError (A * list byte) :=
  match on_slice d bs with
  | Ok (Val a, rest) => Val (a, rest)
  | Ok (Throw e, _) => Throw e
  | Ok (Crash, _) => Crash
  | Err e => Throw (ConsensusEncoding e)
  end.

Lemma pslice_bind {A B} (d : PDecoder A) (k : A -> PDecoder B) bs :
  pslice (pbind d k) bs = '(a, rest) ← pslice d bs; pslice (k a) rest.
Proof.
  unfold pslice, pbind. rewrite on_slice_bind.
  by destruct (on_slice d bs) as [[[] ?]|].
Qed.

Lemma pslice_lift {A} (d : Decoder A) bs : pslice (plift d) bs = of_result (map_err ConsensusEncoding (on_slice d bs)).
Proof. unfold pslice, plift. rewrite on_slice_bind. by destruct (on_slice d bs) as [[]|]. Qed.

Lemma pslice_comp {A} (m : comp PsbtError A) bs : pslice (pcomp m) bs = a ← m; Val (a, bs).
Proof. by destruct m. Qed.
End pdecoder.

Declare Scope psbt_scope.
Notation "x <- d ;; k" := (pbind d (fun x => k)) (at level 100, d at next level, right associativity) : psbt_scope.
#[local] Open Scope psbt_scope.

(** ** [read_to_limit] ([io/src/lib.rs]) *)

(** One call of [read] with a buffer of [n] bytes. *)
Definition read_some (n : nat) : Decoder (list byte) := fun R HR r => Ok (read r n).

Definition read_to_end_step (buf : list byte) : Decoder (list byte + list byte) :=
  chunk ← read_some 64;
  match chunk with [] => mret (inr buf) | _ => mret (inl (buf ++ chunk)) end.

(** A turn that does not end the loop reads at least a byte, and there are [limit] of them. *)
Definition read_to_limit (limit : Z) : Decoder (list byte) :=
  with_take limit
    (o ← while_pos (Z.to_pos (limit + 1)) read_to_end_step [];
     match o with inr buf => mret buf | inl _ => dfail (ParseFailed "loop bound") end).

#[export] Instance read_some_Natural n : Natural (read_some n).
Proof.
  intros R1 R2 HR1 HR2 Q Hq r1 r2 H. unfold read_some. simpl. destruct (Hq r1 r2 n H) as [Hf Hs].
  destruct (read r1 n), (read r2 n). by simpl in *.
Qed.

#[export] Instance read_to_end_step_Natural buf : Natural (read_to_end_step buf).
Proof. apply natural_bind; [apply _|]. intros []; apply _. Qed.

Lemma on_slice_read_some n bs : on_slice (read_some n) bs = Ok (take n bs, drop n bs).
Proof.
  unfold on_slice, read_some. destruct (@read_spec _ slice_Reader bs n Logic.I) as (Hf & Hc & _).
  unfold contents, slice_Reader, id in Hf, Hc. rewrite <- Hf, <- Hc. by destruct (read bs n).
Qed.

Lemma read_to_end_loop fuel : forall bs buf, (length bs < fuel)%nat ->
  on_slice (while_nat fuel read_to_end_step buf) bs = Ok (inr (buf ++ bs), []).
Proof.
  induction fuel as [|fuel IH]; intros bs buf Hf; [lia|]. cbn [while_nat].
  rewrite on_slice_bind. unfold read_to_end_step at 1. rewrite on_slice_bind, on_slice_read_some.
  destruct bs as [|b bs]; [simpl; by rewrite app_nil_r|].
  change (take 64 (b :: bs)) with (b :: take 63 bs). cbv iota. rewrite on_slice_ret.
  change (drop 64 (b :: bs)) with (drop 63 bs). rewrite IH by (rewrite length_drop; simpl in Hf; lia).
  by rewrite <- app_assoc, <- app_comm_cons, take_drop.
Qed.

#[export] Instance read_to_limit_Natural limit : Natural (read_to_limit limit).
Proof. apply natural_with_take, natural_bind; [apply _|]. intros []; [apply natural_fail|apply natural_ret]. Qed.

Lemma on_slice_read_to_limit limit bs : 0 < limit ->
  on_slice (read_to_limit limit) bs = Ok (take (Z.to_nat limit) bs, drop (Z.to_nat limit) bs).
Proof.
  intros Hl. unfold read_to_limit. rewrite on_slice_with_take.
  2: { apply natural_bind; [apply _|]. intros []; [apply natural_fail|apply natural_ret]. }
  rewrite on_slice_bind, while_pos_nat, read_to_end_loop by (rewrite length_take; lia). done.
Qed.

(** ** Raw keys *)

Section raw.
Context {bm : BuildMode} {C : PsbtCurve}.

Definition push_byte (k : list byte) : Decoder (list byte) :=
  b ← consensus_decode u8; mret (k ++ [byte.of_Z b]).

Definition Key_decode : PDecoder Key :=
  byte_size <- plift (consensus_decode VarInt) ;;
  if byte_size =? 0 then pcomp (Throw NoMorePairs) else
  let key_byte_size := byte_size - 1 in
  if MAX_VEC_SIZE <? key_byte_size
  then pcomp (Throw (ConsensusEncoding (OversizedVectorAllocation key_byte_size MAX_VEC_SIZE))) else
  type_value <- plift (consensus_decode u8) ;;
  k <- plift (for_ key_byte_size push_byte []) ;;
  pcomp (Val (mkKey type_value k)).

(** [self.key.len() + 1] cannot overflow: a vector has at most [isize::MAX] bytes. *)
Definition Key_serialize (self : Key) : list byte :=
  bytes_of VarInt (Z.of_nat (length (key self)) + 1) ++ bytes_of u8 (type_value self)
    ++ (key self ≫= fun b => bytes_of u8 (byte.unsigned b)).

Definition Pair_serialize (self : Pair) : list byte :=
  Key_serialize (pair_key self) ++ bytes_of byte_vec (pair_value self).

Definition Pair_decode : PDecoder Pair :=
  k <- Key_decode ;;
  value <- plift (consensus_decode byte_vec) ;;
  pcomp (Val (mkPair k value)).

Definition Pair_deserialize (bytes : list byte) : comp PsbtError Pair :=
  '(rv, decoder) ← pslice Pair_decode bytes; Val rv.

(** ** Proprietary keys *)

Definition proprietary_encode (self : ProprietaryKey) : list byte * Z :=
  let '(bs, len) := consensus_encode byte_vec (prefix self) in
  (bs ++ [byte.of_Z (subtype self)] ++ prop_key self, len + 1 + Z.of_nat (length (prop_key self))).

Definition proprietary_decode : Decoder ProprietaryKey :=
  prefix ← consensus_decode byte_vec;
  subtype ← consensus_decode u8;
  key ← read_to_limit 1024;
  mret (mkProprietary prefix subtype key).

Definition ProprietaryC : Consensus ProprietaryKey := simple proprietary_encode proprietary_decode.

Definition to_key (self : ProprietaryKey) : run Key :=
  k ← serialize ProprietaryC self; Ret (mkKey 0xFC k).

Definition proprietary_try_from (k : Key) : comp PsbtError ProprietaryKey :=
  if negb (type_value k =? 0xFC) then Throw InvalidProprietaryKey
  else of_result (map_err ConsensusEncoding (deserialize ProprietaryC (key k))).

(** ** Maps of pairs *)

Section map_decoding.
Context {T : Type} (insert_pair : T -> Pair -> comp PsbtError T).

(** [Map::serialize_map]: the pairs and a zero byte. *)
Definition serialize_map (get_pairs : run (list Pair)) : run (list byte) :=
  pairs ← get_pairs;
  Ret (fold_left (fun buf p => buf ++ Pair_serialize p) pairs [] ++ [Byte.x00]).

Definition pair_result (rv : T) (o : comp PsbtError Pair) : T + comp PsbtError T :=
  match o with
  | Val p => match insert_pair rv p with
             | Val rv => inl rv
             | Throw e => inr (Throw e)
             | Crash => inr Crash
             end
  | Throw NoMorePairs => inr (Val rv)
  | Throw e => inr (Throw e)
  | Crash => inr Crash
  end.
Definition decode_step (rv : T) : Decoder (T + comp PsbtError T) :=
  o ← (Pair_decode : Decoder (comp PsbtError Pair)); mret (pair_result rv o).

(** The [loop] of [impl_psbtmap_decoding!].  Every turn reads at least a byte, of which an
    in-memory reader has fewer than [2^64]. *)
Definition decode_map (rv : T) : PDecoder T :=
  mbind (M := Decoder) (fun o => pcomp (match o with inr r => r | inl _ => Crash end))
    (while_pos (2 ^ 64) decode_step rv).

(** The pairs inserted one after the other. *)
Fixpoint insert_all (rv : T) (pairs : list Pair) : comp PsbtError T :=
  match pairs with
  | [] => Val rv
  | p :: pairs => rv ← insert_pair rv p; insert_all rv pairs
  end.
End map_decoding.
End raw.

(** ** Raw pairs round trip *)

Section raw_laws.
Context {bm : BuildMode} {C : PsbtCurve}.

Definition key_fits (k : Key) : Prop := in_u 8 (type_value k) /\ Z.of_nat (length (key k)) <= MAX_VEC_SIZE.
Definition pair_fits (p : Pair) : Prop :=
  key_fits (pair_key p) /\ Z.of_nat (length (bytes_of byte_vec (pair_value p))) <= MAX_VEC_SIZE.

#[export] Instance push_byte_Natural k : Natural (push_byte k).
Proof. apply natural_bind; apply _. Qed.
#[export] Instance Key_decode_Natural : Natural Key_decode.
Proof.
  unfold Key_decode. apply pbind_Natural; [apply _|]. intros n. cbv zeta. apply natural_if; [apply _|].
  apply natural_if; [apply _|]. apply pbind_Natural; [apply _|]. intros t. apply pbind_Natural; apply _.
Qed.
#[export] Instance Pair_decode_Natural : Natural Pair_decode.
Proof. unfold Pair_decode. apply pbind_Natural; [apply _|]. intros k. apply pbind_Natural; apply _. Qed.

Lemma u8_byte b : bytes_of u8 (byte.unsigned b) = [b].
Proof.
  unfold bytes_of. cbn [u8 u_le simple consensus_encode fst]. rewrite le_split_S, byte.of_Z_unsigned.
  reflexivity.
Qed.

Lemma key_bytes (k : list byte) : (k ≫= fun b => bytes_of u8 (byte.unsigned b)) = k.
Proof.
  induction k as [|b k IH]; [done|]. cbn [mbind list_bind]. by rewrite IH, u8_byte.
Qed.

Lemma Key_serialize_eq k : Key_serialize k =
  bytes_of VarInt (Z.of_nat (length (key k)) + 1) ++ bytes_of u8 (type_value k) ++ key k.
Proof. unfold Key_serialize. by rewrite key_bytes. Qed.

Lemma push_bytes_spec n : forall acc bs, on_slice (for_nat n push_byte acc) bs =
  match on_slice (read_slice n) bs with Ok (k, rest) => Ok (acc ++ k, rest) | Err e => Err e end.
Proof.
  induction n as [|n IH]; intros acc bs.
  - cbn [for_nat]. rewrite on_slice_ret, on_slice_read_slice. simpl. by rewrite take_0, app_nil_r, drop_0.
  - cbn [for_nat]. rewrite on_slice_bind. unfold push_byte at 1. rewrite on_slice_bind.
    rewrite on_slice_read_slice. destruct bs as [|b bs].
    + unfold u8. simpl. reflexivity.
    + assert (on_slice (consensus_decode u8) (b :: bs) = Ok (byte.unsigned b, bs)) as ->.
      { pose proof (byte.unsigned_range b). change (b :: bs) with ([b] ++ bs). rewrite <- u8_byte.
        apply (u_le_dec 1). unfold in_u. lia. }
      cbv iota beta. rewrite on_slice_ret, IH, on_slice_read_slice. cbn [length].
      rewrite byte.of_Z_unsigned.
      destruct (Nat.leb_spec n (length bs)), (Nat.leb_spec (S n) (S (length bs))); try lia; [|done].
      by rewrite <- app_assoc.
Qed.

Lemma Key_decode_Ok k rest : key_fits k -> on_slice Key_decode (Key_serialize k ++ rest) = Ok (Val k, rest).
Proof.
  intros [Ht Hl]. unfold MAX_VEC_SIZE in Hl. rewrite Key_serialize_eq, <- !app_assoc. unfold Key_decode, pbind, plift.
  rewrite !on_slice_bind, (varint_dec (Z.of_nat (length (key k)) + 1)) by (unfold in_u; lia).
  cbv iota beta. rewrite on_slice_ret. cbv iota beta zeta.
  rewrite (proj2 (Z.eqb_neq _ _)), (proj2 (Z.ltb_ge _ _)) by (unfold MAX_VEC_SIZE; lia).
  rewrite !on_slice_bind, (u_le_dec 1) by done. cbv iota beta. rewrite on_slice_ret. cbv iota beta.
  rewrite !on_slice_bind, for_spec, push_bytes_spec.
  replace (Z.to_nat _) with (length (key k)) by lia.
  rewrite on_slice_read_app by done. cbv iota beta. rewrite on_slice_ret. by destruct k.
Qed.

Lemma Key_decode_end rest : on_slice Key_decode (Byte.x00 :: rest) = Ok (Throw NoMorePairs, rest).
Proof.
  unfold Key_decode, pbind, plift. change (Byte.x00 :: rest) with (bytes_of VarInt 0 ++ rest).
  by rewrite !on_slice_bind, varint_dec.
Qed.

Lemma Key_decode_inv bs o rest : on_slice Key_decode bs = Ok (o, rest) ->
  match o with
  | Val k => key_fits k /\ bs = Key_serialize k ++ rest
  | Throw e => e = NoMorePairs /\ bs = Byte.x00 :: rest \/ exists n m, e = ConsensusEncoding (OversizedVectorAllocation n m)
  | Crash => False
  end.
Proof.
  unfold Key_decode, pbind, plift. rewrite !on_slice_bind.
  destruct (on_slice (consensus_decode VarInt) bs) as [[n b1]|] eqn:E1; [|done].
  apply (decode_canonical (c := VarInt)) in E1 as [Hn ->]. cbv iota beta. rewrite on_slice_ret. cbv iota beta zeta.
  destruct (Z.eqb_spec n 0) as [->|H0]; [intros [= <- <-]; by left|].
  destruct (Z.ltb_spec MAX_VEC_SIZE (n - 1)) as [Hm|Hm]; [intros [= <- <-]; eauto|].
  rewrite !on_slice_bind. destruct (on_slice (consensus_decode u8) b1) as [[t b2]|] eqn:E2; [|done].
  apply (u_le_inv 1) in E2 as [Ht ->]. cbv iota beta. rewrite on_slice_ret. cbv iota beta.
  rewrite !on_slice_bind, for_spec, push_bytes_spec.
  destruct (on_slice (read_slice _) b2) as [[k b3]|] eqn:E3; [|done].
  apply on_slice_read_Ok in E3 as [Hk ->]. cbv iota beta. rewrite on_slice_ret. intros [= <- <-].
  unfold in_u in Hn. split; [split; simpl; [done|lia]|]. rewrite Key_serialize_eq. simpl.
  rewrite <- !app_assoc. do 2 f_equal. lia.
Qed.

Lemma Pair_decode_Ok p rest : pair_fits p -> on_slice Pair_decode (Pair_serialize p ++ rest) = Ok (Val p, rest).
Proof.
  intros [Hk Hv]. unfold Pair_serialize, Pair_decode. rewrite <- app_assoc. unfold pbind at 1.
  rewrite on_slice_bind, Key_decode_Ok by done. cbv iota beta. unfold pbind, plift. rewrite !on_slice_bind.
  rewrite (decode_roundtrip (c := byte_vec)).
  - cbv iota beta. rewrite on_slice_ret. by destruct p.
  - unfold byte_vec_wf, MAX_VEC_SIZE in *. unfold bytes_of in Hv. simpl in Hv. rewrite length_app in Hv. lia.
  - done.
Qed.

Lemma Pair_decode_end rest : on_slice Pair_decode (Byte.x00 :: rest) = Ok (Throw NoMorePairs, rest).
Proof. unfold Pair_decode. unfold pbind at 1. by rewrite on_slice_bind, Key_decode_end. Qed.

Lemma byte_vec_decode_fits bs v rest : on_slice (consensus_decode byte_vec) bs = Ok (v, rest) ->
  Z.of_nat (length (bytes_of byte_vec v)) <= MAX_VEC_SIZE /\ bs = bytes_of byte_vec v ++ rest.
Proof.
  intros E. pose proof E as E'. apply (decode_canonical (c := byte_vec)) in E' as [_ Hb]. split; [|done].
  change (consensus_decode byte_vec) with (with_take MAX_VEC_SIZE (consensus_decode_from_finite_reader byte_vec)) in E.
  rewrite on_slice_with_take in E by apply _.
  destruct (on_slice _ (take _ _)) as [[v' r]|] eqn:E1; [|done]. injection E as -> _.
  apply (finite_canonical (c := byte_vec)) in E1 as [_ E1].
  apply (f_equal length) in E1. rewrite length_take, length_app in E1. unfold MAX_VEC_SIZE in *. lia.
Qed.

Lemma Pair_decode_inv bs o rest : on_slice Pair_decode bs = Ok (o, rest) ->
  match o with
  | Val p => pair_fits p /\ bs = Pair_serialize p ++ rest
  | Throw e => e = NoMorePairs /\ bs = Byte.x00 :: rest \/ exists n m, e = ConsensusEncoding (OversizedVectorAllocation n m)
  | Crash => False
  end.
Proof.
  unfold Pair_decode. unfold pbind at 1. rewrite on_slice_bind.
  destruct (on_slice Key_decode bs) as [[o1 b1]|] eqn:E1; [|done]. apply Key_decode_inv in E1.
  destruct o1 as [k|e|]; [|intros [= <- <-]; done|done]. destruct E1 as [Hk ->].
  unfold pbind, plift. rewrite !on_slice_bind.
  destruct (on_slice (consensus_decode byte_vec) b1) as [[v b2]|] eqn:E2; [|done].
  apply byte_vec_decode_fits in E2 as [Hv ->]. cbv iota beta. rewrite on_slice_ret. intros [= <- <-].
  split; [by split|]. unfold Pair_serialize. simpl. by rewrite <- app_assoc.
Qed.
End raw_laws.

(** ** Maps of pairs *)

Section map_laws.
Context {bm : BuildMode} {C : PsbtCurve} {T : Type} (insert_pair : T -> Pair -> comp PsbtError T).

Definition pairs_bytes (ps : list Pair) : list byte := concat (map Pair_serialize ps).

Lemma fold_pairs ps : forall acc, fold_left (fun buf p => buf ++ Pair_serialize p) ps acc = acc ++ pairs_bytes ps.
Proof.
  induction ps as [|p ps IH]; intros acc; [by rewrite app_nil_r|]. simpl. rewrite IH. by rewrite <- app_assoc.
Qed.

Lemma serialize_map_eq ps : serialize_map (Ret ps) = Ret (pairs_bytes ps ++ [Byte.x00]).
Proof. unfold serialize_map. msimpl. by rewrite fold_pairs. Qed.

#[export] Instance decode_step_Natural rv : Natural (decode_step insert_pair rv).
Proof. apply natural_bind; [apply Pair_decode_Natural|]. intros. apply natural_ret. Qed.
#[export] Instance decode_map_Natural rv : Natural (decode_map insert_pair rv).
Proof. apply natural_bind; [apply natural_while_pos; apply _|]. intros. apply pcomp_Natural. Qed.

Lemma insert_all_app ps qs : forall rv,
  insert_all insert_pair rv (ps ++ qs) = t ← insert_all insert_pair rv ps; insert_all insert_pair t qs.
Proof. induction ps as [|p ps IH]; intros rv; [done|]. simpl. destruct (insert_pair rv p); [apply IH|done|done]. Qed.

Lemma pairs_count ps : (length ps <= length (pairs_bytes ps))%nat.
Proof.
  induction ps as [|p ps IH]; simpl; [lia|]. unfold pairs_bytes in *. simpl. rewrite length_app.
  assert (1 <= length (Pair_serialize p))%nat; [|lia].
  unfold Pair_serialize. rewrite Key_serialize_eq, !length_app.
  assert (length (bytes_of u8 (type_value (pair_key p))) = 1%nat) by apply length_le_split. lia.
Qed.

Lemma decode_step_slice rv bs : on_slice (decode_step insert_pair rv) bs =
  match on_slice Pair_decode bs with Ok (o, rest) => Ok (pair_result insert_pair rv o, rest) | Err e => Err e end.
Proof. unfold decode_step. rewrite on_slice_bind. by destruct (on_slice Pair_decode bs) as [[]|]. Qed.

Lemma decode_loop_pairs ps : forall fuel rv rest, (length ps < fuel)%nat -> Forall pair_fits ps ->
  exists rest', on_slice (while_nat fuel (decode_step insert_pair) rv) (pairs_bytes ps ++ Byte.x00 :: rest) =
    Ok (inr (insert_all insert_pair rv ps), rest') /\ forall t, insert_all insert_pair rv ps = Val t -> rest' = rest.
Proof.
  induction ps as [|p ps IH]; intros [|fuel] rv rest Hf Hp; simpl in Hf; try lia; cbn [while_nat].
  - change (pairs_bytes [] ++ Byte.x00 :: rest) with (Byte.x00 :: rest).
    rewrite on_slice_bind, decode_step_slice, Pair_decode_end. cbn [pair_result]. cbv iota beta. rewrite on_slice_ret.
    eexists. split; [done|]. done.
  - apply Forall_cons_iff in Hp as [Hp Hps]. change (pairs_bytes (p :: ps)) with (Pair_serialize p ++ pairs_bytes ps).
    rewrite <- app_assoc. rewrite on_slice_bind, decode_step_slice, Pair_decode_Ok by done.
    cbn [insert_all pair_result]. destruct (insert_pair rv p) as [rv'|e|]; [|eexists; (split; [done|]); done..].
    apply IH; [lia|done].
Qed.

Lemma decode_loop_inv fuel : forall rv bs t rest,
  on_slice (while_nat fuel (decode_step insert_pair) rv) bs = Ok (inr (Val t), rest) ->
  exists ps, Forall pair_fits ps /\ bs = pairs_bytes ps ++ Byte.x00 :: rest /\ insert_all insert_pair rv ps = Val t.
Proof.
  induction fuel as [|fuel IH]; intros rv bs t rest; [done|]. cbn [while_nat]. rewrite on_slice_bind, decode_step_slice. destruct (on_slice Pair_decode bs) as [[o b1]|] eqn:E; [|done].
  apply Pair_decode_inv in E. destruct o as [p|e|]; [| |done].
  - destruct E as [Hp ->]. cbn [pair_result]. destruct (insert_pair rv p) as [rv'|e|] eqn:Ei; [|done..].
    intros (ps & Hps & -> & Ea)%IH. exists (p :: ps). split; [by constructor|]. split.
    + change (pairs_bytes (p :: ps)) with (Pair_serialize p ++ pairs_bytes ps). by rewrite <- app_assoc.
    + simpl. by rewrite Ei.
  - destruct E as [[-> ->]|(n & m & ->)]; [|done]. intros [= <- <-]. by exists [].
Qed.

(** What the loop does on a slice: it inserts the pairs it reads, in order, up to the zero byte. *)
Lemma decode_map_slice : exists n, Z.of_nat n = 2 ^ 64 /\ forall rv bs,
  pslice (decode_map insert_pair rv) bs =
  match on_slice (while_nat n (decode_step insert_pair) rv) bs with
  | Ok (inr (Val t), rest) => Val (t, rest)
  | Ok (inr (Throw e), _) => Throw e
  | Ok (inr Crash, _) | Ok (inl _, _) => Crash
  | Err e => Throw (ConsensusEncoding e)
  end.
Proof.
  exists (Pos.to_nat (2 ^ 64)). split; [apply positive_nat_Z|]. intros rv bs.
  unfold pslice, decode_map. rewrite on_slice_bind, while_pos_nat.
  by destruct (on_slice _ bs) as [[[|[]] ?]|].
Qed.

Lemma decode_map_pairs ps rv rest : Forall pair_fits ps -> Z.of_nat (length (pairs_bytes ps)) < 2 ^ 64 ->
  pslice (decode_map insert_pair rv) (pairs_bytes ps ++ Byte.x00 :: rest) =
  t ← insert_all insert_pair rv ps; Val (t, rest).
Proof.
  intros Hp Hl. destruct decode_map_slice as (n & Hn & Hs). rewrite Hs. pose proof (pairs_count ps).
  destruct (decode_loop_pairs ps n rv rest) as (rest' & -> & Hr); [lia|done|].
  destruct (insert_all insert_pair rv ps) as [t| |]; [|done..]. by rewrite (Hr t).
Qed.

Lemma decode_map_inv rv bs t rest : pslice (decode_map insert_pair rv) bs = Val (t, rest) ->
  exists ps, Forall pair_fits ps /\ bs = pairs_bytes ps ++ Byte.x00 :: rest /\ insert_all insert_pair rv ps = Val t.
Proof.
  destruct decode_map_slice as (n & Hn & Hs). rewrite Hs.
  destruct (on_slice _ bs) as [[[|[t'| |]] r]|] eqn:E; try done.
  intros [= -> ->]. by apply decode_loop_inv in E.
Qed.

(** An invariant of the record that every insertion keeps, without panicking, holds at the end. *)
Section invariant.
Context (P : T -> Prop) (HP : forall rv p, P rv -> pair_fits p ->
  match insert_pair rv p with Val t => P t | Throw _ => True | Crash => False end).

Lemma decode_loop_keeps fuel : forall rv bs, (length bs < fuel)%nat -> P rv ->
  match on_slice (while_nat fuel (decode_step insert_pair) rv) bs with
  | Ok (inr (Val t), rest) => P t /\ (length rest < length bs)%nat
  | Ok (inr Crash, _) | Ok (inl _, _) => False
  | _ => True
  end.
Proof.
  induction fuel as [|fuel IH]; intros rv bs Hf Hp; [lia|]. cbn [while_nat].
  rewrite on_slice_bind, decode_step_slice. destruct (on_slice Pair_decode bs) as [[o b1]|] eqn:E; [|done].
  apply Pair_decode_inv in E. destruct o as [p|e|]; [| |done].
  - destruct E as [Hpf ->]. cbn [pair_result]. pose proof (HP rv p Hp Hpf) as H.
    destruct (insert_pair rv p) as [rv'|e|]; [|done..]. pose proof (pairs_count [p]) as Hc.
    unfold pairs_bytes in Hc. simpl in Hc. rewrite app_nil_r in Hc. rewrite length_app in *.
    specialize (IH rv' b1 ltac:(lia) H).
    destruct (on_slice _ b1) as [[[?|[t|e|]] rest]|]; try done. destruct IH. split; [done|lia].
  - destruct E as [[-> ->]|(n & m & ->)]; [|done]. cbn [pair_result]. split; [done|]. simpl. lia.
Qed.

Lemma decode_map_keeps rv bs : Z.of_nat (length bs) < 2 ^ 64 -> P rv ->
  match pslice (decode_map insert_pair rv) bs with
  | Val (t, rest) => P t /\ (length rest < length bs)%nat
  | Throw _ => True
  | Crash => False
  end.
Proof.
  intros Hl Hp. destruct decode_map_slice as (n & Hn & Hs). rewrite Hs.
  pose proof (decode_loop_keeps n rv bs ltac:(lia) Hp) as H.
  by destruct (on_slice _ bs) as [[[?|[]] ?]|].
Qed.
End invariant.
End map_laws.

(** ** Proprietary keys round trip *)

Section proprietary_laws.
Context {bm : BuildMode} {C : PsbtCurve}.

Definition proprietary_wf (k : ProprietaryKey) : Prop :=
  Z.of_nat (length (bytes_of byte_vec (prefix k))) <= MAX_VEC_SIZE /\ in_u 8 (subtype k) /\
  (length (prop_key k) <= 1024)%nat.

#[export] Instance proprietary_decode_Natural : Natural proprietary_decode.
Proof. do 3 (apply natural_bind; [apply _|intros ?]). apply natural_ret. Qed.

Lemma fits_wf v : Z.of_nat (length (bytes_of byte_vec v)) <= MAX_VEC_SIZE -> byte_vec_wf v.
Proof. unfold byte_vec_wf, MAX_VEC_SIZE, bytes_of. simpl. rewrite length_app. lia. Qed.

Lemma proprietary_bytes k : in_u 8 (subtype k) -> bytes_of ProprietaryC k =
  bytes_of byte_vec (prefix k) ++ bytes_of u8 (subtype k) ++ prop_key k.
Proof.
  intros Hs. change (bytes_of ProprietaryC k) with (fst (proprietary_encode k)). unfold proprietary_encode.
  rewrite (surjective_pairing (consensus_encode byte_vec _)). reflexivity.
Qed.

Lemma to_key_spec k : proprietary_wf k -> to_key k = Ret (mkKey 0xFC (bytes_of ProprietaryC k)).
Proof.
  intros (Hp & Hs & Hk). unfold to_key, serialize, bytes_of.
  cbn [ProprietaryC simple consensus_encode]. unfold proprietary_encode.
  pose proof (encode_len (c := byte_vec) (prefix k) (fits_wf _ Hp)) as Hl. unfold bytes_of in Hl.
  destruct (consensus_encode byte_vec (prefix k)) as [bs len]. cbn [fst snd] in *. subst len.
  unfold debug_assert. rewrite (proj2 (Z.eqb_eq _ _)) by (rewrite length_app; simpl; lia).
  by destruct debug_assertions.
Qed.

Lemma proprietary_slice k : proprietary_wf k ->
  on_slice proprietary_decode (bytes_of ProprietaryC k) = Ok (k, []).
Proof.
  intros (Hp & Hs & Hk). rewrite proprietary_bytes by done. unfold proprietary_decode.
  rewrite on_slice_bind, (decode_roundtrip (c := byte_vec)) by (done || by apply fits_wf). cbv iota beta.
  rewrite on_slice_bind, (u_le_dec 1) by done. cbv iota beta.
  rewrite on_slice_bind, on_slice_read_to_limit by lia. rewrite take_ge, drop_ge by lia. by destruct k.
Qed.

(** [deserialize] does not use the round trip of the type, only that its decoder is natural. *)
#[local] Instance proprietary_codec : Codec ProprietaryC (fun _ => False).
Proof. split; try done; apply proprietary_decode_Natural. Qed.

Lemma proprietary_bytes_fit k : proprietary_wf k -> Z.of_nat (length (bytes_of ProprietaryC k)) < 2 ^ 64.
Proof.
  intros (Hp & Hs & Hk). rewrite proprietary_bytes, !length_app by done. unfold MAX_VEC_SIZE in Hp.
  assert (length (bytes_of u8 (subtype k)) = 1%nat) by apply length_le_split. lia.
Qed.

Lemma proprietary_roundtrip k : proprietary_wf k ->
  proprietary_try_from (mkKey 0xFC (bytes_of ProprietaryC k)) = Val k.
Proof.
  intros Hk. unfold proprietary_try_from. cbn [type_value key negb Z.eqb Pos.eqb].
  rewrite (proj2 (deserialize_slice ProprietaryC (fun _ => False) _ (proprietary_bytes_fit k Hk) k)); [done|].
  by apply proprietary_slice.
Qed.

Lemma proprietary_try_from_Val k p : Z.of_nat (length (key k)) < 2 ^ 64 -> proprietary_try_from k = Val p ->
  proprietary_wf p /\ type_value k = 0xFC /\ key k = bytes_of ProprietaryC p.
Proof.
  intros Hl. unfold proprietary_try_from. destruct (Z.eqb_spec (type_value k) 0xFC); [|done]. cbn [negb].
  destruct (deserialize ProprietaryC (key k)) as [p'|] eqn:E; [|done]. intros [= ->].
  apply (deserialize_slice ProprietaryC (fun _ => False)) in E; [|done].
  cbn [ProprietaryC simple consensus_decode_from_finite_reader] in E. unfold proprietary_decode in E.
  rewrite on_slice_bind in E. destruct (on_slice _ (key k)) as [[pre b1]|] eqn:E1; [|done].
  apply byte_vec_decode_fits in E1 as [Hp Eb]. rewrite on_slice_bind in E.
  destruct (on_slice (consensus_decode u8) b1) as [[st b2]|] eqn:E2; [|done]. apply (u_le_inv 1) in E2 as [Hs ->].
  rewrite on_slice_bind, on_slice_read_to_limit in E by lia. injection E as <- Er.
  assert (length b2 <= 1024)%nat as H2.
  { apply (f_equal length) in Er. rewrite length_drop in Er. simpl in Er. lia. }
  rewrite take_ge by lia.
  assert (proprietary_wf (mkProprietary pre st b2)) as Hw by by repeat split; simpl; try done; apply Hs.
  split; [done|]. split; [done|]. rewrite proprietary_bytes by apply Hw. done.
Qed.

Lemma proprietary_no_panic k : proprietary_try_from k <> Crash.
Proof. unfold proprietary_try_from. destruct (negb _); [done|]. by destruct (deserialize _ _). Qed.
End proprietary_laws.
