(* ===== verification/TapTreeBytes.v ===== *)
(** * Script trees in a PSBT ([psbt/serialize.rs], [TapTree])

    A tree is written as its leaves in the order of [script_leaves], each with its depth,
    version and script, and read back by feeding the builder. *)

From Stdlib Require Import ZArith Lia String.
From coqutil Require Import Byte Word.LittleEndianList.
From stdpp Require Import base tactics option list numbers.
From S2P Require Import Prelude Io Encode HashEngine Sha256 Sha256t Taproot TapTree TapSpend OrdMap PsbtRaw.

#[local] Open Scope Z_scope.
#[local] Opaque engine_input from_engine tag_engine hash_tag.

(** ** The code *)

(** [Serialize for TapTree]; the length of a branch is cast to [u8]. *)
Definition leaf_bytes (leaf_info : ScriptLeaf) : list byte :=
  [byte.of_Z (wrap 8 (Z.of_nat (length (sl_branch leaf_info))))]
    ++ [byte.of_Z (leaf_version_to_consensus (sl_version leaf_info))]
    ++ bytes_of byte_vec (sl_script leaf_info).
Definition taptree_serialize (self : NodeInfo) : list byte :=
  fold_left (fun buf leaf_info => buf ++ leaf_bytes leaf_info) (script_leaves (leaves self)) [].

(** The [while let] of [Deserialize for TapTree]; every turn consumes a byte. *)
Fixpoint taptree_loop {C : PsbtCurve} (fuel : nat) (bytes : list byte) (builder : TaprootBuilder) :
    comp PsbtError TaprootBuilder :=
  match bytes with
  | [] => Val builder
  | depth :: bytes =>
      match fuel with
      | O => Crash
      | Datatypes.S fuel =>
          match bytes with
          | [] => Throw (TaprootMsg "Invalid Taproot Builder")
          | version :: bytes =>
              '(script, consumed) ← of_result (map_err ConsensusEncoding (deserialize_partial byte_vec bytes));
              let bytes := drop (Z.to_nat consumed) bytes in
              leaf_version ← match leaf_version_from_consensus (byte.unsigned version) with
                             | Val v => Val v
                             | Throw _ => Throw InvalidLeafVersion
                             | Crash => Crash
                             end;
              builder ← match add_leaf_with_ver builder (Z.to_nat (byte.unsigned depth)) script leaf_version with
                        | Val b => Val b
                        | Throw _ => Throw (TaprootMsg "Tree not in DFS order")
                        | Crash => Crash
                        end;
              taptree_loop fuel bytes builder
          end
      end
  end.

Definition taptree_deserialize {C : PsbtCurve} (bytes : list byte) : comp PsbtError NodeInfo :=
  builder ← taptree_loop (length bytes) bytes builder_new;
  match try_into_taptree builder with
  | Val t => Val t
  | Throw e => Throw (TapTreeError e)
  | Crash => Crash
  end.

(** ** The order of the leaves is a walk *)

(** The tree with the children of every node in the order of their hashes. *)
Fixpoint canon (t : Tree) : Tree :=
  match t with
  | TNode l r => if hash_lt (root r) (root l) then TNode (canon r) (canon l) else TNode (canon l) (canon r)
  | t => t
  end.

Lemma join_swap a b : hash_lt (nhash a) (nhash b) = true -> join a b = join b a.
Proof. intros H. unfold join. by rewrite H, (hash_lt_asym _ _ H). Qed.

Lemma info_canon t : info (canon t) = info t.
Proof.
  induction t as [| |l IHl r IHr]; [done..|]. cbn [canon info].
  destruct (hash_lt (root r) (root l)) eqn:E; cbn [info]; rewrite IHl, IHr; [|done].
  symmetry. apply join_swap. by rewrite !info_hash.
Qed.

Lemma height_canon t : height (canon t) = height t.
Proof.
  induction t as [| |l IHl r IHr]; [done..|]. simpl.
  destruct (hash_lt _ _); simpl; rewrite IHl, IHr; lia.
Qed.

Definition leaf_op (d : nat) (l : LeafNode) : nat * TapLeaf := ((d + length (merkle_branch l))%nat, leaf l).

Lemma leaf_op_extend d p l : leaf_op d (extend p l) = leaf_op (Datatypes.S d) l.
Proof. unfold leaf_op, extend. simpl. f_equal. rewrite length_app. simpl. lia. Qed.

Lemma leaves_walk t : forall d, hidden t = false -> map (leaf_op d) (leaves (info t)) = dfs d (canon t).
Proof.
  induction t as [s v|h|l IHl r IHr]; intros d Hh; [|done|].
  - simpl. unfold leaf_op. simpl. by rewrite Nat.add_0_r.
  - cbn [hidden] in Hh. apply orb_false_iff in Hh as [Hl Hr]. cbn [info canon]. unfold join.
    rewrite !info_hash. destruct (hash_lt (root r) (root l)); cbn [leaves dfs];
      rewrite map_app, !map_map; f_equal; rewrite <- ?IHl, <- ?IHr by done;
      apply map_ext; intros ?; apply leaf_op_extend.
Qed.

(** ** Reading what was written *)

Lemma script_leaves_bytes ls : forall acc,
  Forall (fun l => exists s v, leaf l = Script s v) ls ->
  fold_left (fun buf leaf_info => buf ++ leaf_bytes leaf_info) (script_leaves ls) acc =
  acc ++ concat (map (fun l => from_option leaf_bytes [] (from_leaf_node l)) ls).
Proof.
  induction ls as [|l ls IH]; intros acc Hf; [by rewrite app_nil_r|].
  apply Forall_cons_iff in Hf as [(s & v & El) Hf]. cbn [script_leaves map concat].
  unfold from_leaf_node. rewrite El. simpl. rewrite IH by done. by rewrite <- app_assoc.
Qed.

Definition leaf_ok (l : LeafNode) : Prop :=
  exists s v, leaf l = Script s v /\ script_fits s /\ leaf_version_wf v /\
    (length (merkle_branch l) <= 128)%nat.

Definition leaf_encoding (l : LeafNode) : list byte := from_option leaf_bytes [] (from_leaf_node l).

Lemma partial_script s rest : script_fits s ->
  Z.of_nat (length (bytes_of byte_vec s ++ rest)) < 2 ^ 64 ->
  deserialize_partial byte_vec (bytes_of byte_vec s ++ rest) =
  Ok (s, Z.of_nat (length (bytes_of byte_vec s))).
Proof.
  intros Hs Hl. rewrite (deserialize_partial_slice byte_vec byte_vec_wf) by done.
  rewrite (finite_roundtrip (c:=byte_vec)) by (unfold script_fits, byte_vec_wf in *; lia).
  do 2 f_equal. rewrite length_app. lia.
Qed.

Section loop.
Context {C : PsbtCurve}.

Lemma taptree_loop_adds ls : forall fuel b, (length ls <= fuel)%nat -> Forall leaf_ok ls ->
  Z.of_nat (length (concat (map leaf_encoding ls))) < 2 ^ 64 ->
  taptree_loop fuel (concat (map leaf_encoding ls)) b =
  match adds b (map (leaf_op 0) ls) with
  | Val b' => Val b'
  | Throw _ => Throw (TaprootMsg "Tree not in DFS order")
  | Crash => Crash
  end.
Proof.
  induction ls as [|l ls IH]; intros fuel b Hf Hok Hlen; [by destruct fuel|].
  destruct fuel as [|fuel]; [simpl in Hf; lia|].
  apply Forall_cons_iff in Hok as [(s & v & El & Hs & Hv & Hd) Hok].
  cbn [map concat] in *. rewrite length_app in Hlen.
  assert (leaf_encoding l = byte.of_Z (wrap 8 (Z.of_nat (length (merkle_branch l)))) ::
    byte.of_Z (leaf_version_to_consensus v) :: bytes_of byte_vec s) as Ee.
  { unfold leaf_encoding, from_leaf_node. by rewrite El. }
  rewrite Ee in Hlen |- *. cbn [length] in Hlen. cbn [app]. cbn [taptree_loop].
  rewrite partial_script by (done || (rewrite length_app; lia)).
  cbn [map_err of_result]. rewrite bind_Val. cbv beta iota zeta.
  rewrite Nat2Z.id, drop_app_length.
  pose proof (leaf_version_range v Hv) as Hr.
  rewrite !byte.unsigned_of_Z. rewrite (wrap_small 8 (leaf_version_to_consensus v) Hr : byte.wrap _ = _).
  rewrite (proj2 (leaf_version_decode _ v Hr)) by done. rewrite bind_Val.
  replace (Z.to_nat (byte.wrap (wrap 8 (Z.of_nat (length (merkle_branch l))))))
    with (length (merkle_branch l)).
  2: { unfold byte.wrap, wrap. rewrite Z.mod_mod, Z.mod_small by lia. lia. }
  assert (leaf_op 0 l = (length (merkle_branch l), Script s v)) as -> by (unfold leaf_op; by rewrite El).
  cbn [adds add_op].
  destruct (add_leaf_with_ver b _ s v) as [b'| |]; [|done..]. rewrite !bind_Val.
  apply IH; [simpl in Hf; lia|done|lia].
Qed.

Lemma concat_length_ge (l : list (list byte)) : Forall (fun x => x <> []) l ->
  (length l <= length (concat l))%nat.
Proof.
  induction 1 as [|x l Hx _ IH]; simpl; [done|]. rewrite length_app. destruct x; [done|]. simpl. lia.
Qed.

(** Every leaf of a well-formed tree without hidden parts can be written. *)
Lemma leaves_ok t : tree_wf t -> (height t <= 128)%nat -> Forall leaf_ok (leaves (info t)).
Proof.
  intros Hw Hh. apply Forall_forall. intros l Hl. apply list_elem_of_In in Hl.
  apply info_leaves in Hl as (s & v & El & Hp). exists s, v. split; [done|].
  apply proof_of_height in Hp as Hlen.
  assert (script_fits s /\ leaf_version_wf v) as [? ?]; [|by repeat split; try done; lia].
  clear -Hw Hp. induction Hp; simpl in Hw; tauto.
Qed.

(** Script trees in a PSBT round trip.  A tree without hidden nodes that the builder can
    hold is serialised with its leaves in an order that is a depth-first walk of the same
    tree, so deserialising returns the same node, with the same hash, leaves and proofs. *)
Lemma taptree_psbt_roundtrip (t : Tree) (Hw : tree_wf t) (Hh : (height t <= 128)%nat)
    (Hn : hidden t = false)
    (Hlen : Z.of_nat (length (taptree_serialize (info t))) < 2 ^ 64) :
  taptree_deserialize (taptree_serialize (info t)) = Val (info t).
Proof.
  pose proof (leaves_ok t Hw Hh) as Hok. unfold taptree_serialize in *.
  rewrite script_leaves_bytes in Hlen |- *
    by (eapply Forall_impl; [|exact Hok]; intros l (s & v & ? & _); eauto).
  cbn [app] in *. fold leaf_encoding in *.
  unfold taptree_deserialize. rewrite taptree_loop_adds by
    (done || (rewrite <- (length_map leaf_encoding); apply concat_length_ge, Forall_map;
              eapply Forall_impl; [|exact Hok]; intros l (s & v & El & _);
              unfold leaf_encoding, from_leaf_node; by rewrite El)).
  rewrite leaves_walk, dfs_complete by (done || by rewrite height_canon).
  rewrite bind_Val, info_canon. cbn [try_into_taptree try_into_node_info].
  unfold try_into_taptree, try_into_node_info. cbn [length Nat.eqb negb pop reverse rev_append].
  rewrite bind_Val, info_hidden, Hn. done.
Qed.
End loop.


(** ** What is read is a tree *)

Definition script_op (op : nat * TapLeaf) : Prop :=
  exists s v, snd op = Script s v /\ script_fits s /\ leaf_version_wf v.

Lemma script_ops_tree t : forall d, Forall script_op (dfs d t) -> tree_wf t /\ hidden t = false.
Proof.
  induction t as [s v|h|l IHl r IHr]; intros d; simpl.
  - intros [(s' & v' & [= <- <-] & ? & ?) _]%Forall_cons_iff. done.
  - intros [(s' & v' & [=] & _) _]%Forall_cons_iff.
  - intros [Hl Hr]%Forall_app. apply IHl in Hl as [? ->]. apply IHr in Hr as [? ->]. done.
Qed.

Definition taptree_wf (n : NodeInfo) : Prop :=
  exists t, n = info t /\ tree_wf t /\ (height t <= 128)%nat /\ hidden t = false.

Section reading.
Context {C : PsbtCurve}.

Lemma taptree_loop_ops fuel : forall bytes b, (length bytes <= fuel)%nat -> Z.of_nat (length bytes) < 2 ^ 60 ->
  match taptree_loop fuel bytes b with
  | Val b' => exists ops, Forall script_op ops /\ adds b ops = Val b'
  | Throw _ => True
  | Crash => exists ops, adds b ops = Crash
  end.
Proof.
  induction fuel as [|fuel IH]; intros bytes b Hf Hl.
  { destruct bytes; [|simpl in Hf; lia]. by exists []. }
  destruct bytes as [|d bytes]; [by exists []|]. cbn [taptree_loop].
  destruct bytes as [|ver bytes]; [done|]. cbn [length] in *.
  rewrite (deserialize_partial_slice byte_vec byte_vec_wf) by lia.
  destruct (on_slice _ bytes) as [[s rest]|] eqn:E; [|done].
  apply (finite_canonical (c := byte_vec)) in E as [_ ->]. rewrite length_app in *.
  cbn [map_err of_result]. rewrite bind_Val. cbv beta iota zeta.
  replace (Z.to_nat _) with (length (bytes_of byte_vec s)) by lia. rewrite drop_app_length.
  assert (length s <= length (bytes_of byte_vec s))%nat as Hs by (unfold bytes_of; simpl; rewrite length_app; lia).
  pose proof (byte.unsigned_range ver) as Hv.
  destruct (leaf_version_from_consensus (byte.unsigned ver)) as [v| |] eqn:Ev; [|done|by destruct (leaf_version_no_panic _ Ev)].
  apply leaf_version_decode in Ev as [Hw _]; [|done]. rewrite bind_Val.
  set (dd := Z.to_nat (byte.unsigned d)).
  change (add_leaf_with_ver b dd s v) with (add_op b (dd, Script s v)).
  destruct (add_op b (dd, Script s v)) as [b'| |] eqn:Ea; [|done|].
  - rewrite bind_Val. specialize (IH rest b' ltac:(lia) ltac:(lia)).
    destruct (taptree_loop fuel rest b') as [b2| |]; [|done|].
    + destruct IH as (ops & Ho & E). exists ((dd, Script s v) :: ops). split; [|cbn [adds]; by rewrite Ea].
      constructor; [|done]. exists s, v. split; [done|]. split; [unfold script_fits; lia|done].
    + destruct IH as (ops & E). exists ((dd, Script s v) :: ops). cbn [adds]. by rewrite Ea.
  - exists [(dd, Script s v)]. cbn [adds]. by rewrite Ea.
Qed.

Lemma taptree_deserialize_spec bytes : Z.of_nat (length bytes) < 2 ^ 60 ->
  match taptree_deserialize bytes with
  | Val n => taptree_wf n
  | Throw _ => True
  | Crash => False
  end.
Proof.
  intros Hl. unfold taptree_deserialize.
  pose proof (taptree_loop_ops (length bytes) bytes builder_new ltac:(lia) Hl) as H.
  destruct (taptree_loop _ bytes builder_new) as [b| |]; [|done|].
  2: { destruct H as (ops & E). pose proof (adds_tracks ops _ _ new_tracks) as Ht. by rewrite E in Ht. }
  destruct H as (ops & Ho & E). rewrite bind_Val. unfold try_into_taptree, try_into_node_info.
  destruct (Nat.eqb_spec (length b) 1) as [H1|]; [|done]. cbn [negb].
  destruct (adds_new_tracks ops b E) as (ts & Ht & Hw). destruct (tracks_one b ts Ht H1) as (t & -> & Hh & ->).
  simpl in Hw. rewrite app_nil_r in Hw. subst ops. apply script_ops_tree in Ho as [Hwf Hn].
  cbn [pop reverse rev_append]. unfold pop. cbn. rewrite info_hidden, Hn. by exists t.
Qed.
End reading.
