(* ===== verification/PsbtFields.v ===== *)
(** * The values of a PSBT ([psbt/serialize.rs])

    The [Serialize] and [Deserialize] implementations of the keys and values a PSBT map holds, as
    records [PsbtValue], and what each promises, the class [ValueLaws]. *)

From Stdlib Require Import ZArith Lia.
From coqutil Require Import Byte Word.LittleEndianList.
From stdpp Require Import base tactics option list numbers.
From S2P Require Import Prelude Io Encode HashEngine Sha256 Sha256t Taproot TapTree TapSpend OrdMap Witness LockTime Script ScriptKinds Transaction Sighash Signatures Base58 Keys DerivationPath Bip32 PsbtRaw TapTreeBytes.

#[local] Open Scope Z_scope.
#[local] Opaque engine_input from_engine tag_engine hash_tag.

(** [(Fingerprint, DerivationPath)] *)
Definition KeySource : Type := list byte * DerivationPath.

Section values.
Context {bm : BuildMode} {C : PsbtCurve}.

Record PsbtValue (A : Type) := { ser : A -> run (list byte); de : list byte -> comp PsbtError A }.

(** [impl_psbt_de_serialize!] *)
Definition consensus_value {A} (c : Consensus A) : PsbtValue A := {|
  ser := serialize c;
  de := fun bytes => of_result (map_err ConsensusEncoding (deserialize c bytes)) |}.

Definition transaction_value : PsbtValue Transaction := consensus_value TransactionC.
Definition txout_value : PsbtValue TxOut := consensus_value TxOutC.
Definition witness_value : PsbtValue Witness := consensus_value WitnessC.

(** [impl_psbt_hash_de_serialize!]: [from_slice] of a hash of [n] bytes. *)
Definition hash_value (n : nat) : PsbtValue (list byte) := {|
  ser := fun h => Ret h;
  de := fun bytes => if (length bytes =? n)%nat then Val bytes else Throw (InvalidHash n (length bytes)) |}.

(** [ScriptBuf] and [Vec<u8>] *)
Definition bytes_value : PsbtValue (list byte) := {| ser := fun s => Ret s; de := fun bytes => Val bytes |}.

Definition pubkey_value : PsbtValue PublicKey := {|
  ser := fun k => Ret (write_into k []);
  de := fun bytes => match public_from_slice bytes with
                     | Val k => Val k
                     | Throw e => Throw (InvalidPublicKey e)
                     | Crash => Crash
                     end |}.

Definition secp_pubkey_value : PsbtValue SecpPublicKey := {|
  ser := fun k => Ret (pk_serialize k);
  de := fun bytes => of_result (map_err InvalidSecp256k1PublicKey (pk_from_slice bytes)) |}.

Definition ecdsa_value : PsbtValue EcdsaSignature := {|
  ser := fun s => Ret (ecdsa_to_vec s);
  de := fun bytes => of_result (map_err (fun e => match e with
                                                  | SighashType n => NonStandardSighashType n
                                                  | e => InvalidEcdsaSignature e
                                                  end) (ecdsa_from_slice bytes)) |}.

Definition key_source_serialize (self : KeySource) : run (list byte) :=
  fold_left (fun rv cnum => rv ← rv; n ← serialize u32 (u32_from_child cnum); Ret (rv ++ n)) (snd self) (Ret (fst self)).

(** [while !d.is_empty()]: every turn reads four bytes. *)
Fixpoint path_loop (fuel : nat) (d : list byte) (dpath : list ChildNumber) : comp PsbtError (list ChildNumber) :=
  match d, fuel with
  | [], _ => Val dpath
  | _, O => Crash
  | _, S fuel => match on_slice (consensus_decode u32) d with
                 | Ok (index, d) => path_loop fuel d (dpath ++ [child_from_u32 index])
                 | Err e => Throw (ConsensusEncoding e)
                 end
  end.

Definition key_source_deserialize (bytes : list byte) : comp PsbtError KeySource :=
  if (length bytes <? 4)%nat then Throw (PsbtIo UnexpectedEof) else
  let fprint := take 4 bytes in
  let d := drop 4 bytes in
  dpath ← path_loop (length d) d [];
  Val (fprint, dpath).

Definition key_source_value : PsbtValue KeySource := {| ser := key_source_serialize; de := key_source_deserialize |}.

(** [PsbtSighashType], its [inner] field. *)
Definition sighash_type_value : PsbtValue Z := consensus_value u32.

Definition xonly_value : PsbtValue XOnlyPublicKey := {|
  ser := fun k => Ret (key_serialize k);
  de := fun bytes => match key_from_slice bytes with Ok k => Val k | Err _ => Throw InvalidXOnlyPublicKey end |}.

Definition tap_sig_value : PsbtValue TaprootSignature := {|
  ser := fun s => Ret (tap_to_vec s);
  de := fun bytes => match tap_from_slice bytes with
                     | Val s => Val s
                     | Throw (TapSighashError n) => Throw (NonStandardSighashType n)
                     | Throw e => Throw (InvalidTaprootSignature e)
                     | Crash => Crash
                     end |}.

(** [(XOnlyPublicKey, TapLeafHash)] *)
Definition key_leaf_value : PsbtValue (XOnlyPublicKey * list byte) := {|
  ser := fun '(k, h) => Ret (key_serialize k ++ h);
  de := fun bytes =>
    if (length bytes <? 32)%nat then Throw (PsbtIo UnexpectedEof) else
    a ← de _ xonly_value (take 32 bytes);
    b ← de _ (hash_value 32) (drop 32 bytes);
    Val (a, b) |}.

Definition control_block_value : PsbtValue ControlBlock := {|
  ser := fun c => Ret (control_block_serialize c);
  de := fun bytes => match control_block_decode bytes with
                     | Val c => Val c
                     | Throw _ => Throw InvalidControlBlock
                     | Crash => Crash
                     end |}.

(** [(ScriptBuf, LeafVersion)]: the last byte is the version. *)
Definition versioned_script_value : PsbtValue (list byte * LeafVersion) := {|
  ser := fun '(s, v) => Ret (s ++ [byte.of_Z (leaf_version_to_consensus v)]);
  de := fun bytes =>
    if (length bytes =? 0)%nat then Throw (PsbtIo UnexpectedEof) else
    script ← de _ bytes_value (take (length bytes - 1) bytes);
    last ← of_run (index bytes (Z.of_nat (length bytes) - 1));
    leaf_ver ← match leaf_version_from_consensus (byte.unsigned last) with
               | Val v => Val v
               | Throw _ => Throw InvalidLeafVersion
               | Crash => Crash
               end;
    Val (script, leaf_ver) |}.

Definition leaf_hashes : Consensus (list (list byte)) := vec (array 32).

(** [(Vec<TapLeafHash>, KeySource)]; [bytes[consumed..]] panics out of range. *)
Definition tap_origin_value : PsbtValue (list (list byte) * KeySource) := {|
  ser := fun '(hs, k) => ks ← key_source_serialize k; Ret (bytes_of leaf_hashes hs ++ ks);
  de := fun bytes =>
    '(leafhash_vec, consumed) ← of_result (map_err ConsensusEncoding (deserialize_partial leaf_hashes bytes));
    _ ← of_run (assert_ (consumed <=? Z.of_nat (length bytes)));
    key_source ← key_source_deserialize (drop (Z.to_nat consumed) bytes);
    Val (leafhash_vec, key_source) |}.

Definition taptree_value : PsbtValue NodeInfo := {|
  ser := fun t => Ret (taptree_serialize t); de := taptree_deserialize |}.
End values.
Arguments ser {C A} _ _.
Arguments de {C A} _ _.

(** ** What the maps need of their values *)

(** A value that fits into a pair; everything a map reads does. *)
Definition fits (bs : list byte) : Prop := Z.of_nat (length bs) <= MAX_VEC_SIZE.

Class ValueLaws {C : PsbtCurve} {A} (v : PsbtValue A) (wf : A -> Prop) : Prop := {
  value_roundtrip a : wf a -> exists bs, ser v a = Ret bs /\ (fits bs -> de v bs = Val a);
  value_wf bs a : fits bs -> de v bs = Val a -> wf a;
  value_no_panic bs : fits bs -> de v bs <> Crash;
}.

(** A key of a map is written in at least one byte. *)
Class KeyLaws {C : PsbtCurve} {A} (v : PsbtValue A) (wf : A -> Prop) : Prop := {
  key_value_laws :: ValueLaws v wf;
  key_nonempty a bs : wf a -> ser v a = Ret bs -> bs <> [];
}.

Definition child_numbers_wf (k : KeySource) : Prop := length (fst k) = 4%nat /\ Forall child_wf (snd k).
Definition key_leaf_wf {C : PsbtCurve} (k : XOnlyPublicKey * list byte) : Prop := length (snd k) = 32%nat.
Definition versioned_script_wf (s : list byte * LeafVersion) : Prop := leaf_version_wf (snd s).
Definition tap_origin_wf (o : list (list byte) * KeySource) : Prop :=
  vec_wf (fun h => length h = 32%nat) (fst o) /\ child_numbers_wf (snd o).

Section value_laws.
Context {bm : BuildMode} {C : PsbtCurve} {L : PsbtCurveLaws C}.

Lemma fits_64 bs : fits bs -> Z.of_nat (length bs) < 2 ^ 64.
Proof. unfold fits, MAX_VEC_SIZE. lia. Qed.

#[export] Instance consensus_value_laws {A} (c : Consensus A) wf `{!Codec c wf, !Canonical c wf} :
  ValueLaws (consensus_value c) wf.
Proof.
  split; simpl.
  - intros a Ha. exists (bytes_of c a). split; [by apply (serialize_bytes c wf)|]. intros Hf.
    by rewrite (deserialize_roundtrip c wf) by (done || by apply fits_64).
  - intros bs a Hf. destruct (deserialize c bs) as [a'|] eqn:E; [|done]. intros [= <-].
    by apply (deserialize_canonical c wf) in E as [? _]; [|apply fits_64].
  - intros bs _. by destruct (deserialize c bs).
Qed.

#[export] Instance hash_value_laws n : ValueLaws (hash_value n) (fun h => length h = n).
Proof.
  split; simpl.
  - intros h Hh. exists h. split; [done|]. intros _. by rewrite (proj2 (Nat.eqb_eq _ _)).
  - intros bs a _. destruct (Nat.eqb_spec (length bs) n); [|done]. by intros [= <-].
  - intros bs _. by destruct (_ =? _)%nat.
Qed.
#[export] Instance hash_key_laws n : KeyLaws (hash_value (S n)) (fun h => length h = S n).
Proof. split; [apply _|]. intros a bs Ha [= <-] ->. done. Qed.

#[export] Instance bytes_value_laws : ValueLaws bytes_value (fun _ => True).
Proof. split; simpl; [intros a _; by exists a|done|done]. Qed.

#[export] Instance pubkey_value_laws : KeyLaws pubkey_value (fun _ => True).
Proof.
  split; [split; simpl|].
  - intros k _. exists (write_into k []). split; [done|]. intros _.
    by rewrite (proj2 (public_from_slice_iff (write_into k []) k)).
  - done.
  - intros bs _. pose proof (public_from_slice_no_panic bs). by destruct (public_from_slice bs).
  - intros k bs _ [= <-] E. pose proof (public_bytes_length k) as Hl. unfold public_to_bytes in Hl. rewrite E in Hl.
    by destruct (compressed k).
Qed.

#[export] Instance secp_pubkey_value_laws : KeyLaws secp_pubkey_value (fun _ => True).
Proof.
  split; [split; simpl|].
  - intros k _. exists (pk_serialize k). split; [done|]. intros _. by rewrite pk_from_serialize.
  - done.
  - intros bs _. by destruct (pk_from_slice bs).
  - intros k bs _ [= <-] E. pose proof (pk_serialize_length k) as Hl. by rewrite E in Hl.
Qed.

#[export] Instance ecdsa_value_laws : ValueLaws ecdsa_value (fun _ => True).
Proof.
  split; simpl.
  - intros s _. exists (ecdsa_to_vec s). split; [done|]. intros _. by rewrite ecdsa_from_to_vec.
  - done.
  - intros bs _. by destruct (ecdsa_from_slice bs).
Qed.

#[export] Instance xonly_value_laws : KeyLaws xonly_value (fun _ => True).
Proof.
  split; [split; simpl|].
  - intros k _. exists (key_serialize k). split; [done|]. intros _. by rewrite key_from_serialize.
  - done.
  - intros bs _. by destruct (key_from_slice bs).
  - intros k bs _ [= <-] E. pose proof (key_serialize_length k) as Hl. by rewrite E in Hl.
Qed.

#[export] Instance tap_sig_value_laws : ValueLaws tap_sig_value (fun _ => True).
Proof.
  split; simpl.
  - intros s _. exists (tap_to_vec s). split; [done|]. intros _.
    by rewrite (proj2 (tap_from_slice_iff (tap_to_vec s) s)) by by left.
  - done.
  - intros bs _. pose proof (tap_from_slice_no_panic bs). by destruct (tap_from_slice bs) as [|[]|].
Qed.

#[export] Instance control_block_value_laws : KeyLaws control_block_value control_block_wf.
Proof.
  split; [split; simpl|].
  - intros c Hc. exists (control_block_serialize c). split; [done|]. intros _.
    by rewrite control_block_decode_serialize.
  - intros bs c _. destruct (control_block_decode bs) eqn:E; [|done..]. intros [= <-].
    by apply control_block_decode_Val in E as [_ ?].
  - intros bs _. pose proof (control_block_no_panic bs). by destruct (control_block_decode bs).
  - intros c bs Hc [= <-] E. pose proof (control_block_serialize_length c Hc) as Hl. by rewrite E in Hl.
Qed.
End value_laws.

(** ** Composite values *)

Section composite_laws.
Context {bm : BuildMode} {C : PsbtCurve} {L : PsbtCurveLaws C}.

Definition path_bytes (p : list ChildNumber) : list byte := concat (map (fun c => bytes_of u32 (u32_from_child c)) p).

Lemma u32_bytes_length n : length (bytes_of u32 n) = 4%nat.
Proof. apply length_le_split. Qed.

Lemma key_source_fold p : forall acc, Forall child_wf p ->
  fold_left (fun rv cnum => rv ← rv; n ← serialize u32 (u32_from_child cnum); Ret (rv ++ n)) p (Ret acc) =
  Ret (acc ++ path_bytes p).
Proof.
  induction p as [|c p IH]; intros acc Hp; [by rewrite app_nil_r|].
  apply Forall_cons_iff in Hp as [Hc Hp]. cbn [fold_left].
  rewrite (serialize_bytes u32 (in_u 32)) by by apply child_u32_roundtrip. msimpl.
  rewrite IH by done. by rewrite <- app_assoc.
Qed.

Lemma path_loop_bytes p : forall fuel acc, (length p <= fuel)%nat -> Forall child_wf p ->
  path_loop fuel (path_bytes p) acc = Val (acc ++ p).
Proof.
  induction p as [|c p IH]; intros fuel acc Hf Hp; [destruct fuel; by rewrite app_nil_r|].
  destruct fuel as [|fuel]; [simpl in Hf; lia|]. apply Forall_cons_iff in Hp as [Hc Hp].
  change (path_bytes (c :: p)) with (bytes_of u32 (u32_from_child c) ++ path_bytes p).
  pose proof (u32_bytes_length (u32_from_child c)) as H4.
  destruct (child_u32_roundtrip c Hc) as [Hu Hr]. pose proof (u_le_dec 4 (u32_from_child c) (path_bytes p) Hu) as Hd.
  change (u_le 4) with u32 in Hd.
  destruct (bytes_of u32 (u32_from_child c)) as [|b0 rest] eqn:E; [done|].
  cbn [app path_loop] in *. rewrite Hd, IH by (done || simpl in Hf; lia).
  by rewrite Hr, <- app_assoc.
Qed.

Lemma path_loop_inv fuel : forall d acc, (length d <= fuel)%nat ->
  match path_loop fuel d acc with
  | Val p => Forall child_wf acc -> Forall child_wf p
  | Throw _ => True
  | Crash => False
  end.
Proof.
  induction fuel as [|fuel IH]; intros d acc Hf; destruct d as [|b d]; simpl in Hf; try lia.
  1,2: cbn [path_loop]; intros H; exact H.
  cbn [path_loop]. destruct (on_slice (consensus_decode u32) (b :: d)) as [[i d']|] eqn:E; [|done].
  apply (u_le_inv 4) in E as [Hi E]. apply (f_equal length) in E. rewrite length_app in E.
  pose proof (u32_bytes_length i) as H4. unfold u32 in H4. rewrite H4 in E. simpl in E.
  specialize (IH d' (acc ++ [child_from_u32 i]) ltac:(lia)). destruct (path_loop fuel d' _); [|done..].
  intros Ha. apply IH. apply Forall_app. split; [done|]. constructor; [|done]. by apply u32_child_roundtrip.
Qed.

Lemma key_source_ser k : child_numbers_wf k -> key_source_serialize k = Ret (fst k ++ path_bytes (snd k)).
Proof. intros [_ Hp]. unfold key_source_serialize. by rewrite key_source_fold. Qed.

Lemma path_bytes_length p : length (path_bytes p) = (4 * length p)%nat.
Proof.
  induction p as [|c p IH]; [done|]. change (path_bytes (c :: p)) with (bytes_of u32 (u32_from_child c) ++ path_bytes p).
  rewrite length_app, IH, u32_bytes_length. simpl. lia.
Qed.

Lemma key_source_de k : child_numbers_wf k -> key_source_deserialize (fst k ++ path_bytes (snd k)) = Val k.
Proof.
  intros [Hf Hp]. unfold key_source_deserialize. rewrite (proj2 (Nat.ltb_ge _ _)) by (rewrite length_app; lia).
  rewrite take_app_length', drop_app_length' by done. rewrite path_loop_bytes by (done || rewrite path_bytes_length; lia).
  by destruct k.
Qed.

Lemma key_source_de_inv bs : match key_source_deserialize bs with
  | Val k => child_numbers_wf k
  | Throw _ => True
  | Crash => False
  end.
Proof.
  unfold key_source_deserialize. destruct (Nat.ltb_spec (length bs) 4); [done|]. cbv zeta.
  pose proof (path_loop_inv (length (drop 4 bs)) (drop 4 bs) [] ltac:(lia)) as H'.
  destruct (path_loop _ _ _) as [p| |]; [|done..]. cbn [mbind comp_bind]. split; [cbn [fst]; rewrite length_take; lia|by apply H'].
Qed.

#[export] Instance key_source_value_laws : ValueLaws key_source_value child_numbers_wf.
Proof.
  split; simpl.
  - intros k Hk. eexists. split; [by apply key_source_ser|]. intros _. by apply key_source_de.
  - intros bs k _ E. pose proof (key_source_de_inv bs) as H. by rewrite E in H.
  - intros bs _ E. pose proof (key_source_de_inv bs) as H. by rewrite E in H.
Qed.

#[export] Instance key_leaf_value_laws : KeyLaws key_leaf_value key_leaf_wf.
Proof.
  split; [split; simpl|].
  - intros [k h] Hh. unfold key_leaf_wf in Hh. simpl in *. eexists. split; [done|]. intros _.
    pose proof (key_serialize_length k) as Hk. rewrite (proj2 (Nat.ltb_ge _ _)) by (rewrite length_app; lia).
    rewrite take_app_length', drop_app_length', key_from_serialize by done. cbn [mbind comp_bind].
    by rewrite (proj2 (Nat.eqb_eq _ _)) by done.
  - intros bs [k h] _. destruct (_ <? _)%nat; [done|]. destruct (key_from_slice _); [|done]. cbn [mbind comp_bind].
    destruct (Nat.eqb_spec (length (drop 32 bs)) 32); [|done]. by intros [= <- <-].
  - intros bs _. destruct (_ <? _)%nat; [done|]. destruct (key_from_slice _); [|done]. cbn [mbind comp_bind].
    by destruct (_ =? _)%nat.
  - intros [k h] bs _ [= <-] E. pose proof (key_serialize_length k) as Hk. apply (f_equal length) in E.
    rewrite length_app in E. simpl in E. lia.
Qed.

#[export] Instance versioned_script_value_laws : ValueLaws versioned_script_value versioned_script_wf.
Proof.
  split; simpl.
  - intros [s v] Hv. unfold versioned_script_wf in Hv. simpl in *. eexists. split; [done|]. intros _.
    rewrite length_app. cbn [length]. rewrite (proj2 (Nat.eqb_neq _ _)) by lia.
    rewrite take_app_length' by lia. cbn [mbind comp_bind].
    replace (Z.of_nat (length s + 1) - 1) with (Z.of_nat (length s)) by lia.
    rewrite (index_lookup _ _ (byte.of_Z (leaf_version_to_consensus v))).
    2: lia.
    2: { rewrite Nat2Z.id, lookup_app_r, Nat.sub_diag by done. done. }
    cbn [of_run mbind comp_bind]. pose proof (leaf_version_range v Hv) as Hr.
    rewrite byte_unsigned_of_Z by done. by rewrite (proj2 (leaf_version_decode _ v Hr)).
  - intros bs [s v] _. destruct (_ =? _)%nat; [done|]. cbn [mbind comp_bind].
    destruct (index bs _) as [b|]; [|done]. cbn [of_run mbind comp_bind].
    destruct (leaf_version_from_consensus _) as [v'| |] eqn:E; [|done..]. intros [= <- <-].
    pose proof (byte.unsigned_range b). by apply leaf_version_decode in E as [? _].
  - intros bs _. destruct (Nat.eqb_spec (length bs) 0) as [|H0]; [done|]. cbn [mbind comp_bind].
    destruct (lookup_lt_is_Some_2 bs (length bs - 1)) as [b Eb]; [lia|].
    rewrite (index_lookup _ _ b); [|lia|by rewrite <- Eb; f_equal; lia]. cbn [of_run mbind comp_bind].
    pose proof (leaf_version_no_panic (byte.unsigned b)). by destruct (leaf_version_from_consensus _).
Qed.

#[export] Instance tap_origin_value_laws : ValueLaws tap_origin_value tap_origin_wf.
Proof.
  split; simpl.
  - intros [hs k] [Hh Hk]. cbn [fst snd] in *. rewrite key_source_ser by done. msimpl.
    eexists. split; [done|]. intros Hf. apply fits_64 in Hf.
    rewrite (deserialize_partial_slice leaf_hashes (vec_wf (fun h => length h = 32%nat))) by done.
    rewrite (finite_roundtrip (c := leaf_hashes)) by done. cbn [map_err of_result mbind comp_bind].
    rewrite length_app. rewrite (proj2 (Z.leb_le _ _)) by lia. cbn [assert_ of_run mbind comp_bind].
    replace (Z.to_nat _) with (length (bytes_of leaf_hashes hs)) by lia.
    by rewrite drop_app_length, key_source_de.
  - intros bs [hs k] Hf. apply fits_64 in Hf.
    rewrite (deserialize_partial_slice leaf_hashes (vec_wf (fun h => length h = 32%nat))) by done.
    destruct (on_slice _ bs) as [[hs' rest]|] eqn:E; [|done]. cbn [map_err of_result mbind comp_bind].
    apply (finite_canonical (c := leaf_hashes)) in E as [Hh ->].
    destruct (_ <=? _); [|done]. cbn [assert_ of_run mbind comp_bind].
    pose proof (key_source_de_inv (drop (Z.to_nat (Z.of_nat (length (bytes_of leaf_hashes hs' ++ rest)) -
      Z.of_nat (length rest))) (bytes_of leaf_hashes hs' ++ rest))) as Hk.
    destruct (key_source_deserialize _); [|done..]. by intros [= <- <-].
  - intros bs Hf. apply fits_64 in Hf.
    rewrite (deserialize_partial_slice leaf_hashes (vec_wf (fun h => length h = 32%nat))) by done.
    destruct (on_slice _ bs) as [[hs' rest]|] eqn:E; [|done]. cbn [map_err of_result mbind comp_bind].
    rewrite (proj2 (Z.leb_le _ _)) by lia. cbn [assert_ of_run mbind comp_bind].
    pose proof (key_source_de_inv (drop (Z.to_nat (Z.of_nat (length bs) - Z.of_nat (length rest))) bs)) as Hk.
    by destruct (key_source_deserialize _).
Qed.

#[export] Instance taptree_value_laws : ValueLaws taptree_value taptree_wf.
Proof.
  split; simpl.
  - intros n (t & -> & Hw & Hh & Hn). eexists. split; [done|]. intros Hf. apply taptree_psbt_roundtrip; try done.
    by apply fits_64.
  - intros bs n Hf E. unfold fits, MAX_VEC_SIZE in Hf.
    pose proof (taptree_deserialize_spec bs ltac:(lia)) as H. by rewrite E in H.
  - intros bs Hf E. unfold fits, MAX_VEC_SIZE in Hf.
    pose proof (taptree_deserialize_spec bs ltac:(lia)) as H. by rewrite E in H.
Qed.
End composite_laws.
