(* ===== verification/PsbtMap.v ===== *)
(** * PSBT map macros ([psbt/macros.rs], [psbt_insert_hash_pair] of [psbt/map/input.rs])

    What one field of a map contributes: how its pairs are written, inserted and combined; and for
    each kind of field, that inserting what was written restores it and that insertion keeps it
    well-formed. *)

From Stdlib Require Import ZArith Lia Sorted.
From coqutil Require Import Byte Word.LittleEndianList.
From stdpp Require Import base tactics option list numbers sorting.
From S2P Require Import Prelude Io Encode HashEngine Sha256 Sha256t Taproot TapTree TapSpend OrdMap Witness LockTime Script ScriptKinds Transaction Sighash Signatures Base58 Keys DerivationPath Bip32 PsbtRaw TapTreeBytes PsbtFields.

#[local] Open Scope Z_scope.

Section macros.
Context {bm : BuildMode} {C : PsbtCurve} {T : Type}.

(** ** [impl_psbt_get_pair!] *)

Definition push {A} (v : PsbtValue A) (field : option A) (typeval : Z) (rv : list Pair) : run (list Pair) :=
  match field with
  | Some x => value ← ser v x; Ret (rv ++ [mkPair (mkKey typeval []) value])
  | None => Ret rv
  end.

Definition push_map {K A} (kv : PsbtValue K) (v : PsbtValue A) (field : list (K * A)) (typeval : Z) (rv : list Pair) :
    run (list Pair) :=
  fold_left (fun rv p => rv ← rv; k ← ser kv (fst p); value ← ser v (snd p);
                         Ret (rv ++ [mkPair (mkKey typeval k) value])) field (Ret rv).

Definition push_proprietary (field : list (ProprietaryKey * list byte)) (rv : list Pair) : run (list Pair) :=
  fold_left (fun rv p => rv ← rv; k ← to_key (fst p); Ret (rv ++ [mkPair k (snd p)])) field (Ret rv).

Definition push_unknown (field : list (Key * list byte)) (rv : list Pair) : run (list Pair) :=
  fold_left (fun rv p => rv ← rv; Ret (rv ++ [mkPair (fst p) (snd p)])) field (Ret rv).

(** ** [impl_psbt_insert_pair!] *)

Definition insert_unkeyed {A} (v : PsbtValue A) (field : option A) (set : option A -> T) (raw_key : Key)
    (raw_value : list byte) : comp PsbtError T :=
  match key raw_key with
  | [] => match field with
          | None => val ← de v raw_value; Val (set (Some val))
          | Some _ => Throw (DuplicateKey raw_key)
          end
  | _ => Throw (InvalidKey raw_key)
  end.

Definition insert_keyed {K A} (cmp : K -> K -> comparison) (kv : PsbtValue K) (v : PsbtValue A) (field : list (K * A))
    (set : list (K * A) -> T) (raw_key : Key) (raw_value : list byte) : comp PsbtError T :=
  match key raw_key with
  | [] => Throw (InvalidKey raw_key)
  | _ => key_val ← de kv (key raw_key);
         match map_get cmp key_val field with
         | None => val ← de v raw_value; Val (set (map_insert cmp key_val val field))
         | Some _ => Throw (DuplicateKey raw_key)
         end
  end.

(** [psbt_insert_hash_pair] for a hash of [n] bytes *)
Definition insert_hash (hash : list byte -> list byte) (n : nat) (hash_type : PsbtHash)
    (field : list (list byte * list byte)) (set : list (list byte * list byte) -> T) (raw_key : Key)
    (raw_value : list byte) : comp PsbtError T :=
  match key raw_key with
  | [] => Throw (InvalidKey raw_key)
  | _ => key_val ← de (hash_value n) (key raw_key);
         match map_get bytes_compare key_val field with
         | None => val ← de bytes_value raw_value;
                   if bool_decide (hash val <> key_val) then Throw (InvalidPreimageHashPair hash_type val key_val)
                   else Val (set (map_insert bytes_compare key_val val field))
         | Some _ => Throw (DuplicateKey raw_key)
         end
  end.

Definition insert_proprietary (field : list (ProprietaryKey * list byte))
    (set : list (ProprietaryKey * list byte) -> T) (raw_key : Key) (raw_value : list byte) : comp PsbtError T :=
  k ← proprietary_try_from raw_key;
  match map_get proprietary_compare k field with
  | None => Val (set (map_insert proprietary_compare k raw_value field))
  | Some _ => Throw (DuplicateKey raw_key)
  end.

Definition insert_unknown (field : list (Key * list byte)) (set : list (Key * list byte) -> T) (raw_key : Key)
    (raw_value : list byte) : comp PsbtError T :=
  match map_get key_compare raw_key field with
  | None => Val (set (map_insert key_compare raw_key raw_value field))
  | Some _ => Throw (DuplicateKey raw_key)
  end.

(** ** [combine!] *)

Definition combine_field {A} (slf other : option A) : option A :=
  match slf, other with None, Some thing => Some thing | slf, _ => slf end.
End macros.
#[global] Arguments combine_field {A} slf other : simpl never.

(** ** Fields *)

Definition opt_wf {A} (wf : A -> Prop) (o : option A) : Prop := match o with Some a => wf a | None => True end.
Definition map_wf {K A} (cmp : K -> K -> comparison) (wk : K -> Prop) (wv : A -> Prop) (m : list (K * A)) : Prop :=
  ordered cmp m /\ Forall (fun p => wk (fst p) /\ wv (snd p)) m.
Definition preimages_wf (hash : list byte -> list byte) (n : nat) (m : list (list byte * list byte)) : Prop :=
  ordered bytes_compare m /\ Forall (fun p => length (fst p) = n /\ hash (snd p) = fst p) m.

Section emits.
Context {bm : BuildMode} {C : PsbtCurve} {L : PsbtCurveLaws C}.
Context {T : Type} (insert_pair : T -> Pair -> comp PsbtError T).

(** Writing the pairs [m] adds turns the record [t] into [t'] when they are inserted. *)
Definition emits (m : list Pair -> run (list Pair)) (t t' : T) : Prop :=
  exists ps, (forall rv, m rv = Ret (rv ++ ps)) /\ (Forall pair_fits ps -> insert_all insert_pair t ps = Val t').

Lemma emits_ret t : emits (fun rv => Ret rv) t t.
Proof. exists []. split; [intros rv; by rewrite app_nil_r|done]. Qed.

Lemma emits_bind m1 m2 t t1 t2 : emits m1 t t1 -> emits m2 t1 t2 -> emits (fun rv => rv ← m1 rv; m2 rv) t t2.
Proof.
  intros (ps & H1 & I1) (qs & H2 & I2). exists (ps ++ qs). split.
  - intros rv. rewrite H1. msimpl. by rewrite H2, <- app_assoc.
  - intros [Hp Hq]%Forall_app. rewrite insert_all_app, I1 by done. cbn [mbind comp_bind]. by apply I2.
Qed.

Lemma pair_value_fits k v : pair_fits (mkPair k v) -> fits v.
Proof. intros [_ H]. unfold fits, bytes_of in *. simpl in *. rewrite length_app in H. lia. Qed.

Lemma pair_key_fits k v : pair_fits (mkPair k v) -> fits (key k).
Proof. by intros [[_ H] _]. Qed.

Lemma emits_push {A} (v : PsbtValue A) wf `{!ValueLaws v wf} o typeval t set :
  opt_wf wf o -> t = set None ->
  (forall raw, insert_pair t (mkPair (mkKey typeval []) raw) = val ← de v raw; Val (set (Some val))) ->
  emits (push v o typeval) t (set o).
Proof.
  intros Ho -> Hi. destruct o as [a|]; [|apply emits_ret].
  destruct (value_roundtrip (v := v) a Ho) as (bs & Es & Hd). unfold push. rewrite Es.
  exists [mkPair (mkKey typeval []) bs]. split; [done|]. intros [Hp _]%Forall_cons_iff.
  cbn [insert_all]. rewrite Hi, Hd by by eapply pair_value_fits. done.
Qed.

(** A map is rebuilt by inserting its entries in order. *)
Section push_entries.
Context {K A : Type} (cmp : K -> K -> comparison) `{!TotalCompare cmp}.
Context (write : K * A -> run Pair) (good : K * A -> Prop) (set : list (K * A) -> T).
Context (Hw : forall e, good e -> exists p, write e = Ret p /\
  (pair_fits p -> forall acc, map_get cmp (fst e) acc = None ->
     insert_pair (set acc) p = Val (set (map_insert cmp (fst e) (snd e) acc)))).

Lemma emits_entries m : forall acc, Forall good m -> ordered cmp (acc ++ m) ->
  emits (fun rv => fold_left (fun rv e => rv ← rv; p ← write e; Ret (rv ++ [p])) m (Ret rv)) (set acc) (set (acc ++ m)).
Proof.
  induction m as [|e m IH]; intros acc Hg Ho; [rewrite app_nil_r; apply emits_ret|].
  apply Forall_cons_iff in Hg as [He Hg]. destruct (Hw e He) as (p & Ep & Hi).
  assert (Forall (fun q => cmp (fst q) (fst e) = Lt) acc) as Ha.
  { unfold ordered in Ho. apply StronglySorted_app in Ho as (H0 & _). apply Forall_forall.
    intros q Hq. apply H0; [done|]. apply elem_of_cons. by left. }
  specialize (IH (acc ++ [e]) Hg). rewrite <- app_assoc in IH. destruct (IH Ho) as (ps & Hps & Hins).
  exists (p :: ps). split.
  - intros rv. cbn [fold_left]. msimpl. rewrite Ep. msimpl. by rewrite Hps, <- app_assoc.
  - intros [Hp Hr]%Forall_cons_iff. cbn [insert_all].
    rewrite (Hi Hp acc) by (by apply map_get_above). rewrite (map_insert_above cmp _ _ _ Ha).
    destruct e. cbn [mbind comp_bind fst snd]. by apply Hins.
Qed.
End push_entries.

Lemma push_map_entries {K A} (kv : PsbtValue K) (v : PsbtValue A) m typeval rv :
  push_map kv v m typeval rv =
  fold_left (fun rv e => rv ← rv; p ← (k ← ser kv (fst e); value ← ser v (snd e);
    Ret (mkPair (mkKey typeval k) value)); Ret (rv ++ [p])) m (Ret rv).
Proof.
  unfold push_map. generalize (Ret rv : run (list Pair)). induction m as [|e m IH]; intros acc; [done|].
  cbn [fold_left]. rewrite IH. f_equal. destruct acc; [|done]. msimpl.
  destruct (ser kv (fst e)); [|done]. msimpl. by destruct (ser v (snd e)).
Qed.

Lemma emits_push_map {K A} (cmp : K -> K -> comparison) (kv : PsbtValue K) (v : PsbtValue A) wk wv
    `{!TotalCompare cmp, !KeyLaws kv wk, !ValueLaws v wv} m typeval t set :
  map_wf cmp wk wv m -> t = set [] ->
  (forall acc kb raw, insert_pair (set acc) (mkPair (mkKey typeval kb) raw) =
     insert_keyed cmp kv v acc set (mkKey typeval kb) raw) ->
  emits (push_map kv v m typeval) t (set m).
Proof.
  intros [Ho Hf] -> Hi.
  destruct (emits_entries cmp (fun e => k ← ser kv (fst e); value ← ser v (snd e); Ret (mkPair (mkKey typeval k) value))
    (fun p => wk (fst p) /\ wv (snd p)) set) with (m := m) (acc := @nil (K * A)) as (ps & Hps & Hins); [|done|done|].
  - intros [k a] [Hk Ha]. cbn [fst snd] in *. destruct (value_roundtrip (v := kv) k Hk) as (kb & Ek & Dk).
    destruct (value_roundtrip (v := v) a Ha) as (ab & Ea & Da). rewrite Ek, Ea. msimpl.
    eexists. split; [done|]. intros Hp acc Hn. rewrite Hi. unfold insert_keyed. cbn [key].
    pose proof (key_nonempty (v := kv) k kb Hk Ek) as Hne. destruct kb as [|b kb]; [done|].
    rewrite Dk by apply (pair_key_fits _ _ Hp). cbn [mbind comp_bind]. rewrite Hn, Da by apply (pair_value_fits _ _ Hp).
    done.
  - exists ps. split; [|done]. intros rv. rewrite push_map_entries. apply Hps.
Qed.

Lemma emits_push_hash (hash : list byte -> list byte) n hash_type m typeval t set :
  preimages_wf hash (S n) m -> t = set [] ->
  (forall acc kb raw, insert_pair (set acc) (mkPair (mkKey typeval kb) raw) =
     insert_hash hash (S n) hash_type acc set (mkKey typeval kb) raw) ->
  emits (push_map (hash_value (S n)) bytes_value m typeval) t (set m).
Proof.
  intros [Ho Hf] -> Hi.
  destruct (emits_entries bytes_compare (fun e => k ← ser (hash_value (S n)) (fst e); value ← ser bytes_value (snd e);
    Ret (mkPair (mkKey typeval k) value)) (fun p => length (fst p) = S n /\ hash (snd p) = fst p) set)
    with (m := m) (acc := @nil (list byte * list byte)) as (ps & Hps & Hins); [|done|done|].
  - intros [k a] [Hk Ha]. cbn [fst snd ser hash_value bytes_value] in *. msimpl. eexists. split; [done|].
    intros Hp acc Hn. rewrite Hi. unfold insert_hash. cbn [key de hash_value bytes_value].
    destruct k as [|b k]; [done|]. rewrite (proj2 (Nat.eqb_eq _ _)) by done. cbn [mbind comp_bind]. rewrite Hn.
    by rewrite bool_decide_eq_false_2 by naive_solver.
  - exists ps. split; [|done]. intros rv. rewrite push_map_entries. apply Hps.
Qed.

Lemma emits_push_proprietary m t set :
  map_wf proprietary_compare proprietary_wf (fun _ => True) m -> t = set [] ->
  (forall acc k raw, type_value k = 0xFC -> insert_pair (set acc) (mkPair k raw) = insert_proprietary acc set k raw) ->
  emits (push_proprietary m) t (set m).
Proof.
  intros [Ho Hf] -> Hi.
  destruct (emits_entries proprietary_compare (fun e => k ← to_key (fst e); Ret (mkPair k (snd e)))
    (fun p => proprietary_wf (fst p) /\ True) set) with (m := m) (acc := @nil (ProprietaryKey * list byte))
    as (ps & Hps & Hins); [|done|done|].
  - intros [k a] [Hk _]. cbn [fst snd] in *. rewrite to_key_spec by done. msimpl. eexists. split; [done|].
    intros Hp acc Hn. rewrite Hi by done. unfold insert_proprietary. rewrite proprietary_roundtrip by done.
    cbn [mbind comp_bind]. by rewrite Hn.
  - exists ps. split; [|done]. intros rv. rewrite <- Hps. unfold push_proprietary.
    generalize (Ret rv : run (list Pair)). clear. induction m as [|e m IH]; intros acc; [done|].
    cbn [fold_left]. rewrite IH. f_equal. destruct acc; [|done]. msimpl. by destruct (to_key (fst e)).
Qed.

Lemma emits_push_unknown (known : Z -> bool) m t set :
  map_wf key_compare (fun k => key_fits k /\ known (type_value k) = false) (fun _ => True) m -> t = set [] ->
  (forall acc k raw, known (type_value k) = false ->
     insert_pair (set acc) (mkPair k raw) = insert_unknown acc set k raw) ->
  emits (push_unknown m) t (set m).
Proof.
  intros [Ho Hf] -> Hi.
  destruct (emits_entries key_compare (fun e => Ret (mkPair (fst e) (snd e)))
    (fun p => (key_fits (fst p) /\ known (type_value (fst p)) = false) /\ True) set)
    with (m := m) (acc := @nil (Key * list byte)) as (ps & Hps & Hins); [|done|done|].
  - intros [k a] [[Hk Hn] _]. cbn [fst snd] in *. eexists. split; [done|]. intros Hp acc Hg.
    rewrite Hi by done. unfold insert_unknown. by rewrite Hg.
  - exists ps. split; [|done]. intros rv. rewrite <- Hps. done.
Qed.
End emits.

(** ** Insertion keeps fields well-formed and does not panic *)

Section insertion.
Context {bm : BuildMode} {C : PsbtCurve} {L : PsbtCurveLaws C} {T : Type}.

(** The outcome of an insertion: the field set to a well-formed value, or an error. *)
Definition inserts {F} (wf : F -> Prop) (set : F -> T) (r : comp PsbtError T) : Prop :=
  match r with Val t => exists f, t = set f /\ wf f | Throw _ => True | Crash => False end.

Lemma insert_unkeyed_inserts {A} (v : PsbtValue A) wf `{!ValueLaws v wf} o set k raw : fits raw ->
  inserts (opt_wf wf) set (insert_unkeyed v o set k raw).
Proof.
  intros Hr. unfold insert_unkeyed. destruct (key k); [|done]. destruct o; [done|].
  pose proof (value_no_panic (v := v) raw Hr). destruct (de v raw) as [a| |] eqn:E; [|done..].
  exists (Some a). split; [done|]. exact (value_wf (v := v) raw a Hr E).
Qed.

Lemma map_insert_wf {K A} (cmp : K -> K -> comparison) `{!TotalCompare cmp} (good : K * A -> Prop) k a m :
  ordered cmp m -> Forall good m -> good (k, a) ->
  ordered cmp (map_insert cmp k a m) /\ Forall good (map_insert cmp k a m).
Proof.
  intros Ho Hf Hk. split; [by apply map_insert_ordered|]. clear Ho. induction Hf as [|[k' a'] m Hg Hf IH]; simpl in *.
  - by constructor.
  - destruct (cmp k k') eqn:E; [|by repeat constructor|by constructor].
    apply compare_eq_iff in E as <-. by constructor.
Qed.

Lemma insert_keyed_inserts {K A} (cmp : K -> K -> comparison) (kv : PsbtValue K) (v : PsbtValue A) wk wv
    `{!TotalCompare cmp, !KeyLaws kv wk, !ValueLaws v wv} m set k raw : fits (key k) -> fits raw ->
  map_wf cmp wk wv m -> inserts (map_wf cmp wk wv) set (insert_keyed cmp kv v m set k raw).
Proof.
  intros Hk Hr [Ho Hf]. unfold insert_keyed. destruct (key k) as [|b kb] eqn:Ek; [done|]. rewrite <- Ek in *.
  pose proof (value_no_panic (v := kv) (key k) Hk). destruct (de kv (key k)) as [x| |] eqn:Ex; [|done..].
  cbn [mbind comp_bind]. destruct (map_get cmp x m) eqn:Eg; [done|].
  pose proof (value_no_panic (v := v) raw Hr). destruct (de v raw) as [a| |] eqn:Ea; [|done..].
  eexists. split; [done|]. apply (map_insert_wf cmp (fun p => wk (fst p) /\ wv (snd p))); try done.
  split; [by apply (value_wf (v := kv) (key k))|by apply (value_wf (v := v) raw)].
Qed.

Lemma insert_hash_inserts hash n hash_type m set k raw : preimages_wf hash n m ->
  inserts (preimages_wf hash n) set (insert_hash hash n hash_type m set k raw).
Proof.
  intros [Ho Hf]. unfold insert_hash. destruct (key k) as [|b kb] eqn:Ek; [done|]. rewrite <- Ek in *.
  cbn [de hash_value bytes_value]. destruct (Nat.eqb_spec (length (key k)) n) as [El|]; [|done]. cbn [mbind comp_bind].
  destruct (map_get bytes_compare (key k) m) eqn:Eg; [done|]. case_bool_decide as Hh; [done|].
  eexists. split; [done|]. apply (map_insert_wf bytes_compare (fun p => length (fst p) = n /\ hash (snd p) = fst p)); done.
Qed.

Lemma insert_proprietary_inserts m set k raw : fits (key k) ->
  map_wf proprietary_compare proprietary_wf (fun _ => True) m ->
  inserts (map_wf proprietary_compare proprietary_wf (fun _ => True)) set (insert_proprietary m set k raw).
Proof.
  intros Hk [Ho Hf]. unfold insert_proprietary. pose proof (proprietary_no_panic k).
  destruct (proprietary_try_from k) as [p| |] eqn:E; [|done..]. cbn [mbind comp_bind].
  destruct (map_get proprietary_compare p m) eqn:Eg; [done|]. eexists. split; [done|].
  apply proprietary_try_from_Val in E as [Hw _]; [|by apply fits_64].
  by apply (map_insert_wf proprietary_compare (fun p => proprietary_wf (fst p) /\ True)).
Qed.

Lemma insert_unknown_inserts (known : Z -> bool) m set k raw : key_fits k -> known (type_value k) = false ->
  map_wf key_compare (fun k => key_fits k /\ known (type_value k) = false) (fun _ => True) m ->
  inserts (map_wf key_compare (fun k => key_fits k /\ known (type_value k) = false) (fun _ => True)) set
    (insert_unknown m set k raw).
Proof.
  intros Hk Hn [Ho Hf]. unfold insert_unknown. destruct (map_get key_compare k m) eqn:Eg; [done|].
  eexists. split; [done|].
  by apply (map_insert_wf key_compare (fun p => (key_fits (fst p) /\ known (type_value (fst p)) = false) /\ True)).
Qed.

(** ** Combining fields *)

Lemma combine_field_wf {A} (wf : A -> Prop) o o' : opt_wf wf o -> opt_wf wf o' -> opt_wf wf (combine_field o o').
Proof. by destruct o, o'. Qed.

Lemma combine_field_self {A} (o : option A) : combine_field o o = o.
Proof. by destruct o. Qed.

Lemma map_extend_good {K A} (cmp : K -> K -> comparison) `{!TotalCompare cmp} (good : K * A -> Prop) m' : forall m,
  (ordered cmp m /\ Forall good m) -> (ordered cmp m' /\ Forall good m') ->
  ordered cmp (map_extend cmp m m') /\ Forall good (map_extend cmp m m').
Proof.
  intros m [Ho Hf] [_ Hf']. revert m Ho Hf. induction Hf' as [|[k a] m' Hg _ IH]; intros m Ho Hf; [done|].
  cbn [map_extend fold_left]. destruct (map_insert_wf cmp good k a m Ho Hf Hg). by apply IH.
Qed.

Lemma map_extend_self {K A} (cmp : K -> K -> comparison) `{!TotalCompare cmp} (m : list (K * A)) :
  ordered cmp m -> map_extend cmp m m = m.
Proof.
  intros Ho. apply (ordered_ext cmp); [by apply map_extend_ordered|done|].
  intros k. rewrite map_extend_get by done. by destruct (map_get cmp k m).
Qed.
End insertion.

(** The side conditions of a field: it is well-formed, was empty, and its type is the one inserted. *)
Ltac field :=
  match goal with
  | |- opt_wf (fun _ => True) ?o => by destruct o
  | |- forall _, _ => intros; reflexivity
  | |- _ => first [assumption | reflexivity]
  end.

(** Split off the field that is written first, and rebuild it in the record it belongs to. *)
Ltac emit_next :=
  match goal with
  | |- emits ?ip (fun rv => mbind (fun rv' => @?k rv') (@?m rv)) _ _ => eapply (emits_bind ip m k)
  end; cbv beta.
Ltac emit_opt v wf set :=
  match goal with |- emits _ _ ?t _ => apply (emits_push _ v wf _ _ _ (set t)) end; field.
Ltac emit_map cmp kv v set :=
  match goal with |- emits _ _ ?t _ => apply (emits_push_map _ cmp kv v _ _ _ _ _ (set t)) end; field.
Ltac emit_hash hash n hash_type set :=
  match goal with |- emits _ _ ?t _ => apply (emits_push_hash _ hash n hash_type _ _ _ (set t)) end; field.

(** A field was set to a well-formed value; the others are as they were. *)
Ltac inserted H :=
  let H' := fresh in pose proof H as H'; unfold inserts in H';
  match goal with |- match ?r with _ => _ end => destruct r as [?| |]; [|done|done] end;
  destruct H' as (? & -> & ?); by split.
