(* ===== verification/PsbtOutput.v ===== *)
(** * PSBT output maps ([psbt/map/output.rs]) *)

From Stdlib Require Import ZArith Lia Sorted.
From coqutil Require Import Byte Word.LittleEndianList.
From stdpp Require Import base tactics option list numbers.
From S2P Require Import Prelude Io Encode HashEngine Sha256 Sha256t Ripemd160 Taproot TapTree TapSpend OrdMap Witness LockTime Script ScriptKinds Transaction Sighash Signatures Base58 Keys DerivationPath Bip32 PsbtRaw TapTreeBytes PsbtFields PsbtMap.

#[local] Open Scope Z_scope.

Definition PSBT_OUT_REDEEM_SCRIPT : Z := 0x00.
Definition PSBT_OUT_WITNESS_SCRIPT : Z := 0x01.
Definition PSBT_OUT_BIP32_DERIVATION : Z := 0x02.
Definition PSBT_OUT_TAP_INTERNAL_KEY : Z := 0x05.
Definition PSBT_OUT_TAP_TREE : Z := 0x06.
Definition PSBT_OUT_TAP_BIP32_DERIVATION : Z := 0x07.
Definition PSBT_OUT_PROPRIETARY : Z := 0xFC.

Section output.
Context {bm : BuildMode} {C : PsbtCurve}.

Record Output := mkOutput {
  o_redeem_script : option (list byte);
  o_witness_script : option (list byte);
  o_bip32_derivation : list (SecpPublicKey * KeySource);
  o_tap_internal_key : option XOnlyPublicKey;
  o_tap_tree : option NodeInfo;
  o_tap_key_origins : list (XOnlyPublicKey * (list (list byte) * KeySource));
  o_proprietary : list (ProprietaryKey * list byte);
  o_unknown : list (Key * list byte);
}.

Definition default_output : Output :=
  mkOutput None None [] None None [] [] [].

Definition set_o_redeem_script (self : Output) (v : option (list byte)) : Output :=
  mkOutput v (o_witness_script self) (o_bip32_derivation self) (o_tap_internal_key self) (o_tap_tree self)
    (o_tap_key_origins self) (o_proprietary self) (o_unknown self).
Definition set_o_witness_script (self : Output) (v : option (list byte)) : Output :=
  mkOutput (o_redeem_script self) v (o_bip32_derivation self) (o_tap_internal_key self) (o_tap_tree self)
    (o_tap_key_origins self) (o_proprietary self) (o_unknown self).
Definition set_o_bip32_derivation (self : Output) (v : list (SecpPublicKey * KeySource)) : Output :=
  mkOutput (o_redeem_script self) (o_witness_script self) v (o_tap_internal_key self) (o_tap_tree self)
    (o_tap_key_origins self) (o_proprietary self) (o_unknown self).
Definition set_o_tap_internal_key (self : Output) (v : option XOnlyPublicKey) : Output :=
  mkOutput (o_redeem_script self) (o_witness_script self) (o_bip32_derivation self) v (o_tap_tree self)
    (o_tap_key_origins self) (o_proprietary self) (o_unknown self).
Definition set_o_tap_tree (self : Output) (v : option NodeInfo) : Output :=
  mkOutput (o_redeem_script self) (o_witness_script self) (o_bip32_derivation self) (o_tap_internal_key self)
    v (o_tap_key_origins self) (o_proprietary self) (o_unknown self).
Definition set_o_tap_key_origins (self : Output) (v : list (XOnlyPublicKey * (list (list byte) * KeySource))) : Output :=
  mkOutput (o_redeem_script self) (o_witness_script self) (o_bip32_derivation self) (o_tap_internal_key self)
    (o_tap_tree self) v (o_proprietary self) (o_unknown self).
Definition set_o_proprietary (self : Output) (v : list (ProprietaryKey * list byte)) : Output :=
  mkOutput (o_redeem_script self) (o_witness_script self) (o_bip32_derivation self) (o_tap_internal_key self)
    (o_tap_tree self) (o_tap_key_origins self) v (o_unknown self).
Definition set_o_unknown (self : Output) (v : list (Key * list byte)) : Output :=
  mkOutput (o_redeem_script self) (o_witness_script self) (o_bip32_derivation self) (o_tap_internal_key self)
    (o_tap_tree self) (o_tap_key_origins self) (o_proprietary self) v.

Definition output_insert_pair (self : Output) (p : Pair) : comp PsbtError Output :=
  let raw_key := pair_key p in
  let raw_value := pair_value p in
  let ty := type_value raw_key in
  if ty =? PSBT_OUT_REDEEM_SCRIPT then
    insert_unkeyed bytes_value (o_redeem_script self) (set_o_redeem_script self) raw_key raw_value
  else if ty =? PSBT_OUT_WITNESS_SCRIPT then
    insert_unkeyed bytes_value (o_witness_script self) (set_o_witness_script self) raw_key raw_value
  else if ty =? PSBT_OUT_BIP32_DERIVATION then
    insert_keyed pk_cmp secp_pubkey_value key_source_value (o_bip32_derivation self) (set_o_bip32_derivation self)
      raw_key raw_value
  else if ty =? PSBT_OUT_PROPRIETARY then
    insert_proprietary (o_proprietary self) (set_o_proprietary self) raw_key raw_value
  else if ty =? PSBT_OUT_TAP_INTERNAL_KEY then
    insert_unkeyed xonly_value (o_tap_internal_key self) (set_o_tap_internal_key self) raw_key raw_value
  else if ty =? PSBT_OUT_TAP_TREE then
    insert_unkeyed taptree_value (o_tap_tree self) (set_o_tap_tree self) raw_key raw_value
  else if ty =? PSBT_OUT_TAP_BIP32_DERIVATION then
    insert_keyed xonly_cmp xonly_value tap_origin_value (o_tap_key_origins self) (set_o_tap_key_origins self)
      raw_key raw_value
  else insert_unknown (o_unknown self) (set_o_unknown self) raw_key raw_value.

Definition output_combine (self other : Output) : Output :=
  let self := set_o_bip32_derivation self (map_extend pk_cmp (o_bip32_derivation self) (o_bip32_derivation other)) in
  let self := set_o_proprietary self (map_extend proprietary_compare (o_proprietary self) (o_proprietary other)) in
  let self := set_o_unknown self (map_extend key_compare (o_unknown self) (o_unknown other)) in
  let self := set_o_tap_key_origins self (map_extend xonly_cmp (o_tap_key_origins self) (o_tap_key_origins other)) in
  let self := set_o_redeem_script self (combine_field (o_redeem_script self) (o_redeem_script other)) in
  let self := set_o_witness_script self (combine_field (o_witness_script self) (o_witness_script other)) in
  let self := set_o_tap_internal_key self (combine_field (o_tap_internal_key self) (o_tap_internal_key other)) in
  set_o_tap_tree self (combine_field (o_tap_tree self) (o_tap_tree other)).

Definition output_get_pairs (self : Output) : run (list Pair) :=
  rv ← push bytes_value (o_redeem_script self) PSBT_OUT_REDEEM_SCRIPT [];
  rv ← push bytes_value (o_witness_script self) PSBT_OUT_WITNESS_SCRIPT rv;
  rv ← push_map secp_pubkey_value key_source_value (o_bip32_derivation self) PSBT_OUT_BIP32_DERIVATION rv;
  rv ← push xonly_value (o_tap_internal_key self) PSBT_OUT_TAP_INTERNAL_KEY rv;
  rv ← push taptree_value (o_tap_tree self) PSBT_OUT_TAP_TREE rv;
  rv ← push_map xonly_value tap_origin_value (o_tap_key_origins self) PSBT_OUT_TAP_BIP32_DERIVATION rv;
  rv ← push_proprietary (o_proprietary self) rv;
  push_unknown (o_unknown self) rv.

(** [impl_psbtmap_ser_de_serialize!(Output)] *)
Definition output_decode : PDecoder Output := decode_map output_insert_pair default_output.
Definition output_serialize (self : Output) : run (list byte) := serialize_map (output_get_pairs self).
Definition output_deserialize (bytes : list byte) : comp PsbtError Output :=
  '(rv, decoder) ← pslice output_decode bytes; Val rv.
End output.

(** ** Outputs round trip *)

Definition known_output (ty : Z) : bool := existsb (Z.eqb ty) [0; 1; 2; 5; 6; 7; 0xFC].

(** Compute the fields of a record that is known. *)
Ltac norm_output :=
  cbv [set_o_redeem_script set_o_witness_script set_o_bip32_derivation set_o_tap_internal_key set_o_tap_tree
    set_o_tap_key_origins set_o_proprietary set_o_unknown o_redeem_script o_witness_script
    o_bip32_derivation o_tap_internal_key o_tap_tree o_tap_key_origins o_proprietary o_unknown
    default_output].

Section output_laws.
Context {bm : BuildMode} {C : PsbtCurve} {L : PsbtCurveLaws C}.

Record output_wf (o : Output) : Prop := {
  ow_bip32 : map_wf pk_cmp (fun _ => True) child_numbers_wf (o_bip32_derivation o);
  ow_tree : opt_wf taptree_wf (o_tap_tree o);
  ow_origins : map_wf xonly_cmp (fun _ => True) tap_origin_wf (o_tap_key_origins o);
  ow_proprietary : map_wf proprietary_compare proprietary_wf (fun _ => True) (o_proprietary o);
  ow_unknown : map_wf key_compare (fun k => key_fits k /\ known_output (type_value k) = false) (fun _ => True)
                 (o_unknown o);
}.

(** The pairs of a map fit into a stream, which has fewer than [2^64] bytes. *)
Definition pairs_fit (pairs : run (list Pair)) : Prop := 
  exists ps, pairs = Ret ps /\ Forall pair_fits ps /\ Z.of_nat (length (pairs_bytes ps)) < 2 ^ 64.

Lemma unknown_output k raw o : known_output (type_value k) = false ->
  output_insert_pair o (mkPair k raw) = insert_unknown (o_unknown o) (set_o_unknown o) k raw.
Proof.
  unfold known_output, output_insert_pair. cbn [pair_key pair_value existsb]. rewrite !orb_false_iff.
  intros (H0 & H1 & H2 & H5 & H6 & H7 & Hf & _).
  unfold PSBT_OUT_REDEEM_SCRIPT, PSBT_OUT_WITNESS_SCRIPT, PSBT_OUT_BIP32_DERIVATION, PSBT_OUT_PROPRIETARY,
    PSBT_OUT_TAP_INTERNAL_KEY, PSBT_OUT_TAP_TREE, PSBT_OUT_TAP_BIP32_DERIVATION.
  by rewrite H0, H1, H2, H5, H6, H7, Hf.
Qed.

Lemma output_emits o : output_wf o ->
  emits output_insert_pair (fun rv =>
    rv ← push bytes_value (o_redeem_script o) PSBT_OUT_REDEEM_SCRIPT rv;
    rv ← push bytes_value (o_witness_script o) PSBT_OUT_WITNESS_SCRIPT rv;
    rv ← push_map secp_pubkey_value key_source_value (o_bip32_derivation o) PSBT_OUT_BIP32_DERIVATION rv;
    rv ← push xonly_value (o_tap_internal_key o) PSBT_OUT_TAP_INTERNAL_KEY rv;
    rv ← push taptree_value (o_tap_tree o) PSBT_OUT_TAP_TREE rv;
    rv ← push_map xonly_value tap_origin_value (o_tap_key_origins o) PSBT_OUT_TAP_BIP32_DERIVATION rv;
    rv ← push_proprietary (o_proprietary o) rv;
    push_unknown (o_unknown o) rv) default_output o.
Proof.
  intros [Hb Ht Ho Hp Hu]. destruct o as [rs ws bd ik tt ko pr un]. cbn [o_redeem_script o_witness_script
    o_bip32_derivation o_tap_internal_key o_tap_tree o_tap_key_origins o_proprietary o_unknown] in *.
  emit_next; [emit_opt (@bytes_value C) (fun _ : list byte => True) set_o_redeem_script|norm_output].
  emit_next; [emit_opt (@bytes_value C) (fun _ : list byte => True) set_o_witness_script|norm_output].
  emit_next; [emit_map pk_cmp secp_pubkey_value key_source_value set_o_bip32_derivation|norm_output].
  emit_next; [emit_opt xonly_value (fun _ : XOnlyPublicKey => True) set_o_tap_internal_key|norm_output].
  emit_next; [emit_opt taptree_value taptree_wf set_o_tap_tree|norm_output].
  emit_next; [emit_map xonly_cmp xonly_value tap_origin_value set_o_tap_key_origins|norm_output].
  emit_next.
  - match goal with |- emits _ _ ?t _ => apply (emits_push_proprietary _ _ _ (set_o_proprietary t)) end; [field..|].
    intros acc k raw Hk. unfold output_insert_pair. cbn [pair_key pair_value]. by rewrite Hk.
  - match goal with |- emits _ _ ?t _ =>
      apply (emits_push_unknown _ known_output _ _ (set_o_unknown t)) end; [field..|].
    intros acc k raw Hk. by rewrite unknown_output.
Qed.
End output_laws.

Section output_claims.
Context {bm : BuildMode} {C : PsbtCurve} {L : PsbtCurveLaws C}.

(** An inserted pair changes one field, to a well-formed value. *)
Lemma output_insert_wf o p : output_wf o -> pair_fits p ->
  match output_insert_pair o p with Val o' => output_wf o' | Throw _ => True | Crash => False end.
Proof.
  intros Hw [Hk Hv]. destruct p as [k raw]. pose proof (pair_value_fits k raw (conj Hk Hv)) as Hr.
  pose proof (pair_key_fits k raw (conj Hk Hv)) as Hkk. cbn [pair_key pair_value] in *.
  pose proof Hw as [Hb Ht Ho Hp Hu]. pose proof (unknown_output k raw o) as Hun.
  destruct (known_output (type_value k)) eqn:Ekn.
  2: { rewrite Hun by done. clear Hun.
       pose proof (insert_unknown_inserts known_output (o_unknown o) (set_o_unknown o) k raw Hk Ekn Hu) as H.
       unfold inserts in H. destruct (insert_unknown _ _ _ _); [|done..]. destruct H as (f & -> & Hf). by split. }
  clear Hun. unfold output_insert_pair. cbn [pair_key pair_value]. unfold known_output in Ekn. cbn [existsb] in Ekn.
  repeat match goal with |- context [if type_value k =? ?n then _ else _] => destruct (Z.eqb_spec (type_value k) n) end.
  - inserted (insert_unkeyed_inserts bytes_value (fun _ => True) (o_redeem_script o) (set_o_redeem_script o) k raw Hr).
  - inserted (insert_unkeyed_inserts bytes_value (fun _ => True) (o_witness_script o) (set_o_witness_script o) k raw Hr).
  - inserted (insert_keyed_inserts pk_cmp secp_pubkey_value key_source_value _ _ _ (set_o_bip32_derivation o) k raw Hkk Hr Hb).
  - inserted (insert_proprietary_inserts (o_proprietary o) (set_o_proprietary o) k raw Hkk Hp).
  - inserted (insert_unkeyed_inserts xonly_value (fun _ => True) (o_tap_internal_key o) (set_o_tap_internal_key o) k raw Hr).
  - inserted (insert_unkeyed_inserts taptree_value taptree_wf (o_tap_tree o) (set_o_tap_tree o) k raw Hr).
  - inserted (insert_keyed_inserts xonly_cmp xonly_value tap_origin_value _ _ _ (set_o_tap_key_origins o) k raw Hkk Hr Ho).
  - exfalso. unfold PSBT_OUT_REDEEM_SCRIPT, PSBT_OUT_WITNESS_SCRIPT, PSBT_OUT_BIP32_DERIVATION, PSBT_OUT_PROPRIETARY,
      PSBT_OUT_TAP_INTERNAL_KEY, PSBT_OUT_TAP_TREE, PSBT_OUT_TAP_BIP32_DERIVATION in *. lia.
Qed.

Lemma default_output_wf : output_wf default_output.
Proof. split; try done; split; constructor. Qed.

Lemma output_roundtrip o ps rest : output_wf o -> output_get_pairs o = Ret ps -> Forall pair_fits ps ->
  Z.of_nat (length (pairs_bytes ps)) < 2 ^ 64 ->
  output_serialize o = Ret (pairs_bytes ps ++ [Byte.x00]) /\
  pslice output_decode (pairs_bytes ps ++ Byte.x00 :: rest) = Val (o, rest).
Proof.
  intros Hw Hg Hp Hl. split; [unfold output_serialize; rewrite Hg; apply serialize_map_eq|].
  destruct (output_emits o Hw) as (qs & Hq & Hi). specialize (Hq []). cbn [app] in Hq.
  unfold output_get_pairs in Hg. rewrite Hq in Hg. injection Hg as ->.
  unfold output_decode. rewrite decode_map_pairs by done. by rewrite Hi.
Qed.

Lemma output_get_pairs_total o : output_wf o -> exists ps, output_get_pairs o = Ret ps.
Proof. intros Hw. destruct (output_emits o Hw) as (qs & Hq & _). exists qs. apply (Hq []). Qed.

Lemma output_decode_keeps bs : Z.of_nat (length bs) < 2 ^ 64 ->
  match pslice output_decode bs with
  | Val (o, rest) => output_wf o /\ (length rest < length bs)%nat
  | Throw _ => True
  | Crash => False
  end.
Proof.
  intros Hl. apply (decode_map_keeps output_insert_pair output_wf); [|done|apply default_output_wf].
  intros. by apply output_insert_wf.
Qed.

(** ** Combining *)

Lemma output_combine_wf o o' : output_wf o -> output_wf o' -> output_wf (output_combine o o').
Proof.
  intros [] []. split; cbn; try (apply map_extend_good; [apply _|done|done]). by apply combine_field_wf.
Qed.

Lemma output_combine_self o : output_wf o -> output_combine o o = o.
Proof.
  intros [[] _ [] [] []]. destruct o. cbn in *. unfold output_combine. cbn.
  rewrite !map_extend_self by (done || apply _). rewrite !combine_field_self. reflexivity.
Qed.
End output_claims.
