(* ===== verification/PsbtInput.v ===== *)
(** * PSBT input maps ([psbt/map/input.rs]) *)

From Stdlib Require Import ZArith Lia Sorted.
From coqutil Require Import Byte Word.LittleEndianList.
From stdpp Require Import base tactics option list numbers.
From S2P Require Import Prelude Io Encode HashEngine Sha256 Sha256t Ripemd160 Taproot TapTree TapSpend OrdMap Witness LockTime Script ScriptKinds Transaction Sighash Signatures Base58 Keys DerivationPath Bip32 PsbtRaw TapTreeBytes PsbtFields PsbtMap PsbtOutput.

#[local] Open Scope Z_scope.
#[local] Opaque sha256d hash160.hash ripemd160.hash Sha256.hash.

Definition PSBT_IN_NON_WITNESS_UTXO : Z := 0x00.
Definition PSBT_IN_WITNESS_UTXO : Z := 0x01.
Definition PSBT_IN_PARTIAL_SIG : Z := 0x02.
Definition PSBT_IN_SIGHASH_TYPE : Z := 0x03.
Definition PSBT_IN_REDEEM_SCRIPT : Z := 0x04.
Definition PSBT_IN_WITNESS_SCRIPT : Z := 0x05.
Definition PSBT_IN_BIP32_DERIVATION : Z := 0x06.
Definition PSBT_IN_FINAL_SCRIPTSIG : Z := 0x07.
Definition PSBT_IN_FINAL_SCRIPTWITNESS : Z := 0x08.
Definition PSBT_IN_RIPEMD160 : Z := 0x0a.
Definition PSBT_IN_SHA256 : Z := 0x0b.
Definition PSBT_IN_HASH160 : Z := 0x0c.
Definition PSBT_IN_HASH256 : Z := 0x0d.
Definition PSBT_IN_TAP_KEY_SIG : Z := 0x13.
Definition PSBT_IN_TAP_SCRIPT_SIG : Z := 0x14.
Definition PSBT_IN_TAP_LEAF_SCRIPT : Z := 0x15.
Definition PSBT_IN_TAP_BIP32_DERIVATION : Z := 0x16.
Definition PSBT_IN_TAP_INTERNAL_KEY : Z := 0x17.
Definition PSBT_IN_TAP_MERKLE_ROOT : Z := 0x18.
Definition PSBT_IN_PROPRIETARY : Z := 0xFC.

Section input.
Context {bm : BuildMode} {C : PsbtCurve}.

(** The derived orders of the keys. *)
Definition pubkey_compare (a b : PublicKey) : comparison :=
  then_cmp (bool_compare (compressed a) (compressed b)) (pk_cmp (pk_inner a) (pk_inner b)).
Definition key_leaf_compare (a b : XOnlyPublicKey * list byte) : comparison :=
  then_cmp (xonly_cmp (fst a) (fst b)) (bytes_compare (snd a) (snd b)).
Definition parity_compare (a b : Parity) : comparison :=
  match a, b with Even, Odd => Lt | Odd, Even => Gt | _, _ => Eq end.
Definition control_block_compare (a b : ControlBlock) : comparison :=
  then_cmp (leaf_version_compare (leaf_version a) (leaf_version b))
    (then_cmp (parity_compare (cb_parity a) (cb_parity b))
       (then_cmp (xonly_cmp (cb_internal_key a) (cb_internal_key b))
          (branch_compare (cb_merkle_branch a) (cb_merkle_branch b)))).

Record Input := mkInput {
  i_non_witness_utxo : option Transaction;
  i_witness_utxo : option TxOut;
  i_partial_sigs : list (PublicKey * EcdsaSignature);
  i_sighash_type : option Z;
  i_redeem_script : option (list byte);
  i_witness_script : option (list byte);
  i_bip32_derivation : list (SecpPublicKey * KeySource);
  i_final_script_sig : option (list byte);
  i_final_script_witness : option Witness;
  i_ripemd160_preimages : list (list byte * list byte);
  i_sha256_preimages : list (list byte * list byte);
  i_hash160_preimages : list (list byte * list byte);
  i_hash256_preimages : list (list byte * list byte);
  i_tap_key_sig : option TaprootSignature;
  i_tap_script_sigs : list ((XOnlyPublicKey * list byte) * TaprootSignature);
  i_tap_scripts : list (ControlBlock * (list byte * LeafVersion));
  i_tap_key_origins : list (XOnlyPublicKey * (list (list byte) * KeySource));
  i_tap_internal_key : option XOnlyPublicKey;
  i_tap_merkle_root : option (list byte);
  i_proprietary : list (ProprietaryKey * list byte);
  i_unknown : list (Key * list byte);
}.

Definition default_input : Input :=
  mkInput None None [] None None None [] None None [] [] [] [] None [] [] [] None None [] [].

Definition set_i_non_witness_utxo (self : Input) (v : option Transaction) : Input :=
  mkInput v (i_witness_utxo self) (i_partial_sigs self) (i_sighash_type self) (i_redeem_script self)
    (i_witness_script self) (i_bip32_derivation self) (i_final_script_sig self) (i_final_script_witness self)
    (i_ripemd160_preimages self) (i_sha256_preimages self) (i_hash160_preimages self) (i_hash256_preimages
    self) (i_tap_key_sig self) (i_tap_script_sigs self) (i_tap_scripts self) (i_tap_key_origins self)
    (i_tap_internal_key self) (i_tap_merkle_root self) (i_proprietary self) (i_unknown self).
Definition set_i_witness_utxo (self : Input) (v : option TxOut) : Input :=
  mkInput (i_non_witness_utxo self) v (i_partial_sigs self) (i_sighash_type self) (i_redeem_script self)
    (i_witness_script self) (i_bip32_derivation self) (i_final_script_sig self) (i_final_script_witness self)
    (i_ripemd160_preimages self) (i_sha256_preimages self) (i_hash160_preimages self) (i_hash256_preimages
    self) (i_tap_key_sig self) (i_tap_script_sigs self) (i_tap_scripts self) (i_tap_key_origins self)
    (i_tap_internal_key self) (i_tap_merkle_root self) (i_proprietary self) (i_unknown self).
Definition set_i_partial_sigs (self : Input) (v : list (PublicKey * EcdsaSignature)) : Input :=
  mkInput (i_non_witness_utxo self) (i_witness_utxo self) v (i_sighash_type self) (i_redeem_script self)
    (i_witness_script self) (i_bip32_derivation self) (i_final_script_sig self) (i_final_script_witness self)
    (i_ripemd160_preimages self) (i_sha256_preimages self) (i_hash160_preimages self) (i_hash256_preimages
    self) (i_tap_key_sig self) (i_tap_script_sigs self) (i_tap_scripts self) (i_tap_key_origins self)
    (i_tap_internal_key self) (i_tap_merkle_root self) (i_proprietary self) (i_unknown self).
Definition set_i_sighash_type (self : Input) (v : option Z) : Input :=
  mkInput (i_non_witness_utxo self) (i_witness_utxo self) (i_partial_sigs self) v (i_redeem_script self)
    (i_witness_script self) (i_bip32_derivation self) (i_final_script_sig self) (i_final_script_witness self)
    (i_ripemd160_preimages self) (i_sha256_preimages self) (i_hash160_preimages self) (i_hash256_preimages
    self) (i_tap_key_sig self) (i_tap_script_sigs self) (i_tap_scripts self) (i_tap_key_origins self)
    (i_tap_internal_key self) (i_tap_merkle_root self) (i_proprietary self) (i_unknown self).
Definition set_i_redeem_script (self : Input) (v : option (list byte)) : Input :=
  mkInput (i_non_witness_utxo self) (i_witness_utxo self) (i_partial_sigs self) (i_sighash_type self) v
    (i_witness_script self) (i_bip32_derivation self) (i_final_script_sig self) (i_final_script_witness self)
    (i_ripemd160_preimages self) (i_sha256_preimages self) (i_hash160_preimages self) (i_hash256_preimages
    self) (i_tap_key_sig self) (i_tap_script_sigs self) (i_tap_scripts self) (i_tap_key_origins self)
    (i_tap_internal_key self) (i_tap_merkle_root self) (i_proprietary self) (i_unknown self).
Definition set_i_witness_script (self : Input) (v : option (list byte)) : Input :=
  mkInput (i_non_witness_utxo self) (i_witness_utxo self) (i_partial_sigs self) (i_sighash_type self)
    (i_redeem_script self) v (i_bip32_derivation self) (i_final_script_sig self) (i_final_script_witness self)
    (i_ripemd160_preimages self) (i_sha256_preimages self) (i_hash160_preimages self) (i_hash256_preimages
    self) (i_tap_key_sig self) (i_tap_script_sigs self) (i_tap_scripts self) (i_tap_key_origins self)
    (i_tap_internal_key self) (i_tap_merkle_root self) (i_proprietary self) (i_unknown self).
Definition set_i_bip32_derivation (self : Input) (v : list (SecpPublicKey * KeySource)) : Input :=
  mkInput (i_non_witness_utxo self) (i_witness_utxo self) (i_partial_sigs self) (i_sighash_type self)
    (i_redeem_script self) (i_witness_script self) v (i_final_script_sig self) (i_final_script_witness self)
    (i_ripemd160_preimages self) (i_sha256_preimages self) (i_hash160_preimages self) (i_hash256_preimages
    self) (i_tap_key_sig self) (i_tap_script_sigs self) (i_tap_scripts self) (i_tap_key_origins self)
    (i_tap_internal_key self) (i_tap_merkle_root self) (i_proprietary self) (i_unknown self).
Definition set_i_final_script_sig (self : Input) (v : option (list byte)) : Input :=
  mkInput (i_non_witness_utxo self) (i_witness_utxo self) (i_partial_sigs self) (i_sighash_type self)
    (i_redeem_script self) (i_witness_script self) (i_bip32_derivation self) v (i_final_script_witness self)
    (i_ripemd160_preimages self) (i_sha256_preimages self) (i_hash160_preimages self) (i_hash256_preimages
    self) (i_tap_key_sig self) (i_tap_script_sigs self) (i_tap_scripts self) (i_tap_key_origins self)
    (i_tap_internal_key self) (i_tap_merkle_root self) (i_proprietary self) (i_unknown self).
Definition set_i_final_script_witness (self : Input) (v : option Witness) : Input :=
  mkInput (i_non_witness_utxo self) (i_witness_utxo self) (i_partial_sigs self) (i_sighash_type self)
    (i_redeem_script self) (i_witness_script self) (i_bip32_derivation self) (i_final_script_sig self) v
    (i_ripemd160_preimages self) (i_sha256_preimages self) (i_hash160_preimages self) (i_hash256_preimages
    self) (i_tap_key_sig self) (i_tap_script_sigs self) (i_tap_scripts self) (i_tap_key_origins self)
    (i_tap_internal_key self) (i_tap_merkle_root self) (i_proprietary self) (i_unknown self).
Definition set_i_ripemd160_preimages (self : Input) (v : list (list byte * list byte)) : Input :=
  mkInput (i_non_witness_utxo self) (i_witness_utxo self) (i_partial_sigs self) (i_sighash_type self)
    (i_redeem_script self) (i_witness_script self) (i_bip32_derivation self) (i_final_script_sig self)
    (i_final_script_witness self) v (i_sha256_preimages self) (i_hash160_preimages self) (i_hash256_preimages
    self) (i_tap_key_sig self) (i_tap_script_sigs self) (i_tap_scripts self) (i_tap_key_origins self)
    (i_tap_internal_key self) (i_tap_merkle_root self) (i_proprietary self) (i_unknown self).
Definition set_i_sha256_preimages (self : Input) (v : list (list byte * list byte)) : Input :=
  mkInput (i_non_witness_utxo self) (i_witness_utxo self) (i_partial_sigs self) (i_sighash_type self)
    (i_redeem_script self) (i_witness_script self) (i_bip32_derivation self) (i_final_script_sig self)
    (i_final_script_witness self) (i_ripemd160_preimages self) v (i_hash160_preimages self)
    (i_hash256_preimages self) (i_tap_key_sig self) (i_tap_script_sigs self) (i_tap_scripts self)
    (i_tap_key_origins self) (i_tap_internal_key self) (i_tap_merkle_root self) (i_proprietary self)
    (i_unknown self).
Definition set_i_hash160_preimages (self : Input) (v : list (list byte * list byte)) : Input :=
  mkInput (i_non_witness_utxo self) (i_witness_utxo self) (i_partial_sigs self) (i_sighash_type self)
    (i_redeem_script self) (i_witness_script self) (i_bip32_derivation self) (i_final_script_sig self)
    (i_final_script_witness self) (i_ripemd160_preimages self) (i_sha256_preimages self) v
    (i_hash256_preimages self) (i_tap_key_sig self) (i_tap_script_sigs self) (i_tap_scripts self)
    (i_tap_key_origins self) (i_tap_internal_key self) (i_tap_merkle_root self) (i_proprietary self)
    (i_unknown self).
Definition set_i_hash256_preimages (self : Input) (v : list (list byte * list byte)) : Input :=
  mkInput (i_non_witness_utxo self) (i_witness_utxo self) (i_partial_sigs self) (i_sighash_type self)
    (i_redeem_script self) (i_witness_script self) (i_bip32_derivation self) (i_final_script_sig self)
    (i_final_script_witness self) (i_ripemd160_preimages self) (i_sha256_preimages self) (i_hash160_preimages
    self) v (i_tap_key_sig self) (i_tap_script_sigs self) (i_tap_scripts self) (i_tap_key_origins self)
    (i_tap_internal_key self) (i_tap_merkle_root self) (i_proprietary self) (i_unknown self).
Definition set_i_tap_key_sig (self : Input) (v : option TaprootSignature) : Input :=
  mkInput (i_non_witness_utxo self) (i_witness_utxo self) (i_partial_sigs self) (i_sighash_type self)
    (i_redeem_script self) (i_witness_script self) (i_bip32_derivation self) (i_final_script_sig self)
    (i_final_script_witness self) (i_ripemd160_preimages self) (i_sha256_preimages self) (i_hash160_preimages
    self) (i_hash256_preimages self) v (i_tap_script_sigs self) (i_tap_scripts self) (i_tap_key_origins self)
    (i_tap_internal_key self) (i_tap_merkle_root self) (i_proprietary self) (i_unknown self).
Definition set_i_tap_script_sigs (self : Input) (v : list ((XOnlyPublicKey * list byte) * TaprootSignature)) : Input :=
  mkInput (i_non_witness_utxo self) (i_witness_utxo self) (i_partial_sigs self) (i_sighash_type self)
    (i_redeem_script self) (i_witness_script self) (i_bip32_derivation self) (i_final_script_sig self)
    (i_final_script_witness self) (i_ripemd160_preimages self) (i_sha256_preimages self) (i_hash160_preimages
    self) (i_hash256_preimages self) (i_tap_key_sig self) v (i_tap_scripts self) (i_tap_key_origins self)
    (i_tap_internal_key self) (i_tap_merkle_root self) (i_proprietary self) (i_unknown self).
Definition set_i_tap_scripts (self : Input) (v : list (ControlBlock * (list byte * LeafVersion))) : Input :=
  mkInput (i_non_witness_utxo self) (i_witness_utxo self) (i_partial_sigs self) (i_sighash_type self)
    (i_redeem_script self) (i_witness_script self) (i_bip32_derivation self) (i_final_script_sig self)
    (i_final_script_witness self) (i_ripemd160_preimages self) (i_sha256_preimages self) (i_hash160_preimages
    self) (i_hash256_preimages self) (i_tap_key_sig self) (i_tap_script_sigs self) v (i_tap_key_origins self)
    (i_tap_internal_key self) (i_tap_merkle_root self) (i_proprietary self) (i_unknown self).
Definition set_i_tap_key_origins (self : Input) (v : list (XOnlyPublicKey * (list (list byte) * KeySource))) : Input :=
  mkInput (i_non_witness_utxo self) (i_witness_utxo self) (i_partial_sigs self) (i_sighash_type self)
    (i_redeem_script self) (i_witness_script self) (i_bip32_derivation self) (i_final_script_sig self)
    (i_final_script_witness self) (i_ripemd160_preimages self) (i_sha256_preimages self) (i_hash160_preimages
    self) (i_hash256_preimages self) (i_tap_key_sig self) (i_tap_script_sigs self) (i_tap_scripts self) v
    (i_tap_internal_key self) (i_tap_merkle_root self) (i_proprietary self) (i_unknown self).
Definition set_i_tap_internal_key (self : Input) (v : option XOnlyPublicKey) : Input :=
  mkInput (i_non_witness_utxo self) (i_witness_utxo self) (i_partial_sigs self) (i_sighash_type self)
    (i_redeem_script self) (i_witness_script self) (i_bip32_derivation self) (i_final_script_sig self)
    (i_final_script_witness self) (i_ripemd160_preimages self) (i_sha256_preimages self) (i_hash160_preimages
    self) (i_hash256_preimages self) (i_tap_key_sig self) (i_tap_script_sigs self) (i_tap_scripts self)
    (i_tap_key_origins self) v (i_tap_merkle_root self) (i_proprietary self) (i_unknown self).
Definition set_i_tap_merkle_root (self : Input) (v : option (list byte)) : Input :=
  mkInput (i_non_witness_utxo self) (i_witness_utxo self) (i_partial_sigs self) (i_sighash_type self)
    (i_redeem_script self) (i_witness_script self) (i_bip32_derivation self) (i_final_script_sig self)
    (i_final_script_witness self) (i_ripemd160_preimages self) (i_sha256_preimages self) (i_hash160_preimages
    self) (i_hash256_preimages self) (i_tap_key_sig self) (i_tap_script_sigs self) (i_tap_scripts self)
    (i_tap_key_origins self) (i_tap_internal_key self) v (i_proprietary self) (i_unknown self).
Definition set_i_proprietary (self : Input) (v : list (ProprietaryKey * list byte)) : Input :=
  mkInput (i_non_witness_utxo self) (i_witness_utxo self) (i_partial_sigs self) (i_sighash_type self)
    (i_redeem_script self) (i_witness_script self) (i_bip32_derivation self) (i_final_script_sig self)
    (i_final_script_witness self) (i_ripemd160_preimages self) (i_sha256_preimages self) (i_hash160_preimages
    self) (i_hash256_preimages self) (i_tap_key_sig self) (i_tap_script_sigs self) (i_tap_scripts self)
    (i_tap_key_origins self) (i_tap_internal_key self) (i_tap_merkle_root self) v (i_unknown self).
Definition set_i_unknown (self : Input) (v : list (Key * list byte)) : Input :=
  mkInput (i_non_witness_utxo self) (i_witness_utxo self) (i_partial_sigs self) (i_sighash_type self)
    (i_redeem_script self) (i_witness_script self) (i_bip32_derivation self) (i_final_script_sig self)
    (i_final_script_witness self) (i_ripemd160_preimages self) (i_sha256_preimages self) (i_hash160_preimages
    self) (i_hash256_preimages self) (i_tap_key_sig self) (i_tap_script_sigs self) (i_tap_scripts self)
    (i_tap_key_origins self) (i_tap_internal_key self) (i_tap_merkle_root self) (i_proprietary self) v.

(** ** [PsbtSighashType] *)

Definition psbt_ecdsa_hash_ty (inner : Z) : Result Z EcdsaSighashType := from_standard inner.
Definition psbt_taproot_hash_ty (inner : Z) : Result Z TapSighashType :=
  if 0xff <? inner then Err inner else from_consensus_u8 (wrap 8 inner).
Definition psbt_sighash_from_ecdsa (ty : EcdsaSighashType) : Z := to_u32 ty.
Definition psbt_sighash_from_tap (ty : TapSighashType) : Z := tap_to_u8 ty.

Definition input_ecdsa_hash_ty (self : Input) : Result Z EcdsaSighashType :=
  from_option psbt_ecdsa_hash_ty (Ok EAll) (i_sighash_type self).
Definition input_taproot_hash_ty (self : Input) : Result Z TapSighashType :=
  from_option psbt_taproot_hash_ty (Ok TDefault) (i_sighash_type self).

(** ** The map *)

Definition input_insert_pair (self : Input) (p : Pair) : comp PsbtError Input :=
  let raw_key := pair_key p in
  let raw_value := pair_value p in
  let ty := type_value raw_key in
  if ty =? PSBT_IN_NON_WITNESS_UTXO then
    insert_unkeyed transaction_value (i_non_witness_utxo self) (set_i_non_witness_utxo self) raw_key raw_value
  else if ty =? PSBT_IN_WITNESS_UTXO then
    insert_unkeyed txout_value (i_witness_utxo self) (set_i_witness_utxo self) raw_key raw_value
  else if ty =? PSBT_IN_PARTIAL_SIG then
    insert_keyed pubkey_compare pubkey_value ecdsa_value (i_partial_sigs self) (set_i_partial_sigs self)
      raw_key raw_value
  else if ty =? PSBT_IN_SIGHASH_TYPE then
    insert_unkeyed sighash_type_value (i_sighash_type self) (set_i_sighash_type self) raw_key raw_value
  else if ty =? PSBT_IN_REDEEM_SCRIPT then
    insert_unkeyed bytes_value (i_redeem_script self) (set_i_redeem_script self) raw_key raw_value
  else if ty =? PSBT_IN_WITNESS_SCRIPT then
    insert_unkeyed bytes_value (i_witness_script self) (set_i_witness_script self) raw_key raw_value
  else if ty =? PSBT_IN_BIP32_DERIVATION then
    insert_keyed pk_cmp secp_pubkey_value key_source_value (i_bip32_derivation self) (set_i_bip32_derivation self)
      raw_key raw_value
  else if ty =? PSBT_IN_FINAL_SCRIPTSIG then
    insert_unkeyed bytes_value (i_final_script_sig self) (set_i_final_script_sig self) raw_key raw_value
  else if ty =? PSBT_IN_FINAL_SCRIPTWITNESS then
    insert_unkeyed witness_value (i_final_script_witness self) (set_i_final_script_witness self) raw_key raw_value
  else if ty =? PSBT_IN_RIPEMD160 then
    insert_hash ripemd160.hash 20 Ripemd (i_ripemd160_preimages self) (set_i_ripemd160_preimages self) raw_key raw_value
  else if ty =? PSBT_IN_SHA256 then
    insert_hash Sha256.hash 32 Sha256H (i_sha256_preimages self) (set_i_sha256_preimages self) raw_key raw_value
  else if ty =? PSBT_IN_HASH160 then
    insert_hash hash160.hash 20 Hash160H (i_hash160_preimages self) (set_i_hash160_preimages self) raw_key raw_value
  else if ty =? PSBT_IN_HASH256 then
    insert_hash sha256d 32 Hash256H (i_hash256_preimages self) (set_i_hash256_preimages self) raw_key raw_value
  else if ty =? PSBT_IN_TAP_KEY_SIG then
    insert_unkeyed tap_sig_value (i_tap_key_sig self) (set_i_tap_key_sig self) raw_key raw_value
  else if ty =? PSBT_IN_TAP_SCRIPT_SIG then
    insert_keyed key_leaf_compare key_leaf_value tap_sig_value (i_tap_script_sigs self) (set_i_tap_script_sigs self)
      raw_key raw_value
  else if ty =? PSBT_IN_TAP_LEAF_SCRIPT then
    insert_keyed control_block_compare control_block_value versioned_script_value (i_tap_scripts self) (set_i_tap_scripts self)
      raw_key raw_value
  else if ty =? PSBT_IN_TAP_BIP32_DERIVATION then
    insert_keyed xonly_cmp xonly_value tap_origin_value (i_tap_key_origins self) (set_i_tap_key_origins self)
      raw_key raw_value
  else if ty =? PSBT_IN_TAP_INTERNAL_KEY then
    insert_unkeyed xonly_value (i_tap_internal_key self) (set_i_tap_internal_key self) raw_key raw_value
  else if ty =? PSBT_IN_TAP_MERKLE_ROOT then
    insert_unkeyed (hash_value 32) (i_tap_merkle_root self) (set_i_tap_merkle_root self) raw_key raw_value
  else if ty =? PSBT_IN_PROPRIETARY then
    insert_proprietary (i_proprietary self) (set_i_proprietary self) raw_key raw_value
  else insert_unknown (i_unknown self) (set_i_unknown self) raw_key raw_value.

Definition input_combine (self other : Input) : Input :=
  let self := set_i_non_witness_utxo self (combine_field (i_non_witness_utxo self) (i_non_witness_utxo other)) in
  let self := match i_witness_utxo self, i_witness_utxo other with
              | None, Some witness_utxo => set_i_non_witness_utxo (set_i_witness_utxo self (Some witness_utxo)) None
              | _, _ => self
              end in
  let self := set_i_partial_sigs self (map_extend pubkey_compare (i_partial_sigs self) (i_partial_sigs other)) in
  let self := set_i_bip32_derivation self (map_extend pk_cmp (i_bip32_derivation self) (i_bip32_derivation other)) in
  let self := set_i_ripemd160_preimages self (map_extend bytes_compare (i_ripemd160_preimages self) (i_ripemd160_preimages other)) in
  let self := set_i_sha256_preimages self (map_extend bytes_compare (i_sha256_preimages self) (i_sha256_preimages other)) in
  let self := set_i_hash160_preimages self (map_extend bytes_compare (i_hash160_preimages self) (i_hash160_preimages other)) in
  let self := set_i_hash256_preimages self (map_extend bytes_compare (i_hash256_preimages self) (i_hash256_preimages other)) in
  let self := set_i_tap_script_sigs self (map_extend key_leaf_compare (i_tap_script_sigs self) (i_tap_script_sigs other)) in
  let self := set_i_tap_scripts self (map_extend control_block_compare (i_tap_scripts self) (i_tap_scripts other)) in
  let self := set_i_tap_key_origins self (map_extend xonly_cmp (i_tap_key_origins self) (i_tap_key_origins other)) in
  let self := set_i_proprietary self (map_extend proprietary_compare (i_proprietary self) (i_proprietary other)) in
  let self := set_i_unknown self (map_extend key_compare (i_unknown self) (i_unknown other)) in
  let self := set_i_redeem_script self (combine_field (i_redeem_script self) (i_redeem_script other)) in
  let self := set_i_witness_script self (combine_field (i_witness_script self) (i_witness_script other)) in
  let self := set_i_final_script_sig self (combine_field (i_final_script_sig self) (i_final_script_sig other)) in
  let self := set_i_final_script_witness self (combine_field (i_final_script_witness self) (i_final_script_witness other)) in
  let self := set_i_tap_key_sig self (combine_field (i_tap_key_sig self) (i_tap_key_sig other)) in
  let self := set_i_tap_internal_key self (combine_field (i_tap_internal_key self) (i_tap_internal_key other)) in
  set_i_tap_merkle_root self (combine_field (i_tap_merkle_root self) (i_tap_merkle_root other)).

Definition input_get_pairs (self : Input) : run (list Pair) :=
  rv ← push transaction_value (i_non_witness_utxo self) PSBT_IN_NON_WITNESS_UTXO [];
  rv ← push txout_value (i_witness_utxo self) PSBT_IN_WITNESS_UTXO rv;
  rv ← push_map pubkey_value ecdsa_value (i_partial_sigs self) PSBT_IN_PARTIAL_SIG rv;
  rv ← push sighash_type_value (i_sighash_type self) PSBT_IN_SIGHASH_TYPE rv;
  rv ← push bytes_value (i_redeem_script self) PSBT_IN_REDEEM_SCRIPT rv;
  rv ← push bytes_value (i_witness_script self) PSBT_IN_WITNESS_SCRIPT rv;
  rv ← push_map secp_pubkey_value key_source_value (i_bip32_derivation self) PSBT_IN_BIP32_DERIVATION rv;
  rv ← push bytes_value (i_final_script_sig self) PSBT_IN_FINAL_SCRIPTSIG rv;
  rv ← push witness_value (i_final_script_witness self) PSBT_IN_FINAL_SCRIPTWITNESS rv;
  rv ← push_map (hash_value 20) bytes_value (i_ripemd160_preimages self) PSBT_IN_RIPEMD160 rv;
  rv ← push_map (hash_value 32) bytes_value (i_sha256_preimages self) PSBT_IN_SHA256 rv;
  rv ← push_map (hash_value 20) bytes_value (i_hash160_preimages self) PSBT_IN_HASH160 rv;
  rv ← push_map (hash_value 32) bytes_value (i_hash256_preimages self) PSBT_IN_HASH256 rv;
  rv ← push tap_sig_value (i_tap_key_sig self) PSBT_IN_TAP_KEY_SIG rv;
  rv ← push_map key_leaf_value tap_sig_value (i_tap_script_sigs self) PSBT_IN_TAP_SCRIPT_SIG rv;
  rv ← push_map control_block_value versioned_script_value (i_tap_scripts self) PSBT_IN_TAP_LEAF_SCRIPT rv;
  rv ← push_map xonly_value tap_origin_value (i_tap_key_origins self) PSBT_IN_TAP_BIP32_DERIVATION rv;
  rv ← push xonly_value (i_tap_internal_key self) PSBT_IN_TAP_INTERNAL_KEY rv;
  rv ← push (hash_value 32) (i_tap_merkle_root self) PSBT_IN_TAP_MERKLE_ROOT rv;
  rv ← push_proprietary (i_proprietary self) rv;
  push_unknown (i_unknown self) rv.

(** [impl_psbtmap_ser_de_serialize!(Input)] *)
Definition input_decode : PDecoder Input := decode_map input_insert_pair default_input.
Definition input_serialize (self : Input) : run (list byte) := serialize_map (input_get_pairs self).
Definition input_deserialize (bytes : list byte) : comp PsbtError Input :=
  '(rv, decoder) ← pslice input_decode bytes; Val rv.
End input.

(** ** Inputs round trip *)

Definition known_input (ty : Z) : bool :=
  existsb (Z.eqb ty) [0; 1; 2; 3; 4; 5; 6; 7; 8; 10; 11; 12; 13; 19; 20; 21; 22; 23; 24; 0xFC].

(** Compute the fields of a record that is known. *)
Ltac norm_input :=
  cbv [set_i_non_witness_utxo set_i_witness_utxo set_i_partial_sigs set_i_sighash_type set_i_redeem_script
    set_i_witness_script set_i_bip32_derivation set_i_final_script_sig set_i_final_script_witness
    set_i_ripemd160_preimages set_i_sha256_preimages set_i_hash160_preimages set_i_hash256_preimages
    set_i_tap_key_sig set_i_tap_script_sigs set_i_tap_scripts set_i_tap_key_origins set_i_tap_internal_key
    set_i_tap_merkle_root set_i_proprietary set_i_unknown i_non_witness_utxo i_witness_utxo i_partial_sigs
    i_sighash_type i_redeem_script i_witness_script i_bip32_derivation i_final_script_sig
    i_final_script_witness i_ripemd160_preimages i_sha256_preimages i_hash160_preimages i_hash256_preimages
    i_tap_key_sig i_tap_script_sigs i_tap_scripts i_tap_key_origins i_tap_internal_key i_tap_merkle_root
    i_proprietary i_unknown default_input].

Section input_laws.
Context {bm : BuildMode} {C : PsbtCurve} {L : PsbtCurveLaws C}.

#[export] Instance pubkey_compare_total : TotalCompare pubkey_compare.
Proof.
  apply (compare_via (fun k => (compressed k, pk_inner k)) (pair_compare bool_compare pk_cmp)); [apply _| |done].
  intros [] []; naive_solver.
Qed.
#[export] Instance key_leaf_compare_total : TotalCompare key_leaf_compare.
Proof. apply (compare_via id (pair_compare xonly_cmp bytes_compare)); [apply _|done|done]. Qed.
#[export] Instance parity_compare_total : TotalCompare parity_compare.
Proof. apply (compare_via i32_from_parity Z.compare); [apply _|by intros [] []|by intros [] []]. Qed.
#[export] Instance control_block_compare_total : TotalCompare control_block_compare.
Proof.
  apply (compare_via (fun c => (leaf_version c, (cb_parity c, (cb_internal_key c, cb_merkle_branch c))))
    (pair_compare leaf_version_compare (pair_compare parity_compare (pair_compare xonly_cmp branch_compare)))).
  - apply pair_compare_total; [apply _|]. apply pair_compare_total; [apply _|]. apply pair_compare_total; [apply _|].
    apply list_compare_total, _.
  - intros [] []; naive_solver.
  - done.
Qed.

Record input_wf (i : Input) : Prop := {
  iw_non_witness_utxo : opt_wf tx_wf (i_non_witness_utxo i);
  iw_witness_utxo : opt_wf txout_wf (i_witness_utxo i);
  iw_partial_sigs : map_wf pubkey_compare (fun _ => True) (fun _ => True) (i_partial_sigs i);
  iw_sighash_type : opt_wf (in_u 32) (i_sighash_type i);
  iw_bip32_derivation : map_wf pk_cmp (fun _ => True) child_numbers_wf (i_bip32_derivation i);
  iw_final_script_witness : opt_wf witness_wf (i_final_script_witness i);
  iw_ripemd160_preimages : preimages_wf ripemd160.hash 20 (i_ripemd160_preimages i);
  iw_sha256_preimages : preimages_wf Sha256.hash 32 (i_sha256_preimages i);
  iw_hash160_preimages : preimages_wf hash160.hash 20 (i_hash160_preimages i);
  iw_hash256_preimages : preimages_wf sha256d 32 (i_hash256_preimages i);
  iw_tap_script_sigs : map_wf key_leaf_compare key_leaf_wf (fun _ => True) (i_tap_script_sigs i);
  iw_tap_scripts : map_wf control_block_compare control_block_wf versioned_script_wf (i_tap_scripts i);
  iw_tap_key_origins : map_wf xonly_cmp (fun _ => True) tap_origin_wf (i_tap_key_origins i);
  iw_tap_merkle_root : opt_wf (fun h => length h = 32%nat) (i_tap_merkle_root i);
  iw_proprietary : map_wf proprietary_compare proprietary_wf (fun _ => True) (i_proprietary i);
  iw_unknown : map_wf key_compare (fun k => key_fits k /\ known_input (type_value k) = false) (fun _ => True)
                 (i_unknown i);
}.

Lemma unknown_input k raw i : known_input (type_value k) = false ->
  input_insert_pair i (mkPair k raw) = insert_unknown (i_unknown i) (set_i_unknown i) k raw.
Proof.
  unfold known_input, input_insert_pair. cbn [pair_key pair_value existsb]. rewrite !orb_false_iff.
  intros H.
  unfold PSBT_IN_NON_WITNESS_UTXO, PSBT_IN_WITNESS_UTXO, PSBT_IN_PARTIAL_SIG, PSBT_IN_SIGHASH_TYPE,
    PSBT_IN_REDEEM_SCRIPT, PSBT_IN_WITNESS_SCRIPT, PSBT_IN_BIP32_DERIVATION, PSBT_IN_FINAL_SCRIPTSIG,
    PSBT_IN_FINAL_SCRIPTWITNESS, PSBT_IN_RIPEMD160, PSBT_IN_SHA256, PSBT_IN_HASH160, PSBT_IN_HASH256,
    PSBT_IN_TAP_KEY_SIG, PSBT_IN_TAP_SCRIPT_SIG, PSBT_IN_TAP_LEAF_SCRIPT, PSBT_IN_TAP_BIP32_DERIVATION,
    PSBT_IN_TAP_INTERNAL_KEY, PSBT_IN_TAP_MERKLE_ROOT, PSBT_IN_PROPRIETARY.
  repeat match goal with H : _ /\ _ |- _ => let H1 := fresh in destruct H as [H1 H]; rewrite ?H1; clear H1 end. done.
Qed.

Definition input_pushes (i : Input) (rv : list Pair) : run (list Pair) :=
  rv ← push transaction_value (i_non_witness_utxo i) PSBT_IN_NON_WITNESS_UTXO rv;
  rv ← push txout_value (i_witness_utxo i) PSBT_IN_WITNESS_UTXO rv;
  rv ← push_map pubkey_value ecdsa_value (i_partial_sigs i) PSBT_IN_PARTIAL_SIG rv;
  rv ← push sighash_type_value (i_sighash_type i) PSBT_IN_SIGHASH_TYPE rv;
  rv ← push bytes_value (i_redeem_script i) PSBT_IN_REDEEM_SCRIPT rv;
  rv ← push bytes_value (i_witness_script i) PSBT_IN_WITNESS_SCRIPT rv;
  rv ← push_map secp_pubkey_value key_source_value (i_bip32_derivation i) PSBT_IN_BIP32_DERIVATION rv;
  rv ← push bytes_value (i_final_script_sig i) PSBT_IN_FINAL_SCRIPTSIG rv;
  rv ← push witness_value (i_final_script_witness i) PSBT_IN_FINAL_SCRIPTWITNESS rv;
  rv ← push_map (hash_value 20) bytes_value (i_ripemd160_preimages i) PSBT_IN_RIPEMD160 rv;
  rv ← push_map (hash_value 32) bytes_value (i_sha256_preimages i) PSBT_IN_SHA256 rv;
  rv ← push_map (hash_value 20) bytes_value (i_hash160_preimages i) PSBT_IN_HASH160 rv;
  rv ← push_map (hash_value 32) bytes_value (i_hash256_preimages i) PSBT_IN_HASH256 rv;
  rv ← push tap_sig_value (i_tap_key_sig i) PSBT_IN_TAP_KEY_SIG rv;
  rv ← push_map key_leaf_value tap_sig_value (i_tap_script_sigs i) PSBT_IN_TAP_SCRIPT_SIG rv;
  rv ← push_map control_block_value versioned_script_value (i_tap_scripts i) PSBT_IN_TAP_LEAF_SCRIPT rv;
  rv ← push_map xonly_value tap_origin_value (i_tap_key_origins i) PSBT_IN_TAP_BIP32_DERIVATION rv;
  rv ← push xonly_value (i_tap_internal_key i) PSBT_IN_TAP_INTERNAL_KEY rv;
  rv ← push (hash_value 32) (i_tap_merkle_root i) PSBT_IN_TAP_MERKLE_ROOT rv;
  rv ← push_proprietary (i_proprietary i) rv;
  push_unknown (i_unknown i) rv.

Lemma input_emits i : input_wf i -> emits input_insert_pair (fun rv => input_pushes i rv) default_input i.
Proof.
  intros []. destruct i. unfold input_pushes.
  cbn [i_non_witness_utxo i_witness_utxo i_partial_sigs i_sighash_type i_redeem_script i_witness_script
    i_bip32_derivation i_final_script_sig i_final_script_witness i_ripemd160_preimages i_sha256_preimages
    i_hash160_preimages i_hash256_preimages i_tap_key_sig i_tap_script_sigs i_tap_scripts i_tap_key_origins
    i_tap_internal_key i_tap_merkle_root i_proprietary i_unknown] in *.
  emit_next; [emit_opt transaction_value tx_wf set_i_non_witness_utxo|norm_input].
  emit_next; [emit_opt txout_value txout_wf set_i_witness_utxo|norm_input].
  emit_next; [emit_map pubkey_compare pubkey_value ecdsa_value set_i_partial_sigs|norm_input].
  emit_next; [emit_opt sighash_type_value (in_u 32) set_i_sighash_type|norm_input].
  emit_next; [emit_opt (@bytes_value C) (fun _ : list byte => True) set_i_redeem_script|norm_input].
  emit_next; [emit_opt (@bytes_value C) (fun _ : list byte => True) set_i_witness_script|norm_input].
  emit_next; [emit_map pk_cmp secp_pubkey_value key_source_value set_i_bip32_derivation|norm_input].
  emit_next; [emit_opt (@bytes_value C) (fun _ : list byte => True) set_i_final_script_sig|norm_input].
  emit_next; [emit_opt witness_value witness_wf set_i_final_script_witness|norm_input].
  emit_next; [emit_hash ripemd160.hash 19%nat Ripemd set_i_ripemd160_preimages|norm_input].
  emit_next; [emit_hash Sha256.hash 31%nat Sha256H set_i_sha256_preimages|norm_input].
  emit_next; [emit_hash hash160.hash 19%nat Hash160H set_i_hash160_preimages|norm_input].
  emit_next; [emit_hash sha256d 31%nat Hash256H set_i_hash256_preimages|norm_input].
  emit_next; [emit_opt tap_sig_value (fun _ : TaprootSignature => True) set_i_tap_key_sig|norm_input].
  emit_next; [emit_map key_leaf_compare key_leaf_value tap_sig_value set_i_tap_script_sigs|norm_input].
  emit_next; [emit_map control_block_compare control_block_value versioned_script_value set_i_tap_scripts|norm_input].
  emit_next; [emit_map xonly_cmp xonly_value tap_origin_value set_i_tap_key_origins|norm_input].
  emit_next; [emit_opt xonly_value (fun _ : XOnlyPublicKey => True) set_i_tap_internal_key|norm_input].
  emit_next; [emit_opt (hash_value 32) (fun h : list byte => length h = 32%nat) set_i_tap_merkle_root|norm_input].
  emit_next.
  - match goal with |- emits _ _ ?t _ => apply (emits_push_proprietary _ _ _ (set_i_proprietary t)) end; [field..|].
    intros acc k raw Hk. unfold input_insert_pair. cbn [pair_key pair_value]. by rewrite Hk.
  - match goal with |- emits _ _ ?t _ =>
      apply (emits_push_unknown _ known_input _ _ (set_i_unknown t)) end; [field..|].
    intros acc k raw Hk. by rewrite unknown_input.
Qed.
End input_laws.

Section input_claims.
Context {bm : BuildMode} {C : PsbtCurve} {L : PsbtCurveLaws C}.

(** An inserted pair changes one field, to a well-formed value. *)
Lemma input_insert_wf i p : input_wf i -> pair_fits p ->
  match input_insert_pair i p with Val i' => input_wf i' | Throw _ => True | Crash => False end.
Proof.
  intros Hw [Hk Hv]. destruct p as [k raw]. pose proof (pair_value_fits k raw (conj Hk Hv)) as Hr.
  pose proof (pair_key_fits k raw (conj Hk Hv)) as Hkk. cbn [pair_key pair_value] in *.
  pose proof Hw as []. pose proof (unknown_input k raw i) as Hun.
  destruct (known_input (type_value k)) eqn:Ekn.
  2: { rewrite Hun by done. clear Hun.
       pose proof (insert_unknown_inserts known_input (i_unknown i) (set_i_unknown i) k raw Hk Ekn iw_unknown0) as H.
       unfold inserts in H. destruct (insert_unknown _ _ _ _); [|done..]. destruct H as (f & -> & Hf). by split. }
  clear Hun. unfold input_insert_pair. cbn [pair_key pair_value]. unfold known_input in Ekn. cbn [existsb] in Ekn.
  repeat match goal with |- context [if type_value k =? ?n then _ else _] => destruct (Z.eqb_spec (type_value k) n) end.
  - inserted (insert_unkeyed_inserts transaction_value tx_wf (i_non_witness_utxo i) (set_i_non_witness_utxo i) k raw Hr).
  - inserted (insert_unkeyed_inserts txout_value txout_wf (i_witness_utxo i) (set_i_witness_utxo i) k raw Hr).
  - inserted (insert_keyed_inserts pubkey_compare pubkey_value ecdsa_value _ _ _ (set_i_partial_sigs i) k raw Hkk Hr iw_partial_sigs0).
  - inserted (insert_unkeyed_inserts sighash_type_value (in_u 32) (i_sighash_type i) (set_i_sighash_type i) k raw Hr).
  - inserted (insert_unkeyed_inserts bytes_value (fun _ => True) (i_redeem_script i) (set_i_redeem_script i) k raw Hr).
  - inserted (insert_unkeyed_inserts bytes_value (fun _ => True) (i_witness_script i) (set_i_witness_script i) k raw Hr).
  - inserted (insert_keyed_inserts pk_cmp secp_pubkey_value key_source_value _ _ _ (set_i_bip32_derivation i) k raw Hkk Hr iw_bip32_derivation0).
  - inserted (insert_unkeyed_inserts bytes_value (fun _ => True) (i_final_script_sig i) (set_i_final_script_sig i) k raw Hr).
  - inserted (insert_unkeyed_inserts witness_value witness_wf (i_final_script_witness i) (set_i_final_script_witness i) k raw Hr).
  - inserted (insert_hash_inserts ripemd160.hash 20 Ripemd _ (set_i_ripemd160_preimages i) k raw iw_ripemd160_preimages0).
  - inserted (insert_hash_inserts Sha256.hash 32 Sha256H _ (set_i_sha256_preimages i) k raw iw_sha256_preimages0).
  - inserted (insert_hash_inserts hash160.hash 20 Hash160H _ (set_i_hash160_preimages i) k raw iw_hash160_preimages0).
  - inserted (insert_hash_inserts sha256d 32 Hash256H _ (set_i_hash256_preimages i) k raw iw_hash256_preimages0).
  - inserted (insert_unkeyed_inserts tap_sig_value (fun _ => True) (i_tap_key_sig i) (set_i_tap_key_sig i) k raw Hr).
  - inserted (insert_keyed_inserts key_leaf_compare key_leaf_value tap_sig_value _ _ _ (set_i_tap_script_sigs i) k raw Hkk Hr iw_tap_script_sigs0).
  - inserted (insert_keyed_inserts control_block_compare control_block_value versioned_script_value _ _ _ (set_i_tap_scripts i) k raw Hkk Hr iw_tap_scripts0).
  - inserted (insert_keyed_inserts xonly_cmp xonly_value tap_origin_value _ _ _ (set_i_tap_key_origins i) k raw Hkk Hr iw_tap_key_origins0).
  - inserted (insert_unkeyed_inserts xonly_value (fun _ => True) (i_tap_internal_key i) (set_i_tap_internal_key i) k raw Hr).
  - inserted (insert_unkeyed_inserts (hash_value 32) (fun h => length h = 32%nat) (i_tap_merkle_root i) (set_i_tap_merkle_root i) k raw Hr).
  - inserted (insert_proprietary_inserts (i_proprietary i) (set_i_proprietary i) k raw Hkk iw_proprietary0).
  - exfalso. unfold PSBT_IN_NON_WITNESS_UTXO, PSBT_IN_WITNESS_UTXO, PSBT_IN_PARTIAL_SIG, PSBT_IN_SIGHASH_TYPE,
    PSBT_IN_REDEEM_SCRIPT, PSBT_IN_WITNESS_SCRIPT, PSBT_IN_BIP32_DERIVATION, PSBT_IN_FINAL_SCRIPTSIG,
    PSBT_IN_FINAL_SCRIPTWITNESS, PSBT_IN_RIPEMD160, PSBT_IN_SHA256, PSBT_IN_HASH160, PSBT_IN_HASH256,
    PSBT_IN_TAP_KEY_SIG, PSBT_IN_TAP_SCRIPT_SIG, PSBT_IN_TAP_LEAF_SCRIPT, PSBT_IN_TAP_BIP32_DERIVATION,
    PSBT_IN_TAP_INTERNAL_KEY, PSBT_IN_TAP_MERKLE_ROOT, PSBT_IN_PROPRIETARY in *. lia.
Qed.

Lemma default_input_wf : input_wf default_input.
Proof. split; try done; split; constructor. Qed.

Lemma input_roundtrip i ps rest : input_wf i -> input_get_pairs i = Ret ps -> Forall pair_fits ps ->
  Z.of_nat (length (pairs_bytes ps)) < 2 ^ 64 ->
  input_serialize i = Ret (pairs_bytes ps ++ [Byte.x00]) /\
  pslice input_decode (pairs_bytes ps ++ Byte.x00 :: rest) = Val (i, rest).
Proof.
  intros Hw Hg Hp Hl. split; [unfold input_serialize; rewrite Hg; apply serialize_map_eq|].
  destruct (input_emits i Hw) as (qs & Hq & Hi). specialize (Hq []). cbn [app] in Hq.
  change (input_get_pairs i) with (input_pushes i []) in Hg. rewrite Hq in Hg. injection Hg as ->.
  unfold input_decode. rewrite decode_map_pairs by done. by rewrite Hi.
Qed.

Lemma input_get_pairs_total i : input_wf i -> exists ps, input_get_pairs i = Ret ps.
Proof. intros Hw. destruct (input_emits i Hw) as (qs & Hq & _). exists qs. apply (Hq []). Qed.

Lemma input_decode_keeps bs : Z.of_nat (length bs) < 2 ^ 64 ->
  match pslice input_decode bs with
  | Val (i, rest) => input_wf i /\ (length rest < length bs)%nat
  | Throw _ => True
  | Crash => False
  end.
Proof.
  intros Hl. apply (decode_map_keeps input_insert_pair input_wf); [|done|apply default_input_wf].
  intros. by apply input_insert_wf.
Qed.
End input_claims.

(** ** Combining *)

Section input_combining.
Context {bm : BuildMode} {C : PsbtCurve} {L : PsbtCurveLaws C}.

(** [combine] keeps what the input has, adds what the other one has, and keeps a single kind of UTXO
    when the witness UTXO is new. *)
Lemma input_combine_eq i j : input_combine i j =
  mkInput
    (match i_witness_utxo i, i_witness_utxo j with
     | None, Some _ => None
     | _, _ => combine_field (i_non_witness_utxo i) (i_non_witness_utxo j)
     end)
    (combine_field (i_witness_utxo i) (i_witness_utxo j))
    (map_extend pubkey_compare (i_partial_sigs i) (i_partial_sigs j))
    (i_sighash_type i)
    (combine_field (i_redeem_script i) (i_redeem_script j))
    (combine_field (i_witness_script i) (i_witness_script j))
    (map_extend pk_cmp (i_bip32_derivation i) (i_bip32_derivation j))
    (combine_field (i_final_script_sig i) (i_final_script_sig j))
    (combine_field (i_final_script_witness i) (i_final_script_witness j))
    (map_extend bytes_compare (i_ripemd160_preimages i) (i_ripemd160_preimages j))
    (map_extend bytes_compare (i_sha256_preimages i) (i_sha256_preimages j))
    (map_extend bytes_compare (i_hash160_preimages i) (i_hash160_preimages j))
    (map_extend bytes_compare (i_hash256_preimages i) (i_hash256_preimages j))
    (combine_field (i_tap_key_sig i) (i_tap_key_sig j))
    (map_extend key_leaf_compare (i_tap_script_sigs i) (i_tap_script_sigs j))
    (map_extend control_block_compare (i_tap_scripts i) (i_tap_scripts j))
    (map_extend xonly_cmp (i_tap_key_origins i) (i_tap_key_origins j))
    (combine_field (i_tap_internal_key i) (i_tap_internal_key j))
    (combine_field (i_tap_merkle_root i) (i_tap_merkle_root j))
    (map_extend proprietary_compare (i_proprietary i) (i_proprietary j))
    (map_extend key_compare (i_unknown i) (i_unknown j)).
Proof. destruct i as [nw [wu|]], j as [nw' [wu'|]]; vm_compute; reflexivity. Qed.

Lemma input_combine_wf i j : input_wf i -> input_wf j -> input_wf (input_combine i j).
Proof.
  intros [] []. rewrite input_combine_eq. split; simpl;
    try (apply map_extend_good; [apply _|done|done]); try by apply combine_field_wf.
  - case_match; [by apply combine_field_wf|]. case_match; [done|by apply combine_field_wf].
  - done.
Qed.

Lemma input_combine_self i : input_wf i -> input_combine i i = i.
Proof.
  intros []. rewrite input_combine_eq.
  rewrite !map_extend_self by (apply _ || match goal with H : map_wf _ _ _ ?m |- ordered _ ?m => apply H
                                                   | H : preimages_wf _ _ ?m |- ordered _ ?m => apply H end).
  rewrite !combine_field_self. destruct i as [nw [|]]; reflexivity.
Qed.
End input_combining.
