(* ===== verification/Psbt.v ===== *)
(** * Partially signed transactions ([psbt/mod.rs], [psbt/map/global.rs], [psbt/serialize.rs])

    The [Psbt] itself, its global map, and its serialisation: magic, separator, global map, one map
    per input and one per output. *)

From Stdlib Require Import ZArith Lia Sorted.
From Stdlib Require Strings.String.
From coqutil Require Import Byte Word.LittleEndianList.
From stdpp Require Import base tactics option list numbers.
From S2P Require Import Prelude Io Encode HashEngine Sha256 Sha256t Ripemd160 Taproot TapTree TapSpend OrdMap Witness LockTime Script ScriptKinds Transaction Sighash Signatures Base58 Keys DerivationPath Bip32 PsbtRaw TapTreeBytes PsbtFields PsbtMap PsbtOutput PsbtInput.
Import String.StringSyntax.

#[local] Open Scope Z_scope.
#[local] Open Scope psbt_scope.
#[local] Opaque sha256d hash160.hash ripemd160.hash Sha256.hash.

Definition PSBT_GLOBAL_UNSIGNED_TX : Z := 0x00.
Definition PSBT_GLOBAL_XPUB : Z := 0x01.
Definition PSBT_GLOBAL_VERSION : Z := 0xFB.
Definition PSBT_GLOBAL_PROPRIETARY : Z := 0xFC.

(** The transaction without its witnesses, also when it has no inputs. *)
Definition unsigned_tx_decode : Decoder Transaction :=
  version ← consensus_decode Version;
  input ← consensus_decode (vec TxInC);
  output ← consensus_decode (vec TxOutC);
  lock_time ← consensus_decode Abs.codec;
  mret (mkTx version lock_time input output).

(** The four parts in sequence. *)
Definition unsigned_tx_encode (tx : Transaction) : list byte * Z :=
  consensus_encode Version (version tx) +++ consensus_encode (vec TxInC) (input tx)
    +++ consensus_encode (vec TxOutC) (output tx) +++ consensus_encode Abs.codec (lock_time tx).
Definition UnsignedTxC : Consensus Transaction := simple unsigned_tx_encode unsigned_tx_decode.

Section psbt.
Context {bm : BuildMode} {C : PsbtCurve}.

Record Psbt := mkPsbt {
  unsigned_tx : Transaction;
  p_version : Z;
  p_xpub : list (Xpub * KeySource);
  p_proprietary : list (ProprietaryKey * list byte);
  p_unknown : list (Key * list byte);
  inputs : list Input;
  outputs : list Output;
}.

(** The derived order of extended public keys. *)
Definition network_kind_compare (a b : NetworkKind) : comparison :=
  match a, b with Main, Test => Lt | Test, Main => Gt | _, _ => Eq end.
Definition child_number_compare (a b : ChildNumber) : comparison :=
  match a, b with
  | Normal i, Normal j => i ?= j
  | Hardened i, Hardened j => i ?= j
  | Normal _, Hardened _ => Lt
  | Hardened _, Normal _ => Gt
  end.
Definition xpub_compare (a b : Xpub) : comparison :=
  then_cmp (network_kind_compare (pk_network a) (pk_network b))
    (then_cmp (pk_depth a ?= pk_depth b)
       (then_cmp (bytes_compare (pk_parent_fingerprint a) (pk_parent_fingerprint b))
          (then_cmp (child_number_compare (pk_child_number a) (pk_child_number b))
             (then_cmp (pk_cmp (xpub_key a) (xpub_key b)) (bytes_compare (pk_chain_code a) (pk_chain_code b)))))).

(** ** The global map *)

Definition unsigned_tx_bytes (tx : Transaction) : run (list byte) :=
  v ← serialize Version (version tx);
  i ← serialize (vec TxInC) (input tx);
  o ← serialize (vec TxOutC) (output tx);
  l ← serialize Abs.codec (lock_time tx);
  Ret ([] ++ v ++ i ++ o ++ l).

Definition xpub_source_bytes (k : KeySource) : list byte :=
  fold_left (fun ret n => ret ++ le_split 4 (u32_from_child n)) (snd k) (fst k).

Definition push_xpubs (m : list (Xpub * KeySource)) (rv : list Pair) : run (list Pair) :=
  fold_left (fun rv e => rv ← rv; p ← Ret (mkPair (mkKey PSBT_GLOBAL_XPUB (xpub_encode (fst e)))
                                             (xpub_source_bytes (snd e))); Ret (rv ++ [p])) m (Ret rv).

Definition push_version (version : Z) (rv : list Pair) : run (list Pair) :=
  Ret (if 0 <? version then rv ++ [mkPair (mkKey PSBT_GLOBAL_VERSION []) (le_split 4 version)] else rv).

Definition push_unsigned_tx (tx : Transaction) (rv : list Pair) : run (list Pair) :=
  ret ← unsigned_tx_bytes tx; Ret (rv ++ [mkPair (mkKey PSBT_GLOBAL_UNSIGNED_TX []) ret]).

Definition global_get_pairs (self : Psbt) : run (list Pair) :=
  rv ← push_unsigned_tx (unsigned_tx self) [];
  rv ← push_xpubs (p_xpub self) rv;
  rv ← push_version (p_version self) rv;
  rv ← push_proprietary (p_proprietary self) rv;
  push_unknown (p_unknown self) rv.

(** The local variables of [decode_global]. *)
Record Globals := mkGlobals {
  g_tx : option Transaction;
  g_version : option Z;
  g_unknowns : list (Key * list byte);
  g_xpub_map : list (Xpub * KeySource);
  g_proprietary : list (ProprietaryKey * list byte);
}.

Definition insert_unsigned_tx (g : Globals) (k : Key) (value : list byte) : comp PsbtError Globals :=
  match key k with
  | [] =>
      match g_tx g with
      | None =>
          '(tx, position) ← of_result (map_err ConsensusEncoding
                              (deserialize_partial UnsignedTxC value));
          if negb (position =? Z.of_nat (length value)) then Throw PartialDataConsumption
          else Val (mkGlobals (Some tx) (g_version g) (g_unknowns g) (g_xpub_map g) (g_proprietary g))
      | Some _ => Throw (DuplicateKey k)
      end
  | _ => Throw (InvalidKey k)
  end.

(** [while let Ok(index) = u32::consensus_decode(&mut decoder)] *)
Fixpoint read_indices (fuel : nat) (decoder : list byte) (path : list ChildNumber) : list ChildNumber :=
  match fuel with
  | O => path
  | S fuel => match on_slice (consensus_decode u32) decoder with
              | Ok (index, decoder) => read_indices fuel decoder (path ++ [child_from_u32 index])
              | Err _ => path
              end
  end.

Definition insert_xpub (g : Globals) (k : Key) (value : list byte) : comp PsbtError Globals :=
  match key k with
  | [] => Throw (XPubKey "Xpub global key must contain serialized Xpub data")
  | _ =>
      xpub ← match xpub_decode (key k) with
             | Val x => Val x
             | Throw _ => Throw (XPubKey "Can't deserialize ExtendedPublicKey from global XPUB key data")
             | Crash => Crash
             end;
      if (length value =? 0)%nat || negb (length value mod 4 =? 0)%nat
      then Throw (XPubKey "Incorrect length of global xpub derivation data") else
      '(fingerprint, decoder) ← match on_slice (read_slice 4) value with
                                | Ok p => Val p
                                | Err _ => Throw (XPubKey "Can't read global xpub fingerprint")
                                end;
      let derivation := read_indices (length decoder) decoder [] in
      match map_get xpub_compare xpub (g_xpub_map g) with
      | Some _ => Throw (XPubKey "Repeated global xpub key")
      | None => Val (mkGlobals (g_tx g) (g_version g) (g_unknowns g)
                       (map_insert xpub_compare xpub (fingerprint, derivation) (g_xpub_map g)) (g_proprietary g))
      end
  end.

Definition insert_version (g : Globals) (k : Key) (value : list byte) : comp PsbtError Globals :=
  match key k with
  | [] =>
      match g_version g with
      | None =>
          if negb (length value =? 4)%nat
          then Throw (VersionError "invalid global version value length (must be 4 bytes)") else
          '(version, decoder) ← of_result (map_err ConsensusEncoding (on_slice (consensus_decode u32) value));
          if negb (version =? 0) then Throw (VersionError "PSBT versions greater than 0 are not supported")
          else Val (mkGlobals (g_tx g) (Some version) (g_unknowns g) (g_xpub_map g) (g_proprietary g))
      | Some _ => Throw (DuplicateKey k)
      end
  | _ => Throw (InvalidKey k)
  end.

Definition global_insert (g : Globals) (p : Pair) : comp PsbtError Globals :=
  let k := pair_key p in
  let value := pair_value p in
  let ty := type_value k in
  if ty =? PSBT_GLOBAL_UNSIGNED_TX then insert_unsigned_tx g k value
  else if ty =? PSBT_GLOBAL_XPUB then insert_xpub g k value
  else if ty =? PSBT_GLOBAL_VERSION then insert_version g k value
  else if ty =? PSBT_GLOBAL_PROPRIETARY then
    insert_proprietary (g_proprietary g)
      (fun m => mkGlobals (g_tx g) (g_version g) (g_unknowns g) (g_xpub_map g) m) k value
  else insert_unknown (g_unknowns g)
         (fun m => mkGlobals (g_tx g) (g_version g) m (g_xpub_map g) (g_proprietary g)) k value.

Definition default_globals : Globals := mkGlobals None None [] [] [].

Definition decode_global : PDecoder Psbt :=
  g <- with_take MAX_VEC_SIZE (decode_map global_insert default_globals) ;;
  pcomp (match g_tx g with
         | Some tx => Val (mkPsbt tx (from_option id 0 (g_version g)) (g_xpub_map g) (g_proprietary g) (g_unknowns g) [] [])
         | None => Throw MustHaveUnsignedTx
         end).

(** ** The checks on the unsigned transaction *)

Fixpoint check_inputs (ins : list TxIn) : Result PsbtError unit :=
  match ins with
  | [] => Ok tt
  | txin :: ins =>
      if negb (length (script_sig txin) =? 0)%nat then Err UnsignedTxHasScriptSigs
      else if negb (Witness.is_empty (witness txin)) then Err UnsignedTxHasScriptWitnesses
      else check_inputs ins
  end.
Definition unsigned_tx_checks (self : Psbt) : Result PsbtError unit := check_inputs (input (unsigned_tx self)).

Definition from_unsigned_tx (tx : Transaction) : Result PsbtError Psbt :=
  let psbt := mkPsbt tx 0 [] [] [] (replicate (length (input tx)) default_input)
                (replicate (length (output tx)) default_output) in
  _ ← unsigned_tx_checks psbt; Ok psbt.

(** ** Serialisation *)

Definition MAGIC_BYTES : list byte := String.list_byte_of_string "psbt".
Definition PSBT_SEPARATOR : Z := 0xff.

(** [write_all] to a writer that does not fail: the bytes appended, and their number. *)
Definition write_all (w : list byte * Z) (data : list byte) : list byte * Z :=
  (fst w ++ data, snd w + Z.of_nat (length data)).

Definition psbt_serialize_to_writer (self : Psbt) (w : list byte) : run (list byte * Z) :=
  let w := write_all (w, 0) MAGIC_BYTES in
  let w := write_all w [byte.of_Z PSBT_SEPARATOR] in
  g ← serialize_map (global_get_pairs self);
  let w := write_all w g in
  w ← fold_left (fun w i => w ← w; d ← input_serialize i; Ret (write_all w d)) (inputs self) (Ret w);
  fold_left (fun w o => w ← w; d ← output_serialize o; Ret (write_all w d)) (outputs self) (Ret w).

Definition psbt_serialize (self : Psbt) : run (list byte) :=
  '(buf, len) ← psbt_serialize_to_writer self []; Ret buf.

(** [for _ in 0..n { v.push(T::decode(r)?) }] *)
Fixpoint decode_times {A} (n : nat) (d : PDecoder A) (v : list A) : PDecoder (list A) :=
  match n with
  | O => pcomp (Val v)
  | S n => a <- d ;; decode_times n d (v ++ [a])
  end.

Definition psbt_deserialize_from_reader : PDecoder Psbt :=
  magic <- plift (consensus_decode (array 4)) ;;
  if bool_decide (magic <> MAGIC_BYTES) then pcomp (Throw InvalidMagic) else
  separator <- plift (consensus_decode u8) ;;
  if negb (separator =? PSBT_SEPARATOR) then pcomp (Throw InvalidSeparator) else
  global <- decode_global ;;
  _ <- pcomp (of_result (unsigned_tx_checks global)) ;;
  inputs <- decode_times (length (input (unsigned_tx global))) input_decode [] ;;
  outputs <- decode_times (length (output (unsigned_tx global))) output_decode [] ;;
  pcomp (Val (mkPsbt (unsigned_tx global) (p_version global) (p_xpub global) (p_proprietary global)
                (p_unknown global) inputs outputs)).

Definition psbt_deserialize (bytes : list byte) : comp PsbtError Psbt :=
  '(p, rest) ← pslice psbt_deserialize_from_reader bytes; Val p.
End psbt.

(** ** The unsigned transaction *)

Definition unsigned_wf (tx : Transaction) : Prop :=
  in_i 32 (version tx) /\ Abs.wf (lock_time tx) /\
  vec_wf (fun i => txin_base_wf i /\ witness i = Witness.new) (input tx) /\ vec_wf txout_wf (output tx).

#[export] Instance unsigned_tx_decode_Natural : Natural unsigned_tx_decode.
Proof. do 4 (apply natural_bind; [apply _|intros ?]). apply natural_ret. Qed.

Lemma unsigned_bytes tx : bytes_of UnsignedTxC tx =
  bytes_of Version (version tx) ++ bytes_of (vec TxInC) (input tx) ++ bytes_of (vec TxOutC) (output tx)
    ++ bytes_of Abs.codec (lock_time tx).
Proof. reflexivity. Qed.

Lemma unsigned_slice tx rest : unsigned_wf tx -> fits (bytes_of UnsignedTxC tx) ->
  on_slice unsigned_tx_decode (bytes_of UnsignedTxC tx ++ rest) = Ok (tx, rest).
Proof.
  intros (Hv & Hl & Hi & Ho). rewrite unsigned_bytes. unfold fits. rewrite !length_app, <- !app_assoc. intros Hf.
  unfold unsigned_tx_decode.
  rewrite on_slice_bind, (decode_roundtrip (c := Version)) by (done || lia). cbv iota beta.
  rewrite on_slice_bind, (decode_roundtrip (c := vec TxInC)) by (done || lia). cbv iota beta.
  rewrite on_slice_bind, (decode_roundtrip (c := vec TxOutC)) by (done || lia). cbv iota beta.
  rewrite on_slice_bind, (decode_roundtrip (c := Abs.codec)) by (done || lia). by destruct tx.
Qed.

Lemma unsigned_slice_inv bs tx rest : on_slice unsigned_tx_decode bs = Ok (tx, rest) ->
  unsigned_wf tx /\ bs = bytes_of UnsignedTxC tx ++ rest.
Proof.
  unfold unsigned_tx_decode. intros H. dec_inv.
  apply (decode_canonical (c := Version)) in H as [Hv ->].
  apply (decode_canonical (c := vec TxInC)) in H0 as [Hi ->].
  apply (decode_canonical (c := vec TxOutC)) in H1 as [Ho ->].
  apply (decode_canonical (c := Abs.codec)) in H2 as [Hl ->].
  split; [done|]. rewrite unsigned_bytes. by rewrite <- !app_assoc.
Qed.

(** Reading a slice to the end uses that the decoder is natural, not its round trip. *)
#[local] Instance unsigned_codec : Codec UnsignedTxC (fun _ => False).
Proof. split; try done; apply unsigned_tx_decode_Natural. Qed.

Lemma unsigned_partial value : Z.of_nat (length value) < 2 ^ 64 ->
  deserialize_partial UnsignedTxC value =
  match on_slice unsigned_tx_decode value with
  | Ok (a, rest) => Ok (a, Z.of_nat (length value) - Z.of_nat (length rest))
  | Err e => Err e
  end.
Proof. apply (deserialize_partial_slice UnsignedTxC (fun _ => False)). Qed.

Lemma unsigned_tx_bytes_eq {bm : BuildMode} tx : unsigned_wf tx -> unsigned_tx_bytes tx = Ret (bytes_of UnsignedTxC tx).
Proof.
  intros (Hv & Hl & Hi & Ho). unfold unsigned_tx_bytes.
  rewrite (serialize_bytes Version (in_i 32)) by done. msimpl.
  rewrite (serialize_bytes (vec TxInC) _) by done. msimpl.
  rewrite (serialize_bytes (vec TxOutC) _) by done. msimpl.
  by rewrite (serialize_bytes Abs.codec _) by done.
Qed.

(** ** The global map round trips *)

Definition known_global (ty : Z) : bool := existsb (Z.eqb ty) [0; 1; 0xFB; 0xFC].

Section global_laws.
Context {bm : BuildMode} {C : PsbtCurve} {L : PsbtCurveLaws C}.

#[export] Instance xpub_compare_total : TotalCompare xpub_compare.
Proof.
  assert (TotalCompare network_kind_compare) as Hn.
  { apply (compare_via (fun n => match n with Main => 0 | Test => 1 end) Z.compare); [apply _|by intros [] []|by intros [] []]. }
  assert (TotalCompare child_number_compare) as Hc.
  { apply (compare_via (fun c => match c with Normal i => (0, i) | Hardened i => (1, i) end)
             (pair_compare Z.compare Z.compare)); [apply _|intros [] []; naive_solver|by intros [] []]. }
  apply (compare_via (fun x => (pk_network x, (pk_depth x, (pk_parent_fingerprint x, (pk_child_number x,
           (xpub_key x, pk_chain_code x))))))
    (pair_compare network_kind_compare (pair_compare Z.compare (pair_compare bytes_compare
       (pair_compare child_number_compare (pair_compare pk_cmp bytes_compare)))))); [apply _| |done].
  intros [] []; naive_solver.
Qed.

Lemma xpub_source_bytes_eq k : xpub_source_bytes k = fst k ++ path_bytes (snd k).
Proof.
  unfold xpub_source_bytes. destruct k as [f p]. cbn [fst snd]. revert f.
  induction p as [|c p IH]; intros f; [by rewrite app_nil_r|]. cbn [fold_left]. rewrite IH.
  change (path_bytes (c :: p)) with (le_split 4 (u32_from_child c) ++ path_bytes p). by rewrite <- app_assoc.
Qed.

Lemma read_indices_bytes p : forall fuel acc, (length p <= fuel)%nat -> Forall child_wf p ->
  read_indices fuel (path_bytes p) acc = acc ++ p.
Proof.
  induction p as [|c p IH]; intros fuel acc Hf Hp.
  - rewrite app_nil_r. by destruct fuel.
  - destruct fuel as [|fuel]; [simpl in Hf; lia|]. apply Forall_cons_iff in Hp as [Hc Hp].
    change (path_bytes (c :: p)) with (bytes_of u32 (u32_from_child c) ++ path_bytes p).
    destruct (child_u32_roundtrip c Hc) as [Hu Hr]. cbn [read_indices].
    pose proof (u_le_dec 4 (u32_from_child c) (path_bytes p) Hu) as Hd. change (u_le 4) with u32 in Hd. rewrite Hd.
    rewrite Hr, IH by (done || simpl in Hf; lia). by rewrite <- app_assoc.
Qed.

Lemma read_indices_wf fuel : forall d acc, Forall child_wf acc -> Forall child_wf (read_indices fuel d acc).
Proof.
  induction fuel as [|fuel IH]; intros d acc Ha; [done|]. cbn [read_indices].
  destruct (on_slice (consensus_decode u32) d) as [[i d']|] eqn:E; [|done]. apply (u_le_inv 4) in E as [Hi _].
  apply IH, Forall_app. split; [done|]. constructor; [|done]. by apply u32_child_roundtrip.
Qed.

Record globals_wf (g : Globals) : Prop := {
  gw_tx : opt_wf unsigned_wf (g_tx g);
  gw_version : opt_wf (fun v => v = 0) (g_version g);
  gw_unknowns : map_wf key_compare (fun k => key_fits k /\ known_global (type_value k) = false) (fun _ => True)
                  (g_unknowns g);
  gw_xpub : map_wf xpub_compare xpub_wf child_numbers_wf (g_xpub_map g);
  gw_proprietary : map_wf proprietary_compare proprietary_wf (fun _ => True) (g_proprietary g);
}.

Lemma unknown_global k raw g : known_global (type_value k) = false ->
  global_insert g (mkPair k raw) = insert_unknown (g_unknowns g)
    (fun m => mkGlobals (g_tx g) (g_version g) m (g_xpub_map g) (g_proprietary g)) k raw.
Proof.
  unfold known_global, global_insert. cbn [pair_key pair_value existsb]. rewrite !orb_false_iff.
  intros (H0 & H1 & H2 & H3 & _).
  unfold PSBT_GLOBAL_UNSIGNED_TX, PSBT_GLOBAL_XPUB, PSBT_GLOBAL_VERSION, PSBT_GLOBAL_PROPRIETARY.
  by rewrite H0, H1, H2, H3.
Qed.

Lemma emits_unsigned_tx tx g : unsigned_wf tx -> g_tx g = None ->
  emits global_insert (push_unsigned_tx tx) g
    (mkGlobals (Some tx) (g_version g) (g_unknowns g) (g_xpub_map g) (g_proprietary g)).
Proof.
  intros Hw Hn. unfold push_unsigned_tx. rewrite unsigned_tx_bytes_eq by done.
  eexists. split; [done|]. intros [Hp _]%Forall_cons_iff. apply pair_value_fits in Hp. cbn [insert_all].
  change (global_insert g ?p) with (insert_unsigned_tx g (pair_key p) (pair_value p)).
  unfold insert_unsigned_tx. cbn [key pair_key pair_value]. rewrite Hn.
  rewrite unsigned_partial by by apply fits_64.
  rewrite <- (app_nil_r (bytes_of UnsignedTxC tx)) at 1. rewrite unsigned_slice by done.
  cbn [map_err of_result mbind comp_bind length]. by rewrite Z.sub_0_r, Z.eqb_refl.
Qed.

Lemma xpub_value_de (k : KeySource) : child_numbers_wf k ->
  (length (xpub_source_bytes k) =? 0)%nat || negb (length (xpub_source_bytes k) mod 4 =? 0)%nat = false /\
  on_slice (read_slice 4) (xpub_source_bytes k) = Ok (fst k, path_bytes (snd k)).
Proof.
  intros [Hf Hp]. rewrite xpub_source_bytes_eq. rewrite on_slice_read_app by done. split; [|done].
  rewrite length_app, path_bytes_length, Hf.
  replace (4 + 4 * length (snd k))%nat with ((1 + length (snd k)) * 4)%nat by lia.
  rewrite Nat.Div0.mod_mul. done.
Qed.

Lemma emits_xpubs m t : map_wf xpub_compare xpub_wf child_numbers_wf m -> g_xpub_map t = [] ->
  emits global_insert (push_xpubs m) t (mkGlobals (g_tx t) (g_version t) (g_unknowns t) m (g_proprietary t)).
Proof.
  intros [Ho Hf] Hn.
  pose (set := fun m => mkGlobals (g_tx t) (g_version t) (g_unknowns t) m (g_proprietary t)).
  replace t with (set []) at 1 by (destruct t; simpl in *; by subst).
  apply (emits_entries global_insert xpub_compare (fun e => Ret (mkPair (mkKey PSBT_GLOBAL_XPUB (xpub_encode (fst e)))
    (xpub_source_bytes (snd e)))) (fun p => xpub_wf (fst p) /\ child_numbers_wf (snd p)) set) with (acc := []); [|done|done].
  intros [x k] [Hx Hk]. cbn [fst snd] in *. eexists. split; [done|]. intros Hp acc Hg.
  change (global_insert (set acc) ?p) with (insert_xpub (set acc) (pair_key p) (pair_value p)).
  unfold insert_xpub. cbn [key pair_key pair_value].
  pose proof (xpub_layout_length x Hx) as Hl. rewrite xpub_encode_layout by done.
  destruct (xpub_layout x) as [|b l] eqn:El; [done|]. rewrite <- El.
  rewrite (proj2 (xpub_decode_iff (xpub_layout x) x)) by done. cbn [mbind comp_bind].
  destruct (xpub_value_de k Hk) as [-> ->]. cbn [mbind comp_bind]. cbv iota beta.
  change (g_xpub_map (set acc)) with acc. rewrite Hg.
  rewrite read_indices_bytes by (rewrite ?path_bytes_length; lia || apply Hk). by destruct k.
Qed.

Lemma global_insert_wf g p : globals_wf g -> pair_fits p ->
  match global_insert g p with Val g' => globals_wf g' | Throw _ => True | Crash => False end.
Proof.
  intros Hw [Hk Hv]. destruct p as [k raw]. pose proof (pair_value_fits k raw (conj Hk Hv)) as Hr.
  pose proof (pair_key_fits k raw (conj Hk Hv)) as Hkk. cbn [pair_key pair_value] in *.
  pose proof Hw as [Ht Hve Hu Hx Hp]. pose proof (unknown_global k raw g) as Hun.
  destruct (known_global (type_value k)) eqn:Ekn.
  2: { rewrite Hun by done. inserted (insert_unknown_inserts known_global (g_unknowns g)
         (fun m => mkGlobals (g_tx g) (g_version g) m (g_xpub_map g) (g_proprietary g)) k raw Hk Ekn Hu). }
  clear Hun. unfold global_insert. cbn [pair_key pair_value]. unfold known_global in Ekn. cbn [existsb] in Ekn.
  repeat match goal with |- context [if type_value k =? ?n then _ else _] => destruct (Z.eqb_spec (type_value k) n) end.
  - unfold insert_unsigned_tx. destruct (key k); [|done]. destruct (g_tx g); [done|].
    rewrite unsigned_partial by by apply fits_64.
    destruct (on_slice unsigned_tx_decode raw) as [[tx rest]|] eqn:E; [|done]. cbn [map_err of_result mbind comp_bind].
    destruct (negb _); [done|]. apply unsigned_slice_inv in E as [Htx _]. by split.
  - unfold insert_xpub. destruct (key k) as [|b kb] eqn:Ek; [done|]. rewrite <- Ek.
    pose proof (proj2 (decode_no_panic (key k))).
    destruct (xpub_decode (key k)) as [x| |] eqn:Ex; [|done..]. cbn [mbind comp_bind].
    destruct ((length raw =? 0)%nat || _); [done|].
    destruct (on_slice (read_slice 4) raw) as [[fp d]|] eqn:Ef; [|done]. cbn [mbind comp_bind]. cbv iota beta zeta.
    destruct (map_get _ _ _) eqn:Eg; [done|]. apply xpub_decode_iff in Ex as [Hxw _].
    apply on_slice_read_Ok in Ef as [Hfp _]. destruct Hx as [Hxo Hxf].
    destruct (map_insert_wf xpub_compare (fun p => xpub_wf (fst p) /\ child_numbers_wf (snd p)) x
      (fp, read_indices (length d) d []) _ Hxo Hxf).
    { split; [done|]. split; [done|]. by apply read_indices_wf. }
    by split.
  - unfold insert_version. destruct (key k); [|done]. destruct (g_version g); [done|]. destruct (negb _); [done|].
    destruct (on_slice (consensus_decode u32) raw) as [[v d]|]; [|done]. cbn [map_err of_result mbind comp_bind].
    destruct (Z.eqb_spec v 0); [|done]. by split.
  - inserted (insert_proprietary_inserts (g_proprietary g)
      (fun m => mkGlobals (g_tx g) (g_version g) (g_unknowns g) (g_xpub_map g) m) k raw Hkk Hp).
  - exfalso. unfold PSBT_GLOBAL_UNSIGNED_TX, PSBT_GLOBAL_XPUB, PSBT_GLOBAL_VERSION, PSBT_GLOBAL_PROPRIETARY in *. lia.
Qed.
End global_laws.

(** ** A PSBT round trips *)

Section psbt_laws.
Context {bm : BuildMode} {C : PsbtCurve} {L : PsbtCurveLaws C}.

(** What [deserialize] guarantees of its result: one map per input and output, an unsigned
    transaction without signatures, version 0, ordered maps of well-formed entries. *)
Record psbt_wf (p : Psbt) : Prop := {
  pw_tx : unsigned_wf (unsigned_tx p);
  pw_unsigned : Forall (fun i => script_sig i = []) (input (unsigned_tx p));
  pw_version : p_version p = 0;
  pw_xpub : map_wf xpub_compare xpub_wf child_numbers_wf (p_xpub p);
  pw_proprietary : map_wf proprietary_compare proprietary_wf (fun _ => True) (p_proprietary p);
  pw_unknown : map_wf key_compare (fun k => key_fits k /\ known_global (type_value k) = false) (fun _ => True)
                 (p_unknown p);
  pw_inputs : length (inputs p) = length (input (unsigned_tx p)) /\ Forall input_wf (inputs p);
  pw_outputs : length (outputs p) = length (output (unsigned_tx p)) /\ Forall output_wf (outputs p);
}.

(** The size limits of the format: every pair, and the global map as a whole. *)
Definition psbt_fits (p : Psbt) : Prop :=
  (exists ps, global_get_pairs p = Ret ps /\ Forall pair_fits ps /\ Z.of_nat (length (pairs_bytes ps)) < MAX_VEC_SIZE) /\
  Forall (fun i => pairs_fit (input_get_pairs i)) (inputs p) /\
  Forall (fun o => pairs_fit (output_get_pairs o)) (outputs p).

Definition globals_of (p : Psbt) : Globals :=
  mkGlobals (Some (unsigned_tx p)) None (p_unknown p) (p_xpub p) (p_proprietary p).

Lemma global_emits p : psbt_wf p ->
  emits global_insert (fun rv =>
    rv ← push_unsigned_tx (unsigned_tx p) rv;
    rv ← push_xpubs (p_xpub p) rv;
    rv ← push_version (p_version p) rv;
    rv ← push_proprietary (p_proprietary p) rv;
    push_unknown (p_unknown p) rv) default_globals (globals_of p).
Proof.
  intros []. unfold globals_of. emit_next; [by apply emits_unsigned_tx|]. emit_next; [by apply emits_xpubs|].
  emit_next; [rewrite pw_version0; apply emits_ret|]. cbn [g_tx g_version g_unknowns g_xpub_map g_proprietary default_globals].
  emit_next.
  - match goal with |- emits _ _ ?t _ => apply (emits_push_proprietary _ _ _
      (fun m => mkGlobals (g_tx t) (g_version t) (g_unknowns t) (g_xpub_map t) m)) end; [field..|].
    intros acc k raw Hk. unfold global_insert. cbn [pair_key pair_value]. by rewrite Hk.
  - match goal with |- emits _ _ ?t _ => apply (emits_push_unknown _ known_global _ _
      (fun m => mkGlobals (g_tx t) (g_version t) m (g_xpub_map t) (g_proprietary t))) end; [field..|].
    intros acc k raw Hk. by rewrite unknown_global.
Qed.

Lemma pslice_take {A} (d : PDecoder A) limit bs a rest : Natural d ->
  (forall rest, pslice d (bs ++ rest) = Val (a, rest)) -> Z.of_nat (length bs) <= limit ->
  pslice (with_take limit d) (bs ++ rest) = Val (a, rest).
Proof.
  intros Hn Hd Hl.
  assert (forall rest, on_slice d (bs ++ rest) = Ok (Val a, rest)) as Ho.
  { intros r. specialize (Hd r). unfold pslice in Hd. destruct (on_slice d (bs ++ r)) as [[[] ?]|]; try done.
    by injection Hd as -> ->. }
  unfold pslice. by rewrite (with_take_app limit d bs (Val a) rest Ho Hl).
Qed.

Lemma decode_global_Ok p ps rest : psbt_wf p -> global_get_pairs p = Ret ps -> Forall pair_fits ps ->
  Z.of_nat (length (pairs_bytes ps)) < MAX_VEC_SIZE ->
  pslice decode_global (pairs_bytes ps ++ Byte.x00 :: rest) =
  Val (mkPsbt (unsigned_tx p) (p_version p) (p_xpub p) (p_proprietary p) (p_unknown p) [] [], rest).
Proof.
  intros Hw Hg Hp Hl. destruct (global_emits p Hw) as (qs & Hq & Hi). specialize (Hq []). cbn [app] in Hq.
  unfold global_get_pairs in Hg. rewrite Hq in Hg. injection Hg as ->.
  unfold decode_global. rewrite pslice_bind.
  replace (pairs_bytes ps ++ Byte.x00 :: rest) with ((pairs_bytes ps ++ [Byte.x00]) ++ rest) by (by rewrite <- app_assoc).
  rewrite (pslice_take _ _ _ (globals_of p)); [|apply _| |rewrite length_app; simpl; lia].
  - cbn [mbind comp_bind]. rewrite pslice_comp. destruct Hw. by rewrite pw_version0.
  - intros r. rewrite <- app_assoc. cbn [app]. unfold MAX_VEC_SIZE in Hl. rewrite decode_map_pairs by (done || lia).
    by rewrite Hi.
Qed.

Lemma check_inputs_Ok ins : check_inputs ins = Ok tt <->
  Forall (fun i => script_sig i = [] /\ Witness.is_empty (witness i) = true) ins.
Proof.
  induction ins as [|i ins IH]; [by split; [constructor|]|]. cbn [check_inputs]. rewrite Forall_cons_iff.
  destruct (script_sig i); cbn [length Nat.eqb negb]; [|split; [done|intros [[H1 H2] _]; congruence]].
  destruct (Witness.is_empty (witness i)); cbn [negb]; [|split; [done|intros [[H1 H2] _]; congruence]].
  rewrite IH. split; [done|by intros [_ ?]].
Qed.

Lemma unsigned_checks p : psbt_wf p -> check_inputs (input (unsigned_tx p)) = Ok tt.
Proof.
  intros []. apply check_inputs_Ok. destruct pw_tx0 as (_ & _ & [Hi _] & _).
  clear -Hi pw_unsigned0. induction Hi as [|i l [_ Hw] Hl IH]; [constructor|].
  apply Forall_cons_iff in pw_unsigned0 as [Hs Hr]. constructor; [by rewrite Hw|]. by apply IH.
Qed.

(** A list of maps, each of which its decoder reads back. *)
Lemma decode_times_Ok {A} (d : PDecoder A) (enc : A -> list byte) l : forall acc rest,
  Forall (fun a => forall rest, pslice d (enc a ++ rest) = Val (a, rest)) l ->
  pslice (decode_times (length l) d acc) (concat (map enc l) ++ rest) = Val (acc ++ l, rest).
Proof.
  induction l as [|a l IH]; intros acc rest Hl; [simpl; by rewrite pslice_comp, app_nil_r|].
  apply Forall_cons_iff in Hl as [Ha Hl]. cbn [length decode_times map concat].
  rewrite pslice_bind, <- app_assoc, Ha. cbn [mbind comp_bind]. rewrite IH by done. by rewrite <- app_assoc.
Qed.

Lemma fold_write {A} (f : A -> run (list byte)) (enc : A -> list byte) l : forall w n,
  Forall (fun a => f a = Ret (enc a)) l ->
  fold_left (fun w i => w ← w; d ← f i; Ret (write_all w d)) l (Ret (w, n)) =
  Ret (w ++ concat (map enc l), n + Z.of_nat (length (concat (map enc l)))).
Proof.
  induction l as [|a l IH]; intros w n Hl; [simpl; by rewrite app_nil_r, Z.add_0_r|].
  apply Forall_cons_iff in Hl as [Ha Hl]. cbn [fold_left map concat]. msimpl. rewrite Ha. msimpl.
  unfold write_all. cbn [fst snd]. rewrite IH by done. rewrite <- app_assoc, length_app. do 2 f_equal. lia.
Qed.
End psbt_laws.

Section psbt_claims.
Context {bm : BuildMode} {C : PsbtCurve} {L : PsbtCurveLaws C}.

Definition map_bytes (pairs : run (list Pair)) : list byte :=
  match pairs with Ret ps => pairs_bytes ps ++ [Byte.x00] | Panic => [] end.

Lemma input_map_bytes i : input_wf i -> pairs_fit (input_get_pairs i) ->
  input_serialize i = Ret (map_bytes (input_get_pairs i)) /\
  forall rest, pslice input_decode (map_bytes (input_get_pairs i) ++ rest) = Val (i, rest).
Proof.
  intros Hw (ps & Hg & Hp & Hl). unfold map_bytes. rewrite Hg. split; [by apply (input_roundtrip i ps [])|].
  intros rest. rewrite <- app_assoc. by apply input_roundtrip.
Qed.

Lemma output_map_bytes o : output_wf o -> pairs_fit (output_get_pairs o) ->
  output_serialize o = Ret (map_bytes (output_get_pairs o)) /\
  forall rest, pslice output_decode (map_bytes (output_get_pairs o) ++ rest) = Val (o, rest).
Proof.
  intros Hw (ps & Hg & Hp & Hl). unfold map_bytes. rewrite Hg. split; [by apply (output_roundtrip o ps [])|].
  intros rest. rewrite <- app_assoc. by apply output_roundtrip.
Qed.

Lemma Forall_both {A} (P Q R : A -> Prop) l : (forall a, P a -> Q a -> R a) -> Forall P l -> Forall Q l -> Forall R l.
Proof. intros H HP. induction HP as [|a l Ha HP IH]; intros HQ; inversion HQ; subst; constructor; auto. Qed.

Lemma input_maps_bytes l : Forall input_wf l -> Forall (fun i => pairs_fit (input_get_pairs i)) l ->
  Forall (fun i => input_serialize i = Ret (map_bytes (input_get_pairs i)) /\ forall rest, pslice input_decode (map_bytes (input_get_pairs i) ++ rest) = Val (i, rest)) l.
Proof. apply Forall_both. apply input_map_bytes. Qed.

Lemma output_maps_bytes l : Forall output_wf l -> Forall (fun o => pairs_fit (output_get_pairs o)) l ->
  Forall (fun o => output_serialize o = Ret (map_bytes (output_get_pairs o)) /\ forall rest, pslice output_decode (map_bytes (output_get_pairs o) ++ rest) = Val (o, rest)) l.
Proof. apply Forall_both. apply output_map_bytes. Qed.

Definition psbt_bytes (p : Psbt) : list byte :=
  MAGIC_BYTES ++ [byte.of_Z PSBT_SEPARATOR] ++ map_bytes (global_get_pairs p)
    ++ concat (map (fun i => map_bytes (input_get_pairs i)) (inputs p))
    ++ concat (map (fun o => map_bytes (output_get_pairs o)) (outputs p)).

Lemma psbt_serialize_eq p w : psbt_wf p -> psbt_fits p ->
  psbt_serialize_to_writer p w = Ret (w ++ psbt_bytes p, Z.of_nat (length (psbt_bytes p))).
Proof.
  intros Hw ((ps & Hg & Hp & Hl) & Hi & Ho). destruct Hw. unfold psbt_serialize_to_writer, psbt_bytes.
  rewrite Hg, serialize_map_eq. msimpl. unfold write_all at 1 2 3. cbn [fst snd map_bytes].
  rewrite (fold_write input_serialize (fun i => map_bytes (input_get_pairs i))).
  2: { eapply Forall_impl, input_maps_bytes; [|apply pw_inputs0|done]. by intros ? []. }
  msimpl. rewrite (fold_write output_serialize (fun o => map_bytes (output_get_pairs o))).
  2: { eapply Forall_impl, output_maps_bytes; [|apply pw_outputs0|done]. by intros ? []. }
  unfold write_all. cbn [fst snd]. rewrite !length_app, <- !app_assoc, !Nat2Z.inj_add. apply (f_equal Ret), f_equal2; [done|lia].
Qed.

Lemma header_decodes rest : on_slice (consensus_decode (array 4)) (MAGIC_BYTES ++ rest) = Ok (MAGIC_BYTES, rest) /\
  on_slice (consensus_decode u8) ([byte.of_Z PSBT_SEPARATOR] ++ rest) = Ok (PSBT_SEPARATOR, rest).
Proof.
  split; [by apply (decode_roundtrip (c := array 4))|]. by apply (u_le_dec 1).
Qed.

Lemma psbt_reader_Ok p rest : psbt_wf p -> psbt_fits p ->
  pslice psbt_deserialize_from_reader (psbt_bytes p ++ rest) = Val (p, rest).
Proof.
  intros Hw ((ps & Hg & Hp & Hl) & Hi & Ho). unfold psbt_deserialize_from_reader, psbt_bytes.
  rewrite <- !app_assoc. rewrite pslice_bind, pslice_lift, (proj1 (header_decodes _)). cbn [map_err of_result mbind comp_bind].
  rewrite bool_decide_eq_false_2 by (by intros []).
  rewrite pslice_bind, pslice_lift, (proj2 (header_decodes _)). cbn [map_err of_result mbind comp_bind].
  rewrite Z.eqb_refl. cbn [negb]. rewrite Hg. cbn [map_bytes]. rewrite <- app_assoc. cbn [app].
  rewrite pslice_bind, (decode_global_Ok p) by done. cbn [mbind comp_bind].
  rewrite pslice_bind, pslice_comp. unfold unsigned_tx_checks. cbn [unsigned_tx].
  rewrite unsigned_checks by done. cbn [of_result mbind comp_bind]. destruct Hw.
  rewrite pslice_bind. rewrite <- (proj1 pw_inputs0).
  rewrite (decode_times_Ok input_decode (fun i => map_bytes (input_get_pairs i))).
  2: { eapply Forall_impl, input_maps_bytes; [|apply pw_inputs0|done]. by intros ? []. }
  cbn [mbind comp_bind app]. rewrite pslice_bind. rewrite <- (proj1 pw_outputs0).
  rewrite (decode_times_Ok output_decode (fun o => map_bytes (output_get_pairs o))).
  2: { eapply Forall_impl, output_maps_bytes; [|apply pw_outputs0|done]. by intros ? []. }
  cbn [mbind comp_bind app]. rewrite pslice_comp. by destruct p.
Qed.

(** ** Whatever is read is well-formed *)

Lemma decode_times_keeps {A} (d : PDecoder A) (P : A -> Prop) n : forall acc bs,
  (forall bs, Z.of_nat (length bs) < 2 ^ 64 -> match pslice d bs with
     | Val (a, rest) => P a /\ (length rest < length bs)%nat | Throw _ => True | Crash => False end) ->
  Z.of_nat (length bs) < 2 ^ 64 ->
  match pslice (decode_times n d acc) bs with
  | Val (l, rest) => exists l', l = acc ++ l' /\ length l' = n /\ Forall P l' /\ (length rest <= length bs)%nat
  | Throw _ => True
  | Crash => False
  end.
Proof.
  induction n as [|n IH]; intros acc bs Hd Hl; cbn [decode_times].
  - rewrite pslice_comp. exists []. rewrite app_nil_r. by repeat constructor.
  - rewrite pslice_bind. pose proof (Hd bs Hl) as H1. destruct (pslice d bs) as [[a rest]| |]; [|done..].
    destruct H1 as [Ha Hr]. cbn [mbind comp_bind]. specialize (IH (acc ++ [a]) rest Hd ltac:(lia)).
    destruct (pslice (decode_times n d (acc ++ [a])) rest) as [[l r]| |]; [|done..].
    destruct IH as (l' & -> & Hn & Hf & Hr'). exists (a :: l'). rewrite <- app_assoc.
    split; [done|]. split; [simpl; lia|]. split; [by constructor|lia].
Qed.

Lemma pslice_with_take {A} (d : PDecoder A) `{!Natural d} limit bs :
  pslice (with_take limit d) bs =
  match pslice d (take (Z.to_nat limit) bs) with
  | Val (a, rest) => Val (a, rest ++ drop (Z.to_nat limit) bs)
  | Throw e => Throw e
  | Crash => Crash
  end.
Proof. unfold pslice. rewrite on_slice_with_take by done. by destruct (on_slice d _) as [[[] ?]|]. Qed.

Lemma decode_global_keeps bs : Z.of_nat (length bs) < 2 ^ 64 ->
  match pslice decode_global bs with
  | Val (p, rest) => exists g, globals_wf g /\ g_tx g = Some (unsigned_tx p) /\ p_version p = from_option id 0 (g_version g) /\
      p_xpub p = g_xpub_map g /\ p_proprietary p = g_proprietary g /\ p_unknown p = g_unknowns g /\
      (length rest <= length bs)%nat
  | Throw _ => True
  | Crash => False
  end.
Proof.
  intros Hl. unfold decode_global. rewrite pslice_bind.
  assert (globals_wf default_globals) as Hd by (split; try done; split; constructor).
  pose proof (decode_map_keeps global_insert globals_wf (fun rv p => global_insert_wf rv p) default_globals
    (take (Z.to_nat MAX_VEC_SIZE) bs) ltac:(rewrite length_take; lia) Hd) as H.
  rewrite pslice_with_take by apply _.
  destruct (pslice (decode_map global_insert default_globals) _) as [[g rest]| |]; [|done..].
  destruct H as [Hg Hr]. cbn [mbind comp_bind]. rewrite pslice_comp. destruct (g_tx g) as [tx|] eqn:Et; [|done].
  cbn [mbind comp_bind]. exists g. repeat split; try done; try apply Hg. cbn [unsigned_tx].
  rewrite length_take in Hr. rewrite length_app, length_drop. lia.
Qed.

Lemma psbt_reader_keeps bs : Z.of_nat (length bs) < 2 ^ 64 ->
  match pslice psbt_deserialize_from_reader bs with Val (p, _) => psbt_wf p | Throw _ => True | Crash => False end.
Proof.
  intros Hl. unfold psbt_deserialize_from_reader. rewrite pslice_bind, pslice_lift.
  destruct (on_slice (consensus_decode (array 4)) bs) as [[m b1]|] eqn:E1; [|done].
  apply (decode_canonical (c := array 4)) in E1 as [_ ->]. cbn [map_err of_result mbind comp_bind].
  destruct (bool_decide _); [by rewrite pslice_comp|]. rewrite pslice_bind, pslice_lift.
  destruct (on_slice (consensus_decode u8) b1) as [[s b2]|] eqn:E2; [|done].
  apply (u_le_inv 1) in E2 as [_ ->]. cbn [map_err of_result mbind comp_bind].
  destruct (negb _); [by rewrite pslice_comp|]. rewrite !length_app in Hl. rewrite pslice_bind.
  pose proof (decode_global_keeps b2 ltac:(lia)) as Hg.
  destruct (pslice decode_global b2) as [[p b3]| |]; [|done..]. destruct Hg as (g & [] & Et & Ev & Ex & Ep & Eu & Hr).
  cbn [mbind comp_bind]. rewrite pslice_bind, pslice_comp. unfold unsigned_tx_checks.
  destruct (check_inputs (input (unsigned_tx p))) as [[]|] eqn:Ec; [|done]. cbn [of_result mbind comp_bind].
  rewrite pslice_bind.
  pose proof (decode_times_keeps input_decode input_wf (length (input (unsigned_tx p))) [] b3 input_decode_keeps ltac:(lia)) as Hi.
  destruct (pslice (decode_times _ input_decode []) b3) as [[ins b4]| |]; [|done..].
  destruct Hi as (ins' & -> & Hni & Hfi & Hr4). cbn [mbind comp_bind app]. rewrite pslice_bind.
  pose proof (decode_times_keeps output_decode output_wf (length (output (unsigned_tx p))) [] b4 output_decode_keeps ltac:(lia)) as Ho.
  destruct (pslice (decode_times _ output_decode []) b4) as [[outs b5]| |]; [|done..].
  destruct Ho as (outs' & -> & Hno & Hfo & Hr5). cbn [mbind comp_bind app]. rewrite pslice_comp. cbn [mbind comp_bind].
  rewrite Et in gw_tx0. apply check_inputs_Ok in Ec.
  split; cbn [unsigned_tx p_version p_xpub p_proprietary p_unknown inputs outputs]; rewrite ?Ex, ?Ep, ?Eu; try done.
  - eapply Forall_impl; [|exact Ec]. by intros i [? _].
  - rewrite Ev. destruct (g_version g); [exact gw_version0|done].
Qed.
End psbt_claims.

(** ** The claims *)

Section psbt_format.
Context {bm : BuildMode} {C : PsbtCurve} {L : PsbtCurveLaws C}.

Lemma from_unsigned_tx_wf tx p : unsigned_wf tx -> from_unsigned_tx tx = Ok p -> psbt_wf p /\ unsigned_tx p = tx.
Proof.
  intros Ht. unfold from_unsigned_tx, unsigned_tx_checks. cbn [unsigned_tx].
  destruct (check_inputs (input tx)) as [[]|] eqn:Ec; [|done]. intros [= <-]. apply check_inputs_Ok in Ec.
  split; [|done]. split; cbn [unsigned_tx p_version p_xpub p_proprietary p_unknown inputs outputs]; try exact Ht; try by repeat constructor.
  - eapply Forall_impl; [|exact Ec]. by intros i [].
  - rewrite length_replicate. split; [done|]. apply Forall_replicate, default_input_wf.
  - rewrite length_replicate. split; [done|]. apply Forall_replicate, default_output_wf.
Qed.

(** C21: a well-formed PSBT whose pairs fit the size limits of the format serialises, without a panic,
    to the magic, the separator, the global map and one map per input and per output, and
    [serialize_to_writer] reports exactly the number of bytes it appends to the writer;
    [deserialize] reads the PSBT back from these bytes, whatever follows them. *)
Theorem psbt_roundtrip p rest : psbt_wf p -> psbt_fits p ->
  psbt_serialize p = Ret (psbt_bytes p) /\
  (forall w, psbt_serialize_to_writer p w = Ret (w ++ psbt_bytes p, Z.of_nat (length (psbt_bytes p)))) /\
  psbt_deserialize (psbt_bytes p ++ rest) = Val p.
Proof.
  intros Hw Hf. split_and!.
  - unfold psbt_serialize. by rewrite psbt_serialize_eq.
  - intros w. by apply psbt_serialize_eq.
  - unfold psbt_deserialize. by rewrite psbt_reader_Ok.
Qed.

(** An input without a script signature and with an empty witness stack. *)
Definition unsigned_input (i : TxIn) : Prop := script_sig i = [] /\ witness i = witness_of [].

Lemma tx_unsigned_wf tx : tx_wf tx -> Forall unsigned_input (input tx) -> unsigned_wf tx.
Proof.
  intros (Hv & Hl & [Hi Hn] & Ho) Hu. split_and!; try done. split; [|done].
  rewrite List.Forall_forall in *. intros i Hin. split; [by apply Hi|]. by apply Hu.
Qed.

(** The error of the first input that is signed. *)
Definition first_signed (ins : list TxIn) (e : PsbtError) : Prop :=
  exists pre i post, ins = pre ++ i :: post /\ Forall unsigned_input pre /\
    (script_sig i <> [] /\ e = UnsignedTxHasScriptSigs \/
     script_sig i = [] /\ witness i <> witness_of [] /\ e = UnsignedTxHasScriptWitnesses).

Lemma is_empty_spec w : witness_wf w -> Witness.is_empty w = true <-> w = witness_of [].
Proof.
  intros (l & -> & _). unfold Witness.is_empty. cbn [witness_elements witness_of].
  rewrite Z.eqb_eq. split; [destruct l; [done|simpl; lia]|]. intros E. exact (f_equal witness_elements E).
Qed.

Lemma check_inputs_spec ins : Forall (fun i => witness_wf (witness i)) ins ->
  match check_inputs ins with Ok _ => Forall unsigned_input ins | Err e => first_signed ins e end.
Proof.
  induction 1 as [|i ins Hw _ IH]; [constructor|]. cbn [check_inputs].
  destruct (script_sig i) as [|b s] eqn:Es; cbn [length Nat.eqb negb].
  - destruct (Witness.is_empty (witness i)) eqn:Ew; cbn [negb].
    + apply is_empty_spec in Ew; [|done]. destruct (check_inputs ins) as [|e]; [by constructor|].
      destruct IH as (pre & j & post & -> & Hp & He). exists (i :: pre), j, post. split; [done|]. split; [by constructor|done].
    + exists [], i, ins. split; [done|]. split; [constructor|]. right. split_and!; [done| |done].
      intros E. apply is_empty_spec in E; [congruence|done].
  - exists [], i, ins. split; [done|]. split; [constructor|]. left. split; [by rewrite Es|done].
Qed.

(** C22: [deserialize] is total on every byte string: it returns a well-formed PSBT or an error, and no
    assertion, index or overflow check in the parsers it calls panics.  What it returns has one map
    per input and output of a transaction without signatures, version 0, ordered maps, and
    preimages that hash to their keys.  So has what [from_unsigned_tx] builds: of the well-formed
    transactions it accepts exactly those all of whose inputs have an empty script signature and an
    empty witness, and keeps them; otherwise the error says what the first other input has. *)
Theorem psbt_deserialize_safe bs tx : Z.of_nat (length bs) < 2 ^ 64 -> tx_wf tx ->
  match psbt_deserialize bs with Val p => psbt_wf p | Throw _ => True | Crash => False end /\
  match from_unsigned_tx tx with
  | Ok p => Forall unsigned_input (input tx) /\ psbt_wf p /\ unsigned_tx p = tx
  | Err e => first_signed (input tx) e
  end.
Proof.
  intros Hl Ht. split.
  - unfold psbt_deserialize. pose proof (psbt_reader_keeps bs Hl) as H.
    by destruct (pslice psbt_deserialize_from_reader bs) as [[]| |].
  - pose proof (check_inputs_spec _ (witnesses_wf tx Ht)) as Hs.
    destruct (from_unsigned_tx tx) as [p|e] eqn:E; unfold from_unsigned_tx, unsigned_tx_checks in E; cbn [unsigned_tx] in E.
    + destruct (check_inputs (input tx)) as [[]|] eqn:Ec; [|done]. split; [done|].
      apply from_unsigned_tx_wf; [by apply tx_unsigned_wf|]. unfold from_unsigned_tx, unsigned_tx_checks. cbn [unsigned_tx]. by rewrite Ec.
    + destruct (check_inputs (input tx)) as [[]|]; [done|]. by injection E as ->.
Qed.
End psbt_format.

(** ** Witnesses *)

Module ToyPsbt.
Definition point_cmp (a b : ToyKeys.Key) : comparison := `a ?= `b.
Definition x_cmp (a b : Toy.Key) : comparison := `a ?= `b.
#[export] Instance curve : PsbtCurve := {|
  pc_keys := ToyKeys.group; pc_xonly := Toy.curve; pc_sigs := ToySigs.sigs; pk_cmp := point_cmp; xonly_cmp := x_cmp |}.
#[export] Instance curve_laws : PsbtCurveLaws curve.
Proof.
  split; [apply ToyKeys.group_laws|apply Toy.laws|apply ToySigs.sigs_laws| |].
  - apply (compare_via (fun k : ToyKeys.Key => `k) Z.compare); [apply _|apply ToyKeys.toy_key_eq|done].
  - apply (compare_via (fun k : Toy.Key => `k) Z.compare); [apply _|apply Toy.key_eq|done].
Qed.

Definition tx : Transaction :=
  mkTx 2 (Abs.Blocks 0) [mkTxIn (mkOutPoint (replicate 32 Byte.x07) 0) [] 0xffffffff Witness.new]
    [mkTxOut 900 [Byte.x51]].
Definition xpub : Xpub :=
  mkXpub Main 1 [Byte.x01; Byte.x02; Byte.x03; Byte.x04] (Normal 5) (ToyKeys.one_pk) (replicate 32 Byte.x09).
Definition source : KeySource := ([Byte.x01; Byte.x02; Byte.x03; Byte.x04], [Hardened 44; Normal 5]).
Definition psbt : Psbt :=
  mkPsbt tx 0 [(xpub, source)] [] [(mkKey 0x20 [Byte.x01], [Byte.x02])]
    [set_i_sighash_type (set_i_witness_utxo default_input (Some (mkTxOut 1000 [Byte.x51]))) (Some 1)]
    [set_o_redeem_script default_output (Some [Byte.x51])].

(** The same transaction with a witness of one element. *)
Definition signed_tx : Transaction :=
  mkTx 2 (Abs.Blocks 0) [mkTxIn (mkOutPoint (replicate 32 Byte.x07) 0) [] 0xffffffff (witness_of [[Byte.x01]])]
    [mkTxOut 900 [Byte.x51]].

Lemma tx_ok : unsigned_wf tx.
Proof. repeat split; try done; repeat constructor; done. Qed.

Lemma signed_tx_ok : tx_wf signed_tx.
Proof.
  repeat split; try done; repeat constructor; try done. exists [[Byte.x01]]. split; [done|]. repeat constructor; done.
Qed.

#[local] Instance toy_psbt_mode : BuildMode := true.

Lemma psbt_ok : psbt_wf psbt /\ psbt_fits psbt.
Proof.
  split; [split|].
  - apply tx_ok.
  - by repeat constructor.
  - done.
  - split; [by repeat constructor|]. repeat constructor; done.
  - by repeat constructor.
  - split; [by repeat constructor|]. repeat constructor; done.
  - split; [done|]. repeat constructor; done.
  - split; [done|]. repeat constructor; done.
  - split; [|split].
    + eexists. split; [vm_compute; reflexivity|]. split; [|vm_compute; reflexivity].
      repeat constructor; vm_compute; done.
    + repeat constructor. eexists. split; [vm_compute; reflexivity|]. split; [|vm_compute; reflexivity].
      repeat constructor; vm_compute; done.
    + repeat constructor. eexists. split; [vm_compute; reflexivity|]. split; [|vm_compute; reflexivity].
      repeat constructor; vm_compute; done.
Qed.
End ToyPsbt.

Section psbt_witnesses.
#[local] Existing Instance ToyPsbt.toy_psbt_mode.
#[local] Existing Instances ToyPsbt.curve ToyPsbt.curve_laws.

Lemma psbt_roundtrip_witness : psbt_deserialize (psbt_bytes ToyPsbt.psbt ++ [Byte.xff]) = Val ToyPsbt.psbt.
Proof. exact (proj2 (proj2 (psbt_roundtrip ToyPsbt.psbt [Byte.xff] (proj1 ToyPsbt.psbt_ok) (proj2 ToyPsbt.psbt_ok)))). Defined.

Lemma psbt_deserialize_safe_witness :
  match psbt_deserialize MAGIC_BYTES with Val p => psbt_wf p | Throw _ => True | Crash => False end /\
  first_signed (input ToyPsbt.signed_tx) UnsignedTxHasScriptWitnesses.
Proof. exact (psbt_deserialize_safe MAGIC_BYTES ToyPsbt.signed_tx eq_refl ToyPsbt.signed_tx_ok). Defined.
End psbt_witnesses.
