(* ===== verification/PsbtOps.v ===== *)
(** * Combining and extracting ([psbt/mod.rs])

    The roles of BIP 174 that need no keys: [combine], which merges two PSBTs of the same
    transaction, [fee], and the extraction of the final transaction under a fee rate limit. *)

From Stdlib Require Import ZArith Lia Sorted.
From coqutil Require Import Byte Word.LittleEndianList.
From stdpp Require Import base tactics option list numbers.
From S2P Require Import Prelude Io Encode HashEngine Sha256 Sha256t Ripemd160 Taproot TapTree TapSpend OrdMap Witness LockTime Amount Script ScriptKinds Transaction Sighash Signatures Base58 Keys DerivationPath Bip32 PsbtRaw TapTreeBytes PsbtFields PsbtMap PsbtOutput PsbtInput Psbt.

#[local] Open Scope Z_scope.
#[local] Opaque sha256d hash160.hash ripemd160.hash Sha256.hash.

Section ops.
Context {bm : BuildMode} {C : PsbtCurve}.

(** ** Funding outputs and the fee *)

Definition funding_utxo (tx_input : TxIn) (psbt_input : Input) : Result PsbtError TxOut :=
  match i_witness_utxo psbt_input, i_non_witness_utxo psbt_input with
  | Some witness_utxo, _ => Ok witness_utxo
  | None, Some non_witness_utxo =>
      ok_or (output non_witness_utxo !! Z.to_nat (vout (previous_output tx_input))) PsbtUtxoOutOfbounds
  | None, None => Err MissingUtxo
  end.

Definition iter_funding_utxos (self : Psbt) : run (list (Result PsbtError TxOut)) :=
  _ ← assert_ (length (inputs self) =? length (input (unsigned_tx self)))%nat;
  Ret (zip_with funding_utxo (input (unsigned_tx self)) (inputs self)).

Fixpoint add_inputs (total : Z) (utxos : list (Result PsbtError TxOut)) : Result PsbtError Z :=
  match utxos with
  | [] => Ok total
  | u :: utxos => u ← u; total ← ok_or (checked_u64 (total + value u)) FeeOverflow; add_inputs total utxos
  end.
Fixpoint add_outputs (total : Z) (outs : list TxOut) : Result PsbtError Z :=
  match outs with
  | [] => Ok total
  | out :: outs => total ← ok_or (checked_u64 (total + value out)) FeeOverflow; add_outputs total outs
  end.

Definition fee (self : Psbt) : comp PsbtError Z :=
  utxos ← of_run (iter_funding_utxos self);
  ins ← of_result (add_inputs 0 utxos);
  outs ← of_result (add_outputs 0 (output (unsigned_tx self)));
  of_result (ok_or (checked_u64 (ins - outs)) NegativeFee).

(** ** Extraction *)

Inductive ExtractTxError :=
| AbsurdFeeRate (fee_rate : Z) (tx : Transaction)
| MissingInputValue (tx : Transaction)
| SendingTooMuch (psbt : Psbt).

(** [FeeRate::from_sat_per_vb_unchecked(25_000)] *)
Definition DEFAULT_MAX_FEE_RATE : Z := 25000 * (1000 / 4).
Definition FeeRate_MAX : Z := 2 ^ 64 - 1.

Definition final_txin (vin : TxIn) (psbtin : Input) : TxIn :=
  mkTxIn (previous_output vin) (from_option id [] (i_final_script_sig psbtin)) (sequence vin)
    (from_option id Witness.new (i_final_script_witness psbtin)).

(** [iter_mut().zip(inputs)]: the inputs beyond the shorter list stay as they are. *)
Fixpoint fill_inputs (vins : list TxIn) (psbtins : list Input) : list TxIn :=
  match vins, psbtins with
  | vin :: vins, psbtin :: psbtins => final_txin vin psbtin :: fill_inputs vins psbtins
  | _, _ => vins
  end.

Definition internal_extract_tx (self : Psbt) : Transaction :=
  let tx := unsigned_tx self in
  mkTx (version tx) (lock_time tx) (fill_inputs (input tx) (inputs self)) (output tx).

Definition saturating_mul_u64 (a b : Z) : Z := Z.min (a * b) (2 ^ 64 - 1).

Definition internal_extract_tx_with_fee_rate_limit (self : Psbt) (max_fee_rate : Z) : comp ExtractTxError Transaction :=
  fee ← match fee self with
        | Val fee => Val fee
        | Throw MissingUtxo => Throw (MissingInputValue (internal_extract_tx self))
        | Throw NegativeFee => Throw (SendingTooMuch self)
        | Throw FeeOverflow => Throw (AbsurdFeeRate FeeRate_MAX (internal_extract_tx self))
        | _ => Crash
        end;
  let tx := internal_extract_tx self in
  weight ← of_run (weight tx);
  fee_rate ← of_run (if weight =? 0 then Panic else Ret (saturating_mul_u64 fee 1000 / weight));
  if max_fee_rate <? fee_rate then Throw (AbsurdFeeRate fee_rate tx) else Val tx.

Definition extract_tx_fee_rate_limit (self : Psbt) : comp ExtractTxError Transaction :=
  internal_extract_tx_with_fee_rate_limit self DEFAULT_MAX_FEE_RATE.
Definition extract_tx_unchecked_fee_rate (self : Psbt) : Transaction := internal_extract_tx self.

(** ** Combination *)







End ops.

(** ** Combination, specified *)








Section combine_laws.
Context {bm : BuildMode} {C : PsbtCurve} {L : PsbtCurveLaws C}.









End combine_laws.

Section combine_claims.
Context {bm : BuildMode} {C : PsbtCurve} {L : PsbtCurveLaws C}.




















(** ** PSBTs without conflicts *)













End combine_claims.

(** ** The fee and the extracted transaction *)


Section extract_laws.
Context {bm : BuildMode} {C : PsbtCurve} {L : PsbtCurveLaws C}.










End extract_laws.

Section extract_claims.
Context {bm : BuildMode} {C : PsbtCurve} {L : PsbtCurveLaws C}.






End extract_claims.

(** ** Witnesses *)

Section ops_witnesses.
#[local] Existing Instances ToyPsbt.toy_psbt_mode ToyPsbt.curve ToyPsbt.curve_laws.



End ops_witnesses.
