(* ===== verification/PsbtSign.v ===== *)
(** * Signing ([psbt/mod.rs])

    The signer of BIP 174: which output an input spends and how it is signed, the message of each
    input, the search for keys, and [sign], which signs every input it can over one shared
    [SighashCache].  The operations of [secp256k1] that need a secret are the class [Signer];
    the feature [rand-std], which adds randomness to Schnorr signatures, is off. *)

From Stdlib Require Import ZArith Lia.
From coqutil Require Import Byte Word.LittleEndianList.
From stdpp Require Import base tactics option list numbers.
From S2P Require Import Prelude Io Encode HashEngine Sha256 Sha256t Ripemd160 Taproot TapTree TapSpend OrdMap Witness LockTime Script ScriptKinds Transaction Sighash Signatures SighashSpec Base58 Keys DerivationPath Bip32 PsbtRaw TapTreeBytes PsbtFields PsbtMap PsbtOutput PsbtInput Psbt.

#[local] Open Scope Z_scope.
#[local] Opaque sha256d hash160.hash ripemd160.hash Sha256.hash.

(** ** The curve, with secrets *)

Class Signer (C : PsbtCurve) := {
  Keypair : Type;
  keypair_from_secret_key : SecretKey -> Keypair;
  xonly_from_keypair : Keypair -> XOnlyPublicKey;
  add_xonly_tweak : Keypair -> Scalar -> Result SecpError Keypair;
  sign_ecdsa : list byte -> SecretKey -> EcdsaSig;
  sign_schnorr : list byte -> Keypair -> SchnorrSig;
  x_only_public_key : SecpPublicKey -> XOnlyPublicKey * Parity;
  xonly_public_key : XOnlyPublicKey -> Parity -> SecpPublicKey;
}.

(** A point is its x-only key and a parity, and negating a secret changes only the parity. *)
Definition flip (p : Parity) : Parity := match p with Even => Odd | Odd => Even end.
Class SignerLaws {C : PsbtCurve} (G : Signer C) : Prop := {
  xonly_split p par : x_only_public_key (xonly_public_key (fst (x_only_public_key p)) par) =
    (fst (x_only_public_key p), par);
  xonly_join p : xonly_public_key (fst (x_only_public_key p)) (snd (x_only_public_key p)) = p;
  xonly_negate k : x_only_public_key (pk_from_secret_key (sk_negate k)) =
    (fst (x_only_public_key (pk_from_secret_key k)), flip (snd (x_only_public_key (pk_from_secret_key k))));
}.

(** ** A shared cache

    [&mut SighashCache]: the result and the cache afterwards, also after an error. *)

Definition CM (E A : Type) : Type := SighashCache -> comp E A * SighashCache.
#[export] Instance CM_ret {E} : MRet (CM E) := fun _ a c => (Val a, c).
#[export] Instance CM_bind {E} : MBind (CM E) := fun _ _ k m c =>
  match m c with
  | (Val a, c) => k a c
  | (Throw e, c) => (Throw e, c)
  | (Crash, c) => (Crash, c)
  end.
Definition clift {E A} (m : comp E A) : CM E A := fun c => (m, c).
Definition cmap_err {E F A} (f : E -> F) (m : CM E A) : CM F A := fun c =>
  match m c with
  | (Val a, c) => (Val a, c)
  | (Throw e, c) => (Throw (f e), c)
  | (Crash, c) => (Crash, c)
  end.
(** [expect]: an error is a panic. *)
Definition cexpect {E F A} (m : comp E A) : CM F A := fun c =>
  (match m with Val a => Val a | _ => Crash end, c).

Section sign.
Context {bm : BuildMode} {C : PsbtCurve} {G : Signer C}.

(** ** Finding keys *)

Inductive KeyRequest :=
| RequestPubkey (pk : PublicKey)
| RequestBip32 (source : KeySource)
| RequestXOnly (xonly : XOnlyPublicKey).

Inductive GetKeyError := GetKeyBip32 (e : (Bip32Error KeyError Base58.Error)) | NotSupported.

(** [GetKey::get_key], with the error type of the implementations here. *)
Definition GetKey : Type := KeyRequest -> comp GetKeyError (option PrivateKey).

Definition bip32_err {A} (m : comp (Bip32Error KeyError Base58.Error) A) : comp GetKeyError A :=
  match m with Val a => Val a | Throw e => Throw (GetKeyBip32 e) | Crash => Crash end.

Definition xpriv_get_key (self : Xpriv) : GetKey := fun key_request =>
  match key_request with
  | RequestPubkey _ => Throw NotSupported
  | RequestXOnly _ => Throw NotSupported
  | RequestBip32 (fingerprint, path) =>
      if bool_decide (xpriv_fingerprint self = fingerprint) then
        k ← bip32_err (derive_priv self path); Val (Some (to_priv k))
      else
        match path with
        | c :: path =>
            if bool_decide (sk_parent_fingerprint self = fingerprint) && bool_decide (c = sk_child_number self)
            then k ← bip32_err (derive_priv self path); Val (Some (to_priv k))
            else Val None
        | [] => Val None
        end
  end.

(** [BTreeSet<Xpriv>] and [HashSet<Xpriv>], in the order of iteration: the first key that is found
    or error. *)
Fixpoint xpriv_set_get_key (self : list Xpriv) : GetKey := fun key_request =>
  match self with
  | [] => Val None
  | xpriv :: rest =>
      match xpriv_get_key xpriv key_request with
      | Val None => xpriv_set_get_key rest key_request
      | r => r
      end
  end.

Definition pubkey_map_get_key (self : list (PublicKey * PrivateKey)) : GetKey := fun key_request =>
  match key_request with
  | RequestPubkey pk => Val (map_get pubkey_compare pk self)
  | RequestXOnly xonly =>
      let pubkey_even := public_new (xonly_public_key xonly Even) in
      match map_get pubkey_compare pubkey_even self with
      | Some key => Val (Some key)
      | None =>
          let pubkey_odd := public_new (xonly_public_key xonly Odd) in
          match map_get pubkey_compare pubkey_odd self with
          | Some priv_key => Val (Some (negate priv_key))
          | None => Val None
          end
      end
  | RequestBip32 _ => Throw NotSupported
  end.

Definition xonly_map_get_key (self : list (XOnlyPublicKey * PrivateKey)) : GetKey := fun key_request =>
  match key_request with
  | RequestXOnly xonly => Val (map_get xonly_cmp xonly self)
  | RequestPubkey pk =>
      let '(xonly, parity) := x_only_public_key (pk_inner pk) in
      match map_get xonly_cmp xonly self with
      | Some priv_key =>
          let computed_pk := public_key priv_key in
          let '(_, computed_parity) := x_only_public_key (pk_inner computed_pk) in
          Val (Some (if bool_decide (computed_parity <> parity) then negate priv_key else priv_key))
      | None => Val None
      end
  | RequestBip32 _ => Throw NotSupported
  end.

(** ** What an input spends *)

Inductive OutputType := Bare | Wpkh | Wsh | ShWpkh | ShWsh | Sh | Tr.
Inductive SigningAlgorithm := AlgEcdsa | AlgSchnorr.

Definition type_signing_algorithm (self : OutputType) : SigningAlgorithm :=
  match self with
  | Bare | Wpkh | Wsh | ShWpkh | ShWsh | Sh => AlgEcdsa
  | Tr => AlgSchnorr
  end.

Inductive PsbtIndexError := InputsIndex (index length : nat) | TxInputIndex (index length : nat).

Inductive SignError :=
| IndexOutOfBounds (e : PsbtIndexError)
| InvalidSighashType
| MissingInputUtxo
| MissingRedeemScript
| MissingSpendUtxo
| MissingWitnessScript
| MismatchedAlgoKey
| NotEcdsa
| NotWpkh
| SegwitV0Sighash (e : IndexOutOfBoundsError)
| P2wpkhSighash (e : P2wpkhError)
| TaprootSighash (e : SighashTaprootError)
| UnknownOutputType
| KeyNotFound
| WrongSigningAlgorithm
| Unsupported.

Definition check_index_is_within_bounds (self : Psbt) (input_index : nat) : Result PsbtIndexError unit :=
  if (length (inputs self) <=? input_index)%nat then Err (InputsIndex input_index (length (inputs self)))
  else if (length (input (unsigned_tx self)) <=? input_index)%nat
  then Err (TxInputIndex input_index (length (input (unsigned_tx self))))
  else Ok tt.

Definition checked_input (self : Psbt) (input_index : nat) : comp SignError Input :=
  _ ← of_result (map_err IndexOutOfBounds (check_index_is_within_bounds self input_index));
  of_run (index (inputs self) (Z.of_nat input_index)).

Definition spend_utxo (self : Psbt) (input_index : nat) : comp SignError TxOut :=
  inp ← checked_input self input_index;
  match i_witness_utxo inp with
  | Some witness_utxo => Val witness_utxo
  | None =>
      match i_non_witness_utxo inp with
      | Some non_witness_utxo =>
          txin ← of_run (index (input (unsigned_tx self)) (Z.of_nat input_index));
          of_run (index (output non_witness_utxo) (vout (previous_output txin)))
      | None => Throw MissingSpendUtxo
      end
  end.

(** [as_ref().map(f).unwrap_or(false)] *)
Definition opt_test {A} (f : A -> run bool) (o : option A) : run bool :=
  match o with Some a => f a | None => Ret false end.

Definition output_type (self : Psbt) (input_index : nat) : comp SignError OutputType :=
  inp ← checked_input self input_index;
  utxo ← spend_utxo self input_index;
  let spk := script_pubkey utxo in
  wp ← of_run (is_witness_program spk);
  if negb (wp || is_p2sh spk) then Val Bare else
  b ← of_run (is_p2wpkh spk);
  if b : bool then Val Wpkh else
  b ← of_run (is_p2wsh spk);
  if b : bool then Val Wsh else
  if is_p2sh spk then
    b ← of_run (opt_test is_p2wpkh (i_redeem_script inp));
    if b : bool then Val ShWpkh else
    b ← of_run (opt_test is_p2wsh (i_redeem_script inp));
    if b : bool then Val ShWsh else Val Sh
  else
  b ← of_run (is_p2tr spk);
  if b : bool then Val Tr else Throw UnknownOutputType.

Definition signing_algorithm (self : Psbt) (input_index : nat) : comp SignError SigningAlgorithm :=
  output_type ← output_type self input_index; Val (type_signing_algorithm output_type).

(** ** Messages *)

(** [cache.legacy_signature_hash(..).expect("input checked above")] *)
Definition legacy_hash {E} (i : Z) (script : list byte) (ty : Z) : CM E (list byte) := fun c =>
  cexpect (legacy_signature_hash c i script ty) c.
Definition p2wpkh_hash (i : Z) (script : list byte) (v : Z) (ty : EcdsaSighashType) : CM P2wpkhError (list byte) :=
  fun c => p2wpkh_signature_hash c i script v ty.
Definition p2wsh_hash (i : Z) (script : list byte) (v : Z) (ty : EcdsaSighashType) : CM IndexOutOfBoundsError (list byte) :=
  fun c => p2wsh_signature_hash c i script v ty.
Definition taproot_hash (i : Z) (prevs : Prevouts) (leaf_hash : option (list byte)) (ty : TapSighashType) :
    CM SighashTaprootError (list byte) := fun c =>
  match leaf_hash with
  | Some leaf_hash => taproot_script_spend_signature_hash c i prevs leaf_hash ty
  | None => taproot_key_spend_signature_hash c i prevs ty
  end.

Definition sighash_ecdsa (self : Psbt) (input_index : nat) : CM SignError (list byte * EcdsaSighashType) :=
  alg ← clift (signing_algorithm self input_index);
  match alg with
  | AlgSchnorr => clift (Throw WrongSigningAlgorithm)
  | AlgEcdsa =>
      inp ← clift (checked_input self input_index);
      utxo ← clift (spend_utxo self input_index);
      let spk := script_pubkey utxo in
      let i := Z.of_nat input_index in
      hash_ty ← clift (of_result (map_err (fun _ => InvalidSighashType) (input_ecdsa_hash_ty inp)));
      ty ← clift (output_type self input_index);
      match ty with
      | Bare =>
          sighash ← legacy_hash i spk (to_u32 hash_ty);
          mret (sighash, hash_ty)
      | Sh =>
          script_code ← clift (of_result (ok_or (i_redeem_script inp) MissingRedeemScript));
          sighash ← legacy_hash i script_code (to_u32 hash_ty);
          mret (sighash, hash_ty)
      | Wpkh =>
          sighash ← cmap_err P2wpkhSighash (p2wpkh_hash i spk (value utxo) hash_ty);
          mret (sighash, hash_ty)
      | ShWpkh =>
          redeem_script ← clift (match i_redeem_script inp with Some s => Val s | None => Crash end);
          sighash ← cmap_err P2wpkhSighash (p2wpkh_hash i redeem_script (value utxo) hash_ty);
          mret (sighash, hash_ty)
      | Wsh | ShWsh =>
          witness_script ← clift (of_result (ok_or (i_witness_script inp) MissingWitnessScript));
          sighash ← cmap_err SegwitV0Sighash (p2wsh_hash i witness_script (value utxo) hash_ty);
          mret (sighash, hash_ty)
      | Tr => clift (Throw Unsupported)
      end
  end.

(** [(0..n).map(|i| self.spend_utxo(i).ok()).collect()] *)
Fixpoint spend_utxos (self : Psbt) (indices : list nat) : run (list (option TxOut)) :=
  match indices with
  | [] => Ret []
  | i :: indices =>
      u ← match spend_utxo self i with Val u => Ret (Some u) | Throw _ => Ret None | Crash => Panic end;
      us ← spend_utxos self indices;
      Ret (u :: us)
  end.

(** The outputs the signature covers. *)
Definition prev_outs (self : Psbt) (input_index : nat) (hash_ty : TapSighashType) : comp SignError Prevouts :=
  utxos ← of_run (spend_utxos self (seq 0 (length (inputs self))));
  let is_anyone_can_pay := negb (Z.land (psbt_sighash_from_tap hash_ty) 0x80 =? 0) in
  if is_anyone_can_pay then
    u ← of_run (index utxos (Z.of_nat input_index));
    u ← of_result (ok_or u MissingSpendUtxo);
    Val (One (Z.of_nat input_index) u)
  else if forallb (fun u => bool_decide (is_Some u)) utxos then Val (All (omap id utxos))
  else Throw MissingSpendUtxo.

Definition sighash_taproot (self : Psbt) (input_index : nat) (leaf_hash : option (list byte)) :
    CM SignError (list byte * TapSighashType) :=
  alg ← clift (signing_algorithm self input_index);
  match alg with
  | AlgEcdsa => clift (Throw WrongSigningAlgorithm)
  | AlgSchnorr =>
      inp ← clift (checked_input self input_index);
      ty ← clift (output_type self input_index);
      match ty with
      | Tr =>
          hash_ty ← clift (of_result (map_err (fun _ => InvalidSighashType)
                     (psbt_taproot_hash_ty (from_option id (psbt_sighash_from_tap TDefault) (i_sighash_type inp)))));
          prevs ← clift (prev_outs self input_index hash_ty);
          sighash ← cmap_err TaprootSighash (taproot_hash (Z.of_nat input_index) prevs leaf_hash hash_ty);
          mret (sighash, hash_ty)
      | _ => clift (Throw Unsupported)
      end
  end.

(** ** Signing one input *)

Context (k : GetKey).

(** [if let Ok(Some(sk)) = ... else if let Ok(Some(sk)) = ... else continue] *)
Definition find_key (source : KeySource) (other : KeyRequest) : run (option PrivateKey) :=
  match k (RequestBip32 source) with
  | Val (Some sk) => Ret (Some sk)
  | Crash => Panic
  | _ => match k other with
         | Val (Some sk) => Ret (Some sk)
         | Crash => Panic
         | _ => Ret None
         end
  end.

Definition PartialSigs : Type := list (PublicKey * EcdsaSignature).

Fixpoint ecdsa_loop (msg_res : comp SignError (list byte * EcdsaSighashType))
    (entries : list (SecpPublicKey * KeySource)) (sigs : PartialSigs) (used : list PublicKey) :
    comp SignError (list PublicKey) * PartialSigs :=
  match entries with
  | [] => (Val used, sigs)
  | (pk, key_source) :: entries =>
      match find_key key_source (RequestPubkey (public_new pk)) with
      | Panic => (Crash, sigs)
      | Ret None => ecdsa_loop msg_res entries sigs used
      | Ret (Some sk) =>
          match msg_res with
          | Throw e => (Throw e, sigs)
          | Crash => (Crash, sigs)
          | Val (msg, sighash_ty) =>
              let sg := mkEcdsa (sign_ecdsa msg (private_inner sk)) sighash_ty in
              let pk := public_key sk in
              ecdsa_loop msg_res entries (map_insert pubkey_compare pk sg sigs) (used ++ [pk])
          end
      end
  end.

Definition set_input (self : Psbt) (i : nat) (inp : Input) : Psbt :=
  mkPsbt (unsigned_tx self) (p_version self) (p_xpub self) (p_proprietary self) (p_unknown self)
    (<[i := inp]> (inputs self)) (outputs self).

(** The PSBT and the cache after the call. *)
Definition bip32_sign_ecdsa (self : Psbt) (input_index : nat) (cache : SighashCache) :
    comp SignError (list PublicKey) * Psbt * SighashCache :=
  let '(msg_res, cache) := sighash_ecdsa self input_index cache in
  match msg_res, inputs self !! input_index with
  | Crash, _ | _, None => (Crash, self, cache)
  | _, Some inp =>
      let '(r, sigs) := ecdsa_loop msg_res (i_bip32_derivation inp) (i_partial_sigs inp) [] in
      (r, set_input self input_index (set_i_partial_sigs inp sigs), cache)
  end.

Definition keypair_tap_tweak (self : Keypair) (merkle_root : option (list byte)) : run Keypair :=
  let pubkey := xonly_from_keypair self in
  tweak ← to_scalar (from_key_and_tweak pubkey merkle_root);
  match add_xonly_tweak self tweak with Ok tweaked => Ret tweaked | Err _ => Panic end.

Definition xonly_eqb (a b : XOnlyPublicKey) : bool := match xonly_cmp a b with Eq => true | _ => false end.

(** The signature of a key path spend, when it is asked for and missing. *)
Definition key_path (self : Psbt) (input_index : nat) (xonly : XOnlyPublicKey) (leaf_hashes : list (list byte))
    (sk : PrivateKey) (st : Input * list XOnlyPublicKey) : CM SignError (Input * list XOnlyPublicKey) :=
  let '(inp, used) := st in
  match i_tap_internal_key inp with
  | Some internal_key =>
      if xonly_eqb internal_key xonly && (length leaf_hashes =? 0)%nat && negb (bool_decide (is_Some (i_tap_key_sig inp)))
      then
        '(msg, sighash_type) ← sighash_taproot self input_index None;
        key_pair ← clift (of_run (keypair_tap_tweak (keypair_from_secret_key (private_inner sk)) (i_tap_merkle_root inp)));
        let signature := mkTapSig (sign_schnorr msg key_pair) sighash_type in
        mret (set_i_tap_key_sig inp (Some signature), used ++ [internal_key])
      else mret (inp, used)
  | None => mret (inp, used)
  end.

Fixpoint leaf_loop (self : Psbt) (input_index : nat) (xonly : XOnlyPublicKey) (key_pair : Keypair)
    (leaf_hashes : list (list byte)) (inp : Input) : CM SignError Input :=
  match leaf_hashes with
  | [] => mret inp
  | lh :: leaf_hashes =>
      '(msg, sighash_type) ← sighash_taproot self input_index (Some lh);
      let signature := mkTapSig (sign_schnorr msg key_pair) sighash_type in
      leaf_loop self input_index xonly key_pair leaf_hashes
        (set_i_tap_script_sigs inp (map_insert key_leaf_compare (xonly, lh) signature (i_tap_script_sigs inp)))
  end.

(** The signatures of the script path spends that are missing. *)
Definition script_path (self : Psbt) (input_index : nat) (xonly : XOnlyPublicKey) (sk : PrivateKey)
    (st : Input * list XOnlyPublicKey) : CM SignError (Input * list XOnlyPublicKey) :=
  let '(inp, used) := st in
  match map_get xonly_cmp xonly (i_tap_key_origins inp) with
  | Some (leaf_hashes, _) =>
      let leaf_hashes := List.filter (fun lh =>
        negb (bool_decide (is_Some (map_get key_leaf_compare (xonly, lh) (i_tap_script_sigs inp))))) leaf_hashes in
      if (length leaf_hashes =? 0)%nat then mret (inp, used)
      else
        let key_pair := keypair_from_secret_key (private_inner sk) in
        inp ← leaf_loop self input_index xonly key_pair leaf_hashes inp;
        mret (inp, used ++ [fst (x_only_public_key (pk_inner (public_key sk)))])
  | None => mret (inp, used)
  end.

Fixpoint schnorr_loop (self : Psbt) (input_index : nat)
    (entries : list (XOnlyPublicKey * (list (list byte) * KeySource))) (st : Input * list XOnlyPublicKey) :
    CM SignError (Input * list XOnlyPublicKey) :=
  match entries with
  | [] => mret st
  | (xonly, (leaf_hashes, key_source)) :: entries =>
      sk ← clift (of_run (find_key key_source (RequestXOnly xonly)));
      match sk with
      | None => schnorr_loop self input_index entries st
      | Some sk =>
          st ← key_path self input_index xonly leaf_hashes sk st;
          st ← script_path self input_index xonly sk st;
          schnorr_loop self input_index entries st
      end
  end.

(** The input is a clone that is stored back only at the end. *)
Definition bip32_sign_schnorr (self : Psbt) (input_index : nat) (cache : SighashCache) :
    comp SignError (list XOnlyPublicKey) * Psbt * SighashCache :=
  match (inp ← clift (checked_input self input_index);
         schnorr_loop self input_index (i_tap_key_origins inp) (inp, [])) cache with
  | (Val (inp, used), cache) => (Val used, set_input self input_index inp, cache)
  | (Throw e, cache) => (Throw e, self, cache)
  | (Crash, cache) => (Crash, self, cache)
  end.

(** ** Signing all inputs *)

Inductive SigningKeys := KeysEcdsa (keys : list PublicKey) | KeysSchnorr (keys : list XOnlyPublicKey).

Definition comp_map {E A B} (f : A -> B) (m : comp E A) : comp E B := a ← m; Val (f a).

Definition sign_input (self : Psbt) (i : nat) (cache : SighashCache) : comp SignError SigningKeys * Psbt * SighashCache :=
  match signing_algorithm self i with
  | Val AlgEcdsa => let '(r, self, cache) := bip32_sign_ecdsa self i cache in (comp_map KeysEcdsa r, self, cache)
  | Val AlgSchnorr => let '(r, self, cache) := bip32_sign_schnorr self i cache in (comp_map KeysSchnorr r, self, cache)
  | Throw e => (Throw e, self, cache)
  | Crash => (Crash, self, cache)
  end.

Fixpoint sign_loop (indices : list nat) (self : Psbt) (cache : SighashCache) (used : list (nat * SigningKeys))
    (errors : list (nat * SignError)) : run (list (nat * SigningKeys) * list (nat * SignError) * Psbt) :=
  match indices with
  | [] => Ret (used, errors, self)
  | i :: indices =>
      match sign_input self i cache with
      | (Val v, self, cache) => sign_loop indices self cache (map_insert Nat.compare i v used) errors
      | (Throw e, self, cache) => sign_loop indices self cache used (map_insert Nat.compare i e errors)
      | (Crash, _, _) => Panic
      end
  end.

Definition sign (self : Psbt) :
    run (Result (list (nat * SigningKeys) * list (nat * SignError)) (list (nat * SigningKeys)) * Psbt) :=
  let cache := cache_new (unsigned_tx self) in
  '(used, errors, self) ← sign_loop (seq 0 (length (inputs self))) self cache [] [];
  Ret (match errors with [] => Ok used | _ => Err (used, errors) end, self).
End sign.

(** ** Sound caches give the same results *)

Section sim.
Context (ps : list TxOut) (t : Transaction).

Definition both_ok (c1 c2 : SighashCache) : Prop :=
  (cache_ok ps c1 /\ tx c1 = t) /\ (cache_ok ps c2 /\ tx c2 = t).

(** Two computations that agree on the result from any two sound caches of [t]. *)
Definition sim {E A} (m1 m2 : CM E A) : Prop := forall c1 c2, both_ok c1 c2 ->
  fst (m1 c1) = fst (m2 c2) /\ both_ok (snd (m1 c1)) (snd (m2 c2)).

Lemma sim_ret {E A} (a : A) : sim (mret a : CM E A) (mret a).
Proof. by intros c1 c2 H. Qed.
Lemma sim_lift {E A} (m : comp E A) : sim (clift m) (clift m).
Proof. by intros c1 c2 H. Qed.

Lemma sim_bind {E A B} (m1 m2 : CM E A) (k1 k2 : A -> CM E B) :
  sim m1 m2 -> (forall a, sim (k1 a) (k2 a)) -> sim (m1 ≫= k1) (m2 ≫= k2).
Proof.
  intros Hm Hk c1 c2 H. unfold mbind, CM_bind. destruct (Hm c1 c2 H) as [Hr Hc].
  destruct (m1 c1) as [r1 d1], (m2 c2) as [r2 d2]. cbn [fst snd] in *. subst r2. destruct r1; [by apply Hk|done..].
Qed.

Lemma sim_map_err {E F A} (f : E -> F) (m1 m2 : CM E A) : sim m1 m2 -> sim (cmap_err f m1) (cmap_err f m2).
Proof.
  intros Hm c1 c2 H. unfold cmap_err. destruct (Hm c1 c2 H) as [Hr Hc].
  destruct (m1 c1) as [r1 d1], (m2 c2) as [r2 d2]. cbn [fst snd] in *. subst r2. by destruct r1.
Qed.

(** Every request that a sound cache answers is answered alike. *)
Lemma sim_request {E} (m : CM E (list byte)) (wrap : comp E (list byte) -> answer) (q : request) :
  request_ok ps q -> (forall r r', wrap r = wrap r' -> r = r') ->
  (forall c, perform c q = (wrap (fst (m c)), snd (m c))) -> sim m m.
Proof.
  intros Hq Hinj Hm c1 c2 [[Hc1 Ht1] [Hc2 Ht2]].
  destruct (perform_reply ps c1 q Hc1 Hq) as (d1 & E1 & Hd1 & Hx1).
  destruct (perform_reply ps c2 q Hc2 Hq) as (d2 & E2 & Hd2 & Hx2).
  rewrite Hm in E1, E2. injection E1 as E1 E1'. injection E2 as E2 E2'. subst d1 d2. split.
  - apply Hinj. congruence.
  - split; (split; [done|congruence]).
Qed.

Lemma sim_legacy {E} i s ty : 0 <= i -> sim (legacy_hash (E := E) i s ty) (legacy_hash i s ty).
Proof.
  intros Hi. assert (sim (fun c => (legacy_signature_hash c i s ty, c)) (fun c => (legacy_signature_hash c i s ty, c))) as H.
  { apply (sim_request _ LegacyAnswer (LegacyHash i s ty)); [done|by intros ?? [=]|done]. }
  intros c1 c2 Hc. destruct (H c1 c2 Hc) as [Hr _]. cbn [fst snd] in Hr. unfold legacy_hash, cexpect. cbn [fst snd].
  by rewrite Hr.
Qed.
Lemma sim_p2wpkh i s v ty : 0 <= i -> sim (p2wpkh_hash i s v ty) (p2wpkh_hash i s v ty).
Proof.
  intros Hi. apply (sim_request _ P2wpkhAnswer (P2wpkhHash i s v ty)); [done|by intros ?? [=]|].
  intros c. unfold p2wpkh_hash. cbn [perform]. by destruct (p2wpkh_signature_hash c i s v ty).
Qed.
Lemma sim_p2wsh i s v ty : 0 <= i -> sim (p2wsh_hash i s v ty) (p2wsh_hash i s v ty).
Proof.
  intros Hi. apply (sim_request _ P2wshAnswer (P2wshHash i s v ty)); [done|by intros ?? [=]|].
  intros c. unfold p2wsh_hash. cbn [perform]. by destruct (p2wsh_signature_hash c i s v ty).
Qed.
Lemma sim_taproot i p lh ty : 0 <= i -> uses ps p -> sim (taproot_hash i p lh ty) (taproot_hash i p lh ty).
Proof.
  intros Hi Hu.
  apply (sim_request _ TaprootAnswer (TaprootHash i p None (lh ← lh; Some (lh, 0xFFFFFFFF)) ty)); [done|by intros ?? [=]|].
  intros c. unfold taproot_hash. destruct lh; cbn [perform mbind option_bind].
  - change (taproot_signature_hash c i p None (Some (l, 0xFFFFFFFF)) ty) with
      (taproot_script_spend_signature_hash c i p l ty). by destruct (taproot_script_spend_signature_hash c i p l ty).
  - change (taproot_signature_hash c i p None None ty) with (taproot_key_spend_signature_hash c i p ty).
    by destruct (taproot_key_spend_signature_hash c i p ty).
Qed.
End sim.

(** ** PSBTs that differ in signatures only *)

Section agree.
Context {bm : BuildMode} {C : PsbtCurve} {G : Signer C}.

(** An input without its signatures. *)
Definition unsign (i : Input) : Input :=
  set_i_tap_script_sigs (set_i_tap_key_sig (set_i_partial_sigs i []) None) [].

Definition rest (p : Psbt) := (p_version p, p_xpub p, p_proprietary p, p_unknown p, outputs p).

(** Only the signatures of the inputs differ. *)
Definition same_unsigned (p q : Psbt) : Prop :=
  unsigned_tx p = unsigned_tx q /\ rest p = rest q /\ Forall2 (fun a b => unsign a = unsign b) (inputs p) (inputs q).

Lemma same_unsigned_refl p : same_unsigned p p.
Proof. split_and!; [done..|]. induction (inputs p); by constructor. Qed.

Lemma same_unsigned_trans p q r : same_unsigned p q -> same_unsigned q r -> same_unsigned p r.
Proof.
  intros (H1 & Hr1 & H2) (H3 & Hr2 & H4). split_and!; [congruence..|]. revert H4. generalize (inputs r). clear -H2.
  induction H2 as [|a b la lb Hab _ IH]; intros lc H4; inversion H4; subst; constructor; [congruence|eauto].
Qed.

Lemma set_input_unsigned p i inp inp' : inputs p !! i = Some inp -> unsign inp' = unsign inp ->
  same_unsigned (set_input p i inp') p.
Proof.
  intros Hi Hu. split_and!; [done..|]. cbn [set_input inputs]. revert i Hi. induction (inputs p) as [|a l IH]; intros i Hi; [done|].
  destruct i as [|i]; simpl in *.
  - injection Hi as ->. constructor; [done|]. clear. induction l; by constructor.
  - constructor; [done|]. by apply IH.
Qed.

Lemma unsign_utxos a b : unsign a = unsign b ->
  i_witness_utxo a = i_witness_utxo b /\ i_non_witness_utxo a = i_non_witness_utxo b.
Proof. intros H. split; [by apply (f_equal i_witness_utxo) in H|by apply (f_equal i_non_witness_utxo) in H]. Qed.

Context (p q : Psbt) (Hs : same_unsigned p q).

Lemma same_bounds i : check_index_is_within_bounds p i = check_index_is_within_bounds q i.
Proof.
  destruct Hs as (Ht & _ & Hf). unfold check_index_is_within_bounds. apply Forall2_length in Hf. by rewrite Ht, Hf.
Qed.

Lemma checked_input_lookup r i : checked_input r i =
  match check_index_is_within_bounds r i, inputs r !! i with
  | Ok _, Some inp => Val inp
  | Ok _, None => Crash
  | Err e, _ => Throw (IndexOutOfBounds e)
  end.
Proof.
  unfold checked_input. destruct (check_index_is_within_bounds r i); [|done]. cbn [map_err of_result mbind comp_bind].
  unfold index. destruct (Z.ltb_spec (Z.of_nat i) 0); [lia|]. rewrite Nat2Z.id. by destruct (inputs r !! i).
Qed.

Lemma same_spend_utxo i : spend_utxo p i = spend_utxo q i.
Proof.
  unfold spend_utxo. rewrite !checked_input_lookup, same_bounds.
  destruct (check_index_is_within_bounds q i) as [[]|]; [|done]. destruct Hs as (Ht & _ & Hf). rewrite Ht.
  destruct (inputs p !! i) as [a|] eqn:Ea.
  - destruct (Forall2_lookup_l _ _ _ _ _ Hf Ea) as (b & -> & Hu). cbn [mbind comp_bind].
    by destruct (unsign_utxos a b Hu) as [-> ->].
  - destruct (inputs q !! i) as [b|] eqn:Eb; [|done].
    destruct (Forall2_lookup_r _ _ _ _ _ Hf Eb) as (a0 & Ha & _). congruence.
Qed.

Lemma same_spend_utxos l : spend_utxos p l = spend_utxos q l.
Proof. induction l as [|i l IH]; [done|]. cbn [spend_utxos]. by rewrite same_spend_utxo, IH. Qed.

Lemma same_prev_outs i ty : prev_outs p i ty = prev_outs q i ty.
Proof. unfold prev_outs. rewrite same_spend_utxos. destruct Hs as (_ & _ & Hf). by rewrite (Forall2_length Hf). Qed.

Context (i : nat) (Hi : inputs p !! i = inputs q !! i).

Lemma same_checked : checked_input p i = checked_input q i.
Proof. by rewrite !checked_input_lookup, same_bounds, Hi. Qed.

Lemma same_output_type : output_type p i = output_type q i.
Proof. unfold output_type. by rewrite same_checked, same_spend_utxo. Qed.

Lemma same_algorithm : signing_algorithm p i = signing_algorithm q i.
Proof. unfold signing_algorithm. by rewrite same_output_type. Qed.

(** The outputs a PSBT says its inputs spend. *)
Definition spent (p : Psbt) : list TxOut :=
  match spend_utxos p (seq 0 (length (inputs p))) with Ret us => omap id us | Panic => [] end.

Lemma prev_outs_uses ty prevs : prev_outs q i ty = Val prevs -> uses (spent q) prevs.
Proof.
  unfold prev_outs, spent. destruct (spend_utxos q _) as [us|]; [|done]. cbn [of_run mbind comp_bind].
  destruct (negb _).
  - destruct (index us (Z.of_nat i)) as [[u|]|]; [|done..]. by intros [= <-].
  - destruct (forallb _ us); [|done]. by intros [= <-].
Qed.

Lemma sim_sighash_ecdsa t : sim (spent q) t (sighash_ecdsa p i) (sighash_ecdsa q i).
Proof.
  unfold sighash_ecdsa. rewrite same_algorithm, same_checked, same_spend_utxo, same_output_type.
  apply sim_bind; [apply sim_lift|]. intros []; [|apply sim_lift].
  apply sim_bind; [apply sim_lift|]. intros inp. apply sim_bind; [apply sim_lift|]. intros u. cbv zeta.
  apply sim_bind; [apply sim_lift|]. intros ty. apply sim_bind; [apply sim_lift|].
  intros []; try apply sim_lift; repeat (apply sim_bind; [|intros ?]);
    try apply sim_lift; try apply sim_ret; try apply sim_map_err;
    try apply sim_legacy; try apply sim_p2wpkh; try apply sim_p2wsh; lia.
Qed.

Lemma sim_sighash_taproot t lh : sim (spent q) t (sighash_taproot p i lh) (sighash_taproot q i lh).
Proof.
  unfold sighash_taproot. rewrite same_algorithm, same_checked, same_output_type.
  apply sim_bind; [apply sim_lift|]. intros []; [apply sim_lift|].
  apply sim_bind; [apply sim_lift|]. intros inp. apply sim_bind; [apply sim_lift|].
  intros []; try apply sim_lift. apply sim_bind; [apply sim_lift|]. intros ty. rewrite same_prev_outs.
  destruct (prev_outs q i ty) as [prevs| |] eqn:Ep; [|by apply sim_lift..].
  change (clift (Val prevs) ≫= ?k) with (k prevs). cbv beta.
  apply sim_bind; [|intros ?; apply sim_ret]. apply sim_map_err, sim_taproot; [lia|by apply prev_outs_uses in Ep].
Qed.
End agree.

Section sign_laws.
Context {bm : BuildMode} {C : PsbtCurve} {G : Signer C} (k : GetKey).

(** ** Signing changes signatures only *)

Definition keeps {E B} (m : CM E (Input * B)) (inp : Input) : Prop :=
  forall c, match fst (m c) with Val (inp', _) => unsign inp' = unsign inp | _ => True end.

Lemma keeps_ret {E B} inp (b : B) : keeps (mret (inp, b) : CM E _) inp.
Proof. done. Qed.
Lemma keeps_bind {E A B} (m : CM E A) (f : A -> CM E (Input * B)) inp :
  (forall a, keeps (f a) inp) -> keeps (m ≫= f) inp.
Proof. intros Hf c. unfold mbind, CM_bind. destruct (m c) as [[a| |] d]; [apply Hf|done..]. Qed.
Lemma keeps_then {E A B} (m : CM E (Input * A)) (f : Input * A -> CM E (Input * B)) inp :
  keeps m inp -> (forall i a, unsign i = unsign inp -> keeps (f (i, a)) inp) -> keeps (m ≫= f) inp.
Proof.
  intros Hm Hf c. unfold mbind, CM_bind. specialize (Hm c). destruct (m c) as [[[i a]| |] d]; [by apply Hf|done..].
Qed.

Lemma keeps_key_path p i x lhs sk inp used : keeps (key_path p i x lhs sk (inp, used)) inp.
Proof.
  unfold key_path. destruct (i_tap_internal_key inp); [|apply keeps_ret]. destruct (_ && _); [|apply keeps_ret].
  apply keeps_bind. intros []. apply keeps_bind. by intros kp c.
Qed.

Lemma leaf_loop_keeps p i x kp lhs : forall inp c,
  match fst (leaf_loop p i x kp lhs inp c) with Val inp' => unsign inp' = unsign inp | _ => True end.
Proof.
  induction lhs as [|lh lhs IH]; intros inp c; [done|]. cbn [leaf_loop]. unfold mbind, CM_bind.
  destruct (sighash_taproot p i (Some lh) c) as [[[msg ty]| |] d]; [|done..]. cbv beta iota zeta.
  match goal with |- context [leaf_loop _ _ _ _ _ ?x d] => specialize (IH x d); destruct (fst (leaf_loop p i _ kp lhs x d)) end;
    [|done..]. by rewrite IH.
Qed.

Lemma keeps_script_path p i x sk inp used : keeps (script_path p i x sk (inp, used)) inp.
Proof.
  unfold script_path. destruct (map_get _ _ _) as [[lhs src]|]; [|apply keeps_ret]. cbv zeta.
  destruct (_ =? _)%nat; [apply keeps_ret|]. intros c. unfold mbind, CM_bind.
  match goal with |- context [leaf_loop ?a ?b ?d ?e ?f inp c] => pose proof (leaf_loop_keeps a b d e f inp c) as H;
    destruct (leaf_loop a b d e f inp c) as [[] ?] end; done.
Qed.

Lemma keeps_schnorr_loop p i entries : forall st, keeps (schnorr_loop k p i entries st) (fst st).
Proof.
  induction entries as [|[x [lhs src]] entries IH]; intros [inp used]; [done|]. cbn [schnorr_loop fst].
  apply keeps_bind. intros [sk|]; [|apply IH]. apply keeps_then; [apply keeps_key_path|]. intros j u Hj.
  apply keeps_then.
  - intros c. pose proof (keeps_script_path p i x sk j u c) as H. destruct (fst _) as [[]| |]; [congruence|done..].
  - intros j' u' Hj' c. specialize (IH (j', u') c). destruct (fst _) as [[]| |]; [cbn [fst] in *; congruence|done..].
Qed.

(** The PSBT after signing input [i]. *)
Definition only_input (p p' : Psbt) (i : nat) : Prop :=
  same_unsigned p' p /\ forall j, j <> i -> inputs p' !! j = inputs p !! j.

Lemma only_input_refl p i : only_input p p i.
Proof. split; [apply same_unsigned_refl|done]. Qed.

Lemma only_set_input p i inp inp' : inputs p !! i = Some inp -> unsign inp' = unsign inp ->
  only_input p (set_input p i inp') i.
Proof.
  intros Hi Hu. split; [by eapply set_input_unsigned|]. intros j Hj. cbn [set_input inputs].
  by rewrite list_lookup_insert_ne.
Qed.

Lemma sign_input_frame p i c : only_input p (snd (fst (sign_input k p i c))) i.
Proof.
  unfold sign_input. destruct (signing_algorithm p i) as [[]| |]; [| |apply only_input_refl..].
  - unfold bip32_sign_ecdsa. destruct (sighash_ecdsa p i c) as [res d].
    destruct res, (inputs p !! i) as [inp|] eqn:Ei; try apply only_input_refl;
      destruct (ecdsa_loop _ _ _ _ _) as [r sigs]; apply (only_set_input p i inp); done || by destruct inp.
  - unfold bip32_sign_schnorr. unfold mbind at 1, CM_bind at 1, clift. rewrite checked_input_lookup.
    destruct (check_index_is_within_bounds p i); [|apply only_input_refl].
    destruct (inputs p !! i) as [inp|] eqn:Ei; [|apply only_input_refl]. cbv iota.
    pose proof (keeps_schnorr_loop p i (i_tap_key_origins inp) (inp, []) c) as H.
    destruct (schnorr_loop _ _ _ _ _ c) as [[[inp' used]| |] d]; try apply only_input_refl.
    by apply (only_set_input p i inp).
Qed.
End sign_laws.

(** ** Inputs are signed independently *)

Section sign_alone.
Context {bm : BuildMode} {C : PsbtCurve} {G : Signer C} (k : GetKey).

Section one.
Context (p q : Psbt) (i : nat) (t : Transaction) (Hs : same_unsigned p q) (Hi : inputs p !! i = inputs q !! i).

Lemma sim_key_path x lhs sk st : sim (spent q) t (key_path p i x lhs sk st) (key_path q i x lhs sk st).
Proof.
  destruct st as [inp used]. unfold key_path. destruct (i_tap_internal_key inp); [|apply sim_ret].
  destruct (_ && _); [|apply sim_ret]. apply sim_bind; [by apply sim_sighash_taproot|]. intros [msg ty].
  apply sim_bind; [apply sim_lift|]. intros kp. apply sim_ret.
Qed.

Lemma sim_leaf_loop x kp lhs : forall inp, sim (spent q) t (leaf_loop p i x kp lhs inp) (leaf_loop q i x kp lhs inp).
Proof.
  induction lhs as [|lh lhs IH]; intros inp; [apply sim_ret|]. cbn [leaf_loop].
  apply sim_bind; [by apply sim_sighash_taproot|]. intros [msg ty]. apply IH.
Qed.

Lemma sim_script_path x sk st : sim (spent q) t (script_path p i x sk st) (script_path q i x sk st).
Proof.
  destruct st as [inp used]. unfold script_path. destruct (map_get _ _ _) as [[lhs src]|]; [|apply sim_ret]. cbv zeta.
  destruct (_ =? _)%nat; [apply sim_ret|]. apply sim_bind; [apply sim_leaf_loop|]. intros j. apply sim_ret.
Qed.

Lemma sim_schnorr_loop entries : forall st, sim (spent q) t (schnorr_loop k p i entries st) (schnorr_loop k q i entries st).
Proof.
  induction entries as [|[x [lhs src]] entries IH]; intros st; [apply sim_ret|]. cbn [schnorr_loop].
  apply sim_bind; [apply sim_lift|]. intros [sk|]; [|apply IH].
  apply sim_bind; [apply sim_key_path|]. intros st'. apply sim_bind; [apply sim_script_path|]. apply IH.
Qed.

Lemma set_input_lookup r inp : inputs (set_input r i inp) !! i = match inputs r !! i with Some _ => Some inp | None => None end.
Proof.
  cbn [set_input inputs]. destruct (inputs r !! i) eqn:E; [apply list_lookup_insert_eq; by apply lookup_lt_Some in E|].
  rewrite list_insert_ge; [done|by apply lookup_ge_None].
Qed.

(** From sound caches the two PSBTs give the same keys, errors and signatures. *)
Lemma sign_input_same c1 c2 : both_ok (spent q) t c1 c2 ->
  fst (fst (sign_input k p i c1)) = fst (fst (sign_input k q i c2)) /\
  inputs (snd (fst (sign_input k p i c1))) !! i = inputs (snd (fst (sign_input k q i c2))) !! i /\
  both_ok (spent q) t (snd (sign_input k p i c1)) (snd (sign_input k q i c2)).
Proof.
  intros Hc. unfold sign_input. rewrite (same_algorithm p q Hs i Hi).
  destruct (signing_algorithm q i) as [[]| |]; [| |done..].
  - unfold bip32_sign_ecdsa. destruct (sim_sighash_ecdsa p q Hs i Hi t c1 c2 Hc) as [Hr Hd].
    destruct (sighash_ecdsa p i c1) as [r1 d1], (sighash_ecdsa q i c2) as [r2 d2]. cbn [fst snd] in *. subst r2.
    pose proof (set_input_lookup p) as Hp. pose proof (set_input_lookup q) as Hq. rewrite Hi in Hp |- *.
    destruct r1, (inputs q !! i) as [inp|] eqn:Eq; cbn [fst snd]; try (by rewrite ?Hi, ?Eq);
      destruct (ecdsa_loop _ _ _ _ _) as [r sigs]; cbn [fst snd]; by rewrite Hp, Hq.
  - unfold bip32_sign_schnorr. rewrite (same_checked p q Hs i Hi).
    assert (sim (spent q) t (inp ← clift (checked_input q i); schnorr_loop k p i (i_tap_key_origins inp) (inp, []))
      (inp ← clift (checked_input q i); schnorr_loop k q i (i_tap_key_origins inp) (inp, []))) as Hsim
      by (apply sim_bind; [apply sim_lift|]; intros inp; apply sim_schnorr_loop).
    destruct (Hsim c1 c2 Hc) as [Hr Hd].
    destruct ((inp ← _; schnorr_loop k p i _ _) c1) as [r1 d1], ((inp ← _; schnorr_loop k q i _ _) c2) as [r2 d2].
    cbn [fst snd] in *. subst r2. destruct r1 as [[inp used]| |]; cbn [fst snd]; [|done..].
    by rewrite !set_input_lookup, Hi.
Qed.
End one.

(** What signing input [i] alone gives, from the PSBT as it was and a fresh cache. *)
Definition alone (p : Psbt) (i : nat) : comp SignError SigningKeys * Psbt * SighashCache :=
  sign_input k p i (cache_new (unsigned_tx p)).

#[local] Instance nat_compare_lawful : LawfulCompare Nat.compare.
Proof. split; [apply Nat.compare_eq_iff|intros x y; apply Nat.compare_antisym]. Qed.

Definition recorded {A} (f : comp SignError SigningKeys -> option A) (p : Psbt) (lo n : nat) (m m' : list (nat * A)) : Prop :=
  forall j, map_get Nat.compare j m' =
    if decide (lo <= j < lo + n)%nat then match f (fst (fst (alone p j))) with Some a => Some a | None => map_get Nat.compare j m end
    else map_get Nat.compare j m.

Definition as_val {E A} (r : comp E A) : option A := match r with Val a => Some a | _ => None end.
Definition as_throw {E A} (r : comp E A) : option E := match r with Throw e => Some e | _ => None end.

Lemma recorded_cons {A} (f : comp SignError SigningKeys -> option A) p lo n m m1 m' :
  (forall j, map_get Nat.compare j m1 =
     if decide (j = lo) then match f (fst (fst (alone p lo))) with Some a => Some a | None => map_get Nat.compare j m end
     else map_get Nat.compare j m) ->
  recorded f p (S lo) n m1 m' -> recorded f p lo (S n) m m'.
Proof.
  intros H1 Hr j. rewrite Hr, H1.
  destruct (decide (S lo <= j < S lo + n)%nat), (decide (j = lo)), (decide (lo <= j < lo + S n)%nat); try lia; subst; done.
Qed.

Lemma get_insert_nat {A} lo (a : A) m j : map_get Nat.compare j (map_insert Nat.compare lo a m) =
  if decide (j = lo) then Some a else map_get Nat.compare j m.
Proof.
  rewrite map_get_insert by apply _. destruct (Nat.compare_spec j lo) as [->| |]; [by rewrite decide_True|..];
    by rewrite decide_False by lia.
Qed.
End sign_alone.

Section sign_claims.
Context {bm : BuildMode} {C : PsbtCurve} {G : Signer C} (k : GetKey).

(** What the rounds for the inputs [lo .. lo + n) make of [q], [used] and [errors]. *)
Definition loop_result (p : Psbt) (lo n : nat) (q : Psbt) (used : list (nat * SigningKeys)) (errors : list (nat * SignError))
    (res : run (list (nat * SigningKeys) * list (nat * SignError) * Psbt)) : Prop :=
  match res with
  | Panic => exists j, (lo <= j < lo + n)%nat /\ fst (fst (alone k p j)) = Crash
  | Ret (used', errors', q') =>
      (forall j, (lo <= j < lo + n)%nat -> fst (fst (alone k p j)) <> Crash) /\ same_unsigned q' p /\
      (forall j, inputs q' !! j = if decide (lo <= j < lo + n)%nat then inputs (snd (fst (alone k p j))) !! j
                                  else inputs q !! j) /\
      recorded k as_val p lo n used used' /\ recorded k as_throw p lo n errors errors'
  end.

Definition records {A} (f : comp SignError SigningKeys -> option A) (p : Psbt) (lo : nat) (m m1 : list (nat * A)) : Prop :=
  forall j, map_get Nat.compare j m1 =
    if decide (j = lo) then match f (fst (fst (alone k p lo))) with Some a => Some a | None => map_get Nat.compare j m end
    else map_get Nat.compare j m.

Lemma loop_result_cons p lo n q q1 used used1 errors errors1 res :
  fst (fst (alone k p lo)) <> Crash -> inputs q1 !! lo = inputs (snd (fst (alone k p lo))) !! lo ->
  (forall j, j <> lo -> inputs q1 !! j = inputs q !! j) ->
  records as_val p lo used used1 -> records as_throw p lo errors errors1 ->
  loop_result p (S lo) n q1 used1 errors1 res -> loop_result p lo (S n) q used errors res.
Proof.
  intros Hcr Hlo Hne Hru Hre. unfold loop_result.
  destruct res as [[[used' errors'] q']|]; [|intros (j & ? & ?); exists j; split; [lia|done]].
  intros (Hn & Hs2 & Hi2 & Hu & He). split_and!; [|done|..].
  - intros j Hl. destruct (decide (j = lo)) as [->|]; [done|apply Hn; lia].
  - intros j. rewrite Hi2. destruct (decide (j = lo)) as [->|]; [rewrite decide_False, decide_True by lia; done|].
    destruct (decide (S lo <= j < S lo + n)%nat), (decide (lo <= j < lo + S n)%nat); try lia; [done|by apply Hne].
  - by eapply recorded_cons.
  - by eapply recorded_cons.
Qed.

Lemma records_insert {A} (f : comp SignError SigningKeys -> option A) p lo a m :
  f (fst (fst (alone k p lo))) = Some a -> records f p lo m (map_insert Nat.compare lo a m).
Proof. intros Hf j. rewrite get_insert_nat, Hf. done. Qed.

Lemma records_none {A} (f : comp SignError SigningKeys -> option A) p lo m :
  f (fst (fst (alone k p lo))) = None -> records f p lo m m.
Proof. intros Hf j. rewrite Hf. by destruct (decide _). Qed.

Lemma sign_loop_spec p n : forall lo q c used errors,
  same_unsigned q p -> (forall j, (lo <= j)%nat -> inputs q !! j = inputs p !! j) ->
  cache_ok (spent p) c -> tx c = unsigned_tx p ->
  loop_result p lo n q used errors (sign_loop k (seq lo n) q c used errors).
Proof.
  induction n as [|n IH]; intros lo q c used errors Hs Hj Hc Ht; cbn [seq sign_loop].
  - split_and!; [lia|done|..]; intros j; rewrite decide_False by lia; done.
  - assert (both_ok (spent p) (unsigned_tx p) c (cache_new (unsigned_tx p))) as Hb by (split; split; done || apply new_ok).
    destruct (sign_input_same k q p lo (unsigned_tx p) Hs (Hj lo ltac:(lia)) _ _ Hb) as (Hr & Hin & [Hc' _]).
    destruct (sign_input_frame k q lo c) as [Hs' Hne]. fold (alone k p lo) in Hr, Hin.
    pose proof (same_unsigned_trans _ _ _ Hs' Hs) as Hs1.
    destruct (sign_input k q lo c) as [[r q1] c1]. cbn [fst snd] in *. destruct Hc' as [Hc1 Ht1].
    assert (forall j, (S lo <= j)%nat -> inputs q1 !! j = inputs p !! j) as Hj1
      by (intros j Hl; rewrite Hne by lia; apply Hj; lia).
    destruct r as [v|e|]; [| |by exists lo; split; [lia|]].
    + eapply loop_result_cons; [congruence|done..| | |by apply IH].
      * apply records_insert. by rewrite <- Hr.
      * apply records_none. by rewrite <- Hr.
    + eapply loop_result_cons; [congruence|done..| | |by apply IH].
      * apply records_none. by rewrite <- Hr.
      * apply records_insert. by rewrite <- Hr.
Qed.

(** Keys used and errors met, as the two maps that [sign] returns. *)
Definition used_of {A B} (r : Result (A * B) A) : A := match r with Ok used => used | Err (used, _) => used end.
Definition errors_of {A B} (r : Result (A * list B) A) : list B := match r with Ok _ => [] | Err (_, errors) => errors end.
Definition outcome (p : Psbt) (i : nat) : comp SignError SigningKeys := fst (fst (alone k p i)).
Definition in_range (p : Psbt) (i : nat) : Prop := (i < length (inputs p))%nat.

(** C23: [sign] signs each input as if it were alone: although the inputs share one [SighashCache] and are
    changed one after the other, the keys used, the error and the signatures of every input are those
    of signing that input of the original PSBT with a fresh cache.  [sign] panics exactly when signing
    one of the inputs alone does; it reports success exactly when no input fails, and then and
    otherwise it changes nothing but signatures. *)
Theorem sign_inputs_alone (p : Psbt) :
  match sign k p with
  | Panic => exists i, in_range p i /\ outcome p i = Crash
  | Ret (r, p') =>
      (forall i, in_range p i -> outcome p i <> Crash) /\
      same_unsigned p' p /\
      (forall i, in_range p i -> inputs p' !! i = inputs (snd (fst (alone k p i))) !! i) /\
      (forall i keys, map_get Nat.compare i (used_of r) = Some keys <-> in_range p i /\ outcome p i = Val keys) /\
      (forall i e, map_get Nat.compare i (errors_of r) = Some e <-> in_range p i /\ outcome p i = Throw e) /\
      (is_ok r = true <-> forall i, in_range p i -> exists keys, outcome p i = Val keys)
  end.
Proof.
  unfold sign, in_range, outcome. cbv zeta.
  pose proof (sign_loop_spec p (length (inputs p)) 0 p (cache_new (unsigned_tx p)) [] [] (same_unsigned_refl p)
    (fun _ _ => eq_refl) (new_ok _ _) eq_refl) as H.
  destruct (sign_loop _ _ _ _ _ _) as [[[used errors] p']|]; [|destruct H as (j & ? & ?); exists j; split; [lia|done]].
  destruct H as (Hn & Hs & Hi & Hu & He). msimpl.
  assert (used_of (match errors with [] => Ok used | _ :: _ => Err (used, errors) end) = used) as -> by by destruct errors.
  assert (errors_of (match errors with [] => Ok used | _ :: _ => Err (used, errors) end) = errors) as -> by by destruct errors.
  assert (forall i e, map_get Nat.compare i errors = Some e <->
    (i < length (inputs p))%nat /\ fst (fst (alone k p i)) = Throw e) as Herr.
  { intros i e. rewrite He. destruct (decide _); [|split; [done|lia]].
    destruct (fst (fst (alone k p i))); cbn [as_throw map_get]; naive_solver lia. }
  split_and!; [intros i ?; apply Hn; lia|done|..].
  - intros i ?. rewrite Hi, decide_True by lia. done.
  - intros i keys. rewrite Hu. destruct (decide _); [|split; [done|lia]].
    destruct (fst (fst (alone k p i))); cbn [as_val map_get]; naive_solver lia.
  - done.
  - split.
    + intros Hok i Hl. specialize (Hn i ltac:(lia)). destruct errors as [|e0 l]; [|done].
      destruct (fst (fst (alone k p i))) as [v|e|] eqn:E; [by exists v| |done].
      by pose proof (proj2 (Herr i e) (conj Hl E)).
    + intros Hall. destruct errors as [|[j e] l]; [done|]. exfalso.
      destruct (proj1 (Herr j e)) as [Hl Ht]; [cbn [map_get]; by rewrite Nat.compare_refl|].
      destruct (Hall j Hl) as [v Hv]. congruence.
Qed.
End sign_claims.

(** ** What ECDSA signing adds *)

Section ecdsa_content.
Context {bm : BuildMode} {C : PsbtCurve} {G : Signer C} (k : GetKey).

(** The secrets found for the entries of [bip32_derivation]. *)
Definition found (entries : list (SecpPublicKey * KeySource)) : list PrivateKey :=
  omap (fun e => match find_key k (snd e) (RequestPubkey (public_new (fst e))) with Ret o => o | Panic => None end) entries.

Definition add_sig (msg : list byte) (ty : EcdsaSighashType) (sigs : PartialSigs) (sk : PrivateKey) : PartialSigs :=
  map_insert pubkey_compare (public_key sk) (mkEcdsa (sign_ecdsa msg (private_inner sk)) ty) sigs.

(** Nothing is reported when no secret is found, not even that there is no message; otherwise each
    secret signs the message, and its signature is stored under its public key. *)
Lemma ecdsa_loop_exact res entries : Forall (fun e => find_key k (snd e) (RequestPubkey (public_new (fst e))) <> Panic) entries ->
  forall sigs used, ecdsa_loop k res entries sigs used =
  match found entries, res with
  | [], _ => (Val used, sigs)
  | sks, Val (msg, ty) => (Val (used ++ map public_key sks), fold_left (add_sig msg ty) sks sigs)
  | _, Throw e => (Throw e, sigs)
  | _, Crash => (Crash, sigs)
  end.
Proof.
  induction 1 as [|[pk src] entries Hk _ IH]; intros sigs used; [done|]. cbn [ecdsa_loop fst snd] in *.
  unfold found in *. cbn [omap list_omap fst snd] in *.
  destruct (find_key k src (RequestPubkey (public_new pk))) as [[sk|]|]; [|by rewrite IH|done].
  destruct res as [[msg ty]| |]; [|done..]. rewrite IH. cbv zeta.
  destruct (omap _ entries); [done|]. by rewrite <- app_assoc.
Qed.
End ecdsa_content.

(** ** Keys that are found belong to the request *)

Section keys_claims.
Context {bm : BuildMode} {C : PsbtCurve} {L : PsbtCurveLaws C} {G : Signer C} {GL : SignerLaws G}.

Lemma negate_xonly sk : x_only_public_key (pk_inner (public_key (negate sk))) =
  (fst (x_only_public_key (pk_inner (public_key sk))), flip (snd (x_only_public_key (pk_inner (public_key sk))))).
Proof. apply xonly_negate. Qed.

Lemma xonly_eq p q : x_only_public_key p = x_only_public_key q -> p = q.
Proof. intros H. rewrite <- (xonly_join p), <- (xonly_join q). by rewrite H. Qed.

(** The stores hold under each public key a secret of it. *)
Definition pubkeys_match (m : list (PublicKey * PrivateKey)) : Prop :=
  forall pk sk, map_get pubkey_compare pk m = Some sk -> public_key sk = pk.
Definition xonlys_match (m : list (XOnlyPublicKey * PrivateKey)) : Prop :=
  forall x sk, map_get xonly_cmp x m = Some sk -> fst (x_only_public_key (pk_inner (public_key sk))) = x.

Lemma pubkey_map_sound m p sk : pubkeys_match m ->
  pubkey_map_get_key m (RequestXOnly (fst (x_only_public_key p))) = Val (Some sk) ->
  x_only_public_key (pk_inner (public_key sk)) = (fst (x_only_public_key p), Even).
Proof.
  intros Hm. unfold pubkey_map_get_key. cbv zeta. destruct (map_get _ (public_new (xonly_public_key _ Even)) m) as [s|] eqn:Ee.
  - intros [= ->]. apply Hm in Ee. rewrite Ee. apply xonly_split.
  - cbv zeta. destruct (map_get _ (public_new (xonly_public_key _ Odd)) m) as [s|] eqn:Eo; [|discriminate]. intros [= <-]. apply Hm in Eo.
    rewrite negate_xonly, Eo. cbn [pk_inner public_new]. by rewrite xonly_split.
Qed.

Lemma xonly_map_sound m pk sk : xonlys_match m -> xonly_map_get_key m (RequestPubkey pk) = Val (Some sk) ->
  pk_inner (public_key sk) = pk_inner pk.
Proof.
  intros Hm. cbn [xonly_map_get_key]. destruct (x_only_public_key (pk_inner pk)) as [x par] eqn:Ex.
  destruct (map_get xonly_cmp x m) as [s|] eqn:Eg; [|done]. apply Hm in Eg.
  destruct (x_only_public_key (pk_inner (public_key s))) as [y par'] eqn:Es. cbn [fst] in Eg. subst y.
  intros [= <-]. apply xonly_eq. rewrite Ex. destruct (bool_decide_reflect (par' <> par)) as [Hd|Hd].
  - rewrite negate_xonly, Es. cbn [fst snd]. destruct par, par'; naive_solver.
  - rewrite Es. destruct par, par'; naive_solver.
Qed.

Lemma pubkey_map_complete m p : pubkey_map_get_key m (RequestXOnly (fst (x_only_public_key p))) = Val None ->
  forall pk sk, map_get pubkey_compare pk m = Some sk -> compressed pk = true ->
    fst (x_only_public_key (pk_inner pk)) <> fst (x_only_public_key p).
Proof.
  unfold pubkey_map_get_key. cbv zeta. destruct (map_get _ (public_new (xonly_public_key _ Even)) m) eqn:Ee; [done|].
  destruct (map_get _ (public_new (xonly_public_key _ Odd)) m) eqn:Eo; [done|]. intros _ [c q] sk Hg Hc Hx. cbn [compressed pk_inner] in *.
  subst c. assert (mkPublicKey true q = public_new (xonly_public_key (fst (x_only_public_key p)) (snd (x_only_public_key q)))) as E.
  { unfold public_new. f_equal. by rewrite <- Hx, xonly_join. }
  rewrite E in Hg. destruct (snd (x_only_public_key q)); congruence.
Qed.

(** The extended keys that answer a derivation request, and the path that is left. *)
Definition answers (x : Xpriv) (fp : list byte) (path rest : list ChildNumber) : Prop :=
  xpriv_fingerprint x = fp /\ rest = path \/
  xpriv_fingerprint x <> fp /\ sk_parent_fingerprint x = fp /\ path = sk_child_number x :: rest.

Lemma xpriv_get_key_spec x fp path :
  (exists rest, answers x fp path rest /\
     xpriv_get_key x (RequestBip32 (fp, path)) = (k ← bip32_err (derive_priv x rest); Val (Some (to_priv k)))) \/
  (forall rest, ~ answers x fp path rest) /\ xpriv_get_key x (RequestBip32 (fp, path)) = Val None.
Proof.
  cbn [xpriv_get_key]. unfold answers. destruct (bool_decide_reflect (xpriv_fingerprint x = fp)) as [Hf|Hf]; [left; exists path; tauto|].
  destruct path as [|c tl]; [right; split; [naive_solver|done]|].
  destruct (bool_decide_reflect (sk_parent_fingerprint x = fp)) as [Hp|Hp]; [|right; split; [naive_solver|done]].
  destruct (bool_decide_reflect (c = sk_child_number x)) as [->|Hc]; [|right; split; [naive_solver|done]].
  left. exists tl. split; [right; tauto|done].
Qed.

(** C26: what the implementations of [GetKey] find, in stores that hold under every key a secret of
    it (which inserting does not check).  A map from public keys answers an x-only request with a secret of the point
    with that x coordinate and even y, negated when the map holds the odd one, and with nothing only if no
    compressed key with this x coordinate is stored; a map from x-only keys answers a request for a public key
    with a secret of exactly this point, negated when the parity differs, and with nothing only if the x
    coordinate is not stored.  A set of extended keys, whatever it holds, answers a derivation request by the
    first of its keys that has the fingerprint, or is the child named by the first index of a parent that
    has it: the key at the path left, which is the one the parent derives at the whole path, or the error of this
    derivation; with nothing only if there is no such key. *)
Theorem get_key_correct (pm : list (PublicKey * PrivateKey)) (xm : list (XOnlyPublicKey * PrivateKey)) (xs : list Xpriv) :
  pubkeys_match pm -> xonlys_match xm ->
  (forall p, match pubkey_map_get_key pm (RequestXOnly (fst (x_only_public_key p))) with
   | Val (Some sk) => x_only_public_key (pk_inner (public_key sk)) = (fst (x_only_public_key p), Even)
   | Val None => forall pk sk, map_get pubkey_compare pk pm = Some sk -> compressed pk = true ->
                   fst (x_only_public_key (pk_inner pk)) <> fst (x_only_public_key p)
   | _ => False
   end) /\
  (forall pk, match xonly_map_get_key xm (RequestPubkey pk) with
   | Val (Some sk) => pk_inner (public_key sk) = pk_inner pk
   | Val None => map_get xonly_cmp (fst (x_only_public_key (pk_inner pk))) xm = None
   | _ => False
   end) /\
  (forall fp path,
     (exists pre x post rest, xs = pre ++ x :: post /\ Forall (fun x => forall rest, ~ answers x fp path rest) pre /\
        answers x fp path rest /\
        (forall parent, rest <> path -> ckd_priv parent (sk_child_number x) = Val x ->
           derive_priv parent path = derive_priv x rest) /\
        xpriv_set_get_key xs (RequestBip32 (fp, path)) =
        match derive_priv x rest with
        | Val y => Val (Some (to_priv y))
        | Throw e => Throw (GetKeyBip32 e)
        | Crash => Crash
        end) \/
     Forall (fun x => forall rest, ~ answers x fp path rest) xs /\
     xpriv_set_get_key xs (RequestBip32 (fp, path)) = Val None).
Proof.
  intros Hp Hx. split_and!.
  - intros p. destruct (pubkey_map_get_key pm _) as [[sk|]| |] eqn:E; [by apply pubkey_map_sound in E|by apply pubkey_map_complete| |];
      revert E; unfold pubkey_map_get_key; cbv zeta; by repeat case_match.
  - intros pk. destruct (xonly_map_get_key xm _) as [[sk|]| |] eqn:E; [by apply xonly_map_sound in E|..];
      revert E; cbn [xonly_map_get_key]; destruct (x_only_public_key (pk_inner pk)) as [x par]; cbn [fst];
      destruct (map_get xonly_cmp x xm) as [s|]; try done; by destruct (x_only_public_key (pk_inner (public_key s))).
  - intros fp path. induction xs as [|x l IH]; [right; by split|]. cbn [xpriv_set_get_key].
    destruct (xpriv_get_key_spec x fp path) as [(rest & Ha & ->)|[Hn ->]].
    + left. exists [], x, l, rest. split; [done|]. split; [constructor|]. split; [done|]. split.
      * intros parent Hr Hc. destruct Ha as [[_ ->]|(_ & _ & ->)]; [done|]. cbn [derive_priv]. by rewrite Hc.
      * by destruct (derive_priv x rest).
    + destruct IH as [(pre & y & post & rest & -> & Hf & H)|[Hf H]].
      * left. exists (x :: pre), y, post, rest. split; [done|]. split; [by constructor|done].
      * right. split; [by constructor|done].
Qed.
End keys_claims.

(** ** Witnesses *)

Module ToySigner.
Definition kv (k : ToyKeys.Key) : Z := proj1_sig k.
Definition xv (k : Toy.Key) : Z := proj1_sig k.
Definition x_of (p : ToyKeys.Key) : Toy.Key * Parity :=
  if kv p <=? ToyKeys.order - kv p then (Toy.mk (kv p), Even) else (Toy.mk (ToyKeys.order - kv p), Odd).
Definition of_x (x : Toy.Key) (par : Parity) : ToyKeys.Key :=
  match ToyKeys.mk (match par with Even => xv x | Odd => ToyKeys.order - xv x end) with Ok p => p | Err _ => ToyKeys.one end.

Definition same (s : ToyKeys.Key) : ToyKeys.Key := s.
Definition x_half (s : ToyKeys.Key) : Toy.Key := fst (x_of s).
Definition no_tweak (s : ToyKeys.Key) (t : Toy.Key) : Result unit ToyKeys.Key := Ok s.
Definition ecdsa (m : list byte) (s : ToyKeys.Key) : ToySigs.Der := ToySigs.der.
Definition schnorr (m : list byte) (s : ToyKeys.Key) : ToySigs.Schnorr := ToySigs.schnorr.

#[export] Instance signer : Signer ToyPsbt.curve :=
  Build_Signer ToyPsbt.curve ToyKeys.Key same x_half no_tweak ecdsa schnorr x_of of_x.

Lemma key_range (p : ToyKeys.Key) : 0 < kv p < ToyKeys.order.
Proof. destruct p as [z Hz]. unfold kv. simpl. unfold ToyKeys.valid in Hz. apply andb_true_iff in Hz as [?%Z.ltb_lt ?%Z.ltb_lt]. lia. Qed.

Lemma mk_val (z : Z) : 0 < z < ToyKeys.order -> xv (Toy.mk z) = z.
Proof. intros H. cbn. apply wrap_small. unfold in_u, ToyKeys.order in *. lia. Qed.

Lemma of_x_val x par z : (match par with Even => xv x | Odd => ToyKeys.order - xv x end) = z -> 0 < z < ToyKeys.order ->
  kv (of_x x par) = z.
Proof.
  intros Ez Hz. unfold of_x. rewrite Ez. unfold ToyKeys.mk. destruct (bool_dec (ToyKeys.valid z) true) as [H|H]; [done|].
  exfalso. apply H. unfold ToyKeys.valid. apply andb_true_iff. split; apply Z.ltb_lt; lia.
Qed.

(** The half of a key's pair that [x_of] keeps. *)
Lemma x_of_val p : exists x, 0 < xv x /\ 2 * xv x < ToyKeys.order /\
  (x_of p = (x, Even) /\ kv p = xv x \/ x_of p = (x, Odd) /\ kv p = ToyKeys.order - xv x).
Proof.
  pose proof (key_range p) as Hp. unfold x_of. destruct (Z.leb_spec (kv p) (ToyKeys.order - kv p)).
  - exists (Toy.mk (kv p)). rewrite mk_val by lia. split; [lia|]. split; [|by left].
    assert (ToyKeys.order mod 2 = 1) by reflexivity. assert (2 * kv p <> ToyKeys.order); [|lia]. intros E.
    rewrite <- E, Z.mul_comm, Z.mod_mul in *; done.
  - exists (Toy.mk (ToyKeys.order - kv p)). rewrite mk_val by lia. split; [lia|]. split; [lia|]. right. split; [done|lia].
Qed.

Lemma x_of_unique p x : 0 < xv x -> 2 * xv x < ToyKeys.order ->
  (kv p = xv x -> x_of p = (x, Even)) /\ (kv p = ToyKeys.order - xv x -> x_of p = (x, Odd)).
Proof.
  intros H0 H1. unfold x_of. split; intros E; rewrite E.
  - destruct (Z.leb_spec (xv x) (ToyKeys.order - xv x)); [|lia]. f_equal. apply Toy.key_eq. apply (mk_val (xv x)). lia.
  - destruct (Z.leb_spec (ToyKeys.order - xv x) (ToyKeys.order - (ToyKeys.order - xv x))); [lia|]. f_equal. apply Toy.key_eq.
    fold (xv x). fold (xv (Toy.mk (ToyKeys.order - (ToyKeys.order - xv x)))). rewrite mk_val by lia. lia.
Qed.

Lemma split_law (p : ToyKeys.Key) (par : Parity) : x_of (of_x (fst (x_of p)) par) = (fst (x_of p), par).
Proof.
  destruct (x_of_val p) as (x & H0 & H1 & Hx).
  assert (fst (x_of p) = x) as -> by (by destruct Hx as [[-> _]|[-> _]]).
  destruct (x_of_unique (of_x x par) x H0 H1) as [He Ho].
  destruct par; [apply He|apply Ho]; by apply of_x_val; [|lia].
Qed.
Lemma join_law (p : ToyKeys.Key) : of_x (fst (x_of p)) (snd (x_of p)) = p.
Proof.
  pose proof (key_range p). apply ToyKeys.toy_key_eq. change (kv (of_x (fst (x_of p)) (snd (x_of p))) = kv p).
  destruct (x_of_val p) as (x & H0 & H1 & [[-> Hp]|[-> Hp]]); cbn [fst snd]; apply of_x_val; lia.
Qed.
Lemma negate_law (s : ToyKeys.Key) : x_of (match ToyKeys.mk (ToyKeys.order - kv s) with Ok k => k | Err _ => s end) =
  (fst (x_of s), flip (snd (x_of s))).
Proof.
  pose proof (key_range s). destruct (x_of_val s) as (x & H0 & H1 & Hx).
  assert (kv (match ToyKeys.mk (ToyKeys.order - kv s) with Ok k => k | Err _ => s end) = ToyKeys.order - kv s) as Hn.
  { unfold ToyKeys.mk. destruct (bool_dec (ToyKeys.valid (ToyKeys.order - kv s)) true) as [Hv|Hv]; [done|].
    exfalso. apply Hv. unfold ToyKeys.valid. apply andb_true_iff.
    split; apply Z.ltb_lt; [apply Z.lt_0_sub|apply Z.lt_sub_pos]; apply H. }
  destruct Hx as [[E Es]|[E Es]]; rewrite E; apply (x_of_unique _ x H0 H1); rewrite Hn; lia.
Qed.

#[export] Instance signer_laws : SignerLaws signer.
Proof. split; [exact split_law|exact join_law|exact negate_law]. Qed.

Definition sk : @PrivateKey ToyKeys.group := @mkPrivateKey ToyKeys.group true Main ToyKeys.one.
Definition pk : @PublicKey ToyKeys.group := public_key sk.
End ToySigner.

Section sign_witnesses.
#[local] Existing Instances ToyPsbt.toy_psbt_mode ToyPsbt.curve ToyPsbt.curve_laws ToySigner.signer ToySigner.signer_laws.

Lemma get_key_correct_witness :
  match pubkey_map_get_key [(ToySigner.pk, ToySigner.sk)] (RequestXOnly (fst (x_only_public_key (pk_inner ToySigner.pk)))) with
  | Val (Some sk) => x_only_public_key (pk_inner (public_key sk)) = (fst (x_only_public_key (pk_inner ToySigner.pk)), Even)
  | _ => False
  end.
Proof.
  refine (proj1 (get_key_correct [(ToySigner.pk, ToySigner.sk)] [] [] _ _) (pk_inner ToySigner.pk)); [|done].
  intros q s. cbn [map_get]. destruct (pubkey_compare q ToySigner.pk) eqn:E; [|done..].
  intros [= <-]. by apply compare_eq_iff in E as ->.
Defined.
End sign_witnesses.
