(* ===== verification/DogeAddress.v ===== *)
(** * Dogecoin addresses ([dogecoin/address/mod.rs])

    An address is a key or script hash with a network.  Its text form is the base58check
    string of a prefix byte and the hash, its script form the script that pays to it.  The
    compile-time tag that says whether the network was checked is not part of the model:
    [require_network] and [assume_checked] return the address they are given. *)

From Stdlib Require Import ZArith Lia.
From Stdlib Require Strings.String.
From coqutil Require Import Byte Word.LittleEndianList.
From stdpp Require Import base tactics option list numbers.
From S2P Require Import Prelude U256 Params HashEngine Sha256 Ripemd160 Script Base58 Keys.

Import String.StringSyntax.
Open Scope Z_scope.

Definition PUBKEY_ADDRESS_PREFIX_MAINNET : Z := 0x1e.
Definition PUBKEY_ADDRESS_PREFIX_TESTNET : Z := 0x71.
Definition PUBKEY_ADDRESS_PREFIX_REGTEST : Z := 0x6f.
Definition SCRIPT_ADDRESS_PREFIX_MAINNET : Z := 0x16.
Definition SCRIPT_ADDRESS_PREFIX_TESTNET : Z := 0xc4.
Definition SCRIPT_ADDRESS_PREFIX_REGTEST : Z := 0xc4.

(** [AddressInner]. *)
Inductive Address :=
| P2pkh (hash : list byte) (network : Doge.Network)
| P2sh (hash : list byte) (network : Doge.Network).

#[export] Instance Address_eq_dec : EqDecision Address.
Proof. solve_decision. Defined.

(** Shared with Bitcoin addresses; only the first two occur here. *)
Inductive AddressType := TypeP2pkh | TypeP2sh | TypeP2wpkh | TypeP2wsh | TypeP2tr | TypeP2a.
Inductive AddressData := DataP2pkh (pubkey_hash : list byte) | DataP2sh (script_hash : list byte).

Definition p2pkh (pk : list byte) (network : Doge.Network) : Address := P2pkh pk network.
Definition p2sh_from_hash (hash : list byte) (network : Doge.Network) : Address := P2sh hash network.

Definition MAX_SCRIPT_ELEMENT_SIZE : nat := 520.
Inductive P2shError := ExcessiveScriptSize.

Definition p2sh (script : list byte) (network : Doge.Network) : Result P2shError Address :=
  if (MAX_SCRIPT_ELEMENT_SIZE <? length script)%nat then Err ExcessiveScriptSize
  else Ok (p2sh_from_hash (hash160.hash script) network).

Definition address_type (self : Address) : option AddressType :=
  match self with P2pkh _ _ => Some TypeP2pkh | P2sh _ _ => Some TypeP2sh end.
Definition to_address_data (self : Address) : AddressData :=
  match self with P2pkh hash _ => DataP2pkh hash | P2sh hash _ => DataP2sh hash end.
Definition pubkey_hash (self : Address) : option (list byte) :=
  match self with P2pkh hash _ => Some hash | _ => None end.
Definition script_hash (self : Address) : option (list byte) :=
  match self with P2sh hash _ => Some hash | _ => None end.
Definition payload_as_bytes (self : Address) : list byte :=
  match self with P2sh hash _ => hash | P2pkh hash _ => hash end.

(** [xonly] is [XOnlyPublicKey::from(key).serialize()] of the secp256k1 crate. *)
Definition is_related_to_pubkey {K : SecpKeys} (xonly : SecpPublicKey -> list byte) (self : Address)
    (pubkey : PublicKey) : bool :=
  let payload := payload_as_bytes self in
  bool_decide (Keys.pubkey_hash pubkey = payload) || bool_decide (xonly (pk_inner pubkey) = payload).

(** ** Text form *)

(** [Display]: the prefix and the hash in an array of 21 bytes, which [copy_from_slice]
    fills only with a hash of 20 bytes. *)
Definition prefixed (prefix : Z) (hash : list byte) : run (list byte) :=
  if (length hash =? 20)%nat then Ret (byte.of_Z prefix :: hash) else Panic.

Definition display (self : Address) : run (list byte) :=
  match self with
  | P2pkh hash network =>
      prefixed ← prefixed match network with
                          | Doge.Dogecoin => PUBKEY_ADDRESS_PREFIX_MAINNET
                          | Doge.Testnet => PUBKEY_ADDRESS_PREFIX_TESTNET
                          | Doge.Regtest => PUBKEY_ADDRESS_PREFIX_REGTEST
                          end hash;
      encode_check_to_fmt prefixed
  | P2sh hash network =>
      prefixed ← prefixed match network with
                          | Doge.Dogecoin => SCRIPT_ADDRESS_PREFIX_MAINNET
                          | Doge.Testnet => SCRIPT_ADDRESS_PREFIX_TESTNET
                          | Doge.Regtest => SCRIPT_ADDRESS_PREFIX_REGTEST
                          end hash;
      encode_check_to_fmt prefixed
  end.

Inductive ParseError :=
| Base58 (e : Error)
| LegacyAddressTooLong (length : nat)
| InvalidBase58PayloadLength (length : nat)
| InvalidLegacyPrefix (invalid : Z)
| NetworkValidation (required : Doge.Network) (address : Address).

Definition from_str {bm : BuildMode} (s : list byte) : comp ParseError Address :=
  if (50 <? length s)%nat then Throw (LegacyAddressTooLong (length s)) else
  match decode_check s with
  | Crash => Crash
  | Throw e => Throw (Base58 e)
  | Val data =>
      if negb (length data =? 21)%nat then Throw (InvalidBase58PayloadLength (length s)) else
      match data with
      | [] => Crash
      | prefix :: data =>
          let prefix := byte.unsigned prefix in
          if prefix =? PUBKEY_ADDRESS_PREFIX_MAINNET then Val (P2pkh data Doge.Dogecoin)
          else if prefix =? PUBKEY_ADDRESS_PREFIX_TESTNET then Val (P2pkh data Doge.Testnet)
          else if prefix =? PUBKEY_ADDRESS_PREFIX_REGTEST then Val (P2pkh data Doge.Regtest)
          else if prefix =? SCRIPT_ADDRESS_PREFIX_MAINNET then Val (P2sh data Doge.Dogecoin)
          else if prefix =? SCRIPT_ADDRESS_PREFIX_TESTNET then Val (P2sh data Doge.Testnet)
          else Throw (InvalidLegacyPrefix prefix)
      end
  end.

(** ** Networks *)

Definition is_valid_for_network (self : Address) (n : Doge.Network) : bool :=
  match self with
  | P2pkh _ network => bool_decide (network = n)
  | P2sh _ Doge.Dogecoin => bool_decide (n = Doge.Dogecoin)
  | P2sh _ Doge.Testnet => bool_decide (n = Doge.Testnet) || bool_decide (n = Doge.Regtest)
  | P2sh _ Doge.Regtest => bool_decide (n = Doge.Testnet) || bool_decide (n = Doge.Regtest)
  end.

Definition require_network (self : Address) (required : Doge.Network) : Result ParseError Address :=
  if is_valid_for_network self required then Ok self else Err (NetworkValidation required self).

(** ** Script form *)

Definition script_pubkey (self : Address) : run (list byte) :=
  match self with P2pkh hash _ => new_p2pkh hash | P2sh hash _ => new_p2sh hash end.

(** The one variant of the shared error type that Dogecoin addresses use. *)
Inductive FromScriptError := UnrecognizedScript.

(** The slices are in range after the template checks. *)
Definition from_script (script : list byte) (network : Doge.Network) : Result FromScriptError Address :=
  if is_p2pkh script then Ok (p2pkh (take 20 (drop 3 script)) network)
  else if is_p2sh script then Ok (p2sh_from_hash (take 20 (drop 2 script)) network)
  else Err UnrecognizedScript.

Definition matches_script_pubkey (self : Address) (script : list byte) : bool :=
  match self with
  | P2pkh hash _ => is_p2pkh script && bool_decide (take 20 (drop 3 script) = hash)
  | P2sh hash _ => is_p2sh script && bool_decide (take 20 (drop 2 script) = hash)
  end.

Module tests.
Example parse_mainnet : exists h,
  @from_str true (String.list_byte_of_string "DUSamFaUtRQ78DVidoeY3J8keYkQXdinrt") =
  Val (P2pkh h Doge.Dogecoin).
Proof. eexists. vm_compute. reflexivity. Qed.
Example parse_script : exists h,
  @from_str true (String.list_byte_of_string "2N3zXjbwdTcPsJiy8sUK9FhWJhqQCxA8Jjr") =
  Val (P2sh h Doge.Testnet).
Proof. eexists. vm_compute. reflexivity. Qed.
End tests.

(** ** Text form: proofs *)

Definition address_wf (a : Address) : Prop := length (payload_as_bytes a) = 20%nat.
Definition network (a : Address) : Doge.Network :=
  match a with P2pkh _ n => n | P2sh _ n => n end.
Definition with_network (a : Address) (n : Doge.Network) : Address :=
  match a with P2pkh h _ => P2pkh h n | P2sh h _ => P2sh h n end.

(** Script addresses of the two test networks have the same text and parse as [Testnet]. *)
Definition parsed (a : Address) : Address :=
  match a with P2sh h Doge.Regtest => P2sh h Doge.Testnet | _ => a end.

Definition prefix (a : Address) : Z :=
  match a with
  | P2pkh _ Doge.Dogecoin => PUBKEY_ADDRESS_PREFIX_MAINNET
  | P2pkh _ Doge.Testnet => PUBKEY_ADDRESS_PREFIX_TESTNET
  | P2pkh _ Doge.Regtest => PUBKEY_ADDRESS_PREFIX_REGTEST
  | P2sh _ Doge.Dogecoin => SCRIPT_ADDRESS_PREFIX_MAINNET
  | P2sh _ _ => SCRIPT_ADDRESS_PREFIX_TESTNET
  end.

Lemma display_spec a : address_wf a ->
  display a = encode_check (byte.of_Z (prefix a) :: payload_as_bytes a).
Proof.
  intros Ha. unfold address_wf in Ha. destruct a as [h []|h []]; cbn [display payload_as_bytes] in *;
    unfold prefixed; by rewrite Ha.
Qed.

#[local] Opaque encode_check.

Lemma display_inj a b : address_wf a -> address_wf b ->
  display a = display b <-> prefix a = prefix b /\ payload_as_bytes a = payload_as_bytes b.
Proof.
  intros Ha Hb. rewrite !display_spec by done. split; [|by intros [-> ->]]. intros E.
  destruct (encode_check_total (byte.of_Z (prefix a) :: payload_as_bytes a)) as [s Es].
  rewrite Es in E. symmetry in E. pose proof (bm := true : BuildMode).
  apply (decode_check_encode (bm := bm)) in Es, E. rewrite Es in E. injection E as Ep ->. split; [|done].
  destruct a as [? []|? []], b as [? []|? []]; vm_compute in Ep |- *; congruence.
Qed.

Lemma from_str_spec {bm : BuildMode} s a :
  from_str s = Val a <-> address_wf a /\ parsed a = a /\ display a = Ret s.
Proof.
  split.
  - unfold from_str. case_match; [done|]. destruct (decode_check s) as [d| |] eqn:Ed; [|done..].
    destruct (Nat.eqb_spec (length d) 21) as [Hl|]; [|done]. cbn [negb].
    destruct d as [|p d]; [done|]. injection Hl as Hl. apply decode_check_encode in Ed.
    rewrite <- (byte.of_Z_unsigned p) in Ed.
    repeat match goal with
    | |- context [byte.unsigned p =? ?x] => destruct (Z.eqb_spec (byte.unsigned p) x) as [Ep|_];
        [rewrite Ep in Ed; intros [= <-]; split; [done|]; split; [done|]; by rewrite display_spec|]
    end.
    done.
  - intros (Ha & Hp & E). rewrite display_spec in E by done. unfold from_str.
    rewrite (proj2 (Nat.ltb_ge 50 (length s))).
    2: { apply encode_check_length in E. cbn [length] in E. unfold address_wf in Ha. lia. }
    apply (decode_check_encode (bm := bm)) in E. rewrite E. unfold address_wf in Ha.
    cbn [length]. rewrite Ha. cbn [Nat.eqb negb].
    destruct a as [h []|h []]; cbn in *; (reflexivity || done).
Qed.

Lemma parsed_spec a : address_wf a -> address_wf (parsed a) /\ parsed (parsed a) = parsed a /\
  display (parsed a) = display a.
Proof.
  intros Ha. assert (address_wf (parsed a)) as Hp by (by destruct a as [? []|? []]).
  split; [done|]. split; [by destruct a as [? []|? []]|]. apply display_inj; [done..|].
  by destruct a as [? []|? []].
Qed.

Lemma valid_network a n : address_wf a ->
  is_valid_for_network a n = true <-> display (with_network a n) = display a.
Proof.
  intros Ha. rewrite display_inj; [|by destruct a|done].
  destruct a as [h []|h []], n; vm_compute; intuition congruence.
Qed.

(** ** Script form: proofs *)

Lemma p2pkh_hash s h : (is_p2pkh s = true /\ take 20 (drop 3 s) = h) <->
  length h = 20%nat /\ new_p2pkh h = Ret s.
Proof.
  assert (forall h, length h = 20%nat -> new_p2pkh h = Ret s -> take 20 (drop 3 s) = h) as Hh.
  { intros x Hx. rewrite new_p2pkh_spec by done. intros [= <-]. cbn [map drop app]. by apply take_app_length'. }
  split.
  - intros [(x & Hx & E)%is_p2pkh_spec <-]. by rewrite (Hh x).
  - intros [Hl E]. split; [apply is_p2pkh_spec; by exists h|by apply Hh].
Qed.

Lemma p2sh_hash s h : (is_p2sh s = true /\ take 20 (drop 2 s) = h) <->
  length h = 20%nat /\ new_p2sh h = Ret s.
Proof.
  assert (forall h, length h = 20%nat -> new_p2sh h = Ret s -> take 20 (drop 2 s) = h) as Hh.
  { intros x Hx. rewrite new_p2sh_spec by done. intros [= <-]. cbn [map drop app]. by apply take_app_length'. }
  split.
  - intros [(x & Hx & E)%is_p2sh_spec <-]. by rewrite (Hh x).
  - intros [Hl E]. split; [apply is_p2sh_spec; by exists h|by apply Hh].
Qed.

Lemma templates_disjoint s : is_p2pkh s = true -> is_p2sh s = true -> False.
Proof.
  unfold is_p2pkh, is_p2sh. rewrite !andb_true_iff, !Nat.eqb_eq. intros H1 H2.
  destruct H1 as [[[[[H1 _] _] _] _] _], H2 as [[[H2 _] _] _]. congruence.
Qed.

Lemma from_script_spec s n a :
  from_script s n = Ok a <-> address_wf a /\ network a = n /\ script_pubkey a = Ret s.
Proof.
  unfold from_script, p2pkh, p2sh_from_hash. split.
  - destruct (is_p2pkh s) eqn:E1; [|destruct (is_p2sh s) eqn:E2; [|done]]; intros [= <-].
    + destruct (proj1 (p2pkh_hash s _) (conj E1 eq_refl)) as [Hl E]. done.
    + destruct (proj1 (p2sh_hash s _) (conj E2 eq_refl)) as [Hl E]. done.
  - intros (Ha & <- & E). destruct a as [h n|h n]; cbn [script_pubkey network] in *.
    + destruct (proj2 (p2pkh_hash s h) (conj Ha E)) as [-> ->]. done.
    + destruct (proj2 (p2sh_hash s h) (conj Ha E)) as [E2 ->]. rewrite E2.
      destruct (is_p2pkh s) eqn:E1; [|done]. destruct (templates_disjoint s E1 E2).
Qed.

(** ** Main results *)

(** C9: the text form.  Parsing never panics and accepts exactly the strings that some
    well-formed address is displayed as; a displayed address parses to itself, except that a
    script address of [Regtest] parses as one of [Testnet].  [require_network] accepts an
    address exactly on the networks on which its hash is displayed as the same string. *)
Theorem dogecoin_address_text {bm : BuildMode} (s : list byte) (a : Address) (n : Doge.Network) :
  from_str s <> Crash /\
  (from_str s = Val a <-> address_wf a /\ parsed a = a /\ display a = Ret s) /\
  (address_wf a ->
     (exists t, display a = Ret t /\ from_str t = Val (parsed a)) /\
     (require_network a n = Ok a <-> display (with_network a n) = display a)).
Proof.
  split; [|split; [apply from_str_spec|]].
  - unfold from_str. case_match; [done|]. pose proof (decode_check_no_panic s).
    destruct (decode_check s) as [[|p d]| |]; try done. by repeat case_match.
  - intros Ha. split.
    + destruct (encode_check_total (byte.of_Z (prefix a) :: payload_as_bytes a)) as [t Et].
      rewrite <- display_spec in Et by done. exists t. split; [done|]. apply from_str_spec.
      destruct (parsed_spec a Ha) as (? & ? & ->). done.
    + rewrite <- valid_network by done. unfold require_network.
      destruct (is_valid_for_network a n); [done|]. split; [|done]. intros E. discriminate E.
Qed.

(** The script form.  An output script is recognised as paying to [a] exactly when [a]
    is well formed and the script is the one [script_pubkey] builds for [a], which it does
    without panicking; [matches_script_pubkey] decides the same for a given address. *)
Lemma dogecoin_address_script (s : list byte) (a : Address) (n : Doge.Network) :
  (from_script s n = Ok a <-> address_wf a /\ network a = n /\ script_pubkey a = Ret s) /\
  (address_wf a -> (exists t, script_pubkey a = Ret t) /\
     (matches_script_pubkey a s = true <-> script_pubkey a = Ret s)).
Proof.
  split; [apply from_script_spec|]. intros Ha. unfold address_wf in Ha. split.
  - destruct a as [h m|h m]; cbn in *; [rewrite new_p2pkh_spec|rewrite new_p2sh_spec]; by eauto.
  - destruct a as [h m|h m]; cbn [matches_script_pubkey script_pubkey payload_as_bytes] in *;
      rewrite andb_true_iff, bool_decide_eq_true; [rewrite p2pkh_hash|rewrite p2sh_hash]; tauto.
Qed.
