(* ===== verification/BtcAddress.v ===== *)
(** * Bitcoin addresses ([address/mod.rs])

    Besides key and script hashes with a network, an address can be a witness program with a
    human-readable prefix, written in the segwit form of bech32.  The bech32 crate is the class
    [Bech32]; what it documents and the addresses rely on are its laws.  As for Dogecoin, the
    compile-time tag that says whether the network was checked is not part of the model. *)

From Stdlib Require Import ZArith Lia.
From Stdlib Require Strings.String.
From coqutil Require Import Byte Word.LittleEndianList.
From stdpp Require Import base tactics option list numbers.
From S2P Require Import Prelude U256 Params HashEngine Sha256 Ripemd160 Taproot Script ScriptKinds Base58 DogeAddress Keys.

Import String.StringSyntax.
Open Scope Z_scope.

(** ** The bech32 crate

    A human-readable part is compared without regard to case, so [Hrp] has one element for both
    spellings.  [segwit_decode] is [bech32::segwit::decode] without its error, the encoders are
    [encode_lower_to_fmt_unchecked] and [encode_upper_to_fmt_unchecked]. *)

Class Bech32 := {
  Hrp : Type;
  Hrp_eq_dec :: EqDecision Hrp;
  hrp_BC : Hrp;
  hrp_TB : Hrp;
  hrp_BCRT : Hrp;
  is_valid_on_testnet : Hrp -> bool;
  is_valid_on_signet : Hrp -> bool;
  segwit_decode : list byte -> option (Hrp * Z * list byte);
  encode_lower : Hrp -> Z -> list byte -> list byte;
  encode_upper : Hrp -> Z -> list byte -> list byte;
}.

(** The witness versions and programs of BIP-141. *)
Definition segwit_valid (version : Z) (program : list byte) : Prop :=
  0 <= version <= 16 /\ (2 <= length program <= 40)%nat /\
  (version = 0 -> length program = 20%nat \/ length program = 32%nat).

(** The three prefixes differ and testnet and signet share [tb]; decoding accepts valid programs
    only, and only the two encodings of what it returns, and inverts both for the three prefixes. *)
Class Bech32Laws (B : Bech32) : Prop := {
  hrp_distinct : hrp_BC <> hrp_TB /\ hrp_BC <> hrp_BCRT /\ hrp_TB <> hrp_BCRT;
  testnet_hrp h : is_valid_on_testnet h = bool_decide (h = hrp_TB);
  signet_hrp h : is_valid_on_signet h = bool_decide (h = hrp_TB);
  segwit_decode_valid s h v p : segwit_decode s = Some (h, v, p) -> segwit_valid v p;
  segwit_decode_inv s h v p : segwit_decode s = Some (h, v, p) ->
    s = encode_lower h v p \/ s = encode_upper h v p;
  segwit_decode_encode h v p : h = hrp_BC \/ h = hrp_TB \/ h = hrp_BCRT -> segwit_valid v p ->
    segwit_decode (encode_lower h v p) = Some (h, v, p) /\
    segwit_decode (encode_upper h v p) = Some (h, v, p);
}.

Module BtcAddr.

Definition PUBKEY_ADDRESS_PREFIX_MAIN : Z := 0.
Definition SCRIPT_ADDRESS_PREFIX_MAIN : Z := 5.
Definition PUBKEY_ADDRESS_PREFIX_TEST : Z := 111.
Definition SCRIPT_ADDRESS_PREFIX_TEST : Z := 196.

(** ** Names of address types *)

Definition type_display (self : AddressType) : list byte :=
  String.list_byte_of_string match self with
  | TypeP2pkh => "p2pkh"
  | TypeP2sh => "p2sh"
  | TypeP2wpkh => "p2wpkh"
  | TypeP2wsh => "p2wsh"
  | TypeP2tr => "p2tr"
  | TypeP2a => "p2a"
  end.

Definition type_from_str (s : list byte) : Result (list byte) AddressType :=
  if bool_decide (s = String.list_byte_of_string "p2pkh") then Ok TypeP2pkh
  else if bool_decide (s = String.list_byte_of_string "p2sh") then Ok TypeP2sh
  else if bool_decide (s = String.list_byte_of_string "p2wpkh") then Ok TypeP2wpkh
  else if bool_decide (s = String.list_byte_of_string "p2wsh") then Ok TypeP2wsh
  else if bool_decide (s = String.list_byte_of_string "p2tr") then Ok TypeP2tr
  else if bool_decide (s = String.list_byte_of_string "p2a") then Ok TypeP2a
  else Err s.

(** ** Networks and prefixes *)

Definition kind_of_network (n : Btc.Network) : NetworkKind :=
  match n with
  | Btc.Bitcoin => Main
  | Btc.Testnet | Btc.Testnet4 | Btc.Signet | Btc.Regtest => Test
  end.

Inductive KnownHrp := Mainnet | Testnets | Regtest.
#[export] Instance KnownHrp_eq_dec : EqDecision KnownHrp.
Proof. solve_decision. Defined.

Definition from_network (network : Btc.Network) : KnownHrp :=
  match network with
  | Btc.Bitcoin => Mainnet
  | Btc.Testnet | Btc.Testnet4 | Btc.Signet => Testnets
  | Btc.Regtest => Regtest
  end.

Definition from_hrp {B : Bech32} (hrp : Hrp) : Result Hrp KnownHrp :=
  if bool_decide (hrp = hrp_BC) then Ok Mainnet
  else if is_valid_on_testnet hrp || is_valid_on_signet hrp then Ok Testnets
  else if bool_decide (hrp = hrp_BCRT) then Ok Regtest
  else Err hrp.

Definition to_hrp {B : Bech32} (self : KnownHrp) : Hrp :=
  match self with Mainnet => hrp_BC | Testnets => hrp_TB | Regtest => hrp_BCRT end.

(** ** Data *)

(** [AddressInner]. *)
Inductive Address :=
| P2pkh (hash : list byte) (network : NetworkKind)
| P2sh (hash : list byte) (network : NetworkKind)
| Segwit (program : WitnessProgram) (hrp : KnownHrp).

Inductive AddressData :=
| DataP2pkh (pubkey_hash : list byte)
| DataP2sh (script_hash : list byte)
| DataSegwit (witness_program : WitnessProgram).

Definition p2pkh (pk : list byte) (network : NetworkKind) : Address := P2pkh pk network.
Definition p2sh_from_hash (hash : list byte) (network : NetworkKind) : Address := P2sh hash network.
Definition from_witness_program (program : WitnessProgram) (hrp : KnownHrp) : Address := Segwit program hrp.

Definition p2sh (script : list byte) (network : NetworkKind) : Result P2shError Address :=
  if (MAX_SCRIPT_ELEMENT_SIZE <? length script)%nat then Err ExcessiveScriptSize
  else Ok (p2sh_from_hash (hash160.hash script) network).

(** [Builder::new().push_int(0).push_slice(hash)] and its script hash *)
Definition redeem_hash (hash : list byte) : run (list byte) :=
  b ← Build.push_int Build.new 0;
  b ← Build.push_slice b hash;
  Ret (hash160.hash (Build.into_script b)).

Definition p2wpkh {K : SecpKeys} (pk : SecpPublicKey) (hrp : KnownHrp) : Address :=
  from_witness_program (mkProgram V0 (compressed_pubkey_hash pk)) hrp.
Definition p2shwpkh {K : SecpKeys} (pk : SecpPublicKey) (network : NetworkKind) : run Address :=
  script_hash ← redeem_hash (compressed_pubkey_hash pk); Ret (p2sh_from_hash script_hash network).
Definition p2wsh (script : list byte) (hrp : KnownHrp) : Address :=
  from_witness_program (mkProgram V0 (wscript_hash script)) hrp.
Definition p2shwsh (script : list byte) (network : NetworkKind) : run Address :=
  script_hash ← redeem_hash (wscript_hash script); Ret (p2sh_from_hash script_hash network).
Definition p2tr_tweaked {S : Secp256k1} (output_key : XOnlyPublicKey) (hrp : KnownHrp) : Address :=
  from_witness_program (mkProgram V1 (key_serialize output_key)) hrp.
Definition p2tr {bm : BuildMode} {S : Secp256k1} (internal_key : XOnlyPublicKey) (merkle_root : option (list byte))
    (hrp : KnownHrp) : run Address :=
  '(output_key, _) ← tap_tweak internal_key merkle_root; Ret (p2tr_tweaked output_key hrp).

Definition address_type (self : Address) : option AddressType :=
  match self with
  | P2pkh _ _ => Some TypeP2pkh
  | P2sh _ _ => Some TypeP2sh
  | Segwit program _ =>
      if program_is_p2wpkh program then Some TypeP2wpkh
      else if program_is_p2wsh program then Some TypeP2wsh
      else if program_is_p2tr program then Some TypeP2tr
      else if program_is_p2a program then Some TypeP2a
      else None
  end.

Definition to_address_data (self : Address) : AddressData :=
  match self with
  | P2pkh hash _ => DataP2pkh hash
  | P2sh hash _ => DataP2sh hash
  | Segwit program _ => DataSegwit program
  end.
Definition pubkey_hash (self : Address) : option (list byte) :=
  match self with P2pkh hash _ => Some hash | _ => None end.
Definition script_hash (self : Address) : option (list byte) :=
  match self with P2sh hash _ => Some hash | _ => None end.
Definition witness_program (self : Address) : option WitnessProgram :=
  match self with Segwit program _ => Some program | _ => None end.
Definition is_spend_standard (self : Address) : bool := bool_decide (is_Some (address_type self)).
Definition payload_as_bytes (self : Address) : list byte :=
  match self with P2sh hash _ => hash | P2pkh hash _ => hash | Segwit p _ => program p end.

(** ** Text form *)

Definition display {B : Bech32} (alternate : bool) (self : Address) : run (list byte) :=
  match self with
  | P2pkh hash network =>
      prefixed ← prefixed match network with
                          | Main => PUBKEY_ADDRESS_PREFIX_MAIN
                          | Test => PUBKEY_ADDRESS_PREFIX_TEST
                          end hash;
      encode_check_to_fmt prefixed
  | P2sh hash network =>
      prefixed ← prefixed match network with
                          | Main => SCRIPT_ADDRESS_PREFIX_MAIN
                          | Test => SCRIPT_ADDRESS_PREFIX_TEST
                          end hash;
      encode_check_to_fmt prefixed
  | Segwit p hrp =>
      let version := to_num (pversion p) in
      if alternate then Ret (encode_upper (to_hrp hrp) version (program p))
      else Ret (encode_lower (to_hrp hrp) version (program p))
  end.

Definition to_qr_uri {B : Bech32} (self : Address) : run (list byte) :=
  s ← display true self; Ret (String.list_byte_of_string "bitcoin:" ++ s).

Inductive ParseError {B : Bech32} :=
| Base58 (e : Error)
| WitnessVersion (e : Z)
| UnknownHrp (e : Hrp)
| LegacyAddressTooLong (length : nat)
| InvalidBase58PayloadLength (length : nat)
| InvalidLegacyPrefix (invalid : Z)
| NetworkValidation (required : Btc.Network) (address : Address).

(** The second half of [from_str]. *)
Definition legacy_from_str {bm : BuildMode} {B : Bech32} (s : list byte) : comp ParseError Address :=
  if (50 <? length s)%nat then Throw (LegacyAddressTooLong (length s)) else
  match decode_check s with
  | Crash => Crash
  | Throw e => Throw (Base58 e)
  | Val data =>
      if negb (length data =? 21)%nat then Throw (InvalidBase58PayloadLength (length s)) else
      match data with
      | [] => Crash
      | prefix :: data =>
          let prefix := byte.unsigned prefix in
          if prefix =? PUBKEY_ADDRESS_PREFIX_MAIN then Val (P2pkh data Main)
          else if prefix =? PUBKEY_ADDRESS_PREFIX_TEST then Val (P2pkh data Test)
          else if prefix =? SCRIPT_ADDRESS_PREFIX_MAIN then Val (P2sh data Main)
          else if prefix =? SCRIPT_ADDRESS_PREFIX_TEST then Val (P2sh data Test)
          else Throw (InvalidLegacyPrefix prefix)
      end
  end.

Definition from_str {bm : BuildMode} {B : Bech32} (s : list byte) : comp ParseError Address :=
  match segwit_decode s with
  | Some (hrp, witness_version, data) =>
      version ← of_result (map_err WitnessVersion (version_from_u8 witness_version));
      match witness_program_new version data with
      | Err _ => Crash
      | Ok program =>
          hrp ← of_result (map_err UnknownHrp (from_hrp hrp));
          Val (Segwit program hrp)
      end
  | None => legacy_from_str s
  end.

(** ** Networks *)

Definition is_valid_for_network (self : Address) (n : Btc.Network) : bool :=
  match self with
  | P2pkh _ network => bool_decide (network = kind_of_network n)
  | P2sh _ network => bool_decide (network = kind_of_network n)
  | Segwit _ hrp => bool_decide (hrp = from_network n)
  end.

Definition require_network {B : Bech32} (self : Address) (required : Btc.Network) : Result ParseError Address :=
  if is_valid_for_network self required then Ok self else Err (NetworkValidation required self).

(** ** Script form *)

Definition script_pubkey {bm : BuildMode} (self : Address) : run (list byte) :=
  match self with
  | P2pkh hash _ => new_p2pkh hash
  | P2sh hash _ => new_p2sh hash
  | Segwit p _ => new_witness_program_unchecked (pversion p) (program p)
  end.

Inductive FromScriptError :=
| UnrecognizedScript
| FromWitnessProgram (e : WitnessProgramError)
| FromWitnessVersion (e : Z).

(** [params] gives only its network. *)
Definition from_script (script : list byte) (network : Btc.Network) : comp FromScriptError Address :=
  if is_p2pkh script then Val (p2pkh (take 20 (drop 3 script)) (kind_of_network network))
  else if is_p2sh script then Val (p2sh_from_hash (take 20 (drop 2 script)) (kind_of_network network))
  else
    w ← of_run (is_witness_program script);
    if w : bool then
      match script with
      | [] => Crash
      | opcode :: _ =>
          version ← of_result (map_err FromWitnessVersion (version_from_opcode (byte.unsigned opcode)));
          program ← of_result (map_err FromWitnessProgram (witness_program_new version (drop 2 script)));
          Val (from_witness_program program (from_network network))
      end
    else Throw UnrecognizedScript.

Definition matches_script_pubkey (self : Address) (script : list byte) : run bool :=
  match self with
  | P2pkh hash _ => Ret (is_p2pkh script && bool_decide (take 20 (drop 3 script) = hash))
  | P2sh hash _ => Ret (is_p2sh script && bool_decide (take 20 (drop 2 script) = hash))
  | Segwit p _ =>
      w ← is_witness_program script;
      Ret (w && bool_decide (drop 2 script = program p))
  end.

(** ** Keys *)

Definition segwit_redeem_hash (pubkey_hash : list byte) : list byte :=
  hash160.from_engine
    (engine_input (engine_input Sha256.default (map byte.of_Z [0; 20])) pubkey_hash).

Section related.
Context {K : SecpKeys}.
(** The serialised x-only form of a key, [XOnlyPublicKey::from(key).serialize()]. *)
Context (xonly : SecpPublicKey -> list byte).

Definition is_related_to_pubkey (self : Address) (pubkey : PublicKey) : bool :=
  let pubkey_hash := Keys.pubkey_hash pubkey in
  let payload := payload_as_bytes self in
  let xonly_pubkey := xonly (pk_inner pubkey) in
  bool_decide (pubkey_hash = payload) || bool_decide (xonly_pubkey = payload)
  || bool_decide (segwit_redeem_hash pubkey_hash = payload).
End related.

Definition is_related_to_xonly_pubkey {S : Secp256k1} (self : Address) (xonly_pubkey : XOnlyPublicKey) : bool :=
  bool_decide (key_serialize xonly_pubkey = payload_as_bytes self).

End BtcAddr.

Import BtcAddr.

(** ** Well-formed addresses

    The types of the source: hashes of 20 bytes, programs that [WitnessProgram::new] accepts. *)

Definition program_wf (p : WitnessProgram) : Prop := segwit_valid (to_num (pversion p)) (program p).
Definition btc_address_wf (a : Address) : Prop :=
  match a with
  | P2pkh hash _ | P2sh hash _ => length hash = 20%nat
  | Segwit p _ => program_wf p
  end.

Lemma to_num_range v : 0 <= to_num v <= 16.
Proof. destruct v; simpl; lia. Qed.

Lemma to_num_V0 v : to_num v = 0 <-> v = V0.
Proof. by destruct v. Qed.

Lemma to_num_inj v w : to_num v = to_num w -> v = w.
Proof. intros E. assert (version_from_u8 (to_num v) = Ok w) as H by (by apply version_from_u8_ok).
  pose proof (proj2 (version_from_u8_ok _ v) eq_refl). congruence. Qed.

Lemma program_wf_iff v prog :
  program_wf (mkProgram v prog) <->
  (2 <= length prog <= 40)%nat /\ (v = V0 -> length prog = 20%nat \/ length prog = 32%nat).
Proof.
  unfold program_wf, segwit_valid. cbn [pversion program]. rewrite to_num_V0.
  pose proof (to_num_range v). tauto.
Qed.

Lemma witness_program_new_iff v prog p :
  witness_program_new v prog = Ok p <-> p = mkProgram v prog /\ program_wf p.
Proof.
  destruct (witness_program_scripts_exact (bm := true) [] v prog) as (Hnew & _). split.
  - intros E. assert (p = mkProgram v prog) as ->.
    { unfold witness_program_new in E. repeat case_match; by simplify_eq. }
    split; [done|]. apply program_wf_iff, Hnew. eauto.
  - intros [-> Hw]. apply program_wf_iff, Hnew in Hw as [q E]. rewrite E. f_equal.
    unfold witness_program_new in E. repeat case_match; by simplify_eq.
Qed.

Lemma version_from_u8_valid z prog : segwit_valid z prog -> exists v, version_from_u8 z = Ok v.
Proof.
  intros [Hz _]. destruct (version_from_u8 z) as [v|e] eqn:E; [by exists v|].
  unfold version_from_u8 in E. exfalso. repeat case_match; try done; lia.
Qed.

(** ** Text form: proofs *)

Lemma type_from_str_iff s t : type_from_str s = Ok t <-> s = type_display t.
Proof.
  split; [|intros ->; by destruct t]. unfold type_from_str.
  repeat (case_bool_decide; [by intros [= <-]|]). done.
Qed.

Section text.
Context {bm : BuildMode} {B : Bech32} {L : Bech32Laws B}.

Lemma to_hrp_known h : to_hrp h = hrp_BC \/ to_hrp h = hrp_TB \/ to_hrp h = hrp_BCRT.
Proof. destruct h; simpl; auto. Qed.

Lemma from_hrp_iff h k : from_hrp h = Ok k <-> h = to_hrp k.
Proof.
  destruct hrp_distinct as (H1 & H2 & H3). unfold from_hrp. rewrite testnet_hrp, signet_hrp, orb_diag.
  repeat case_bool_decide; subst; destruct k; simpl; split; intros; simplify_eq; done.
Qed.

(** The prefix byte and hash of an address that is not a witness program. *)
Definition legacy_payload (a : Address) : option (list byte) :=
  match a with
  | P2pkh h Main => Some (byte.of_Z PUBKEY_ADDRESS_PREFIX_MAIN :: h)
  | P2pkh h Test => Some (byte.of_Z PUBKEY_ADDRESS_PREFIX_TEST :: h)
  | P2sh h Main => Some (byte.of_Z SCRIPT_ADDRESS_PREFIX_MAIN :: h)
  | P2sh h Test => Some (byte.of_Z SCRIPT_ADDRESS_PREFIX_TEST :: h)
  | Segwit _ _ => None
  end.

Lemma legacy_display alt a d : legacy_payload a = Some d -> btc_address_wf a ->
  display alt a = encode_check d /\ length d = 21%nat.
Proof.
  intros Hd Ha. destruct a as [h []|h []|]; simplify_eq/=; unfold prefixed; by rewrite Ha.
Qed.

#[local] Opaque encode_check decode_check.

Lemma legacy_from_str_iff s a :
  legacy_from_str s = Val a <->
  btc_address_wf a /\ exists d, legacy_payload a = Some d /\ encode_check d = Ret s.
Proof.
  split.
  - unfold legacy_from_str. case_match; [done|]. destruct (decode_check s) as [d| |] eqn:Ed; [|done..].
    destruct (Nat.eqb_spec (length d) 21) as [Hl|]; [|done]. cbn [negb].
    destruct d as [|p d]; [done|]. injection Hl as Hl. apply decode_check_encode in Ed.
    rewrite <- (byte.of_Z_unsigned p) in Ed.
    repeat match goal with
    | |- context [byte.unsigned p =? ?x] => destruct (Z.eqb_spec (byte.unsigned p) x) as [Ep|_];
        [rewrite Ep in Ed; intros [= <-]; split; [done|]; eexists; split; [reflexivity|exact Ed]|]
    end.
    done.
  - intros (Ha & d & Hd & E). destruct (legacy_display false a d Hd Ha) as [_ Hl].
    unfold legacy_from_str. rewrite (proj2 (Nat.ltb_ge 50 (length s))).
    2: { apply encode_check_length in E. lia. }
    apply (decode_check_encode (bm := bm)) in E. rewrite E, Hl. cbn [Nat.eqb negb].
    destruct a as [h []|h []|]; simplify_eq/=; reflexivity.
Qed.

Lemma legacy_from_str_no_panic s : legacy_from_str s <> Crash.
Proof.
  unfold legacy_from_str. case_match; [done|]. pose proof (decode_check_no_panic s).
  destruct (decode_check s) as [[|p d]| |]; try done. by repeat case_match.
Qed.

(** The texts of an address: both bech32 spellings of a witness program, the base58check text of a
    hash, unless that happens to be a bech32 text as well. *)
Definition denotes (s : list byte) (a : Address) : Prop :=
  btc_address_wf a /\
  match a with
  | Segwit _ _ => exists alt, display alt a = Ret s
  | _ => display false a = Ret s /\ segwit_decode s = None
  end.

Lemma legacy_denotes s a d : legacy_payload a = Some d ->
  denotes s a <-> btc_address_wf a /\ encode_check d = Ret s /\ segwit_decode s = None.
Proof.
  intros Hd. assert (btc_address_wf a -> display false a = encode_check d) as E.
  { intros Ha. by destruct (legacy_display false a d Hd Ha). }
  unfold denotes. split; intros [Ha H]; (split; [done|]); specialize (E Ha);
    destruct a as [? ?|? ?|? ?]; [rewrite <- E|rewrite <- E|done|rewrite E|rewrite E|done]; exact H.
Qed.

Lemma from_str_denotes s a : from_str s = Val a <-> denotes s a.
Proof.
  unfold from_str. destruct (segwit_decode s) as [[[h z] p]|] eqn:Ed.
  - pose proof (segwit_decode_valid _ _ _ _ Ed) as Hv.
    destruct (version_from_u8_valid z p Hv) as [v Ev]. rewrite Ev. cbn [map_err of_result mbind comp_bind].
    apply version_from_u8_ok in Ev. subst z.
    rewrite (proj2 (witness_program_new_iff v p (mkProgram v p))) by (split; [done|exact Hv]). split.
    + destruct (from_hrp h) as [k|] eqn:Ek; [|done]. apply from_hrp_iff in Ek. subst h.
      cbn [map_err of_result mbind comp_bind]. intros [= <-]. split; [exact Hv|].
      apply segwit_decode_inv in Ed as [->| ->]; [exists false|exists true]; reflexivity.
    + intros [Ha Ht]. destruct a as [? ?|? ?|q k]; [destruct Ht as [_ E]; congruence..|]. destruct Ht as [alt Ht].
      assert (segwit_decode s = Some (to_hrp k, to_num (pversion q), program q)) as Ed'.
      { destruct (segwit_decode_encode (to_hrp k) _ _ (to_hrp_known k) Ha) as [H1 H2].
        destruct alt; injection Ht as <-; done. }
      rewrite Ed in Ed'. injection Ed' as -> Ev ->. apply to_num_inj in Ev as ->.
      rewrite (proj2 (from_hrp_iff _ k) eq_refl). by destruct q.
  - rewrite legacy_from_str_iff. split.
    + intros (Ha & d & Hd & E). by apply (legacy_denotes s a d Hd).
    + intros Hd. destruct (legacy_payload a) as [d|] eqn:Ep.
      { destruct (proj1 (legacy_denotes s a d Ep) Hd) as (Ha & E & _). eauto. }
      destruct a as [? []|? []|q k]; try done. destruct Hd as [Ha [alt Ht]].
      destruct (segwit_decode_encode (to_hrp k) _ _ (to_hrp_known k) Ha) as [H1 H2].
      destruct alt; injection Ht as <-; congruence.
Qed.

Lemma from_str_no_panic s : from_str s <> Crash.
Proof.
  unfold from_str. destruct (segwit_decode s) as [[[h z] p]|] eqn:Ed; [|apply legacy_from_str_no_panic].
  pose proof (segwit_decode_valid _ _ _ _ Ed) as Hv.
  destruct (version_from_u8_valid z p Hv) as [v Ev]. rewrite Ev. cbn [map_err of_result mbind comp_bind].
  apply version_from_u8_ok in Ev. subst z.
  rewrite (proj2 (witness_program_new_iff v p (mkProgram v p))) by (split; [done|exact Hv]).
  by destruct (from_hrp h).
Qed.

Lemma display_total alt a : btc_address_wf a -> exists s, display alt a = Ret s.
Proof.
  intros Ha. destruct (legacy_payload a) as [d|] eqn:Ed.
  - destruct (legacy_display alt a d Ed Ha) as [-> _]. apply encode_check_total.
  - destruct a as [? []|? []|]; try done. destruct alt; eexists; reflexivity.
Qed.
End text.

(** ** Script form: proofs *)

Lemma is_witness_program_iff s : exists b, is_witness_program s = Ret b /\
  (b = true <-> exists v prog, (2 <= length prog <= 40)%nat /\ s = program_script v prog).
Proof.
  unfold is_witness_program. destruct (witness_version_iff s) as (o & -> & Ho). rewrite bind_Ret.
  exists (bool_decide (is_Some o)). split; [done|]. rewrite bool_decide_eq_true. split.
  - intros [v Ev]. exists v. by apply Ho.
  - intros (v & Hv). exists v. by apply Ho.
Qed.

Lemma program_script_not_legacy v prog : (2 <= length prog <= 40)%nat ->
  is_p2pkh (program_script v prog) = false /\ is_p2sh (program_script v prog) = false.
Proof.
  intros Hl. assert (forall x h rest, 0x61 <= x < 256 ->
    Ret (byte.of_Z x :: h :: rest) = Ret (program_script v prog) -> False) as Hx.
  { intros x h rest Hx E. injection E as E _ _. symmetry in E. apply (f_equal byte.unsigned) in E.
    rewrite !byte_unsigned_of_Z in E by (try apply opcode_range; lia).
    destruct v; simpl in E; unfold OP_PUSHNUM_1 in E; lia. }
  split; apply not_true_is_false.
  - intros (h & Hh & E)%is_p2pkh_spec. rewrite new_p2pkh_spec in E by done.
    revert E. apply Hx. unfold OP_DUP. lia.
  - intros (h & Hh & E)%is_p2sh_spec. rewrite new_p2sh_spec in E by done.
    revert E. apply Hx. unfold OP_HASH160. lia.
Qed.

Lemma program_script_inj v prog v' prog' :
  program_script v prog = program_script v' prog' -> v = v' /\ prog = prog'.
Proof.
  intros [= E _ ->]. split; [|done]. apply (f_equal byte.unsigned) in E.
  rewrite !byte_unsigned_of_Z in E by apply opcode_range.
  destruct v, v'; simpl in E; unfold OP_PUSHNUM_1 in E; try done; lia.
Qed.

Section script.
Context {bm : BuildMode}.

Lemma segwit_script p h : program_wf p ->
  script_pubkey (Segwit p h) = Ret (program_script (pversion p) (program p)).
Proof. intros Hp. destruct p as [v prog]. apply program_wf_iff in Hp as [Hl Hv]. by apply unchecked_program. Qed.

(** What [from_script] does with a witness program. *)
Lemma from_script_program v prog n : (2 <= length prog <= 40)%nat ->
  from_script (program_script v prog) n =
  match witness_program_new v prog with
  | Ok p => Val (Segwit p (from_network n))
  | Err e => Throw (FromWitnessProgram e)
  end.
Proof.
  intros Hl. unfold from_script. destruct (program_script_not_legacy v prog Hl) as [-> ->].
  destruct (is_witness_program_iff (program_script v prog)) as (b & -> & Hb).
  rewrite (proj2 Hb) by eauto. cbn [of_run mbind comp_bind]. unfold program_script at 1.
  change (drop 2 (program_script v prog)) with prog.
  rewrite byte_unsigned_of_Z by apply opcode_range.
  rewrite (proj2 (version_opcode _ v) eq_refl). cbn [map_err of_result mbind comp_bind].
  by destruct (witness_program_new v prog).
Qed.

Lemma from_script_other s n :
  is_p2pkh s = false -> is_p2sh s = false ->
  (~ exists v prog, (2 <= length prog <= 40)%nat /\ s = program_script v prog) ->
  from_script s n = Throw UnrecognizedScript.
Proof.
  intros H1 H2 H3. unfold from_script. rewrite H1, H2.
  destruct (is_witness_program_iff s) as ([] & -> & Hb); [|done]. by destruct (H3 (proj1 Hb eq_refl)).
Qed.

(** The script of a well-formed address is recognised. *)
Lemma from_script_pubkey s a n : btc_address_wf a -> is_valid_for_network a n = true ->
  script_pubkey a = Ret s -> from_script s n = Val a.
Proof.
  intros Ha Hn E. destruct a as [h k|h k|[v prog] k]; cbn [is_valid_for_network] in Hn;
    apply bool_decide_eq_true in Hn; subst k.
  - destruct (proj2 (p2pkh_hash s h) (conj Ha E)) as [H1 H2]. unfold from_script. by rewrite H1, H2.
  - destruct (proj2 (p2sh_hash s h) (conj Ha E)) as [H1 H2]. unfold from_script. rewrite H1, H2.
    destruct (is_p2pkh s) eqn:E1; [|done]. destruct (templates_disjoint s E1 H1).
  - rewrite segwit_script in E by done. injection E as <-. cbn [pversion program].
    rewrite from_script_program by (apply program_wf_iff in Ha; apply Ha).
    by rewrite (proj2 (witness_program_new_iff v prog (mkProgram v prog))).
Qed.

Inductive script_class (s : list byte) : Prop :=
| class_p2pkh h : length h = 20%nat -> new_p2pkh h = Ret s -> script_class s
| class_p2sh h : length h = 20%nat -> new_p2sh h = Ret s -> script_class s
| class_program v prog : (2 <= length prog <= 40)%nat -> s = program_script v prog -> script_class s
| class_other : is_p2pkh s = false -> is_p2sh s = false ->
    (~ exists v prog, (2 <= length prog <= 40)%nat /\ s = program_script v prog) -> script_class s.

Lemma script_classes s : script_class s.
Proof.
  destruct (is_p2pkh s) eqn:E1.
  { destruct (proj1 (p2pkh_hash s _) (conj E1 eq_refl)). by eapply class_p2pkh. }
  destruct (is_p2sh s) eqn:E2.
  { destruct (proj1 (p2sh_hash s _) (conj E2 eq_refl)). by eapply class_p2sh. }
  destruct (is_witness_program_iff s) as (b & _ & Hb). destruct b.
  - destruct (proj1 Hb eq_refl) as (v & prog & Hl & E). by eapply class_program.
  - apply class_other; [done..|]. rewrite <- Hb. done.
Qed.

Lemma from_script_Val s n a : from_script s n = Val a ->
  btc_address_wf a /\ is_valid_for_network a n = true /\ script_pubkey a = Ret s.
Proof.
  destruct (script_classes s) as [h Hh E|h Hh E|v prog Hl ->|H1 H2 H3].
  - rewrite (from_script_pubkey s (P2pkh h (kind_of_network n))) by (done || by apply bool_decide_eq_true).
    intros [= <-]. split; [done|]. split; [by apply bool_decide_eq_true|done].
  - rewrite (from_script_pubkey s (P2sh h (kind_of_network n))) by (done || by apply bool_decide_eq_true).
    intros [= <-]. split; [done|]. split; [by apply bool_decide_eq_true|done].
  - rewrite from_script_program by done. destruct (witness_program_new v prog) as [p|] eqn:Ep; [|done].
    apply witness_program_new_iff in Ep as [-> Hp]. intros [= <-]. split; [done|].
    split; [by apply bool_decide_eq_true|by apply segwit_script].
  - by rewrite from_script_other.
Qed.

Lemma from_script_Throw s n e : from_script s n = Throw e <->
  (e = UnrecognizedScript /\ is_p2pkh s = false /\ is_p2sh s = false /\
     ~ exists v prog, (2 <= length prog <= 40)%nat /\ s = program_script v prog) \/
  (exists prog, e = FromWitnessProgram (InvalidSegwitV0Length (length prog)) /\ s = program_script V0 prog /\
     (2 <= length prog <= 40)%nat /\ length prog <> 20%nat /\ length prog <> 32%nat).
Proof.
  split.
  - destruct (script_classes s) as [h Hh E|h Hh E|v prog Hl ->|H1 H2 H3].
    + by rewrite (from_script_pubkey s (P2pkh h (kind_of_network n))) by (done || by apply bool_decide_eq_true).
    + by rewrite (from_script_pubkey s (P2sh h (kind_of_network n))) by (done || by apply bool_decide_eq_true).
    + rewrite from_script_program by done. unfold witness_program_new, MIN_SIZE, MAX_SIZE.
      rewrite (proj2 (Nat.ltb_ge _ 2)), (proj2 (Nat.ltb_ge 40 _)) by lia. cbn [orb].
      case_bool_decide as Ev; [|done]. subst v. cbn [andb].
      destruct (Nat.eqb_spec (length prog) 20), (Nat.eqb_spec (length prog) 32); cbn [negb andb]; try done.
      intros [= <-]. right. by exists prog.
    + rewrite from_script_other by done. intros [= <-]. left. done.
  - intros [(-> & H1 & H2 & H3)|(prog & -> & -> & Hl & H20 & H32)]; [by apply from_script_other|].
    rewrite from_script_program by done. unfold witness_program_new, MIN_SIZE, MAX_SIZE.
    rewrite (proj2 (Nat.ltb_ge _ 2)), (proj2 (Nat.ltb_ge 40 _)) by lia.
    by rewrite (proj2 (Nat.eqb_neq _ 20) H20), (proj2 (Nat.eqb_neq _ 32) H32).
Qed.

Lemma from_script_no_panic s n : from_script s n <> Crash.
Proof.
  destruct (script_classes s) as [h Hh E|h Hh E|v prog Hl ->|H1 H2 H3].
  - by rewrite (from_script_pubkey s (P2pkh h (kind_of_network n))) by (done || by apply bool_decide_eq_true).
  - by rewrite (from_script_pubkey s (P2sh h (kind_of_network n))) by (done || by apply bool_decide_eq_true).
  - rewrite from_script_program by done. by destruct (witness_program_new v prog).
  - by rewrite from_script_other.
Qed.

(** What [matches_script_pubkey] tests. *)
Lemma matches_script_pubkey_iff a s : btc_address_wf a -> exists b, matches_script_pubkey a s = Ret b /\
  (b = true <-> match a with
                | Segwit p _ => exists v, s = program_script v (program p)
                | _ => script_pubkey a = Ret s
                end).
Proof.
  intros Ha. destruct a as [h k|h k|[v prog] k]; cbn [matches_script_pubkey].
  - eexists. split; [done|]. rewrite andb_true_iff, bool_decide_eq_true, p2pkh_hash. cbn in *. tauto.
  - eexists. split; [done|]. rewrite andb_true_iff, bool_decide_eq_true, p2sh_hash. cbn in *. tauto.
  - destruct (is_witness_program_iff s) as (b & -> & Hb). rewrite bind_Ret. eexists. split; [done|].
    rewrite andb_true_iff, bool_decide_eq_true, Hb. cbn [program]. split.
    + intros [(w & prog' & _ & ->) E]. exists w. by rewrite <- E.
    + intros (w & ->). split; [|done]. exists w, prog. apply program_wf_iff in Ha. split; [apply Ha|done].
Qed.

Lemma script_pubkey_total a : btc_address_wf a -> exists t, script_pubkey a = Ret t.
Proof.
  intros Ha. destruct a as [h m|h m|p m]; [cbn in *; rewrite new_p2pkh_spec by done; by eauto
    |cbn in *; rewrite new_p2sh_spec by done; by eauto|rewrite segwit_script by done; by eauto].
Qed.
End script.

(** ** Addresses of keys and scripts: proofs *)

Lemma hash160_length_engine e m : sha_represents e m -> 8 * Z.of_nat (length m) < 2 ^ 64 ->
  length (hash160.from_engine e) = 20%nat.
Proof. intros He Hm. rewrite (hash160_engine_spec e m) by done. apply rmd_length. Qed.

Lemma hash160_hash_spec m : 8 * Z.of_nat (length m) < 2 ^ 64 ->
  hash160.hash m = rmd_spec.ripemd160 (Spec.sha256 m).
Proof. intros Hm. apply hash160_engine_spec; [|done]. apply (engine_input_represents _ []), default_represents. Qed.

Lemma segwit_redeem_hash_spec h : length h = 20%nat ->
  segwit_redeem_hash h = hash160.hash (program_script V0 h).
Proof.
  intros Hh. rewrite hash160_hash_spec by (cbn [length program_script]; lia). unfold segwit_redeem_hash.
  rewrite (hash160_engine_spec _ (program_script V0 h)); [done| |cbn [length program_script]; lia].
  unfold program_script. rewrite Hh.
  apply (engine_input_represents _ (map byte.of_Z [0; 20])), (engine_input_represents _ []), default_represents.
Qed.

Lemma redeem_hash_spec h : (length h <= 40)%nat -> redeem_hash h = Ret (hash160.hash (program_script V0 h)).
Proof.
  intros Hh. unfold redeem_hash. change (Build.push_int Build.new 0) with
    (Ret (Build.push_opcode Build.new (opcode_from_version V0))). rewrite bind_Ret.
  pose proof (build_program V0 h Hh) as Hb.
  destruct (Build.push_slice _ h) as [b|]; [|done]. rewrite bind_Ret in *. by injection Hb as ->.
Qed.

Section keys.
Context {bm : BuildMode} {K : SecpKeys} {L : SecpKeysLaws K} (xonly : SecpPublicKey -> list byte).
#[local] Opaque hash160.hash.

Lemma compressed_pubkey_hash_length k : length (compressed_pubkey_hash k) = 20%nat.
Proof.
  destruct (pk_serialize_form k) as (b & x & E & Hx & _). unfold compressed_pubkey_hash.
  rewrite hash160_hash_spec, rmd_length; [done|]. rewrite E. cbn [length]. lia.
Qed.

Lemma nested_program prog network : (length prog = 20 \/ length prog = 32)%nat ->
  exists s, script_pubkey (Segwit (mkProgram V0 prog) Mainnet) = Ret s /\ exists h,
    redeem_hash prog = Ret h /\ p2sh s network = Ok (P2sh h network).
Proof.
  intros Hp. exists (program_script V0 prog). split; [apply segwit_script, program_wf_iff; lia|].
  eexists. split; [apply redeem_hash_spec; lia|]. unfold p2sh, MAX_SCRIPT_ELEMENT_SIZE.
  by rewrite (proj2 (Nat.ltb_ge 520 _)) by (cbn [length program_script]; lia).
Qed.
End keys.

(** ** Main results *)

(** C32: addresses as text.  In both builds parsing never panics and accepts exactly the strings
    that denote a well-formed address: either case of the bech32 text of a witness program, and the
    base58check text of a key or script hash unless the bech32 decoder takes it first.  Displaying a
    well-formed address does not panic, so what is displayed parses back, and [require_network]
    accepts exactly the networks whose kind, or prefix for witness programs, the address has. *)
Theorem btc_address_text_exact {bm : BuildMode} {B : Bech32} {L : Bech32Laws B}
    (s : list byte) (a : Address) (n : Btc.Network) :
  from_str s <> Crash /\
  (from_str s = Val a <-> denotes s a) /\
  (btc_address_wf a -> forall alternate, exists t, display alternate a = Ret t /\
     (from_str t = Val a <-> segwit_decode t = None \/ exists p hrp, a = Segwit p hrp)) /\
  (require_network a n = Ok a <->
     match a with
     | P2pkh _ k | P2sh _ k => k = kind_of_network n
     | Segwit _ hrp => hrp = from_network n
     end).
Proof.
  split; [apply from_str_no_panic|]. split; [apply from_str_denotes|]. split.
  - intros Ha alt. destruct (display_total alt a Ha) as [t Et]. exists t. split; [done|].
    rewrite from_str_denotes. destruct a as [h k|h k|p k]; unfold denotes.
    1, 2: (change (display false ?a) with (display alt a); rewrite Et; split;
           [intros (_ & _ & ?); by left|intros [?|(? & ? & ?)]; done]).
    split; [intros _; right; by eauto|]. intros _. split; [done|by eexists].
  - unfold require_network. destruct a as [h k|h k|p k]; cbn [is_valid_for_network];
      case_bool_decide as E; split; intros H; try done; discriminate H.
Qed.

(** Addresses and scripts.  [from_script] never panics and returns an address exactly when it is
    well formed, valid on the network and the script is its [script_pubkey], which is built without
    a panic; its errors are exactly a script of no known form and a version 0 program that is
    neither 20 nor 32 bytes long.  [matches_script_pubkey] never panics and decides whether the
    script is that of the address for key and script hashes; for witness programs it ignores the
    witness version and accepts the scripts of every version with the same program. *)
Lemma btc_address_script_exact {bm : BuildMode} (s : list byte) (a : Address) (n : Btc.Network)
    (e : FromScriptError) :
  from_script s n <> Crash /\
  (from_script s n = Val a <->
     btc_address_wf a /\ is_valid_for_network a n = true /\ script_pubkey a = Ret s) /\
  (from_script s n = Throw e <->
     (e = UnrecognizedScript /\ is_p2pkh s = false /\ is_p2sh s = false /\
        ~ exists v prog, (2 <= length prog <= 40)%nat /\ s = program_script v prog) \/
     (exists prog, e = FromWitnessProgram (InvalidSegwitV0Length (length prog)) /\
        s = program_script V0 prog /\
        (2 <= length prog <= 40)%nat /\ length prog <> 20%nat /\ length prog <> 32%nat)) /\
  (btc_address_wf a -> (exists t, script_pubkey a = Ret t) /\
     exists b, matches_script_pubkey a s = Ret b /\
       (b = true <-> match a with
                     | Segwit p _ => exists v, s = program_script v (program p)
                     | _ => script_pubkey a = Ret s
                     end)).
Proof.
  split; [apply from_script_no_panic|]. split; [|split; [apply from_script_Throw|]].
  - split; [apply from_script_Val|]. intros (Ha & Hn & E). by apply from_script_pubkey.
  - intros Ha. split; [by apply script_pubkey_total|by apply matches_script_pubkey_iff].
Qed.

#[local] Opaque hash160.hash Sha256.hash hash160.from_engine.

(** The addresses of a compressed key and of a script.  The P2PKH, P2WPKH and nested P2WPKH
    addresses of a key are related to it; the nested addresses, of keys and of scripts, are built
    without a panic and are the P2SH addresses of the scripts of the segwit addresses. *)
Lemma btc_key_addresses {bm : BuildMode} {K : SecpKeys} {L : SecpKeysLaws K}
    (xonly : SecpPublicKey -> list byte) (k : SecpPublicKey) (witness_script : list byte)
    (network : NetworkKind) (hrp : KnownHrp) (Hs : 8 * Z.of_nat (length witness_script) < 2 ^ 64) :
  is_related_to_pubkey xonly (p2pkh (Keys.pubkey_hash (public_new k)) network) (public_new k) = true /\
  is_related_to_pubkey xonly (p2wpkh k hrp) (public_new k) = true /\
  address_type (p2wpkh k hrp) = Some TypeP2wpkh /\ address_type (p2wsh witness_script hrp) = Some TypeP2wsh /\
  (exists a s, p2shwpkh k network = Ret a /\ script_pubkey (p2wpkh k hrp) = Ret s /\
     p2sh s network = Ok a /\ is_related_to_pubkey xonly a (public_new k) = true) /\
  (exists a s, p2shwsh witness_script network = Ret a /\ script_pubkey (p2wsh witness_script hrp) = Ret s /\
     p2sh s network = Ok a).
Proof.
  pose proof (compressed_pubkey_hash_length k) as Hl.
  assert (length (wscript_hash witness_script) = 32%nat) as Hw.
  { unfold wscript_hash. rewrite hash_spec by done. unfold Spec.sha256. apply state_words_length. }
  assert (Keys.pubkey_hash (public_new k) = compressed_pubkey_hash k) as Hk by reflexivity.
  unfold is_related_to_pubkey, address_type, p2wpkh, p2wsh, from_witness_program, p2shwpkh, p2shwsh.
  rewrite Hk. cbn [payload_as_bytes p2pkh program]. rewrite (bool_decide_true (_ = _)) by reflexivity. cbn [orb].
  split; [reflexivity|]. split; [reflexivity|]. split; [|split].
  - unfold program_is_p2wpkh. cbn [pversion program]. rewrite Hl. reflexivity.
  - unfold program_is_p2wpkh, program_is_p2wsh. cbn [pversion program]. rewrite Hw. reflexivity.
  - split.
    + destruct (nested_program (compressed_pubkey_hash k) network (or_introl Hl)) as (s & Es & h & Eh & Ep).
      exists (P2sh h network), s. rewrite Eh, bind_Ret. split; [reflexivity|]. split; [exact Es|]. split; [exact Ep|].
      cbn [payload_as_bytes]. rewrite segwit_redeem_hash_spec by done.
      rewrite redeem_hash_spec in Eh by lia. injection Eh as <-.
      rewrite !orb_true_iff, !bool_decide_eq_true. right. reflexivity.
    + destruct (nested_program (wscript_hash witness_script) network (or_intror Hw)) as (s & Es & h & Eh & Ep).
      exists (P2sh h network), s. rewrite Eh, bind_Ret. split; [reflexivity|]. split; [exact Es|exact Ep].
Qed.

(** ** An encoding that satisfies the laws of [Bech32]

    A letter for the prefix, a byte for the version and the program as it is. *)

Module ToyBech32.

Definition tag (upper : bool) (h : KnownHrp) : byte :=
  match h, upper with
  | Mainnet, false => Byte.x62 | Mainnet, true => Byte.x42
  | Testnets, false => Byte.x74 | Testnets, true => Byte.x54
  | Regtest, false => Byte.x72 | Regtest, true => Byte.x52
  end.
Definition of_tag (b : byte) : option KnownHrp :=
  match b with
  | Byte.x62 | Byte.x42 => Some Mainnet
  | Byte.x74 | Byte.x54 => Some Testnets
  | Byte.x72 | Byte.x52 => Some Regtest
  | _ => None
  end.
Definition valid (v : Z) (p : list byte) : bool :=
  (0 <=? v) && (v <=? 16) && (2 <=? length p)%nat && (length p <=? 40)%nat &&
  (negb (v =? 0) || (length p =? 20)%nat || (length p =? 32)%nat).
Definition encode (upper : bool) (h : KnownHrp) (v : Z) (p : list byte) : list byte :=
  tag upper h :: byte.of_Z v :: p.
Definition decode (s : list byte) : option (KnownHrp * Z * list byte) :=
  match s with
  | t :: v :: p =>
      match of_tag t with
      | Some h => if valid (byte.unsigned v) p then Some (h, byte.unsigned v, p) else None
      | None => None
      end
  | _ => None
  end.

#[export] Instance bech32 : Bech32 := {
  Hrp := KnownHrp; Hrp_eq_dec := KnownHrp_eq_dec;
  hrp_BC := Mainnet; hrp_TB := Testnets; hrp_BCRT := Regtest;
  is_valid_on_testnet h := bool_decide (h = Testnets);
  is_valid_on_signet h := bool_decide (h = Testnets);
  segwit_decode := decode; encode_lower := encode false; encode_upper := encode true;
}.

Lemma valid_iff v p : valid v p = true <-> segwit_valid v p.
Proof.
  unfold valid, segwit_valid. rewrite !andb_true_iff, !orb_true_iff, negb_true_iff, Z.eqb_neq.
  rewrite !Z.leb_le, !Nat.leb_le, !Nat.eqb_eq. destruct (decide (v = 0)); intuition lia.
Qed.

Lemma of_tag_inv b h : of_tag b = Some h -> b = tag false h \/ b = tag true h.
Proof. destruct b; try discriminate; intros [= <-]; auto. Qed.

Lemma of_tag_tag u h : of_tag (tag u h) = Some h.
Proof. by destruct u, h. Qed.

Lemma toy_decode_Some s h v p : decode s = Some (h, v, p) ->
  segwit_valid v p /\ (s = encode false h v p \/ s = encode true h v p).
Proof.
  destruct s as [|t [|b q]]; [done..|]. unfold decode. destruct (of_tag t) as [h'|] eqn:Et; [|done].
  destruct (valid _ q) eqn:Ev; [|done]. intros [= -> <- ->]. split; [by apply valid_iff|].
  unfold encode. rewrite byte.of_Z_unsigned. by destruct (of_tag_inv t h Et) as [->| ->]; [left|right].
Qed.

Lemma toy_decode_encode u h v p : segwit_valid v p -> decode (encode u h v p) = Some (h, v, p).
Proof.
  intros Hv. unfold decode, encode. rewrite of_tag_tag.
  rewrite byte_unsigned_of_Z by (destruct Hv; lia). by rewrite (proj2 (valid_iff v p) Hv).
Qed.

#[export] Instance bech32_laws : Bech32Laws bech32.
Proof.
  split; cbn.
  - done.
  - done.
  - done.
  - intros s h v p E. by apply toy_decode_Some in E as [? _].
  - intros s h v p E. by apply toy_decode_Some in E as [_ ?].
  - intros h v p _ Hv. split; by apply toy_decode_encode.
Qed.
End ToyBech32.

Section btc_witnesses.
Import ToyBech32.
#[local] Instance btc_wit_mode : BuildMode := true.

Definition wit_legacy : Address := P2pkh (replicate 20 Byte.x00) Main.
Definition wit_legacy_text : list byte := String.list_byte_of_string "1111111111111111111114oLvT2".

(** The burn address parses, also when the bech32 decoder is tried first. *)
Lemma btc_address_text_exact_witness : from_str wit_legacy_text = Val wit_legacy.
Proof.
  apply (btc_address_text_exact wit_legacy_text wit_legacy Btc.Bitcoin). split; [reflexivity|].
  split; vm_compute; reflexivity.
Defined.

End btc_witnesses.
