(* ===== verification/SignMessage.v ===== *)
(** * Signed messages ([sign_message.rs])

    The hash of a message under Bitcoin's prefix, the 65-byte form of a recoverable signature, the
    key it recovers and the check against an address.  The recoverable signatures of the
    [secp256k1] crate are the class [SecpRecovery], the [base64] engine is the class [Base64]; what
    they document is in their laws. *)

From Stdlib Require Import ZArith Lia.
From Stdlib Require Strings.String.
From coqutil Require Import Byte Word.LittleEndianList.
From stdpp Require Import base tactics option list numbers.
From S2P Require Import Prelude HashEngine Sha256 Encode Ripemd160 Script ScriptKinds Signatures Base58 DogeAddress Keys BtcAddress.
Import String.StringSyntax.

#[local] Open Scope Z_scope.

(** ** What the two crates give *)

(** [RecoveryId], [RecoverableSignature] and [Secp256k1::recover_ecdsa]; a message is its digest. *)
Class SecpRecovery (S : SecpKeys) := {
  RecoverableSignature : Type;
  RecoveryId : Type;
  InvalidRecoveryId : KeyError;
  recid_to_i32 : RecoveryId -> Z;
  recid_from_i32 : Z -> Result KeyError RecoveryId;
  serialize_compact : RecoverableSignature -> RecoveryId * list byte;
  from_compact : list byte -> RecoveryId -> Result KeyError RecoverableSignature;
  recover_ecdsa : list byte -> RecoverableSignature -> Result KeyError SecpPublicKey;
}.

(** A recovery id is a number below four; a signature is an id and 64 bytes, and is read from
    exactly its own. *)
Class SecpRecoveryLaws {S} (R : SecpRecovery S) : Prop := {
  recid_range i : 0 <= recid_to_i32 i < 4;
  recid_from_iff z i : recid_from_i32 z = Ok i <-> recid_to_i32 i = z;
  recid_from_small z : 0 <= z < 4 -> exists i, recid_from_i32 z = Ok i;
  compact_length s : length (snd (serialize_compact s)) = 64%nat;
  from_compact_iff raw i s : from_compact raw i = Ok s <-> serialize_compact s = (i, raw);
}.

Class Base64 := { b64_encode : list byte -> list byte; b64_decode : list byte -> option (list byte) }.
Class Base64Laws (B : Base64) : Prop := b64_decode_encode bs : b64_decode (b64_encode bs) = Some bs.

(** ** Messages *)

Definition BITCOIN_SIGNED_MSG_PREFIX : list byte :=
  byte.of_Z 0x18 :: String.list_byte_of_string "Bitcoin Signed Message:" ++ [byte.of_Z 0x0a].

Definition signed_msg_hash (msg : list byte) : list byte :=
  let engine := Sha256.default in
  let engine := engine_input engine BITCOIN_SIGNED_MSG_PREFIX in
  let msg_len := Z.of_nat (length msg) in
  let engine := engine_input engine (bytes_of VarInt msg_len) in
  let engine := engine_input engine msg in
  sha256d_from_engine engine.

(** ** Signatures *)

Section signatures.
Context {bm : BuildMode} {S : SecpKeys} {R : SecpRecovery S} {B : Base64}.

Inductive MessageSignatureError :=
| MsgInvalidLength
| MsgInvalidEncoding (e : KeyError)
| MsgInvalidBase64
| MsgUnsupportedAddressType (ty : AddressType).

Record MessageSignature := mkMessageSignature { msg_signature : RecoverableSignature; msg_compressed : bool }.

Definition message_new (signature : RecoverableSignature) (compressed : bool) : MessageSignature :=
  mkMessageSignature signature compressed.

(** [recid.to_i32() as u8] wraps; the additions on the first byte are checked. *)
Definition message_serialize (self : MessageSignature) : run (list byte) :=
  let '(recid, raw) := serialize_compact (msg_signature self) in
  let serialized0 := 27 in
  serialized0 ← arith_u 8 (serialized0 + wrap 8 (recid_to_i32 recid));
  serialized0 ← (if msg_compressed self then arith_u 8 (serialized0 + 4) else Ret serialized0);
  _ ← assert_ (length raw =? 64)%nat;
  Ret (byte.of_Z serialized0 :: raw).

Definition message_from_slice (bytes : list byte) : comp MessageSignatureError MessageSignature :=
  if negb (length bytes =? 65)%nat then Throw MsgInvalidLength
  else
    b ← of_run (index bytes 0);
    let b := byte.unsigned b in
    if b <? 27 then Throw (MsgInvalidEncoding InvalidRecoveryId)
    else
      d ← of_run (arith_u 8 (b - 27));
      recid ← of_result (map_err MsgInvalidEncoding (recid_from_i32 (Z.land d 0x03)));
      signature ← of_result (map_err MsgInvalidEncoding (from_compact (drop 1 bytes) recid));
      d ← of_run (arith_u 8 (b - 27));
      Val (mkMessageSignature signature (negb (Z.land d 0x04 =? 0))).

Definition to_base64 (self : MessageSignature) : run (list byte) := b64_encode <$> message_serialize self.
Definition from_base64 (s : list byte) : comp MessageSignatureError MessageSignature :=
  bytes ← of_result (ok_or (b64_decode s) MsgInvalidBase64); message_from_slice bytes.

Definition recover_pubkey (self : MessageSignature) (msg_hash : list byte) : Result MessageSignatureError PublicKey :=
  pubkey ← map_err MsgInvalidEncoding (recover_ecdsa msg_hash (msg_signature self));
  Ok (mkPublicKey (msg_compressed self) pubkey).

Definition is_signed_by_address (self : MessageSignature) (address : BtcAddr.Address) (msg_hash : list byte) :
    Result MessageSignatureError bool :=
  match BtcAddr.address_type address with
  | Some TypeP2pkh =>
      pubkey ← recover_pubkey self msg_hash;
      Ok (bool_decide (BtcAddr.pubkey_hash address = Some (Keys.pubkey_hash pubkey)))
  | Some address_type => Err (MsgUnsupportedAddressType address_type)
  | None => Ok false
  end.
End signatures.

(** ** Messages *)

(** The first byte of the prefix counts the rest of it. *)
Lemma prefix_counted : exists b rest, BITCOIN_SIGNED_MSG_PREFIX = b :: rest /\ byte.unsigned b = Z.of_nat (length rest).
Proof. eexists _, _. split; [done|]. by vm_compute. Qed.

(** The hash is the double SHA-256 of prefix, length and message, and the length makes the message
    recoverable from what is hashed. *)
Definition signed_msg_preimage (msg : list byte) : list byte :=
  BITCOIN_SIGNED_MSG_PREFIX ++ bytes_of VarInt (Z.of_nat (length msg)) ++ msg.

Lemma signed_msg_hash_spec msg : 8 * Z.of_nat (length (signed_msg_preimage msg)) < 2 ^ 64 ->
  signed_msg_hash msg = Spec.sha256 (Spec.sha256 (signed_msg_preimage msg)).
Proof.
  intros Hl. apply sha256d_represents; [|done]. unfold signed_msg_preimage. rewrite app_assoc.
  apply engine_input_represents, engine_input_represents, (engine_input_represents _ []), default_represents.
Qed.

Lemma signed_msg_preimage_inj m m' : in_u 64 (Z.of_nat (length m)) -> in_u 64 (Z.of_nat (length m')) ->
  signed_msg_preimage m = signed_msg_preimage m' -> m = m'.
Proof.
  intros H1 H2 E. unfold signed_msg_preimage in E. apply app_inv_head in E.
  by apply (bytes_of_prefix_free VarInt (in_u 64)) in E as [_ ->].
Qed.

(** ** The byte form of signatures *)

Section message_proofs.
Context {bm : BuildMode} {S : SecpKeys} {R : SecpRecovery S} {L : SecpRecoveryLaws R} {B : Base64} {LB : Base64Laws B}.

(** The header: 27, the recovery id, and 4 for a compressed key. *)
Definition header (m : MessageSignature) : Z :=
  27 + recid_to_i32 (fst (serialize_compact (msg_signature m))) + (if msg_compressed m then 4 else 0).

Lemma header_range m : 27 <= header m < 35.
Proof. unfold header. pose proof (recid_range (fst (serialize_compact (msg_signature m)))). destruct (msg_compressed m); lia. Qed.

Lemma message_serialize_spec m :
  message_serialize m = Ret (byte.of_Z (header m) :: snd (serialize_compact (msg_signature m))).
Proof.
  unfold message_serialize, header. pose proof (compact_length (msg_signature m)) as Hl.
  pose proof (recid_range (fst (serialize_compact (msg_signature m)))) as Hr.
  destruct (serialize_compact (msg_signature m)) as [i raw]. cbn [fst snd] in *.
  rewrite (wrap_small 8), (arith_u_small 8), bind_Ret by (unfold in_u; lia).
  destruct (msg_compressed m); rewrite ?(arith_u_small 8), bind_Ret by (unfold in_u; lia).
  - by rewrite Hl.
  - by rewrite Hl, Z.add_0_r.
Qed.

Lemma compressed_bit d : negb (Z.land d 4 =? 0) = (4 <=? d mod 8).
Proof.
  pose proof (Z.mod_pos_bound d 8 ltac:(lia)). change (4 <=? d mod 8) with (2 ^ 2 <=? d mod 8).
  rewrite <- (testbit_top (d mod 8) 2) by lia. change 8 with (2 ^ 3). rewrite Z.mod_pow2_bits_low by lia.
  change 4 with (2 ^ 2). rewrite land_pow2 by lia. by destruct (Z.testbit d 2).
Qed.

(** Reading looks at three bits of the header: every header that agrees with the canonical one
    modulo eight is accepted. *)
Lemma message_from_slice_iff bs m : message_from_slice bs = Val m <->
  exists b, bs = b :: snd (serialize_compact (msg_signature m)) /\ 27 <= byte.unsigned b /\
    (byte.unsigned b - header m) mod 8 = 0.
Proof.
  pose proof (header_range m) as Hh. unfold message_from_slice. destruct (Nat.eqb_spec (length bs) 65) as [Hl|Hl]; cbn [negb].
  2:{ split; [done|]. intros (b & -> & _). cbn [length] in Hl. rewrite compact_length in Hl. lia. }
  destruct bs as [|b raw]; [done|]. cbn [length] in Hl. rewrite index_head. cbn [of_run mbind comp_bind].
  pose proof (byte.unsigned_range b) as Hb. destruct (Z.ltb_spec (byte.unsigned b) 27) as [Hlt|Hge].
  { split; [done|]. intros (b' & [= <- _] & ? & _). lia. }
  set (d := byte.unsigned b - 27). assert (in_u 8 d) as Hd by (unfold in_u, d; lia).
  rewrite !(arith_u_small 8 d) by done. cbn [of_run mbind comp_bind]. change (drop 1 (b :: raw)) with raw.
  assert (Z.land d 3 = d mod 4) as -> by (change 3 with (Z.ones 2); by rewrite Z.land_ones by lia).
  pose proof (compressed_bit d) as Hc.
  destruct (recid_from_small (d mod 4) ltac:(apply Z.mod_pos_bound; lia)) as [i Ei]. rewrite Ei. cbn [map_err of_result mbind comp_bind].
  apply recid_from_iff in Ei. pose proof (Z.div_mod d 8 ltac:(lia)). pose proof (Z.div_mod d 4 ltac:(lia)). pose proof (Z.mod_pos_bound d 8 ltac:(lia)).
  pose proof (Z.mod_pos_bound d 4 ltac:(lia)).
  split.
  - destruct (from_compact raw i) as [s|] eqn:Es; [|done]. cbn [map_err of_result mbind comp_bind]. intros [= <-]. exists b.
    apply from_compact_iff in Es as Es'. cbn [msg_signature]. rewrite Es'. split; [done|]. split; [done|].
    unfold header. cbn [msg_signature msg_compressed]. rewrite Es', Hc. cbn [fst]. rewrite Ei.
    apply Z.mod_divide; [lia|]. destruct (Z.leb_spec 4 (d mod 8)); [exists (d / 8)|exists (d / 8)]; unfold d in *; lia.
  - intros (b' & [= <- Er] & _ & Hm). apply Z.mod_divide in Hm as [k Hk]; [|lia]. unfold header in Hk, Hh.
    destruct m as [s c]. cbn [msg_signature msg_compressed] in *. destruct (serialize_compact s) as [i' raw'] eqn:Es. cbn [fst snd] in *. subst raw'.
    pose proof (recid_range i') as Hr'. assert (recid_to_i32 i' = d mod 4) as Ei' by (unfold d in *; destruct c; lia).
    assert (i = i') as ->.
    { assert (recid_from_i32 (d mod 4) = Ok i) as A by (by apply recid_from_iff). assert (recid_from_i32 (d mod 4) = Ok i') as A' by (by apply recid_from_iff). congruence. }
    rewrite (proj2 (from_compact_iff raw i' s) Es). cbn [map_err of_result mbind comp_bind]. do 2 f_equal. rewrite Hc.
    destruct c; [apply Z.leb_le|apply Z.leb_gt]; unfold d in *; lia.
Qed.

(** A signature is serialised without a panic to 65 bytes, which read back as the signature, in
    base64 too; and of all the strings that read as it, that one has the least header. *)
Lemma message_signature_roundtrip m : exists bs, message_serialize m = Ret bs /\ length bs = 65%nat /\
  message_from_slice bs = Val m /\ (exists s, to_base64 m = Ret s /\ from_base64 s = Val m) /\
  forall bs', message_from_slice bs' = Val m -> tail bs' = tail bs /\ byte.unsigned (hd Byte.x00 bs) <= byte.unsigned (hd Byte.x00 bs').
Proof.
  pose proof (header_range m) as Hh. eexists. split; [apply message_serialize_spec|]. split; [cbn [length]; by rewrite compact_length|].
  assert (message_from_slice (byte.of_Z (header m) :: snd (serialize_compact (msg_signature m))) = Val m) as Hm.
  { apply message_from_slice_iff. eexists. split; [done|]. rewrite byte_unsigned_of_Z by lia. rewrite Z.sub_diag. split; [lia|done]. }
  split; [done|]. split.
  - unfold to_base64, from_base64. rewrite message_serialize_spec. eexists. split; [done|]. by rewrite b64_decode_encode.
  - intros bs' (b & -> & Hb & Hmod)%message_from_slice_iff. cbn [tail hd]. split; [done|]. rewrite byte_unsigned_of_Z by lia.
    apply Z.mod_divide in Hmod as [k Hk]; [|lia]. lia.
Qed.

(** [from_slice] does not panic. *)
Lemma message_from_slice_safe bs : message_from_slice bs <> Crash.
Proof.
  unfold message_from_slice. destruct (Nat.eqb_spec (length bs) 65) as [Hl|Hl]; [cbn [negb]|done]. destruct bs as [|b raw]; [done|].
  rewrite index_head. cbn [of_run mbind comp_bind]. pose proof (byte.unsigned_range b).
  destruct (Z.ltb_spec (byte.unsigned b) 27); [done|]. rewrite !(arith_u_small 8) by (unfold in_u; lia). cbn [of_run mbind comp_bind].
  unfold map_err. destruct (recid_from_i32 _) as [i|]; cbn [of_result mbind comp_bind]; [|done]. by destruct (from_compact _ i).
Qed.

(** The check against an address says yes exactly for a pay-to-pubkey-hash address whose hash is
    that of the recovered key, in the serialisation the header names; other known kinds of
    addresses are an error. *)
Lemma is_signed_by_address_iff m a h :
  (is_signed_by_address m a h = Ok true <-> exists k n, recover_ecdsa h (msg_signature m) = Ok k /\
    a = BtcAddr.P2pkh (hash160.hash (public_to_bytes (mkPublicKey (msg_compressed m) k))) n) /\
  (forall ty, BtcAddr.address_type a = Some ty -> ty <> TypeP2pkh ->
    is_signed_by_address m a h = Err (MsgUnsupportedAddressType ty)).
Proof.
  assert (forall k, Keys.pubkey_hash (mkPublicKey (msg_compressed m) k) = hash160.hash (public_to_bytes (mkPublicKey (msg_compressed m) k))) as Hk
    by (intros k; by destruct (msg_compressed m)).
  split.
  - unfold is_signed_by_address, recover_pubkey. destruct a as [hash n|hash n|p hrp]; cbn [BtcAddr.address_type].
    + cbn [BtcAddr.pubkey_hash]. unfold map_err. destruct (recover_ecdsa h (msg_signature m)) as [k|e]; cbn [mbind Result_bind]; [|naive_solver].
      rewrite Hk. case_bool_decide as E; naive_solver.
    + split; [done|]. by intros (? & ? & _ & ?).
    + split; [|by intros (? & ? & _ & ?)]. repeat case_match; done.
  - intros ty E Hne. unfold is_signed_by_address. rewrite E. by destruct ty.
Qed.
End message_proofs.

(** ** The laws can hold

    A signature is its recovery id and its 64 bytes, and recovers a fixed key. *)
Module ToyRecovery.
Inductive Id := R0 | R1 | R2 | R3.
Definition to_i32 (i : Id) : Z := match i with R0 => 0 | R1 => 1 | R2 => 2 | R3 => 3 end.
Definition from_i32 (z : Z) : Result unit Id :=
  if z =? 0 then Ok R0 else if z =? 1 then Ok R1 else if z =? 2 then Ok R2 else if z =? 3 then Ok R3 else Err tt.

#[export] Instance recovery : SecpRecovery ToyKeys.group := {|
  RecoverableSignature := Id * ToySigs.Schnorr;
  RecoveryId := Id;
  InvalidRecoveryId := (tt : @KeyError ToyKeys.group);
  recid_to_i32 := to_i32;
  recid_from_i32 := from_i32;
  serialize_compact s := (fst s, proj1_sig (snd s));
  from_compact raw i := s ← ToySigs.check raw; Ok (i, s);
  recover_ecdsa _ _ := Ok ToyKeys.one_pk |}.

Lemma from_i32_iff z i : from_i32 z = Ok i <-> to_i32 i = z.
Proof.
  split.
  - unfold from_i32. intros H. destruct (Z.eqb_spec z 0), (Z.eqb_spec z 1), (Z.eqb_spec z 2), (Z.eqb_spec z 3); by simplify_eq.
  - intros <-. by destruct i.
Qed.

#[export] Instance recovery_laws : SecpRecoveryLaws recovery.
Proof.
  split; cbn.
  - intros []; cbn; lia.
  - apply from_i32_iff.
  - intros z Hz. assert (exists i, to_i32 i = z) as [i <-].
    { assert (z = 0 \/ z = 1 \/ z = 2 \/ z = 3) as [-> |[-> |[-> | ->]]] by lia; [by exists R0|by exists R1|by exists R2|by exists R3]. }
    exists i. by apply from_i32_iff.
  - intros [i [l p]]. cbn. by apply Nat.eqb_eq.
  - intros raw i [i' s]. cbn. destruct (ToySigs.check raw) as [x|] eqn:E.
    + apply ToySigs.check_iff in E. cbn. split; [intros [= -> ->]; by rewrite E|].
      intros [= -> Es]. do 2 f_equal. assert (ToySigs.check (P:=fun l => (length l =? 64)%nat) raw = Ok s) as A by (by apply ToySigs.check_iff).
      assert (ToySigs.check (P:=fun l => (length l =? 64)%nat) raw = Ok x) as A' by (by apply ToySigs.check_iff). congruence.
    + cbn. split; [done|]. intros [= _ Es]. assert (ToySigs.check (P:=fun l => (length l =? 64)%nat) raw = Ok s) as A by (by apply ToySigs.check_iff). discriminate (eq_trans (eq_sym E) A).
Qed.

Definition signature : @RecoverableSignature _ recovery := (R1, ToySigs.schnorr).
Definition sample : @MessageSignature _ recovery := mkMessageSignature signature true.
End ToyRecovery.

(** The headers 32 and 40 read as the same signature: bits of the header are ignored. *)
Lemma header_alias :
  @message_from_slice true _ ToyRecovery.recovery (byte.of_Z 32 :: replicate 64 Byte.x07) = Val ToyRecovery.sample /\
  @message_from_slice true _ ToyRecovery.recovery (byte.of_Z 40 :: replicate 64 Byte.x07) = Val ToyRecovery.sample.
Proof.
  split; refine (proj2 (message_from_slice_iff (bm:=true) (L:=ToyRecovery.recovery_laws) _ _) _).
  - exists (byte.of_Z 32). split_and!; [reflexivity|by vm_compute..].
  - exists (byte.of_Z 40). split_and!; [reflexivity|by vm_compute..].
Qed.
