(* ===== verification/P2p.v ===== *)
(** * Peer-to-peer data ([p2p/mod.rs], [p2p/address.rs], [p2p/message_blockdata.rs])

    Service flags, network magic, command strings, peer addresses of both protocol versions and
    inventories, with the encodings of strings and of checksummed data they use
    ([consensus/encode.rs]).  A [String] is the list of its UTF-8 bytes. *)

From Stdlib Require Import ZArith Lia.
From Stdlib Require Strings.String.
From coqutil Require Import Byte Word.LittleEndianList.
From stdpp Require Import base tactics option list numbers.
From S2P Require Import Prelude U256 Params Io Encode HashEngine Sha256 Block CompactBlocks.

Import String.StringSyntax.
Open Scope Z_scope.

(** ** Service flags *)

Definition ServiceFlags : Type := Z.
Definition NONE : ServiceFlags := 0.
Definition NETWORK : ServiceFlags := Z.shiftl 1 0.
Definition GETUTXO : ServiceFlags := Z.shiftl 1 1.
Definition BLOOM : ServiceFlags := Z.shiftl 1 2.
Definition WITNESS : ServiceFlags := Z.shiftl 1 3.
Definition COMPACT_FILTERS : ServiceFlags := Z.shiftl 1 6.
Definition NETWORK_LIMITED : ServiceFlags := Z.shiftl 1 10.
Definition P2P_V2 : ServiceFlags := Z.shiftl 1 11.

Definition flags_add (self other : ServiceFlags) : ServiceFlags := Z.lor self other.
Definition flags_remove (self other : ServiceFlags) : ServiceFlags := Z.lxor self other.
Definition flags_has (self flags : ServiceFlags) : bool := Z.lor self flags =? self.
Definition ServiceFlagsC : Consensus ServiceFlags := u64.

(** ** Network magic *)

Module Magic.
Definition BITCOIN : list byte := map byte.of_Z [0xF9; 0xBE; 0xB4; 0xD9].
Definition TESTNET3 : list byte := map byte.of_Z [0x0B; 0x11; 0x09; 0x07].
Definition TESTNET4 : list byte := map byte.of_Z [0x1c; 0x16; 0x3f; 0x28].
Definition SIGNET : list byte := map byte.of_Z [0x0A; 0x03; 0xCF; 0x40].
Definition REGTEST : list byte := map byte.of_Z [0xFA; 0xBF; 0xB5; 0xDA].

Definition from_network (network : Btc.Network) : list byte :=
  match network with
  | Btc.Bitcoin => BITCOIN
  | Btc.Testnet => TESTNET3
  | Btc.Testnet4 => TESTNET4
  | Btc.Signet => SIGNET
  | Btc.Regtest => REGTEST
  end.

Definition try_into_network (magic : list byte) : Result (list byte) Btc.Network :=
  if bool_decide (magic = BITCOIN) then Ok Btc.Bitcoin
  else if bool_decide (magic = TESTNET3) then Ok Btc.Testnet
  else if bool_decide (magic = TESTNET4) then Ok Btc.Testnet4
  else if bool_decide (magic = SIGNET) then Ok Btc.Signet
  else if bool_decide (magic = REGTEST) then Ok Btc.Regtest
  else Err magic.
End Magic.
Definition MagicC : Consensus (list byte) := array 4.

(** ** Strings *)

(** Rust's [from_utf8] accepts the well-formed sequences of the Unicode standard. *)
Definition between (a b : Z) (x : byte) : bool := (a <=? byte.unsigned x) && (byte.unsigned x <=? b).
Fixpoint utf8_valid (bs : list byte) : bool :=
  match bs with
  | [] => true
  | b0 :: r0 =>
      if between 0 0x7F b0 then utf8_valid r0
      else match r0 with
      | [] => false
      | b1 :: r1 =>
          if between 0xC2 0xDF b0 then between 0x80 0xBF b1 && utf8_valid r1
          else match r1 with
          | [] => false
          | b2 :: r2 =>
              if between 0xE0 0xEF b0 then
                (if between 0xE0 0xE0 b0 then between 0xA0 0xBF b1
                 else if between 0xED 0xED b0 then between 0x80 0x9F b1
                 else between 0x80 0xBF b1)
                && between 0x80 0xBF b2 && utf8_valid r2
              else match r2 with
              | [] => false
              | b3 :: r3 =>
                  between 0xF0 0xF4 b0 &&
                  (if between 0xF0 0xF0 b0 then between 0x90 0xBF b1
                   else if between 0xF4 0xF4 b0 then between 0x80 0x8F b1
                   else between 0x80 0xBF b1)
                  && between 0x80 0xBF b2 && between 0x80 0xBF b3 && utf8_valid r3
              end
          end
      end
  end.

Definition string_encode (b : list byte) : list byte * Z :=
  let vi := consensus_encode VarInt (Z.of_nat (length b)) in
  (fst vi ++ b, snd vi + Z.of_nat (length b)).
Definition string_decode : Decoder (list byte) :=
  b ← consensus_decode byte_vec;
  if utf8_valid b then mret b else dfail (ParseFailed "String was not valid UTF8").
Definition StringC : Consensus (list byte) := simple string_encode string_decode.

(** ** Command strings *)

(** [cow.len()] is the length in bytes. *)
Definition command_try_from (cow : list byte) : Result (list byte) (list byte) :=
  if (12 <? length cow)%nat then Err cow else Ok cow.

(** The array is longer than the string or the slice is out of range. *)
Definition command_encode {bm : BuildMode} (strbytes : list byte) : run (list byte * Z) :=
  _ ← debug_assert (length strbytes <=? 12)%nat;
  if (length strbytes <=? 12)%nat
  then Ret (consensus_encode (array 12) (strbytes ++ replicate (12 - length strbytes) Byte.x00))
  else Panic.

(** [u as char] is the code point of value [u], two bytes long from 128 on. *)
Definition char_bytes (u : byte) : list byte :=
  let c := byte.unsigned u in
  if c <? 0x80 then [u]
  else [byte.of_Z (Z.lor 0xC0 (Z.shiftr c 6)); byte.of_Z (Z.lor 0x80 (Z.land c 0x3F))].
Definition command_text (rawbytes : list byte) : list byte :=
  List.filter (fun u => 0 <? byte.unsigned u) rawbytes ≫= char_bytes.
Definition command_decode : Decoder (list byte) :=
  rawbytes ← consensus_decode (array 12); mret (command_text rawbytes).

(** ** Checksummed data *)

Record CheckedData := mkCheckedData { cd_data : list byte; cd_checksum : list byte }.

Definition sha2_checksum (data : list byte) : list byte := take 4 (sha256d data).
Definition checked_new (data : list byte) : CheckedData := mkCheckedData data (sha2_checksum data).

Definition checked_encode (self : CheckedData) : run (list byte * Z) :=
  if in_ub 32 (Z.of_nat (length (cd_data self))) then
    Ret (bytes_of u32 (Z.of_nat (length (cd_data self))) ++ bytes_of (array 4) (cd_checksum self) ++ cd_data self,
         8 + Z.of_nat (length (cd_data self)))
  else Panic.

Definition checked_decode : Decoder CheckedData :=
  len ← consensus_decode_from_finite_reader u32;
  checksum ← consensus_decode_from_finite_reader (array 4);
  data ← read_bytes_from_finite_reader len MAX_VEC_SIZE;
  if bool_decide (sha2_checksum data = checksum) then mret (mkCheckedData data checksum)
  else dfail (InvalidChecksum (sha2_checksum data) checksum).

(** ** Peer addresses *)

Record Address := mkAddress { services : ServiceFlags; address : list Z; port : Z }.

Definition ONION : list Z := [0xFD87; 0xD87E; 0xEB43].

(** [std::net]: an IPv4 address is its four octets, an IPv6 address its eight segments. *)
Inductive SocketAddr := SocketV4 (ip : list byte) (port : Z) | SocketV6 (ip : list Z) (port : Z).
Definition to_ipv6_mapped (ip : list byte) : list Z :=
  [0; 0; 0; 0; 0; 0xFFFF; from_be_bytes (take 2 ip); from_be_bytes (drop 2 ip)].
Definition to_ipv4 (ip : list Z) : option (list byte) :=
  match ip with
  | [0; 0; 0; 0; 0; x; ab; cd] =>
      if (x =? 0) || (x =? 0xFFFF) then Some (to_be_bytes 2 ab ++ to_be_bytes 2 cd) else None
  | _ => None
  end.

Definition address_new (socket : SocketAddr) (services : ServiceFlags) : Address :=
  let '(address, port) := match socket with
                          | SocketV4 ip port => (to_ipv6_mapped ip, port)
                          | SocketV6 ip port => (ip, port)
                          end in
  mkAddress services address port.

Inductive AddrError := AddrNotAvailable.

Definition socket_addr (self : Address) : Result AddrError SocketAddr :=
  let addr := address self in
  if bool_decide (take 3 addr = ONION) then Err AddrNotAvailable
  else match to_ipv4 addr with
       | Some ipv4 => Ok (SocketV4 ipv4 (port self))
       | None => Ok (SocketV6 addr (port self))
       end.

Definition segment_bytes (address : list Z) : list byte := address ≫= to_be_bytes 2.

Definition address_encode (self : Address) : list byte * Z :=
  let s := consensus_encode ServiceFlagsC (services self) in
  (fst s ++ segment_bytes (address self) ++ to_be_bytes 2 (port self),
   snd s + 2 * Z.of_nat (length (address self)) + 2).

Definition read_word (address : list Z) : Decoder (list Z) :=
  buf ← read_slice 2; mret (address ++ [from_be_bytes buf]).
Definition read_be_address : Decoder (list Z) := for_ 8 read_word [].

(** [u16::swap_bytes] *)
Definition swap_bytes (v : Z) : Z := le_combine (rev (le_split 2 v)).
Definition read_port : Decoder Z := swap_bytes <$> consensus_decode u16.

Definition address_decode : Decoder Address :=
  services ← consensus_decode ServiceFlagsC;
  address ← read_be_address;
  port ← read_port;
  mret (mkAddress services address port).
Definition AddressC : Consensus Address := simple address_encode address_decode.

(** [(u32, Address)]: a pair implements [consensus_decode] only. *)
Definition tuple2 {A B} (ca : Consensus A) (cb : Consensus B) : Consensus (A * B) :=
  simple (fun '(a, b) => consensus_encode ca a +++ consensus_encode cb b)
         (a ← consensus_decode ca; b ← consensus_decode cb; mret (a, b)).

(** ** Addresses of BIP-155 *)

Inductive AddrV2 :=
| Ipv4 (ip : list byte)
| Ipv6 (ip : list Z)
| TorV2 (id : list byte)
| TorV3 (pubkey : list byte)
| I2p (hash : list byte)
| Cjdns (ip : list Z)
| UnknownNet (network : Z) (bytes : list byte).

Definition encode_addr (network : Z) (bytes : list byte) : list byte * Z :=
  let n := consensus_encode u8 network in
  let l := consensus_encode VarInt (Z.of_nat (length bytes)) in
  (fst n ++ fst l ++ bytes, snd n + snd l + Z.of_nat (length bytes)).

Definition addrv2_encode (self : AddrV2) : list byte * Z :=
  match self with
  | Ipv4 addr => encode_addr 1 addr
  | Ipv6 addr => encode_addr 2 (segment_bytes addr)
  | TorV2 bytes => encode_addr 3 bytes
  | TorV3 bytes => encode_addr 4 bytes
  | I2p bytes => encode_addr 5 bytes
  | Cjdns addr => encode_addr 6 (segment_bytes addr)
  | UnknownNet network bytes => encode_addr network bytes
  end.

Definition addrv2_decode : Decoder AddrV2 :=
  network_id ← consensus_decode u8;
  len ← consensus_decode VarInt;
  if 512 <? len then dfail (ParseFailed "IP must be <= 512 bytes")
  else if network_id =? 1 then
    if negb (len =? 4) then dfail (ParseFailed "Invalid IPv4 address")
    else Ipv4 <$> consensus_decode (array 4)
  else if network_id =? 2 then
    if negb (len =? 16) then dfail (ParseFailed "Invalid IPv6 address")
    else
      addr ← read_be_address;
      if bool_decide (take 3 addr = ONION)
      then dfail (ParseFailed "OnionCat address sent with IPv6 network id")
      else if bool_decide (take 6 addr = [0; 0; 0; 0; 0; 0xFFFF])
      then dfail (ParseFailed "IPV4 wrapped address sent with IPv6 network id")
      else mret (Ipv6 addr)
  else if network_id =? 3 then
    if negb (len =? 10) then dfail (ParseFailed "Invalid TorV2 address")
    else TorV2 <$> consensus_decode (array 10)
  else if network_id =? 4 then
    if negb (len =? 32) then dfail (ParseFailed "Invalid TorV3 address")
    else TorV3 <$> consensus_decode (array 32)
  else if network_id =? 5 then
    if negb (len =? 32) then dfail (ParseFailed "Invalid I2P address")
    else I2p <$> consensus_decode (array 32)
  else if network_id =? 6 then
    if negb (len =? 16) then dfail (ParseFailed "Invalid CJDNS address")
    else
      addr ← read_be_address;
      if negb (Z.shiftr (nth 0 addr 0) 8 =? 0xFC) then dfail (ParseFailed "Invalid CJDNS address")
      else mret (Cjdns addr)
  else UnknownNet network_id <$> read_slice (Z.to_nat len).
Definition AddrV2C : Consensus AddrV2 := simple addrv2_encode addrv2_decode.

Record AddrV2Message := mkAddrV2Message { v2_time : Z; v2_services : ServiceFlags; v2_addr : AddrV2; v2_port : Z }.

Definition v2_socket_addr (self : AddrV2Message) : Result AddrError SocketAddr :=
  match v2_addr self with
  | Ipv4 addr => Ok (SocketV4 addr (v2_port self))
  | Ipv6 addr => Ok (SocketV6 addr (v2_port self))
  | _ => Err AddrNotAvailable
  end.

Definition addrv2_message_encode (self : AddrV2Message) : list byte * Z :=
  consensus_encode u32 (v2_time self) +++ consensus_encode VarInt (v2_services self)
  +++ consensus_encode AddrV2C (v2_addr self) +++ (to_be_bytes 2 (v2_port self), 2).
Definition addrv2_message_decode : Decoder AddrV2Message :=
  time ← consensus_decode u32;
  services ← consensus_decode VarInt;
  addr ← consensus_decode AddrV2C;
  port ← read_port;
  mret (mkAddrV2Message time services addr port).
Definition AddrV2MessageC : Consensus AddrV2Message := simple addrv2_message_encode addrv2_message_decode.

(** ** Inventories *)

Inductive Inventory :=
| InvError
| InvTransaction (txid : list byte)
| InvBlock (hash : list byte)
| InvCompactBlock (hash : list byte)
| InvWTx (wtxid : list byte)
| InvWitnessTransaction (txid : list byte)
| InvWitnessBlock (hash : list byte)
| InvUnknown (inv_type : Z) (hash : list byte).

Definition network_hash (self : Inventory) : option (list byte) :=
  match self with
  | InvError => None
  | InvTransaction t => Some t
  | InvBlock b => Some b
  | InvCompactBlock b => Some b
  | InvWTx t => Some t
  | InvWitnessTransaction t => Some t
  | InvWitnessBlock b => Some b
  | InvUnknown _ hash => Some hash
  end.

Definition encode_inv (code : Z) (item : list byte) : list byte * Z :=
  consensus_encode u32 code +++ consensus_encode (array 32) item.
Definition inventory_encode (self : Inventory) : list byte * Z :=
  match self with
  | InvError => encode_inv 0 (replicate 32 Byte.x00)
  | InvTransaction t => encode_inv 1 t
  | InvBlock b => encode_inv 2 b
  | InvCompactBlock b => encode_inv 4 b
  | InvWTx w => encode_inv 5 w
  | InvWitnessTransaction t => encode_inv 0x40000001 t
  | InvWitnessBlock b => encode_inv 0x40000002 b
  | InvUnknown t d => encode_inv t d
  end.
Definition inventory_decode : Decoder Inventory :=
  inv_type ← consensus_decode u32;
  if inv_type =? 0 then mret InvError
  else if inv_type =? 1 then InvTransaction <$> consensus_decode (array 32)
  else if inv_type =? 2 then InvBlock <$> consensus_decode (array 32)
  else if inv_type =? 4 then InvCompactBlock <$> consensus_decode (array 32)
  else if inv_type =? 5 then InvWTx <$> consensus_decode (array 32)
  else if inv_type =? 0x40000001 then InvWitnessTransaction <$> consensus_decode (array 32)
  else if inv_type =? 0x40000002 then InvWitnessBlock <$> consensus_decode (array 32)
  else InvUnknown inv_type <$> consensus_decode (array 32).
Definition InventoryC : Consensus Inventory := simple inventory_encode inventory_decode.

Module p2p_tests.
#[local] Instance p2p_mode : BuildMode := true.
Example ping_command : command_encode (String.list_byte_of_string "Andrew") =
  Ret (map byte.of_Z [0x41; 0x6e; 0x64; 0x72; 0x65; 0x77; 0; 0; 0; 0; 0; 0], 12).
Proof. reflexivity. Qed.
Example ping_command_read :
  on_slice command_decode (map byte.of_Z [0x41; 0x6e; 0x64; 0x72; 0x65; 0x77; 0; 0; 0; 0; 0; 0]) =
  Ok (String.list_byte_of_string "Andrew", []).
Proof. reflexivity. Qed.
Example checked_five :
  checked_encode (checked_new (map byte.of_Z [1; 2; 3; 4; 5])) =
  Ret (map byte.of_Z [5; 0; 0; 0; 162; 107; 175; 90; 1; 2; 3; 4; 5], 13).
Proof. vm_compute. reflexivity. Qed.
Example addrv2_ipv4 : on_slice (consensus_decode AddrV2C) (map byte.of_Z [1; 4; 1; 2; 3; 4]) =
  Ok (Ipv4 (map byte.of_Z [1; 2; 3; 4]), []).
Proof. reflexivity. Qed.
Example addrv2_mapped : on_slice (consensus_decode AddrV2C)
  (map byte.of_Z [2; 16; 0; 0; 0; 0; 0; 0; 0; 0; 0; 0; 0xFF; 0xFF; 0; 1; 2; 3]) =
  Err (ParseFailed "IPV4 wrapped address sent with IPv6 network id").
Proof. reflexivity. Qed.
End p2p_tests.

(** ** Service flags and magic: proofs *)

(** [has] is inclusion of the bits; [add] is union; [remove] flips the bits of its argument, so that
    it removes exactly the flags that were there and adds the others. *)
Lemma flags_exact (f g : ServiceFlags) (i : Z) :
  (flags_has f g = true <-> forall j, Z.testbit g j = true -> Z.testbit f j = true) /\
  Z.testbit (flags_add f g) i = Z.testbit f i || Z.testbit g i /\
  Z.testbit (flags_remove f g) i = xorb (Z.testbit f i) (Z.testbit g i).
Proof.
  split; [|split; [apply Z.lor_spec|apply Z.lxor_spec]]. unfold flags_has. rewrite Z.eqb_eq. split.
  - intros E j Hj. rewrite <- E, Z.lor_spec, Hj. apply orb_true_r.
  - intros H. apply Z.bits_inj. intros j. rewrite Z.lor_spec. specialize (H j).
    destruct (Z.testbit f j), (Z.testbit g j); try done. by rewrite H.
Qed.

Lemma magic_exact m n : Magic.try_into_network m = Ok n <-> m = Magic.from_network n.
Proof.
  unfold Magic.try_into_network. split; [|by intros ->; destruct n].
  repeat (case_bool_decide; [by intros [= <-]|]). done.
Qed.

(** ** Codecs *)

#[export] Instance ServiceFlags_Codec : Codec ServiceFlagsC (in_u 64) := u_le_Codec 8.
#[export] Instance ServiceFlags_Canonical : Canonical ServiceFlagsC (in_u 64) := u_le_Canonical 8.
#[export] Instance u16_Codec : Codec u16 (in_u 16) := u_le_Codec 2.
#[export] Instance u16_Canonical : Canonical u16 (in_u 16) := u_le_Canonical 2.
#[export] Instance u8_Codec : Codec u8 (in_u 8) := u_le_Codec 1.
#[export] Instance u8_Canonical : Canonical u8 (in_u 8) := u_le_Canonical 1.

Definition string_wf (s : list byte) : Prop :=
  utf8_valid s = true /\ Z.of_nat (length (bytes_of byte_vec s)) <= MAX_VEC_SIZE.

Lemma byte_vec_bytes s : bytes_of byte_vec s = bytes_of VarInt (Z.of_nat (length s)) ++ s.
Proof. done. Qed.

Lemma string_wf_vec s : string_wf s -> byte_vec_wf s.
Proof.
  intros [_ H]. rewrite byte_vec_bytes, length_app in H. unfold byte_vec_wf, MAX_VEC_SIZE in *. lia.
Qed.

#[export] Instance String_Codec : Codec StringC string_wf.
Proof.
  apply simple_Codec.
  - intros s Hs%string_wf_vec. unfold string_encode. cbn [fst snd]. unfold byte_vec_wf in Hs.
    rewrite (encode_len (c:=VarInt)), length_app by (unfold in_u; lia). unfold bytes_of. lia.
  - unfold string_decode. apply _.
  - intros s rest Hs. change (fst (string_encode s)) with (bytes_of byte_vec s). unfold string_decode.
    rewrite on_slice_bind, (decode_roundtrip (c:=byte_vec)); [|by apply string_wf_vec|apply Hs].
    by rewrite (proj1 Hs).
Qed.

#[export] Instance String_Canonical : Canonical StringC string_wf.
Proof.
  apply simple_Canonical. intros bs s rest. unfold string_decode. rewrite on_slice_bind_Ok.
  intros (s' & bs' & Hd & H). destruct (utf8_valid s') eqn:Hu; [|done].
  rewrite on_slice_ret in H. injection H as -> ->.
  pose proof Hd as Hl. cbn [byte_vec limited consensus_decode] in Hl. rewrite on_slice_with_take in Hl by apply _.
  destruct (on_slice byte_vec_decode _) as [[v r]|] eqn:E; [|done]. injection Hl as -> _.
  apply (finite_canonical (c:=byte_vec)) in E as [_ E]. apply (f_equal length) in E.
  rewrite length_take, length_app in E.
  apply (decode_canonical (c:=byte_vec)) in Hd as [_ ->]. split; [|done]. split; [done|]. unfold MAX_VEC_SIZE in *. lia.
Qed.

(** *** Segments and ports *)

Definition segments_wf (a : list Z) : Prop := length a = 8%nat /\ Forall (in_u 16) a.

Lemma to_from_be2 v : in_u 16 v -> from_be_bytes (to_be_bytes 2 v) = v.
Proof.
  intros Hv. unfold from_be_bytes, to_be_bytes. rewrite rev_involutive, le_combine_split.
  apply Z.mod_small, Hv.
Qed.
Lemma from_to_be2 b : length b = 2%nat -> to_be_bytes 2 (from_be_bytes b) = b.
Proof.
  intros Hb. unfold from_be_bytes, to_be_bytes. rewrite <- Hb, <- length_rev, split_le_combine. apply rev_involutive.
Qed.
Lemma from_be2_wf b : length b = 2%nat -> in_u 16 (from_be_bytes b).
Proof. intros Hb. unfold from_be_bytes. apply (le_combine_in_u _ 2). by rewrite length_rev. Qed.

Lemma segment_bytes_length a : length (segment_bytes a) = (2 * length a)%nat.
Proof.
  unfold segment_bytes. induction a as [|v a IH]; [done|].
  rewrite bind_cons, length_app, IH, to_be_bytes_length. simpl. lia.
Qed.

Lemma read_words a : Forall (in_u 16) a -> forall acc rest,
  on_slice (for_nat (length a) read_word acc) (segment_bytes a ++ rest) = Ok (acc ++ a, rest).
Proof.
  induction 1 as [|v a Hv Ha IH]; intros acc rest; [cbn; by rewrite app_nil_r|].
  unfold segment_bytes. cbn [length for_nat]. rewrite bind_cons, <- app_assoc, on_slice_bind.
  unfold read_word at 1. rewrite on_slice_bind, on_slice_read_app by apply to_be_bytes_length.
  rewrite on_slice_ret, to_from_be2 by done. fold (segment_bytes a). rewrite IH. by rewrite <- app_assoc.
Qed.

Lemma read_be_address_app a rest : segments_wf a ->
  on_slice read_be_address (segment_bytes a ++ rest) = Ok (a, rest).
Proof.
  intros [Hl Ha]. unfold read_be_address. rewrite for_spec. change (Z.to_nat 8) with 8%nat. rewrite <- Hl.
  by apply read_words.
Qed.

Lemma read_words_inv n : forall acc bs out rest,
  on_slice (for_nat n read_word acc) bs = Ok (out, rest) ->
  exists a, length a = n /\ Forall (in_u 16) a /\ out = acc ++ a /\ bs = segment_bytes a ++ rest.
Proof.
  induction n as [|n IH]; intros acc bs out rest; cbn [for_nat].
  - intros [= <- <-]. exists []. rewrite app_nil_r. by repeat constructor.
  - rewrite on_slice_bind_Ok. intros (acc' & bs' & Hs & H). unfold read_word in Hs.
    rewrite on_slice_bind_Ok in Hs. destruct Hs as (b & bs2 & Hr & Hs). rewrite on_slice_ret in Hs.
    injection Hs as <- <-. apply on_slice_read_Ok in Hr as [Hb ->]. destruct (IH _ _ _ _ H) as (a & Hl & Ha & -> & ->).
    eexists (_ :: a). split; [simpl; lia|]. split; [constructor; [by apply from_be2_wf|done]|].
    split; [by rewrite <- app_assoc|]. unfold segment_bytes.
    rewrite bind_cons, from_to_be2 by done. by rewrite <- app_assoc.
Qed.

Lemma read_be_address_inv bs a rest : on_slice read_be_address bs = Ok (a, rest) ->
  segments_wf a /\ bs = segment_bytes a ++ rest.
Proof.
  unfold read_be_address. rewrite for_spec. intros (a' & Hl & Ha & -> & ->)%read_words_inv. done.
Qed.

Lemma read_port_app p rest : in_u 16 p -> on_slice read_port (to_be_bytes 2 p ++ rest) = Ok (p, rest).
Proof.
  intros Hp. unfold read_port. rewrite on_slice_fmap. cbn [u16 u_le simple consensus_decode].
  rewrite on_slice_bind, on_slice_read_app by apply to_be_bytes_length. rewrite on_slice_ret. f_equal. f_equal.
  unfold swap_bytes. rewrite <- (to_be_bytes_length 2 p) at 1. rewrite split_le_combine. by apply to_from_be2.
Qed.

Lemma read_port_inv bs p rest : on_slice read_port bs = Ok (p, rest) ->
  in_u 16 p /\ bs = to_be_bytes 2 p ++ rest.
Proof.
  unfold read_port. rewrite on_slice_fmap. destruct (on_slice _ bs) as [[v r]|] eqn:E; [|done].
  intros [= <- <-]. cbn [u16 u_le simple consensus_decode] in E. rewrite on_slice_bind_Ok in E.
  destruct E as (x & bs' & E & Hx). rewrite on_slice_ret in Hx. injection Hx as <- <-.
  apply on_slice_read_Ok in E as [Hb ->]. unfold swap_bytes. rewrite <- Hb, split_le_combine.
  rewrite Hb. fold (from_be_bytes x). by rewrite from_to_be2; [split; [by apply from_be2_wf|]|].
Qed.

#[export] Instance natural_read_be_address : Natural read_be_address.
Proof. unfold read_be_address, read_word. apply _. Qed.
#[export] Instance natural_read_port : Natural read_port.
Proof. unfold read_port. apply _. Qed.

(** *** Addresses *)

Definition address_wf (a : Address) : Prop :=
  in_u 64 (services a) /\ segments_wf (address a) /\ in_u 16 (port a).

#[export] Instance Address_Codec : Codec AddressC address_wf.
Proof.
  apply simple_Codec.
  - intros a (Hs & [Hl _] & _). unfold address_encode. cbn [fst snd].
    rewrite (encode_len (c:=ServiceFlagsC)) by done. unfold bytes_of.
    rewrite !length_app, segment_bytes_length, to_be_bytes_length, Hl. lia.
  - unfold address_decode. apply _.
  - intros [s a p] rest (Hs & Ha & Hp). unfold address_encode, address_decode. cbn [services address port fst] in *.
    fold (bytes_of ServiceFlagsC s). rewrite <- !app_assoc, on_slice_bind, (finite_roundtrip (c:=ServiceFlagsC)) by done.
    by rewrite on_slice_bind, read_be_address_app, on_slice_bind, read_port_app by done.
Qed.

#[export] Instance Address_Canonical : Canonical AddressC address_wf.
Proof.
  apply simple_Canonical. intros bs a rest H. unfold address_decode in H. dec_inv.
  apply (finite_canonical (c:=ServiceFlagsC)) in H as [? ->].
  apply read_be_address_inv in H0 as [? ->]. apply read_port_inv in H1 as [? ->].
  split; [done|]. unfold address_encode. cbn [fst services address port]. by rewrite <- !app_assoc.
Qed.

Section tuple.
Context {A B : Type} (ca : Consensus A) (cb : Consensus B) (wa : A -> Prop) (wb : B -> Prop).
Context `{!Codec ca wa, !Codec cb wb}.
(** A pair is decoded with [consensus_decode], which limits the size of its parts. *)
Definition tuple2_wf (p : A * B) : Prop :=
  wa (fst p) /\ wb (snd p) /\ Z.of_nat (length (bytes_of ca (fst p))) <= MAX_VEC_SIZE /\
  Z.of_nat (length (bytes_of cb (snd p))) <= MAX_VEC_SIZE.

#[export] Instance tuple2_Codec : Codec (tuple2 ca cb) tuple2_wf.
Proof.
  apply simple_Codec.
  - intros [a b] (Ha & Hb & _). unfold wcat. cbn [fst snd] in *.
    rewrite (encode_len (c:=ca)), (encode_len (c:=cb)) by done. unfold bytes_of. rewrite length_app. lia.
  - apply _.
  - intros [a b] rest (Ha & Hb & Hla & Hlb). unfold wcat. cbn [fst snd] in *.
    fold (bytes_of ca a) (bytes_of cb b). rewrite <- app_assoc, on_slice_bind, (decode_roundtrip (c:=ca)) by done.
    by rewrite on_slice_bind, (decode_roundtrip (c:=cb)).
Qed.
End tuple.

Definition addrv2_wf (a : AddrV2) : Prop :=
  match a with
  | Ipv4 b => length b = 4%nat
  | Ipv6 a => segments_wf a /\ take 3 a <> ONION /\ take 6 a <> [0; 0; 0; 0; 0; 0xFFFF]
  | TorV2 b => length b = 10%nat
  | TorV3 b | I2p b => length b = 32%nat
  | Cjdns a => segments_wf a /\ Z.shiftr (nth 0 a 0) 8 = 0xFC
  | UnknownNet n b => in_u 8 n /\ ~ 1 <= n <= 6 /\ (length b <= 512)%nat
  end.

(** The network number and the address bytes of an encoding. *)
Definition addrv2_parts (a : AddrV2) : Z * list byte :=
  match a with
  | Ipv4 b => (1, b)
  | Ipv6 a => (2, segment_bytes a)
  | TorV2 b => (3, b)
  | TorV3 b => (4, b)
  | I2p b => (5, b)
  | Cjdns a => (6, segment_bytes a)
  | UnknownNet n b => (n, b)
  end.

Lemma addrv2_parts_wf a : addrv2_wf a ->
  in_u 8 (fst (addrv2_parts a)) /\ (length (snd (addrv2_parts a)) <= 512)%nat.
Proof.
  unfold in_u. destruct a as [b|a|b|b|b|a|n b]; cbn [addrv2_wf addrv2_parts fst snd].
  all: try (intros ->; lia).
  - intros [[Hl _] _]. rewrite segment_bytes_length, Hl. lia.
  - intros [[Hl _] _]. rewrite segment_bytes_length, Hl. lia.
  - intros (Hn & _ & Hl). unfold in_u in Hn. lia.
Qed.

Lemma addrv2_bytes a : addrv2_encode a = encode_addr (fst (addrv2_parts a)) (snd (addrv2_parts a)).
Proof. by destruct a. Qed.

Lemma addrv2_decode_app a rest : addrv2_wf a ->
  on_slice addrv2_decode (fst (addrv2_encode a) ++ rest) = Ok (a, rest).
Proof.
  intros Ha. destruct (addrv2_parts_wf a Ha) as [Hn Hl]. rewrite addrv2_bytes. unfold encode_addr. cbn [fst].
  fold (bytes_of u8 (fst (addrv2_parts a))) (bytes_of VarInt (Z.of_nat (length (snd (addrv2_parts a))))).
  rewrite <- !app_assoc. unfold addrv2_decode. rewrite on_slice_bind, (finite_roundtrip (c:=u8)) by done.
  rewrite on_slice_bind, varint_dec by (unfold in_u; lia). rewrite (proj2 (Z.ltb_ge 512 _)) by lia.
  destruct a as [b|a|b|b|b|a|n b]; cbn [addrv2_wf addrv2_parts fst snd] in *; cbn [Z.eqb Pos.eqb].
  1, 3, 4, 5: rewrite Ha; match goal with |- context [negb ?b] => change (negb b) with false end; cbv iota;
    rewrite on_slice_fmap; cbn [array simple consensus_decode]; by rewrite on_slice_read_app.
  - destruct Ha as ([Hl8 Hs] & H3 & H6). rewrite segment_bytes_length, Hl8. change (Z.of_nat (2 * 8) =? 16) with true.
    cbn [negb]. rewrite on_slice_bind, read_be_address_app by done. by rewrite !bool_decide_false.
  - destruct Ha as ([Hl8 Hs] & Hc). rewrite segment_bytes_length, Hl8. change (Z.of_nat (2 * 8) =? 16) with true.
    cbn [negb]. rewrite on_slice_bind, read_be_address_app by done. by rewrite Hc.
  - destruct Ha as (_ & Hr & _). rewrite !(proj2 (Z.eqb_neq n _)) by lia.
    rewrite on_slice_fmap, Nat2Z.id. by rewrite on_slice_read_app.
Qed.

#[export] Instance natural_addrv2_decode : Natural addrv2_decode.
Proof. unfold addrv2_decode. apply _. Qed.

#[export] Instance AddrV2_Codec : Codec AddrV2C addrv2_wf.
Proof.
  apply simple_Codec; [|apply _|intros; by apply addrv2_decode_app].
  intros a Ha. destruct (addrv2_parts_wf a Ha) as [Hn Hl]. rewrite addrv2_bytes. unfold encode_addr. cbn [fst snd].
  rewrite (encode_len (c:=u8)), (encode_len (c:=VarInt)) by (done || unfold in_u; lia).
  unfold bytes_of. rewrite !length_app. lia.
Qed.

(** Each branch reads as many bytes as were announced. *)
Lemma addrv2_array_inv (K : list byte -> AddrV2) n bs a rest :
  on_slice (K <$> consensus_decode (array n)) bs = Ok (a, rest) ->
  exists b, a = K b /\ length b = n /\ bs = b ++ rest.
Proof.
  rewrite on_slice_fmap. destruct (on_slice _ bs) as [[b r]|] eqn:E; [|done]. intros [= <- <-].
  apply on_slice_read_Ok in E as [Hb ->]. eauto.
Qed.

Lemma addrv2_decode_inv bs a rest : on_slice addrv2_decode bs = Ok (a, rest) ->
  addrv2_wf a /\ bs = fst (addrv2_encode a) ++ rest.
Proof.
  unfold addrv2_decode. rewrite on_slice_bind_Ok. intros (n & bs1 & Hn & H).
  rewrite on_slice_bind_Ok in H. destruct H as (len & bs2 & Hl & H).
  apply (finite_canonical (c:=u8)) in Hn as [Hn ->]. apply (decode_canonical (c:=VarInt)) in Hl as [Hl ->].
  destruct (Z.ltb_spec 512 len) as [|H512]; [done|].
  assert (forall a, fst (addrv2_parts a) = n -> Z.of_nat (length (snd (addrv2_parts a))) = len ->
    bs2 = snd (addrv2_parts a) ++ rest ->
    bytes_of u8 n ++ bytes_of VarInt len ++ bs2 = fst (addrv2_encode a) ++ rest) as Hk.
  { intros a' <- <- ->. rewrite addrv2_bytes. unfold encode_addr. cbn [fst]. by rewrite <- !app_assoc. }
  assert (forall m (K : list byte -> AddrV2), len = Z.of_nat m -> (forall b, addrv2_parts (K b) = (n, b)) ->
    (forall b, length b = m -> addrv2_wf (K b)) ->
    on_slice (K <$> consensus_decode (array m)) bs2 = Ok (a, rest) ->
    addrv2_wf a /\ bytes_of u8 n ++ bytes_of VarInt len ++ bs2 = fst (addrv2_encode a) ++ rest) as Harr.
  { intros m K -> HK Hw (b & -> & Hb & ->)%addrv2_array_inv. split; [by apply Hw|].
    apply Hk; rewrite HK; [done|cbn [snd]; by rewrite Hb|done]. }
  assert (forall (K : list Z -> AddrV2), len = 16 -> (forall s, addrv2_parts (K s) = (n, segment_bytes s)) ->
    forall s bs3, on_slice read_be_address bs2 = Ok (s, bs3) -> bs3 = rest -> a = K s ->
    segments_wf s /\ bytes_of u8 n ++ bytes_of VarInt len ++ bs2 = fst (addrv2_encode a) ++ rest) as Hseg.
  { intros K -> HK s bs3 [Hs ->]%read_be_address_inv -> ->. split; [done|].
    apply Hk; rewrite HK; [done| |done]. cbn [snd]. rewrite segment_bytes_length, (proj1 Hs). done. }
  destruct (Z.eqb_spec n 1) as [->|H1].
  { destruct (Z.eqb_spec len 4) as [->|]; [|done]. revert H. by apply (Harr 4%nat Ipv4). }
  destruct (Z.eqb_spec n 2) as [->|H2].
  { destruct (Z.eqb_spec len 16) as [->|]; [|done]. cbn [negb] in H. rewrite on_slice_bind_Ok in H.
    destruct H as (s & bs3 & Hs & H). do 2 (case_bool_decide; [done|]). rewrite on_slice_ret in H.
    injection H as <- <-. destruct (Hseg Ipv6 eq_refl (fun _ => eq_refl) s bs3 Hs eq_refl eq_refl). done. }
  destruct (Z.eqb_spec n 3) as [->|H3].
  { destruct (Z.eqb_spec len 10) as [->|]; [|done]. revert H. by apply (Harr 10%nat TorV2). }
  destruct (Z.eqb_spec n 4) as [->|H4].
  { destruct (Z.eqb_spec len 32) as [->|]; [|done]. revert H. by apply (Harr 32%nat TorV3). }
  destruct (Z.eqb_spec n 5) as [->|H5].
  { destruct (Z.eqb_spec len 32) as [->|]; [|done]. revert H. by apply (Harr 32%nat I2p). }
  destruct (Z.eqb_spec n 6) as [->|H6].
  { destruct (Z.eqb_spec len 16) as [->|]; [|done]. cbn [negb] in H. rewrite on_slice_bind_Ok in H.
    destruct H as (s & bs3 & Hs & H). destruct (Z.eqb_spec (Z.shiftr (nth 0 s 0) 8) 0xFC) as [Hc|]; [|done].
    cbn [negb] in H. rewrite on_slice_ret in H. injection H as <- <-.
    destruct (Hseg Cjdns eq_refl (fun _ => eq_refl) s bs3 Hs eq_refl eq_refl). done. }
  unfold in_u in Hl. revert H. apply (Harr (Z.to_nat len) (UnknownNet n)); [lia|done|].
  intros b Hb. cbn [addrv2_wf]. split; [done|]. lia.
Qed.

#[export] Instance AddrV2_Canonical : Canonical AddrV2C addrv2_wf.
Proof. apply simple_Canonical. apply addrv2_decode_inv. Qed.

Definition addrv2_message_wf (m : AddrV2Message) : Prop :=
  in_u 32 (v2_time m) /\ in_u 64 (v2_services m) /\ addrv2_wf (v2_addr m) /\ in_u 16 (v2_port m).

#[export] Instance AddrV2Message_Codec : Codec AddrV2MessageC addrv2_message_wf.
Proof.
  apply simple_Codec.
  - intros m (Ht & Hs & Ha & _). unfold addrv2_message_encode, wcat. cbn [fst snd].
    rewrite (encode_len (c:=u32)), (encode_len (c:=VarInt)), (encode_len (c:=AddrV2C)) by done.
    unfold bytes_of. rewrite !length_app, to_be_bytes_length. lia.
  - unfold addrv2_message_decode. apply _.
  - intros [t s a p] rest (Ht & Hs & Ha & Hp). unfold addrv2_message_encode, addrv2_message_decode, wcat.
    cbn [v2_time v2_services v2_addr v2_port fst] in *. fold (bytes_of u32 t) (bytes_of VarInt s) (bytes_of AddrV2C a).
    rewrite <- !app_assoc, on_slice_bind, (finite_roundtrip (c:=u32)) by done.
    rewrite on_slice_bind, varint_dec by done.
    by rewrite on_slice_bind, (finite_roundtrip (c:=AddrV2C)), on_slice_bind, read_port_app.
Qed.

#[export] Instance AddrV2Message_Canonical : Canonical AddrV2MessageC addrv2_message_wf.
Proof.
  apply simple_Canonical. intros bs m rest H. unfold addrv2_message_decode in H. dec_inv.
  apply (finite_canonical (c:=u32)) in H as [? ->]. apply (decode_canonical (c:=VarInt)) in H0 as [? ->].
  apply (finite_canonical (c:=AddrV2C)) in H1 as [? ->]. apply read_port_inv in H2 as [? ->].
  split; [done|]. unfold addrv2_message_encode, wcat. cbn [fst v2_time v2_services v2_addr v2_port].
  by rewrite <- !app_assoc.
Qed.

(** *** Inventories *)

(** [Error] is written with a hash that is not read back, so it is not among the values that round
    trip; an unknown type must not be one of the known ones. *)
Definition known_inv_type (t : Z) : bool :=
  (t =? 0) || (t =? 1) || (t =? 2) || (t =? 4) || (t =? 5) || (t =? 0x40000001) || (t =? 0x40000002).
Definition inventory_wf (i : Inventory) : Prop :=
  match i with
  | InvError => False
  | InvUnknown t h => in_u 32 t /\ known_inv_type t = false /\ length h = 32%nat
  | InvTransaction h | InvBlock h | InvCompactBlock h | InvWTx h | InvWitnessTransaction h
  | InvWitnessBlock h => length h = 32%nat
  end.

Lemma on_slice_array {A} (K : list byte -> A) h rest : length h = 32%nat ->
  on_slice (K <$> consensus_decode (array 32)) (h ++ rest) = Ok (K h, rest).
Proof. intros Hh. rewrite on_slice_fmap. cbn [array simple consensus_decode]. by rewrite on_slice_read_app. Qed.

#[export] Instance Inventory_Codec : Codec InventoryC inventory_wf.
Proof.
  apply simple_Codec.
  - intros i Hi. assert (forall t h, length h = 32%nat -> snd (encode_inv t h) = Z.of_nat (length (fst (encode_inv t h)))) as H.
    { intros t h Hh. unfold encode_inv, wcat. cbn [fst snd u32 u_le array simple consensus_encode].
      rewrite length_app, length_le_split. lia. }
    destruct i; try (by apply H). by apply H, Hi.
  - unfold inventory_decode. apply _.
  - intros i rest Hi. assert (forall t h, in_u 32 t -> on_slice inventory_decode (fst (encode_inv t h) ++ rest) =
      on_slice (if t =? 0 then mret InvError
        else if t =? 1 then InvTransaction <$> consensus_decode (array 32)
        else if t =? 2 then InvBlock <$> consensus_decode (array 32)
        else if t =? 4 then InvCompactBlock <$> consensus_decode (array 32)
        else if t =? 5 then InvWTx <$> consensus_decode (array 32)
        else if t =? 0x40000001 then InvWitnessTransaction <$> consensus_decode (array 32)
        else if t =? 0x40000002 then InvWitnessBlock <$> consensus_decode (array 32)
        else InvUnknown t <$> consensus_decode (array 32)) (h ++ rest)) as H.
    { intros t h Ht. unfold encode_inv, wcat, inventory_decode. cbn [fst]. fold (bytes_of u32 t).
      change (fst (consensus_encode (array 32) h)) with h.
      by rewrite <- app_assoc, on_slice_bind, (finite_roundtrip (c:=u32)). }
    destruct i as [|h|h|h|h|h|h|t h]; cbn [inventory_encode inventory_wf] in *;
      [done|rewrite H by (unfold in_u; lia); by apply on_slice_array..|].
    destruct Hi as (Ht & Hk & Hh). unfold known_inv_type in Hk. rewrite !orb_false_iff in Hk.
    destruct Hk as ((((((H0 & H1) & H2) & H4) & H5) & H6) & H7). rewrite H by done.
    rewrite H0, H1, H2, H4, H5, H6, H7. by apply on_slice_array.
Qed.

(** Reading back an [Error] entry leaves its hash in the reader. *)
Lemma inventory_error_desync rest :
  on_slice (consensus_decode InventoryC) (bytes_of InventoryC InvError ++ rest) =
  Ok (InvError, replicate 32 Byte.x00 ++ rest).
Proof. reflexivity. Qed.

(** *** Checksummed data and commands *)

Lemma sha2_checksum_length data : length (sha2_checksum data) = 4%nat.
Proof. unfold sha2_checksum. by rewrite length_take, sha256d_length. Qed.

#[local] Opaque sha2_checksum.

Lemma checked_decode_iff bs d rest : on_slice checked_decode bs = Ok (d, rest) <->
  Z.of_nat (length (cd_data d)) < 2 ^ 32 /\ cd_checksum d = sha2_checksum (cd_data d) /\
  bs = bytes_of u32 (Z.of_nat (length (cd_data d))) ++ cd_checksum d ++ cd_data d ++ rest.
Proof.
  unfold checked_decode. split.
  - rewrite on_slice_bind_Ok. intros (len & bs1 & Hl & H). rewrite on_slice_bind_Ok in H.
    destruct H as (ck & bs2 & Hc & H). rewrite on_slice_bind_Ok in H. destruct H as (data & bs3 & Hd & H).
    case_bool_decide as E; [|done]. rewrite on_slice_ret in H. injection H as <- <-.
    apply (finite_canonical (c:=u32)) in Hl as [Hl ->]. apply (finite_canonical (c:=array 4)) in Hc as [_ ->].
    unfold in_u in Hl. rewrite read_bytes_spec in Hd by (unfold MAX_VEC_SIZE; lia).
    apply on_slice_read_Ok in Hd as [Hd ->].
    cbn [cd_data cd_checksum]. rewrite Hd, Z2Nat.id by lia. split; [lia|]. by split.
  - intros (Hl & Hc & ->). destruct d as [data ck]. cbn [cd_data cd_checksum] in *.
    rewrite on_slice_bind, (finite_roundtrip (c:=u32)) by (unfold in_u; lia). subst ck.
    rewrite on_slice_bind. cbn [array simple consensus_decode_from_finite_reader].
    rewrite on_slice_read_app by apply sha2_checksum_length.
    rewrite on_slice_bind, read_bytes_spec by (unfold MAX_VEC_SIZE; lia). rewrite Nat2Z.id.
    rewrite on_slice_read_app by done. by rewrite bool_decide_true.
Qed.

(** Commands that survive their encoding: ASCII without zero bytes, at most 12 of them. *)
Definition command_wf (c : list byte) : Prop :=
  (length c <= 12)%nat /\ Forall (fun b => 0 < byte.unsigned b < 0x80) c.

Lemma command_text_ascii c n : Forall (fun b => 0 < byte.unsigned b < 0x80) c ->
  command_text (c ++ replicate n Byte.x00) = c.
Proof.
  intros Hc. unfold command_text. induction Hc as [|b c Hb Hc IH]; cbn [app List.filter].
  - by induction n.
  - rewrite (proj2 (Z.ltb_lt 0 _)) by lia. rewrite bind_cons, IH. unfold char_bytes.
    by rewrite (proj2 (Z.ltb_lt _ 0x80)) by lia.
Qed.

Lemma command_roundtrip {bm : BuildMode} c rest : command_wf c ->
  exists raw, command_encode c = Ret (raw, 12) /\ length raw = 12%nat /\ command_text raw = c /\
  on_slice command_decode (raw ++ rest) = Ok (c, rest).
Proof.
  intros [Hl Hc]. exists (c ++ replicate (12 - length c) Byte.x00).
  assert (length (c ++ replicate (12 - length c) Byte.x00) = 12%nat) as H12.
  { rewrite length_app, length_replicate. lia. }
  split_and!; [| |by apply command_text_ascii|].
  - unfold command_encode, debug_assert. rewrite (proj2 (Nat.leb_le _ 12) Hl). cbn [negb]. rewrite andb_false_r, bind_Ret.
    cbn [array simple consensus_encode]. by rewrite H12.
  - done.
  - unfold command_decode. cbn [array simple consensus_decode]. rewrite on_slice_bind, on_slice_read_app by done.
    by rewrite on_slice_ret, command_text_ascii.
Qed.

(** A received command can be too long to be sent: bytes from 128 on grow to two. *)
Lemma command_cannot_be_resent {bm : BuildMode} : exists c,
  on_slice command_decode (replicate 12 Byte.xff) = Ok (c, []) /\ length c = 24%nat /\ command_encode c = Panic.
Proof. eexists. split; [reflexivity|]. split; [reflexivity|]. by destruct bm. Qed.

(** *** Socket addresses

    An IPv4 address comes back from the form stored in a peer address; an IPv6 address does unless it
    is an onion address, which is refused, or looks like an IPv4 address. *)
Lemma socket_addr_exact (ip4 : list byte) (ip6 : list Z) (p : Z) (s : ServiceFlags) : length ip4 = 4%nat ->
  socket_addr (address_new (SocketV4 ip4 p) s) = Ok (SocketV4 ip4 p) /\
  (socket_addr (address_new (SocketV6 ip6 p) s) = Ok (SocketV6 ip6 p) <->
     take 3 ip6 <> ONION /\ to_ipv4 ip6 = None).
Proof.
  intros Hl. unfold socket_addr, address_new. cbn [address port]. split.
  - rewrite bool_decide_false by done. unfold to_ipv6_mapped, to_ipv4. cbn [Z.eqb Pos.eqb orb].
    rewrite !from_to_be2 by (rewrite ?length_take, ?length_drop; lia). by rewrite take_drop.
  - case_bool_decide as Ho; [split; [done|by intros []]|].
    destruct (to_ipv4 ip6) as [v4|]; [split; [done|by intros []]|done].
Qed.

(** The IPv6 loopback address comes back as an IPv4 address. *)
Lemma loopback_changes_family p s :
  socket_addr (address_new (SocketV6 [0; 0; 0; 0; 0; 0; 0; 1] p) s) = Ok (SocketV4 (map byte.of_Z [0; 0; 0; 1]) p).
Proof. reflexivity. Qed.
