(* ===== verification/P2pMessage.v ===== *)
(** * Peer-to-peer messages ([p2p/message.rs] and the [message_*.rs] beside it)

    The structures of the single messages, the message type over any header and block type, its
    payload encoding, and the framed message with magic, command, length and checksum.  Encoding a
    request for block transactions and encoding a command can panic, so the encoders of messages
    are computations; [mem::size_of::<Transaction>()] is a parameter, as for compact blocks. *)

From Stdlib Require Import ZArith Lia.
From Stdlib Require Strings.String.
From coqutil Require Import Byte Word.LittleEndianList.
From stdpp Require Import base tactics option list numbers.
From S2P Require Import Prelude U256 Params Io Encode HashEngine Sha256 Merkle PartialMerkle Transaction Block CompactBlocks AuxPow Dogecoin P2p.

Import String.StringSyntax.
Open Scope Z_scope.

Definition MAX_MSG_SIZE : Z := 5000000.

(** ** Structures *)

Record VersionMessage := mkVersion {
  ver_version : Z;
  ver_services : ServiceFlags;
  ver_timestamp : Z;
  ver_receiver : Address;
  ver_sender : Address;
  ver_nonce : Z;
  ver_user_agent : list byte;
  ver_start_height : Z;
  ver_relay : bool;
}.
Definition version_new (version : Z) (services : ServiceFlags) (timestamp : Z) (receiver sender : Address)
    (nonce : Z) (user_agent : list byte) (start_height : Z) : VersionMessage :=
  mkVersion version services timestamp receiver sender nonce user_agent start_height false.
Definition version_fields (v : VersionMessage) :=
  (ver_version v, (ver_services v, (ver_timestamp v, (ver_receiver v, (ver_sender v, (ver_nonce v,
    (ver_user_agent v, (ver_start_height v, ver_relay v)))))))).
Definition VersionMessageC : Consensus VersionMessage :=
  impl_consensus_encoding version_fields
    (fun '(v, (s, (t, (r, (sd, (n, (u, (h, rl)))))))) => mkVersion v s t r sd n u h rl)
    (fields u32 (fields ServiceFlagsC (fields i64 (fields AddressC (fields AddressC (fields u64
      (fields StringC (fields i32 bool_)))))))).

Inductive RejectReason :=
| Malformed | Invalid | Obsolete | Duplicate | NonStandard | Dust | Fee | Checkpoint.
Definition reject_code (r : RejectReason) : Z :=
  match r with
  | Malformed => 0x01 | Invalid => 0x10 | Obsolete => 0x11 | Duplicate => 0x12
  | NonStandard => 0x40 | Dust => 0x41 | Fee => 0x42 | Checkpoint => 0x43
  end.
Definition reject_reason_decode : Decoder RejectReason :=
  b ← consensus_decode u8;
  if b =? 0x01 then mret Malformed
  else if b =? 0x10 then mret Invalid
  else if b =? 0x11 then mret Obsolete
  else if b =? 0x12 then mret Duplicate
  else if b =? 0x40 then mret NonStandard
  else if b =? 0x41 then mret Dust
  else if b =? 0x42 then mret Fee
  else if b =? 0x43 then mret Checkpoint
  else dfail (ParseFailed "unknown reject code").
Definition RejectReasonC : Consensus RejectReason :=
  simple (fun r => ([byte.of_Z (reject_code r)], 1)) reject_reason_decode.

Record Reject := mkReject { rj_message : list byte; ccode : RejectReason; reason : list byte; rj_hash : list byte }.
Definition RejectC : Consensus Reject :=
  impl_consensus_encoding (fun r => (rj_message r, (ccode r, (reason r, rj_hash r))))
    (fun '(m, (c, (r, h))) => mkReject m c r h)
    (fields StringC (fields RejectReasonC (fields StringC BlockHash))).

Record GetBlocksMessage := mkGetBlocks { gb_version : Z; gb_locator_hashes : list (list byte); gb_stop_hash : list byte }.
Definition GetBlocksMessageC : Consensus GetBlocksMessage :=
  impl_consensus_encoding (fun g => (gb_version g, (gb_locator_hashes g, gb_stop_hash g)))
    (fun '(v, (l, s)) => mkGetBlocks v l s) (fields u32 (fields (vec BlockHash) BlockHash)).
Record GetHeadersMessage := mkGetHeaders { gh_version : Z; gh_locator_hashes : list (list byte); gh_stop_hash : list byte }.
Definition GetHeadersMessageC : Consensus GetHeadersMessage :=
  impl_consensus_encoding (fun g => (gh_version g, (gh_locator_hashes g, gh_stop_hash g)))
    (fun '(v, (l, s)) => mkGetHeaders v l s) (fields u32 (fields (vec BlockHash) BlockHash)).

Inductive BloomFlags := BloomNone | BloomAll | BloomPubkeyOnly.
Definition bloom_code (f : BloomFlags) : Z :=
  match f with BloomNone => 0 | BloomAll => 1 | BloomPubkeyOnly => 2 end.
Definition bloom_flags_decode : Decoder BloomFlags :=
  b ← consensus_decode u8;
  if b =? 0 then mret BloomNone
  else if b =? 1 then mret BloomAll
  else if b =? 2 then mret BloomPubkeyOnly
  else dfail (ParseFailed "unknown bloom flag").
Definition BloomFlagsC : Consensus BloomFlags :=
  simple (fun f => ([byte.of_Z (bloom_code f)], 1)) bloom_flags_decode.

Record FilterLoad := mkFilterLoad { fl_filter : list byte; hash_funcs : Z; tweak : Z; fl_flags : BloomFlags }.
Definition FilterLoadC : Consensus FilterLoad :=
  impl_consensus_encoding (fun f => (fl_filter f, (hash_funcs f, (tweak f, fl_flags f))))
    (fun '(f, (h, (t, g))) => mkFilterLoad f h t g)
    (fields byte_vec (fields u32 (fields u32 BloomFlagsC))).
Record FilterAdd := mkFilterAdd { fa_data : list byte }.
Definition FilterAddC : Consensus FilterAdd := impl_consensus_encoding fa_data mkFilterAdd byte_vec.

Record GetCFilters := mkGetCFilters { gcf_filter_type : Z; gcf_start_height : Z; gcf_stop_hash : list byte }.
Definition GetCFiltersC : Consensus GetCFilters :=
  impl_consensus_encoding (fun g => (gcf_filter_type g, (gcf_start_height g, gcf_stop_hash g)))
    (fun '(t, (h, s)) => mkGetCFilters t h s) (fields u8 (fields u32 BlockHash)).
Record CFilter := mkCFilter { cf_filter_type : Z; cf_block_hash : list byte; cf_filter : list byte }.
Definition CFilterC : Consensus CFilter :=
  impl_consensus_encoding (fun c => (cf_filter_type c, (cf_block_hash c, cf_filter c)))
    (fun '(t, (h, f)) => mkCFilter t h f) (fields u8 (fields BlockHash byte_vec)).
Record GetCFHeaders := mkGetCFHeaders { gch_filter_type : Z; gch_start_height : Z; gch_stop_hash : list byte }.
Definition GetCFHeadersC : Consensus GetCFHeaders :=
  impl_consensus_encoding (fun g => (gch_filter_type g, (gch_start_height g, gch_stop_hash g)))
    (fun '(t, (h, s)) => mkGetCFHeaders t h s) (fields u8 (fields u32 BlockHash)).
Record CFHeaders := mkCFHeaders {
  ch_filter_type : Z; ch_stop_hash : list byte; previous_filter_header : list byte; filter_hashes : list (list byte) }.
Definition CFHeadersC : Consensus CFHeaders :=
  impl_consensus_encoding
    (fun c => (ch_filter_type c, (ch_stop_hash c, (previous_filter_header c, filter_hashes c))))
    (fun '(t, (s, (p, f))) => mkCFHeaders t s p f)
    (fields u8 (fields BlockHash (fields BlockHash (vec BlockHash)))).
Record GetCFCheckpt := mkGetCFCheckpt { gcc_filter_type : Z; gcc_stop_hash : list byte }.
Definition GetCFCheckptC : Consensus GetCFCheckpt :=
  impl_consensus_encoding (fun g => (gcc_filter_type g, gcc_stop_hash g))
    (fun '(t, s) => mkGetCFCheckpt t s) (fields u8 BlockHash).
Record CFCheckpt := mkCFCheckpt { cc_filter_type : Z; cc_stop_hash : list byte; filter_headers : list (list byte) }.
Definition CFCheckptC : Consensus CFCheckpt :=
  impl_consensus_encoding (fun c => (cc_filter_type c, (cc_stop_hash c, filter_headers c)))
    (fun '(t, (s, h)) => mkCFCheckpt t s h) (fields u8 (fields BlockHash (vec BlockHash))).

Record SendCmpct := mkSendCmpct { send_compact : bool; sc_version : Z }.
Definition SendCmpctC : Consensus SendCmpct :=
  impl_consensus_encoding (fun s => (send_compact s, sc_version s)) (fun '(c, v) => mkSendCmpct c v) (fields bool_ u64).
Record CmpctBlock := mkCmpctBlock { compact_block : HeaderAndShortIds }.
Definition CmpctBlockC : Consensus CmpctBlock := impl_consensus_encoding compact_block mkCmpctBlock HeaderAndShortIdsC.
Record GetBlockTxn := mkGetBlockTxn { txs_request : BlockTransactionsRequest }.
Record BlockTxn := mkBlockTxn { bt_transactions : BlockTransactions }.
Definition BlockTxnC : Consensus BlockTxn := impl_consensus_encoding bt_transactions mkBlockTxn BlockTransactionsC.

(** ** Messages *)

Inductive NetworkMessage (Header Block : Type) :=
| Version (dat : VersionMessage)
| Verack
| Addr (dat : list (Z * Address))
| Inv (dat : list Inventory)
| GetData (dat : list Inventory)
| NotFound (dat : list Inventory)
| GetBlocks (dat : GetBlocksMessage)
| GetHeaders (dat : GetHeadersMessage)
| MemPool
| Tx (dat : Transaction)
| MBlock (dat : Block)
| Headers (dat : list Header)
| SendHeaders
| GetAddr
| Ping (dat : Z)
| Pong (dat : Z)
| MMerkleBlock (dat : MerkleBlock)
| MFilterLoad (dat : FilterLoad)
| MFilterAdd (dat : FilterAdd)
| FilterClear
| MGetCFilters (dat : GetCFilters)
| MCFilter (dat : CFilter)
| MGetCFHeaders (dat : GetCFHeaders)
| MCFHeaders (dat : CFHeaders)
| MGetCFCheckpt (dat : GetCFCheckpt)
| MCFCheckpt (dat : CFCheckpt)
| MSendCmpct (dat : SendCmpct)
| MCmpctBlock (dat : CmpctBlock)
| MGetBlockTxn (dat : GetBlockTxn)
| MBlockTxn (dat : BlockTxn)
| Alert (dat : list byte)
| MReject (dat : Reject)
| FeeFilter (dat : Z)
| WtxidRelay
| AddrV2s (dat : list AddrV2Message)
| SendAddrV2
| Unknown (unknown_command : list byte) (payload : list byte).
Arguments Version {Header Block}. Arguments Verack {Header Block}. Arguments Addr {Header Block}.
Arguments Inv {Header Block}. Arguments GetData {Header Block}. Arguments NotFound {Header Block}.
Arguments GetBlocks {Header Block}. Arguments GetHeaders {Header Block}. Arguments MemPool {Header Block}.
Arguments Tx {Header Block}. Arguments MBlock {Header Block}. Arguments Headers {Header Block}.
Arguments SendHeaders {Header Block}. Arguments GetAddr {Header Block}. Arguments Ping {Header Block}.
Arguments Pong {Header Block}. Arguments MMerkleBlock {Header Block}. Arguments MFilterLoad {Header Block}.
Arguments MFilterAdd {Header Block}. Arguments FilterClear {Header Block}. Arguments MGetCFilters {Header Block}.
Arguments MCFilter {Header Block}. Arguments MGetCFHeaders {Header Block}. Arguments MCFHeaders {Header Block}.
Arguments MGetCFCheckpt {Header Block}. Arguments MCFCheckpt {Header Block}. Arguments MSendCmpct {Header Block}.
Arguments MCmpctBlock {Header Block}. Arguments MGetBlockTxn {Header Block}. Arguments MBlockTxn {Header Block}.
Arguments Alert {Header Block}. Arguments MReject {Header Block}. Arguments FeeFilter {Header Block}.
Arguments WtxidRelay {Header Block}. Arguments AddrV2s {Header Block}. Arguments SendAddrV2 {Header Block}.
Arguments Unknown {Header Block}.

Definition str_bytes (s : String.string) : list byte := String.list_byte_of_string s.
Arguments str_bytes s%_string_scope.

Definition cmd {Header Block} (self : NetworkMessage Header Block) : list byte :=
  str_bytes match self with
  | Version _ => "version"
  | Verack => "verack"
  | Addr _ => "addr"
  | Inv _ => "inv"
  | GetData _ => "getdata"
  | NotFound _ => "notfound"
  | GetBlocks _ => "getblocks"
  | GetHeaders _ => "getheaders"
  | MemPool => "mempool"
  | Tx _ => "tx"
  | MBlock _ => "block"
  | Headers _ => "headers"
  | SendHeaders => "sendheaders"
  | GetAddr => "getaddr"
  | Ping _ => "ping"
  | Pong _ => "pong"
  | MMerkleBlock _ => "merkleblock"
  | MFilterLoad _ => "filterload"
  | MFilterAdd _ => "filteradd"
  | FilterClear => "filterclear"
  | MGetCFilters _ => "getcfilters"
  | MCFilter _ => "cfilter"
  | MGetCFHeaders _ => "getcfheaders"
  | MCFHeaders _ => "cfheaders"
  | MGetCFCheckpt _ => "getcfcheckpt"
  | MCFCheckpt _ => "cfcheckpt"
  | MSendCmpct _ => "sendcmpct"
  | MCmpctBlock _ => "cmpctblock"
  | MGetBlockTxn _ => "getblocktxn"
  | MBlockTxn _ => "blocktxn"
  | Alert _ => "alert"
  | MReject _ => "reject"
  | FeeFilter _ => "feefilter"
  | WtxidRelay => "wtxidrelay"
  | AddrV2s _ => "addrv2"
  | SendAddrV2 => "sendaddrv2"
  | Unknown _ _ => "unknown"
  end.

Definition command {Header Block} (self : NetworkMessage Header Block) : run (list byte) :=
  match self with
  | Unknown c _ => Ret c
  | _ => match command_try_from (cmd self) with Ok c => Ret c | Err _ => Panic end
  end.

Section messages.
Context {bm : BuildMode} {Header Block : Type} (hc : Consensus Header) (bc : Consensus Block).
Context (size_of_transaction : Z).

(** A header of a [headers] message and the transaction count after it. *)
Definition counted_header_decode : Decoder Header :=
  h ← consensus_decode hc;
  n ← consensus_decode u8;
  if negb (n =? 0) then dfail (ParseFailed "Headers message should not contain transactions")
  else mret h.
Definition CountedHeader : Consensus Header :=
  simple (fun h => consensus_encode hc h +++ consensus_encode u8 0) counted_header_decode.

(** [HeaderSerializationWrapper] and [HeaderDeserializationWrapper] *)
Definition HeaderList : Consensus (list Header) := {|
  consensus_encode := vec_encode CountedHeader;
  consensus_decode_from_finite_reader := vec_decode CountedHeader;
  consensus_decode := with_take MAX_MSG_SIZE (vec_decode CountedHeader);
|}.

Definition message_encode (self : NetworkMessage Header Block) : run (list byte * Z) :=
  match self with
  | Version dat => Ret (consensus_encode VersionMessageC dat)
  | Addr dat => Ret (consensus_encode (vec (tuple2 u32 AddressC)) dat)
  | Inv dat => Ret (consensus_encode (vec InventoryC) dat)
  | GetData dat => Ret (consensus_encode (vec InventoryC) dat)
  | NotFound dat => Ret (consensus_encode (vec InventoryC) dat)
  | GetBlocks dat => Ret (consensus_encode GetBlocksMessageC dat)
  | GetHeaders dat => Ret (consensus_encode GetHeadersMessageC dat)
  | Tx dat => Ret (consensus_encode TransactionC dat)
  | MBlock dat => Ret (consensus_encode bc dat)
  | Headers dat => Ret (consensus_encode HeaderList dat)
  | Ping dat => Ret (consensus_encode u64 dat)
  | Pong dat => Ret (consensus_encode u64 dat)
  | MMerkleBlock dat => Ret (consensus_encode MerkleBlockC dat)
  | MFilterLoad dat => Ret (consensus_encode FilterLoadC dat)
  | MFilterAdd dat => Ret (consensus_encode FilterAddC dat)
  | MGetCFilters dat => Ret (consensus_encode GetCFiltersC dat)
  | MCFilter dat => Ret (consensus_encode CFilterC dat)
  | MGetCFHeaders dat => Ret (consensus_encode GetCFHeadersC dat)
  | MCFHeaders dat => Ret (consensus_encode CFHeadersC dat)
  | MGetCFCheckpt dat => Ret (consensus_encode GetCFCheckptC dat)
  | MCFCheckpt dat => Ret (consensus_encode CFCheckptC dat)
  | MSendCmpct dat => Ret (consensus_encode SendCmpctC dat)
  | MCmpctBlock dat => Ret (consensus_encode CmpctBlockC dat)
  | MGetBlockTxn dat => request_encode (txs_request dat)
  | MBlockTxn dat => Ret (consensus_encode BlockTxnC dat)
  | Alert dat => Ret (consensus_encode byte_vec dat)
  | MReject dat => Ret (consensus_encode RejectC dat)
  | FeeFilter dat => Ret (consensus_encode i64 dat)
  | AddrV2s dat => Ret (consensus_encode (vec AddrV2MessageC) dat)
  | Verack | SendHeaders | MemPool | GetAddr | WtxidRelay | FilterClear | SendAddrV2 => Ret wnil
  | Unknown _ data => Ret (consensus_encode byte_vec data)
  end.

(** [K(Decodable::consensus_decode_from_finite_reader(&mut mem_d)?)]: what is left of the payload
    is dropped. *)
Definition read {A} (c : Decoder A) (K : A -> NetworkMessage Header Block) (raw_payload : list byte) : Result Error (NetworkMessage Header Block) :=
  match on_slice c raw_payload with Ok (a, _) => Ok (K a) | Err e => Err e end.
Definition finite {A} (c : Consensus A) : Decoder A := consensus_decode_from_finite_reader c.

Definition is_command (command : list byte) (s : String.string) : bool :=
  bool_decide (command = str_bytes s).
Arguments is_command command s%_string_scope.

Definition payload_decode (command raw_payload : list byte) : Result Error (NetworkMessage Header Block) :=
  if is_command command "version" then read (finite VersionMessageC) Version raw_payload
  else if is_command command "verack" then Ok Verack
  else if is_command command "addr" then read (finite (vec (tuple2 u32 AddressC))) Addr raw_payload
  else if is_command command "inv" then read (finite (vec InventoryC)) Inv raw_payload
  else if is_command command "getdata" then read (finite (vec InventoryC)) GetData raw_payload
  else if is_command command "notfound" then read (finite (vec InventoryC)) NotFound raw_payload
  else if is_command command "getblocks" then read (finite GetBlocksMessageC) GetBlocks raw_payload
  else if is_command command "getheaders" then read (finite GetHeadersMessageC) GetHeaders raw_payload
  else if is_command command "mempool" then Ok MemPool
  else if is_command command "block" then read (finite bc) MBlock raw_payload
  else if is_command command "headers" then read (finite HeaderList) Headers raw_payload
  else if is_command command "sendheaders" then Ok SendHeaders
  else if is_command command "getaddr" then Ok GetAddr
  else if is_command command "ping" then read (finite u64) Ping raw_payload
  else if is_command command "pong" then read (finite u64) Pong raw_payload
  else if is_command command "merkleblock" then read (finite MerkleBlockC) MMerkleBlock raw_payload
  else if is_command command "filterload" then read (finite FilterLoadC) MFilterLoad raw_payload
  else if is_command command "filteradd" then read (finite FilterAddC) MFilterAdd raw_payload
  else if is_command command "filterclear" then Ok FilterClear
  else if is_command command "tx" then read (finite TransactionC) Tx raw_payload
  else if is_command command "getcfilters" then read (finite GetCFiltersC) MGetCFilters raw_payload
  else if is_command command "cfilter" then read (finite CFilterC) MCFilter raw_payload
  else if is_command command "getcfheaders" then read (finite GetCFHeadersC) MGetCFHeaders raw_payload
  else if is_command command "cfheaders" then read (finite CFHeadersC) MCFHeaders raw_payload
  else if is_command command "getcfcheckpt" then read (finite GetCFCheckptC) MGetCFCheckpt raw_payload
  else if is_command command "cfcheckpt" then read (finite CFCheckptC) MCFCheckpt raw_payload
  else if is_command command "reject" then read (finite RejectC) MReject raw_payload
  else if is_command command "alert" then read (finite byte_vec) Alert raw_payload
  else if is_command command "feefilter" then read (finite i64) FeeFilter raw_payload
  else if is_command command "sendcmpct" then read (finite SendCmpctC) MSendCmpct raw_payload
  else if is_command command "cmpctblock" then read (finite CmpctBlockC) MCmpctBlock raw_payload
  else if is_command command "getblocktxn" then
    read (mkGetBlockTxn <$> request_decode size_of_transaction) MGetBlockTxn raw_payload
  else if is_command command "blocktxn" then read (finite BlockTxnC) MBlockTxn raw_payload
  else if is_command command "wtxidrelay" then Ok WtxidRelay
  else if is_command command "addrv2" then read (finite (vec AddrV2MessageC)) AddrV2s raw_payload
  else if is_command command "sendaddrv2" then Ok SendAddrV2
  else Ok (Unknown command raw_payload).

(** ** Framed messages *)

Record RawNetworkMessage := mkRaw {
  raw_magic : list byte; raw_payload : NetworkMessage Header Block; raw_payload_len : Z; raw_checksum : list byte }.

(** Writing to the hash engine never fails; the checksum is that of the bytes written. *)
Definition raw_new (magic : list byte) (payload : NetworkMessage Header Block) : run RawNetworkMessage :=
  '(bytes, payload_len) ← message_encode payload;
  _ ← assert_ (in_ub 32 payload_len);
  Ret (mkRaw magic payload payload_len (sha2_checksum bytes)).

Definition raw_encode (self : RawNetworkMessage) : run (list byte * Z) :=
  c ← command (raw_payload self);
  c ← command_encode c;
  payload ← message_encode (raw_payload self);
  Ret (consensus_encode MagicC (raw_magic self) +++ c +++ consensus_encode u32 (raw_payload_len self)
       +++ consensus_encode (array 4) (raw_checksum self) +++ payload).

(** A result that does not depend on the reader. *)
Definition lift {A} (r : Result Error A) : Decoder A :=
  match r with Ok a => mret a | Err e => dfail e end.

Definition raw_decode : Decoder RawNetworkMessage :=
  magic ← consensus_decode_from_finite_reader MagicC;
  cmd ← command_decode;
  checked_data ← checked_decode;
  let checksum := cd_checksum checked_data in
  let raw_payload := cd_data checked_data in
  let payload_len := wrap 32 (Z.of_nat (length raw_payload)) in
  payload ← lift (payload_decode cmd raw_payload);
  mret (mkRaw magic payload payload_len checksum).
Definition raw_decode_limited : Decoder RawNetworkMessage := with_take MAX_MSG_SIZE raw_decode.
End messages.

(** ** Codecs of the structures *)

#[export] Instance i64_Codec : Codec i64 (in_i 64) := i_le_Codec 7.

#[export] Instance RejectReason_Codec : Codec RejectReasonC (fun _ => True).
Proof.
  apply simple_Codec; [done|unfold reject_reason_decode; apply _|]. intros r rest _. unfold reject_reason_decode.
  change (fst ([byte.of_Z (reject_code r)], 1)) with (bytes_of u8 (reject_code r)).
  rewrite on_slice_bind, (finite_roundtrip (c:=u8)) by (by destruct r). by destruct r.
Qed.
#[export] Instance BloomFlags_Codec : Codec BloomFlagsC (fun _ => True).
Proof.
  apply simple_Codec; [done|unfold bloom_flags_decode; apply _|]. intros f rest _. unfold bloom_flags_decode.
  change (fst ([byte.of_Z (bloom_code f)], 1)) with (bytes_of u8 (bloom_code f)).
  rewrite on_slice_bind, (finite_roundtrip (c:=u8)) by (by destruct f). by destruct f.
Qed.

(** A structure of the macro, from the codec of its fields. *)
Ltac impl_codec := intros; refine (impl_Codec _ _ _ _ _); by intros [].

Definition version_fields_wf :=
  fields_wf (in_u 32) (fields_wf (in_u 64) (fields_wf (in_i 64) (fields_wf P2p.address_wf (fields_wf P2p.address_wf
    (fields_wf (in_u 64) (fields_wf string_wf (fields_wf (in_i 32) (fun _ : bool => True)))))))).
#[export] Instance VersionMessage_Codec : Codec VersionMessageC (fun v => version_fields_wf (version_fields v)).
Proof. impl_codec. Qed.

#[export] Instance Reject_Codec : Codec RejectC
  (fun r => fields_wf string_wf (fields_wf (fun _ => True) (fields_wf string_wf hash_wf))
              (rj_message r, (ccode r, (reason r, rj_hash r)))).
Proof. impl_codec. Qed.

Definition locator_wf : Z * (list (list byte) * list byte) -> Prop :=
  fields_wf (in_u 32) (fields_wf (vec_wf hash_wf) hash_wf).
#[export] Instance GetBlocksMessage_Codec : Codec GetBlocksMessageC
  (fun g => locator_wf (gb_version g, (gb_locator_hashes g, gb_stop_hash g))).
Proof. impl_codec. Qed.
#[export] Instance GetHeadersMessage_Codec : Codec GetHeadersMessageC
  (fun g => locator_wf (gh_version g, (gh_locator_hashes g, gh_stop_hash g))).
Proof. impl_codec. Qed.

#[export] Instance FilterLoad_Codec : Codec FilterLoadC
  (fun f => fields_wf byte_vec_wf (fields_wf (in_u 32) (fields_wf (in_u 32) (fun _ => True)))
              (fl_filter f, (hash_funcs f, (tweak f, fl_flags f)))).
Proof. impl_codec. Qed.
#[export] Instance FilterAdd_Codec : Codec FilterAddC (fun f => byte_vec_wf (fa_data f)).
Proof. impl_codec. Qed.

Definition filter_range_wf : Z * (Z * list byte) -> Prop := fields_wf (in_u 8) (fields_wf (in_u 32) hash_wf).
#[export] Instance GetCFilters_Codec : Codec GetCFiltersC
  (fun g => filter_range_wf (gcf_filter_type g, (gcf_start_height g, gcf_stop_hash g))).
Proof. impl_codec. Qed.
#[export] Instance GetCFHeaders_Codec : Codec GetCFHeadersC
  (fun g => filter_range_wf (gch_filter_type g, (gch_start_height g, gch_stop_hash g))).
Proof. impl_codec. Qed.
#[export] Instance CFilter_Codec : Codec CFilterC
  (fun c => fields_wf (in_u 8) (fields_wf hash_wf byte_vec_wf) (cf_filter_type c, (cf_block_hash c, cf_filter c))).
Proof. impl_codec. Qed.
#[export] Instance CFHeaders_Codec : Codec CFHeadersC
  (fun c => fields_wf (in_u 8) (fields_wf hash_wf (fields_wf hash_wf (vec_wf hash_wf)))
              (ch_filter_type c, (ch_stop_hash c, (previous_filter_header c, filter_hashes c)))).
Proof. impl_codec. Qed.
#[export] Instance GetCFCheckpt_Codec : Codec GetCFCheckptC
  (fun g => fields_wf (in_u 8) hash_wf (gcc_filter_type g, gcc_stop_hash g)).
Proof. impl_codec. Qed.
#[export] Instance CFCheckpt_Codec : Codec CFCheckptC
  (fun c => fields_wf (in_u 8) (fields_wf hash_wf (vec_wf hash_wf)) (cc_filter_type c, (cc_stop_hash c, filter_headers c))).
Proof. impl_codec. Qed.
#[export] Instance SendCmpct_Codec : Codec SendCmpctC
  (fun s => fields_wf (fun _ => True) (in_u 64) (send_compact s, sc_version s)).
Proof. impl_codec. Qed.
#[export] Instance CmpctBlock_Codec : Codec CmpctBlockC (fun c => compact_block_wf (compact_block c)).
Proof. impl_codec. Qed.
#[export] Instance BlockTxn_Codec : Codec BlockTxnC (fun b => block_transactions_wf (bt_transactions b)).
Proof. impl_codec. Qed.

(** *** Merkle blocks

    The flag bits are read back in whole bytes. *)
Definition merkle_block_wf (m : MerkleBlock) : Prop :=
  header_wf (mb_header m) /\ pmt_wf (txn m) /\ padded (bits (txn m)) = bits (txn m) /\
  Z.of_nat (length (bytes_of PMT (txn m))) <= MAX_VEC_SIZE.

Lemma pmt_encode_len p : pmt_wf p -> snd (pmt_encode p) = Z.of_nat (length (fst (pmt_encode p))).
Proof.
  intros (Hn & Hh & Hl & Hb). unfold pmt_encode. rewrite fold_encode. unfold wcat. cbn [fst snd].
  unfold MAX_VEC_SIZE in *.
  assert (vec_wf (fun h : list byte => length h = 32%nat) (hashes p)) as Hv by (split; [done|lia]).
  destruct (bit_chunks_bytes (length (bits p)) (bits p) (le_n _)) as (H1 & H2 & _).
  rewrite (sum_encode_len u8 (in_u 8)).
  2: { apply Forall_map. eapply Forall_impl; [|exact H2]. intros ch Hch. by apply pack_bound. }
  rewrite (encode_len (c:=u32)), (encode_len (c:=vec TxMerkleNode) (wf:=vec_wf (fun h => length h = 32%nat))) by done.
  pose proof (Nat.Div0.div_lt_upper_bound (length (bits p) + 7) 8 (Z.to_nat 4000001) ltac:(lia)) as Hle.
  rewrite (encode_len (c:=VarInt)) by (unfold in_u; lia).
  unfold bytes_of. rewrite !length_app. lia.
Qed.

Lemma header_bytes_length h : header_wf h -> length (bytes_of HeaderC h) = 80%nat.
Proof.
  intros Hh. change (bytes_of HeaderC h) with (bytes_of BlockVersion (header_version h) ++ bytes_of BlockHash (prev_blockhash h)
    ++ bytes_of TxMerkleNode (merkle_root h) ++ bytes_of u32 (time h) ++ bytes_of CompactTargetC (header_bits h)
    ++ bytes_of u32 (nonce h)).
  destruct Hh as (_ & H1 & H2 & _ & _ & _). unfold hash_wf in *.
  change (bytes_of BlockHash ?x) with x. change (bytes_of TxMerkleNode ?x) with x.
  rewrite !length_app, H1, H2. reflexivity.
Qed.

#[export] Instance MerkleBlock_Codec : Codec MerkleBlockC merkle_block_wf.
Proof.
  apply simple_Codec.
  - intros m (Hh & Hp & _). unfold wcat. cbn [fst snd]. rewrite (encode_len (c:=HeaderC)) by done.
    cbn [PMT limited consensus_encode]. rewrite pmt_encode_len by done. unfold bytes_of. rewrite length_app. lia.
  - cbn [PMT limited consensus_decode]. unfold pmt_decode, push_bits. apply _.
  - intros [h t] rest (Hh & Hp & Hb & Hl). unfold wcat. cbn [fst mb_header txn] in *.
    fold (bytes_of HeaderC h) (bytes_of PMT t). rewrite <- app_assoc.
    rewrite on_slice_bind, (decode_roundtrip (c:=HeaderC)); [|done|rewrite header_bytes_length by done; unfold MAX_VEC_SIZE; lia].
    rewrite on_slice_bind. cbn [PMT limited consensus_decode].
    rewrite (with_take_roundtrip pmt_decode (bytes_of PMT t) t); [done| |exact Hl].
    intros rest'. change (bytes_of PMT t) with (fst (pmt_encode t)). rewrite pmt_roundtrip by done.
    destruct t as [n b hs]. cbn [bits num_transactions hashes] in *. by rewrite Hb.
Qed.

(** ** Payloads *)

Definition known_commands : list (list byte) :=
  [str_bytes "version"; str_bytes "verack"; str_bytes "addr"; str_bytes "inv"; str_bytes "getdata";
   str_bytes "notfound"; str_bytes "getblocks"; str_bytes "getheaders"; str_bytes "mempool";
   str_bytes "tx"; str_bytes "block"; str_bytes "headers"; str_bytes "sendheaders";
   str_bytes "getaddr"; str_bytes "ping"; str_bytes "pong"; str_bytes "merkleblock";
   str_bytes "filterload"; str_bytes "filteradd"; str_bytes "filterclear"; str_bytes "getcfilters";
   str_bytes "cfilter"; str_bytes "getcfheaders"; str_bytes "cfheaders"; str_bytes "getcfcheckpt";
   str_bytes "cfcheckpt"; str_bytes "sendcmpct"; str_bytes "cmpctblock"; str_bytes "getblocktxn";
   str_bytes "blocktxn"; str_bytes "alert"; str_bytes "reject"; str_bytes "feefilter";
   str_bytes "wtxidrelay"; str_bytes "addrv2"; str_bytes "sendaddrv2"].

Section payloads.
Context {bm : BuildMode} {Header Block : Type} (hc : Consensus Header) (bc : Consensus Block).
Context (size_of_transaction : Z) (Hsize : 1 <= size_of_transaction).
Context (hwf : Header -> Prop) (bwf : Block -> Prop) `{!Codec hc hwf, !Codec bc bwf}.

Definition counted_wf (h : Header) : Prop := hwf h /\ Z.of_nat (length (bytes_of hc h)) <= MAX_VEC_SIZE.

#[export] Instance CountedHeader_Codec : Codec (CountedHeader hc) counted_wf.
Proof.
  apply simple_Codec.
  - intros h [Hh _]. unfold wcat. cbn [fst snd]. rewrite (encode_len (c:=hc)), (encode_len (c:=u8)) by done.
    unfold bytes_of. rewrite length_app. lia.
  - unfold counted_header_decode. apply _.
  - intros h rest [Hh Hl]. unfold wcat, counted_header_decode. cbn [fst]. fold (bytes_of hc h) (bytes_of u8 0).
    rewrite <- app_assoc, on_slice_bind, (decode_roundtrip (c:=hc)) by done.
    by rewrite on_slice_bind, (finite_roundtrip (c:=u8)).
Qed.

(** The messages whose payload reads back: integers in range, hashes of 32 bytes, text valid, lists
    shorter than [2^64] entries. *)
Definition message_wf (m : NetworkMessage Header Block) : Prop :=
  match m with
  | Version v => version_fields_wf (version_fields v)
  | Addr l => vec_wf (tuple2_wf u32 AddressC (in_u 32) P2p.address_wf) l
  | Inv l | GetData l | NotFound l => vec_wf inventory_wf l
  | GetBlocks g => locator_wf (gb_version g, (gb_locator_hashes g, gb_stop_hash g))
  | GetHeaders g => locator_wf (gh_version g, (gh_locator_hashes g, gh_stop_hash g))
  | Tx t => tx_wf t
  | MBlock b => bwf b
  | Headers l => vec_wf counted_wf l
  | Ping n | Pong n => in_u 64 n
  | MMerkleBlock m => merkle_block_wf m
  | MFilterLoad f => byte_vec_wf (fl_filter f) /\ in_u 32 (hash_funcs f) /\ in_u 32 (tweak f)
  | MFilterAdd f => byte_vec_wf (fa_data f)
  | MGetCFilters g => filter_range_wf (gcf_filter_type g, (gcf_start_height g, gcf_stop_hash g))
  | MCFilter c => in_u 8 (cf_filter_type c) /\ hash_wf (cf_block_hash c) /\ byte_vec_wf (cf_filter c)
  | MGetCFHeaders g => filter_range_wf (gch_filter_type g, (gch_start_height g, gch_stop_hash g))
  | MCFHeaders c => in_u 8 (ch_filter_type c) /\ hash_wf (ch_stop_hash c) /\
      hash_wf (previous_filter_header c) /\ vec_wf hash_wf (filter_hashes c)
  | MGetCFCheckpt g => in_u 8 (gcc_filter_type g) /\ hash_wf (gcc_stop_hash g)
  | MCFCheckpt c => in_u 8 (cc_filter_type c) /\ hash_wf (cc_stop_hash c) /\ vec_wf hash_wf (filter_headers c)
  | MSendCmpct s => in_u 64 (sc_version s)
  | MCmpctBlock c => compact_block_wf (compact_block c)
  | MGetBlockTxn r => request_ok size_of_transaction (txs_request r) /\ Forall (in_u 64) (indexes (txs_request r))
  | MBlockTxn b => block_transactions_wf (bt_transactions b)
  | Alert b => byte_vec_wf b
  | MReject r => string_wf (rj_message r) /\ string_wf (reason r) /\ hash_wf (rj_hash r)
  | FeeFilter n => in_i 64 n
  | AddrV2s l => vec_wf addrv2_message_wf l
  | Unknown c p => command_wf c /\ (c ∉ known_commands) /\ byte_vec_wf p
  | Verack | MemPool | SendHeaders | GetAddr | FilterClear | WtxidRelay | SendAddrV2 => True
  end.

(** What the receiver gets: a message of unknown type is sent with the length of its payload in
    front, which the receiver takes for a part of the payload. *)
Definition received (m : NetworkMessage Header Block) : NetworkMessage Header Block :=
  match m with Unknown c p => Unknown c (bytes_of byte_vec p) | _ => m end.

(** The payload of [m] under the command of [m]. *)
Definition payload_ok (c : list byte) (m : NetworkMessage Header Block) : Prop :=
  exists bytes, message_encode hc bc m = Ret (bytes, Z.of_nat (length bytes)) /\
    payload_decode hc bc size_of_transaction c bytes = Ok (received m).

Lemma read_roundtrip {A} (c : Consensus A) wf `{!Codec c wf} (K : A -> NetworkMessage Header Block) a : wf a ->
  read (finite c) K (bytes_of c a) = Ok (K a).
Proof.
  intros Ha. unfold read, finite. pose proof (finite_roundtrip (c:=c) a [] Ha) as H.
  rewrite app_nil_r in H. by rewrite H.
Qed.

(** A message encoded with a codec and read with it under its command. *)
Lemma payload_codec {A} (c : Consensus A) wf `{!Codec c wf} (K : A -> NetworkMessage Header Block) a cmd : wf a ->
  message_encode hc bc (K a) = Ret (consensus_encode c a) -> received (K a) = K a ->
  payload_decode hc bc size_of_transaction cmd (bytes_of c a) = read (finite c) K (bytes_of c a) ->
  payload_ok cmd (K a).
Proof.
  intros Ha He Hr Hd. exists (bytes_of c a). rewrite He, Hd, Hr, (read_roundtrip c wf) by done. split; [|done].
  rewrite <- (encode_len (c:=c)) by done. unfold bytes_of. by destruct (consensus_encode c a).
Qed.

Lemma header_list_codec l cmd : vec_wf counted_wf l ->
  payload_decode hc bc size_of_transaction cmd (bytes_of (HeaderList hc) l) =
    read (finite (HeaderList hc)) Headers (bytes_of (HeaderList hc) l) ->
  payload_ok cmd (Headers l).
Proof.
  intros Hl Hd. apply (payload_codec (vec (CountedHeader hc)) (vec_wf counted_wf) Headers); [done..|].
  exact Hd.
Qed.

Lemma request_payload r cmd : request_ok size_of_transaction (txs_request r) ->
  Forall (in_u 64) (indexes (txs_request r)) ->
  (forall bytes, payload_decode hc bc size_of_transaction cmd bytes =
    read (mkGetBlockTxn <$> request_decode size_of_transaction) MGetBlockTxn bytes) ->
  payload_ok cmd (MGetBlockTxn r).
Proof.
  intros Hr Hi Hd. destruct (block_request_exact (bm := bm) size_of_transaction (txs_request r) [] [] Hsize Hi) as (H & _).
  destruct (H Hr) as (bytes & n & He & -> & Hdec). exists bytes. cbn [message_encode]. rewrite He. split; [done|].
  rewrite Hd. unfold read. rewrite on_slice_fmap. rewrite app_nil_r in Hdec. rewrite Hdec. by destruct r.
Qed.
End payloads.

(** Decides the tests of [payload_decode] on a literal command. *)
Ltac decide_command :=
  unfold payload_decode, is_command;
  repeat match goal with
  | |- context [bool_decide (?c = str_bytes ?s)] =>
      let b := eval vm_compute in (bool_decide (c = str_bytes s)) in
      change (bool_decide (c = str_bytes s)) with b; cbv iota
  end.

Section payload_roundtrip.
Context {bm : BuildMode} {Header Block : Type} (hc : Consensus Header) (bc : Consensus Block).
Context (size_of_transaction : Z) (Hsize : 1 <= size_of_transaction).
Context (hwf : Header -> Prop) (bwf : Block -> Prop) `{!Codec hc hwf, !Codec bc bwf}.

(** The message [K a], encoded and read with the codec [c]. *)
Ltac by_codec c :=
  eapply (payload_codec hc bc size_of_transaction c _);
  [first [eassumption|unfold fields_wf; cbn [fst snd]; tauto]|reflexivity|reflexivity|decide_command; reflexivity].
(** A message without payload. *)
Ltac by_empty := exists []; split; [reflexivity|decide_command; reflexivity].

Lemma known_payload (m : NetworkMessage Header Block) : message_wf hc size_of_transaction hwf bwf m ->
  match m with Unknown _ _ => True | _ => payload_ok hc bc size_of_transaction (cmd m) m end.
Proof.
  intros Hm. destruct m; cbn [message_wf cmd] in *; try by_empty.
  - by_codec VersionMessageC.
  - by_codec (vec (tuple2 u32 AddressC)).
  - by_codec (vec InventoryC).
  - by_codec (vec InventoryC).
  - by_codec (vec InventoryC).
  - by_codec GetBlocksMessageC.
  - by_codec GetHeadersMessageC.
  - by_codec TransactionC.
  - by_codec bc.
  - apply (header_list_codec hc bc size_of_transaction hwf); [done|]. decide_command. reflexivity.
  - by_codec u64.
  - by_codec u64.
  - by_codec MerkleBlockC.
  - by_codec FilterLoadC.
  - by_codec FilterAddC.
  - by_codec GetCFiltersC.
  - by_codec CFilterC.
  - by_codec GetCFHeadersC.
  - by_codec CFHeadersC.
  - by_codec GetCFCheckptC.
  - by_codec CFCheckptC.
  - by_codec SendCmpctC.
  - by_codec CmpctBlockC.
  - destruct Hm as [Hr Hi]. apply request_payload; [done..|]. intros bytes. decide_command. reflexivity.
  - by_codec BlockTxnC.
  - by_codec byte_vec.
  - by_codec RejectC.
  - by_codec i64.
  - by_codec (vec AddrV2MessageC).
  - exact I.
Qed.
End payload_roundtrip.

Lemma unknown_payload {Header Block} (hc : Consensus Header) (bc : Consensus Block) sz c raw : c ∉ known_commands ->
  payload_decode hc bc sz c raw = Ok (Unknown c raw).
Proof.
  intros Hc. unfold payload_decode, is_command. unfold known_commands in Hc.
  repeat (rewrite list_elem_of_cons in Hc || rewrite elem_of_cons in Hc).
  repeat (apply not_or in Hc as [? Hc] || apply Decidable.not_or in Hc as [? Hc]).
  by rewrite !bool_decide_false by done.
Qed.

Lemma known_command {Header Block} (m : NetworkMessage Header Block) :
  match m with
  | Unknown c _ => command m = Ret c
  | _ => command m = Ret (cmd m) /\ command_wf (cmd m)
  end.
Proof.
  destruct m; try reflexivity; (split; [reflexivity|]);
    (split; [cbn; lia|]); repeat constructor; cbn; lia.
Qed.

(** ** Frames *)

Section frames.
Context {bm : BuildMode} {Header Block : Type} (hc : Consensus Header) (bc : Consensus Block).
Context (size_of_transaction : Z).
#[local] Opaque sha2_checksum payload_decode.

Lemma raw_decode_frame magic c checksum body rest :
  length magic = 4%nat -> length c = 12%nat -> length checksum = 4%nat -> Z.of_nat (length body) < 2 ^ 32 ->
  on_slice (raw_decode hc bc size_of_transaction)
    (magic ++ c ++ bytes_of u32 (Z.of_nat (length body)) ++ checksum ++ body ++ rest) =
  if bool_decide (sha2_checksum body = checksum) then
    match payload_decode hc bc size_of_transaction (command_text c) body with
    | Ok p => Ok (mkRaw magic p (Z.of_nat (length body)) checksum, rest)
    | Err e => Err e
    end
  else Err (InvalidChecksum (sha2_checksum body) checksum).
Proof.
  intros Hm Hc Hk Hb. unfold raw_decode. rewrite on_slice_bind.
  cbn [MagicC array simple consensus_decode_from_finite_reader]. rewrite on_slice_read_app by done.
  unfold command_decode. rewrite !on_slice_bind. cbn [array simple consensus_decode]. rewrite on_slice_read_app by done.
  rewrite on_slice_ret. unfold checked_decode. rewrite !on_slice_bind, (finite_roundtrip (c:=u32)) by (unfold in_u; lia).
  rewrite on_slice_bind. cbn [array simple consensus_decode_from_finite_reader]. rewrite on_slice_read_app by done.
  rewrite on_slice_bind, read_bytes_spec by (unfold MAX_VEC_SIZE; lia). rewrite Nat2Z.id, on_slice_read_app by done.
  case_bool_decide; [|done]. rewrite on_slice_ret, on_slice_bind. cbn [cd_data cd_checksum].
  destruct (payload_decode _ _ _ _ _); [|done]. cbn [lift]. rewrite on_slice_ret. cbn [mret].
  rewrite on_slice_ret. unfold wrap. by rewrite Z.mod_small by lia.
Qed.

Lemma raw_decode_inv bs raw rest : on_slice (raw_decode hc bc size_of_transaction) bs = Ok (raw, rest) ->
  exists c body, length (raw_magic raw) = 4%nat /\ length c = 12%nat /\ Z.of_nat (length body) < 2 ^ 32 /\
    raw_payload_len raw = Z.of_nat (length body) /\ raw_checksum raw = sha2_checksum body /\
    payload_decode hc bc size_of_transaction (command_text c) body = Ok (raw_payload raw) /\
    bs = raw_magic raw ++ c ++ bytes_of u32 (Z.of_nat (length body)) ++ raw_checksum raw ++ body ++ rest.
Proof.
  unfold raw_decode. rewrite on_slice_bind_Ok. intros (magic & bs1 & Hm & H).
  rewrite on_slice_bind_Ok in H. destruct H as (ct & bs2 & Hc & H).
  rewrite on_slice_bind_Ok in H. destruct H as (cd & bs3 & Hd & H).
  unfold command_decode in Hc. rewrite on_slice_bind_Ok in Hc. destruct Hc as (c & bs2' & Hc & Ht).
  rewrite on_slice_ret in Ht. injection Ht as <- <-.
  apply on_slice_read_Ok in Hm as [Hm ->]. apply on_slice_read_Ok in Hc as [Hc ->].
  apply checked_decode_iff in Hd as (Hl & Hk & ->). rewrite on_slice_bind_Ok in H.
  destruct H as (p & bs4 & Hp & H). rewrite on_slice_ret in H. injection H as <- <-.
  destruct (payload_decode hc bc size_of_transaction (command_text c) (cd_data cd)) as [p'|] eqn:Ep; [|done].
  injection Hp as -> ->. exists c, (cd_data cd). cbn [raw_magic raw_payload raw_payload_len raw_checksum].
  unfold wrap. rewrite Z.mod_small by lia. done.
Qed.
End frames.

Section claims.
Context {bm : BuildMode} {Header Block : Type} (hc : Consensus Header) (bc : Consensus Block).
Context (size_of_transaction : Z).
#[local] Opaque sha2_checksum payload_decode message_encode command_encode.

#[export] Instance natural_raw_decode : Natural (raw_decode hc bc size_of_transaction).
Proof.
  unfold raw_decode, command_decode, checked_decode, MagicC. repeat (apply natural_bind; [apply _|intros ?]).
  apply natural_bind; [destruct (payload_decode _ _ _ _ _); cbn [lift]; apply _|intros ?; apply _].
Qed.

(** The frame written for a payload under a command that survives. *)
Lemma raw_encode_frame magic (m : NetworkMessage Header Block) c payload :
  length magic = 4%nat -> command m = Ret c -> command_wf c ->
  message_encode hc bc m = Ret (payload, Z.of_nat (length payload)) -> Z.of_nat (length payload) < 2 ^ 32 ->
  exists raw c12, raw_new hc bc magic m = Ret raw /\ length c12 = 12%nat /\ command_text c12 = c /\
    raw = mkRaw magic m (Z.of_nat (length payload)) (sha2_checksum payload) /\
    let bs := magic ++ c12 ++ bytes_of u32 (Z.of_nat (length payload)) ++ sha2_checksum payload ++ payload in
    raw_encode hc bc raw = Ret (bs, Z.of_nat (length bs)) /\ length bs = (24 + length payload)%nat.
Proof.
  intros Hm Hc Hw He Hl. destruct (command_roundtrip c [] Hw) as (c12 & Ec & H12 & Ht & _).
  eexists _, c12. split.
  { unfold raw_new. rewrite He, bind_Ret. rewrite (proj2 (in_ub_spec 32 _)) by (unfold in_u; lia). reflexivity. }
  split; [done|]. split; [done|]. split; [reflexivity|]. intros bs.
  assert (length bs = (24 + length payload)%nat) as Hb.
  { unfold bs. rewrite !length_app, Hm, H12, sha2_checksum_length. cbn [u32 u_le simple consensus_encode bytes_of fst].
    rewrite length_le_split. lia. }
  split; [|done]. rewrite Hb. unfold raw_encode. cbn [raw_payload raw_magic raw_payload_len raw_checksum].
  rewrite Hc, bind_Ret, Ec, bind_Ret, He, bind_Ret. unfold wcat, MagicC.
  cbn [fst snd array u32 u_le simple consensus_encode]. rewrite Hm, sha2_checksum_length. f_equal. f_equal. lia.
Qed.
End claims.

(** C10: sending a message.  Over any header and block types that meet the [Codec] contract, in both
    builds, a well-formed message is encoded without a panic and framed unless its payload has
    [2^32] bytes or more, when [RawNetworkMessage::new] panics; the frame is 24 bytes longer than
    the payload, and decoding it gives the same message, with the same length and checksum, and leaves
    the bytes that follow, also under the reader limit when the frame is within it.  Only a message
    of unknown type arrives changed, with the length of its payload in front of it. *)
Theorem network_message_roundtrip {bm : BuildMode} {Header Block : Type} (hc : Consensus Header)
    (bc : Consensus Block) (hwf : Header -> Prop) (bwf : Block -> Prop) `{!Codec hc hwf, !Codec bc bwf}
    (size_of_transaction : Z) (magic : list byte) (m : NetworkMessage Header Block) (rest : list byte)
    (Hsize : 1 <= size_of_transaction) (Hmagic : length magic = 4%nat)
    (Hm : message_wf hc size_of_transaction hwf bwf m) :
  exists payload, message_encode hc bc m = Ret (payload, Z.of_nat (length payload)) /\
    (2 ^ 32 <= Z.of_nat (length payload) -> raw_new hc bc magic m = Panic) /\
    (Z.of_nat (length payload) < 2 ^ 32 -> exists raw bs,
       raw_new hc bc magic m = Ret raw /\ raw_encode hc bc raw = Ret (bs, Z.of_nat (length bs)) /\
       length bs = (24 + length payload)%nat /\
       let arrived := mkRaw magic (received m) (raw_payload_len raw) (raw_checksum raw) in
       on_slice (raw_decode hc bc size_of_transaction) (bs ++ rest) = Ok (arrived, rest) /\
       (Z.of_nat (length bs) <= MAX_MSG_SIZE ->
        on_slice (raw_decode_limited hc bc size_of_transaction) (bs ++ rest) = Ok (arrived, rest))).
Proof.
  assert (exists c, command m = Ret c /\ command_wf c /\ payload_ok hc bc size_of_transaction c m) as (c & Hc & Hw & Hp).
  { pose proof (known_command m) as Hk. pose proof (known_payload hc bc size_of_transaction Hsize hwf bwf m Hm) as Hp.
    destruct m; try (destruct Hk as [? ?]; by eauto).
    destruct Hm as (Hcw & Hcn & Hb). exists unknown_command. split; [done|]. split; [done|].
    exists (bytes_of byte_vec payload). split; [|by apply unknown_payload].
    cbn [message_encode]. rewrite <- (encode_len (c:=byte_vec)) by done. reflexivity. }
  destruct Hp as (payload & He & Hd). exists payload. split; [done|]. split.
  - intros Hl. unfold raw_new. rewrite He, bind_Ret. unfold assert_.
    destruct (in_ub 32 (Z.of_nat (length payload))) eqn:E; [|done]. apply in_ub_spec in E. unfold in_u in E. lia.
  - intros Hl. destruct (raw_encode_frame hc bc magic m c payload Hmagic Hc Hw He Hl) as (raw & c12 & Hn & H12 & Ht & -> & Hb & Hlen).
    eexists _, _. split; [exact Hn|]. split; [exact Hb|]. split; [exact Hlen|]. cbn [raw_payload_len raw_checksum].
    assert (forall rest, on_slice (raw_decode hc bc size_of_transaction) ((magic ++ c12 ++ bytes_of u32 (Z.of_nat (length payload))
      ++ sha2_checksum payload ++ payload) ++ rest) = Ok (mkRaw magic (received m) (Z.of_nat (length payload))
        (sha2_checksum payload), rest)) as Hdec.
    { intros rest'. rewrite <- !app_assoc, raw_decode_frame by (done || apply sha2_checksum_length).
      rewrite bool_decide_true by reflexivity. rewrite Ht, Hd. reflexivity. }
    split; [apply Hdec|]. intros Hmax. unfold raw_decode_limited. by apply with_take_app; [apply _| |].
Qed.

(** Receiving a message.  A frame is accepted exactly when it consists of four bytes of magic,
    twelve bytes of command, a length, the checksum of the payload and a payload of that length whose
    beginning decodes under the command; the message, its length and checksum are then returned and
    the bytes that follow are left.  A frame whose checksum is not that of its payload is refused with
    both checksums, and one whose payload does not decode with the error of the payload. *)
Lemma network_message_frames {Header Block : Type} (hc : Consensus Header) (bc : Consensus Block)
    (size_of_transaction : Z) (bs : list byte) (raw : RawNetworkMessage) (rest : list byte) :
  (on_slice (raw_decode hc bc size_of_transaction) bs = Ok (raw, rest) <->
   exists c body, length (raw_magic raw) = 4%nat /\ length c = 12%nat /\ Z.of_nat (length body) < 2 ^ 32 /\
     raw_payload_len raw = Z.of_nat (length body) /\ raw_checksum raw = sha2_checksum body /\
     payload_decode hc bc size_of_transaction (command_text c) body = Ok (raw_payload raw) /\
     bs = raw_magic raw ++ c ++ bytes_of u32 (Z.of_nat (length body)) ++ raw_checksum raw ++ body ++ rest) /\
  (forall magic c checksum body,
     length magic = 4%nat -> length c = 12%nat -> length checksum = 4%nat -> Z.of_nat (length body) < 2 ^ 32 ->
     let frame := magic ++ c ++ bytes_of u32 (Z.of_nat (length body)) ++ checksum ++ body ++ rest in
     (sha2_checksum body <> checksum -> on_slice (raw_decode hc bc size_of_transaction) frame =
        Err (InvalidChecksum (sha2_checksum body) checksum)) /\
     (forall e, sha2_checksum body = checksum ->
        payload_decode hc bc size_of_transaction (command_text c) body = Err e ->
        on_slice (raw_decode hc bc size_of_transaction) frame = Err e)).
Proof.
  split.
  - split; [apply raw_decode_inv|]. intros (c & body & Hm & Hc & Hl & Hpl & Hk & Hp & ->).
    rewrite raw_decode_frame by (done || rewrite Hk; apply sha2_checksum_length).
    rewrite bool_decide_true by (symmetry; exact Hk). rewrite Hp, <- Hpl. by destruct raw.
  - intros magic c checksum body Hm Hc Hk Hl frame. split.
    + intros Hne. unfold frame. rewrite raw_decode_frame by done. by rewrite bool_decide_false.
    + intros e Heq Hp. unfold frame. rewrite raw_decode_frame by done. by rewrite bool_decide_true, Hp.
Qed.

(** ** Concrete messages *)

Section p2p_witnesses.
#[local] Instance p2p_wit_mode : BuildMode := true.
Definition ping : NetworkMessage DogeHeader DogeBlock := Ping 100.

Lemma network_message_roundtrip_witness : exists payload raw bs,
  message_encode DogeHeaderC DogeBlockC ping = Ret (payload, 8) /\
  raw_new DogeHeaderC DogeBlockC Magic.BITCOIN ping = Ret raw /\
  raw_encode DogeHeaderC DogeBlockC raw = Ret (bs, 32) /\
  on_slice (raw_decode DogeHeaderC DogeBlockC 104) bs = Ok (raw, []).
Proof.
  destruct (network_message_roundtrip DogeHeaderC DogeBlockC doge_header_wf doge_block_wf 104 Magic.BITCOIN ping []
    ltac:(lia) eq_refl ltac:(split; lia)) as (payload & He & _ & H).
  assert (length payload = 8%nat) as Hl by (cbn in He; injection He as <-; reflexivity).
  rewrite Hl in He. rewrite Hl in H. destruct (H ltac:(lia)) as (raw & bs & Hn & Hr & Hb & Hd & _).
  exists payload, raw, bs. split; [exact He|]. split; [exact Hn|]. rewrite Hb in Hr. split; [exact Hr|].
  rewrite app_nil_r in Hd. rewrite Hd. f_equal. f_equal. unfold raw_new in Hn. rewrite He in Hn.
  injection Hn as <-. reflexivity.
Defined.

(** A message that was received and cannot be sent again: its command grows past 12 bytes. *)
Lemma received_message_cannot_be_sent : exists frame raw,
  on_slice (raw_decode DogeHeaderC DogeBlockC 104) frame = Ok (raw, []) /\ raw_encode DogeHeaderC DogeBlockC raw = Panic.
Proof.
  eexists (Magic.BITCOIN ++ replicate 12 Byte.xff ++ bytes_of u32 0 ++ sha2_checksum [] ++ [] ++ []), _.
  split; [vm_compute; reflexivity|]. reflexivity.
Qed.

(** Bytes after the end of a payload are accepted, and then the frame written for the received message
    announces a length that is not its payload's, so that it is not accepted any more. *)
Lemma trailing_payload_accepted : exists frame raw frame' n,
  on_slice (raw_decode DogeHeaderC DogeBlockC 104) frame = Ok (raw, []) /\ raw_payload raw = ping /\
  raw_encode DogeHeaderC DogeBlockC raw = Ret (frame', n) /\ on_slice (raw_decode DogeHeaderC DogeBlockC 104) frame' = Err (EIo UnexpectedEof).
Proof.
  pose (body := bytes_of u64 100 ++ [Byte.x00]).
  eexists (Magic.BITCOIN ++ (str_bytes "ping" ++ replicate 8 Byte.x00) ++ bytes_of u32 9 ++ sha2_checksum body ++ body ++ []), _, _, _.
  split; [vm_compute; reflexivity|]. split; [reflexivity|]. split; [vm_compute; reflexivity|]. vm_compute. reflexivity.
Qed.
End p2p_witnesses.
