(* ===== verification/Names.v ===== *)
(** * Names of networks, flags, versions and signature hash types

    The small text forms of [network.rs], [p2p/mod.rs], [script/witness_version.rs] and
    [psbt/map/input.rs], and the constant-time comparison of [hashes/src/cmp.rs].  A [&str] is the
    list of its characters, as in [Amount]. *)

From Stdlib Require Import ZArith Lia.
From Stdlib Require Strings.String.
From coqutil Require Import Byte.
From stdpp Require Import base tactics option list numbers.
From S2P Require Import Prelude U256 Params Sighash Genesis P2p Script ScriptKinds Base58 Keys PsbtInput Amount AmountText LockTime DerivationPath ParseInt U256Text HexText.
Import String.StringSyntax.

#[local] Open Scope Z_scope.

(** ** Networks *)

Definition to_core_arg (self : Btc.Network) : str :=
  match self with
  | Btc.Bitcoin => chars "main"
  | Btc.Testnet => chars "test"
  | Btc.Testnet4 => chars "testnet4"
  | Btc.Signet => chars "signet"
  | Btc.Regtest => chars "regtest"
  end.
(** [ParseNetworkError] carries the text. *)
Definition from_core_arg (core_arg : str) : Result str Btc.Network :=
  if bool_decide (core_arg = chars "main") then Ok Btc.Bitcoin
  else if bool_decide (core_arg = chars "test") then Ok Btc.Testnet
  else if bool_decide (core_arg = chars "testnet4") then Ok Btc.Testnet4
  else if bool_decide (core_arg = chars "signet") then Ok Btc.Signet
  else if bool_decide (core_arg = chars "regtest") then Ok Btc.Regtest
  else Err core_arg.

Definition as_display_str (self : Btc.Network) : str :=
  match self with
  | Btc.Bitcoin => chars "bitcoin"
  | Btc.Testnet => chars "testnet"
  | Btc.Testnet4 => chars "testnet4"
  | Btc.Signet => chars "signet"
  | Btc.Regtest => chars "regtest"
  end.
Definition network_from_str (s : str) : Result str Btc.Network :=
  if bool_decide (s = chars "bitcoin") then Ok Btc.Bitcoin
  else if bool_decide (s = chars "testnet") then Ok Btc.Testnet
  else if bool_decide (s = chars "testnet4") then Ok Btc.Testnet4
  else if bool_decide (s = chars "signet") then Ok Btc.Signet
  else if bool_decide (s = chars "regtest") then Ok Btc.Regtest
  else Err s.

Definition chain_hash (self : Btc.Network) : list byte := BtcGenesis.using_genesis_block_const self.
(** [UnknownChainHashError] carries the hash. *)
Definition network_try_from_chain_hash (chain_hash : list byte) : Result (list byte) Btc.Network :=
  if bool_decide (chain_hash = BtcGenesis.BITCOIN) then Ok Btc.Bitcoin
  else if bool_decide (chain_hash = BtcGenesis.TESTNET3) then Ok Btc.Testnet
  else if bool_decide (chain_hash = BtcGenesis.TESTNET4) then Ok Btc.Testnet4
  else if bool_decide (chain_hash = BtcGenesis.SIGNET) then Ok Btc.Signet
  else if bool_decide (chain_hash = BtcGenesis.REGTEST) then Ok Btc.Regtest
  else Err chain_hash.
Definition from_chain_hash (chain_hash : list byte) : option Btc.Network :=
  match network_try_from_chain_hash chain_hash with Ok n => Some n | Err _ => None end.
Definition from_magic (magic : list byte) : option Btc.Network :=
  match Magic.try_into_network magic with Ok n => Some n | Err _ => None end.
Definition network_params (self : Btc.Network) : Btc.Params :=
  match self with
  | Btc.Bitcoin => Btc.MAINNET
  | Btc.Testnet => Btc.TESTNET3
  | Btc.Testnet4 => Btc.TESTNET4
  | Btc.Signet => Btc.SIGNET
  | Btc.Regtest => Btc.REGTEST
  end.
Definition magic_from_params (params : Btc.Params) : list byte := Magic.from_network (Btc.network params).

(** ** Network magic in hexadecimal *)

Section magic.
Context {H : HexCrate}.
Inductive ParseMagicError := mkParseMagicError (error : HexToArrayError) (magic : str).
Definition magic_from_str (s : str) : Result ParseMagicError (list byte) :=
  match from_hex 4 s with
  | Ok magic => Ok magic
  | Err e => Err (mkParseMagicError e s)
  end.
Definition display_magic (self : list byte) : str := hex_lower self.
Definition upper_hex_magic (self : list byte) : str := hex_upper self.
End magic.

(** ** Integers in hexadecimal: [{:x}] *)

Fixpoint hex_rev (fuel : nat) (n : Z) : str :=
  match fuel with
  | O => []
  | S fuel => PlainHex.digit_char (n mod 16) :: (if n / 16 =? 0 then [] else hex_rev fuel (n / 16))
  end.
Definition lower_hex (n : Z) : str := rev (hex_rev 16 n).

(** ** Service flags *)

Definition FLAG_NAMES : list (str * ServiceFlags) :=
  [(chars "NETWORK", NETWORK); (chars "GETUTXO", GETUTXO); (chars "BLOOM", BLOOM); (chars "WITNESS", WITNESS);
   (chars "COMPACT_FILTERS", COMPACT_FILTERS); (chars "NETWORK_LIMITED", NETWORK_LIMITED); (chars "P2P_V2", P2P_V2)].

Definition BAR : str := chars "|".
(** [write_flag!]: the text so far, the flags left, and whether none was written yet. *)
Definition write_flag (st : str * ServiceFlags * bool) (nf : str * ServiceFlags) : str * ServiceFlags * bool :=
  let '(out, flags, first) := st in
  if flags_has flags (snd nf) then
    let out := if first then out else out ++ BAR in
    (out ++ fst nf, flags_remove flags (snd nf), false)
  else (out, flags, first).

Definition display_flags (self : ServiceFlags) : str :=
  if self =? NONE then chars "ServiceFlags(NONE)"
  else
    let '(out, flags, first) := fold_left write_flag FLAG_NAMES (chars "ServiceFlags(", self, true) in
    let out := if flags =? NONE then out
               else (if first then out else out ++ BAR) ++ chars "0x" ++ lower_hex flags in
    out ++ chars ")".

(** ** Witness versions *)

Inductive VersionFromStrError := Unparsable (e : ParseIntError) | InvalidVersion (invalid : Z).
Definition display_version (self : WitnessVersion) : str := display_u64 (to_num self).
Definition version_from_str (s : str) : Result VersionFromStrError WitnessVersion :=
  version ← map_err Unparsable (int u8T s); map_err InvalidVersion (version_from_u8 version).

(** ** Signature hash types of a PSBT *)

(** The names of [Sighash] as characters. *)
Definition name_chars (bs : list byte) : str := map byte.unsigned bs.
Definition tap_type_from_str (s : str) : Result str TapSighashType :=
  if bool_decide (s = chars "SIGHASH_DEFAULT") then Ok TDefault
  else if bool_decide (s = chars "SIGHASH_ALL") then Ok TAll
  else if bool_decide (s = chars "SIGHASH_NONE") then Ok TNone
  else if bool_decide (s = chars "SIGHASH_SINGLE") then Ok TSingle
  else if bool_decide (s = chars "SIGHASH_ALL|SIGHASH_ANYONECANPAY") then Ok TAllPlusAnyoneCanPay
  else if bool_decide (s = chars "SIGHASH_NONE|SIGHASH_ANYONECANPAY") then Ok TNonePlusAnyoneCanPay
  else if bool_decide (s = chars "SIGHASH_SINGLE|SIGHASH_ANYONECANPAY") then Ok TSinglePlusAnyoneCanPay
  else Err s.

(** [s.trim_start_matches("0x")] strips the prefix as often as it is there. *)
Fixpoint trim_start_0x (fuel : nat) (s : str) : str :=
  match fuel with
  | O => s
  | S fuel => match strip_prefix (chars "0x") s with Some s => trim_start_0x fuel s | None => s end
  end.

Definition display_psbt_type (inner : Z) : str :=
  match psbt_taproot_hash_ty inner with
  | Err _ => chars "0x" ++ lower_hex inner
  | Ok ty => name_chars (tap_display ty)
  end.
Definition psbt_type_from_str (s : str) : Result str Z :=
  match tap_type_from_str s with
  | Ok ty => Ok (psbt_sighash_from_tap ty)
  | Err _ =>
      match from_str_radix u32T (trim_start_0x (length s) s) 16 with
      | Ok inner => Ok inner
      | Err _ => Err s
      end
  end.

(** ** Comparison in constant time *)

(** The differences of all bytes are collected in [r], then folded into its lowest bit. *)
Definition fixed_time_eq (a b : list byte) : run bool :=
  _ ← assert_ (length a =? length b)%nat;
  let r := fold_left (fun r xy => Z.lor r (Z.lxor (byte.unsigned (fst xy)) (byte.unsigned (snd xy)))) (combine a b) 0 in
  let t := Z.lor r (Z.shiftr r 4) in
  let t := Z.lor t (Z.shiftr t 2) in
  let t := Z.lor t (Z.shiftr t 1) in
  Ret (Z.land t 1 =? 0).

(** ** Networks *)

(** Names, command-line names, chain hashes and magics identify the network and nothing else. *)
Lemma network_names n s h :
  (network_from_str s = Ok n <-> s = as_display_str n) /\ (from_core_arg s = Ok n <-> s = to_core_arg n) /\
  (from_chain_hash h = Some n <-> h = chain_hash n) /\ (from_magic h = Some n <-> h = Magic.from_network n) /\
  network_params n = Btc.new n /\ from_magic (magic_from_params (network_params n)) = Some n.
Proof.
  split_and!; [unfold network_from_str| unfold from_core_arg|unfold from_chain_hash, network_try_from_chain_hash|unfold from_magic|done..|by destruct n].
  - split; [repeat case_bool_decide; intros [= <-]; by subst|]. intros ->. destruct n; vm_compute; done.
  - split; [repeat case_bool_decide; intros [= <-]; by subst|]. intros ->. destruct n; vm_compute; done.
  - split; [repeat case_bool_decide; intros [= <-]; by subst|]. intros ->. destruct n; vm_compute; done.
  - pose proof (magic_exact h n) as Hm. destruct (Magic.try_into_network h); naive_solver.
Qed.

Lemma magic_text {H : HexCrate} {L : HexLaws H} s m : magic_from_str s = Ok m <-> length m = 4%nat /\ map lowercase s = display_magic m.
Proof. unfold magic_from_str, display_magic. pose proof (from_hex_ok 4 s m) as E. destruct (from_hex 4 s); naive_solver. Qed.

(** ** Hexadecimal numbers *)

Lemma digit_char_value d : 0 <= d < 16 -> to_digit 16 (PlainHex.digit_char d) = Some d.
Proof.
  intros Hd. apply PlainHex.digit_iff. split; [done|]. unfold PlainHex.digit_char, lowercase, is_upper_letter.
  repeat case_match; rewrite ?andb_true_iff, ?Z.leb_le, ?Z.ltb_lt, ?Z.ltb_ge in *; lia.
Qed.

Lemma hex_rev_spec fuel : forall n, (0 < fuel)%nat -> 0 <= n < 16 ^ Z.of_nat fuel ->
  rdigits 16 (rev (hex_rev fuel n)) /\ rval 16 (rev (hex_rev fuel n)) = n /\ hex_rev fuel n <> [].
Proof.
  induction fuel as [|fuel IH]; intros n Hf Hn; [lia|]. cbn [hex_rev rev].
  rewrite Nat2Z.inj_succ, Z.pow_succ_r in Hn by lia. pose proof (Z.div_mod n 16 ltac:(lia)). pose proof (Z.mod_pos_bound n 16 ltac:(lia)) as Hm.
  pose proof (digit_char_value _ Hm) as Hd.
  assert (rdigits 16 [PlainHex.digit_char (n mod 16)] /\ rval 16 [PlainHex.digit_char (n mod 16)] = n mod 16) as [Hd1 Hv1].
  { split; [constructor; [by eexists|constructor]|]. unfold rval, rval_from. cbn [fold_left]. rewrite (to_digit_value 16 _ _ ltac:(lia) Hd). lia. }
  assert (0 <= n / 16 < 16 ^ Z.of_nat fuel) as Hq by (split; [apply Z.div_pos; lia|apply Z.div_lt_upper_bound; lia]).
  destruct (Z.eqb_spec (n / 16) 0) as [E|E].
  - cbn [rev app]. split_and!; [done| |done]. rewrite Hv1. lia.
  - destruct fuel as [|fuel]; [simpl in Hq; lia|]. destruct (IH (n / 16) ltac:(lia) Hq) as (H1 & H2 & _).
    split_and!; [by apply Forall_app| |done]. rewrite rval_app, H2, Hv1 by lia. cbn [length]. lia.
Qed.

Lemma lower_hex_spec n : in_u 64 n -> rdigits 16 (lower_hex n) /\ rval 16 (lower_hex n) = n /\ lower_hex n <> [].
Proof.
  intros Hn. destruct (hex_rev_spec 16 n ltac:(lia) ltac:(unfold in_u in Hn; lia)) as (H1 & H2 & H3). split_and!; [done..|].
  intros E. apply H3. apply (f_equal (@rev Z)) in E. unfold lower_hex in E. by rewrite rev_involutive in E.
Qed.

(** ** Service flags *)

Lemma flags_has_testbit self k : 0 <= k -> flags_has self (Z.shiftl 1 k) = Z.testbit self k.
Proof.
  intros Hk. unfold flags_has. rewrite Z.shiftl_1_l. destruct (Z.testbit self k) eqn:E.
  - apply Z.eqb_eq. apply Z.bits_inj'. intros i Hi. rewrite Z.lor_spec, Z.pow2_bits_eqb by lia. destruct (Z.eqb_spec k i) as [<-|]; [by rewrite E|by rewrite orb_false_r].
  - apply Z.eqb_neq. intros Es. rewrite <- Es, Z.lor_spec, Z.pow2_bits_true in E by lia. by rewrite orb_true_r in E.
Qed.

(** ** Witness versions *)

Lemma version_text v s : version_from_str (display_version v) = Ok v /\
  (version_from_str s = Ok v <-> reads u8T 10 s (to_num v)).
Proof.
  assert (forall s, version_from_str s = Ok v <-> reads u8T 10 s (to_num v)) as Hr.
  { intros t. rewrite <- int_iff by done. unfold version_from_str, map_err. split.
    - destruct (int u8T t) as [n|]; [cbn|done]. intros E. f_equal. destruct (version_from_u8 n) as [w|] eqn:Ew; [|done].
      injection E as ->. revert Ew. unfold version_from_u8. repeat case_match; by intros [= <-].
    - intros ->. cbn. by destruct v. }
  split; [|apply Hr]. apply Hr, int_iff; [done|]. apply display_int; try done; by destruct v.
Qed.

(** ** Signature hash types *)

Lemma tap_type_names s ty : tap_type_from_str s = Ok ty <-> s = name_chars (tap_display ty).
Proof.
  unfold tap_type_from_str. split; [repeat case_bool_decide; intros [= <-]; by subst|]. intros ->. destruct ty; vm_compute; done.
Qed.

Lemma trim_start_digits fuel s : rdigits 16 s -> trim_start_0x fuel s = s.
Proof.
  intros Hd. destruct fuel as [|fuel]; [done|]. cbn [trim_start_0x]. destruct (strip_prefix (chars "0x") s) as [t|] eqn:E; [|done].
  apply strip_prefix_iff in E. destruct (digits_never_prefixed s Hd t). by left.
Qed.

(** Every 32-bit value of the field prints to a text that parses back, by name or as a number. *)
Lemma psbt_type_roundtrip n : in_u 32 n -> psbt_type_from_str (display_psbt_type n) = Ok n.
Proof.
  intros Hn. unfold display_psbt_type. destruct (psbt_taproot_hash_ty n) as [ty|e] eqn:E.
  - unfold psbt_type_from_str. rewrite (proj2 (tap_type_names _ ty) eq_refl). f_equal.
    unfold psbt_taproot_hash_ty in E. destruct (Z.ltb_spec 0xff n); [done|]. unfold in_u in Hn.
    rewrite wrap_small in E by (unfold in_u; lia). unfold psbt_sighash_from_tap, from_consensus_u8 in *. repeat case_match; simplify_eq; rewrite ?Z.eqb_eq in *; by subst.
  - destruct (lower_hex_spec n ltac:(unfold in_u in *; lia)) as (Hd & Hv & Hne). unfold psbt_type_from_str.
    destruct (tap_type_from_str _) as [ty|e'] eqn:Et.
    { exfalso. apply tap_type_names in Et. by destruct ty. }
    change (length (chars "0x" ++ lower_hex n)) with (S (S (length (lower_hex n)))). cbn [trim_start_0x].
    rewrite (proj2 (strip_prefix_iff (chars "0x") _ (lower_hex n)) eq_refl).
    change (match strip_prefix (chars "0x") (lower_hex n) with Some s => trim_start_0x (length (lower_hex n)) s | None => lower_hex n end)
      with (trim_start_0x (S (length (lower_hex n))) (lower_hex n)).
    rewrite trim_start_digits by done. rewrite (proj2 (from_str_radix_iff u32T 16 (lower_hex n) n ltac:(lia) ltac:(done))); [done|].
    apply reads_unsigned; [done|]. exists [], (lower_hex n). by auto 7.
Qed.

(** ** Service flags *)

Lemma flags_take self k : 0 <= k ->
  (if flags_has self (Z.shiftl 1 k) then flags_remove self (Z.shiftl 1 k) else self) = Z.ldiff self (Z.shiftl 1 k).
Proof.
  intros Hk. rewrite flags_has_testbit by done. unfold flags_remove. rewrite Z.shiftl_1_l. apply Z.bits_inj'. intros i Hi.
  rewrite Z.ldiff_spec, Z.pow2_bits_eqb by done. destruct (Z.testbit self k) eqn:E.
  - rewrite Z.lxor_spec, Z.pow2_bits_eqb by done. destruct (Z.eqb_spec k i) as [<-|]; [by rewrite E|]. by rewrite xorb_false_r, andb_true_r.
  - destruct (Z.eqb_spec k i) as [<-|]; [by rewrite E|]. by rewrite andb_true_r.
Qed.

(** The names written, separated by bars. *)
Fixpoint join (l : list str) : str :=
  match l with
  | [] => []
  | [s] => s
  | s :: l => s ++ BAR ++ join l
  end.

Lemma join_snoc w s : join (w ++ [s]) = if bool_decide (w = []) then s else join w ++ BAR ++ s.
Proof.
  induction w as [|a w IH]; [done|]. rewrite bool_decide_eq_false_2 by done. destruct w as [|b w]; [done|].
  change (join ((a :: b :: w) ++ [s])) with (a ++ BAR ++ join ((b :: w) ++ [s])). rewrite IH, bool_decide_eq_false_2 by done.
  change (join (a :: b :: w)) with (a ++ BAR ++ join (b :: w)). by rewrite <- !app_assoc.
Qed.

Definition one_bit (nf : str * ServiceFlags) : Prop := exists k, 0 <= k /\ snd nf = Z.shiftl 1 k.
Definition has_flag (flags : ServiceFlags) (nf : str * ServiceFlags) : bool := flags_has flags (snd nf).

Lemma has_flag_ldiff flags nf x : one_bit nf -> one_bit x -> snd x <> snd nf -> has_flag (Z.ldiff flags (snd nf)) x = has_flag flags x.
Proof.
  intros (k & Hk & Ek) (j & Hj & Ej) Hne. unfold has_flag. rewrite Ek, Ej in *. rewrite !flags_has_testbit by done.
  rewrite Z.ldiff_spec, Z.shiftl_1_l, Z.pow2_bits_eqb by done. destruct (Z.eqb_spec k j) as [->|]; [done|]. by rewrite andb_true_r.
Qed.

Lemma filter_has_ldiff flags nf l : one_bit nf -> Forall one_bit l -> ~ In (snd nf) (map snd l) ->
  List.filter (has_flag (Z.ldiff flags (snd nf))) l = List.filter (has_flag flags) l.
Proof.
  intros Hb Hl Hni. apply filter_ext_in. intros x Hx. apply has_flag_ldiff; [done| |].
  - rewrite List.Forall_forall in Hl. by apply Hl.
  - intros E. apply Hni. rewrite <- E. by apply in_map.
Qed.

Lemma write_flags_spec l : Forall one_bit l -> List.NoDup (map snd l) -> forall out flags (written : list str),
  fold_left write_flag l (out ++ join written, flags, bool_decide (written = [])) =
  let all := written ++ map fst (List.filter (has_flag flags) l) in
  (out ++ join all, fold_left Z.ldiff (map snd l) flags, bool_decide (all = [])).
Proof.
  induction l as [|nf l IH]; intros Hb Hnd out flags written; [cbn; by rewrite app_nil_r|].
  pose proof (Forall_inv Hb) as Hnf. apply Forall_inv_tail in Hb. cbn [map] in Hnd. inversion Hnd as [|? ? Hni Hnd']; subst.
  destruct Hnf as (k & Hk & Ek). pose proof (flags_take flags k Hk) as Ht. rewrite <- Ek in Ht.
  cbn [fold_left write_flag List.filter map]. change (has_flag flags nf) with (flags_has flags (snd nf)). pose proof (filter_has_ldiff flags nf l (ex_intro _ k (conj Hk Ek)) Hb Hni) as Hf.
  destruct (flags_has flags (snd nf)).
  - rewrite Ht. assert ((if bool_decide (written = []) then out ++ join written else (out ++ join written) ++ BAR) ++ fst nf =
      out ++ join (written ++ [fst nf])) as ->.
    { rewrite join_snoc. case_bool_decide as E; [subst; cbn; by rewrite app_nil_r|]. by rewrite <- !app_assoc. }
    replace false with (bool_decide (written ++ [fst nf] = [])) by (apply bool_decide_eq_false_2; by destruct written).
    rewrite IH, Hf by done. cbn [map]. by rewrite <- app_assoc.
  - rewrite IH by done. by rewrite <- Ht.
Qed.

(** The text of flags: the names of the known flags that are set, in order and separated by
    bars, then in hexadecimal the bits that have no name, if any. *)
Lemma display_flags_spec f : in_u 64 f -> f <> 0 ->
  let names := map fst (List.filter (has_flag f) FLAG_NAMES) in
  let rest := Z.ldiff f 0xC4F in
  in_u 64 rest /\
  display_flags f = chars "ServiceFlags(" ++ join (names ++ if rest =? 0 then [] else [chars "0x" ++ lower_hex rest]) ++ chars ")".
Proof.
  intros Hf Hne names rest. assert (rest = fold_left Z.ldiff (map snd FLAG_NAMES) f) as Er.
  { unfold rest. apply Z.bits_inj'. intros i Hi. cbn [FLAG_NAMES map snd fold_left]. rewrite !Z.ldiff_spec.
    change 0xC4F with (Z.lor NETWORK (Z.lor GETUTXO (Z.lor BLOOM (Z.lor WITNESS (Z.lor COMPACT_FILTERS (Z.lor NETWORK_LIMITED P2P_V2)))))).
    rewrite !Z.lor_spec, !negb_orb. by rewrite !andb_assoc. }
  assert (in_u 64 rest) as Hr.
  { unfold in_u in *. assert (0 <= rest) by (unfold rest; apply Z.ldiff_nonneg; lia). split; [done|].
    assert (f - Z.land f 0xC4F = rest) as Es.
    { rewrite Z.sub_nocarry_ldiff; unfold rest; apply Z.bits_inj'; intros i Hi; rewrite ?Z.ldiff_spec, ?Z.land_spec, ?Z.bits_0; by destruct (Z.testbit f i), (Z.testbit 0xC4F i). }
    pose proof (proj2 (Z.land_nonneg f 0xC4F) ltac:(lia)). lia. }
  split; [done|]. unfold display_flags. change (f =? NONE) with (f =? 0). rewrite (proj2 (Z.eqb_neq f 0)) by done.
  assert (Forall one_bit FLAG_NAMES) as Hb.
  { repeat constructor; [exists 0|exists 1|exists 2|exists 3|exists 6|exists 10|exists 11]; split; (lia || reflexivity). }
  assert (List.NoDup (map snd FLAG_NAMES)) as Hnd by (repeat constructor; vm_compute; intuition discriminate).
  pose proof (write_flags_spec FLAG_NAMES Hb Hnd (chars "ServiceFlags(") f []) as E. cbn [join app bool_decide] in E. rewrite app_nil_r in E.
  change (bool_decide ([] = [])) with true in E. rewrite E. clear E. cbv zeta. cbn [app]. fold names. rewrite <- Er. change (rest =? NONE) with (rest =? 0).
  destruct (Z.eqb_spec rest 0) as [E0|E0]; [by rewrite app_nil_r, <- app_assoc|]. rewrite join_snoc. clearbody names. case_bool_decide as En.
  - subst names. cbn [join]. by rewrite app_nil_r, <- !app_assoc.
  - by rewrite <- !app_assoc.
Qed.

(** ** Comparison in constant time *)

Lemma fold_bits r : in_u 8 r -> Z.land (let t := Z.lor r (Z.shiftr r 4) in let t := Z.lor t (Z.shiftr t 2) in Z.lor t (Z.shiftr t 1)) 1 = if r =? 0 then 0 else 1.
Proof.
  intros Hr. unfold in_u in Hr. assert (r ∈ seqZ 0 256) as Hin by (apply elem_of_seqZ; lia). revert r Hin Hr.
  assert (forallb (fun r => Z.land (let t := Z.lor r (Z.shiftr r 4) in let t := Z.lor t (Z.shiftr t 2) in Z.lor t (Z.shiftr t 1)) 1 =? (if r =? 0 then 0 else 1)) (seqZ 0 256) = true) as H by (vm_compute; done).
  rewrite forallb_forall in H. intros r Hin _. apply Z.eqb_eq, H. by apply list_elem_of_In.
Qed.

(** The comparison panics on different lengths and is equality otherwise. *)
Lemma fixed_time_eq_spec a b : fixed_time_eq a b = if (length a =? length b)%nat then Ret (bool_decide (a = b)) else Panic.
Proof.
  unfold fixed_time_eq, assert_. destruct (Nat.eqb_spec (length a) (length b)) as [Hl|Hl]; [rewrite bind_Ret|done].
  set (step := fun (r : Z) (xy : byte * byte) => Z.lor r (Z.lxor (byte.unsigned (fst xy)) (byte.unsigned (snd xy)))).
  assert (forall a b r, length a = length b -> in_u 8 r -> in_u 8 (fold_left step (combine a b) r) /\ (fold_left step (combine a b) r = 0 <-> r = 0 /\ a = b)) as Hf.
  { clear. induction a as [|x a IH]; intros [|y b] r Hl Hr; [cbn; by intuition|done..|]. cbn [combine fold_left]. injection Hl as Hl.
    assert (in_u 8 (step r (x, y))) as Hs.
    { unfold step. cbn [fst snd]. pose proof (byte.unsigned_range x). pose proof (byte.unsigned_range y). apply lor_in_u; [done|done|].
      unfold in_u. split; [apply Z.lxor_nonneg; lia|]. destruct (Z.eq_dec (Z.lxor (byte.unsigned x) (byte.unsigned y)) 0) as [->|Hn]; [done|].
      apply Z.log2_lt_pow2; [pose proof (proj2 (Z.lxor_nonneg (byte.unsigned x) (byte.unsigned y))); lia|].
      eapply Z.le_lt_trans; [apply Z.log2_lxor; lia|]. apply Z.max_lub_lt; apply (log2_lt 8); unfold in_u; lia. }
    destruct (IH b (step r (x, y)) Hl Hs) as [H1 H2]. split; [done|]. rewrite H2. unfold step. cbn [fst snd].
    rewrite Z.lor_eq_0_iff, Z.lxor_eq_0_iff. split; [|by intros [-> [= -> ->]]]. intros [[-> E] ->]. split; [done|]. f_equal.
    by rewrite <- (byte.of_Z_unsigned x), E, byte.of_Z_unsigned. }
  destruct (Hf a b 0 Hl ltac:(done)) as [H1 H2]. cbv zeta. pose proof (fold_bits _ H1) as Eb. cbv zeta in Eb. rewrite Eb. f_equal.
  destruct (Z.eqb_spec (fold_left step (combine a b) 0) 0) as [E|E].
  - symmetry. by apply bool_decide_eq_true_2, H2.
  - symmetry. apply bool_decide_eq_false_2. intros ->. apply E, H2. done.
Qed.
