(* ===== verification/ScriptAsm.v ===== *)
(** * Script assembly

    The names of all opcodes ([blockdata/opcodes.rs]) and the assembly text of a script
    ([bytes_to_asm_fmt] of [blockdata/script/mod.rs]), its relation to the instruction iterator
    of [Script], and that the text of a script without errors determines it. *)

From Stdlib Require Import ZArith Lia.
From Stdlib Require Strings.String.
From coqutil Require Import Byte Word.LittleEndianList.
From stdpp Require Import base tactics option list numbers.
From S2P Require Import Prelude Script Amount AmountText LockTime DerivationPath ParseInt HexText.
Import String.StringSyntax.

#[local] Open Scope Z_scope.

(** ** Names

    The list given to [all_opcodes!], in its order: pushes, the opcodes with a meaning of their
    own, the synonyms of [OP_RETURN]. *)

Definition PUSH_OPCODES : list (str * Z) := [
  (chars "OP_PUSHBYTES_0", 0x00); (chars "OP_PUSHBYTES_1", 0x01); (chars "OP_PUSHBYTES_2", 0x02); (chars "OP_PUSHBYTES_3", 0x03);
  (chars "OP_PUSHBYTES_4", 0x04); (chars "OP_PUSHBYTES_5", 0x05); (chars "OP_PUSHBYTES_6", 0x06); (chars "OP_PUSHBYTES_7", 0x07);
  (chars "OP_PUSHBYTES_8", 0x08); (chars "OP_PUSHBYTES_9", 0x09); (chars "OP_PUSHBYTES_10", 0x0a); (chars "OP_PUSHBYTES_11", 0x0b);
  (chars "OP_PUSHBYTES_12", 0x0c); (chars "OP_PUSHBYTES_13", 0x0d); (chars "OP_PUSHBYTES_14", 0x0e); (chars "OP_PUSHBYTES_15", 0x0f);
  (chars "OP_PUSHBYTES_16", 0x10); (chars "OP_PUSHBYTES_17", 0x11); (chars "OP_PUSHBYTES_18", 0x12); (chars "OP_PUSHBYTES_19", 0x13);
  (chars "OP_PUSHBYTES_20", 0x14); (chars "OP_PUSHBYTES_21", 0x15); (chars "OP_PUSHBYTES_22", 0x16); (chars "OP_PUSHBYTES_23", 0x17);
  (chars "OP_PUSHBYTES_24", 0x18); (chars "OP_PUSHBYTES_25", 0x19); (chars "OP_PUSHBYTES_26", 0x1a); (chars "OP_PUSHBYTES_27", 0x1b);
  (chars "OP_PUSHBYTES_28", 0x1c); (chars "OP_PUSHBYTES_29", 0x1d); (chars "OP_PUSHBYTES_30", 0x1e); (chars "OP_PUSHBYTES_31", 0x1f);
  (chars "OP_PUSHBYTES_32", 0x20); (chars "OP_PUSHBYTES_33", 0x21); (chars "OP_PUSHBYTES_34", 0x22); (chars "OP_PUSHBYTES_35", 0x23);
  (chars "OP_PUSHBYTES_36", 0x24); (chars "OP_PUSHBYTES_37", 0x25); (chars "OP_PUSHBYTES_38", 0x26); (chars "OP_PUSHBYTES_39", 0x27);
  (chars "OP_PUSHBYTES_40", 0x28); (chars "OP_PUSHBYTES_41", 0x29); (chars "OP_PUSHBYTES_42", 0x2a); (chars "OP_PUSHBYTES_43", 0x2b);
  (chars "OP_PUSHBYTES_44", 0x2c); (chars "OP_PUSHBYTES_45", 0x2d); (chars "OP_PUSHBYTES_46", 0x2e); (chars "OP_PUSHBYTES_47", 0x2f);
  (chars "OP_PUSHBYTES_48", 0x30); (chars "OP_PUSHBYTES_49", 0x31); (chars "OP_PUSHBYTES_50", 0x32); (chars "OP_PUSHBYTES_51", 0x33);
  (chars "OP_PUSHBYTES_52", 0x34); (chars "OP_PUSHBYTES_53", 0x35); (chars "OP_PUSHBYTES_54", 0x36); (chars "OP_PUSHBYTES_55", 0x37);
  (chars "OP_PUSHBYTES_56", 0x38); (chars "OP_PUSHBYTES_57", 0x39); (chars "OP_PUSHBYTES_58", 0x3a); (chars "OP_PUSHBYTES_59", 0x3b);
  (chars "OP_PUSHBYTES_60", 0x3c); (chars "OP_PUSHBYTES_61", 0x3d); (chars "OP_PUSHBYTES_62", 0x3e); (chars "OP_PUSHBYTES_63", 0x3f);
  (chars "OP_PUSHBYTES_64", 0x40); (chars "OP_PUSHBYTES_65", 0x41); (chars "OP_PUSHBYTES_66", 0x42); (chars "OP_PUSHBYTES_67", 0x43);
  (chars "OP_PUSHBYTES_68", 0x44); (chars "OP_PUSHBYTES_69", 0x45); (chars "OP_PUSHBYTES_70", 0x46); (chars "OP_PUSHBYTES_71", 0x47);
  (chars "OP_PUSHBYTES_72", 0x48); (chars "OP_PUSHBYTES_73", 0x49); (chars "OP_PUSHBYTES_74", 0x4a); (chars "OP_PUSHBYTES_75", 0x4b);
  (chars "OP_PUSHDATA1", 0x4c); (chars "OP_PUSHDATA2", 0x4d); (chars "OP_PUSHDATA4", 0x4e); (chars "OP_PUSHNUM_NEG1", 0x4f);
  (chars "OP_RESERVED", 0x50); (chars "OP_PUSHNUM_1", 0x51); (chars "OP_PUSHNUM_2", 0x52); (chars "OP_PUSHNUM_3", 0x53);
  (chars "OP_PUSHNUM_4", 0x54); (chars "OP_PUSHNUM_5", 0x55); (chars "OP_PUSHNUM_6", 0x56); (chars "OP_PUSHNUM_7", 0x57);
  (chars "OP_PUSHNUM_8", 0x58); (chars "OP_PUSHNUM_9", 0x59); (chars "OP_PUSHNUM_10", 0x5a); (chars "OP_PUSHNUM_11", 0x5b);
  (chars "OP_PUSHNUM_12", 0x5c); (chars "OP_PUSHNUM_13", 0x5d); (chars "OP_PUSHNUM_14", 0x5e); (chars "OP_PUSHNUM_15", 0x5f);
  (chars "OP_PUSHNUM_16", 0x60)].

Definition BODY_OPCODES : list (str * Z) := [
  (chars "OP_NOP", 0x61); (chars "OP_VER", 0x62); (chars "OP_IF", 0x63); (chars "OP_NOTIF", 0x64);
  (chars "OP_VERIF", 0x65); (chars "OP_VERNOTIF", 0x66); (chars "OP_ELSE", 0x67); (chars "OP_ENDIF", 0x68);
  (chars "OP_VERIFY", 0x69); (chars "OP_RETURN", 0x6a); (chars "OP_TOALTSTACK", 0x6b); (chars "OP_FROMALTSTACK", 0x6c);
  (chars "OP_2DROP", 0x6d); (chars "OP_2DUP", 0x6e); (chars "OP_3DUP", 0x6f); (chars "OP_2OVER", 0x70);
  (chars "OP_2ROT", 0x71); (chars "OP_2SWAP", 0x72); (chars "OP_IFDUP", 0x73); (chars "OP_DEPTH", 0x74);
  (chars "OP_DROP", 0x75); (chars "OP_DUP", 0x76); (chars "OP_NIP", 0x77); (chars "OP_OVER", 0x78);
  (chars "OP_PICK", 0x79); (chars "OP_ROLL", 0x7a); (chars "OP_ROT", 0x7b); (chars "OP_SWAP", 0x7c);
  (chars "OP_TUCK", 0x7d); (chars "OP_CAT", 0x7e); (chars "OP_SUBSTR", 0x7f); (chars "OP_LEFT", 0x80);
  (chars "OP_RIGHT", 0x81); (chars "OP_SIZE", 0x82); (chars "OP_INVERT", 0x83); (chars "OP_AND", 0x84);
  (chars "OP_OR", 0x85); (chars "OP_XOR", 0x86); (chars "OP_EQUAL", 0x87); (chars "OP_EQUALVERIFY", 0x88);
  (chars "OP_RESERVED1", 0x89); (chars "OP_RESERVED2", 0x8a); (chars "OP_1ADD", 0x8b); (chars "OP_1SUB", 0x8c);
  (chars "OP_2MUL", 0x8d); (chars "OP_2DIV", 0x8e); (chars "OP_NEGATE", 0x8f); (chars "OP_ABS", 0x90);
  (chars "OP_NOT", 0x91); (chars "OP_0NOTEQUAL", 0x92); (chars "OP_ADD", 0x93); (chars "OP_SUB", 0x94);
  (chars "OP_MUL", 0x95); (chars "OP_DIV", 0x96); (chars "OP_MOD", 0x97); (chars "OP_LSHIFT", 0x98);
  (chars "OP_RSHIFT", 0x99); (chars "OP_BOOLAND", 0x9a); (chars "OP_BOOLOR", 0x9b); (chars "OP_NUMEQUAL", 0x9c);
  (chars "OP_NUMEQUALVERIFY", 0x9d); (chars "OP_NUMNOTEQUAL", 0x9e); (chars "OP_LESSTHAN", 0x9f); (chars "OP_GREATERTHAN", 0xa0);
  (chars "OP_LESSTHANOREQUAL", 0xa1); (chars "OP_GREATERTHANOREQUAL", 0xa2); (chars "OP_MIN", 0xa3); (chars "OP_MAX", 0xa4);
  (chars "OP_WITHIN", 0xa5); (chars "OP_RIPEMD160", 0xa6); (chars "OP_SHA1", 0xa7); (chars "OP_SHA256", 0xa8);
  (chars "OP_HASH160", 0xa9); (chars "OP_HASH256", 0xaa); (chars "OP_CODESEPARATOR", 0xab); (chars "OP_CHECKSIG", 0xac);
  (chars "OP_CHECKSIGVERIFY", 0xad); (chars "OP_CHECKMULTISIG", 0xae); (chars "OP_CHECKMULTISIGVERIFY", 0xaf); (chars "OP_NOP1", 0xb0);
  (chars "OP_CLTV", 0xb1); (chars "OP_CSV", 0xb2); (chars "OP_NOP4", 0xb3); (chars "OP_NOP5", 0xb4);
  (chars "OP_NOP6", 0xb5); (chars "OP_NOP7", 0xb6); (chars "OP_NOP8", 0xb7); (chars "OP_NOP9", 0xb8);
  (chars "OP_NOP10", 0xb9); (chars "OP_CHECKSIGADD", 0xba)].

Definition RETURN_OPCODES : list (str * Z) := [
  (chars "OP_RETURN_187", 0xbb); (chars "OP_RETURN_188", 0xbc); (chars "OP_RETURN_189", 0xbd); (chars "OP_RETURN_190", 0xbe);
  (chars "OP_RETURN_191", 0xbf); (chars "OP_RETURN_192", 0xc0); (chars "OP_RETURN_193", 0xc1); (chars "OP_RETURN_194", 0xc2);
  (chars "OP_RETURN_195", 0xc3); (chars "OP_RETURN_196", 0xc4); (chars "OP_RETURN_197", 0xc5); (chars "OP_RETURN_198", 0xc6);
  (chars "OP_RETURN_199", 0xc7); (chars "OP_RETURN_200", 0xc8); (chars "OP_RETURN_201", 0xc9); (chars "OP_RETURN_202", 0xca);
  (chars "OP_RETURN_203", 0xcb); (chars "OP_RETURN_204", 0xcc); (chars "OP_RETURN_205", 0xcd); (chars "OP_RETURN_206", 0xce);
  (chars "OP_RETURN_207", 0xcf); (chars "OP_RETURN_208", 0xd0); (chars "OP_RETURN_209", 0xd1); (chars "OP_RETURN_210", 0xd2);
  (chars "OP_RETURN_211", 0xd3); (chars "OP_RETURN_212", 0xd4); (chars "OP_RETURN_213", 0xd5); (chars "OP_RETURN_214", 0xd6);
  (chars "OP_RETURN_215", 0xd7); (chars "OP_RETURN_216", 0xd8); (chars "OP_RETURN_217", 0xd9); (chars "OP_RETURN_218", 0xda);
  (chars "OP_RETURN_219", 0xdb); (chars "OP_RETURN_220", 0xdc); (chars "OP_RETURN_221", 0xdd); (chars "OP_RETURN_222", 0xde);
  (chars "OP_RETURN_223", 0xdf); (chars "OP_RETURN_224", 0xe0); (chars "OP_RETURN_225", 0xe1); (chars "OP_RETURN_226", 0xe2);
  (chars "OP_RETURN_227", 0xe3); (chars "OP_RETURN_228", 0xe4); (chars "OP_RETURN_229", 0xe5); (chars "OP_RETURN_230", 0xe6);
  (chars "OP_RETURN_231", 0xe7); (chars "OP_RETURN_232", 0xe8); (chars "OP_RETURN_233", 0xe9); (chars "OP_RETURN_234", 0xea);
  (chars "OP_RETURN_235", 0xeb); (chars "OP_RETURN_236", 0xec); (chars "OP_RETURN_237", 0xed); (chars "OP_RETURN_238", 0xee);
  (chars "OP_RETURN_239", 0xef); (chars "OP_RETURN_240", 0xf0); (chars "OP_RETURN_241", 0xf1); (chars "OP_RETURN_242", 0xf2);
  (chars "OP_RETURN_243", 0xf3); (chars "OP_RETURN_244", 0xf4); (chars "OP_RETURN_245", 0xf5); (chars "OP_RETURN_246", 0xf6);
  (chars "OP_RETURN_247", 0xf7); (chars "OP_RETURN_248", 0xf8); (chars "OP_RETURN_249", 0xf9); (chars "OP_RETURN_250", 0xfa);
  (chars "OP_RETURN_251", 0xfb); (chars "OP_RETURN_252", 0xfc); (chars "OP_RETURN_253", 0xfd); (chars "OP_RETURN_254", 0xfe);
  (chars "OP_INVALIDOPCODE", 0xff)].

Definition all_opcodes : list (str * Z) := PUSH_OPCODES ++ BODY_OPCODES ++ RETURN_OPCODES.

(** The match of [Display] has an arm for every opcode. *)
Definition display_opcode (self : Z) : run str :=
  match List.find (fun nc => snd nc =? self) all_opcodes with Some (name, _) => Ret name | None => Panic end.

(** ** The text of a script *)

Definition SPACE : Z := 0x20.
Definition UNEXPECTED_END : str := chars "<unexpected end>".
Definition PAST_END : str := chars "<push past end>".

(** [read_push_data_len!]: [inl] is the text written before leaving the loop. *)
Definition read_push_data_len (iter : list byte) (len : nat) : (str + Z) * list byte :=
  let '(r, iter) := read_uint_iter iter len in
  (match r with
   | Ok n => inr n
   | Err UEarlyEndOfScript => inl UNEXPECTED_END
   | Err UNumericOverflow => inl PAST_END
   end, iter).

Definition asm_data_len (opcode : Z) (class : Class) (iter : list byte) : (str + Z) * list byte :=
  match class with
  | PushBytesClass n => (inr n, iter)
  | _ =>
      if opcode =? OP_PUSHDATA1 then read_push_data_len iter 1
      else if opcode =? OP_PUSHDATA2 then read_push_data_len iter 2
      else if opcode =? OP_PUSHDATA4 then read_push_data_len iter 4
      else (inr 0, iter)
  end.

(** [{:02x}] of every byte. *)
Definition write_hex_bytes (bs : list byte) : str := PlainHex.lower bs.

(** Every turn consumes a byte of the script, so its length is enough fuel. *)
Fixpoint asm_loop (fuel : nat) (iter : list byte) (at_least_one : bool) (f : str) : run str :=
  match fuel, iter with
  | S fuel, byte :: iter =>
      let opcode := byte.unsigned byte in
      class ← classify opcode Legacy;
      match asm_data_len opcode class iter with
      | (inl mark, _) => Ret (f ++ mark)
      | (inr data_len, iter) =>
          let f := if at_least_one then f ++ [SPACE] else f in
          name ← (if opcode =? OP_0 then Ret (chars "OP_0") else display_opcode opcode);
          let f := f ++ name in
          if 0 <? data_len then
            let f := f ++ [SPACE] in
            if data_len <=? Z.of_nat (length iter) then
              asm_loop fuel (drop (Z.to_nat data_len) iter) true (f ++ write_hex_bytes (take (Z.to_nat data_len) iter))
            else Ret (f ++ PAST_END)
          else asm_loop fuel iter true f
      end
  | _, _ => Ret f
  end.
Definition bytes_to_asm_fmt (script : list byte) (f : str) : run str := asm_loop (length script) script false f.

Definition to_asm_string (self : list byte) : run str := bytes_to_asm_fmt self [].
Definition display_script (self : list byte) : run str := bytes_to_asm_fmt self [].
Definition debug_script (self : list byte) : run str :=
  f ← bytes_to_asm_fmt self (chars "Script("); Ret (f ++ chars ")").

(** ** The next instruction

    What the text and the iterator have in common: the opcode with its data and the bytes
    after it, a length field that is cut off, or data that is. *)
Inductive Head := HOp (op : Z) (d rest : list byte) | HTruncated | HPast (op : Z).

Definition length_field (op : Z) : option nat :=
  if op =? 0x4c then Some 1%nat else if op =? 0x4d then Some 2%nat else if op =? 0x4e then Some 4%nat else None.
Definition cut (op n : Z) (rest : list byte) : Head :=
  if n <=? Z.of_nat (length rest) then HOp op (take (Z.to_nat n) rest) (drop (Z.to_nat n) rest) else HPast op.
Definition head_of (b : byte) (rest : list byte) : Head :=
  let op := byte.unsigned b in
  match length_field op with
  | Some k => if (length rest <? k)%nat then HTruncated else cut op (le_combine (take k rest)) (drop k rest)
  | None => cut op (if op <=? 0x4b then op else 0) rest
  end.

Definition name (op : Z) : str :=
  if op =? OP_0 then chars "OP_0" else match List.find (fun nc => snd nc =? op) all_opcodes with Some (n, _) => n | None => [] end.
Definition instruction_of (op : Z) (d : list byte) : Instruction := if op <=? 0x4e then PushBytes d else Op op.

Lemma display_name b :
  (if byte.unsigned b =? OP_0 then Ret (chars "OP_0") else display_opcode (byte.unsigned b)) = Ret (name (byte.unsigned b)).
Proof. by destruct b; vm_compute. Qed.

Lemma length_field_small op k : length_field op = Some k -> (k <= 4)%nat /\ 0x4c <= op <= 0x4e.
Proof. unfold length_field. repeat case_match; intros [= <-]; rewrite ?Z.eqb_eq in *; lia. Qed.

Lemma length_field_none op : op <= 0x4b \/ 0x4e < op -> length_field op = None.
Proof. intros H. unfold length_field. by rewrite !(proj2 (Z.eqb_neq _ _)) by lia. Qed.

Lemma read_uint_iter_spec k rest : (k <= 4)%nat ->
  read_uint_iter rest k =
  if (length rest <? k)%nat then (Err UEarlyEndOfScript, rest) else (Ok (le_combine (take k rest)), drop k rest).
Proof.
  intros Hk. unfold read_uint_iter. destruct (Nat.ltb_spec (length rest) k); [done|].
  change (u16_MAX / 8) with 8191. rewrite (proj2 (Z.ltb_ge 8191 _)) by lia.
  rewrite read_uint_loop_spec by (rewrite ?length_take; lia). do 2 f_equal. lia.
Qed.

Lemma asm_data_len_spec b rest : exists class, classify (byte.unsigned b) Legacy = Ret class /\
  asm_data_len (byte.unsigned b) class rest =
  match length_field (byte.unsigned b) with
  | Some k => if (length rest <? k)%nat then (inl UNEXPECTED_END, rest) else (inr (le_combine (take k rest)), drop k rest)
  | None => (inr (if byte.unsigned b <=? 0x4b then byte.unsigned b else 0), rest)
  end.
Proof.
  assert (byte.unsigned b <= 0x4b \/ 0x4c <= byte.unsigned b <= 0x4e \/ 0x4e < byte.unsigned b) as [H|[H|H]] by lia.
  - rewrite legacy_push by done. eexists. split; [done|]. by rewrite length_field_none, (proj2 (Z.leb_le _ _)) by lia.
  - rewrite legacy_pushdata by done. eexists. split; [done|]. unfold asm_data_len, length_field, OP_PUSHDATA1, OP_PUSHDATA2, OP_PUSHDATA4.
    assert (forall k, (k <= 4)%nat -> read_push_data_len rest k =
      if (length rest <? k)%nat then (inl UNEXPECTED_END, rest) else (inr (le_combine (take k rest)), drop k rest)) as E.
    { intros k Hk. unfold read_push_data_len. rewrite read_uint_iter_spec by done. by destruct (length rest <? k)%nat. }
    repeat (case_match; [apply E; lia|]). rewrite !Z.eqb_neq in *. lia.
  - destruct (legacy_other b H) as (c & -> & Hc). exists c. split; [done|]. rewrite length_field_none by lia. unfold asm_data_len, OP_PUSHDATA1, OP_PUSHDATA2, OP_PUSHDATA4.
    rewrite !(proj2 (Z.eqb_neq _ _)), (proj2 (Z.leb_gt _ _)) by lia. by destruct c.
Qed.

(** The words written for an opcode. *)
Definition words (op : Z) (d : list byte) : list str := name op :: match d with [] => [] | _ => [write_hex_bytes d] end.
Definition spaced (l : list str) : str := l ≫= cons SPACE.
Definition unwords (at_least_one : bool) (l : list str) : str :=
  if at_least_one then spaced l else match l with [] => [] | w :: l => w ++ spaced l end.

Lemma unwords_cons al w l : unwords al (w :: l) = (if al then [SPACE] else []) ++ w ++ spaced l.
Proof. by destruct al. Qed.

Lemma asm_step fuel b rest al f :
  asm_loop (S fuel) (b :: rest) al f =
  match head_of b rest with
  | HOp op d rest => asm_loop fuel rest true (f ++ unwords al (words op d))
  | HTruncated => Ret (f ++ UNEXPECTED_END)
  | HPast op => Ret (f ++ unwords al [name op; PAST_END])
  end.
Proof.
  cbn [asm_loop]. destruct (asm_data_len_spec b rest) as (class & -> & E). rewrite bind_Ret, E. unfold head_of. clear E.
  assert (forall n rest, 0 <= n ->
    (name ← (if byte.unsigned b =? OP_0 then Ret (chars "OP_0") else display_opcode (byte.unsigned b));
     let f := (if al then f ++ [SPACE] else f) ++ name in
     if 0 <? n then
       let f := f ++ [SPACE] in
       if n <=? Z.of_nat (length rest) then asm_loop fuel (drop (Z.to_nat n) rest) true (f ++ write_hex_bytes (take (Z.to_nat n) rest))
       else Ret (f ++ PAST_END)
     else asm_loop fuel rest true f) =
    match cut (byte.unsigned b) n rest with
    | HOp op d rest => asm_loop fuel rest true (f ++ unwords al (words op d))
    | HTruncated => Ret (f ++ UNEXPECTED_END)
    | HPast op => Ret (f ++ unwords al [name op; PAST_END])
    end) as Hc.
  { clear. intros n rest Hn. rewrite display_name, bind_Ret. cbv zeta. unfold cut, words.
    assert (forall w, (if al then f ++ [SPACE] else f) ++ w = f ++ (if al then [SPACE] else []) ++ w) as Ef.
    { intros w. destruct al; [by rewrite <- app_assoc|done]. }
    destruct (Z.ltb_spec 0 n) as [H|H].
    - destruct (Z.leb_spec n (Z.of_nat (length rest))) as [Hl|Hl]; rewrite unwords_cons.
      + destruct (take (Z.to_nat n) rest) as [|c d] eqn:Et.
        { apply (f_equal length) in Et. rewrite length_take in Et. cbn in Et. lia. }
        unfold spaced. cbn [mbind list_bind]. by rewrite Ef, app_nil_r, <- !app_assoc.
      + unfold spaced. cbn [mbind list_bind]. by rewrite Ef, app_nil_r, <- !app_assoc.
    - replace n with 0 by lia. rewrite (proj2 (Z.leb_le 0 _)) by lia. cbn [Z.to_nat take drop]. rewrite unwords_cons.
      unfold spaced. cbn [mbind list_bind]. by rewrite Ef, app_nil_r. }
  destruct (length_field (byte.unsigned b)) as [k|]; [|apply Hc; destruct (_ <=? _); [apply byte.unsigned_range|lia]].
  destruct (length rest <? k)%nat; [done|]. apply Hc. apply le_combine_bound.
Qed.

Lemma next_step b rest :
  next (instructions (b :: rest)) =
  Ret match head_of b rest with
      | HOp op d rest => (Some (Ok (instruction_of op d)), instructions rest)
      | _ => (Some (Err EarlyEndOfScript), instructions [])
      end.
Proof.
  assert (forall n r, byte.unsigned b <= 0x4e -> (let '(r, st) := take_slice_or_kill (mkInstructions r false) n in (PushBytes <$> r, st)) =
    match cut (byte.unsigned b) n r with
    | HOp op d rest => (Ok (instruction_of op d), instructions rest)
    | _ => (Err EarlyEndOfScript, instructions [])
    end) as Hc.
  { intros n r Hb. unfold take_slice_or_kill, cut, instruction_of. cbn [data enforce_minimal].
    destruct (n <=? Z.of_nat (length r)); [|done]. by rewrite (proj2 (Z.leb_le _ _)). }
  unfold next, instructions, head_of. cbn [data enforce_minimal].
  assert (byte.unsigned b <= 0x4b \/ 0x4c <= byte.unsigned b <= 0x4e \/ 0x4e < byte.unsigned b) as [H|[H|H]] by lia.
  - rewrite legacy_push, bind_Ret by done. f_equal. rewrite length_field_none, (proj2 (Z.leb_le _ 0x4b)) by lia.
    specialize (Hc (byte.unsigned b) rest ltac:(lia)).
    assert ((let '(r, st) := take_slice_or_kill (mkInstructions rest false) (byte.unsigned b) in (Some (PushBytes <$> r), st)) =
      match cut (byte.unsigned b) (byte.unsigned b) rest with
      | HOp op d rest => (Some (Ok (instruction_of op d)), instructions rest)
      | _ => (Some (Err EarlyEndOfScript), instructions [])
      end) as Hs.
    { destruct (take_slice_or_kill _ _) as [x st]. destruct (cut _ _ _); congruence. }
    destruct rest as [|c rest]; [|exact Hs]. destruct (Z.eqb_spec (byte.unsigned b) 0) as [E|E]; [|exact Hs]. by rewrite E.
  - rewrite legacy_pushdata, bind_Ret by done. f_equal. unfold length_field, OP_PUSHDATA1, OP_PUSHDATA2, OP_PUSHDATA4.
    assert (forall k m, (k <= 4)%nat -> (let '(r, st) := next_push_data_len (mkInstructions rest false) k m in (Some r, st)) =
      match (if (length rest <? k)%nat then HTruncated else cut (byte.unsigned b) (le_combine (take k rest)) (drop k rest)) with
      | HOp op d rest => (Some (Ok (instruction_of op d)), mkInstructions rest false)
      | _ => (Some (Err EarlyEndOfScript), mkInstructions [] false)
      end) as E.
    { intros k m Hk. unfold next_push_data_len. cbn [data enforce_minimal]. rewrite read_uint_iter_spec by done.
      destruct (Nat.ltb_spec (length rest) k) as [Hl|Hl]; [done|]. cbn [andb enforce_minimal].
      pose proof (le_combine_bound (take k rest)) as Hn. rewrite length_take_le in Hn by done.
      pose proof (Z.pow_le_mono_r 2 (8 * Z.of_nat k) 32 ltac:(lia) ltac:(lia)).
      rewrite (proj2 (Z.ltb_ge u32_MAX _)) by (unfold u32_MAX; lia).
      specialize (Hc (le_combine (take k rest)) (drop k rest) ltac:(lia)). unfold instructions in Hc.
      destruct (take_slice_or_kill _ _) as [x st]. destruct (cut _ _ _); congruence. }
    repeat (case_match; [apply E; lia|]). rewrite !Z.eqb_neq in *. lia.
  - destruct (legacy_other b H) as (c & -> & Hk). rewrite bind_Ret. rewrite length_field_none, (proj2 (Z.leb_gt _ 0x4b)) by lia.
    unfold cut, instruction_of. rewrite (proj2 (Z.leb_le 0 _)), (proj2 (Z.leb_gt _ 0x4e)) by lia. cbn [Z.to_nat drop].
    destruct c; try done. unfold OP_PUSHDATA1, OP_PUSHDATA2, OP_PUSHDATA4. by rewrite !(proj2 (Z.eqb_neq _ _)) by lia.
Qed.

(** ** The whole script *)

Inductive Ending := Complete | Truncated | Past (op : Z).
Fixpoint decode_script (fuel : nat) (s : list byte) : list (Z * list byte) * Ending :=
  match fuel, s with
  | S fuel, b :: rest =>
      match head_of b rest with
      | HOp op d rest => let '(l, e) := decode_script fuel rest in ((op, d) :: l, e)
      | HTruncated => ([], Truncated)
      | HPast op => ([], Past op)
      end
  | _, _ => ([], Complete)
  end.

Definition item_words (item : Z * list byte) : list str := words (fst item) (snd item).
Definition ending_words (e : Ending) : list str := match e with Past op => [name op; PAST_END] | _ => [] end.
Definition ending_mark (e : Ending) : str := match e with Truncated => UNEXPECTED_END | _ => [] end.

Lemma head_of_shorter b rest op d r : head_of b rest = HOp op d r -> (length r <= length rest)%nat.
Proof.
  assert (forall n r', cut (byte.unsigned b) n r' = HOp op d r -> (length r <= length r')%nat) as Hc.
  { intros n r'. unfold cut. case_match; [|done]. intros [= _ _ <-]. rewrite length_drop. lia. }
  unfold head_of. destruct (length_field _) as [k|]; [|apply Hc]. destruct (_ <? _)%nat; [done|]. intros E. apply Hc in E.
  rewrite length_drop in E. lia.
Qed.

Lemma spaced_app l l' : spaced (l ++ l') = spaced l ++ spaced l'.
Proof. apply bind_app. Qed.

Lemma unwords_app al l l' : l <> [] -> unwords al (l ++ l') = unwords al l ++ spaced l'.
Proof. destruct l as [|w l]; [done|]. intros _. cbn [app]. rewrite !unwords_cons, spaced_app. by rewrite <- !app_assoc. Qed.

Lemma asm_decode fuel : forall s al f, (length s <= fuel)%nat ->
  asm_loop fuel s al f = let '(l, e) := decode_script fuel s in Ret (f ++ unwords al ((l ≫= item_words) ++ ending_words e) ++ ending_mark e).
Proof.
  induction fuel as [|fuel IH]; intros s al f Hl.
  { destruct s; [|cbn in Hl; lia]. cbn. by destruct al; rewrite app_nil_r. }
  destruct s as [|b rest]; [cbn; by destruct al; rewrite app_nil_r|]. rewrite asm_step. cbn [decode_script].
  destruct (head_of b rest) as [op d r| |op] eqn:E.
  - pose proof (head_of_shorter _ _ _ _ _ E). cbn [length] in Hl. rewrite IH by lia. destruct (decode_script fuel r) as [l e].
    change (((op, d) :: l) ≫= item_words) with (words op d ++ (l ≫= item_words)). rewrite <- (app_assoc (words op d)), (unwords_app al (words op d)) by done. change (unwords true) with spaced. by rewrite <- !app_assoc.
  - cbn. by destruct al.
  - cbn [mbind list_bind app ending_words ending_mark]. by rewrite app_nil_r.
Qed.

Lemma collect_decode fuel : forall s, (length s <= fuel)%nat ->
  collect_from fuel (instructions s) =
  let '(l, e) := decode_script fuel s in
  Ret (map (fun it => Ok (instruction_of (fst it) (snd it))) l ++ match e with Complete => [] | _ => [Err EarlyEndOfScript] end).
Proof.
  assert (forall fuel, collect_from fuel (instructions []) = Ret []) as H0 by (by intros []).
  induction fuel as [|fuel IH]; intros s Hl; [destruct s; [done|cbn in Hl; lia]|].
  destruct s as [|b rest]; [done|]. cbn [collect_from decode_script]. rewrite next_step, bind_Ret.
  destruct (head_of b rest) as [op d r| |op] eqn:E.
  - pose proof (head_of_shorter _ _ _ _ _ E). cbn [length] in Hl. rewrite IH by lia. by destruct (decode_script fuel r) as [l e].
  - by rewrite H0, bind_Ret.
  - by rewrite H0, bind_Ret.
Qed.

(** ** Reading the text back *)

Definition item_bytes (item : Z * list byte) : list byte :=
  byte.of_Z (fst item) :: match length_field (fst item) with Some k => le_split k (Z.of_nat (length (snd item))) | None => [] end ++ snd item.
Definition is_byte (op : Z) : Prop := 0 <= op < 256.

Lemma head_of_bytes b rest op d r : head_of b rest = HOp op d r -> is_byte op /\ b :: rest = item_bytes (op, d) ++ r.
Proof.
  pose proof (byte.unsigned_range b) as Hr. unfold head_of, item_bytes, cut. cbn [fst snd].
  destruct (length_field (byte.unsigned b)) as [k|] eqn:Ek.
  - destruct (length_field_small _ _ Ek) as [Hk _]. destruct (Nat.ltb_spec (length rest) k) as [Hl|Hl]; [done|].
    pose proof (le_combine_bound (take k rest)) as Hn.
    destruct (Z.leb_spec (le_combine (take k rest)) (Z.of_nat (length (drop k rest)))) as [Hd|Hd]; [|done].
    intros [= <- <- <-]. split; [exact Hr|]. rewrite Ek, byte.of_Z_unsigned, length_take_le, Z2Nat.id by lia. cbn [app]. f_equal.
    pose proof (split_le_combine (take k rest)) as Es. rewrite length_take_le in Es by lia. rewrite Es, <- app_assoc, take_drop.
    by rewrite take_drop.
  - destruct (Z.leb_spec (if byte.unsigned b <=? 75 then byte.unsigned b else 0) (Z.of_nat (length rest))); [|done].
    intros [= <- <- <-]. split; [exact Hr|]. rewrite Ek, byte.of_Z_unsigned. cbn [app]. by rewrite take_drop.
Qed.

Lemma decode_bytes fuel : forall s l, (length s <= fuel)%nat -> decode_script fuel s = (l, Complete) ->
  s = l ≫= item_bytes /\ Forall (fun it => is_byte (fst it)) l.
Proof.
  induction fuel as [|fuel IH]; intros s l Hl; [destruct s; [by intros [= <-]|cbn in Hl; lia]|].
  destruct s as [|b rest]; [by intros [= <-]|]. cbn [decode_script].
  destruct (head_of b rest) as [op d r| |op] eqn:E; [|done..]. destruct (decode_script fuel r) as [l' e] eqn:Ed. intros [= <- ->].
  pose proof (head_of_shorter _ _ _ _ _ E). cbn [length] in Hl. apply head_of_bytes in E as [Hop ->].
  destruct (IH r l' ltac:(lia) Ed) as [-> Hf]. split; [done|by constructor].
Qed.

(** Words have no spaces and no error marks, names and data differ in their first character. *)
Definition LESS : Z := 0x3c.
Definition plain_word (w : str) : Prop := w <> [] /\ lacks SPACE w /\ lacks LESS w.

Lemma name_facts op : is_byte op -> plain_word (name op) /\ head (name op) = Some 0x4f.
Proof.
  intros Hop. assert (forall b, let w := name (byte.unsigned b) in
    (negb (bool_decide (w = [])) && forallb (fun d => negb (d =? SPACE)) w && forallb (fun d => negb (d =? LESS)) w &&
    bool_decide (head w = Some 0x4f)) = true) as H by (intros []; vm_compute; done).
  specialize (H (byte.of_Z op)). rewrite byte_unsigned_of_Z in H by done. cbv zeta in H.
  rewrite !andb_true_iff, negb_true_iff, bool_decide_eq_true, bool_decide_eq_false, !forallb_lacks in H. unfold plain_word. tauto.
Qed.

Lemma name_inj op op' : is_byte op -> is_byte op' -> name op = name op' -> op = op'.
Proof.
  intros H H' E. assert (forallb (fun i => forallb (fun j => (i =? j) || negb (bool_decide (name i = name j))) (seqZ 0 256)) (seqZ 0 256) = true) as Ha
    by (vm_compute; done).
  rewrite forallb_forall in Ha. assert (forall i, is_byte i -> In i (seqZ 0 256)) as Hin by (intros i Hi; apply list_elem_of_In, elem_of_seqZ; unfold is_byte in Hi; lia).
  specialize (Ha op (Hin op H)). rewrite forallb_forall in Ha. specialize (Ha op' (Hin op' H')).
  rewrite bool_decide_eq_true_2 in Ha by done. rewrite orb_false_r in Ha. by apply Z.eqb_eq.
Qed.

Lemma hex_facts d : d <> [] -> plain_word (write_hex_bytes d) /\ head (write_hex_bytes d) <> Some 0x4f.
Proof.
  intros Hd. assert (forall d, Forall (fun c => is_lower_hex c = true) (write_hex_bytes d)) as Hl.
  { clear. induction d as [|b d IH]; [constructor|]. destruct (PlainHex.nibbles b) as (H1 & H2 & _).
    cbn. repeat constructor; [by apply PlainHex.lower_digit..|exact IH]. }
  specialize (Hl d). rewrite List.Forall_forall in Hl.
  split; [split_and!|].
  - destruct d; [done|discriminate].
  - intros Hin. by apply Hl in Hin.
  - intros Hin. by apply Hl in Hin.
  - destruct (write_hex_bytes d) as [|c w]; [done|]. intros [= ->]. by specialize (Hl 0x4f (or_introl eq_refl)).
Qed.

Lemma hex_inj d d' : write_hex_bytes d = write_hex_bytes d' -> d = d'.
Proof.
  intros E. assert (map lowercase (PlainHex.lower d') = PlainHex.lower d') as Hl.
  { clear. induction d' as [|b d IH]; [done|]. destruct (PlainHex.nibbles b) as (H1 & H2 & _). cbn. f_equal; [|f_equal; [|exact IH]].
    - unfold lowercase, PlainHex.digit_char, is_upper_letter. repeat case_match; rewrite ?andb_true_iff, ?Z.leb_le, ?Z.ltb_lt, ?Z.ltb_ge in *; lia.
    - unfold lowercase, PlainHex.digit_char, is_upper_letter. repeat case_match; rewrite ?andb_true_iff, ?Z.leb_le, ?Z.ltb_lt, ?Z.ltb_ge in *; lia. }
  assert (PlainHex.pairs (PlainHex.lower d') = Some d) as H1 by (apply PlainHex.pairs_iff; by rewrite Hl).
  assert (PlainHex.pairs (PlainHex.lower d') = Some d') as H2 by (apply PlainHex.pairs_iff; by rewrite Hl). congruence.
Qed.

Lemma words_inj l : forall l', Forall (fun it => is_byte (fst it)) l -> Forall (fun it => is_byte (fst it)) l' ->
  l ≫= item_words = l' ≫= item_words -> l = l'.
Proof.
  assert (forall (d d' : list byte) (l l' : list (Z * list byte)), Forall (fun it => is_byte (fst it)) l' ->
    match d with [] => [] | _ => [write_hex_bytes d] end ++ (l ≫= item_words) = match d' with [] => [] | _ => [write_hex_bytes d'] end ++ (l' ≫= item_words) ->
    d' = [] -> d <> [] -> False) as Hx.
  { intros d d' l0 l' Hf E -> Hd. destruct d as [|c d]; [done|]. cbn [app] in E. destruct l' as [|[op d'] l']; [done|].
    apply Forall_inv in Hf. apply (f_equal head) in E. apply (inj Some) in E. destruct (hex_facts (c :: d) ltac:(done)) as [_ Hh]. apply Hh. rewrite E. by apply name_facts. }
  induction l as [|[op d] l IH]; intros [|[op' d'] l'] Hf Hf' E; [done..|].
  pose proof (Forall_inv Hf) as Ho. pose proof (Forall_inv Hf') as Ho'. apply Forall_inv_tail in Hf, Hf'. cbn [fst] in *.
  cbn [mbind list_bind item_words words fst snd app] in E. injection E as En E. apply name_inj in En as ->; [|done..].
  destruct d as [|c d], d' as [|c' d'].
  - f_equal. by apply IH.
  - exfalso. by apply (Hx (c' :: d') [] l' l Hf (eq_sym E)).
  - exfalso. by apply (Hx (c :: d) [] l l' Hf' E).
  - pose proof (f_equal head E) as Eh. apply (inj Some), hex_inj in Eh as ->. apply (f_equal tail) in E. f_equal. by apply IH.
Qed.

Lemma split_word w w' r r' : lacks SPACE w -> lacks SPACE w' ->
  match r with [] => True | c :: _ => c = SPACE end -> match r' with [] => True | c :: _ => c = SPACE end ->
  w ++ r = w' ++ r' -> w = w' /\ r = r'.
Proof.
  revert w'. induction w as [|c w IH]; intros [|c' w'] Hw Hw' Hr Hr' E; [done|..].
  - cbn [app] in E. subst r. subst c'. destruct Hw'. by left.
  - cbn [app] in E. subst r'. subst c. destruct Hw. by left.
  - injection E as -> E. destruct (IH w') as [-> ->]; try done; [intros H; apply Hw; by right|intros H; apply Hw'; by right].
Qed.

Lemma spaced_start l : match spaced l with [] => True | c :: _ => c = SPACE end.
Proof. by destruct l. Qed.

Lemma spaced_inj l : forall l', Forall plain_word l -> Forall plain_word l' -> spaced l = spaced l' -> l = l'.
Proof.
  induction l as [|w l IH]; intros [|w' l'] Hf Hf' E; [done..|]. pose proof (Forall_inv Hf) as (_ & Hw & _). pose proof (Forall_inv Hf') as (_ & Hw' & _).
  apply Forall_inv_tail in Hf, Hf'. injection E as E. apply split_word in E as [-> E]; [|done..|apply spaced_start|apply spaced_start]. f_equal. by apply IH.
Qed.

Lemma unwords_inj l l' : Forall plain_word l -> Forall plain_word l' -> unwords false l = unwords false l' -> l = l'.
Proof.
  intros Hf Hf' E. apply spaced_inj; [done..|]. destruct l as [|w l], l' as [|w' l']; [done|..].
  - exfalso. destruct (Forall_inv Hf') as (Hn & _). cbn [unwords] in E. by destruct w'.
  - exfalso. destruct (Forall_inv Hf) as (Hn & _). cbn [unwords] in E. by destruct w.
  - change (SPACE :: (w ++ spaced l) = SPACE :: (w' ++ spaced l')). f_equal. exact E.
Qed.

Lemma item_words_plain l : Forall (fun it => is_byte (fst it)) l -> Forall plain_word (l ≫= item_words).
Proof.
  induction 1 as [|[op d] l Hop _ IH]; [constructor|]. cbn [mbind list_bind item_words words fst snd app].
  constructor; [by apply name_facts|]. apply Forall_app. split; [|exact IH]. destruct d as [|c d]; [constructor|].
  constructor; [by apply hex_facts|constructor].
Qed.

Lemma lacks_app c s t : lacks c (s ++ t) <-> lacks c s /\ lacks c t.
Proof. unfold lacks. rewrite in_app_iff. tauto. Qed.

Lemma unwords_plain l : Forall plain_word l -> lacks LESS (unwords false l).
Proof.
  assert (forall l, Forall plain_word l -> lacks LESS (spaced l)) as Hs.
  { induction 1 as [|w l' (_ & _ & Hw) _ IH]; [intros []|]. change (lacks LESS ((SPACE :: w) ++ spaced l')).
    apply lacks_app. split; [|done]. intros [E|E]; [done|]. by apply Hw. }
  destruct 1 as [|w l' (_ & _ & Hw) Hf]; [intros []|]. apply lacks_app. auto.
Qed.

(** ** What the text shows *)

Lemma opcode_names (op : Z) : is_byte op -> exists n, display_opcode op = Ret n /\ In (n, op) all_opcodes /\
  forall op', is_byte op' -> display_opcode op' = Ret n -> op' = op.
Proof.
  intros Hop. assert (forallb (fun i => match display_opcode i with
      | Ret n => existsb (fun nc => bool_decide (nc = (n, i))) all_opcodes &&
                 forallb (fun j => (j =? i) || negb (bool_decide (display_opcode j = Ret n))) (seqZ 0 256)
      | Panic => false end) (seqZ 0 256) = true) as H by (vm_compute; done).
  assert (forall i, is_byte i -> In i (seqZ 0 256)) as Hin by (intros i Hi; apply list_elem_of_In, elem_of_seqZ; unfold is_byte in Hi; lia).
  rewrite forallb_forall in H. specialize (H op (Hin op Hop)). destruct (display_opcode op) as [n|]; [|done].
  apply andb_true_iff in H as [H1 H2]. exists n. split_and!; [done| |].
  - apply existsb_exists in H1 as ([n' c] & Hi & Hb). apply bool_decide_eq_true in Hb. congruence.
  - intros op' Hop' E. rewrite forallb_forall in H2. specialize (H2 op' (Hin op' Hop')). rewrite bool_decide_eq_true_2 in H2 by done.
    rewrite orb_false_r in H2. by apply Z.eqb_eq.
Qed.

(** Every script has a text, which shows an error mark exactly when iterating over the script
    ends in an error; two scripts without errors that have the same text are equal. *)
Lemma asm_exact (s : list byte) : exists text items, to_asm_string s = Ret text /\ collect (instructions s) = Ret items /\
  (In LESS text <-> exists e, In (Err e) items) /\
  forall s' il il', items = map Ok il -> collect (instructions s') = Ret (map Ok il') -> to_asm_string s' = Ret text -> s' = s.
Proof.
  unfold to_asm_string, bytes_to_asm_fmt, collect. cbn [data instructions]. rewrite asm_decode, collect_decode by done.
  destruct (decode_script (length s) s) as [l e] eqn:Ed. eexists _, _. split; [done|]. split; [done|]. cbn [app].
  assert (forall s l e il, decode_script (length s) s = (l, e) ->
    map (fun it => Ok (instruction_of (fst it) (snd it))) l ++ match e with Complete => [] | _ => [Err EarlyEndOfScript] end = map Ok il -> e = Complete) as Hc.
  { intros s0 l0 e0 il _ E. destruct e0; [done|exfalso..].
    all: assert (In (Err EarlyEndOfScript) (map (Ok (E:=ScriptError)) il)) as Hin by (rewrite <- E; apply in_app_iff; right; by left).
    all: by apply in_map_iff in Hin as (? & ? & _). }
  split.
  - destruct e.
    + rewrite !app_nil_r. destruct (decode_bytes _ _ _ ltac:(done) Ed) as [_ Hf]. split.
      * intros Hin. by apply unwords_plain in Hin; [|apply item_words_plain].
      * intros (e & He). by apply in_map_iff in He as (? & ? & _).
    + split; [|intros _; apply in_app_iff; right; by left]. intros _. exists EarlyEndOfScript. apply in_app_iff. right. by left.
    + split; [|intros _]; [intros _; exists EarlyEndOfScript; apply in_app_iff; right; by left|].
      rewrite app_nil_r. cbn [ending_words]. assert (In LESS (spaced [name op; PAST_END])) as Hi.
      { change (In LESS ((SPACE :: name op) ++ SPACE :: PAST_END)). apply in_app_iff. right. right. by left. }
      destruct (l ≫= item_words) as [|w ws] eqn:Ew.
      * change (In LESS (name op ++ SPACE :: PAST_END)). apply in_app_iff. right. right. by left.
      * rewrite unwords_app by done. apply in_app_iff. by right.
  - intros s' il il' Ei. pose proof (Hc _ _ _ _ Ed Ei) as ->. rewrite asm_decode, collect_decode by done.
    destruct (decode_script (length s') s') as [l' e'] eqn:Ed'. intros [= Ei'] [= Et]. pose proof (Hc _ _ _ _ Ed' Ei') as ->.
    cbn [ending_words ending_mark] in Et. rewrite !app_nil_r in Et.
    destruct (decode_bytes _ _ _ ltac:(done) Ed) as [-> Hf]. destruct (decode_bytes _ _ _ ltac:(done) Ed') as [-> Hf'].
    apply unwords_inj, words_inj in Et as ->; [done..|by apply item_words_plain|by apply item_words_plain].
Qed.

(** The mark of a length field that is cut off follows the last word without a space. *)
Lemma truncated_mark_not_separated : to_asm_string (map byte.of_Z [0x76; 0x4c]) = Ret (chars "OP_DUP<unexpected end>").
Proof. reflexivity. Qed.
